(* ===== verification/_CoqProject ===== *)
-Q . S2P
Prelude.v
Contracts.v
Walks.v
Scheduler.v
SchedulerInv.v
SchedulerProps.v
SchedulerThms.v
Supervisor.v
Utf8.v
Text.v
Codes.v
Sse.v
SseThms.v
EventStream.v
Output.v
Generations.v
Notifications.v
Policy.v
Net.v
Egress.v
Paths.v
Deny.v
Flights.v
Procedure.v
Requests.v
Identity.v
Learning.v
LearningThms.v
Store.v
LearningStore.v
LearningStoreThms.v
LearningProps.v
Actions.v
ActionsThms.v
TaskDb.v
PlanGate.v
TaskStore.v
TaskCalls.v
TaskStoreThms.v
TaskStoreInv.v
TaskStoreKept.v
Codecs.v
TaskStoreProps.v
Routes.v
LedgerDb.v
Ledger.v
Sends.v
LedgerCalls.v
Compaction.v
Index.v
LedgerThms.v
LedgerTotals.v
LedgerLive.v
LedgerProps.v
Providers.v
Toml.v
Pages.v
Schema.v
SchemaThms.v
Edits.v
EditsThms.v
EditLaws.v
EditRefine.v
EditReset.v
EditAdmit.v
Effective.v
ConfigProps.v
Publications.v
Served.v
Instructions.v
Ranking.v
Broker.v
BrokerCalls.v
BrokerThms.v
BrokerRuns.v
BrokerLog.v
StoreSends.v
BrokerProps.v
Tools.v
Verification.v
