(* ===== verification/Prelude.v ===== *)
(** * Rivect: a verification library

    Rivect ([src/]) is a coding agent: a Rust daemon that schedules tasks,
    talks to model providers, runs effects under a permission policy and keeps
    its evidence in a store.  This library models the decision logic of the
    program: the code whose answer does not depend on the operating system, and
    the protocols whose order of steps matters.  What the code takes from a
    crate or from the system is a parameter of the definitions that use it (a
    file system, a hash, a codec), with what the code relies on as named
    hypotheses or as the laws of a type class.

    ** Conventions

    - A call that can panic (index out of range, checked arithmetic) or fail to
      return has the type [outcome]: [Ret], [Panic], [Diverge].  A Rust [Result]
      is [result], and a call that changes its object returns the object beside
      its answer, so the state an error path leaves behind is visible.
    - A Rust [String] is the Rocq string of its UTF-8 bytes where it is only
      compared or concatenated, and [bytes] (a list of [Z]) where it is taken
      apart.  Machine integers are [Z] or [nat] with the wrap-around, saturation
      or bound written where the code has one.
    - Names follow the source.  A closed vocabulary (an enum with [as_str] and
      [parse]) is an instance of [Vocabulary], whose laws say that the two
      functions are inverse; the general lemmas of that class then apply.
    - Recursion that the code runs as a loop uses fuel.  Each fuel is computed
      from the state by the definition itself, and a theorem shows that it is
      never used up (or, for [adopt] of the scheduler, exhibits the state on
      which the code itself does not stop).

    ** Files

    [Prelude]: outcomes, results, notations, lists, [Vocabulary].
    [Contracts] ([contracts.rs]): error codes, lifecycles, answers, pages.

    Scheduling.  [Scheduler] is [scheduler.rs]: the node vector, the ready
    queue, slots and units, waits, subtree cancellation, task links.
    [SchedulerInv] has the invariant of the node graph and its preservation,
    [SchedulerProps] and [SchedulerThms] what follows: load and queue bounds, no
    panic, progress, strict FIFO admission, cancellation of whole subtrees, and
    the finding about a replayed create.  [Walks] bounds walks along parent
    links.  [Supervisor] is [supervisor.rs]: the detectors of
    sterile repetition, one reaction per cooldown, bounded memory.

    Streams.  [Utf8], [Sse], [SseThms] ([providers/sse.rs]) and [EventStream]
    ([providers/eventstream.rs]): the incremental parsers are
    independent of how the network cuts the stream, invert the encoding, and stay
    within their byte bounds.  [Output] ([OutputStream] of
    [resources.rs]): the display projection of external output.

    Shared resources ([resources.rs]).  [Generations]:
    capability generations over an abstract file system.  [Flights]:
    one read serves the attempts that ask for the same thing.
    [Notifications]: usage reports and the bounded queue with its resync marker.

    Policy ([policy.rs]).  [Policy]: grants and the mode matrix.
    [Net], [Egress], [Egress]: the normalization of a network target and the
    comparison with an enrolled deny.  [Paths], [Paths]: the canonical
    identity of a path over a parameter file system; the loop of the source is
    also a step relation, and the 40-link budget is the one of the code.
    [Deny] composes the three in the order of [Policy::decide].

    Experience.  [Procedure] ([procedure.rs]): segments derived
    from an executed plan.  [Identity] ([identity.rs]): the rules
    a product base is released with.  [Tools] ([tools.rs]): the command
    catalogue.  [Verification] ([verification.rs]): evidence
    records and their boundary ids.

    Learning ([learning.rs], [state/learning.rs]).  [Text]: the string functions
    of the standard library that the later files share.  [Requests]: request
    kinds and risk surfaces.  [Learning], [LearningThms]: taught deltas, their
    validation, the definition they compose and the measure of its longest
    instruction, corpus verdicts, feedback.  [Store]: the store's errors, its
    connection slot and the transaction discipline (a body that refuses leaves
    the database alone), and the class [JsonCodec] through which rows hold JSON.
    [LearningStore]: candidates, activation, rollback, status, routing feedback
    and the rebinding of identities, with the SQL statements as functions on
    tables; [LearningStoreThms] has their lemmas and [LearningProps] the
    guarantees over the store's own calls.  [Codes] gives every countable type a
    textual code for the concrete stores.

    Planning and tasks ([actions.rs], [state.rs], [state/sql]).  [Actions],
    [ActionsThms]: the catalogue of actions, what a request needs and the rows it
    selects, plan validation with the order of its parts, forks and the strict
    replies of a model; the placing loop has one unit of fuel per part, and a
    theorem shows that it is enough.  [TaskDb]: the tables of tasks, questions,
    obligations, evidence, attempts, events, receipts and plans, and the
    statements the operations share.  [PlanGate]: selections, plan revisions and
    their assessment, the gate that effects wait on with its hold, and the rule
    that blocks and releases a task.  [TaskStore]: creation with its receipt,
    questions and answers, steering, cancelling, pausing, evidence, completion,
    the snapshot and its blockers.  [TaskCalls]: the calls as data, so that a run
    is a list of calls and a sequence of committed transactions.
    [TaskStoreThms]: what each transaction writes, and the relations every
    transaction respects ([tracks]).  [TaskStoreInv] and [TaskStoreKept]: the
    invariant of a task (the gate hold names a closed gate, nothing holds a
    running task, at most one pending question, the plan's mark is on blocked or
    settled tasks) and that every transaction keeps it for every task.
    [TaskStoreProps]: the guarantees over every run.  [Codecs]: the codecs of the
    concrete runs.  Random identifiers are drawn from a parameter sequence, and
    digests are a parameter function.  [Pages]: the pages of a session's tasks
    with the blockers of a whole page at once, the collections of a task, the
    event feed, and the walk that guards a session switch.  The row a task was
    inserted under is a parameter; a walk takes one unit of fuel per page, and
    one more than the rows is enough.

    Budgets and usage ([state.rs], [state/sql], [controller.rs]).  [Routes]: the
    assignments that route a request, and what crosses the ledger with it.
    [LedgerDb]: the tables of budget scopes, reservations, settlements, totals,
    bounded work and observer grants, beside those of the tasks, with their SQL
    statements; an integer column holds 64 bits and a statement that would leave
    them fails.  [Ledger]: scopes, reservations, bounded work and the gate before
    a dispatch.  [Sends]: the dispatch and the settlement of a send, the
    reconciliation on reopening, totals, the cache-read rate of a cohort, grants.
    [LedgerCalls]: the calls as data, between those of the task store.
    [Compaction]: the context a request of a task carries, read from both, and
    the compaction of its history; the digest and the identifiers are parameters.
    [LedgerThms]: the balance every scope keeps; [LedgerTotals]: the incremental
    totals agree with the aggregate; [LedgerLive]: reconciling closes what is
    open; [LedgerProps]: the guarantees over every run.

    Model requests ([model.rs], [instructions.rs], [providers.rs]).  [Providers]:
    the seam to the transports: credential references, recorded contracts and
    routes, errors and their class, the class [Provider] (an adapter is a state
    that answers a manifest) and the offline loopback.  [Instructions]:
    discovery of instruction files over a file system that
    may change between two calls.  [Ranking]: who is eligible for
    a purpose, and the order of candidates, with binary64 prices as
    [spec_float].  [Broker]: the broker's state and every operation of it, over
    the class [Ledger].  [BrokerCalls]: the calls as data, the class [LedgerLaws]
    of what a ledger promises (a send is opened once, and none is forgotten), and
    the record of what crosses to a provider.  [BrokerThms]: the ways a send, a
    walk and a dispatch can go, as inductive relations the definitions satisfy;
    [BrokerRuns]: the invariant of the attempts; [BrokerLog]: what the calls put
    in the record.  [StoreSends] discharges the ledger's laws for the durable
    ledger of [Sends].  [BrokerProps]: the guarantees over every run.

    Configuration ([config.rs]).  [Toml]: a parsed document, as the tree of its
    items in the order of the file, and a JSON value; reading and writing a key.
    The lexer and the writer of the format are a third-party crate: the tree is
    what the code sees, and a parser is a parameter.  [Schema]: the readers of
    every section and the checks that admit a document; [SchemaThms]: the readers
    as relations between the entries of a table and its typed value, and what an
    admitted document keeps.  [Edits]: addresses, targets, the values of both
    carriers, set, reset, moves, and the hint for a rejected key; [EditsThms]:
    the edit distance, the agreement of the carriers, the addresses.  [EditLaws]
    takes an edit apart level by level; [EditRefine] and [EditReset] give each
    edit its meaning as an update of the typed view, and [EditAdmit] shows that
    the edits are exactly those updates and when they are taken.  [Effective]:
    the composition with the shipped base and the entries that name the layer
    that answers.  [ConfigProps]: the guarantees.

    The project index ([state.rs], [state/sql/index.sql], [index.rs],
    [commands.rs]).  [Index]: the generations of the derived graph: reserving a
    number before a build, sealing what the run answers with what it carries from
    the generation it replaces, superseding that one, keeping the newest eight,
    reading one back, and marking one stale.  The run of a build is an argument.
    A seal reads back, with one edge of each identity, the last derived; a build
    over a cut of the documents reads back as the full one; whole builds leave one
    current generation, and an interrupted one is the finding of its error theorem.

    The configuration's file ([config.rs], [state.rs], [executor.rs],
    [executor/linux.rs], the write leg of the sandbox helper).  [Publications]: the
    write identity of a file and its column, the journal of the edits on their way
    to the disk, admission of an edit (one row for one command), the checked write
    from the size ceiling down to the confined child, the receipt, and the recovery
    of the boot.  The operating system is the class [Host], its documented behaviour
    the class [HostLaws], and a disk of named files an instance of both.  Every call
    takes the world it finds, so the theorems hold for any interference between the
    calls; inside one call the world moves only by the call.  The theorems: rows are
    numbered once and only ever gain their receipt; what a publication leaves on
    each of its outcomes; a command that waits, or is done, is not journaled again,
    whatever calls come between;
    recovery receipts its own writes and nothing else, and misses none that landed.

    One configuration command ([commands.rs], [executor.rs]).  [Served] composes
    [Edits], [Effective] and [Publications]: a command edits the retained document,
    publishes it, and serves the new view on every surface or puts the old one
    back; the snapshot of the owner moves with it, and the handoffs of checks are
    compared with that snapshot.  The theorems: the surfaces never disagree, whatever
    the disk does, and a receipt that is lost serves the edit whose bytes are down;
    a success is on the disk; a handoff bound before an accepted edit is
    refused from then on; and the served view is the one the next boot reads.

    ** Not modelled

    Process, socket and file effects ([executor.rs], the sandbox helper), the
    terminal interface, the JSON dispatch of [commands.rs], HTTP transports and
    logins, language servers, the index worker and the updater are system calls
    and serde values around the logic above. Of the store, the tables of sessions
    and retained records, and the migrations of the schema, are not modelled; of
    the actions, the handlers that call the broker. The provider adapters answer
    behind the class [Provider]; the rows of their recorded catalogues are a
    parameter of the ranking. Of the configuration, the installation of a base is
    not modelled. Of the sandbox, its set-up and its probes are answers of [Host].
*)

From stdpp Require Export base tactics option list gmap strings.
From Stdlib Require Export ZArith Lia.
From Stdlib Require Ascii.

(** * Outcomes of Rust code

    A call returns a value, panics (an index out of range, an arithmetic
    overflow in a checked build), or runs forever.  A [Result] returned by the
    code is a value: see [result]. *)

Inductive outcome (A : Type) : Type :=
  | Ret (a : A)
  | Panic
  | Diverge.
Arguments Ret {A} a.
Arguments Panic {A}.
Arguments Diverge {A}.

Inductive result (A E : Type) : Type :=
  | Ok (a : A)
  | Err (e : E).
Arguments Ok {A E} a.
Arguments Err {A E} e.

Definition obind {A B} (k : A -> outcome B) (o : outcome A) : outcome B :=
  match o with
  | Ret a => k a
  | Panic => Panic
  | Diverge => Diverge
  end.

Definition rbind {A B E} (k : A -> result B E) (r : result A E) : result B E :=
  match r with
  | Ok a => k a
  | Err e => Err e
  end.

Definition ok_or {A E} (o : option A) (e : E) : result A E :=
  match o with Some a => Ok a | None => Err e end.

Definition map_err {A E F} (f : E -> F) (r : result A E) : result A F :=
  match r with Ok a => Ok a | Err e => Err (f e) end.

Definition is_ok {A E} (r : result A E) : bool :=
  match r with Ok _ => true | Err _ => false end.

#[export] Set Warnings "-clear-no-such-hyp".

Declare Scope rust_scope.
Delimit Scope rust_scope with rust.
Notation "'let*' x ':=' o 'in' k" := (obind (fun x => k) o)
  (at level 10, x pattern, o at level 200, k at level 200) : rust_scope.
Notation "'let?' x ':=' r 'in' k" := (rbind (fun x => k) r)
  (at level 10, x pattern, r at level 200, k at level 200) : rust_scope.
Open Scope rust_scope.

(** [for x in l { v.push(f(x)?) }] *)
Fixpoint try_map {A B E} (f : A -> result B E) (l : list A) : result (list B) E :=
  match l with
  | [] => Ok []
  | x :: l => let? y := f x in let? ys := try_map f l in Ok (y :: ys)
  end.

(** Indexing [v[i]]: out of range panics. *)
Definition index {A} (l : list A) (i : nat) : outcome A :=
  match l !! i with Some a => Ret a | None => Panic end.

(** * Machine integers *)

Definition u8_max : Z := 255.
Definition u16_max : Z := 65535.
Definition u32_max : Z := 4294967295.
Definition u64_max : Z := 18446744073709551615.
Definition usize_max : Z := u64_max.

(** [checked_add] of a [w]-bit unsigned type, [max] its largest value. *)
Definition checked_add (max a b : Z) : option Z :=
  if bool_decide (a + b <= max)%Z then Some (a + b)%Z else None.
Definition checked_sub (a b : Z) : option Z :=
  if bool_decide (b <= a)%Z then Some (a - b)%Z else None.
Definition saturating_add (max a b : Z) : Z := Z.min max (a + b).
Definition saturating_sub (a b : Z) : Z := Z.max 0 (a - b).

(** [a += b] and [a -= b] in a checked build. *)
Definition add_or_panic (max a b : Z) : outcome Z :=
  match checked_add max a b with Some c => Ret c | None => Panic end.
Definition sub_or_panic (a b : Z) : outcome Z :=
  match checked_sub a b with Some c => Ret c | None => Panic end.

Lemma checked_add_Some max a b c :
  checked_add max a b = Some c <-> (c = a + b /\ a + b <= max)%Z.
Proof.
  unfold checked_add. case_bool_decide as Hb; split; intros H.
  - injection H. lia.
  - destruct H as [-> _]. done.
  - done.
  - lia.
Qed.

Lemma checked_sub_Some a b c :
  checked_sub a b = Some c <-> (c = a - b /\ b <= a)%Z.
Proof.
  unfold checked_sub. case_bool_decide as Hb; split; intros H.
  - injection H. lia.
  - destruct H as [-> _]. done.
  - done.
  - lia.
Qed.

Lemma sub_or_panic_Ret a b : (b <= a)%Z -> sub_or_panic a b = Ret (a - b)%Z.
Proof. intros. unfold sub_or_panic, checked_sub. by rewrite bool_decide_true. Qed.

Lemma add_or_panic_Ret max a b : (a + b <= max)%Z -> add_or_panic max a b = Ret (a + b)%Z.
Proof. intros. unfold add_or_panic, checked_add. by rewrite bool_decide_true. Qed.

(** * Byte strings and slices

    A byte is a [Z] between 0 and 255; a Rust [String] is the list of its UTF-8
    bytes.  Byte counts are compared with the code's limits as [Z]. *)

Definition bytes : Type := list Z.

(** The bytes of a Rocq string: a literal of the code. *)
Definition bytes_of (s : string) : bytes :=
  map (fun c => Z.of_N (Ascii.N_of_ascii c)) (String.list_ascii_of_string s).

Definition zlen {A} (l : list A) : Z := Z.of_nat (length l).

(** [v[from..to]] and [v[from..]]: out of range panics. *)
Definition slice {A} (l : list A) (from to : nat) : outcome (list A) :=
  if decide (from <= to /\ to <= length l) then Ret (take (to - from) (drop from l)) else Panic.
Definition slice_from {A} (l : list A) (from : nat) : outcome (list A) :=
  if decide (from <= length l) then Ret (drop from l) else Panic.

(** [Iterator::position] *)
Fixpoint position {A} (f : A -> bool) (l : list A) : option nat :=
  match l with
  | [] => None
  | x :: l => if f x then Some 0 else S <$> position f l
  end.

(** [Iterator::find] *)
Definition find {A} (f : A -> bool) (l : list A) : option A :=
  i ← position f l; l !! i.

(** [slice::starts_with] and [str::strip_prefix] *)
Fixpoint strip_prefix {A} `{EqDecision A} (p l : list A) : option (list A) :=
  match p, l with
  | [], _ => Some l
  | x :: p, y :: l => if decide (x = y) then strip_prefix p l else None
  | _ :: _, [] => None
  end.
Definition starts_with {A} `{EqDecision A} (p l : list A) : bool :=
  match strip_prefix p l with Some _ => true | None => false end.

(** [Iterator::skip_while] *)
Fixpoint skip_while {A} (f : A -> bool) (l : list A) : list A :=
  match l with x :: l' => if f x then skip_while f l' else l | [] => [] end.

(** [str::split_once] at an ASCII byte. *)
Definition split_once (c : Z) (l : bytes) : option (bytes * bytes) :=
  i ← position (Z.eqb c) l; Some (take i l, drop (S i) l).

Lemma zlen_app {A} (l1 l2 : list A) : zlen (l1 ++ l2) = (zlen l1 + zlen l2)%Z.
Proof. unfold zlen. rewrite length_app. lia. Qed.

Lemma zlen_cons {A} (x : A) l : zlen (x :: l) = (1 + zlen l)%Z.
Proof. unfold zlen. simpl. lia. Qed.

Lemma zlen_nonneg {A} (l : list A) : (0 <= zlen l)%Z.
Proof. unfold zlen. lia. Qed.

Lemma slice_Ret {A} (l : list A) from to :
  from <= to -> to <= length l -> slice l from to = Ret (take (to - from) (drop from l)).
Proof. intros. unfold slice. by rewrite decide_True. Qed.

Lemma slice_from_Ret {A} (l : list A) from : from <= length l -> slice_from l from = Ret (drop from l).
Proof. intros. unfold slice_from. by rewrite decide_True. Qed.

Lemma position_Some {A} (f : A -> bool) l i :
  position f l = Some i <->
  exists pre x post, l = pre ++ x :: post /\ length pre = i /\ f x = true /\
    Forall (fun y => f y = false) pre.
Proof.
  revert i. induction l as [|y l IH]; intros i; simpl.
  - split; [done|]. by intros ([|? ?] & ? & ? & ? & _).
  - destruct (f y) eqn:Hy; split.
    + intros [= <-]. by exists [], y, l.
    + intros ([|z pre] & x & post & E & <- & Hx & Hpre); simplify_eq/=; [done|].
      apply Forall_cons in Hpre as [? _]. congruence.
    + intros H. apply fmap_Some in H as (j & Hj & ->). apply IH in Hj as (pre & x & post & -> & <- & ? & ?).
      exists (y :: pre), x, post. split_and!; [done|done|done|by constructor].
    + intros ([|z pre] & x & post & E & <- & Hx & Hpre); simplify_eq/=; [congruence|].
      apply Forall_cons in Hpre as [_ Hpre].
      rewrite (proj2 (IH (length pre))); [done|]. by exists pre, x, post.
Qed.

Lemma position_None {A} (f : A -> bool) l :
  position f l = None <-> Forall (fun y => f y = false) l.
Proof.
  induction l as [|y l IH]; simpl; [by split|]. rewrite Forall_cons. destruct (f y); [by split; [|intros []]|].
  rewrite <- IH. destruct (position f l); naive_solver.
Qed.

Lemma position_app {A} (f : A -> bool) pre x post :
  Forall (fun y => f y = false) pre -> f x = true ->
  position f (pre ++ x :: post) = Some (length pre).
Proof. intros. apply position_Some. by exists pre, x, post. Qed.

(** The first match of a search. *)
Lemma find_Some {A} (f : A -> bool) l x : find f l = Some x -> x ∈ l /\ f x = true.
Proof.
  unfold find. intros (i & Hi & Hx)%bind_Some. split; [by eapply list_elem_of_lookup_2|].
  apply position_Some in Hi as (pre & y & post & -> & <- & Hy & _).
  rewrite list_lookup_middle in Hx by done. by simplify_eq.
Qed.

Lemma find_None {A} (f : A -> bool) l : find f l = None <-> Forall (fun x => f x = false) l.
Proof.
  rewrite <- position_None. unfold find. split; [|by intros ->].
  destruct (position f l) as [i|] eqn:Hi; [|done]. simpl. intros Hn.
  apply position_Some in Hi as (pre & y & post & -> & <- & _ & _).
  by rewrite list_lookup_middle in Hn.
Qed.

(** A search, one element at a time. *)
Lemma find_cons {A} (f : A -> bool) x l : find f (x :: l) = if f x then Some x else find f l.
Proof. unfold find. simpl. destruct (f x); [done|]. by destruct (position f l). Qed.

Lemma find_app {A} (f : A -> bool) l k :
  find f (l ++ k) = match find f l with Some x => Some x | None => find f k end.
Proof.
  induction l as [|x l IH]; [done|]. cbn [app]. rewrite !find_cons, IH. by destruct (f x).
Qed.

Lemma find_map {A B} (f : A -> bool) (g : B -> bool) (h : B -> A) l :
  (forall x, f (h x) = g x) -> find f (map h l) = h <$> find g l.
Proof.
  intros Hfg. induction l as [|x l IH]; [done|]. cbn [map]. rewrite !find_cons, Hfg, IH. by destruct (g x).
Qed.

Lemma strip_prefix_Some {A} `{EqDecision A} (p l r : list A) :
  strip_prefix p l = Some r <-> l = p ++ r.
Proof.
  revert l. induction p as [|x p IH]; intros [|y l]; simpl; [naive_solver..|].
  case_decide as H; [|naive_solver]. subst. rewrite IH. naive_solver.
Qed.

Lemma strip_prefix_app {A} `{EqDecision A} (p r : list A) : strip_prefix p (p ++ r) = Some r.
Proof. by apply strip_prefix_Some. Qed.

(** * Stored vocabularies

    An enumeration the code writes to disk or to the wire: each value has one
    spelling, and a spelling reads back as the value that has it. *)

Class Vocabulary (A : Type) := {
  spelling : A -> string;
  reading : string -> option A;
  reading_spelling : forall a, reading (spelling a) = Some a;
  spelling_reading : forall s a, reading s = Some a -> spelling a = s;
}.

Lemma spelling_inj `{Vocabulary A} (a b : A) : spelling a = spelling b -> a = b.
Proof. intros E. apply (f_equal reading) in E. rewrite !reading_spelling in E. by simplify_eq. Qed.

(** The two laws, for a reader that is a chain of comparisons. *)
Ltac vocabulary :=
  match goal with
  | |- forall a, _ = Some a => by intros []
  | |- forall s a, _ => intros s a; repeat case_decide; intros; by simplify_eq
  end.

(** * Sums over lists *)

Definition zsum {A} (f : A -> Z) (l : list A) : Z := foldr (fun x acc => f x + acc)%Z 0%Z l.

Section zsum.
Context {A : Type}.
Implicit Types (f g : A -> Z) (l : list A).

Lemma zsum_app f l1 l2 : zsum f (l1 ++ l2) = (zsum f l1 + zsum f l2)%Z.
Proof. induction l1 as [|x l1 IH]; simpl; [done|]. rewrite IH. lia. Qed.

Lemma zsum_insert f l i x y :
  l !! i = Some x -> zsum f (<[i := y]> l) = (zsum f l - f x + f y)%Z.
Proof.
  revert i. induction l as [|z l IH]; intros [|i] H; simplify_eq/=; [lia|].
  rewrite (IH i H). lia.
Qed.

Lemma zsum_nonneg f l : (forall x, 0 <= f x)%Z -> (0 <= zsum f l)%Z.
Proof. intros Hf. induction l as [|x l IH]; simpl; [done|]. specialize (Hf x). lia. Qed.

Lemma zsum_lookup_le f l i x :
  (forall y, 0 <= f y)%Z -> l !! i = Some x -> (f x <= zsum f l)%Z.
Proof.
  intros Hf. revert i. induction l as [|z l IH]; intros [|i] H; simplify_eq/=.
  - pose proof (zsum_nonneg f l Hf). lia.
  - specialize (IH i H). specialize (Hf z). lia.
Qed.

Lemma zsum_ext f g l : (forall i x, l !! i = Some x -> f x = g x) -> zsum f l = zsum g l.
Proof.
  induction l as [|x l IH]; intros H; simpl; [done|].
  rewrite (H 0 x) by done. rewrite IH; [done|]. intros i y Hy. by apply (H (S i)).
Qed.

Lemma zsum_Forall2 f l1 l2 : Forall2 (fun x y => f x = f y) l1 l2 -> zsum f l1 = zsum f l2.
Proof. induction 1; simpl; lia. Qed.

Lemma zsum_pos f l :
  (forall y, 0 <= f y)%Z -> (0 < zsum f l)%Z -> exists i x, l !! i = Some x /\ (0 < f x)%Z.
Proof.
  intros Hf. induction l as [|z l IH]; simpl; [lia|]. intros Hs.
  destruct (decide (0 < f z)%Z) as [Hz|Hz].
  - by exists 0, z.
  - destruct IH as (i & x & Hi & Hx); [specialize (Hf z); lia|]. by exists (S i), x.
Qed.

Lemma zsum_zero f l : (forall i x, l !! i = Some x -> f x = 0%Z) -> zsum f l = 0%Z.
Proof.
  induction l as [|x l IH]; intros H; simpl; [done|].
  rewrite (H 0 x) by done. rewrite IH; [done|]. intros i y Hy. by apply (H (S i)).
Qed.
End zsum.

Create HintDb rivect.
#[export] Hint Resolve zsum_nonneg : rivect.

(** Case analysis on the outcome of a successful call. *)
Ltac inv_ret :=
  repeat match goal with
    | H : obind _ ?o = Ret _ |- _ =>
        let E := fresh "E" in destruct o eqn:E; simpl in H; [|discriminate H|discriminate H]
    | H : rbind _ ?o = Ok _ |- _ =>
        let E := fresh "E" in destruct o eqn:E; simpl in H; [|discriminate H]
    | H : (let '(_, _) := ?p in _) = _ |- _ => destruct p; simpl in H
    end.

(** Total lookup below the length. *)
Lemma lookup_lt_ex {A} (l : list A) i : i < length l -> exists x, l !! i = Some x.
Proof. intros H%lookup_lt_is_Some. destruct H as [x ?]. eauto. Qed.

Lemma index_Ret {A} (l : list A) i x : l !! i = Some x -> index l i = Ret x.
Proof. unfold index. by intros ->. Qed.

(** Two results of the same call are one. *)
Ltac det :=
  match goal with
  | H1 : ?x = Ret _, H2 : ?x = Ret _ |- _ => rewrite H1 in H2; simplify_eq
  end.

#[global] Arguments Nat.modulo : simpl never.
#[global] Arguments Nat.div : simpl never.

(** * Filtered lists *)

(** A filter of a mapped list. *)
Lemma filter_map {A B} (f : A -> B) (P : B -> Prop) (Q : A -> Prop)
    `{!forall y, Decision (P y)} `{!forall x, Decision (Q x)} (l : list A) :
  (forall x, P (f x) <-> Q x) -> filter P (map f l) = map f (filter Q l).
Proof.
  intros HPQ. induction l as [|x l IH]; [done|]. cbn [map]. rewrite !filter_cons, IH.
  destruct (decide (Q x)) as [HQ|HQ]; [rewrite decide_True|rewrite decide_False]; naive_solver.
Qed.

(** Two filters that agree on the elements of the list. *)
Lemma filter_ext_in {A} (P Q : A -> Prop) `{!forall x, Decision (P x)} `{!forall x, Decision (Q x)} (l : list A) :
  (forall x, x ∈ l -> P x <-> Q x) -> filter P l = filter Q l.
Proof.
  induction l as [|x l IH]; intros HPQ; [done|]. rewrite !filter_cons, IH.
  - destruct (HPQ x) as [H1 H2]; [apply elem_of_cons; by left|].
    destruct (decide (P x)) as [HP|HP], (decide (Q x)) as [HQ|HQ]; tauto.
  - intros y Hy. apply HPQ. apply elem_of_cons. by right.
Qed.

(** A filter no element passes, and one that all pass. *)
Lemma filter_none {A} (P : A -> Prop) `{!forall x, Decision (P x)} (l : list A) :
  (forall x, x ∈ l -> ~ P x) -> filter P l = [].
Proof.
  induction l as [|x l IH]; intros HP; [done|]. rewrite filter_cons_False.
  - apply IH. intros y Hy. apply HP. apply elem_of_cons. by right.
  - apply HP. apply elem_of_cons. by left.
Qed.

Lemma filter_all {A} (P : A -> Prop) `{!forall x, Decision (P x)} (l : list A) :
  (forall x, x ∈ l -> P x) -> filter P l = l.
Proof.
  induction l as [|x l IH]; intros HP; [done|]. rewrite filter_cons_True.
  - f_equal. apply IH. intros y Hy. apply HP. apply elem_of_cons. by right.
  - apply HP. apply elem_of_cons. by left.
Qed.

(** A map that changes nothing on the elements of the list. *)
Lemma map_id_in {A} (f : A -> A) (l : list A) : (forall x, x ∈ l -> f x = x) -> map f l = l.
Proof.
  induction l as [|x l IH]; intros Hf; [done|]. simpl. f_equal.
  - apply Hf. apply elem_of_cons. by left.
  - apply IH. intros y Hy. apply Hf. apply elem_of_cons. by right.
Qed.
