(* ===== verification/Contracts.v ===== *)
(** The public contract types of [src/src/contracts.rs] that the modelled
    components exchange: error codes and their CLI exit codes, lifecycles,
    attempt states, answers, events, the bounded page. *)

From S2P Require Import Prelude.

(** Nominal identifiers ([nominal_id!]) are transparent strings. *)
Abbreviation TaskId := string (only parsing).
Abbreviation SessionId := string (only parsing).
Abbreviation QuestionId := string (only parsing).
Abbreviation OptionId := string (only parsing).
Abbreviation CriterionId := string (only parsing).
Abbreviation EvidenceId := string (only parsing).

Definition TEXT_MAX_BYTES : Z := 65536.
Definition ARRAY_MAX_ITEMS : Z := 200.

Inductive ErrorCode :=
  | InvalidInput | UnsupportedVersion | UnknownMethod | NotFound | Conflict
  | StaleIntent | AlreadyTerminal | Denied | CapabilityUnavailable
  | DependencyBlocked | OutcomeUnknown | ContextOverflow | BudgetExhausted
  | StorageUnavailable | OutputLimit | InternalError | ErrCancelled.

#[export] Instance ErrorCode_eq_dec : EqDecision ErrorCode.
Proof. solve_decision. Defined.

Definition error_code_as_str (c : ErrorCode) : string :=
  match c with
  | InvalidInput => "invalid_input"
  | UnsupportedVersion => "unsupported_version"
  | UnknownMethod => "unknown_method"
  | NotFound => "not_found"
  | Conflict => "conflict"
  | StaleIntent => "stale_intent"
  | AlreadyTerminal => "already_terminal"
  | Denied => "denied"
  | CapabilityUnavailable => "capability_unavailable"
  | DependencyBlocked => "dependency_blocked"
  | OutcomeUnknown => "outcome_unknown"
  | ContextOverflow => "context_overflow"
  | BudgetExhausted => "budget_exhausted"
  | StorageUnavailable => "storage_unavailable"
  | OutputLimit => "output_limit"
  | InternalError => "internal_error"
  | ErrCancelled => "cancelled"
  end.

Definition exit_code (c : ErrorCode) : Z :=
  match c with
  | InvalidInput | UnsupportedVersion | UnknownMethod => 2
  | StorageUnavailable | InternalError | OutputLimit => 1
  | ErrCancelled => 130
  | _ => 3
  end.

Inductive RetryClass := RetryNone | Transport | Reconcile | Semantic | Plan.

Record WireError := mkWireError {
  we_code : ErrorCode;
  we_message : string;
  we_boundary_id : option string;
  we_retry_class : RetryClass;
}.

Definition wire_error_new (code : ErrorCode) (message : string) : WireError :=
  {| we_code := code; we_message := message; we_boundary_id := None;
     we_retry_class := RetryNone |}.

Inductive Lifecycle := LRunning | LWaiting | LPaused | LBlocked | LCompleted | LCancelled.

#[export] Instance Lifecycle_eq_dec : EqDecision Lifecycle.
Proof. solve_decision. Defined.

(** The column and wire spelling of a lifecycle. *)
Definition lifecycle_as_str (l : Lifecycle) : string :=
  match l with
  | LRunning => "running"
  | LWaiting => "waiting"
  | LPaused => "paused"
  | LBlocked => "blocked"
  | LCompleted => "completed"
  | LCancelled => "cancelled"
  end.

Definition lifecycle_is_terminal (l : Lifecycle) : bool :=
  match l with LCompleted | LCancelled => true | _ => false end.

Inductive ObligationExecution := Pending | Satisfied | Failed | Stale.

#[export] Instance ObligationExecution_eq_dec : EqDecision ObligationExecution.
Proof. solve_decision. Defined.

Inductive ObligationApplicability := Required | NotApplicable | Unresolved.

#[export] Instance ObligationApplicability_eq_dec : EqDecision ObligationApplicability.
Proof. solve_decision. Defined.

Inductive AnswerAttemptOutcome := Applied | AttemptDenied.

#[export] Instance AnswerAttemptOutcome_eq_dec : EqDecision AnswerAttemptOutcome.
Proof. solve_decision. Defined.

Definition attempt_outcome_from_db (value : string) : option AnswerAttemptOutcome :=
  if decide (value = "applied") then Some Applied
  else if decide (value = "denied") then Some AttemptDenied
  else None.

Record Page (T : Type) := mkPage {
  items : list T;
  snapshot_generation : Z;
  next_cursor : option string;
}.
Arguments mkPage {T}.
Arguments items {T}.
Arguments snapshot_generation {T}.
Arguments next_cursor {T}.

Definition page_new {T} (its : list T) (generation : Z) : Page T :=
  {| items := its; snapshot_generation := generation; next_cursor := None |}.

(** Why a task cannot progress, and what lets it resume. *)
Inductive ResumeCondition :=
  | ByDecision (question_id : QuestionId) (revision : Z)
  | NoReadyAction
  | ByDependency (action_id : string)
  | ByReconciliation (action_id : string).

#[export] Instance ResumeCondition_eq_dec : EqDecision ResumeCondition.
Proof. solve_decision. Defined.

Record Blocker := mkBlocker {
  b_reason : ErrorCode;
  b_owner : string;
  b_condition : ResumeCondition;
}.

#[export] Instance Blocker_eq_dec : EqDecision Blocker.
Proof. solve_decision. Defined.

Inductive EffectClass := Read | Write | Exec | Egress | Model | Control.

#[export] Instance EffectClass_eq_dec : EqDecision EffectClass.
Proof. solve_decision. Defined.

Inductive AttemptState :=
  | Planned | AttemptAdmitted | Running | Confirmed | Rejected | CancelRequested | Unknown.

Definition attempt_is_settled (s : AttemptState) : bool :=
  match s with Confirmed | Rejected | Unknown => true | _ => false end.

(** [Event]; [Value] is [serde_json]'s JSON value, which no modelled code
    looks into. *)
Record Event (Value : Type) := mkEvent {
  ev_schema_version : Z;
  ev_event_id : string;
  ev_aggregate_id : string;
  ev_aggregate_revision : Z;
  ev_cursor : Z;
  ev_session_id : SessionId;
  ev_task_id : option TaskId;
  ev_event_type : string;
  ev_delta : Value;
  ev_origin : string;
}.
Arguments mkEvent {Value}.
Arguments ev_schema_version {Value}.
Arguments ev_event_id {Value}.
Arguments ev_aggregate_id {Value}.
Arguments ev_aggregate_revision {Value}.
Arguments ev_cursor {Value}.
Arguments ev_session_id {Value}.
Arguments ev_task_id {Value}.
Arguments ev_event_type {Value}.
Arguments ev_delta {Value}.
Arguments ev_origin {Value}.

Inductive AnswerSelection :=
  | SelOption (option_id : OptionId)
  | SelCustom (text : string).

#[export] Instance AnswerSelection_eq_dec : EqDecision AnswerSelection.
Proof. solve_decision. Defined.

Inductive Availability :=
  | Enabled
  | Disabled (reason : string).

#[export] Instance Availability_eq_dec : EqDecision Availability.
Proof. solve_decision. Defined.

Record QuestionOption := mkOption {
  option_id : OptionId;
  label : string;
  consequences : string;
  availability : Availability;
}.

#[export] Instance QuestionOption_eq_dec : EqDecision QuestionOption.
Proof. solve_decision. Defined.

Record Question := mkQuestion {
  q_question_id : QuestionId;
  q_question_revision : Z;
  q_task_id : TaskId;
  q_intent_revision : Z;
  q_prompt : string;
  q_options : list QuestionOption;
  q_recommended_option_id : OptionId;
  q_recommendation_basis : string;
}.

Record Criterion := mkCriterion { cr_id : CriterionId; cr_text : string }.

Record CommandDescriptor := mkCommandDescriptor {
  canonical_id : string;
  aliases : list string;
  description : string;
  busy_policy : string;
  available : bool;
  unavailability_reason : option string;
}.

(** An error code's wire spelling identifies it. *)
Lemma error_code_as_str_inj c d : error_code_as_str c = error_code_as_str d -> c = d.
Proof. destruct c, d; simpl; intros H; try reflexivity; discriminate H. Qed.
