(* ===== verification/Walks.v ===== *)
(** Walking a finite map of parent links: how many steps a walk can take
    before it must have revisited a key. *)

From S2P Require Import Prelude.

Section climb.
Context {K : Type} `{Countable K}.
Implicit Types (P : gmap K K) (x y t : K).

(** The [n]-th ancestor of [x]. *)
Fixpoint climb P (n : nat) x : option K :=
  match n with
  | O => Some x
  | S n => match P !! x with Some y => climb P n y | None => None end
  end.

Lemma climb_add P i j x :
  climb P (i + j) x = match climb P i x with Some y => climb P j y | None => None end.
Proof. revert x. induction i as [|i IH]; intros x; simpl; [done|]. by destruct (P !! x). Qed.

Lemma climb_prefix P i j x y : climb P j x = Some y -> i <= j -> is_Some (climb P i x).
Proof.
  intros Hj Hle. replace j with (i + (j - i)) in Hj by lia. rewrite climb_add in Hj.
  destruct (climb P i x); [eauto|done].
Qed.

Lemma nodup_or_dup (l : list K) :
  NoDup l \/ exists i j x, i < j /\ l !! i = Some x /\ l !! j = Some x.
Proof.
  induction l as [|a l IH]; [left; constructor|].
  destruct (decide (a ∈ l)) as [Hin|Hnin].
  - right. apply list_elem_of_lookup in Hin as [j Hj]. exists 0, (S j), a. split; [lia|done].
  - destruct IH as [Hnd|(i & j & x & Hlt & Hi & Hj)]; [left; by constructor|].
    right. exists (S i), (S j), x. split; [lia|done].
Qed.

(** The first [n] keys of a walk of [n] steps. *)
Fixpoint trail P (n : nat) x : list K :=
  match n with
  | O => []
  | S n => x :: match P !! x with Some y => trail P n y | None => [] end
  end.

Lemma trail_lookup P n x i y : trail P n x !! i = Some y -> climb P i x = Some y.
Proof.
  revert x i. induction n as [|n IH]; intros x [|i] Hi; simplify_eq/=; [done|].
  destruct (P !! x); [by apply IH|done].
Qed.

Lemma trail_length P n x y : climb P n x = Some y -> length (trail P n x) = n.
Proof.
  revert x. induction n as [|n IH]; intros x Hn; simpl in *; [done|].
  destruct (P !! x); [|done]. f_equal. by apply IH.
Qed.

Lemma trail_dom P n x y : climb P n x = Some y -> forall z, z ∈ trail P n x -> z ∈ dom P.
Proof.
  revert x. induction n as [|n IH]; intros x Hn z Hz; simpl in *; [set_solver|].
  destruct (P !! x) as [w|] eqn:Hx; [|done]. apply elem_of_cons in Hz as [->|Hz].
  - apply elem_of_dom. eauto.
  - by apply (IH w).
Qed.

(** A walk longer than the map revisits a key. *)
Lemma climb_revisits P n x y :
  climb P n x = Some y -> size P < n ->
  exists i j z, i < j /\ j <= n /\ climb P i x = Some z /\ climb P j x = Some z.
Proof.
  intros Hn Hlt. destruct (nodup_or_dup (trail P n x)) as [Hnd|(i & j & z & Hij & Hi & Hj)].
  - exfalso. assert (length (trail P n x) <= size P); [|rewrite (trail_length _ _ _ y) in *; [lia|done]].
    rewrite <- size_dom, <- (size_list_to_set (C := gset K)) by done.
    apply subseteq_size. intros z Hz. apply (trail_dom P n x y Hn). set_solver.
  - exists i, j, z. split_and!; [done| |by eapply trail_lookup|by eapply trail_lookup].
    apply lookup_lt_Some in Hj. rewrite (trail_length _ _ _ y) in Hj by done. lia.
Qed.

(** Every key a walk reaches, it reaches within [size P] steps. *)
Lemma climb_short P n x t : climb P n x = Some t -> exists m, m <= size P /\ m <= n /\ climb P m x = Some t.
Proof.
  induction (lt_wf n) as [n _ IH]. intros Hn.
  destruct (decide (n <= size P)) as [Hle|Hgt]; [by exists n|].
  destruct (climb_revisits P n x t Hn) as (i & j & z & Hij & Hjn & Hi & Hj); [lia|].
  assert (Hn' : climb P (i + (n - j)) x = Some t).
  { rewrite climb_add, Hi. replace n with (j + (n - j)) in Hn by lia.
    by rewrite climb_add, Hj in Hn. }
  destruct (IH (i + (n - j)) ltac:(lia) Hn') as (m & ? & ? & ?). exists m. split_and!; [done|lia|done].
Qed.

(** A walk that outlasts the map never stops. *)
Lemma climb_forever P x y :
  climb P (S (size P)) x = Some y -> forall n, is_Some (climb P n x).
Proof.
  intros Hy. destruct (climb_revisits P _ x y Hy) as (i & j & z & Hij & Hjn & Hi & Hj); [lia|].
  intros n. induction (lt_wf n) as [n _ IH].
  destruct (decide (n <= j)) as [Hle|Hgt]; [by apply (climb_prefix P n j x z)|].
  destruct (IH (i + (n - j)) ltac:(lia)) as [w Hw].
  exists w. replace n with (j + (n - j)) by lia. rewrite climb_add, Hj.
  by rewrite climb_add, Hi in Hw.
Qed.

(** No key is its own proper ancestor. *)
Definition acyclic P : Prop := forall n x, climb P (S n) x <> Some x.

Lemma acyclic_ends P x : acyclic P -> climb P (S (size P)) x = None.
Proof.
  intros Hac. destruct (climb P (S (size P)) x) as [y|] eqn:Hy; [|done]. exfalso.
  destruct (climb_revisits P _ x y Hy) as (i & j & z & Hij & Hjn & Hi & Hj); [lia|].
  apply (Hac (j - i - 1) z). replace j with (i + S (j - i - 1)) in Hj by lia.
  by rewrite climb_add, Hi in Hj.
Qed.

Lemma acyclic_empty : acyclic (∅ : gmap K K).
Proof. intros n x. simpl. by rewrite lookup_empty. Qed.

Lemma first_hit P k x t :
  (exists m, m < k /\ climb P m x = Some t /\ forall j, j < m -> climb P j x <> Some t) \/
  (forall m, m < k -> climb P m x <> Some t).
Proof.
  induction k as [|k IH]; [right; lia|].
  destruct IH as [(m & Hm & Hmt & Hmin)|Hno]; [left; exists m; split; [lia|done]|].
  destruct (decide (climb P k x = Some t)) as [Hk|Hk].
  - left. exists k. split; [lia|done].
  - right. intros m Hm. destruct (decide (m = k)) as [->|]; [done|]. apply Hno. lia.
Qed.

(** Linking a fresh key, one that no walk from its new parent reaches, keeps
    the map acyclic. *)
Lemma acyclic_insert P t p :
  acyclic P -> P !! t = None -> (forall n, climb P n p <> Some t) -> acyclic (<[t := p]> P).
Proof.
  intros Hac Ht Hp.
  assert (Havoid : forall n x, (forall m, m < n -> climb P m x <> Some t) ->
            climb (<[t := p]> P) n x = climb P n x).
  { induction n as [|n IH]; intros x Hx; [done|]. simpl.
    rewrite lookup_insert_ne by (intros ->; by apply (Hx 0 ltac:(lia))).
    destruct (P !! x) as [y|] eqn:Hxy; [|done]. apply IH. intros m Hm Hy.
    apply (Hx (S m) ltac:(lia)). simpl. by rewrite Hxy. }
  assert (Hpfree : forall n, climb (<[t := p]> P) n p = climb P n p) by (intros; by apply Havoid).
  assert (Hself : forall n, climb (<[t := p]> P) (S n) t <> Some t).
  { intros n. simpl. rewrite lookup_insert_eq, Hpfree. apply Hp. }
  intros n x Hn.
  assert (Hhits : exists m, m <= n /\ climb (<[t := p]> P) m x = Some t).
  { destruct (first_hit P (S n) x t) as [(m & Hm & Hmt & Hmin)|Hno].
    - exists m. split; [lia|]. by rewrite Havoid.
    - exfalso. rewrite Havoid in Hn by done. by apply (Hac n x). }
  destruct Hhits as (m & Hm & Hmt).
  apply (Hself n). replace (S n) with (S n - m + m) by lia.
  rewrite climb_add. replace (S n) with (m + (S n - m)) in Hn by lia.
  rewrite climb_add, Hmt in Hn. rewrite Hn. done.
Qed.
End climb.
