(* ===== verification/Scheduler.v ===== *)
(** The bounded task-tree scheduler ([src/src/scheduler.rs]): data and
    operations.  Node ids index the node vector; a call returns its Rust
    [Result] together with the state after it, so an error path that already
    changed the state is visible.  Its invariant and theorems are in
    [SchedulerInv] and [SchedulerProps]. *)

From S2P Require Import Prelude.
From S2P Require Import Contracts.

Abbreviation NodeId := nat (only parsing).

Inductive NodeState :=
  | Ready | Running | Waiting | Completed | Settled | Cancelled.

#[export] Instance NodeState_eq_dec : EqDecision NodeState.
Proof. solve_decision. Defined.

Record Node := mkNode {
  n_task : TaskId;
  n_answer : AnswerSelection;
  n_grant_id : string;
  n_parent : option NodeId;
  n_children : list NodeId;
  n_unfinished_children : nat;
  n_resource_units : Z;
  n_state : NodeState;
}.

Record NodeContext := mkNodeContext {
  nc_task : TaskId;
  nc_answer : AnswerSelection;
  nc_grant_id : string;
}.

Inductive WaitTransition := Released | AlreadySatisfied.

Inductive CompleteTransition :=
  | CompletedTr (resumed : option NodeId)
  | IgnoredCancelledTr.

Inductive DeliverVerdict := Observed | IgnoredCancelled.

Inductive SchedulerError :=
  | UnknownNode (node : NodeId)
  | NotRunning (node : NodeId)
  | ParentSettled (parent : NodeId)
  | UnitsExceedCap (units cap : Z).

Record Scheduler := mkScheduler {
  max_slots : nat;
  resource_cap : Z;
  nodes : list Node;
  ready : list NodeId;
  running : nat;
  held_units : Z;
  ignored_late_deliveries : Z;
  parents : gmap TaskId TaskId;
  linkage : list (TaskId * TaskId);
  by_task : gmap TaskId NodeId;
  cancelled_tasks : gset TaskId;
}.

(** Field assignments. *)
Definition set_nodes (ns : list Node) (s : Scheduler) : Scheduler :=
  mkScheduler (max_slots s) (resource_cap s) ns (ready s) (running s) (held_units s)
    (ignored_late_deliveries s) (parents s) (linkage s) (by_task s) (cancelled_tasks s).
Definition set_ready (q : list NodeId) (s : Scheduler) : Scheduler :=
  mkScheduler (max_slots s) (resource_cap s) (nodes s) q (running s) (held_units s)
    (ignored_late_deliveries s) (parents s) (linkage s) (by_task s) (cancelled_tasks s).
Definition set_load (r : nat) (h : Z) (s : Scheduler) : Scheduler :=
  mkScheduler (max_slots s) (resource_cap s) (nodes s) (ready s) r h
    (ignored_late_deliveries s) (parents s) (linkage s) (by_task s) (cancelled_tasks s).
Definition set_ignored (i : Z) (s : Scheduler) : Scheduler :=
  mkScheduler (max_slots s) (resource_cap s) (nodes s) (ready s) (running s) (held_units s)
    i (parents s) (linkage s) (by_task s) (cancelled_tasks s).
Definition set_linkage (p : gmap TaskId TaskId) (l : list (TaskId * TaskId)) (s : Scheduler)
    : Scheduler :=
  mkScheduler (max_slots s) (resource_cap s) (nodes s) (ready s) (running s) (held_units s)
    (ignored_late_deliveries s) p l (by_task s) (cancelled_tasks s).
Definition set_by_task (b : gmap TaskId NodeId) (s : Scheduler) : Scheduler :=
  mkScheduler (max_slots s) (resource_cap s) (nodes s) (ready s) (running s) (held_units s)
    (ignored_late_deliveries s) (parents s) (linkage s) b (cancelled_tasks s).
Definition set_cancelled (c : gset TaskId) (s : Scheduler) : Scheduler :=
  mkScheduler (max_slots s) (resource_cap s) (nodes s) (ready s) (running s) (held_units s)
    (ignored_late_deliveries s) (parents s) (linkage s) (by_task s) c.

Definition with_state (st : NodeState) (n : Node) : Node :=
  mkNode (n_task n) (n_answer n) (n_grant_id n) (n_parent n) (n_children n)
    (n_unfinished_children n) (n_resource_units n) st.
Definition with_unfinished (u : nat) (n : Node) : Node :=
  mkNode (n_task n) (n_answer n) (n_grant_id n) (n_parent n) (n_children n)
    u (n_resource_units n) (n_state n).
Definition with_child (c : NodeId) (n : Node) : Node :=
  mkNode (n_task n) (n_answer n) (n_grant_id n) (n_parent n) (n_children n ++ [c])
    (S (n_unfinished_children n)) (n_resource_units n) (n_state n).

(** [self.nodes[i].state = st] *)
Definition set_state (i : NodeId) (st : NodeState) (s : Scheduler) : outcome Scheduler :=
  let* n := index (nodes s) i in
  Ret (set_nodes (<[i := with_state st n]> (nodes s)) s).

(** [self.running -= 1; self.held_units -= units] *)
Definition release_slot (units : Z) (s : Scheduler) : outcome Scheduler :=
  match running s with
  | O => Panic
  | S r => let* h := sub_or_panic (held_units s) units in Ret (set_load r h s)
  end.

Definition is_terminal (st : NodeState) : bool :=
  match st with Completed | Cancelled | Settled => true | _ => false end.

Definition new (slots : nat) (cap : Z) : Scheduler :=
  mkScheduler slots cap [] [] 0 0 0 ∅ [] ∅ ∅.

Definition node_state (s : Scheduler) (node : NodeId) : result NodeState SchedulerError :=
  ok_or (n_state <$> nodes s !! node) (UnknownNode node).

Definition state := node_state.

Definition node_context (s : Scheduler) (node : NodeId) : result NodeContext SchedulerError :=
  let? n := ok_or (nodes s !! node) (UnknownNode node) in
  Ok (mkNodeContext (n_task n) (n_answer n) (n_grant_id n)).

Definition node_of_task (s : Scheduler) (task : TaskId) : option NodeId := by_task s !! task.

(** [submit] *)
Definition submit (parent : option NodeId) (task : TaskId) (answer : AnswerSelection)
    (grant_id : string) (units : Z) (s : Scheduler)
    : result NodeId SchedulerError * Scheduler :=
  if bool_decide (resource_cap s < units)%Z then (Err (UnitsExceedCap units (resource_cap s)), s)
  else
    let node := length (nodes s) in
    let push (s : Scheduler) :=
      let n := mkNode task answer grant_id parent [] 0 units Ready in
      let s := set_nodes (nodes s ++ [n]) s in
      let s := set_by_task (<[task := node]> (by_task s)) s in
      let s := set_ready (ready s ++ [node]) s in
      (Ok node, s) in
    match parent with
    | None => push s
    | Some p =>
        match nodes s !! p with
        | None => (Err (UnknownNode p), s)
        | Some n =>
            if is_terminal (n_state n) then (Err (ParentSettled p), s)
            else push (set_nodes (<[p := with_child node n]> (nodes s)) s)
        end
    end.

(** [adopt]: the first record of a task's parent wins. *)
Definition adopt (task parent : TaskId) (s : Scheduler) : Scheduler :=
  match parents s !! task with
  | Some _ => s
  | None => set_linkage (<[task := parent]> (parents s)) (linkage s ++ [(task, parent)]) s
  end.

(** One child settled: the parent's unfinished count drops and a waiting
    parent with none left requeues. *)
Definition settle_parent (child : NodeId) (s : Scheduler)
    : outcome (option NodeId * Scheduler) :=
  let* c := index (nodes s) child in
  match n_parent c with
  | None => Ret (None, s)
  | Some p =>
      let* n := index (nodes s) p in
      let n := if decide (0 < n_unfinished_children n)
               then with_unfinished (n_unfinished_children n - 1) n else n in
      if decide (n_state n = Waiting /\ n_unfinished_children n = 0) then
        let s := set_nodes (<[p := with_state Ready n]> (nodes s)) s in
        Ret (Some p, set_ready (ready s ++ [p]) s)
      else Ret (None, set_nodes (<[p := n]> (nodes s)) s)
  end.

(** [retire]: forces one node terminal without running it. *)
Definition retire (node : NodeId) (s : Scheduler) : outcome Scheduler :=
  let* n := index (nodes s) node in
  if is_terminal (n_state n) then Ret s
  else
    let* s := if decide (n_state n = Running) then release_slot (n_resource_units n) s
              else Ret s in
    let s := if decide (n_state n = Ready)
             then set_ready (filter (fun queued => queued <> node) (ready s)) s else s in
    let* s := set_state node Settled s in
    let* r := settle_parent node s in
    Ret (snd r).

(** The ancestor walks follow [parents]; [fuel] counts the remaining steps and
    the walks are run with one more than the number of recorded links.  A walk
    that uses it up has revisited a task and never ends
    ([SchedulerProps.walk_fuel_complete]). *)
Fixpoint runnable_parent_from (fuel : nat) (s : Scheduler) (ancestor : option TaskId)
    : outcome (option NodeId) :=
  match ancestor with
  | None => Ret None
  | Some id =>
      match by_task s !! id with
      | Some node => Ret (Some node)
      | None =>
          match fuel with
          | O => Diverge
          | S fuel => runnable_parent_from fuel s (parents s !! id)
          end
      end
  end.

Definition walk_fuel (s : Scheduler) : nat := S (size (parents s)).

Definition runnable_parent (s : Scheduler) (task : TaskId) : outcome (option NodeId) :=
  runnable_parent_from (walk_fuel s) s (parents s !! task).

Fixpoint in_cancelled_from (fuel : nat) (s : Scheduler) (ancestor : option TaskId)
    : outcome bool :=
  match ancestor with
  | None => Ret false
  | Some id =>
      if decide (id ∈ cancelled_tasks s) then Ret true
      else match fuel with
           | O => Diverge
           | S fuel => in_cancelled_from fuel s (parents s !! id)
           end
  end.

Definition in_cancelled_subtree (s : Scheduler) (task : TaskId) : outcome bool :=
  in_cancelled_from (walk_fuel s) s (Some task).

(** [submit_answered] *)
Definition submit_answered (task : TaskId) (answer : AnswerSelection) (grant_id : string)
    (s : Scheduler) : outcome (result (option NodeId) SchedulerError * Scheduler) :=
  let* cancelled := in_cancelled_subtree s task in
  if cancelled : bool then Ret (Ok None, s)
  else
    let* s := match by_task s !! task with
              | Some previous => retire previous s
              | None => Ret s
              end in
    let* parent := runnable_parent s task in
    match submit parent task answer grant_id 1 s with
    | (Ok node, s) => Ret (Ok (Some node), s)
    | (Err (ParentSettled _), s) => Ret (Ok None, s)
    | (Err error, s) => Ret (Err error, s)
    end.

(** Infallible ancestor walk over node parents, root first. *)
Fixpoint scope_chain_from (fuel : nat) (s : Scheduler) (current : option NodeId)
    (chain : list TaskId) : outcome (list TaskId) :=
  match current with
  | None => Ret (rev chain)
  | Some id =>
      match fuel with
      | O => Diverge
      | S fuel =>
          let* n := index (nodes s) id in
          scope_chain_from fuel s (n_parent n) (chain ++ [n_task n])
      end
  end.

Definition scope_chain (s : Scheduler) (node : NodeId) : outcome (list TaskId) :=
  scope_chain_from (S (length (nodes s))) s (Some node) [].

Definition budget_scopes (s : Scheduler) (node : NodeId)
    : outcome (result (list TaskId) SchedulerError) :=
  match node_state s node with
  | Err e => Ret (Err e)
  | Ok _ => let* chain := scope_chain s node in Ret (Ok chain)
  end.

(** [admit_next_bounded]: [reserve] is the caller's closure over its ledger. *)
Definition admit_next_bounded {L} (reserve : list TaskId -> Z -> L -> bool * L)
    (s : Scheduler) (l : L) : outcome (option NodeId * Scheduler * L) :=
  match head (ready s) with
  | None => Ret (None, s, l)
  | Some node =>
      let* n := index (nodes s) node in
      let units := n_resource_units n in
      if decide (running s = max_slots s) then Ret (None, s, l)
      else
        match checked_add u32_max (held_units s) units with
        | None => Ret (None, s, l)
        | Some total =>
            if bool_decide (resource_cap s < total)%Z then Ret (None, s, l)
            else
              let* chain := scope_chain s node in
              let '(granted, l) := reserve chain units l in
              if granted : bool then
                let s := set_ready (tail (ready s)) s in
                let* s := set_state node Running s in
                Ret (Some node, set_load (S (running s)) total s, l)
              else Ret (None, s, l)
        end
  end.

Definition admit_next (s : Scheduler) : outcome (option NodeId * Scheduler) :=
  let* r := admit_next_bounded (fun _ _ (l : unit) => (true, l)) s tt in
  Ret (fst r).

(** [begin_wait] *)
Definition begin_wait (node : NodeId) (s : Scheduler)
    : outcome (result WaitTransition SchedulerError * Scheduler) :=
  match nodes s !! node with
  | None => Ret (Err (UnknownNode node), s)
  | Some n =>
      if decide (n_state n = Running) then
        if decide (n_unfinished_children n = 0) then Ret (Ok AlreadySatisfied, s)
        else
          let* s := set_state node Waiting s in
          let* s := release_slot (n_resource_units n) s in
          Ret (Ok Released, s)
      else Ret (Err (NotRunning node), s)
  end.

(** [complete] *)
Definition complete (node : NodeId) (s : Scheduler)
    : outcome (result CompleteTransition SchedulerError * Scheduler) :=
  match nodes s !! node with
  | None => Ret (Err (UnknownNode node), s)
  | Some n =>
      match n_state n with
      | Running =>
          let* s := set_state node Completed s in
          let* s := release_slot (n_resource_units n) s in
          let* r := settle_parent node s in
          Ret (Ok (CompletedTr (fst r)), snd r)
      | Cancelled =>
          let* i := add_or_panic u64_max (ignored_late_deliveries s) 1 in
          Ret (Ok IgnoredCancelledTr, set_ignored i s)
      | _ => Ret (Err (NotRunning node), s)
      end
  end.

(** [settle] *)
Definition settle (node : NodeId) (s : Scheduler)
    : outcome (result unit SchedulerError * Scheduler) :=
  match nodes s !! node with
  | None => Ret (Err (UnknownNode node), s)
  | Some n =>
      if decide (n_state n = Running) then
        let* s := set_state node Settled s in
        let* s := release_slot (n_resource_units n) s in
        let* r := settle_parent node s in
        Ret (Ok tt, snd r)
      else Ret (Err (NotRunning node), s)
  end.

(** The pre-order walk of [cancel_tree]: [stack] has its top at the head, so
    the reversed push of the children puts the leftmost child on top. *)
Fixpoint drain_walk (fuel : nat) (s : Scheduler) (stack cancelled : list NodeId)
    : outcome (list NodeId) :=
  match stack with
  | [] => Ret cancelled
  | node :: stack =>
      match fuel with
      | O => Diverge
      | S fuel =>
          let* n := index (nodes s) node in
          drain_walk fuel s (n_children n ++ stack)
            (if is_terminal (n_state n) then cancelled else cancelled ++ [node])
      end
  end.

(** [for &node in &cancelled { .. }] *)
Fixpoint cancel_nodes (cancelled : list NodeId) (s : Scheduler) : outcome Scheduler :=
  match cancelled with
  | [] => Ret s
  | node :: rest =>
      let* n := index (nodes s) node in
      let* s := if decide (n_state n = Running) then release_slot (n_resource_units n) s
                else Ret s in
      let* s := set_state node Cancelled s in
      cancel_nodes rest s
  end.

(** [self.ready.retain(|&queued| self.nodes[queued].state == NodeState::Ready)] *)
Fixpoint retain_ready (ns : list Node) (queue : list NodeId) : outcome (list NodeId) :=
  match queue with
  | [] => Ret []
  | queued :: queue =>
      let* n := index ns queued in
      let* rest := retain_ready ns queue in
      Ret (if decide (n_state n = Ready) then queued :: rest else rest)
  end.

(** [cancel_tree] *)
Definition cancel_tree (root : NodeId) (s : Scheduler)
    : outcome (result (list NodeId) SchedulerError * Scheduler) :=
  match nodes s !! root with
  | None => Ret (Err (UnknownNode root), s)
  | Some r =>
      let* cancelled := drain_walk (S (length (nodes s))) s [root] [] in
      let* s := cancel_nodes cancelled s in
      let* queue := retain_ready (nodes s) (ready s) in
      let s := set_ready queue s in
      let* s := if is_terminal (n_state r) then Ret s
                else let* q := settle_parent root s in Ret (snd q) in
      Ret (Ok cancelled, s)
  end.

(** One scan of the linkage for the children of [current]. *)
Definition scan_children (current : TaskId) (links : list (TaskId * TaskId))
    (subtree : list TaskId) : list TaskId :=
  foldl (fun sub '(child, parent) =>
           if decide (parent = current /\ child ∉ sub) then sub ++ [child] else sub)
    subtree links.

(** The breadth-first growing walk; [fuel] bounds the outer loop by the number
    of distinct tasks it can ever hold. *)
Fixpoint subtree_walk (fuel idx : nat) (links : list (TaskId * TaskId)) (subtree : list TaskId)
    : outcome (list TaskId) :=
  match subtree !! idx with
  | None => Ret subtree
  | Some current =>
      match fuel with
      | O => Diverge
      | S fuel => subtree_walk fuel (S idx) links (scan_children current links subtree)
      end
  end.

Definition task_subtree (s : Scheduler) (task : TaskId) : outcome (list TaskId) :=
  subtree_walk (S (length (linkage s))) 0 (linkage s) [task].

Fixpoint cancel_tasks (subtree : list TaskId) (cancelled : list NodeId) (s : Scheduler)
    : outcome (result (list NodeId) SchedulerError * Scheduler) :=
  match subtree with
  | [] => Ret (Ok cancelled, s)
  | t :: rest =>
      let s := set_cancelled ({[t]} ∪ cancelled_tasks s) s in
      match by_task s !! t with
      | None => cancel_tasks rest cancelled s
      | Some root =>
          let* r := cancel_tree root s in
          match r with
          | (Err e, s) => Ret (Err e, s)
          | (Ok more, s) => cancel_tasks rest (cancelled ++ more) s
          end
      end
  end.

(** [cancel_task_tree]: the drain follows task linkage. *)
Definition cancel_task_tree (task : TaskId) (s : Scheduler)
    : outcome (result (list NodeId) SchedulerError * Scheduler) :=
  let* subtree := task_subtree s task in
  cancel_tasks subtree [] s.

(** [deliver] *)
Definition deliver {V} (event : Event V) (s : Scheduler) : outcome (DeliverVerdict * Scheduler) :=
  match ev_task_id event with
  | None => Ret (Observed, s)
  | Some task =>
      let* names_cancelled :=
        match by_task s !! task with
        | None => Ret false
        | Some node =>
            let* n := index (nodes s) node in Ret (bool_decide (n_state n = Cancelled))
        end in
      if names_cancelled : bool then
        let* i := add_or_panic u64_max (ignored_late_deliveries s) 1 in
        Ret (IgnoredCancelled, set_ignored i s)
      else Ret (Observed, s)
  end.
