(* ===== verification/SchedulerInv.v ===== *)
(** The scheduler's well-formedness invariant and its preservation by every
    operation of [Scheduler].

    [Core g s] is the part that does not mention the ready queue; [g p] counts
    the children of [p] that have become terminal but whose settlement has not
    reached [p] yet, so the states between "node settled" and "parent told"
    inside one call are covered.  [Inv s] is [Core] with no gap plus the queue
    invariant. *)

From S2P Require Import Prelude.
From S2P Require Import Contracts.
From S2P Require Import Scheduler.

(** * The invariant *)

Definition live (n : Node) : bool := negb (is_terminal (n_state n)).
Definition ind_running (n : Node) : Z := if decide (n_state n = Running) then 1 else 0.
Definition run_units (n : Node) : Z :=
  if decide (n_state n = Running) then n_resource_units n else 0.
Definition live_child (p : nat) (n : Node) : Z :=
  if decide (n_parent n = Some p /\ live n = true) then 1 else 0.
Definition gap_of (q : option nat) (p : nat) : Z := if decide (q = Some p) then 1 else 0.

(** What never changes about a node once it exists, its children apart. *)
Definition shape (n : Node) := (n_task n, n_parent n, n_children n, n_resource_units n).

Record tree_ok (ns : list Node) : Prop := {
  tree_lt : forall i n p, ns !! i = Some n -> n_parent n = Some p -> p < i;
  tree_children : forall p n c, ns !! p = Some n ->
    (c ∈ n_children n <-> exists m, ns !! c = Some m /\ n_parent m = Some p);
  tree_nodup : forall p n, ns !! p = Some n -> NoDup (n_children n);
}.

Record Core (g : nat -> Z) (s : Scheduler) : Prop := {
  core_running : Z.of_nat (running s) = zsum ind_running (nodes s);
  core_held : held_units s = zsum run_units (nodes s);
  core_slots : running s <= max_slots s;
  core_cap : (held_units s <= resource_cap s <= u32_max)%Z;
  core_units : forall i n, nodes s !! i = Some n -> (0 <= n_resource_units n <= resource_cap s)%Z;
  core_tree : tree_ok (nodes s);
  core_pending : forall p n, nodes s !! p = Some n -> live n = true ->
    Z.of_nat (n_unfinished_children n) = (zsum (live_child p) (nodes s) + g p)%Z;
  core_waiting : forall p n, nodes s !! p = Some n -> n_state n = Waiting ->
    0 < n_unfinished_children n;
  core_tasks : forall t i, by_task s !! t = Some i ->
    exists n, nodes s !! i = Some n /\ n_task n = t;
}.

Definition queue_ok (s : Scheduler) : Prop :=
  NoDup (ready s) /\
  forall i, i ∈ ready s <-> exists n, nodes s !! i = Some n /\ n_state n = Ready.

Definition no_gap (p : nat) : Z := 0.

Record Inv (s : Scheduler) : Prop := {
  inv_core : Core no_gap s;
  inv_queue : queue_ok s;
}.

(** * Generic lemmas *)

Lemma ind_running_nonneg n : (0 <= ind_running n)%Z.
Proof. unfold ind_running. case_decide; lia. Qed.

Lemma live_child_nonneg p n : (0 <= live_child p n)%Z.
Proof. unfold live_child. case_decide; lia. Qed.

#[export] Hint Resolve ind_running_nonneg live_child_nonneg : rivect.

Lemma live_spec n : live n = true <-> is_terminal (n_state n) = false.
Proof. unfold live. destruct (is_terminal _); naive_solver. Qed.

Lemma shape_insert (ns : list Node) i n n' :
  ns !! i = Some n -> shape n' = shape n -> shape <$> <[i := n']> ns = shape <$> ns.
Proof.
  intros Hi Hs. rewrite list_fmap_insert. apply list_insert_id.
  by rewrite list_lookup_fmap, Hi, Hs.
Qed.

Lemma shape_lookup (ns ns' : list Node) i n :
  shape <$> ns = shape <$> ns' -> ns !! i = Some n ->
  exists n', ns' !! i = Some n' /\ shape n' = shape n.
Proof.
  intros Hs Hi. apply (f_equal (lookup i)) in Hs.
  rewrite !list_lookup_fmap, Hi in Hs. simpl in Hs.
  destruct (ns' !! i) as [n'|]; simpl in Hs; [|discriminate]. exists n'. split; [done|]. congruence.
Qed.

Lemma tree_ok_shape ns ns' : shape <$> ns = shape <$> ns' -> tree_ok ns -> tree_ok ns'.
Proof.
  intros Hs [Hlt Hch Hnd].
  assert (Hback : forall i n', ns' !! i = Some n' ->
            exists n, ns !! i = Some n /\ shape n = shape n').
  { intros i n' Hi. by apply (shape_lookup ns' ns). }
  split.
  - intros i n' p Hi Hp. destruct (Hback i n' Hi) as (n & Hn & E).
    injection E as _ Ep _ _. apply (Hlt i n p Hn). congruence.
  - intros p n' c Hp. destruct (Hback p n' Hp) as (n & Hn & E).
    injection E as _ _ Ec _. rewrite <- Ec, (Hch p n c Hn). split.
    + intros (m & Hm & Hmp). destruct (shape_lookup ns ns' c m Hs Hm) as (m' & Hm' & E').
      injection E' as _ Ep _ _. exists m'. split; [done|]. congruence.
    + intros (m' & Hm' & Hmp). destruct (Hback c m' Hm') as (m & Hm & E').
      injection E' as _ Ep _ _. exists m. split; [done|]. congruence.
  - intros p n' Hp. destruct (Hback p n' Hp) as (n & Hn & E).
    injection E as _ _ Ec _. rewrite <- Ec. by apply (Hnd p).
Qed.

Lemma live_child_zero (ns : list Node) p :
  tree_ok ns -> length ns <= p -> zsum (live_child p) ns = 0%Z.
Proof.
  intros Ht Hp. apply zsum_zero. intros i n Hi. unfold live_child.
  case_decide as H; [|done]. destruct H as [H _].
  pose proof (tree_lt ns Ht i n p Hi H). apply lookup_lt_Some in Hi. lia.
Qed.

Lemma live_child_le ns c n p :
  ns !! c = Some n -> n_parent n = Some p -> live n = true ->
  (1 <= zsum (live_child p) ns)%Z.
Proof.
  intros Hc Hp Hl.
  assert (live_child p n = 1%Z) as <- by (unfold live_child; by rewrite decide_True).
  apply (zsum_lookup_le _ ns c); [|done]. intros m. apply live_child_nonneg.
Qed.

(** * One node leaves the live set *)

(** Release of the slot of node [n], if it runs. *)
Definition unload (n : Node) (s : Scheduler) : Scheduler :=
  if decide (n_state n = Running)
  then set_load (running s - 1) (held_units s - n_resource_units n) s else s.

(** The pure effect of "release, then [nodes[i].state = st]". *)
Definition retired (i : nat) (n : Node) (st : NodeState) (s : Scheduler) : Scheduler :=
  set_nodes (<[i := with_state st n]> (nodes s)) (unload n s).

Lemma set_nodes_id s : set_nodes (nodes s) s = s.
Proof. by destruct s. Qed.

Lemma set_ready_id s : set_ready (ready s) s = s.
Proof. by destruct s. Qed.

Lemma unload_ready n s : ready (unload n s) = ready s.
Proof. unfold unload. by case_decide. Qed.

Lemma unload_nodes n s : nodes (unload n s) = nodes s.
Proof. unfold unload. by case_decide. Qed.

Lemma running_pos g s i n :
  Core g s -> nodes s !! i = Some n -> n_state n = Running ->
  1 <= running s /\ (n_resource_units n <= held_units s)%Z.
Proof.
  intros HC Hi Hr. split.
  - pose proof (core_running g s HC) as E.
    pose proof (zsum_lookup_le ind_running (nodes s) i n ind_running_nonneg Hi) as Hle.
    unfold ind_running at 1 in Hle. rewrite decide_True in Hle by done. lia.
  - rewrite (core_held g s HC).
    assert (Hnn : forall l, (forall i n, l !! i = Some n -> (0 <= n_resource_units n)%Z) ->
              forall i n, l !! i = Some n -> n_state n = Running ->
              (n_resource_units n <= zsum run_units l)%Z).
    { clear. induction l as [|m l IH]; intros Hu i n Hi Hr; [done|].
      assert (Hl : forall j k, l !! j = Some k -> (0 <= n_resource_units k)%Z)
        by (intros j k Hj; by apply (Hu (S j))).
      assert (Hsum : (0 <= zsum run_units l)%Z).
      { clear -Hl. induction l as [|k l IH]; simpl; [done|].
        pose proof (Hl 0 k eq_refl). unfold run_units at 1.
        assert (0 <= zsum run_units l)%Z by (apply IH; intros j m Hj; by apply (Hl (S j))).
        case_decide; lia. }
      pose proof (Hu 0 m eq_refl).
      destruct i as [|i]; simplify_eq/=.
      - unfold run_units at 1. rewrite decide_True by done. lia.
      - pose proof (IH Hl i n Hi Hr). unfold run_units at 1. case_decide; lia. }
    apply (Hnn (nodes s) ltac:(intros j k Hj; by apply (core_units g s HC j)) i n Hi Hr).
Qed.

Lemma release_slot_Ret g s i n :
  Core g s -> nodes s !! i = Some n -> n_state n = Running ->
  forall ns, release_slot (n_resource_units n) (set_nodes ns s) = Ret (set_nodes ns (unload n s)).
Proof.
  intros HC Hi Hr ns. destruct (running_pos g s i n HC Hi Hr) as [H1 H2].
  unfold release_slot, unload. simpl. rewrite decide_True by done.
  destruct (running s) as [|r] eqn:Er; [lia|].
  rewrite sub_or_panic_Ret by done. simpl. unfold set_load, set_nodes. simpl. do 2 f_equal; lia.
Qed.

Lemma retired_core g s i n st :
  Core g s -> nodes s !! i = Some n -> live n = true -> is_terminal st = true ->
  Core (fun p => (g p + gap_of (n_parent n) p)%Z) (retired i n st s).
Proof.
  intros HC Hi Hl Hst.
  assert (Hsh : shape <$> <[i := with_state st n]> (nodes s) = shape <$> nodes s)
    by (by apply (shape_insert _ _ n)).
  assert (Hback : forall j m, nodes (retired i n st s) !! j = Some m ->
            exists m0, nodes s !! j = Some m0 /\ shape m0 = shape m /\
              n_unfinished_children m0 = n_unfinished_children m /\
              (j = i /\ n_state m = st \/ m0 = m)).
  { intros j m Hj. unfold retired in Hj. simpl in Hj.
    apply list_lookup_insert_Some in Hj as [(<- & <- & _)|[Hne Hj]].
    - exists n. repeat split; auto.
    - exists m. repeat split; auto. }
  assert (Hnr : ind_running (with_state st n) = 0%Z).
  { unfold ind_running. rewrite decide_False; [done|]. simpl. by intros ->. }
  assert (Hnu : run_units (with_state st n) = 0%Z).
  { unfold run_units. rewrite decide_False; [done|]. simpl. by intros ->. }
  split.
  - simpl. rewrite (zsum_insert _ _ _ n) by done. rewrite Hnr.
    rewrite Z.add_0_r, <- (core_running g s HC). unfold unload, ind_running.
    case_decide as Hr; simpl; [|lia].
    pose proof (running_pos g s i n HC Hi Hr). lia.
  - simpl. rewrite (zsum_insert _ _ _ n) by done. rewrite Hnu.
    rewrite Z.add_0_r, <- (core_held g s HC). unfold unload, run_units.
    case_decide; simpl; lia.
  - pose proof (core_slots g s HC). unfold retired, unload. case_decide; simpl; lia.
  - pose proof (core_cap g s HC). pose proof (core_units g s HC i n Hi).
    unfold retired, unload. case_decide; simpl; lia.
  - intros j m Hj. destruct (Hback j m Hj) as (m0 & Hj0 & E & _).
    injection E as _ _ _ <-. replace (resource_cap (retired i n st s)) with (resource_cap s).
    + by apply (core_units g s HC j).
    + unfold retired, unload. by case_decide.
  - apply (tree_ok_shape (nodes s)); [by symmetry|]. apply (core_tree g s HC).
  - intros p m Hp Hlm. destruct (Hback p m Hp) as (m0 & Hp0 & E & <- & Hcase).
    assert (m0 = m) as -> by (destruct Hcase as [[-> Hms]|?]; [|done];
      exfalso; apply live_spec in Hlm; rewrite Hms in Hlm; congruence).
    simpl. rewrite (zsum_insert _ _ _ n) by done.
    rewrite (core_pending g s HC p m Hp0 Hlm).
    assert (live_child p (with_state st n) = 0%Z) as ->.
    { unfold live_child. rewrite decide_False; [done|]. intros [_ H].
      apply live_spec in H. simpl in H. congruence. }
    assert (live_child p n = gap_of (n_parent n) p) as ->; [|lia].
    unfold live_child, gap_of. rewrite Hl.
    destruct (decide (n_parent n = Some p)) as [->|Hne].
    + by rewrite !decide_True.
    + by rewrite !decide_False by naive_solver.
  - intros p m Hp Hw. destruct (Hback p m Hp) as (m0 & Hp0 & _ & <- & [[_ Hms]| ->]).
    + rewrite Hw in Hms. by subst st.
    + by apply (core_waiting g s HC p).
  - intros t j Ht. replace (by_task (retired i n st s)) with (by_task s) in Ht
      by (unfold retired, unload; by case_decide).
    destruct (core_tasks g s HC t j Ht) as (m & Hm & Hmt).
    destruct (shape_lookup (nodes s) (<[i := with_state st n]> (nodes s)) j m) as (m' & Hm' & E);
      [by symmetry|done|].
    injection E as Et _ _ _. exists m'. split; [done|]. congruence.
Qed.

(** * Telling the parent *)

Lemma Core_ext g g' s :
  (forall p n, nodes s !! p = Some n -> live n = true -> g p = g' p) -> Core g s -> Core g' s.
Proof.
  intros Hg []. split; try done. intros p n Hp Hl. rewrite <- (Hg p n Hp Hl). eauto.
Qed.

Lemma zsum_same_at {A} (f : A -> Z) l i x y :
  l !! i = Some x -> f y = f x -> zsum f (<[i := y]> l) = zsum f l.
Proof. intros Hi E. rewrite (zsum_insert _ _ _ x) by done. lia. Qed.

Lemma live_child_same p n n' : shape n' = shape n -> live n' = live n ->
  live_child p n' = live_child p n.
Proof. intros E El. injection E as _ Ep _ _. unfold live_child. by rewrite Ep, El. Qed.

(** A change of one node that keeps its shape and its liveness. *)
Lemma update_core_load g g' s i n n' r h :
  Core g s -> nodes s !! i = Some n ->
  shape n' = shape n -> live n' = live n ->
  Z.of_nat r = (Z.of_nat (running s) - ind_running n + ind_running n')%Z ->
  h = (held_units s - run_units n + run_units n')%Z ->
  r <= max_slots s -> (h <= resource_cap s)%Z ->
  (forall p, p <> i -> g' p = g p) ->
  (live n' = true ->
     Z.of_nat (n_unfinished_children n') = (zsum (live_child i) (nodes s) + g' i)%Z) ->
  (n_state n' = Waiting -> 0 < n_unfinished_children n') ->
  Core g' (set_load r h (set_nodes (<[i := n']> (nodes s)) s)).
Proof.
  intros HC Hi Hsh Hl Hr Hu Hslots Hcap Hg Hpend Hwait.
  assert (Hlen : i < length (nodes s)) by (by apply lookup_lt_Some in Hi).
  assert (Hsum : forall p, zsum (live_child p) (<[i := n']> (nodes s)) =
                           zsum (live_child p) (nodes s)).
  { intros p. apply (zsum_same_at _ _ _ n); [done|]. by apply live_child_same. }
  split; simpl; try done.
  - rewrite (zsum_insert _ _ _ n), <- (core_running g s HC) by done. lia.
  - rewrite (zsum_insert _ _ _ n), <- (core_held g s HC) by done. lia.
  - pose proof (core_cap g s HC). lia.
  - intros j m Hj. apply list_lookup_insert_Some in Hj as [(<- & <- & _)|[_ Hj]].
    + injection Hsh as _ _ _ ->. by apply (core_units g s HC i).
    + by apply (core_units g s HC j).
  - apply (tree_ok_shape (nodes s)); [|apply HC]. symmetry. by apply (shape_insert _ _ n).
  - intros p m Hp Hlm. rewrite Hsum.
    apply list_lookup_insert_Some in Hp as [(<- & <- & _)|[Hne Hp]].
    + by apply Hpend.
    + rewrite (Hg p) by congruence. by apply (core_pending g s HC p).
  - intros p m Hp Hw. apply list_lookup_insert_Some in Hp as [(<- & <- & _)|[_ Hp]].
    + by apply Hwait.
    + by apply (core_waiting g s HC p).
  - intros t j Ht. destruct (core_tasks g s HC t j Ht) as (m & Hm & Hmt).
    destruct (decide (i = j)) as [->|Hne].
    + assert (m = n) as -> by congruence. injection Hsh as Et _ _ _. exists n'.
      rewrite list_lookup_insert_eq by done. split; [done|]. congruence.
    + exists m. by rewrite list_lookup_insert_ne.
Qed.

(** The same with the load unchanged. *)
Lemma update_core g g' s i n n' :
  Core g s -> nodes s !! i = Some n ->
  shape n' = shape n -> live n' = live n ->
  ind_running n' = ind_running n -> run_units n' = run_units n ->
  (forall p, p <> i -> g' p = g p) ->
  (live n' = true ->
     Z.of_nat (n_unfinished_children n') = (zsum (live_child i) (nodes s) + g' i)%Z) ->
  (n_state n' = Waiting -> 0 < n_unfinished_children n') ->
  Core g' (set_nodes (<[i := n']> (nodes s)) s).
Proof.
  intros HC Hi Hsh Hl Hr Hu Hg Hpend Hwait. pose proof (core_cap g s HC).
  apply (update_core_load g g' s i n n' (running s) (held_units s)); try done; try lia.
  apply (core_slots g s HC).
Qed.

Lemma gap_of_other q p : q <> Some p -> gap_of q p = 0%Z.
Proof. intros. unfold gap_of. by rewrite decide_False. Qed.
Lemma gap_of_self p : gap_of (Some p) p = 1%Z.
Proof. unfold gap_of. by rewrite decide_True. Qed.

Lemma queue_ok_shift s s' i n n' :
  queue_ok s -> nodes s !! i = Some n -> nodes s' = <[i := n']> (nodes s) ->
  (n_state n' = Ready <-> n_state n = Ready) -> ready s' = ready s -> queue_ok s'.
Proof.
  intros [Hnd Hq] Hi Hns Hst Hr. split; [by rewrite Hr|]. intros j. rewrite Hr, Hq, Hns.
  assert (Hlen : i < length (nodes s)) by (by apply lookup_lt_Some in Hi).
  destruct (decide (i = j)) as [->|Hne].
  - rewrite list_lookup_insert_eq by done. split; intros (m & Hm & Hs); simplify_eq; naive_solver.
  - by rewrite list_lookup_insert_ne.
Qed.

Lemma queue_ok_push s s' i n n' :
  queue_ok s -> nodes s !! i = Some n -> nodes s' = <[i := n']> (nodes s) ->
  n_state n' = Ready -> n_state n <> Ready -> ready s' = ready s ++ [i] -> queue_ok s'.
Proof.
  intros [Hnd Hq] Hi Hns Hst Hnst Hr.
  assert (Hlen : i < length (nodes s)) by (by apply lookup_lt_Some in Hi).
  assert (Hnin : i ∉ ready s) by (rewrite Hq; intros (m & Hm & ?); by simplify_eq).
  split.
  - rewrite Hr. apply NoDup_app. split_and!; [done| |apply NoDup_singleton].
    intros j Hj. rewrite list_elem_of_singleton. by intros ->.
  - intros j. rewrite Hr, Hns, elem_of_app, Hq, list_elem_of_singleton.
    destruct (decide (i = j)) as [->|Hne].
    + rewrite list_lookup_insert_eq by done. naive_solver.
    + rewrite list_lookup_insert_ne by done. naive_solver.
Qed.

(** What a call that only settles leaves alone. *)
Definition same_frame (s s' : Scheduler) : Prop :=
  max_slots s' = max_slots s /\ resource_cap s' = resource_cap s /\
  ignored_late_deliveries s' = ignored_late_deliveries s /\
  parents s' = parents s /\ linkage s' = linkage s /\ by_task s' = by_task s /\
  cancelled_tasks s' = cancelled_tasks s.

Lemma settle_parent_ok c n s :
  nodes s !! c = Some n -> Core (gap_of (n_parent n)) s -> queue_ok s ->
  exists r s', settle_parent c s = Ret (r, s') /\ Inv s' /\ same_frame s s' /\
    running s' = running s /\ held_units s' = held_units s.
Proof.
  intros Hc HC HQ. unfold settle_parent. rewrite (index_Ret _ _ n Hc). simpl.
  destruct (n_parent n) as [p|] eqn:Hp.
  2:{ exists None, s. by split_and!. }
  pose proof (tree_lt _ (core_tree _ s HC) c n p Hc Hp) as Hlt.
  destruct (lookup_lt_ex (nodes s) p) as [m Hm]; [apply lookup_lt_Some in Hc; lia|].
  rewrite (index_Ret _ _ m Hm). simpl.
  set (m' := if decide (0 < n_unfinished_children m)
             then with_unfinished (n_unfinished_children m - 1) m else m).
  assert (Hm' : shape m' = shape m /\ n_state m' = n_state m /\
            n_unfinished_children m' = n_unfinished_children m - 1).
  { unfold m'. case_decide; simpl; split_and!; try done; lia. }
  destruct Hm' as (Hsh & Hst & Hun).
  assert (Hpend : live m = true ->
            Z.of_nat (n_unfinished_children m') = zsum (live_child p) (nodes s)).
  { intros Hl. pose proof (core_pending _ s HC p m Hm Hl) as E. rewrite gap_of_self in E.
    pose proof (zsum_nonneg (live_child p) (nodes s) (live_child_nonneg p)). lia. }
  assert (Hcore : forall st m'', m'' = with_state st m' -> st = n_state m \/
              st = Ready /\ n_state m = Waiting ->
              (st = Waiting -> 0 < n_unfinished_children m') ->
              Core no_gap (set_nodes (<[p := m'']> (nodes s)) s)).
  { intros st m'' -> Hcase Hw.
    assert (Hsame : live (with_state st m') = live m /\ ind_running (with_state st m') = ind_running m
              /\ run_units (with_state st m') = run_units m).
    { injection Hsh as _ _ _ Eu. unfold live, ind_running, run_units. simpl.
      rewrite Eu. destruct Hcase as [-> |[-> ->]]; done. }
    destruct Hsame as (Hl & Hr & Hu).
    apply (update_core _ no_gap s p m _ HC Hm); try done.
    - intros q Hq. by rewrite gap_of_other by congruence.
    - intros Hlive. unfold no_gap. rewrite Z.add_0_r. simpl. apply Hpend. congruence. }
  destruct (decide (n_state m' = Waiting /\ n_unfinished_children m' = 0)) as [[Hw H0]|Hno].
  - eexists _, _. split; [reflexivity|]. split_and!; try done. split.
    + destruct (Hcore Ready (with_state Ready m')) as []; [done|right; split; congruence|done|].
      split; done.
    + apply (queue_ok_push s _ p m (with_state Ready m')); try done. congruence.
  - eexists _, _. split; [reflexivity|]. split_and!; try done. split.
    + apply (Hcore (n_state m)); [|by left|].
      * destruct m'; simpl in *. by rewrite <- Hst.
      * intros Hw. destruct (n_unfinished_children m'); [|lia]. exfalso. apply Hno. split; congruence.
    + apply (queue_ok_shift s _ p m m'); try done. by rewrite Hst.
Qed.

(** * Preservation by the operations *)

Lemma Inv_idle s : Inv s -> Core no_gap s /\ queue_ok s.
Proof. intros []. done. Qed.

(** The invariant reads neither the linkage, the cancelled set nor the counter. *)
Lemma Inv_same s s' :
  nodes s' = nodes s -> ready s' = ready s -> running s' = running s ->
  held_units s' = held_units s -> max_slots s' = max_slots s ->
  resource_cap s' = resource_cap s -> by_task s' = by_task s -> Inv s -> Inv s'.
Proof.
  destruct s as [ms cp ns rd ru he ig pa li bt ca], s' as [ms' cp' ns' rd' ru' he' ig' pa' li' bt' ca'].
  simpl. intros -> -> -> -> -> -> -> [[] HQ]. split; [split|]; done.
Qed.

Lemma retired_gap s i n st :
  Core no_gap s -> nodes s !! i = Some n -> live n = true -> is_terminal st = true ->
  Core (gap_of (n_parent n)) (retired i n st s).
Proof. intros. apply (Core_ext (fun p => (no_gap p + gap_of (n_parent n) p)%Z)); [done|].
  by apply retired_core. Qed.

Lemma retired_fields i n st s :
  ready (retired i n st s) = ready s /\ same_frame s (retired i n st s) /\
  nodes (retired i n st s) = <[i := with_state st n]> (nodes s).
Proof. unfold retired, unload. case_decide; by split_and!. Qed.

Lemma running_live n : n_state n = Running -> live n = true.
Proof. unfold live. by intros ->. Qed.

(** [complete] and [settle] of a running node. *)
Lemma leave_running s i n st :
  Inv s -> nodes s !! i = Some n -> n_state n = Running -> is_terminal st = true ->
  exists s1, set_state i st s = Ret s1 /\
    release_slot (n_resource_units n) s1 = Ret (retired i n st s) /\
    Core (gap_of (n_parent n)) (retired i n st s) /\ queue_ok (retired i n st s).
Proof.
  intros [HC HQ] Hi Hr Hst. unfold set_state. rewrite (index_Ret _ _ n Hi). simpl.
  eexists. split; [done|]. split_and!.
  - by rewrite (release_slot_Ret no_gap s i n).
  - apply retired_gap; try done. by apply running_live.
  - destruct (retired_fields i n st s) as (E1 & _ & E3).
    apply (queue_ok_shift s _ i n (with_state st n)); try done.
    simpl. split; [intros ->; done|congruence].
Qed.

Lemma settle_leave s i n st :
  Inv s -> nodes s !! i = Some n -> n_state n = Running -> is_terminal st = true ->
  exists r s', obind (settle_parent i) (Ret (retired i n st s)) = Ret (r, s') /\ Inv s' /\
    same_frame s s' /\ running s' = running s - 1 /\
    held_units s' = (held_units s - n_resource_units n)%Z.
Proof.
  intros HI Hi Hr Hst. destruct (leave_running s i n st HI Hi Hr Hst) as (s1 & _ & _ & HC & HQ).
  destruct (retired_fields i n st s) as (_ & Hf & En).
  destruct (settle_parent_ok i (with_state st n) (retired i n st s))
    as (r & s' & E & HI' & Hf' & Er & Eh); try done.
  { rewrite En. apply list_lookup_insert_eq. by apply lookup_lt_Some in Hi. }
  exists r, s'. split_and!; try done.
  - unfold same_frame in *. intuition congruence.
  - rewrite Er. unfold retired, unload. by rewrite decide_True.
  - rewrite Eh. unfold retired, unload. by rewrite decide_True.
Qed.

Lemma complete_inv node s :
  Inv s ->
  (n_state <$> nodes s !! node = Some Cancelled -> (ignored_late_deliveries s < u64_max)%Z) ->
  exists r s', complete node s = Ret (r, s') /\ Inv s'.
Proof.
  intros HI Hign. unfold complete. destruct (nodes s !! node) as [n|] eqn:Hn; [|by eauto].
  destruct (n_state n) eqn:Hst; try (by eauto).
  - destruct (leave_running s node n Completed HI Hn Hst eq_refl) as (s1 & -> & E & _). simpl.
    rewrite E. simpl.
    destruct (settle_leave s node n Completed HI Hn Hst eq_refl) as (r & s' & E' & HI' & _).
    simpl in E'. rewrite E'. simpl. by eauto.
  - rewrite add_or_panic_Ret; [simpl; eexists _, _; split; [done|]; by apply (Inv_same s)|].
    simpl in Hign. rewrite Hst in Hign. specialize (Hign eq_refl). lia.
Qed.

Lemma settle_inv node s : Inv s -> exists r s', settle node s = Ret (r, s') /\ Inv s'.
Proof.
  intros HI. unfold settle. destruct (nodes s !! node) as [n|] eqn:Hn; [|by eauto].
  case_decide as Hst; [|by eauto].
  destruct (leave_running s node n Settled HI Hn Hst eq_refl) as (s1 & -> & E & _). simpl.
  rewrite E. simpl.
  destruct (settle_leave s node n Settled HI Hn Hst eq_refl) as (r & s' & E' & HI' & _).
  simpl in E'. rewrite E'. simpl. by eauto.
Qed.

(** [ready.retain(|&queued| queued != node)]. *)
Lemma queue_ok_drop s s' i n' :
  queue_ok s -> nodes s' = <[i := n']> (nodes s) -> i < length (nodes s) -> n_state n' <> Ready ->
  ready s' = filter (fun queued => queued <> i) (ready s) -> queue_ok s'.
Proof.
  intros [Hnd Hq] Hns Hlen Hst Hr. split; [rewrite Hr; by apply NoDup_filter|].
  intros j. rewrite Hr, list_elem_of_filter, Hq, Hns.
  destruct (decide (i = j)) as [->|Hne].
  - rewrite list_lookup_insert_eq by done. naive_solver.
  - rewrite list_lookup_insert_ne by done. naive_solver.
Qed.

Lemma retire_inv node s n :
  Inv s -> nodes s !! node = Some n -> exists s', retire node s = Ret s' /\ Inv s' /\ same_frame s s'.
Proof.
  intros HI Hn. unfold retire. rewrite (index_Ret _ _ n Hn). simpl.
  destruct (is_terminal (n_state n)) eqn:Hterm; [by exists s|].
  assert (Hl : live n = true) by (by apply live_spec).
  destruct (HI) as [HC HQ].
  assert (Hrel : (if decide (n_state n = Running) then release_slot (n_resource_units n) s
                  else Ret s) = Ret (unload n s)).
  { case_decide as Hr; [|unfold unload; by rewrite decide_False].
    pose proof (release_slot_Ret no_gap s node n HC Hn Hr (nodes s)) as E.
    rewrite set_nodes_id in E. rewrite E. unfold unload. rewrite decide_True by done.
    by destruct s. }
  rewrite Hrel. simpl.
  set (s1 := if decide (n_state n = Ready) then _ else _).
  assert (Es1 : s1 = set_ready (ready s1) (unload n s) /\
            (n_state n = Ready -> ready s1 = filter (fun queued => queued <> node) (ready s)) /\
            (n_state n <> Ready -> ready s1 = ready s)).
  { unfold s1. destruct (decide (n_state n = Ready)) as [Hr|Hr]; split_and!; try done.
    - intros _. simpl. by rewrite unload_ready.
    - by rewrite set_ready_id.
    - intros _. by rewrite unload_ready. }
  destruct Es1 as (Es1 & Hready & Hother). rewrite Es1. unfold set_state.
  assert (Hn1 : nodes (set_ready (ready s1) (unload n s)) !! node = Some n)
    by (simpl; by rewrite unload_nodes).
  rewrite (index_Ret _ _ n Hn1). simpl. rewrite unload_nodes.
  set (s2 := set_nodes _ _).
  destruct (settle_parent_ok node (with_state Settled n) s2) as (r & s' & E & HI' & Hf & _).
  - unfold s2. simpl. apply list_lookup_insert_eq. by apply lookup_lt_Some in Hn.
  - pose proof (retired_gap s node n Settled HC Hn Hl eq_refl) as []. by split.
  - destruct (decide (n_state n = Ready)) as [Hr|Hr].
    + apply (queue_ok_drop s _ node (with_state Settled n)); try done.
      * by apply lookup_lt_Some in Hn.
      * by apply Hready.
    + apply (queue_ok_shift s _ node n (with_state Settled n)); try done.
      by apply Hother.
  - rewrite E. simpl. exists s'. split_and!; try done.
    unfold same_frame in *. unfold s2, unload in Hf. destruct (decide _) in Hf; simpl in Hf; intuition congruence.
Qed.

(** A live node moves between [Ready], [Running] and [Waiting]. *)
Lemma move_core s i n st r h :
  Core no_gap s -> nodes s !! i = Some n -> live n = true -> is_terminal st = false ->
  (st = Waiting -> 0 < n_unfinished_children n) ->
  Z.of_nat r = (Z.of_nat (running s) - ind_running n + ind_running (with_state st n))%Z ->
  h = (held_units s - run_units n + run_units (with_state st n))%Z ->
  r <= max_slots s -> (h <= resource_cap s)%Z ->
  Core no_gap (set_load r h (set_nodes (<[i := with_state st n]> (nodes s)) s)).
Proof.
  intros HC Hi Hl Hst Hw Hr Hh Hs Hcap.
  apply (update_core_load no_gap no_gap s i n); try done.
  - rewrite Hl. by apply live_spec.
  - intros _. unfold no_gap. simpl. by apply (core_pending no_gap s HC i n).
Qed.

Lemma begin_wait_inv node s :
  Inv s -> exists r s', begin_wait node s = Ret (r, s') /\ Inv s'.
Proof.
  intros HI. destruct (HI) as [HC HQ]. unfold begin_wait.
  destruct (nodes s !! node) as [n|] eqn:Hn; [|by eauto].
  case_decide as Hr; [|by eauto]. case_decide as H0; [by eauto|].
  unfold set_state. rewrite (index_Ret _ _ n Hn). simpl.
  rewrite (release_slot_Ret no_gap s node n) by done. simpl.
  eexists _, _. split; [reflexivity|]. destruct (running_pos no_gap s node n HC Hn Hr) as [Hp1 Hp2].
  assert (Hl : live n = true) by (by apply running_live).
  split.
  - unfold unload. rewrite decide_True by done.
    apply (move_core s node n Waiting (running s - 1) (held_units s - n_resource_units n));
      try done; unfold ind_running, run_units; simpl; rewrite ?Hr; simpl.
    + intros _. lia.
    + lia.
    + lia.
    + pose proof (core_slots _ s HC). lia.
    + pose proof (core_cap _ s HC). pose proof (core_units _ s HC node n Hn). lia.
  - apply (queue_ok_shift s _ node n (with_state Waiting n)); try done.
    + simpl. split; [done|congruence].
    + simpl. apply unload_ready.
Qed.

(** The ancestor walk ends: parents have smaller ids. *)
Lemma scope_chain_from_Ret s fuel i acc :
  tree_ok (nodes s) -> i < length (nodes s) -> i < fuel ->
  exists chain, scope_chain_from fuel s (Some i) acc = Ret chain.
Proof.
  intros Ht. revert i acc. induction fuel as [|fuel IH]; intros i acc Hi Hf; [lia|]. simpl.
  destruct (lookup_lt_ex _ _ Hi) as [n Hn]. rewrite (index_Ret _ _ n Hn). simpl.
  destruct (n_parent n) as [p|] eqn:Hp.
  - pose proof (tree_lt _ Ht i n p Hn Hp). apply IH; lia.
  - destruct fuel; simpl; eauto.
Qed.

Lemma scope_chain_Ret s i :
  tree_ok (nodes s) -> i < length (nodes s) -> exists chain, scope_chain s i = Ret chain.
Proof. intros. apply scope_chain_from_Ret; [done..|lia]. Qed.

(** The state an admission of the queue head produces. *)
Definition admitted (i : nat) (n : Node) (s : Scheduler) : Scheduler :=
  set_load (S (running s)) (held_units s + n_resource_units n)
    (set_nodes (<[i := with_state Running n]> (nodes s)) (set_ready (tail (ready s)) s)).

Lemma admitted_inv s i n q :
  Inv s -> ready s = i :: q -> nodes s !! i = Some n -> running s <> max_slots s ->
  (held_units s + n_resource_units n <= resource_cap s)%Z -> Inv (admitted i n s).
Proof.
  intros [HC [Hnd Hq]] Hr Hn Hslots Hcap.
  assert (Hst : n_state n = Ready).
  { destruct (proj1 (Hq i)) as (m & Hm & ?); [rewrite Hr; set_solver|]. congruence. }
  assert (Hlen : i < length (nodes s)) by (by apply lookup_lt_Some in Hn).
  split.
  - destruct (move_core s i n Running (S (running s)) (held_units s + n_resource_units n)) as [];
      try done; unfold live, ind_running, run_units; rewrite ?Hst; simpl; try done; try lia.
    pose proof (core_slots _ s HC). lia.
  - rewrite Hr in Hnd. apply NoDup_cons in Hnd as [Hni Hnd].
    split; simpl; rewrite Hr; [done|]. simpl. intros j.
    destruct (decide (i = j)) as [->|Hne].
    + rewrite list_lookup_insert_eq by done. split; [done|].
      intros (m & Hm & ?). injection Hm as <-. done.
    + rewrite list_lookup_insert_ne by done. rewrite <- Hq, Hr, elem_of_cons. naive_solver.
Qed.

(** Exactly the four guards of the code decide an admission. *)
Lemma admit_next_bounded_spec {L} (reserve : list TaskId -> Z -> L -> bool * L) s l :
  Inv s ->
  exists r s' l', admit_next_bounded reserve s l = Ret (r, s', l') /\ Inv s' /\
  match ready s with
  | [] => r = None /\ s' = s /\ l' = l
  | i :: q =>
      exists n chain, nodes s !! i = Some n /\ scope_chain s i = Ret chain /\
      if decide (running s = max_slots s \/
                 (resource_cap s < held_units s + n_resource_units n)%Z)
      then r = None /\ s' = s /\ l' = l
      else l' = snd (reserve chain (n_resource_units n) l) /\
           if fst (reserve chain (n_resource_units n) l)
           then r = Some i /\ s' = admitted i n s
           else r = None /\ s' = s
  end.
Proof.
  intros HI. destruct (HI) as [HC [Hnd Hq]]. unfold admit_next_bounded.
  destruct (ready s) as [|i q] eqn:Hr; simpl; [by exists None, s, l|].
  destruct (proj1 (Hq i)) as (n & Hn & Hst); [set_solver|].
  assert (Hlen : i < length (nodes s)) by (by apply lookup_lt_Some in Hn).
  destruct (scope_chain_Ret s i (core_tree _ s HC) Hlen) as [chain Hchain].
  rewrite (index_Ret _ _ n Hn). simpl.
  case_decide as Hslots.
  { exists None, s, l. split_and!; [done|done|]. exists n, chain. rewrite decide_True by auto. done. }
  pose proof (core_cap _ s HC).
  destruct (checked_add _ _ _) as [total|] eqn:Hadd.
  2:{ exists None, s, l. split_and!; [done|done|]. exists n, chain.
      assert (u32_max < held_units s + n_resource_units n)%Z.
      { unfold checked_add in Hadd. case_bool_decide; [done|]. lia. }
      rewrite decide_True by (right; lia). done. }
  apply checked_add_Some in Hadd as [-> Hmax].
  case_bool_decide as Hcap.
  { exists None, s, l. split_and!; [done|done|]. exists n, chain. rewrite decide_True by auto. done. }
  rewrite Hchain. simpl. destruct (reserve chain (n_resource_units n) l) as [granted l'] eqn:Hres.
  destruct granted.
  - unfold set_state. simpl. rewrite (index_Ret _ _ n Hn). simpl.
    exists (Some i), (admitted i n s), l'. split_and!.
    + unfold admitted. by rewrite Hr.
    + apply (admitted_inv s i n q); try done. lia.
    + exists n, chain. rewrite decide_False by lia. rewrite Hres. done.
  - exists None, s, l'. split_and!; [done|done|]. exists n, chain.
    rewrite decide_False by lia. rewrite Hres. done.
Qed.

(** * Submission *)

Lemma tree_ok_push ns ns0 new q :
  tree_ok ns -> n_children new = [] -> n_parent new = q ->
  (forall p, q = Some p -> p < length ns) -> length ns0 = length ns ->
  (forall i n, ns !! i = Some n -> exists n0, ns0 !! i = Some n0 /\ n_parent n0 = n_parent n /\
     n_children n0 = n_children n ++ (if decide (q = Some i) then [length ns] else [])) ->
  tree_ok (ns0 ++ [new]).
Proof.
  intros [Hlt Hch Hnd] Hnc Hnp Hq Hlen Hns.
  assert (Hback : forall i m, (ns0 ++ [new]) !! i = Some m ->
     (i = length ns /\ m = new) \/
     exists n, ns !! i = Some n /\ n_parent m = n_parent n /\
       n_children m = n_children n ++ (if decide (q = Some i) then [length ns] else [])).
  { intros i m Hi. apply lookup_app_Some in Hi as [Hi|[Hge Hi]].
    - right. assert (Hl : i < length ns) by (rewrite <- Hlen; by apply lookup_lt_Some in Hi).
      destruct (lookup_lt_ex _ _ Hl) as [n Hn]. destruct (Hns i n Hn) as (n0 & Hn0 & E1 & E2).
      exists n. rewrite Hi in Hn0. injection Hn0 as ->. done.
    - left. destruct (i - length ns0) as [|k] eqn:E; simpl in Hi; [|done].
      injection Hi as ->. split; [lia|done]. }
  assert (Hfwd : forall i n, ns !! i = Some n -> exists m, (ns0 ++ [new]) !! i = Some m /\
             n_parent m = n_parent n).
  { intros i n Hi. destruct (Hns i n Hi) as (n0 & Hn0 & E & _). exists n0. split; [|done].
    by apply lookup_app_l_Some. }
  assert (Hnew : (ns0 ++ [new]) !! length ns = Some new).
  { rewrite lookup_app_r by lia. by rewrite Hlen, Nat.sub_diag. }
  split.
  - intros i m p Hi Hp. destruct (Hback i m Hi) as [[-> ->]|(n & Hn & E & _)].
    + apply Hq. congruence.
    + apply (Hlt i n p Hn). congruence.
  - intros p m c Hp. split.
    + intros Hc. destruct (Hback p m Hp) as [[-> ->]|(n & Hn & _ & E)].
      * rewrite Hnc in Hc. by apply elem_of_nil in Hc.
      * rewrite E, elem_of_app in Hc. destruct Hc as [Hc|Hc].
        -- apply (Hch p n c Hn) in Hc as (k & Hk & Hkp). destruct (Hfwd c k Hk) as (k' & Hk' & E').
           exists k'. split; [done|]. congruence.
        -- case_decide as Hd; [|by apply elem_of_nil in Hc].
           apply list_elem_of_singleton in Hc as ->. exists new. split; [done|]. congruence.
    + intros (k & Hk & Hkp). destruct (Hback p m Hp) as [[-> ->]|(n & Hn & _ & E)].
      * exfalso. destruct (Hback c k Hk) as [[-> ->]|(k0 & Hk0 & E' & _)].
        -- assert (length ns < length ns); [|lia]. apply Hq. congruence.
        -- pose proof (Hlt c k0 (length ns) Hk0 ltac:(congruence)).
           apply lookup_lt_Some in Hk0. lia.
      * rewrite E, elem_of_app. destruct (Hback c k Hk) as [[-> ->]|(k0 & Hk0 & E' & _)].
        -- right. rewrite decide_True by congruence. set_solver.
        -- left. apply (Hch p n c Hn). exists k0. split; [done|]. congruence.
  - intros p m Hp. destruct (Hback p m Hp) as [[-> ->]|(n & Hn & _ & E)].
    + rewrite Hnc. apply NoDup_nil_2.
    + rewrite E. apply NoDup_app. split_and!; [by apply (Hnd p)| |].
      * intros c Hc Hc'. case_decide; [|by apply elem_of_nil in Hc'].
        apply list_elem_of_singleton in Hc' as ->.
        apply (Hch p n _ Hn) in Hc as (k & Hk & _). apply lookup_lt_Some in Hk. lia.
      * case_decide; [apply NoDup_singleton|apply NoDup_nil_2].
Qed.

(** The nodes a new node is appended to. *)
Definition with_parent_link (parent : option nat) (ns : list Node) : list Node :=
  match parent with
  | None => ns
  | Some p => alter (with_child (length ns)) p ns
  end.

Definition fresh_node (parent : option nat) task answer grant_id units : Node :=
  mkNode task answer grant_id parent [] 0 units Ready.

Definition submitted (parent : option nat) task answer grant_id units (s : Scheduler) : Scheduler :=
  mkScheduler (max_slots s) (resource_cap s)
    (with_parent_link parent (nodes s) ++ [fresh_node parent task answer grant_id units])
    (ready s ++ [length (nodes s)]) (running s) (held_units s) (ignored_late_deliveries s)
    (parents s) (linkage s) (<[task := length (nodes s)]> (by_task s)) (cancelled_tasks s).

Lemma with_parent_link_length q ns : length (with_parent_link q ns) = length ns.
Proof. destruct q; simpl; [apply length_alter|done]. Qed.

Lemma with_parent_link_lookup q ns i :
  with_parent_link q ns !! i =
  (fun n => if decide (q = Some i) then with_child (length ns) n else n) <$> ns !! i.
Proof.
  destruct q as [p|]; simpl; [|by destruct (ns !! i)].
  destruct (decide (p = i)) as [->|Hne].
  - rewrite list_lookup_alter. by destruct (ns !! i); simpl; rewrite ?decide_True.
  - rewrite list_lookup_alter_ne by done.
    destruct (ns !! i); simpl; [|done]. by rewrite decide_False by congruence.
Qed.

Lemma with_parent_link_zsum f q ns :
  (forall n, f (with_child (length ns) n) = f n) -> zsum f (with_parent_link q ns) = zsum f ns.
Proof.
  intros Hf. apply zsum_Forall2. apply Forall2_same_length_lookup. split.
  - by rewrite with_parent_link_length.
  - intros i x y Hx Hy. rewrite with_parent_link_lookup, Hy in Hx. simpl in Hx.
    injection Hx as <-. case_decide; [apply Hf|done].
Qed.

Definition parent_open (q : option nat) (s : Scheduler) : Prop :=
  match q with
  | None => True
  | Some p => exists n, nodes s !! p = Some n /\ live n = true
  end.

Lemma submitted_core q task answer grant_id units s :
  Core no_gap s -> parent_open q s -> (0 <= units <= resource_cap s)%Z ->
  Core no_gap (submitted q task answer grant_id units s).
Proof.
  intros HC Hq Hu. set (new := fresh_node q task answer grant_id units).
  assert (Hback : forall i m, (with_parent_link q (nodes s) ++ [new]) !! i = Some m ->
     (i = length (nodes s) /\ m = new) \/
     exists n, nodes s !! i = Some n /\
       m = if decide (q = Some i) then with_child (length (nodes s)) n else n).
  { intros i m Hi. apply lookup_app_Some in Hi as [Hi|[Hge Hi]].
    - right. rewrite with_parent_link_lookup in Hi.
      destruct (nodes s !! i) as [n|]; [|done]. injection Hi as <-. by exists n.
    - left. rewrite with_parent_link_length in *.
      destruct (i - length (nodes s)) as [|k] eqn:E; simpl in Hi; [|done].
      injection Hi as ->. split; [lia|done]. }
  assert (Hsum : forall p, zsum (live_child p) (with_parent_link q (nodes s) ++ [new]) =
             (zsum (live_child p) (nodes s) + gap_of q p)%Z).
  { intros p. rewrite zsum_app, with_parent_link_zsum by done. simpl. rewrite Z.add_0_r.
    f_equal. unfold live_child, gap_of. simpl.
    destruct (decide (q = Some p)); [by rewrite decide_True|by rewrite decide_False by naive_solver]. }
  split; simpl.
  - rewrite zsum_app, with_parent_link_zsum by done. simpl. pose proof (core_running _ s HC).
    unfold ind_running at 2. simpl. lia.
  - rewrite zsum_app, with_parent_link_zsum by done. simpl. pose proof (core_held _ s HC).
    unfold run_units at 2. simpl. lia.
  - apply (core_slots _ s HC).
  - apply (core_cap _ s HC).
  - intros i m Hi. destruct (Hback i m Hi) as [[-> ->]|(n & Hn & ->)]; [done|].
    pose proof (core_units _ s HC i n Hn). by case_decide.
  - apply (tree_ok_push (nodes s) _ new q); try done; [apply (core_tree _ s HC)|..].
    + intros p ->. destruct Hq as (n & Hn & _). by apply lookup_lt_Some in Hn.
    + apply with_parent_link_length.
    + intros i n Hi. exists (if decide (q = Some i) then with_child (length (nodes s)) n else n).
      rewrite with_parent_link_lookup, Hi. split_and!; [done|by case_decide|].
      case_decide; simpl; [done|]. by rewrite app_nil_r.
  - intros p m Hp Hl. rewrite Hsum.
    destruct (Hback p m Hp) as [[-> ->]|(n & Hn & ->)].
    + rewrite (live_child_zero (nodes s)) by (done || apply (core_tree _ s HC)).
      rewrite gap_of_other; [done|]. intros ->. destruct Hq as (n & Hn & _).
      apply lookup_lt_Some in Hn. lia.
    + unfold no_gap. destruct (decide (q = Some p)) as [->|Hne].
      * rewrite gap_of_self. simpl. pose proof (core_pending _ s HC p n Hn Hl) as E.
        unfold no_gap in E. lia.
      * rewrite gap_of_other by done. pose proof (core_pending _ s HC p n Hn Hl) as E.
        unfold no_gap in E. lia.
  - intros p m Hp Hw. destruct (Hback p m Hp) as [[-> ->]|(n & Hn & ->)]; [done|].
    case_decide; simpl in *; [lia|]. by apply (core_waiting _ s HC p).
  - intros t i Ht. apply lookup_insert_Some in Ht as [[<- <-]|[_ Ht]].
    + exists new. rewrite lookup_app_r by (rewrite with_parent_link_length; lia).
      by rewrite with_parent_link_length, Nat.sub_diag.
    + destruct (core_tasks _ s HC t i Ht) as (n & Hn & Hnt).
      exists (if decide (q = Some i) then with_child (length (nodes s)) n else n).
      split; [|by case_decide]. apply lookup_app_l_Some. by rewrite with_parent_link_lookup, Hn.
Qed.

Lemma submitted_queue q task answer grant_id units s :
  queue_ok s -> queue_ok (submitted q task answer grant_id units s).
Proof.
  intros [Hnd Hq]. split; simpl.
  - apply NoDup_app. split_and!; [done| |apply NoDup_singleton].
    intros i Hi. apply Hq in Hi as (n & Hn & _). apply lookup_lt_Some in Hn.
    rewrite list_elem_of_singleton. lia.
  - intros i. rewrite elem_of_app, list_elem_of_singleton, Hq.
    destruct (decide (i = length (nodes s))) as [->|Hne].
    + rewrite lookup_app_r by (rewrite with_parent_link_length; lia).
      rewrite with_parent_link_length, Nat.sub_diag. simpl. split; [|by right].
      intros _. by eexists.
    + destruct (decide (i < length (nodes s))) as [Hlt|Hge].
      * rewrite lookup_app_l by (by rewrite with_parent_link_length).
        rewrite with_parent_link_lookup. destruct (nodes s !! i) as [n|]; simpl; [|naive_solver].
        split.
        -- intros [(m & [= <-] & Hst)|?]; [|done]. eexists. split; [done|]. by case_decide.
        -- intros (m & [= <-] & Hst). left. exists n. split; [done|]. by case_decide.
      * rewrite !lookup_ge_None_2; [naive_solver| |lia].
        rewrite length_app, with_parent_link_length. simpl. lia.
Qed.

(** [submit] either refuses without touching the state or appends the node. *)
Lemma submit_spec q task answer grant_id units s :
  Inv s -> (0 <= units)%Z ->
  let '(r, s') := submit q task answer grant_id units s in
  Inv s' /\
  match r with
  | Ok i => i = length (nodes s) /\ s' = submitted q task answer grant_id units s /\
            parent_open q s /\ (units <= resource_cap s)%Z
  | Err _ => s' = s
  end.
Proof.
  intros [HC HQ] Hu. unfold submit. case_bool_decide as Hcap; [done|].
  assert (Hpush : forall s0, set_nodes (with_parent_link q (nodes s)) s = s0 -> parent_open q s ->
     Inv (set_ready (ready s0 ++ [length (nodes s)])
           (set_by_task (<[task := length (nodes s)]> (by_task s0))
             (set_nodes (nodes s0 ++ [fresh_node q task answer grant_id units]) s0))) /\
     length (nodes s) = length (nodes s) /\
     set_ready (ready s0 ++ [length (nodes s)])
           (set_by_task (<[task := length (nodes s)]> (by_task s0))
             (set_nodes (nodes s0 ++ [fresh_node q task answer grant_id units]) s0)) =
       submitted q task answer grant_id units s /\
     parent_open q s /\ (units <= resource_cap s)%Z).
  { intros s0 <- Ho. split; [|split_and!; [done|done|done|lia]]. split.
    - exact (submitted_core q task answer grant_id units s HC Ho ltac:(lia)).
    - exact (submitted_queue q task answer grant_id units s HQ). }
  destruct q as [p|].
  - destruct (nodes s !! p) as [n|] eqn:Hn; [|done].
    destruct (is_terminal (n_state n)) eqn:Ht; [done|].
    cbv beta zeta iota.
    apply (Hpush (set_nodes (<[p := with_child (length (nodes s)) n]> (nodes s)) s)).
    + simpl. f_equal. apply list_eq. intros i. destruct (decide (p = i)) as [->|Hne].
      * rewrite list_lookup_alter, Hn, decide_True, list_lookup_insert_eq; [done| |done].
        by apply lookup_lt_Some in Hn.
      * by rewrite list_lookup_alter_ne, list_lookup_insert_ne.
    + exists n. split; [done|]. by apply live_spec.
  - cbv beta zeta iota. apply (Hpush s); [|done]. simpl. by destruct s.
Qed.

(** * Draining a subtree *)

(** What the walk has visited: closed under children up to the stack, every
    node other than the root entered from a visited parent, nothing twice. *)
Record walk_ok (ns : list Node) (root : nat) (visited stack : list nat) : Prop := {
  walk_nodup : NoDup (visited ++ stack);
  walk_range : forall i, i ∈ visited ++ stack -> root <= i /\ i < length ns;
  walk_root : root ∈ visited ++ stack;
  walk_entered : forall i, i ∈ visited ++ stack -> i <> root ->
    exists n p, ns !! i = Some n /\ n_parent n = Some p /\ p ∈ visited;
  walk_closed : forall i n c, i ∈ visited -> ns !! i = Some n -> c ∈ n_children n ->
    c ∈ visited ++ stack;
}.

Lemma walk_ok_start ns root : root < length ns -> walk_ok ns root [] [root].
Proof.
  intros Hr. split; simpl.
  - apply NoDup_singleton.
  - intros i Hi%list_elem_of_singleton. subst. lia.
  - set_solver.
  - intros i Hi%list_elem_of_singleton. done.
  - intros i n c Hi. by apply elem_of_nil in Hi.
Qed.

Lemma walk_ok_step ns root visited i stack n :
  tree_ok ns -> walk_ok ns root visited (i :: stack) -> ns !! i = Some n ->
  walk_ok ns root (visited ++ [i]) (n_children n ++ stack).
Proof.
  intros Ht [Hnd Hrange Hroot Hent Hcl] Hi.
  assert (Hin : forall j, j ∈ visited ++ i :: stack <-> j ∈ visited \/ j = i \/ j ∈ stack)
    by (intros j; set_solver).
  assert (Hini : i ∈ visited ++ i :: stack) by set_solver.
  destruct (Hrange i Hini) as [Hri Hli].
  assert (Hnotin : i ∉ visited) by (apply NoDup_app in Hnd as (_ & Hd & _); set_solver).
  assert (Hchild : forall c, c ∈ n_children n ->
            exists m, ns !! c = Some m /\ n_parent m = Some i /\ i < c).
  { intros c Hc. apply (tree_children ns Ht i n c Hi) in Hc as (m & Hm & Hp).
    exists m. split_and!; try done. by apply (tree_lt ns Ht c m i). }
  assert (Hfresh : forall c, c ∈ n_children n -> c ∉ visited ++ i :: stack).
  { intros c Hc Hc'. destruct (Hchild c Hc) as (m & Hm & Hp & Hlt).
    destruct (Hent c Hc') as (m' & p & Hm' & Hp' & Hv); [lia|]. congruence. }
  split.
  - apply NoDup_app in Hnd as (Hv & Hd & His). apply NoDup_cons in His as [Hi' Hs].
    rewrite <- app_assoc. apply NoDup_app. split_and!; [done| |].
    + intros j Hj Hj'. apply (Hd j Hj). apply elem_of_app in Hj' as [Hj'|Hj']; [set_solver|].
      apply elem_of_app in Hj' as [Hj'|Hj']; [|set_solver].
      exfalso. apply (Hfresh j Hj'). set_solver.
    + simpl. apply NoDup_cons. split.
      * intros Hj. apply elem_of_app in Hj as [Hj|Hj]; [|done]. by apply (Hfresh i Hj).
      * apply NoDup_app. split_and!; [by apply (tree_nodup ns Ht i)| |done].
        intros j Hj Hj'. apply (Hfresh j Hj). set_solver.
  - intros j Hj. rewrite !elem_of_app, list_elem_of_singleton in Hj.
    destruct Hj as [[Hj| ->]|[Hj|Hj]]; [apply Hrange, Hin; by left|done| |apply Hrange, Hin; by auto].
    destruct (Hchild j Hj) as (m & Hm & _ & Hlt). apply lookup_lt_Some in Hm. lia.
  - apply Hin in Hroot. rewrite !elem_of_app, list_elem_of_singleton. tauto.
  - intros j Hj Hjr. rewrite !elem_of_app, list_elem_of_singleton in Hj.
    assert (Hold : j ∈ visited ++ i :: stack -> exists m p, ns !! j = Some m /\
              n_parent m = Some p /\ p ∈ visited ++ [i]).
    { intros H. destruct (Hent j H Hjr) as (m & p & ? & ? & ?).
      exists m, p. rewrite elem_of_app. auto. }
    destruct Hj as [[Hj| ->]|[Hj|Hj]];
      [apply Hold, Hin; by left|by apply Hold| |apply Hold, Hin; by auto].
    destruct (Hchild j Hj) as (m & Hm & Hp & _). exists m, i.
    rewrite elem_of_app, list_elem_of_singleton. auto.
  - intros j m c Hj Hm Hc. apply elem_of_app in Hj as [Hj| ->%list_elem_of_singleton].
    + pose proof (Hcl j m c Hj Hm Hc) as Hc'%Hin.
      rewrite !elem_of_app, list_elem_of_singleton. tauto.
    + simplify_eq. rewrite !elem_of_app. auto.
Qed.

Definition livb (ns : list Node) (i : nat) : Prop :=
  exists n, ns !! i = Some n /\ live n = true.

Lemma drain_walk_Ret s root fuel visited stack cs :
  tree_ok (nodes s) -> walk_ok (nodes s) root visited stack ->
  NoDup cs -> (forall i, i ∈ cs <-> i ∈ visited /\ livb (nodes s) i) ->
  length (nodes s) < fuel + length visited ->
  exists cs' visited', drain_walk fuel s stack cs = Ret cs' /\
    walk_ok (nodes s) root visited' [] /\ NoDup cs' /\
    forall i, i ∈ cs' <-> i ∈ visited' /\ livb (nodes s) i.
Proof.
  intros Ht. revert visited stack cs.
  induction fuel as [|fuel IH]; intros visited [|i stack] cs Hw Hnd Hcs Hf; simpl;
    try (by exists cs, visited).
  - exfalso. pose proof (walk_nodup _ _ _ _ Hw) as Hnd'.
    assert (Hlen : length (visited ++ i :: stack) <= length (seq 0 (length (nodes s)))).
    { apply submseteq_length, NoDup_submseteq; [done|]. intros j Hj.
      apply elem_of_seq. pose proof (walk_range _ _ _ _ Hw j Hj). lia. }
    rewrite length_seq, length_app in Hlen. simpl in Hlen. lia.
  - assert (Hi : i < length (nodes s)) by (apply (walk_range _ _ _ _ Hw); set_solver).
    destruct (lookup_lt_ex _ _ Hi) as [n Hn]. rewrite (index_Ret _ _ n Hn). simpl.
    assert (Hnv : i ∉ visited).
    { pose proof (walk_nodup _ _ _ _ Hw) as Hnd'. apply NoDup_app in Hnd' as (_ & Hd & _). set_solver. }
    apply (IH (visited ++ [i])).
    + by apply walk_ok_step.
    + destruct (is_terminal (n_state n)); [done|]. apply NoDup_app. split_and!; [done| |apply NoDup_singleton].
      intros j Hj Hj'%list_elem_of_singleton. subst. apply Hcs in Hj. naive_solver.
    + intros j. rewrite elem_of_app, list_elem_of_singleton. unfold livb, live in *.
      destruct (is_terminal (n_state n)) eqn:Et.
      * rewrite Hcs. split; [naive_solver|]. intros [[?|<-] (m & Hm & Hlm)]; [eauto|].
        simplify_eq. by rewrite Et in Hlm.
      * rewrite elem_of_app, list_elem_of_singleton, Hcs. split; [|naive_solver].
        intros [[? ?]| ->]; [eauto|]. split; [by right|]. exists n. by rewrite Et.
    + rewrite length_app. simpl. lia.
Qed.

(** The gap the cancellation of node [c] leaves at [p]. *)
Definition pgap (ns : list Node) (p c : nat) : Z :=
  match ns !! c with Some n => gap_of (n_parent n) p | None => 0 end.

Definition drained (cs : list nat) (ns : list Node) (i : nat) : option Node :=
  if decide (i ∈ cs) then with_state Cancelled <$> ns !! i else ns !! i.

Lemma cancel_nodes_ok cs g s :
  Core g s -> NoDup cs -> (forall c, c ∈ cs -> livb (nodes s) c) ->
  exists s', cancel_nodes cs s = Ret s' /\
    Core (fun p => (g p + zsum (pgap (nodes s) p) cs)%Z) s' /\
    ready s' = ready s /\ same_frame s s' /\
    (forall i, nodes s' !! i = drained cs (nodes s) i).
Proof.
  revert g s. induction cs as [|c cs IH]; intros g s HC Hnd Hlive; simpl.
  { exists s. split_and!; try done.
    - apply (Core_ext g); [|done]. intros. lia. }
  apply NoDup_cons in Hnd as [Hc Hnd].
  destruct (Hlive c) as (n & Hn & Hl); [set_solver|].
  rewrite (index_Ret _ _ n Hn). simpl.
  assert (Hrel : (if decide (n_state n = Running) then release_slot (n_resource_units n) s
                  else Ret s) = Ret (unload n s)).
  { case_decide as Hr; [|unfold unload; by rewrite decide_False].
    pose proof (release_slot_Ret g s c n HC Hn Hr (nodes s)) as E.
    rewrite set_nodes_id in E. rewrite E. unfold unload. rewrite decide_True by done. by destruct s. }
  rewrite Hrel. simpl. unfold set_state. rewrite unload_nodes, (index_Ret _ _ n Hn). simpl.
  change (set_nodes _ (unload n s)) with (retired c n Cancelled s).
  pose proof (retired_core g s c n Cancelled HC Hn Hl eq_refl) as HC'.
  destruct (retired_fields c n Cancelled s) as (Er & Hf & En).
  assert (Hother : forall i, i <> c -> nodes (retired c n Cancelled s) !! i = nodes s !! i).
  { intros i Hi. rewrite En. by apply list_lookup_insert_ne. }
  assert (Hself : nodes (retired c n Cancelled s) !! c = Some (with_state Cancelled n)).
  { rewrite En. apply list_lookup_insert_eq. by apply lookup_lt_Some in Hn. }
  destruct (IH _ _ HC' Hnd) as (s' & E & HCs & Ers & Hfs & Hns).
  { intros d Hd. destruct (Hlive d) as (m & Hm & Hlm); [set_solver|].
    exists m. by rewrite Hother by set_solver. }
  exists s'. split_and!; [done| | | |].
  - apply (Core_ext (fun p => (g p + gap_of (n_parent n) p +
      zsum (pgap (nodes (retired c n Cancelled s)) p) cs)%Z)); [|done].
    intros p m _ _. unfold pgap at 2. rewrite Hn.
    rewrite (zsum_ext (pgap (nodes (retired c n Cancelled s)) p) (pgap (nodes s) p)); [lia|].
    intros k d Hk. unfold pgap. rewrite Hother; [done|]. intros ->.
    apply Hc. by apply list_elem_of_lookup_2 in Hk.
  - congruence.
  - unfold same_frame in *. intuition congruence.
  - intros i. rewrite Hns. unfold drained. destruct (decide (i = c)) as [->|Hne].
    + rewrite decide_False by done. rewrite decide_True by set_solver. by rewrite Hself, Hn.
    + rewrite (Hother i Hne). destruct (decide (i ∈ cs)).
      * by rewrite decide_True by set_solver.
      * by rewrite decide_False by set_solver.
Qed.

Lemma zsum_single (f : nat -> Z) cs r :
  NoDup cs -> (forall c, c ∈ cs -> c <> r -> f c = 0%Z) ->
  zsum f cs = if decide (r ∈ cs) then f r else 0%Z.
Proof.
  induction cs as [|c cs IH]; intros Hnd Hz; simpl; [done|].
  apply NoDup_cons in Hnd as [Hc Hnd]. rewrite IH by (done || set_solver).
  destruct (decide (c = r)) as [->|Hne].
  - rewrite (decide_False (P := r ∈ cs)) by done. rewrite decide_True by set_solver. lia.
  - rewrite (Hz c) by set_solver. destruct (decide (r ∈ cs)).
    + by rewrite decide_True by set_solver.
    + by rewrite decide_False by set_solver.
Qed.

Lemma retain_ready_Ret ns q :
  (forall i, i ∈ q -> i < length ns) ->
  exists q', retain_ready ns q = Ret q' /\ sublist q' q /\
    forall i, i ∈ q' <-> i ∈ q /\ exists n, ns !! i = Some n /\ n_state n = Ready.
Proof.
  induction q as [|i q IH]; intros Hq; simpl.
  { exists []. split_and!; [done|constructor|]. intros i. split; [by intros H%elem_of_nil|].
    intros [H _]. by apply elem_of_nil in H. }
  destruct (lookup_lt_ex ns i) as [n Hn]; [apply Hq; set_solver|].
  rewrite (index_Ret _ _ n Hn). simpl.
  destruct IH as (q' & E & Hsub & Hq'); [intros; apply Hq; set_solver|]. rewrite E. simpl.
  eexists. split; [done|]. case_decide as Hs; split.
  - by constructor.
  - intros j. rewrite !elem_of_cons, Hq'. naive_solver.
  - by constructor.
  - intros j. rewrite elem_of_cons, Hq'. naive_solver.
Qed.

(** [i] lies in the subtree of [root]: the reflexive-transitive closure of the
    parent links. *)
Inductive descends (ns : list Node) (root : nat) : nat -> Prop :=
  | desc_refl : descends ns root root
  | desc_step i n p : ns !! i = Some n -> n_parent n = Some p ->
      descends ns root p -> descends ns root i.

Lemma walk_ok_descends ns root visited :
  tree_ok ns -> walk_ok ns root visited [] -> root < length ns ->
  forall i, i ∈ visited <-> descends ns root i.
Proof.
  intros Ht Hw Hr i. pose proof (walk_range _ _ _ _ Hw) as Hrange. split.
  - induction (lt_wf i) as [i _ IH]. intros Hi. destruct (decide (i = root)) as [->|Hne].
    { constructor. }
    destruct (walk_entered _ _ _ _ Hw i) as (n & p & Hn & Hp & Hv); [set_solver|done|].
    apply (desc_step ns root i n p Hn Hp). apply IH; [|done]. by apply (tree_lt ns Ht i n p).
  - induction 1 as [|i n p Hn Hp _ IH].
    + pose proof (walk_root _ _ _ _ Hw) as H. by rewrite app_nil_r in H.
    + destruct (lookup_lt_ex ns p) as [m Hm].
      { pose proof (tree_lt ns Ht i n p Hn Hp). apply lookup_lt_Some in Hn. lia. }
      assert (Hc : i ∈ n_children m) by (apply (tree_children ns Ht p m i Hm); eauto).
      pose proof (walk_closed _ _ _ _ Hw p m i IH Hm Hc) as H. by rewrite app_nil_r in H.
Qed.

(** The state after the drain and before the root's parent is told. *)
Lemma drain_spec root r s :
  Inv s -> nodes s !! root = Some r ->
  exists cs s1 q, drain_walk (S (length (nodes s))) s [root] [] = Ret cs /\
    cancel_nodes cs s = Ret s1 /\ retain_ready (nodes s1) (ready s1) = Ret q /\
    NoDup cs /\ (forall i, i ∈ cs <-> descends (nodes s) root i /\ livb (nodes s) i) /\
    (forall i, nodes s1 !! i = drained cs (nodes s) i) /\ same_frame s s1 /\
    Core (if is_terminal (n_state r) then no_gap else gap_of (n_parent r)) (set_ready q s1) /\
    queue_ok (set_ready q s1).
Proof.
  intros [HC [Hnd Hq]] Hr. assert (Hlen : root < length (nodes s)) by (by apply lookup_lt_Some in Hr).
  pose proof (core_tree _ s HC) as Ht.
  destruct (drain_walk_Ret s root (S (length (nodes s))) [] [root] []) as (cs & visited & Ew & Hw & Hndc & Hcs).
  { done. } { by apply walk_ok_start. } { constructor. }
  { intros i. split; [by intros H%elem_of_nil|]. intros [H _]. by apply elem_of_nil in H. } { simpl. lia. }
  pose proof (walk_ok_descends _ _ _ Ht Hw Hlen) as Hdesc.
  destruct (cancel_nodes_ok cs no_gap s HC Hndc) as (s1 & Ec & HC1 & Er & Hf & Hns).
  { intros c Hc. by apply Hcs. }
  assert (Hlen1 : length (nodes s1) = length (nodes s)).
  { apply Nat.le_antisymm; apply Nat.nlt_ge; intros Hlt.
    - destruct (lookup_lt_ex _ _ Hlt) as [n Hn]. rewrite Hns in Hn. unfold drained in Hn.
      rewrite lookup_ge_None_2 in Hn by done. by case_decide.
    - destruct (lookup_lt_ex _ _ Hlt) as [n Hn].
      assert (nodes s1 !! length (nodes s1) = None) as E by by apply lookup_ge_None_2.
      rewrite Hns in E. unfold drained in E. rewrite Hn in E. by case_decide. }
  destruct (retain_ready_Ret (nodes s1) (ready s1)) as (q & Eq & Hsub & Hqq).
  { intros i Hi. rewrite Er in Hi. apply Hq in Hi as (n & Hn & _). rewrite Hlen1.
    by apply lookup_lt_Some in Hn. }
  exists cs, s1, q. split_and!; try done.
  - intros i. rewrite Hcs, Hdesc. done.
  - assert (Hcore : Core (if is_terminal (n_state r) then no_gap else gap_of (n_parent r)) s1);
      [|by destruct Hcore; split].
    apply (Core_ext (fun p => (no_gap p + zsum (pgap (nodes s) p) cs)%Z)); [|done].
    intros p n Hp Hl. unfold no_gap at 1.
    rewrite (zsum_single (pgap (nodes s) p) cs root).
    + unfold pgap. rewrite Hr. unfold livb in Hcs.
      destruct (is_terminal (n_state r)) eqn:Et.
      * rewrite decide_False; [done|]. intros Hin. apply Hcs in Hin as (_ & m & Hm & Hlm).
        simplify_eq. unfold live in Hlm. by rewrite Et in Hlm.
      * rewrite decide_True; [done|]. apply Hcs. split; [apply Hdesc; constructor|].
        exists r. split; [done|]. by apply live_spec.
    + done.
    + intros c Hc Hcr. unfold pgap. destruct (nodes s !! c) as [m|] eqn:Hm; [|done].
      apply gap_of_other. intros Hmp.
      assert (Hv : c ∈ visited) by (apply Hcs in Hc; tauto).
      destruct (walk_entered _ _ _ _ Hw c) as (m' & p' & Hm' & Hp' & Hpv); [set_solver|done|].
      simplify_eq. rewrite Hns in Hp. unfold drained in Hp. case_decide as Hd.
      * destruct (nodes s !! p); [|done]. simpl in Hp. injection Hp as <-. done.
      * apply Hd. apply Hcs. split; [done|]. by exists n.
  - split; simpl.
    + apply (sublist_NoDup q (ready s1)); [by rewrite Er|done].
    + intros i. rewrite Hqq, Er, Hq. split; [tauto|]. intros (n & Hn & Hst). split; [|by eauto].
      rewrite Hns in Hn. unfold drained in Hn. case_decide; [|by eauto].
      destruct (nodes s !! i); [|done]. simpl in Hn. injection Hn as <-. done.
Qed.

Lemma cancel_tree_inv root s :
  Inv s -> exists r s', cancel_tree root s = Ret (r, s') /\ Inv s' /\ same_frame s s'.
Proof.
  intros HI. unfold cancel_tree. destruct (nodes s !! root) as [r|] eqn:Hr; [|by exists (Err (UnknownNode root)), s].
  destruct (drain_spec root r s HI Hr) as (cs & s1 & q & -> & Ec & Eq & _ & Hcs & Hns & Hf & HC & HQ).
  cbn [obind]. rewrite Ec. cbn [obind]. rewrite Eq. cbn [obind].
  destruct (is_terminal (n_state r)) eqn:Et; cbn [obind].
  - exists (Ok cs), (set_ready q s1). by split_and!.
  - destruct (settle_parent_ok root (with_state Cancelled r) (set_ready q s1))
      as (x & s' & E & HI' & Hf' & _); [|done|done|].
    + simpl. rewrite Hns. unfold drained. rewrite decide_True, Hr; [done|].
      apply Hcs. split; [constructor|]. exists r. split; [done|]. by apply live_spec.
    + rewrite E. simpl. exists (Ok cs), s'. split_and!; [done|done|].
      unfold same_frame in *. simpl in Hf'. intuition congruence.
Qed.

Lemma cancel_tasks_inv ts acc s :
  Inv s -> exists cs s', cancel_tasks ts acc s = Ret (Ok cs, s') /\ Inv s' /\
    cancelled_tasks s' = list_to_set ts ∪ cancelled_tasks s /\
    parents s' = parents s /\ linkage s' = linkage s /\ by_task s' = by_task s.
Proof.
  revert acc s. induction ts as [|t ts IH]; intros acc s HI; simpl.
  { exists acc, s. split_and!; try done. set_solver. }
  set (s0 := set_cancelled ({[t]} ∪ cancelled_tasks s) s).
  assert (HI0 : Inv s0) by (by apply (Inv_same s)).
  destruct (by_task s !! t) as [root|] eqn:Ht; simpl.
  - destruct (core_tasks _ s (inv_core s HI) t root Ht) as (n & Hn & _).
    destruct (cancel_tree_inv root s0 HI0) as (r & s1 & E & HI1 & Hf). rewrite E. simpl.
    assert (exists more, r = Ok more) as [more ->].
    { destruct r as [more|e]; [by exists more|]. exfalso. unfold cancel_tree in E.
      change (nodes s0) with (nodes s) in E. rewrite Hn in E. inv_ret. discriminate. }
    destruct (IH (acc ++ more) s1 HI1) as (cs & s' & E' & HI' & Hc & Hp & Hl & Hb).
    exists cs, s'. unfold same_frame, s0 in Hf. simpl in Hf. split_and!; try done;
      try (intuition congruence). rewrite Hc. destruct Hf as (_ & _ & _ & _ & _ & _ & ->). set_solver.
  - destruct (IH acc s0 HI0) as (cs & s' & E' & HI' & Hc & Hp & Hl & Hb).
    exists cs, s'. split_and!; try done. rewrite Hc. simpl. set_solver.
Qed.

Lemma adopt_inv task parent s : Inv s -> Inv (adopt task parent s).
Proof. intros HI. unfold adopt. destruct (parents s !! task); [done|]. by apply (Inv_same s). Qed.

Lemma deliver_inv {V} (e : Event V) s :
  Inv s -> (ignored_late_deliveries s < u64_max)%Z ->
  exists r s', deliver e s = Ret (r, s') /\ Inv s'.
Proof.
  intros HI Hign. unfold deliver. destruct (ev_task_id e) as [t|]; [|by eauto].
  assert (Hadd : exists r s', obind (fun i => Ret (IgnoredCancelled, set_ignored i s))
             (add_or_panic u64_max (ignored_late_deliveries s) 1) = Ret (r, s') /\ Inv s').
  { rewrite add_or_panic_Ret by lia. simpl. eexists _, _. split; [done|]. by apply (Inv_same s). }
  destruct (by_task s !! t) as [i|] eqn:Ht; simpl; [|by eauto].
  destruct (core_tasks _ s (inv_core s HI) t i Ht) as (n & Hn & _).
  rewrite (index_Ret _ _ n Hn). simpl. case_bool_decide; simpl; [done|by eauto].
Qed.

(** [settle_parent] touches only the parent, whose only state change is
    [Waiting] to [Ready]. *)
Lemma settle_parent_nodes c s r s' n :
  settle_parent c s = Ret (r, s') -> nodes s !! c = Some n ->
  (forall i, n_parent n <> Some i -> nodes s' !! i = nodes s !! i) /\
  (forall i m, n_parent n = Some i -> nodes s !! i = Some m ->
     exists m', nodes s' !! i = Some m' /\
       (n_state m' = n_state m \/ n_state m = Waiting /\ n_state m' = Ready)).
Proof.
  unfold settle_parent. intros H Hc. rewrite (index_Ret _ _ n Hc) in H. cbn [obind] in H.
  destruct (n_parent n) as [p|] eqn:Hp; [|by simplify_eq].
  unfold index in H. destruct (nodes s !! p) as [m|] eqn:Hm; [|done]. cbn [obind] in H.
  assert (Hlen : p < length (nodes s)) by (by apply lookup_lt_Some in Hm).
  destruct (decide (0 < n_unfinished_children m)); destruct (decide _) as [[Hw _]|] in H;
    simplify_eq/=; (split; [intros i Hi; apply list_lookup_insert_ne; congruence|]);
    intros i k [= <-] Hk; simplify_eq; rewrite list_lookup_insert_eq by done;
    eexists; (split; [done|]); simpl; auto.
Qed.
