(* ===== verification/SchedulerProps.v ===== *)
(** What the scheduler guarantees: reachable states, the absence of panics and
    deadlocks, terminal stability, subtree cancellation, and the ancestor
    walks. *)

From S2P Require Import Prelude.
From S2P Require Import Contracts.
From S2P Require Import Walks.
From S2P Require Import Scheduler.
From S2P Require Import SchedulerInv.

(** * The ancestor walks *)

Lemma in_cancelled_from_true fuel s x m t :
  climb (parents s) m x = Some t -> m <= fuel -> t ∈ cancelled_tasks s ->
  in_cancelled_from fuel s (Some x) = Ret true.
Proof.
  revert m x. induction fuel as [|fuel IH]; intros m x Hm Hle Ht; simpl; case_decide; try done.
  - assert (m = 0) as -> by lia. simpl in Hm. congruence.
  - destruct m as [|m]; simpl in Hm; [congruence|].
    destruct (parents s !! x) as [y|]; [|done]. apply (IH m); [done|lia|done].
Qed.

Lemma in_cancelled_from_diverge fuel s x :
  in_cancelled_from fuel s (Some x) = Diverge <->
  is_Some (climb (parents s) fuel x) /\
  forall m t, m <= fuel -> climb (parents s) m x = Some t -> t ∉ cancelled_tasks s.
Proof.
  revert x. induction fuel as [|fuel IH]; intros x; simpl.
  - case_decide as Hc; split; [done| | |done].
    + intros [_ Hno]. by destruct (Hno 0 x).
    + intros _. split; [eauto|]. intros m t Hm Hx. assert (m = 0) as -> by lia.
      simpl in Hx. congruence.
  - case_decide as Hc.
    { split; [done|]. intros [_ Hno]. by destruct (Hno 0 x ltac:(lia)). }
    destruct (parents s !! x) as [y|] eqn:Hy.
    2:{ split; [by destruct fuel|]. by intros [[? ?] _]. }
    rewrite IH. split; intros [Hs Hno]; (split; [done|]).
    + intros [|m] t Hm Hx; simpl in Hx; [congruence|]. rewrite Hy in Hx. apply (Hno m); [lia|done].
    + intros m t Hm Hx. apply (Hno (S m)); [lia|]. simpl. by rewrite Hy.
Qed.

Lemma runnable_parent_from_diverge fuel s x :
  runnable_parent_from fuel s (Some x) = Diverge <->
  is_Some (climb (parents s) fuel x) /\
  forall m t, m <= fuel -> climb (parents s) m x = Some t -> by_task s !! t = None.
Proof.
  revert x. induction fuel as [|fuel IH]; intros x; simpl.
  - destruct (by_task s !! x) eqn:Hc; split; [done| | |done].
    + intros [_ Hno]. specialize (Hno 0 x ltac:(lia) eq_refl). congruence.
    + intros _. split; [eauto|]. intros m t Hm Hx. assert (m = 0) as -> by lia.
      simpl in Hx. congruence.
  - destruct (by_task s !! x) eqn:Hc.
    { split; [done|]. intros [_ Hno]. specialize (Hno 0 x ltac:(lia) eq_refl). congruence. }
    destruct (parents s !! x) as [y|] eqn:Hy.
    2:{ split; [by destruct fuel|]. by intros [[? ?] _]. }
    rewrite IH. split; intros [Hs Hno]; (split; [done|]).
    + intros [|m] t Hm Hx; simpl in Hx; [congruence|]. rewrite Hy in Hx. apply (Hno m); [lia|done].
    + intros m t Hm Hx. apply (Hno (S m)); [lia|]. simpl. by rewrite Hy.
Qed.

Lemma in_cancelled_from_no_panic fuel s x : in_cancelled_from fuel s x <> Panic.
Proof.
  revert x. induction fuel as [|fuel IH]; intros [x|]; simpl; try done; by case_decide.
Qed.

Lemma runnable_parent_from_no_panic fuel s x : runnable_parent_from fuel s x <> Panic.
Proof.
  revert x. induction fuel as [|fuel IH]; intros [x|]; simpl; try done; by destruct (by_task s !! x).
Qed.

Lemma in_cancelled_ends s x : acyclic (parents s) -> exists b, in_cancelled_subtree s x = Ret b.
Proof.
  intros Hac. unfold in_cancelled_subtree.
  destruct (in_cancelled_from _ s (Some x)) as [b| |] eqn:E; [eauto| |].
  - by apply in_cancelled_from_no_panic in E.
  - apply in_cancelled_from_diverge in E as [[y Hy] _]. unfold walk_fuel in Hy.
    by rewrite acyclic_ends in Hy.
Qed.

Lemma runnable_parent_ends s x : acyclic (parents s) -> exists q, runnable_parent s x = Ret q.
Proof.
  intros Hac. unfold runnable_parent. destruct (parents s !! x) as [p|] eqn:Hp; [|by exists None].
  destruct (runnable_parent_from _ s (Some p)) as [b| |] eqn:E; [eauto| |].
  - by apply runnable_parent_from_no_panic in E.
  - apply runnable_parent_from_diverge in E as [[y Hy] _]. unfold walk_fuel in Hy.
    by rewrite acyclic_ends in Hy.
Qed.

(** The nearest ancestor that carries a node, when the walk ends. *)
Lemma runnable_parent_by_task s x q :
  runnable_parent s x = Ret (Some q) -> exists t, by_task s !! t = Some q.
Proof.
  unfold runnable_parent. generalize (walk_fuel s). intros fuel. generalize (parents s !! x).
  induction fuel as [|fuel IH]; intros [y|]; simpl; try done;
    destruct (by_task s !! y) eqn:E; try done; try (intros [= <-]; eauto). apply IH.
Qed.

(** * The breadth-first subtree walk *)

Lemma scan_children_spec cur links sub :
  NoDup sub ->
  NoDup (scan_children cur links sub) /\
  (exists ext, scan_children cur links sub = sub ++ ext) /\
  forall x, x ∈ scan_children cur links sub <-> x ∈ sub \/ (x, cur) ∈ links.
Proof.
  unfold scan_children. revert sub. induction links as [|[c p] links IH]; intros sub Hnd; simpl.
  { split_and!; [done|by exists []; rewrite app_nil_r|]. intros x. set_solver. }
  destruct (decide (p = cur /\ c ∉ sub)) as [[-> Hc]|Hno].
  - destruct (IH (sub ++ [c])) as (Hnd' & [ext Hext] & Hmem).
    { apply NoDup_app. split_and!; [done| |apply NoDup_singleton].
      intros x Hx Hx'%list_elem_of_singleton. by subst. }
    split_and!; [done| |].
    + exists (c :: ext). by rewrite Hext, <- app_assoc.
    + intros x. rewrite Hmem, elem_of_app, list_elem_of_singleton, elem_of_cons. naive_solver.
  - destruct (IH sub Hnd) as (Hnd' & Hext & Hmem). split_and!; [done|done|].
    intros x. rewrite Hmem, elem_of_cons. split; [naive_solver|].
    intros [?|[[= -> ->]|?]]; [by left| |by right]. left.
    destruct (decide (c ∈ sub)); [done|]. exfalso. by apply Hno.
Qed.

(** [x] is linked under [root] by the recorded edges. *)
Inductive linked (links : list (TaskId * TaskId)) (root : TaskId) : TaskId -> Prop :=
  | linked_refl : linked links root root
  | linked_step c p : (c, p) ∈ links -> linked links root p -> linked links root c.

Lemma subtree_walk_spec fuel idx links root sub :
  NoDup sub -> root ∈ sub ->
  (forall x, x ∈ sub -> linked links root x) ->
  (forall i p, i < idx -> sub !! i = Some p -> forall c, (c, p) ∈ links -> c ∈ sub) ->
  (forall x, x ∈ sub -> x ∈ root :: links.*1) ->
  length links < fuel + idx ->
  exists sub', subtree_walk fuel idx links sub = Ret sub' /\ NoDup sub' /\
    forall x, x ∈ sub' <-> linked links root x.
Proof.
  revert idx sub. induction fuel as [|fuel IH]; intros idx sub Hnd Hroot Hsound Hclosed Hrange Hfuel;
    simpl; destruct (sub !! idx) as [cur|] eqn:Hcur.
  1:{ exfalso. apply lookup_lt_Some in Hcur.
      assert (length sub <= length (root :: links.*1)); [|simpl in *; rewrite length_fmap in *; lia].
      apply submseteq_length, NoDup_submseteq; done. }
  2:{ destruct (scan_children_spec cur links sub Hnd) as (Hnd' & [ext Hext] & Hmem).
      assert (Hcurin : cur ∈ sub) by (apply list_elem_of_lookup; eauto).
      apply IH; [done| | | | |lia].
      - apply Hmem. by left.
      - intros x [Hx|Hx]%Hmem; [by apply Hsound|]. apply (linked_step _ _ _ cur Hx). by apply Hsound.
      - intros i p Hi Hp c Hc. apply Hmem.
        assert (Hlen : idx < length sub) by (by apply lookup_lt_Some in Hcur).
        rewrite Hext, lookup_app_l in Hp by lia.
        destruct (decide (i = idx)) as [->|Hne]; [right; congruence|].
        left. apply (Hclosed i p); [lia|done..].
      - intros x [Hx|Hx]%Hmem; [by apply Hrange|]. apply elem_of_cons. right.
        apply list_elem_of_fmap. by exists (x, cur). }
  all: exists sub; split_and!; [done|done|]; intros x; split; [apply Hsound|];
    induction 1 as [|c p Hc _ Hp]; [done|];
    apply list_elem_of_lookup in Hp as [i Hi]; apply (Hclosed i p); [|done|done];
    apply lookup_lt_Some in Hi as Hlt; apply lookup_ge_None in Hcur; lia.
Qed.

Lemma task_subtree_spec s t :
  exists sub, task_subtree s t = Ret sub /\ NoDup sub /\
    forall x, x ∈ sub <-> linked (linkage s) t x.
Proof.
  apply subtree_walk_spec.
  - apply NoDup_singleton.
  - set_solver.
  - intros x ->%list_elem_of_singleton. constructor.
  - lia.
  - intros x ->%list_elem_of_singleton. set_solver.
  - lia.
Qed.

(** * Totality of [submit_answered] and [cancel_task_tree] *)

Lemma submit_answered_ok t a g s q b :
  Inv s -> in_cancelled_subtree s t = Ret b ->
  (b = false -> forall s1, by_task s1 = by_task s -> parents s1 = parents s ->
     runnable_parent s1 t = Ret q) ->
  exists r s', submit_answered t a g s = Ret (r, s') /\ Inv s' /\
    (b = true -> r = Ok None /\ s' = s) /\
    parents s' = parents s /\ linkage s' = linkage s /\ cancelled_tasks s' = cancelled_tasks s.
Proof.
  intros HI Hb Hq. unfold submit_answered. rewrite Hb. simpl.
  destruct b; [by exists (Ok None), s|].
  assert (Hret : exists s1, (match by_task s !! t with Some previous => retire previous s
                 | None => Ret s end) = Ret s1 /\ Inv s1 /\ same_frame s s1).
  { destruct (by_task s !! t) as [i|] eqn:Ht; [|by exists s].
    destruct (core_tasks _ s (inv_core s HI) t i Ht) as (n & Hn & _). by apply (retire_inv i s n). }
  destruct Hret as (s1 & -> & HI1 & (Hms & Hcap & Hig & Hpar & Hli & Hbt & Hca)). simpl.
  rewrite (Hq eq_refl s1 Hbt Hpar). simpl.
  pose proof (submit_spec q t a g 1 s1 HI1 ltac:(lia)) as Hsub.
  destruct (submit q t a g 1 s1) as [[i|[]] s2] eqn:Es; destruct Hsub as [HI2 Hs2];
    (eexists _, _; split; [reflexivity|]; split_and!; try done).
  all: try (destruct Hs2 as (_ & -> & _); simpl; done).
  all: subst s2; congruence.
Qed.

(** [link_ok]: the edge list and the map record the same linkage. *)
Definition link_ok (s : Scheduler) : Prop :=
  forall c p, parents s !! c = Some p <-> (c, p) ∈ linkage s.

Lemma adopt_link_ok t p s : link_ok s -> link_ok (adopt t p s).
Proof.
  intros Hl. unfold adopt. destruct (parents s !! t) as [p0|] eqn:Ht; [done|].
  intros c q. simpl. rewrite lookup_insert_Some, elem_of_app, list_elem_of_singleton.
  split.
  - intros [[<- <-]|[_ H]]; [by right|left; by apply Hl].
  - intros [H|[= -> ->]]; [|by left]. right. split; [|by apply Hl].
    intros <-. apply Hl in H. congruence.
Qed.

Lemma linked_climb s root x :
  link_ok s -> linked (linkage s) root x -> exists n, climb (parents s) n x = Some root.
Proof.
  intros Hl. induction 1 as [|c p Hc _ [n Hn]]; [by exists 0|].
  exists (S n). simpl. by rewrite (proj2 (Hl c p) Hc).
Qed.

Lemma climb_linked s root x n :
  link_ok s -> climb (parents s) n x = Some root -> linked (linkage s) root x.
Proof.
  intros Hl. revert x. induction n as [|n IH]; intros x Hn; simpl in Hn.
  - injection Hn as ->. constructor.
  - destruct (parents s !! x) as [p|] eqn:Hp; [|done].
    apply (linked_step _ _ x p); [by apply Hl|by apply IH].
Qed.

(** * What every call keeps *)

Definition same_identity (n n' : Node) : Prop :=
  n_task n' = n_task n /\ n_answer n' = n_answer n /\ n_grant_id n' = n_grant_id n /\
  n_parent n' = n_parent n /\ n_resource_units n' = n_resource_units n.

Definition node_keeps (n n' : Node) : Prop :=
  same_identity n n' /\ (is_terminal (n_state n) = true -> n_state n' = n_state n).

Definition nodes_keep (ns ns' : list Node) : Prop :=
  forall i n, ns !! i = Some n -> exists n', ns' !! i = Some n' /\ node_keeps n n'.

Record evolves (s s' : Scheduler) : Prop := {
  ev_slots : max_slots s' = max_slots s;
  ev_cap : resource_cap s' = resource_cap s;
  ev_parents : parents s' = parents s;
  ev_linkage : linkage s' = linkage s;
  ev_cancelled : cancelled_tasks s ⊆ cancelled_tasks s';
  ev_nodes : nodes_keep (nodes s) (nodes s');
}.

Lemma node_keeps_refl n : node_keeps n n.
Proof. by repeat split. Qed.

Lemma nodes_keep_refl ns : nodes_keep ns ns.
Proof. intros i n Hn. exists n. split; [done|apply node_keeps_refl]. Qed.

Lemma nodes_keep_trans ns1 ns2 ns3 :
  nodes_keep ns1 ns2 -> nodes_keep ns2 ns3 -> nodes_keep ns1 ns3.
Proof.
  intros H12 H23 i n Hn. destruct (H12 i n Hn) as (n2 & Hn2 & Hid2 & Ht2).
  destruct (H23 i n2 Hn2) as (n3 & Hn3 & Hid3 & Ht3). exists n3. split; [done|].
  unfold node_keeps, same_identity in *. split; [intuition congruence|].
  intros Ht. rewrite <- (Ht2 Ht). apply Ht3. by rewrite (Ht2 Ht).
Qed.

#[export] Instance evolves_preorder : PreOrder evolves.
Proof.
  split.
  - intros s. split; try done. apply nodes_keep_refl.
  - intros s1 s2 s3 [] []. split; try congruence; [set_solver|by eapply nodes_keep_trans].
Qed.

(** Calls that leave the nodes alone. *)
Lemma evolves_frame s s' :
  max_slots s' = max_slots s -> resource_cap s' = resource_cap s -> parents s' = parents s ->
  linkage s' = linkage s -> cancelled_tasks s ⊆ cancelled_tasks s' ->
  nodes_keep (nodes s) (nodes s') -> evolves s s'.
Proof. by split. Qed.

Lemma nodes_keep_insert ns i n n' :
  ns !! i = Some n -> node_keeps n n' -> nodes_keep ns (<[i := n']> ns).
Proof.
  intros Hi Hk j m Hj. destruct (decide (i = j)) as [->|Hne].
  - rewrite Hi in Hj. injection Hj as <-. exists n'. split; [|done].
    apply list_lookup_insert_eq. by apply lookup_lt_Some in Hi.
  - exists m. rewrite list_lookup_insert_ne by done. split; [done|apply node_keeps_refl].
Qed.

Ltac keep_frame := apply evolves_frame; simpl; try done; try apply nodes_keep_refl.

Lemma set_state_evolves i st s s' n :
  nodes s !! i = Some n -> live n = true -> set_state i st s = Ret s' -> evolves s s'.
Proof.
  intros Hi Hl. unfold set_state. rewrite (index_Ret _ _ n Hi). simpl. intros [= <-].
  keep_frame. apply (nodes_keep_insert _ _ n); [done|]. split; [by repeat split|].
  intros Ht. apply live_spec in Hl. congruence.
Qed.

Lemma release_slot_evolves u s s' :
  release_slot u s = Ret s' -> evolves s s' /\ nodes s' = nodes s.
Proof.
  unfold release_slot. destruct (running s); [done|]. intros H. inv_ret. simplify_eq.
  split; [keep_frame|done].
Qed.

Lemma settle_parent_evolves c s r s' : settle_parent c s = Ret (r, s') -> evolves s s'.
Proof.
  unfold settle_parent. intros H. inv_ret. destruct (n_parent a) as [p|]; [|by simplify_eq].
  unfold index in H. destruct (nodes s !! p) as [m|] eqn:Hm; [|done]. cbn [obind] in H.
  set (m' := if decide (0 < n_unfinished_children m) then _ else _) in H.
  assert (Hm' : same_identity m m' /\ n_state m' = n_state m) by
    (unfold m'; destruct (decide (0 < n_unfinished_children m)); by repeat split).
  destruct Hm' as [Hid Hst].
  case_decide as Hw; simplify_eq; keep_frame; apply (nodes_keep_insert _ _ m); try done.
  split; [done|]. simpl. intros Ht. destruct Hw as [Hw _]. rewrite Hst in Hw. by rewrite Hw in Ht.
Qed.

Lemma retire_evolves i s s' : retire i s = Ret s' -> evolves s s'.
Proof.
  unfold retire, index. destruct (nodes s !! i) as [n|] eqn:Hn; [|done]. cbn [obind].
  destruct (is_terminal (n_state n)) eqn:Ht; [by intros [= <-]|]. intros H. inv_ret.
  assert (Ev1 : evolves s a /\ nodes a = nodes s).
  { destruct (decide (n_state n = Running)); [by apply release_slot_evolves in E|by simplify_eq]. }
  destruct Ev1 as [Ev1 En]. destruct a1 as [r s2]. simpl in H. simplify_eq.
  transitivity a; [done|]. transitivity a0; [|by eapply settle_parent_evolves].
  set (a' := if decide (n_state n = Ready) then _ else _) in E0.
  assert (Ha' : evolves a a' /\ nodes a' = nodes a).
  { unfold a'. destruct (decide (n_state n = Ready)); [split; [keep_frame|done]|done]. }
  destruct Ha' as [Ha' En']. transitivity a'; [done|].
  eapply set_state_evolves; [|by apply live_spec|exact E0]. by rewrite En', En.
Qed.

Lemma submit_evolves q t a g u s r s' : Inv s -> (0 <= u)%Z -> submit q t a g u s = (r, s') -> evolves s s'.
Proof.
  intros HI Hu E. pose proof (submit_spec q t a g u s HI Hu) as Hs. rewrite E in Hs.
  destruct r as [i|e]; [|by destruct Hs as [_ ->]]. destruct Hs as (_ & _ & -> & _). keep_frame.
  intros j n Hj. exists (if decide (q = Some j) then with_child (length (nodes s)) n else n).
  split; [|case_decide; by repeat split].
  apply lookup_app_l_Some. by rewrite with_parent_link_lookup, Hj.
Qed.

Lemma drain_walk_live fuel s stack cs cs' :
  drain_walk fuel s stack cs = Ret cs' ->
  forall i, i ∈ cs' -> i ∈ cs \/ livb (nodes s) i.
Proof.
  revert stack cs. induction fuel as [|fuel IH]; intros [|j stack] cs H i Hi; simpl in H;
    try (simplify_eq; by left).
  unfold index in H. destruct (nodes s !! j) as [n|] eqn:Hn; [|done]. cbn [obind] in H.
  destruct (IH _ _ H i Hi) as [Hin|?]; [|by right].
  destruct (is_terminal (n_state n)) eqn:Ht; [by left|].
  apply elem_of_app in Hin as [?| ->%list_elem_of_singleton]; [by left|].
  right. exists n. split; [done|by apply live_spec].
Qed.

Lemma cancel_nodes_evolves cs s s' :
  cancel_nodes cs s = Ret s' ->
  (forall i, i ∈ cs -> exists n, nodes s !! i = Some n /\
     (live n = true \/ n_state n = Cancelled)) ->
  evolves s s'.
Proof.
  revert s. induction cs as [|c cs IH]; intros s H Hcs; simpl in H; [by simplify_eq|].
  destruct (Hcs c) as (n & Hn & Hl); [set_solver|].
  rewrite (index_Ret _ _ n Hn) in H. cbn [obind] in H. inv_ret.
  assert (Ev1 : evolves s a /\ nodes a = nodes s).
  { destruct (decide (n_state n = Running)); [by apply release_slot_evolves in E|by simplify_eq]. }
  destruct Ev1 as [Ev1 En]. unfold set_state in E0. rewrite En, (index_Ret _ _ n Hn) in E0.
  simpl in E0. injection E0 as <-. transitivity a; [done|].
  assert (Hkeep : node_keeps n (with_state Cancelled n)).
  { split; [by repeat split|]. simpl. intros Ht. destruct Hl as [Hl|Hl]; [|done].
    apply live_spec in Hl. congruence. }
  transitivity (set_nodes (<[c := with_state Cancelled n]> (nodes s)) a).
  { keep_frame. rewrite En. by apply (nodes_keep_insert _ _ n). }
  apply IH; [done|]. intros i Hi. simpl. destruct (decide (c = i)) as [->|Hne].
  - eexists. rewrite list_lookup_insert_eq by (by apply lookup_lt_Some in Hn). split; [done|by right].
  - rewrite list_lookup_insert_ne by done. apply Hcs. set_solver.
Qed.

Lemma cancel_tree_evolves root s r s' : cancel_tree root s = Ret (r, s') -> evolves s s'.
Proof.
  unfold cancel_tree. destruct (nodes s !! root) as [n|] eqn:Hn; [|by intros [= _ <-]].
  intros H. inv_ret.
  assert (Hs1 : evolves s a0).
  { apply (cancel_nodes_evolves _ _ _ E0). intros i Hi.
    destruct (drain_walk_live _ _ _ _ _ E i Hi) as [H0|(m & Hm & Hl)]; [by apply elem_of_nil in H0|].
    exists m. auto. }
  assert (Hs2 : evolves s (set_ready a1 a0)).
  { transitivity a0; [done|keep_frame]. }
  transitivity (set_ready a1 a0); [done|]. simplify_eq.
  destruct (is_terminal (n_state n)); [by simplify_eq|].
  destruct (settle_parent root (set_ready a1 a0)) as [[r' s2]| |] eqn:Es; simplify_eq/=.
  by eapply settle_parent_evolves.
Qed.

Lemma cancel_tasks_evolves ts acc s r s' : cancel_tasks ts acc s = Ret (r, s') -> evolves s s'.
Proof.
  revert acc s. induction ts as [|t ts IH]; intros acc s H; simpl in H; [by simplify_eq|].
  set (s0 := set_cancelled ({[t]} ∪ cancelled_tasks s) s) in *.
  assert (H0 : evolves s s0) by (unfold s0; keep_frame; set_solver).
  transitivity s0; [done|]. destruct (by_task s !! t) as [root|]; [|by eapply IH].
  destruct (cancel_tree root s0) as [[[more|e] s1]| |] eqn:E; simplify_eq/=.
  - transitivity s1; [by eapply cancel_tree_evolves|by eapply IH].
  - by eapply cancel_tree_evolves.
Qed.

Lemma running_step_evolves i n st s s1 s2 :
  nodes s !! i = Some n -> n_state n = Running -> set_state i st s = Ret s1 ->
  release_slot (n_resource_units n) s1 = Ret s2 -> evolves s s2.
Proof.
  intros Hn Hr E1 E2. transitivity s1.
  - eapply set_state_evolves; [exact Hn|by apply running_live|exact E1].
  - by destruct (release_slot_evolves _ _ _ E2).
Qed.

Lemma complete_evolves i s r s' : complete i s = Ret (r, s') -> evolves s s'.
Proof.
  unfold complete. destruct (nodes s !! i) as [n|] eqn:Hn; [|by intros [= _ <-]].
  destruct (n_state n) eqn:Hst; try (by intros [= _ <-]); intros H; inv_ret; simplify_eq/=.
  - destruct a1 as [q s2]. transitivity a0; [by eapply running_step_evolves|].
    simpl. by eapply settle_parent_evolves.
  - keep_frame.
Qed.

Lemma settle_evolves i s r s' : settle i s = Ret (r, s') -> evolves s s'.
Proof.
  unfold settle. destruct (nodes s !! i) as [n|] eqn:Hn; [|by intros [= _ <-]].
  destruct (decide (n_state n = Running)) as [Hst|]; [|by intros [= _ <-]].
  intros H; inv_ret; simplify_eq/=.
  destruct a1 as [q s2]. transitivity a0; [by eapply running_step_evolves|].
  simpl. by eapply settle_parent_evolves.
Qed.

Lemma begin_wait_evolves i s r s' : begin_wait i s = Ret (r, s') -> evolves s s'.
Proof.
  unfold begin_wait. destruct (nodes s !! i) as [n|] eqn:Hn; [|by intros [= _ <-]].
  destruct (decide (n_state n = Running)) as [Hst|]; [|by intros [= _ <-]].
  destruct (decide (n_unfinished_children n = 0)); [by intros [= _ <-]|].
  intros H; inv_ret; simplify_eq/=. by eapply running_step_evolves.
Qed.

Lemma deliver_evolves {V} (e : Event V) s r s' : deliver e s = Ret (r, s') -> evolves s s'.
Proof.
  unfold deliver. destruct (ev_task_id e); [|by intros [= _ <-]]. intros H. inv_ret.
  destruct a; inv_ret; simplify_eq; [keep_frame|done].
Qed.

Lemma submit_answered_evolves t a g s r s' :
  Inv s -> submit_answered t a g s = Ret (r, s') -> evolves s s'.
Proof.
  intros HI H. unfold submit_answered in H.
  destruct (in_cancelled_subtree s t) as [b| |]; simpl in H; try done.
  destruct b; [by simplify_eq|].
  destruct (match by_task s !! t with Some p => retire p s | None => Ret s end) as [s1| |] eqn:E;
    simpl in H; try done.
  assert (H1 : evolves s s1 /\ Inv s1).
  { destruct (by_task s !! t) as [i|] eqn:Ht; [|by simplify_eq].
    destruct (core_tasks _ s (inv_core s HI) t i Ht) as (n & Hn & _).
    destruct (retire_inv i s n HI Hn) as (x & Ex & HIx & _). det.
    split; [by eapply retire_evolves|done]. }
  destruct H1 as [H1 HI1]. transitivity s1; [done|].
  destruct (runnable_parent s1 t) as [q| |]; simpl in H; try done.
  destruct (submit q t a g 1 s1) as [x s2] eqn:Es.
  assert (s2 = s') as -> by (destruct x as [|[]]; by simplify_eq).
  by eapply (submit_evolves _ _ _ _ 1).
Qed.

Lemma admit_evolves {L} (reserve : list TaskId -> Z -> L -> bool * L) s l r s' l' :
  Inv s -> admit_next_bounded reserve s l = Ret (r, s', l') -> evolves s s'.
Proof.
  intros HI E. destruct (admit_next_bounded_spec reserve s l HI) as (r' & x & l'' & E' & _ & Hc).
  det. destruct (ready s) as [|i q] eqn:Hr; [by destruct Hc as (_ & -> & _)|].
  destruct Hc as (n & chain & Hn & _ & Hc). destruct (decide _); [by destruct Hc as (_ & -> & _)|].
  destruct Hc as [_ Hc]. destruct (fst _); destruct Hc as [_ ->]; [|done].
  unfold admitted. keep_frame. apply (nodes_keep_insert _ _ n); [done|]. split; [by repeat split|].
  intros Ht. exfalso. destruct (proj2 (inv_queue s HI) i) as [Hq _].
  destruct Hq as (m & Hm & Hst); [rewrite Hr; set_solver|]. simplify_eq. by rewrite Hst in Ht.
Qed.

(** A returning [submit_answered] had both of its walks end. *)
Lemma submit_answered_walks t a g s r s' :
  Inv s -> submit_answered t a g s = Ret (r, s') -> exists b q,
  in_cancelled_subtree s t = Ret b /\
  (b = false -> forall s1, by_task s1 = by_task s -> parents s1 = parents s ->
     runnable_parent s1 t = Ret q).
Proof.
  intros HI Hs. unfold submit_answered in Hs.
  destruct (in_cancelled_subtree s t) as [b| |] eqn:Eb; simpl in Hs; try done.
  destruct b; [by exists true, None|].
  destruct (match by_task s !! t with Some p => retire p s | None => Ret s end) as [s1| |] eqn:E;
    simpl in Hs; try done.
  destruct (runnable_parent s1 t) as [q| |] eqn:Eq; simpl in Hs; try done.
  exists false, q. split; [done|]. intros _ s2 Hb Hp.
  assert (Hf : same_frame s s1).
  { destruct (by_task s !! t) as [i|] eqn:Ht; [|by simplify_eq].
    destruct (core_tasks _ s (inv_core s HI) t i Ht) as (n & Hn & _).
    destruct (retire_inv i s n HI Hn) as (x & Ex & _ & Hf). by det. }
  destruct Hf as (_ & _ & _ & Hp1 & _ & Hb1 & _). rewrite <- Eq.
  assert (Hgen : forall fuel x, runnable_parent_from fuel s2 x = runnable_parent_from fuel s1 x).
  { induction fuel as [|fuel IH]; intros [x|]; simpl; try done; rewrite Hb, Hb1; [done|].
    rewrite Hp, Hp1. destruct (by_task s !! x); [done|]. apply IH. }
  unfold runnable_parent, walk_fuel. rewrite Hgen, Hp, Hp1. done.
Qed.

(** * Steps *)

(** One public call that returns moves the scheduler.  [reserve] and its
    ledger are the caller's. *)
Inductive step (s : Scheduler) : Scheduler -> Prop :=
  | step_submit q t a g u : (0 <= u <= u32_max)%Z -> step s (snd (submit q t a g u s))
  | step_adopt t p : step s (adopt t p s)
  | step_submit_answered t a g r s' : submit_answered t a g s = Ret (r, s') -> step s s'
  | step_cancel_task_tree t r s' : cancel_task_tree t s = Ret (r, s') -> step s s'
  | step_admit (L : Type) (reserve : list TaskId -> Z -> L -> bool * L) l r s' l' :
      admit_next_bounded reserve s l = Ret (r, s', l') -> step s s'
  | step_begin_wait i r s' : begin_wait i s = Ret (r, s') -> step s s'
  | step_complete i r s' : complete i s = Ret (r, s') -> step s s'
  | step_settle i r s' : settle i s = Ret (r, s') -> step s s'
  | step_cancel_tree i r s' : cancel_tree i s = Ret (r, s') -> step s s'
  | step_deliver (V : Type) (e : Event V) r s' : deliver e s = Ret (r, s') -> step s s'.

Inductive steps (s : Scheduler) : Scheduler -> Prop :=
  | steps_refl : steps s s
  | steps_snoc s1 s2 : steps s s1 -> step s1 s2 -> steps s s2.

Definition reachable (slots : nat) (cap : Z) (s : Scheduler) : Prop := steps (new slots cap) s.

Definition well_formed (s : Scheduler) : Prop := Inv s /\ link_ok s.

Lemma new_well_formed slots cap : (0 <= cap <= u32_max)%Z -> well_formed (new slots cap).
Proof.
  intros Hcap. split; [split; [split|split]|]; simpl; try done; try lia.
  - constructor.
  - intros i. split; [by intros H%elem_of_nil|]. by intros (n & Hn & _).
  - intros c p. simpl. rewrite lookup_empty, elem_of_nil. done.
Qed.

Lemma deliver_cases {V} (e : Event V) s r s' :
  deliver e s = Ret (r, s') -> s' = s \/ exists i, s' = set_ignored i s.
Proof.
  unfold deliver. destruct (ev_task_id e); [|intros [= _ <-]; by left]. intros H. inv_ret.
  destruct a; inv_ret; simplify_eq; eauto.
Qed.

Lemma complete_preserves i s r s' : Inv s -> complete i s = Ret (r, s') -> Inv s'.
Proof.
  intros HI E. destruct (complete_inv i s HI) as (r' & x & E' & HI'); [|by det].
  intros Hst. unfold complete in E. destruct (nodes s !! i) as [n|]; [|done].
  simpl in Hst. injection Hst as Hst. rewrite Hst in E. inv_ret.
  unfold add_or_panic in E0. destruct (checked_add u64_max _ 1) eqn:Ea; [|done].
  apply checked_add_Some in Ea. lia.
Qed.

(** Every call keeps the invariant and changes the links only by adoption. *)
Lemma step_cases s s' : Inv s -> step s s' ->
  Inv s' /\ (evolves s s' \/ exists t p, s' = adopt t p s).
Proof.
  intros HI Hst. destruct Hst as [q t a g u Hu|t p|t a g r s' E|t r s' E|L reserve l r s' l' E
    |i r s' E|i r s' E|i r s' E|i r s' E|V e r s' E].
  - destruct (submit q t a g u s) as [r s'] eqn:E. simpl. split.
    + pose proof (submit_spec q t a g u s HI ltac:(lia)) as Hs. rewrite E in Hs. apply Hs.
    + left. apply (submit_evolves q t a g u s r s' HI); [lia|done].
  - split; [by apply adopt_inv|right; eauto].
  - destruct (submit_answered_walks _ _ _ _ _ _ HI E) as (b & q & Hb & Hq).
    destruct (submit_answered_ok t a g s q b HI Hb Hq) as (r' & x & E' & HI' & _).
    det. split; [done|left; by eapply submit_answered_evolves].
  - unfold cancel_task_tree in E. destruct (task_subtree s t) as [sub| |]; simpl in E; try done.
    destruct (cancel_tasks_inv sub [] s HI) as (cs & x & E' & HI' & _).
    det. split; [done|left; by eapply cancel_tasks_evolves].
  - split; [|left; by eapply admit_evolves].
    destruct (admit_next_bounded_spec reserve s l HI) as (r' & x & l'' & E' & HI' & _). by det.
  - split; [|left; by eapply begin_wait_evolves].
    destruct (begin_wait_inv i s HI) as (r' & x & E' & HI'). by det.
  - split; [by eapply complete_preserves|left; by eapply complete_evolves].
  - split; [|left; by eapply settle_evolves].
    destruct (settle_inv i s HI) as (r' & x & E' & HI'). by det.
  - split; [|left; by eapply cancel_tree_evolves].
    destruct (cancel_tree_inv i s HI) as (r' & x & E' & HI' & _). by det.
  - split; [|left; by eapply deliver_evolves].
    destruct (deliver_cases e s r s' E) as [->|[k ->]]; [done|by apply (Inv_same s)].
Qed.

Lemma step_well_formed s s' : well_formed s -> step s s' -> well_formed s'.
Proof.
  intros [HI Hl] Hst. destruct (step_cases s s' HI Hst) as [HI' [Hev|(t & p & ->)]].
  - split; [done|]. intros c p. rewrite (ev_parents _ _ Hev), (ev_linkage _ _ Hev). apply Hl.
  - split; [done|by apply adopt_link_ok].
Qed.

Lemma steps_well_formed s s' : well_formed s -> steps s s' -> well_formed s'.
Proof. intros Hwf. induction 1; [done|]. by eapply step_well_formed. Qed.

Lemma reachable_well_formed slots cap s :
  (0 <= cap <= u32_max)%Z -> reachable slots cap s -> well_formed s.
Proof. intros Hcap. apply steps_well_formed. by apply new_well_formed. Qed.

(** Nodes, recorded links and cancelled tasks only grow along a run. *)
Lemma steps_grow s s' : Inv s -> steps s s' ->
  Inv s' /\ max_slots s' = max_slots s /\ resource_cap s' = resource_cap s /\
  nodes_keep (nodes s) (nodes s') /\ cancelled_tasks s ⊆ cancelled_tasks s' /\
  parents s ⊆ parents s'.
Proof.
  intros HI. induction 1 as [|s1 s2 _ IH Hst]; [split_and!; try done; apply nodes_keep_refl|].
  destruct IH as (HI1 & Hm & Hc & Hn & Hca & Hp).
  destruct (step_cases s1 s2 HI1 Hst) as [HI2 [[]|(t & p & ->)]]; (split; [done|]).
  - split_and!; try congruence; [by eapply nodes_keep_trans|set_solver|by rewrite ev_parents0].
  - unfold adopt. destruct (parents s1 !! t) eqn:Ht; [done|]. simpl. split_and!; try done.
    transitivity (parents s1); [done|]. by apply insert_subseteq.
Qed.

Lemma steps_trans s1 s2 s3 : steps s1 s2 -> steps s2 s3 -> steps s1 s3.
Proof. intros H12. induction 1; [done|]. by eapply steps_snoc. Qed.
