(* ===== verification/SchedulerThms.v ===== *)
(** The properties of the scheduler ([src/src/scheduler.rs]) and their
    witnesses on concrete runs. *)

From S2P Require Import Prelude.
From S2P Require Import Contracts.
From S2P Require Import Walks.
From S2P Require Import Scheduler.
From S2P Require Import SchedulerInv.
From S2P Require Import SchedulerProps.

(** Nodes in one state, and the units they reserve. *)
Definition running_nodes (s : Scheduler) : list Node :=
  filter (fun n => n_state n = Running) (nodes s).
Definition reserved_units (s : Scheduler) : Z := zsum n_resource_units (running_nodes s).

Lemma zsum_ind_running ns :
  zsum ind_running ns = Z.of_nat (length (filter (fun n => n_state n = Running) ns)).
Proof.
  induction ns as [|n ns IH]; [done|]. simpl. rewrite IH. unfold ind_running.
  rewrite filter_cons. case_decide; simpl; lia.
Qed.

Lemma zsum_run_units ns :
  zsum run_units ns = zsum n_resource_units (filter (fun n => n_state n = Running) ns).
Proof.
  induction ns as [|n ns IH]; [done|]. simpl. rewrite IH. unfold run_units.
  rewrite filter_cons. case_decide; simpl; lia.
Qed.

(** A concrete run: a parent with one child over one slot. *)
Definition ans : AnswerSelection := SelOption "brief".
Definition s_pair : Scheduler :=
  snd (submit (Some 0) "child" ans "g" 1 (snd (submit None "root" ans "g" 1 (new 1 4)))).
Definition s_pair_running : Scheduler :=
  match admit_next s_pair with Ret (_, s) => s | _ => s_pair end.
Definition s_pair_waiting : Scheduler :=
  match begin_wait 0 s_pair_running with Ret (_, s) => s | _ => s_pair end.

Lemma s_pair_reachable : reachable 1 4 s_pair.
Proof.
  unfold reachable. eapply steps_snoc; [eapply steps_snoc; [apply steps_refl|]|];
    apply step_submit; unfold u32_max; lia.
Defined.

Lemma s_pair_waiting_reachable : reachable 1 4 s_pair_waiting.
Proof.
  eapply steps_snoc; [eapply steps_snoc; [apply s_pair_reachable|]|].
  - apply (step_admit s_pair unit (fun _ _ l => (true, l)) tt (Some 0) _ tt). reflexivity.
  - apply (step_begin_wait _ 0 (Ok Released)). reflexivity.
Defined.

(** C1.  In every reachable state the slot count and the reserved units equal
    what the running nodes hold, both within their caps, and the ready queue
    lists exactly the [Ready] nodes, each once. *)
Theorem scheduler_load_and_queue slots cap s :
  (0 <= cap <= u32_max)%Z -> reachable slots cap s ->
  running s = length (running_nodes s) /\ running s <= slots /\
  held_units s = reserved_units s /\ (held_units s <= cap)%Z /\
  NoDup (ready s) /\
  forall i, i ∈ ready s <-> exists n, nodes s !! i = Some n /\ n_state n = Ready.
Proof.
  intros Hcap Hr. destruct (steps_grow _ _ (proj1 (new_well_formed slots cap Hcap)) Hr)
    as ([HC [Hnd Hq]] & Hs & Hc & _). simpl in Hs, Hc.
  pose proof (core_running _ s HC) as E. rewrite zsum_ind_running in E.
  pose proof (core_held _ s HC) as E'. rewrite zsum_run_units in E'.
  pose proof (core_slots _ s HC). pose proof (core_cap _ s HC).
  split_and!; try done; try lia. unfold running_nodes. lia.
Qed.

Lemma scheduler_load_and_queue_witness :
  running s_pair_waiting = 0 /\ ready s_pair_waiting = [1] /\
  running s_pair_waiting = length (running_nodes s_pair_waiting).
Proof.
  split; [reflexivity|]. split; [reflexivity|].
  apply (scheduler_load_and_queue 1 4 s_pair_waiting);
    [unfold u32_max; lia|apply s_pair_waiting_reachable].
Defined.

(** C2.  No call on a reachable state panics or runs forever: every public
    operation returns, the counting ones while the counter has room, and
    [submit_answered] whenever the recorded linkage has no cycle. *)
Theorem scheduler_calls_return slots cap s :
  (0 <= cap <= u32_max)%Z -> reachable slots cap s ->
  (forall L (reserve : list TaskId -> Z -> L -> bool * L) l,
     exists r, admit_next_bounded reserve s l = Ret r) /\
  (forall i, exists r, begin_wait i s = Ret r) /\
  (forall i, exists r, settle i s = Ret r) /\
  (forall i, exists r, cancel_tree i s = Ret r) /\
  (forall t, exists cs s', cancel_task_tree t s = Ret (Ok cs, s')) /\
  (forall i, exists r, budget_scopes s i = Ret r) /\
  ((ignored_late_deliveries s < u64_max)%Z ->
     (forall i, exists r, complete i s = Ret r) /\
     (forall V (e : Event V), exists r, deliver e s = Ret r)) /\
  (acyclic (parents s) -> forall t a g, exists r, submit_answered t a g s = Ret r).
Proof.
  intros Hcap Hr. destruct (reachable_well_formed slots cap s Hcap Hr) as [HI _]. split_and!.
  - intros L reserve l. destruct (admit_next_bounded_spec reserve s l HI) as (? & ? & ? & E & _). eauto.
  - intros i. destruct (begin_wait_inv i s HI) as (? & ? & E & _). eauto.
  - intros i. destruct (settle_inv i s HI) as (? & ? & E & _). eauto.
  - intros i. destruct (cancel_tree_inv i s HI) as (? & ? & E & _). eauto.
  - intros t. unfold cancel_task_tree. destruct (task_subtree_spec s t) as (sub & -> & _). simpl.
    destruct (cancel_tasks_inv sub [] s HI) as (? & ? & E & _). eauto.
  - intros i. unfold budget_scopes, node_state. destruct (nodes s !! i) as [n|] eqn:Hn; simpl; [|eauto].
    destruct (scope_chain_Ret s i (core_tree _ s (inv_core s HI))) as [chain ->]; simpl; [|eauto].
    by apply lookup_lt_Some in Hn.
  - intros Hign. split.
    + intros i. destruct (complete_inv i s HI ltac:(done)) as (? & ? & E & _). eauto.
    + intros V e. destruct (deliver_inv e s HI Hign) as (? & ? & E & _). eauto.
  - intros Hac t a g. destruct (in_cancelled_ends s t Hac) as [b Hb].
    destruct (runnable_parent_ends s t Hac) as [q Hq].
    destruct (submit_answered_ok t a g s q b HI Hb) as (? & ? & E & _); [|eauto].
    intros _ s1 Hbt Hp. rewrite <- Hq. unfold runnable_parent, walk_fuel. rewrite Hp.
    generalize (parents s !! t). generalize (S (size (parents s))). induction n as [|n IH];
      intros [x|]; simpl; try done; rewrite Hbt; [done|]. rewrite Hp. destruct (by_task s !! x); [done|].
    apply IH.
Qed.

Lemma scheduler_calls_return_witness :
  exists r, settle 1 s_pair_waiting = Ret r.
Proof.
  pose proof (scheduler_calls_return 1 4 s_pair_waiting ltac:(unfold u32_max; lia)
    s_pair_waiting_reachable) as H. apply H.
Defined.

(** C3.  No deadlock, one slot is enough: while any node is live and none runs,
    the next admission starts a node.  A parent that waits on its children
    therefore never starves them. *)
Theorem scheduler_progress slots cap s :
  (0 <= cap <= u32_max)%Z -> 0 < slots -> reachable slots cap s ->
  running s = 0 -> (exists i n, nodes s !! i = Some n /\ live n = true) ->
  exists i s' n', admit_next s = Ret (Some i, s') /\
    nodes s' !! i = Some n' /\ n_state n' = Running.
Proof.
  intros Hcap Hslots Hr Hrun (i0 & n0 & Hi0 & Hl0).
  destruct (steps_grow _ _ (proj1 (new_well_formed slots cap Hcap)) Hr)
    as (HI & Hs & Hc & _). simpl in Hs, Hc. destruct (HI) as [HC [Hnd Hq]].
  assert (Hready : exists i n, nodes s !! i = Some n /\ n_state n = Ready).
  { assert (Hgo : forall k i n, length (nodes s) - i <= k -> nodes s !! i = Some n ->
              live n = true -> exists j m, nodes s !! j = Some m /\ n_state m = Ready).
    { induction k as [|k IH]; intros i n Hk Hi Hl; [apply lookup_lt_Some in Hi; lia|].
      destruct (n_state n) eqn:Hst; try (unfold live in Hl; by rewrite Hst in Hl); [by eauto| |].
      - pose proof (running_pos _ s i n HC Hi Hst). lia.
      - pose proof (core_waiting _ s HC i n Hi Hst) as Hw.
        pose proof (core_pending _ s HC i n Hi Hl) as Hp. unfold no_gap in Hp.
        destruct (zsum_pos (live_child i) (nodes s) (live_child_nonneg i)) as (j & m & Hj & Hm); [lia|].
        unfold live_child in Hm. case_decide as Hd; [|lia]. destruct Hd as [Hpar Hlm].
        pose proof (tree_lt _ (core_tree _ s HC) j m i Hj Hpar).
        apply lookup_lt_Some in Hj as Hjl. apply (IH j m); [lia|done..]. }
    by apply (Hgo (length (nodes s)) i0 n0); [lia|..]. }
  destruct Hready as (j & m & Hj & Hm).
  assert (Hin : j ∈ ready s) by (apply Hq; eauto).
  unfold admit_next.
  destruct (admit_next_bounded_spec (fun _ _ (l : unit) => (true, l)) s tt HI)
    as (r & s' & l' & E & _ & Hcase). rewrite E. simpl.
  destruct (ready s) as [|i q] eqn:Hrd; [by apply elem_of_nil in Hin|].
  destruct Hcase as (n & chain & Hn & _ & Hcase).
  assert (Hheld : held_units s = 0%Z).
  { rewrite (core_held _ s HC), zsum_run_units.
    pose proof (core_running _ s HC) as Hcr. rewrite zsum_ind_running, Hrun in Hcr.
    destruct (filter _ (nodes s)); [done|simpl in Hcr; lia]. }
  pose proof (core_units _ s HC i n Hn).
  rewrite decide_False in Hcase by lia. simpl in Hcase. destruct Hcase as (_ & -> & ->).
  exists i, (admitted i n s), (with_state Running n). split_and!; [done| |done].
  unfold admitted. simpl. apply list_lookup_insert_eq. by apply lookup_lt_Some in Hn.
Qed.

Lemma scheduler_progress_witness :
  exists i s' n', admit_next s_pair_waiting = Ret (Some i, s') /\
    nodes s' !! i = Some n' /\ n_state n' = Running.
Proof.
  apply (scheduler_progress 1 4); [unfold u32_max; lia|lia|apply s_pair_waiting_reachable|reflexivity|].
  exists 1. eexists. split; reflexivity.
Defined.

(** A terminal node is terminal forever: along every run it keeps its
    state, task, answer, grant and parent, and it is never queued again, so no
    late callback resurrects its dispatch. *)
Theorem terminal_forever slots cap s s' i n :
  (0 <= cap <= u32_max)%Z -> reachable slots cap s -> steps s s' ->
  nodes s !! i = Some n -> is_terminal (n_state n) = true ->
  exists n', nodes s' !! i = Some n' /\ n_state n' = n_state n /\ same_identity n n' /\
    i ∉ ready s'.
Proof.
  intros Hcap Hr Hss Hn Ht. destruct (reachable_well_formed slots cap s Hcap Hr) as [HI _].
  destruct (steps_grow s s' HI Hss) as ([_ [_ Hq]] & _ & _ & Hk & _).
  destruct (Hk i n Hn) as (n' & Hn' & Hid & Hst). exists n'. split_and!; [done|by apply Hst|done|].
  rewrite Hq. intros (m & Hm & Hrd). simplify_eq. rewrite (Hst Ht) in Hrd. by rewrite Hrd in Ht.
Qed.

Definition s_pair_cancelled : Scheduler :=
  match cancel_tree 0 s_pair_waiting with Ret (_, s) => s | _ => s_pair end.

Lemma s_pair_cancelled_steps : steps s_pair_waiting s_pair_cancelled.
Proof.
  eapply steps_snoc; [apply steps_refl|].
  apply (step_cancel_tree _ 0 (Ok [0; 1])). reflexivity.
Defined.

Lemma terminal_forever_witness :
  exists n', nodes s_pair_cancelled !! 1 = Some n' /\ n_state n' = Cancelled.
Proof.
  destruct (terminal_forever 1 4 s_pair_cancelled s_pair_cancelled 1
    (mkNode "child" ans "g" (Some 0) [] 0 1 Cancelled)) as (n' & Hn' & Hst & _).
  - unfold u32_max; lia.
  - eapply steps_trans; [apply s_pair_waiting_reachable|apply s_pair_cancelled_steps].
  - apply steps_refl.
  - reflexivity.
  - reflexivity.
  - exists n'. split; [exact Hn'|exact Hst].
Defined.

(** [cancel_tree] on a known node returns exactly the live nodes of the
    root's subtree, each once, leaves them [Cancelled], keeps every already
    terminal descendant, and outside the subtree changes nothing but the
    root's parent, which may only requeue. *)
Theorem cancel_tree_drains_subtree slots cap s root r :
  (0 <= cap <= u32_max)%Z -> reachable slots cap s -> nodes s !! root = Some r ->
  exists cs s', cancel_tree root s = Ret (Ok cs, s') /\ NoDup cs /\
    (forall i, i ∈ cs <-> descends (nodes s) root i /\ livb (nodes s) i) /\
    forall i n, nodes s !! i = Some n -> exists n', nodes s' !! i = Some n' /\
      (i ∈ cs -> n_state n' = Cancelled) /\
      (i ∉ cs -> n_parent r <> Some i \/ live r = false -> n' = n) /\
      (i ∉ cs -> n_state n' = n_state n \/
         n_parent r = Some i /\ n_state n = Waiting /\ n_state n' = Ready).
Proof.
  intros Hcap Hr Hroot. destruct (reachable_well_formed slots cap s Hcap Hr) as [HI _].
  destruct (drain_spec root r s HI Hroot) as (cs & s1 & q & Ew & Ec & Eq & Hnd & Hcs & Hns & Hf & HC & HQ).
  unfold cancel_tree. rewrite Hroot, Ew. cbn [obind]. rewrite Ec. cbn [obind]. rewrite Eq. cbn [obind].
  destruct (is_terminal (n_state r)) eqn:Ht; cbn [obind].
  - exists cs, (set_ready q s1). split_and!; try done. intros i n Hi. simpl.
    rewrite Hns. unfold drained. case_decide as Hd; rewrite Hi; simpl; eexists; (split; [done|]);
      split_and!; try done; by intros; auto.
  - set (s2 := set_ready q s1).
    destruct (settle_parent_ok root (with_state Cancelled r) s2) as (x & s' & E & _); [|done|done|].
    { unfold s2. simpl. rewrite Hns. unfold drained. rewrite decide_True, Hroot; [done|].
      apply Hcs. split; [constructor|]. exists r. split; [done|by apply live_spec]. }
    rewrite E. simpl. exists cs, s'. split_and!; try done. intros i n Hi.
    assert (Hi2 : nodes s2 !! i = Some (if decide (i ∈ cs) then with_state Cancelled n else n)).
    { unfold s2. simpl. rewrite Hns. unfold drained. rewrite Hi. by case_decide. }
    destruct (settle_parent_nodes root s2 x s' (with_state Cancelled r) E) as [Hoth Hpar].
    { unfold s2. simpl. rewrite Hns. unfold drained. rewrite decide_True, Hroot; [done|].
      apply Hcs. split; [constructor|]. exists r. split; [done|by apply live_spec]. }
    destruct (decide (n_parent r = Some i)) as [Hp|Hp].
    + destruct (Hpar i _ Hp Hi2) as (n' & Hn' & Hst). exists n'. split; [done|].
      split_and!.
      * intros Hd. rewrite decide_True in Hst by done. simpl in Hst. naive_solver.
      * intros _ [?|Hl]; [done|]. unfold live in Hl. by rewrite Ht in Hl.
      * intros Hd. rewrite decide_False in Hst by done. naive_solver.
    + rewrite (Hoth i Hp). rewrite Hi2. eexists. split; [done|].
      case_decide; split_and!; try done; by auto.
Qed.

Lemma cancel_tree_drains_subtree_witness :
  exists cs s', cancel_tree 0 s_pair_waiting = Ret (Ok cs, s') /\ NoDup cs.
Proof.
  destruct (cancel_tree_drains_subtree 1 4 s_pair_waiting 0
    (mkNode "root" ans "g" None [1] 1 1 Waiting)) as (cs & s' & E & Hnd & _).
  - unfold u32_max; lia.
  - apply s_pair_waiting_reachable.
  - reflexivity.
  - exists cs, s'. split; [exact E|exact Hnd].
Defined.

(** A repeated cancel is a pure no-op: cancelling a node whose subtree has
    no live node returns no id and leaves the state as it was. *)
Theorem cancel_tree_again_is_noop slots cap s root r :
  (0 <= cap <= u32_max)%Z -> reachable slots cap s -> nodes s !! root = Some r ->
  (forall i, descends (nodes s) root i -> ~ livb (nodes s) i) ->
  cancel_tree root s = Ret (Ok [], s).
Proof.
  intros Hcap Hr Hroot Hnone. destruct (reachable_well_formed slots cap s Hcap Hr) as [HI _].
  destruct (drain_spec root r s HI Hroot) as (cs & s1 & q & Ew & Ec & Eq & _ & Hcs & _).
  assert (cs = []) as ->.
  { destruct cs as [|c cs]; [done|]. exfalso.
    destruct (proj1 (Hcs c)) as [Hd Hl]; [set_solver|]. by apply (Hnone c). }
  simpl in Ec. injection Ec as <-. unfold cancel_tree. rewrite Hroot, Ew. cbn [obind cancel_nodes].
  assert (Hrr : retain_ready (nodes s) (ready s) = Ret (ready s)).
  { destruct HI as [_ [_ Hq]]. assert (Hall : forall i, i ∈ ready s -> exists n,
      nodes s !! i = Some n /\ n_state n = Ready) by (intros i; apply Hq).
    clear -Hall. induction (ready s) as [|i l IH]; simpl; [done|].
    destruct (Hall i) as (n & Hn & Hst); [set_solver|]. rewrite (index_Ret _ _ n Hn). simpl.
    rewrite IH by (intros; apply Hall; set_solver). simpl. by rewrite decide_True. }
  rewrite Hrr. cbn [obind]. rewrite set_ready_id.
  destruct (is_terminal (n_state r)) eqn:Ht; [done|]. exfalso. apply (Hnone root); [constructor|].
  exists r. split; [done|by apply live_spec].
Qed.

Lemma cancel_tree_again_is_noop_witness :
  cancel_tree 1 s_pair_cancelled = Ret (Ok [], s_pair_cancelled).
Proof.
  apply (cancel_tree_again_is_noop 1 4 s_pair_cancelled 1
    (mkNode "child" ans "g" (Some 0) [] 0 1 Cancelled)).
  - unfold u32_max; lia.
  - eapply steps_trans; [apply s_pair_waiting_reachable|apply s_pair_cancelled_steps].
  - reflexivity.
  - intros i _ (n & Hn & Hl). destruct i as [|[|i]]; simpl in Hn; simplify_eq; discriminate Hl.
Defined.

(** C4.  A cancelled task subtree never grows runnable work again (AC-012):
    after [cancel_task_tree t], in every later state, an answer for [t] or for
    any task linked under it, whenever it was adopted, submits nothing and
    changes nothing. *)
Theorem cancelled_subtree_never_admits slots cap s s1 s2 t r x n a g :
  (0 <= cap <= u32_max)%Z -> reachable slots cap s ->
  cancel_task_tree t s = Ret (r, s1) -> steps s1 s2 ->
  climb (parents s2) n x = Some t ->
  submit_answered x a g s2 = Ret (Ok None, s2).
Proof.
  intros Hcap Hr Hct Hss Hx. destruct (reachable_well_formed slots cap s Hcap Hr) as [HI _].
  assert (Hin : Inv s1 /\ t ∈ cancelled_tasks s1).
  { unfold cancel_task_tree in Hct. destruct (task_subtree_spec s t) as (sub & Es & _ & Hsub).
    rewrite Es in Hct. simpl in Hct.
    destruct (cancel_tasks_inv sub [] s HI) as (cs & s1' & E & HI' & Hc & _). det.
    split; [done|]. rewrite Hc. apply elem_of_union_l, elem_of_list_to_set, Hsub. constructor. }
  destruct Hin as [HI1 Hin]. destruct (steps_grow s1 s2 HI1 Hss) as (HI2 & _ & _ & _ & Hca & _).
  destruct (climb_short _ _ _ _ Hx) as (m & Hm & _ & Hmt).
  unfold submit_answered, in_cancelled_subtree.
  rewrite (in_cancelled_from_true _ s2 x m t); [done|done|unfold walk_fuel; lia|by apply Hca].
Qed.

Definition s_linked : Scheduler := adopt "child" "root" (new 1 4).
Definition s_linked_cancelled : Scheduler :=
  match cancel_task_tree "root" s_linked with Ret (_, s) => s | _ => s_linked end.

Lemma cancelled_subtree_never_admits_witness :
  submit_answered "child" ans "g" s_linked_cancelled = Ret (Ok None, s_linked_cancelled).
Proof.
  apply (cancelled_subtree_never_admits 1 4 s_linked s_linked_cancelled s_linked_cancelled
           "root" (Ok []) "child" 1).
  - unfold u32_max; lia.
  - eapply steps_snoc; [apply steps_refl|]. apply step_adopt.
  - vm_compute. reflexivity.
  - apply steps_refl.
  - vm_compute. reflexivity.
Defined.

(** Strict FIFO admission with backpressure.  Only the queue head is ever
    admitted; it is admitted exactly when a slot is free, its units fit under
    the cap without overflow and the caller's ledger grants its ancestor
    chain; the ledger is consulted only after the other guards pass, and every
    refusal leaves the scheduler as it was. *)
Theorem admission_is_strict_fifo {L} slots cap s (reserve : list TaskId -> Z -> L -> bool * L) l :
  (0 <= cap <= u32_max)%Z -> reachable slots cap s ->
  match ready s with
  | [] => admit_next_bounded reserve s l = Ret (None, s, l)
  | i :: q =>
      exists n chain, nodes s !! i = Some n /\ budget_scopes s i = Ret (Ok chain) /\
      admit_next_bounded reserve s l = Ret
        (if decide (running s < slots /\ (held_units s + n_resource_units n <= cap)%Z)
         then let '(granted, l') := reserve chain (n_resource_units n) l in
              if granted : bool then (Some i, admitted i n s, l') else (None, s, l')
         else (None, s, l)) /\
      ready (admitted i n s) = q
  end.
Proof.
  intros Hcap Hr. destruct (steps_grow _ _ (proj1 (new_well_formed slots cap Hcap)) Hr)
    as (HI & Hs & Hc & _). simpl in Hs, Hc.
  destruct (admit_next_bounded_spec reserve s l HI) as (r & s' & l' & E & _ & Hcase).
  destruct (ready s) as [|i q] eqn:Hrd; [naive_solver|].
  destruct Hcase as (n & chain & Hn & Hch & Hcase). exists n, chain. rewrite E.
  pose proof (core_slots _ s (inv_core s HI)). split_and!; [done| | |].
  - unfold budget_scopes, node_state. rewrite Hn. simpl. by rewrite Hch.
  - case_decide as Hd.
    + rewrite decide_False by lia. by destruct Hcase as (-> & -> & ->).
    + rewrite decide_True by lia. destruct (reserve chain (n_resource_units n) l) as [[] l''];
        simpl in Hcase; by destruct Hcase as (-> & -> & ->).
  - unfold admitted. simpl. by rewrite Hrd.
Qed.

Lemma admission_is_strict_fifo_witness :
  exists n, nodes s_pair !! 0 = Some n /\
    admit_next_bounded (fun _ u (l : Z) => (bool_decide (u <= l)%Z, (l - u)%Z)) s_pair 3%Z
    = Ret (Some 0, admitted 0 n s_pair, 2%Z).
Proof.
  destruct (admission_is_strict_fifo 1 4 s_pair
    (fun _ u (l : Z) => (bool_decide (u <= l)%Z, (l - u)%Z)) 3%Z ltac:(unfold u32_max; lia)
    s_pair_reachable) as (n & chain & Hn & _ & E & _).
  exists n. split; [exact Hn|]. rewrite E. injection Hn as <-. reflexivity.
Defined.

(** The walk fuel is exact.  A walk that uses its fuel up would use up any
    fuel, so [Diverge] in the model is the code's endless loop and nothing
    else. *)
Theorem walk_fuel_complete s x :
  in_cancelled_subtree s x = Diverge <->
  forall fuel, in_cancelled_from fuel s (Some x) = Diverge.
Proof.
  split; [|by intros H; apply H]. intros H fuel.
  apply in_cancelled_from_diverge in H as [[y Hy] Hno]. unfold walk_fuel in *.
  apply in_cancelled_from_diverge. split; [by apply (climb_forever _ x y)|].
  intros m t _ Hm. destruct (climb_short _ _ _ _ Hm) as (m' & Hle & _ & Hm').
  apply (Hno m'); [lia|done].
Qed.

(** C5.  Adoption checks no cycle.  The state after a root task is created, a
    child is created under it, and the root's create command is replayed
    naming that child as parent is reachable, and answering either task from
    there never returns. *)
Theorem replayed_create_hangs_submission a g :
  exists s, reachable 2 4 s /\
    s = adopt "root" "child" (adopt "child" "root" (new 2 4)) /\
    submit_answered "root" a g s = Diverge /\ submit_answered "child" a g s = Diverge.
Proof.
  eexists. split; [|split; [reflexivity|split; reflexivity]].
  unfold reachable. eapply steps_snoc; [eapply steps_snoc; [apply steps_refl|]|]; apply step_adopt.
Qed.

(** [task_subtree] returns, without repetition, exactly the tasks linked
    under its root, whatever the linkage. *)
Theorem task_subtree_is_the_linked_closure s t :
  exists sub, task_subtree s t = Ret sub /\ NoDup sub /\
    forall x, x ∈ sub <-> linked (linkage s) t x.
Proof. apply task_subtree_spec. Qed.
