(* ===== verification/Supervisor.v ===== *)
(** The sterile-retry supervisor ([src/src/supervisor.rs]): detector policy,
    sliding windows per task and operation class, the detectors, and the
    LRU-bounded watch set.  [usize] counters and the [u32] cooldown are [nat]:
    the code only compares them, decrements them above zero and increments
    them below a cap. *)

From stdpp Require Import pretty.
From S2P Require Import Prelude.
From S2P Require Import Contracts.
From S2P Require Import Scheduler.

Definition REACTION_HISTORY : nat := 8.
Definition WATCH_LIMIT : nat := 64.

Inductive OperationClass := OpRead | OpTest | OpRetrieve.

#[export] Instance OperationClass_eq_dec : EqDecision OperationClass.
Proof. solve_decision. Defined.

#[export] Instance OperationClass_countable : Countable OperationClass.
Proof.
  apply (inj_countable' (fun c => match c with OpRead => 0 | OpTest => 1 | OpRetrieve => 2 end)
    (fun n => match n with 0 => OpRead | 1 => OpTest | _ => OpRetrieve end)).
  by intros [].
Defined.

(** [Display for OperationClass] *)
Definition class_display (c : OperationClass) : string :=
  match c with OpRead => "read" | OpTest => "test" | OpRetrieve => "retrieve" end.

Record ClassThresholds := mkThresholds {
  window : nat;
  exact_repeat : nat;
  fuzzy_repeat : nat;
  ping_pong : nat;
  no_progress : nat;
  cooldown : nat;
}.

Inductive PolicyFault :=
  | WindowBelowCap (window cap : nat)
  | FuzzyBelowExact (fuzzy exact : nat)
  | PingPongBelowPair (cap : nat)
  | ZeroCooldown (cooldown : nat).

(** [for cap in [..] { if cap > self.window { return Err(..) } }] *)
Fixpoint check_caps (caps : list nat) (w : nat) : result unit PolicyFault :=
  match caps with
  | [] => Ok tt
  | cap :: caps => if decide (w < cap) then Err (WindowBelowCap w cap) else check_caps caps w
  end.

(** [ClassThresholds::validate] *)
Definition validate (t : ClassThresholds) : result unit PolicyFault :=
  let? _ := check_caps [exact_repeat t; fuzzy_repeat t; ping_pong t; no_progress t] (window t) in
  if decide (fuzzy_repeat t < exact_repeat t)
  then Err (FuzzyBelowExact (fuzzy_repeat t) (exact_repeat t))
  else if decide (ping_pong t < 2) then Err (PingPongBelowPair (ping_pong t))
  else if decide (cooldown t = 0) then Err (ZeroCooldown (cooldown t))
  else Ok tt.

Inductive SupervisorError := InvalidPolicy (class : OperationClass) (fault : PolicyFault).

Record SupervisorPolicy := mkPolicy {
  p_read : ClassThresholds;
  p_test : ClassThresholds;
  p_retrieve : ClassThresholds;
}.

(** [Default for SupervisorPolicy] *)
Definition default_policy : SupervisorPolicy := {|
  p_read := {| window := 8; exact_repeat := 3; fuzzy_repeat := 4; ping_pong := 6;
               no_progress := 8; cooldown := 4 |};
  p_test := {| window := 12; exact_repeat := 5; fuzzy_repeat := 6; ping_pong := 8;
               no_progress := 12; cooldown := 6 |};
  p_retrieve := {| window := 10; exact_repeat := 4; fuzzy_repeat := 6; ping_pong := 8;
                   no_progress := 10; cooldown := 4 |};
|}.

Definition for_class (p : SupervisorPolicy) (c : OperationClass) : ClassThresholds :=
  match c with OpRead => p_read p | OpTest => p_test p | OpRetrieve => p_retrieve p end.

Record FailureSignature := mkSignature {
  sig_tool : string;
  sig_args : string;
  sig_result : string;
}.

#[export] Instance FailureSignature_eq_dec : EqDecision FailureSignature.
Proof. solve_decision. Defined.

Definition exact_match (a b : FailureSignature) : bool := bool_decide (a = b).
Definition fuzzy_match (a b : FailureSignature) : bool :=
  bool_decide (sig_tool a = sig_tool b) && bool_decide (sig_args a = sig_args b).

(** [Display for FailureSignature] *)
Definition signature_display (s : FailureSignature) : string :=
  sig_tool s +:+ " " +:+ sig_args s +:+ " -> " +:+ sig_result s.

Record Observation := mkObservation {
  o_task : TaskId;
  o_class : OperationClass;
  o_signature : FailureSignature;
  o_heartbeat : bool;
  o_evidence_growth : Z;
  o_new_inputs : bool;
}.

Definition failure (task : TaskId) (class : OperationClass) (tool args result : string)
    : Observation :=
  {| o_task := task; o_class := class;
     o_signature := {| sig_tool := tool; sig_args := args; sig_result := result |};
     o_heartbeat := false; o_evidence_growth := 0; o_new_inputs := false |}.

Definition with_heartbeat (o : Observation) : Observation :=
  mkObservation (o_task o) (o_class o) (o_signature o) true (o_evidence_growth o) (o_new_inputs o).

Definition with_evidence_growth (bytes : Z) (o : Observation) : Observation :=
  mkObservation (o_task o) (o_class o) (o_signature o) (o_heartbeat o)
    (saturating_add u64_max (o_evidence_growth o) bytes) (o_new_inputs o).

Definition with_new_inputs (o : Observation) : Observation :=
  mkObservation (o_task o) (o_class o) (o_signature o) (o_heartbeat o) (o_evidence_growth o) true.

Definition carries_progress (o : Observation) : bool :=
  o_heartbeat o || bool_decide (0 < o_evidence_growth o)%Z || o_new_inputs o.

Inductive StallCause :=
  | ExactRepeat (signature : FailureSignature) (repeats : nat)
  | FuzzyRepeat (signature : FailureSignature) (repeats : nat)
  | PingPong (first second : FailureSignature) (alternations : nat)
  | NoProgress (observations : nat).

(** [Display for StallCause] *)
Definition cause_display (c : StallCause) : string :=
  match c with
  | ExactRepeat s n => "exact repeat of " +:+ signature_display s +:+ " " +:+ pretty n
      +:+ " times without progress"
  | FuzzyRepeat s n => "fuzzy repeat of " +:+ signature_display s +:+ " " +:+ pretty n
      +:+ " times without progress"
  | PingPong a b n => "ping-pong between " +:+ signature_display a +:+ " and "
      +:+ signature_display b +:+ " across " +:+ pretty n +:+ " attempts without progress"
  | NoProgress n => "no progress across " +:+ pretty n
      +:+ " attempts without heartbeat, evidence growth or new inputs"
  end.

Record Reaction := mkReaction {
  r_task : TaskId;
  r_class : OperationClass;
  r_cause : StallCause;
  r_thresholds : ClassThresholds;
}.

Record Sample := mkSample {
  s_signature : FailureSignature;
  s_useful : bool;
}.

Record TaskWatch := mkWatch {
  w_windows : gmap OperationClass (list Sample);
  w_cooldown : nat;
  w_waiting_grace : nat;
  w_reactions : list Reaction;
}.

(** [TaskWatch::default()] *)
Definition empty_watch : TaskWatch := mkWatch ∅ 0 0 [].

Record Supervisor := mkSupervisor {
  policy : SupervisorPolicy;
  watches : gmap TaskId TaskWatch;
  order : list TaskId;
}.

Fixpoint validate_all (l : list (OperationClass * ClassThresholds)) : result unit SupervisorError :=
  match l with
  | [] => Ok tt
  | (class, t) :: l => let? _ := map_err (InvalidPolicy class) (validate t) in validate_all l
  end.

(** [Supervisor::new] *)
Definition supervisor_new (p : SupervisorPolicy) : result Supervisor SupervisorError :=
  let? _ := validate_all [(OpRead, p_read p); (OpTest, p_test p); (OpRetrieve, p_retrieve p)] in
  Ok {| policy := p; watches := ∅; order := [] |}.

(** [Iterator::take_while] *)
Fixpoint take_while {A} (f : A -> bool) (l : list A) : list A :=
  match l with
  | [] => []
  | x :: l => if f x then x :: take_while f l else []
  end.

(** The positions still to check of the alternation, [index] the next one. *)
Fixpoint alternation_from (first second : FailureSignature) (index : nat) (run : list Sample)
    : nat :=
  match run with
  | [] => 0
  | s :: run =>
      if decide (s_signature s = if decide (index mod 2 = 0) then first else second)
      then S (alternation_from first second (S index) run) else 0
  end.

(** [trailing_alternations] *)
Definition trailing_alternations (run : list Sample) : nat :=
  match run with
  | [] => 0
  | [_] => 0
  | first :: second :: _ =>
      if decide (s_signature first = s_signature second) then 0
      else alternation_from (s_signature first) (s_signature second) 0 run
  end.

(** The trailing sterile run, newest first. *)
Definition sterile_run (w : list Sample) : list Sample :=
  take_while (fun s => negb (s_useful s)) (rev w).

(** [detect] *)
Definition detect (w : list Sample) (t : ClassThresholds) : outcome (option StallCause) :=
  let run := sterile_run w in
  match run with
  | [] => Ret None
  | latest :: _ =>
      let exact := length (take_while (fun s => exact_match (s_signature s) (s_signature latest)) run) in
      if decide (exact_repeat t <= exact) then Ret (Some (ExactRepeat (s_signature latest) exact))
      else
        let fuzzy := length (take_while (fun s => fuzzy_match (s_signature s) (s_signature latest)) run) in
        if decide (fuzzy_repeat t <= fuzzy) then Ret (Some (FuzzyRepeat (s_signature latest) fuzzy))
        else
          let alternations := trailing_alternations run in
          if decide (ping_pong t <= alternations) then
            let* a := index run 0 in
            let* b := index run 1 in
            Ret (Some (PingPong (s_signature a) (s_signature b) alternations))
          else if decide (no_progress t <= length run) then Ret (Some (NoProgress (length run)))
          else Ret None
  end.

(** The eviction loop: while the watch set is at its ceiling, drop the front of
    the recency order. *)
Fixpoint evict (w : gmap TaskId TaskWatch) (ord : list TaskId)
    : gmap TaskId TaskWatch * list TaskId :=
  if decide (WATCH_LIMIT <= size w) then
    match ord with
    | [] => (w, [])
    | evicted :: ord => evict (delete evicted w) ord
    end
  else (w, ord).

(** [while window.len() > thresholds.window { window.pop_front() }] *)
Definition trim (limit : nat) (w : list Sample) : list Sample := drop (length w - limit) w.

(** Whether the task's latest scheduler node waits. *)
Definition task_waiting (sched : Scheduler.Scheduler) (task : TaskId) : bool :=
  match node_of_task sched task with
  | Some node =>
      match Scheduler.state sched node with Ok Scheduler.Waiting => true | _ => false end
  | None => false
  end.

(** The watch after one sample: usefulness and grace, then the window. *)
Definition record_sample (t : ClassThresholds) (waiting : bool) (o : Observation) (w : TaskWatch)
    : TaskWatch * list Sample :=
  let '(useful, grace) :=
    if waiting then
      if decide (no_progress t <= w_waiting_grace w) then (false, w_waiting_grace w)
      else (true, S (w_waiting_grace w))
    else (carries_progress o, 0) in
  let win := default [] (w_windows w !! o_class o) in
  let win := trim (window t) (win ++ [mkSample (o_signature o) useful]) in
  (mkWatch (<[o_class o := win]> (w_windows w)) (w_cooldown w) grace (w_reactions w), win).

(** [watch.reactions.push(..); if len > REACTION_HISTORY { remove(0) }] *)
Definition push_reaction (r : Reaction) (l : list Reaction) : list Reaction :=
  let l := l ++ [r] in
  if decide (REACTION_HISTORY < length l) then tail l else l.

(** [Supervisor::observe] *)
Definition observe (sched : Scheduler.Scheduler) (o : Observation) (sv : Supervisor)
    : outcome (option Reaction * Supervisor) :=
  let t := for_class (policy sv) (o_class o) in
  let waiting := task_waiting sched (o_task o) in
  let watched := bool_decide (is_Some (watches sv !! o_task o)) in
  let ord := filter (fun task => task <> o_task o) (order sv) ++ [o_task o] in
  let '(ws, ord) := if watched then (watches sv, ord) else evict (watches sv) ord in
  let w := default empty_watch (ws !! o_task o) in
  let '(w, win) := record_sample t waiting o w in
  let put w := mkSupervisor (policy sv) (<[o_task o := w]> ws) ord in
  match w_cooldown w with
  | S c => Ret (None, put (mkWatch (w_windows w) c (w_waiting_grace w) (w_reactions w)))
  | O =>
      let* cause := detect win t in
      match cause with
      | None => Ret (None, put w)
      | Some cause =>
          let reaction := mkReaction (o_task o) (o_class o) cause t in
          Ret (Some reaction,
               put (mkWatch (w_windows w) (cooldown t) (w_waiting_grace w)
                     (push_reaction reaction (w_reactions w))))
      end
  end.

(** [Supervisor::reactions] *)
Definition reactions (sv : Supervisor) (task : TaskId) : list Reaction :=
  match watches sv !! task with Some w => w_reactions w | None => [] end.

(** * Properties

    Properties of the sterile-retry supervisor ([src/src/supervisor.rs]). *)

(** * Validated policies *)

Definition thresholds_ok (t : ClassThresholds) : Prop :=
  exact_repeat t <= window t /\ fuzzy_repeat t <= window t /\ ping_pong t <= window t /\
  no_progress t <= window t /\ exact_repeat t <= fuzzy_repeat t /\ 2 <= ping_pong t /\
  0 < cooldown t.

Definition policy_ok (p : SupervisorPolicy) : Prop := forall c, thresholds_ok (for_class p c).

Lemma check_caps_ok caps w : check_caps caps w = Ok tt <-> Forall (fun cap => cap <= w) caps.
Proof.
  induction caps as [|cap caps IH]; simpl; [by split|]. case_decide; rewrite Forall_cons.
  - split; [done|]. lia.
  - rewrite IH. split; [intros; split; [lia|done]|tauto].
Qed.

Lemma thresholds_validate_ok t : validate t = Ok tt <-> thresholds_ok t.
Proof.
  unfold validate, thresholds_ok.
  destruct (check_caps _ _) as [[]|e] eqn:E; simpl.
  - apply check_caps_ok in E. rewrite !Forall_cons in E.
    repeat case_decide; split; intros HH; try done; lia.
  - split; [done|]. intros H. exfalso.
    assert (check_caps [exact_repeat t; fuzzy_repeat t; ping_pong t; no_progress t] (window t) = Ok tt);
      [|congruence].
    apply check_caps_ok. repeat (apply Forall_cons; split); try lia. constructor.
Qed.

Lemma validate_all_ok l : validate_all l = Ok tt <-> Forall (fun ct => thresholds_ok ct.2) l.
Proof.
  induction l as [|[c t] l IH]; simpl; [by split|]. rewrite Forall_cons. simpl.
  rewrite <- thresholds_validate_ok. destruct (validate t) as [[]|e]; simpl; [|naive_solver].
  rewrite IH. naive_solver.
Qed.

(** * Windows and runs *)

Lemma take_while_prefix {A} (f : A -> bool) l : exists r, l = take_while f l ++ r /\
  (forall x, head r = Some x -> f x = false).
Proof.
  induction l as [|x l (r & E & H)]; simpl; [by exists []|].
  destruct (f x) eqn:Hx.
  - exists r. split; [simpl; congruence|done].
  - exists (x :: l). split; [done|]. by intros y [= <-].
Qed.

Lemma take_while_Forall {A} (f : A -> bool) l : Forall (fun x => f x = true) (take_while f l).
Proof. induction l as [|x l IH]; simpl; [constructor|]. destruct (f x) eqn:E; by constructor. Qed.

Lemma take_while_app {A} (f : A -> bool) l1 l2 :
  Forall (fun x => f x = true) l1 -> take_while f (l1 ++ l2) = l1 ++ take_while f l2.
Proof. induction 1 as [|x l1 Hx _ IH]; simpl; [done|]. by rewrite Hx, IH. Qed.

Lemma take_while_length {A} (f : A -> bool) l : length (take_while f l) <= length l.
Proof. induction l as [|x l IH]; simpl; [done|]. destruct (f x); simpl; lia. Qed.

Lemma sterile_run_snoc w s :
  sterile_run (w ++ [s]) = if s_useful s then [] else s :: sterile_run w.
Proof. unfold sterile_run. rewrite rev_app_distr. simpl. by destruct (s_useful s). Qed.

Lemma alternation_le a b i run : alternation_from a b i run <= length run.
Proof.
  revert i. induction run as [|s run IH]; intros i; simpl; [done|].
  destruct (decide _); [specialize (IH (S i)); lia|lia].
Qed.

Lemma trailing_le run : trailing_alternations run <= length run.
Proof.
  destruct run as [|x [|y run]]; simpl; try lia. case_decide; [lia|].
  pose proof (alternation_le (s_signature x) (s_signature y) 1 (y :: run)). simpl in *.
  repeat (destruct (decide _)); lia.
Qed.

(** * The watch set *)

Record watch_ok (p : SupervisorPolicy) (w : TaskWatch) : Prop := {
  wo_window : forall c win, w_windows w !! c = Some win -> length win <= window (for_class p c);
  wo_history : length (w_reactions w) <= REACTION_HISTORY;
}.

Record sv_ok (sv : Supervisor) : Prop := {
  so_nodup : NoDup (order sv);
  so_mirror : forall t, t ∈ order sv <-> is_Some (watches sv !! t);
  so_limit : size (watches sv) <= WATCH_LIMIT;
  so_watch : forall t w, watches sv !! t = Some w -> watch_ok (policy sv) w;
}.

Lemma evict_spec w rest task :
  size w <= WATCH_LIMIT -> w !! task = None -> (forall t, t ∈ rest <-> is_Some (w !! t)) ->
  evict w (rest ++ [task]) =
    if decide (size w = WATCH_LIMIT)
    then match rest with [] => (w, [task]) | e :: rest => (delete e w, rest ++ [task]) end
    else (w, rest ++ [task]).
Proof.
  intros Hs Ht Hm. destruct (decide (size w = WATCH_LIMIT)) as [Hfull|Hroom].
  - destruct rest as [|e rest].
    { exfalso. assert (w = ∅) as ->; [|by rewrite map_size_empty in Hfull].
      apply map_empty. intros t. destruct (w !! t) eqn:E; [|done].
      assert (t ∈ []) as H%elem_of_nil by (apply Hm; eauto). done. }
    assert (Hsd : size (delete e w) < WATCH_LIMIT).
    { destruct (proj1 (Hm e)) as [x Hx]; [set_solver|].
      rewrite map_size_delete_Some by eauto. unfold WATCH_LIMIT in *. lia. }
    cbn [app evict]. rewrite decide_True by lia.
    destruct (rest ++ [task]) as [|x l]; cbn [evict]; by rewrite decide_False by lia.
  - destruct (rest ++ [task]) as [|x l]; cbn [evict]; by rewrite decide_False by lia.
Qed.

(** The watch set and recency order an observation of [task] starts from. *)
Definition admitted_watches (sv : Supervisor) (task : TaskId)
    : gmap TaskId TaskWatch * list TaskId :=
  let ord := filter (fun t => t <> task) (order sv) ++ [task] in
  if bool_decide (is_Some (watches sv !! task)) then (watches sv, ord) else evict (watches sv) ord.

Lemma filter_absent (l : list TaskId) task : task ∉ l -> filter (fun t => t <> task) l = l.
Proof.
  intros Hn. induction l as [|x l IH]; [done|]. rewrite filter_cons_True by set_solver.
  f_equal. apply IH. set_solver.
Qed.

(** Exactly one task can lose its watch: the least recently observed one, and
    only when a new task arrives at a full set. *)
Definition evicted_task (sv : Supervisor) (task : TaskId) : option TaskId :=
  if decide (watches sv !! task = None /\ size (watches sv) = WATCH_LIMIT)
  then head (order sv) else None.

Definition drop_opt (e : option TaskId) (w : gmap TaskId TaskWatch) : gmap TaskId TaskWatch :=
  match e with Some e => delete e w | None => w end.

Definition drop_head (e : option TaskId) (l : list TaskId) : list TaskId :=
  match e with Some _ => tail l | None => l end.

Lemma admitted_watches_spec sv task :
  sv_ok sv ->
  exists ord, admitted_watches sv task = (drop_opt (evicted_task sv task) (watches sv), ord) /\
    ord = filter (fun t => t <> task) (drop_head (evicted_task sv task) (order sv)) ++ [task] /\
    NoDup ord /\ size (delete task (drop_opt (evicted_task sv task) (watches sv))) < WATCH_LIMIT /\
    (forall t, t ∈ ord <-> t = task \/ is_Some (drop_opt (evicted_task sv task) (watches sv) !! t)) /\
    evicted_task sv task <> Some task.
Proof.
  intros [Hnd Hm Hs _]. unfold admitted_watches, evicted_task.
  destruct (watches sv !! task) as [w|] eqn:Ht; simpl.
  - eexists. split; [done|]. split_and!; [done| | | |done].
    + apply NoDup_app. split_and!; [by apply NoDup_filter| |apply NoDup_singleton].
      intros x Hx Hx'%list_elem_of_singleton. apply list_elem_of_filter in Hx. naive_solver.
    + rewrite map_size_delete_Some by eauto. unfold WATCH_LIMIT in *.
      assert (size (watches sv) <> 0); [|lia]. intros H0. apply map_size_empty_inv in H0.
      rewrite H0, lookup_empty in Ht. done.
    + intros t. rewrite elem_of_app, list_elem_of_filter, list_elem_of_singleton, Hm.
      destruct (decide (t = task)); naive_solver.
  - assert (Hno : task ∉ order sv) by (rewrite Hm, Ht; by intros [? ?]).
    rewrite filter_absent by done. rewrite evict_spec by done.
    destruct (decide (size (watches sv) = WATCH_LIMIT)) as [Hfull|Hroom].
    + rewrite decide_True by done. destruct (order sv) as [|e rest] eqn:Ho.
      { exfalso. assert (watches sv = ∅) as E; [|by rewrite E, map_size_empty in Hfull].
        apply map_empty. intros t. destruct (watches sv !! t) eqn:E; [|done].
        assert (t ∈ []) as H%elem_of_nil by (apply Hm; eauto). done. }
      simpl. eexists. split; [done|]. apply NoDup_cons in Hnd as [He Hnd].
      assert (Hse : size (delete e (watches sv)) < WATCH_LIMIT).
      { rewrite map_size_delete_Some by (apply Hm; set_solver). unfold WATCH_LIMIT in *. lia. }
      split_and!; [ | | | |intros [= ->]; set_solver].
      * rewrite filter_absent; [done|]. set_solver.
      * apply NoDup_app. split_and!; [done|set_solver|apply NoDup_singleton].
      * rewrite delete_id; [done|]. rewrite lookup_delete_ne by set_solver. done.
      * intros t. rewrite elem_of_app, list_elem_of_singleton.
        destruct (decide (t = e)) as [->|Hne].
        -- rewrite lookup_delete_eq. split; [intros [?|?]; [done|by left]|].
           intros [?|[? ?]]; [by right|done].
        -- rewrite lookup_delete_ne by done. rewrite <- Hm, elem_of_cons. naive_solver.
    + rewrite decide_False by naive_solver. simpl. eexists. split; [done|].
      split_and!; [by rewrite filter_absent| | | |done].
      * apply NoDup_app. split_and!; [done|set_solver|apply NoDup_singleton].
      * rewrite delete_id by done. lia.
      * intros t. rewrite elem_of_app, list_elem_of_singleton, Hm. naive_solver.
Qed.

(** * Detector lemmas *)

Lemma sterile_run_split w : exists pre, w = pre ++ rev (sterile_run w) /\
  Forall (fun s => s_useful s = false) (sterile_run w).
Proof.
  unfold sterile_run. destruct (take_while_prefix (fun s => negb (s_useful s)) (rev w)) as (r & E & _).
  exists (rev r). split.
  - rewrite <- rev_app_distr, <- E. by rewrite rev_involutive.
  - eapply Forall_impl; [apply take_while_Forall|]. intros s Hs. by apply negb_true_iff.
Qed.

(** The last [n] samples of the window are sterile and satisfy [P]. *)
Definition trailing (P : nat -> Sample -> Prop) (n : nat) (w : list Sample) : Prop :=
  n <= length w /\ forall k s, k < n -> rev w !! k = Some s -> s_useful s = false /\ P k s.

Lemma trailing_run P n w :
  n <= length (sterile_run w) -> (forall k s, k < n -> sterile_run w !! k = Some s -> P k s) ->
  trailing P n w.
Proof.
  intros Hn HP. unfold sterile_run in *.
  destruct (take_while_prefix (fun s => negb (s_useful s)) (rev w)) as (r & E & _).
  pose proof (take_while_length (fun s => negb (s_useful s)) (rev w)) as Hl. rewrite length_rev in Hl.
  split; [lia|]. intros k s Hk Hs. rewrite E, lookup_app_l in Hs by lia.
  split; [|by apply HP].
  pose proof (take_while_Forall (fun s => negb (s_useful s)) (rev w)) as HF.
  rewrite Forall_lookup in HF. specialize (HF k s Hs). by apply negb_true_iff.
Qed.

(** A longer sterile tail with the property would have been counted. *)
Lemma trailing_bound P n w :
  trailing P n w -> n <= length (sterile_run w) /\
  forall k s, k < n -> sterile_run w !! k = Some s -> P k s.
Proof.
  intros [Hn HP]. unfold sterile_run.
  destruct (take_while_prefix (fun s => negb (s_useful s)) (rev w)) as (r & E & Hr).
  set (run := take_while _ (rev w)) in *. assert (Hlen : n <= length run).
  { apply Nat.nlt_ge. intros Hlt. destruct r as [|x r].
    - apply (f_equal length) in E. rewrite length_app, length_rev in E. simpl in E. lia.
    - destruct (HP (length run) x Hlt) as [Hu _].
      + rewrite E, lookup_app_r, Nat.sub_diag by lia. done.
      + specialize (Hr x eq_refl). simpl in Hr. by rewrite Hu in Hr. }
  split; [done|]. intros k s Hk Hs. apply HP; [done|]. rewrite E, lookup_app_l by lia. done.
Qed.

Lemma take_while_count {A} (f : A -> bool) l n :
  n <= length (take_while f l) <->
  n <= length l /\ forall k x, k < n -> l !! k = Some x -> f x = true.
Proof.
  revert n. induction l as [|y l IH]; intros n; simpl.
  - split; [intros; split; [done|]; by intros k x ? ?|tauto].
  - destruct n as [|n]; [split; [intros; split; [lia|lia]|lia]|].
    destruct (f y) eqn:Hy; simpl.
    + rewrite <- Nat.succ_le_mono, IH, <- Nat.succ_le_mono. split; intros [Hn H]; (split; [done|]).
      * intros [|k] x Hk Hx; simpl in Hx; [congruence|]. apply (H k); [lia|done].
      * intros k x Hk Hx. apply (H (S k)); [lia|done].
    + split; [lia|]. intros [_ H]. specialize (H 0 y ltac:(lia) eq_refl). congruence.
Qed.

Lemma alternation_count a b i run n :
  n <= alternation_from a b i run <->
  n <= length run /\ forall k x, k < n -> run !! k = Some x ->
    s_signature x = if decide ((i + k) mod 2 = 0) then a else b.
Proof.
  revert i n. induction run as [|y run IH]; intros i n; simpl.
  - split; [intros; split; [done|]; by intros k x ? ?|tauto].
  - destruct n as [|n]; [split; [intros; split; [lia|lia]|lia]|].
    destruct (decide (s_signature y = if decide (i mod 2 = 0) then a else b)) as [Hy|Hy].
    + rewrite <- Nat.succ_le_mono, IH, <- Nat.succ_le_mono. split; intros [Hn H]; (split; [done|]).
      * intros [|k] x Hk Hx; simpl in Hx.
        -- rewrite Nat.add_0_r. congruence.
        -- rewrite <- Nat.add_succ_comm. apply (H k); [lia|done].
      * intros k x Hk Hx. rewrite Nat.add_succ_comm. apply (H (S k)); [lia|done].
    + split; [lia|]. intros [_ H]. specialize (H 0 y ltac:(lia) eq_refl).
      rewrite Nat.add_0_r in H. done.
Qed.

Definition same_signature (sig : FailureSignature) (_ : nat) (s : Sample) : Prop :=
  s_signature s = sig.
Definition same_tool (sig : FailureSignature) (_ : nat) (s : Sample) : Prop :=
  sig_tool (s_signature s) = sig_tool sig /\ sig_args (s_signature s) = sig_args sig.
Definition alternates (a b : FailureSignature) (k : nat) (s : Sample) : Prop :=
  s_signature s = if decide (k mod 2 = 0) then a else b.
Definition anything (_ : nat) (_ : Sample) : Prop := True.

Lemma fuzzy_match_spec a b :
  fuzzy_match a b = true <-> sig_tool a = sig_tool b /\ sig_args a = sig_args b.
Proof. unfold fuzzy_match. by rewrite andb_true_iff, !bool_decide_eq_true. Qed.

(** What a returned cause says about the window. *)
Definition cause_holds (w : list Sample) (t : ClassThresholds) (c : StallCause) : Prop :=
  match c with
  | ExactRepeat sig n => exact_repeat t <= n /\ trailing (same_signature sig) n w
  | FuzzyRepeat sig n => fuzzy_repeat t <= n /\ trailing (same_tool sig) n w
  | PingPong a b n => ping_pong t <= n /\ a <> b /\ trailing (alternates a b) n w
  | NoProgress n => no_progress t <= n /\ trailing anything n w
  end.

(** No detector's cap is reached. *)
Definition quiet (w : list Sample) (t : ClassThresholds) : Prop :=
  (forall sig n, 0 < n -> trailing (same_signature sig) n w -> n < exact_repeat t) /\
  (forall sig n, 0 < n -> trailing (same_tool sig) n w -> n < fuzzy_repeat t) /\
  (forall a b n, 1 < n -> a <> b -> trailing (alternates a b) n w -> n < ping_pong t) /\
  (forall n, 0 < n -> trailing anything n w -> n < no_progress t).

Lemma quiet_nil w t : sterile_run w = [] -> quiet w t.
Proof.
  intros E. assert (Hz : forall P n, 0 < n -> ~ trailing P n w).
  { intros P n Hn Ht. apply trailing_bound in Ht as [Hl _]. rewrite E in Hl. simpl in Hl. lia. }
  split_and!; intros; exfalso; (eapply Hz; [|eassumption]); lia.
Qed.

Lemma detect_spec w t :
  2 <= ping_pong t ->
  exists c, detect w t = Ret c /\
  match c with Some cause => cause_holds w t cause | None => quiet w t end.
Proof.
  intros Hpp. unfold detect. destruct (sterile_run w) as [|latest run] eqn:Hrun.
  { exists None. split; [done|by apply quiet_nil]. }
  rewrite <- Hrun.
  set (exact := length (take_while (fun s => exact_match (s_signature s) (s_signature latest))
                 (sterile_run w))).
  set (fuzzy := length (take_while (fun s => fuzzy_match (s_signature s) (s_signature latest))
                 (sterile_run w))).
  assert (H0 : sterile_run w !! 0 = Some latest) by (by rewrite Hrun).
  case_decide as He.
  { eexists. split; [done|]. simpl. split; [done|].
    destruct (proj1 (take_while_count _ _ exact) (Nat.le_refl _)) as [Hl Hall].
    apply trailing_run; [done|]. intros k s Hk Hs. specialize (Hall k s Hk Hs). simpl in Hall.
    by apply bool_decide_eq_true in Hall. }
  case_decide as Hf.
  { eexists. split; [done|]. simpl. split; [done|].
    destruct (proj1 (take_while_count _ _ fuzzy) (Nat.le_refl _)) as [Hl Hall].
    apply trailing_run; [done|]. intros k s Hk Hs. specialize (Hall k s Hk Hs). simpl in Hall.
    by apply fuzzy_match_spec in Hall. }
  case_decide as Hp.
  { rewrite Hrun in *. destruct run as [|second run]; [simpl in Hp; lia|].
    simpl in Hp. destruct (decide (s_signature latest = s_signature second)) as [|Hne]; [lia|].
    eexists. split; [reflexivity|]. simpl. rewrite (decide_False (P := s_signature latest = _)) by done.
    split_and!; [done|done|].
    match goal with |- trailing _ ?m _ => destruct (proj1 (alternation_count (s_signature latest)
      (s_signature second) 0 (latest :: second :: run) m) (Nat.le_refl _)) as [Hl Hall] end.
    apply trailing_run; [by rewrite Hrun|]. rewrite Hrun. intros k s Hk Hs. by apply (Hall k s). }
  case_decide as Hn.
  { eexists. split; [done|]. simpl. split; [done|]. by apply trailing_run. }
  exists None. split; [done|]. split_and!.
  - intros sig n Hn0 Ht. apply trailing_bound in Ht as [Hl HP].
    assert (sig = s_signature latest) as ->; [|].
    { symmetry. by apply (HP 0). }
    assert (n <= exact); [|lia]. apply take_while_count. split; [done|].
    intros k x Hk Hx. apply bool_decide_eq_true. by apply (HP k).
  - intros sig n Hn0 Ht. apply trailing_bound in Ht as [Hl HP].
    destruct (HP 0 latest Hn0 H0) as [Et Ea].
    assert (n <= fuzzy); [|lia]. apply take_while_count. split; [done|].
    intros k x Hk Hx. apply fuzzy_match_spec. rewrite Et, Ea. by apply (HP k).
  - intros a b n Hn0 Hab Ht. apply trailing_bound in Ht as [Hl HP]. rewrite Hrun in *.
    destruct run as [|second run]; [simpl in Hl; lia|].
    assert (a = s_signature latest) as -> by (symmetry; by apply (HP 0 latest); [lia|]).
    assert (b = s_signature second) as -> by (symmetry; by apply (HP 1 second); [lia|]).
    assert (n <= trailing_alternations (latest :: second :: run)); [|lia].
    unfold trailing_alternations. rewrite decide_False by done.
    apply alternation_count. split; [done|]. intros k x Hk Hx. by apply (HP k).
  - intros n Hn0 Ht. apply trailing_bound in Ht as [Hl _]. lia.
Qed.

(** * [observe] *)

(** The sample an observation records: whether it is useful, and the grace
    left after it. *)
Definition sample_useful (t : ClassThresholds) (waiting : bool) (o : Observation) (w : TaskWatch)
    : bool * nat :=
  if waiting then
    if decide (no_progress t <= w_waiting_grace w) then (false, w_waiting_grace w)
    else (true, S (w_waiting_grace w))
  else (carries_progress o, 0).

Lemma trim_length n w : length (trim n w) <= n.
Proof. unfold trim. rewrite length_drop. lia. Qed.

Lemma push_reaction_length r l : length l <= REACTION_HISTORY -> length (push_reaction r l) <= REACTION_HISTORY.
Proof.
  intros Hl. unfold push_reaction. case_decide as H; [|lia].
  destruct l as [|x l]; simpl in *; [unfold REACTION_HISTORY in *; lia|].
  rewrite length_app in *. simpl in *. lia.
Qed.

Definition watch_of (sv : Supervisor) (task : TaskId) : TaskWatch :=
  default empty_watch (drop_opt (evicted_task sv task) (watches sv) !! task).

(** [observe] on a well-formed supervisor, with the watch set already bounded. *)
Lemma observe_spec sched o sv :
  sv_ok sv -> policy_ok (policy sv) ->
  let t := for_class (policy sv) (o_class o) in
  let waiting := task_waiting sched (o_task o) in
  let w := watch_of sv (o_task o) in
  let win := trim (window t) (default [] (w_windows w !! o_class o) ++
               [mkSample (o_signature o) (fst (sample_useful t waiting o w))]) in
  exists r sv' w', observe sched o sv = Ret (r, sv') /\ sv_ok sv' /\ policy sv' = policy sv /\
    watches sv' = <[o_task o := w']> (drop_opt (evicted_task sv (o_task o)) (watches sv)) /\
    order sv' = filter (fun t => t <> o_task o) (drop_head (evicted_task sv (o_task o)) (order sv))
                  ++ [o_task o] /\
    w_windows w' = <[o_class o := win]> (w_windows w) /\
    w_waiting_grace w' = snd (sample_useful t waiting o w) /\
    match w_cooldown w with
    | S c => r = None /\ w_cooldown w' = c /\ w_reactions w' = w_reactions w
    | O => exists c, detect win t = Ret c /\
        r = (fun cause => mkReaction (o_task o) (o_class o) cause t) <$> c /\
        w_cooldown w' = (match c with Some _ => cooldown t | None => 0 end)
    end.
Proof.
  intros Hsv Hp t waiting w win.
  destruct (admitted_watches_spec sv (o_task o) Hsv) as (ord & Ea & Hord & Hnd & Hsz & Hmem & _).
  set (ws := drop_opt (evicted_task sv (o_task o)) (watches sv)) in *.
  assert (Hwok : watch_ok (policy sv) w).
  { unfold w, watch_of. fold ws. destruct (ws !! o_task o) as [w0|] eqn:E; simpl.
    - apply (so_watch sv Hsv (o_task o)). unfold ws, drop_opt in E.
      destruct (evicted_task sv (o_task o)) as [e|]; [|done]. by apply lookup_delete_Some in E as [_ E].
    - split; simpl; [by intros c x H%lookup_empty_Some|unfold REACTION_HISTORY; lia]. }
  assert (Hput : forall cd rs, length rs <= REACTION_HISTORY ->
    sv_ok (mkSupervisor (policy sv) (<[o_task o :=
      mkWatch (<[o_class o := win]> (w_windows w)) cd (snd (sample_useful t waiting o w)) rs]> ws) ord)).
  { intros cd rs Hrs. split; simpl; [done| | |].
    - intros t'. rewrite Hmem. destruct (decide (o_task o = t')) as [->|Hne].
      + rewrite lookup_insert_eq. split; [eauto|by left].
      + rewrite lookup_insert_ne by done. naive_solver.
    - rewrite <- insert_delete_eq. rewrite map_size_insert_None by apply lookup_delete_eq. lia.
    - intros t' w' Hw'. apply lookup_insert_Some in Hw' as [[<- <-]|[Hne Hw']].
      + split; simpl; [|done]. intros c x Hx.
        apply lookup_insert_Some in Hx as [[<- <-]|[_ Hx]]; [apply trim_length|].
        by apply (wo_window _ _ Hwok).
      + apply (so_watch sv Hsv t'). unfold ws, drop_opt in Hw'.
        destruct (evicted_task sv (o_task o)); [|done]. by apply lookup_delete_Some in Hw' as [_ ?]. }
  assert (Hrec : record_sample t waiting o w =
            (mkWatch (<[o_class o := win]> (w_windows w)) (w_cooldown w)
               (snd (sample_useful t waiting o w)) (w_reactions w), win)).
  { unfold record_sample, win, sample_useful. destruct waiting; [|done]. by case_decide. }
  unfold observe. fold t waiting.
  change (if bool_decide _ then _ else _) with (admitted_watches sv (o_task o)).
  rewrite Ea. change (default empty_watch (ws !! o_task o)) with w. rewrite Hrec. cbn [w_cooldown w_windows w_waiting_grace w_reactions].
  destruct (w_cooldown w) as [|cd] eqn:Hcd.
  - destruct (detect_spec win t) as (c & Ec & _); [apply Hp|]. rewrite Ec. simpl.
    destruct c as [cause|]; simpl; eexists _, _, _; (split; [reflexivity|]).
    + split; [apply Hput, push_reaction_length, Hwok|]. split_and!; try done. by exists (Some cause).
    + split; [apply Hput, Hwok|]. split_and!; try done. by exists None.
  - eexists _, _, _. split; [reflexivity|]. split; [apply Hput, Hwok|]. by split_and!.
Qed.

(** * Sequences of observations *)

(** The supervisor's whole life: each observation comes with the scheduler
    state the caller passes to it. *)
Fixpoint observe_all (os : list (Scheduler.Scheduler * Observation)) (sv : Supervisor)
    : outcome (list (option Reaction) * Supervisor) :=
  match os with
  | [] => Ret ([], sv)
  | (sched, o) :: os =>
      let* (r, sv) := observe sched o sv in
      let* (rs, sv) := observe_all os sv in
      Ret (r :: rs, sv)
  end.

Lemma observe_all_ok os sv :
  sv_ok sv -> policy_ok (policy sv) ->
  exists rs sv', observe_all os sv = Ret (rs, sv') /\ sv_ok sv' /\ policy sv' = policy sv /\
    length rs = length os.
Proof.
  revert sv. induction os as [|[sched o] os IH]; intros sv Hsv Hp; simpl; [by eexists [], sv|].
  destruct (observe_spec sched o sv Hsv Hp) as (r & sv1 & w' & E & Hsv1 & Hp1 & _).
  rewrite E. simpl. destruct (IH sv1) as (rs & sv2 & E2 & Hsv2 & Hp2 & Hl); [done|by rewrite Hp1|].
  rewrite E2. simpl. eexists _, _. split; [done|]. split_and!; [done|congruence|simpl; lia].
Qed.

Lemma supervisor_new_ok p sv :
  supervisor_new p = Ok sv -> policy_ok p /\ sv = mkSupervisor p ∅ [].
Proof.
  unfold supervisor_new. intros H. inv_ret. injection H as <-. split; [|done].
  destruct a. apply validate_all_ok in E. rewrite !Forall_cons in E.
  destruct E as (? & ? & ? & _). by intros [].
Qed.

Lemma sv_ok_new p : sv_ok (mkSupervisor p ∅ []).
Proof.
  split; simpl; [constructor| | |].
  - intros t. rewrite lookup_empty. split; [by intros ?%elem_of_nil|by intros [? ?]].
  - rewrite map_size_empty. lia.
  - intros t w H. by rewrite lookup_empty in H.
Qed.

(** The watch an observation of another task leaves to [task]. *)
Lemma observe_other sched o sv r sv' task :
  sv_ok sv -> policy_ok (policy sv) -> observe sched o sv = Ret (r, sv') -> o_task o <> task ->
  evicted_task sv (o_task o) <> Some task -> watches sv' !! task = watches sv !! task.
Proof.
  intros Hsv Hp E Hne Hev.
  destruct (observe_spec sched o sv Hsv Hp) as (r0 & sv0 & w' & E0 & _ & _ & Hw & _).
  det. rewrite Hw, lookup_insert_ne by done. unfold drop_opt.
  destruct (evicted_task sv (o_task o)) as [e|]; [|done]. rewrite lookup_delete_ne; [done|congruence].
Qed.

(** ** Retention *)

(** [task] is watched and only tasks of [others] were observed after it. *)
Definition recent (task : TaskId) (others : list TaskId) (sv : Supervisor) : Prop :=
  exists pre post, order sv = pre ++ task :: post /\ post ⊆ others.

Lemma filter_split (P : TaskId -> Prop) `{!forall x, Decision (P x)} pre task post :
  P task -> filter P (pre ++ task :: post) = filter P pre ++ task :: filter P post.
Proof. intros Ht. by rewrite filter_app, filter_cons_True. Qed.

Lemma sv_size_order sv : sv_ok sv -> size (watches sv) = length (order sv).
Proof.
  intros [Hnd Hm _ _]. rewrite <- size_dom, <- (size_list_to_set (C := gset TaskId)) by done.
  f_equal. apply set_eq. intros t. rewrite elem_of_dom, elem_of_list_to_set. by rewrite Hm.
Qed.

(** While fewer than [WATCH_LIMIT] other tasks are observed, the task keeps its
    watch. *)
Lemma recent_not_evicted task others sv t :
  sv_ok sv -> recent task others sv -> t ∈ others -> length others < WATCH_LIMIT ->
  evicted_task sv t <> Some task.
Proof.
  intros Hsv (pre & post & Ho & Hpost) Ht Hl. unfold evicted_task. case_decide as Hd; [|done].
  destruct Hd as [Hno Hfull]. rewrite (sv_size_order sv Hsv) in Hfull.
  pose proof (so_nodup sv Hsv) as Hnd. rewrite Ho in *.
  destruct pre as [|x pre]; simpl.
  - intros _. assert (Hx : t ∉ post).
    { intros Hin. assert (is_Some (watches sv !! t)) as [? ?]; [|congruence].
      apply (so_mirror sv Hsv). rewrite Ho. by apply elem_of_app; right; right. }
    apply NoDup_cons in Hnd as [_ Hnd].
    assert (length (t :: post) <= length others); [|simpl in *; lia].
    apply submseteq_length, NoDup_submseteq; [by apply NoDup_cons|].
    intros y [->|Hy]%elem_of_cons; [done|by apply Hpost].
  - intros [= ->]. apply NoDup_cons in Hnd as [Hx _]. apply Hx, elem_of_app. right. by left.
Qed.

Lemma recent_observe_other sched o sv r sv' task others :
  sv_ok sv -> policy_ok (policy sv) -> observe sched o sv = Ret (r, sv') ->
  recent task others sv -> o_task o <> task -> o_task o ∈ others -> length others < WATCH_LIMIT ->
  recent task others sv' /\ watches sv' !! task = watches sv !! task.
Proof.
  intros Hsv Hp E Hr Hne Hin Hl.
  pose proof (recent_not_evicted _ _ _ _ Hsv Hr Hin Hl) as Hev.
  split; [|by eapply observe_other].
  destruct (observe_spec sched o sv Hsv Hp) as (r0 & sv0 & w' & E0 & _ & _ & _ & Ho & _).
  det. destruct Hr as (pre & post & Ho' & Hpost). rewrite Ho'  in Ho.
  assert (Hf : forall l, l ⊆ others -> filter (fun t => t <> o_task o) l ++ [o_task o] ⊆ others).
  { intros l Hl' y [Hy|Hy%list_elem_of_singleton]%elem_of_app; [|by subst].
    apply list_elem_of_filter in Hy as [_ Hy]. by apply Hl'. }
  destruct (evicted_task sv (o_task o)) as [e|] eqn:Ee; simpl in Ho.
  - destruct pre as [|x pre]; simpl in Ho.
    + exfalso. apply Hev. unfold evicted_task in Ee |- *. case_decide; [|done].
      rewrite <- Ee. by rewrite Ho'.
    + rewrite filter_split in Ho by done. rewrite <- app_assoc in Ho. simpl in Ho.
      eexists _, _. split; [exact Ho|by apply Hf].
  - rewrite filter_split in Ho by done. rewrite <- app_assoc in Ho. simpl in Ho.
    eexists _, _. split; [exact Ho|by apply Hf].
Qed.

Lemma recent_observe_self sched o sv r sv' others :
  sv_ok sv -> policy_ok (policy sv) -> observe sched o sv = Ret (r, sv') ->
  recent (o_task o) others sv' /\ is_Some (watches sv' !! o_task o).
Proof.
  intros Hsv Hp E.
  destruct (observe_spec sched o sv Hsv Hp) as (r0 & sv0 & w' & E0 & _ & _ & Hw & Ho & _).
  det. split; [|rewrite Hw, lookup_insert_eq; eauto].
  eexists _, []. split; [exact Ho|]. by intros x Hx%elem_of_nil.
Qed.

(** A watched task's next observation starts from its own watch. *)
Lemma watch_of_watched sv task w : watches sv !! task = Some w -> watch_of sv task = w.
Proof.
  intros H. unfold watch_of, evicted_task. rewrite decide_False by (intros [? _]; congruence).
  simpl. by rewrite H.
Qed.

(** The observations of [task] in a sequence. *)
Definition own (task : TaskId) (os : list (Scheduler.Scheduler * Observation)) : nat :=
  length (filter (fun so => o_task so.2 = task) os).

Lemma cooling_quiet os sv task others w :
  sv_ok sv -> policy_ok (policy sv) -> recent task others sv -> watches sv !! task = Some w ->
  own task os <= w_cooldown w ->
  (forall so, so ∈ os -> o_task so.2 = task \/ o_task so.2 ∈ others) ->
  length others < WATCH_LIMIT ->
  exists rs sv', observe_all os sv = Ret (rs, sv') /\
    forall i so, os !! i = Some so -> o_task so.2 = task -> rs !! i = Some None.
Proof.
  revert sv w. induction os as [|[sched o] os IH]; intros sv w Hsv Hp Hr Hw Hc Hos Hl.
  { eexists [], sv. by split. }
  destruct (observe_spec sched o sv Hsv Hp) as (r & sv1 & w1 & E & Hsv1 & Hp1 & Hw1 & _ & Hrest).
  simpl. rewrite E. simpl. unfold own in Hc.
  destruct (decide (o_task o = task)) as [<-|Hne].
  - rewrite filter_cons_True in Hc by done. simpl in Hc.
    rewrite (watch_of_watched _ _ _ Hw) in Hrest. cbv zeta in Hrest.
    destruct Hrest as (_ & _ & Hrest). destruct (w_cooldown w) as [|c]; [lia|].
    destruct Hrest as (-> & Hc1 & _).
    destruct (recent_observe_self sched o sv None sv1 others Hsv Hp E) as [Hr1 _].
    destruct (IH sv1 w1) as (rs & sv2 & E2 & Hq); try done.
    + by rewrite Hp1.
    + by rewrite Hw1, lookup_insert_eq.
    + unfold own. lia.
    + intros so Hso. apply Hos. by right.
    + rewrite E2. simpl. eexists _, _. split; [done|]. intros [|i] so Hi Ht; [done|]. by eapply Hq.
  - rewrite filter_cons_False in Hc by done.
    assert (Hin : o_task o ∈ others) by (destruct (Hos (sched, o)); [by left|done|done]).
    destruct (recent_observe_other sched o sv r sv1 task others) as [Hr1 Hw'];
      [done|done|done|done|done|done|done|].
    destruct (IH sv1 w) as (rs & sv2 & E2 & Hq); try done.
    + by rewrite Hp1.
    + by rewrite Hw'.
    + intros so Hso. apply Hos. by right.
    + rewrite E2. simpl. eexists _, _. split; [done|].
      intros [|i] so Hi Ht; [by simplify_eq/=|]. by eapply Hq.
Qed.

(** ** Stalls *)

Lemma take_while_take {A} (f : A -> bool) n l :
  length (take_while f (take n l)) = n `min` length (take_while f l).
Proof.
  revert l. induction n as [|n IH]; intros [|x l]; simpl; [done|lia|lia|].
  destruct (f x); simpl; [by rewrite IH|lia].
Qed.

Lemma trim_run n w : length (sterile_run (trim n w)) = n `min` length (sterile_run w).
Proof.
  unfold sterile_run, trim. rewrite rev_alt, !rev_append_rev, app_nil_r.
  replace (rev (drop (length w - n) w)) with (take n (rev w)); [apply take_while_take|].
  destruct (decide (length w <= n)).
  - rewrite take_ge by (rewrite length_rev; lia). by replace (length w - n) with 0 by lia.
  - rewrite <- (take_drop (length w - n) w) at 1. rewrite rev_app_distr, take_app_length'; [done|].
    rewrite length_rev, length_drop. lia.
Qed.

(** A failed attempt of one task and class, neither waiting nor progressing. *)
Definition sterile (task : TaskId) (class : OperationClass)
    (so : Scheduler.Scheduler * Observation) : Prop :=
  o_task so.2 = task /\ o_class so.2 = class /\ carries_progress so.2 = false /\
  task_waiting so.1 task = false.

(** The sterile run a watch holds for a class. *)
Definition run_of (w : TaskWatch) (class : OperationClass) : nat :=
  length (sterile_run (default [] (w_windows w !! class))).

Lemma sterile_step task class so sv :
  sv_ok sv -> policy_ok (policy sv) -> sterile task class so ->
  let t := for_class (policy sv) class in
  let w := watch_of sv task in
  exists r sv' w', observe so.1 so.2 sv = Ret (r, sv') /\ sv_ok sv' /\ policy sv' = policy sv /\
    watch_of sv' task = w' /\ run_of w' class = window t `min` S (run_of w class) /\
    (r = None -> w_cooldown w' = pred (w_cooldown w)) /\
    (w_cooldown w = 0 -> r = None -> run_of w' class < no_progress t).
Proof.
  intros Hsv Hp (Ht & Hc & Hprog & Hwait) t w.
  destruct (observe_spec so.1 so.2 sv Hsv Hp) as (r & sv' & w' & E & Hsv' & Hp' & Hw & _ & Hrest).
  rewrite Ht, Hc in Hrest. unfold sample_useful in Hrest. rewrite Hwait, Hprog in Hrest.
  fold t w in Hrest. cbv zeta in Hrest. cbn [fst snd] in Hrest. destruct Hrest as (Hwin & _ & Hr).
  exists r, sv', w'. rewrite Ht in Hw.
  assert (Hrun : run_of w' class = window t `min` S (run_of w class)).
  { unfold run_of. rewrite Hwin, lookup_insert_eq. cbn [default from_option].
    unfold id. rewrite trim_run, sterile_run_snoc. simpl. done. }
  split_and!; [done|done|done| |done| |].
  - apply watch_of_watched. by rewrite Hw, lookup_insert_eq.
  - intros ->. destruct (w_cooldown w); [|naive_solver].
    destruct Hr as (c & _ & Hr & Hc'). by destruct c.
  - intros Hcd ->. rewrite Hcd in Hr. destruct Hr as (c & Hdet & Hr & _).
    destruct c as [c|]; [done|]. clear Hr.
    destruct (detect_spec (trim (window t) (default [] (w_windows w !! class) ++
      [mkSample (o_signature so.2) false])) t) as (c & Hdet' & Hq); [apply Hp|].
    rewrite Hdet in Hdet'. injection Hdet' as <-. destruct Hq as (_ & _ & _ & Hq).
    assert (Hpos : 0 < run_of w' class).
    { destruct (Hp class) as (_ & _ & Hpp & _ & _ & H2 & _). fold t in Hpp, H2. lia. }
    apply Hq; [done|]. unfold run_of. rewrite Hwin, lookup_insert_eq. cbn [default from_option].
    by apply trailing_run.
Qed.

Lemma sterile_stalls task class os sv :
  sv_ok sv -> policy_ok (policy sv) -> Forall (sterile task class) os ->
  w_cooldown (watch_of sv task) < length os ->
  no_progress (for_class (policy sv) class) <= run_of (watch_of sv task) class + length os ->
  exists rs sv', observe_all os sv = Ret (rs, sv') /\ exists r, Some r ∈ rs.
Proof.
  revert sv. induction os as [|so os IH]; intros sv Hsv Hp Hos Hc Hn; simpl in *; [lia|].
  apply Forall_cons in Hos as [Hso Hos].
  destruct (sterile_step task class so sv Hsv Hp Hso)
    as (r & sv1 & w1 & E & Hsv1 & Hp1 & Hw1 & Hrun & Hcd & Hfire).
  destruct so as [sched o]. simpl in E. rewrite E. simpl.
  destruct r as [r|].
  - destruct (observe_all_ok os sv1) as (rs & sv2 & E2 & _); [done|by rewrite Hp1|].
    rewrite E2. simpl. eexists _, _. split; [done|]. exists r. by left.
  - specialize (Hcd eq_refl). destruct (Hp class) as (_ & _ & _ & Hnp & _).
    destruct (decide (length os = 0)) as [Hz|Hz].
    + exfalso. assert (Hf : run_of w1 class < no_progress (for_class (policy sv) class)).
      { apply Hfire; [|done]. lia. }
      lia.
    + destruct (IH sv1) as (rs & sv2 & E2 & r & Hr); try done.
      * by rewrite Hp1.
      * rewrite Hw1. lia.
      * rewrite Hp1, Hw1. lia.
      * rewrite E2. simpl. eexists _, _. split; [done|]. exists r. by right.
Qed.

Lemma useful_detect n l s t : s_useful s = true -> detect (trim n (l ++ [s])) t = Ret None.
Proof.
  intros Hs. unfold detect.
  replace (sterile_run (trim n (l ++ [s]))) with (@nil Sample); [done|]. symmetry.
  apply length_zero_iff_nil. rewrite trim_run, sterile_run_snoc, Hs. simpl. lia.
Qed.

(** * Properties *)

(** [Supervisor::new] accepts a policy exactly when every class's
    thresholds fit their window, the exact cap does not exceed the fuzzy one, a
    ping-pong needs two samples and a cooldown is not zero; the built-in policy
    is accepted. *)
Theorem supervisor_policy_check :
  (forall p, is_ok (supervisor_new p) = true <->
    forall c, let t := for_class p c in
      exact_repeat t <= window t /\ fuzzy_repeat t <= window t /\ ping_pong t <= window t /\
      no_progress t <= window t /\ exact_repeat t <= fuzzy_repeat t /\ 2 <= ping_pong t /\
      0 < cooldown t) /\
  is_ok (supervisor_new default_policy) = true.
Proof.
  split; [|by vm_compute]. intros p. split.
  - intros H. destruct (supervisor_new p) as [sv|] eqn:E; [|done].
    by destruct (supervisor_new_ok p sv E) as [Hp _].
  - intros Hp. unfold supervisor_new.
    rewrite (proj2 (validate_all_ok _)); [done|].
    repeat (apply Forall_cons; split); [apply (Hp OpRead)|apply (Hp OpTest)|apply (Hp OpRetrieve)|].
    constructor.
Qed.

(** From construction on, no sequence of observations makes the
    supervisor panic (the indexing in [detect] stays in range), one answer per
    observation; the watch set never exceeds [WATCH_LIMIT], the recency order
    lists exactly the watched tasks without repetition, every window stays
    within its class's size and the reaction history within
    [REACTION_HISTORY]. *)
Theorem supervisor_total_and_bounded p sv os :
  supervisor_new p = Ok sv ->
  exists rs sv', observe_all os sv = Ret (rs, sv') /\ length rs = length os /\
    size (watches sv') <= WATCH_LIMIT /\ NoDup (order sv') /\
    (forall t, t ∈ order sv' <-> is_Some (watches sv' !! t)) /\
    (forall t w, watches sv' !! t = Some w ->
      length (w_reactions w) <= REACTION_HISTORY /\
      forall c win, w_windows w !! c = Some win -> length win <= window (for_class p c)).
Proof.
  intros H. apply supervisor_new_ok in H as [Hp ->].
  destruct (observe_all_ok os (mkSupervisor p ∅ [])) as (rs & sv' & E & Hsv & Hpol & Hl);
    [apply sv_ok_new|done|].
  simpl in Hpol. exists rs, sv'. split_and!; [done|done|apply Hsv|apply Hsv|apply Hsv|].
  intros t w Hw. pose proof (so_watch sv' Hsv t w Hw) as [H1 H2].
  rewrite Hpol in H1. by split.
Qed.

(** A detector's answer is sound and complete for the window: a cause it
    returns describes the trailing samples (their number at or above the cap,
    all sterile, the signatures as the cause says), and when it returns none no
    run of sterile samples reaches any cap.  It never panics when a ping-pong
    needs two samples. *)
Theorem detect_sound_complete w t :
  2 <= ping_pong t ->
  exists c, detect w t = Ret c /\
  match c with
  | Some (ExactRepeat sig n) => exact_repeat t <= n /\ trailing (same_signature sig) n w
  | Some (FuzzyRepeat sig n) => fuzzy_repeat t <= n /\ trailing (same_tool sig) n w
  | Some (PingPong a b n) => ping_pong t <= n /\ a <> b /\ trailing (alternates a b) n w
  | Some (NoProgress n) => no_progress t <= n /\ trailing anything n w
  | None => quiet w t
  end.
Proof. intros H. destruct (detect_spec w t H) as (c & E & Hc). exists c. by destruct c as [[]|]. Qed.

(** One reaction per cooldown: after an observation of a task fires, the
    next [cooldown] observations of that task answer nothing, whatever other
    tasks are observed in between, as long as they are fewer than
    [WATCH_LIMIT]. *)
Theorem one_reaction_per_cooldown p os0 sv0 rs0 sv1 sched o r sv2 os others :
  supervisor_new p = Ok sv0 ->
  observe_all os0 sv0 = Ret (rs0, sv1) ->
  observe sched o sv1 = Ret (Some r, sv2) ->
  own (o_task o) os <= cooldown (for_class p (o_class o)) ->
  (forall so, so ∈ os -> o_task so.2 = o_task o \/ o_task so.2 ∈ others) ->
  length others < WATCH_LIMIT ->
  exists rs sv3, observe_all os sv2 = Ret (rs, sv3) /\
    forall i so, os !! i = Some so -> o_task so.2 = o_task o -> rs !! i = Some None.
Proof.
  intros H E0 E1 Hown Hos Hl. apply supervisor_new_ok in H as [Hp ->].
  destruct (observe_all_ok os0 (mkSupervisor p ∅ [])) as (? & ? & E & Hsv & Hpol & _);
    [apply sv_ok_new|done|]. rewrite E0 in E. injection E as <- <-. simpl in Hpol.
  destruct (observe_spec sched o sv1 Hsv) as (r' & sv' & w' & E' & Hsv' & Hp' & Hw & _ & _ & _ & Hr);
    [by rewrite Hpol|]. rewrite E1 in E'. injection E' as <- <-.
  destruct (recent_observe_self sched o sv1 (Some r) sv2 others) as [Hrec _]; [done|by rewrite Hpol|done|].
  apply (cooling_quiet os sv2 (o_task o) others w'); [done|by rewrite Hp', Hpol|done| | |done|done].
  - by rewrite Hw, lookup_insert_eq.
  - destruct (w_cooldown (watch_of sv1 (o_task o))); [|naive_solver].
    destruct Hr as (c & _ & Hr & ->). destruct c; [|done]. by rewrite Hpol.
Qed.

(** Useful work never fires: an observation that carries a heartbeat,
    evidence growth or new inputs, or one made while the task waits within its
    grace, gets no reaction; and a wait gets at most [no_progress] such
    observations in a row. *)
Theorem useful_work_never_fires sched o sv :
  sv_ok sv -> policy_ok (policy sv) ->
  (if task_waiting sched (o_task o)
   then w_waiting_grace (watch_of sv (o_task o)) < no_progress (for_class (policy sv) (o_class o))
   else carries_progress o = true) ->
  exists sv', observe sched o sv = Ret (None, sv') /\
    w_waiting_grace (watch_of sv' (o_task o)) =
      if task_waiting sched (o_task o) then S (w_waiting_grace (watch_of sv (o_task o))) else 0.
Proof.
  intros Hsv Hp Huse.
  destruct (observe_spec sched o sv Hsv Hp) as (r & sv' & w' & E & _ & _ & Hw & _ & _ & Hg & Hr).
  exists sv'. rewrite (watch_of_watched sv' _ w'); [|by rewrite Hw, lookup_insert_eq].
  unfold sample_useful in *. destruct (task_waiting sched (o_task o)).
  - rewrite decide_False in Hg, Hr by lia. simpl in Hg, Hr. split; [|done].
    destruct (w_cooldown _); [|by destruct Hr as [-> _]].
    destruct Hr as (c & Ec & -> & _). rewrite useful_detect in Ec by done. by simplify_eq/=.
  - rewrite Huse in Hg, Hr. simpl in Hg, Hr. split; [|done].
    destruct (w_cooldown _); [|by destruct Hr as [-> _]].
    destruct Hr as (c & Ec & -> & _). rewrite useful_detect in Ec by done. by simplify_eq/=.
Qed.

(** A stall is always noticed: from any state reachable from
    construction, a run of attempts of one task and class that neither progress
    nor wait, longer than the cooldown in force and at least [no_progress]
    long, produces a reaction. *)
Theorem stall_is_noticed p os0 sv0 rs0 sv1 task class os :
  supervisor_new p = Ok sv0 ->
  observe_all os0 sv0 = Ret (rs0, sv1) ->
  Forall (sterile task class) os ->
  w_cooldown (watch_of sv1 task) < length os ->
  no_progress (for_class p class) <= length os ->
  exists rs sv2 r, observe_all os sv1 = Ret (rs, sv2) /\ Some r ∈ rs.
Proof.
  intros H E0 Hos Hc Hn. apply supervisor_new_ok in H as [Hp ->].
  destruct (observe_all_ok os0 (mkSupervisor p ∅ [])) as (? & ? & E & Hsv & Hpol & _);
    [apply sv_ok_new|done|]. rewrite E0 in E. injection E as <- <-. simpl in Hpol.
  destruct (sterile_stalls task class os sv1) as (rs & sv2 & E2 & r & Hr); try done.
  - by rewrite Hpol.
  - rewrite Hpol. lia.
  - by exists rs, sv2, r.
Qed.

(** * Witnesses *)

Definition loop_failure : Observation := failure "task-loop" OpRead "read_file" "/a" "denied".

Lemma supervisor_total_and_bounded_witness :
  exists rs sv', observe_all [(Scheduler.new 2 4, loop_failure)] (mkSupervisor default_policy ∅ [])
    = Ret (rs, sv') /\ length rs = 1.
Proof.
  destruct (supervisor_total_and_bounded default_policy (mkSupervisor default_policy ∅ [])
    [(Scheduler.new 2 4, loop_failure)] eq_refl) as (rs & sv' & E & Hl & _).
  exists rs, sv'. by split.
Defined.

Lemma detect_sound_complete_witness :
  exists c, detect (replicate 3 (mkSample (o_signature loop_failure) false)) (p_read default_policy)
    = Ret c.
Proof.
  destruct (detect_sound_complete (replicate 3 (mkSample (o_signature loop_failure) false))
    (p_read default_policy)) as (c & E & _); [simpl; lia|]. by exists c.
Defined.

(** Two failures, then the third one fires. *)
Definition two_failures : list (Scheduler.Scheduler * Observation) :=
  replicate 2 (Scheduler.new 2 4, loop_failure).

Definition after (os : list (Scheduler.Scheduler * Observation)) : Supervisor :=
  match observe_all os (mkSupervisor default_policy ∅ []) with
  | Ret (_, sv) => sv
  | _ => mkSupervisor default_policy ∅ []
  end.

Lemma one_reaction_per_cooldown_witness :
  exists rs sv3,
    observe_all [(Scheduler.new 2 4, loop_failure)] (after (replicate 3 (Scheduler.new 2 4, loop_failure)))
      = Ret (rs, sv3) /\ rs !! 0 = Some None.
Proof.
  assert (E : observe (Scheduler.new 2 4) loop_failure (after two_failures) =
    Ret (Some (mkReaction "task-loop" OpRead (ExactRepeat (o_signature loop_failure) 3)
                 (p_read default_policy)),
         after (replicate 3 (Scheduler.new 2 4, loop_failure)))) by (vm_compute; reflexivity).
  destruct (one_reaction_per_cooldown default_policy two_failures (mkSupervisor default_policy ∅ [])
    [None; None] (after two_failures) (Scheduler.new 2 4) loop_failure _ _
    [(Scheduler.new 2 4, loop_failure)] [] eq_refl ltac:(vm_compute; reflexivity) E)
    as (rs & sv3 & E3 & Hq).
  - vm_compute. lia.
  - intros so Hin. apply list_elem_of_singleton in Hin. rewrite Hin. left. reflexivity.
  - simpl. unfold WATCH_LIMIT. lia.
  - exists rs, sv3. split; [done|]. by apply (Hq 0 (Scheduler.new 2 4, loop_failure)).
Defined.

Lemma useful_work_never_fires_witness :
  exists sv', observe (Scheduler.new 2 4) (with_heartbeat loop_failure) (mkSupervisor default_policy ∅ [])
    = Ret (None, sv').
Proof.
  destruct (useful_work_never_fires (Scheduler.new 2 4) (with_heartbeat loop_failure)
    (mkSupervisor default_policy ∅ [])) as (sv' & E & _).
  - apply sv_ok_new.
  - by destruct (supervisor_new_ok default_policy _ eq_refl) as [H _].
  - by vm_compute.
  - by exists sv'.
Defined.

Lemma stall_is_noticed_witness :
  exists rs sv2 r, observe_all (replicate 8 (Scheduler.new 2 4, loop_failure))
    (mkSupervisor default_policy ∅ []) = Ret (rs, sv2) /\ Some r ∈ rs.
Proof.
  apply (stall_is_noticed default_policy [] (mkSupervisor default_policy ∅ []) []
    (mkSupervisor default_policy ∅ []) "task-loop" OpRead); [done|done| | |].
  - apply Forall_replicate. split_and!; by vm_compute.
  - vm_compute. lia.
  - simpl. lia.
Defined.
