(* ===== verification/Utf8.v ===== *)
(** UTF-8 well-formedness as [std::str::from_utf8] checks it (the Unicode
    Standard, table 3-7), and the encoding of scalar values it accepts. *)

From S2P Require Import Prelude.

(** A byte in an inclusive range. *)
Definition within (lo hi b : Z) : bool := (lo <=? b)%Z && (b <=? hi)%Z.
Definition continuation (b : Z) : bool := within 128 191 b.

(** First and second byte of a two-, three- and four-byte sequence. *)
Definition lead2 (b0 b1 : Z) : bool := within 194 223 b0 && continuation b1.
Definition lead3 (b0 b1 : Z) : bool :=
  (b0 =? 224)%Z && within 160 191 b1 || within 225 236 b0 && continuation b1 ||
  (b0 =? 237)%Z && within 128 159 b1 || within 238 239 b0 && continuation b1.
Definition lead4 (b0 b1 : Z) : bool :=
  (b0 =? 240)%Z && within 144 191 b1 || within 241 243 b0 && continuation b1 ||
  (b0 =? 244)%Z && within 128 143 b1.

(** [std::str::from_utf8(bytes).is_ok()] *)
Fixpoint utf8_valid (bs : bytes) : bool :=
  match bs with
  | [] => true
  | b0 :: r0 =>
      if within 0 127 b0 then utf8_valid r0 else
      match r0 with
      | [] => false
      | b1 :: r1 =>
          if lead2 b0 b1 then utf8_valid r1 else
          match r1 with
          | [] => false
          | b2 :: r2 =>
              if lead3 b0 b1 && continuation b2 then utf8_valid r2 else
              match r2 with
              | [] => false
              | b3 :: r3 =>
                  lead4 b0 b1 && continuation b2 && continuation b3 && utf8_valid r3
              end
          end
      end
  end.

(** [std::str::from_utf8] *)
Definition from_utf8 (bs : bytes) : option bytes := if utf8_valid bs then Some bs else None.

Definition ascii_only (bs : bytes) : Prop := Forall (fun b => 0 <= b <= 127)%Z bs.

Lemma within_spec lo hi b : within lo hi b = true <-> (lo <= b <= hi)%Z.
Proof. unfold within. rewrite andb_true_iff, !Z.leb_le. done. Qed.

Lemma utf8_ascii_app a r : ascii_only a -> utf8_valid (a ++ r) = utf8_valid r.
Proof.
  induction 1 as [|b a Hb _ IH]; [done|]. simpl. by rewrite (proj2 (within_spec 0 127 b)).
Qed.

Lemma utf8_ascii a : ascii_only a -> utf8_valid a = true.
Proof. intros H. rewrite <- (app_nil_r a). by rewrite utf8_ascii_app. Qed.

Lemma utf8_app a b : utf8_valid a = true -> utf8_valid (a ++ b) = utf8_valid b.
Proof.
  remember (length a) as n eqn:Hn. revert a Hn.
  induction (lt_wf n) as [n _ IH]. intros [|b0 r0] -> H; [done|].
  assert (Hr : forall r, utf8_valid r = true -> length r < S (length r0) ->
    utf8_valid (r ++ b) = utf8_valid b) by (intros; by eapply IH).
  clear IH. simpl in *.
  destruct (within 0 127 b0); [apply Hr; [done|lia]|].
  destruct r0 as [|b1 r1]; [done|]. simpl in *.
  destruct (lead2 b0 b1); [apply Hr; [done|lia]|].
  destruct r1 as [|b2 r2]; [done|]. simpl in *.
  destruct (lead3 b0 b1 && continuation b2); [apply Hr; [done|lia]|].
  destruct r2 as [|b3 r3]; [done|]. simpl in *.
  apply andb_true_iff in H as [-> H]. simpl. apply Hr; [done|lia].
Qed.

(** * Decoding one character

    [std]'s decoder reads one character at a time.  On ill-formed input it
    reports how many bytes the longest prefix of a well-formed sequence took
    ([Utf8Error::error_len]), or that the input ended inside a sequence that may
    still be completed. *)

Inductive step :=
  | Char (c : Z) (width : nat)
  | Invalid (width : nat)
  | Incomplete.

Definition code2 (b0 b1 : Z) : Z := (b0 - 192) * 64 + (b1 - 128).
Definition code3 (b0 b1 b2 : Z) : Z := (b0 - 224) * 4096 + (b1 - 128) * 64 + (b2 - 128).
Definition code4 (b0 b1 b2 b3 : Z) : Z :=
  (b0 - 240) * 262144 + (b1 - 128) * 4096 + (b2 - 128) * 64 + (b3 - 128).

(** The second byte a leading byte admits. *)
Definition second_ok (b0 b1 : Z) : bool := lead2 b0 b1 || lead3 b0 b1 || lead4 b0 b1.

(** How many bytes a leading byte announces. *)
Definition announced (b0 : Z) : nat :=
  if within 0 127 b0 then 1
  else if within 194 223 b0 then 2
  else if within 224 239 b0 then 3
  else if within 240 244 b0 then 4
  else 0.

(** The first step over a non-empty input. *)
Definition decode_step (b0 : Z) (rest : bytes) : step :=
  match announced b0 with
  | 0 => Invalid 1
  | 1 => Char b0 1
  | 2 =>
      match rest with
      | [] => Incomplete
      | b1 :: _ => if second_ok b0 b1 then Char (code2 b0 b1) 2 else Invalid 1
      end
  | 3 =>
      match rest with
      | [] => Incomplete
      | b1 :: rest =>
          if second_ok b0 b1 then
            match rest with
            | [] => Incomplete
            | b2 :: _ => if continuation b2 then Char (code3 b0 b1 b2) 3 else Invalid 2
            end
          else Invalid 1
      end
  | _ =>
      match rest with
      | [] => Incomplete
      | b1 :: rest =>
          if second_ok b0 b1 then
            match rest with
            | [] => Incomplete
            | b2 :: rest =>
                if continuation b2 then
                  match rest with
                  | [] => Incomplete
                  | b3 :: _ => if continuation b3 then Char (code4 b0 b1 b2 b3) 4 else Invalid 3
                  end
                else Invalid 2
            end
          else Invalid 1
      end
  end.

(** [char::len_utf8] *)
Definition len_utf8 (c : Z) : Z :=
  if (c <? 128)%Z then 1 else if (c <? 2048)%Z then 2 else if (c <? 65536)%Z then 3 else 4.

Lemma decode_step_width b0 rest :
  match decode_step b0 rest with
  | Char _ n => 1 <= n <= S (length rest)
  | Invalid n => 1 <= n <= S (length rest)
  | Incomplete => True
  end.
Proof.
  unfold decode_step. destruct (announced b0) as [|[|[|[|n]]]]; [simpl; lia..| | |];
    destruct rest as [|b1 rest]; try done; destruct (second_ok b0 b1); simpl; try lia;
    destruct rest as [|b2 rest]; try done; simpl; try lia; destruct (continuation b2); simpl; try lia;
    destruct rest as [|b3 rest]; try done; simpl; try lia; destruct (continuation b3); simpl; lia.
Qed.

(** More input behind a decided step does not change it. *)
Lemma decode_step_app b0 rest c :
  decode_step b0 rest <> Incomplete -> decode_step b0 (rest ++ c) = decode_step b0 rest.
Proof.
  unfold decode_step. destruct (announced b0) as [|[|[|[|n]]]]; try done;
    destruct rest as [|b1 rest]; try done; cbn [app]; destruct (second_ok b0 b1); try done;
    destruct rest as [|b2 rest]; try done; cbn [app]; destruct (continuation b2); try done;
    destruct rest as [|b3 rest]; try done.
Qed.

(** * Encoding *)

Definition scalar (c : Z) : Prop := (0 <= c < 55296 \/ 57344 <= c < 1114112)%Z.

(** [char::encode_utf8] *)
Definition encode (c : Z) : bytes :=
  if (c <? 128)%Z then [c]
  else if (c <? 2048)%Z then [192 + c / 64; 128 + c mod 64]%Z
  else if (c <? 65536)%Z then [224 + c / 4096; 128 + c / 64 mod 64; 128 + c mod 64]%Z
  else [240 + c / 262144; 128 + c / 4096 mod 64; 128 + c / 64 mod 64; 128 + c mod 64]%Z.

Lemma within_false lo hi b : within lo hi b = false <-> (b < lo \/ hi < b)%Z.
Proof. rewrite <- not_true_iff_false, within_spec. lia. Qed.

Lemma continuation_mod c : continuation (128 + c mod 64) = true.
Proof. apply within_spec. pose proof (Z.mod_pos_bound c 64). lia. Qed.

Lemma announced_spec b0 n lo hi :
  (n, lo, hi) ∈ [(1, 0, 127); (2, 194, 223); (3, 224, 239); (4, 240, 244)]%Z ->
  (lo <= b0 <= hi)%Z -> announced b0 = Z.to_nat n.
Proof.
  intros Hn Hb. unfold announced.
  repeat (apply elem_of_cons in Hn as [[= -> -> ->]|Hn]; [
    repeat first [ rewrite (proj2 (within_false _ _ b0)) by lia
                 | rewrite (proj2 (within_spec _ _ b0)) by lia ]; done |]).
  by apply elem_of_nil in Hn.
Qed.

Lemma lead2_spec b0 b1 : lead2 b0 b1 = true <-> (194 <= b0 <= 223 /\ 128 <= b1 <= 191)%Z.
Proof. unfold lead2, continuation. by rewrite andb_true_iff, !within_spec. Qed.

Lemma lead3_spec b0 b1 :
  lead3 b0 b1 = true <->
    (b0 = 224 /\ 160 <= b1 <= 191 \/ 225 <= b0 <= 236 /\ 128 <= b1 <= 191 \/
     b0 = 237 /\ 128 <= b1 <= 159 \/ 238 <= b0 <= 239 /\ 128 <= b1 <= 191)%Z.
Proof.
  unfold lead3, continuation. rewrite !orb_true_iff, !andb_true_iff, !within_spec, !Z.eqb_eq. tauto.
Qed.

Lemma lead4_spec b0 b1 :
  lead4 b0 b1 = true <->
    (b0 = 240 /\ 144 <= b1 <= 191 \/ 241 <= b0 <= 243 /\ 128 <= b1 <= 191 \/
     b0 = 244 /\ 128 <= b1 <= 143)%Z.
Proof.
  unfold lead4, continuation. rewrite !orb_true_iff, !andb_true_iff, !within_spec, !Z.eqb_eq. tauto.
Qed.

Lemma second_ok_spec b0 b1 :
  second_ok b0 b1 = true <-> lead2 b0 b1 = true \/ lead3 b0 b1 = true \/ lead4 b0 b1 = true.
Proof. unfold second_ok. rewrite !orb_true_iff. tauto. Qed.

(** Decoding reads back what encoding wrote. *)
Lemma decode_encode c r :
  scalar c ->
  exists b0 rest, encode c = b0 :: rest /\ decode_step b0 (rest ++ r) = Char c (length (encode c)).
Proof.
  intros Hc. unfold scalar in Hc. unfold encode, decode_step.
  destruct (Z.ltb_spec c 128); [|destruct (Z.ltb_spec c 2048); [|destruct (Z.ltb_spec c 65536)]];
    eexists _, _; (split; [done|]); cbn [app length].
  - rewrite (announced_spec c 1 0 127) by (set_solver || lia). done.
  - rewrite (announced_spec _ 2 194 223);
      [|set_solver|Z.to_euclidean_division_equations; lia].
    cbn [Z.to_nat Pos.to_nat Pos.iter_op Nat.add].
    rewrite (proj2 (second_ok_spec _ _)).
    + do 2 f_equal. unfold code2. Z.to_euclidean_division_equations; lia.
    + left. apply lead2_spec. Z.to_euclidean_division_equations; lia.
  - rewrite (announced_spec _ 3 224 239);
      [|set_solver|Z.to_euclidean_division_equations; lia].
    cbn [Z.to_nat Pos.to_nat Pos.iter_op Nat.add].
    rewrite (proj2 (second_ok_spec _ _)); [rewrite continuation_mod|].
    + f_equal. unfold code3. Z.to_euclidean_division_equations; lia.
    + right; left. apply lead3_spec. Z.to_euclidean_division_equations; lia.
  - rewrite (announced_spec _ 4 240 244);
      [|set_solver|Z.to_euclidean_division_equations; lia].
    cbn [Z.to_nat Pos.to_nat Pos.iter_op Nat.add].
    rewrite (proj2 (second_ok_spec _ _)); [rewrite !continuation_mod|].
    + f_equal. unfold code4. Z.to_euclidean_division_equations; lia.
    + right; right. apply lead4_spec. Z.to_euclidean_division_equations; lia.
Qed.
