(* ===== verification/Text.v ===== *)
(** Rust strings as Rocq strings of their UTF-8 bytes: the functions of [std]
    that several components call on a [str], and their lemmas. *)

From Stdlib Require Export Ascii.
From S2P Require Import Prelude.
From S2P Require Import Utf8.

(** [str::split] at one ASCII character: always at least one segment. *)
Fixpoint split (sep : ascii) (s : string) : list string :=
  match s with
  | EmptyString => [EmptyString]
  | String c s =>
      if Ascii.eqb c sep then EmptyString :: split sep s
      else match split sep s with
           | [] => [String c EmptyString]
           | seg :: segs => String c seg :: segs
           end
  end.

Definition to_ascii_lowercase (c : ascii) : ascii :=
  let n := nat_of_ascii c in
  if (65 <=? n) && (n <=? 90) then ascii_of_nat (n + 32) else c.
Fixpoint lowercase (s : string) : string :=
  match s with EmptyString => EmptyString | String c s => String (to_ascii_lowercase c) (lowercase s) end.
Definition eq_ignore_ascii_case (a b : string) : bool := bool_decide (lowercase a = lowercase b).

(** The characters of a byte string. *)
Fixpoint chars (fuel : nat) (bs : bytes) : list Z :=
  match fuel, bs with
  | S fuel, b0 :: rest =>
      match decode_step b0 rest with
      | Char c width => c :: chars fuel (drop (width - 1) rest)
      | _ => []
      end
  | _, _ => []
  end.

(** [char::is_whitespace]: the White_Space property. *)
Definition is_whitespace (c : Z) : bool :=
  within 9 13 c || (c =? 32)%Z || (c =? 133)%Z || (c =? 160)%Z || (c =? 5760)%Z ||
  within 8192 8202 c || (c =? 8232)%Z || (c =? 8233)%Z || (c =? 8239)%Z || (c =? 8287)%Z ||
  (c =? 12288)%Z.

(** [s.trim().is_empty()] *)
Definition trim_is_empty (s : string) : bool :=
  forallb is_whitespace (chars (String.length s) (bytes_of s)).

(** [str::trim]: whitespace characters dropped from both ends. *)
Fixpoint sdrop (n : nat) (s : string) : string :=
  match n, s with S n, String _ s => sdrop n s | _, _ => s end.
Fixpoint stake (n : nat) (s : string) : string :=
  match n, s with S n, String c s => String c (stake n s) | _, _ => EmptyString end.
(** The first character of a string and its width. *)
Definition first_char (s : string) : option (Z * nat) :=
  match bytes_of s with
  | [] => None
  | b0 :: rest => match decode_step b0 rest with Char c width => Some (c, width) | _ => None end
  end.
Fixpoint trim_start (fuel : nat) (s : string) : string :=
  match fuel, first_char s with
  | S fuel, Some (c, width) => if is_whitespace c then trim_start fuel (sdrop width s) else s
  | _, _ => s
  end.
Fixpoint trim_end (fuel : nat) (s : string) : string :=
  if trim_is_empty s then EmptyString
  else match fuel, first_char s with
       | S fuel, Some (c, width) => stake width s +:+ trim_end fuel (sdrop width s)
       | _, _ => s
       end.
Definition trim (s : string) : string :=
  let s := trim_start (String.length s) s in trim_end (String.length s) s.

(** [str::len] *)
Definition slen (s : string) : Z := Z.of_nat (String.length s).

(** [str::contains] *)
Fixpoint contains (needle s : string) : bool :=
  String.prefix needle s ||
  match s with EmptyString => false | String _ s => contains needle s end.

Lemma string_app_nil (b : string) : EmptyString +:+ b = b.
Proof. done. Qed.

Lemma string_app_cons c (a b : string) : String c a +:+ b = String c (a +:+ b).
Proof. done. Qed.

Create Rewrite HintDb text.
#[export] Hint Rewrite string_app_nil string_app_cons : text.

Lemma slen_app a b : slen (a +:+ b) = (slen a + slen b)%Z.
Proof.
  unfold slen. rewrite <- Nat2Z.inj_add. f_equal.
  by induction a as [|c a IH]; autorewrite with text; simpl; [|f_equal].
Qed.

Lemma slen_nonneg s : (0 <= slen s)%Z.
Proof. unfold slen. lia. Qed.

#[export] Hint Resolve slen_nonneg : rivect.
#[export] Hint Rewrite slen_app : text.

Lemma string_app_nil_r (a : string) : a +:+ EmptyString = a.
Proof. induction a as [|c a IH]; autorewrite with text; [done|]. by rewrite IH. Qed.

Lemma string_app_assoc (a b c : string) : a +:+ (b +:+ c) = (a +:+ b) +:+ c.
Proof. induction a as [|x a IH]; autorewrite with text; [done|]. by rewrite IH. Qed.

Lemma prefix_app (p s : string) : String.prefix p (p +:+ s) = true.
Proof.
  induction p as [|c p IH]; autorewrite with text; simpl; [by destruct s|].
  by destruct (Ascii.ascii_dec c c).
Qed.

Lemma prefix_spec (p s : string) : String.prefix p s = true <-> exists t, s = p +:+ t.
Proof.
  split; [|by intros [t ->]; apply prefix_app].
  revert s. induction p as [|c p IH]; intros s; simpl; [by exists s|].
  destruct s as [|d s]; simpl; [done|]. destruct (Ascii.ascii_dec c d) as [->|]; [|done].
  intros [t ->]%IH. by exists t.
Qed.

(** A needle is contained when the text is a prefix, the needle and a rest. *)
Lemma contains_spec needle s :
  contains needle s = true <-> exists pre post, s = pre +:+ needle +:+ post.
Proof.
  split.
  - induction s as [|c s IH]; cbn [contains]; intros H; apply orb_true_iff in H as [H|H]; try done.
    + apply prefix_spec in H as [t E]. by exists EmptyString, t.
    + apply prefix_spec in H as [t E]. by exists EmptyString, t.
    + destruct (IH H) as (pre & post & ->). by exists (String c pre), post.
  - intros (pre & post & ->). induction pre as [|c pre IH]; autorewrite with text.
    + destruct (needle +:+ post) as [|c s] eqn:E; cbn [contains]; rewrite <- E, prefix_app; done.
    + cbn [contains]. rewrite IH. apply orb_true_r.
Qed.

Lemma lowercase_app a b : lowercase (a +:+ b) = lowercase a +:+ lowercase b.
Proof. induction a as [|c a IH]; autorewrite with text; simpl; [done|]. by rewrite IH. Qed.

(** Lowering twice changes nothing more. *)
Lemma to_ascii_lowercase_idemp c : to_ascii_lowercase (to_ascii_lowercase c) = to_ascii_lowercase c.
Proof. destruct c as [[] [] [] [] [] [] [] []]; reflexivity. Qed.

Lemma lowercase_idemp s : lowercase (lowercase s) = lowercase s.
Proof. induction s as [|c s IH]; simpl; [done|]. by rewrite to_ascii_lowercase_idemp, IH. Qed.

(** * Lossy decoding *)

Definition REPLACEMENT_TEXT : string := String "239" (String "191" (String "189" EmptyString)).

(** [String::from_utf8_lossy], [Path::to_string_lossy] *)
Fixpoint lossy (fuel : nat) (s : string) : string :=
  match fuel, s with
  | S fuel, String c rest =>
      match decode_step (Z.of_N (Ascii.N_of_ascii c)) (bytes_of rest) with
      | Char _ n => stake n s +:+ lossy fuel (sdrop n s)
      | Invalid n => REPLACEMENT_TEXT +:+ lossy fuel (sdrop n s)
      | Incomplete => REPLACEMENT_TEXT
      end
  | _, _ => EmptyString
  end.
Definition from_utf8_lossy (s : string) : string := lossy (String.length s) s.

Lemma stake_sdrop n s : stake n s +:+ sdrop n s = s.
Proof. revert s. induction n as [|n IH]; intros [|c s]; try done. cbn. rewrite string_app_cons. by rewrite IH. Qed.

Lemma bytes_of_sdrop n s : bytes_of (sdrop n s) = drop n (bytes_of s).
Proof. revert s. induction n as [|n IH]; intros [|c s]; try done. apply IH. Qed.

Lemma bytes_of_app a b : bytes_of (a +:+ b) = bytes_of a ++ bytes_of b.
Proof.
  induction a as [|x a IH]; [done|]. change (String x a +:+ b) with (String x (a +:+ b)). unfold bytes_of in *.
  cbn [String.list_ascii_of_string map app]. by rewrite IH.
Qed.

Lemma bytes_of_length s : length (bytes_of s) = String.length s.
Proof. induction s as [|c s IH]; [done|]. cbn. by rewrite <- IH. Qed.

(** Well-formed input starts with a character, and goes on well-formed. *)
Lemma utf8_valid_step b0 rest : utf8_valid (b0 :: rest) = true ->
  exists c n, decode_step b0 rest = Char c n /\ utf8_valid (drop n (b0 :: rest)) = true.
Proof.
  cbn [utf8_valid]. unfold decode_step. destruct (within 0 127 b0) eqn:E1.
  { intros Hv. unfold announced. rewrite E1. by exists b0, 1. }
  destruct rest as [|b1 r1]; [done|]. destruct (lead2 b0 b1) eqn:E2.
  { intros Hv. pose proof (proj1 (lead2_spec b0 b1) E2) as [H1 _]. rewrite (announced_spec b0 2 194 223) by (done || set_solver).
    cbn. rewrite (proj2 (second_ok_spec b0 b1)) by tauto. by eexists _, 2. }
  destruct r1 as [|b2 r2]; [done|]. destruct (lead3 b0 b1 && continuation b2) eqn:E3.
  { intros Hv. apply andb_true_iff in E3 as [E3 Ec]. pose proof (proj1 (lead3_spec b0 b1) E3) as H1.
    rewrite (announced_spec b0 3 224 239) by (lia || set_solver). cbn. rewrite (proj2 (second_ok_spec b0 b1)) by tauto.
    rewrite Ec. by eexists _, 3. }
  destruct r2 as [|b3 r3]; [done|]. intros [[[E4 Ec2]%andb_true_iff Ec3]%andb_true_iff Hv]%andb_true_iff.
  pose proof (proj1 (lead4_spec b0 b1) E4) as H1. rewrite (announced_spec b0 4 240 244) by (lia || set_solver).
  cbn. rewrite (proj2 (second_ok_spec b0 b1)) by tauto. rewrite Ec2, Ec3. by eexists _, 4.
Qed.

(** Well-formed text is read as it is. *)
Lemma lossy_valid s : utf8_valid (bytes_of s) = true -> from_utf8_lossy s = s.
Proof.
  unfold from_utf8_lossy. assert (Hall : forall fuel s, String.length s <= fuel -> utf8_valid (bytes_of s) = true -> lossy fuel s = s).
  { clear s. induction fuel as [|fuel IH]; intros [|c s] Hl Hv; try done; [cbn in Hl; lia|].
    change (bytes_of (String c s)) with (Z.of_N (Ascii.N_of_ascii c) :: bytes_of s) in Hv.
    apply utf8_valid_step in Hv as (ch & n & Hd & Hv). cbn [lossy]. rewrite Hd.
    pose proof (decode_step_width (Z.of_N (Ascii.N_of_ascii c)) (bytes_of s)) as Hw. rewrite Hd in Hw.
    rewrite IH; [apply stake_sdrop| |].
    - destruct n as [|n]; [lia|]. cbn [sdrop]. rewrite <- bytes_of_length, bytes_of_sdrop, length_drop, bytes_of_length. cbn in Hl. lia.
    - by rewrite bytes_of_sdrop. }
  by apply Hall.
Qed.
