(* ===== verification/Codes.v ===== *)
(** A textual code for every countable type, which reads back. *)

From stdpp Require Import countable.
From S2P Require Import Prelude.
From S2P Require Import Text.

Fixpoint digits (p : positive) : string :=
  match p with xH => EmptyString | xO p => String "0" (digits p) | xI p => String "1" (digits p) end.
Fixpoint number (s : string) : option positive :=
  match s with
  | EmptyString => Some xH
  | String c s => if Ascii.eqb c "0" then xO <$> number s else if Ascii.eqb c "1" then xI <$> number s else None
  end.

Lemma number_digits p : number (digits p) = Some p.
Proof. induction p as [p IH|p IH|]; simpl; [by rewrite IH..|done]. Qed.

Definition code_of `{Countable A} (a : A) : string := digits (encode a).
Definition of_code `{Countable A} (s : string) : option A := number s ≫= decode.

Lemma of_code_of `{Countable A} (a : A) : of_code (code_of a) = Some a.
Proof. unfold of_code, code_of. rewrite number_digits. simpl. apply decode_encode. Qed.
