(* ===== verification/Sse.v ===== *)
(** The incremental server-sent-events parser ([src/src/providers/sse.rs]):
    line splitting over raw bytes with its scan cursor, the byte-order mark, the
    pending block, and the two byte bounds.  An error leaves the parser in the
    state the code leaves it in, so a later feed is modelled too. *)

From S2P Require Import Prelude.
From S2P Require Import Utf8.

Definition LF : Z := 10.
Definition CR : Z := 13.
Definition COLON : Z := 58.
Definition SPACE : Z := 32.

Definition MAX_LINE_BYTES : Z := 256 * 1024.
Definition MAX_DATA_BYTES : Z := 4 * 1024 * 1024.
Definition BOM : bytes := [239; 187; 191]%Z.

(** ["event"] and ["data"] *)
Definition EVENT : bytes := [101; 118; 101; 110; 116]%Z.
Definition DATA : bytes := [100; 97; 116; 97]%Z.

Record SseEvent := mkEvent {
  event : bytes;
  data : bytes;
}.

Inductive SseError :=
  | Overrun (what : string) (limit : Z)
  | InvalidUtf8.

(** [Block] *)
Record Block := mkBlock {
  event_type : bytes;
  block_data : bytes;
}.

Definition empty_block : Block := mkBlock [] [].

(** [Block::dispatch]: [data.pop()] removes the final LF. *)
Definition dispatch (b : Block) (events : list SseEvent) : Block * list SseEvent :=
  if decide (block_data b = []) then (empty_block, events)
  else (empty_block, events ++ [mkEvent (event_type b) (removelast (block_data b))]).

(** The field and value of a line: exactly one space after the colon goes. *)
Definition field_value (text : bytes) : bytes * bytes :=
  match split_once COLON text with
  | Some (field, value) => (field, default value (strip_prefix [SPACE] value))
  | None => (text, [])
  end.

(** [Block::line]; an error changes neither the block nor the events. *)
Definition line (b : Block) (raw : bytes) (events : list SseEvent)
    : result (Block * list SseEvent) SseError :=
  if decide (MAX_LINE_BYTES < zlen raw)%Z then Err (Overrun "line" MAX_LINE_BYTES)
  else
    let? text := ok_or (from_utf8 raw) InvalidUtf8 in
    if decide (text = []) then Ok (dispatch b events)
    else if starts_with [COLON] text then Ok (b, events)
    else
      let (field, value) := field_value text in
      if decide (field = EVENT) then Ok (mkBlock value (block_data b), events)
      else if decide (field = DATA) then
        let next := (zlen (block_data b) + zlen value + 1)%Z in
        if decide (MAX_DATA_BYTES < next)%Z then Err (Overrun "event data" MAX_DATA_BYTES)
        else Ok (mkBlock (event_type b) ((block_data b ++ value) ++ [LF]), events)
      else Ok (b, events).

Record SseParser := mkParser {
  buf : bytes;
  scanned : nat;
  bom_pending : bool;
  block : Block;
}.

(** [SseParser::new] *)
Definition new : SseParser := mkParser [] 0 true empty_block.

(** [matches!(b, b'\r' | b'\n')] *)
Definition terminator (b : Z) : bool := (b =? CR)%Z || (b =? LF)%Z.

(** Where the line loop stops: [consumed], [scanned], the block, and the events
    or the error. *)
Record Stop := mkStop {
  st_consumed : nat;
  st_scanned : nat;
  st_block : Block;
  st_result : result (list SseEvent) SseError;
}.

(** The loop of [pump] over the buffer [bs]; each round consumes a byte, so
    [S (length bs)] rounds are enough. *)
Fixpoint pump_loop (fuel : nat) (at_eof : bool) (bs : bytes) (consumed scanned : nat)
    (blk : Block) (events : list SseEvent) : outcome Stop :=
  match fuel with
  | O => Diverge
  | S fuel =>
      let scan_from := consumed `max` scanned in
      let* tail := slice_from bs scan_from in
      match position terminator tail with
      | None => Ret (mkStop consumed (length bs) blk (Ok events))
      | Some off =>
          let at_ := scan_from + off in
          let* b := index bs at_ in
          if decide (b = CR) then
            if bool_decide (at_ + 1 = length bs) && negb at_eof
            then Ret (mkStop consumed at_ blk (Ok events))
            else
              let* width :=
                if decide (at_ + 1 < length bs) then
                  let* n := index bs (at_ + 1) in Ret (if decide (n = LF) then 2 else 1)
                else Ret 1 in
              let* raw := slice bs consumed at_ in
              match line blk raw events with
              | Err e => Ret (mkStop consumed scanned blk (Err e))
              | Ok (blk, events) =>
                  pump_loop fuel at_eof bs (at_ + width) (at_ + width) blk events
              end
          else
            let* raw := slice bs consumed at_ in
            match line blk raw events with
            | Err e => Ret (mkStop consumed scanned blk (Err e))
            | Ok (blk, events) => pump_loop fuel at_eof bs (at_ + 1) (at_ + 1) blk events
            end
      end
  end.

(** The rest of [pump], once the byte-order mark is decided. *)
Definition pump_lines (at_eof : bool) (p : SseParser)
    : outcome (result (list SseEvent) SseError * SseParser) :=
  let* st := pump_loop (S (length (buf p))) at_eof (buf p) 0 (scanned p) (block p) [] in
  match st_result st with
  | Err e => Ret (Err e, mkParser (buf p) (st_scanned st) (bom_pending p) (st_block st))
  | Ok events =>
      let* rest := slice_from (buf p) (st_consumed st) in
      if decide (st_scanned st < st_consumed st) then Panic
      else
        let scanned := st_scanned st - st_consumed st in
        let p := mkParser rest scanned (bom_pending p) (st_block st) in
        if decide (MAX_LINE_BYTES < Z.of_nat scanned)%Z
        then Ret (Err (Overrun "line" MAX_LINE_BYTES), p)
        else Ret (Ok events, p)
  end.

(** [held.is_empty()], a strict prefix of the mark, more bytes may come. *)
Definition bom_waits (at_eof : bool) (held : bytes) : bool :=
  negb (bool_decide (held = [])) && bool_decide (length held < length BOM) &&
  starts_with held BOM && negb at_eof.

(** [SseParser::pump] *)
Definition pump (at_eof : bool) (p : SseParser)
    : outcome (result (list SseEvent) SseError * SseParser) :=
  if bom_pending p then
    if bom_waits at_eof (buf p) then Ret (Ok [], p)
    else
      let held := default (buf p) (strip_prefix BOM (buf p)) in
      pump_lines at_eof (mkParser held 0 false (block p))
  else pump_lines at_eof p.

(** [SseParser::feed] *)
Definition feed (chunk : bytes) (p : SseParser)
    : outcome (result (list SseEvent) SseError * SseParser) :=
  if decide (chunk = []) then Ret (Ok [], p)
  else
    let held := if bom_pending p then length (buf p) else scanned p in
    let pending := held + default (length chunk) (position terminator chunk) in
    if negb (bool_decide (last (buf p) = Some CR)) &&
       bool_decide (MAX_LINE_BYTES < Z.of_nat pending)%Z
    then Ret (Err (Overrun "line" MAX_LINE_BYTES), p)
    else pump false (mkParser (buf p ++ chunk) (scanned p) (bom_pending p) (block p)).

(** [SseParser::finish] *)
Definition finish (p : SseParser) : outcome (result (list SseEvent) SseError * SseParser) :=
  let* (r, p) := pump true p in
  match r with
  | Err e => Ret (Err e, p)
  | Ok events => Ret (Ok events, mkParser [] 0 (bom_pending p) empty_block)
  end.

(** A whole stream: chunks in order, the first error ends it. *)
Fixpoint feed_all (chunks : list bytes) (p : SseParser)
    : outcome (result (list SseEvent) SseError * SseParser) :=
  match chunks with
  | [] => Ret (Ok [], p)
  | chunk :: chunks =>
      let* (r, p) := feed chunk p in
      match r with
      | Err e => Ret (Err e, p)
      | Ok evs =>
          let* (r, p) := feed_all chunks p in
          Ret (let? evs' := r in Ok (evs ++ evs'), p)
      end
  end.

(** A whole response: its chunks, then its end. *)
Definition parse_all (chunks : list bytes) : outcome (result (list SseEvent) SseError) :=
  let* (r, p) := feed_all chunks new in
  match r with
  | Err e => Ret (Err e)
  | Ok evs =>
      let* (r, _) := finish p in
      Ret (let? evs' := r in Ok (evs ++ evs'))
  end.

(** * The reference: the whole byte string at once *)

(** The complete lines of a byte string and the bytes left over; [acc] is the
    current line so far.  A final CR is held unless the input has ended. *)
Fixpoint lines (at_eof : bool) (acc bs : bytes) : list bytes * bytes :=
  match bs with
  | [] => ([], acc)
  | b :: bs =>
      if decide (b = LF) then let (ls, rest) := lines at_eof [] bs in (acc :: ls, rest)
      else if decide (b = CR) then
        match bs with
        | [] => if at_eof then ([acc], []) else ([], acc ++ [CR])
        | n :: bs' =>
            let (ls, rest) := lines at_eof [] (if decide (n = LF) then bs' else bs) in
            (acc :: ls, rest)
        end
      else lines at_eof (acc ++ [b]) bs
  end.

(** The lines of a stream processed in order. *)
Fixpoint run_lines (ls : list bytes) (b : Block) (events : list SseEvent)
    : result (Block * list SseEvent) SseError :=
  match ls with
  | [] => Ok (b, events)
  | l :: ls => let? (b, events) := line b l events in run_lines ls b events
  end.

Definition strip_bom (bs : bytes) : bytes := default bs (strip_prefix BOM bs).

(** What a stream means, however it is cut into chunks. *)
Definition reference (at_eof : bool) (bs : bytes) : result (list SseEvent) SseError :=
  let? (_, events) := run_lines (fst (lines at_eof [] (strip_bom bs))) empty_block [] in Ok events.
