(* ===== verification/SseThms.v ===== *)
(** Properties of the incremental SSE parser ([src/src/providers/sse.rs]): it is
    total, bounded, and independent of how the stream is cut into chunks. *)

From S2P Require Import Prelude.
From S2P Require Import Utf8.
From S2P Require Import Sse.

(** * Lines *)

Definition term_free (l : bytes) : Prop := Forall (fun b => terminator b = false) l.

Lemma term_free_app l1 l2 : term_free (l1 ++ l2) <-> term_free l1 /\ term_free l2.
Proof. apply Forall_app. Qed.

Lemma terminator_spec b : terminator b = true <-> b = CR \/ b = LF.
Proof. unfold terminator. by rewrite orb_true_iff, !Z.eqb_eq. Qed.

Lemma term_free_cons b l : term_free (b :: l) <-> (b <> CR /\ b <> LF) /\ term_free l.
Proof.
  unfold term_free. rewrite Forall_cons. split; intros [H1 H2]; (split; [|done]).
  - split; intros ->; by unfold terminator in H1.
  - apply not_true_iff_false. rewrite terminator_spec. tauto.
Qed.

Lemma lines_free e acc pre bs : term_free pre -> lines e acc (pre ++ bs) = lines e (acc ++ pre) bs.
Proof.
  revert acc. induction pre as [|b pre IH]; intros acc H; [by rewrite app_nil_r|].
  apply term_free_cons in H as [[Hc Hl] H]. cbn [app lines].
  rewrite !decide_False by done. rewrite IH by done. by rewrite <- app_assoc.
Qed.

Lemma lines_nil_free e pre bs : term_free pre -> lines e [] (pre ++ bs) = lines e pre bs.
Proof. intros. by rewrite lines_free. Qed.

Lemma lines_only_free e acc l : term_free l -> lines e acc l = ([], acc ++ l).
Proof. intros H. rewrite <- (app_nil_r l) at 1. by rewrite lines_free. Qed.

(** Cutting a stream in two: the second part continues from what the first part
    left over. *)
Lemma lines_app e acc bs c :
  term_free acc ->
  lines e acc (bs ++ c) =
    let '(ls, rest) := lines false acc bs in
    let '(ls', rest') := lines e [] (rest ++ c) in (ls ++ ls', rest').
Proof.
  remember (length bs) as n eqn:Hn. revert acc bs Hn.
  induction (lt_wf n) as [n _ IH]. intros acc bs -> Hacc.
  destruct bs as [|b bs]; cbn [app lines].
  { rewrite lines_nil_free by done. by destruct (lines e acc c). }
  destruct (decide (b = LF)) as [Hlf|Hlf].
  { rewrite (IH (length bs) ltac:(simpl; lia) [] bs eq_refl ltac:(constructor)).
    destruct (lines false [] bs) as [ls rest]. destruct (lines e [] (rest ++ c)). done. }
  destruct (decide (b = CR)) as [->|Hcr].
  - destruct bs as [|n bs]; cbn [app].
    + rewrite <- app_assoc, lines_nil_free by done. cbn [app]. cbn [lines].
      rewrite decide_False, decide_True by done.
      destruct c as [|x c]; [by destruct e|]. by destruct (lines e [] _).
    + destruct (decide (n = LF)).
      * rewrite (IH (length bs) ltac:(simpl; lia) [] bs eq_refl ltac:(constructor)).
        destruct (lines false [] bs) as [ls rest]. by destruct (lines e [] (rest ++ c)).
      * change (n :: bs ++ c) with ((n :: bs) ++ c).
        rewrite (IH (length (n :: bs)) ltac:(simpl; lia) [] (n :: bs) eq_refl ltac:(constructor)).
        destruct (lines false [] (n :: bs)) as [ls rest]. by destruct (lines e [] (rest ++ c)).
  - apply (IH (length bs)); [simpl; lia|done|].
    apply term_free_app. split; [done|]. apply term_free_cons. by split; [|constructor].
Qed.

(** What is left over: a terminator-free prefix, and at most one held CR. *)
Definition held_len (r : bytes) : nat := default (length r) (position terminator r).

Definition leftover (e : bool) (r : bytes) : Prop :=
  term_free r \/ (e = false /\ exists pre, r = pre ++ [CR] /\ term_free pre).

Lemma lines_leftover e acc bs : term_free acc -> leftover e (snd (lines e acc bs)).
Proof.
  remember (length bs) as n eqn:Hn. revert acc bs Hn.
  induction (lt_wf n) as [n _ IH]. intros acc bs -> Hacc.
  destruct bs as [|b bs]; cbn [lines]; [by left|].
  destruct (decide (b = LF)) as [Hlf|Hlf].
  { specialize (IH (length bs) ltac:(simpl; lia) [] bs eq_refl ltac:(constructor)).
    by destruct (lines e [] bs). }
  destruct (decide (b = CR)) as [->|Hcr].
  - destruct bs as [|n bs]; [destruct e; [left; constructor|right; eauto]|].
    destruct (decide (n = LF)).
    + specialize (IH (length bs) ltac:(simpl; lia) [] bs eq_refl ltac:(constructor)).
      by destruct (lines e [] bs).
    + specialize (IH (length (n :: bs)) ltac:(simpl; lia) [] (n :: bs) eq_refl ltac:(constructor)).
      by destruct (lines e [] (n :: bs)).
  - eapply IH; [|reflexivity|]; [simpl; lia|]. apply term_free_app. split; [done|].
    apply term_free_cons. by split; [|constructor].
Qed.

Lemma held_len_free r : term_free r -> held_len r = length r.
Proof. intros H. unfold held_len. by rewrite (proj2 (position_None _ _) H). Qed.

Lemma held_len_cr pre : term_free pre -> held_len (pre ++ [CR]) = length pre.
Proof. intros H. unfold held_len. by rewrite position_app. Qed.

(** * The line loop *)

Lemma run_lines_app ls1 ls2 b evs :
  run_lines (ls1 ++ ls2) b evs =
    let? (b, evs) := run_lines ls1 b evs in run_lines ls2 b evs.
Proof.
  revert b evs. induction ls1 as [|l ls1 IH]; intros b evs; simpl; [done|].
  destruct (line b l evs) as [[b' evs']|e]; simpl; [apply IH|done].
Qed.

(** The loop, from a state whose scan cursor is past a terminator-free prefix,
    processes exactly the complete lines of the bytes not yet consumed. *)
Lemma pump_loop_spec fuel e bs consumed scanned blk evs :
  consumed <= length bs -> scanned <= length bs ->
  term_free (take (consumed `max` scanned - consumed) (drop consumed bs)) ->
  length bs - consumed < fuel ->
  let '(ls, rest) := lines e [] (drop consumed bs) in
  match run_lines ls blk evs with
  | Ok (blk', evs') => exists c s,
      pump_loop fuel e bs consumed scanned blk evs = Ret (mkStop c s blk' (Ok evs')) /\
      c <= length bs /\ drop c bs = rest /\ s = c + held_len rest
  | Err err => exists c s b,
      pump_loop fuel e bs consumed scanned blk evs = Ret (mkStop c s b (Err err)) /\ s <= length bs
  end.
Proof.
  revert consumed scanned blk evs. induction fuel as [|fuel IH];
    intros consumed scanned blk evs Hc Hs Hfree Hfuel; [lia|].
  cbn [pump_loop]. set (from := consumed `max` scanned) in *.
  rewrite slice_from_Ret by lia. cbn [obind].
  set (pre := take (from - consumed) (drop consumed bs)) in *.
  assert (Hsplit : drop consumed bs = pre ++ drop from bs).
  { unfold pre. rewrite <- (take_drop (from - consumed) (drop consumed bs)) at 1.
    f_equal. rewrite drop_drop. f_equal. lia. }
  assert (Hpre : length pre = from - consumed).
  { unfold pre. rewrite length_take, length_drop. lia. }
  destruct (position terminator (drop from bs)) as [off|] eqn:Hpos.
  - apply position_Some in Hpos as (a & x & post & Ea & Hoff & Hx & Ha).
    assert (Hbs : bs = take consumed bs ++ (pre ++ a) ++ x :: post).
    { rewrite <- app_assoc. rewrite <- Ea, <- Hsplit. by rewrite take_drop. }
    set (l := pre ++ a) in *. set (hd := take consumed bs) in *.
    assert (Hhd : length hd = consumed) by (unfold hd; rewrite length_take; lia).
    assert (Hat : from + off = consumed + length l) by (unfold l; rewrite length_app; lia).
    rewrite Hat. rewrite Hsplit, Ea, app_assoc. fold l.
    assert (Hl : term_free l) by (apply term_free_app; by split).
    rewrite lines_nil_free by done.
    assert (Hlen : length bs = consumed + length l + 1 + length post).
    { rewrite Hbs, !length_app. simpl. lia. }
    assert (Hidx : bs !! (consumed + length l) = Some x).
    { rewrite Hbs, lookup_app_r by lia. rewrite lookup_app_r by lia.
      by replace (consumed + length l - length hd - length l) with 0 by lia. }
    assert (Hslice : slice bs consumed (consumed + length l) = Ret l).
    { rewrite slice_Ret by lia. rewrite Hsplit, Ea, app_assoc. fold l.
      replace (consumed + length l - consumed) with (length l) by lia. by rewrite take_app_length. }
    assert (Hdrop : forall k, drop (consumed + length l + 1 + k) bs = drop k post).
    { intros k. rewrite Hbs, drop_app_ge by lia. rewrite drop_app_ge by lia.
      replace (consumed + length l + 1 + k - length hd - length l) with (S k) by lia. done. }
    rewrite (index_Ret _ _ _ Hidx). cbn [obind]. rewrite Hslice. cbn [obind].
    assert (Hrec : forall w, w <= length post -> let '(ls, rest) := lines e [] (drop w post) in
      match run_lines (l :: ls) blk evs with
      | Ok (blk', evs') => exists c s,
          match line blk l evs with
          | Ok (b, evs) => pump_loop fuel e bs (consumed + length l + 1 + w) (consumed + length l + 1 + w) b evs
          | Err er => Ret (mkStop consumed scanned blk (Err er))
          end = Ret (mkStop c s blk' (Ok evs')) /\
          c <= length bs /\ drop c bs = rest /\ s = c + held_len rest
      | Err err => exists c s b,
          match line blk l evs with
          | Ok (b, evs) => pump_loop fuel e bs (consumed + length l + 1 + w) (consumed + length l + 1 + w) b evs
          | Err er => Ret (mkStop consumed scanned blk (Err er))
          end = Ret (mkStop c s b (Err err)) /\ s <= length bs
      end).
    { intros w Hw. destruct (lines e [] (drop w post)) as [ls rest] eqn:El. simpl.
      destruct (line blk l evs) as [[b' evs']|er]; simpl.
      - specialize (IH (consumed + length l + 1 + w) (consumed + length l + 1 + w) b' evs').
        rewrite Nat.max_id, Nat.sub_diag, Hdrop, El in IH. apply IH; [lia|lia|constructor|lia].
      - eexists _, _, _. split; [done|lia]. }
    apply terminator_spec in Hx as [->| ->].
    + rewrite decide_True by done. cbn [lines]. rewrite decide_False, decide_True by done.
      destruct post as [|n post].
      * rewrite bool_decide_true by (simpl in Hlen; lia). destruct e; cbn [negb andb].
        -- rewrite decide_False by (simpl in Hlen; lia). cbn [obind].
           specialize (Hrec 0 ltac:(simpl; lia)). rewrite Nat.add_0_r in Hrec. exact Hrec.
        -- eexists _, _. split; [done|]. split; [lia|]. rewrite Hsplit, Ea, app_assoc. fold l.
           split; [done|]. by rewrite held_len_cr.
      * rewrite bool_decide_false by (simpl in Hlen; lia). cbn [andb].
        rewrite (decide_True (P := consumed + length l + 1 < length bs)) by (simpl in Hlen; lia).
        assert (Hn : bs !! (consumed + length l + 1) = Some n).
        { rewrite Hbs, lookup_app_r by lia. rewrite lookup_app_r by lia.
          by replace (consumed + length l + 1 - length hd - length l) with 1 by lia. }
        rewrite (index_Ret _ _ _ Hn). cbn [obind].
        destruct (decide (n = LF)).
        -- specialize (Hrec 1 ltac:(simpl; lia)). cbn [drop] in Hrec. simpl drop in Hrec.
           replace (consumed + length l + 2) with (consumed + length l + 1 + 1) by lia.
           unfold drop in Hrec. by destruct (lines e [] post).
        -- specialize (Hrec 0 ltac:(simpl; lia)). rewrite Nat.add_0_r in Hrec. unfold drop in Hrec.
           by destruct (lines e [] (n :: post)).
    + rewrite decide_False by done. cbn [lines]. rewrite decide_True by done.
      specialize (Hrec 0 ltac:(lia)). rewrite Nat.add_0_r in Hrec. unfold drop in Hrec.
      by destruct (lines e [] post).
  - apply position_None in Hpos. rewrite Hsplit, lines_nil_free by done.
    rewrite lines_only_free by done. simpl.
    eexists _, _. split; [done|]. split; [done|]. split; [done|].
    rewrite held_len_free by (apply term_free_app; by split).
    rewrite length_app, length_drop. lia.
Qed.

(** * No panic, from any state *)

Definition cursor_ok (p : SseParser) : Prop := scanned p <= length (buf p).

Lemma pump_loop_total fuel e bs consumed scanned blk evs :
  consumed <= length bs -> scanned <= length bs -> length bs - consumed < fuel ->
  exists st, pump_loop fuel e bs consumed scanned blk evs = Ret st /\
    st_scanned st <= length bs /\
    (is_ok (st_result st) = true -> st_consumed st <= st_scanned st).
Proof.
  revert consumed scanned blk evs. induction fuel as [|fuel IH];
    intros consumed scanned blk evs Hc Hs Hf; [lia|].
  cbn [pump_loop]. rewrite slice_from_Ret by lia. cbn [obind].
  destruct (position terminator _) as [off|] eqn:Hp; [|eexists; by split_and!].
  apply position_Some in Hp as (a & x & post & Ea & Hoff & _ & _).
  assert (Hlen : consumed `max` scanned + off < length bs).
  { apply (f_equal length) in Ea. rewrite length_drop, length_app in Ea. simpl in Ea. lia. }
  set (at_ := consumed `max` scanned + off) in *.
  destruct (lookup_lt_ex bs at_ Hlen) as [b Hb]. rewrite (index_Ret _ _ _ Hb). cbn [obind].
  rewrite slice_Ret by lia. cbn [obind].
  assert (Hgo : forall w, at_ + w <= length bs -> 0 < w -> exists st,
    match line blk (take (at_ - consumed) (drop consumed bs)) evs with
    | Ok (b, evs) => pump_loop fuel e bs (at_ + w) (at_ + w) b evs
    | Err er => Ret (mkStop consumed scanned blk (Err er))
    end = Ret st /\ st_scanned st <= length bs /\
    (is_ok (st_result st) = true -> st_consumed st <= st_scanned st)).
  { intros w Hw H0. destruct (line _ _ _) as [[b' evs']|er]; [apply IH; lia|].
    eexists. by split_and!. }
  destruct (decide (b = CR)) as [Hcr|Hcr]; [|apply Hgo; lia].
  destruct (bool_decide (at_ + 1 = length bs) && negb e); [eexists; split_and!; [done|simpl; lia..]|].
  destruct (decide (at_ + 1 < length bs)) as [Hlt|]; cbn [obind]; [|apply Hgo; lia].
  destruct (lookup_lt_ex bs (at_ + 1) Hlt) as [n Hn]. rewrite (index_Ret _ _ _ Hn). cbn [obind].
  apply Hgo; destruct (decide (n = LF)); lia.
Qed.

Lemma pump_lines_total e p :
  cursor_ok p -> exists r p', pump_lines e p = Ret (r, p') /\ cursor_ok p'.
Proof.
  intros Hp. unfold pump_lines.
  destruct (pump_loop_total (S (length (buf p))) e (buf p) 0 (scanned p) (block p) []) as (st & E & Hs & Hok);
    [lia|done|lia|].
  rewrite E. cbn [obind]. destruct (st_result st) as [evs|er] eqn:Er; [|by eexists _, _].
  specialize (Hok eq_refl). rewrite slice_from_Ret by lia. cbn [obind].
  rewrite decide_False by lia. destruct (decide (MAX_LINE_BYTES < _)%Z);
    (eexists _, _; split; [done|]); unfold cursor_ok; simpl; rewrite length_drop; lia.
Qed.

Lemma pump_total e p : cursor_ok p -> exists r p', pump e p = Ret (r, p') /\ cursor_ok p'.
Proof.
  intros Hp. unfold pump. destruct (bom_pending p); [|by apply pump_lines_total].
  destruct (bom_waits e (buf p)); [by eexists _, _|]. apply pump_lines_total. unfold cursor_ok. simpl. lia.
Qed.

Lemma feed_total chunk p : cursor_ok p -> exists r p', feed chunk p = Ret (r, p') /\ cursor_ok p'.
Proof.
  intros Hp. unfold feed. case_decide; [by eexists _, _|].
  destruct (negb _ && _); [by eexists _, _|]. apply pump_total.
  unfold cursor_ok in *. simpl. rewrite length_app. lia.
Qed.

Lemma finish_total p : cursor_ok p -> exists r p', finish p = Ret (r, p') /\ cursor_ok p'.
Proof.
  intros Hp. unfold finish. destruct (pump_total true p Hp) as (r & p' & E & Hp').
  rewrite E. simpl. destruct r as [evs|er]; eexists _, _; (split; [done|]); unfold cursor_ok in *;
    simpl; lia || done.
Qed.

(** * The state after a prefix of the stream *)

(** Bytes that may still turn out to be a byte-order mark. *)
Definition bom_prefix (bs : bytes) : Prop := length bs < length BOM /\ starts_with bs BOM = true.

(** The parser after the bytes [bs], having answered [evs]. *)
Definition after (bs : bytes) (evs : list SseEvent) (p : SseParser) : Prop :=
  if bom_pending p
  then buf p = bs /\ bom_prefix bs /\ evs = [] /\ block p = empty_block /\ scanned p = 0
  else ~ bom_prefix bs /\
    let '(ls, rest) := lines false [] (strip_bom bs) in
    buf p = rest /\ scanned p = held_len rest /\ (Z.of_nat (scanned p) <= MAX_LINE_BYTES)%Z /\
    run_lines ls empty_block [] = Ok (block p, evs).

Lemma after_new : after [] [] new.
Proof. unfold after, bom_prefix. simpl. split_and!; done || lia. Qed.

(** Every terminator-free stretch of the stream fits the line cap. *)
Definition short_lines (bs : bytes) : Prop :=
  forall pre l post, bs = pre ++ l ++ post -> term_free l -> (zlen l <= MAX_LINE_BYTES)%Z.

Lemma line_events b l evs :
  line b l evs = (let? (b', es) := line b l [] in Ok (b', evs ++ es)).
Proof.
  unfold line. destruct (decide _); [done|]. destruct (ok_or _ _) as [text|]; [|done]. cbn [rbind].
  destruct (decide _).
  { unfold dispatch. destruct (decide _); cbn [rbind]; by rewrite ?app_nil_r. }
  destruct (starts_with _ _); [cbn [rbind]; by rewrite app_nil_r|].
  destruct (field_value text) as [f v]. repeat (destruct (decide _); cbn [rbind]; try done);
    by rewrite app_nil_r.
Qed.

Lemma run_lines_events ls b evs :
  run_lines ls b evs = (let? (b', es) := run_lines ls b [] in Ok (b', evs ++ es)).
Proof.
  revert b evs. induction ls as [|l ls IH]; intros b evs; cbn [run_lines]; [cbn; by rewrite app_nil_r|].
  rewrite line_events. destruct (line b l []) as [[b' es]|]; [|done]. cbn [rbind].
  rewrite IH, (IH b' es). destruct (run_lines ls b' []) as [[b'' es']|]; [|done]. cbn [rbind].
  by rewrite app_assoc.
Qed.

Lemma held_len_le r : held_len r <= length r.
Proof.
  unfold held_len. destruct (position terminator r) as [i|] eqn:E; [|done].
  apply position_Some in E as (pre & x & post & -> & <- & _). simpl. rewrite length_app. lia.
Qed.

Lemma held_len_take r : term_free (take (held_len r) r).
Proof.
  unfold held_len. destruct (position terminator r) as [i|] eqn:E; simpl.
  - apply position_Some in E as (pre & x & post & -> & <- & _ & H). by rewrite take_app_length.
  - rewrite take_ge by done. by apply position_None.
Qed.

Lemma pump_lines_spec e p :
  term_free (take (scanned p) (buf p)) -> cursor_ok p ->
  let '(ls, rest) := lines e [] (buf p) in
  match run_lines ls (block p) [] with
  | Ok (b', es) => pump_lines e p =
      Ret (if decide (MAX_LINE_BYTES < Z.of_nat (held_len rest))%Z
           then Err (Overrun "line" MAX_LINE_BYTES) else Ok es,
           mkParser rest (held_len rest) (bom_pending p) b')
  | Err er => exists p', pump_lines e p = Ret (Err er, p')
  end.
Proof.
  intros Hfree Hcur. unfold pump_lines.
  pose proof (pump_loop_spec (S (length (buf p))) e (buf p) 0 (scanned p) (block p) []) as H.
  rewrite Nat.max_0_l, Nat.sub_0_r, drop_0 in H. specialize (H ltac:(lia) Hcur Hfree ltac:(lia)).
  destruct (lines e [] (buf p)) as [ls rest].
  destruct (run_lines ls (block p) []) as [[b' es]|er].
  - destruct H as (c & s & -> & Hc & <- & ->). cbn [obind st_result st_consumed st_scanned st_block].
    rewrite slice_from_Ret by done. cbn [obind]. rewrite decide_False by lia.
    replace (c + held_len (drop c (buf p)) - c) with (held_len (drop c (buf p))) by lia.
    by destruct (decide _).
  - destruct H as (c & s & b & -> & _). cbn [obind st_result]. eauto.
Qed.

Lemma lines_suffix e acc bs : exists pre, acc ++ bs = pre ++ snd (lines e acc bs).
Proof.
  remember (length bs) as n eqn:Hn. revert acc bs Hn.
  induction (lt_wf n) as [n _ IH]. intros acc bs ->.
  assert (Hrec : forall acc0 acc bs0 pre, length bs0 < length bs -> acc0 ++ bs = pre ++ acc ++ bs0 ->
    exists pre, acc0 ++ bs = pre ++ snd (lines e acc bs0)).
  { intros acc0 acc' bs0 pre Hl E. destruct (IH _ Hl acc' bs0 eq_refl) as [pre' E'].
    exists (pre ++ pre'). by rewrite E, <- app_assoc, <- E'. }
  destruct bs as [|b bs]; cbn [lines]; [exists []; by rewrite app_nil_r|].
  destruct (decide (b = LF)).
  { destruct (Hrec acc [] bs (acc ++ [b])) as [pre E]; [simpl; lia|by rewrite <- app_assoc|].
    exists pre. rewrite E. by destruct (lines e [] bs). }
  destruct (decide (b = CR)) as [->|].
  - destruct bs as [|m bs]; [destruct e; [exists (acc ++ [CR]); by rewrite app_nil_r|by exists []]|].
    destruct (decide (m = LF)).
    + destruct (Hrec acc [] bs (acc ++ [CR; m])) as [pre E]; [simpl; lia|by rewrite <- app_assoc|].
      exists pre. rewrite E. by destruct (lines e [] bs).
    + destruct (Hrec acc [] (m :: bs) (acc ++ [CR])) as [pre E]; [simpl; lia|by rewrite <- app_assoc|].
      exists pre. rewrite E. by destruct (lines e [] (m :: bs)).
  - apply (Hrec acc (acc ++ [b]) bs []); [simpl; lia|by rewrite <- app_assoc].
Qed.

Lemma strip_bom_suffix bs : exists pre, bs = pre ++ strip_bom bs.
Proof.
  unfold strip_bom. destruct (strip_prefix BOM bs) as [r|] eqn:E; [|by exists []].
  apply strip_prefix_Some in E. by exists BOM.
Qed.

Lemma strip_bom_app bs c : ~ bom_prefix bs -> strip_bom (bs ++ c) = strip_bom bs ++ c.
Proof.
  intros Hn. unfold strip_bom. destruct (strip_prefix BOM bs) as [r|] eqn:E.
  - apply strip_prefix_Some in E as ->. by rewrite <- app_assoc, strip_prefix_app.
  - destruct (strip_prefix BOM (bs ++ c)) as [r|] eqn:E2; [|done]. exfalso.
    apply strip_prefix_Some in E2. unfold bom_prefix, BOM, starts_with in *.
    destruct bs as [|b0 [|b1 [|b2 bs]]]; simplify_eq/=.
    + apply Hn. by split; [lia|].
    + apply Hn. by split; [lia|].
    + apply Hn. by split; [lia|].
Qed.

Lemma bom_prefix_free bs : bom_prefix bs -> term_free bs /\ last bs <> Some CR.
Proof.
  unfold bom_prefix, starts_with, BOM. intros [Hl Hs].
  destruct (strip_prefix bs _) as [r|] eqn:E; [|done]. apply strip_prefix_Some in E.
  destruct bs as [|b0 [|b1 [|b2 bs]]]; simplify_eq/=;
    [split; [repeat (constructor; [done|]); constructor|done]..|lia].
Qed.

Lemma short_lines_seg bs pre l post :
  bs = pre ++ l ++ post -> term_free l -> (MAX_LINE_BYTES < zlen l)%Z -> ~ short_lines bs.
Proof. intros E Hl Hm Hs. specialize (Hs pre l post E Hl). lia. Qed.

(** The stretch the pre-check of [feed] measures is one of the stream. *)
Lemma precheck_seg pre held chunk :
  term_free held ->
  (MAX_LINE_BYTES < Z.of_nat (length held + default (length chunk) (position terminator chunk)))%Z ->
  ~ short_lines (pre ++ held ++ chunk).
Proof.
  intros Hfree Hlen. apply (short_lines_seg _ pre (held ++ take (held_len chunk) chunk)
    (drop (held_len chunk) chunk)).
  - rewrite <- app_assoc, take_drop. done.
  - apply term_free_app. split; [done|apply held_len_take].
  - unfold zlen. rewrite length_app, length_take. fold (held_len chunk) in Hlen.
    pose proof (held_len_le chunk). lia.
Qed.

(** The held prefix of the left-over bytes is a stretch of the stream. *)
Lemma leftover_seg e bs :
  (MAX_LINE_BYTES < Z.of_nat (held_len (snd (lines e [] (strip_bom bs)))))%Z -> ~ short_lines bs.
Proof.
  set (rest := snd _). intros Hlen.
  destruct (strip_bom_suffix bs) as [p1 E1]. destruct (lines_suffix e [] (strip_bom bs)) as [p2 E2].
  fold rest in E2. simpl in E2.
  apply (short_lines_seg _ (p1 ++ p2) (take (held_len rest) rest) (drop (held_len rest) rest)).
  - rewrite take_drop, <- app_assoc, <- E2. done.
  - apply held_len_take.
  - unfold zlen. rewrite length_take. pose proof (held_len_le rest). lia.
Qed.

(** * One feed *)

(** What a feed of [chunk] after [bs] does. *)
Definition feed_answer (bs chunk : bytes) (evs : list SseEvent)
    (r : result (list SseEvent) SseError) (p : SseParser) : Prop :=
  match r with
  | Ok es => after (bs ++ chunk) (evs ++ es) p
  | Err er => ~ short_lines (bs ++ chunk) \/
      ~ bom_prefix (bs ++ chunk) /\ reference false (bs ++ chunk) = Err er
  end.

(** The line loop over the bytes left over and the new ones. *)
Lemma pump_lines_answer bs chunk evs ls0 cur b0 n :
  ~ bom_prefix (bs ++ chunk) -> term_free (take n cur) -> n <= length cur ->
  (let '(ls, rest') := lines false [] cur in
   lines false [] (strip_bom (bs ++ chunk)) = (ls0 ++ ls, rest')) ->
  run_lines ls0 empty_block [] = Ok (b0, evs) ->
  exists r p, pump_lines false (mkParser cur n false b0) = Ret (r, p) /\
    feed_answer bs chunk evs r p.
Proof.
  intros Hbom Hfree Hn Hlines Hrun.
  pose proof (pump_lines_spec false (mkParser cur n false b0) Hfree Hn) as H.
  simpl buf in H. destruct (lines false [] cur) as [ls rest']. simpl block in H.
  destruct (run_lines ls b0 []) as [[b1 es]|er] eqn:Er.
  - rewrite H. eexists _, _. split; [done|]. destruct (decide _) as [Hlong|Hok].
    + left. apply (leftover_seg false). by rewrite Hlines.
    + unfold feed_answer, after. simpl. split; [done|]. rewrite Hlines.
      split_and!; [done|done|lia|]. rewrite run_lines_app, Hrun. simpl.
      by rewrite run_lines_events, Er.
  - destruct H as [p' H]. rewrite H. eexists _, _. split; [done|]. right. split; [done|].
    unfold reference. rewrite Hlines. simpl. rewrite run_lines_app, Hrun. simpl.
    by rewrite run_lines_events, Er.
Qed.

Lemma bom_waits_spec bs : bs <> [] -> bom_waits false bs = true <-> bom_prefix bs.
Proof.
  intros Hne. unfold bom_waits, bom_prefix. rewrite bool_decide_false by done. simpl.
  rewrite andb_true_r, andb_true_iff, bool_decide_eq_true. done.
Qed.

Lemma bom_prefix_app bs c : ~ bom_prefix bs -> ~ bom_prefix (bs ++ c).
Proof.
  intros Hn [Hl Hs]. apply Hn. unfold bom_prefix, starts_with in *. rewrite length_app in Hl.
  split; [lia|]. destruct (strip_prefix (bs ++ c) BOM) as [r|] eqn:E; [|done].
  apply strip_prefix_Some in E. by rewrite E, <- app_assoc, strip_prefix_app.
Qed.

Lemma feed_spec bs evs p chunk :
  after bs evs p -> exists r p', feed chunk p = Ret (r, p') /\ feed_answer bs chunk evs r p'.
Proof.
  intros Hp. unfold feed. destruct (decide (chunk = [])) as [->|Hne].
  { eexists _, _. split; [done|]. simpl. by rewrite !app_nil_r. }
  unfold after in Hp. destruct (bom_pending p) eqn:Hb.
  - destruct Hp as (-> & Hpre & -> & Hblk & Hsc). destruct (bom_prefix_free _ Hpre) as [Hfree Hlast].
    rewrite bool_decide_false by done. cbn [negb andb].
    destruct (bool_decide _) eqn:Hlong; [apply bool_decide_eq_true in Hlong|clear Hlong].
    { eexists _, _. split; [done|]. left. by apply (precheck_seg [] bs chunk). }
    unfold pump. simpl. destruct (bom_waits false (bs ++ chunk)) eqn:Hw.
    + apply bom_waits_spec in Hw; [|by destruct bs]. eexists _, _. split; [done|].
      unfold feed_answer, after. simpl. by split_and!.
    + assert (Hnb : ~ bom_prefix (bs ++ chunk)).
      { rewrite <- bom_waits_spec by (by destruct bs). by rewrite Hw. }
      fold (strip_bom (bs ++ chunk)). rewrite Hblk.
      apply (pump_lines_answer bs chunk [] [] (strip_bom (bs ++ chunk)) _ 0); [done|constructor|lia| |done].
      by destruct (lines false [] (strip_bom (bs ++ chunk))).
  - destruct Hp as [Hnb Hp]. pose proof (lines_leftover false [] (strip_bom bs) ltac:(constructor)) as Hlo.
    destruct (strip_bom_suffix bs) as [p1 E1]. destruct (lines_suffix false [] (strip_bom bs)) as [p2 E2].
    destruct (lines false [] (strip_bom bs)) as [ls0 rest] eqn:El. simpl in Hlo, E2.
    destruct Hp as (Hbuf & Hsc & Hmax & Hrun). rewrite Hbuf, Hsc. rewrite Hsc in Hmax.
    assert (Hbs : bs = (p1 ++ p2) ++ rest) by (by rewrite <- app_assoc, <- E2).
    destruct (negb _ && _) eqn:Hlong.
    + apply andb_true_iff in Hlong as [Hcr Hlong]. apply bool_decide_eq_true in Hlong.
      apply negb_true_iff, bool_decide_eq_false in Hcr.
      eexists _, _. split; [done|]. left. rewrite Hbs, <- app_assoc.
      destruct Hlo as [Hfree|(_ & pre & -> & _)].
      * apply precheck_seg; [done|]. by rewrite <- (held_len_free rest).
      * by rewrite last_snoc in Hcr.
    + unfold pump. simpl.
      apply (pump_lines_answer bs chunk evs ls0); [| | | |done].
      * by apply bom_prefix_app.
      * rewrite take_app_le by apply held_len_le. apply held_len_take.
      * rewrite length_app. pose proof (held_len_le rest). lia.
      * rewrite strip_bom_app by done. rewrite (lines_app false [] (strip_bom bs) chunk) by constructor. rewrite El.
        by destruct (lines false [] (rest ++ chunk)).
Qed.

(** * Whole streams *)

Lemma reference_app e bs c :
  ~ bom_prefix bs ->
  reference e (bs ++ c) =
    let '(ls, rest) := lines false [] (strip_bom bs) in
    let? (b, evs) := run_lines ls empty_block [] in
    let? (_, evs') := run_lines (fst (lines e [] (rest ++ c))) b evs in Ok evs'.
Proof.
  intros Hn. unfold reference. rewrite strip_bom_app, lines_app by (done || constructor).
  destruct (lines false [] (strip_bom bs)) as [ls rest]. destruct (lines e [] (rest ++ c)) as [ls' rest'].
  simpl. rewrite run_lines_app. by destruct (run_lines ls empty_block []) as [[b evs]|].
Qed.

Lemma reference_err_app e bs c er :
  ~ bom_prefix bs -> reference false bs = Err er -> reference e (bs ++ c) = Err er.
Proof.
  intros Hn H. rewrite reference_app by done. unfold reference in H.
  destruct (lines false [] (strip_bom bs)) as [ls rest]. simpl in H.
  by destruct (run_lines ls empty_block []) as [[b evs]|]; simplify_eq/=.
Qed.

Lemma short_lines_app bs c : short_lines (bs ++ c) -> short_lines bs.
Proof. intros H pre l post ->. apply (H pre l (post ++ c)). by rewrite <- !app_assoc. Qed.

Lemma feed_all_spec chunks bs evs p :
  after bs evs p -> exists r p', feed_all chunks p = Ret (r, p') /\
    match r with
    | Ok es => after (bs ++ concat chunks) (evs ++ es) p'
    | Err er => forall e, short_lines (bs ++ concat chunks) -> reference e (bs ++ concat chunks) = Err er
    end.
Proof.
  revert bs evs p. induction chunks as [|chunk chunks IH]; intros bs evs p Hp; simpl.
  { eexists _, _. split; [done|]. by rewrite !app_nil_r. }
  destruct (feed_spec bs evs p chunk Hp) as (r & p1 & E & Hr). rewrite E. simpl.
  destruct r as [es|er]; simpl in Hr.
  - destruct (IH _ _ _ Hr) as (r & p2 & E2 & Hr2). rewrite E2. simpl.
    eexists _, _. split; [done|]. destruct r as [es'|er]; simpl; by rewrite !app_assoc in *.
  - eexists _, _. split; [done|]. intros e Hs. rewrite app_assoc in Hs |- *.
    destruct Hr as [Hns|[Hb Href]]; [exfalso; by eapply Hns, short_lines_app|].
    by apply reference_err_app.
Qed.

Lemma finish_spec bs evs p :
  after bs evs p -> exists r p', finish p = Ret (r, p') /\
    match r with
    | Ok es => reference true bs = Ok (evs ++ es)
    | Err er => short_lines bs -> reference true bs = Err er
    end.
Proof.
  intros Hp. unfold finish.
  assert (Hgo : forall cur b0 n ls0, term_free (take n cur) -> n <= length cur ->
    run_lines ls0 empty_block [] = Ok (b0, evs) ->
    (let '(ls, rest) := lines true [] cur in lines true [] (strip_bom bs) = (ls0 ++ ls, rest)) ->
    exists r p', pump_lines true (mkParser cur n false b0) = Ret (r, p') /\
    match r with
    | Ok es => reference true bs = Ok (evs ++ es)
    | Err er => short_lines bs -> reference true bs = Err er
    end).
  { intros cur b0 n ls0 Hfree Hn Hrun Hlines.
    pose proof (pump_lines_spec true (mkParser cur n false b0) Hfree Hn) as H. simpl buf in H.
    unfold reference. pose proof (leftover_seg true bs) as Hseg.
    destruct (lines true [] cur) as [ls rest]. simpl block in H. rewrite Hlines in *. simpl in Hseg |- *.
    rewrite run_lines_app, Hrun. simpl. rewrite run_lines_events.
    destruct (run_lines ls b0 []) as [[b1 es]|er]; [|destruct H as [p' ->]; by eexists _, _].
    rewrite H. eexists _, _. split; [done|]. destruct (decide _); [|done]. intros Hs. by destruct Hseg. }
  assert (exists r p', pump true p = Ret (r, p') /\
    match r with
    | Ok es => reference true bs = Ok (evs ++ es)
    | Err er => short_lines bs -> reference true bs = Err er
    end) as (r & p' & -> & Hr).
  { unfold pump, after in *. destruct (bom_pending p) eqn:Hb.
    - destruct Hp as (-> & Hpre & -> & -> & Hsc).
      replace (bom_waits true bs) with false by (unfold bom_waits; by rewrite andb_false_r).
      apply (Hgo (strip_bom bs) empty_block 0 []); [constructor|lia|done|].
      by destruct (lines true [] (strip_bom bs)).
    - destruct Hp as [Hnb Hp].
      destruct (lines false [] (strip_bom bs)) as [ls0 rest] eqn:El.
      destruct Hp as (Hbuf & Hsc & Hmax & Hrun).
      destruct p as [buf0 sc0 bp0 b0]. simpl in *. subst. apply (Hgo rest b0 _ ls0); [|by apply held_len_le|done|].
      + apply held_len_take.
      + rewrite <- (app_nil_r (strip_bom bs)), (lines_app true [] (strip_bom bs)) by constructor.
        rewrite El, app_nil_r. by destruct (lines true [] rest). }
  cbn [obind]. destruct r; eexists _, _; by split.
Qed.

Lemma parse_all_spec chunks :
  exists r, parse_all chunks = Ret r /\
    match r with
    | Ok es => reference true (concat chunks) = Ok es
    | Err er => short_lines (concat chunks) -> reference true (concat chunks) = Err er
    end.
Proof.
  unfold parse_all. destruct (feed_all_spec chunks [] [] new after_new) as (r & p & E & Hr).
  rewrite E. simpl in *. destruct r as [es|er]; [|eexists; split; [done|]; exact (Hr true)].
  destruct (finish_spec _ _ _ Hr) as (r & p' & E' & Hr'). rewrite E'. simpl.
  destruct r as [es'|er]; simpl; eexists; by split.
Qed.

(** * Bounds *)

Definition block_ok (b : Block) : Prop :=
  (zlen (event_type b) <= MAX_LINE_BYTES)%Z /\ (zlen (block_data b) <= MAX_DATA_BYTES)%Z.

Lemma field_value_length text : (zlen (snd (field_value text)) <= zlen text)%Z.
Proof.
  unfold field_value, split_once. destruct (position _ _) as [i|]; simpl; [|unfold zlen; simpl; lia].
  assert (H : forall l : bytes, (zlen (default l (strip_prefix [SPACE] l)) <= zlen l)%Z).
  { intros l. destruct (strip_prefix [SPACE] l) as [r|] eqn:E; simpl; [|lia].
    apply strip_prefix_Some in E as ->. rewrite zlen_app. pose proof (zlen_nonneg [SPACE]). lia. }
  etrans; [apply H|]. unfold zlen. rewrite length_drop. lia.
Qed.

Lemma line_block_ok b l evs b' evs' : line b l evs = Ok (b', evs') -> block_ok b -> block_ok b'.
Proof.
  unfold line. intros H Hb. destruct (decide _) as [|Hl]; [done|].
  unfold from_utf8 in H. destruct (utf8_valid l); [|done]. simpl in H.
  destruct (decide _).
  { unfold dispatch in H. destruct (decide _); simplify_eq; by split. }
  destruct (starts_with _ _); [by simplify_eq|].
  pose proof (field_value_length l) as Hv. destruct (field_value l) as [f v]. simpl in Hv.
  destruct (decide _); [simplify_eq; split; simpl; [lia|apply Hb]|].
  destruct (decide _); [|by simplify_eq].
  destruct (decide _) as [|Hd]; [done|]. simplify_eq. split; simpl; [apply Hb|].
  rewrite !zlen_app. change (zlen [LF]) with 1%Z. lia.
Qed.

Lemma run_lines_block_ok ls b evs b' evs' :
  run_lines ls b evs = Ok (b', evs') -> block_ok b -> block_ok b'.
Proof.
  revert b evs. induction ls as [|l ls IH]; intros b evs H Hb; simpl in H; [by simplify_eq|].
  destruct (line b l evs) as [[b1 evs1]|] eqn:E; [|done]. simpl in H.
  eapply IH; [done|]. by eapply line_block_ok.
Qed.

Lemma after_bounded bs evs p :
  after bs evs p -> (zlen (buf p) <= MAX_LINE_BYTES + 1)%Z /\ block_ok (block p).
Proof.
  unfold after. destruct (bom_pending p).
  - intros (-> & [Hl _] & _ & -> & _). split; [|by split].
    unfold zlen. change (length BOM) with 3 in Hl. unfold MAX_LINE_BYTES. lia.
  - intros [_ H]. pose proof (lines_leftover false [] (strip_bom bs) ltac:(constructor)) as Hlo.
    destruct (lines false [] (strip_bom bs)) as [ls rest]. simpl in Hlo.
    destruct H as (-> & -> & Hmax & Hrun). split; [|by eapply run_lines_block_ok].
    destruct Hlo as [Hf|(_ & pre & -> & Hf)].
    + rewrite held_len_free in Hmax by done. unfold zlen. lia.
    + rewrite held_len_cr in Hmax by done. rewrite zlen_app. change (zlen [CR]) with 1%Z. unfold zlen. lia.
Qed.

(** * Streams written by a server *)

Definition lf_lines (ls : list bytes) : bytes := concat (map (fun l => l ++ [LF]) ls).

Lemma lines_lf e ls : Forall term_free ls -> lines e [] (lf_lines ls) = (ls, []).
Proof.
  induction 1 as [|l ls Hl _ IH]; [done|]. unfold lf_lines in *. simpl.
  rewrite <- app_assoc, lines_nil_free by done. cbn [app lines]. rewrite decide_True by done.
  by rewrite IH.
Qed.

Lemma term_free_split l r pre seg post :
  l ++ LF :: r = pre ++ seg ++ post -> term_free seg ->
  (zlen seg <= zlen l)%Z \/ exists pre', r = pre' ++ seg ++ post.
Proof.
  intros E Hseg. destruct (decide (length pre <= length l)) as [Hle|Hgt].
  - left. unfold zlen. destruct (decide (length pre + length seg <= length l)); [lia|]. exfalso.
    assert (Hlf : seg !! (length l - length pre) = Some LF).
    { rewrite <- (lookup_app_l seg post) by lia. rewrite <- (lookup_app_r pre) by lia.
      rewrite <- E. rewrite lookup_app_r, Nat.sub_diag by lia. done. }
    unfold term_free in Hseg. rewrite Forall_lookup in Hseg. by specialize (Hseg _ _ Hlf).
  - right. exists (drop (S (length l)) pre).
    rewrite <- drop_app_le by lia. rewrite <- E.
    rewrite drop_app_ge by lia. by replace (S (length l) - length l) with 1 by lia.
Qed.

Lemma short_lines_lf ls :
  Forall (fun l => zlen l <= MAX_LINE_BYTES)%Z ls -> short_lines (lf_lines ls).
Proof.
  induction 1 as [|l ls Hl _ IH]; intros pre seg post E Hseg.
  - symmetry in E. apply app_nil in E as [_ E]. apply app_nil in E as [-> _]. unfold zlen. simpl. done.
  - unfold lf_lines in E. simpl in E. rewrite <- app_assoc in E. simpl in E.
    destruct (term_free_split _ _ _ _ _ E Hseg) as [Hle|[pre' E']]; [lia|]. by eapply IH.
Qed.

Definition event_line (e : bytes) : bytes := EVENT ++ [COLON; SPACE] ++ e.
Definition data_line (l : bytes) : bytes := DATA ++ [COLON; SPACE] ++ l.

(** One event as a server writes it: its type, its data lines, a blank line. *)
Definition event_lines (ev : bytes * list bytes) : list bytes :=
  event_line (fst ev) :: map data_line (snd ev) ++ [[]].

Fixpoint join_lf (ls : list bytes) : bytes :=
  match ls with
  | [] => []
  | [l] => l
  | l :: ls => l ++ LF :: join_lf ls
  end.

(** What a written event parses to. *)
Definition written (ev : bytes * list bytes) : SseEvent := mkEvent (fst ev) (join_lf (snd ev)).

(** A field value that survives: one line of UTF-8, within the line cap. *)
Definition field_ok (l : bytes) : Prop :=
  term_free l /\ utf8_valid l = true /\ (zlen l + 7 <= MAX_LINE_BYTES)%Z.

Definition event_ok (ev : bytes * list bytes) : Prop :=
  field_ok (fst ev) /\ snd ev <> [] /\ Forall field_ok (snd ev) /\
  (zlen (lf_lines (snd ev)) <= MAX_DATA_BYTES)%Z.

Lemma join_lf_lines ls : ls <> [] -> lf_lines ls = join_lf ls ++ [LF].
Proof.
  induction ls as [|l ls IH]; [done|]. intros _. destruct ls as [|l' ls].
  - unfold lf_lines. simpl. by rewrite app_nil_r.
  - change (lf_lines (l :: l' :: ls)) with ((l ++ [LF]) ++ lf_lines (l' :: ls)).
    rewrite IH by done. cbn [join_lf]. by rewrite <- !app_assoc.
Qed.

Lemma from_utf8_ascii_app a l : ascii_only a -> utf8_valid l = true -> from_utf8 (a ++ l) = Some (a ++ l).
Proof. intros Ha Hl. unfold from_utf8. by rewrite utf8_ascii_app, Hl. Qed.

Lemma ascii_names : ascii_only (EVENT ++ [COLON; SPACE]) /\ ascii_only (DATA ++ [COLON; SPACE]).
Proof. split; repeat (apply Forall_cons; split; [unfold COLON, SPACE; lia|]); constructor. Qed.

Lemma line_event e b evs :
  field_ok e -> line b (event_line e) evs = Ok (mkBlock e (block_data b), evs).
Proof.
  intros (_ & Hu & Hl). unfold line, event_line. rewrite decide_False.
  - rewrite app_assoc, from_utf8_ascii_app by (done || apply ascii_names). done.
  - rewrite !zlen_app. change (zlen EVENT) with 5%Z. change (zlen [COLON; SPACE]) with 2%Z. lia.
Qed.

Lemma line_data l b evs :
  field_ok l -> (zlen (block_data b) + zlen l + 1 <= MAX_DATA_BYTES)%Z ->
  line b (data_line l) evs = Ok (mkBlock (event_type b) ((block_data b ++ l) ++ [LF]), evs).
Proof.
  intros (_ & Hu & Hl) Hd. unfold line, data_line. rewrite decide_False.
  - rewrite app_assoc, from_utf8_ascii_app by (done || apply ascii_names).
    cbn [ok_or rbind]. rewrite decide_False by done.
    replace (starts_with [COLON] ((DATA ++ [COLON; SPACE]) ++ l)) with false by done.
    replace (field_value ((DATA ++ [COLON; SPACE]) ++ l)) with (DATA, l) by done.
    rewrite (decide_False (P := DATA = EVENT)) by done. rewrite (decide_True (P := DATA = DATA)) by done.
    by rewrite decide_False by lia.
  - rewrite !zlen_app. change (zlen DATA) with 4%Z. change (zlen [COLON; SPACE]) with 2%Z. lia.
Qed.

Lemma run_data ls b evs :
  Forall field_ok ls -> (zlen (block_data b) + zlen (lf_lines ls) <= MAX_DATA_BYTES)%Z ->
  run_lines (map data_line ls) b evs =
    Ok (mkBlock (event_type b) (block_data b ++ lf_lines ls), evs).
Proof.
  intros Hls. revert b. induction Hls as [|l ls Hl _ IH]; intros b Hd.
  { unfold lf_lines. simpl. rewrite app_nil_r. by destruct b. }
  change (lf_lines (l :: ls)) with ((l ++ [LF]) ++ lf_lines ls) in *.
  rewrite !zlen_app in Hd. change (zlen [LF]) with 1%Z in Hd. pose proof (zlen_nonneg (lf_lines ls)).
  simpl map. cbn [run_lines]. rewrite line_data by (done || lia). cbn [rbind]. rewrite IH; simpl.
  - by rewrite <- !app_assoc.
  - rewrite !zlen_app. change (zlen [LF]) with 1%Z. lia.
Qed.

Lemma line_blank b evs : line b [] evs = Ok (dispatch b evs).
Proof. unfold line. by rewrite decide_False. Qed.

Lemma run_event ev evs :
  event_ok ev -> run_lines (event_lines ev) empty_block evs = Ok (empty_block, evs ++ [written ev]).
Proof.
  destruct ev as [e ls]. intros (He & Hne & Hls & Hd). unfold event_lines. simpl fst in *. simpl snd in *.
  cbn [run_lines]. rewrite line_event by done. cbn [rbind]. rewrite run_lines_app, run_data by done.
  cbn [rbind]. cbn [run_lines event_type block_data empty_block app].
  rewrite line_blank. cbn [rbind]. unfold dispatch. cbn [block_data event_type].
  rewrite join_lf_lines by done. rewrite decide_False by (by destruct (join_lf ls)).
  by rewrite removelast_last.
Qed.

Definition stream_of (evs : list (bytes * list bytes)) : bytes := lf_lines (concat (map event_lines evs)).

Lemma run_events evs out :
  Forall event_ok evs ->
  run_lines (concat (map event_lines evs)) empty_block out = Ok (empty_block, out ++ map written evs).
Proof.
  intros H. revert out. induction H as [|ev evs He _ IH]; intros out; [by rewrite app_nil_r|].
  cbn [map concat]. rewrite run_lines_app, run_event by done. cbn [rbind]. rewrite IH. simpl.
  by rewrite <- app_assoc.
Qed.

Lemma event_lines_ok ev :
  event_ok ev -> Forall term_free (event_lines ev) /\
    Forall (fun l => zlen l <= MAX_LINE_BYTES)%Z (event_lines ev).
Proof.
  intros ((Hf & _ & Hl) & _ & Hls & _). unfold event_lines, event_line, data_line.
  split; (apply Forall_cons; split; [|apply Forall_app; split; [apply Forall_map|]]).
  - by apply term_free_app; split; [|apply term_free_app; split]; [repeat constructor..|].
  - eapply Forall_impl; [done|]. intros l (Hfl & _). simpl.
    apply (term_free_app (DATA ++ [COLON; SPACE])). by split; [repeat constructor|].
  - repeat constructor.
  - rewrite !zlen_app. change (zlen EVENT) with 5%Z. change (zlen [COLON; SPACE]) with 2%Z. lia.
  - eapply Forall_impl; [done|]. intros l (_ & _ & Hl'). simpl.
    change (100 :: 97 :: 116 :: 97 :: COLON :: SPACE :: l)%Z with ((DATA ++ [COLON; SPACE]) ++ l).
    rewrite zlen_app. change (zlen (DATA ++ [COLON; SPACE])) with 6%Z. lia.
  - constructor; [|constructor]. unfold zlen. done.
Qed.

Lemma stream_lines_ok evs :
  Forall event_ok evs -> Forall term_free (concat (map event_lines evs)) /\
    Forall (fun l => zlen l <= MAX_LINE_BYTES)%Z (concat (map event_lines evs)).
Proof.
  induction 1 as [|ev evs He _ [IH1 IH2]]; cbn [map concat]; [by split|].
  destruct (event_lines_ok ev He). split; by apply Forall_app.
Qed.

Lemma strip_bom_stream evs : strip_bom (stream_of evs) = stream_of evs.
Proof. by destruct evs as [|[e ls] evs]. Qed.

(** * The byte-order mark and the line cap *)

(** A line of [n] letters [x]: an unknown field, ignored. *)
Definition xs (n : nat) : bytes := replicate n 120%Z.

Lemma xs_free n : term_free (xs n).
Proof. by apply Forall_replicate. Qed.

Lemma xs_utf8 n : utf8_valid (xs n) = true.
Proof. apply utf8_ascii, Forall_replicate. lia. Qed.

Lemma line_xs n b evs :
  n <> 0 -> (Z.of_nat n <= MAX_LINE_BYTES)%Z -> line b (xs n) evs = Ok (b, evs).
Proof.
  intros Hn Hl. unfold line. rewrite decide_False by (unfold zlen, xs; rewrite length_replicate; lia).
  unfold from_utf8. rewrite xs_utf8. cbn [ok_or rbind].
  assert (Hs : split_once COLON (xs n) = None).
  { unfold split_once. rewrite (proj2 (position_None _ _)); [done|]. by apply Forall_replicate. }
  destruct n as [|n]; [done|]. change (xs (S n)) with (120%Z :: xs n) in *.
  rewrite decide_False by done. change (starts_with [COLON] (120%Z :: xs n)) with false.
  unfold field_value. rewrite Hs. by rewrite !decide_False.
Qed.

Lemma feed_xs n :
  n <> 0 -> (Z.of_nat n <= MAX_LINE_BYTES)%Z ->
  feed (xs n ++ [LF]) (mkParser [] 0 false empty_block) =
    Ret (Ok [], mkParser [] 0 false empty_block).
Proof.
  intros Hn Hl. unfold feed. cbn [bom_pending buf scanned block app last].
  rewrite decide_False by (by destruct (xs n)). rewrite position_app by (done || apply xs_free).
  rewrite (bool_decide_false (_ < _)%Z); [|simpl; unfold xs; rewrite length_replicate; lia].
  rewrite andb_false_r. unfold pump. cbn [bom_pending].
  pose proof (pump_lines_spec false (mkParser (xs n ++ [LF]) 0 false empty_block)) as H.
  assert (El : lines false [] (xs n ++ [LF]) = ([xs n], [])) by (by rewrite lines_nil_free by apply xs_free).
  assert (Er : run_lines [xs n] empty_block [] = Ok (empty_block, [])).
  { cbn [run_lines]. by rewrite line_xs. }
  cbn [buf block] in H. rewrite El, Er in H. rewrite H; [done|constructor|unfold cursor_ok; simpl; lia].
Qed.

Lemma cap_nat : exists n, Z.of_nat n = MAX_LINE_BYTES.
Proof. exists (Z.to_nat MAX_LINE_BYTES). by rewrite Z2Nat.id. Qed.

Lemma feed_bom_xs n :
  (MAX_LINE_BYTES < Z.of_nat n + 3)%Z ->
  feed (BOM ++ xs n ++ [LF]) new = Ret (Err (Overrun "line" MAX_LINE_BYTES), new).
Proof.
  intros Hn. unfold feed. rewrite decide_False by done.
  match goal with |- (if ?c then _ else _) = _ => assert (Hc : c = true) end; [|by rewrite Hc].
  apply andb_true_iff. split; [done|]. apply bool_decide_eq_true. simpl bom_pending. cbn [new buf length].
  rewrite app_assoc, position_app; [|repeat constructor; apply xs_free|done].
  cbn [default from_option]. unfold id, xs. rewrite length_app, length_replicate. simpl length. lia.
Qed.

(** * Properties *)

(** C37.  What the parser answers for a response does not depend on how the
    network cuts it into chunks: every chunking returns, an accepted response's
    events are exactly the ones of the whole byte string (lines ended by CR, LF
    or CRLF, one leading byte-order mark removed, blank lines dispatching), and
    when no terminator-free stretch exceeds the line cap the answer, errors
    included, is the reference's. *)
Theorem sse_chunking chunks :
  exists r, parse_all chunks = Ret r /\
    (is_ok r = true -> r = reference true (concat chunks)) /\
    (short_lines (concat chunks) -> r = reference true (concat chunks)).
Proof.
  destruct (parse_all_spec chunks) as (r & E & Hr). exists r. split; [done|].
  destruct r as [es|er]; split; intros H; [done..|]. symmetry. by apply Hr.
Qed.

(** Round trip: the events a server writes (a type line, data lines, a
    blank line, each field one line of UTF-8 within the caps) are parsed back,
    in order and unchanged, whatever chunks the stream arrives in. *)
Theorem sse_roundtrip evs chunks :
  Forall event_ok evs -> concat chunks = stream_of evs ->
  parse_all chunks = Ret (Ok (map written evs)).
Proof.
  intros Hevs Hc. destruct (stream_lines_ok evs Hevs) as [Hfree Hshort].
  assert (Href : reference true (concat chunks) = Ok (map written evs)).
  { rewrite Hc. unfold reference. rewrite strip_bom_stream. unfold stream_of.
    rewrite lines_lf by done. simpl. by rewrite run_events. }
  destruct (parse_all_spec chunks) as (r & -> & Hr). destruct r as [es|er]; [congruence|].
  rewrite Hc in Hr. specialize (Hr (short_lines_lf _ Hshort)). congruence.
Qed.

(** Hostile input cannot grow the parser: after any accepted prefix the
    buffered bytes are at most one capped line and a held CR, and the pending
    block's fields stay within their caps. *)
Theorem sse_memory_bounded chunks evs p :
  feed_all chunks new = Ret (Ok evs, p) ->
  (zlen (buf p) <= MAX_LINE_BYTES + 1)%Z /\ (zlen (event_type (block p)) <= MAX_LINE_BYTES)%Z /\
  (zlen (block_data (block p)) <= MAX_DATA_BYTES)%Z /\ scanned p <= length (buf p).
Proof.
  intros H. destruct (feed_all_spec chunks [] [] new after_new) as (r & p' & E & Hr).
  rewrite H in E. injection E as <- <-. simpl in Hr.
  destruct (after_bounded _ _ _ Hr) as (Hb & He & Hd). split_and!; [done..|].
  unfold after in Hr. destruct (bom_pending p); [destruct Hr as (_ & _ & _ & _ & ->); lia|].
  destruct Hr as [_ Hr]. destruct (lines _ _ _) as [ls rest]. destruct Hr as (-> & -> & _).
  apply held_len_le.
Qed.

(** No panic and no endless loop, whatever was fed before and whatever
    errors it met: a parser whose scan cursor is within its buffer, which the
    fresh one is, answers every further feed and the end of the stream, and
    keeps its cursor within its buffer. *)
Theorem sse_never_panics :
  cursor_ok new /\
  forall p, cursor_ok p ->
    (forall chunk, exists r p', feed chunk p = Ret (r, p') /\ cursor_ok p') /\
    (exists r p', finish p = Ret (r, p') /\ cursor_ok p').
Proof.
  split; [unfold cursor_ok; simpl; lia|]. intros p Hp. split; [intros chunk; by apply feed_total|by apply finish_total].
Qed.

(** The one place a chunk boundary does matter: a first line that fills the
    cap, behind a byte-order mark.  In one chunk the pre-check of [feed] counts
    the mark's three bytes into the line and refuses the stream; with the mark
    in a chunk of its own the same bytes are accepted. *)
Theorem bom_counts_into_the_first_line :
  exists chunks1 chunks2, concat chunks1 = concat chunks2 /\
    parse_all chunks1 = Ret (Err (Overrun "line" MAX_LINE_BYTES)) /\
    parse_all chunks2 = Ret (Ok []).
Proof.
  destruct cap_nat as [n Hn]. assert (Hpos : n <> 0) by (unfold MAX_LINE_BYTES in Hn; lia).
  exists [BOM ++ xs n ++ [LF]], [BOM; xs n ++ [LF]]. split_and!.
  - cbn [concat]. by rewrite !app_nil_r.
  - unfold parse_all. cbn [feed_all]. by rewrite feed_bom_xs by lia.
  - unfold parse_all. cbn [feed_all]. replace (feed BOM new) with (Ret (@Ok (list SseEvent) SseError [],
      mkParser [] 0 false empty_block)) by done.
    cbn [obind]. rewrite feed_xs by (done || lia). done.
Qed.

(** * Witnesses *)

Definition hello : bytes * list bytes := (DATA, [EVENT; DATA]).

Lemma hello_ok : event_ok hello.
Proof.
  assert (Hf : field_ok EVENT /\ field_ok DATA).
  { split; (split_and!; [repeat constructor|done|by vm_compute]). }
  destruct Hf. split_and!; [done|done|by repeat constructor|by vm_compute].
Qed.

Lemma sse_roundtrip_witness :
  parse_all (map (fun b => [b]) (stream_of [hello; hello])) = Ret (Ok (map written [hello; hello])).
Proof.
  apply (sse_roundtrip [hello; hello] (map (fun b => [b]) (stream_of [hello; hello]))).
  - pose proof hello_ok. by repeat constructor.
  - by vm_compute.
Defined.

Lemma sse_memory_bounded_witness :
  exists evs p, feed_all [stream_of [hello]; [100%Z]] new = Ret (Ok evs, p) /\
    (zlen (buf p) <= MAX_LINE_BYTES + 1)%Z.
Proof.
  eexists _, _. split; [vm_compute; reflexivity|].
  refine (proj1 (sse_memory_bounded [stream_of [hello]; [100%Z]] _ _ _)). vm_compute. reflexivity.
Defined.
