(* ===== verification/EventStream.v ===== *)
(** The AWS event-stream decoder ([src/src/providers/eventstream.rs]): length
    framing over arbitrary reads, typed headers, the per-frame and per-stream
    bounds, and the end-of-stream check.  [usize] is 64 bits wide, so the
    conversions from [u32] are exact. *)

From S2P Require Import Prelude.
From S2P Require Import Utf8.

Definition MAX_EVENTSTREAM_FRAME_BYTES : Z := 1024 * 1024.
Definition MAX_EVENTSTREAM_BYTES : Z := 8 * 1024 * 1024.

Inductive EventStreamError :=
  | FrameTooLarge (length limit : Z)
  | StreamTooLarge (limit : Z)
  | TruncatedFrame (declared remaining : Z)
  | MalformedFrame
  | MalformedHeader.

Record Frame := mkFrame {
  message_type : option bytes;
  event_type : option bytes;
  exception_type : option bytes;
  payload : bytes;
}.

Record EventStreamDecoder := mkDecoder {
  buffer : bytes;
  consumed : Z;
}.

(** [EventStreamDecoder::new] *)
Definition new : EventStreamDecoder := mkDecoder [] 0.

(** [u32::from_be_bytes] and [u16::from_be_bytes] *)
Definition be (bs : bytes) : Z := foldl (fun acc b => acc * 256 + b)%Z 0%Z bs.

(** [bytes.get(from..to)] *)
Definition get (bs : bytes) (from to : nat) : option bytes :=
  if decide (from <= to /\ to <= length bs) then Some (take (to - from) (drop from bs)) else None.

Definition read_u32 (bs : bytes) (offset : nat) : result Z EventStreamError :=
  let? chunk := ok_or (get bs offset (offset + 4)) MalformedFrame in Ok (be chunk).

(** [split] *)
Definition split (bs : bytes) (length : Z) : result (bytes * bytes) EventStreamError :=
  if decide (zlen bs < length)%Z then Err MalformedHeader
  else Ok (take (Z.to_nat length) bs, drop (Z.to_nat length) bs).

Definition split_first (bs : bytes) : result (Z * bytes) EventStreamError :=
  match bs with [] => Err MalformedHeader | b :: rest => Ok (b, rest) end.

(** The bytes a value of a type takes, and where they start. *)
Definition value_length (value_type : Z) (bs : bytes) : result (Z * bytes) EventStreamError :=
  if decide (value_type = 2)%Z then Ok (1%Z, bs)
  else if decide (value_type = 3)%Z then Ok (2%Z, bs)
  else if decide (value_type = 4)%Z then Ok (4%Z, bs)
  else if decide (value_type = 5 \/ value_type = 8)%Z then Ok (8%Z, bs)
  else if decide (value_type = 6 \/ value_type = 7)%Z then
    let? (length, rest) := split bs 2 in Ok (be length, rest)
  else if decide (value_type = 9)%Z then Ok (16%Z, bs)
  else Err MalformedHeader.

Definition header_value (value_type : Z) (bs : bytes)
    : result (option bytes * bytes) EventStreamError :=
  if decide (value_type = 0 \/ value_type = 1)%Z then Ok (None, bs)
  else
    let? (length, rest) := value_length value_type bs in
    let? (value, rest) := split rest length in
    if decide (value_type = 7)%Z then
      let? value := ok_or (from_utf8 value) MalformedHeader in Ok (Some value, rest)
    else Ok (None, rest).

(** The loop of [parse_headers]; every round consumes at least two bytes. *)
Fixpoint parse_headers_loop (fuel : nat) (bs : bytes) (headers : gmap bytes bytes)
    : outcome (result (gmap bytes bytes) EventStreamError) :=
  match fuel with
  | O => Diverge
  | S fuel =>
      if decide (bs = []) then Ret (Ok headers)
      else
        match
          (let? (name_length, rest) := split_first bs in
           let? (name, rest) := split rest name_length in
           let? name := ok_or (from_utf8 name) MalformedHeader in
           let? (value_type, rest) := split_first rest in
           let? (value, rest) := header_value value_type rest in
           Ok (match value with Some value => <[name := value]> headers | None => headers end, rest))
        with
        | Err e => Ret (Err e)
        | Ok (headers, rest) => parse_headers_loop fuel rest headers
        end
  end.

Definition parse_headers (bs : bytes) : outcome (result (gmap bytes bytes) EventStreamError) :=
  parse_headers_loop (S (length bs)) bs ∅.

(** [":message-type"], [":event-type"], [":exception-type"] *)
Definition MESSAGE_TYPE : bytes := [58; 109; 101; 115; 115; 97; 103; 101; 45; 116; 121; 112; 101]%Z.
Definition EVENT_TYPE : bytes := [58; 101; 118; 101; 110; 116; 45; 116; 121; 112; 101]%Z.
Definition EXCEPTION_TYPE : bytes :=
  [58; 101; 120; 99; 101; 112; 116; 105; 111; 110; 45; 116; 121; 112; 101]%Z.

(** The header and payload bytes of a message whose [total] bytes are there. *)
Definition frame_parts (buf : bytes) (total headers_length : Z)
    : result (bytes * bytes) EventStreamError :=
  let? frame := ok_or (get buf 0 (Z.to_nat total)) MalformedFrame in
  let? headers_end := ok_or (checked_add usize_max 12 headers_length) MalformedFrame in
  let? payload_end := ok_or (checked_sub total 4) MalformedFrame in
  let? header_bytes := ok_or (get frame 12 (Z.to_nat headers_end)) MalformedFrame in
  let? payload := ok_or (get frame (Z.to_nat headers_end) (Z.to_nat payload_end)) MalformedFrame in
  Ok (header_bytes, payload).

(** The two lengths of a prelude, within the bounds. *)
Definition read_prelude (prelude : bytes) : result (Z * Z) EventStreamError :=
  let? total := read_u32 prelude 0 in
  let? headers_length := read_u32 prelude 4 in
  if decide (total < 16 \/ total - 16 < headers_length)%Z then Err MalformedFrame
  else if decide (MAX_EVENTSTREAM_FRAME_BYTES < total)%Z
  then Err (FrameTooLarge total MAX_EVENTSTREAM_FRAME_BYTES)
  else Ok (total, headers_length).

(** [next_frame]: the frame and the buffer after it; [None] waits for more. *)
Definition next_frame (buf : bytes) : outcome (result (option (Frame * bytes)) EventStreamError) :=
  match get buf 0 12 with
  | None => Ret (Ok None)
  | Some prelude =>
      match read_prelude prelude with
      | Err e => Ret (Err e)
      | Ok (total, headers_length) =>
          if decide (zlen buf < total)%Z then Ret (Ok None)
          else
            match frame_parts buf total headers_length with
            | Err e => Ret (Err e)
            | Ok (header_bytes, payload) =>
                let* headers := parse_headers header_bytes in
                match headers with
                | Err e => Ret (Err e)
                | Ok headers =>
                    Ret (Ok (Some
                      (mkFrame (headers !! MESSAGE_TYPE) (headers !! EVENT_TYPE)
                         (headers !! EXCEPTION_TYPE) payload,
                       drop (Z.to_nat total) buf)))
                end
            end
      end
  end.

(** [while let Some(frame) = self.next_frame()? { frames.push(frame) }]; each
    frame takes at least 16 bytes. *)
Fixpoint drain (fuel : nat) (buf : bytes) (frames : list Frame)
    : outcome (result (list Frame) EventStreamError * bytes) :=
  match fuel with
  | O => Diverge
  | S fuel =>
      let* next := next_frame buf in
      match next with
      | Err e => Ret (Err e, buf)
      | Ok None => Ret (Ok frames, buf)
      | Ok (Some (frame, rest)) => drain fuel rest (frames ++ [frame])
      end
  end.

(** [EventStreamDecoder::feed] *)
Definition feed (bs : bytes) (d : EventStreamDecoder)
    : outcome (result (list Frame) EventStreamError * EventStreamDecoder) :=
  let total := saturating_add usize_max (consumed d) (zlen bs) in
  if decide (MAX_EVENTSTREAM_BYTES < total)%Z
  then Ret (Err (StreamTooLarge MAX_EVENTSTREAM_BYTES), d)
  else
    let buf := buffer d ++ bs in
    let* (r, buf) := drain (S (length buf)) buf [] in
    Ret (r, mkDecoder buf total).

(** [EventStreamDecoder::finish] *)
Definition finish (d : EventStreamDecoder) : result unit EventStreamError :=
  if decide (buffer d = []) then Ok tt
  else Err (TruncatedFrame (default 0%Z (be <$> get (buffer d) 0 4)) (zlen (buffer d))).

(** A whole response: its reads in order, the first error ends it. *)
Fixpoint feed_all (chunks : list bytes) (d : EventStreamDecoder)
    : outcome (result (list Frame) EventStreamError * EventStreamDecoder) :=
  match chunks with
  | [] => Ret (Ok [], d)
  | chunk :: chunks =>
      let* (r, d) := feed chunk d in
      match r with
      | Err e => Ret (Err e, d)
      | Ok frames =>
          let* (r, d) := feed_all chunks d in
          Ret (let? frames' := r in Ok (frames ++ frames'), d)
      end
  end.

(** * The encoding the decoder reads *)

(** A value of each header type. *)
Inductive HeaderValue :=
  | HBool (b : bool)
  | HFixed (value_type : Z) (value : bytes)
  | HBytes (value : bytes)
  | HString (value : bytes).

Definition to_be32 (n : Z) : bytes :=
  [n / 16777216 mod 256; n / 65536 mod 256; n / 256 mod 256; n mod 256]%Z.
Definition to_be16 (n : Z) : bytes := [n / 256 mod 256; n mod 256]%Z.

Definition encode_value (v : HeaderValue) : bytes :=
  match v with
  | HBool true => [0%Z]
  | HBool false => [1%Z]
  | HFixed t value => t :: value
  | HBytes value => 6%Z :: to_be16 (zlen value) ++ value
  | HString value => 7%Z :: to_be16 (zlen value) ++ value
  end.

Definition encode_header (h : bytes * HeaderValue) : bytes :=
  zlen (fst h) :: fst h ++ encode_value (snd h).

Record Message := mkMessage {
  m_headers : list (bytes * HeaderValue);
  m_payload : bytes;
  m_prelude_crc : bytes;
  m_crc : bytes;
}.

Definition encode_headers (hs : list (bytes * HeaderValue)) : bytes := concat (map encode_header hs).

(** [total | headers-length | prelude-crc | headers | payload | crc] *)
Definition encode (m : Message) : bytes :=
  let headers := encode_headers (m_headers m) in
  to_be32 (16 + zlen headers + zlen (m_payload m)) ++ to_be32 (zlen headers) ++ m_prelude_crc m ++
  headers ++ m_payload m ++ m_crc m.

(** The string headers, a later one of the same name winning. *)
Definition insert_header (acc : gmap bytes bytes) (h : bytes * HeaderValue) : gmap bytes bytes :=
  match snd h with HString value => <[fst h := value]> acc | _ => acc end.

Definition frame_of (m : Message) : Frame :=
  let headers := foldl insert_header ∅ (m_headers m) in
  mkFrame (headers !! MESSAGE_TYPE) (headers !! EVENT_TYPE) (headers !! EXCEPTION_TYPE) (m_payload m).

(** * Properties

    Properties of the AWS event-stream decoder
    ([src/src/providers/eventstream.rs]): totality, independence of read
    boundaries, round trip with the encoding, truncation and bounds. *)

(** * Headers *)

Lemma split_Ok bs n v r : split bs n = Ok (v, r) -> bs = v ++ r.
Proof. unfold split. case_decide; intros; simplify_eq. by rewrite take_drop. Qed.

Lemma split_first_Ok bs b r : split_first bs = Ok (b, r) -> bs = b :: r.
Proof. destruct bs; intros; by simplify_eq/=. Qed.

Lemma value_length_suffix t bs n r : value_length t bs = Ok (n, r) -> exists p, bs = p ++ r.
Proof.
  unfold value_length. repeat case_decide; intros E; try (simplify_eq; by exists []); try done.
  inv_ret. simplify_eq. apply split_Ok in E0. eauto.
Qed.

Lemma header_value_suffix t bs v r : header_value t bs = Ok (v, r) -> exists p, bs = p ++ r.
Proof.
  unfold header_value. intros E. case_decide; [simplify_eq; by exists []|].
  destruct (value_length t bs) as [[n r1]|] eqn:E1; [|done]. simpl in E.
  apply value_length_suffix in E1 as [p1 ->].
  destruct (split r1 n) as [[v1 r2]|] eqn:E2; [|done]. simpl in E. apply split_Ok in E2 as ->.
  exists (p1 ++ v1). rewrite <- app_assoc. case_decide; [|by simplify_eq].
  destruct (ok_or _ _); by simplify_eq/=.
Qed.

(** One round of the header loop. *)
Definition header_round (bs : bytes) (headers : gmap bytes bytes)
    : result (gmap bytes bytes * bytes) EventStreamError :=
  let? (name_length, rest) := split_first bs in
  let? (name, rest) := split rest name_length in
  let? name := ok_or (from_utf8 name) MalformedHeader in
  let? (value_type, rest) := split_first rest in
  let? (value, rest) := header_value value_type rest in
  Ok (match value with Some value => <[name := value]> headers | None => headers end, rest).

Lemma header_round_shrinks bs headers headers' rest :
  header_round bs headers = Ok (headers', rest) -> length rest < length bs.
Proof.
  unfold header_round. intros E.
  destruct (split_first bs) as [[n r1]|] eqn:E1; [|done]. simpl in E. apply split_first_Ok in E1 as ->.
  destruct (split r1 n) as [[name r2]|] eqn:E2; [|done]. simpl in E. apply split_Ok in E2 as ->.
  destruct (ok_or _ _) as [name'|]; [|done]. simpl in E.
  destruct (split_first r2) as [[t r3]|] eqn:E3; [|done]. simpl in E. apply split_first_Ok in E3 as ->.
  destruct (header_value t r3) as [[v r4]|] eqn:E4; [|done]. simpl in E.
  apply header_value_suffix in E4 as [p ->]. simplify_eq. simpl. rewrite !length_app. simpl.
  rewrite length_app. lia.
Qed.

Lemma parse_headers_loop_total fuel bs headers :
  length bs < fuel -> exists r, parse_headers_loop fuel bs headers = Ret r.
Proof.
  revert bs headers. induction fuel as [|fuel IH]; intros bs headers Hf; [lia|].
  cbn [parse_headers_loop]. case_decide; [eauto|]. fold (header_round bs headers).
  destruct (header_round bs headers) as [[headers' rest]|e] eqn:E; [|eauto].
  apply IH. apply header_round_shrinks in E. lia.
Qed.

Lemma parse_headers_total bs : exists r, parse_headers bs = Ret r.
Proof. apply parse_headers_loop_total. lia. Qed.

(** * Frames *)

Lemma get_app b c from to x : get b from to = Some x -> get (b ++ c) from to = Some x.
Proof.
  unfold get. case_decide as H; [|done]. intros [= <-]. rewrite decide_True by (rewrite length_app; lia).
  rewrite drop_app_le by lia. rewrite take_app_le; [done|]. rewrite length_drop. lia.
Qed.

Lemma frame_parts_app b c total hl :
  (0 <= total <= zlen b)%Z -> frame_parts (b ++ c) total hl = frame_parts b total hl.
Proof.
  intros Ht. unfold frame_parts. assert (Hn : Z.to_nat total <= length b) by (unfold zlen in Ht; lia).
  assert (E : get b 0 (Z.to_nat total) = Some (take (Z.to_nat total) b)).
  { unfold get. rewrite decide_True by lia. by rewrite Nat.sub_0_r. }
  by rewrite E, (get_app _ _ _ _ _ E).
Qed.

Lemma read_prelude_Ok p total hl :
  read_prelude p = Ok (total, hl) -> (16 <= total <= MAX_EVENTSTREAM_FRAME_BYTES /\ hl <= total - 16)%Z.
Proof. unfold read_prelude. intros E. inv_ret. repeat case_decide; simplify_eq. lia. Qed.

(** A frame takes at least 16 bytes off the front of the buffer, and more input
    behind it changes neither the frame nor an error. *)
Lemma next_frame_spec b :
  exists r, next_frame b = Ret r /\
  match r with
  | Ok None => (zlen b < MAX_EVENTSTREAM_FRAME_BYTES)%Z
  | Ok (Some (f, rest)) => (exists p, b = p ++ rest /\ 16 <= length p) /\
      forall c, next_frame (b ++ c) = Ret (Ok (Some (f, rest ++ c)))
  | Err e => forall c, next_frame (b ++ c) = Ret (Err e)
  end.
Proof.
  unfold next_frame. destruct (get b 0 12) as [p|] eqn:Eg.
  - assert (Hg : forall c, get (b ++ c) 0 12 = Some p) by (intros c; by apply get_app).
    destruct (read_prelude p) as [[total hl]|e] eqn:Ep.
    + apply read_prelude_Ok in Ep as Hb. case_decide as Hlen.
      { eexists. split; [done|]. simpl. lia. }
      assert (Hc : forall c, ~ (zlen (b ++ c) < total)%Z).
      { intros c. rewrite zlen_app. pose proof (zlen_nonneg c). lia. }
      assert (Hf : forall c, frame_parts (b ++ c) total hl = frame_parts b total hl).
      { intros c. apply frame_parts_app. lia. }
      assert (Hd : Z.to_nat total <= length b) by (unfold zlen in Hlen; lia).
      destruct (frame_parts b total hl) as [[hs pl]|e].
      * destruct (parse_headers_total hs) as [[h|e] Eh]; rewrite Eh; cbn [obind]; eexists; (split; [done|]).
        -- split.
           ++ exists (take (Z.to_nat total) b). rewrite take_drop, length_take. split; [done|lia].
           ++ intros c. rewrite Hg, Ep, decide_False, Hf, Eh by done. cbn [obind].
              by rewrite drop_app_le by done.
        -- intros c. by rewrite Hg, Ep, decide_False, Hf, Eh by done.
      * eexists. split; [done|]. intros c. by rewrite Hg, Ep, decide_False, Hf by done.
    + eexists. split; [done|]. intros c. by rewrite Hg, Ep.
  - eexists. split; [done|]. simpl. unfold get in Eg. case_decide as Hl; [done|].
    unfold zlen, MAX_EVENTSTREAM_FRAME_BYTES. lia.
Qed.

(** * Draining a buffer, without fuel *)

Inductive Drains : bytes -> result (list Frame) EventStreamError -> bytes -> Prop :=
  | drains_wait b : next_frame b = Ret (Ok None) -> Drains b (Ok []) b
  | drains_err b e : next_frame b = Ret (Err e) -> Drains b (Err e) b
  | drains_frame b f rest r b' : next_frame b = Ret (Ok (Some (f, rest))) -> Drains rest r b' ->
      Drains b (let? fs := r in Ok (f :: fs)) b'.

Lemma Drains_det b r1 b1 r2 b2 : Drains b r1 b1 -> Drains b r2 b2 -> r1 = r2 /\ b1 = b2.
Proof.
  intros H1. revert r2 b2. induction H1 as [b E|b e E|b f rest r b' E _ IH]; intros r2 b2 H2;
    inversion H2 as [? E2|? ? E2|? ? ? ? ? E2 H2']; subst; rewrite E in E2; simplify_eq; [done..|].
  by destruct (IH _ _ H2') as [-> ->].
Qed.

Lemma drain_Drains fuel b frames :
  length b < fuel -> exists r b', Drains b r b' /\
    drain fuel b frames = Ret (let? fs := r in Ok (frames ++ fs), b').
Proof.
  revert b frames. induction fuel as [|fuel IH]; intros b frames Hf; [lia|].
  cbn [drain]. destruct (next_frame_spec b) as (r & E & Hr). rewrite E. cbn [obind].
  destruct r as [[[f rest]|]|e].
  - destruct Hr as [(p & -> & Hp) _]. rewrite length_app in Hf.
    destruct (IH rest (frames ++ [f])) as (r & b' & Hd & Ed); [lia|]. rewrite Ed.
    eexists _, _. split; [by eapply drains_frame|]. destruct r; simpl; by rewrite <- ?app_assoc.
  - eexists _, _. split; [by apply drains_wait|]. simpl. by rewrite app_nil_r.
  - eexists _, _. split; [by apply drains_err|]. done.
Qed.

Lemma Drains_app b r b' c :
  Drains b r b' ->
  match r with
  | Ok fs => forall r' b'', Drains (b' ++ c) r' b'' -> Drains (b ++ c) (let? gs := r' in Ok (fs ++ gs)) b''
  | Err e => exists b'', Drains (b ++ c) (Err e) b''
  end.
Proof.
  induction 1 as [b E|b e E|b f rest r b' E _ IH].
  - intros r' b'' H. replace (let? gs := r' in Ok ([] ++ gs)) with r' by (by destruct r'). done.
  - destruct (next_frame_spec b) as (r & E' & Hr). rewrite E in E'. simplify_eq.
    exists (b ++ c). by apply drains_err.
  - destruct (next_frame_spec b) as (r0 & E' & Hr). rewrite E in E'. simplify_eq.
    destruct Hr as [_ Hr]. destruct r as [fs|e]; simpl.
    + intros r' b'' H. specialize (IH _ _ H).
      replace (let? gs := r' in Ok (f :: fs ++ gs))
        with (let? hs := (let? gs := r' in Ok (fs ++ gs)) in @Ok _ EventStreamError (f :: hs)) by (by destruct r').
      eapply drains_frame; [apply Hr|done].
    + destruct IH as [b'' H]. exists b''.
      change (Err e) with (let? hs := (@Err (list Frame) _ e) in Ok (f :: hs)).
      eapply drains_frame; [apply Hr|done].
Qed.

Lemma Drains_rest b fs b' : Drains b (Ok fs) b' -> next_frame b' = Ret (Ok None).
Proof.
  remember (Ok fs) as r eqn:Er. intros H. revert fs Er.
  induction H as [b E|b e E|b f rest r b' E _ IH]; intros fs Er; [done..|].
  destruct r; [|done]. by eapply IH.
Qed.

(** * Feeds *)

(** The decoder after the bytes [bs], having answered [fs]. *)
Definition after (bs : bytes) (fs : list Frame) (d : EventStreamDecoder) : Prop :=
  consumed d = zlen bs /\ (zlen bs <= MAX_EVENTSTREAM_BYTES)%Z /\ Drains bs (Ok fs) (buffer d).

Lemma frames_after_new : after [] [] new.
Proof. split_and!; [done|done|by apply drains_wait]. Qed.

Lemma read_spec bs fs d c :
  after bs fs d -> exists r d', feed c d = Ret (r, d') /\
    match r with
    | Ok gs => after (bs ++ c) (fs ++ gs) d'
    | Err e => (MAX_EVENTSTREAM_BYTES < zlen (bs ++ c))%Z \/ exists b', Drains (bs ++ c) (Err e) b'
    end.
Proof.
  intros (Hc & Hm & Hd). unfold feed. rewrite Hc.
  assert (Hsat : (MAX_EVENTSTREAM_BYTES < saturating_add usize_max (zlen bs) (zlen c))%Z <->
                 (MAX_EVENTSTREAM_BYTES < zlen (bs ++ c))%Z).
  { unfold saturating_add, MAX_EVENTSTREAM_BYTES, usize_max, u64_max. rewrite zlen_app. lia. }
  case_decide as Hbig; [eexists _, _; split; [done|]; left; by apply Hsat|].
  destruct (drain_Drains (S (length (buffer d ++ c))) (buffer d ++ c) []) as (r & b' & Hr & ->); [lia|].
  cbn [obind]. pose proof (Drains_app bs (Ok fs) (buffer d) c Hd _ _ Hr) as H.
  eexists _, _. split; [done|]. destruct r as [gs|e]; simpl in *; [|right; eauto].
  assert (Hs : saturating_add usize_max (zlen bs) (zlen c) = zlen (bs ++ c)).
  { unfold saturating_add, MAX_EVENTSTREAM_BYTES, usize_max, u64_max in *. rewrite zlen_app in *. lia. }
  rewrite Hsat in Hbig. split_and!; [done|simpl; lia|done].
Qed.

Lemma read_all_spec chunks bs fs d :
  after bs fs d -> exists r d', feed_all chunks d = Ret (r, d') /\
    match r with
    | Ok gs => after (bs ++ concat chunks) (fs ++ gs) d'
    | Err e => (MAX_EVENTSTREAM_BYTES < zlen (bs ++ concat chunks))%Z \/
        exists b', Drains (bs ++ concat chunks) (Err e) b'
    end.
Proof.
  revert bs fs d. induction chunks as [|c chunks IH]; intros bs fs d H; cbn [feed_all concat].
  { eexists _, _. split; [done|]. by rewrite !app_nil_r. }
  destruct (read_spec bs fs d c H) as (r & d1 & E & Hr). rewrite E. cbn [obind].
  destruct r as [gs|e].
  - destruct (IH _ _ _ Hr) as (r & d2 & E2 & Hr2). rewrite E2. cbn [obind].
    eexists _, _. split; [done|]. destruct r; simpl; by rewrite !app_assoc in *.
  - eexists _, _. split; [done|]. rewrite app_assoc. destruct Hr as [Hb|[b' Hd]].
    + left. rewrite zlen_app. pose proof (zlen_nonneg (concat chunks)). lia.
    + right. by apply (Drains_app _ (Err e) b').
Qed.

(** * The encoding *)

Definition value_ok (v : HeaderValue) : Prop :=
  match v with
  | HBool _ => True
  | HFixed t value => (t, zlen value) ∈ [(2, 1); (3, 2); (4, 4); (5, 8); (8, 8); (9, 16)]%Z
  | HBytes value => (zlen value < 65536)%Z
  | HString value => (zlen value < 65536)%Z /\ utf8_valid value = true
  end.

Definition header_ok (h : bytes * HeaderValue) : Prop :=
  (zlen (fst h) < 256)%Z /\ utf8_valid (fst h) = true /\ value_ok (snd h).

Definition message_ok (m : Message) : Prop :=
  Forall header_ok (m_headers m) /\ length (m_prelude_crc m) = 4 /\ length (m_crc m) = 4 /\
  (zlen (encode m) <= MAX_EVENTSTREAM_FRAME_BYTES)%Z.

Lemma be_to_be16 n : (0 <= n < 65536)%Z -> be (to_be16 n) = n.
Proof. intros H. unfold be, to_be16. cbn [foldl]. Z.to_euclidean_division_equations. lia. Qed.

Lemma be_to_be32 n : (0 <= n < 4294967296)%Z -> be (to_be32 n) = n.
Proof. intros H. unfold be, to_be32. cbn [foldl]. Z.to_euclidean_division_equations. lia. Qed.

Lemma split_app v r : split (v ++ r) (zlen v) = Ok (v, r).
Proof.
  unfold split. rewrite decide_False by (rewrite zlen_app; pose proof (zlen_nonneg r); lia).
  unfold zlen. by rewrite Nat2Z.id, take_app_length, drop_app_length.
Qed.

Lemma split_app' v r n : n = zlen v -> split (v ++ r) n = Ok (v, r).
Proof. intros ->. apply split_app. Qed.

Lemma sized_value t value r :
  (t = 6 \/ t = 7)%Z -> (zlen value < 65536)%Z ->
  value_length t (to_be16 (zlen value) ++ value ++ r) = Ok (zlen value, value ++ r).
Proof.
  intros Ht Hl. unfold value_length. rewrite !decide_False by lia. rewrite decide_True by done.
  rewrite split_app' by done. cbn [rbind]. rewrite be_to_be16; [done|]. pose proof (zlen_nonneg value). lia.
Qed.

Lemma header_value_encode v r :
  value_ok v ->
  exists t rest, encode_value v ++ r = t :: rest /\
    header_value t rest = Ok (match v with HString value => Some value | _ => None end, r).
Proof.
  intros Hv. destruct v as [b|t value|value|value]; simpl in Hv.
  - destruct b; by eexists _, _.
  - exists t, (value ++ r). split; [done|]. unfold header_value.
    assert (Hl : value_length t (value ++ r) = Ok (zlen value, value ++ r) /\ (2 <= t)%Z /\ t <> 7%Z).
    { repeat (apply elem_of_cons in Hv as [Hv|Hv]; [injection Hv as -> Hz; rewrite Hz; split; [done|lia]|]).
      by apply elem_of_nil in Hv. }
    destruct Hl as (-> & H2 & H7). rewrite decide_False by lia. cbn [rbind]. rewrite split_app. cbn [rbind].
    by rewrite decide_False by lia.
  - eexists _, _. cbn [encode_value app]. rewrite <- app_assoc. split; [done|]. unfold header_value.
    rewrite decide_False by lia. rewrite sized_value by (done || lia). cbn [rbind]. rewrite split_app.
    cbn [rbind]. by rewrite decide_False by lia.
  - destruct Hv as [Hv Hu]. eexists _, _. cbn [encode_value app]. rewrite <- app_assoc. split; [done|].
    unfold header_value. rewrite decide_False by lia. rewrite sized_value by (done || lia). cbn [rbind].
    rewrite split_app. cbn [rbind]. rewrite decide_True by lia. unfold from_utf8. by rewrite Hu.
Qed.

Lemma header_round_encode h r m :
  header_ok h -> header_round (encode_header h ++ r) m = Ok (insert_header m h, r).
Proof.
  intros (Hl & Hu & Hv). destruct h as [name v]. simpl in *. unfold header_round, encode_header.
  cbn [fst snd app split_first rbind]. rewrite <- app_assoc, split_app. cbn [rbind].
  unfold from_utf8. rewrite Hu. cbn [ok_or rbind].
  destruct (header_value_encode v r Hv) as (t & rest & -> & E). cbn [split_first rbind]. rewrite E.
  cbn [rbind]. by destruct v.
Qed.

Lemma parse_headers_encode fuel hs m :
  Forall header_ok hs -> length (encode_headers hs) < fuel ->
  parse_headers_loop fuel (encode_headers hs) m = Ret (Ok (foldl insert_header m hs)).
Proof.
  intros Hhs. revert fuel m. induction Hhs as [|h hs Hh _ IH]; intros [|fuel] m Hf; [lia|done|lia|].
  change (encode_headers (h :: hs)) with (encode_header h ++ encode_headers hs) in *.
  cbn [parse_headers_loop]. rewrite decide_False by done.
  fold (header_round (encode_header h ++ encode_headers hs) m). rewrite header_round_encode by done.
  apply IH. rewrite length_app in Hf. simpl in Hf. lia.
Qed.

Lemma get_mid {from to} a b c : from = length a -> to = length a + length b -> get (a ++ b ++ c) from to = Some b.
Proof.
  intros -> ->. unfold get. rewrite decide_True by (rewrite !length_app; lia).
  rewrite drop_app_length. replace (length a + length b - length a) with (length b) by lia.
  by rewrite take_app_length.
Qed.

Lemma get_front {to} b c : to = length b -> get (b ++ c) 0 to = Some b.
Proof. intros ->. by apply (get_mid []). Qed.

Lemma encode_length m :
  message_ok m -> zlen (encode m) = (16 + zlen (encode_headers (m_headers m)) + zlen (m_payload m))%Z.
Proof.
  intros (_ & H1 & H2 & _). unfold encode. rewrite !zlen_app. unfold zlen. rewrite H1, H2. simpl. lia.
Qed.

Lemma read_prelude_encode m :
  message_ok m ->
  read_prelude (to_be32 (zlen (encode m)) ++ to_be32 (zlen (encode_headers (m_headers m))) ++ m_prelude_crc m)
    = Ok (zlen (encode m), zlen (encode_headers (m_headers m))).
Proof.
  intros Hm. pose proof (encode_length m Hm) as Hl. destruct Hm as (_ & _ & _ & Hmax).
  pose proof (zlen_nonneg (encode_headers (m_headers m))). pose proof (zlen_nonneg (m_payload m)).
  unfold MAX_EVENTSTREAM_FRAME_BYTES in *. unfold read_prelude, read_u32.
  rewrite (get_front (to_be32 (zlen (encode m)))) by done. cbn [ok_or rbind].
  rewrite (get_mid (to_be32 (zlen (encode m)))) by done. cbn [ok_or rbind].
  rewrite !be_to_be32 by lia. rewrite decide_False by lia. unfold MAX_EVENTSTREAM_FRAME_BYTES.
  by rewrite decide_False by lia.
Qed.

Lemma frame_parts_encode m c :
  message_ok m ->
  frame_parts (encode m ++ c) (zlen (encode m)) (zlen (encode_headers (m_headers m))) =
    Ok (encode_headers (m_headers m), m_payload m).
Proof.
  intros Hm. pose proof (encode_length m Hm) as Hl. destruct Hm as (_ & H1 & H2 & Hmax).
  rewrite frame_parts_app by (pose proof (zlen_nonneg (encode m)); lia).
  set (hs := encode_headers (m_headers m)) in *. unfold frame_parts.
  assert (E : get (encode m) 0 (Z.to_nat (zlen (encode m))) = Some (encode m)).
  { rewrite <- (app_nil_r (encode m)) at 1. apply get_front. unfold zlen. lia. }
  rewrite E. cbn [ok_or rbind]. pose proof (zlen_nonneg hs). pose proof (zlen_nonneg (m_payload m)).
  assert (Hbig : (zlen (encode m) <= 1048576)%Z) by (unfold MAX_EVENTSTREAM_FRAME_BYTES in Hmax; lia).
  rewrite (proj2 (checked_add_Some usize_max 12 (zlen hs) (12 + zlen hs)))
    by (unfold usize_max, u64_max; lia). cbn [ok_or rbind].
  rewrite (proj2 (checked_sub_Some (zlen (encode m)) 4 (zlen (encode m) - 4))) by lia. cbn [ok_or rbind].
  set (pre := to_be32 (16 + zlen hs + zlen (m_payload m)) ++ to_be32 (zlen hs) ++ m_prelude_crc m).
  assert (Hpre : length pre = 12) by (unfold pre; rewrite !length_app, H1; done).
  assert (Em : encode m = pre ++ hs ++ m_payload m ++ m_crc m).
  { unfold encode, pre. fold hs. by rewrite <- !app_assoc. }
  rewrite Hl, Em. clearbody pre hs. rewrite (get_mid (from := 12) pre hs) by (unfold zlen; lia). cbn [ok_or rbind].
  rewrite (app_assoc pre hs). rewrite (get_mid (pre ++ hs) (m_payload m));
    [done|rewrite length_app; unfold zlen; lia..].
Qed.

Lemma next_frame_encode m c :
  message_ok m -> next_frame (encode m ++ c) = Ret (Ok (Some (frame_of m, c))).
Proof.
  intros Hm. unfold next_frame.
  set (hs := encode_headers (m_headers m)).
  assert (E : encode m ++ c = (to_be32 (zlen (encode m)) ++ to_be32 (zlen hs) ++ m_prelude_crc m) ++
                hs ++ m_payload m ++ m_crc m ++ c).
  { rewrite encode_length by done. unfold encode. fold hs. by rewrite <- !app_assoc. }
  destruct Hm as (Hh & H1 & H2 & Hmax).
  rewrite E at 1. rewrite get_front by (by rewrite !length_app, H1).
  unfold hs. rewrite read_prelude_encode by done.
  rewrite decide_False by (rewrite zlen_app; pose proof (zlen_nonneg c); lia).
  rewrite frame_parts_encode by done. unfold parse_headers. rewrite parse_headers_encode by (done || lia).
  cbn [obind]. unfold zlen. by rewrite Nat2Z.id, drop_app_length.
Qed.

(** A message cut short waits. *)
Lemma next_frame_partial m p q :
  message_ok m -> encode m = p ++ q -> q <> [] -> next_frame p = Ret (Ok None).
Proof.
  intros Hm E Hq. destruct (next_frame_spec p) as (r & Ep & Hr). rewrite Ep.
  pose proof (next_frame_encode m [] Hm) as Em. rewrite app_nil_r, E in Em.
  destruct r as [[[f rest]|]|e]; [|done|by rewrite Hr in Em].
  destruct Hr as [_ Hr]. rewrite Hr in Em. simplify_eq. by destruct rest.
Qed.

Lemma Drains_messages ms p q m :
  Forall message_ok ms -> message_ok m -> encode m = p ++ q -> q <> [] ->
  Drains (concat (map encode ms) ++ p) (Ok (map frame_of ms)) p.
Proof.
  intros Hms Hm Hp Hq. induction Hms as [|m' ms Hm' _ IH]; cbn [map concat].
  - apply drains_wait. by eapply next_frame_partial.
  - change (Ok (frame_of m' :: map frame_of ms))
      with (let? fs := Ok (map frame_of ms) in @Ok _ EventStreamError (frame_of m' :: fs)).
    eapply drains_frame; [|done]. rewrite <- app_assoc. by apply next_frame_encode.
Qed.

Lemma Drains_all ms : Forall message_ok ms -> Drains (concat (map encode ms)) (Ok (map frame_of ms)) [].
Proof.
  induction 1 as [|m' ms Hm' _ IH]; cbn [map concat]; [by apply drains_wait|].
  change (Ok (frame_of m' :: map frame_of ms))
    with (let? fs := Ok (map frame_of ms) in @Ok _ EventStreamError (frame_of m' :: fs)).
  eapply drains_frame; [|done]. by apply next_frame_encode.
Qed.

Lemma feed_all_Drains chunks r b :
  (zlen (concat chunks) <= MAX_EVENTSTREAM_BYTES)%Z -> Drains (concat chunks) r b ->
  exists d, feed_all chunks new = Ret (r, d) /\
    (is_ok r = true -> d = mkDecoder b (zlen (concat chunks))).
Proof.
  intros Hl Hd. destruct (read_all_spec chunks [] [] new frames_after_new) as (r' & d & E & Hr).
  rewrite E. simpl in Hr. exists d. destruct r' as [gs|e].
  - destruct Hr as (Hc & _ & Hd'). destruct (Drains_det _ _ _ _ _ Hd Hd') as [-> ->].
    split; [done|]. intros _. destruct d. simpl in *. by rewrite Hc.
  - destruct Hr as [Hb|[b' Hd']]; [lia|]. by destruct (Drains_det _ _ _ _ _ Hd Hd') as [-> ->].
Qed.

(** * Properties *)

(** The decoder is total and independent of the read boundaries: any
    sequence of reads returns; within the stream bound its frames, its error
    and, when it accepts, its state are those of one read with all the bytes;
    beyond the bound the stream is refused.  What it retains is always less
    than one frame. *)
Theorem eventstream_chunking chunks :
  exists r d, feed_all chunks new = Ret (r, d) /\
    ((zlen (concat chunks) <= MAX_EVENTSTREAM_BYTES)%Z ->
      exists d', feed (concat chunks) new = Ret (r, d') /\ (is_ok r = true -> d = d')) /\
    ((MAX_EVENTSTREAM_BYTES < zlen (concat chunks))%Z -> is_ok r = false) /\
    (is_ok r = true -> zlen (buffer d) < MAX_EVENTSTREAM_FRAME_BYTES)%Z.
Proof.
  destruct (read_all_spec chunks [] [] new frames_after_new) as (r & d & E & Hr). simpl in Hr.
  exists r, d. split; [done|]. split_and!.
  - intros Hl. destruct (read_spec [] [] new (concat chunks) frames_after_new) as (r' & d' & E' & Hr').
    simpl in Hr'. rewrite E'. exists d'. destruct r as [gs|e], r' as [gs'|e'].
    + destruct Hr as (Hc & _ & Hd), Hr' as (Hc' & _ & Hd').
      destruct (Drains_det _ _ _ _ _ Hd Hd') as [[= ->] Hb]. split; [done|]. intros _.
      destruct d, d'. simpl in *. congruence.
    + destruct Hr' as [?|[b' Hd']]; [lia|]. destruct Hr as (_ & _ & Hd).
      by destruct (Drains_det _ _ _ _ _ Hd Hd') as [? _].
    + destruct Hr as [?|[b' Hd]]; [lia|]. destruct Hr' as (_ & _ & Hd').
      by destruct (Drains_det _ _ _ _ _ Hd Hd') as [? _].
    + destruct Hr as [?|[b' Hd]]; [lia|]. destruct Hr' as [?|[b'' Hd']]; [lia|].
      by destruct (Drains_det _ _ _ _ _ Hd Hd') as [[= ->] _].
  - intros Hb. destruct r as [gs|e]; [|done]. destruct Hr as (_ & Hm & _). lia.
  - intros Hok. destruct r as [gs|e]; [|done]. destruct Hr as (_ & _ & Hd). apply Drains_rest in Hd.
    destruct (next_frame_spec (buffer d)) as (r & E2 & Hr). rewrite Hd in E2. by simplify_eq.
Qed.

(** Round trip: the messages a service encodes (typed headers, payload)
    come back in order, each with its three string headers and its payload,
    however the reads cut the stream, and the stream ends on a boundary. *)
Theorem eventstream_roundtrip ms chunks :
  Forall message_ok ms -> concat chunks = concat (map encode ms) ->
  (zlen (concat chunks) <= MAX_EVENTSTREAM_BYTES)%Z ->
  exists d, feed_all chunks new = Ret (Ok (map frame_of ms), d) /\ finish d = Ok tt.
Proof.
  intros Hms Hc Hl. destruct (feed_all_Drains chunks (Ok (map frame_of ms)) []) as (d & E & Hd);
    [done|rewrite Hc; by apply Drains_all|].
  exists d. split; [done|]. by rewrite Hd.
Qed.

(** A stream cut inside a message is never taken for a complete one: its
    complete messages are answered, and the end of the stream is a truncation
    that names the declared length (when its four bytes arrived) and the bytes
    that remain. *)
Theorem eventstream_truncation ms m p q chunks :
  Forall message_ok ms -> message_ok m -> encode m = p ++ q -> p <> [] -> q <> [] ->
  concat chunks = concat (map encode ms) ++ p ->
  (zlen (concat chunks) <= MAX_EVENTSTREAM_BYTES)%Z ->
  exists d, feed_all chunks new = Ret (Ok (map frame_of ms), d) /\
    finish d = Err (TruncatedFrame (if decide (4 <= length p) then zlen (encode m) else 0%Z) (zlen p)).
Proof.
  intros Hms Hm He Hp Hq Hc Hl.
  destruct (feed_all_Drains chunks (Ok (map frame_of ms)) p) as (d & E & Hd);
    [done|rewrite Hc; by eapply Drains_messages|].
  exists d. split; [done|]. rewrite Hd by done. unfold finish. cbn [buffer]. rewrite decide_False by done.
  destruct (decide (4 <= length p)) as [H4|H4].
  - assert (Hg : get p 0 4 = Some (to_be32 (zlen (encode m)))).
    { unfold get. rewrite decide_True by lia. f_equal. rewrite drop_0, Nat.sub_0_r.
      transitivity (take 4 (encode m)); [by rewrite He, take_app_le by lia|].
      unfold encode at 1. rewrite take_app_length' by done. by rewrite encode_length. }
    rewrite Hg. cbn [fmap option_fmap option_map default from_option]. unfold id. rewrite be_to_be32; [done|].
    destruct Hm as (_ & _ & _ & Hmax). pose proof (zlen_nonneg (encode m)).
    unfold MAX_EVENTSTREAM_FRAME_BYTES in Hmax. lia.
  - unfold get. by rewrite decide_False by lia.
Qed.

(** * Witnesses *)

Definition stop_message : Message := {|
  m_headers := [(EVENT_TYPE, HString [115; 116; 111; 112]%Z); ([120%Z], HFixed 3 [1; 2]%Z)];
  m_payload := [123; 125]%Z; m_prelude_crc := [0; 0; 0; 0]%Z; m_crc := [9; 9; 9; 9]%Z |}.

Lemma stop_message_ok : message_ok stop_message.
Proof.
  split_and!; [|done|done|by vm_compute].
  repeat (apply Forall_cons; split); [by vm_compute| |by constructor].
  split_and!; [done|done|]. simpl. right. by left.
Qed.

Lemma eventstream_roundtrip_witness :
  exists d, feed_all (map (fun b => [b]) (encode stop_message)) new = Ret (Ok [frame_of stop_message], d) /\
    finish d = Ok tt.
Proof.
  apply (eventstream_roundtrip [stop_message] (map (fun b => [b]) (encode stop_message))).
  - constructor; [apply stop_message_ok|constructor].
  - by vm_compute.
  - by vm_compute.
Defined.

Lemma eventstream_truncation_witness :
  exists d, feed_all [encode stop_message; take 9 (encode stop_message)] new
      = Ret (Ok [frame_of stop_message], d) /\
    finish d = Err (TruncatedFrame (zlen (encode stop_message)) 9).
Proof.
  apply (eventstream_truncation [stop_message] stop_message (take 9 (encode stop_message))
    (drop 9 (encode stop_message)) [encode stop_message; take 9 (encode stop_message)]).
  - constructor; [apply stop_message_ok|constructor].
  - apply stop_message_ok.
  - by rewrite take_drop.
  - done.
  - done.
  - by vm_compute.
  - by vm_compute.
Defined.
