(* ===== verification/Output.v ===== *)
(** The display projection of external output ([OutputStream] of
    [src/src/resources.rs]): bytes arrive in chunks, are decoded as UTF-8 with
    replacement characters, sanitized character by character and kept up to a
    retention cap.  A [char] is its code point; the display [String] is the list
    of its characters, [text_len] its length in bytes. *)

From S2P Require Import Prelude.
From S2P Require Import Utf8.

Definition OUTPUT_RETAIN_BYTES : Z := 64 * 1024.

(** [OutputStatus] *)
Inductive OutputStatus :=
  | Streaming
  | Complete
  | Partial (cause : string)
  | Failed (cause : string).

(** [OutputSettlement] *)
Inductive OutputSettlement :=
  | SettleComplete
  | SettlePartial (cause : string)
  | SettleFailed (cause : string).

Record OutputStream := mkStream {
  pending : bytes;
  text : list Z;
  truncated : bool;
  status : OutputStatus;
}.

(** [OutputStream::new] *)
Definition new : OutputStream := mkStream [] [] false Streaming.

Definition text_len (t : list Z) : Z := zsum len_utf8 t.

Definition NEWLINE : Z := 10.
Definition REPLACEMENT : Z := 65533.

(** [char::is_control]: the general category Cc. *)
Definition is_control (c : Z) : bool := within 0 31 c || within 127 159 c.

(** [is_stripped_format] *)
Definition stripped_ranges : list (Z * Z) :=
  [(0x00AD, 0x00AD); (0x0600, 0x0605); (0x061C, 0x061C); (0x06DD, 0x06DD); (0x070F, 0x070F);
   (0x0890, 0x0891); (0x08E2, 0x08E2); (0x17B4, 0x17B5); (0x180B, 0x180E); (0x200B, 0x200F);
   (0x202A, 0x202E); (0x2060, 0x206F); (0x110BD, 0x110BD); (0x110CD, 0x110CD); (0x13430, 0x1343F);
   (0x1BCA0, 0x1BCA3); (0x1D173, 0x1D17A); (0xFEFF, 0xFEFF); (0xFFF9, 0xFFFB);
   (0xE0000, 0xE007F)]%Z.

Definition is_stripped_format (c : Z) : bool :=
  existsb (fun r => within (fst r) (snd r) c) stripped_ranges.

(** [char::from_u32]: surrogates and values past the last plane are refused. *)
Definition from_u32 (n : Z) : option Z :=
  if within 0 55295 n || within 57344 1114111 n then Some n else None.

(** [push_sanitized] *)
Definition push_sanitized (out : list Z) (c : Z) : list Z :=
  if is_stripped_format c then out
  else if (c =? NEWLINE)%Z || negb (is_control c) then out ++ [c]
  else if (c <? 32)%Z then (out ++ [94%Z]) ++ [default REPLACEMENT (from_u32 (c + 64))]
  else out ++ [REPLACEMENT].

(** [sanitize_status_cause], over the characters of the cause. *)
Definition sanitize_status_cause (cause : list Z) : list Z := foldl push_sanitized [] cause.

(** [append_decoded] *)
Fixpoint append_decoded (decoded : list Z) (s : OutputStream) : OutputStream :=
  match decoded with
  | [] => s
  | c :: decoded =>
      if decide (OUTPUT_RETAIN_BYTES <= text_len (text s))%Z
      then mkStream (pending s) (text s) true (status s)
      else append_decoded decoded
             (mkStream (pending s) (push_sanitized (text s) c) (truncated s) (status s))
  end.

(** [std::str::from_utf8]: the characters of the longest valid prefix, its
    length ([valid_up_to]), and the error when the input does not end there:
    [Some n] for [n] invalid bytes, [None] for an unfinished sequence. *)
Fixpoint utf8_run (fuel : nat) (bs : bytes) : list Z * nat * option (option nat) :=
  match fuel, bs with
  | O, _ => ([], 0, None)
  | _, [] => ([], 0, None)
  | S fuel, b0 :: rest =>
      match decode_step b0 rest with
      | Char c n =>
          let '(cs, up_to, err) := utf8_run fuel (drop n bs) in (c :: cs, n + up_to, err)
      | Invalid n => ([], 0, Some (Some n))
      | Incomplete => ([], 0, Some None)
      end
  end.

(** The loop of [decode_pending] over the bytes not yet consumed; it returns the
    bytes that stay pending.  Every round but the last consumes a byte. *)
Fixpoint decode_loop (fuel : nat) (flush : bool) (bs : bytes) (s : OutputStream)
    : OutputStream * bytes :=
  match fuel with
  | O => (s, bs)
  | S fuel =>
      if bool_decide (bs = []) || truncated s then (s, bs)
      else
        match utf8_run (length bs) bs with
        | (cs, _, None) => (append_decoded cs s, [])
        | (cs, up_to, Some err) =>
            let s := append_decoded cs s in
            match err with
            | Some invalid =>
                decode_loop fuel flush (drop (up_to + invalid) bs) (append_decoded [REPLACEMENT] s)
            | None =>
                if flush then (append_decoded [REPLACEMENT] s, [])
                else (s, drop up_to bs)
            end
        end
  end.

(** [decode_pending] *)
Definition decode_pending (flush : bool) (s : OutputStream) : OutputStream :=
  let bs := pending s in
  let '(s, rest) := decode_loop (S (length bs)) flush bs (mkStream [] (text s) (truncated s) (status s)) in
  mkStream (if truncated s then [] else rest) (text s) (truncated s) (status s).

(** [push_chunk] *)
Definition push_chunk (s : OutputStream) (bs : bytes) : OutputStream :=
  match status s with
  | Streaming =>
      if truncated s then s
      else decode_pending false (mkStream (pending s ++ bs) (text s) (truncated s) (status s))
  | _ => s
  end.

(** [settle] *)
Definition settle (settlement : OutputSettlement) (s : OutputStream) : OutputStream :=
  let s := decode_pending true s in
  mkStream (pending s) (text s) (truncated s)
    match settlement with
    | SettleComplete => Complete
    | SettlePartial cause => Partial cause
    | SettleFailed cause => Failed cause
    end.

(** [is_active] *)
Definition is_active (s : OutputStream) : bool :=
  negb (bool_decide (text s = [])) || match status s with Streaming => false | _ => true end.

Definition head_truncated (s : OutputStream) : bool := truncated s.

(** * Properties

    Properties of the display projection of external output ([OutputStream] of
    [src/src/resources.rs]): chunk independence, sanitization, the retention
    cap, and the survival of ordinary text. *)

(** * The characters of a byte string *)

(** Decoded characters, ill-formed bytes replaced, and the unfinished tail
    ([flush] replaces it too). *)
Fixpoint scan (fuel : nat) (flush : bool) (bs : bytes) : list Z * bytes :=
  match fuel, bs with
  | O, _ => ([], bs)
  | _, [] => ([], [])
  | S fuel, b0 :: rest =>
      match decode_step b0 rest with
      | Char c n => let (cs, t) := scan fuel flush (drop n bs) in (c :: cs, t)
      | Invalid n => let (cs, t) := scan fuel flush (drop n bs) in (REPLACEMENT :: cs, t)
      | Incomplete => if flush then ([REPLACEMENT], []) else ([], bs)
      end
  end.

Definition chars (flush : bool) (bs : bytes) : list Z * bytes := scan (length bs) flush bs.

Lemma scan_fuel f1 f2 flush bs : length bs <= f1 -> length bs <= f2 -> scan f1 flush bs = scan f2 flush bs.
Proof.
  revert f2 bs. induction f1 as [|f1 IH]; intros [|f2] [|b0 rest] H1 H2; simpl in H1, H2; try done; try lia.
  cbn [scan]. pose proof (decode_step_width b0 rest) as Hw.
  destruct (decode_step b0 rest) as [c n|n|]; [| |done];
    by rewrite (IH f2) by (rewrite length_drop; simpl; lia).
Qed.

Lemma chars_nil flush : chars flush [] = ([], []).
Proof. done. Qed.

Lemma chars_cons flush b0 rest :
  chars flush (b0 :: rest) =
    match decode_step b0 rest with
    | Char c n => let (cs, t) := chars flush (drop n (b0 :: rest)) in (c :: cs, t)
    | Invalid n => let (cs, t) := chars flush (drop n (b0 :: rest)) in (REPLACEMENT :: cs, t)
    | Incomplete => if flush then ([REPLACEMENT], []) else ([], b0 :: rest)
    end.
Proof.
  unfold chars at 1. cbn [length scan]. pose proof (decode_step_width b0 rest) as Hw.
  destruct (decode_step b0 rest) as [c n|n|]; [| |done]; unfold chars;
    by rewrite (scan_fuel (length rest) (length (drop n (b0 :: rest))))
      by (rewrite ?length_drop; simpl; lia).
Qed.

(** Induction along the decoded steps. *)
Lemma bytes_ind (P : bytes -> Prop) :
  (forall bs, (forall bs', length bs' < length bs -> P bs') -> P bs) -> forall bs, P bs.
Proof.
  intros H bs. remember (length bs) as n eqn:En. revert bs En.
  induction (lt_wf n) as [n _ IH]. intros bs ->. apply H. intros bs' Hl. by eapply IH.
Qed.

Lemma drop_lt b0 (rest : bytes) n : 1 <= n -> length (drop n (b0 :: rest)) < length (b0 :: rest).
Proof. intros. rewrite length_drop. simpl. lia. Qed.

Lemma chars_app flush a c :
  chars flush (a ++ c) =
    let (cs, t) := chars false a in
    let (cs', t') := chars flush (t ++ c) in (cs ++ cs', t').
Proof.
  revert a. apply (bytes_ind (fun a => chars flush (a ++ c) = _)). intros a IH.
  destruct a as [|b0 rest].
  { rewrite chars_nil. simpl. by destruct (chars flush c). }
  rewrite (chars_cons false). pose proof (decode_step_width b0 rest) as Hw.
  destruct (decode_step b0 rest) as [ch n|n|] eqn:E.
  - cbn [app]. rewrite chars_cons, decode_step_app, E by (by rewrite E).
    rewrite app_comm_cons, drop_app_le by (simpl; lia).
    rewrite IH by (apply drop_lt; lia).
    destruct (chars false (drop n (b0 :: rest))) as [cs t]. by destruct (chars flush (t ++ c)).
  - cbn [app]. rewrite chars_cons, decode_step_app, E by (by rewrite E).
    rewrite app_comm_cons, drop_app_le by (simpl; lia).
    rewrite IH by (apply drop_lt; lia).
    destruct (chars false (drop n (b0 :: rest))) as [cs t]. by destruct (chars flush (t ++ c)).
  - cbn [app]. destruct (chars flush (b0 :: rest ++ c)) as [cs' t']. done.
Qed.

(** * Appending *)

Definition cut (s : OutputStream) : Prop :=
  truncated s = true -> (OUTPUT_RETAIN_BYTES <= text_len (text s))%Z.

Lemma append_app cs1 cs2 s : append_decoded (cs1 ++ cs2) s = append_decoded cs2 (append_decoded cs1 s).
Proof.
  revert s. induction cs1 as [|c cs1 IH]; intros s; [done|]. cbn [app append_decoded].
  destruct (decide _) as [Hcap|]; [|apply IH].
  destruct cs2 as [|c2 cs2]; [done|]. cbn [append_decoded text]. by rewrite decide_True.
Qed.

Lemma append_cut cs s : cut s -> truncated s = true -> append_decoded cs s = s.
Proof.
  intros Hc Ht. destruct cs as [|c cs]; [done|]. cbn [append_decoded]. rewrite decide_True by auto.
  destruct s. simpl in *. by subst.
Qed.

Lemma append_keeps cs s :
  cut s -> cut (append_decoded cs s) /\ pending (append_decoded cs s) = pending s /\
    status (append_decoded cs s) = status s.
Proof.
  revert s. induction cs as [|c cs IH]; intros s Hc; [done|]. cbn [append_decoded].
  destruct (decide _) as [Hcap|Hcap]; [split_and!; [by intros _|done|done]|].
  destruct (IH (mkStream (pending s) (push_sanitized (text s) c) (truncated s) (status s))) as (H1 & H2 & H3);
    [|by split_and!].
  intros Ht. simpl in Ht. by apply Hc in Ht.
Qed.

(** One round's decoded run, its characters and what follows them. *)
Lemma utf8_run_chars fuel flush bs :
  length bs <= fuel ->
  let '(cs, up_to, err) := utf8_run fuel bs in
  up_to <= length bs /\
  chars flush bs =
    match err with
    | None => (cs, [])
    | Some (Some n) =>
        let (cs', t) := chars flush (drop (up_to + n) bs) in (cs ++ REPLACEMENT :: cs', t)
    | Some None => if flush then (cs ++ [REPLACEMENT], []) else (cs, drop up_to bs)
    end /\
  match err with Some (Some n) => 1 <= n /\ up_to + n <= length bs | _ => True end.
Proof.
  revert bs. induction fuel as [|fuel IH]; intros [|b0 rest] Hf; try (simpl in Hf; lia); try done.
  cbn [utf8_run]. rewrite chars_cons. pose proof (decode_step_width b0 rest) as Hw.
  destruct (decode_step b0 rest) as [c n|n|] eqn:E.
  - specialize (IH (drop n (b0 :: rest))). rewrite length_drop in IH. simpl in Hf.
    specialize (IH ltac:(simpl; lia)). destruct (utf8_run fuel (drop n (b0 :: rest))) as [[cs up] err].
    destruct IH as (H1 & H2 & H3). rewrite H2. simpl length in *. split_and!; [lia| |].
    + destruct err as [[m|]|]; [|by destruct flush; rewrite ?drop_drop|done].
      rewrite drop_drop. replace (n + (up + m)) with (n + up + m) by lia.
      by destruct (chars flush (drop (n + up + m) (b0 :: rest))).
    + destruct err as [[m|]|]; [lia|done..].
  - split_and!; [simpl; lia|done|lia|simpl; lia].
  - split_and!; [simpl; lia|by destruct flush|done].
Qed.

Lemma decode_loop_spec fuel flush bs s :
  length bs < fuel -> cut s ->
  exists t, decode_loop fuel flush bs s = (append_decoded (fst (chars flush bs)) s, t) /\
    (truncated (append_decoded (fst (chars flush bs)) s) = false -> t = snd (chars flush bs)).
Proof.
  revert bs s. induction fuel as [|fuel IH]; intros bs s Hf Hc; [lia|]. cbn [decode_loop].
  destruct (truncated s) eqn:Ht.
  { rewrite orb_true_r, append_cut by done. exists bs. split; [done|]. by rewrite Ht. }
  rewrite orb_false_r. case_bool_decide as Hnil; [subst; by exists []|].
  pose proof (utf8_run_chars (length bs) flush bs (Nat.le_refl _)) as Hrun.
  destruct (utf8_run (length bs) bs) as [[cs up] err]. destruct Hrun as (Hup & Hch & Herr).
  rewrite Hch. destruct err as [[n|]|].
  - specialize (IH (drop (up + n) bs) (append_decoded [REPLACEMENT] (append_decoded cs s))).
    destruct IH as (t & E & Ht'); [rewrite length_drop; lia|by apply append_keeps, append_keeps|].
    rewrite E. destruct (chars flush (drop (up + n) bs)) as [cs' t']. simpl fst in *. simpl snd in *.
    exists t. change (REPLACEMENT :: cs') with ([REPLACEMENT] ++ cs'). by rewrite !append_app.
  - destruct flush; simpl fst; simpl snd; eexists; [by rewrite append_app|done].
  - by exists [].
Qed.

Lemma decode_pending_spec flush s :
  cut s ->
  decode_pending flush s =
    let s' := append_decoded (fst (chars flush (pending s))) (mkStream [] (text s) (truncated s) (status s)) in
    mkStream (if truncated s' then [] else snd (chars flush (pending s))) (text s') (truncated s') (status s).
Proof.
  intros Hc. unfold decode_pending.
  destruct (decode_loop_spec (S (length (pending s))) flush (pending s)
    (mkStream [] (text s) (truncated s) (status s))) as (t & -> & Ht); [lia|done|].
  cbv zeta. set (s' := append_decoded _ _) in *.
  assert (Hst : status s' = status s) by (exact (proj2 (proj2 (append_keeps _ (mkStream [] (text s) (truncated s) (status s)) Hc)))).
  destruct (truncated s') eqn:E; [by rewrite Hst|]. by rewrite Hst, Ht.
Qed.

(** * Chunks *)

Definition settled (s : OutputStream) : bool := match status s with Streaming => false | _ => true end.

(** Reachable states: a truncated stream holds no bytes and is full; what
    stays pending is an unfinished sequence. *)
Record stream_ok (s : OutputStream) : Prop := {
  so_cut : cut s;
  so_pending : truncated s = true -> pending s = [];
  so_tail : chars false (pending s) = ([], pending s);
}.

Lemma chars_tail bs : chars false (snd (chars false bs)) = ([], snd (chars false bs)).
Proof.
  revert bs. apply (bytes_ind (fun bs => chars false (snd (chars false bs)) = _)). intros bs IH.
  destruct bs as [|b0 rest]; [done|]. rewrite (chars_cons false b0 rest).
  pose proof (decode_step_width b0 rest) as Hw. destruct (decode_step b0 rest) as [c n|n|] eqn:E.
  - specialize (IH (drop n (b0 :: rest)) ltac:(apply drop_lt; lia)).
    by destruct (chars false (drop n (b0 :: rest))).
  - specialize (IH (drop n (b0 :: rest)) ltac:(apply drop_lt; lia)).
    by destruct (chars false (drop n (b0 :: rest))).
  - simpl. by rewrite chars_cons, E.
Qed.

Lemma stream_ok_new : stream_ok new.
Proof. by split. Qed.

Lemma decode_pending_ok flush s : cut s -> stream_ok (decode_pending flush s).
Proof.
  intros Hc. rewrite decode_pending_spec by done. cbv zeta. set (s' := append_decoded _ _).
  assert (Hcut : cut s') by (unfold s'; by apply append_keeps). split; simpl.
  - exact Hcut.
  - by intros ->.
  - destruct (truncated s'); [done|]. destruct flush; [|apply chars_tail].
    assert (H : snd (chars true (pending s)) = []); [|by rewrite H].
    generalize (pending s). apply (bytes_ind (fun bs => snd (chars true bs) = [])). intros bs IH.
    destruct bs as [|b0 rest]; [done|]. rewrite chars_cons. pose proof (decode_step_width b0 rest) as Hw.
    destruct (decode_step b0 rest) as [c n|n|]; [..|done].
    + specialize (IH (drop n (b0 :: rest)) ltac:(apply drop_lt; lia)). by destruct (chars true (drop n (b0 :: rest))).
    + specialize (IH (drop n (b0 :: rest)) ltac:(apply drop_lt; lia)). by destruct (chars true (drop n (b0 :: rest))).
Qed.

Lemma push_chunk_ok s bs : stream_ok s -> stream_ok (push_chunk s bs).
Proof.
  intros Hs. unfold push_chunk. destruct (status s); [|done..]. destruct (truncated s) eqn:Ht; [done|].
  apply decode_pending_ok. intros Ht'. by simpl in Ht'.
Qed.

Lemma settle_ok st s : stream_ok s -> stream_ok (settle st s).
Proof.
  intros Hs. destruct (decode_pending_ok true s (so_cut s Hs)) as [H1 H2 H3].
  unfold settle. by split.
Qed.

Lemma push_nil s : stream_ok s -> push_chunk s [] = s.
Proof.
  intros Hs. unfold push_chunk. destruct (status s) eqn:Hst; [|done..]. destruct (truncated s) eqn:Ht; [done|].
  rewrite decode_pending_spec by done. simpl. rewrite app_nil_r, (so_tail s Hs). simpl.
  destruct s. simpl in *. by subst.
Qed.

Lemma push_push s a b : stream_ok s -> push_chunk (push_chunk s a) b = push_chunk s (a ++ b).
Proof.
  intros Hs. unfold push_chunk at 2 3. destruct (status s) eqn:Hst; [|by unfold push_chunk; rewrite Hst..].
  destruct (truncated s) eqn:Ht; [unfold push_chunk; by rewrite Hst, Ht|].
  rewrite !decode_pending_spec by done. simpl. rewrite app_assoc, (chars_app false (pending s ++ a) b).
  destruct (chars false (pending s ++ a)) as [cs t]. simpl fst. simpl snd.
  set (s1 := append_decoded cs _).
  destruct (append_keeps cs (mkStream [] (text s) false Streaming)) as (Hcut & Hp & Hst1); [done|].
  fold s1 in Hcut, Hp, Hst1. unfold push_chunk. simpl. destruct (truncated s1) eqn:Ht1.
  - destruct (chars false (t ++ b)) as [cs' t']. simpl. rewrite append_app. fold s1.
    rewrite append_cut by done. by rewrite Ht1.
  - rewrite decode_pending_spec by done. simpl.
    destruct (chars false (t ++ b)) as [cs' t']. simpl. rewrite append_app. fold s1.
    replace (mkStream [] (text s1) false Streaming) with s1; [done|].
    destruct s1. simpl in *. by subst.
Qed.

Lemma fold_push chunks s : stream_ok s -> foldl push_chunk s chunks = push_chunk s (concat chunks).
Proof.
  revert s. induction chunks as [|c chunks IH]; intros s Hs; cbn [foldl concat]; [by rewrite push_nil|].
  rewrite IH by by apply push_chunk_ok. by apply push_push.
Qed.

(** * Sanitization *)

(** A character that may reach a display. *)
Definition safe (c : Z) : Prop :=
  (c = NEWLINE \/ is_control c = false) /\ is_stripped_format c = false.

Lemma len_utf8_bounds c : (1 <= len_utf8 c <= 4)%Z.
Proof. unfold len_utf8. repeat case_match; lia. Qed.

Lemma text_len_app t1 t2 : text_len (t1 ++ t2) = (text_len t1 + text_len t2)%Z.
Proof. apply zsum_app. Qed.

Lemma text_len_snoc t c : text_len (t ++ [c]) = (text_len t + len_utf8 c)%Z.
Proof. rewrite text_len_app. change (text_len [c]) with (len_utf8 c + 0)%Z. lia. Qed.

Lemma safe_caret c : (0 <= c < 32)%Z -> safe 94 /\ safe (c + 64).
Proof.
  intros Hc. split; [by split; [right|]|]. split.
  - right. unfold is_control. by rewrite !(proj2 (within_false _ _ _)) by lia.
  - unfold is_stripped_format, stripped_ranges. cbn [existsb fst snd].
    by rewrite !(proj2 (within_false _ _ _)) by lia.
Qed.

Lemma push_sanitized_spec out c :
  Forall safe out -> Forall safe (push_sanitized out c) /\
    (text_len out <= text_len (push_sanitized out c) <= text_len out + 4)%Z.
Proof.
  intros Hout. unfold push_sanitized. pose proof (len_utf8_bounds c).
  destruct (is_stripped_format c) eqn:Hf; [split; [done|lia]|].
  destruct ((c =? NEWLINE)%Z || negb (is_control c)) eqn:Hc.
  { split; [|rewrite text_len_snoc; lia].
    apply Forall_app. split; [done|]. constructor; [|done]. split; [|done].
    apply orb_true_iff in Hc as [->%Z.eqb_eq|Hc%negb_true_iff]; auto. }
  apply orb_false_iff in Hc as [_ Hc%negb_false_iff].
  destruct (Z.ltb_spec c 32).
  - assert (Hpos : (0 <= c)%Z).
    { unfold is_control in Hc. apply orb_true_iff in Hc. rewrite !within_spec in Hc. lia. }
    replace (from_u32 (c + 64)) with (Some (c + 64)%Z)
      by (unfold from_u32; rewrite (proj2 (within_spec 0 55295 _)) by lia; done).
    cbn [default from_option]. unfold id. destruct (safe_caret c) as [H1 H2]; [lia|]. split.
    + repeat (apply Forall_app; split); try done; by constructor.
    + rewrite !text_len_snoc. change (len_utf8 94) with 1%Z. replace (len_utf8 (c + 64)) with 1%Z; [lia|].
      unfold len_utf8. by rewrite (proj2 (Z.ltb_lt (c + 64) 128)) by lia.
  - split; [apply Forall_app; split; [done|]; by repeat constructor; right|].
    rewrite text_len_snoc. change (len_utf8 REPLACEMENT) with 3%Z. lia.
Qed.

Definition display_ok (t : list Z) : Prop :=
  Forall safe t /\ (text_len t < OUTPUT_RETAIN_BYTES + 4)%Z.

Lemma append_display cs s : display_ok (text s) -> display_ok (text (append_decoded cs s)).
Proof.
  revert s. induction cs as [|c cs IH]; intros s [Hs Hl]; [done|]. cbn [append_decoded].
  destruct (decide _) as [|Hcap]; [done|]. apply IH. simpl.
  destruct (push_sanitized_spec (text s) c Hs) as [H1 H2]. split; [done|lia].
Qed.

Lemma decode_pending_display flush s :
  cut s -> display_ok (text s) -> display_ok (text (decode_pending flush s)).
Proof. intros Hc Hd. rewrite decode_pending_spec by done. simpl. by apply append_display. Qed.

Lemma pending_short bs : chars false bs = ([], bs) -> length bs <= 3.
Proof.
  destruct bs as [|b0 rest]; [simpl; lia|]. rewrite chars_cons. intros H.
  destruct (decode_step b0 rest) as [c n|n|] eqn:E; [by destruct (chars false _)..|].
  unfold decode_step in E. destruct (announced b0) as [|[|[|[|n]]]]; try done;
    destruct rest as [|b1 rest]; simpl; try lia; destruct (second_ok b0 b1); try done;
    destruct rest as [|b2 rest]; simpl; try lia; destruct (continuation b2); try done;
    destruct rest as [|b3 rest]; simpl; try lia; by destruct (continuation b3).
Qed.

(** What the owner of a stream does to it. *)
Inductive op := Push (bs : bytes) | Settle (st : OutputSettlement).

Definition apply_op (s : OutputStream) (o : op) : OutputStream :=
  match o with Push bs => push_chunk s bs | Settle st => settle st s end.

Lemma ops_ok ops s :
  stream_ok s -> display_ok (text s) ->
  stream_ok (foldl apply_op s ops) /\ display_ok (text (foldl apply_op s ops)).
Proof.
  revert s. induction ops as [|o ops IH]; intros s Hs Hd; [done|]. cbn [foldl]. apply IH.
  - destruct o; [by apply push_chunk_ok|by apply settle_ok].
  - destruct o as [bs|st]; simpl.
    + unfold push_chunk. destruct (status s); [|done..]. destruct (truncated s) eqn:Ht; [done|].
      by apply decode_pending_display.
    + by apply decode_pending_display; [apply Hs|].
Qed.

(** * Ordinary text *)

Lemma chars_encode flush cs : Forall scalar cs -> chars flush (concat (map encode cs)) = (cs, []).
Proof.
  induction 1 as [|c cs Hc _ IH]; [done|]. cbn [map concat].
  destruct (decode_encode c (concat (map encode cs)) Hc) as (b0 & rest & E & Hstep).
  rewrite E in Hstep |- *. cbn [app]. rewrite chars_cons, Hstep.
  rewrite app_comm_cons, drop_app_length. by rewrite IH.
Qed.

Lemma push_safe out c : safe c -> push_sanitized out c = out ++ [c].
Proof.
  intros [Hc Hf]. unfold push_sanitized. rewrite Hf.
  destruct Hc as [->|Hc]; [done|]. by rewrite Hc, orb_true_r.
Qed.

Lemma append_safe cs s :
  Forall safe cs -> (text_len (text s) + text_len cs <= OUTPUT_RETAIN_BYTES)%Z ->
  append_decoded cs s = mkStream (pending s) (text s ++ cs) (truncated s) (status s).
Proof.
  intros Hcs. revert s. induction Hcs as [|c cs Hc _ IH]; intros s Hl; cbn [append_decoded].
  { rewrite app_nil_r. by destruct s. }
  change (text_len (c :: cs)) with (len_utf8 c + text_len cs)%Z in Hl. pose proof (len_utf8_bounds c).
  assert (0 <= text_len cs)%Z by (apply zsum_nonneg; intros x; pose proof (len_utf8_bounds x); lia).
  rewrite decide_False by lia. rewrite push_safe by done. rewrite IH; simpl.
  - by rewrite <- app_assoc.
  - rewrite text_len_app. change (text_len [c]) with (len_utf8 c + 0)%Z. lia.
Qed.

Lemma reachable_ok ops :
  stream_ok (foldl apply_op new ops) /\ display_ok (text (foldl apply_op new ops)).
Proof. apply ops_ok; [apply stream_ok_new|by split; [constructor|]]. Qed.

(** [push_chunk] ignores a settled stream, but [settle] does not: a second
    settlement replaces the first. *)
Lemma settle_again_replaces s cause bs :
  push_chunk (settle (SettleFailed cause) s) bs = settle (SettleFailed cause) s /\
  status (settle SettleComplete (settle (SettleFailed cause) s)) = Complete.
Proof. done. Qed.

(** * Properties *)

(** Where the producer cuts its output never shows: from any reachable
    stream, pushing chunks one by one leaves exactly the state that pushing
    their concatenation leaves, text, pending bytes, truncation and status. *)
Theorem output_chunking ops chunks :
  foldl push_chunk (foldl apply_op new ops) chunks =
    push_chunk (foldl apply_op new ops) (concat chunks).
Proof. apply fold_push, reachable_ok. Qed.

(** Whatever the worker writes and however the stream is pushed and
    settled, the display text holds no control character but the newline and
    none of the stripped format controls, it stays below the retention cap plus
    one character, at most three bytes of an unfinished sequence are held, and
    a stream is marked truncated only when its text fills the cap. *)
Theorem output_safe ops :
  let s := foldl apply_op new ops in
  Forall (fun c => (c = NEWLINE \/ is_control c = false) /\ is_stripped_format c = false) (text s) /\
  (text_len (text s) < OUTPUT_RETAIN_BYTES + 4)%Z /\ length (pending s) <= 3 /\
  (truncated s = true -> OUTPUT_RETAIN_BYTES <= text_len (text s))%Z.
Proof.
  destruct (reachable_ok ops) as [Hs [Hd Hl]]. split_and!; [done|done| |apply Hs].
  apply pending_short, Hs.
Qed.

(** Ordinary text is shown as it is: scalar values without controls, up to
    the cap, encoded as UTF-8 and cut into any chunks (inside a character too),
    reappear unchanged, whole and settled complete. *)
Theorem output_text_survives cs chunks :
  Forall scalar cs -> Forall safe cs -> (text_len cs <= OUTPUT_RETAIN_BYTES)%Z ->
  concat chunks = concat (map encode cs) ->
  settle SettleComplete (foldl push_chunk new chunks) = mkStream [] cs false Complete.
Proof.
  intros Hsc Hs Hl Hc. rewrite fold_push by apply stream_ok_new. rewrite Hc.
  assert (E : push_chunk new (concat (map encode cs)) = mkStream [] cs false Streaming).
  { unfold push_chunk. simpl. rewrite decode_pending_spec by done. simpl.
    rewrite chars_encode by done. simpl. by rewrite append_safe. }
  by rewrite E.
Qed.

(** * Witnesses *)

(** The Greek letter mu, a newline and a letter, byte by byte. *)
Lemma output_text_survives_witness :
  settle SettleComplete (foldl push_chunk new [[206%Z]; [188; 10]%Z; [120%Z]]) =
    mkStream [] [956; 10; 120]%Z false Complete.
Proof.
  apply (output_text_survives [956; 10; 120]%Z [[206%Z]; [188; 10]%Z; [120%Z]]).
  - repeat (apply Forall_cons; split); [unfold scalar; lia..|constructor].
  - repeat (apply Forall_cons; split); [split; [by right|by vm_compute]|split; [by left|by vm_compute]|split; [by right|by vm_compute]|constructor].
  - by vm_compute.
  - by vm_compute.
Defined.
