(* ===== verification/Generations.v ===== *)
(** Capability generations ([ResourceHolder] and [CapabilityGenerations] of
    [src/src/resources.rs]).  The file system is a parameter: its state and what
    [std::fs::create_dir] and [std::fs::remove_dir_all] do to it.  A holder
    owns its root, so the places where the code drops one are written out. *)

From Stdlib Require Import Ascii.
From stdpp Require Import pretty.
From S2P Require Import Prelude.
From S2P Require Import Contracts.
From S2P Require Import Text.

Definition CAPABILITY_GENERATION_RETENTION : nat := 8.

Inductive ResourceHolderStatus := Active | TerminationUnknown | Terminated.

(** [std::io::ErrorKind], as far as the code looks at it. *)
Inductive IoError := IoNotFound | IoOther (message : string).

Inductive ResourceError :=
  | NotOneSegment (field value : string)
  | Acquire (boundary : string) (source : IoError) (disposition : ResourceHolderStatus)
  | Superseded (carried current : Z)
  | AlreadyRetired (generation : Z)
  | Unknown (carried : Z).

(** [ResourceError::code] *)
Definition code (e : ResourceError) : ErrorCode :=
  match e with
  | NotOneSegment _ _ => InvalidInput
  | Acquire _ _ _ => DependencyBlocked
  | Superseded _ _ => StaleIntent
  | AlreadyRetired _ => AlreadyTerminal
  | Unknown _ => NotFound
  end.

Record ResourceHolder := mkHolder {
  resource_scope : string;
  executor_id : string;
  owner_generation : Z;
  status : ResourceHolderStatus;
  root : option string;
  acquired : list string;
}.

Record CapabilityGenerations := mkGenerations {
  next_generation : Z;
  current : option ResourceHolder;
  retired : list Z;
}.

(** [CapabilityGenerations::new] *)
Definition new : CapabilityGenerations := mkGenerations 0 None [].

(** * Path components on a Unix host ([std::path::Path::components]) *)

Definition SLASH : ascii := "/"%char.

Inductive Component := RootDir | CurDir | ParentDir | Normal (name : string).

(** The pieces between slashes; [acc] is the piece so far. *)
Fixpoint pieces (acc s : string) : list string :=
  match s with
  | EmptyString => [acc]
  | String c s =>
      if decide (c = SLASH) then acc :: pieces EmptyString s
      else pieces (acc +:+ String c EmptyString) s
  end.

Definition piece_component (p : string) : list Component :=
  if decide (p = EmptyString \/ p = ".") then []
  else if decide (p = "..") then [ParentDir] else [Normal p].

Definition components (s : string) : list Component :=
  match pieces EmptyString s with
  | p :: ps =>
      (if decide (p = EmptyString) then match ps with [] => [] | _ => [RootDir] end
       else if decide (p = ".") then [CurDir] else piece_component p)
      ++ concat (map piece_component ps)
  | [] => []
  end.

Definition is_one_segment (value : string) : bool :=
  match components value with [Normal _] => true | _ => false end.

Definition not_one_segment (field value : string) : ResourceError := NotOneSegment field value.

(** [Path::join] of a relative path: a separator unless the parent is empty or
    ends with one. *)
Fixpoint last_char (s : string) : option ascii :=
  match s with
  | EmptyString => None
  | String c EmptyString => Some c
  | String _ s => last_char s
  end.

Definition join (parent child : string) : string :=
  match last_char parent with
  | None => child
  | Some c => if decide (c = SLASH) then parent +:+ child else parent +:+ "/" +:+ child
  end.

(** [CapabilityGenerations::generation_root] *)
Definition generation_root (parent scope : string) (generation : Z) : string :=
  join parent (scope +:+ "-" +:+ pretty generation).

(** [CapabilityGenerations::retire] *)
Definition retire (generation : Z) (g : CapabilityGenerations) : CapabilityGenerations :=
  let l := retired g ++ [generation] in
  mkGenerations (next_generation g) (current g) (drop (length l - CAPABILITY_GENERATION_RETENTION) l).

(** [CapabilityGenerations::stale_refusal] *)
Definition stale_refusal (g : CapabilityGenerations) (generation : Z) : ResourceError :=
  if decide (generation ∈ retired g) then AlreadyRetired generation else Unknown generation.

(** [registered] and [current_generation] *)
Definition registered (g : CapabilityGenerations) (id : string) : option ResourceHolder :=
  h ← current g; if decide (executor_id h = id) then Some h else None.
Definition current_generation (g : CapabilityGenerations) : option Z := owner_generation <$> current g.

Section fs.
Context {FS : Type}.
Variable create_dir : string -> FS -> FS * option IoError.
Variable remove_dir_all : string -> FS -> FS * option IoError.

(** [release_root] *)
Definition release_root (path : string) (fs : FS) : FS * ResourceHolderStatus :=
  let (fs, err) := remove_dir_all path fs in
  (fs, match err with Some (IoOther _) => TerminationUnknown | _ => Terminated end).

(** [ResourceHolder::release] *)
Definition release (h : ResourceHolder) (fs : FS) : FS * ResourceHolder :=
  match root h with
  | None => (fs, h)
  | Some path =>
      let (fs, st) := release_root path fs in
      (fs, mkHolder (resource_scope h) (executor_id h) (owner_generation h) st None (acquired h))
  end.

(** [Drop for ResourceHolder] *)
Definition drop_holder (h : ResourceHolder) (fs : FS) : FS := fst (release h fs).

(** The dependency loop of [prepare]. *)
Fixpoint acquire (path : string) (deps : list string) (done : list string) (fs : FS)
    : FS * result (list string) ResourceError :=
  match deps with
  | [] => (fs, Ok done)
  | dep :: deps =>
      let dir := join path dep in
      match create_dir dir fs with
      | (fs, Some source) =>
          let (fs, disposition) := release_root path fs in
          (fs, Err (Acquire "capability.prepare.dependency" source disposition))
      | (fs, None) => acquire path deps (done ++ [dir]) fs
      end
  end.

Fixpoint check_segments (deps : list string) : result unit ResourceError :=
  match deps with
  | [] => Ok tt
  | dep :: deps =>
      if is_one_segment dep then check_segments deps else Err (not_one_segment "dependency" dep)
  end.

(** [CapabilityGenerations::prepare] *)
Definition prepare (parent executor scope : string) (deps : list string)
    (g : CapabilityGenerations) (fs : FS)
    : outcome (result ResourceHolder ResourceError * CapabilityGenerations * FS) :=
  if negb (is_one_segment scope) then Ret (Err (not_one_segment "resource scope" scope), g, fs)
  else
    match check_segments deps with
    | Err e => Ret (Err e, g, fs)
    | Ok _ =>
        let* generation := add_or_panic u64_max (next_generation g) 1 in
        let g := mkGenerations generation (current g) (retired g) in
        let path := generation_root parent scope generation in
        match create_dir path fs with
        | (fs, Some source) =>
            Ret (Err (Acquire "capability.prepare.root" source Terminated), g, fs)
        | (fs, None) =>
            let (fs, r) := acquire path deps [] fs in
            Ret (let? acquired := r in
                   Ok (mkHolder scope executor generation Active (Some path) acquired), g, fs)
        end
    end.

(** [CapabilityGenerations::publish]: the refused draft, or the generation it
    replaces, is dropped at the end of the call. *)
Definition publish (prepared : ResourceHolder) (g : CapabilityGenerations) (fs : FS)
    : result unit ResourceError * CapabilityGenerations * FS :=
  match current g with
  | Some cur =>
      if decide (owner_generation prepared <= owner_generation cur)%Z
      then (Err (Superseded (owner_generation prepared) (owner_generation cur)), g,
            drop_holder prepared fs)
      else
        (Ok tt,
         retire (owner_generation cur) (mkGenerations (next_generation g) (Some prepared) (retired g)),
         drop_holder cur fs)
  | None => (Ok tt, mkGenerations (next_generation g) (Some prepared) (retired g), fs)
  end.

(** [CapabilityGenerations::publish_started] *)
Definition publish_started (prepared : ResourceHolder) (g : CapabilityGenerations) (fs : FS)
    : CapabilityGenerations * FS :=
  let '(_, g, fs) := publish prepared g fs in (g, fs).

(** [CapabilityGenerations::abandon] *)
Definition abandon (prepared : ResourceHolder) (g : CapabilityGenerations) (fs : FS)
    : ResourceHolderStatus * CapabilityGenerations * FS :=
  let (fs, h) := release prepared fs in
  (status h, retire (owner_generation prepared) g, drop_holder h fs).

(** [CapabilityGenerations::dispose] *)
Definition dispose (generation : Z) (g : CapabilityGenerations) (fs : FS)
    : result ResourceHolderStatus ResourceError * CapabilityGenerations * FS :=
  match current g with
  | Some cur =>
      if decide (owner_generation cur = generation) then
        let (fs, h) := release cur fs in
        (Ok (status h), retire generation (mkGenerations (next_generation g) None (retired g)),
         drop_holder h fs)
      else (Err (stale_refusal g generation), g, fs)
  | None => (Err (stale_refusal g generation), g, fs)
  end.
End fs.

(** * Properties

    Properties of the capability registry ([CapabilityGenerations] of
    [src/src/resources.rs]): numbers are never reissued, a retired generation
    never returns, and every directory it creates has an owner. *)

Section world.
Context {FS : Type}.
Variable create_dir : string -> FS -> FS * option IoError.
Variable remove_dir_all : string -> FS -> FS * option IoError.

(** The registry, the holders prepared and not yet handed over, the file
    system. *)
Record World := mkWorld {
  reg : CapabilityGenerations;
  drafts : list ResourceHolder;
  disk : FS;
}.

(** One call of a launch, or a draft going out of scope. *)
Inductive step (w : World) : World -> Prop :=
  | step_prepare parent exec scope deps r g fs :
      prepare create_dir remove_dir_all parent exec scope deps (reg w) (disk w) = Ret (r, g, fs) ->
      step w (mkWorld g (match r with Ok h => drafts w ++ [h] | Err _ => drafts w end) fs)
  | step_publish d1 h d2 r g fs :
      drafts w = d1 ++ h :: d2 -> publish remove_dir_all h (reg w) (disk w) = (r, g, fs) ->
      step w (mkWorld g (d1 ++ d2) fs)
  | step_abandon d1 h d2 st g fs :
      drafts w = d1 ++ h :: d2 -> abandon remove_dir_all h (reg w) (disk w) = (st, g, fs) ->
      step w (mkWorld g (d1 ++ d2) fs)
  | step_drop d1 h d2 :
      drafts w = d1 ++ h :: d2 ->
      step w (mkWorld (reg w) (d1 ++ d2) (drop_holder remove_dir_all h (disk w)))
  | step_dispose n r g fs :
      dispose remove_dir_all n (reg w) (disk w) = (r, g, fs) -> step w (mkWorld g (drafts w) fs).

Inductive steps (w : World) : World -> Prop :=
  | steps_refl : steps w w
  | steps_step w1 w2 : steps w w1 -> step w1 w2 -> steps w w2.

(** The holders that own resources. *)
Definition owners (w : World) : list ResourceHolder := drafts w ++ option_list (current (reg w)).
Definition numbers (w : World) : list Z := map owner_generation (owners w).

Record world_ok (w : World) : Prop := {
  wo_nodup : NoDup (numbers w);
  wo_issued : forall n, n ∈ numbers w -> (1 <= n <= next_generation (reg w))%Z;
  wo_next : (0 <= next_generation (reg w) <= u64_max)%Z;
  wo_retired : forall n, n ∈ retired (reg w) -> (n ∉ numbers w) /\ (n <= next_generation (reg w))%Z;
  wo_window : length (retired (reg w)) <= CAPABILITY_GENERATION_RETENTION;
}.

Lemma world_ok_new fs : world_ok (mkWorld new [] fs).
Proof.
  split; simpl; [constructor|by intros n H%elem_of_nil|by split|by intros n H%elem_of_nil|lia].
Qed.

Lemma retire_window n g : length (retired (retire n g)) <= CAPABILITY_GENERATION_RETENTION.
Proof. unfold retire. simpl. rewrite length_drop, length_app. simpl. lia. Qed.

Lemma retire_in n g m : m ∈ retired (retire n g) -> m = n \/ m ∈ retired g.
Proof.
  unfold retire. simpl. intros H.
  apply subseteq_drop in H. rename H into Hm.
  apply elem_of_app in Hm as [?|?%list_elem_of_singleton]; auto.
Qed.

Lemma prepare_spec parent exec scope deps g fs r g' fs' :
  prepare create_dir remove_dir_all parent exec scope deps g fs = Ret (r, g', fs') ->
  current g' = current g /\ retired g' = retired g /\
  (next_generation g' = next_generation g \/
   next_generation g' = next_generation g + 1 /\ next_generation g + 1 <= u64_max)%Z /\
  (forall h, r = Ok h ->
    owner_generation h = next_generation g' /\ next_generation g' = (next_generation g + 1)%Z).
Proof.
  unfold prepare. destruct (negb _); [intros [= <- <- <-]; by split_and!; auto|].
  destruct (check_segments deps) as [|e]; [|intros [= <- <- <-]; by split_and!; auto].
  unfold add_or_panic. destruct (checked_add _ _ _) as [n|] eqn:En; [|done]. cbn [obind].
  apply checked_add_Some in En as [-> Hn].
  destruct (create_dir _ fs) as [fs1 [e|]]; [intros [= <- <- <-]; split_and!; simpl; auto; by intros|].
  destruct (acquire _ _ _ _ _ _) as [fs2 [l|e]]; intros [= <- <- <-]; split_and!; simpl; auto;
    intros h [= <-]; done.
Qed.

(** A call that only gives numbers up keeps the registry well formed. *)
Lemma shrink w w' :
  world_ok w -> next_generation (reg w') = next_generation (reg w) ->
  NoDup (numbers w') -> numbers w' ⊆ numbers w ->
  (forall n, n ∈ retired (reg w') -> n ∈ retired (reg w) \/ ((n ∈ numbers w) /\ (n ∉ numbers w'))) ->
  length (retired (reg w')) <= CAPABILITY_GENERATION_RETENTION -> world_ok w'.
Proof.
  intros [Hnd Hi Hn Hr Hw] En Hnd' Hsub Hret Hlen. split; rewrite ?En; [done| |done| |done].
  - intros n Hin. by apply Hi, Hsub.
  - intros n Hin. destruct (Hret n Hin) as [H|[H1 H2]].
    + destruct (Hr n H) as [H1 H2]. split; [|done]. intros H3. by apply H1, Hsub.
    + split; [done|]. apply Hi in H1. lia.
Qed.

Lemma numbers_split w d1 h d2 :
  drafts w = d1 ++ h :: d2 ->
  numbers w ≡ₚ owner_generation h :: map owner_generation (d1 ++ d2) ++
                 map owner_generation (option_list (current (reg w))).
Proof.
  intros E. unfold numbers, owners. rewrite E, !map_app. simpl. rewrite <- !app_assoc. simpl.
  by rewrite <- Permutation_middle.
Qed.

(** Both lists of a split, without and with the number given up. *)
Lemma split_facts w d1 h d2 :
  world_ok w -> drafts w = d1 ++ h :: d2 ->
  let rest := map owner_generation (d1 ++ d2) ++ map owner_generation (option_list (current (reg w))) in
  NoDup rest /\ (owner_generation h ∉ rest) /\ rest ⊆ numbers w /\ owner_generation h ∈ numbers w.
Proof.
  intros Hw E rest. pose proof (wo_nodup w Hw) as Hnd. pose proof (numbers_split w d1 h d2 E) as Hp.
  fold rest in Hp. rewrite Hp in Hnd. apply NoDup_cons in Hnd as [Hh Hnd]. split_and!; [done..| |].
  - intros n Hn. rewrite Hp. by right.
  - rewrite Hp. by left.
Qed.

Lemma give_up_ok w d1 h d2 g fs :
  world_ok w -> drafts w = d1 ++ h :: d2 -> g = reg w \/ g = retire (owner_generation h) (reg w) ->
  world_ok (mkWorld g (d1 ++ d2) fs).
Proof.
  intros Hw E Hg. destruct (split_facts w d1 h d2 Hw E) as (Hnd & Hh & Hsub & Hin).
  assert (Hn : numbers (mkWorld g (d1 ++ d2) fs) =
    map owner_generation (d1 ++ d2) ++ map owner_generation (option_list (current (reg w)))).
  { unfold numbers, owners. simpl. rewrite map_app. by destruct Hg as [->| ->]. }
  apply (shrink w); rewrite ?Hn; simpl; try done.
  - by destruct Hg as [->| ->].
  - destruct Hg as [->| ->]; [auto|]. intros n H%retire_in. naive_solver.
  - destruct Hg as [->| ->]; [apply Hw|apply retire_window].
Qed.

Lemma publish_ok w d1 h d2 r g fs :
  world_ok w -> drafts w = d1 ++ h :: d2 -> publish remove_dir_all h (reg w) (disk w) = (r, g, fs) ->
  world_ok (mkWorld g (d1 ++ d2) fs).
Proof.
  intros Hw E Hp. destruct (split_facts w d1 h d2 Hw E) as (Hnd & Hh & Hsub & Hin).
  unfold publish in Hp. destruct (current (reg w)) as [cur|] eqn:Ec; simpl in Hnd, Hh, Hsub.
  - destruct (decide _) as [Hle|Hgt]; simplify_eq.
    + by eapply give_up_ok; [..|left].
    + set (rest := map owner_generation (d1 ++ d2)) in *.
      apply NoDup_app in Hnd as (Hnd & Hc & _). apply not_elem_of_app in Hh as [Hh Hhc].
      apply (shrink w); unfold numbers, owners; simpl; try done.
      * rewrite map_app. fold rest. apply NoDup_app. split_and!; [done| |apply NoDup_singleton].
        intros x Hx Hx'%list_elem_of_singleton. by subst.
      * rewrite map_app. fold rest. intros n [Hn|Hn%list_elem_of_singleton]%elem_of_app; [|by subst].
        apply Hsub, elem_of_app. by left.
      * intros n Hn. apply retire_in in Hn as [->|Hn]; [|by left]. right. split.
        -- apply Hsub, elem_of_app. right. by left.
        -- rewrite map_app. fold rest. intros [Hn|Hn%list_elem_of_singleton]%elem_of_app.
           ++ apply (Hc (owner_generation cur)); [done|by left].
           ++ apply Hhc. rewrite <- Hn. by left.
      * apply retire_window.
  - simplify_eq. rewrite app_nil_r in Hnd, Hh, Hsub.
    apply (shrink w); unfold numbers, owners; simpl; try done.
    + rewrite map_app. apply NoDup_app. split_and!; [done| |apply NoDup_singleton].
      intros x Hx Hx'%list_elem_of_singleton. by subst.
    + rewrite map_app. intros n [Hn|Hn%list_elem_of_singleton]%elem_of_app; [by apply Hsub|by subst].
    + intros n Hn. by left.
    + apply Hw.
Qed.

Lemma dispose_ok w n r g fs :
  world_ok w -> dispose remove_dir_all n (reg w) (disk w) = (r, g, fs) ->
  world_ok (mkWorld g (drafts w) fs).
Proof.
  intros Hw Hd. unfold dispose in Hd. destruct (current (reg w)) as [cur|] eqn:Ec.
  - destruct (decide (owner_generation cur = n)) as [<-|Hne].
    + destruct (release _ _ _) as [fs1 h]. simplify_eq.
      pose proof (wo_nodup w Hw) as Hnd. unfold numbers, owners in Hnd. rewrite Ec, map_app in Hnd.
      simpl in Hnd. apply NoDup_app in Hnd as (Hnd & Hc & _).
      assert (Hnn : numbers w = map owner_generation (drafts w) ++ [owner_generation cur]).
      { unfold numbers, owners. by rewrite Ec, map_app. }
      apply (shrink w); rewrite ?Hnn; unfold numbers, owners; simpl; rewrite ?app_nil_r; try done.
      * intros x Hx. apply elem_of_app. by left.
      * intros x Hx. apply retire_in in Hx as [->|Hx]; [|by left]. right. split.
        -- apply elem_of_app. right. by left.
        -- intros Hin. apply (Hc _ Hin). by left.
      * apply retire_window.
    + simplify_eq. destruct w. by simpl in *.
  - simplify_eq. destruct w. by simpl in *.
Qed.

Lemma step_ok w w' : world_ok w -> step w w' -> world_ok w'.
Proof.
  intros Hw Hs. destruct Hs as [parent exec scope deps r g fs Hp|d1 h d2 r g fs E Hp|d1 h d2 st g fs E Ha
    |d1 h d2 E|n r g fs Hd].
  - apply prepare_spec in Hp as (Hc & Hr & Hn & Hh). destruct Hw as [Hnd Hi Hnx Hrt Hwin].
    assert (Hown : forall ds, numbers (mkWorld g ds fs) =
      map owner_generation ds ++ map owner_generation (option_list (current (reg w)))).
    { intros ds. unfold numbers, owners. simpl. by rewrite Hc, map_app. }
    assert (Hold : numbers w = map owner_generation (drafts w) ++
      map owner_generation (option_list (current (reg w)))) by (unfold numbers, owners; by rewrite map_app).
    destruct r as [h|e].
    + destruct (Hh h eq_refl) as [Hg Hn']. set (cur := map owner_generation (option_list _)) in *.
      assert (Hperm : numbers (mkWorld g (drafts w ++ [h]) fs) ≡ₚ owner_generation h :: numbers w).
      { rewrite Hown, Hold, map_app, <- app_assoc. simpl. by rewrite <- Permutation_middle. }
      split; simpl; rewrite ?Hr; [| |lia| |done].
      * rewrite Hperm. apply NoDup_cons. split; [|done]. intros Hin%Hi. lia.
      * intros n. rewrite Hperm. intros [->|Hin%Hi]%elem_of_cons; lia.
      * intros n Hin. destruct (Hrt n Hin) as [H1 H2]. rewrite Hperm. split; [|lia].
        intros [->|H3]%elem_of_cons; [lia|done].
    + split; simpl; rewrite ?Hr, ?Hown, <- ?Hold; [done| |lia| |done].
      * intros n Hin%Hi. lia.
      * intros n Hin. destruct (Hrt n Hin). split; [done|lia].
  - by eapply publish_ok.
  - unfold abandon in Ha. destruct (release _ _ _) as [fs1 h1]. simplify_eq. by eapply give_up_ok; [..|right].
  - by eapply give_up_ok; [..|left].
  - by eapply dispose_ok.
Qed.

Lemma steps_ok w w' : world_ok w -> steps w w' -> world_ok w'.
Proof. intros Hw. induction 1 as [|w1 w2 _ IH Hs]; [done|]. by eapply step_ok. Qed.

(** A number nobody owns any more stays without an owner. *)
Definition gone (n : Z) (w : World) : Prop := (n <= next_generation (reg w))%Z /\ n ∉ numbers w.

Lemma step_numbers w w' n :
  step w w' -> n ∈ numbers w' -> n ∈ numbers w \/ (next_generation (reg w) < n)%Z.
Proof.
  intros Hs Hn. destruct Hs as [parent exec scope deps r g fs Hp|d1 h d2 r g fs E Hp|d1 h d2 st g fs E Ha
    |d1 h d2 E|m r g fs Hd]; unfold numbers, owners in *; simpl in *; rewrite ?map_app in *.
  - apply prepare_spec in Hp as (Hc & _ & _ & Hh). rewrite Hc in Hn. destruct r as [h|e]; [|by left].
    destruct (Hh h eq_refl) as [Hg Hg']. rewrite map_app in Hn. simpl in Hn.
    rewrite !elem_of_app in *. destruct Hn as [[Hn|Hn%list_elem_of_singleton]|Hn]; [tauto|right; lia|tauto].
  - left. rewrite E, map_app. simpl. unfold publish in Hp.
    destruct (current (reg w)) as [cur|] eqn:Ec; [destruct (decide _)|]; simplify_eq; simpl in Hn;
      rewrite ?Ec in Hn; rewrite ?elem_of_app, ?elem_of_cons in *; simpl in *;
      rewrite ?elem_of_app, ?elem_of_cons in *; naive_solver.
  - left. rewrite E, map_app. simpl. unfold abandon in Ha. destruct (release _ _ _). simplify_eq.
    simpl in Hn. rewrite ?elem_of_app, ?elem_of_cons in *. tauto.
  - left. rewrite E, map_app. simpl. rewrite ?elem_of_app, ?elem_of_cons in *. tauto.
  - left. unfold dispose in Hd. destruct (current (reg w)) as [cur|] eqn:Ec; [destruct (decide _)|].
    + destruct (release _ _ _). simplify_eq. simpl in Hn. rewrite app_nil_r in Hn.
      apply elem_of_app. by left.
    + simplify_eq. by rewrite Ec in Hn.
    + simplify_eq. by rewrite Ec in Hn.
Qed.

Lemma step_next w w' : step w w' -> (next_generation (reg w) <= next_generation (reg w'))%Z.
Proof.
  intros Hs. destruct Hs as [parent exec scope deps r g fs Hp|d1 h d2 r g fs E Hp|d1 h d2 st g fs E Ha
    |d1 h d2 E|n r g fs Hd]; simpl; [|unfold publish in Hp|unfold abandon in Ha|done|unfold dispose in Hd].
  - apply prepare_spec in Hp as (_ & _ & Hn & _). lia.
  - destruct (current (reg w)); [destruct (decide _)|]; by simplify_eq.
  - destruct (release _ _ _). by simplify_eq.
  - destruct (current (reg w)); [destruct (decide _)|]; [destruct (release _ _ _)|..]; by simplify_eq.
Qed.

Lemma steps_gone n w w' : steps w w' -> gone n w -> gone n w'.
Proof.
  intros Hs Hg. induction Hs as [|w1 w2 _ IH Hs]; [done|]. destruct IH as [Hn Hno].
  pose proof (step_next _ _ Hs). split; [lia|]. intros Hin.
  destruct (step_numbers _ _ _ Hs Hin); [done|lia].
Qed.
(** * Ownership of directories *)

(** [q] is the directory [p] or a path inside it. *)
Definition beneath (p q : string) : Prop := q = p \/ String.prefix (join p EmptyString) q = true.

Lemma beneath_join p d : beneath p (join p d).
Proof.
  right. unfold join. destruct (last_char p) as [c|]; [|by destruct d].
  destruct (decide (c = SLASH)).
  - rewrite string_app_nil_r. apply prefix_app.
  - rewrite !string_app_assoc, string_app_nil_r. apply prefix_app.
Qed.

Section live.
(** Which paths exist on a disk, and the documented effect of the two
    [std::fs] calls on it. *)
Context (live : FS -> string -> Prop).
Hypothesis create_live : forall p fs fs' e q, create_dir p fs = (fs', e) -> live fs' q ->
  live fs q \/ (e = None /\ q = p).
Hypothesis remove_live : forall p fs fs' e q, remove_dir_all p fs = (fs', e) -> live fs' q ->
  live fs q /\ (e = None -> ~ beneath p q).
Hypothesis remove_absent : forall p fs fs' q, remove_dir_all p fs = (fs', Some IoNotFound) ->
  live fs' q -> ~ beneath p q.
(** No removal fails (a failed one is reported as [TerminationUnknown]). *)
Hypothesis remove_works : forall p fs m, snd (remove_dir_all p fs) <> Some (IoOther m).

Lemma release_root_live p fs q :
  live (fst (release_root remove_dir_all p fs)) q -> live fs q /\ ~ beneath p q.
Proof.
  unfold release_root. pose proof (remove_works p fs) as Hw.
  destruct (remove_dir_all p fs) as [fs' e] eqn:E. simpl in *. intros Hq.
  destruct (remove_live _ _ _ _ _ E Hq) as [H1 H2]. split; [done|].
  destruct e as [[|m]|]; [by eapply remove_absent|by destruct (Hw m)|by apply H2].
Qed.

Lemma drop_live h fs q :
  live (drop_holder remove_dir_all h fs) q ->
  live fs q /\ forall p, root h = Some p -> ~ beneath p q.
Proof.
  unfold drop_holder, release. destruct (root h) as [p|]; [|by split].
  pose proof (release_root_live p fs q) as H.
  destruct (release_root remove_dir_all p fs) as [fs' st]. simpl in *. intros Hq.
  destruct (H Hq). split; [done|]. by intros p' [= <-].
Qed.

Lemma release_drop h fs :
  drop_holder remove_dir_all (snd (release remove_dir_all h fs)) (fst (release remove_dir_all h fs))
    = drop_holder remove_dir_all h fs.
Proof.
  unfold drop_holder, release. destruct (root h) as [p|] eqn:E; simpl; [|by rewrite E].
  by destruct (release_root remove_dir_all p fs).
Qed.

Lemma acquire_live path deps done fs fs' r q :
  acquire create_dir remove_dir_all path deps done fs = (fs', r) -> live fs' q ->
  (live fs q \/ beneath path q) /\ (is_ok r = false -> ~ beneath path q).
Proof.
  revert done fs. induction deps as [|d deps IH]; intros done fs; simpl;
    [intros [= <- <-] Hq; by split; [left|]|].
  destruct (create_dir (join path d) fs) as [fs1 [e|]] eqn:Ec.
  - pose proof (release_root_live path fs1 q) as H.
    destruct (release_root remove_dir_all path fs1) as [fs2 st]. intros [= <- <-] Hq.
    destruct (H Hq) as [Hl Hn]. split; [|done].
    destruct (create_live _ _ _ _ _ Ec Hl) as [?|[? _]]; [by left|done].
  - intros Ha Hq. destruct (IH _ _ Ha Hq) as [Hl Hn]. split; [|done].
    destruct Hl as [Hl|?]; [|by right].
    destruct (create_live _ _ _ _ _ Ec Hl) as [?|[_ ->]]; [by left|]. right. apply beneath_join.
Qed.

(** Every path on the disk was there before or belongs to a holder. *)
Definition owned (fs0 : FS) (w : World) : Prop :=
  forall q, live (disk w) q ->
    live fs0 q \/ exists h p, h ∈ owners w /\ root h = Some p /\ beneath p q.

Lemma owned_drop fs0 w w' gone_h :
  owned fs0 w -> (forall h, h ∈ owners w -> h = gone_h \/ h ∈ owners w') ->
  disk w' = drop_holder remove_dir_all gone_h (disk w) -> owned fs0 w'.
Proof.
  intros Ho Hsub Hd q Hq. rewrite Hd in Hq. apply drop_live in Hq as [Hq Hn].
  destruct (Ho q Hq) as [?|(h & p & Hh & Hp & Hb)]; [by left|].
  destruct (Hsub h Hh) as [->|Hh']; [by destruct (Hn p Hp)|]. right. eauto.
Qed.

Lemma owned_same fs0 w w' :
  owned fs0 w -> (forall h, h ∈ owners w -> h ∈ owners w') -> disk w' = disk w -> owned fs0 w'.
Proof.
  intros Ho Hsub Hd q Hq. rewrite Hd in Hq.
  destruct (Ho q Hq) as [?|(h & p & Hh & Hp & Hb)]; [by left|]. right. eauto 6.
Qed.

Lemma owners_elem w h :
  h ∈ owners w <-> h ∈ drafts w \/ current (reg w) = Some h.
Proof.
  unfold owners. rewrite elem_of_app. destruct (current (reg w)) as [c|]; simpl.
  - rewrite list_elem_of_singleton. naive_solver.
  - rewrite elem_of_nil. naive_solver.
Qed.

Lemma step_owned fs0 w w' : owned fs0 w -> step w w' -> owned fs0 w'.
Proof.
  intros Ho Hs. destruct Hs as [parent exec scope deps r g fs Hp|d1 h d2 r g fs E Hp|d1 h d2 st g fs E Ha
    |d1 h d2 E|n r g fs Hd].
  - intros q Hq. simpl in Hq. pose proof (prepare_spec _ _ _ _ _ _ _ _ _ Hp) as (Hc & _).
    assert (Hold : live (disk w) q -> live fs0 q \/ exists h p,
      h ∈ owners (mkWorld g (match r with Ok h => drafts w ++ [h] | Err _ => drafts w end) fs) /\
      root h = Some p /\ beneath p q).
    { intros Hl. destruct (Ho q Hl) as [?|(h & p & Hh & Hr & Hb)]; [by left|]. right. exists h, p.
      split; [|done]. rewrite owners_elem in *. simpl. rewrite Hc.
      destruct Hh; [left|by right]. destruct r; [apply elem_of_app; by left|done]. }
    unfold prepare in Hp. destruct (negb _); [by simplify_eq; auto|].
    destruct (check_segments deps); [|by simplify_eq; auto].
    destruct (add_or_panic _ _ _) as [n| |]; [|done..]. cbn [obind] in Hp.
    destruct (create_dir _ (disk w)) as [fs1 [e|]] eqn:Ec.
    + simplify_eq. destruct (create_live _ _ _ _ _ Ec Hq) as [?|[? _]]; [auto|done].
    + destruct (acquire _ _ _ _ _ _) as [fs2 ra] eqn:Ea. simplify_eq.
      destruct (acquire_live _ _ _ _ _ _ _ Ea Hq) as [Hl Hn].
      assert (Hl' : live (disk w) q \/ beneath (generation_root parent scope n) q).
      { destruct Hl as [Hl|?]; [|by right].
        destruct (create_live _ _ _ _ _ Ec Hl) as [?|[_ ->]]; [by left|]. right. by left. }
      destruct Hl' as [Hl'|Hb]; [auto|]. destruct ra as [l|e]; [|by destruct (Hn eq_refl Hb)].
      right. exists (mkHolder scope exec n Active (Some (generation_root parent scope n)) l), (generation_root parent scope n).
      split; [|split; [reflexivity|exact Hb]].
      apply owners_elem. left. apply elem_of_app. right. by left.
  - unfold publish in Hp. destruct (current (reg w)) as [cur|] eqn:Ec.
    + destruct (decide _); simplify_eq.
      * apply (owned_drop fs0 w _ h Ho); [|done]. intros x. rewrite !owners_elem, E. simpl.
        rewrite !elem_of_app, elem_of_cons. tauto.
      * apply (owned_drop fs0 w _ cur Ho); [|done]. intros x. rewrite !owners_elem, E, Ec. simpl.
        rewrite !elem_of_app, elem_of_cons. naive_solver.
    + simplify_eq. apply (owned_same fs0 w _ Ho); [|done]. intros x. rewrite !owners_elem, E, Ec. simpl.
      rewrite !elem_of_app, elem_of_cons. naive_solver.
  - unfold abandon in Ha. pose proof (release_drop h (disk w)) as Hrd.
    destruct (release _ _ _) as [fs1 h1]. simplify_eq.
    apply (owned_drop fs0 w _ h Ho); [|done]. intros x. rewrite !owners_elem, E. simpl.
    rewrite !elem_of_app, elem_of_cons. tauto.
  - apply (owned_drop fs0 w _ h Ho); [|done]. intros x. rewrite !owners_elem, E. simpl.
    rewrite !elem_of_app, elem_of_cons. tauto.
  - unfold dispose in Hd. destruct (current (reg w)) as [cur|] eqn:Ec; [destruct (decide _)|].
    + pose proof (release_drop cur (disk w)) as Hrd. destruct (release _ _ _) as [fs1 h1]. simplify_eq.
      apply (owned_drop fs0 w _ cur Ho); [|done]. intros x. rewrite !owners_elem, Ec. simpl. naive_solver.
    + simplify_eq. apply (owned_same fs0 w _ Ho); [intros x Hx; exact Hx|done].
    + simplify_eq. apply (owned_same fs0 w _ Ho); [intros x Hx; exact Hx|done].
Qed.

Lemma steps_owned fs0 w w' : owned fs0 w -> steps w w' -> owned fs0 w'.
Proof. intros Ho. induction 1 as [|w1 w2 _ IH Hs]; [done|]. by eapply step_owned. Qed.
End live.
End world.

(** * Properties *)

(** Over any history of prepares, publishes, abandons, drops and disposals,
    the numbers owned by drafts and by the current generation are pairwise
    distinct and were issued, no retired number is owned by anyone, and the
    retirement window stays within its bound. *)
Theorem generations_are_unique {FS} create_dir remove_dir_all (fs : FS) w :
  steps create_dir remove_dir_all (mkWorld new [] fs) w ->
  NoDup (numbers w) /\ (forall n, n ∈ numbers w -> (1 <= n <= next_generation (reg w))%Z) /\
  (forall n, n ∈ retired (reg w) -> (n ∉ numbers w)) /\
  length (retired (reg w)) <= CAPABILITY_GENERATION_RETENTION.
Proof.
  intros Hs. destruct (steps_ok _ _ _ _ (world_ok_new fs) Hs) as [Hnd Hi _ Hr Hw].
  split_and!; [done|done| |done]. intros n Hn. by apply Hr.
Qed.

(** A number that lost its owner (retired, refused or dropped) never
    becomes current again, and a disposer still carrying it is refused without
    touching the registry or the file system: an old generation cannot retire a
    newer registration. *)
Theorem old_generation_never_returns {FS} create_dir remove_dir_all (fs : FS) w w' n :
  steps create_dir remove_dir_all (mkWorld new [] fs) w ->
  (n <= next_generation (reg w))%Z -> (n ∉ numbers w) ->
  steps create_dir remove_dir_all w w' ->
  current_generation (reg w') <> Some n /\
  dispose remove_dir_all n (reg w') (disk w') = (Err (stale_refusal (reg w') n), reg w', disk w').
Proof.
  intros Hs Hn Hno Hs'. destruct (steps_gone _ _ n w w' Hs' (conj Hn Hno)) as [_ Hg].
  assert (Hc : current_generation (reg w') <> Some n).
  { intros Hc. apply Hg. unfold numbers, owners, current_generation in *.
    destruct (current (reg w')) as [cur|]; simpl in Hc; [|done]. injection Hc as <-.
    rewrite map_app. apply elem_of_app. right. by left. }
  split; [done|]. unfold dispose, current_generation in *.
  destruct (current (reg w')) as [cur|]; [|done]. simpl in Hc.
  rewrite decide_False; [done|]. congruence.
Qed.

(** Nothing leaks: when removals succeed, every path on the disk was there
    before the registry started or lies under the root of a draft or of the
    current generation, failed prepares, refused publishes and disposals
    included. *)
Theorem no_directory_leaks {FS} create_dir remove_dir_all (live : FS -> string -> Prop) fs w :
  (forall p fs fs' e q, create_dir p fs = (fs', e) -> live fs' q -> live fs q \/ (e = None /\ q = p)) ->
  (forall p fs fs' e q, remove_dir_all p fs = (fs', e) -> live fs' q ->
    live fs q /\ (e = None -> ~ beneath p q)) ->
  (forall p fs fs' q, remove_dir_all p fs = (fs', Some IoNotFound) -> live fs' q -> ~ beneath p q) ->
  (forall p fs m, snd (remove_dir_all p fs) <> Some (IoOther m)) ->
  steps create_dir remove_dir_all (mkWorld new [] fs) w ->
  forall q, live (disk w) q ->
    live fs q \/ exists h p, h ∈ owners w /\ root h = Some p /\ beneath p q.
Proof.
  intros H1 H2 H3 H4 Hs. eapply (steps_owned create_dir remove_dir_all live); try done.
  intros q Hq. by left.
Qed.

(** * Witnesses *)

(** A disk is the list of its directories. *)
Definition list_create (p : string) (fs : list string) : list string * option IoError :=
  if decide (p ∈ fs) then (fs, Some (IoOther "exists")) else (p :: fs, None).
Definition inside (p q : string) : bool :=
  bool_decide (q = p) || String.prefix (join p EmptyString) q.
Definition list_remove (p : string) (fs : list string) : list string * option IoError :=
  (filter (fun q => inside p q = false) fs, None).

Lemma inside_spec p q : inside p q = false <-> ~ beneath p q.
Proof.
  unfold inside, beneath. rewrite orb_false_iff, bool_decide_eq_false.
  destruct (String.prefix _ q); naive_solver.
Qed.

(** One launch prepared and published. *)
Definition launched : World :=
  mkWorld (mkGenerations 1 (Some (mkHolder "cap" "exec" 1 Active (Some "/run/cap-1") ["/run/cap-1/dep"])) [])
    [] ["/run/cap-1/dep"; "/run/cap-1"].

Lemma launched_steps : steps list_create list_remove (mkWorld new [] []) launched.
Proof.
  apply (steps_step _ _ _ (mkWorld (mkGenerations 1 None [])
    [mkHolder "cap" "exec" 1 Active (Some "/run/cap-1") ["/run/cap-1/dep"]]
    ["/run/cap-1/dep"; "/run/cap-1"])).
  - eapply steps_step; [apply steps_refl|].
    exact (step_prepare list_create list_remove (mkWorld new [] []) "/run" "exec" "cap" ["dep"]
      (Ok (mkHolder "cap" "exec" 1 Active (Some "/run/cap-1") ["/run/cap-1/dep"]))
      (mkGenerations 1 None []) ["/run/cap-1/dep"; "/run/cap-1"] ltac:(vm_compute; reflexivity)).
  - exact (step_publish list_create list_remove (mkWorld (mkGenerations 1 None [])
      [mkHolder "cap" "exec" 1 Active (Some "/run/cap-1") ["/run/cap-1/dep"]]
      ["/run/cap-1/dep"; "/run/cap-1"]) [] _ [] (Ok tt) _ _ eq_refl ltac:(vm_compute; reflexivity)).
Qed.

Lemma generations_are_unique_witness : NoDup (numbers launched).
Proof. exact (proj1 (generations_are_unique list_create list_remove [] launched launched_steps)). Defined.

Lemma old_generation_never_returns_witness :
  dispose list_remove 0 (reg launched) (disk launched) =
    (Err (Unknown 0), reg launched, disk launched).
Proof.
  refine (proj2 (old_generation_never_returns list_create list_remove [] launched launched 0
    launched_steps _ _ (steps_refl _ _ _))).
  - by vm_compute.
  - intros H. apply list_elem_of_singleton in H. discriminate H.
Defined.

Lemma no_directory_leaks_witness :
  exists h p, h ∈ owners launched /\ root h = Some p /\ beneath p "/run/cap-1/dep".
Proof.
  destruct (no_directory_leaks list_create list_remove (fun fs q => q ∈ fs) [] launched) with (q := "/run/cap-1/dep")
    as [H|H].
  - unfold list_create. intros p fs fs' e q. case_decide; intros [= <- <-] Hq; [by left|].
    apply elem_of_cons in Hq as [->|Hq]; [by right|by left].
  - intros p fs fs' e q [= <- <-] Hq. apply list_elem_of_filter in Hq as [Hi Hq].
    split; [done|]. intros _. by apply inside_spec.
  - done.
  - done.
  - apply launched_steps.
  - by left.
  - by apply elem_of_nil in H.
  - exact H.
Defined.
