(* ===== verification/Notifications.v ===== *)
(** Usage reports and the bounded notification queue ([UsageDelta], [UsageBins],
    [Exactness], [NotificationQueue] of [src/src/resources.rs]), with their
    properties. *)

From S2P Require Import Prelude.
From S2P Require Import Contracts.

(** * Usage reports; a [u64] counter is a [Z] *)

Record Legs := mkLegs {
  l_prompt_tokens : option Z;
  l_completion_tokens : option Z;
  l_reasoning_tokens : option Z;
  l_cache_read_tokens : option Z;
  l_cache_write_tokens : option Z;
  l_total_tokens : option Z;
}.

Inductive UsageDelta :=
  | UsageUnknown
  | UsageExact (prompt_tokens completion_tokens total_tokens : Z)
  | UsageLegs (legs : Legs).

(** [UsageBins] has the fields of the legs. *)
Definition UsageBins : Type := Legs.
Definition default_bins : UsageBins := mkLegs None None None None None None.

Inductive Exactness := Exact | Estimate | UnknownExactness.

Definition exactness_as_str (e : Exactness) : string :=
  match e with Exact => "exact" | Estimate => "estimate" | UnknownExactness => "unknown" end.

Definition exactness_from_db (value : string) : option Exactness :=
  if decide (value = "exact") then Some Exact
  else if decide (value = "estimate") then Some Estimate
  else if decide (value = "unknown") then Some UnknownExactness else None.

#[export] Instance Exactness_vocabulary : Vocabulary Exactness.
Proof. apply (Build_Vocabulary _ exactness_as_str exactness_from_db); unfold exactness_from_db; vocabulary. Defined.

Definition is_some {A} (o : option A) : bool := match o with Some _ => true | None => false end.

(** [UsageDelta::from_reported] *)
Definition from_reported (prompt completion total : Z) (reasoning cache_read cache_write : option Z)
    : UsageDelta :=
  if is_some reasoning || is_some cache_read || is_some cache_write
  then UsageLegs (mkLegs (Some prompt) (Some completion) reasoning cache_read cache_write (Some total))
  else UsageExact prompt completion total.

Definition confirmed_total (u : UsageDelta) : option Z :=
  match u with
  | UsageUnknown => None
  | UsageExact _ _ total => Some total
  | UsageLegs l => l_total_tokens l
  end.

Definition bins (u : UsageDelta) : UsageBins :=
  match u with
  | UsageUnknown => default_bins
  | UsageExact p c t => mkLegs (Some p) (Some c) None None None (Some t)
  | UsageLegs l => l
  end.

Definition exactness (u : UsageDelta) : Exactness :=
  match u with
  | UsageUnknown => UnknownExactness
  | UsageExact _ _ _ => Exact
  | UsageLegs l => if is_some (l_total_tokens l) then Exact else Estimate
  end.

(** * The notification queue *)

Section queue.
Context {Value : Type}.

Inductive Delivery := DeliverEvent (e : Event Value) | ResyncMarker.

Record NotificationQueue := mkQueue {
  capacity : nat;
  pending : list (Event Value);
  overflowed : bool;
}.

(** [NotificationQueue::new] *)
Definition new (capacity : nat) : NotificationQueue := mkQueue capacity [] false.

(** [NotificationQueue::push] *)
Definition push (e : Event Value) (q : NotificationQueue) : NotificationQueue :=
  if decide (capacity q <= length (pending q)) then mkQueue (capacity q) [e] true
  else mkQueue (capacity q) (pending q ++ [e]) (overflowed q).

(** [NotificationQueue::drain]: a marker first, then events while the output
    is shorter than the limit. *)
Definition drain (limit : nat) (q : NotificationQueue) : list Delivery * NotificationQueue :=
  let out := if overflowed q then [ResyncMarker] else [] in
  let n := limit - length out in
  (out ++ map DeliverEvent (take n (pending q)), mkQueue (capacity q) (drop n (pending q)) false).

(** [NotificationQueue::len] and [is_empty] *)
Definition len (q : NotificationQueue) : nat := length (pending q).
Definition is_empty (q : NotificationQueue) : bool := bool_decide (len q = 0).

(** ** A queue's life *)

Inductive op := Push (e : Event Value) | Drain (limit : nat).

Definition pushed (ops : list op) : list (Event Value) :=
  omap (fun o => match o with Push e => Some e | Drain _ => None end) ops.

(** What the queue delivered so far, and the queue. *)
Definition apply_op (s : list Delivery * NotificationQueue) (o : op) : list Delivery * NotificationQueue :=
  match o with
  | Push e => (fst s, push e (snd s))
  | Drain limit => let (out, q) := drain limit (snd s) in (fst s ++ out, q)
  end.

Definition run (capacity : nat) (ops : list op) : list Delivery * NotificationQueue :=
  foldl apply_op ([], new capacity) ops.

(** What the queue still owes. *)
Definition outstanding (q : NotificationQueue) : list Delivery :=
  (if overflowed q then [ResyncMarker] else []) ++ map DeliverEvent (pending q).

(** Deliveries account for the pushed events: each is delivered in its turn, or
    lies in a gap that a resync marker announces at its place. *)
Inductive accounts : list (Event Value) -> list Delivery -> Prop :=
  | acc_nil : accounts [] []
  | acc_event e p d : accounts p d -> accounts (e :: p) (DeliverEvent e :: d)
  | acc_gap lost p d : accounts p d -> accounts (lost ++ p) (ResyncMarker :: d).

Lemma accounts_app p1 d1 p2 d2 : accounts p1 d1 -> accounts p2 d2 -> accounts (p1 ++ p2) (d1 ++ d2).
Proof.
  induction 1 as [|e p d _ IH|lost p d _ IH]; intros H; simpl; [done|by apply acc_event, IH|].
  rewrite <- app_assoc. by apply acc_gap, IH.
Qed.

Lemma accounts_split p d1 d2 :
  accounts p (d1 ++ d2) -> exists p1 p2, p = p1 ++ p2 /\ accounts p1 d1 /\ accounts p2 d2.
Proof.
  revert p. induction d1 as [|x d1 IH]; intros p H; simpl in H; [exists [], p; by split_and!; [|constructor|]|].
  inversion H as [|e p' d' H'|lost p' d' H']; subst; destruct (IH _ H') as (p1 & p2 & -> & H1 & H2).
  - exists (e :: p1), p2. split_and!; [done|by apply acc_event|done].
  - exists (lost ++ p1), p2. split_and!; [by rewrite app_assoc|by apply acc_gap|done].
Qed.

Lemma accounts_one e : accounts [e] [DeliverEvent e].
Proof. apply acc_event, acc_nil. Qed.

Lemma drain_outstanding limit q :
  fst (drain limit q) ++ outstanding (snd (drain limit q)) = outstanding q.
Proof.
  unfold drain, outstanding. simpl. rewrite <- app_assoc. f_equal.
  by rewrite <- map_app, take_drop.
Qed.

Lemma run_snoc c ops o : run c (ops ++ [o]) = apply_op (run c ops) o.
Proof. unfold run. by rewrite foldl_app. Qed.

Lemma pushed_snoc ops o :
  pushed (ops ++ [o]) = pushed ops ++ match o with Push e => [e] | Drain _ => [] end.
Proof. unfold pushed. rewrite omap_app. by destruct o. Qed.

Lemma run_accounts c ops :
  accounts (pushed ops) (fst (run c ops) ++ outstanding (snd (run c ops))) /\
  length (pending (snd (run c ops))) <= 1 `max` c /\ capacity (snd (run c ops)) = c.
Proof.
  induction ops as [|o ops IH] using rev_ind; [split_and!; [constructor|simpl; lia|done]|].
  rewrite run_snoc, pushed_snoc. destruct (run c ops) as [out q]. simpl in IH. destruct IH as (Ha & Hl & Hc).
  destruct o as [e|limit].
  - simpl. unfold push. case_decide as Hfull; simpl.
    + split_and!; [|lia|done]. apply accounts_split in Ha as (p1 & p2 & -> & H1 & _).
      rewrite <- app_assoc. apply accounts_app; [done|].
      replace (outstanding (mkQueue (capacity q) [e] true)) with [ResyncMarker; DeliverEvent e] by done.
      apply acc_gap, accounts_one.
    + split_and!; [|rewrite length_app; simpl; lia|done].
      unfold outstanding. simpl. rewrite map_app, !app_assoc.
      apply accounts_app; [|apply accounts_one]. by rewrite <- app_assoc.
  - rewrite app_nil_r. pose proof (drain_outstanding limit q) as Hd.
    change (apply_op (out, q) (Drain limit)) with (out ++ fst (drain limit q), snd (drain limit q)).
    cbn [fst snd]. split_and!; [by rewrite <- app_assoc, Hd| |done].
    simpl. rewrite length_drop. lia.
Qed.

(** [drain]'s comment promises at most [limit] deliveries; the marker is not
    counted against a limit of zero. *)
Lemma drain_zero q : overflowed q = true -> fst (drain 0 q) = [ResyncMarker].
Proof. intros H. unfold drain. by rewrite H. Qed.
End queue.

Arguments Delivery : clear implicits.
Arguments NotificationQueue : clear implicits.
Arguments op : clear implicits.

(** * Properties *)

(** No notification is dropped silently: over any history of pushes and
    drains, the deliveries made and those still owed account for every pushed
    event in order, each one delivered or covered by a resync marker at the place
    of the gap; and the backlog never exceeds the capacity (one event when the
    capacity is zero). *)
Theorem notifications_account_for_every_event {Value} capacity (ops : list (op Value)) :
  accounts (pushed ops) (fst (run capacity ops) ++ outstanding (snd (run capacity ops))) /\
  length (pending (snd (run capacity ops))) <= 1 `max` capacity.
Proof. by destruct (run_accounts capacity ops) as (H1 & H2 & _). Qed.

(** What a settlement may rely on: a report of counters keeps every one of
    them in the bins, an absent leg stays absent and a reported zero stays a
    zero; the exactness is exact precisely when a total is confirmed and unknown
    precisely for no report; and its stored spelling reads back. *)
Theorem usage_report_preserved prompt completion total reasoning cache_read cache_write :
  bins (from_reported prompt completion total reasoning cache_read cache_write) =
    mkLegs (Some prompt) (Some completion) reasoning cache_read cache_write (Some total) /\
  (forall u, exactness u = Exact <-> is_some (confirmed_total u) = true) /\
  (forall u, exactness u = UnknownExactness <-> u = UsageUnknown) /\
  (forall u, confirmed_total u = l_total_tokens (bins u)) /\
  (forall e, exactness_from_db (exactness_as_str e) = Some e) /\
  (forall s e, exactness_from_db s = Some e -> exactness_as_str e = s).
Proof.
  split_and!.
  - by destruct reasoning, cache_read, cache_write.
  - intros [| |[]]; simpl; [done..|]. by destruct (is_some _).
  - intros [| |[]]; simpl; [done..|]. by destruct (is_some _).
  - by intros [| |[]].
  - by intros [].
  - intros s e. unfold exactness_from_db. repeat case_decide; intros; by simplify_eq.
Qed.
