(* ===== verification/Policy.v ===== *)
(** Permission modes, grants and the mode matrix ([src/src/policy.rs]).  A scope
    root is only carried, as a string; the enrolled denies that outrank the
    matrix are in Paths.v, Egress.v and Deny.v. *)

From stdpp Require Import pretty.
From S2P Require Import Prelude.
From S2P Require Import Contracts.

Inductive PermissionMode := Manual | AcceptEdits | ReadOnly | Auto | PreapprovedOnly | Yolo.

#[export] Instance PermissionMode_eq_dec : EqDecision PermissionMode.
Proof. solve_decision. Defined.

(** [PermissionMode::from_id] and [id] *)
Definition from_id (id : string) : option PermissionMode :=
  if decide (id = "manual") then Some Manual
  else if decide (id = "accept-edits") then Some AcceptEdits
  else if decide (id = "read-only") then Some ReadOnly
  else if decide (id = "auto") then Some Auto
  else if decide (id = "preapproved-only") then Some PreapprovedOnly
  else if decide (id = "yolo") then Some Yolo
  else None.

Definition id (m : PermissionMode) : string :=
  match m with
  | Manual => "manual"
  | AcceptEdits => "accept-edits"
  | ReadOnly => "read-only"
  | Auto => "auto"
  | PreapprovedOnly => "preapproved-only"
  | Yolo => "yolo"
  end.

#[export] Instance PermissionMode_vocabulary : Vocabulary PermissionMode.
Proof. apply (Build_Vocabulary _ id from_id); unfold from_id; vocabulary. Defined.

(** [PermissionMode::all] and the default of a new install. *)
Definition all : list PermissionMode := [Manual; AcceptEdits; ReadOnly; Auto; PreapprovedOnly; Yolo].
Definition default_mode : PermissionMode := Manual.

Record AdmissionContext := mkContext {
  mode : PermissionMode;
  in_grant_scope : bool;
  budget_remaining : bool;
  in_trusted_scope : bool;
  has_checkpoint : bool;
  previously_approved : bool;
  within_declared_bounds : bool;
  dry_run : bool;
}.

Inductive ModeDecision := Allow | Ask | Deny.

Definition token (d : ModeDecision) : string :=
  match d with Allow => "allow" | Ask => "ask" | Deny => "deny" end.

Record Grant := mkGrant {
  g_id : string;
  scope_root : string;
  classes : list EffectClass;
  revoked : bool;
}.

(** [PolicyError]; a [std::io::ErrorKind] is named by its text. *)
Inductive PolicyError :=
  | UnknownGrant (grant_id : string)
  | Revoked (grant_id : string)
  | ClassNotAdmitted (grant_id : string) (class : EffectClass)
  | InvalidPath
  | PathInspection (kind : string)
  | SymlinkRead (kind : string)
  | SymlinkLoop.

(** The generic grants of [Policy] and its number counter. *)
Record Grants := mkGrants {
  grants : gmap string Grant;
  next : Z;
}.

(** [Policy::default], its grants. *)
Definition no_grants : Grants := mkGrants ∅ 0.

(** [Policy::grant_classes] *)
Definition grant_classes (root : string) (cs : list EffectClass) (p : Grants) : outcome (string * Grants) :=
  let* n := add_or_panic u64_max (next p) 1 in
  let grant_id := "grant-" +:+ pretty n in
  Ret (grant_id, mkGrants (<[grant_id := mkGrant grant_id root cs false]> (grants p)) n).

(** [Policy::grant_read] *)
Definition grant_read (root : string) (p : Grants) : outcome (string * Grants) :=
  grant_classes root [Read] p.

(** [Policy::revoke] *)
Definition revoke (grant_id : string) (p : Grants) : Grants :=
  match grants p !! grant_id with
  | Some g => mkGrants (<[grant_id := mkGrant (g_id g) (scope_root g) (classes g) true]> (grants p)) (next p)
  | None => p
  end.

(** [Policy::grant] *)
Definition grant (p : Grants) (grant_id : string) : option Grant := grants p !! grant_id.

(** [Policy::admit] *)
Definition admit_class (p : Grants) (grant_id : string) (class : EffectClass) : result Grant PolicyError :=
  let? g := ok_or (grants p !! grant_id) (UnknownGrant grant_id) in
  if revoked g then Err (Revoked grant_id)
  else if negb (bool_decide (class ∈ classes g)) then Err (ClassNotAdmitted grant_id class)
  else Ok g.

(** The matrix of [Policy::decide], for a target no deny covers. *)
Definition mode_matrix (class : EffectClass) (ctx : AdmissionContext) : ModeDecision :=
  match mode ctx with
  | Manual =>
      match class with
      | Read => if in_grant_scope ctx then Allow else Ask
      | _ => Ask
      end
  | AcceptEdits =>
      match class with
      | Read => Allow
      | Write => if in_trusted_scope ctx && has_checkpoint ctx then Allow else Ask
      | _ => Ask
      end
  | ReadOnly => match class with Read => Allow | _ => Deny end
  | Auto =>
      match class with
      | Read => if in_grant_scope ctx then Allow else Ask
      | Write => if in_grant_scope ctx && budget_remaining ctx then Allow else Ask
      | Exec | Egress => if within_declared_bounds ctx then Allow else Ask
      | _ => Ask
      end
  | PreapprovedOnly => if previously_approved ctx then Allow else Deny
  | Yolo => Allow
  end.

(** * Properties

    Properties of grants and of the mode matrix ([src/src/policy.rs]). *)

(** * Grants *)

(** The grant identifier of a number. *)
Definition grant_name (n : Z) : string := "grant-" +:+ pretty n.

Lemma grant_name_inj n m : grant_name n = grant_name m -> n = m.
Proof. unfold grant_name. intros H. apply (inj _) in H. by apply (inj pretty) in H. Qed.

Inductive op := GrantClasses (root : string) (cs : list EffectClass) | RevokeGrant (grant_id : string).

(** One call on the grants; the counter's overflow panics. *)
Definition apply_op (p : Grants) (o : op) : outcome Grants :=
  match o with
  | GrantClasses root cs => let* (_, p) := grant_classes root cs p in Ret p
  | RevokeGrant g => Ret (revoke g p)
  end.

Fixpoint run (ops : list op) (p : Grants) : outcome Grants :=
  match ops with
  | [] => Ret p
  | o :: ops => let* p := apply_op p o in run ops p
  end.

(** Every stored grant carries its own key and a number already issued. *)
Definition grants_ok (p : Grants) : Prop :=
  forall g gr, grants p !! g = Some gr -> g_id gr = g /\ exists n, g = grant_name n /\ (n <= next p)%Z.

Lemma grant_classes_spec root cs p g p' :
  grant_classes root cs p = Ret (g, p') ->
  g = grant_name (next p + 1) /\ next p' = (next p + 1)%Z /\
  grants p' = <[g := mkGrant g root cs false]> (grants p).
Proof.
  unfold grant_classes, add_or_panic. destruct (checked_add _ _ _) as [n|] eqn:E; [|done].
  apply checked_add_Some in E as [-> _]. cbn [obind]. by intros [= <- <-].
Qed.

(** A call never changes a stored grant's scope or classes, and never clears its
    revocation. *)
Definition keeps (p p' : Grants) : Prop :=
  forall g gr, grants p !! g = Some gr -> exists gr', grants p' !! g = Some gr' /\
    scope_root gr' = scope_root gr /\ classes gr' = classes gr /\ (revoked gr = true -> revoked gr' = true).

Lemma apply_op_ok p o p' : grants_ok p -> apply_op p o = Ret p' -> grants_ok p' /\ keeps p p'.
Proof.
  intros Hp. destruct o as [root cs|g]; simpl.
  - destruct (grant_classes root cs p) as [[g p1]| |] eqn:E; [|done..]. cbn [obind]. intros [= <-].
    apply grant_classes_spec in E as (-> & Hn & Hg).
    assert (Hfresh : grants p !! grant_name (next p + 1) = None).
    { destruct (grants p !! grant_name (next p + 1)) as [gr|] eqn:E; [|done].
      apply Hp in E as (_ & n & Hname & Hle). apply grant_name_inj in Hname. lia. }
    split.
    + intros h gr. rewrite Hg, Hn. intros [[<- <-]|[Hne H]]%lookup_insert_Some.
      * split; [done|]. exists (next p + 1)%Z. split; [done|lia].
      * destruct (Hp h gr H) as (? & n & ? & ?). split; [done|]. exists n. split; [done|lia].
    + intros h gr H. rewrite Hg. exists gr. rewrite lookup_insert_ne; [done|]. congruence.
  - intros [= <-]. unfold revoke. destruct (grants p !! g) as [gr|] eqn:E.
    + split.
      * intros h gr'. simpl. intros [[<- <-]|[Hne H]]%lookup_insert_Some; [|by apply Hp].
        destruct (Hp g gr E). by split.
      * intros h gr' H. simpl. destruct (decide (g = h)) as [<-|Hne].
        -- rewrite lookup_insert_eq. eexists. split; [done|]. rewrite E in H. by injection H as <-.
        -- rewrite lookup_insert_ne by done. by exists gr'.
    + split; [done|]. intros h gr' H. by exists gr'.
Qed.

Lemma run_ok ops p p' : grants_ok p -> run ops p = Ret p' -> grants_ok p' /\ keeps p p'.
Proof.
  revert p. induction ops as [|o ops IH]; intros p Hp H; cbn [run] in H.
  - injection H as <-. split; [done|]. intros g gr E. by exists gr.
  - destruct (apply_op p o) as [p1| |] eqn:E; [|done..]. cbn [obind] in H.
    apply apply_op_ok in E as [Hp1 Hk1]; [|done]. destruct (IH p1 Hp1 H) as [Hp' Hk']. split; [done|].
    intros g gr Hg. destruct (Hk1 g gr Hg) as (gr1 & H1 & E1 & E2 & E3).
    destruct (Hk' g gr1 H1) as (gr2 & H2 & F1 & F2 & F3). exists gr2. split_and!; [done|congruence..|auto].
Qed.

Lemma run_app ops1 ops2 p : run (ops1 ++ ops2) p = let* p := run ops1 p in run ops2 p.
Proof.
  revert p. induction ops1 as [|o ops1 IH]; intros p; [done|]. cbn [app run].
  destruct (apply_op p o); cbn [obind]; [apply IH|done..].
Qed.

Lemma no_grants_ok : grants_ok no_grants.
Proof. intros g gr H. cbn [grants no_grants] in H. by rewrite lookup_empty in H. Qed.

(** A grant nobody revokes stays unrevoked. *)
Lemma run_unrevoked g ops p p' gr gr' :
  (RevokeGrant g ∉ ops) -> grants p !! g = Some gr -> revoked gr = false -> grants_ok p ->
  run ops p = Ret p' -> grants p' !! g = Some gr' -> revoked gr' = false.
Proof.
  intros Hno. revert p gr. induction ops as [|o ops IH]; intros p gr E Hr Hok H E'; cbn [run] in H.
  { injection H as <-. congruence. }
  destruct (apply_op p o) as [p1| |] eqn:Eo; [|done..]. cbn [obind] in H.
  apply not_elem_of_cons in Hno as [Hne Hno]. destruct (apply_op_ok _ _ _ Hok Eo) as [Hok1 Hk].
  destruct (Hk g gr E) as (gr1 & E1 & _). apply (IH Hno p1 gr1 E1); [|done..].
  destruct o as [root cs|h]; simpl in Eo.
  - destruct (grant_classes root cs p) as [[g1 p2]| |] eqn:Eg; [|done..]. cbn [obind] in Eo.
    injection Eo as <-. apply grant_classes_spec in Eg as (-> & _ & Hgr). rewrite Hgr in E1.
    apply lookup_insert_Some in E1 as [[_ <-]|[_ E1]]; [done|]. congruence.
  - injection Eo as <-. unfold revoke in E1. destruct (grants p !! h) as [gh|] eqn:Eh; [|congruence].
    simpl in E1. apply lookup_insert_Some in E1 as [[-> _]|[_ E1]]; [done|]. congruence.
Qed.

(** * Properties *)

(** Revocation is permanent and grants never widen: an identifier returned
    by [grant_classes] was unused, admits exactly the classes it was granted as
    long as it is not revoked, and after a revocation no sequence of later calls
    ever makes it admit anything again. *)
Theorem revocation_is_permanent ops1 root cs p1 g p2 ops2 p3 class :
  run ops1 no_grants = Ret p1 -> grant_classes root cs p1 = Ret (g, p2) -> run ops2 p2 = Ret p3 ->
  grants p1 !! g = None /\
  (forall gr, admit_class p3 g class = Ok gr -> class ∈ cs /\ scope_root gr = root) /\
  (class ∈ cs -> RevokeGrant g ∉ ops2 -> is_ok (admit_class p3 g class) = true) /\
  (RevokeGrant g ∈ ops2 -> admit_class p3 g class = Err (Revoked g)).
Proof.
  intros H1 Hg H2. destruct (run_ok _ _ _ no_grants_ok H1) as [Hp1 _].
  pose proof (grant_classes_spec _ _ _ _ _ Hg) as (Hname & Hn & Hgr).
  assert (Hp2 : grants_ok p2).
  { apply (apply_op_ok p1 (GrantClasses root cs) p2 Hp1). simpl. by rewrite Hg. }
  assert (E2 : grants p2 !! g = Some (mkGrant g root cs false)) by (rewrite Hgr; apply lookup_insert_eq).
  destruct (run_ok _ _ _ Hp2 H2) as [_ Hk]. destruct (Hk g _ E2) as (gr3 & E3 & Hroot & Hcls & _).
  simpl in Hroot, Hcls. unfold admit_class. rewrite E3. cbn [ok_or rbind]. split_and!.
  - destruct (grants p1 !! g) as [gr|] eqn:E; [|done]. subst g.
    apply Hp1 in E as (_ & n & Hnm & Hle). apply grant_name_inj in Hnm. lia.
  - intros gr. destruct (revoked gr3); [done|]. rewrite Hcls.
    destruct (bool_decide (class ∈ cs)) eqn:Eb; [|done]. apply bool_decide_eq_true in Eb.
    simpl. intros [= <-]. by split.
  - intros Hin Hno. rewrite (run_unrevoked g ops2 p2 p3 _ gr3 Hno E2 eq_refl Hp2 H2 E3).
    by rewrite Hcls, bool_decide_true.
  - intros Hin. apply list_elem_of_split in Hin as (l1 & l2 & ->). rewrite run_app in H2.
    destruct (run l1 p2) as [pa| |] eqn:Ea; [|done..]. cbn [obind run apply_op] in H2.
    destruct (run_ok _ _ _ Hp2 Ea) as [Hpa Hka]. destruct (Hka g _ E2) as (gra & Ega & _).
    destruct (apply_op_ok pa (RevokeGrant g) (revoke g pa) Hpa eq_refl) as [Hpb _].
    destruct (run_ok _ _ _ Hpb H2) as [_ Hkb].
    assert (Eb : grants (revoke g pa) !! g = Some (mkGrant (g_id gra) (scope_root gra) (classes gra) true)).
    { unfold revoke. rewrite Ega. simpl. apply lookup_insert_eq. }
    destruct (Hkb g _ Eb) as (gr3' & E3' & _ & _ & Hr). rewrite E3 in E3'. injection E3' as <-.
    by rewrite Hr.
Qed.

(** More approval: every recorded fact that held still holds. *)
Definition approves_more (c d : AdmissionContext) : Prop :=
  mode c = mode d /\
  implb (in_grant_scope c) (in_grant_scope d) = true /\
  implb (budget_remaining c) (budget_remaining d) = true /\
  implb (in_trusted_scope c) (in_trusted_scope d) = true /\
  implb (has_checkpoint c) (has_checkpoint d) = true /\
  implb (previously_approved c) (previously_approved d) = true /\
  implb (within_declared_bounds c) (within_declared_bounds d) = true.

Definition rank (d : ModeDecision) : nat := match d with Deny => 0 | Ask => 1 | Allow => 2 end.

(** The mode matrix is monotone and fails towards consent: a context with
    more approval never gets a lower verdict; outside YOLO and a recorded
    preapproval no model or control effect is allowed silently, and a write only
    with a checkpoint in a trusted scope or with budget in the grant's scope;
    the default mode allows nothing but a granted read; and only the two modes
    that forbid new consent ever deny. *)
Theorem mode_matrix_is_monotone_and_cautious class c :
  (forall d, approves_more c d -> rank (mode_matrix class c) <= rank (mode_matrix class d)) /\
  (mode_matrix class c = Allow -> mode c = Yolo \/ (mode c = PreapprovedOnly /\ previously_approved c = true) \/
     class = Read \/
     (class = Write /\ (in_trusted_scope c && has_checkpoint c || in_grant_scope c && budget_remaining c) = true) \/
     ((class = Exec \/ class = Egress) /\ within_declared_bounds c = true)) /\
  (mode c = default_mode -> mode_matrix class c = Allow -> class = Read /\ in_grant_scope c = true) /\
  (mode_matrix class c = Deny -> mode c = ReadOnly \/ mode c = PreapprovedOnly).
Proof.
  destruct c as [m a b e f g h i]. unfold mode_matrix, default_mode. simpl. split_and!.
  - intros [m' a' b' e' f' g' h' i'] (<- & Ha & Hb & He & Hf & Hg & Hh). simpl in *.
    destruct m, class; simpl; try lia;
      first [ destruct a, a'; simpl in *; first [lia | discriminate]
            | destruct g, g'; simpl in *; first [lia | discriminate]
            | destruct h, h'; simpl in *; first [lia | discriminate]
            | destruct e, e', f, f'; simpl in *; first [lia | discriminate]
            | destruct a, a', b, b'; simpl in *; first [lia | discriminate] ].
  - destruct m, class; simpl; try tauto; try discriminate;
      first [ destruct a; simpl; intros H; first [discriminate H | tauto]
            | destruct g; simpl; intros H; first [discriminate H | tauto]
            | destruct h; simpl; intros H; first [discriminate H | tauto]
            | destruct e, f; simpl; intros H; first [discriminate H | tauto]
            | destruct e, f, a, b; simpl; intros H; first [discriminate H | tauto] ].
  - intros ->. destruct class, a; simpl; intros H; try discriminate H; done.
  - destruct m, class; simpl; try tauto; repeat case_match; try discriminate; tauto.
Qed.

(** * Witnesses *)

Lemma revocation_is_permanent_witness :
  admit_class (mkGrants {[ "grant-1" := mkGrant "grant-1" "/s" [Read] true ]} 1) "grant-1" Read
    = Err (Revoked "grant-1").
Proof.
  refine (proj2 (proj2 (proj2 (revocation_is_permanent [] "/s" [Read] no_grants "grant-1"
    (mkGrants {[ "grant-1" := mkGrant "grant-1" "/s" [Read] false ]} 1) [RevokeGrant "grant-1"]
    (mkGrants {[ "grant-1" := mkGrant "grant-1" "/s" [Read] true ]} 1) Read eq_refl _ _))) _).
  - by vm_compute.
  - by vm_compute.
  - by left.
Defined.
