(* ===== verification/Net.v ===== *)
(** Strings as bytes, and the address parsers the egress rules rely on:
    [std]'s [str] searches, [u16]/[u64] parsing, [Ipv6Addr::from_str]; and the
    WHATWG IPv4 numbers of [src/src/policy.rs]. *)

From stdpp Require Import pretty.
From S2P Require Import Prelude.
From S2P Require Import Utf8.

Definition TAB : Z := 9.
Definition LF : Z := 10.
Definition CR : Z := 13.
Definition SPACE : Z := 32.
Definition HASH : Z := 35.
Definition PERCENT : Z := 37.
Definition PLUS : Z := 43.
Definition MINUS : Z := 45.
Definition DOT : Z := 46.
Definition SLASH : Z := 47.
Definition ZERO : Z := 48.
Definition COLON : Z := 58.
Definition QUESTION : Z := 63.
Definition AT : Z := 64.
Definition LBRACKET : Z := 91.
Definition BACKSLASH : Z := 92.
Definition RBRACKET : Z := 93.

(** [u8::is_ascii_alphabetic], [is_ascii_digit], [is_ascii_alphanumeric] *)
Definition is_alpha (b : Z) : bool := within 65 90 b || within 97 122 b.
Definition is_digit (b : Z) : bool := within 48 57 b.
Definition is_alnum (b : Z) : bool := is_alpha b || is_digit b.

(** [str::to_ascii_lowercase], [eq_ignore_ascii_case] *)
Definition lower (b : Z) : Z := if within 65 90 b then (b + 32)%Z else b.
Definition to_ascii_lowercase (s : bytes) : bytes := map lower s.
Definition eq_ignore_ascii_case (a b : bytes) : bool :=
  bool_decide (to_ascii_lowercase a = to_ascii_lowercase b).

(** A byte among several; [str::trim_start_matches], [trim_matches] *)
Definition one_of (marks : bytes) (b : Z) : bool := existsb (Z.eqb b) marks.
Definition trim_start_matches (marks : bytes) (s : bytes) : bytes := skip_while (one_of marks) s.
Definition trim_matches (f : Z -> bool) (s : bytes) : bytes :=
  rev (skip_while f (rev (skip_while f s))).

(** [until_first] *)
Definition until_first (marks : bytes) (raw : bytes) : bytes :=
  take (default (length raw) (position (one_of marks) raw)) raw.

(** [str::rsplit_once] *)
Definition rsplit_once (c : Z) (s : bytes) : option (bytes * bytes) :=
  '(after, before) ← split_once c (rev s); Some (rev before, rev after).

(** [str::split] at one byte: at least one part. *)
Fixpoint split_at (c : Z) (s : bytes) : list bytes :=
  match s with
  | [] => [[]]
  | b :: s =>
      if decide (b = c) then [] :: split_at c s
      else match split_at c s with [] => [[b]] | part :: parts => (b :: part) :: parts end
  end.

(** [str::replace] of one byte by a string. *)
Definition replace (c : Z) (by_ : bytes) (s : bytes) : bytes :=
  concat (map (fun b => if decide (b = c) then by_ else [b]) s).

(** [Path::is_absolute] on a Unix host. *)
Definition is_absolute (path : bytes) : bool := starts_with [SLASH] path.

(** * Numbers *)

(** [char::to_digit] *)
Definition to_digit (radix b : Z) : option Z :=
  let v := if is_digit b then (b - 48)%Z
           else if within 97 122 b then (b - 87)%Z
           else if within 65 90 b then (b - 55)%Z else radix in
  if decide (v < radix)%Z then Some v else None.

Fixpoint digits_value (radix acc : Z) (s : bytes) : option Z :=
  match s with
  | [] => Some acc
  | b :: s => d ← to_digit radix b; digits_value radix (acc * radix + d) s
  end.

(** [from_str_radix] of an unsigned type: one optional plus, at least one digit,
    no overflow. *)
Definition parse_unsigned (max radix : Z) (s : bytes) : option Z :=
  let digits := default s (strip_prefix [PLUS] s) in
  if decide (digits = []) then None
  else v ← digits_value radix 0 digits; if decide (v <= max)%Z then Some v else None.

(** The decimal spelling of a number. *)
Definition decimal (n : Z) : bytes := bytes_of (pretty.pretty n).

(** * [core::net]'s parser: each reader takes a prefix of the input *)

Definition read_char (c : Z) (s : bytes) : option bytes :=
  match s with b :: s => if decide (b = c) then Some s else None | [] => None end.

(** The digits in front, at most [max_digits] of them. *)
Fixpoint take_digits (radix : Z) (s : bytes) : bytes :=
  match s with
  | b :: s => match to_digit radix b with Some _ => b :: take_digits radix s | None => [] end
  | [] => []
  end.

Definition read_number (limit radix : Z) (max_digits : nat) (allow_zero_prefix : bool) (s : bytes)
    : option (Z * bytes) :=
  let ds := take_digits radix s in
  if decide (max_digits < length ds) then None
  else if decide (ds = []) then None
  else if negb allow_zero_prefix && bool_decide (head ds = Some ZERO) && (1 <? length ds) then None
  else v ← digits_value radix 0 ds;
       if decide (v <= limit)%Z then Some (v, drop (length ds) s) else None.

Definition read_separator {A} (sep : Z) (index : nat) (inner : bytes -> option (A * bytes)) (s : bytes)
    : option (A * bytes) :=
  match index with
  | O => inner s
  | S _ => s ← read_char sep s; inner s
  end.

Fixpoint read_octets (more index : nat) (s : bytes) : option (list Z * bytes) :=
  match more with
  | O => Some ([], s)
  | S more =>
      '(octet, s) ← read_separator DOT index (read_number u8_max 10 3 false) s;
      '(octets, s) ← read_octets more (S index) s;
      Some (octet :: octets, s)
  end.

(** [read_ipv4_addr] *)
Definition read_ipv4 (s : bytes) : option (list Z * bytes) := read_octets 4 0 s.

(** [read_groups]: the groups, whether an IPv4 tail was read, the rest. *)
Fixpoint read_groups (more index : nat) (s : bytes) : list Z * bool * bytes :=
  match more with
  | O => ([], false, s)
  | S more =>
      match (if 1 <=? more then read_separator COLON index read_ipv4 s else None) with
      | Some ([a; b; c; d], s) => ([a * 256 + b; c * 256 + d]%Z, true, s)
      | _ =>
          match read_separator COLON index (read_number u16_max 16 4 true) s with
          | Some (g, s) => let '(gs, v4, s) := read_groups more (S index) s in (g :: gs, v4, s)
          | None => ([], false, s)
          end
      end
  end.

(** [Ipv6Addr::from_str]: the eight groups. *)
Definition parse_ipv6 (s : bytes) : option (list Z) :=
  let '(head_, v4, rest) := read_groups 8 0 s in
  '(groups, rest) ←
    (if decide (length head_ = 8) then Some (head_, rest)
     else if v4 : bool then None
     else
       rest ← read_char COLON rest;
       rest ← read_char COLON rest;
       let '(tail_, _, rest) := read_groups (7 - length head_) 0 rest in
       Some (head_ ++ replicate (8 - length head_ - length tail_) 0%Z ++ tail_, rest));
  if decide (rest = []) then Some groups else None.

(** [Ipv6Addr::is_loopback], or the mapped IPv4 address is. *)
Definition ipv6_loopback (groups : list Z) : bool :=
  bool_decide (groups = [0; 0; 0; 0; 0; 0; 0; 1]%Z) ||
  match groups with
  | [0; 0; 0; 0; 0; 65535; ab; _]%Z => (Z.shiftr ab 8 =? 127)%Z
  | _ => false
  end.

(** * WHATWG IPv4 numbers *)

(** [ipv4_part] *)
Definition ipv4_part (part : bytes) : option Z :=
  if decide (part = []) then None
  else
    let '(digits, radix) :=
      match strip_prefix (bytes_of "0x") part, strip_prefix (bytes_of "0X") part with
      | Some hex, _ | None, Some hex => (hex, 16%Z)
      | None, None =>
          if bool_decide (1 < length part) && starts_with [ZERO] part then (drop 1 part, 8%Z)
          else (part, 10%Z)
      end in
    if decide (digits = []) then Some 0%Z else parse_unsigned u64_max radix digits.

(** The big-endian bytes of a value that fits [n] of them. *)
Fixpoint octets_of (n : nat) (v : Z) : list Z :=
  match n with
  | O => []
  | S n => octets_of n (Z.shiftr v 8) ++ [Z.land v 255]
  end.

(** [ipv4_number] *)
Definition ipv4_number (host : bytes) : option (list Z) :=
  let parts := split_at DOT host in
  if decide (4 < length parts) then None
  else
    numbers ← mapM ipv4_part parts;
    let heads := removelast numbers in
    tail_ ← last numbers;
    let fill := 5 - length numbers in
    if existsb (fun n => 255 <? n)%Z heads || (2 ^ Z.of_nat (8 * fill) <=? tail_)%Z then None
    else Some (heads ++ octets_of fill tail_).

(** [is_loopback_authority] *)
Definition is_loopback_authority (host : bytes) : bool :=
  match (inner ← strip_prefix [LBRACKET] host;
         if decide (last inner = Some RBRACKET) then Some (removelast inner) else None) with
  | Some v6 =>
      let address := match rsplit_once PERCENT v6 with Some (addr, _) => addr | None => v6 end in
      match parse_ipv6 address with Some groups => ipv6_loopback groups | None => false end
  | None =>
      match ipv4_number host with
      | Some octets => bool_decide (head octets = Some 127%Z)
      | None => false
      end
  end.

Example loopback_spellings :
  map (fun s => is_loopback_authority (bytes_of s))
    ["127.0.0.1"; "127.1"; "0x7f.1"; "0x7f000001"; "0177.0.0.1"; "2130706433"; "[::1]"; "[0:0::0:1]";
     "[::ffff:127.0.0.1]"; "[::1%eth0]"; "[::ffff:7f00:1]"] = repeat true 11 /\
  map (fun s => is_loopback_authority (bytes_of s))
    ["127.0.0.256"; "localhost"; "128.0.0.1"; "127.0.0.1."; "1.2.3.4.5"; "[::2]"; "[::1"; "[1:2]"; "0x"]
    = repeat false 9.
Proof. split; vm_compute; reflexivity. Qed.

(** [from_str_radix] takes a leading plus, so a label that is no WHATWG number
    still folds to the loopback address. *)
Lemma plus_signed_part_is_loopback :
  is_loopback_authority (bytes_of "+127.0.0.1") = true /\
  is_loopback_authority (bytes_of "127.0.0.+1") = true.
Proof. split; vm_compute; reflexivity. Qed.

(** * Decimal numbers read back *)

Lemma pretty_N_digits n s :
  Forall (fun b => is_digit b = true) (bytes_of s) ->
  Forall (fun b => is_digit b = true) (bytes_of (pretty_N_go n s)).
Proof.
  revert s. induction (N.lt_wf_0 n) as [n _ IH]. intros s Hs.
  destruct (decide (0 < n)%N) as [Hn|Hn].
  - rewrite pretty_N_go_step by done. apply IH; [apply N.div_lt; lia|].
    constructor; [|done]. unfold pretty_N_char. by repeat case_match.
  - replace n with 0%N by lia. by rewrite pretty_N_go_0.
Qed.

Lemma decimal_digits n : (0 <= n)%Z -> Forall (fun b => is_digit b = true) (decimal n).
Proof.
  intros Hn. unfold decimal. destruct n as [|n|n]; [by repeat constructor| |lia].
  change (pretty (Z.pos n)) with (pretty_N (Npos n)). unfold pretty_N.
  case_decide; [done|]. apply pretty_N_digits. constructor.
Qed.

Lemma digit_of_char x : (x < 10)%N -> to_digit 10 (Z.of_N (Ascii.N_of_ascii (pretty_N_char x))) = Some (Z.of_N x).
Proof.
  intros Hx. assert (Hall : forallb (fun k => bool_decide (to_digit 10 (Z.of_N (Ascii.N_of_ascii (pretty_N_char (N.of_nat k)))) = Some (Z.of_nat k)))
    (seq 0 10) = true) by (vm_compute; reflexivity).
  rewrite forallb_forall in Hall. specialize (Hall (N.to_nat x)). rewrite N2Nat.id in Hall.
  rewrite bool_decide_eq_true in Hall. rewrite Hall by (apply in_seq; lia). f_equal. lia.
Qed.

Lemma digits_value_pretty n s : digits_value 10 0 (bytes_of (pretty_N_go n s)) = digits_value 10 (Z.of_N n) (bytes_of s).
Proof.
  revert s. induction (N.lt_wf_0 n) as [n _ IH]. intros s. destruct (decide (0 < n)%N) as [Hn|Hn].
  - rewrite pretty_N_go_step by done. rewrite IH by (apply N.div_lt; lia).
    change (bytes_of (String ?c s)) with (Z.of_N (Ascii.N_of_ascii c) :: bytes_of s). cbn [digits_value].
    rewrite digit_of_char by (by apply N.mod_lt). cbn [mbind option_bind]. f_equal.
    rewrite N2Z.inj_div, N2Z.inj_mod. pose proof (Z.div_mod (Z.of_N n) 10). lia.
  - replace n with 0%N by lia. by rewrite pretty_N_go_0.
Qed.

(** A number is read back from its decimal spelling. *)
Lemma parse_decimal max n : (0 <= n <= max)%Z -> parse_unsigned max 10 (decimal n) = Some n.
Proof.
  intros Hn. assert (Hv : digits_value 10 0 (decimal n) = Some n).
  { unfold decimal. destruct n as [|p|p]; [done| |lia]. change (pretty (Z.pos p)) with (pretty_N (Npos p)). unfold pretty_N.
    case_decide; [done|]. by rewrite digits_value_pretty. }
  assert (Hd : default (decimal n) (strip_prefix [PLUS] (decimal n)) = decimal n).
  { destruct (strip_prefix [PLUS] (decimal n)) as [r|] eqn:E; [|done]. apply strip_prefix_Some in E.
    pose proof (decimal_digits n ltac:(lia)) as Hf. rewrite E in Hf. by inversion Hf. }
  unfold parse_unsigned. rewrite Hd, Hv. rewrite decide_False.
  - cbn. by rewrite decide_True by lia.
  - intros E. rewrite E in Hv. injection Hv as <-. done.
Qed.
