(* ===== verification/Egress.v ===== *)
(** The egress half of the deny rules ([src/src/policy.rs]): preprocessing of a
    target, its normalized form, its file-system shape, and the comparison with
    the enrolled denies.  A spelling is the list of its UTF-8 bytes. *)

From stdpp Require Import pretty.
From S2P Require Import Prelude.
From S2P Require Import Utf8.
From S2P Require Import Net.

(** * Percent decoding *)

(** [hex_value] *)
Definition hex_value (digit : Z) : option Z :=
  if within 48 57 digit then Some (digit - 48)%Z
  else if within 97 102 digit then Some (digit - 97 + 10)%Z
  else if within 65 70 digit then Some (digit - 65 + 10)%Z
  else None.

(** The loop of [percent_decode]. *)
Fixpoint decode_escapes (bs : bytes) : option bytes :=
  match bs with
  | [] => Some []
  | b :: bs =>
      if decide (b = PERCENT) then
        match bs with
        | h :: l :: bs => h ← hex_value h; l ← hex_value l; rest ← decode_escapes bs; Some ((h * 16 + l)%Z :: rest)
        | _ => None
        end
      else rest ← decode_escapes bs; Some (b :: rest)
  end.

(** [percent_decode] *)
Definition percent_decode (raw : bytes) : option bytes :=
  match position (Z.eqb PERCENT) raw with
  | None => Some raw
  | Some _ => decoded ← decode_escapes raw; from_utf8 decoded
  end.

(** [String::from_utf8_lossy] *)
Definition REPLACEMENT_BYTES : bytes := [239; 191; 189]%Z.
Fixpoint from_utf8_lossy (fuel : nat) (bs : bytes) : bytes :=
  match fuel, bs with
  | S fuel, b0 :: rest =>
      match decode_step b0 rest with
      | Char _ n => take n bs ++ from_utf8_lossy fuel (drop n bs)
      | Invalid n => REPLACEMENT_BYTES ++ from_utf8_lossy fuel (drop n bs)
      | Incomplete => REPLACEMENT_BYTES
      end
  | _, _ => []
  end.

(** The loop of [percent_decode_lenient]: a malformed escape stays as it is. *)
Fixpoint decode_lenient (bs : bytes) : bytes :=
  match bs with
  | [] => []
  | b :: rest =>
      if decide (b = PERCENT) then
        match rest with
        | h :: l :: rest' =>
            match hex_value h, hex_value l with
            | Some h, Some l => (h * 16 + l)%Z :: decode_lenient rest'
            | _, _ => b :: decode_lenient rest
            end
        | _ => b :: decode_lenient rest
        end
      else b :: decode_lenient rest
  end.
Definition percent_decode_lenient (raw : bytes) : bytes :=
  let decoded := decode_lenient raw in from_utf8_lossy (length decoded) decoded.

(** [decoded_identity] *)
Definition decoded_identity (raw : bytes) : bytes := default raw (percent_decode raw).

(** * Schemes *)

Definition HTTP : bytes := bytes_of "http".
Definition HTTPS : bytes := bytes_of "https".
Definition FILE : bytes := bytes_of "file".
Definition SLASHES : bytes := [SLASH; SLASH].
Definition SEPARATOR : bytes := COLON :: SLASHES.

(** [split_leading_scheme] *)
Definition split_leading_scheme (raw : bytes) : option (bytes * bytes) :=
  '(scheme, rest) ← split_once COLON raw;
  match scheme with
  | [] => None
  | b :: bs =>
      if is_alpha b && forallb (fun b => is_alnum b || one_of [PLUS; MINUS; DOT] b) bs
      then Some (scheme, rest) else None
  end.

(** [is_special_scheme], and the schemes of the normalizer's first arm. *)
Definition web_schemes : list bytes :=
  [HTTP; HTTPS; bytes_of "ws"; bytes_of "wss"; bytes_of "ftp"].
Definition is_special_scheme (scheme : bytes) : bool :=
  bool_decide (to_ascii_lowercase scheme ∈ web_schemes ++ [FILE]).

(** [has_authority_intro] *)
Definition has_authority_intro (raw : bytes) : bool :=
  (2 <=? length raw) && forallb (one_of [SLASH; BACKSLASH]) (take 2 raw).

(** [port_shaped] *)
Definition port_shaped (host : bytes) : bool :=
  match split_once COLON host with
  | None => false
  | Some (word, tail) =>
      negb (match word with [b] => is_alpha b | _ => false end) &&
      (bool_decide (tail = []) || forallb is_digit tail)
  end.

(** [has_leading_scheme] *)
Definition has_leading_scheme (raw : bytes) : bool :=
  match split_leading_scheme raw with
  | None => false
  | Some (scheme, rest) => starts_with SLASHES rest || is_special_scheme scheme
  end.

(** [web_shaped] *)
Definition web_shaped (raw : bytes) : bool :=
  let schemeless :=
    if has_authority_intro raw then true
    else
      negb (starts_with [SLASH] raw) &&
      (let host := until_first [SLASH; BACKSLASH] raw in
       existsb (Z.eqb DOT) host || port_shaped host) in
  match split_leading_scheme raw with
  | Some (scheme, rest) =>
      let special := is_special_scheme scheme in
      if special || starts_with SLASHES rest then special else schemeless
  | None => schemeless
  end.

(** [preprocess_egress_target] *)
Definition preprocess_egress_target (raw : bytes) : bytes :=
  let trimmed := trim_matches (fun b => b <=? SPACE)%Z
                   (filter (fun b => one_of [TAB; LF; CR] b = false) raw) in
  if web_shaped trimmed then replace BACKSLASH [SLASH] trimmed else trimmed.

(** * Identity of two spellings *)

Inductive AuthorityToken := Delimiter (c : Z) | Run (text : bytes).

Record UrlBlobSegments := mkSegments {
  intro : bytes;
  authority : list AuthorityToken;
  tail_ : bytes;
}.

#[export] Instance UrlBlobSegments_eq_dec : EqDecision UrlBlobSegments.
Proof.
  assert (EqDecision AuthorityToken) by solve_decision.
  solve_decision.
Defined.

(** [authority_tokens]; [run] is the piece since the last delimiter. *)
Fixpoint authority_tokens (run : bytes) (authority : bytes) : list AuthorityToken :=
  match authority with
  | [] => [Run (decoded_identity run)]
  | b :: authority =>
      if decide (b = AT \/ b = COLON)
      then Run (decoded_identity run) :: Delimiter b :: authority_tokens [] authority
      else authority_tokens (run ++ [b]) authority
  end.

(** [url_blob_segments] *)
Definition url_blob_segments (raw : bytes) : option UrlBlobSegments :=
  '(intro, body) ←
    match strip_prefix SLASHES raw with
    | Some body => Some (SLASHES, body)
    | None =>
        '(scheme, rest) ← split_leading_scheme raw;
        body ← strip_prefix SLASHES rest;
        Some (take (length scheme + 3) raw, body)
    end;
  let authority := until_first [SLASH; QUESTION; HASH] body in
  Some (mkSegments intro (authority_tokens [] authority)
          (decoded_identity (drop (length authority) body))).

(** [same_decoded_identity] *)
Definition same_decoded_identity (left right : bytes) : bool :=
  match url_blob_segments left, url_blob_segments right with
  | Some l, Some r => bool_decide (l = r)
  | _, _ => bool_decide (decoded_identity left = decoded_identity right)
  end.

(** * Normalization *)

Inductive SchemeKnowledge := Carried | Guessed.

(** [is_default_port], [is_any_default_port] *)
Definition is_default_port (scheme : bytes) (port : Z) : bool :=
  bool_decide (scheme = HTTP /\ port = 80%Z) || bool_decide (scheme = HTTPS /\ port = 443%Z).
Definition is_any_default_port (port : Z) : bool := (port =? 80)%Z || (port =? 443)%Z.

(** [split_host_port] *)
Definition split_host_port (authority : bytes) : option (bytes * bytes) :=
  match strip_prefix [LBRACKET] authority with
  | Some rest =>
      i ← position (Z.eqb RBRACKET) rest;
      let end_ := i + 1 in
      Some (take (S end_) authority,
            default [] (strip_prefix [COLON] (drop (end_ + 1) authority)))
  | None =>
      match rsplit_once COLON authority with
      | Some (host, port) =>
          if bool_decide (port = []) || forallb is_digit port then Some (host, port)
          else Some (authority, [])
      | None => Some (authority, [])
      end
  end.

(** The authority without its userinfo. *)
Definition without_userinfo (authority : bytes) : bytes :=
  match rsplit_once AT authority with Some (_, host) => host | None => authority end.

(** The port a normalized form keeps, separator included. *)
Definition kept_port (scheme : bytes) (knowledge : SchemeKnowledge) (port : bytes) : bytes :=
  if decide (port = []) then []
  else
    match parse_unsigned u16_max 10 port with
    | Some number =>
        if match knowledge with
           | Carried => is_default_port scheme number
           | Guessed => is_any_default_port number
           end
        then [] else COLON :: decimal number
    | None => COLON :: port
    end.

(** [fold_file_authority] *)
Definition fold_file_authority (authority path : bytes) : bytes :=
  let host_port := without_userinfo authority in
  let raw_host := match split_host_port host_port with Some (host, _) => host | None => host_port end in
  let lowered := to_ascii_lowercase (default raw_host (percent_decode raw_host)) in
  let host :=
    if bool_decide (lowered ∈ [[]; bytes_of "localhost"; bytes_of "localhost.localdomain"]) ||
       is_loopback_authority lowered
    then []
    else replace PERCENT (bytes_of "%25") (to_ascii_lowercase raw_host) in
  FILE ++ SEPARATOR ++ host ++ path.

(** [normalize_file_url] *)
Definition normalize_file_url (rest : bytes) : bytes :=
  let rest := until_first [QUESTION; HASH] rest in
  match strip_prefix SLASHES rest with
  | None => fold_file_authority [] rest
  | Some after_intro =>
      match position (Z.eqb SLASH) after_intro with
      | Some start => fold_file_authority (take start after_intro) (drop start after_intro)
      | None =>
          match percent_decode after_intro with
          | Some decoded =>
              if starts_with [SLASH] decoded then FILE ++ SEPARATOR ++ decoded
              else fold_file_authority after_intro [SLASH]
          | None => fold_file_authority after_intro [SLASH]
          end
      end
  end.

(** The part of [normalize_egress_url] after the file spellings. *)
Definition normalize_web_url (raw : bytes) (knowledge : SchemeKnowledge) : option bytes :=
  '(raw_scheme, rest) ← split_leading_scheme raw;
  let scheme := to_ascii_lowercase raw_scheme in
  rest ← (if bool_decide (scheme ∈ web_schemes) then Some (trim_start_matches [SLASH; BACKSLASH] rest)
          else strip_prefix SLASHES rest);
  let authority := until_first [SLASH; QUESTION; HASH] rest in
  let tail := drop (length authority) rest in
  let path := until_first [QUESTION; HASH] (default [] (strip_prefix [SLASH] tail)) in
  '(host, port) ← split_host_port (without_userinfo authority);
  Some (scheme ++ SEPARATOR ++ to_ascii_lowercase host ++ kept_port scheme knowledge port ++
        [SLASH] ++ path).

(** [normalize_egress_url] *)
Definition normalize_egress_url (raw : bytes) (knowledge : SchemeKnowledge) : option bytes :=
  match split_once COLON raw with
  | Some (scheme, rest) =>
      if eq_ignore_ascii_case scheme FILE then Some (normalize_file_url rest)
      else normalize_web_url raw knowledge
  | None => normalize_web_url raw knowledge
  end.

(** [schemeless_retry], [schemeless_deny_form] *)
Definition schemeless_retry (raw : bytes) : option bytes :=
  candidate ←
    match strip_prefix SLASHES raw with
    | Some rest => Some (HTTPS ++ SEPARATOR ++ trim_start_matches [SLASH; BACKSLASH] rest)
    | None =>
        if match raw with b :: _ => one_of [SLASH; BACKSLASH] b | [] => false end then None
        else Some (HTTPS ++ SEPARATOR ++ raw)
    end;
  normalize_egress_url candidate Guessed.
Definition schemeless_deny_form (denied : bytes) : option bytes :=
  if existsb (Z.eqb SLASH) denied then schemeless_retry denied else None.

(** [normalized.split_once("://")]; [url_key] *)
Fixpoint after_separator (s : bytes) : option bytes :=
  match strip_prefix SEPARATOR s with
  | Some rest => Some rest
  | None => match s with [] => None | _ :: s => after_separator s end
  end.
Definition url_key (normalized : bytes) : bytes := default normalized (after_separator normalized).

(** [url_form_matches] *)
Definition url_form_matches (request schemeless : option bytes) (denied : bytes) : bool :=
  match request, schemeless with
  | Some request, _ => same_decoded_identity request denied
  | None, Some schemeless => same_decoded_identity (url_key schemeless) (url_key denied)
  | None, None => false
  end.

(** [url_key_matches] *)
Definition url_key_matches (request schemeless folded : option bytes) (denied : bytes) : bool :=
  existsb (fun spelling =>
             match spelling with
             | Some spelling => same_decoded_identity (url_key spelling) (url_key denied)
             | None => false
             end)
          [request; schemeless; folded].

(** [Policy::egress_denied], one entry and the whole set. *)
Definition entry_denies (raw entry : bytes) : bool :=
  let request := normalize_egress_url raw Carried in
  let schemeless :=
    match request with
    | None => if has_leading_scheme raw then None else schemeless_retry raw
    | Some _ => None
    end in
  let folded := normalize_egress_url raw Guessed in
  let denied := preprocess_egress_target entry in
  same_decoded_identity denied raw ||
  (if has_leading_scheme denied
   then match normalize_egress_url denied Carried with
        | Some form => url_form_matches request schemeless form
        | None => false
        end
   else match schemeless_deny_form denied with
        | Some form => url_key_matches request schemeless folded form
        | None => false
        end).
Definition egress_denied (raw_denies : list bytes) (raw : bytes) : bool :=
  existsb (entry_denies raw) raw_denies.

(** * The file-system shape of a target *)

Inductive EgressFsShape := Absolute (path : bytes) | Unresolvable | NotFilesystem.

(** [file_scheme_rest] *)
Definition file_scheme_rest (raw : bytes) : option bytes :=
  '(scheme, rest) ← split_once COLON raw;
  if eq_ignore_ascii_case scheme FILE then Some rest else None.

(** [file_url_path] *)
Definition file_url_path (rest : bytes) : option bytes :=
  match strip_prefix SLASHES rest with
  | None => percent_decode rest
  | Some after_intro =>
      match position (Z.eqb SLASH) after_intro with
      | Some start => percent_decode (drop start after_intro)
      | None =>
          decoded ← percent_decode after_intro;
          Some (if starts_with [SLASH] decoded then decoded else [SLASH])
      end
  end.

(** [egress_filesystem_shape] *)
Definition egress_filesystem_shape (raw : bytes) : EgressFsShape :=
  match file_scheme_rest raw with
  | Some rest =>
      match file_url_path (until_first [QUESTION; HASH] rest) with
      | Some path => if is_absolute path then Absolute path else Unresolvable
      | None => Unresolvable
      end
  | None =>
      match percent_decode raw with
      | Some path => if is_absolute path then Absolute path else NotFilesystem
      | None => if is_absolute (percent_decode_lenient raw) then Unresolvable else NotFilesystem
      end
  end.

(** [canonical_egress_target] *)
Definition canonical_egress_target (scope : bytes) : bytes :=
  let cleaned := preprocess_egress_target scope in
  default cleaned (normalize_egress_url cleaned Carried).

Definition demo_denies (entry target : string) : bool :=
  egress_denied [bytes_of entry] (preprocess_egress_target (bytes_of target)).

Example egress_cases :
  forallb (demo_denies "https://evil.example/admin")
    ["HTTPS://EVIL.example:443/admin"; "https://user@evil.example/%61dmin?q#f"; "https:/evil.example/admin";
     " https:\\evil.example\admin"; "evil.example/admin"; "//evil.example/admin"; "https://evil.example:0443/admin"]
    = true /\
  existsb (demo_denies "https://evil.example/admin")
    ["http://evil.example/admin"; "https://evil.example/admin/x"; "https://evil.example:8443/admin"] = false /\
  demo_denies "evil.example:80/x" "https://evil.example/x" = true /\
  demo_denies "file:///etc/passwd" "FILE://localhost/etc/passwd" = true /\
  demo_denies "https://h/100%25" "https://h/100%" = true.
Proof. split_and!; vm_compute; reflexivity. Qed.

(** * Properties

    The egress denies cannot be dodged by respelling: whatever the case, the
    slashes, the userinfo, the port spelling, the escapes, the query or the
    padding, a web target normalizes to one form. *)

(** * Searches *)

(** No byte of [s] is a mark. *)
Definition free (marks s : bytes) : Prop := Forall (fun b => one_of marks b = false) s.

Lemma free_app marks a b : free marks (a ++ b) <-> free marks a /\ free marks b.
Proof. apply Forall_app. Qed.

Lemma one_of_spec marks b : one_of marks b = true <-> b ∈ marks.
Proof.
  unfold one_of. rewrite existsb_exists. split.
  - intros (x & Hx & ->%Z.eqb_eq). by apply list_elem_of_In.
  - intros H. exists b. split; [by apply list_elem_of_In|apply Z.eqb_refl].
Qed.

Lemma one_of_false marks b : one_of marks b = false <-> b ∉ marks.
Proof. rewrite <- one_of_spec. destruct (one_of marks b); split; (done || (intros; tauto)). Qed.

Lemma free_sub marks marks' s : (forall b, b ∈ marks' -> b ∈ marks) -> free marks s -> free marks' s.
Proof.
  intros Hm Hs. eapply Forall_impl; [exact Hs|]. intros b. rewrite !one_of_false. intros H H'. by apply H, Hm.
Qed.

Lemma free_not_in marks c s : c ∈ marks -> free marks s -> c ∉ s.
Proof.
  intros Hc Hs Hin. unfold free in Hs. rewrite Forall_forall in Hs. specialize (Hs c Hin).
  by apply one_of_false in Hs.
Qed.

(** A rest that is empty or starts with a mark. *)
Definition stops (marks r : bytes) : Prop := forall b r', r = b :: r' -> one_of marks b = true.

Lemma until_first_app marks a r : free marks a -> stops marks r -> until_first marks (a ++ r) = a.
Proof.
  intros Ha Hr. unfold until_first. destruct r as [|b r].
  - rewrite app_nil_r, (proj2 (position_None _ _)); [|done]. simpl. by apply take_ge.
  - rewrite position_app; [|done|by eapply Hr]. simpl. by apply take_app_length.
Qed.

Lemma split_once_app c a r : c ∉ a -> split_once c (a ++ c :: r) = Some (a, r).
Proof.
  intros Ha. unfold split_once. rewrite position_app; [|..].
  - simpl. f_equal. f_equal; [by apply take_app_length|].
    rewrite (cons_middle c a r), (app_assoc a [c] r). apply drop_app_length'.
    rewrite length_app. simpl. lia.
  - apply Forall_forall. intros b Hb. apply Z.eqb_neq. intros ->. done.
  - apply Z.eqb_refl.
Qed.

Lemma split_once_none c s : c ∉ s -> split_once c s = None.
Proof.
  intros Hs. unfold split_once. rewrite (proj2 (position_None _ _)); [done|].
  apply Forall_forall. intros b Hb. apply Z.eqb_neq. intros ->. done.
Qed.

Lemma rsplit_once_app c a r : c ∉ r -> rsplit_once c (a ++ c :: r) = Some (a, r).
Proof.
  intros Hr. unfold rsplit_once. rewrite rev_app_distr. simpl. rewrite <- app_assoc. simpl.
  rewrite split_once_app; [simpl; by rewrite !rev_involutive|].
  by rewrite list_elem_of_In, <- in_rev, <- list_elem_of_In.
Qed.

Lemma rsplit_once_none c s : c ∉ s -> rsplit_once c s = None.
Proof.
  intros Hs. unfold rsplit_once. rewrite split_once_none; [done|].
  by rewrite list_elem_of_In, <- in_rev, <- list_elem_of_In.
Qed.

Lemma starts_with_app {A} `{EqDecision A} (p l : list A) : starts_with p (p ++ l) = true.
Proof. unfold starts_with. by rewrite strip_prefix_app. Qed.

(** The head decides a prefix. *)
Lemma strip_prefix_head {A} `{EqDecision A} (x y : A) p l :
  x <> y -> strip_prefix (x :: p) (y :: l) = None.
Proof. intros H. simpl. by rewrite decide_False. Qed.

Lemma skip_while_app {A} (f : A -> bool) a r :
  Forall (fun x => f x = true) a -> (forall x r', r = x :: r' -> f x = false) -> skip_while f (a ++ r) = r.
Proof.
  intros Ha Hr. induction Ha as [|x a Hx _ IH]; simpl.
  - destruct r as [|x r]; [done|]. simpl. by rewrite (Hr x r).
  - by rewrite Hx.
Qed.

(** * Letter case *)

Lemma lower_within b lo hi :
  within lo hi (lower b) = true -> (97 <= lo)%Z -> (hi <= 122)%Z -> within 65 90 b || within lo hi b = true.
Proof.
  unfold lower. destruct (within 65 90 b) eqn:E; [done|]. simpl. done.
Qed.

Lemma lower_alpha b : within 97 122 (lower b) = true -> is_alpha b = true.
Proof.
  intros H. unfold is_alpha. apply lower_within in H; [|lia..].
  apply orb_true_iff in H as [H|H]; by rewrite H, ?orb_true_r.
Qed.

Lemma lower_other b c : lower b = c -> within 65 90 b = false -> b = c.
Proof. unfold lower. intros H E. by rewrite E in H. Qed.

Lemma to_ascii_lowercase_app a b :
  to_ascii_lowercase (a ++ b) = to_ascii_lowercase a ++ to_ascii_lowercase b.
Proof. apply map_app. Qed.

(** Lower-casing keeps every byte that is not a capital, and adds none below. *)
Lemma lower_free marks s :
  Forall (fun m => within 97 122 m = false) marks -> free marks s -> free marks (to_ascii_lowercase s).
Proof.
  intros Hm Hs. unfold free, to_ascii_lowercase. apply Forall_map. eapply Forall_impl; [exact Hs|].
  intros b. rewrite !one_of_false. intros Hb Hin. unfold lower in Hin.
  destruct (within 65 90 b) eqn:E; [|done]. rewrite Forall_forall in Hm. specialize (Hm _ Hin).
  apply within_spec in E. apply within_false in Hm. lia.
Qed.

(** * Schemes *)

Lemma web_scheme_letters s : s ∈ web_schemes -> s <> [] /\ Forall (fun b => within 97 122 b = true) s.
Proof.
  intros H. assert (Hall : Forall (fun s => s <> [] /\ Forall (fun b => within 97 122 b = true) s) web_schemes).
  { apply (bool_decide_unpack _). by vm_compute. }
  rewrite Forall_forall in Hall. by apply Hall.
Qed.

Lemma web_scheme_not_file s : s ∈ web_schemes -> s <> FILE.
Proof.
  intros H ->. revert H. apply (bool_decide_unpack (FILE ∉ web_schemes)). by vm_compute.
Qed.

Lemma letters_of_lower s :
  Forall (fun b => within 97 122 b = true) (to_ascii_lowercase s) -> Forall (fun b => is_alpha b = true) s.
Proof. unfold to_ascii_lowercase. rewrite Forall_map. intros H. eapply Forall_impl; [exact H|]. intros b. apply lower_alpha.
Qed.

Lemma alpha_not b c : is_alpha b = true -> is_alpha c = false -> b <> c.
Proof. intros H H' ->. congruence. Qed.

Lemma alpha_no_colon s : Forall (fun b => is_alpha b = true) s -> COLON ∉ s.
Proof.
  intros H Hin. rewrite Forall_forall in H. by specialize (H _ Hin).
Qed.

Lemma split_leading_scheme_app s r :
  s <> [] -> Forall (fun b => is_alpha b = true) s ->
  split_leading_scheme (s ++ COLON :: r) = Some (s, r).
Proof.
  intros Hne Hs. unfold split_leading_scheme. rewrite split_once_app by by apply alpha_no_colon.
  simpl. destruct Hs as [|b s Hb Hs]; [done|]. rewrite Hb. simpl.
  rewrite (proj2 (forallb_forall _ _)); [done|]. intros x Hx.
  apply list_elem_of_In in Hx. rewrite Forall_forall in Hs. unfold is_alnum. by rewrite (Hs x Hx).
Qed.

(** * The spellings of a web address *)

Record Spelling := mkSpelling {
  sp_scheme : bytes;             (** any case of a web scheme *)
  sp_slashes : bytes;            (** a run of separators, possibly empty *)
  sp_userinfo : option bytes;    (** the text before an at sign *)
  sp_host : bytes;               (** any case *)
  sp_port : option bytes;        (** the digits after a colon *)
  sp_path : option bytes;        (** the text after the first slash *)
  sp_suffix : bytes;             (** a query or a fragment, delimiter included *)
}.

Definition userinfo_part (sp : Spelling) : bytes :=
  match sp_userinfo sp with Some u => u ++ [AT] | None => [] end.
Definition port_part (sp : Spelling) : bytes :=
  match sp_port sp with Some p => COLON :: p | None => [] end.
Definition path_part (sp : Spelling) : bytes :=
  match sp_path sp with Some p => SLASH :: p | None => [] end.

Definition render (sp : Spelling) : bytes :=
  sp_scheme sp ++ COLON :: sp_slashes sp ++
  (userinfo_part sp ++ sp_host sp ++ port_part sp) ++ path_part sp ++ sp_suffix sp.

(** A host name, or a bracketed address. *)
Definition host_ok (h : bytes) : Prop :=
  h <> [] /\ free [SLASH; BACKSLASH; QUESTION; HASH; AT; COLON; LBRACKET] h \/
  exists inner, h = LBRACKET :: inner ++ [RBRACKET] /\
    free [SLASH; BACKSLASH; QUESTION; HASH; AT; RBRACKET] inner.

Record spelling_ok (sp : Spelling) : Prop := {
  ok_scheme : to_ascii_lowercase (sp_scheme sp) ∈ web_schemes;
  ok_slashes : Forall (fun b => one_of [SLASH; BACKSLASH] b = true) (sp_slashes sp);
  ok_userinfo u : sp_userinfo sp = Some u -> free [SLASH; BACKSLASH; QUESTION; HASH] u;
  ok_host : host_ok (sp_host sp);
  ok_port p : sp_port sp = Some p -> Forall (fun b => is_digit b = true) p;
  ok_path p : sp_path sp = Some p -> free [QUESTION; HASH] p;
  ok_suffix : stops [QUESTION; HASH] (sp_suffix sp);
}.

(** The form every spelling normalizes to. *)
Definition form (scheme host port path : bytes) : bytes :=
  scheme ++ SEPARATOR ++ to_ascii_lowercase host ++ port ++ [SLASH] ++ path.
Definition form_of (sp : Spelling) (k : SchemeKnowledge) : bytes :=
  let scheme := to_ascii_lowercase (sp_scheme sp) in
  form scheme (sp_host sp) (kept_port scheme k (default [] (sp_port sp))) (default [] (sp_path sp)).

(** Bytes of an authority: none of them ends it. *)
Definition authority_marks : bytes := [SLASH; QUESTION; HASH].

Lemma host_free h : host_ok h -> free (authority_marks ++ [BACKSLASH; AT]) h /\ h <> [].
Proof.
  intros [[Hne Hf]|(inner & -> & Hf)].
  - split; [|done]. eapply free_sub; [|exact Hf]. intros b. unfold authority_marks. simpl.
    rewrite !elem_of_cons. tauto.
  - split; [|done]. constructor; [done|]. apply free_app. split; [|by repeat constructor].
    eapply free_sub; [|exact Hf]. intros b. unfold authority_marks. simpl. rewrite !elem_of_cons. tauto.
Qed.

Lemma digits_free p :
  Forall (fun b => is_digit b = true) p -> free [SLASH; BACKSLASH; QUESTION; HASH; AT; COLON] p.
Proof.
  intros H. unfold free. eapply Forall_impl; [exact H|]. intros b [Hb1 Hb2]%within_spec.
  apply one_of_false. rewrite !elem_of_cons, elem_of_nil.
  unfold SLASH, BACKSLASH, QUESTION, HASH, AT, COLON. lia.
Qed.

Lemma port_part_free sp : spelling_ok sp -> free (authority_marks ++ [BACKSLASH; AT]) (port_part sp).
Proof.
  intros Hok. unfold port_part. destruct (sp_port sp) as [p|] eqn:E; [|by constructor].
  constructor; [done|]. eapply free_sub; [|by eapply digits_free, ok_port].
  intros b. unfold authority_marks. simpl. rewrite !elem_of_cons. tauto.
Qed.

Lemma split_bracket inner r :
  RBRACKET ∉ inner ->
  split_host_port (LBRACKET :: inner ++ RBRACKET :: r) =
    Some (LBRACKET :: inner ++ [RBRACKET], default [] (strip_prefix [COLON] r)).
Proof.
  intros Hi. unfold split_host_port.
  rewrite (strip_prefix_app [LBRACKET] (inner ++ RBRACKET :: r) : strip_prefix [LBRACKET] (LBRACKET :: _) = _).
  rewrite position_app; [| |apply Z.eqb_refl].
  - simpl. f_equal. rewrite (cons_middle RBRACKET inner r), (app_assoc inner [RBRACKET] r).
    assert (Hl : length (inner ++ [RBRACKET]) = length inner + 1) by (rewrite length_app; simpl; lia).
    rewrite <- Hl, Nat.add_1_r. simpl. by rewrite take_app_length, drop_app_length.
  - apply Forall_forall. intros b Hb. apply Z.eqb_neq. intros E. apply Hi. by rewrite E.
Qed.

Lemma split_host_port_spelling sp :
  spelling_ok sp ->
  split_host_port (sp_host sp ++ port_part sp) = Some (sp_host sp, default [] (sp_port sp)).
Proof.
  intros Hok.
  destruct (ok_host _ Hok) as [[Hne Hf]|(inner & Eh & Hf)].
  - unfold split_host_port. assert (Hc : COLON ∉ sp_host sp) by (eapply free_not_in; [|exact Hf]; rewrite !elem_of_cons; tauto).
    assert (Hn : strip_prefix [LBRACKET] (sp_host sp ++ port_part sp) = None).
    { destruct Hf as [|b h Hb Hf]; [done|]. simpl app. apply strip_prefix_head.
      intros E. rewrite <- E in Hb. by vm_compute in Hb. }
    rewrite Hn. unfold port_part. destruct (sp_port sp) as [p|] eqn:Ep.
    + pose proof (ok_port _ Hok p Ep) as Hp.
      assert (Hcp : COLON ∉ p).
      { eapply free_not_in; [|by apply digits_free]. rewrite !elem_of_cons. tauto. }
      rewrite rsplit_once_app by done. simpl.
      replace (forallb is_digit p) with true; [by rewrite orb_true_r|].
      symmetry. apply forallb_forall. intros x Hx%list_elem_of_In.
      rewrite Forall_forall in Hp. by apply Hp.
    + rewrite app_nil_r, rsplit_once_none; done.
  - assert (Hr : RBRACKET ∉ inner) by (eapply free_not_in; [|exact Hf]; rewrite !elem_of_cons; tauto).
    rewrite Eh. simpl app. rewrite <- app_assoc. simpl app. rewrite split_bracket by done.
    unfold port_part. destruct (sp_port sp) as [p|]; [|done].
    by rewrite (strip_prefix_app [COLON] p : strip_prefix [COLON] (COLON :: _) = _).
Qed.

(** ** Every spelling normalizes to its form *)

Lemma without_userinfo_spelling sp :
  spelling_ok sp ->
  without_userinfo (userinfo_part sp ++ sp_host sp ++ port_part sp) = sp_host sp ++ port_part sp.
Proof.
  intros Hok. assert (Hat : AT ∉ sp_host sp ++ port_part sp).
  { destruct (host_free _ (ok_host _ Hok)) as [Hh _]. pose proof (port_part_free _ Hok) as Hp.
    eapply free_not_in; [|apply free_app; split; [exact Hh|exact Hp]].
    unfold authority_marks. simpl. rewrite !elem_of_cons. tauto. }
  unfold without_userinfo, userinfo_part. destruct (sp_userinfo sp) as [u|].
  - rewrite <- app_assoc. simpl app. by rewrite rsplit_once_app.
  - simpl app. by rewrite rsplit_once_none.
Qed.

Lemma authority_free sp :
  spelling_ok sp -> free authority_marks (userinfo_part sp ++ sp_host sp ++ port_part sp).
Proof.
  intros Hok.
  assert (Hsub : forall b, b ∈ authority_marks -> b ∈ authority_marks ++ [BACKSLASH; AT])
    by (intros; rewrite elem_of_app; by left).
  apply free_app. split; [|apply free_app; split].
  - unfold userinfo_part. destruct (sp_userinfo sp) as [u|] eqn:Eu; [|by constructor].
    apply free_app. split; [|by repeat constructor].
    eapply free_sub; [|by eapply ok_userinfo]. intros b. unfold authority_marks. simpl.
    rewrite !elem_of_cons. tauto.
  - eapply free_sub; [exact Hsub|apply (host_free _ (ok_host _ Hok))].
  - eapply free_sub; [exact Hsub|by apply port_part_free].
Qed.

(** The authority opens with no separator, so the slash run ends before it. *)
Lemma authority_opens sp r :
  spelling_ok sp ->
  forall b r', (userinfo_part sp ++ sp_host sp ++ port_part sp) ++ r = b :: r' ->
    one_of [SLASH; BACKSLASH] b = false.
Proof.
  intros Hok b r'.
  assert (Hf : free [SLASH; BACKSLASH] (userinfo_part sp ++ sp_host sp ++ port_part sp)).
  { assert (Hsub : forall b, b ∈ [SLASH; BACKSLASH] -> b ∈ authority_marks ++ [BACKSLASH; AT]).
    { intros c. unfold authority_marks. simpl. rewrite !elem_of_cons. tauto. }
    apply free_app. split; [|apply free_app; split].
    - unfold userinfo_part. destruct (sp_userinfo sp) as [u|] eqn:Eu; [|by constructor].
      apply free_app. split; [|by repeat constructor].
      eapply free_sub; [|by eapply ok_userinfo]. intros c. rewrite !elem_of_cons. tauto.
    - eapply free_sub; [exact Hsub|apply (host_free _ (ok_host _ Hok))].
    - eapply free_sub; [exact Hsub|by apply port_part_free]. }
  destruct (userinfo_part sp ++ sp_host sp ++ port_part sp) as [|c a] eqn:Ea.
  - exfalso. destruct (host_free _ (ok_host _ Hok)) as [_ Hne].
    apply app_eq_nil in Ea as [_ [? _]%app_eq_nil]. done.
  - intros [= <- _]. by apply Forall_cons in Hf as [? _].
Qed.

Lemma path_stops sp : spelling_ok sp -> stops authority_marks (path_part sp ++ sp_suffix sp).
Proof.
  intros Hok b r' E. unfold path_part in E. destruct (sp_path sp) as [p|].
  - by injection E as <- _.
  - apply (ok_suffix _ Hok) in E. apply one_of_spec in E. apply one_of_spec.
    revert E. unfold authority_marks. rewrite !elem_of_cons. tauto.
Qed.

Lemma path_of_spelling sp :
  spelling_ok sp ->
  until_first [QUESTION; HASH] (default [] (strip_prefix [SLASH] (path_part sp ++ sp_suffix sp))) =
    default [] (sp_path sp).
Proof.
  intros Hok. unfold path_part. destruct (sp_path sp) as [p|] eqn:Ep.
  - simpl app. rewrite (strip_prefix_app [SLASH] _ : strip_prefix [SLASH] (SLASH :: _) = _). simpl.
    apply until_first_app; [by eapply ok_path|apply (ok_suffix _ Hok)].
  - simpl app. destruct (sp_suffix sp) as [|b r] eqn:Es; [done|].
    rewrite strip_prefix_head; [done|]. intros <-.
    by pose proof (ok_suffix _ Hok _ _ Es).
Qed.

Lemma scheme_alpha sp :
  spelling_ok sp -> sp_scheme sp <> [] /\ Forall (fun b => is_alpha b = true) (sp_scheme sp).
Proof.
  intros Hok. destruct (web_scheme_letters _ (ok_scheme _ Hok)) as [Hne Hl].
  split; [by intros E; rewrite E in Hne|by apply letters_of_lower].
Qed.

Lemma normalize_spelling sp k :
  spelling_ok sp -> normalize_egress_url (render sp) k = Some (form_of sp k).
Proof.
  intros Hok. destruct (scheme_alpha sp Hok) as [Hne Ha].
  unfold normalize_egress_url, render. rewrite split_once_app by by apply alpha_no_colon.
  unfold eq_ignore_ascii_case. rewrite bool_decide_eq_false_2
    by (apply web_scheme_not_file; apply (ok_scheme _ Hok)).
  unfold normalize_web_url. rewrite split_leading_scheme_app by done. cbn [mbind option_bind].
  rewrite bool_decide_eq_true_2 by apply (ok_scheme _ Hok). cbn [mbind option_bind].
  unfold trim_start_matches. rewrite skip_while_app;
    [|apply (ok_slashes _ Hok)|by apply authority_opens].
  rewrite until_first_app; [|by apply authority_free|by apply path_stops].
  rewrite drop_app_length, without_userinfo_spelling, split_host_port_spelling by done. cbn [mbind option_bind].
  by rewrite path_of_spelling.
Qed.

(** ** A kept port is a colon and digits *)

Lemma to_digit_nonneg radix b d : to_digit radix b = Some d -> (0 <= radix)%Z -> (0 <= d)%Z.
Proof.
  unfold to_digit, is_digit. intros H Hr. case_decide; [|done]. simplify_eq.
  destruct (within 48 57 b) eqn:E1; [apply within_spec in E1; lia|].
  destruct (within 97 122 b) eqn:E2; [apply within_spec in E2; lia|].
  destruct (within 65 90 b) eqn:E3; [apply within_spec in E3; lia|lia].
Qed.

Lemma digits_value_nonneg radix acc s v :
  (0 <= radix)%Z -> (0 <= acc)%Z -> digits_value radix acc s = Some v -> (0 <= v)%Z.
Proof.
  intros Hr. revert acc. induction s as [|b s IH]; intros acc Ha H; simpl in H; [by simplify_eq|].
  apply bind_Some in H as (d & Hd & H). apply to_digit_nonneg in Hd; [|done].
  eapply IH; [|exact H]. lia.
Qed.

Lemma kept_port_free scheme k p :
  Forall (fun b => is_digit b = true) p -> free authority_marks (kept_port scheme k p).
Proof.
  intros Hp.
  assert (Hd : forall q, Forall (fun b => is_digit b = true) q -> free authority_marks (COLON :: q)).
  { intros q Hq. constructor; [done|]. eapply free_sub; [|by apply digits_free].
    intros b. unfold authority_marks. rewrite !elem_of_cons. tauto. }
  unfold kept_port. case_decide; [by constructor|].
  destruct (parse_unsigned u16_max 10 p) as [n|] eqn:E; [|by apply Hd].
  destruct (match k with Carried => _ | Guessed => _ end); [by constructor|].
  apply Hd, decimal_digits. unfold parse_unsigned in E. case_decide; [done|].
  apply bind_Some in E as (v & Hv & E). case_decide; [|done]. simplify_eq.
  eapply digits_value_nonneg; [| |exact Hv]; lia.
Qed.

Lemma spelled_port_digits sp :
  spelling_ok sp -> Forall (fun b => is_digit b = true) (default [] (sp_port sp)).
Proof.
  intros Hok. destruct (sp_port sp) as [p|] eqn:E; [by eapply ok_port|by constructor].
Qed.

(** * The identity of a form *)

Lemma same_refl x : same_decoded_identity x x = true.
Proof.
  unfold same_decoded_identity. destruct (url_blob_segments x); by apply bool_decide_eq_true.
Qed.

Lemma form_segments scheme host port path :
  scheme ∈ web_schemes -> free authority_marks (to_ascii_lowercase host) -> free authority_marks port ->
  url_blob_segments (form scheme host port path) =
    Some (mkSegments (scheme ++ SEPARATOR) (authority_tokens [] (to_ascii_lowercase host ++ port))
            (decoded_identity (SLASH :: path))).
Proof.
  intros Hs Hh Hp. destruct (web_scheme_letters _ Hs) as [Hne Hl].
  assert (Ha : Forall (fun b => is_alpha b = true) scheme).
  { eapply Forall_impl; [exact Hl|]. intros b Hb. unfold is_alpha. by rewrite Hb, orb_true_r. }
  unfold url_blob_segments, form.
  set (body := to_ascii_lowercase host ++ port ++ [SLASH] ++ path).
  assert (Hn : strip_prefix SLASHES (scheme ++ SEPARATOR ++ body) = None).
  { destruct Ha as [|b s Hb _]; [done|]. simpl app. apply strip_prefix_head. intros E.
    by rewrite <- E in Hb. }
  assert (Hsl : split_leading_scheme (scheme ++ SEPARATOR ++ body) = Some (scheme, SLASHES ++ body))
    by exact (split_leading_scheme_app scheme (SLASHES ++ body) Hne Ha).
  rewrite Hn, Hsl. cbn [mbind option_bind].
  rewrite strip_prefix_app. cbn [mbind option_bind].
  replace (until_first [SLASH; QUESTION; HASH] body) with (to_ascii_lowercase host ++ port).
  - f_equal. f_equal.
    + rewrite (app_assoc scheme SEPARATOR body).
      replace (length scheme + 3) with (length (scheme ++ SEPARATOR)) by (by rewrite length_app).
      apply take_app_length.
    + f_equal. unfold body. rewrite (app_assoc (to_ascii_lowercase host)). apply drop_app_length.
  - symmetry. unfold body. rewrite (app_assoc (to_ascii_lowercase host)).
    apply until_first_app; [by apply free_app|]. intros b r' E. by injection E as <- _.
Qed.

(** Two forms of one scheme, host and port, whose paths decode alike, are one. *)
Lemma same_forms scheme host host' port path path' :
  scheme ∈ web_schemes -> free authority_marks (to_ascii_lowercase host) -> free authority_marks port ->
  to_ascii_lowercase host = to_ascii_lowercase host' ->
  decoded_identity (SLASH :: path) = decoded_identity (SLASH :: path') ->
  same_decoded_identity (form scheme host port path) (form scheme host' port path') = true.
Proof.
  intros Hs Hh Hp Eh Ed. unfold same_decoded_identity.
  rewrite (form_segments scheme host), (form_segments scheme host') by (by rewrite <- ?Eh).
  apply bool_decide_eq_true. by rewrite Ed, Eh.
Qed.

Lemma lower_host_free sp : spelling_ok sp -> free authority_marks (to_ascii_lowercase (sp_host sp)).
Proof.
  intros Hok. apply lower_free; [by apply (bool_decide_unpack _); vm_compute|].
  eapply free_sub; [|apply (host_free _ (ok_host _ Hok))]. intros; rewrite elem_of_app; by left.
Qed.

(** * What preprocessing removes *)

(** [raw] writes [x]: controls and padding around it, tabs and line breaks
    anywhere, a backslash for any slash. *)
Definition writes (raw x : bytes) : Prop :=
  exists pad x' pad',
    filter (fun b => one_of [TAB; LF; CR] b = false) raw = pad ++ x' ++ pad' /\
    Forall (fun b => b <= SPACE)%Z pad /\ Forall (fun b => b <= SPACE)%Z pad' /\
    Forall (fun b => SPACE < b)%Z x' /\ replace BACKSLASH [SLASH] x' = x.

Lemma skip_while_none {A} (f : A -> bool) l :
  (forall x r', l = x :: r' -> f x = false) -> skip_while f l = l.
Proof. intros H. exact (skip_while_app f [] l ltac:(constructor) H). Qed.

Lemma trim_padded pad x pad' :
  Forall (fun b => b <= SPACE)%Z pad -> Forall (fun b => b <= SPACE)%Z pad' ->
  Forall (fun b => SPACE < b)%Z x -> x <> [] ->
  trim_matches (fun b => b <=? SPACE)%Z (pad ++ x ++ pad') = x.
Proof.
  intros Hp Hp' Hx Hne. unfold trim_matches.
  assert (Hle : forall l, Forall (fun b => b <= SPACE)%Z l -> Forall (fun b => (b <=? SPACE)%Z = true) l).
  { intros l H. eapply Forall_impl; [exact H|]. intros b. by rewrite Z.leb_le. }
  rewrite skip_while_app; [|by apply Hle|].
  - rewrite rev_app_distr, skip_while_app.
    + apply rev_involutive.
    + apply Hle. by apply List.Forall_rev.
    + intros b r' E. apply Z.leb_gt. assert (Hin : b ∈ rev x) by (rewrite E; by left).
      rewrite list_elem_of_In, <- in_rev, <- list_elem_of_In in Hin.
      rewrite Forall_forall in Hx. by apply Hx.
  - intros b r' E. apply Z.leb_gt. destruct Hx as [|c x Hc _]; [done|]. by injection E as <- _.
Qed.

(** Folding backslashes, byte by byte. *)
Definition fold_slash (b : Z) : Z := if decide (b = BACKSLASH) then SLASH else b.

Lemma replace_fold s : replace BACKSLASH [SLASH] s = map fold_slash s.
Proof.
  unfold replace. induction s as [|b s IH]; [done|]. simpl. rewrite IH. unfold fold_slash.
  by case_decide.
Qed.

Lemma fold_slash_alpha b : is_alpha (fold_slash b) = true -> fold_slash b = b.
Proof. unfold fold_slash. by case_decide. Qed.

Lemma fold_alpha s s' :
  map fold_slash s = s' -> Forall (fun b => is_alpha b = true) s' -> s = s'.
Proof.
  intros <-. induction s as [|b s IH]; [done|]. simpl. intros [Hb Hs]%Forall_cons.
  rewrite (fold_slash_alpha _ Hb). f_equal. by apply IH.
Qed.

Lemma writes_preprocess raw s r :
  to_ascii_lowercase s ∈ web_schemes -> writes raw (s ++ COLON :: r) ->
  preprocess_egress_target raw = s ++ COLON :: r.
Proof.
  intros Hs (pad & x' & pad' & Hraw & Hp & Hp' & Hx & Hr).
  destruct (web_scheme_letters _ Hs) as [Hne Hl]. apply letters_of_lower in Hl as Ha.
  assert (Hs' : s <> []) by (intros ->; done).
  unfold preprocess_egress_target. rewrite Hraw, trim_padded; [|done..|].
  - replace (web_shaped x') with true; [done|]. symmetry.
    rewrite replace_fold in Hr. apply map_eq_app in Hr as (s0 & r0 & -> & Es & Er).
    apply fold_alpha in Es as ->; [|done].
    destruct r0 as [|c r0]; [done|]. injection Er as Ec _.
    assert (c = COLON) as ->.
    { revert Ec. unfold fold_slash. by case_decide. }
    unfold web_shaped. rewrite split_leading_scheme_app by done.
    unfold is_special_scheme. rewrite bool_decide_eq_true_2; [done|].
    apply elem_of_app. by left.
  - intros ->. by destruct s.
Qed.

(** * Denial of every spelling *)

Lemma spelling_preprocess raw sp :
  spelling_ok sp -> writes raw (render sp) -> preprocess_egress_target raw = render sp.
Proof. intros Hok. apply writes_preprocess, (ok_scheme _ Hok). Qed.

Lemma render_leading sp : spelling_ok sp -> has_leading_scheme (render sp) = true.
Proof.
  intros Hok. destruct (scheme_alpha sp Hok) as [Hne Ha].
  unfold has_leading_scheme, render. rewrite split_leading_scheme_app by done.
  unfold is_special_scheme. rewrite bool_decide_eq_true_2; [apply orb_true_r|].
  apply elem_of_app. left. apply (ok_scheme _ Hok).
Qed.

Lemma egress_denied_in raws raw entry :
  entry ∈ raws -> entry_denies raw entry = true -> egress_denied raws raw = true.
Proof.
  intros Hin Hd. unfold egress_denied. apply existsb_exists. exists entry.
  split; [by apply list_elem_of_In|done].
Qed.

(** The port of a spelling, as a form keeps it. *)
Definition port_of (sp : Spelling) (k : SchemeKnowledge) : bytes :=
  kept_port (to_ascii_lowercase (sp_scheme sp)) k (default [] (sp_port sp)).
Definition path_of (sp : Spelling) : bytes := default [] (sp_path sp).

Lemma filter_id {A} (P : A -> Prop) `{!forall x, Decision (P x)} l : Forall P l -> filter P l = l.
Proof. induction 1 as [|x l Hx _ IH]; [done|]. by rewrite filter_cons_True, IH. Qed.

(** Spelled without a scheme: a host, or an introduction and a host, and then at
    least a slash; nothing in front reads as a scheme. *)
Definition bare (raw : bytes) (sp : Spelling) : Prop :=
  sp_scheme sp = HTTPS /\ sp_slashes sp = SLASHES /\ sp_userinfo sp = None /\ is_Some (sp_path sp) /\
  exists intro, (intro = [] \/ intro = SLASHES) /\
    raw = intro ++ sp_host sp ++ port_part sp ++ path_part sp ++ sp_suffix sp /\
    has_leading_scheme raw = false /\ (BACKSLASH ∉ raw) /\ Forall (fun b => SPACE < b)%Z raw.

(** Preprocessing leaves a spelling without controls and backslashes alone. *)
Lemma plain_preprocess (raw : bytes) :
  raw <> [] -> BACKSLASH ∉ raw -> Forall (fun b => SPACE < b)%Z raw -> preprocess_egress_target raw = raw.
Proof.
  intros Hn Hb Hr. unfold preprocess_egress_target.
  assert (Hf : filter (fun b => one_of [TAB; LF; CR] b = false) raw = raw).
  { apply filter_id. eapply Forall_impl; [exact Hr|]. intros b Hc.
    apply one_of_false. rewrite !elem_of_cons, elem_of_nil. unfold SPACE, TAB, LF, CR in *. lia. }
  assert (Ht : trim_matches (fun b => (b <=? SPACE)%Z) raw = raw).
  { rewrite <- (app_nil_r raw) at 1. apply (trim_padded [] raw []); [constructor..|done|done]. }
  rewrite Hf, Ht. destruct (web_shaped raw); [|done]. rewrite replace_fold.
  clear -Hb. induction raw as [|b r IH]; [done|]. simpl. apply not_elem_of_cons in Hb as [Hb Hr].
  rewrite (IH Hr). unfold fold_slash. by rewrite decide_False.
Qed.

Lemma bare_preprocess raw sp : bare raw sp -> spelling_ok sp -> preprocess_egress_target raw = raw.
Proof.
  intros (_ & _ & _ & _ & intro & _ & E & _ & Hb & Hr) Hok. apply plain_preprocess; [|done..].
  rewrite E. destruct (host_free _ (ok_host _ Hok)) as [_ Hne].
  intros [_ [? _]%app_eq_nil]%app_eq_nil. done.
Qed.

Lemma trim_nothing s : (forall b r, s = b :: r -> one_of [SLASH; BACKSLASH] b = false) ->
  trim_start_matches [SLASH; BACKSLASH] s = s.
Proof. apply skip_while_none. Qed.

Lemma bare_retry raw sp :
  spelling_ok sp -> bare raw sp -> schemeless_retry raw = Some (form_of sp Guessed).
Proof.
  intros Hok (Es & El & Eu & _ & intro & Hintro & E & _).
  assert (Hrender : render sp = HTTPS ++ SEPARATOR ++ sp_host sp ++ port_part sp ++ path_part sp ++ sp_suffix sp).
  { unfold render, userinfo_part. rewrite Es, El, Eu. simpl app at 4.
    by rewrite <- (app_assoc (sp_host sp)). }
  rewrite <- (normalize_spelling sp Guessed Hok), Hrender.
  assert (Hopen : forall b r', sp_host sp ++ port_part sp ++ path_part sp ++ sp_suffix sp = b :: r' ->
    one_of [SLASH; BACKSLASH] b = false).
  { intros b r' Eb. apply (authority_opens sp (path_part sp ++ sp_suffix sp) Hok b r').
    unfold userinfo_part. rewrite Eu. simpl app at 1. by rewrite <- !app_assoc. }
  unfold schemeless_retry. destruct Hintro as [-> | ->]; subst raw.
  - rewrite !app_nil_l. destruct (sp_host sp ++ _) as [|b r] eqn:Eb; [done|].
    specialize (Hopen b r eq_refl) as Hb. assert (Hn : strip_prefix SLASHES (b :: r) = None).
    { apply strip_prefix_head. intros E'. by rewrite <- E' in Hb. }
    rewrite Hn. by rewrite Hb.
  - rewrite strip_prefix_app. cbn [mbind option_bind]. by rewrite trim_nothing.
Qed.

(** A spelling that opens with no scheme has no form of its own. *)
Lemma no_scheme_no_form raw k : has_leading_scheme raw = false -> normalize_egress_url raw k = None.
Proof.
  unfold has_leading_scheme. intros H.
  assert (Hweb : normalize_web_url raw k = None).
  { unfold normalize_web_url. destruct (split_leading_scheme raw) as [[s r]|]; [|done].
    apply orb_false_iff in H as [Hr Hs]. unfold is_special_scheme in Hs.
    apply bool_decide_eq_false in Hs. cbn [mbind option_bind]. rewrite bool_decide_eq_false_2.
    - unfold starts_with in Hr. by destruct (strip_prefix SLASHES r).
    - intros Hin. apply Hs, elem_of_app. by left. }
  unfold normalize_egress_url. destruct (split_once COLON raw) as [[s r]|] eqn:E; [|done].
  unfold eq_ignore_ascii_case. case_bool_decide as Hf; [|done]. exfalso.
  assert (Ha : s <> [] /\ Forall (fun b => is_alpha b = true) s).
  { split; [by intros ->|]. apply letters_of_lower. rewrite Hf. by apply (bool_decide_unpack _); vm_compute. }
  unfold split_leading_scheme in H. rewrite E in H. simpl in H.
  destruct s as [|b s]; [by destruct Ha|]. destruct Ha as [_ [Hb Hs]%Forall_cons].
  rewrite Hb, (proj2 (forallb_forall _ _)) in H.
  - simpl in H. apply orb_false_iff in H as [_ H]. unfold is_special_scheme in H.
    apply bool_decide_eq_false in H. apply H. rewrite Hf. apply elem_of_app. right. by left.
  - intros x Hx%list_elem_of_In. rewrite Forall_forall in Hs. unfold is_alnum. by rewrite (Hs x Hx).
Qed.

Lemma after_separator_step b s : b <> COLON -> after_separator (b :: s) = after_separator s.
Proof.
  intros Hb. assert (Hn : strip_prefix SEPARATOR (b :: s) = None).
  { apply strip_prefix_head. by intros E. }
  cbn [after_separator]. by rewrite Hn.
Qed.

Lemma after_separator_found s : after_separator (SEPARATOR ++ s) = Some s.
Proof.
  destruct (SEPARATOR ++ s) as [|b r] eqn:E; [done|]. cbn [after_separator]. rewrite <- E.
  by rewrite strip_prefix_app.
Qed.

Lemma url_key_form scheme host port path :
  scheme ∈ web_schemes ->
  url_key (form scheme host port path) = to_ascii_lowercase host ++ port ++ [SLASH] ++ path.
Proof.
  intros Hs. destruct (web_scheme_letters _ Hs) as [_ Hl]. unfold url_key, form.
  set (key := to_ascii_lowercase host ++ port ++ [SLASH] ++ path).
  assert (after_separator (scheme ++ SEPARATOR ++ key) = Some key) as ->; [|done].
  clear Hs. induction Hl as [|b s Hb _ IH]; [apply after_separator_found|].
  rewrite <- app_comm_cons, after_separator_step; [done|]. intros ->. done.
Qed.

(** * The ports of a spelling *)

(** The port number a spelling of a scheme names: written out, leading zeros
    allowed, or left out (or empty) where the scheme has a default the code
    folds, which http and https have and ws, wss and ftp have not. *)
Definition names_port (scheme port : bytes) (n : Z) : Prop :=
  (exists zeros, Forall (eq ZERO) zeros /\ port = zeros ++ decimal n) \/
  port = [] /\ (scheme = HTTP /\ n = 80%Z \/ scheme = HTTPS /\ n = 443%Z).
Definition same_port (scheme p q : bytes) : Prop :=
  p = q \/ exists n, (0 <= n <= u16_max)%Z /\ names_port scheme p n /\ names_port scheme q n.

Lemma zeros_value radix zeros s :
  (0 < radix)%Z -> Forall (eq ZERO) zeros -> digits_value radix 0 (zeros ++ s) = digits_value radix 0 s.
Proof.
  intros Hr. induction 1 as [|z zeros <- _ IH]; [done|]. simpl.
  assert (to_digit radix ZERO = Some 0%Z) as -> by (unfold to_digit; simpl; by rewrite decide_True).
  exact IH.
Qed.

Lemma parse_zeros max n zeros :
  (0 <= n <= max)%Z -> Forall (eq ZERO) zeros -> parse_unsigned max 10 (zeros ++ decimal n) = Some n.
Proof.
  intros Hn Hz. pose proof (parse_decimal max n Hn) as H. destruct Hz as [|z zeros <- Hz]; [exact H|].
  assert (Hv : digits_value 10 0 (decimal n) = Some n).
  { unfold parse_unsigned in H. destruct (strip_prefix [PLUS] (decimal n)) as [r|] eqn:E; simpl in H.
    - apply strip_prefix_Some in E. pose proof (decimal_digits n ltac:(lia)) as Hf. rewrite E in Hf. by inversion Hf.
    - case_decide; [done|]. apply bind_Some in H as (v & -> & H). case_decide; [by injection H as ->|done]. }
  assert (Hp : strip_prefix [PLUS] ((ZERO :: zeros) ++ decimal n) = None) by done.
  unfold parse_unsigned. rewrite Hp. cbn [default]. rewrite decide_False by done.
  rewrite (zeros_value 10 (ZERO :: zeros)) by (done || by constructor). rewrite Hv. simpl.
  by rewrite decide_True by lia.
Qed.

(** A port kept is the number it names, the defaults folded. *)
Lemma kept_port_names scheme port n :
  (0 <= n <= u16_max)%Z -> names_port scheme port n ->
  kept_port scheme Carried port = if is_default_port scheme n then [] else COLON :: decimal n.
Proof.
  intros Hn [(zeros & Hz & ->)|[-> Hd]]; unfold kept_port.
  - rewrite decide_False; [by rewrite parse_zeros|].
    intros [_ E]%app_eq_nil. pose proof (parse_decimal u16_max n Hn) as H. rewrite E in H. by vm_compute in H.
  - rewrite decide_True by done. by destruct Hd as [[-> ->]|[-> ->]].
Qed.

Lemma same_port_kept scheme p q : same_port scheme p q -> kept_port scheme Carried p = kept_port scheme Carried q.
Proof. intros [->|(n & Hn & Hp & Hq)]; [done|]. by rewrite !(kept_port_names _ _ n). Qed.

(** C33.  An enrolled web address is denied in every spelling.  Entry and request
    may each write the scheme and the host in any case, any run of slashes or
    backslashes after the scheme, any userinfo, any query or fragment, padding
    around and tabs or line breaks inside.  The ports are the same digits or name the
    same number, leading zeros allowed, where under http a port left out is 80 and
    under https 443 (ws, wss and ftp have no default here: a port written out is not
    the same as none); the two paths need only decode to the same text. *)
Theorem denied_address_is_denied_in_every_spelling raws entry raw e q :
  entry ∈ raws -> spelling_ok e -> spelling_ok q ->
  writes entry (render e) -> writes raw (render q) ->
  to_ascii_lowercase (sp_scheme q) = to_ascii_lowercase (sp_scheme e) ->
  to_ascii_lowercase (sp_host q) = to_ascii_lowercase (sp_host e) ->
  same_port (to_ascii_lowercase (sp_scheme e)) (default [] (sp_port q)) (default [] (sp_port e)) ->
  decoded_identity (SLASH :: path_of q) = decoded_identity (SLASH :: path_of e) ->
  egress_denied raws (preprocess_egress_target raw) = true.
Proof.
  intros Hin He Hq Hwe Hwq Es Eh Ep%same_port_kept Ed. apply (egress_denied_in _ _ entry Hin).
  unfold entry_denies. rewrite (spelling_preprocess raw q Hq Hwq), (spelling_preprocess entry e He Hwe).
  rewrite render_leading, !normalize_spelling by done. apply orb_true_iff. right. unfold url_form_matches, form_of.
  fold (path_of q) (path_of e). rewrite Es, Ep.
  apply same_forms; [apply (ok_scheme _ He)|by apply lower_host_free| |done|done].
  apply kept_port_free, spelled_port_digits, He.
Qed.

(** Leaving the scheme out dodges nothing either.  An entry enrolled without
    a scheme denies the same host and path under every web scheme and without
    one, its web default ports counting as one class; and a request spelled
    without a scheme is denied by an entry whose form, the default ports folded,
    is the request's. *)
Theorem schemeless_spellings_are_denied raws entry raw e q :
  entry ∈ raws -> spelling_ok e -> spelling_ok q ->
  to_ascii_lowercase (sp_host q) = to_ascii_lowercase (sp_host e) -> path_of q = path_of e ->
  (bare entry e /\ (writes raw (render q) \/ bare raw q) /\ port_of q Guessed = port_of e Guessed) \/
  (writes entry (render e) /\ bare raw q /\ port_of q Guessed = port_of e Carried) ->
  egress_denied raws (preprocess_egress_target raw) = true.
Proof.
  intros Hin He Hq Eh Epath Hcase. apply (egress_denied_in _ _ entry Hin).
  unfold entry_denies. apply orb_true_iff. right.
  assert (Hkey : forall k k', port_of q k = port_of e k' ->
    same_decoded_identity (url_key (form_of q k)) (url_key (form_of e k')) = true).
  { intros k k' Ep. unfold form_of. rewrite !url_key_form by (by apply ok_scheme).
    fold (port_of q k) (port_of e k') (path_of q) (path_of e). rewrite Eh, Ep, Epath. apply same_refl. }
  destruct Hcase as [(Hbe & Hraw & Ep)|(Hwe & Hbq & Ep)].
  - rewrite (bare_preprocess entry e Hbe He).
    pose proof Hbe as (_ & _ & _ & [p Hp] & intro & _ & Eentry & Hlead & _).
    assert (Hslash : existsb (Z.eqb SLASH) entry = true).
    { apply existsb_exists. exists SLASH. split; [|done]. rewrite Eentry. unfold path_part. rewrite Hp.
      apply list_elem_of_In. rewrite !elem_of_app. right. right. right. left. by left. }
    rewrite Hlead. unfold schemeless_deny_form. rewrite Hslash, (bare_retry entry e He Hbe).
    unfold url_key_matches. simpl. specialize (Hkey Guessed Guessed Ep). apply orb_true_iff. right.
    destruct Hraw as [Hwq|Hbq].
    + rewrite (spelling_preprocess raw q Hq Hwq), !(normalize_spelling q) by done.
      rewrite Hkey. by rewrite !orb_true_r.
    + rewrite (bare_preprocess raw q Hbq Hq).
      pose proof Hbq as (_ & _ & _ & _ & _ & _ & _ & Hleadq & _).
      rewrite !(no_scheme_no_form raw) by done. rewrite Hleadq, (bare_retry raw q Hq Hbq), Hkey. done.
  - rewrite (spelling_preprocess entry e He Hwe), (bare_preprocess raw q Hbq Hq).
    pose proof Hbq as (_ & _ & _ & _ & _ & _ & _ & Hleadq & _).
    rewrite render_leading, normalize_spelling by done.
    rewrite !(no_scheme_no_form raw) by done. rewrite Hleadq, (bare_retry raw q Hq Hbq). by apply Hkey.
Qed.

(** A denied address and three ways to write it. *)
Definition demo_entry : Spelling :=
  mkSpelling HTTPS SLASHES None (bytes_of "evil.example") None (Some (bytes_of "admin")) [].
Definition demo_spelling : Spelling :=
  mkSpelling (bytes_of "HtTpS") [SLASH] (Some (bytes_of "me:pw")) (bytes_of "EVIL.example")
    (Some (bytes_of "0443")) (Some (bytes_of "%61dmin")) (bytes_of "?q#f").
Definition demo_raw : bytes := SPACE :: bytes_of "HtTpS:\me:pw@EVIL.exa" ++ TAB :: bytes_of "mple:0443/%61dmin?q#f".

Lemma demo_entry_ok : spelling_ok demo_entry.
Proof.
  split; simpl.
  - apply (bool_decide_unpack _). by vm_compute.
  - apply (bool_decide_unpack _). by vm_compute.
  - done.
  - left. split; [done|]. apply (bool_decide_unpack _). by vm_compute.
  - done.
  - intros p [= <-]. apply (bool_decide_unpack _). by vm_compute.
  - by intros b r'.
Qed.

Lemma demo_spelling_ok : spelling_ok demo_spelling.
Proof.
  split; simpl.
  - apply (bool_decide_unpack _). by vm_compute.
  - apply (bool_decide_unpack _). by vm_compute.
  - intros u [= <-]. apply (bool_decide_unpack _). by vm_compute.
  - left. split; [done|]. apply (bool_decide_unpack _). by vm_compute.
  - intros p [= <-]. apply (bool_decide_unpack _). by vm_compute.
  - intros p [= <-]. apply (bool_decide_unpack _). by vm_compute.
  - by intros b r' [= <- _].
Qed.

Lemma demo_writes_self : writes (render demo_entry) (render demo_entry).
Proof.
  exists [], (render demo_entry), []. split_and!; [by vm_compute| | | |by vm_compute];
    apply (bool_decide_unpack _); by vm_compute.
Qed.

Lemma demo_writes : writes demo_raw (render demo_spelling).
Proof.
  exists [SPACE], (bytes_of "HtTpS:\me:pw@EVIL.example:0443/%61dmin?q#f"), []. split_and!; [by vm_compute| | | |by vm_compute];
    apply (bool_decide_unpack _); by vm_compute.
Qed.

Lemma denied_address_is_denied_in_every_spelling_witness :
  egress_denied [render demo_entry] (preprocess_egress_target demo_raw) = true.
Proof.
  apply (denied_address_is_denied_in_every_spelling _ (render demo_entry) demo_raw demo_entry demo_spelling);
    [by left|exact demo_entry_ok|exact demo_spelling_ok|exact demo_writes_self|exact demo_writes|
     by vm_compute|by vm_compute| |by vm_compute].
  right. exists 443%Z. split_and!; [done|done| |].
  - left. exists [ZERO]. split; [by repeat constructor|by vm_compute].
  - right. split; [done|]. by right.
Defined.

Definition demo_bare : Spelling :=
  mkSpelling HTTPS SLASHES None (bytes_of "evil.example") (Some (bytes_of "80")) (Some (bytes_of "admin")) [].

Lemma demo_bare_ok : spelling_ok demo_bare.
Proof.
  split; simpl.
  - apply (bool_decide_unpack _). by vm_compute.
  - apply (bool_decide_unpack _). by vm_compute.
  - done.
  - left. split; [done|]. apply (bool_decide_unpack _). by vm_compute.
  - intros p [= <-]. apply (bool_decide_unpack _). by vm_compute.
  - intros p [= <-]. apply (bool_decide_unpack _). by vm_compute.
  - by intros b r'.
Qed.

Lemma schemeless_spellings_are_denied_witness :
  egress_denied [bytes_of "evil.example:80/admin"] (preprocess_egress_target (render demo_entry)) = true.
Proof.
  apply (schemeless_spellings_are_denied _ (bytes_of "evil.example:80/admin") (render demo_entry) demo_bare demo_entry);
    [by left|exact demo_bare_ok|exact demo_entry_ok|by vm_compute|by vm_compute|].
  left. split_and!; [|left; exact demo_writes_self|by vm_compute].
  split_and!; [reflexivity..|by eexists|]. exists []. split_and!; [by left|reflexivity|by vm_compute| |].
  - apply (bool_decide_unpack _). by vm_compute.
  - apply (bool_decide_unpack _). by vm_compute.
Defined.
