(* ===== verification/Paths.v ===== *)
(** The file-system half of the deny rules ([src/src/policy.rs]): the canonical
    identity of a path, symlinks resolved, and the rules that cover it.  The file
    system (what [lstat] and [readlink] answer for an absolute path, given by its
    names), the Unicode normalization of a name and the case-insensitive
    comparison of two names (crates [unicode-normalization] and [focaccia]) are
    parameters.  A path is the list of its bytes on a Unix host. *)

From stdpp Require Import relations.
From S2P Require Import Prelude.
From S2P Require Import Utf8.
From S2P Require Import Net.
From S2P Require Import Policy.

Definition CUR_DIR : bytes := [DOT].
Definition PARENT_DIR : bytes := [DOT; DOT].

(** [path_components]: the root and the current directory drop out. *)
Definition path_components (path : bytes) : list bytes :=
  filter (fun name => name <> [] /\ name <> CUR_DIR) (split_at SLASH path).

(** [CanonicalPath], [DenyRule] *)
Record CanonicalPath := mkCanonical {
  components : list bytes;
  collapsed_missing_tail : bool;
}.
Record DenyRule := mkRule { identity : CanonicalPath }.

(** What [symlink_metadata] finds. *)
Inductive Stat := Symlink | Entry | NotFound | StatError (kind : string).

(** The local variables of [canonicalize_path]: [resolved] is the names pushed
    since the root. *)
Record Walk := mkWalk {
  w_components : list bytes;
  w_resolved : list bytes;
  w_missing_depth : option nat;
  w_collapsed : bool;
}.
Definition start : Walk := mkWalk [] [] None false.

(** The bound on symlink expansions. *)
Definition SYMLINK_EXPANSIONS : nat := 40.

Section paths.
Variable lstat : list bytes -> Stat.
Variable read_link : list bytes -> result bytes string.
Variable nfd : bytes -> bytes.
Variable case_eq : bytes -> bytes -> bool.

(** [push_component] and [pop_component] *)
Definition push_component (name : bytes) (missing : option nat) (w : Walk) : Walk :=
  mkWalk (w_components w ++ [nfd name]) (w_resolved w ++ [name]) missing false.
Definition pop_component (w : Walk) : Walk :=
  match w_components w with
  | [] => w
  | _ => mkWalk (removelast (w_components w)) (removelast (w_resolved w)) (w_missing_depth w) true
  end.

(** A parent component: back inside the existing part when it pops the first
    missing name. *)
Definition leave (w : Walk) : Walk :=
  let w := pop_component w in
  match w_missing_depth w with
  | Some depth =>
      if decide (length (w_components w) <= depth)
      then mkWalk (w_components w) (w_resolved w) None (w_collapsed w) else w
  | None => w
  end.

(** The loop of [canonicalize_path]: [budget] counts the expansions left. *)
Fixpoint walk (budget : nat) : list bytes -> Walk -> result Walk PolicyError :=
  fix go (pending : list bytes) (w : Walk) {struct pending} :=
    match pending with
    | [] => Ok w
    | name :: pending =>
        if negb (utf8_valid name) then Err InvalidPath
        else if decide (name = CUR_DIR) then go pending w
        else if decide (name = PARENT_DIR) then go pending (leave w)
        else
          match w_missing_depth w with
          | Some depth => go pending (push_component name (Some depth) w)
          | None =>
              match lstat (w_resolved w ++ [name]) with
              | Symlink =>
                  match budget with
                  | O => Err SymlinkLoop
                  | S budget =>
                      match read_link (w_resolved w ++ [name]) with
                      | Err kind => Err (SymlinkRead kind)
                      | Ok target =>
                          let w := if is_absolute target then mkWalk [] [] None false
                                   else mkWalk (w_components w) (w_resolved w) None false in
                          walk budget (path_components target ++ pending) w
                      end
                  end
              | Entry => go pending (push_component name None w)
              | NotFound => go pending (push_component name (Some (length (w_components w))) w)
              | StatError kind => Err (PathInspection kind)
              end
          end
    end.

(** [canonicalize_path] *)
Definition canonicalize_path (path : bytes) : result CanonicalPath PolicyError :=
  if negb (is_absolute path) then Err InvalidPath
  else
    let? w := walk SYMLINK_EXPANSIONS (path_components path) start in
    Ok (mkCanonical (w_components w) (w_collapsed w)).

(** [zip] and [all] of two component lists. *)
Fixpoint all_case_eq (ls rs : list bytes) : bool :=
  match ls, rs with
  | l :: ls, r :: rs => case_eq l r && all_case_eq ls rs
  | _, _ => true
  end.

(** [same_components] *)
Definition same_components (l r : CanonicalPath) : bool :=
  bool_decide (length (components l) = length (components r)) &&
  all_case_eq (components l) (components r).

(** [covers_identity] *)
Definition covers_identity (denied request : CanonicalPath) : bool :=
  if decide (length (components request) < length (components denied)) then false
  else if negb (all_case_eq (components denied) (components request)) then false
  else if collapsed_missing_tail denied
  then bool_decide (length (components denied) < length (components request))
  else true.

(** [Policy::enroll_deny]: the first rule of the same identity is widened. *)
Fixpoint widen (rules : list DenyRule) (i : CanonicalPath) : option (list DenyRule) :=
  match rules with
  | [] => None
  | rule :: rules =>
      if same_components (identity rule) i
      then Some ((if collapsed_missing_tail i then rule else mkRule i) :: rules)
      else rules ← widen rules i; Some (rule :: rules)
  end.
Definition enroll_deny (path : bytes) (denies : list DenyRule) : result (list DenyRule) PolicyError :=
  let? i := canonicalize_path path in
  Ok (default (denies ++ [mkRule i]) (widen denies i)).

(** [Policy::revoke_deny] *)
Definition revoke_deny (path : bytes) (denies : list DenyRule) : result (list DenyRule) PolicyError :=
  let? i := canonicalize_path path in
  Ok (filter (fun rule => same_components (identity rule) i = false) denies).

(** [Policy::covers_report] and [covers] *)
Definition covers_report (denies : list DenyRule) (path : bytes) : result bool PolicyError :=
  let? request := canonicalize_path path in
  Ok (existsb (fun rule => covers_identity (identity rule) request) denies).
Definition covers (denies : list DenyRule) (path : bytes) : bool :=
  match covers_report denies path with Ok covered => covered | Err _ => true end.
End paths.

(** * Properties

    The canonical identity of a path: the loop as a step relation, its invariant
    (what was resolved exists, is no symlink, and mirrors the components), and
    what a deny covers. *)

Section paths.
Context (lstat : list bytes -> Stat) (read_link : list bytes -> result bytes string).
Context (nfd : bytes -> bytes) (case_eq : bytes -> bytes -> bool).

#[local] Abbreviation walk := (walk lstat read_link nfd).
#[local] Abbreviation push_component := (push_component nfd).

(** * The loop, one component at a time *)

(** A name that is pushed: neither dot component. *)
Definition normal (name : bytes) : Prop :=
  utf8_valid name = true /\ name <> CUR_DIR /\ name <> PARENT_DIR.

Definition config : Type := nat * list bytes * Walk.

Inductive visit : config -> config -> Prop :=
  | visit_current budget pending w :
      visit (budget, CUR_DIR :: pending, w) (budget, pending, w)
  | visit_parent budget pending w :
      visit (budget, PARENT_DIR :: pending, w) (budget, pending, leave w)
  | visit_missing budget name pending w depth :
      normal name -> w_missing_depth w = Some depth ->
      visit (budget, name :: pending, w) (budget, pending, push_component name (Some depth) w)
  | visit_entry budget name pending w :
      normal name -> w_missing_depth w = None -> lstat (w_resolved w ++ [name]) = Entry ->
      visit (budget, name :: pending, w) (budget, pending, push_component name None w)
  | visit_absent budget name pending w :
      normal name -> w_missing_depth w = None -> lstat (w_resolved w ++ [name]) = NotFound ->
      visit (budget, name :: pending, w)
            (budget, pending, push_component name (Some (length (w_components w))) w)
  | visit_link budget name pending w target :
      normal name -> w_missing_depth w = None -> lstat (w_resolved w ++ [name]) = Symlink ->
      read_link (w_resolved w ++ [name]) = Ok target ->
      visit (S budget, name :: pending, w)
            (budget, path_components target ++ pending,
             if is_absolute target then mkWalk [] [] None false
             else mkWalk (w_components w) (w_resolved w) None false).

Lemma walk_nil budget w : walk budget [] w = Ok w.
Proof. by destruct budget. Qed.

(** One round of the loop. *)
Lemma walk_cons budget name pending w :
  walk budget (name :: pending) w =
    (if negb (utf8_valid name) then Err InvalidPath
     else if decide (name = CUR_DIR) then walk budget pending w
     else if decide (name = PARENT_DIR) then walk budget pending (leave w)
     else
       match w_missing_depth w with
       | Some depth => walk budget pending (push_component name (Some depth) w)
       | None =>
           match lstat (w_resolved w ++ [name]) with
           | Symlink =>
               match budget with
               | O => Err SymlinkLoop
               | S budget =>
                   match read_link (w_resolved w ++ [name]) with
                   | Err kind => Err (SymlinkRead kind)
                   | Ok target =>
                       walk budget (path_components target ++ pending)
                         (if is_absolute target then mkWalk [] [] None false
                          else mkWalk (w_components w) (w_resolved w) None false)
                   end
               end
           | Entry => walk budget pending (push_component name None w)
           | NotFound => walk budget pending (push_component name (Some (length (w_components w))) w)
           | StatError kind => Err (PathInspection kind)
           end
       end).
Proof. by destruct budget. Qed.

Lemma normal_walk budget name pending w :
  normal name ->
  walk budget (name :: pending) w =
    match w_missing_depth w with
    | Some depth => walk budget pending (push_component name (Some depth) w)
    | None =>
        match lstat (w_resolved w ++ [name]) with
        | Symlink =>
            match budget with
            | O => Err SymlinkLoop
            | S budget =>
                match read_link (w_resolved w ++ [name]) with
                | Err kind => Err (SymlinkRead kind)
                | Ok target =>
                    walk budget (path_components target ++ pending)
                      (if is_absolute target then mkWalk [] [] None false
                       else mkWalk (w_components w) (w_resolved w) None false)
                end
            end
        | Entry => walk budget pending (push_component name None w)
        | NotFound => walk budget pending (push_component name (Some (length (w_components w))) w)
        | StatError kind => Err (PathInspection kind)
        end
    end.
Proof. intros (Hu & Hc & Hp). rewrite walk_cons, Hu, !decide_False by done. done. Qed.

(** A step does not change the answer. *)
Lemma visit_walk budget pending w budget' pending' w' :
  visit (budget, pending, w) (budget', pending', w') -> walk budget pending w = walk budget' pending' w'.
Proof.
  intros H. inversion H; subst; [by rewrite walk_cons|by rewrite walk_cons|..];
    rewrite normal_walk by done;
    repeat match goal with E : _ = _ |- _ => rewrite E end; done.
Qed.

Lemma visits_walk c c' :
  rtc visit c c' -> walk c.1.1 c.1.2 c.2 = walk c'.1.1 c'.1.2 c'.2.
Proof.
  induction 1 as [|[[b p] w] [[b' p'] w'] c'' Hv _ IH]; [done|]. simpl in *.
  by rewrite (visit_walk _ _ _ _ _ _ Hv).
Qed.

(** An accepted walk is a run of steps to its end. *)
Lemma walk_visits budget pending w w' :
  walk budget pending w = Ok w' -> exists budget', rtc visit (budget, pending, w) (budget', [], w').
Proof.
  revert pending w. induction budget as [budget IHb] using lt_wf_ind. intros pending.
  induction pending as [|name pending IH]; intros w.
  { rewrite walk_nil. intros [= ->]. by eexists. }
  rewrite walk_cons. destruct (utf8_valid name) eqn:Hu; simpl; [|done].
  assert (Hgo : forall b p v, visit (budget, name :: pending, w) (b, p, v) ->
    (exists b', rtc visit (b, p, v) (b', [], w')) -> exists b', rtc visit (budget, name :: pending, w) (b', [], w')).
  { intros b p v Hv [b' Hr]. exists b'. by eapply rtc_l. }
  destruct (decide (name = CUR_DIR)) as [->|Hc].
  { intros E. eapply Hgo; [constructor|by apply IH]. }
  destruct (decide (name = PARENT_DIR)) as [->|Hp].
  { intros E. eapply Hgo; [constructor|by apply IH]. }
  assert (Hn : normal name) by done.
  destruct (w_missing_depth w) as [depth|] eqn:Hm.
  { intros E. eapply Hgo; [by apply visit_missing|by apply IH]. }
  destruct (lstat (w_resolved w ++ [name])) eqn:Hl; [|..|done].
  - destruct budget as [|budget]; [done|].
    destruct (read_link (w_resolved w ++ [name])) as [target|] eqn:Ht; [|done].
    intros E. eapply Hgo; [by eapply visit_link|]. apply IHb; [lia|done].
  - intros E. eapply Hgo; [by apply visit_entry|by apply IH].
  - intros E. eapply Hgo; [by apply visit_absent|by apply IH].
Qed.

(** * What was resolved is on the disk *)

(** The first [k] names are entries of the disk, none of them a symlink. *)
Definition entries (names : list bytes) (k : nat) : Prop :=
  forall j, j < k -> lstat (take (S j) names) = Entry.

Record physical (w : Walk) : Prop := {
  ph_mirror : w_components w = map nfd (w_resolved w);
  ph_normal : Forall normal (w_resolved w);
  ph_disk :
    match w_missing_depth w with
    | None => entries (w_resolved w) (length (w_resolved w))
    | Some depth =>
        depth < length (w_resolved w) /\ entries (w_resolved w) depth /\
        lstat (take (S depth) (w_resolved w)) = NotFound
    end;
}.

Lemma physical_start : physical start.
Proof. split; simpl; [done|constructor|]. intros j Hj. simpl in Hj. lia. Qed.

Lemma entries_app names rest k : k <= length names -> entries (names ++ rest) k <-> entries names k.
Proof.
  intros Hk. unfold entries. split; intros H j Hj; specialize (H j Hj);
    rewrite take_app_le in * by lia; done.
Qed.

Lemma entries_le names k k' : k' <= k -> entries names k -> entries names k'.
Proof. intros Hk H j Hj. apply H. lia. Qed.

(** Pushing a name that is missing, an entry, or the first missing one. *)
Lemma push_physical name missing w :
  physical w -> normal name ->
  match missing with
  | None => w_missing_depth w = None /\ lstat (w_resolved w ++ [name]) = Entry
  | Some depth =>
      w_missing_depth w = Some depth \/
      w_missing_depth w = None /\ depth = length (w_components w) /\
      lstat (w_resolved w ++ [name]) = NotFound
  end ->
  physical (push_component name missing w).
Proof.
  intros [Hc Hn Hd] Hname Hm. split; simpl.
  - by rewrite Hc, map_app.
  - apply Forall_app. split; [done|by constructor].
  - rewrite length_app. simpl.
    assert (Hall : take (S (length (w_resolved w))) (w_resolved w ++ [name]) = w_resolved w ++ [name])
      by (apply take_ge; rewrite length_app; simpl; lia).
    destruct missing as [depth|].
    + destruct Hm as [Hm|(Hm & -> & Hl)]; rewrite Hm in Hd.
      * destruct Hd as (Hd1 & Hd2 & Hd3). split_and!; [lia|by apply entries_app; [lia|]|].
        by rewrite take_app_le by lia.
      * rewrite Hc, length_map, Hall. split_and!; [lia|by apply entries_app|done].
    + destruct Hm as [Hm Hl]. rewrite Hm in Hd. intros j Hj.
      destruct (decide (j = length (w_resolved w))) as [->|Hne]; [by rewrite Hall|].
      rewrite take_app_le by lia. apply Hd. lia.
Qed.

Lemma leave_physical w : physical w -> physical (leave w).
Proof.
  intros [Hc Hn Hd]. unfold leave, pop_component.
  destruct (w_resolved w) as [|x xs _] eqn:Er using rev_ind.
  - rewrite Hc. simpl. destruct (w_missing_depth w) as [depth|] eqn:Em.
    + simpl in Hd. lia.
    + by split; rewrite ?Em, ?Er.
  - assert (Hne : w_components w = map nfd xs ++ [nfd x]) by (by rewrite Hc, map_app).
    apply Forall_app in Hn as [Hn _].
    destruct (w_components w) as [|c cs] eqn:Ec; [by destruct (map nfd xs)|].
    rewrite Hne, removelast_last. rewrite removelast_last. cbn [w_components w_resolved w_missing_depth w_collapsed]. rewrite length_map.
    destruct (w_missing_depth w) as [depth|] eqn:Em.
    + destruct Hd as (Hd1 & Hd2 & Hd3). rewrite length_app in Hd1. simpl in Hd1.
      case_decide as Hle; split; simpl; try done.
      * apply (entries_app xs [x]); [done|]. eapply entries_le; [|exact Hd2]. lia.
      * split_and!; [lia|by apply (entries_app xs [x]); [lia|]|]. by rewrite take_app_le in Hd3 by lia.
    + split; simpl; [done|done|]. apply (entries_app xs [x]); [done|].
      eapply entries_le; [|exact Hd]. rewrite length_app. lia.
Qed.

Lemma visit_physical budget pending w budget' pending' w' :
  visit (budget, pending, w) (budget', pending', w') -> physical w -> physical w'.
Proof.
  intros H Hw. inversion H; subst; [done|by apply leave_physical|..].
  - apply push_physical; [done|done|by left].
  - by apply push_physical.
  - apply push_physical; [done|done|by right].
  - destruct Hw as [Hc Hn Hd]. destruct (is_absolute target); [apply physical_start|].
    match goal with E : w_missing_depth w = None |- _ => rewrite E in Hd end. by split.
Qed.

Lemma visits_physical c c' : rtc visit c c' -> physical c.2 -> physical c'.2.
Proof.
  induction 1 as [|[[b p] w] [[b' p'] w'] c'' Hv _ IH]; [done|]. simpl in *.
  intros Hw. apply IH. by eapply visit_physical.
Qed.

Lemma walk_physical budget pending w :
  walk budget pending start = Ok w -> physical w.
Proof.
  intros [b Hr]%walk_visits. apply (visits_physical _ _ Hr). apply physical_start.
Qed.

(** * Walking on over names that are no symlinks *)

Definition plain_below (names rest : list bytes) : Prop :=
  Forall normal rest /\
  forall k, k < length rest -> lstat (names ++ take (S k) rest) = Entry \/ lstat (names ++ take (S k) rest) = NotFound.

Lemma plain_below_cons names name rest :
  plain_below names (name :: rest) ->
  normal name /\ (lstat (names ++ [name]) = Entry \/ lstat (names ++ [name]) = NotFound) /\
  plain_below (names ++ [name]) rest.
Proof.
  intros [Hn Hl]. apply Forall_cons in Hn as [Hname Hn]. split_and!; [done| |split; [done|]].
  - apply (Hl 0). simpl. lia.
  - intros k Hk. rewrite <- app_assoc. apply (Hl (S k)). simpl. lia.
Qed.

Lemma walk_plain budget rest w :
  plain_below (w_resolved w) rest ->
  exists w', walk budget rest w = Ok w' /\
    w_components w' = w_components w ++ map nfd rest /\ w_resolved w' = w_resolved w ++ rest.
Proof.
  revert w. induction rest as [|name rest IH]; intros w Hp.
  { exists w. simpl. rewrite walk_nil, !app_nil_r. done. }
  apply plain_below_cons in Hp as (Hn & Hl & Hp). rewrite normal_walk by done.
  assert (Hgo : forall missing, exists w',
    walk budget rest (push_component name missing w) = Ok w' /\
    w_components w' = w_components w ++ map nfd (name :: rest) /\ w_resolved w' = w_resolved w ++ name :: rest).
  { intros missing. destruct (IH (push_component name missing w) Hp) as (w' & Hw & Hc & Hr).
    exists w'. rewrite Hw, Hc, Hr. simpl. by rewrite <- !app_assoc. }
  destruct (w_missing_depth w) as [depth|]; [apply Hgo|]. destruct Hl as [-> | ->]; apply Hgo.
Qed.

(** Resolving what was resolved expands nothing and answers the same names. *)
Lemma rewalk budget xs ys w missing :
  Forall normal ys -> w_resolved w = xs -> w_components w = map nfd xs ->
  w_missing_depth w = match missing with
                      | Some depth => if decide (depth < length xs) then Some depth else None
                      | None => None
                      end ->
  (match missing with
   | None => entries (xs ++ ys) (length (xs ++ ys))
   | Some depth => entries (xs ++ ys) depth /\ lstat (take (S depth) (xs ++ ys)) = NotFound
   end) ->
  exists w', walk budget ys w = Ok w' /\ w_components w' = map nfd (xs ++ ys).
Proof.
  intros Hn. revert xs w. induction Hn as [|y ys Hy Hn IH]; intros xs w Hr Hc Hm Hd.
  { exists w. by rewrite walk_nil, app_nil_r. }
  rewrite normal_walk by done.
  assert (Hsplit : xs ++ y :: ys = (xs ++ [y]) ++ ys) by (by rewrite <- app_assoc).
  assert (Hat : take (S (length xs)) (xs ++ y :: ys) = xs ++ [y]).
  { rewrite Hsplit, take_app_le by (rewrite length_app; simpl; lia).
    apply take_ge. rewrite length_app. simpl. lia. }
  assert (Hgo : forall m, m = match missing with
      | Some depth => if decide (depth < length (xs ++ [y])) then Some depth else None
      | None => None end ->
    exists w', walk budget ys (push_component y m w) = Ok w' /\ w_components w' = map nfd (xs ++ y :: ys)).
  { intros m Em. rewrite Hsplit. apply IH; simpl; [by rewrite Hr|by rewrite Hc, map_app|done|].
    by rewrite <- Hsplit. }
  rewrite Hm, Hr. destruct missing as [depth|].
  - destruct Hd as [Hd Hl]. destruct (decide (depth < length xs)) as [Hlt|Hge].
    + apply Hgo. by rewrite decide_True by (rewrite length_app; simpl; lia).
    + destruct (decide (depth = length xs)) as [->|Hne].
      * rewrite Hat in Hl. rewrite Hl, Hc, length_map. apply Hgo. by rewrite decide_True by (rewrite length_app; simpl; lia).
      * assert (He : lstat (xs ++ [y]) = Entry) by (rewrite <- Hat; apply Hd; lia).
        rewrite He. apply Hgo. by rewrite decide_False by (rewrite length_app; simpl; lia).
  - assert (He : lstat (xs ++ [y]) = Entry).
    { rewrite <- Hat. apply Hd. rewrite length_app. simpl. lia. }
    rewrite He. by apply Hgo.
Qed.

Lemma physical_rewalk budget w :
  physical w -> exists w', walk budget (w_resolved w) start = Ok w' /\ w_components w' = w_components w.
Proof.
  intros [Hc Hn Hd]. rewrite Hc. apply (rewalk budget [] (w_resolved w) start (w_missing_depth w));
    [done..| |].
  - simpl. by destruct (w_missing_depth w).
  - simpl. destruct (w_missing_depth w); [by destruct Hd as (_ & ? & ?)|done].
Qed.

(** * Enrolled rules *)

Local Abbreviation enroll_deny := (enroll_deny lstat read_link nfd case_eq).
Local Abbreviation covers := (covers lstat read_link nfd case_eq).

(** An enrolled identity has a rule: its own, or, when it is strict, one that
    was enrolled for the same identity before. *)
Definition stands_for (i : CanonicalPath) (rule : DenyRule) : Prop :=
  rule = mkRule i \/ collapsed_missing_tail i = true /\ same_components case_eq (identity rule) i = true.

Lemma widen_in rules i rules' :
  widen case_eq rules i = Some rules' -> exists rule, rule ∈ rules' /\ stands_for i rule.
Proof.
  intros H. revert rules' H. induction rules as [|rule rules IH]; intros rules' H; [done|].
  simpl in H. destruct (same_components case_eq (identity rule) i) eqn:E.
  - injection H as <-. eexists. split; [by left|]. destruct (collapsed_missing_tail i) eqn:Hi; [by right|by left].
  - apply bind_Some in H as (rules'' & H & [= <-]). destruct (IH _ H) as (r & Hr & Hs).
    exists r. split; [by right|done].
Qed.

Lemma enroll_in path denies denies' i :
  canonicalize_path lstat read_link nfd path = Ok i -> enroll_deny path denies = Ok denies' ->
  exists rule, rule ∈ denies' /\ stands_for i rule.
Proof.
  unfold Paths.enroll_deny. intros ->. simpl. intros [= <-].
  destruct (widen case_eq denies i) as [rules|] eqn:E; simpl; [by eapply widen_in|].
  exists (mkRule i). split; [apply elem_of_app; right; by left|by left].
Qed.

Lemma all_case_eq_app xs ys : (forall x, case_eq x x = true) -> all_case_eq case_eq xs (xs ++ ys) = true.
Proof. intros Hrefl. induction xs as [|x xs IH]; [done|]. simpl. by rewrite Hrefl, IH. Qed.

Lemma all_case_eq_extend xs ys zs :
  length xs = length ys -> all_case_eq case_eq xs (ys ++ zs) = all_case_eq case_eq xs ys.
Proof.
  revert ys. induction xs as [|x xs IH]; intros [|y ys] Hl; try done. simpl. f_equal. apply IH. by injection Hl.
Qed.

(** What the rule of an identity says of a request at or below it. *)
Lemma stands_for_covers i rule c below :
  (forall x, case_eq x x = true) -> stands_for i rule -> components c = components i ++ below ->
  collapsed_missing_tail i = false \/ below <> [] -> covers_identity case_eq (identity rule) c = true.
Proof.
  intros Hrefl Hs Hc Hb. unfold covers_identity.
  assert (length (components (identity rule)) = length (components i) /\
    all_case_eq case_eq (components (identity rule)) (components i) = true) as [Hl He].
  { destruct Hs as [-> |[_ Hs]]; simpl.
    - split; [done|]. rewrite <- (app_nil_r (components i)) at 2. by apply all_case_eq_app.
    - apply andb_true_iff in Hs as [Hs ?]. by apply bool_decide_eq_true in Hs. }
  rewrite Hc, length_app, Hl, decide_False by lia. rewrite all_case_eq_extend, He by done. simpl.
  destruct (collapsed_missing_tail (identity rule)) eqn:Ef; [|done]. apply bool_decide_eq_true.
  destruct below; [|simpl; lia]. destruct Hb as [Hi|]; [|done]. destruct Hs as [-> |[? _]]; simpl in *; congruence.
Qed.

Lemma covers_answer denies path c :
  canonicalize_path lstat read_link nfd path = Ok c ->
  covers denies path = existsb (fun rule => covers_identity case_eq (identity rule) c) denies.
Proof. intros Hc. unfold Paths.covers, covers_report. by rewrite Hc. Qed.

(** A rule a [..] ends does not cover the directory it names. *)
Lemma collapsed_alone_spares i c :
  collapsed_missing_tail i = true -> components c = components i -> covers_identity case_eq i c = false.
Proof.
  intros Hi Hc. unfold covers_identity. rewrite Hc, decide_False, Hi by lia.
  destruct (negb _); [done|]. apply bool_decide_eq_false. lia.
Qed.
End paths.

(** The identity of a path is physical: when a path is accepted, its
    components mirror names (neither dot component, all UTF-8) that were found on
    the disk one by one, none of them a symlink, up to the end or up to a first
    missing name; and resolving those names again, with no symlink expansion
    allowed, gives the same identity. *)
Theorem canonical_identity_is_physical lstat read_link nfd path c :
  canonicalize_path lstat read_link nfd path = Ok c ->
  exists names, components c = map nfd names /\ Forall normal names /\
    (entries lstat names (length names) \/
     exists depth, depth < length names /\ entries lstat names depth /\
       lstat (take (S depth) names) = NotFound) /\
    exists w, walk lstat read_link nfd 0 names start = Ok w /\ w_components w = components c.
Proof.
  unfold canonicalize_path. destruct (is_absolute path); cbn [negb]; [|done].
  destruct (walk lstat read_link nfd SYMLINK_EXPANSIONS (path_components path) start) as [w|] eqn:E;
    cbn [rbind]; [|done].
  intros [= <-]. apply walk_physical in E as Hw. exists (w_resolved w). simpl.
  destruct (physical_rewalk lstat read_link nfd 0 w Hw) as (w' & Hw' & Hc').
  destruct Hw as [Hc Hn Hd]. split_and!; [done|done| |by exists w'].
  destruct (w_missing_depth w) as [depth|]; [right|by left]. exists depth. tauto.
Qed.

(** C34.  A deny covers whatever arrives: once a path is enrolled, a request
    that, through whatever symlinks and dot components, gets to the directory the
    deny resolved to, and goes on below it over names that are no symlinks, existing
    or not, is covered.  So is a request that stops there, with one exception the
    code makes: a deny whose last step was a [..] that took a name back (enrolled as
    /secret/x/.., say, or through a symlink to such a path) covers what lies below
    the directory but, enrolled alone, not the directory itself. *)
Theorem deny_covers_whatever_arrives lstat read_link nfd (case_eq : bytes -> bytes -> bool)
    denies denies' d wd r budget rest w :
  (forall x, case_eq x x = true) ->
  is_absolute d = true -> walk lstat read_link nfd SYMLINK_EXPANSIONS (path_components d) start = Ok wd ->
  enroll_deny lstat read_link nfd case_eq d denies = Ok denies' ->
  is_absolute r = true ->
  rtc (visit lstat read_link nfd) (SYMLINK_EXPANSIONS, path_components r, start) (budget, rest, w) ->
  w_resolved w = w_resolved wd -> plain_below lstat (w_resolved wd) rest ->
  (w_collapsed wd = false \/ rest <> [] -> covers lstat read_link nfd case_eq denies' r = true) /\
  (denies = [] -> w_collapsed wd = true -> rest = [] -> covers lstat read_link nfd case_eq denies' r = false).
Proof.
  intros Hrefl Hd Ewd Henr Hr Hvis Hres Hplain.
  set (i := mkCanonical (w_components wd) (w_collapsed wd)).
  assert (Hcd : canonicalize_path lstat read_link nfd d = Ok i) by (unfold canonicalize_path; by rewrite Hd, Ewd).
  pose proof (visits_walk _ _ _ _ _ Hvis) as Ew. cbn [fst snd] in Ew.
  pose proof (visits_physical _ _ _ _ _ Hvis (physical_start _ _)) as Hw. simpl in Hw.
  pose proof (walk_physical _ _ _ _ _ _ Ewd) as Hwd.
  rewrite <- Hres in Hplain. destruct (walk_plain lstat read_link nfd budget rest w Hplain) as (w' & Hw' & Hc' & _).
  rewrite (covers_answer _ _ _ _ _ r (mkCanonical (w_components w') (w_collapsed w')))
    by (unfold canonicalize_path; by rewrite Hr, Ew, Hw').
  assert (Hbelow : w_components w' = components i ++ map nfd rest)
    by (subst i; simpl; by rewrite Hc', (ph_mirror _ _ _ Hw), (ph_mirror _ _ _ Hwd), Hres).
  split.
  - intros Hcase. destruct (enroll_in _ _ _ _ d _ _ i Hcd Henr) as (rule & Hin & Hs).
    apply existsb_exists. exists rule. split; [by apply list_elem_of_In|].
    apply (stands_for_covers _ i rule (mkCanonical (w_components w') (w_collapsed w')) (map nfd rest) Hrefl Hs Hbelow). destruct Hcase; [by left|right]. by destruct rest.
  - intros -> Hcol ->. unfold enroll_deny in Henr. rewrite Hcd in Henr. injection Henr as <-. simpl.
    rewrite orb_false_r. apply collapsed_alone_spares; [done|]. simpl. by rewrite Hbelow, app_nil_r.
Qed.

(** A disk with a secret and a link to it. *)
Definition demo_names (s : string) : list bytes := path_components (bytes_of s).
Definition demo_lstat (names : list bytes) : Stat :=
  if decide (names = demo_names "/home/link") then Symlink
  else if decide (names ∈ [demo_names "/home"; demo_names "/secret"; demo_names "/secret/key"]) then Entry
  else NotFound.
Definition demo_link (_ : list bytes) : result bytes string := Ok (bytes_of "/secret").
Definition demo_eq (a b : bytes) : bool := bool_decide (a = b).
Definition demo_nfd (a : bytes) : bytes := a.

Lemma canonical_identity_is_physical_witness :
  canonicalize_path demo_lstat demo_link demo_nfd (bytes_of "/home/./link/../secret/new/file") =
    Ok (mkCanonical (demo_names "/secret/new/file") false) /\
  exists names, demo_names "/secret/new/file" = map demo_nfd names /\ Forall normal names.
Proof.
  assert (H : canonicalize_path demo_lstat demo_link demo_nfd (bytes_of "/home/./link/../secret/new/file") =
    Ok (mkCanonical (demo_names "/secret/new/file") false)) by (by vm_compute).
  split; [exact H|].
  destruct (canonical_identity_is_physical demo_lstat demo_link demo_nfd _ _ H) as (names & H1 & H2 & _).
  exists names. by split.
Defined.

Lemma demo_arrives :
  rtc (visit demo_lstat demo_link demo_nfd)
    (SYMLINK_EXPANSIONS, path_components (bytes_of "/home/link/key"), start)
    (39, demo_names "/key", mkWalk (demo_names "/secret") (demo_names "/secret") None false).
Proof.
  assert (Hn : Forall normal (demo_names "/home/link/secret")).
  { repeat constructor; discriminate. }
  repeat apply Forall_cons in Hn as [? Hn].
  eapply rtc_l; [by apply visit_entry|]. eapply rtc_l; [by eapply visit_link|].
  eapply rtc_l; [by apply visit_entry|]. apply rtc_refl.
Qed.

Lemma demo_arrives_there :
  rtc (visit demo_lstat demo_link demo_nfd)
    (SYMLINK_EXPANSIONS, path_components (bytes_of "/home/link"), start)
    (39, [], mkWalk (demo_names "/secret") (demo_names "/secret") None false).
Proof.
  assert (Hn : Forall normal (demo_names "/home/link/secret")).
  { repeat constructor; discriminate. }
  repeat apply Forall_cons in Hn as [? Hn].
  eapply rtc_l; [by apply visit_entry|]. eapply rtc_l; [by eapply visit_link|].
  eapply rtc_l; [by apply visit_entry|]. apply rtc_refl.
Qed.

(** /secret enrolled by name covers /home/link/key; enrolled as /secret/key/..
    it does not cover /home/link. *)
Lemma deny_covers_whatever_arrives_witness :
  covers demo_lstat demo_link demo_nfd demo_eq
    [mkRule (mkCanonical (demo_names "/secret") false)] (bytes_of "/home/link/key") = true /\
  covers demo_lstat demo_link demo_nfd demo_eq
    [mkRule (mkCanonical (demo_names "/secret") true)] (bytes_of "/home/link") = false.
Proof.
  assert (Heq : forall x, demo_eq x x = true) by (intros x; by apply bool_decide_eq_true).
  split.
  - apply (deny_covers_whatever_arrives demo_lstat demo_link demo_nfd demo_eq [] _ (bytes_of "/secret")
      (mkWalk (demo_names "/secret") (demo_names "/secret") None false) (bytes_of "/home/link/key") 39
      (demo_names "/key") (mkWalk (demo_names "/secret") (demo_names "/secret") None false));
      [exact Heq|by vm_compute..|exact demo_arrives|done| |by left].
    split; [by repeat constructor|]. intros [|k] Hk; [left; by vm_compute|vm_compute in Hk; lia].
  - apply (deny_covers_whatever_arrives demo_lstat demo_link demo_nfd demo_eq [] _ (bytes_of "/secret/key/..")
      (mkWalk (demo_names "/secret") (demo_names "/secret") None true) (bytes_of "/home/link") 39
      [] (mkWalk (demo_names "/secret") (demo_names "/secret") None false));
      [exact Heq|by vm_compute..|exact demo_arrives_there|done| |done|done|done].
    split; [constructor|]. intros k Hk. simpl in Hk. lia.
Defined.
