(* ===== verification/Deny.v ===== *)
(** The denies a [Policy] holds and the verdict they outrank
    ([src/src/policy.rs]): enrolling and revoking, the consult of one target by
    effect class, and [Policy::decide] over the mode matrix. *)

From S2P Require Import Prelude.
From S2P Require Import Contracts.
From S2P Require Import Policy.
From S2P Require Import Egress.
From S2P Require Import Paths.
From S2P Require Import Utf8.
From S2P Require Import Net.

(** The deny fields of [Policy]. *)
Record Denies := mkDenies {
  denies : list DenyRule;
  raw_denies : list bytes;
}.
Definition no_denies : Denies := mkDenies [] [].

Section deny.
Variable lstat : list bytes -> Stat.
Variable read_link : list bytes -> result bytes string.
Variable nfd : bytes -> bytes.
Variable case_eq : bytes -> bytes -> bool.

(** [Policy::enroll_deny_target] *)
Definition enroll_deny_target (raw : bytes) (p : Denies) : Denies :=
  if existsb (fun denied => bool_decide (denied = raw)) (raw_denies p) then p
  else mkDenies (denies p) (raw_denies p ++ [raw]).

(** [Policy::enroll_deny] and [revoke_deny] on the policy. *)
Definition enroll_deny_path (path : bytes) (p : Denies) : result unit PolicyError * Denies :=
  match enroll_deny lstat read_link nfd case_eq path (denies p) with
  | Ok rules => (Ok tt, mkDenies rules (raw_denies p))
  | Err e => (Err e, p)
  end.
Definition revoke_deny_path (path : bytes) (p : Denies) : result unit PolicyError * Denies :=
  match revoke_deny lstat read_link nfd case_eq path (denies p) with
  | Ok rules => (Ok tt, mkDenies rules (raw_denies p))
  | Err e => (Err e, p)
  end.

(** [Policy::target_denied]; a target that is not UTF-8 has no egress spelling. *)
Definition target_denied (p : Denies) (target : bytes) (class : EffectClass) : bool :=
  match class with
  | Egress =>
      if negb (Utf8.utf8_valid target) then false
      else
        let raw := preprocess_egress_target target in
        if egress_denied (raw_denies p) raw then true
        else
          match egress_filesystem_shape raw with
          | Absolute path => covers lstat read_link nfd case_eq (denies p) path
          | Unresolvable => true
          | NotFilesystem => false
          end
  | _ => covers lstat read_link nfd case_eq (denies p) target
  end.

(** [Policy::decide] *)
Definition decide_target (p : Denies) (target : bytes) (class : EffectClass) (ctx : AdmissionContext)
    : ModeDecision :=
  if target_denied p target class then Deny else mode_matrix class ctx.
End deny.

(** * Properties

    The denies outrank every mode: an enrolled target stays denied whatever is
    enrolled or revoked after it, an unobservable path is denied, and a [file:]
    spelling reaches the path denies. *)

Section deny.
Context (lstat : list bytes -> Stat) (read_link : list bytes -> result bytes string).
Context (nfd : bytes -> bytes) (case_eq : bytes -> bytes -> bool).

Inductive deny_op := EnrollTarget (raw : bytes) | EnrollPath (path : bytes) | RevokePath (path : bytes).

Definition apply_deny_op (p : Denies) (o : deny_op) : Denies :=
  match o with
  | EnrollTarget raw => enroll_deny_target raw p
  | EnrollPath path => snd (enroll_deny_path lstat read_link nfd case_eq path p)
  | RevokePath path => snd (revoke_deny_path lstat read_link nfd case_eq path p)
  end.

(** No operation removes an enrolled target. *)
Lemma raw_denies_stay ops p raw : raw ∈ raw_denies p -> raw ∈ raw_denies (foldl apply_deny_op p ops).
Proof.
  revert p. induction ops as [|o ops IH]; intros p H; [done|]. simpl. apply IH.
  destruct o; simpl.
  - unfold enroll_deny_target. destruct (existsb _ _); [done|]. simpl. apply elem_of_app. by left.
  - unfold enroll_deny_path. by destruct (enroll_deny _ _ _ _ _ _).
  - unfold revoke_deny_path. by destruct (revoke_deny _ _ _ _ _ _).
Qed.

Lemma enroll_deny_target_in raw p : raw ∈ raw_denies (enroll_deny_target raw p).
Proof.
  unfold enroll_deny_target. destruct (existsb _ _) eqn:E; simpl.
  - apply existsb_exists in E as (x & Hx & E). apply bool_decide_eq_true in E as ->.
    by apply list_elem_of_In.
  - apply elem_of_app. right. by left.
Qed.

(** An entry denies its own spelling. *)
Lemma own_spelling raws raw target :
  raw ∈ raws -> preprocess_egress_target target = preprocess_egress_target raw ->
  egress_denied raws (preprocess_egress_target target) = true.
Proof.
  intros Hin E. apply (egress_denied_in _ _ raw Hin). unfold entry_denies. by rewrite E, same_refl.
Qed.

(** The shape of a [file:] URL over a path without escapes. *)
Lemma file_url_shape path :
  is_absolute path = true -> free [PERCENT; QUESTION; HASH] path ->
  egress_filesystem_shape (FILE ++ SEPARATOR ++ path) = Absolute path.
Proof.
  intros Ha Hf. unfold egress_filesystem_shape, file_scheme_rest.
  assert (Hsp : split_once COLON (FILE ++ SEPARATOR ++ path) = Some (FILE, SLASHES ++ path)).
  { apply (split_once_app COLON FILE (SLASHES ++ path)). apply (bool_decide_unpack _). by vm_compute. }
  rewrite Hsp. cbn [mbind option_bind].
  assert (Hff : eq_ignore_ascii_case FILE FILE = true) by (by vm_compute). rewrite Hff.
  rewrite <- (app_nil_r (SLASHES ++ path)), until_first_app; [|apply free_app; split|by intros b r'].
  - unfold file_url_path. rewrite strip_prefix_app.
    unfold is_absolute, starts_with in *.
    destruct path as [|b path]; [done|]. destruct (decide (SLASH = b)) as [<-|Hb].
    + assert (Hpos : position (Z.eqb SLASH) (SLASH :: path) = Some 0) by done.
      assert (Hdec : percent_decode (SLASH :: path) = Some (SLASH :: path)).
      { unfold percent_decode. rewrite (proj2 (position_None _ _)); [done|].
        eapply Forall_impl; [exact Hf|]. intros c Hc. apply one_of_false in Hc. apply Z.eqb_neq.
        intros <-. apply Hc. by left. }
      rewrite Hpos, drop_0, Hdec. by rewrite Ha.
    + by rewrite strip_prefix_head in Ha.
  - by repeat constructor.
  - eapply free_sub; [|exact Hf]. intros b. rewrite !elem_of_cons. tauto.
Qed.
End deny.

(** The denies outrank every mode, YOLO included.  An enrolled egress
    target is denied in its own spelling, and in any that preprocesses to the
    same text, whatever targets and paths are enrolled or revoked afterwards; a
    path that cannot be canonicalized is denied; and a covered path is denied as
    a [file:] URL too. *)
Theorem denies_outrank_every_mode lstat read_link nfd case_eq ops p raw target class path ctx :
  (utf8_valid target = true -> preprocess_egress_target target = preprocess_egress_target raw ->
   decide_target lstat read_link nfd case_eq
     (foldl (apply_deny_op lstat read_link nfd case_eq) (enroll_deny_target raw p) ops) target Egress ctx = Deny) /\
  (class <> Egress -> is_ok (canonicalize_path lstat read_link nfd path) = false ->
   decide_target lstat read_link nfd case_eq p path class ctx = Deny) /\
  (utf8_valid (FILE ++ SEPARATOR ++ path) = true -> is_absolute path = true ->
   free [PERCENT; QUESTION; HASH; BACKSLASH] path -> Forall (fun b => SPACE < b)%Z path ->
   covers lstat read_link nfd case_eq (denies p) path = true ->
   decide_target lstat read_link nfd case_eq p (FILE ++ SEPARATOR ++ path) Egress ctx = Deny).
Proof.
  unfold decide_target, target_denied. split_and!.
  - intros Hu E. rewrite Hu. cbn [negb]. erewrite (own_spelling _ raw); [done|..|done].
    apply raw_denies_stay, enroll_deny_target_in.
  - intros Hc Hcan. assert (Hcov : covers lstat read_link nfd case_eq (denies p) path = true).
    { unfold covers, covers_report. by destruct (canonicalize_path lstat read_link nfd path). }
    destruct class; rewrite ?Hcov; done.
  - intros Hu Ha Hf Hs Hcov. rewrite Hu. cbn [negb].
    assert (Hf' : free [PERCENT; QUESTION; HASH] path).
    { eapply free_sub; [|exact Hf]. intros b. rewrite !elem_of_cons. tauto. }
    assert (Hb : BACKSLASH ∉ FILE ++ SEPARATOR ++ path).
    { rewrite !not_elem_of_app. split_and!.
      - apply (bool_decide_unpack _). by vm_compute.
      - apply (bool_decide_unpack _). by vm_compute.
      - eapply free_not_in; [|exact Hf]. rewrite !elem_of_cons. tauto. }
    assert (Hp : Forall (fun b => SPACE < b)%Z (FILE ++ SEPARATOR ++ path)).
    { rewrite !Forall_app. split_and!; [| |done]; apply (bool_decide_unpack _); by vm_compute. }
    rewrite plain_preprocess, file_url_shape by done. rewrite Hcov. by destruct (egress_denied _ _).
Qed.
