(* ===== verification/Flights.v ===== *)
(** The single-flight registry of identical reads ([ReadFlights] of
    [src/src/resources.rs]). *)

From S2P Require Import Prelude.
From S2P Require Import Policy.

(** [executor::FileIdentity]: the device and inode of a file. *)
Record FileIdentity := mkIdentity { dev : Z; ino : Z }.

Record SnapshotBinding := mkBinding { bound : FileIdentity }.

Record ReadRights := mkRights {
  grant_id : string;
  rights_mode : string;
}.

(** [ReadRights::new] *)
Definition rights_new (grant : string) (mode : PermissionMode) : ReadRights :=
  mkRights grant (Policy.id mode).

Record ReadFlightKey := mkKey {
  target : string;
  snapshot : SnapshotBinding;
  key_scope_root : string;
  rights : ReadRights;
}.

#[export] Instance ReadFlightKey_eq_dec : EqDecision ReadFlightKey.
Proof.
  assert (EqDecision FileIdentity) by solve_decision.
  assert (EqDecision SnapshotBinding) by solve_decision.
  assert (EqDecision ReadRights) by solve_decision.
  solve_decision.
Defined.

#[export] Instance ReadFlightKey_countable : Countable ReadFlightKey.
Proof.
  apply (inj_countable'
    (fun k => (target k, dev (bound (snapshot k)), ino (bound (snapshot k)), key_scope_root k,
               grant_id (rights k), rights_mode (rights k)))
    (fun '(t, d, i, r, g, m) => mkKey t (mkBinding (mkIdentity d i)) r (mkRights g m))).
  by intros [? [[? ?]] ? [? ?]].
Defined.

Inductive FlightRole := Leader | Follower.

Section flights.
(** [executor::ReadObservation], which the registry only hands over. *)
Context {Observation : Type}.

Record Flight := mkFlight {
  members : list string;
  observation : option Observation;
}.

Record ReadFlights := mkFlights {
  flights : gmap ReadFlightKey (list Flight);
  by_attempt : gmap string ReadFlightKey;
}.

(** [ReadFlights::new] *)
Definition new : ReadFlights := mkFlights ∅ ∅.

Definition is_member (attempt : string) (f : Flight) : bool := bool_decide (attempt ∈ members f).
Definition without (attempt : string) (f : Flight) : Flight :=
  mkFlight (filter (fun m => m <> attempt) (members f)) (observation f).

(** [flights.last_mut()] when it is still open, with the flights before it. *)
Definition last_open (fs : list Flight) : option (list Flight * Flight) :=
  match rev fs with
  | f :: before => match observation f with None => Some (rev before, f) | Some _ => None end
  | [] => None
  end.

(** [ReadFlights::subscribe] *)
Definition subscribe (key : ReadFlightKey) (attempt : string) (r : ReadFlights)
    : FlightRole * ReadFlights :=
  let fs := default [] (flights r !! key) in
  let '(role, fs) :=
    match last_open fs with
    | Some (before, f) => (Follower, before ++ [mkFlight (members f ++ [attempt]) (observation f)])
    | None => (Leader, fs ++ [mkFlight [attempt] None])
    end in
  (role, mkFlights (<[key := fs]> (flights r)) (<[attempt := key]> (by_attempt r))).

(** [ReadFlights::role] *)
Definition role (attempt : string) (r : ReadFlights) : option FlightRole :=
  key ← by_attempt r !! attempt;
  fs ← flights r !! key;
  i ← position (is_member attempt) fs;
  f ← fs !! i;
  Some (if decide (head (members f) = Some attempt) then Leader else Follower).

(** [ReadFlights::flight_index_mut] *)
Definition flight_index (attempt : string) (r : ReadFlights) : option (ReadFlightKey * list Flight * nat) :=
  key ← by_attempt r !! attempt;
  fs ← flights r !! key;
  i ← position (is_member attempt) fs;
  Some (key, fs, i).

(** A flight put back at its index, or removed when it lost its last member. *)
Definition put_flight (fs : list Flight) (i : nat) (f : Flight) : list Flight :=
  if decide (members f = []) then take i fs ++ drop (S i) fs else <[i := f]> fs.

(** [ReadFlights::take_shared] *)
Definition take_shared (attempt : string) (r : ReadFlights) : outcome (option Observation * ReadFlights) :=
  match flight_index attempt r with
  | None => Ret (None, r)
  | Some (key, fs, i) =>
      let* f := index fs i in
      match observation f with
      | None => Ret (None, r)
      | Some obs =>
          Ret (Some obs, mkFlights (<[key := put_flight fs i (without attempt f)]> (flights r))
                           (delete attempt (by_attempt r)))
      end
  end.

(** [ReadFlights::settle] *)
Definition settle (attempt : string) (obs : Observation) (r : ReadFlights) : outcome ReadFlights :=
  match flight_index attempt r with
  | None => Ret r
  | Some (key, fs, i) =>
      let* f := index fs i in
      let f := mkFlight (members (without attempt f)) (Some obs) in
      Ret (mkFlights (<[key := put_flight fs i f]> (flights r)) (delete attempt (by_attempt r)))
  end.

(** [ReadFlights::drop_member] *)
Definition drop_member (attempt : string) (r : ReadFlights) : ReadFlights :=
  match by_attempt r !! attempt with
  | None => r
  | Some key =>
      match flights r !! key with
      | None => r
      | Some fs =>
          mkFlights (<[key := filter (fun f => members f <> []) (map (without attempt) fs)]> (flights r))
            (delete attempt (by_attempt r))
      end
  end.
End flights.

Arguments Flight : clear implicits.
Arguments ReadFlights : clear implicits.

(** * Properties

    Properties of the single-flight registry ([ReadFlights] of
    [src/src/resources.rs]): one seat per attempt, sharing only between identical
    reads, one observation for every waiter. *)

Section flights.
Context {Observation : Type}.
Implicit Types (f : Flight Observation) (fs : list (Flight Observation)) (r : ReadFlights Observation).

(** Rights of two modes differ: the stored spelling of a mode tells which it is. *)
Lemma rights_new_inj g g' m m' : rights_new g m = rights_new g' m' -> g = g' /\ m = m'.
Proof. intros [= -> E]. split; [done|]. by apply (spelling_inj (A := PermissionMode)). Qed.

(** * The invariant *)

(** The attempts seated in the flights of one key. *)
Definition seats (fs : list (Flight Observation)) : list string := concat (map members fs).

(** Only the last flight of a key can still be open. *)
Fixpoint open_last (fs : list (Flight Observation)) : Prop :=
  match fs with
  | [] => True
  | f :: fs => (fs = [] \/ observation f <> None) /\ open_last fs
  end.

Record key_ok (ba : gmap string ReadFlightKey) (key : ReadFlightKey) (fs : list (Flight Observation))
    : Prop := {
  ko_manned : Forall (fun f => members f <> []) fs;
  ko_nodup : NoDup (seats fs);
  ko_seat : forall m, m ∈ seats fs -> ba !! m = Some key;
  ko_open : open_last fs;
}.

Record flights_ok (r : ReadFlights Observation) : Prop := {
  fo_key : forall key fs, flights r !! key = Some fs -> key_ok (by_attempt r) key fs;
  fo_attempt : forall a key, by_attempt r !! a = Some key ->
    exists fs, flights r !! key = Some fs /\ a ∈ seats fs;
}.

Lemma flights_ok_new : flights_ok new.
Proof. split; simpl; intros *; by rewrite lookup_empty. Qed.

Lemma seats_app fs1 fs2 : seats (fs1 ++ fs2) = seats fs1 ++ seats fs2.
Proof. unfold seats. by rewrite map_app, concat_app. Qed.

Lemma seats_cons f fs : seats (f :: fs) = members f ++ seats fs.
Proof. done. Qed.

(** The seat of an attempt. *)
Lemma seat_split fs a :
  a ∈ seats fs -> NoDup (seats fs) ->
  exists pre f post, fs = pre ++ f :: post /\ a ∈ members f /\ (a ∉ seats pre) /\ (a ∉ seats post) /\
    position (is_member a) fs = Some (length pre).
Proof.
  induction fs as [|f fs IH]; [by intros ?%elem_of_nil|].
  rewrite seats_cons. intros Ha Hnd. apply NoDup_app in Hnd as (Hf & Hdis & Hnd).
  destruct (decide (a ∈ members f)) as [Hin|Hout].
  - exists [], f, fs. split_and!; [done|done|by intros ?%elem_of_nil|by apply Hdis|].
    simpl. unfold is_member at 1. by rewrite bool_decide_true.
  - apply elem_of_app in Ha as [?|Ha]; [done|].
    destruct (IH Ha Hnd) as (pre & g & post & -> & H1 & H2 & H3 & H4).
    exists (f :: pre), g, post. split_and!; [done|done| |done|].
    + rewrite seats_cons. intros [?|?]%elem_of_app; done.
    + simpl. unfold is_member at 1. rewrite bool_decide_false by done. by rewrite H4.
Qed.

Lemma flight_index_spec r a :
  flights_ok r ->
  match by_attempt r !! a with
  | None => flight_index a r = None
  | Some key => exists pre f post,
      flights r !! key = Some (pre ++ f :: post) /\ a ∈ members f /\
      (a ∉ seats pre) /\ (a ∉ seats post) /\
      flight_index a r = Some (key, pre ++ f :: post, length pre)
  end.
Proof.
  intros Hr. unfold flight_index. destruct (by_attempt r !! a) as [key|] eqn:Ea; [|done].
  destruct (fo_attempt r Hr a key Ea) as (fs & Hfs & Hin).
  pose proof (fo_key r Hr key fs Hfs) as Hk.
  destruct (seat_split fs a Hin (ko_nodup _ _ _ Hk)) as (pre & f & post & -> & H1 & H2 & H3 & H4).
  exists pre, f, post. split_and!; try done. simpl. rewrite Hfs. simpl. by rewrite H4.
Qed.

Lemma put_flight_app pre f g post :
  put_flight (pre ++ f :: post) (length pre) g =
    pre ++ (if decide (members g = []) then [] else [g]) ++ post.
Proof.
  unfold put_flight. destruct (decide (members g = [])).
  - rewrite take_app_length. f_equal. rewrite drop_app_ge by lia.
    by replace (S (length pre) - length pre) with 1 by lia.
  - by rewrite insert_app_r_alt, Nat.sub_diag by lia.
Qed.

Lemma filter_out (l : list string) a : (a ∉ l) -> filter (fun m => m <> a) l = l.
Proof.
  induction l as [|x l IH]; intros H; [done|]. apply not_elem_of_cons in H as [H1 H2].
  rewrite filter_cons_True by congruence. by rewrite IH.
Qed.

(** An attempt that leaves its seat, everything else in place. *)
Lemma leave_ok r a key fs fs' :
  flights_ok r -> flights r !! key = Some fs -> by_attempt r !! a = Some key ->
  seats fs' = filter (fun m => m <> a) (seats fs) -> Forall (fun f => members f <> []) fs' ->
  open_last fs' ->
  flights_ok (mkFlights (<[key := fs']> (flights r)) (delete a (by_attempt r))).
Proof.
  intros Hr Hfs Ha Hseats Hman Hopen. pose proof (fo_key r Hr key fs Hfs) as Hk. split; simpl.
  - intros key' gs Hgs. apply lookup_insert_Some in Hgs as [[<- <-]|[Hne Hgs]].
    + split; [done| | |done].
      * rewrite Hseats. by apply NoDup_filter, Hk.
      * intros m. rewrite Hseats. intros [Hma Hm]%list_elem_of_filter.
        rewrite lookup_delete_ne by done. by apply (ko_seat _ _ _ Hk).
    + destruct (fo_key r Hr key' gs Hgs) as [H1 H2 H3 H4]. split; [done|done| |done].
      intros m Hm. rewrite lookup_delete_ne; [by apply H3|]. intros ->. specialize (H3 _ Hm). congruence.
  - intros b key' Hb. apply lookup_delete_Some in Hb as [Hne Hb].
    destruct (fo_attempt r Hr b key' Hb) as (gs & Hgs & Hin).
    destruct (decide (key = key')) as [<-|Hk'].
    + rewrite lookup_insert_eq. eexists. split; [done|]. rewrite Hseats. apply list_elem_of_filter.
      split; [done|]. congruence.
    + rewrite lookup_insert_ne by done. eauto.
Qed.

Definition closed (f : Flight Observation) : Prop := observation f <> None.

Lemma open_last_closed fs : Forall closed fs -> open_last fs.
Proof. induction 1; simpl; auto. Qed.

Lemma open_last_app pre fs :
  fs <> [] -> open_last (pre ++ fs) <-> Forall closed pre /\ open_last fs.
Proof.
  intros Hne. induction pre as [|f pre IH]; simpl; [split; [by split; [constructor|]|tauto]|].
  rewrite IH, Forall_cons. unfold closed at 2. split; [|tauto].
  intros [[H|H] ?]; [by destruct pre, fs|tauto].
Qed.

Lemma open_last_replace pre f g post :
  open_last (pre ++ f :: post) -> (observation g = None -> observation f = None) ->
  open_last (pre ++ (if decide (members g = []) then [] else [g]) ++ post).
Proof.
  intros Ho Hfg. apply open_last_app in Ho as [Hpre [Hf Hpost]]; [|done].
  destruct (decide (members g = [])); cbn [app].
  - destruct post as [|x post]; [rewrite app_nil_r; by apply open_last_closed|].
    by apply open_last_app.
  - apply open_last_app; [done|]. split; [done|]. split; [|done].
    destruct Hf as [?|Hf]; [by left|right]. intros Hg. by apply Hf, Hfg.
Qed.

Lemma seats_replace pre f g post a :
  members g = filter (fun m => m <> a) (members f) -> (a ∉ seats pre) -> (a ∉ seats post) ->
  seats (pre ++ (if decide (members g = []) then [] else [g]) ++ post) =
    filter (fun m => m <> a) (seats (pre ++ f :: post)).
Proof.
  intros Hg Hpre Hpost. rewrite !seats_app, seats_cons, !filter_app.
  rewrite (filter_out (seats pre)), (filter_out (seats post)), <- Hg by done.
  f_equal. f_equal. destruct (decide (members g = [])) as [->|]; [done|].
  unfold seats. simpl. by rewrite app_nil_r.
Qed.

(** * The operations *)

Definition leaver (a : string) (f g : Flight Observation) : Prop :=
  members g = filter (fun m => m <> a) (members f) /\ (observation g = None -> observation f = None).

Lemma replace_ok r a key pre f g post :
  flights_ok r -> flights r !! key = Some (pre ++ f :: post) -> by_attempt r !! a = Some key ->
  (a ∉ seats pre) -> (a ∉ seats post) -> leaver a f g ->
  flights_ok (mkFlights (<[key := pre ++ (if decide (members g = []) then [] else [g]) ++ post]> (flights r))
                (delete a (by_attempt r))).
Proof.
  intros Hr Hfs Ha Hpre Hpost [Hg Ho]. destruct (fo_key r Hr key _ Hfs) as [Hman _ _ Hopen].
  apply (leave_ok r a key _ _ Hr Hfs Ha).
  - by apply seats_replace.
  - apply Forall_app in Hman as [H1 H2]. apply Forall_cons in H2 as [_ H2].
    apply Forall_app. split; [done|]. destruct (decide (members g = [])); [done|by constructor].
  - by eapply open_last_replace.
Qed.

Lemma index_at pre f post : index (pre ++ f :: post) (length pre) = Ret f.
Proof. apply index_Ret. by rewrite lookup_app_r, Nat.sub_diag. Qed.

(** What [take_shared] does, on every branch. *)
Lemma take_shared_spec r a :
  flights_ok r ->
  exists o r', take_shared a r = Ret (o, r') /\ flights_ok r' /\
  match o with
  | None => r' = r
  | Some obs => by_attempt r' = delete a (by_attempt r) /\
        exists key pre f post, by_attempt r !! a = Some key /\
        flights r !! key = Some (pre ++ f :: post) /\ a ∈ members f /\ observation f = Some obs /\
        flights r' = <[key := pre ++ (if decide (members (without a f) = []) then [] else [without a f])
                        ++ post]> (flights r)
  end.
Proof.
  intros Hr. unfold take_shared. pose proof (flight_index_spec r a Hr) as Hi.
  destruct (by_attempt r !! a) as [key|] eqn:Ea; [|rewrite Hi; by eexists _, _].
  destruct Hi as (pre & f & post & Hfs & Hin & Hpre & Hpost & ->). rewrite index_at. cbn [obind].
  destruct (observation f) as [obs|] eqn:Eo; [|by eexists _, _].
  rewrite put_flight_app. eexists _, _. split; [done|]. split.
  - by eapply replace_ok; [..|split].
  - split; [done|]. eauto 10.
Qed.

(** What [settle] does, on every branch. *)
Lemma settle_spec r a obs :
  flights_ok r ->
  exists r', settle a obs r = Ret r' /\ flights_ok r' /\
  match by_attempt r !! a with
  | None => r' = r
  | Some key => by_attempt r' = delete a (by_attempt r) /\
        exists pre f post, flights r !! key = Some (pre ++ f :: post) /\ a ∈ members f /\
        let g := mkFlight (members (without a f)) (Some obs) in
        flights r' = <[key := pre ++ (if decide (members g = []) then [] else [g]) ++ post]> (flights r)
  end.
Proof.
  intros Hr. unfold settle. pose proof (flight_index_spec r a Hr) as Hi.
  destruct (by_attempt r !! a) as [key|] eqn:Ea; [|rewrite Hi; by eexists _].
  destruct Hi as (pre & f & post & Hfs & Hin & Hpre & Hpost & ->). rewrite index_at. cbn [obind].
  rewrite put_flight_app. eexists. split; [done|]. split.
  - by eapply replace_ok; [..|split].
  - split; [done|]. eauto 10.
Qed.

Lemma open_last_filter (P : Flight Observation -> Prop) `{!forall f, Decision (P f)} fs :
  open_last fs -> open_last (filter P fs).
Proof.
  induction fs as [|f fs IH]; [done|]. intros [Hf Hfs]. specialize (IH Hfs).
  destruct (decide (P f)).
  - rewrite filter_cons_True by done. split; [|done].
    destruct Hf as [->|Hf]; [by left|by right].
  - by rewrite filter_cons_False.
Qed.

Lemma open_last_map (g : Flight Observation -> Flight Observation) fs :
  (forall f, observation (g f) = observation f) -> open_last fs -> open_last (map g fs).
Proof.
  intros Hg. induction fs as [|f fs IH]; [done|]. intros [Hf Hfs]. split; [|by apply IH].
  rewrite Hg. destruct Hf as [->|Hf]; [by left|by right].
Qed.

Lemma seats_without a fs : seats (map (without a) fs) = filter (fun m => m <> a) (seats fs).
Proof.
  induction fs as [|f fs IH]; [done|]. cbn [map]. rewrite !seats_cons, filter_app, IH. done.
Qed.

Lemma seats_manned fs : seats (filter (fun f => members f <> []) fs) = seats fs.
Proof.
  induction fs as [|f fs IH]; [done|]. destruct (decide (members f = [])) as [E|E].
  - rewrite filter_cons_False by (intros H; by apply H). by rewrite seats_cons, E, IH.
  - rewrite filter_cons_True by done. by rewrite !seats_cons, IH.
Qed.

Lemma drop_member_ok r a : flights_ok r -> flights_ok (drop_member a r).
Proof.
  intros Hr. unfold drop_member. destruct (by_attempt r !! a) as [key|] eqn:Ea; [|done].
  destruct (flights r !! key) as [fs|] eqn:Hfs; [|done].
  destruct (fo_key r Hr key _ Hfs) as [Hman Hnd _ Hopen].
  apply (leave_ok r a key fs); [done|done|done| | |].
  - by rewrite seats_manned, seats_without.
  - apply Forall_forall. by intros f [H _]%list_elem_of_filter.
  - by apply open_last_filter, open_last_map.
Qed.

(** The last flight of a key, when it is open. *)
Lemma last_open_spec fs :
  match last_open fs with
  | Some (before, f) => fs = before ++ [f] /\ observation f = None
  | None => open_last fs -> Forall closed fs
  end.
Proof.
  unfold last_open. destruct (rev fs) as [|f before] eqn:E.
  - assert (fs = []) as ->; [|by constructor].
    apply (f_equal (@rev _)) in E. by rewrite rev_involutive in E.
  - assert (fs = rev before ++ [f]) as ->.
    { apply (f_equal (@rev _)) in E. by rewrite rev_involutive in E. }
    destruct (observation f) eqn:Eo; [|done]. intros Ho.
    apply open_last_app in Ho as [Hb _]; [|done]. apply Forall_app. split; [done|].
    constructor; [|constructor]. unfold closed. by rewrite Eo.
Qed.

(** What [subscribe] does: a follower joins the open last flight, a leader
    opens a new one. *)
Lemma subscribe_spec r key a :
  flights_ok r -> by_attempt r !! a = None ->
  let fs := default [] (flights r !! key) in
  exists ro fs', subscribe key a r = (ro, mkFlights (<[key := fs']> (flights r)) (<[a := key]> (by_attempt r))) /\
  flights_ok (snd (subscribe key a r)) /\
  match ro with
  | Follower => exists before f, fs = before ++ [f] /\ observation f = None /\
      fs' = before ++ [mkFlight (members f ++ [a]) None]
  | Leader => Forall closed fs /\ fs' = fs ++ [mkFlight [a] None]
  end.
Proof.
  intros Hr Ha fs. unfold subscribe. fold fs. pose proof (last_open_spec fs) as Hl.
  assert (Hk : key_ok (by_attempt r) key fs).
  { unfold fs. destruct (flights r !! key) as [gs|] eqn:E; [by apply Hr|].
    split; simpl; [constructor|constructor|by intros m Hm%elem_of_nil|done]. }
  assert (Hnew : a ∉ seats fs) by (intros Hin; apply (ko_seat _ _ _ Hk) in Hin; congruence).
  assert (Hput : forall fs', Forall (fun f => members f <> []) fs' -> open_last fs' ->
    seats fs' ≡ₚ a :: seats fs ->
    flights_ok (mkFlights (<[key := fs']> (flights r)) (<[a := key]> (by_attempt r)))).
  { intros fs' Hman Hopen Hp. split; simpl.
    - intros key' gs Hgs. apply lookup_insert_Some in Hgs as [[<- <-]|[Hne Hgs]].
      + split; [done| | |done].
        * rewrite Hp. apply NoDup_cons. by split; [|apply Hk].
        * intros m. rewrite Hp. intros [->|Hm]%elem_of_cons; [by rewrite lookup_insert_eq|].
          rewrite lookup_insert_ne by congruence. by apply (ko_seat _ _ _ Hk).
      + destruct (fo_key r Hr key' gs Hgs) as [H1 H2 H3 H4]. split; [done|done| |done].
        intros m Hm. rewrite lookup_insert_ne; [by apply H3|]. intros <-. specialize (H3 _ Hm). congruence.
    - intros b key' Hb. apply lookup_insert_Some in Hb as [[<- <-]|[Hne Hb]].
      + rewrite lookup_insert_eq. eexists. split; [done|]. rewrite Hp. by left.
      + destruct (fo_attempt r Hr b key' Hb) as (gs & Hgs & Hin).
        destruct (decide (key = key')) as [<-|Hk'].
        * rewrite lookup_insert_eq. eexists. split; [done|]. rewrite Hp. right. unfold fs. by rewrite Hgs.
        * rewrite lookup_insert_ne by done. eauto. }
  destruct (last_open fs) as [[before f]|].
  - destruct Hl as [Hfs Ho]. exists Follower, (before ++ [mkFlight (members f ++ [a]) None]).
    rewrite Ho. split; [done|]. split; [|by exists before, f].
    simpl. apply Hput.
    + pose proof (ko_manned _ _ _ Hk) as Hman. rewrite Hfs in Hman. apply Forall_app in Hman as [H1 _].
      apply Forall_app. split; [done|]. constructor; [|constructor]. by destruct (members f).
    + pose proof (ko_open _ _ _ Hk) as Hop. rewrite Hfs in Hop. apply open_last_app in Hop as [H1 _]; [|done].
      apply open_last_app; [done|]. split; [done|]. by split; [left|].
    + rewrite Hfs, !seats_app. unfold seats at 2 4. simpl. rewrite !app_nil_r.
      rewrite app_assoc. by rewrite <- Permutation_cons_append.
  - exists Leader, (fs ++ [mkFlight [a] None]). split; [done|]. split; [|split; [by apply Hl, Hk|done]].
    simpl. apply Hput.
    + apply Forall_app. split; [apply Hk|]. by constructor.
    + apply open_last_app; [done|]. split; [by apply Hl, Hk|]. by split; [left|].
    + rewrite seats_app. unfold seats at 2. simpl. by rewrite <- Permutation_cons_append.
Qed.

Lemma seat_unique fs b f g :
  NoDup (seats fs) -> f ∈ fs -> g ∈ fs -> b ∈ members f -> b ∈ members g -> f = g.
Proof.
  assert (Hin : forall h hs, h ∈ hs -> b ∈ members h -> b ∈ seats hs).
  { intros h hs Hh Hb. induction hs as [|x hs IH]; [by apply elem_of_nil in Hh|]. rewrite seats_cons.
    apply elem_of_app. apply elem_of_cons in Hh as [->|Hh]; [by left|right; auto]. }
  induction fs as [|h fs IH]; [by intros _ ?%elem_of_nil|].
  rewrite seats_cons. intros Hnd Hf Hg Hbf Hbg. apply NoDup_app in Hnd as (_ & Hdis & Hnd).
  apply elem_of_cons in Hf as [->|Hf]; apply elem_of_cons in Hg as [->|Hg]; [done| | |by apply IH].
  - exfalso. by apply (Hdis b); [|eapply Hin].
  - exfalso. by apply (Hdis b); [|eapply Hin].
Qed.

(** A settled flight hands its observation to a member that asks. *)
Lemma take_shared_settled r b key fs g obs :
  flights_ok r -> by_attempt r !! b = Some key -> flights r !! key = Some fs -> g ∈ fs ->
  b ∈ members g -> observation g = Some obs ->
  exists r', take_shared b r = Ret (Some obs, r') /\ flights_ok r' /\ by_attempt r' !! b = None.
Proof.
  intros Hr Hb Hfs Hg Hbg Hobs. pose proof (flight_index_spec r b Hr) as Hi. rewrite Hb in Hi.
  destruct Hi as (pre & f & post & Hfs' & Hbf & _ & _ & Hi). rewrite Hfs in Hfs'. injection Hfs' as ->.
  assert (f = g) as ->.
  { pose proof (fo_key r Hr key _ Hfs) as Hk. eapply seat_unique; [apply Hk|..|done|done]; [|done].
    apply elem_of_app. right. by left. }
  destruct (take_shared_spec r b Hr) as (o & r' & E & Hr' & Ho). exists r'.
  assert (o = Some obs) as ->.
  { unfold take_shared in E. rewrite Hi, index_at in E. cbn [obind] in E. rewrite Hobs in E.
    by injection E as <- _. }
  split; [done|]. split; [done|]. destruct Ho as [-> _]. by rewrite lookup_delete_eq.
Qed.

Lemma take_shared_gone r b : by_attempt r !! b = None -> take_shared b r = Ret (None, r).
Proof. intros H. unfold take_shared, flight_index. by rewrite H. Qed.

(** * A registry's life *)

(** The registry with what the world knows: the read each attempt subscribed
    to, and the physical reads that settled. *)
Record History := mkHistory {
  reg : ReadFlights Observation;
  subs : gmap string ReadFlightKey;
  settles : list (string * Observation);
}.

Inductive step (h : History) : History -> Prop :=
  | step_subscribe key a ro r :
      subs h !! a = None -> subscribe key a (reg h) = (ro, r) ->
      step h (mkHistory r (<[a := key]> (subs h)) (settles h))
  | step_take a o r :
      take_shared a (reg h) = Ret (o, r) -> step h (mkHistory r (subs h) (settles h))
  | step_settle a obs r :
      settle a obs (reg h) = Ret r -> step h (mkHistory r (subs h) ((a, obs) :: settles h))
  | step_drop a : step h (mkHistory (drop_member a (reg h)) (subs h) (settles h)).

Inductive reachable : History -> Prop :=
  | reach_new : reachable (mkHistory new ∅ [])
  | reach_step h h' : reachable h -> step h h' -> reachable h'.

Record history_ok (h : History) : Prop := {
  ho_reg : flights_ok (reg h);
  ho_subs : forall a key, by_attempt (reg h) !! a = Some key -> subs h !! a = Some key;
  ho_obs : forall key fs f obs, flights (reg h) !! key = Some fs -> f ∈ fs -> observation f = Some obs ->
    exists b, subs h !! b = Some key /\ (b, obs) ∈ settles h;
}.

(** The flights after one was replaced come from the old ones and the new one. *)
Lemma elem_replace (pre post : list (Flight Observation)) f g x :
  x ∈ pre ++ (if decide (members g = []) then [] else [g]) ++ post -> x ∈ pre ++ f :: post \/ x = g.
Proof.
  rewrite !elem_of_app, elem_of_cons. destruct (decide (members g = [])).
  - rewrite elem_of_nil. tauto.
  - rewrite list_elem_of_singleton. tauto.
Qed.

Lemma flight_step_ok h h' : history_ok h -> step h h' -> history_ok h'.
Proof.
  intros [Hr Hsub Hobs] Hs. destruct Hs as [key a ro r Hf Hsb|a o r Ht|a obs r Hse|a].
  - assert (Ha : by_attempt (reg h) !! a = None).
    { destruct (by_attempt (reg h) !! a) eqn:E; [|done]. apply Hsub in E. congruence. }
    destruct (subscribe_spec (reg h) key a Hr Ha) as (ro' & fs' & E & Hok & Hcase).
    rewrite Hsb in E, Hok. injection E as <- ->. split; simpl; [done| |].
    + intros b k Hb. apply lookup_insert_Some in Hb as [[<- <-]|[Hne Hb]];
        [by rewrite lookup_insert_eq|]. rewrite lookup_insert_ne by done. by apply Hsub.
    + assert (Hkeep : forall b k, subs h !! b = Some k -> <[a := key]> (subs h) !! b = Some k).
      { intros b k Hb. rewrite lookup_insert_ne; [done|]. intros <-. congruence. }
      intros k fs f obs Hfs Hin Ho. apply lookup_insert_Some in Hfs as [[<- <-]|[Hne Hfs]].
      * assert (Hold : f ∈ default [] (flights (reg h) !! key) \/ observation f = None).
        { destruct ro.
          - destruct Hcase as [_ ->]. apply elem_of_app in Hin as [?| ->%list_elem_of_singleton]; auto.
          - destruct Hcase as (before & g & -> & _ & ->).
            apply elem_of_app in Hin as [?| ->%list_elem_of_singleton]; [left; apply elem_of_app|]; auto. }
        destruct Hold as [Hold|?]; [|congruence].
        destruct (flights (reg h) !! key) as [gs|] eqn:E; [|by apply elem_of_nil in Hold].
        destruct (Hobs _ _ _ _ E Hold Ho) as (b & Hb & Hset). eauto.
      * destruct (Hobs _ _ _ _ Hfs Hin Ho) as (b & Hb & Hset). eauto.
  - destruct (take_shared_spec (reg h) a Hr) as (o' & r' & E & Hok & Hcase). rewrite Ht in E.
    injection E as <- <-. destruct o as [obs|]; [|subst r; by split].
    destruct Hcase as [Hba (key & pre & f & post & Ha & Hfl & Hin & Hof & Hfl')]. split; simpl; [done| |].
    + rewrite Hba. intros b k [_ Hb]%lookup_delete_Some. by apply Hsub.
    + rewrite Hfl'. intros k fs x obs' Hfs Hx Ho. apply lookup_insert_Some in Hfs as [[<- <-]|[Hne Hfs]].
      * apply (elem_replace pre post f) in Hx as [Hx| ->]; [by apply (Hobs key _ x obs' Hfl)|].
        apply (Hobs key _ f obs' Hfl); [|exact Ho]. apply elem_of_app. right. by left.
      * by eapply Hobs.
  - destruct (settle_spec (reg h) a obs Hr) as (r' & E & Hok & Hcase). rewrite Hse in E. injection E as <-.
    destruct (by_attempt (reg h) !! a) as [key|] eqn:Ea.
    + destruct Hcase as [Hba (pre & f & post & Hfl & Hin & Hfl')]. cbv zeta in Hfl'. split; simpl; [done| |].
      * rewrite Hba. intros b k [_ Hb]%lookup_delete_Some. by apply Hsub.
      * rewrite Hfl'. intros k fs x obs' Hfs Hx Ho. apply lookup_insert_Some in Hfs as [[<- <-]|[Hne Hfs]].
        -- apply (elem_replace pre post f) in Hx as [Hx| ->].
           ++ destruct (Hobs _ _ _ _ Hfl Hx Ho) as (b & Hb & Hset). exists b. split; [done|]. by right.
           ++ simpl in Ho. injection Ho as <-. exists a. split; [by apply Hsub|]. by left.
        -- destruct (Hobs _ _ _ _ Hfs Hx Ho) as (b & Hb & Hset). exists b. split; [done|]. by right.
    + subst r. split; simpl; [done|done|]. intros k fs x obs' Hfs Hx Ho.
      destruct (Hobs _ _ _ _ Hfs Hx Ho) as (b & Hb & Hset). exists b. split; [done|]. by right.
  - split; simpl; [by apply drop_member_ok| |].
    + intros b k. unfold drop_member. destruct (by_attempt (reg h) !! a); [|apply Hsub].
      destruct (flights (reg h) !! _); [|apply Hsub]. simpl. intros [_ Hb]%lookup_delete_Some. by apply Hsub.
    + intros k fs x obs'. unfold drop_member. destruct (by_attempt (reg h) !! a) as [key|]; [|by apply Hobs].
      destruct (flights (reg h) !! key) as [gs|] eqn:Eg; [|by apply Hobs]. simpl.
      intros Hfs Hx Ho. apply lookup_insert_Some in Hfs as [[<- <-]|[Hne Hfs]]; [|by eapply Hobs].
      apply list_elem_of_filter in Hx as [_ Hx]. apply list_elem_of_fmap in Hx as (y & -> & Hy).
      by eapply (Hobs _ gs y).
Qed.

Lemma history_reachable_ok h : reachable h -> history_ok h.
Proof.
  induction 1 as [|h h' _ IH Hs]; [|by eapply flight_step_ok].
  split; simpl; [apply flights_ok_new|intros *; by rewrite lookup_empty..].
Qed.
End flights.

(** * Properties *)

(** Differing reads never share: when a member is handed a shared
    observation, some attempt that subscribed to the very same read (target, file
    snapshot, scope root and rights) performed it. *)
Theorem shared_observation_is_of_the_same_read {Observation} h a (obs : Observation) r :
  reachable h -> take_shared a (reg h) = Ret (Some obs, r) ->
  exists key b, subs h !! a = Some key /\ subs h !! b = Some key /\ (b, obs) ∈ settles h.
Proof.
  intros Hh Ht. destruct (history_reachable_ok h Hh) as [Hr Hsub Hobs].
  destruct (take_shared_spec (reg h) a Hr) as (o & r' & E & _ & Hcase). rewrite Ht in E. injection E as <- <-.
  destruct Hcase as [_ (key & pre & f & post & Ha & Hfl & _ & Hof & _)].
  destruct (Hobs key _ f obs Hfl) as (b & Hb & Hset); [apply elem_of_app; right; by left|done|].
  exists key, b. split; [by apply Hsub|]. by split.
Qed.

(** One physical read serves every waiter, exactly once: an identical read
    admitted while a flight is open follows it, and once the reader settles, every
    other member of that flight takes that observation and then holds nothing more
    to take.  No call panics. *)
Theorem one_read_serves_every_waiter {Observation} h key before f a b (obs : Observation) :
  reachable h -> flights (reg h) !! key = Some (before ++ [f]) -> observation f = None ->
  a ∈ members f -> b ∈ members f -> a <> b ->
  (forall c, subs h !! c = None -> fst (subscribe key c (reg h)) = Follower) /\
  exists r r', settle a obs (reg h) = Ret r /\ take_shared b r = Ret (Some obs, r') /\
    take_shared b r' = Ret (None, r').
Proof.
  intros Hh Hfl Ho Ha Hb Hab. destruct (history_reachable_ok h Hh) as [Hr Hsub Hobs].
  pose proof (fo_key _ Hr key _ Hfl) as Hk.
  assert (Hseat : forall m, m ∈ members f -> by_attempt (reg h) !! m = Some key).
  { intros m Hm. apply (ko_seat _ _ _ Hk). rewrite seats_app. apply elem_of_app. right.
    rewrite seats_cons. apply elem_of_app. by left. }
  split.
  - intros c Hc. unfold subscribe. rewrite Hfl. simpl. unfold last_open. rewrite rev_app_distr. simpl.
    by rewrite Ho.
  - destruct (settle_spec (reg h) a obs Hr) as (r & E & Hok & Hcase). rewrite (Hseat a Ha) in Hcase.
    destruct Hcase as [Hba (pre & g & post & Hfl' & Hag & Hfl'')]. cbv zeta in Hfl''.
    rewrite Hfl in Hfl'. injection Hfl' as Efs.
    assert (g = f) as ->.
    { rewrite Efs in Hk. eapply seat_unique; [apply Hk|..|exact Hag|exact Ha].
      - apply elem_of_app. right. by left.
      - rewrite <- Efs. apply elem_of_app. right. by left. }
    set (g := mkFlight (members (without a f)) (Some obs)) in *.
    assert (Hbg : b ∈ members g) by (apply list_elem_of_filter; by split; [congruence|]).
    rewrite decide_False in Hfl'' by (intros En; rewrite En in Hbg; by apply elem_of_nil in Hbg).
    destruct (take_shared_settled r b key (pre ++ [g] ++ post) g obs) as (r' & Et & _ & Hgone).
    + done.
    + rewrite Hba, lookup_delete_ne by done. by apply Hseat.
    + by rewrite Hfl'', lookup_insert_eq.
    + apply elem_of_app. right. apply elem_of_app. left. by left.
    + done.
    + done.
    + exists r, r'. split_and!; [done|done|by apply take_shared_gone].
Qed.

(** * Witnesses *)

Definition a_read : ReadFlightKey :=
  mkKey "/a" (mkBinding (mkIdentity 1 2)) "/" (rights_new "grant-1" Manual).

Definition one_waiting_reg : ReadFlights nat := snd (subscribe a_read "x" new).
Definition two_waiting_reg : ReadFlights nat := snd (subscribe a_read "y" one_waiting_reg).

Definition two_waiting : History (Observation := nat) :=
  mkHistory two_waiting_reg (<["y" := a_read]> (<["x" := a_read]> ∅)) [].

(** The reader [x] settled with the observation 7. *)
Definition one_served : History (Observation := nat) :=
  mkHistory (match settle "x" 7 two_waiting_reg with Ret r => r | _ => new end)
    (<["y" := a_read]> (<["x" := a_read]> ∅)) [("x", 7)].

Lemma two_waiting_reachable : reachable two_waiting.
Proof.
  apply (reach_step (mkHistory one_waiting_reg (<["x" := a_read]> ∅) [])).
  - apply (reach_step (mkHistory new ∅ [])); [apply reach_new|].
    exact (step_subscribe (mkHistory new ∅ []) a_read "x" Leader one_waiting_reg eq_refl
      ltac:(vm_compute; reflexivity)).
  - exact (step_subscribe (mkHistory one_waiting_reg (<["x" := a_read]> ∅) []) a_read "y" Follower
      two_waiting_reg eq_refl ltac:(vm_compute; reflexivity)).
Qed.

Lemma one_served_reachable : reachable one_served.
Proof.
  eapply reach_step; [apply two_waiting_reachable|].
  exact (step_settle two_waiting "x" 7 (reg one_served) ltac:(vm_compute; reflexivity)).
Qed.

Lemma shared_observation_is_of_the_same_read_witness :
  exists key b, subs one_served !! "y" = Some key /\ subs one_served !! b = Some key /\
    (b, 7) ∈ settles one_served.
Proof.
  exact (shared_observation_is_of_the_same_read one_served "y" 7
    (match take_shared "y" (reg one_served) with Ret (_, r) => r | _ => new end)
    one_served_reachable ltac:(vm_compute; reflexivity)).
Defined.

Lemma one_read_serves_every_waiter_witness :
  exists r r', settle "x" 7 two_waiting_reg = Ret r /\ take_shared "y" r = Ret (Some 7, r') /\
    take_shared "y" r' = Ret (None, r').
Proof.
  refine (proj2 (one_read_serves_every_waiter two_waiting a_read [] (mkFlight ["x"; "y"] None) "x" "y" 7
    two_waiting_reachable ltac:(vm_compute; reflexivity) eq_refl _ _ _)).
  - by left.
  - right. by left.
  - done.
Defined.
