(* ===== verification/Procedure.v ===== *)
(** Saved procedure segments ([src/src/procedure.rs]): the template derived from
    an executed plan, the checks of a run's snapshot, the stop decision, what a
    prepared step's attempt proves.  [u64] counters are [Z]. *)

From stdpp Require Import pretty.
From S2P Require Import Prelude.
From S2P Require Import Contracts.

Definition PROCEDURE_SCHEMA_VERSION : Z := 1.

Inductive StopTrigger := OnUnknownEffect | OnRevokedRight | OnNewMaterialChoice.

#[export] Instance StopTrigger_eq_dec : EqDecision StopTrigger.
Proof. solve_decision. Defined.

Definition STOP_CONDITIONS : list StopTrigger := [OnNewMaterialChoice; OnRevokedRight; OnUnknownEffect].

Definition trigger_as_str (t : StopTrigger) : string :=
  match t with
  | OnUnknownEffect => "unknown_effect"
  | OnRevokedRight => "revoked_right"
  | OnNewMaterialChoice => "new_material_choice"
  end.

(** [StopTrigger::parse] *)
Definition trigger_parse (raw : string) : option StopTrigger :=
  find (fun t => bool_decide (trigger_as_str t = raw)) STOP_CONDITIONS.

Record SegmentStep := mkStep {
  position_ : Z;
  tool : string;
  expected_output : string;
}.

(** [state::PlanVerdict], [state::PlanRevisionRecord] and
    [state::PlanObligationRecord]: what the store hands over. *)
Inductive PlanVerdict := Pass | Fail.

Record PlanRevisionRecord := mkPlanRevision {
  revision : Z;
  pr_selection_revision : Z;
  body_json : string;
  verdict : option PlanVerdict;
  assessment_json : option string;
}.

Record PlanObligationRecord := mkObligationRecord {
  capability : string;
  applicability : ObligationApplicability;
  execution : ObligationExecution;
  stage : bool;
  handler : option string;
  blocker : option Blocker;
  outcome_json : option string;
}.

Record SegmentTemplate := mkTemplate {
  procedure_id : string;
  version : Z;
  t_task_id : string;
  t_selection_revision : Z;
  t_plan_revision : Z;
  schema_version : Z;
  t_tool_version : string;
  stop_conditions : list StopTrigger;
  steps : list SegmentStep;
}.

Record PendingFork := mkFork { question_id : QuestionId; fork_revision : Z }.

Record SegmentSnapshot := mkSnapshot {
  selection_revision : Z;
  plan_revision : Z;
  tool_version : string;
  pending : option PendingFork;
}.

(** [ProcedureError]; [StoreError] is the store's error type. *)
Inductive ProcedureError (StoreError : Type) :=
  | PlanMissing (task_id : string)
  | PlanSuperseded (recorded current : Z)
  | NoExecutedSteps (task_id : string)
  | SchemaChanged (recorded current : Z)
  | ToolChanged (recorded current : string)
  | UnboundParameter (position : Z)
  | CursorPastSteps (procedure_id : string) (cursor steps : Z)
  | SegmentMissing (procedure_id : string)
  | RunMissing (run_id : string)
  | StepOutOfOrder (run_id : string) (position cursor : Z)
  | RunNotOpen (run_id state : string)
  | AlreadyCompleted (procedure_id run_id : string)
  | Store (error : StoreError).
Arguments PlanMissing {StoreError}.
Arguments PlanSuperseded {StoreError}.
Arguments NoExecutedSteps {StoreError}.
Arguments SchemaChanged {StoreError}.
Arguments ToolChanged {StoreError}.
Arguments UnboundParameter {StoreError}.
Arguments CursorPastSteps {StoreError}.
Arguments SegmentMissing {StoreError}.
Arguments RunMissing {StoreError}.
Arguments StepOutOfOrder {StoreError}.
Arguments RunNotOpen {StoreError}.
Arguments AlreadyCompleted {StoreError}.
Arguments Store {StoreError}.

(** [ProcedureError::code], from the store error's own code. *)
Definition code {StoreError} (store_code : StoreError -> ErrorCode) (e : ProcedureError StoreError)
    : ErrorCode :=
  match e with
  | PlanMissing _ | NoExecutedSteps _ | UnboundParameter _ | CursorPastSteps _ _ _ => InvalidInput
  | PlanSuperseded _ _ => StaleIntent
  | SchemaChanged _ _ | ToolChanged _ _ => UnsupportedVersion
  | SegmentMissing _ | RunMissing _ => NotFound
  | StepOutOfOrder _ _ _ | RunNotOpen _ _ | AlreadyCompleted _ _ => Conflict
  | Store error => store_code error
  end.

(** [SegmentTemplate::procedure_id_for] *)
Definition procedure_id_for (task_id : TaskId) (plan_revision : Z) : string :=
  "procedure:" +:+ task_id +:+ ":" +:+ pretty plan_revision.

(** The row loop of [derive]. *)
Fixpoint derive_steps (rows : list PlanObligationRecord) (position : Z) (steps : list SegmentStep)
    : outcome (list SegmentStep) :=
  match rows with
  | [] => Ret steps
  | row :: rows =>
      if negb (bool_decide (execution row = Satisfied)) then derive_steps rows position steps
      else
        match outcome_json row with
        | None => derive_steps rows position steps
        | Some out =>
            let* position := add_or_panic u64_max position 1 in
            derive_steps rows position (steps ++ [mkStep position (capability row) out])
        end
  end.

(** [SegmentTemplate::derive] *)
Definition derive {SE} (task_id : TaskId) (selection : Z) (plan : PlanRevisionRecord)
    (rows : list PlanObligationRecord) (tool_version : string)
    : outcome (result SegmentTemplate (ProcedureError SE)) :=
  if negb (bool_decide (pr_selection_revision plan = selection))
  then Ret (Err (PlanSuperseded (pr_selection_revision plan) selection))
  else
    let* steps := derive_steps rows 0 [] in
    if decide (steps = []) then Ret (Err (NoExecutedSteps task_id))
    else Ret (Ok {| procedure_id := procedure_id_for task_id (revision plan); version := 1;
                    t_task_id := task_id; t_selection_revision := selection;
                    t_plan_revision := revision plan; schema_version := PROCEDURE_SCHEMA_VERSION;
                    t_tool_version := tool_version; stop_conditions := STOP_CONDITIONS;
                    steps := steps |}).

(** [SegmentTemplate::step] and [remainder_after] *)
Definition step (t : SegmentTemplate) (position : Z) : option SegmentStep :=
  find (fun s => (position_ s =? position)%Z) (steps t).
Definition remainder_after (t : SegmentTemplate) (cursor : Z) : list SegmentStep :=
  filter (fun s => (cursor < position_ s)%Z) (steps t).

(** [SegmentTemplate::prepare] *)
Definition prepare {SE} (t : SegmentTemplate) (s : SegmentSnapshot) : result unit (ProcedureError SE) :=
  if negb (schema_version t =? PROCEDURE_SCHEMA_VERSION)%Z
  then Err (SchemaChanged (schema_version t) PROCEDURE_SCHEMA_VERSION)
  else if negb (bool_decide (t_tool_version t = tool_version s))
  then Err (ToolChanged (t_tool_version t) (tool_version s))
  else if negb (selection_revision s =? t_selection_revision t)%Z ||
          negb (plan_revision s =? t_plan_revision t)%Z
  then Err (PlanSuperseded (t_selection_revision t) (selection_revision s))
  else Ok tt.

Inductive StepStanding := NotStarted | Landed | StandingUnresolved.

(** [StepStanding::parse] *)
Definition standing_parse (state : option string) : option StepStanding :=
  match state with
  | None => Some NotStarted
  | Some s =>
      if decide (s = "planned" \/ s = "rejected") then Some NotStarted
      else if decide (s = "confirmed") then Some Landed
      else if decide (s = "running" \/ s = "unknown") then Some StandingUnresolved
      else None
  end.

Record PreparedStep := mkPrepared {
  p_position : Z;
  p_tool : string;
  p_attempt_id : string;
  p_standing : StepStanding;
  p_result : option string;
}.

Record SettledStep := mkSettled {
  s_position : Z;
  s_tool : string;
  s_attempt_id : string;
  s_result : string;
}.

(** [settled_result] *)
Definition settled_result (tool : string) (detail : option string) : string :=
  match detail with None => tool +:+ " settled" | Some detail => detail end.

(** [PreparedStep::settlement] *)
Definition settlement (p : PreparedStep) : SettledStep :=
  mkSettled (p_position p) (p_tool p) (p_attempt_id p) (settled_result (p_tool p) (p_result p)).

Inductive StopCause :=
  | UnknownEffect (attempt_id : string)
  | StoppedPrepared (position : Z) (attempt_id : string)
  | RevokedRight (grant_id : string)
  | NewMaterialChoice (pending : option PendingFork).

Inductive StepOutcome :=
  | Settled (attempt_id result : string)
  | StepStopped (cause : StopCause).

Record StopDecision := mkDecision { trigger : StopTrigger; detail : string }.

(** [stop_decision] *)
Definition stop_decision (cause : StopCause) : StopDecision :=
  match cause with
  | UnknownEffect attempt_id =>
      mkDecision OnUnknownEffect
        ("attempt " +:+ attempt_id +:+ " has no settled outcome; the remainder is not run")
  | StoppedPrepared position _ =>
      mkDecision OnUnknownEffect
        ("step " +:+ pretty position +:+ " was prepared and never settled; the remainder is not run")
  | RevokedRight grant_id =>
      mkDecision OnRevokedRight ("right " +:+ grant_id +:+ " is revoked; the remainder is not run")
  | NewMaterialChoice (Some fork) =>
      mkDecision OnNewMaterialChoice
        ("fork " +:+ question_id fork +:+ " revision " +:+ pretty (fork_revision fork) +:+
         " is not the snapshot the segment started under; the remainder is not run")
  | NewMaterialChoice None =>
      mkDecision OnNewMaterialChoice
        "the fork the segment started under was decided; the remainder needs the new choice"
  end.

Inductive RunStart := Resume | Fresh.

(** [SegmentBinding]; [Request] is the executor's typed request. *)
Record SegmentBinding (Request : Type) := mkBinding { requests : gmap Z Request }.
Arguments mkBinding {Request}.
Arguments requests {Request}.

Definition binding_new {Request} : SegmentBinding Request := mkBinding ∅.
Definition bind {Request} (position : Z) (request : Request) (b : SegmentBinding Request)
    : SegmentBinding Request := mkBinding (<[position := request]> (requests b)).
Definition request {Request} (b : SegmentBinding Request) (position : Z) : option Request :=
  requests b !! position.

Inductive RunState := RunRunning | RunCompleted | RunStopped.

Definition run_state_as_str (s : RunState) : string :=
  match s with RunRunning => "running" | RunCompleted => "completed" | RunStopped => "stopped" end.

(** [RunState::parse] *)
Definition run_state_parse (raw : string) : option RunState :=
  find (fun s => bool_decide (run_state_as_str s = raw)) [RunRunning; RunCompleted; RunStopped].

Record ProcedureRun := mkRun {
  run_id : string;
  r_procedure_id : string;
  procedure_version : Z;
  r_task_id : string;
  snapshot : SegmentSnapshot;
  cursor : Z;
  state : RunState;
  stop : option StopDecision;
}.

(** [ProcedureRun::remainder] *)
Definition remainder (r : ProcedureRun) (segment : SegmentTemplate) : list SegmentStep :=
  remainder_after segment (cursor r).

(** * Properties

    What a saved segment promises: its steps are exactly the rows of the plan
    that ran, numbered from 1 in the order they ran; a cursor names one suffix
    of them; and only the snapshot it was derived under prepares it. *)

(** The stored vocabularies. *)
#[export] Instance StopTrigger_vocabulary : Vocabulary StopTrigger.
Proof.
  apply (Build_Vocabulary _ trigger_as_str trigger_parse).
  - by intros [].
  - intros s a [_ E]%find_Some. by apply bool_decide_eq_true in E.
Defined.

#[export] Instance RunState_vocabulary : Vocabulary RunState.
Proof.
  apply (Build_Vocabulary _ run_state_as_str run_state_parse).
  - by intros [].
  - intros s a [_ E]%find_Some. by apply bool_decide_eq_true in E.
Defined.

(** The tool and the output of every row that ran: satisfied, with an outcome. *)
Definition executed (rows : list PlanObligationRecord) : list (string * string) :=
  omap (fun row => if bool_decide (execution row = Satisfied)
                   then (fun out => (capability row, out)) <$> outcome_json row else None) rows.

(** Consecutive steps from position [p + 1]. *)
Definition numbered (p : Z) (outs : list (string * string)) : list SegmentStep :=
  imap (fun i '(c, out) => mkStep (p + 1 + Z.of_nat i)%Z c out) outs.

Lemma numbered_cons p c out outs :
  numbered p ((c, out) :: outs) = mkStep (p + 1) c out :: numbered (p + 1) outs.
Proof.
  unfold numbered. rewrite imap_cons. f_equal; [f_equal; lia|].
  apply imap_ext. intros i [] _. simpl. f_equal. lia.
Qed.

Lemma numbered_length p outs : length (numbered p outs) = length outs.
Proof. apply length_imap. Qed.

Lemma numbered_lookup p outs i :
  numbered p outs !! i = (fun '(c, out) => mkStep (p + 1 + Z.of_nat i)%Z c out) <$> outs !! i.
Proof. unfold numbered. by rewrite list_lookup_imap. Qed.

Lemma numbered_drop p outs k :
  drop k (numbered p outs) = numbered (p + Z.of_nat k) (drop k outs).
Proof.
  apply list_eq. intros i. rewrite lookup_drop, !numbered_lookup, lookup_drop.
  destruct (outs !! (k + i)) as [[]|]; simpl; [|done]. do 2 f_equal. lia.
Qed.

Lemma numbered_row p outs i s :
  numbered p outs !! i = Some s ->
  position_ s = (p + 1 + Z.of_nat i)%Z /\ outs !! i = Some (tool s, expected_output s).
Proof. rewrite numbered_lookup. destruct (outs !! i) as [[]|]; simpl; naive_solver. Qed.

Lemma derive_steps_spec rows p acc :
  (p + zlen rows <= u64_max)%Z ->
  derive_steps rows p acc = Ret (acc ++ numbered p (executed rows)).
Proof.
  revert p acc. induction rows as [|row rows IH]; intros p acc Hp.
  { simpl. by rewrite app_nil_r. }
  unfold zlen in *. rewrite length_cons in Hp.
  assert (Hskip : derive_steps rows p acc = Ret (acc ++ numbered p (executed rows))) by (apply IH; lia).
  simpl derive_steps. unfold executed. simpl omap. fold (executed rows).
  case_bool_decide; simpl; [|done].
  destruct (outcome_json row) as [out|]; simpl; [|done].
  rewrite add_or_panic_Ret by lia. simpl. rewrite IH by lia.
  by rewrite numbered_cons, <- app_assoc.
Qed.

(** The positions of a list of numbered steps against a cursor. *)
Lemma filter_numbered_all p k outs :
  (k <= p)%Z -> filter (fun s => (k < position_ s)%Z) (numbered p outs) = numbered p outs.
Proof.
  revert p. induction outs as [|[c out] outs IH]; intros p Hk; [done|].
  rewrite numbered_cons, filter_cons_True by (simpl; lia). f_equal. apply IH. lia.
Qed.

Lemma filter_numbered p k outs :
  filter (fun s => (p + Z.of_nat k < position_ s)%Z) (numbered p outs) = drop k (numbered p outs).
Proof.
  revert p k. induction outs as [|[c out] outs IH]; intros p k; [by destruct k|].
  rewrite numbered_cons. destruct k as [|k].
  - rewrite filter_cons_True by (simpl; lia). simpl. f_equal. apply filter_numbered_all. lia.
  - rewrite filter_cons_False by (simpl; lia). simpl drop. rewrite <- IH.
    apply list_filter_iff. intros s. lia.
Qed.

Lemma find_numbered p k outs :
  find (fun s => (position_ s =? p + 1 + Z.of_nat k)%Z) (numbered p outs) = numbered p outs !! k.
Proof.
  unfold find. revert p k. induction outs as [|[c out] outs IH]; intros p k; [done|].
  rewrite numbered_cons. simpl position. destruct k as [|k].
  - rewrite (proj2 (Z.eqb_eq _ _)) by (simpl; lia). done.
  - rewrite (proj2 (Z.eqb_neq _ _)) by (simpl; lia).
    specialize (IH (p + 1)%Z k). simpl lookup. rewrite <- IH.
    replace (p + 1 + 1 + Z.of_nat k)%Z with (p + 1 + Z.of_nat (S k))%Z by lia.
    clear IH. destruct (position _ _); done.
Qed.

Lemma find_numbered_below p z outs :
  (z <= p)%Z -> find (fun s => (position_ s =? z)%Z) (numbered p outs) = None.
Proof.
  unfold find. revert p. induction outs as [|[c out] outs IH]; intros p Hz; [done|].
  rewrite numbered_cons. simpl position. rewrite (proj2 (Z.eqb_neq _ _)) by (simpl; lia).
  specialize (IH (p + 1)%Z ltac:(lia)). by destruct (position _ _).
Qed.

(** What an accepted derivation built. *)
Lemma derive_ok {SE} task sel plan rows tv t :
  (zlen rows <= u64_max)%Z ->
  derive (SE := SE) task sel plan rows tv = Ret (Ok t) ->
  pr_selection_revision plan = sel /\ steps t = numbered 0 (executed rows) /\ steps t <> [] /\
  t_selection_revision t = sel /\ t_plan_revision t = revision plan /\ t_tool_version t = tv /\
  schema_version t = PROCEDURE_SCHEMA_VERSION.
Proof.
  intros Hlen. unfold derive. case_bool_decide as Hsel; simpl; [|done].
  rewrite derive_steps_spec by lia. simpl. case_decide; [done|]. intros [= <-]. done.
Qed.

(** A derivation returns, and its template is the plan's execution: it is
    refused exactly for a plan of another selection and for a plan none of whose
    rows ran; otherwise its steps are the satisfied rows that left an outcome, in
    plan order, at positions 1, 2, ...; and the one snapshot that prepares it is
    the selection, plan revision and tool version it was derived under. *)
Theorem derive_replays_the_plan {SE} task sel plan rows tv :
  (zlen rows <= u64_max)%Z ->
  match derive (SE := SE) task sel plan rows tv with
  | Ret (Ok t) =>
      pr_selection_revision plan = sel /\ executed rows <> [] /\
      map (fun s => (tool s, expected_output s)) (steps t) = executed rows /\
      map position_ (steps t) = map (fun i => Z.of_nat i) (seq 1 (length (steps t))) /\
      forall s, prepare (SE := SE) t s = Ok tt <->
        selection_revision s = sel /\ plan_revision s = revision plan /\ tool_version s = tv
  | Ret (Err e) =>
      (pr_selection_revision plan <> sel /\
        e = PlanSuperseded (pr_selection_revision plan) sel) \/
      (pr_selection_revision plan = sel /\ executed rows = [] /\ e = NoExecutedSteps task)
  | _ => False
  end.
Proof.
  intros Hlen. destruct (derive task sel plan rows tv) as [[t|e]| |] eqn:E.
  - destruct (derive_ok _ _ _ _ _ _ Hlen E) as (Hsel & Hst & Hne & H1 & H2 & H3 & H4).
    rewrite Hst in *. split_and!; [done| | | |].
    + intros He. by rewrite He in Hne.
    + apply list_eq. intros i. rewrite list_lookup_fmap.
      destruct (numbered 0 (executed rows) !! i) as [s|] eqn:Hs; simpl.
      * symmetry. by apply numbered_row in Hs as [_ ?].
      * symmetry. apply lookup_ge_None. apply lookup_ge_None in Hs. by rewrite numbered_length in Hs.
    + apply list_eq. intros i. rewrite !list_lookup_fmap, numbered_length, numbered_lookup.
      destruct (executed rows !! i) as [[c o]|] eqn:Hs; simpl.
      * rewrite lookup_seq_lt by (by apply lookup_lt_Some in Hs). simpl. f_equal. lia.
      * rewrite lookup_seq_ge; [done|]. by apply lookup_ge_None.
    + intros s. unfold prepare. rewrite H1, H2, H3, H4, Z.eqb_refl. simpl.
      destruct (bool_decide_reflect (tv = tool_version s)); simpl; [|naive_solver].
      destruct (Z.eqb_spec (selection_revision s) sel), (Z.eqb_spec (plan_revision s) (revision plan));
        simpl; naive_solver.
  - revert E. unfold derive. case_bool_decide as Hsel; simpl; [|intros [= <-]; by left].
    rewrite derive_steps_spec by lia. simpl. case_decide as Hn; [|done]. intros [= <-].
    right. split_and!; [done| |done]. destruct (executed rows) as [|[] ?]; [done|].
    by rewrite numbered_cons in Hn.
  - revert E. unfold derive. case_bool_decide; simpl; [|done].
    rewrite derive_steps_spec by lia. simpl. by case_decide.
  - revert E. unfold derive. case_bool_decide; simpl; [|done].
    rewrite derive_steps_spec by lia. simpl. by case_decide.
Qed.

(** A cursor splits a derived segment in two: with [k] steps settled the
    remainder is exactly the steps after the first [k] (nothing is run twice,
    nothing is skipped), the step at position [k + 1] is the first of them, and a
    position outside 1..n names no step. *)
Theorem cursor_names_the_remainder {SE} task sel plan rows tv t (k : nat) :
  (zlen rows <= u64_max)%Z ->
  derive (SE := SE) task sel plan rows tv = Ret (Ok t) ->
  remainder_after t (Z.of_nat k) = drop k (steps t) /\
  step t (Z.of_nat k + 1) = head (remainder_after t (Z.of_nat k)) /\
  (forall z, (z <= 0 \/ zlen (steps t) < z)%Z -> step t z = None).
Proof.
  intros Hlen E. destruct (derive_ok _ _ _ _ _ _ Hlen E) as (_ & Hst & _).
  assert (Hat : forall j, step t (Z.of_nat j + 1) = steps t !! j).
  { intros j. unfold step. rewrite Hst, <- find_numbered. f_equal.
    replace (0 + 1 + Z.of_nat j)%Z with (Z.of_nat j + 1)%Z by lia. done. }
  assert (Hrem : remainder_after t (Z.of_nat k) = drop k (steps t)).
  { unfold remainder_after. rewrite Hst. exact (filter_numbered 0 k _). }
  split_and!; [done| |].
  - by rewrite Hat, Hrem, head_lookup, lookup_drop, Nat.add_0_r.
  - intros z [Hz|Hz].
    + unfold step. rewrite Hst. by apply find_numbered_below.
    + replace z with (Z.of_nat (Z.to_nat (z - 1)) + 1)%Z by (unfold zlen in Hz; lia).
      rewrite Hat. apply lookup_ge_None. unfold zlen in Hz. lia.
Qed.

(** A concrete plan: two of its three rows ran. *)
Definition demo_row c e out := mkObligationRecord c Required e false None None out.
Definition demo_rows := [demo_row "frame_goal" Satisfied (Some "{}"); demo_row "plan_work" Pending None;
             demo_row "implement_change" Satisfied (Some "done")].
Definition demo_plan := mkPlanRevision 4 2 "{}" (Some Pass) None.
Definition demo_segment : SegmentTemplate :=
  {| procedure_id := procedure_id_for "t1" 4; version := 1; t_task_id := "t1";
     t_selection_revision := 2; t_plan_revision := 4; schema_version := 1; t_tool_version := "v1";
     stop_conditions := STOP_CONDITIONS;
     steps := [mkStep 1 "frame_goal" "{}"; mkStep 2 "implement_change" "done"] |}.

Lemma derive_replays_the_plan_witness :
  derive (SE := unit) "t1" 2 demo_plan demo_rows "v1" = Ret (Ok demo_segment) /\
  (forall s, prepare (SE := unit) demo_segment s = Ok tt <->
     selection_revision s = 2%Z /\ plan_revision s = 4%Z /\ tool_version s = "v1").
Proof.
  split; [by vm_compute|].
  assert (H : (zlen demo_rows <= u64_max)%Z) by (by vm_compute).
  exact (proj2 (proj2 (proj2 (proj2 (derive_replays_the_plan (SE := unit) "t1" 2 demo_plan demo_rows "v1" H))))).
Defined.

Lemma cursor_names_the_remainder_witness :
  remainder_after demo_segment 1 = [mkStep 2 "implement_change" "done"] /\
  step demo_segment 2 = head (remainder_after demo_segment 1) /\ step demo_segment 3 = None.
Proof.
  assert (H : (zlen demo_rows <= u64_max)%Z) by (by vm_compute).
  destruct (cursor_names_the_remainder (SE := unit) "t1" 2 demo_plan demo_rows "v1" demo_segment 1 H) as (H1 & H2 & H3);
    [by vm_compute|].
  split_and!; [exact H1 | exact H2 | apply H3; right; by vm_compute].
Defined.
