(* ===== verification/Requests.v ===== *)
(** What a request asks for ([src/src/actions.rs], [src/src/state.rs]): its kind,
    the surfaces it touches, and the capabilities the selection weighs.  The
    vocabularies are shared by the learned conditions and the plan. *)

From S2P Require Import Prelude.

Definition SELECTION_CAPABILITIES : list string :=
  ["frame_goal"; "challenge_direction"; "design_contracts"; "plan_work"; "assess_plan";
   "inspect_system"; "assess_security"; "audit_tests"; "implement_change"; "deliver_change";
   "review_change"; "diagnose_issue"; "assess_readiness"].

Definition weighed_capability (capability : string) : bool :=
  existsb (String.eqb capability) SELECTION_CAPABILITIES.

(** [state::RequestKind], with [as_str] and [from_db]. *)
Inductive RequestKind := Change | Deliver | PlanOnly | Audit | Diagnose.

#[export] Instance RequestKind_eq_dec : EqDecision RequestKind.
Proof. solve_decision. Defined.

Definition request_kind_as_str (k : RequestKind) : string :=
  match k with
  | Change => "change"
  | Deliver => "deliver"
  | PlanOnly => "plan_only"
  | Audit => "audit"
  | Diagnose => "diagnose"
  end.
Definition request_kind_from_db (raw : string) : option RequestKind :=
  if decide (raw = "change") then Some Change
  else if decide (raw = "deliver") then Some Deliver
  else if decide (raw = "plan_only") then Some PlanOnly
  else if decide (raw = "audit") then Some Audit
  else if decide (raw = "diagnose") then Some Diagnose
  else None.

#[export] Instance RequestKind_vocabulary : Vocabulary RequestKind.
Proof.
  apply (Build_Vocabulary _ request_kind_as_str request_kind_from_db);
    unfold request_kind_from_db; vocabulary.
Defined.

Inductive Surface :=
  | Local | Auth | PublicApi | Migration | Permissions | Secrets | Trust | UntrustedInput
  | Isolation | Dependencies | PrivateData.

#[export] Instance Surface_eq_dec : EqDecision Surface.
Proof. solve_decision. Defined.

#[export] Instance Surface_countable : Countable Surface.
Proof.
  apply (inj_countable' (fun s => match s with
    | Local => 0 | Auth => 1 | PublicApi => 2 | Migration => 3 | Permissions => 4 | Secrets => 5
    | Trust => 6 | UntrustedInput => 7 | Isolation => 8 | Dependencies => 9 | PrivateData => 10
    end) (fun n => match n with
    | 0 => Local | 1 => Auth | 2 => PublicApi | 3 => Migration | 4 => Permissions | 5 => Secrets
    | 6 => Trust | 7 => UntrustedInput | 8 => Isolation | 9 => Dependencies | _ => PrivateData
    end)).
  by intros [].
Defined.

Definition surface_as_str (s : Surface) : string :=
  match s with
  | Local => "local"
  | Auth => "auth"
  | PublicApi => "public_api"
  | Migration => "migration"
  | Permissions => "permissions"
  | Secrets => "secrets"
  | Trust => "trust"
  | UntrustedInput => "untrusted_input"
  | Isolation => "isolation"
  | Dependencies => "dependencies"
  | PrivateData => "private_data"
  end.

(** [Surface::parse] *)
Definition surface_parse (label : string) : option Surface :=
  if decide (label = "local") then Some Local
  else if decide (label = "auth") then Some Auth
  else if decide (label = "public_api") then Some PublicApi
  else if decide (label = "migration") then Some Migration
  else if decide (label = "permissions") then Some Permissions
  else if decide (label = "secrets") then Some Secrets
  else if decide (label = "trust") then Some Trust
  else if decide (label = "untrusted_input") then Some UntrustedInput
  else if decide (label = "isolation") then Some Isolation
  else if decide (label = "dependencies") then Some Dependencies
  else if decide (label = "private_data") then Some PrivateData
  else None.

#[export] Instance Surface_vocabulary : Vocabulary Surface.
Proof. apply (Build_Vocabulary _ surface_as_str surface_parse); unfold surface_parse; vocabulary. Defined.

Definition is_risk (s : Surface) : bool := negb (bool_decide (s = Local)).

(** [Surface::triggers_security] *)
Definition triggers_security (s : Surface) : bool :=
  match s with
  | Auth | Permissions | Secrets | Trust | UntrustedInput | Isolation | Dependencies
  | PrivateData => true
  | Local | PublicApi | Migration => false
  end.

(** A [BTreeSet<Surface>] is a [gset]; the scan could decide nothing. *)
Inductive SurfaceScan := Known (surfaces : gset Surface) | ScanUnknown.

(** [SurfaceScan::from_labels]; [seen] is what the loop collected. *)
Fixpoint from_labels_loop (labels : list string) (seen : gset Surface) : option (gset Surface) :=
  match labels with
  | [] => Some seen
  | label :: labels =>
      match surface_parse label with
      | Some s => from_labels_loop labels ({[ s ]} ∪ seen)
      | None => None
      end
  end.
Definition from_labels (labels : list string) : SurfaceScan :=
  match from_labels_loop labels ∅ with
  | None => ScanUnknown
  | Some seen => if decide (seen = ∅) then ScanUnknown else Known seen
  end.

(** [SurfaceScan::decided] *)
Definition decided (scan : SurfaceScan) : option (gset Surface) :=
  match scan with
  | Known surfaces => if decide (surfaces = ∅) then None else Some surfaces
  | ScanUnknown => None
  end.

Inductive ContractBasis := Absent | Approved.

#[export] Instance ContractBasis_eq_dec : EqDecision ContractBasis.
Proof. solve_decision. Defined.

(** A scan made from labels is decided exactly when there are labels and every
    one of them is in the vocabulary; it then holds the surfaces they name. *)
Lemma from_labels_loop_spec labels seen result :
  from_labels_loop labels seen = Some result <->
  exists named, mapM surface_parse labels = Some named /\ result = list_to_set named ∪ seen.
Proof.
  revert seen. induction labels as [|label labels IH]; intros seen; simpl.
  - split.
    + intros [= <-]. exists []. by rewrite list_to_set_nil, union_empty_l_L.
    + intros (named & [= <-] & ->). by rewrite list_to_set_nil, union_empty_l_L.
  - destruct (surface_parse label) as [s|]; simpl; [|naive_solver].
    assert (Hs : forall named : list Surface, list_to_set named ∪ ({[ s ]} ∪ seen) =
                               list_to_set (C := gset Surface) (s :: named) ∪ seen).
    { intros named. rewrite list_to_set_cons, (union_comm_L {[ s ]} (list_to_set named)).
      by rewrite union_assoc_L. }
    rewrite IH. split.
    + intros (named & Hn & ->). exists (s :: named). by rewrite Hn, Hs.
    + intros (named & Hn & ->). destruct (mapM surface_parse labels) as [rest|]; [|done].
      injection Hn as <-. exists rest. by rewrite <- Hs.
Qed.

(** [model::InputOrigin]: who authored the bytes a request carries. *)
Inductive InputOrigin := OriginHuman | OriginTool.

#[export] Instance InputOrigin_eq_dec : EqDecision InputOrigin.
Proof. solve_decision. Defined.
