(* ===== verification/Identity.v ===== *)
(** Semantic identity migration ([src/src/identity.rs]): the rule set a product
    base is released with, its validation, and the placement it gives every
    stored subject.  A [String] is the Rocq string of its UTF-8 bytes. *)

From Stdlib Require Import Ascii.
From S2P Require Import Prelude.
From S2P Require Import Contracts.
From S2P Require Import Text.
From S2P Require Import Requests.

(** * Identities *)

Definition PERSONAL_NAMESPACE : string := "personal".

Definition claims_personal_namespace (id : string) : bool :=
  let segments := split ":" id in
  (1 <? length segments) && existsb (fun s => eq_ignore_ascii_case s PERSONAL_NAMESPACE) segments.

Inductive IdentityKind := Action | Role.

#[export] Instance IdentityKind_eq_dec : EqDecision IdentityKind.
Proof. solve_decision. Defined.

Definition kind_as_str (k : IdentityKind) : string :=
  match k with Action => "action" | Role => "role" end.
Definition kind_parse (raw : string) : option IdentityKind :=
  if decide (raw = "action") then Some Action
  else if decide (raw = "role") then Some Role
  else None.

#[export] Instance IdentityKind_vocabulary : Vocabulary IdentityKind.
Proof. apply (Build_Vocabulary _ kind_as_str kind_parse); unfold kind_parse; vocabulary. Defined.

Inductive MigrationRule := Rename | Split | Merge.

#[export] Instance MigrationRule_eq_dec : EqDecision MigrationRule.
Proof. solve_decision. Defined.

Definition rule_as_str (r : MigrationRule) : string :=
  match r with Rename => "rename" | Split => "split" | Merge => "merge" end.
Definition rule_parse (raw : string) : option MigrationRule :=
  if decide (raw = "rename") then Some Rename
  else if decide (raw = "split") then Some Split
  else if decide (raw = "merge") then Some Merge
  else None.

#[export] Instance MigrationRule_vocabulary : Vocabulary MigrationRule.
Proof. apply (Build_Vocabulary _ rule_as_str rule_parse); unfold rule_parse; vocabulary. Defined.

Record IdentityMigration := mkMigration {
  m_base_version : Z;
  kind : IdentityKind;
  old_id : string;
  new_id : string;
  rule : MigrationRule;
  subject : option string;
}.

Inductive Placement := Rebound (id : string) | Unassigned.

Record IdentityRules := mkRules { base_version : Z; migrations : list IdentityMigration }.

(** [IdentityError]; [StoreError] is the store's error type. *)
Inductive IdentityError (StoreError : Type) :=
  | Store (error : StoreError)
  | UnknownBase (offered recorded : Z)
  | PersonalNamespace (id : string)
  | Ambiguous (kind : IdentityKind) (subject first second : string)
  | Malformed (old_id new_id detail : string)
  | UnknownTarget (old_id new_id : string) (kind : IdentityKind)
  | Conflicting (old_id new_id : string) (rule : MigrationRule)
  | ConflictingBindings (kind : IdentityKind) (subject first second : string)
  | CompositionExceeded (base_version size limit : Z).
Arguments Store {StoreError}.
Arguments UnknownBase {StoreError}.
Arguments PersonalNamespace {StoreError}.
Arguments Ambiguous {StoreError}.
Arguments Malformed {StoreError}.
Arguments UnknownTarget {StoreError}.
Arguments Conflicting {StoreError}.
Arguments ConflictingBindings {StoreError}.
Arguments CompositionExceeded {StoreError}.

(** [IdentityError::code], from the store error's own code. *)
Definition code {SE} (store_code : SE -> ErrorCode) (e : IdentityError SE) : ErrorCode :=
  match e with
  | Store error => store_code error
  | PersonalNamespace _ | Malformed _ _ _ | UnknownTarget _ _ _ => InvalidInput
  | UnknownBase _ _ | Ambiguous _ _ _ _ | Conflicting _ _ _ | ConflictingBindings _ _ _ _
  | CompositionExceeded _ _ _ => Conflict
  end.

(** [IdentityMigration::malformed] *)
Definition malformed {SE} (m : IdentityMigration) (detail : string) : IdentityError SE :=
  Malformed (old_id m) (new_id m) detail.

(** The loop of [validate] over the two ids. *)
Fixpoint check_namespace {SE} (ids : list string) : result unit (IdentityError SE) :=
  match ids with
  | [] => Ok tt
  | id :: ids => if claims_personal_namespace id then Err (PersonalNamespace id) else check_namespace ids
  end.

(** The rule's own shape: which rules name a subject, and which one. *)
Definition check_subject {SE} (m : IdentityMigration) : result unit (IdentityError SE) :=
  match rule m, subject m with
  | Split, Some subject =>
      if claims_personal_namespace subject then Err (PersonalNamespace subject)
      else if trim_is_empty subject then Err (malformed m "names an empty subject")
      else if negb (String.eqb subject (old_id m))
      then Err (malformed m "splits an id other than the subject it inherits")
      else Ok tt
  | Split, None => Err (malformed m "splits without naming the subject it inherits")
  | _, Some _ => Err (malformed m "names a subject without splitting")
  | _, None => Ok tt
  end.

(** [IdentityMigration::validate] *)
Definition validate {SE} (m : IdentityMigration) : result unit (IdentityError SE) :=
  let? _ := check_namespace [old_id m; new_id m] in
  if trim_is_empty (old_id m) || trim_is_empty (new_id m) then Err (malformed m "carries an empty id")
  else if String.eqb (old_id m) (new_id m)
  then Err (malformed m "names one id as both source and target")
  else
    let? _ := check_subject m in
    if bool_decide (kind m = Action) && negb (weighed_capability (new_id m))
    then Err (UnknownTarget (old_id m) (new_id m) (kind m))
    else Ok tt.

(** The subject one rule claims. *)
Definition claimed_subject (m : IdentityMigration) : string := default (old_id m) (subject m).

(** The loop of [IdentityRules::new], with the subjects claimed so far. *)
Fixpoint check_rules {SE} (base : Z) (claimed : list (IdentityKind * string * string))
    (ms : list IdentityMigration) : result unit (IdentityError SE) :=
  match ms with
  | [] => Ok tt
  | m :: ms =>
      if negb (m_base_version m =? base)%Z then Err (UnknownBase (m_base_version m) base)
      else
        let? _ := validate m in
        match find (fun '(k, s, _) => bool_decide (k = kind m /\ s = claimed_subject m)) claimed with
        | Some (_, _, first) =>
            if String.eqb first (new_id m) then check_rules base claimed ms
            else Err (Ambiguous (kind m) (claimed_subject m) first (new_id m))
        | None => check_rules base (claimed ++ [(kind m, claimed_subject m, new_id m)]) ms
        end
  end.

(** [IdentityRules::new] *)
Definition new {SE} (base : Z) (ms : list IdentityMigration) : result IdentityRules (IdentityError SE) :=
  let? _ := check_rules base [] ms in Ok (mkRules base ms).

(** [IdentityRules::place] *)
Definition place (r : IdentityRules) (k : IdentityKind) (subject : string) : Placement :=
  match find (fun m => bool_decide (kind m = k /\ old_id m = subject)) (migrations r) with
  | None => Unassigned
  | Some m => Rebound (new_id m)
  end.

Example personal_cases :
  map claims_personal_namespace ["personal:mine"; "Personal:Mine"; "role:personal:mine"; "personal";
                                 "personality:x"] = [true; true; true; false; false].
Proof. reflexivity. Qed.

(** * Properties

    What an accepted rule set promises: every rule takes effect, a subject has
    one target whatever the order of the rules, and neither end of a move lies
    in the user's namespace. *)

(** A validated rule: both ids outside the user's namespace, not empty, distinct,
    a subject exactly for a split and then the id being split, and an action
    target this build weighs. *)
Lemma check_subject_ok {SE} m :
  check_subject (SE := SE) m = Ok tt -> claimed_subject m = old_id m.
Proof.
  unfold check_subject, claimed_subject. destruct (rule m), (subject m) as [s|]; simpl; try done.
  destruct (claims_personal_namespace s); [done|]. destruct (trim_is_empty s); [done|].
  by destruct (String.eqb_spec s (old_id m)) as [->|].
Qed.

Lemma validate_ok {SE} m :
  validate (SE := SE) m = Ok tt ->
  claims_personal_namespace (old_id m) = false /\ claims_personal_namespace (new_id m) = false /\
  trim_is_empty (old_id m) = false /\ trim_is_empty (new_id m) = false /\ old_id m <> new_id m /\
  claimed_subject m = old_id m /\ (kind m = Action -> weighed_capability (new_id m) = true).
Proof.
  unfold validate. simpl.
  destruct (claims_personal_namespace (old_id m)); [done|].
  destruct (claims_personal_namespace (new_id m)); [done|]. simpl.
  destruct (trim_is_empty (old_id m)), (trim_is_empty (new_id m)); simpl; try done.
  destruct (String.eqb_spec (old_id m) (new_id m)) as [|Hne]; [done|].
  destruct (check_subject m) as [[]|] eqn:Hs; simpl; [|done].
  destruct (bool_decide_reflect (kind m = Action)) as [Hk|Hk]; simpl.
  - destruct (weighed_capability (new_id m)); [|done]. intros _.
    split_and!; try done. by eapply check_subject_ok.
  - intros _. split_and!; try done. by eapply check_subject_ok.
Qed.

(** A rule of the base that stands by itself. *)
Definition sound (SE : Type) (base : Z) (m : IdentityMigration) : Prop :=
  m_base_version m = base /\ validate (SE := SE) m = Ok tt.

(** Two rules of one subject name one target. *)
Definition agree (m m' : IdentityMigration) : Prop :=
  kind m = kind m' -> claimed_subject m = claimed_subject m' -> new_id m = new_id m'.

(** A claim already recorded agrees with a rule, and with the other claims. *)
Definition claim_agrees (c : IdentityKind * string * string) (m : IdentityMigration) : Prop :=
  c.1.1 = kind m -> c.1.2 = claimed_subject m -> c.2 = new_id m.

Definition consistent (claimed : list (IdentityKind * string * string)) : Prop :=
  forall c c', c ∈ claimed -> c' ∈ claimed -> c.1 = c'.1 -> c.2 = c'.2.

Lemma sound_subject SE base m : sound SE base m -> claimed_subject m = old_id m.
Proof. by intros [_ (_ & _ & _ & _ & _ & ? & _)%validate_ok]. Qed.

Lemma check_rules_step {SE} base claimed m ms :
  sound SE base m ->
  check_rules (SE := SE) base claimed (m :: ms) = Ok tt <->
  match find (fun '(k, s, _) => bool_decide (k = kind m /\ s = claimed_subject m)) claimed with
  | Some (_, _, first) => first = new_id m /\ check_rules (SE := SE) base claimed ms = Ok tt
  | None => check_rules (SE := SE) base (claimed ++ [(kind m, claimed_subject m, new_id m)]) ms = Ok tt
  end.
Proof.
  intros [Hb Hv]. simpl. rewrite Hb, Z.eqb_refl, Hv. simpl.
  destruct (find _ claimed) as [[[k s] first]|]; [|done].
  destruct (String.eqb_spec first (new_id m)); naive_solver.
Qed.

Lemma check_rules_sound {SE} base claimed ms :
  check_rules (SE := SE) base claimed ms = Ok tt -> Forall (sound SE base) ms.
Proof.
  revert claimed. induction ms as [|m ms IH]; intros claimed H; [by constructor|].
  assert (Hm : sound SE base m).
  { revert H. simpl. unfold sound. destruct (Z.eqb_spec (m_base_version m) base); simpl; [|done].
    by destruct (validate m) as [[]|]. }
  constructor; [done|]. apply (check_rules_step _ _ _ _ Hm) in H.
  destruct (find _ claimed) as [[[k s] first]|]; [by eapply IH, H | by eapply IH].
Qed.

(** The search of the loop over consistent claims. *)
Lemma claimed_target claimed m :
  consistent claimed ->
  match find (fun '(k, s, _) => bool_decide (k = kind m /\ s = claimed_subject m)) claimed with
  | Some (k, s, first) =>
      (k, s, first) ∈ claimed /\ k = kind m /\ s = claimed_subject m /\
      (first = new_id m <-> forall c, c ∈ claimed -> claim_agrees c m)
  | None => forall c, c ∈ claimed -> c.1 <> (kind m, claimed_subject m)
  end.
Proof.
  intros Hc. destruct (find _ claimed) as [[[k s] first]|] eqn:E.
  - apply find_Some in E as [Hin E]. apply bool_decide_eq_true in E as [-> ->].
    split_and!; [done..|]. split.
    + intros -> [[k s] t] Hc'; unfold claim_agrees; simpl; intros -> ->.
      exact (Hc _ _ Hc' Hin eq_refl).
    + intros H. by apply (H _ Hin).
  - apply find_None in E. rewrite Forall_forall in E. intros [[k s] t] Hin [= -> ->].
    specialize (E _ Hin). simpl in E. rewrite bool_decide_eq_false in E. tauto.
Qed.

(** The loop accepts exactly the sound rules that agree with the claims and
    with each other. *)
Lemma check_rules_spec {SE} base claimed ms :
  Forall (sound SE base) ms -> consistent claimed ->
  check_rules (SE := SE) base claimed ms = Ok tt <->
  (forall c m, c ∈ claimed -> m ∈ ms -> claim_agrees c m) /\
  (forall m m', m ∈ ms -> m' ∈ ms -> agree m m').
Proof.
  intros Hs. revert claimed. induction Hs as [|m ms Hm Hs IH]; intros claimed Hc.
  { split; [intros _|done]. split; intros ? ? H; [intros H'; by apply elem_of_nil in H'|].
    by apply elem_of_nil in H. }
  rewrite (check_rules_step _ _ _ _ Hm). pose proof (claimed_target _ m Hc) as Ht.
  destruct (find _ claimed) as [[[k s] first]|].
  - destruct Ht as (Hin & -> & -> & Hfirst). rewrite Hfirst, (IH _ Hc). split.
    + intros (H1 & H2 & H3).
      assert (Hm' : forall m', m' ∈ ms -> agree m m').
      { intros m' Hin' Hk Hsub. pose proof (proj2 Hfirst H1) as Hf. rewrite <- Hf.
        apply (H2 _ _ Hin Hin'); done. }
      split; [intros c m' Hc' [->|H]%elem_of_cons; eauto|].
      intros m1 m2 [->|Hin1]%elem_of_cons [->|Hin2]%elem_of_cons; [done|by apply Hm'| |by apply H3].
      intros Hk Hsub. symmetry. by apply Hm'.
    + intros [H1 H2]. split_and!; [|intros c m' Hc' Hin'..].
      * intros c Hc'. apply H1; [done|]. by left.
      * apply H1; [done|]. by right.
      * apply H2; by right.
  - assert (Hc' : consistent (claimed ++ [(kind m, claimed_subject m, new_id m)])).
    { intros c c' [H|H]%elem_of_app [H'|H']%elem_of_app Hk; try apply list_elem_of_singleton in H;
        try apply list_elem_of_singleton in H'; subst; try done; [by apply Hc| |].
      - by destruct (Ht _ H).
      - by destruct (Ht _ H'). }
    rewrite (IH _ Hc'). split.
    + intros [H1 H2].
      assert (Hm' : forall m', m' ∈ ms -> agree m m').
      { intros m' Hin' Hk Hsub.
        apply (H1 (kind m, claimed_subject m, new_id m) m'); [|done|done|done].
        apply elem_of_app. right. by apply list_elem_of_singleton. }
      split.
      * intros c m' Hin [->|H]%elem_of_cons.
        -- intros Hk Hsub. destruct (Ht c Hin). destruct c as [[] ?]; simpl in *. congruence.
        -- apply H1; [|done]. apply elem_of_app. by left.
      * intros m1 m2 [->|Hin1]%elem_of_cons [->|Hin2]%elem_of_cons; [done|by apply Hm'| |by apply H2].
        intros Hk Hsub. symmetry. by apply Hm'.
    + intros [H1 H2]. split.
      * intros c m' [H|H]%elem_of_app Hin; [apply H1; [done|by right]|].
        apply list_elem_of_singleton in H as ->. intros Hk Hsub. apply H2; [by left|by right|done|done].
      * intros m1 m2 ? ?. apply H2; by right.
Qed.

(** Acceptance does not depend on the order of the rules. *)
Lemma new_spec {SE} base ms r :
  new (SE := SE) base ms = Ok r <->
  r = mkRules base ms /\ Forall (sound SE base) ms /\ (forall m m', m ∈ ms -> m' ∈ ms -> agree m m').
Proof.
  assert (Hnil : consistent []) by (intros ? ? H; by apply elem_of_nil in H).
  unfold new. split.
  - destruct (check_rules base [] ms) as [[]|] eqn:E; simpl; [|done]. intros [= <-].
    pose proof (check_rules_sound _ _ _ E) as Hs.
    by apply (check_rules_spec _ _ _ Hs Hnil) in E as [_ ?].
  - intros (-> & Hs & Hag). rewrite (proj2 (check_rules_spec base [] ms Hs Hnil)); [done|].
    split; [|done]. intros ? ? H. by apply elem_of_nil in H.
Qed.

(** The placement of an accepted set. *)
Lemma place_rule {SE} base ms r m k s :
  new (SE := SE) base ms = Ok r -> m ∈ ms -> kind m = k -> old_id m = s -> place r k s = Rebound (new_id m).
Proof.
  intros (-> & Hs & Hag)%new_spec Hm <- <-. rewrite Forall_forall in Hs.
  unfold place. simpl. destruct (find _ ms) as [m'|] eqn:E.
  - apply find_Some in E as [Hm' E]. apply bool_decide_eq_true in E as [Hk Ho]. f_equal.
    apply (Hag m' m); [done..|]. by rewrite (sound_subject _ _ _ (Hs m Hm)), (sound_subject _ _ _ (Hs m' Hm')).
  - apply find_None in E. rewrite Forall_forall in E. specialize (E m Hm). simpl in E.
    rewrite bool_decide_eq_false in E. tauto.
Qed.

Lemma place_cases r k s :
  (exists m, m ∈ migrations r /\ kind m = k /\ old_id m = s /\ place r k s = Rebound (new_id m)) \/
  ((forall m, m ∈ migrations r -> kind m = k -> old_id m <> s) /\ place r k s = Unassigned).
Proof.
  unfold place. destruct (find _ (migrations r)) as [m|] eqn:E.
  - left. apply find_Some in E as [Hm E]. apply bool_decide_eq_true in E as [? ?]. eauto.
  - right. split; [|done]. apply find_None in E. rewrite Forall_forall in E. intros m Hm Hk Ho.
    specialize (E m Hm). simpl in E. rewrite bool_decide_eq_false in E. tauto.
Qed.

(** An accepted rule set is applied as written.  Every rule takes effect: a
    binding of its kind and source id is placed on its target; a subject no rule
    names is left where it was recorded.  A move never starts or ends in the
    user's [personal:] namespace, always changes the id, and an action lands on a
    capability this build weighs.  The order the rules are recorded in decides
    neither acceptance nor any placement. *)
Theorem accepted_rules_place_each_subject_once {SE} base ms r :
  new (SE := SE) base ms = Ok r ->
  (forall m, m ∈ ms -> place r (kind m) (old_id m) = Rebound (new_id m)) /\
  (forall k s, place r k s = Unassigned <-> forall m, m ∈ ms -> kind m = k -> old_id m <> s) /\
  (forall k s t, place r k s = Rebound t ->
     claims_personal_namespace s = false /\ claims_personal_namespace t = false /\ s <> t /\
     (k = Action -> weighed_capability t = true)) /\
  (forall ms', ms' ≡ₚ ms ->
     exists r', new (SE := SE) base ms' = Ok r' /\ forall k s, place r' k s = place r k s).
Proof.
  intros Hr. pose proof (proj1 (new_spec _ _ _) Hr) as (-> & Hs & Hag). split_and!.
  - intros m Hm. by apply (place_rule (SE := SE) base ms).
  - intros k s. destruct (place_cases (mkRules base ms) k s) as [(m & Hm & Hk & Ho & ->)|[Hn ->]]; [|done].
    split; [done|]. intros Hn. by destruct (Hn m Hm Hk).
  - intros k s t. destruct (place_cases (mkRules base ms) k s) as [(m & Hm & <- & <- & ->)|[Hn ->]]; [|done].
    intros [= <-]. rewrite Forall_forall in Hs.
    by destruct (Hs m Hm) as [_ (? & ? & _ & _ & ? & _ & ?)%validate_ok].
  - intros ms' Hp. exists (mkRules base ms').
    assert (Hr' : new (SE := SE) base ms' = Ok (mkRules base ms')).
    { apply new_spec. split_and!; [done|by rewrite Hp|]. intros m m'. rewrite Hp. apply Hag. }
    split; [done|]. intros k s.
    destruct (place_cases (mkRules base ms) k s) as [(m & Hm & Hk & Ho & ->)|[Hn ->]].
    + apply (place_rule (SE := SE) base ms'); [done|by rewrite Hp|done|done].
    + destruct (place_cases (mkRules base ms') k s) as [(m & Hm & Hk & Ho & _)|[_ ->]]; [|done].
      simpl in Hm, Hn. rewrite Hp in Hm. by destruct (Hn m Hm Hk).
Qed.

(** A release that renames an action, splits one off a second, and replays the
    first rule. *)
Definition demo_rules : list IdentityMigration :=
  [mkMigration 3 Action "plan" "plan_work" Rename None;
   mkMigration 3 Action "review" "review_change" Split (Some "review");
   mkMigration 3 Role "fast" "quick" Merge None;
   mkMigration 3 Action "plan" "plan_work" Rename None].

Lemma accepted_rules_place_each_subject_once_witness :
  is_ok (new (SE := unit) 3 demo_rules) = true /\
  place (mkRules 3 demo_rules) Action "plan" = Rebound "plan_work" /\
  place (mkRules 3 demo_rules) Role "plan" = Unassigned /\
  (forall ms', ms' ≡ₚ demo_rules ->
     exists r', new (SE := unit) 3 ms' = Ok r' /\
       forall k s, place r' k s = place (mkRules 3 demo_rules) k s).
Proof.
  assert (H : new (SE := unit) 3 demo_rules = Ok (mkRules 3 demo_rules)) by (by vm_compute).
  destruct (accepted_rules_place_each_subject_once (SE := unit) 3 demo_rules _ H) as (_ & _ & _ & H4).
  split_and!; [by vm_compute|by vm_compute|by vm_compute|exact H4].
Defined.
