(* ===== verification/Learning.v ===== *)
(** Learned definitions ([src/src/learning.rs]): the change one delta makes, the
    facts its condition reads, the definition the active deltas compose, the
    corpus verdict that gates activation, and the routing feedback rows.  Byte
    counts are [Z]: a [usize] sum of the lengths of strings in memory does not
    wrap. *)

From stdpp Require Import pretty.
From S2P Require Import Prelude.
From S2P Require Import Contracts.
From S2P Require Import Text.
From S2P Require Import Requests.

Definition DELTA_INSTRUCTION_MAX_BYTES : Z := 2 * 1024.
Definition DEFINITION_MAX_BYTES : Z := 3 * 1024.
Definition CORPUS_CASE_LIMIT : nat := 3.
Definition CREDENTIAL_REFERENCE : string := "keyring:".

(** * Vocabularies *)

Inductive DeltaScope := InstructionScope | ApplicabilityScope.

Definition scope_as_str (s : DeltaScope) : string :=
  match s with InstructionScope => "instruction" | ApplicabilityScope => "applicability" end.
Definition scope_parse (raw : string) : option DeltaScope :=
  if decide (raw = "instruction") then Some InstructionScope
  else if decide (raw = "applicability") then Some ApplicabilityScope
  else None.

#[export] Instance DeltaScope_vocabulary : Vocabulary DeltaScope.
Proof. apply (Build_Vocabulary _ scope_as_str scope_parse); unfold scope_parse; vocabulary. Defined.

Inductive DeltaState := Inactive | Active | RolledBack.

#[export] Instance DeltaState_eq_dec : EqDecision DeltaState.
Proof. solve_decision. Defined.

Definition state_as_str (s : DeltaState) : string :=
  match s with Inactive => "inactive" | Active => "active" | RolledBack => "rolled_back" end.
Definition state_parse (raw : string) : option DeltaState :=
  if decide (raw = "inactive") then Some Inactive
  else if decide (raw = "active") then Some Active
  else if decide (raw = "rolled_back") then Some RolledBack
  else None.

#[export] Instance DeltaState_vocabulary : Vocabulary DeltaState.
Proof. apply (Build_Vocabulary _ state_as_str state_parse); unfold state_parse; vocabulary. Defined.

Inductive PredicateEffect := Require_ | Decline.

#[export] Instance PredicateEffect_eq_dec : EqDecision PredicateEffect.
Proof. solve_decision. Defined.

Definition effect_as_str (e : PredicateEffect) : string :=
  match e with Require_ => "require" | Decline => "decline" end.
Definition effect_parse (raw : string) : option PredicateEffect :=
  if decide (raw = "require") then Some Require_
  else if decide (raw = "decline") then Some Decline
  else None.

#[export] Instance PredicateEffect_vocabulary : Vocabulary PredicateEffect.
Proof. apply (Build_Vocabulary _ effect_as_str effect_parse); unfold effect_parse; vocabulary. Defined.

Inductive CorpusCaseKind := TransferKind | CompositionKind | NegativeControlKind.

#[export] Instance CorpusCaseKind_eq_dec : EqDecision CorpusCaseKind.
Proof. solve_decision. Defined.

Definition case_kind_as_str (k : CorpusCaseKind) : string :=
  match k with
  | TransferKind => "transfer"
  | CompositionKind => "composition"
  | NegativeControlKind => "negative_control"
  end.
Definition case_kind_parse (raw : string) : option CorpusCaseKind :=
  if decide (raw = "transfer") then Some TransferKind
  else if decide (raw = "composition") then Some CompositionKind
  else if decide (raw = "negative_control") then Some NegativeControlKind
  else None.

#[export] Instance CorpusCaseKind_vocabulary : Vocabulary CorpusCaseKind.
Proof.
  apply (Build_Vocabulary _ case_kind_as_str case_kind_parse); unfold case_kind_parse; vocabulary.
Defined.

(** * Conditions *)

Inductive ConditionFact :=
  | Purpose (purpose : string)
  | Kind (kind : RequestKind)
  | OnSurface (surface : Surface).

#[export] Instance ConditionFact_eq_dec : EqDecision ConditionFact.
Proof. solve_decision. Defined.

Definition fact_as_str (f : ConditionFact) : string :=
  match f with Purpose _ => "purpose" | Kind _ => "kind" | OnSurface _ => "surface" end.

Record ConditionFacts := mkFacts {
  f_purpose : option string;
  f_kind : option RequestKind;
  f_surfaces : option (gset Surface);
}.

Definition for_purpose (purpose : string) : ConditionFacts := mkFacts (Some purpose) None None.
Definition for_selection (kind : RequestKind) (surfaces : option (gset Surface)) : ConditionFacts :=
  mkFacts None (Some kind) surfaces.

(** [ConditionFact::holds] *)
Definition holds (f : ConditionFact) (facts : ConditionFacts) : bool :=
  match f with
  | Purpose purpose => bool_decide (f_purpose facts = Some purpose)
  | Kind kind => bool_decide (f_kind facts = Some kind)
  | OnSurface surface =>
      match f_surfaces facts with
      | Some decided => bool_decide (surface ∈ decided)
      | None => false
      end
  end.

(** * Changes *)

Inductive DeltaPayload :=
  | Instruction (text : string)
  | Applicability (capability : string) (effect : PredicateEffect).

#[export] Instance DeltaPayload_eq_dec : EqDecision DeltaPayload.
Proof. solve_decision. Defined.

Definition payload_scope (p : DeltaPayload) : DeltaScope :=
  match p with Instruction _ => InstructionScope | Applicability _ _ => ApplicabilityScope end.

Record DeltaChange := mkChange { payload : DeltaPayload; when : option ConditionFact }.

#[export] Instance DeltaChange_eq_dec : EqDecision DeltaChange.
Proof. solve_decision. Defined.

Definition instruction (c : DeltaChange) : option string :=
  match payload c with Instruction text => Some text | Applicability _ _ => None end.

(** [DeltaChange::scope] *)
Definition scope (c : DeltaChange) : DeltaScope := payload_scope (payload c).

(** [DeltaChange::applies] *)
Definition applies (c : DeltaChange) (facts : ConditionFacts) : bool :=
  match when c with None => true | Some condition => holds condition facts end.

Definition carries_credential_reference (text : string) : bool :=
  contains CREDENTIAL_REFERENCE (lowercase text).

Inductive DeltaError :=
  | CredentialReference (delta_id : string)
  | EmptyBody (delta_id : string)
  | EmptyPurpose (delta_id : string)
  | TooLarge (delta_id : string) (size limit : Z)
  | UnknownCapability (delta_id capability : string)
  | OutOfScope (delta_id : string) (scope : DeltaScope) (fact : string)
  | Unconditional (delta_id : string)
  | AlreadyRecorded (delta_id : string)
  | MissingEvidence (delta_id : string)
  | DuplicateCase (delta_id kind : string)
  | TooManyCases (delta_id : string) (count limit : nat)
  | SelfControl (delta_id : string)
  | UnknownControl (delta_id control : string)
  | ActivationRefused (delta_id : string) (state : DeltaState) (version expected : Z)
  | RollbackRefused (delta_id : string) (state : DeltaState) (version expected : Z)
  | CorpusMissing (delta_id kind : string) (version : Z)
  | CorpusRejected (delta_id kind expected observed : string)
  | CompositionExceeded (delta_id : string) (size limit : Z)
  | FeedbackEmptyAttempt
  | FeedbackEmptyField (attempt_id field : string)
  | FeedbackCredentialReference (attempt_id : string)
  | FeedbackObservationMismatch (attempt_id observed verdict : string)
  | FeedbackRepairAttribution (attempt_id : string)
  | FeedbackUnobservedOutcome (attempt_id outcome : string)
  | FeedbackMissing (attempt_id : string)
  | FeedbackAlreadyRecorded (attempt_id : string).

(** [DeltaError::code] *)
Definition delta_error_code (e : DeltaError) : ErrorCode :=
  match e with
  | CredentialReference _ | EmptyBody _ | EmptyPurpose _ | TooLarge _ _ _ | UnknownCapability _ _
  | OutOfScope _ _ _ | Unconditional _ | MissingEvidence _ | DuplicateCase _ _ | TooManyCases _ _ _
  | SelfControl _ | UnknownControl _ _ | FeedbackEmptyAttempt | FeedbackEmptyField _ _
  | FeedbackCredentialReference _ | FeedbackObservationMismatch _ _ _
  | FeedbackRepairAttribution _ | FeedbackUnobservedOutcome _ _ => InvalidInput
  | FeedbackMissing _ => NotFound
  | AlreadyRecorded _ | ActivationRefused _ _ _ _ | RollbackRefused _ _ _ _ | CorpusMissing _ _ _
  | CorpusRejected _ _ _ _ | CompositionExceeded _ _ _ | FeedbackAlreadyRecorded _ => Conflict
  end.

(** [DeltaChange::validate] *)
Definition validate (delta_id : string) (c : DeltaChange) : result unit DeltaError :=
  match payload c with
  | Instruction text =>
      if trim_is_empty text then Err (EmptyBody delta_id)
      else if decide (DELTA_INSTRUCTION_MAX_BYTES < slen text)%Z
      then Err (TooLarge delta_id (slen text) DELTA_INSTRUCTION_MAX_BYTES)
      else if carries_credential_reference text then Err (CredentialReference delta_id)
      else
        match when c with
        | None => Ok tt
        | Some (Purpose purpose) =>
            if negb (trim_is_empty purpose) then Ok tt else Err (EmptyPurpose delta_id)
        | Some fact => Err (OutOfScope delta_id InstructionScope (fact_as_str fact))
        end
  | Applicability capability _ =>
      if negb (weighed_capability capability) then Err (UnknownCapability delta_id capability)
      else
        match when c with
        | Some (Kind _ | OnSurface _) => Ok tt
        | Some fact => Err (OutOfScope delta_id ApplicabilityScope (fact_as_str fact))
        | None => Err (Unconditional delta_id)
        end
  end.

Record LearningDelta := mkDelta { delta_id : string; version : Z; change : DeltaChange }.

(** [LearningDelta::appended_bytes] *)
Definition appended_bytes (d : LearningDelta) : option Z :=
  (fun text => (slen text + 1)%Z) <$> instruction (change d).

Definition LearningDefinition := list LearningDelta.

(** [LearningDefinition::composed_with] *)
Definition composed_with (def : LearningDefinition) (d : LearningDelta) : LearningDefinition :=
  def ++ [d].

Definition newline : string := String (Ascii.ascii_of_nat 10) EmptyString.

(** The loop of [instruction_part]. *)
Fixpoint append_parts (facts : ConditionFacts) (def : LearningDefinition) (part : string) : string :=
  match def with
  | [] => part
  | d :: def =>
      match instruction (change d) with
      | None => append_parts facts def part
      | Some text =>
          if negb (applies (change d) facts) then append_parts facts def part
          else append_parts facts def (part +:+ newline +:+ text)
      end
  end.

(** [LearningDefinition::instruction_part] *)
Definition instruction_part (def : LearningDefinition) (purpose base : string) : string :=
  append_parts (for_purpose purpose) def base.

(** The loop of [max_instruction_bytes]: the bytes each named purpose adds, and
    the bytes every purpose carries. *)
Fixpoint weigh (def : LearningDefinition) (heaviest : gmap string Z) (unconditional : Z)
    : gmap string Z * Z :=
  match def with
  | [] => (heaviest, unconditional)
  | d :: def =>
      match appended_bytes d with
      | None => weigh def heaviest unconditional
      | Some appended =>
          match when (change d) with
          | Some (Purpose purpose) =>
              weigh def (<[purpose := (default 0 (heaviest !! purpose) + appended)%Z]> heaviest)
                unconditional
          | Some _ => weigh def heaviest unconditional
          | None => weigh def heaviest (unconditional + appended)
          end
      end
  end.

(** [LearningDefinition::max_instruction_bytes]; a [usize] maximum over no
    values is [0], the least [usize]. *)
Definition max_instruction_bytes (def : LearningDefinition) (base : string) : Z :=
  let '(heaviest, unconditional) := weigh def ∅ 0 in
  (slen base + unconditional + map_fold (fun _ => Z.max) 0 heaviest)%Z.

(** The loop of [applicability], with the effect decided so far. *)
Fixpoint last_effect (capability : string) (facts : ConditionFacts) (def : LearningDefinition)
    (effect : option PredicateEffect) : option PredicateEffect :=
  match def with
  | [] => effect
  | d :: def =>
      match payload (change d) with
      | Instruction _ => last_effect capability facts def effect
      | Applicability named decided =>
          if negb (String.eqb named capability) || negb (applies (change d) facts)
          then last_effect capability facts def effect
          else last_effect capability facts def (Some decided)
      end
  end.

(** [LearningDefinition::applicability] *)
Definition applicability (def : LearningDefinition) (capability : string) (facts : ConditionFacts)
    : option PredicateEffect :=
  last_effect capability facts def None.

(** * The corpus *)

Inductive CorpusCase :=
  | Transfer (facts : ConditionFacts)
  | Composition (facts : ConditionFacts)
  | NegativeControl (facts : ConditionFacts) (control : string).

Definition case_kind (c : CorpusCase) : CorpusCaseKind :=
  match c with
  | Transfer _ => TransferKind
  | Composition _ => CompositionKind
  | NegativeControl _ _ => NegativeControlKind
  end.

Record DeltaCandidate := mkCandidate {
  c_delta_id : string;
  c_base_version : Z;
  c_change : DeltaChange;
  c_evidence : string;
}.

(** [DeltaCandidate::validate] *)
Definition candidate_validate (c : DeltaCandidate) : result unit DeltaError :=
  let? _ := validate (c_delta_id c) (c_change c) in
  if trim_is_empty (c_evidence c) then Err (MissingEvidence (c_delta_id c))
  else if carries_credential_reference (c_evidence c) then Err (CredentialReference (c_delta_id c))
  else Ok tt.

Record CorpusVerdict := mkVerdict {
  v_delta_id : string;
  v_delta_version : Z;
  v_kind : CorpusCaseKind;
  v_expected : string;
  v_observed : string;
  v_passed : bool;
}.

Record CorpusCandidate := mkCorpusCandidate {
  cc_delta_id : string;
  cc_version : Z;
  cc_change : DeltaChange;
}.

Definition applies_words (b : bool) : string := if b then "applies" else "does not apply".

(** The match of [corpus_verdict]: expected, observed, passed. *)
Definition judge_case (candidate : CorpusCandidate) (active : LearningDefinition)
    (control_delta : option LearningDelta) (case : CorpusCase) (base : string)
    : string * string * bool :=
  let id := cc_delta_id candidate in
  match case with
  | Transfer facts =>
      let applies := applies (cc_change candidate) facts in
      ("delta " +:+ id +:+ " applies to the case facts",
       "delta " +:+ id +:+ " " +:+ applies_words applies, applies)
  | Composition facts =>
      let composed := composed_with active (mkDelta id (cc_version candidate) (cc_change candidate)) in
      let size := max_instruction_bytes composed base in
      let within := bool_decide (size <= DEFINITION_MAX_BYTES)%Z in
      match payload (cc_change candidate) with
      | Instruction _ =>
          ("the composed instruction part stays within " +:+ pretty DEFINITION_MAX_BYTES +:+ " bytes",
           "the heaviest composed instruction part is " +:+ pretty size +:+ " bytes", within)
      | Applicability capability effect =>
          let decided := applicability composed capability facts in
          ("the composed definition decides " +:+ capability +:+ " as " +:+ effect_as_str effect +:+
             " within " +:+ pretty DEFINITION_MAX_BYTES +:+ " bytes",
           "the composed definition decides " +:+ capability +:+ " as " +:+
             match decided with None => "nothing" | Some e => effect_as_str e end +:+ " in " +:+
             pretty size +:+ " bytes",
           bool_decide (decided = Some effect) && within)
      end
  | NegativeControl facts control =>
      let control_applies :=
        match control_delta with Some d => applies (change d) facts | None => false end in
      let candidate_applies := applies (cc_change candidate) facts in
      ("delta " +:+ control +:+ " applies and delta " +:+ id +:+ " does not",
       "delta " +:+ control +:+ " " +:+ applies_words control_applies +:+ ", delta " +:+ id +:+ " " +:+
         applies_words candidate_applies,
       control_applies && negb candidate_applies)
  end.

(** [corpus_verdict] *)
Definition corpus_verdict (candidate : CorpusCandidate) (active : LearningDefinition)
    (control_delta : option LearningDelta) (case : CorpusCase) (base : string) : CorpusVerdict :=
  let '(expected, observed, passed) := judge_case candidate active control_delta case base in
  mkVerdict (cc_delta_id candidate) (cc_version candidate) (case_kind case) expected observed passed.

Record DeltaRecord := mkRecord {
  r_delta_id : string;
  r_base_version : Z;
  r_change : DeltaChange;
  r_evidence : string;
  r_state : DeltaState;
  r_version : Z;
}.

(** * Routing feedback *)

Inductive FeedbackCause := CauseNone | CauseSdk | CauseDocs | CauseSetup | CauseRepair.

#[export] Instance FeedbackCause_eq_dec : EqDecision FeedbackCause.
Proof. solve_decision. Defined.

Definition cause_as_str (c : FeedbackCause) : string :=
  match c with
  | CauseNone => "none"
  | CauseSdk => "sdk"
  | CauseDocs => "docs"
  | CauseSetup => "setup"
  | CauseRepair => "repair"
  end.
Definition cause_parse (raw : string) : option FeedbackCause :=
  if decide (raw = "none") then Some CauseNone
  else if decide (raw = "sdk") then Some CauseSdk
  else if decide (raw = "docs") then Some CauseDocs
  else if decide (raw = "setup") then Some CauseSetup
  else if decide (raw = "repair") then Some CauseRepair
  else None.

#[export] Instance FeedbackCause_vocabulary : Vocabulary FeedbackCause.
Proof. apply (Build_Vocabulary _ cause_as_str cause_parse); unfold cause_parse; vocabulary. Defined.

Inductive FeedbackOutcome := OutcomePass | OutcomeFail | OutcomeUnknown_.

#[export] Instance FeedbackOutcome_eq_dec : EqDecision FeedbackOutcome.
Proof. solve_decision. Defined.

Definition outcome_as_str (o : FeedbackOutcome) : string :=
  match o with OutcomePass => "pass" | OutcomeFail => "fail" | OutcomeUnknown_ => "unknown" end.
Definition outcome_parse (raw : string) : option FeedbackOutcome :=
  if decide (raw = "pass") then Some OutcomePass
  else if decide (raw = "fail") then Some OutcomeFail
  else if decide (raw = "unknown") then Some OutcomeUnknown_
  else None.

#[export] Instance FeedbackOutcome_vocabulary : Vocabulary FeedbackOutcome.
Proof. apply (Build_Vocabulary _ outcome_as_str outcome_parse); unfold outcome_parse; vocabulary. Defined.

Inductive FeedbackVerdict := VerdictPass | VerdictFail | Unobserved.

#[export] Instance FeedbackVerdict_eq_dec : EqDecision FeedbackVerdict.
Proof. solve_decision. Defined.

Definition verdict_as_str (v : FeedbackVerdict) : string :=
  match v with VerdictPass => "pass" | VerdictFail => "fail" | Unobserved => "unobserved" end.
Definition verdict_parse (raw : string) : option FeedbackVerdict :=
  if decide (raw = "pass") then Some VerdictPass
  else if decide (raw = "fail") then Some VerdictFail
  else if decide (raw = "unobserved") then Some Unobserved
  else None.

#[export] Instance FeedbackVerdict_vocabulary : Vocabulary FeedbackVerdict.
Proof. apply (Build_Vocabulary _ verdict_as_str verdict_parse); unfold verdict_parse; vocabulary. Defined.

Inductive FeedbackReward := RewardNone | RewardRepair.

#[export] Instance FeedbackReward_eq_dec : EqDecision FeedbackReward.
Proof. solve_decision. Defined.

Definition reward_as_str (r : FeedbackReward) : string :=
  match r with RewardNone => "none" | RewardRepair => "repair" end.
Definition reward_parse (raw : string) : option FeedbackReward :=
  if decide (raw = "none") then Some RewardNone
  else if decide (raw = "repair") then Some RewardRepair
  else None.

#[export] Instance FeedbackReward_vocabulary : Vocabulary FeedbackReward.
Proof. apply (Build_Vocabulary _ reward_as_str reward_parse); unfold reward_parse; vocabulary. Defined.

Record VersionEvidence := mkVersionEvidence {
  ve_build : string;
  ve_policy_generation : option string;
  ve_base_version : option Z;
  ve_model : option string;
  ve_connection : option string;
}.

(** [VersionEvidence::validate]; the fields are flattened, so an absent one is
    skipped. *)
Definition evidence_validate (attempt_id : string) (e : VersionEvidence) : result unit DeltaError :=
  if trim_is_empty (ve_build e) then Err (FeedbackEmptyField attempt_id "version evidence build")
  else if existsb carries_credential_reference
            (omap id [Some (ve_build e); ve_policy_generation e; ve_model e; ve_connection e])
  then Err (FeedbackCredentialReference attempt_id)
  else Ok tt.

Record FeedbackRecord := mkFeedback {
  fb_attempt_id : string;
  fb_parent_attempt_id : option string;
  fb_purpose : string;
  fb_connection : string;
  fb_model_id : option string;
  fb_outcome : FeedbackOutcome;
  fb_cause : FeedbackCause;
  fb_version_evidence : VersionEvidence;
  fb_repair_of : option string;
  fb_verdict : FeedbackVerdict;
  fb_reward : FeedbackReward;
  fb_observed : bool;
}.

(** The loop of [FeedbackRecord::validate] over the two named fields. *)
Fixpoint check_fields (attempt_id : string) (fields : list (string * string)) : result unit DeltaError :=
  match fields with
  | [] => Ok tt
  | (field, value) :: fields =>
      if trim_is_empty value then Err (FeedbackEmptyField attempt_id field)
      else check_fields attempt_id fields
  end.

(** [FeedbackRecord::validate] *)
Definition feedback_validate (r : FeedbackRecord) : result unit DeltaError :=
  if trim_is_empty (fb_attempt_id r) then Err FeedbackEmptyAttempt
  else
    let? _ := check_fields (fb_attempt_id r)
                [("purpose", fb_purpose r); ("connection", fb_connection r)] in
    let? _ := evidence_validate (fb_attempt_id r) (fb_version_evidence r) in
    let observed := if fb_observed r then "observed" else "unobserved" in
    let mismatch :=
      FeedbackObservationMismatch (fb_attempt_id r) observed (verdict_as_str (fb_verdict r)) in
    if Bool.eqb (fb_observed r) (bool_decide (fb_verdict r = Unobserved)) then Err mismatch
    else if negb (fb_observed r) && bool_decide (fb_outcome r <> OutcomeUnknown_)
    then Err (FeedbackUnobservedOutcome (fb_attempt_id r) (outcome_as_str (fb_outcome r)))
    else
      let repair := bool_decide (fb_reward r = RewardRepair) in
      let attributed := bool_decide (is_Some (fb_repair_of r)) in
      if negb (Bool.eqb repair attributed) ||
         negb (Bool.eqb (bool_decide (fb_cause r = CauseRepair)) attributed)
      then Err (FeedbackRepairAttribution (fb_attempt_id r))
      else if bool_decide (fb_repair_of r = Some (fb_attempt_id r))
      then Err (FeedbackRepairAttribution (fb_attempt_id r))
      else if negb (fb_observed r) && bool_decide (fb_reward r <> RewardNone) then Err mismatch
      else Ok tt.
