(* ===== verification/LearningThms.v ===== *)
(** What the learned definition promises: the size bound it is measured with is
    exact, the last speaking delta decides a capability, an assembled part
    carries no credential reference that none of its pieces carries, and a
    feedback row is accepted exactly when its markers agree. *)

From S2P Require Import Prelude.
From S2P Require Import Contracts.
From S2P Require Import Text.
From S2P Require Import Requests.
From S2P Require Import Learning.

(** * The size of an assembled part *)

(** The bytes one delta adds to a part assembled under [facts]. *)
Definition contribution (facts : ConditionFacts) (d : LearningDelta) : Z :=
  if applies (change d) facts then default 0%Z (appended_bytes d) else 0%Z.

(** The bytes it adds to every part, and to one purpose's part only. *)
Definition everywhere (d : LearningDelta) : Z :=
  match when (change d) with None => default 0%Z (appended_bytes d) | Some _ => 0%Z end.
Definition only_for (purpose : string) (d : LearningDelta) : Z :=
  if decide (when (change d) = Some (Purpose purpose)) then default 0%Z (appended_bytes d) else 0%Z.

Lemma appended_nonneg d : (0 <= default 0 (appended_bytes d))%Z.
Proof.
  unfold appended_bytes. destruct (instruction (change d)) as [text|]; simpl; [|done].
  pose proof (slen_nonneg text). lia.
Qed.

Lemma everywhere_nonneg d : (0 <= everywhere d)%Z.
Proof. unfold everywhere. case_match; [done|]. apply appended_nonneg. Qed.

Lemma only_for_nonneg purpose d : (0 <= only_for purpose d)%Z.
Proof. unfold only_for. case_decide; [|done]. apply appended_nonneg. Qed.

#[export] Hint Resolve appended_nonneg everywhere_nonneg only_for_nonneg : rivect.

(** A part assembled for a purpose reads a purpose condition or none. *)
Lemma contribution_for_purpose purpose d :
  contribution (for_purpose purpose) d = (everywhere d + only_for purpose d)%Z.
Proof.
  unfold contribution, everywhere, only_for, applies.
  destruct (when (change d)) as [[p|k|s]|]; simpl; repeat case_bool_decide; repeat case_decide;
    simplify_eq; lia.
Qed.

Lemma zsum_contribution purpose def :
  zsum (contribution (for_purpose purpose)) def = (zsum everywhere def + zsum (only_for purpose) def)%Z.
Proof. induction def as [|d def IH]; simpl; [done|]. rewrite contribution_for_purpose, IH. lia. Qed.

Lemma slen_append_parts facts def part :
  slen (append_parts facts def part) = (slen part + zsum (contribution facts) def)%Z.
Proof.
  revert part. induction def as [|d def IH]; intros part; simpl; [lia|].
  unfold contribution at 1, appended_bytes.
  destruct (instruction (change d)) as [text|]; simpl; [|rewrite IH; by case_match].
  destruct (applies (change d) facts); simpl; rewrite IH; [|done].
  rewrite !slen_app. change (slen newline) with 1%Z. lia.
Qed.

(** The accumulators of [weigh] hold exactly those sums. *)
Lemma weigh_spec def heaviest unconditional :
  (weigh def heaviest unconditional).2 = (unconditional + zsum everywhere def)%Z /\
  forall purpose, default 0%Z ((weigh def heaviest unconditional).1 !! purpose) =
    (default 0 (heaviest !! purpose) + zsum (only_for purpose) def)%Z.
Proof.
  revert heaviest unconditional. induction def as [|d def IH]; intros h u; [split; intros; simpl; lia|].
  cbn [weigh zsum foldr]. unfold only_for at 1, everywhere at 1.
  destruct (appended_bytes d) as [n|].
  - destruct (when (change d)) as [[p|k|s]|].
    + destruct (IH (<[p := (default 0 (h !! p) + n)%Z]> h) u) as [IH1 IH2]. split; [rewrite IH1; done|].
      intros q. rewrite IH2. fold (zsum (only_for q) def).
      destruct (decide (p = q)) as [->|Hne].
      * rewrite lookup_insert_eq, decide_True by done. simpl. lia.
      * rewrite lookup_insert_ne, decide_False by congruence. done.
    + destruct (IH h u) as [IH1 IH2]. split; [done|]. intros q. rewrite IH2, decide_False; done.
    + destruct (IH h u) as [IH1 IH2]. split; [done|]. intros q. rewrite IH2, decide_False; done.
    + destruct (IH h (u + n)%Z) as [IH1 IH2]. split; [rewrite IH1; simpl; fold (zsum everywhere def); lia|].
      intros q. rewrite IH2, decide_False; done.
  - destruct (IH h u) as [IH1 IH2]. split; [rewrite IH1; by case_match|].
    intros q. rewrite IH2. by case_decide.
Qed.

(** The largest value of a map of counts: a bound, and reached unless it is 0. *)
Lemma map_max_spec (m : gmap string Z) :
  (0 <= map_fold (fun _ => Z.max) 0 m)%Z /\
  (forall k v, m !! k = Some v -> (v <= map_fold (fun _ => Z.max) 0 m)%Z) /\
  (map_fold (fun _ => Z.max) 0%Z m = 0%Z \/
   exists k, m !! k = Some (map_fold (fun _ => Z.max) 0%Z m)).
Proof.
  apply (map_fold_weak_ind (fun r m => (0 <= r)%Z /\ (forall k v, m !! k = Some v -> (v <= r)%Z) /\
    (r = 0%Z \/ exists k, m !! k = Some r))).
  - split_and!; [done|by intros k v; rewrite lookup_empty|by left].
  - intros k v m' r Hk (H0 & Hle & Hat). split_and!; [lia| |].
    + intros k' v' Hl. destruct (decide (k = k')) as [<-|Hne].
      * rewrite lookup_insert_eq in Hl. simplify_eq. lia.
      * rewrite lookup_insert_ne in Hl by done. specialize (Hle _ _ Hl). lia.
    + destruct (decide (r <= v)%Z) as [H|H].
      * right. exists k. rewrite lookup_insert_eq, Z.max_l; [done|lia].
      * rewrite Z.max_r by lia. destruct Hat as [->|[k' Hk']]; [by left|].
        right. exists k'. rewrite lookup_insert_ne; [done|]. intros ->. congruence.
Qed.

(** The measure in closed form: the base, what every part carries, and the
    heaviest single purpose. *)
Lemma max_instruction_bytes_spec def base : exists heaviest,
  max_instruction_bytes def base = (slen base + zsum everywhere def + heaviest)%Z /\
  (forall purpose, zsum (only_for purpose) def <= heaviest)%Z /\
  (exists purpose, zsum (only_for purpose) def = heaviest).
Proof.
  unfold max_instruction_bytes. destruct (weigh_spec def ∅ 0) as [Hu Hh].
  destruct (weigh def ∅ 0) as [h u]. simpl in Hu, Hh. rewrite Hu.
  assert (Hl : forall purpose, zsum (only_for purpose) def = default 0%Z (h !! purpose)).
  { intros purpose. rewrite Hh, lookup_empty. done. }
  destruct (map_max_spec h) as (H0 & Hle & Hat). eexists. split_and!; [reflexivity| |].
  - intros purpose. rewrite Hl. destruct (h !! purpose) as [v|] eqn:Hv; [by eapply Hle|done].
  - destruct Hat as [E|[k Hk]].
    + exists EmptyString. rewrite E. apply Z.le_antisymm; [|apply zsum_nonneg; auto with rivect].
      rewrite Hl. destruct (h !! EmptyString) as [v|] eqn:Hv; simpl; [|done]. rewrite <- E. by eapply Hle.
    + exists k. by rewrite Hl, Hk.
Qed.

Lemma slen_instruction_part def purpose base :
  slen (instruction_part def purpose base) =
  (slen base + zsum everywhere def + zsum (only_for purpose) def)%Z.
Proof. unfold instruction_part. rewrite slen_append_parts, zsum_contribution. lia. Qed.

(** The measure that gates every change of the definition is exact: no purpose's
    assembled instruction part is longer, and one purpose's part is that long. *)
Theorem measure_is_exact def base :
  (forall purpose, slen (instruction_part def purpose base) <= max_instruction_bytes def base)%Z /\
  (exists purpose, slen (instruction_part def purpose base) = max_instruction_bytes def base).
Proof.
  destruct (max_instruction_bytes_spec def base) as (h & -> & Hle & [p Hp]). split.
  - intros purpose. rewrite slen_instruction_part. specialize (Hle purpose). lia.
  - exists p. rewrite slen_instruction_part. lia.
Qed.

(** The measure does not depend on the order of the deltas. *)
#[export] Instance max_instruction_bytes_proper :
  Proper ((≡ₚ) ==> eq ==> eq) max_instruction_bytes.
Proof.
  assert (Hz : forall f (l l' : LearningDefinition), l ≡ₚ l' -> zsum f l = zsum f l').
  { intros f l l' H. induction H; simpl; lia. }
  intros l l' H base ? <-.
  destruct (measure_is_exact l base) as [H1 [p1 E1]], (measure_is_exact l' base) as [H2 [p2 E2]].
  assert (Hp : forall p, slen (instruction_part l p base) = slen (instruction_part l' p base)).
  { intros p. by rewrite !slen_instruction_part, !(Hz _ _ _ H). }
  apply Z.le_antisymm; [rewrite <- E1, Hp|rewrite <- E2, <- Hp]; done.
Qed.

(** Taking deltas away never grows it. *)
Lemma max_instruction_bytes_sublist l l' base :
  sublist l l' -> (max_instruction_bytes l base <= max_instruction_bytes l' base)%Z.
Proof.
  intros Hs. destruct (measure_is_exact l base) as [_ [p <-]].
  etrans; [|apply (proj1 (measure_is_exact l' base) p)]. rewrite !slen_instruction_part.
  assert (Hz : forall f, (forall d, 0 <= f d)%Z -> (zsum f l <= zsum f l')%Z).
  { intros f Hf. induction Hs as [|x l1 l2 _ IH|x l1 l2 _ IH]; simpl; [done|lia|]. specialize (Hf x). lia. }
  pose proof (Hz everywhere everywhere_nonneg). pose proof (Hz (only_for p) (only_for_nonneg p)). lia.
Qed.

(** * The capability a definition decides *)

(** What one delta says about a capability under the given facts. *)
Definition says (capability : string) (facts : ConditionFacts) (d : LearningDelta)
    : option PredicateEffect :=
  match payload (change d) with
  | Applicability named decided =>
      if String.eqb named capability && applies (change d) facts then Some decided else None
  | Instruction _ => None
  end.

Lemma last_effect_spec capability facts def effect :
  last_effect capability facts def effect =
  match last (omap (says capability facts) def) with Some e => Some e | None => effect end.
Proof.
  revert effect. induction def as [|d def IH]; intros effect; [done|].
  change (omap (says capability facts) (d :: def)) with
    (match says capability facts d with
     | Some e => e :: omap (says capability facts) def
     | None => omap (says capability facts) def
     end).
  cbn [last_effect]. unfold says at 1. destruct (payload (change d)) as [text|named decided]; [apply IH|].
  destruct (String.eqb named capability), (applies (change d) facts); cbn [negb andb orb]; rewrite IH; try done.
  rewrite last_cons. by destruct (last (omap (says capability facts) def)).
Qed.

Lemma applicability_spec def capability facts :
  applicability def capability facts = last (omap (says capability facts) def).
Proof. unfold applicability. rewrite last_effect_spec. by destruct (last _). Qed.

(** A capability is decided by the last recorded delta that speaks to it, and by
    none exactly when no delta does. *)
Theorem last_delta_decides def capability facts :
  (forall effect, applicability def capability facts = Some effect <->
    exists before d after, def = before ++ d :: after /\ says capability facts d = Some effect /\
      Forall (fun d' => says capability facts d' = None) after) /\
  (applicability def capability facts = None <->
    Forall (fun d => says capability facts d = None) def).
Proof.
  rewrite applicability_spec. induction def as [|d def [IH1 IH2]] using rev_ind.
  { split; [|done]. intros effect. split; [done|]. by intros ([|??] & d & after & H & _). }
  rewrite omap_app, Forall_app, Forall_singleton. simpl.
  destruct (says capability facts d) as [e|] eqn:Hd.
  - rewrite last_snoc. split; [|naive_solver]. intros effect. split.
    + intros [= <-]. by exists def, d, [].
    + intros (before & d' & after & H & Hs & Ha).
      destruct after as [|x after _] using rev_ind.
      * apply app_inj_tail in H as [-> ->]. congruence.
      * rewrite app_comm_cons, app_assoc in H. apply app_inj_tail in H as [-> ->].
        apply Forall_app in Ha as [_ Ha]. rewrite Forall_singleton in Ha. congruence.
  - rewrite app_nil_r. split; [|rewrite IH2; naive_solver]. intros effect. rewrite IH1. split.
    + intros (before & d' & after & -> & Hs & Ha). exists before, d', (after ++ [d]).
      rewrite <- app_assoc. split_and!; [done..|]. apply Forall_app. by rewrite Forall_singleton.
    + intros (before & d' & after & H & Hs & Ha).
      destruct after as [|x after _] using rev_ind.
      * apply app_inj_tail in H as [-> ->]. congruence.
      * rewrite app_comm_cons, app_assoc in H. apply app_inj_tail in H as [-> ->].
        apply Forall_app in Ha as [Ha _]. by exists before, d', after.
Qed.

(** A delta offered last decides: this is what a composition case measures. *)
Lemma applicability_snoc def d capability facts effect :
  says capability facts d = Some effect ->
  applicability (composed_with def d) capability facts = Some effect.
Proof.
  intros Hd. unfold composed_with. rewrite applicability_spec, omap_app. simpl. rewrite Hd.
  apply last_snoc.
Qed.

(** * Credential references *)

(** A needle free of line breaks does not straddle one. *)
Lemma prefix_newline needle a b :
  contains newline needle = false ->
  String.prefix needle (a +:+ newline +:+ b) = String.prefix needle a.
Proof.
  revert a. induction needle as [|c needle IH]; intros a Hn; [by destruct a|].
  cbn [contains] in Hn. apply orb_false_iff in Hn as [Hc Hn].
  destruct a as [|d a]; unfold newline; autorewrite with text; cbn [String.prefix].
  - destruct (Ascii.ascii_dec c (Ascii.ascii_of_nat 10)) as [->|]; [|done].
    cbn [String.prefix newline] in Hc. destruct (Ascii.ascii_dec _ _); [|done]. by destruct needle.
  - destruct (Ascii.ascii_dec c d); [|done]. by apply IH.
Qed.

Lemma contains_newline needle a b :
  contains newline needle = false -> needle <> EmptyString ->
  contains needle (a +:+ newline +:+ b) = contains needle a || contains needle b.
Proof.
  intros Hn Hne. induction a as [|d a IH].
  - assert (Hp : String.prefix needle EmptyString = false) by (by destruct needle).
    change (contains needle EmptyString) with (String.prefix needle EmptyString || false).
    rewrite Hp. pose proof (prefix_newline needle EmptyString b Hn) as Hq. rewrite Hp in Hq.
    autorewrite with text in *. unfold newline in *. autorewrite with text in *.
    cbn [contains]. by rewrite Hq.
  - pose proof (prefix_newline needle (String d a) b Hn) as Hq. autorewrite with text in *.
    cbn [contains]. rewrite Hq, IH. by rewrite orb_assoc.
Qed.

Lemma carries_newline a b :
  carries_credential_reference (a +:+ newline +:+ b) =
  carries_credential_reference a || carries_credential_reference b.
Proof. unfold carries_credential_reference. rewrite !lowercase_app. by apply contains_newline. Qed.

(** The text of a delta carries no reference. *)
Definition clean_text (d : LearningDelta) : Prop :=
  match instruction (change d) with
  | Some text => carries_credential_reference text = false
  | None => True
  end.

(** Assembling a part puts no credential reference together: it carries one only
    when the base or a delta's own text does. *)
Lemma assembled_part_clean def purpose base :
  Forall clean_text def -> carries_credential_reference base = false ->
  carries_credential_reference (instruction_part def purpose base) = false.
Proof.
  unfold instruction_part. revert base. induction def as [|d def IH]; intros base Hc Hb; [done|].
  apply Forall_cons in Hc as [Hd Hc]. cbn [append_parts]. unfold clean_text in Hd.
  destruct (instruction (change d)) as [text|]; [|by apply IH].
  destruct (applies (change d) (for_purpose purpose)); simpl; apply IH; try done.
  by rewrite carries_newline, Hb, Hd.
Qed.

(** * What validation accepts *)

Lemma change_validate_ok id c :
  validate id c = Ok tt <->
  match payload c with
  | Instruction text =>
      trim_is_empty text = false /\ (slen text <= DELTA_INSTRUCTION_MAX_BYTES)%Z /\
      carries_credential_reference text = false /\
      match when c with
      | None => True
      | Some (Purpose purpose) => trim_is_empty purpose = false
      | Some _ => False
      end
  | Applicability capability _ =>
      weighed_capability capability = true /\
      match when c with Some (Kind _ | OnSurface _) => True | _ => False end
  end.
Proof.
  unfold validate. destruct (payload c) as [text|capability effect].
  - destruct (trim_is_empty text); [split; [done|naive_solver]|].
    case_decide; [split; [done|intros (_ & ? & _); lia]|].
    destruct (carries_credential_reference text); [split; [done|naive_solver]|].
    destruct (when c) as [[p|k|s]|]; [destruct (trim_is_empty p)|..]; simpl;
      split; intros; destruct_and?; split_and?; try done; lia.
  - destruct (weighed_capability capability); simpl; [|naive_solver].
    destruct (when c) as [[p|k|s]|]; naive_solver.
Qed.

Lemma check_fields_ok id fields :
  check_fields id fields = Ok tt <-> Forall (fun f => trim_is_empty f.2 = false) fields.
Proof.
  induction fields as [|[field value] fields IH]; simpl; [by split|]. rewrite Forall_cons, <- IH. simpl.
  destruct (trim_is_empty value); naive_solver.
Qed.

(** The markers of one feedback row agree. *)
Definition markers_agree (r : FeedbackRecord) : Prop :=
  (fb_observed r = true <-> fb_verdict r <> Unobserved) /\
  (fb_observed r = false -> fb_outcome r = OutcomeUnknown_ /\ fb_repair_of r = None) /\
  (fb_reward r = RewardRepair <-> is_Some (fb_repair_of r)) /\
  (fb_cause r = CauseRepair <-> is_Some (fb_repair_of r)) /\
  fb_repair_of r <> Some (fb_attempt_id r).

(** A feedback row is accepted exactly when its ids are present, its version
    evidence is clean, and its markers agree: only an observed attempt carries a
    verdict or an outcome, and a reward, a repair cause and a repaired attempt
    come together, never on the repaired attempt itself. *)
Theorem feedback_accepted_iff_markers_agree r :
  feedback_validate r = Ok tt <->
  trim_is_empty (fb_attempt_id r) = false /\ trim_is_empty (fb_purpose r) = false /\
  trim_is_empty (fb_connection r) = false /\
  evidence_validate (fb_attempt_id r) (fb_version_evidence r) = Ok tt /\ markers_agree r.
Proof.
  unfold feedback_validate, markers_agree.
  destruct (trim_is_empty (fb_attempt_id r)); [naive_solver|]. simpl.
  destruct (trim_is_empty (fb_purpose r)); [naive_solver|].
  destruct (trim_is_empty (fb_connection r)); [naive_solver|]. simpl.
  destruct (evidence_validate (fb_attempt_id r) (fb_version_evidence r)) as [[]|]; simpl; [|naive_solver].
  destruct (fb_observed r), (fb_verdict r), (fb_outcome r), (fb_reward r), (fb_cause r), (fb_repair_of r) as [a|];
    simpl; try (split; [done|]); try (case_bool_decide as Hb; simpl);
    try (split; [intros|]); split_and?; naive_solver.
Qed.
