(* ===== verification/Store.v ===== *)
(** The store's typed refusals and its transactions ([src/src/state.rs]).

    A table is the list of its rows in [rowid] order: an insertion goes to the
    end, because a new [rowid] is one more than the largest one, and [ORDER BY
    rowid] reads the list.  An Immediate transaction is a function from the
    database to its answer and the database it commits; a refusal drops the
    transaction, so the database stays as it was.  A statement the database
    itself fails (a full disk, a lock held too long) is such a refusal and is
    not written out at every statement. *)

From stdpp Require Import pretty.
From S2P Require Import Prelude.
From S2P Require Import Contracts.
From S2P Require Import Learning.

Inductive Missing :=
  | MissingSession (id : string) | MissingTask (id : string) | MissingQuestion (id : string)
  | MissingAttempt (id : string) | MissingEvidence_ (id : string) | MissingBudgetScope (id : string)
  | MissingReservation (id : string) | MissingSettlement (id : string) | MissingWorkBudget (id : string)
  | MissingSharingGrant (id : string) | MissingObligation | MissingDelta (id : string).

Inductive ConflictCause :=
  | DuplicateCommand (command_id : string)
  | QuestionOnLifecycle (lifecycle : string)
  | PendingQuestionExists
  | EventNotFound (event_id : string)
  | EventConflict (event_id : string)
  | EventSessionMismatch (event_id : string)
  | QuestionNotPending
  | QuestionRevision (expected current : Z)
  | TerminalCannotReopen
  | TaskRevision (expected current : Z)
  | CursorGeneration (expected current : Z)
  | TaskAlreadyTerminal
  | CompletionOpen (unsatisfied unresolved unknown : Z)
  | CompletionStale (stale : Z)
  | CompactionNotShorter (before folded : Z)
  | AttemptNotReconcileable (attempt_id state : string)
  | PublicationNotPending (owner target : string) (admission_seq : Z)
  | BudgetScopeExists (scope : string)
  | CauseBudgetExhausted (scope : string) (spent reserved bound limit : Z)
  | ReservationAlreadyRecorded (reservation_id : string)
  | ReservationNotReserved (reservation_id state : string)
  | ChargeReservedBelowBound (scope : string) (reserved bound : Z)
  | SettlementAlreadyRecorded (attempt_id : string)
  | SettlementNotDispatched (attempt_id state : string)
  | WorkBudgetExists (task_id state : string)
  | WorkBudgetStopped (task_id : string)
  | SharingGrantClosed (grant_id state : string)
  | WorkSendBoundReached (task_id : string) (settled_sends send_bound : Z)
  | PlanSelectionMissing
  | PlanSelectionStale (revision : Z)
  | PlanRowMissing (capability : string)
  | PlanRowHandler (capability handler : string)
  | PlanRowUnresolved (capability : string)
  | PlanNotAssessable (revision : Z)
  | AssumptionCheckChanged
  | RetainedBoundaryCollision (boundary_id : string).

Inductive InvalidCause :=
  | EmptyGoal
  | UnknownOption (option_id question_id : string)
  | DisabledOption (option_id reason : string)
  | EmptyCustomAnswer
  | UnknownCollection (name : string)
  | AttemptTaskMismatch (attempt_id owner_task expected : string)
  | MissingReadMarker (attempt_id : string)
  | CursorOffsetOutOfRange
  | EventCursorOutOfRange
  | BudgetUnitsOutOfRange (units : Z)
  | WorkBudgetBoundOutOfRange (field : string) (value : Z)
  | SharingExpiryOutOfRange (expiry : Z)
  | EmptyBudgetScopes
  | ConfirmedExceedsBound (confirmed bound : Z)
  | SettlementMissingTotal (attempt_id exactness : string)
  | CacheCohortEmpty
  | CacheCohortMissing (attempts : Z)
  | CacheCohortUnsettled (attempts : Z).

(** The boxed source of a storage refusal: the ones the code itself builds, and
    those of the database or of the codec. *)
Inductive StorageCause :=
  | CorruptColumn (column raw : string)
  | NegativeColumn (value : Z)
  | TotalOverflow
  | PathReplaced
  | Undecodable (raw : string)
  | ConstraintFailed
  | BindingMoved (delta_id : string).

Inductive StoreError :=
  | StoreNotFound (missing : Missing)
  | StoreConflict (cause : ConflictCause)
  | StoreStaleIntent (expected current : Z)
  | StoreAlreadyTerminal
  | StoreInvalidInput (cause : InvalidCause)
  | Storage (source : StorageCause)
  | DenialJournalFailed (denial journal : StoreError)
  | Closed
  | ReopenIdentity (bound presented : string)
  | UnsupportedGeneration (found known : Z)
  | Delta (error : DeltaError).

(** [StoreError::code] *)
Fixpoint store_error_code (e : StoreError) : ErrorCode :=
  match e with
  | StoreNotFound _ => NotFound
  | StoreConflict (CauseBudgetExhausted _ _ _ _ _) => BudgetExhausted
  | StoreConflict _ => Conflict
  | StoreStaleIntent _ _ => StaleIntent
  | StoreAlreadyTerminal => AlreadyTerminal
  | StoreInvalidInput _ => InvalidInput
  | Storage _ => StorageUnavailable
  | Closed => StorageUnavailable
  | ReopenIdentity _ _ => InvalidInput
  | UnsupportedGeneration _ _ => UnsupportedVersion
  | Delta error => delta_error_code error
  | DenialJournalFailed denial _ => store_error_code denial
  end.

Fixpoint denial_class (e : StoreError) : string :=
  match e with
  | StoreStaleIntent _ _ => "stale_intent"
  | StoreAlreadyTerminal => "already_terminal"
  | StoreNotFound _ => "not_found"
  | StoreConflict QuestionNotPending => "replayed_answer"
  | StoreConflict (QuestionRevision _ _) => "stale_revision"
  | StoreConflict _ => "conflict"
  | StoreInvalidInput (UnknownOption _ _) => "unknown_option"
  | StoreInvalidInput (DisabledOption _ _) => "disabled_option"
  | StoreInvalidInput EmptyCustomAnswer => "empty_custom"
  | StoreInvalidInput _ => "invalid_input"
  | ReopenIdentity _ _ => "invalid_input"
  | UnsupportedGeneration _ _ => "unsupported_version"
  | Delta error => error_code_as_str (delta_error_code error)
  | Storage _ => "storage"
  | Closed => "storage"
  | DenialJournalFailed denial _ => denial_class denial
  end.

Definition i64_max : Z := 9223372036854775807.

Definition corrupt_column (column raw : string) : StoreError := Storage (CorruptColumn column raw).

(** [unsigned]: a ledger column read back as [u64]. *)
Definition unsigned (value : Z) : result Z StoreError :=
  if decide (0 <= value)%Z then Ok value else Err (Storage (NegativeColumn value)).

(** [stored_u64] *)
Definition stored_u64 (value : Z) : result Z StoreError :=
  if decide (value <= i64_max)%Z then Ok value else Err (corrupt_column "revision" (pretty value)).

(** [serde_json::to_string] and [from_str] of a type whose derived encoding
    reads back. *)
Class JsonCodec (A : Type) := {
  to_json : A -> string;
  from_json : string -> option A;
  from_to_json : forall a, from_json (to_json a) = Some a;
}.

(** * Transactions *)

(** A component's refusals carry the store's. *)
Class FromStore (E : Type) := from_store : StoreError -> E.
#[export] Instance StoreError_from_store : FromStore StoreError := fun e => e.

Section Transactions.
Context {Db E : Type} `{FromStore E}.

Definition tx (A : Type) : Type := Db -> result (A * Db) E.

Definition tx_ret {A} (a : A) : tx A := fun db => Ok (a, db).
Definition tx_err {A} (e : E) : tx A := fun _ => Err e.
Definition tx_bind {A B} (k : A -> tx B) (m : tx A) : tx B :=
  fun db => match m db with Ok (a, db') => k a db' | Err e => Err e end.
Definition tx_get : tx Db := fun db => Ok (db, db).
Definition tx_modify (f : Db -> Db) : tx unit := fun db => Ok (tt, f db).

(** [?] on a refusal of its own, and on one of the store. *)
Definition tx_lift {A} (r : result A E) : tx A :=
  fun db => match r with Ok a => Ok (a, db) | Err e => Err e end.
Definition tx_store {A} (r : result A StoreError) : tx A :=
  fun db => match r with Ok a => Ok (a, db) | Err e => Err (from_store e) end.

(** The connection slot of a [TaskStore], the record that quarantines it, and
    whether the database path still names the file it opened. *)
Record TaskStore := mkTaskStore {
  ts_conn : option Db;
  ts_held_claim_commit : bool;
  ts_path_identity : bool;
}.

(** [TaskStore::conn] *)
Definition conn (s : TaskStore) : result Db StoreError :=
  if ts_held_claim_commit s then Err Closed
  else match ts_conn s with Some db => Ok db | None => Err Closed end.

(** [TaskStore::conn_mut] *)
Definition conn_mut (s : TaskStore) : result Db StoreError :=
  if ts_held_claim_commit s then Err Closed
  else if negb (ts_path_identity s) then Err (Storage PathReplaced)
  else match ts_conn s with Some db => Ok db | None => Err Closed end.

(** [TaskStore::quarantine] *)
Definition quarantine (s : TaskStore) : TaskStore :=
  mkTaskStore None (ts_held_claim_commit s) (ts_path_identity s).

(** A read through [conn]. *)
Definition read {A} (f : Db -> result A E) (s : TaskStore) : result A E :=
  match conn s with Ok db => f db | Err e => Err (from_store e) end.

(** An Immediate transaction: committed when its body answers, dropped when it
    refuses. *)
Definition transaction {A} (body : tx A) (s : TaskStore) : result A E * TaskStore :=
  match conn_mut s with
  | Err e => (Err (from_store e), s)
  | Ok db =>
      match body db with
      | Ok (a, db') => (Ok a, mkTaskStore (Some db') (ts_held_claim_commit s) (ts_path_identity s))
      | Err e => (Err e, s)
      end
  end.
End Transactions.
Arguments tx Db E A : clear implicits.
Arguments TaskStore Db : clear implicits.

Notation "'let!' x ':=' m 'in' k" := (tx_bind (fun x => k) m)
  (at level 10, x pattern, m at level 200, k at level 200) : rust_scope.

(** * Lemmas *)

(** What a successful transaction body did, one statement at a time. *)
Lemma tx_bind_Ok {Db E A B} (k : A -> tx Db E B) (m : tx Db E A) db b db' :
  tx_bind k m db = Ok (b, db') <-> exists a db1, m db = Ok (a, db1) /\ k a db1 = Ok (b, db').
Proof.
  unfold tx_bind. destruct (m db) as [[a db1]|e].
  - split; [intros H; by exists a, db1|]. by intros (? & ? & [= <- <-] & H).
  - split; [done|]. by intros (? & ? & ? & _).
Qed.

(** A refused transaction leaves the store as it was. *)
Lemma conn_Ok {Db} (s : TaskStore Db) db : conn s = Ok db -> ts_conn s = Some db.
Proof. unfold conn. destruct (ts_held_claim_commit s); [done|]. destruct (ts_conn s); [by intros [= <-]|done]. Qed.

Lemma conn_mut_open {Db} (s : TaskStore Db) db : conn_mut s = Ok db -> conn s = Ok db /\ ts_held_claim_commit s = false.
Proof.
  unfold conn_mut, conn. destruct (ts_held_claim_commit s); [done|]. destruct (ts_path_identity s); [|done]. cbn.
  by destruct (ts_conn s).
Qed.

Lemma read_open {Db A E} `{FromStore E} (f : Db -> result A E) (s : TaskStore Db) db : conn s = Ok db -> read f s = f db.
Proof. intros Hc. unfold read. by rewrite Hc. Qed.

Lemma transaction_Err `{FromStore E} {Db A} (body : tx Db E A) s e :
  (transaction body s).1 = Err e -> (transaction body s).2 = s.
Proof.
  unfold transaction. destruct (conn_mut s) as [db|]; [|done]. by destruct (body db) as [[a db']|].
Qed.

Lemma transaction_Ok `{FromStore E} {Db A} (body : tx Db E A) s a :
  (transaction body s).1 = Ok a ->
  exists db db', conn_mut s = Ok db /\ body db = Ok (a, db') /\
    (transaction body s).2 = mkTaskStore (Some db') (ts_held_claim_commit s) (ts_path_identity s).
Proof.
  unfold transaction. destruct (conn_mut s) as [db|]; [|done].
  destruct (body db) as [[a' db']|] eqn:Hb; [|done]. simpl. intros [= ->]. by exists db, db'.
Qed.

(** The database a store holds after a transaction is the old one or the one its
    body committed. *)
Lemma transaction_db `{FromStore E} {Db A} (body : tx Db E A) s db' :
  ts_conn (transaction body s).2 = Some db' ->
  ts_conn s = Some db' \/ exists db a, ts_conn s = Some db /\ body db = Ok (a, db').
Proof.
  unfold transaction, conn_mut. destruct (ts_held_claim_commit s); [by left|].
  destruct (ts_path_identity s); [|by left]. destruct (ts_conn s) as [db|] eqn:Hc; [|by simpl; rewrite Hc]. simpl.
  destruct (body db) as [[a db1]|] eqn:Hb; simpl; [|left; congruence].
  intros [= <-]. right. by exists db, a.
Qed.

Lemma stored_u64_Ok value stored : stored_u64 value = Ok stored -> stored = value /\ (value <= i64_max)%Z.
Proof. unfold stored_u64. case_decide; [|done]. by intros [= <-]. Qed.

Lemma unsigned_Ok value v : unsigned value = Ok v -> v = value /\ (0 <= value)%Z.
Proof. unfold unsigned. case_decide; [|done]. by intros [= <-]. Qed.

(** The answer and the database of a statement, named as before it where they
    did not change. *)
Ltac tx_values H := first [injection H as <- <- | simplify_eq].

(** Unfolds the hypothesis that a transaction body answered. *)
Ltac inv_tx :=
  repeat match goal with
    | H : tx_bind _ _ _ = Ok (_, _) |- _ =>
        let a := fresh "a" in let db := fresh "db" in let H1 := fresh "H" in let H2 := fresh "H" in
        apply tx_bind_Ok in H as (a & db & H1 & H2); cbn beta in H2
    | H : tx_ret _ _ = Ok _ |- _ => unfold tx_ret in H; tx_values H
    | H : tx_get _ = Ok _ |- _ => unfold tx_get in H; tx_values H
    | H : tx_modify _ _ = Ok _ |- _ => unfold tx_modify in H; tx_values H
    | H : tx_err _ _ = Ok _ |- _ => discriminate H
    | H : tx_lift ?r _ = Ok _ |- _ =>
        let E := fresh "E" in unfold tx_lift in H; destruct r eqn:E; [|discriminate H]; tx_values H
    | H : tx_store ?r _ = Ok _ |- _ =>
        let E := fresh "E" in unfold tx_store in H; destruct r eqn:E; [|discriminate H]; tx_values H
    | H : stored_u64 ?v = Ok ?w |- _ =>
        let B := fresh "B" in apply stored_u64_Ok in H as [H B]; subst w
    end.
