(* ===== verification/LearningStore.v ===== *)
(** The learning store ([src/src/state/learning.rs], with the statements of
    [src/src/state/sql/mod.rs]): the one writer of candidate deltas, their corpus
    verdicts, the activation and rollback transitions, the identity rules of the
    serving base and the rebinding pass, and the append-only feedback rows.

    Rows hold the columns as stored: closed vocabularies as their spellings, a
    condition and a version evidence as JSON text.  [serde_json] is the class
    [JsonCodec]; the base ledger contributes the version that serves. *)

From stdpp Require Import pretty sorting.
From S2P Require Import Prelude.
From S2P Require Import Contracts.
From S2P Require Import Text.
From S2P Require Import Requests.
From S2P Require Import Identity.
From S2P Require Import Learning.
From S2P Require Import Store.

(** * The longest instruction base ([src/src/actions.rs], [src/src/model.rs]) *)

(** Literals with the quotation marks they contain written as apostrophes. *)
Fixpoint quoted (s : string) : string :=
  match s with
  | EmptyString => EmptyString
  | String c s => String (if Ascii.eqb c "'" then Ascii.ascii_of_nat 34 else c) (quoted s)
  end.

Definition CHALLENGE_INSTRUCTIONS : string := quoted
  "You are the Rivect challenge_direction purpose. From the task, its criteria and its selected surfaces in the inputs, reply with exactly one JSON object {'risks':[{'surface':<selected surface>,'text':<risk>}]} naming every selected risky surface. A material choice the user must make adds 'fork':{'prompt','options':[five {'id','label','consequences','disabled_reason'?}],'recommended','basis'}. No other field and no tool call.".
Definition DESIGN_INSTRUCTIONS : string := quoted
  "You are the Rivect design_contracts purpose. From the task, its criteria and its selected surfaces in the inputs, reply with exactly one JSON object {'contracts':[{'surface':<selected surface>,'text':<boundary contract>}]} covering every selected risky surface. A material choice the user must make adds 'fork':{'prompt','options':[five {'id','label','consequences','disabled_reason'?}],'recommended','basis'}. An applied fork answer arrives as fork_answer. No other field and no tool call.".
Definition ASSESS_INSTRUCTIONS : string := quoted
  "You are the Rivect assess_plan purpose. Judge the stored plan revision in the inputs for feasibility, test design and risk against the task criteria and reply with exactly one JSON object {'verdict':'pass'|'fail','findings':[<text>]}. No other field and no tool call.".
Definition MANDATORY_INSTRUCTIONS : string :=
  "You are the Rivect decision core. The only permitted action is one scoped file read; request it as `read <path>` on its own line.".

Definition longer (candidate current : string) : string :=
  if decide (slen current < slen candidate)%Z then candidate else current.
Definition LONGEST_STAGE_INSTRUCTIONS : string :=
  longer ASSESS_INSTRUCTIONS (longer DESIGN_INSTRUCTIONS CHALLENGE_INSTRUCTIONS).
Definition LARGEST_INSTRUCTION_BASE : string :=
  longer LONGEST_STAGE_INSTRUCTIONS MANDATORY_INSTRUCTIONS.

Definition LEARNING_DELTA_RETENTION : nat := 32.
Definition LEARNING_CORPUS_RETENTION : nat := CORPUS_CASE_LIMIT.

(** * Rows *)

Record DeltaRow := mkDeltaRow {
  dr_delta_id : string;
  dr_base_version : Z;
  dr_scope : string;
  dr_instruction : option string;
  dr_capability : option string;
  dr_effect : option string;
  dr_condition_json : option string;
  dr_evidence : string;
  dr_state : string;
  dr_version : Z;
}.

Record CorpusRow := mkCorpusRow {
  cr_delta_id : string;
  cr_delta_version : Z;
  cr_case_kind : string;
  cr_expected : string;
  cr_observed : string;
  cr_verdict : string;
}.

Record FeedbackRow := mkFeedbackRow {
  fr_attempt_id : string;
  fr_parent_attempt_id : option string;
  fr_purpose : string;
  fr_connection : string;
  fr_model_id : option string;
  fr_outcome : string;
  fr_cause : string;
  fr_version_evidence : string;
  fr_repair_of : option string;
  fr_verdict : string;
  fr_reward : string;
  fr_observed : Z;
}.

Record MigrationRow := mkMigrationRow {
  mr_base_version : Z;
  mr_old_id : string;
  mr_new_id : string;
  mr_kind : string;
  mr_rule : string;
  mr_subject : option string;
}.

Record LearningDb := mkDb {
  learning_deltas : list DeltaRow;
  learning_corpus : list CorpusRow;
  routing_feedback : list FeedbackRow;
  identity_migrations : list MigrationRow;
  served_base_version : Z;
  user_version : Z;
}.

Definition with_deltas (f : list DeltaRow -> list DeltaRow) (db : LearningDb) : LearningDb :=
  mkDb (f (learning_deltas db)) (learning_corpus db) (routing_feedback db) (identity_migrations db)
    (served_base_version db) (user_version db).
Definition with_corpus (f : list CorpusRow -> list CorpusRow) (db : LearningDb) : LearningDb :=
  mkDb (learning_deltas db) (f (learning_corpus db)) (routing_feedback db) (identity_migrations db)
    (served_base_version db) (user_version db).
Definition with_feedback (f : list FeedbackRow -> list FeedbackRow) (db : LearningDb) : LearningDb :=
  mkDb (learning_deltas db) (learning_corpus db) (f (routing_feedback db)) (identity_migrations db)
    (served_base_version db) (user_version db).
Definition with_migrations (f : list MigrationRow -> list MigrationRow) (db : LearningDb) : LearningDb :=
  mkDb (learning_deltas db) (learning_corpus db) (routing_feedback db) (f (identity_migrations db))
    (served_base_version db) (user_version db).

(** [u64::try_from] of a stored column. *)
Definition read_u64 (column : string) (value : Z) : result Z StoreError :=
  if decide (0 <= value)%Z then Ok value else Err (corrupt_column column (pretty value)).

Section LearningStore.
Context `{JsonCodec ConditionFact} `{JsonCodec VersionEvidence}.

Definition delta_missing (delta_id : string) : StoreError := StoreNotFound (MissingDelta delta_id).

Definition read_condition (raw : option string) : result (option ConditionFact) StoreError :=
  match raw with
  | None => Ok None
  | Some raw =>
      match from_json raw with
      | Some fact => Ok (Some fact)
      | None => Err (corrupt_column "delta condition" raw)
      end
  end.

Definition delta_change (scope : string) (instruction capability effect condition_json : option string)
    : result DeltaChange StoreError :=
  let? scope := ok_or (scope_parse scope) (corrupt_column "delta scope" scope) in
  let? condition := read_condition condition_json in
  let? payload :=
    match scope with
    | InstructionScope =>
        match instruction with
        | Some text => Ok (Instruction text)
        | None => Err (corrupt_column "delta instruction" "absent")
        end
    | ApplicabilityScope =>
        let? capability := ok_or capability (corrupt_column "delta capability" "absent") in
        let? effect := ok_or effect (corrupt_column "delta effect" "absent") in
        let? effect := ok_or (effect_parse effect) (corrupt_column "delta effect" effect) in
        Ok (Applicability capability effect)
    end in
  Ok (mkChange payload condition).

Definition delta_state (raw : string) : result DeltaState StoreError :=
  ok_or (state_parse raw) (corrupt_column "delta state" raw).

Definition row_change (r : DeltaRow) : result DeltaChange StoreError :=
  delta_change (dr_scope r) (dr_instruction r) (dr_capability r) (dr_effect r) (dr_condition_json r).

(** The row as [delta_record_on] decodes it. *)
Definition delta_record (r : DeltaRow) : result DeltaRecord StoreError :=
  let? base_version := read_u64 "delta base version" (dr_base_version r) in
  let? change := row_change r in
  let? state := delta_state (dr_state r) in
  let? version := read_u64 "delta version" (dr_version r) in
  Ok (mkRecord (dr_delta_id r) base_version change (dr_evidence r) state version).

Definition delta_row (delta_id : string) (db : LearningDb) : option DeltaRow :=
  find (fun r => String.eqb (dr_delta_id r) delta_id) (learning_deltas db).

Definition delta_record_on (delta_id : string) (db : LearningDb) : result (option DeltaRecord) StoreError :=
  match delta_row delta_id db with
  | None => Ok None
  | Some r => let? record := delta_record r in Ok (Some record)
  end.

Definition corpus_verdict_of (r : CorpusRow) : result CorpusVerdict StoreError :=
  let? kind := ok_or (case_kind_parse (cr_case_kind r)) (corrupt_column "corpus case kind" (cr_case_kind r)) in
  let? version := read_u64 "corpus version" (cr_delta_version r) in
  let? passed :=
    if String.eqb (cr_verdict r) "passed" then Ok true
    else if String.eqb (cr_verdict r) "failed" then Ok false
    else Err (corrupt_column "corpus verdict" (cr_verdict r)) in
  Ok (mkVerdict (cr_delta_id r) version kind (cr_expected r) (cr_observed r) passed).

(** Decodes rows in order, at the first refusal. *)
Fixpoint decode_all {A B E} (f : A -> result B E) (l : list A) : result (list B) E :=
  match l with
  | [] => Ok []
  | x :: l => let? y := f x in let? ys := decode_all f l in Ok (y :: ys)
  end.

(** [LEARNING_CORPUS_ROWS]: ordered by the case kind's spelling. *)
Definition kind_le (a b : CorpusRow) : Prop := String.leb (cr_case_kind a) (cr_case_kind b) = true.

#[local] Instance kind_le_dec : RelDecision kind_le.
Proof. intros a b. unfold kind_le. apply _. Defined.

Definition corpus_rows (delta_id : string) (db : LearningDb) : list CorpusRow :=
  merge_sort kind_le
    (filter (fun r => cr_delta_id r = delta_id) (learning_corpus db)).

Definition corpus_on (delta_id : string) (db : LearningDb) : result (list CorpusVerdict) StoreError :=
  decode_all corpus_verdict_of (corpus_rows delta_id db).

(** The loop of [require_corpus] over the three kinds. *)
Fixpoint require_kinds (delta_id : string) (version : Z) (judged : list CorpusVerdict)
    (kinds : list CorpusCaseKind) : result unit StoreError :=
  match kinds with
  | [] => Ok tt
  | kind :: kinds =>
      match find (fun v => bool_decide (v_kind v = kind)) judged with
      | None => Err (Delta (CorpusMissing delta_id (case_kind_as_str kind) version))
      | Some v =>
          if negb (v_passed v)
          then Err (Delta (CorpusRejected delta_id (case_kind_as_str kind) (v_expected v) (v_observed v)))
          else require_kinds delta_id version judged kinds
      end
  end.

Definition require_corpus (delta_id : string) (version : Z) (verdicts : list CorpusVerdict)
    : result unit StoreError :=
  require_kinds delta_id version (filter (fun v => v_delta_version v = version) verdicts)
    [TransferKind; CompositionKind; NegativeControlKind].

(** One active row, as [definition_on] decodes it: the scope is read off the
    instruction column. *)
Definition active_delta (r : DeltaRow) : result LearningDelta StoreError :=
  let scope := if bool_decide (is_Some (dr_instruction r)) then InstructionScope else ApplicabilityScope in
  let? version := read_u64 "delta version" (dr_version r) in
  let? change := delta_change (scope_as_str scope) (dr_instruction r) (dr_capability r) (dr_effect r)
                   (dr_condition_json r) in
  Ok (mkDelta (dr_delta_id r) version change).

Definition definition_on (db : LearningDb) : result LearningDefinition StoreError :=
  decode_all active_delta (filter (fun r => dr_state r = "active") (learning_deltas db)).

Definition definition_size_on (db : LearningDb) : result Z StoreError :=
  let? def := definition_on db in Ok (max_instruction_bytes def LARGEST_INSTRUCTION_BASE).

(** * Candidates *)

(** The rows [prune_learning_candidates] drops: the inactive ones beyond the
    newest [keep]. *)
Definition stale_candidates (keep : nat) (rows : list DeltaRow) : list string :=
  map dr_delta_id (drop keep (reverse (filter (fun r => dr_state r = "inactive") rows))).

Definition prune_learning_candidates (keep : nat) (db : LearningDb) : LearningDb :=
  let db := with_corpus (filter (fun r => cr_delta_id r ∉ stale_candidates keep (learning_deltas db))) db in
  with_deltas (filter (fun r => dr_delta_id r ∉ stale_candidates keep (learning_deltas db))) db.

(** [INSERT_LEARNING_DELTA]: whether a row was inserted. *)
Definition insert_learning_delta (row : DeltaRow) : tx LearningDb StoreError bool :=
  let! db := tx_get in
  if bool_decide (is_Some (delta_row (dr_delta_id row) db)) then tx_ret false
  else let! _ := tx_modify (with_deltas (fun rows => rows ++ [row])) in tx_ret true.

Definition candidate_row (c : DeltaCandidate) (base_version : Z) : DeltaRow :=
  let condition := to_json <$> when (c_change c) in
  let '(instruction, capability, effect) :=
    match payload (c_change c) with
    | Instruction text => (Some text, None, None)
    | Applicability capability decided => (None, Some capability, Some (effect_as_str decided))
    end in
  mkDeltaRow (c_delta_id c) base_version (scope_as_str (scope (c_change c))) instruction capability
    effect condition (c_evidence c) (state_as_str Inactive) 1.

(** The transaction of [record_learning_delta]. *)
Definition record_delta_tx (c : DeltaCandidate) : tx LearningDb StoreError unit :=
  let! base_version := tx_lift (stored_u64 (c_base_version c)) in
  let! inserted := insert_learning_delta (candidate_row c base_version) in
  if negb inserted then tx_err (Delta (AlreadyRecorded (c_delta_id c)))
  else tx_modify (prune_learning_candidates LEARNING_DELTA_RETENTION).

Definition learning_delta (delta_id : string) (s : TaskStore LearningDb) : result DeltaRecord StoreError :=
  read (fun db => let? record := delta_record_on delta_id db in ok_or record (delta_missing delta_id)) s.

Definition record_learning_delta (c : DeltaCandidate) (s : TaskStore LearningDb)
    : result DeltaRecord StoreError * TaskStore LearningDb :=
  match candidate_validate c with
  | Err e => (Err (Delta e), s)
  | Ok _ =>
      match transaction (record_delta_tx c) s with
      | (Err e, s) => (Err e, s)
      | (Ok _, s) => (learning_delta (c_delta_id c) s, s)
      end
  end.

(** * The corpus *)

Definition learning_corpus_of (delta_id : string) (s : TaskStore LearningDb)
    : result (list CorpusVerdict) StoreError :=
  read (corpus_on delta_id) s.

Definition learning_definition (s : TaskStore LearningDb) : result LearningDefinition StoreError :=
  read definition_on s.

(** The duplicate check over the case kinds. *)
Fixpoint check_kinds (delta_id : string) (seen : list CorpusCaseKind) (cases : list CorpusCase)
    : result unit StoreError :=
  match cases with
  | [] => Ok tt
  | c :: cases =>
      if bool_decide (case_kind c ∈ seen)
      then Err (Delta (DuplicateCase delta_id (case_kind_as_str (case_kind c))))
      else check_kinds delta_id (case_kind c :: seen) cases
  end.

(** The control each case names, read before the write transaction. *)
Definition control_of (delta_id : string) (case : CorpusCase) (s : TaskStore LearningDb)
    : result (option LearningDelta) StoreError :=
  match case with
  | NegativeControl _ control =>
      if String.eqb control delta_id then Err (Delta (SelfControl delta_id))
      else
        match learning_delta control s with
        | Ok held => Ok (Some (mkDelta (r_delta_id held) (r_version held) (r_change held)))
        | Err (StoreNotFound _) => Err (Delta (UnknownControl delta_id control))
        | Err other => Err other
        end
  | _ => Ok None
  end.

(** [INSERT_LEARNING_CORPUS]: a row of the same delta and kind is replaced. *)
Definition replace_corpus (row : CorpusRow) (rows : list CorpusRow) : list CorpusRow :=
  filter (fun r => ~ (cr_delta_id r = cr_delta_id row /\ cr_case_kind r = cr_case_kind row)) rows ++ [row].

Definition verdict_row (v : CorpusVerdict) (version : Z) : CorpusRow :=
  mkCorpusRow (v_delta_id v) version (case_kind_as_str (v_kind v)) (v_expected v) (v_observed v)
    (if v_passed v then "passed" else "failed").

Fixpoint record_cases (candidate : CorpusCandidate) (active : LearningDefinition)
    (cases : list (CorpusCase * option LearningDelta)) : tx LearningDb StoreError unit :=
  match cases with
  | [] => tx_ret tt
  | (case, control) :: cases =>
      let verdict := corpus_verdict candidate active control case LARGEST_INSTRUCTION_BASE in
      let! version := tx_lift (stored_u64 (v_delta_version verdict)) in
      let! _ := tx_modify (with_corpus (replace_corpus (verdict_row verdict version))) in
      record_cases candidate active cases
  end.

Definition record_learning_corpus (delta_id : string) (cases : list CorpusCase)
    (s : TaskStore LearningDb) : result (list CorpusVerdict) StoreError * TaskStore LearningDb :=
  let prepared :=
    let? record := learning_delta delta_id s in
    if decide (LEARNING_CORPUS_RETENTION < length cases)
    then Err (Delta (TooManyCases delta_id (length cases) LEARNING_CORPUS_RETENTION))
    else
      let? _ := check_kinds delta_id [] cases in
      let? controls := decode_all (fun case => control_of delta_id case s) cases in
      let? active := learning_definition s in
      Ok (mkCorpusCandidate delta_id (r_version record) (r_change record), active, controls) in
  match prepared with
  | Err e => (Err e, s)
  | Ok (candidate, active, controls) =>
      match transaction (record_cases candidate active (zip cases controls)) s with
      | (Err e, s) => (Err e, s)
      | (Ok _, s) => (learning_corpus_of delta_id s, s)
      end
  end.

(** * Activation and rollback *)

Definition set_state (from to : DeltaState) (delta_id : string) (expected : Z) (r : DeltaRow) : DeltaRow :=
  if decide (dr_delta_id r = delta_id /\ dr_state r = state_as_str from /\ dr_version r = expected)
  then mkDeltaRow (dr_delta_id r) (dr_base_version r) (dr_scope r) (dr_instruction r) (dr_capability r)
         (dr_effect r) (dr_condition_json r) (dr_evidence r) (state_as_str to) (dr_version r + 1)
  else r.

(** [ACTIVATE_LEARNING_DELTA] and [ROLL_BACK_LEARNING_DELTA]: one conditional
    statement, which answers whether it matched a row. *)
Definition transition (from to : DeltaState) (delta_id : string) (expected : Z)
    : tx LearningDb StoreError bool :=
  let! db := tx_get in
  let matched := existsb (fun r => bool_decide (dr_delta_id r = delta_id /\
                   dr_state r = state_as_str from /\ dr_version r = expected)) (learning_deltas db) in
  let! _ := tx_modify (with_deltas (map (set_state from to delta_id expected))) in
  tx_ret matched.

Definition activate_tx (delta_id : string) (expected_version : Z) : tx LearningDb StoreError unit :=
  let! db := tx_get in
  let! found := tx_lift (delta_record_on delta_id db) in
  let! record := tx_lift (ok_or found (delta_missing delta_id)) in
  let! verdicts := tx_lift (corpus_on delta_id db) in
  let! _ := tx_lift (require_corpus delta_id expected_version verdicts) in
  let! expected := tx_lift (stored_u64 expected_version) in
  let! activated := transition Inactive Active delta_id expected in
  if negb activated
  then tx_err (Delta (ActivationRefused delta_id (r_state record) (r_version record) expected_version))
  else
    let! db := tx_get in
    let! size := tx_lift (definition_size_on db) in
    if decide (DEFINITION_MAX_BYTES < size)%Z
    then tx_err (Delta (Learning.CompositionExceeded delta_id size DEFINITION_MAX_BYTES))
    else tx_ret tt.

Definition activate_learning_delta (delta_id : string) (expected_version : Z) (s : TaskStore LearningDb)
    : result LearningDefinition StoreError * TaskStore LearningDb :=
  match transaction (activate_tx delta_id expected_version) s with
  | (Err e, s) => (Err e, s)
  | (Ok _, s) => (learning_definition s, s)
  end.

Definition roll_back_tx (delta_id : string) (expected_version : Z) : tx LearningDb StoreError unit :=
  let! db := tx_get in
  let! found := tx_lift (delta_record_on delta_id db) in
  let! record := tx_lift (ok_or found (delta_missing delta_id)) in
  let! expected := tx_lift (stored_u64 expected_version) in
  let! rolled_back := transition Active RolledBack delta_id expected in
  if negb rolled_back
  then tx_err (Delta (RollbackRefused delta_id (r_state record) (r_version record) expected_version))
  else tx_ret tt.

Definition roll_back_learning_delta (delta_id : string) (expected_version : Z) (s : TaskStore LearningDb)
    : result LearningDefinition StoreError * TaskStore LearningDb :=
  match transaction (roll_back_tx delta_id expected_version) s with
  | (Err e, s) => (Err e, s)
  | (Ok _, s) => (learning_definition s, s)
  end.

(** * Status *)

Record LearningDeltaView := mkView { lv_delta_id : string; lv_scope : string; lv_version : Z }.

Record LearningStatus := mkStatus {
  ls_generation : Z;
  ls_active : list LearningDeltaView;
  ls_rolled_back : list LearningDeltaView;
}.

Definition schema_generation_on (db : LearningDb) : result Z StoreError :=
  read_u64 "schema generation" (user_version db).

(** The loop of [learning_status] over the rows that left [inactive]. *)
Fixpoint status_rows (rows : list DeltaRow) (active rolled_back : list LearningDeltaView)
    : result (list LearningDeltaView * list LearningDeltaView) StoreError :=
  match rows with
  | [] => Ok (active, rolled_back)
  | r :: rows =>
      let? version := read_u64 "delta version" (dr_version r) in
      let view := mkView (dr_delta_id r) (dr_scope r) version in
      let? state := delta_state (dr_state r) in
      match state with
      | Active => status_rows rows (active ++ [view]) rolled_back
      | RolledBack => status_rows rows active (rolled_back ++ [view])
      | Inactive => status_rows rows active rolled_back
      end
  end.

Definition learning_status_on (db : LearningDb) : result LearningStatus StoreError :=
  let? generation := schema_generation_on db in
  let? (active, rolled_back) :=
    status_rows (filter (fun r => dr_state r <> "inactive") (learning_deltas db)) [] [] in
  Ok (mkStatus generation active rolled_back).

Definition learning_status (s : TaskStore LearningDb) : result LearningStatus StoreError :=
  read learning_status_on s.

(** * Routing feedback *)

Definition feedback_row (r : FeedbackRecord) : FeedbackRow :=
  mkFeedbackRow (fb_attempt_id r) (fb_parent_attempt_id r) (fb_purpose r) (fb_connection r)
    (fb_model_id r) (outcome_as_str (fb_outcome r)) (cause_as_str (fb_cause r))
    (to_json (fb_version_evidence r)) (fb_repair_of r) (verdict_as_str (fb_verdict r))
    (reward_as_str (fb_reward r)) (if fb_observed r then 1 else 0).

(** [StoredFeedback::into_record] *)
Definition into_record (r : FeedbackRow) : result FeedbackRecord StoreError :=
  let? outcome := ok_or (outcome_parse (fr_outcome r))
                    (corrupt_column "routing feedback outcome" (fr_outcome r)) in
  let? cause := ok_or (cause_parse (fr_cause r)) (corrupt_column "routing feedback cause" (fr_cause r)) in
  let? verdict := ok_or (verdict_parse (fr_verdict r))
                    (corrupt_column "routing feedback verdict" (fr_verdict r)) in
  let? reward := ok_or (reward_parse (fr_reward r))
                   (corrupt_column "routing feedback reward" (fr_reward r)) in
  let? evidence := ok_or (from_json (fr_version_evidence r))
                     (corrupt_column "routing feedback version evidence" (fr_version_evidence r)) in
  Ok (mkFeedback (fr_attempt_id r) (fr_parent_attempt_id r) (fr_purpose r) (fr_connection r)
        (fr_model_id r) outcome cause evidence (fr_repair_of r) verdict reward
        (negb (fr_observed r =? 0)%Z)).

Definition feedback_on (attempt_id : string) (db : LearningDb) : result (option FeedbackRecord) StoreError :=
  match find (fun r => String.eqb (fr_attempt_id r) attempt_id) (routing_feedback db) with
  | None => Ok None
  | Some r => let? record := into_record r in Ok (Some record)
  end.

Definition feedback (attempt_id : string) (s : TaskStore LearningDb) : result FeedbackRecord StoreError :=
  read (fun db => let? found := feedback_on attempt_id db in
                  ok_or found (Delta (FeedbackMissing attempt_id))) s.

Definition feedback_repairs (attempt_id : string) (s : TaskStore LearningDb)
    : result (list FeedbackRecord) StoreError :=
  read (fun db => decode_all into_record
                    (filter (fun r => fr_repair_of r = Some attempt_id) (routing_feedback db))) s.

(** The transaction of [record_feedback]: [INSERT OR IGNORE], and a refusal when
    no row changed. *)
Definition record_feedback_tx (r : FeedbackRecord) : tx LearningDb StoreError unit :=
  let! db := tx_get in
  if existsb (fun row => String.eqb (fr_attempt_id row) (fb_attempt_id r)) (routing_feedback db)
  then tx_err (Delta (FeedbackAlreadyRecorded (fb_attempt_id r)))
  else tx_modify (with_feedback (fun rows => rows ++ [feedback_row r])).

Definition record_feedback (r : FeedbackRecord) (s : TaskStore LearningDb)
    : result FeedbackRecord StoreError * TaskStore LearningDb :=
  match feedback_validate r with
  | Err e => (Err (Delta e), s)
  | Ok _ =>
      match transaction (record_feedback_tx r) s with
      | (Err e, s) => (Err e, s)
      | (Ok _, s) => (feedback (fb_attempt_id r) s, s)
      end
  end.

(** * Identity rules *)

Abbreviation IdError := (IdentityError StoreError) (only parsing).

#[export] Instance IdentityError_from_store : FromStore (IdentityError StoreError) :=
  Identity.Store (StoreError := StoreError).

Definition migration_of (r : MigrationRow) : result IdentityMigration IdError :=
  let? base_version := map_err Identity.Store (read_u64 "identity base version" (mr_base_version r)) in
  let? kind := ok_or (kind_parse (mr_kind r))
                 (Identity.Store (corrupt_column "identity kind" (mr_kind r))) in
  let? rule := ok_or (rule_parse (mr_rule r))
                 (Identity.Store (corrupt_column "identity rule" (mr_rule r))) in
  Ok (mkMigration base_version kind (mr_old_id r) (mr_new_id r) rule (mr_subject r)).

Definition identity_migrations_on (base_version : Z) (db : LearningDb) : result (list IdentityMigration) IdError :=
  let? stored := map_err Identity.Store (stored_u64 base_version) in
  decode_all migration_of (filter (fun r => mr_base_version r = stored) (identity_migrations db)).

Definition migration_row (m : IdentityMigration) (base_version : Z) : MigrationRow :=
  mkMigrationRow base_version (old_id m) (new_id m) (kind_as_str (kind m)) (rule_as_str (rule m)) (subject m).

Definition same_migration_key (a b : MigrationRow) : bool :=
  bool_decide (mr_base_version a = mr_base_version b /\ mr_kind a = mr_kind b /\
               mr_old_id a = mr_old_id b /\ mr_new_id a = mr_new_id b).

#[export] Instance IdentityMigration_eq_dec : EqDecision IdentityMigration.
Proof. solve_decision. Defined.

(** [record_migration_on] *)
Definition record_migration_on (m : IdentityMigration) (version : Z) : tx LearningDb IdError IdentityMigration :=
  if negb (m_base_version m =? version)%Z then tx_err (UnknownBase (m_base_version m) version)
  else
    let! db := tx_get in
    let! migrations := tx_lift (identity_migrations_on version db) in
    let! _ := tx_lift (Identity.new version (migrations ++ [m])) in
    let! base_version := tx_store (stored_u64 (m_base_version m)) in
    let row := migration_row m base_version in
    let! _ := tx_modify (with_migrations (fun rows =>
                if existsb (same_migration_key row) rows then rows else rows ++ [row])) in
    let! db := tx_get in
    let! migrations := tx_lift (identity_migrations_on version db) in
    match find (fun r => bool_decide (kind r = kind m /\ old_id r = old_id m /\ new_id r = new_id m))
            migrations with
    | None => tx_err (Identity.Store (corrupt_column "identity rule" (old_id m)))
    | Some stored =>
        if bool_decide (stored <> m) then tx_err (Conflicting (old_id m) (new_id m) (rule m))
        else tx_ret stored
    end.

Definition record_identity_migration (m : IdentityMigration) (s : TaskStore LearningDb)
    : result IdentityMigration IdError * TaskStore LearningDb :=
  transaction (let! db := tx_get in record_migration_on m (served_base_version db)) s.

Definition identity_rules (s : TaskStore LearningDb) : result IdentityRules IdError :=
  read (fun db => let? migrations := identity_migrations_on (served_base_version db) db in
                  Identity.new (served_base_version db) migrations) s.

(** * The rebinding pass *)

Record StoredBinding := mkBinding {
  sb_delta_id : string;
  sb_kind : IdentityKind;
  sb_subject : string;
  sb_state : DeltaState;
  sb_condition : option string;
  sb_applies_when : option ConditionFact;
  sb_decision : option PredicateEffect;
}.

Record Conclusion := mkConclusion {
  cn_effect : PredicateEffect;
  cn_moved : bool;
  cn_when : option ConditionFact;
}.

Definition can_both_apply (first second : option ConditionFact) : bool :=
  match first, second with
  | Some (Kind first), Some (Kind second) => bool_decide (first = second)
  | _, _ => true
  end.

(** [stored_binding_on] *)
Definition stored_binding_on (r : DeltaRow) : result (option StoredBinding) IdError :=
  let? scope := ok_or (scope_parse (dr_scope r)) (Identity.Store (corrupt_column "delta scope" (dr_scope r))) in
  let? state := map_err Identity.Store (delta_state (dr_state r)) in
  let? condition := map_err Identity.Store (read_condition (dr_condition_json r)) in
  match scope, dr_capability r, condition with
  | InstructionScope, _, Some (Purpose purpose) =>
      Ok (Some (mkBinding (dr_delta_id r) Role purpose state (dr_condition_json r) None None))
  | InstructionScope, _, _ => Ok None
  | ApplicabilityScope, Some capability, condition =>
      let? decision := ok_or (dr_effect r ≫= effect_parse)
                         (Identity.Store (corrupt_column "delta effect" (default "absent" (dr_effect r)))) in
      Ok (Some (mkBinding (dr_delta_id r) Action capability state None condition (Some decision)))
  | ApplicabilityScope, None, _ => Err (Identity.Store (corrupt_column "delta capability" "absent"))
  end.

(** The id a binding moves to, if it moves. *)
Definition moves_to (rules : IdentityRules) (b : StoredBinding) : option string :=
  match place rules (sb_kind b) (sb_subject b) with
  | Rebound to => if String.eqb to (sb_subject b) then None else Some to
  | Unassigned => None
  end.

Record NamedSubject := mkNamed { ns_kind : IdentityKind; ns_subject : string }.

#[export] Instance NamedSubject_eq_dec : EqDecision NamedSubject.
Proof. solve_decision. Defined.

(** The subjects no rule places, each once, in record order. *)
Fixpoint collect_unassigned (rules : IdentityRules) (bs : list StoredBinding) (seen : list NamedSubject)
    : list NamedSubject :=
  match bs with
  | [] => seen
  | b :: bs =>
      match place rules (sb_kind b) (sb_subject b) with
      | Rebound _ => collect_unassigned rules bs seen
      | Unassigned =>
          let named := mkNamed (sb_kind b) (sb_subject b) in
          collect_unassigned rules bs (if bool_decide (named ∈ seen) then seen else seen ++ [named])
      end
  end.

(** The [BTreeMap] of conclusions, an association list in key order. *)
Definition key_lt (a b : IdentityKind * string) : bool :=
  match a.1, b.1 with
  | Action, Role => true
  | Role, Action => false
  | _, _ => String.ltb a.2 b.2
  end.

Fixpoint push_conclusion (key : IdentityKind * string) (c : Conclusion)
    (decided : list (IdentityKind * string * list Conclusion))
    : list (IdentityKind * string * list Conclusion) :=
  match decided with
  | [] => [(key, [c])]
  | (k, cs) :: rest =>
      if decide (k = key) then (k, cs ++ [c]) :: rest
      else if key_lt key k then (key, [c]) :: decided
      else (k, cs) :: push_conclusion key c rest
  end.

Fixpoint conclusions (rules : IdentityRules) (bs : list StoredBinding)
    (decided : list (IdentityKind * string * list Conclusion))
    : list (IdentityKind * string * list Conclusion) :=
  match bs with
  | [] => decided
  | b :: bs =>
      match sb_decision b with
      | None => conclusions rules bs decided
      | Some decision =>
          if bool_decide (sb_state b <> Active) then conclusions rules bs decided
          else
            let to := moves_to rules b in
            conclusions rules bs
              (push_conclusion (sb_kind b, default (sb_subject b) to)
                 (mkConclusion decision (bool_decide (is_Some to)) (sb_applies_when b)) decided)
      end
  end.

(** Two conclusions the pass would leave on one capability, at odds. *)
Definition disagree (first second : Conclusion) : bool :=
  bool_decide (cn_effect first <> cn_effect second) && (cn_moved first || cn_moved second) &&
  can_both_apply (cn_when first) (cn_when second).

(** The nested loops over one capability's conclusions. *)
Fixpoint first_disagreement (cs : list Conclusion) : option (Conclusion * Conclusion) :=
  match cs with
  | [] => None
  | first :: rest =>
      match find (disagree first) rest with
      | Some second => Some (first, second)
      | None => first_disagreement rest
      end
  end.

Fixpoint check_conclusions (decided : list (IdentityKind * string * list Conclusion)) : result unit IdError :=
  match decided with
  | [] => Ok tt
  | (kind, subject, cs) :: decided =>
      match first_disagreement cs with
      | Some (first, second) =>
          Err (ConflictingBindings kind subject (effect_as_str (cn_effect first))
                 (effect_as_str (cn_effect second)))
      | None => check_conclusions decided
      end
  end.

Record ReboundSubject := mkRebound { rs_delta_id : string; rs_kind : IdentityKind; rs_from : string; rs_to : string }.

(** [REBIND_DELTA_PURPOSE] and [REBIND_DELTA_CAPABILITY] on one row. *)
Definition rebind_purpose (delta_id moved stored : string) (r : DeltaRow) : DeltaRow :=
  if decide (dr_delta_id r = delta_id /\ dr_condition_json r = Some stored)
  then mkDeltaRow (dr_delta_id r) (dr_base_version r) (dr_scope r) (dr_instruction r) (dr_capability r)
         (dr_effect r) (Some moved) (dr_evidence r) (dr_state r) (dr_version r + 1)
  else r.
Definition rebind_capability (delta_id to from : string) (r : DeltaRow) : DeltaRow :=
  if decide (dr_delta_id r = delta_id /\ dr_capability r = Some from)
  then mkDeltaRow (dr_delta_id r) (dr_base_version r) (dr_scope r) (dr_instruction r) (Some to)
         (dr_effect r) (dr_condition_json r) (dr_evidence r) (dr_state r) (dr_version r + 1)
  else r.

(** One conditional update: how many rows matched. *)
Definition update_rows (matches : DeltaRow -> bool) (f : DeltaRow -> DeltaRow) : tx LearningDb IdError nat :=
  let! db := tx_get in
  let! _ := tx_modify (with_deltas (map f)) in
  tx_ret (length (List.filter matches (learning_deltas db))).

(** The loop that moves the placed bindings. *)
Fixpoint move_bindings (rules : IdentityRules) (bs : list StoredBinding) (rebound : list ReboundSubject)
    : tx LearningDb IdError (list ReboundSubject) :=
  match bs with
  | [] => tx_ret rebound
  | b :: bs =>
      match moves_to rules b with
      | None => move_bindings rules bs rebound
      | Some to =>
          let move (update : tx LearningDb IdError nat) :=
            let! changed := update in
            if decide (changed = 0)
            then tx_err (Identity.Store (Storage (BindingMoved (sb_delta_id b))))
            else move_bindings rules bs
                   (rebound ++ [mkRebound (sb_delta_id b) (sb_kind b) (sb_subject b) to]) in
          match sb_kind b, sb_condition b with
          | Role, Some stored =>
              move (update_rows
                      (fun r => bool_decide (dr_delta_id r = sb_delta_id b /\ dr_condition_json r = Some stored))
                      (rebind_purpose (sb_delta_id b) (to_json (Purpose to)) stored))
          | Role, None => move_bindings rules bs rebound
          | Action, _ =>
              move (update_rows
                      (fun r => bool_decide (dr_delta_id r = sb_delta_id b /\ dr_capability r = Some (sb_subject b)))
                      (rebind_capability (sb_delta_id b) to (sb_subject b)))
          end
      end
  end.

Record IdentityRebind := mkRebind {
  rb_base_version : Z;
  rb_migrations : list IdentityMigration;
  rb_rebound : list ReboundSubject;
  rb_unassigned : list NamedSubject;
}.

(** The bindings of every row, in record order. *)
Definition bindings_on (db : LearningDb) : result (list StoredBinding) IdError :=
  let? bindings := decode_all stored_binding_on (learning_deltas db) in
  Ok (omap id bindings).

(** [rebind_learning_identities_on] *)
Definition rebind_learning_identities_on : tx LearningDb IdError IdentityRebind :=
  let! db := tx_get in
  let base_version := served_base_version db in
  let! migrations := tx_lift (identity_migrations_on base_version db) in
  let! rules := tx_lift (Identity.new base_version migrations) in
  let! bindings := tx_lift (bindings_on db) in
  let! _ := tx_lift (check_conclusions (conclusions rules bindings [])) in
  let! rebound := move_bindings rules bindings [] in
  let! db := tx_get in
  let! size := match rebound with [] => tx_ret 0%Z | _ => tx_store (definition_size_on db) end in
  if negb (bool_decide (rebound = [])) && bool_decide (DEFINITION_MAX_BYTES < size)%Z
  then tx_err (Identity.CompositionExceeded base_version size DEFINITION_MAX_BYTES)
  else tx_ret (mkRebind base_version (Identity.migrations rules) rebound
                 (collect_unassigned rules bindings [])).

End LearningStore.
