(* ===== verification/LearningStoreThms.v ===== *)
(** What the learning store guarantees in every state its calls can reach: rows
    read back, the definition a request carries fits its bound and carries no
    credential reference, a delta is activated once and only on verdicts about
    the very change it carries, and a rebinding pass moves each binding to the
    id its rule names. *)

From stdpp Require Import pretty sorting.
From S2P Require Import Prelude.
From S2P Require Import Contracts.
From S2P Require Import Text.
From S2P Require Import Requests.
From S2P Require Import Identity.
From S2P Require Import Learning.
From S2P Require Import LearningThms.
From S2P Require Import Store.
From S2P Require Import LearningStore.

(** * Decoding lists *)

Lemma decode_all_Ok {A B E} (f : A -> result B E) l ys :
  decode_all f l = Ok ys <-> Forall2 (fun x y => f x = Ok y) l ys.
Proof.
  revert ys. induction l as [|x l IH]; intros ys; simpl.
  - split; [by intros [= <-]|]. by inversion 1.
  - destruct (f x) as [y|e] eqn:Hx; simpl.
    + destruct (decode_all f l) as [zs|] eqn:Hl; simpl.
      * split; [intros [= <-]; constructor; [done|by apply IH]|].
        inversion 1 as [|? y' ? ys' Hy Hys]; simplify_eq. rewrite Hx in Hy. apply IH in Hys. by simplify_eq.
      * split; [done|]. inversion 1 as [|? y' ? ys' Hy Hys]; simplify_eq. by apply IH in Hys.
    + split; [done|]. inversion 1; congruence.
Qed.

(** Decoding a list on which the function is known. *)
Lemma decode_all_map {A B E} (f : A -> result B E) (g : A -> B) l :
  Forall (fun x => f x = Ok (g x)) l -> decode_all f l = Ok (map g l).
Proof. intros Hl. apply decode_all_Ok. induction Hl; simpl; constructor; auto. Qed.

Lemma omap_cons {A B} (f : A -> option B) x (l : list A) :
  omap f (x :: l) = match f x with Some y => y :: omap f l | None => omap f l end.
Proof. done. Qed.

Section LearningStoreThms.
Context `{JsonCodec ConditionFact} `{JsonCodec VersionEvidence}.

(** * What a row stores *)

(** The columns that hold one change. *)
Definition instruction_column (c : DeltaChange) : option string := instruction c.
Definition capability_column (c : DeltaChange) : option string :=
  match payload c with Instruction _ => None | Applicability capability _ => Some capability end.
Definition effect_column (c : DeltaChange) : option string :=
  match payload c with Instruction _ => None | Applicability _ effect => Some (effect_as_str effect) end.

(** The row that stores a record. *)
Definition row_of (d : DeltaRecord) : DeltaRow :=
  mkDeltaRow (r_delta_id d) (r_base_version d) (scope_as_str (scope (r_change d)))
    (instruction_column (r_change d)) (capability_column (r_change d)) (effect_column (r_change d))
    (to_json <$> when (r_change d)) (r_evidence d) (state_as_str (r_state d)) (r_version d).

(** A record the store may hold: validated, and its counters are counters. *)
Definition record_ok (d : DeltaRecord) : Prop :=
  validate (r_delta_id d) (r_change d) = Ok tt /\
  carries_credential_reference (r_evidence d) = false /\
  (0 <= r_base_version d)%Z /\ (1 <= r_version d)%Z.

Lemma candidate_row_of c base :
  candidate_row c base = row_of (mkRecord (c_delta_id c) base (c_change c) (c_evidence c) Inactive 1).
Proof.
  unfold candidate_row, row_of, instruction_column, instruction, capability_column, effect_column. simpl.
  by destruct (payload (c_change c)).
Qed.

(** The laws of the vocabularies, in the store's names. *)
Lemma state_reads a : state_parse (state_as_str a) = Some a.
Proof. exact (reading_spelling a). Qed.

Lemma scope_reads a : scope_parse (scope_as_str a) = Some a.
Proof. exact (reading_spelling a). Qed.

Lemma effect_reads a : effect_parse (effect_as_str a) = Some a.
Proof. exact (reading_spelling a). Qed.

Lemma case_kind_reads a : case_kind_parse (case_kind_as_str a) = Some a.
Proof. exact (reading_spelling a). Qed.

Lemma read_condition_to_json c : read_condition (to_json <$> c) = Ok c.
Proof. destruct c as [f|]; simpl; [|done]. by rewrite from_to_json. Qed.

Lemma delta_change_of (c : DeltaChange) :
  delta_change (scope_as_str (scope c)) (instruction_column c) (capability_column c) (effect_column c)
    (to_json <$> when c) = Ok c.
Proof.
  unfold delta_change. rewrite scope_reads. cbn [ok_or rbind]. rewrite read_condition_to_json.
  unfold scope, instruction_column, instruction, capability_column, effect_column.
  destruct c as [[text|capability effect] w]; cbn [payload payload_scope rbind ok_or]; [done|].
  by rewrite effect_reads.
Qed.

Lemma read_u64_Ok column v : (0 <= v)%Z -> read_u64 column v = Ok v.
Proof. intros. unfold read_u64. by rewrite decide_True. Qed.

Lemma delta_record_of d : record_ok d -> delta_record (row_of d) = Ok d.
Proof.
  intros (_ & _ & Hb & Hv). unfold delta_record, row_change, row_of. simpl.
  rewrite !read_u64_Ok by lia. cbn [rbind]. rewrite delta_change_of. cbn [rbind].
  unfold delta_state. rewrite state_reads. by destruct d.
Qed.

(** The delta an active record contributes to the definition. *)
Definition delta_of (d : DeltaRecord) : LearningDelta := mkDelta (r_delta_id d) (r_version d) (r_change d).

Lemma active_delta_of d : record_ok d -> active_delta (row_of d) = Ok (delta_of d).
Proof.
  intros (_ & _ & _ & Hv). unfold active_delta, row_of. simpl. rewrite read_u64_Ok by lia. simpl.
  assert (E : scope_as_str (if bool_decide (is_Some (instruction_column (r_change d)))
                            then InstructionScope else ApplicabilityScope) =
              scope_as_str (scope (r_change d))).
  { unfold instruction_column, instruction, scope. by destruct (payload (r_change d)). }
  rewrite E, delta_change_of. done.
Qed.

(** The database as records: the abstraction the theorems speak about. *)
Definition definition_of (ds : list DeltaRecord) : LearningDefinition :=
  map delta_of (filter (fun d => r_state d = Active) ds).

Definition size_of (ds : list DeltaRecord) : Z :=
  max_instruction_bytes (definition_of ds) LARGEST_INSTRUCTION_BASE.

Lemma filter_state st ds :
  filter (fun r => dr_state r = state_as_str st) (map row_of ds) =
  map row_of (filter (fun d => r_state d = st) ds).
Proof.
  apply filter_map. intros d. split; [|by intros <-]. intros E.
  exact (spelling_inj (A := DeltaState) _ _ E).
Qed.

Lemma definition_on_records ds db :
  learning_deltas db = map row_of ds -> Forall record_ok ds ->
  definition_on db = Ok (definition_of ds) /\ definition_size_on db = Ok (size_of ds).
Proof.
  intros Hdb Hok. assert (Hdef : definition_on db = Ok (definition_of ds)).
  { unfold definition_on. rewrite Hdb. change "active" with (state_as_str Active). rewrite filter_state.
    unfold definition_of. apply decode_all_Ok. apply Forall2_fmap_2.
    apply Forall_Forall2_diag. apply Forall_forall. intros d [_ Hd]%list_elem_of_filter.
    rewrite Forall_forall in Hok. by apply active_delta_of, Hok. }
  split; [done|]. unfold definition_size_on. by rewrite Hdef.
Qed.

(** * The invariant *)

Definition ids (ds : list DeltaRecord) : list string := map r_delta_id ds.

Definition corpus_row_of (v : CorpusVerdict) : CorpusRow := verdict_row v (v_delta_version v).

(** A verdict is about a recorded delta, and one at the version the delta has now
    judged the very change it carries now. *)
Definition judged (ds : list DeltaRecord) (v : CorpusVerdict) : Prop :=
  exists d, d ∈ ds /\ r_delta_id d = v_delta_id v /\ (0 <= v_delta_version v <= r_version d)%Z /\
    (v_delta_version v = r_version d -> exists active control case,
       v = corpus_verdict (mkCorpusCandidate (r_delta_id d) (r_version d) (r_change d)) active control case
             LARGEST_INSTRUCTION_BASE).

(** The database as the records, verdicts, feedback and rules it stores. *)
Record Holds (db : LearningDb) (ds : list DeltaRecord) (vs : list CorpusVerdict)
    (fs : list FeedbackRecord) (ms : list IdentityMigration) : Prop := {
  h_deltas : learning_deltas db = map row_of ds;
  h_corpus : LearningStore.learning_corpus db = map corpus_row_of vs;
  h_feedback : routing_feedback db = map feedback_row fs;
  h_migrations : identity_migrations db = map (fun m => migration_row m (m_base_version m)) ms;
  h_ids : NoDup (ids ds);
  h_records : Forall record_ok ds;
  h_size : (size_of ds <= DEFINITION_MAX_BYTES)%Z;
  h_retention : length (filter (fun d => r_state d = Inactive) ds) <= LEARNING_DELTA_RETENTION;
  h_judged : Forall (judged ds) vs;
  h_kinds : NoDup (map (fun v => (v_delta_id v, v_kind v)) vs);
  h_accepted : Forall (fun f => feedback_validate f = Ok tt) fs;
  h_attempts : NoDup (map fb_attempt_id fs);
  h_rules : Forall (fun m => 0 <= m_base_version m)%Z ms;
  h_versions : (0 <= served_base_version db /\ 0 <= user_version db)%Z;
}.

(** A record by its id. *)
Lemma delta_row_records id ds db :
  learning_deltas db = map row_of ds ->
  delta_row id db = row_of <$> find (fun d => String.eqb (r_delta_id d) id) ds.
Proof. intros Hdb. unfold delta_row. rewrite Hdb. by apply find_map. Qed.

Lemma find_record id ds d :
  find (fun d => String.eqb (r_delta_id d) id) ds = Some d -> d ∈ ds /\ r_delta_id d = id.
Proof. by intros [Hd ->%String.eqb_eq]%find_Some. Qed.

Lemma find_no_record id ds :
  find (fun d => String.eqb (r_delta_id d) id) ds = None -> id ∉ ids ds.
Proof.
  intros Hf%find_None Hin. apply list_elem_of_fmap in Hin as (d & -> & Hd).
  rewrite Forall_forall in Hf. specialize (Hf d Hd). by rewrite String.eqb_refl in Hf.
Qed.

(** Records with distinct ids are known by them. *)
Lemma same_record ds d e : NoDup (ids ds) -> d ∈ ds -> e ∈ ds -> r_delta_id d = r_delta_id e -> d = e.
Proof.
  intros Hnd Hd He E. induction ds as [|x ds IH]; [by inversion Hd|].
  apply NoDup_cons in Hnd as [Hx Hnd].
  apply elem_of_cons in Hd as [->|Hd]; apply elem_of_cons in He as [->|He]; [done|..|by apply IH].
  - exfalso. apply Hx. rewrite E. by apply list_elem_of_fmap_2.
  - exfalso. apply Hx. rewrite <- E. by apply list_elem_of_fmap_2.
Qed.

(** * Recording a candidate *)

(** The records retention keeps: the newest [keep] inactive ones, and every
    record that left [inactive]. *)
Definition stale_ids (keep : nat) (ds : list DeltaRecord) : list string :=
  ids (drop keep (reverse (filter (fun d => r_state d = Inactive) ds))).
Definition kept (keep : nat) (ds : list DeltaRecord) : list DeltaRecord :=
  filter (fun d => r_delta_id d ∉ stale_ids keep ds) ds.

Lemma stale_candidates_of keep ds : stale_candidates keep (map row_of ds) = stale_ids keep ds.
Proof.
  unfold stale_candidates, stale_ids, ids. change "inactive" with (state_as_str Inactive).
  rewrite filter_state. rewrite <- fmap_reverse, <- fmap_drop, map_map. done.
Qed.

Lemma prune_deltas keep db ds :
  learning_deltas db = map row_of ds ->
  learning_deltas (prune_learning_candidates keep db) = map row_of (kept keep ds).
Proof.
  intros Hdb. unfold prune_learning_candidates, kept. simpl. rewrite Hdb, stale_candidates_of.
  by apply filter_map.
Qed.

Lemma prune_corpus keep db ds vs :
  learning_deltas db = map row_of ds -> LearningStore.learning_corpus db = map corpus_row_of vs ->
  LearningStore.learning_corpus (prune_learning_candidates keep db) =
  map corpus_row_of (filter (fun v => v_delta_id v ∉ stale_ids keep ds) vs).
Proof.
  intros Hdb Hvs. unfold prune_learning_candidates. simpl. rewrite Hdb, Hvs, stale_candidates_of.
  by apply filter_map.
Qed.

Lemma kept_count keep ds : length (filter (fun d => r_state d = Inactive) (kept keep ds)) <= keep.
Proof.
  set (inactive := filter (fun d => r_state d = Inactive) ds).
  assert (E : filter (fun d => r_state d = Inactive) (kept keep ds) =
              filter (fun d => r_delta_id d ∉ stale_ids keep ds) inactive).
  { unfold kept, inactive. rewrite !list_filter_filter. apply filter_ext_in. tauto. }
  rewrite E, <- (reverse_involutive inactive), <- (take_drop keep (reverse inactive)), reverse_app, filter_app.
  rewrite (filter_none _ (reverse (drop keep (reverse inactive)))), app_nil_l.
  - etrans; [apply length_filter|]. rewrite length_reverse, length_take. lia.
  - intros d Hd Hn. rewrite elem_of_reverse in Hd. apply Hn. by apply list_elem_of_fmap_2.
Qed.

(** Retention never reaches a record that left [inactive]. *)
Lemma kept_settled keep ds d :
  NoDup (ids ds) -> d ∈ ds -> r_state d <> Inactive -> r_delta_id d ∉ stale_ids keep ds.
Proof.
  intros Hnd Hd Hs Hin. unfold stale_ids in Hin. apply list_elem_of_fmap in Hin as (e & E & He).
  assert (He' : e ∈ reverse (filter (fun d => r_state d = Inactive) ds)).
  { rewrite <- (take_drop keep), elem_of_app. by right. }
  rewrite elem_of_reverse, list_elem_of_filter in He'. destruct He' as [Hi Hin].
  apply Hs. by rewrite (same_record ds d e).
Qed.

Lemma kept_definition keep ds : NoDup (ids ds) -> definition_of (kept keep ds) = definition_of ds.
Proof.
  intros Hnd. unfold definition_of, kept. f_equal. rewrite list_filter_filter.
  apply filter_ext_in. intros d Hd. split; [tauto|]. intros Ha. split; [done|].
  apply kept_settled; [done..|]. congruence.
Qed.

(** A filter of the records keeps what does not depend on the dropped ones. *)
Lemma NoDup_map_filter {A B} (f : A -> B) (P : A -> Prop) `{!forall x, Decision (P x)} (l : list A) :
  NoDup (map f l) -> NoDup (map f (filter P l)).
Proof.
  induction l as [|x l IH]; [done|]. cbn [map]. intros [Hx Hl]%NoDup_cons. rewrite filter_cons.
  destruct (decide (P x)); [|by apply IH]. cbn [map]. apply NoDup_cons. split; [|by apply IH].
  intros Hin. apply Hx. apply list_elem_of_fmap in Hin as (y & -> & Hy).
  apply list_elem_of_fmap_2. by apply list_elem_of_filter in Hy as [_ Hy].
Qed.

Lemma candidate_validate_ok c :
  candidate_validate c = Ok tt ->
  validate (c_delta_id c) (c_change c) = Ok tt /\ carries_credential_reference (c_evidence c) = false.
Proof.
  unfold candidate_validate. destruct (validate _ _) as [[]|]; simpl; [|done].
  destruct (trim_is_empty _); [done|]. by destruct (carries_credential_reference _).
Qed.

(** The record a candidate becomes. *)
Definition new_record (c : DeltaCandidate) (base_version : Z) : DeltaRecord :=
  mkRecord (c_delta_id c) base_version (c_change c) (c_evidence c) Inactive 1.

(** What one recording does to the records: append, then retention. *)
Lemma record_delta_effect c db db' u ds :
  learning_deltas db = map row_of ds -> record_delta_tx c db = Ok (u, db') ->
  (c_delta_id c ∉ ids ds) /\
  db' = prune_learning_candidates LEARNING_DELTA_RETENTION
          (with_deltas (fun rows => rows ++ [row_of (new_record c (c_base_version c))]) db) /\
  learning_deltas (with_deltas (fun rows => rows ++ [row_of (new_record c (c_base_version c))]) db) =
    map row_of (ds ++ [new_record c (c_base_version c)]).
Proof.
  intros Hdb Ht. unfold record_delta_tx, insert_learning_delta in Ht. inv_tx.
  rewrite candidate_row_of in *. fold (new_record c (c_base_version c)) in *.
  rewrite (delta_row_records _ _ _ Hdb) in *. simpl in *.
  destruct (find _ ds) as [d|] eqn:Hf; simpl in *; inv_tx; simpl in *; inv_tx.
  split; [by apply find_no_record in Hf|]. split; [done|]. by rewrite Hdb, map_app.
Qed.

Lemma ids_snoc ds new : NoDup (ids ds) -> r_delta_id new ∉ ids ds -> NoDup (ids (ds ++ [new])).
Proof.
  intros Hnd Hid. unfold ids. rewrite map_app. apply NoDup_app. split_and!; [done| |apply NoDup_singleton].
  intros x Hx Hx'%list_elem_of_singleton. by subst x.
Qed.

Lemma record_delta_holds c db db' u ds vs fs ms :
  candidate_validate c = Ok tt -> (0 <= c_base_version c)%Z -> Holds db ds vs fs ms ->
  record_delta_tx c db = Ok (u, db') ->
  exists vs', Holds db' (kept LEARNING_DELTA_RETENTION (ds ++ [new_record c (c_base_version c)])) vs' fs ms.
Proof.
  intros Hc Hb Hh Ht.
  destruct (record_delta_effect _ _ _ _ ds (h_deltas _ _ _ _ _ Hh) Ht) as (Hid & -> & Hdb).
  set (new := new_record c (c_base_version c)) in *. apply candidate_validate_ok in Hc as [Hv He].
  assert (Hnd : NoDup (ids (ds ++ [new]))).
  { apply ids_snoc; [apply Hh|done]. }
  exists (filter (fun v => v_delta_id v ∉ stale_ids LEARNING_DELTA_RETENTION (ds ++ [new])) vs).
  constructor; try apply Hh.
  - by apply prune_deltas.
  - apply prune_corpus; [done|apply Hh].
  - by apply NoDup_map_filter.
  - apply Forall_forall. intros d [_ [Hd|Hd%list_elem_of_singleton]%elem_of_app]%list_elem_of_filter.
    + pose proof (h_records _ _ _ _ _ Hh) as Hr. rewrite Forall_forall in Hr. by apply Hr.
    + by subst d.
  - unfold size_of. rewrite kept_definition by done. unfold definition_of. rewrite filter_app, map_app.
    simpl. rewrite app_nil_r. apply Hh.
  - apply kept_count.
  - apply Forall_forall. intros v [Hs Hin]%list_elem_of_filter.
    pose proof (h_judged _ _ _ _ _ Hh) as Hj. rewrite Forall_forall in Hj.
    destruct (Hj v Hin) as (d & Hd & Eid & Hver & Hw). exists d. split_and!; [|done|lia..|done].
    unfold kept. apply list_elem_of_filter. split; [by rewrite Eid|]. apply elem_of_app. by left.
  - apply NoDup_map_filter, Hh.
Qed.

(** * Recording verdicts *)

Definition replace_verdict (v : CorpusVerdict) (vs : list CorpusVerdict) : list CorpusVerdict :=
  filter (fun w => ~ (v_delta_id w = v_delta_id v /\ v_kind w = v_kind v)) vs ++ [v].

Lemma replace_corpus_of v vs :
  replace_corpus (corpus_row_of v) (map corpus_row_of vs) = map corpus_row_of (replace_verdict v vs).
Proof.
  unfold replace_corpus, replace_verdict. rewrite map_app. f_equal. apply filter_map.
  intros w. simpl. split; intros Hn [E1 E2]; apply Hn; split; try done; [by rewrite E2|].
  exact (spelling_inj (A := CorpusCaseKind) _ _ E2).
Qed.

Lemma replace_verdict_in v w vs : w ∈ replace_verdict v vs -> w = v \/ w ∈ vs.
Proof.
  unfold replace_verdict. intros [[_ Hw]%list_elem_of_filter|Hw%list_elem_of_singleton]%elem_of_app; auto.
Qed.

Lemma replace_verdict_keys v vs :
  NoDup (map (fun v => (v_delta_id v, v_kind v)) vs) ->
  NoDup (map (fun v => (v_delta_id v, v_kind v)) (replace_verdict v vs)).
Proof.
  intros Hnd. unfold replace_verdict. rewrite map_app. apply NoDup_app. split_and!.
  - by apply NoDup_map_filter.
  - intros k Hk Hk'%list_elem_of_singleton. apply list_elem_of_fmap in Hk as (w & -> & Hw).
    apply list_elem_of_filter in Hw as [Hn _]. apply Hn. by injection Hk'.
  - apply NoDup_singleton.
Qed.

Lemma record_cases_inv d active cases u db db' ds vs fs ms :
  d ∈ ds -> Holds db ds vs fs ms ->
  record_cases (mkCorpusCandidate (r_delta_id d) (r_version d) (r_change d)) active cases db = Ok (u, db') ->
  exists vs', Holds db' ds vs' fs ms.
Proof.
  intros Hd. revert db vs. induction cases as [|[case control] cases IH]; intros db vs Hh Ht; cbn [record_cases] in Ht.
  - inv_tx. by exists vs.
  - inv_tx.
    set (v := corpus_verdict _ _ _ _ _) in *.
    eapply (IH _ (replace_verdict v vs)); [|eassumption]. constructor; try apply Hh.
    + simpl. rewrite (h_corpus _ _ _ _ _ Hh). apply replace_corpus_of.
    + apply Forall_forall. intros w [->|Hw]%replace_verdict_in.
      * pose proof (h_records _ _ _ _ _ Hh) as Hr. rewrite Forall_forall in Hr.
        destruct (Hr d Hd) as (_ & _ & _ & Hv).
        assert (Ev : v_delta_version v = r_version d /\ v_delta_id v = r_delta_id d).
        { unfold v, corpus_verdict. by destruct (judge_case _ _ _ _ _) as [[??]?]. }
        destruct Ev as [Ev Ei]. exists d. split_and!; [done|done|lia|lia|]. intros _.
        by exists active, control, case.
      * pose proof (h_judged _ _ _ _ _ Hh) as Hj. rewrite Forall_forall in Hj. by apply Hj.
    + apply replace_verdict_keys, Hh.
Qed.

(** * Transitions *)

Definition pinned (from : DeltaState) (id : string) (expected : Z) (d : DeltaRecord) : Prop :=
  r_delta_id d = id /\ r_state d = from /\ r_version d = expected.
#[local] Instance pinned_dec from id expected d : Decision (pinned from id expected d).
Proof. unfold pinned. apply _. Defined.

Definition advance (from to : DeltaState) (id : string) (expected : Z) (d : DeltaRecord) : DeltaRecord :=
  if decide (pinned from id expected d)
  then mkRecord (r_delta_id d) (r_base_version d) (r_change d) (r_evidence d) to (r_version d + 1)
  else d.

Lemma set_state_of from to id expected d :
  set_state from to id expected (row_of d) = row_of (advance from to id expected d).
Proof.
  unfold set_state, advance, pinned. simpl.
  destruct (decide (r_delta_id d = id /\ r_state d = from /\ r_version d = expected)) as [(?&Hs&?)|Hn].
  - rewrite decide_True; [done|]. by rewrite Hs.
  - rewrite decide_False; [done|]. intros (?&Hs&?). apply Hn. split_and!; try done.
    exact (spelling_inj (A := DeltaState) _ _ Hs).
Qed.

Lemma transition_effect from to id expected db b db' ds :
  learning_deltas db = map row_of ds -> transition from to id expected db = Ok (b, db') ->
  db' = with_deltas (fun _ => map row_of (map (advance from to id expected) ds)) db /\
  (b = true <-> exists d, d ∈ ds /\ pinned from id expected d).
Proof.
  intros Hdb Ht. unfold transition in Ht. inv_tx. rewrite Hdb. split.
  - unfold with_deltas. f_equal. rewrite Hdb, !map_map. apply map_ext. intros d. apply set_state_of.
  - rewrite existsb_exists. split.
    + intros (r & (d & <- & Hd)%in_map_iff & Hb%bool_decide_eq_true). exists d.
      split; [by apply list_elem_of_In|]. destruct Hb as (? & Hs & ?). split_and!; try done.
      exact (spelling_inj (A := DeltaState) _ _ Hs).
    + intros (d & Hd & ? & <- & ?). exists (row_of d). split; [by apply in_map, list_elem_of_In|].
      by apply bool_decide_eq_true.
Qed.

Lemma ids_map f ds : (forall d, r_delta_id (f d) = r_delta_id d) -> ids (map f ds) = ids ds.
Proof. intros Hf. unfold ids. rewrite map_map. by apply map_ext. Qed.

Lemma advance_cases from to id expected d :
  (pinned from id expected d /\ advance from to id expected d =
     mkRecord (r_delta_id d) (r_base_version d) (r_change d) (r_evidence d) to (r_version d + 1)) \/
  (~ pinned from id expected d /\ advance from to id expected d = d).
Proof. unfold advance. case_decide; auto. Qed.

Lemma advance_id from to id expected d : r_delta_id (advance from to id expected d) = r_delta_id d.
Proof. unfold advance. by case_decide. Qed.

(** Records that move on keep the invariant, if the new definition fits. *)
Lemma advance_inv from to id expected db ds vs fs ms :
  to <> Inactive -> Holds db ds vs fs ms ->
  (size_of (map (advance from to id expected) ds) <= DEFINITION_MAX_BYTES)%Z ->
  Holds (with_deltas (fun _ => map row_of (map (advance from to id expected) ds)) db)
    (map (advance from to id expected) ds) vs fs ms.
Proof.
  intros Hto Hh Hsize. constructor; try apply Hh; try done.
  - rewrite ids_map by apply advance_id. apply Hh.
  - apply Forall_map. eapply Forall_impl; [apply Hh|]. intros d (? & ? & ? & ?).
    unfold advance. case_decide; [|done]. split_and!; try done; simpl; lia.
  - etrans; [|apply (h_retention _ _ _ _ _ Hh)].
    assert (Hle : forall l, length (filter (fun d => r_state d = Inactive) (map (advance from to id expected) l)) <=
                       length (filter (fun d => r_state d = Inactive) l)); [|apply Hle].
    intros l. induction l as [|d l IH]; [done|]. cbn [map]. rewrite !filter_cons.
    destruct (advance_cases from to id expected d) as [[_ ->]|[_ ->]]; simpl.
    + rewrite decide_False by done. case_decide; simpl; lia.
    + case_decide; simpl; lia.
  - pose proof (h_judged _ _ _ _ _ Hh) as Hj. eapply Forall_impl; [exact Hj|].
    intros v (d & Hd & Eid & Hver & Hw). exists (advance from to id expected d).
    split; [by apply list_elem_of_fmap_2|]. split; [by rewrite advance_id|].
    destruct (advance_cases from to id expected d) as [[_ ->]|[_ ->]]; simpl; [|done]. split; [lia|]. lia.
Qed.

(** Withdrawing shrinks the definition. *)
Lemma rollback_sublist id expected ds :
  sublist (definition_of (map (advance Active RolledBack id expected) ds)) (definition_of ds).
Proof.
  unfold definition_of. induction ds as [|d ds IH]; [done|]. cbn [map]. rewrite !filter_cons.
  destruct (advance_cases Active RolledBack id expected d) as [[(? & Hs & ?) ->]|[Hn ->]]; simpl.
  - rewrite (decide_True _ _ Hs). simpl. by apply sublist_cons.
  - case_decide; simpl; [by apply sublist_skip|done].
Qed.

(** * Activation *)

Lemma corpus_verdict_of_row v : (0 <= v_delta_version v)%Z -> corpus_verdict_of (corpus_row_of v) = Ok v.
Proof.
  intros Hv. unfold corpus_verdict_of, corpus_row_of, verdict_row. cbn [cr_case_kind cr_delta_version cr_verdict
    cr_delta_id cr_expected cr_observed].
  rewrite case_kind_reads. cbn [ok_or rbind]. rewrite read_u64_Ok by done. cbn [rbind].
  destruct v as [i ver k ex ob []]; done.
Qed.

Lemma judged_version db ds vs fs ms v : Holds db ds vs fs ms -> v ∈ vs -> (0 <= v_delta_version v)%Z.
Proof.
  intros Hh Hv. pose proof (h_judged _ _ _ _ _ Hh) as Hj. rewrite Forall_forall in Hj.
  destruct (Hj v Hv) as (d & _ & _ & Hver & _). lia.
Qed.

(** The verdicts read for a delta are the stored ones about it; the read does not
    fail. *)
Lemma corpus_on_records db ds vs fs ms id :
  Holds db ds vs fs ms ->
  exists verdicts, corpus_on id db = Ok verdicts /\ verdicts ≡ₚ filter (fun v => v_delta_id v = id) vs.
Proof.
  intros Hh. unfold corpus_on.
  assert (Hp : corpus_rows id db ≡ₚ map corpus_row_of (filter (fun v => v_delta_id v = id) vs)).
  { unfold corpus_rows. rewrite (merge_sort_Permutation kind_le), (h_corpus _ _ _ _ _ Hh).
    by rewrite (filter_map corpus_row_of _ (fun v => v_delta_id v = id)). }
  apply Permutation_map_inv in Hp as (ws & -> & Hws). exists ws. split; [|done].
  apply decode_all_Ok, Forall2_fmap_l, Forall_Forall2_diag, Forall_forall. intros v Hv.
  rewrite <- Hws in Hv. apply list_elem_of_filter in Hv as [_ Hv].
  apply corpus_verdict_of_row. by eapply judged_version.
Qed.

Lemma require_kinds_ok id version verdicts kinds :
  require_kinds id version verdicts kinds = Ok tt ->
  forall k, k ∈ kinds -> exists v, v ∈ verdicts /\ v_kind v = k /\ v_passed v = true.
Proof.
  induction kinds as [|k kinds IH]; cbn [require_kinds]; intros Hr k' Hk'; [by inversion Hk'|].
  destruct (find _ verdicts) as [v|] eqn:Hf; [|done].
  apply find_Some in Hf as [Hv Hk%bool_decide_eq_true].
  destruct (v_passed v) eqn:Hp; [|done]. simpl in Hr.
  apply elem_of_cons in Hk' as [->|Hk']; [by exists v|by apply IH].
Qed.

(** The verdicts activation was granted on. *)
Definition passed (vs : list CorpusVerdict) (id : string) (version : Z) (k : CorpusCaseKind) : Prop :=
  exists v, v ∈ vs /\ v_delta_id v = id /\ v_delta_version v = version /\ v_kind v = k /\ v_passed v = true.

Lemma activate_effect id expected db u db' ds vs fs ms :
  Holds db ds vs fs ms -> activate_tx id expected db = Ok (u, db') ->
  db' = with_deltas (fun _ => map row_of (map (advance Inactive Active id expected) ds)) db /\
  (exists d, d ∈ ds /\ pinned Inactive id expected d) /\
  (forall k, passed vs id expected k) /\
  (size_of (map (advance Inactive Active id expected) ds) <= DEFINITION_MAX_BYTES)%Z.
Proof.
  intros Hh Ht. unfold activate_tx in Ht.
  destruct (corpus_on_records _ _ _ _ _ id Hh) as (verdicts & Hc & Hverd).
  inv_tx.
  destruct (transition_effect _ _ _ _ _ _ _ _ (h_deltas _ _ _ _ _ Hh) ltac:(eassumption)) as [-> Hm].
  match goal with H : (if negb ?b then _ else _) _ = Ok _ |- _ => destruct b; simpl in H; [|by inv_tx] end.
  inv_tx. case_decide; [by inv_tx|]. inv_tx.
  split; [done|]. split; [by apply Hm|]. split.
  - intros k. match goal with H : require_corpus _ _ _ = Ok ?t |- _ => destruct t; unfold require_corpus in H;
      destruct (require_kinds_ok _ _ _ _ H k) as (v & Hv & Hk & Hp) end.
    { destruct k; repeat (apply elem_of_cons; first [by left|right]). }
    apply list_elem_of_filter in Hv as [Hver Hin]. simplify_eq.
    rewrite Hverd in Hin. apply list_elem_of_filter in Hin as [Hid Hin].
    by exists v.
  - assert (Hok : Forall record_ok (map (advance Inactive Active id expected) ds)).
    { apply Forall_map. eapply Forall_impl; [apply Hh|]. intros d (? & ? & ? & ?).
      destruct (advance_cases Inactive Active id expected d) as [[_ ->]|[_ ->]]; split_and!; simpl; try done; lia. }
    match goal with H : definition_size_on ?db = Ok _ |- _ =>
      destruct (definition_on_records _ db eq_refl Hok) as [_ Hs]; rewrite Hs in H end.
    simplify_eq. lia.
Qed.

(** * The rebinding pass *)

(** The binding a record carries. *)
Definition binding_of (d : DeltaRecord) : option StoredBinding :=
  match payload (r_change d), when (r_change d) with
  | Instruction _, Some (Purpose purpose) =>
      Some (mkBinding (r_delta_id d) Role purpose (r_state d) (Some (to_json (Purpose purpose))) None None)
  | Instruction _, _ => None
  | Applicability capability effect, w =>
      Some (mkBinding (r_delta_id d) Action capability (r_state d) None w (Some effect))
  end.

Lemma stored_binding_of d : stored_binding_on (row_of d) = Ok (binding_of d).
Proof.
  unfold stored_binding_on, row_of. cbn [dr_scope dr_state dr_condition_json dr_capability dr_effect dr_delta_id].
  rewrite scope_reads. cbn [ok_or rbind]. unfold delta_state. rewrite state_reads. cbn [ok_or map_err rbind].
  rewrite read_condition_to_json. cbn [map_err rbind].
  unfold binding_of, scope, capability_column, effect_column.
  destruct (r_change d) as [[text|capability effect] [[p|k|s]|]]; cbn [payload payload_scope when]; try done;
    cbn [mbind option_bind]; by rewrite effect_reads.
Qed.

Lemma bindings_on_records db ds :
  learning_deltas db = map row_of ds -> bindings_on db = Ok (omap binding_of ds).
Proof.
  intros Hdb. unfold bindings_on. rewrite Hdb.
  assert (E : decode_all stored_binding_on (map row_of ds) = Ok (map binding_of ds)).
  { apply decode_all_Ok. apply Forall2_fmap. apply Forall_Forall2_diag, Forall_forall. intros d _.
    apply stored_binding_of. }
  rewrite E. cbn [rbind]. f_equal. clear. induction ds as [|d ds IH]; [done|]. cbn [map].
  rewrite !omap_cons, IH. by destruct (binding_of d).
Qed.

(** The change of a record whose binding moved. *)
Definition rebound_change (c : DeltaChange) (to : string) : DeltaChange :=
  match payload c with
  | Instruction text => mkChange (Instruction text) (Some (Purpose to))
  | Applicability _ effect => mkChange (Applicability to effect) (when c)
  end.

Definition target_of (rules : IdentityRules) (d : DeltaRecord) : option string :=
  binding_of d ≫= moves_to rules.

(** What a pass does to one record. *)
Definition rebind_record (rules : IdentityRules) (d : DeltaRecord) : DeltaRecord :=
  match target_of rules d with
  | None => d
  | Some to =>
      mkRecord (r_delta_id d) (r_base_version d) (rebound_change (r_change d) to) (r_evidence d) (r_state d)
        (r_version d + 1)
  end.

(** And what it reports about it. *)
Definition rebound_of (rules : IdentityRules) (d : DeltaRecord) : option ReboundSubject :=
  b ← binding_of d; to ← moves_to rules b;
  Some (mkRebound (r_delta_id d) (sb_kind b) (sb_subject b) to).

(** A conditional update of one row, among rows with other ids. *)
Lemma update_one f matches pre d suf d' db :
  learning_deltas db = map row_of (pre ++ d :: suf) -> NoDup (ids (pre ++ d :: suf)) ->
  f (row_of d) = row_of d' -> matches (row_of d) = true ->
  (forall e, r_delta_id e <> r_delta_id d -> f (row_of e) = row_of e /\ matches (row_of e) = false) ->
  update_rows matches f db =
    Ok (1, with_deltas (fun _ => map row_of (pre ++ d' :: suf)) db).
Proof.
  intros Hdb Hnd Hf Hm Hother. unfold update_rows, tx_bind, tx_get, tx_modify, tx_ret. rewrite Hdb.
  assert (Hne : forall e, e ∈ pre \/ e ∈ suf -> r_delta_id e <> r_delta_id d).
  { unfold ids in Hnd. rewrite map_app in Hnd. apply NoDup_app in Hnd as (_ & Hdis & Hnd).
    cbn [map] in Hnd. apply NoDup_cons in Hnd as [Hd _]. intros e [He|He] E.
    - apply (Hdis (r_delta_id e)); [by apply list_elem_of_fmap_2|]. rewrite E. apply elem_of_cons. by left.
    - apply Hd. rewrite <- E. by apply list_elem_of_fmap_2. }
  assert (Hmap : forall l, (forall e, e ∈ l -> r_delta_id e <> r_delta_id d) -> map f (map row_of l) = map row_of l).
  { intros l Hl. rewrite map_map. induction l as [|e l IH]; [done|]. cbn [map].
    rewrite (proj1 (Hother e (Hl e ltac:(apply elem_of_cons; by left)))). f_equal. apply IH.
    intros e' He'. apply Hl, elem_of_cons. by right. }
  assert (Hfil : forall l, (forall e, e ∈ l -> r_delta_id e <> r_delta_id d) ->
                 List.filter matches (map row_of l) = []).
  { intros l Hl. induction l as [|e l IH]; [done|]. cbn [map List.filter].
    rewrite (proj2 (Hother e (Hl e ltac:(apply elem_of_cons; by left)))). apply IH.
    intros e' He'. apply Hl, elem_of_cons. by right. }
  rewrite !map_app, List.filter_app. cbn [map List.filter]. rewrite Hm, !Hfil by (intros; apply Hne; auto).
  unfold with_deltas. rewrite Hdb, !map_app. cbn [map]. rewrite Hf, !Hmap by (intros; apply Hne; auto). done.
Qed.

Lemma with_deltas_same rows db : learning_deltas db = rows -> with_deltas (fun _ => rows) db = db.
Proof. intros <-. by destruct db. Qed.

Lemma rebind_record_id rules d : r_delta_id (rebind_record rules d) = r_delta_id d.
Proof. unfold rebind_record. by case_match. Qed.

Lemma binding_id d b : binding_of d = Some b -> sb_delta_id b = r_delta_id d.
Proof. unfold binding_of. intros. repeat case_match; by simplify_eq. Qed.

(** The statement that moves one binding finds its row and moves it. *)
Lemma update_binding pre d suf b to db :
  binding_of d = Some b -> learning_deltas db = map row_of (pre ++ d :: suf) -> NoDup (ids (pre ++ d :: suf)) ->
  (sb_kind b = Role -> is_Some (sb_condition b)) /\
  match sb_kind b, sb_condition b with
  | Role, Some stored =>
      update_rows
        (fun r => bool_decide (dr_delta_id r = sb_delta_id b /\ dr_condition_json r = Some stored))
        (rebind_purpose (sb_delta_id b) (to_json (Purpose to)) stored)
  | _, _ =>
      update_rows
        (fun r => bool_decide (dr_delta_id r = sb_delta_id b /\ dr_capability r = Some (sb_subject b)))
        (rebind_capability (sb_delta_id b) to (sb_subject b))
  end db =
  Ok (1, with_deltas (fun _ => map row_of (pre ++
    mkRecord (r_delta_id d) (r_base_version d) (rebound_change (r_change d) to) (r_evidence d) (r_state d)
      (r_version d + 1) :: suf)) db).
Proof.
  intros Hb Hdb Hnd. unfold binding_of in Hb.
  destruct (r_change d) as [[text|capability effect] w] eqn:Hc; cbn [payload when] in Hb.
  - destruct w as [[p|k|s]|]; try done. injection Hb as <-. cbn. split; [by eexists|].
    apply (update_one _ _ _ d); try done.
    + unfold rebind_purpose, row_of. simpl. rewrite Hc. simpl. by rewrite decide_True.
    + apply bool_decide_eq_true. unfold row_of. simpl. by rewrite Hc.
    + intros e He. split.
      * unfold rebind_purpose. rewrite decide_False; [done|]. by intros [E _].
      * apply bool_decide_eq_false. by intros [E _].
  - injection Hb as <-. cbn. split; [done|]. apply (update_one _ _ _ d); try done.
    + unfold rebind_capability, row_of. simpl. rewrite Hc. simpl. by rewrite decide_True.
    + apply bool_decide_eq_true. unfold row_of. simpl. by rewrite Hc.
    + intros e He. split.
      * unfold rebind_capability. rewrite decide_False; [done|]. by intros [E _].
      * apply bool_decide_eq_false. by intros [E _].
Qed.

(** The loop moves exactly the bindings the rules place elsewhere, and never
    finds a row that moved meanwhile. *)
Lemma move_bindings_effect rules pre suf acc db :
  learning_deltas db = map row_of (pre ++ suf) -> NoDup (ids (pre ++ suf)) ->
  move_bindings rules (omap binding_of suf) acc db =
    Ok (acc ++ omap (rebound_of rules) suf,
        with_deltas (fun _ => map row_of (pre ++ map (rebind_record rules) suf)) db).
Proof.
  revert pre acc db. induction suf as [|d suf IH]; intros pre acc db Hdb Hnd.
  - cbn [omap list_omap move_bindings map]. unfold tx_ret. rewrite app_nil_r in *.
    by rewrite app_nil_r, with_deltas_same.
  - assert (Hstep : forall acc' db', learning_deltas db' = map row_of (pre ++ rebind_record rules d :: suf) ->
      (forall rows, with_deltas (fun _ => rows) db' = with_deltas (fun _ => rows) db) ->
      move_bindings rules (omap binding_of suf) acc' db' =
      Ok (acc' ++ omap (rebound_of rules) suf,
          with_deltas (fun _ => map row_of (pre ++ map (rebind_record rules) (d :: suf))) db)).
    { intros acc' db' Hdb' Hsame. rewrite (IH (pre ++ [rebind_record rules d])).
      - by rewrite Hsame, <- app_assoc.
      - by rewrite <- app_assoc.
      - rewrite <- app_assoc. simpl. unfold ids in *. rewrite map_app in *. cbn [map] in *.
        by rewrite rebind_record_id. }
    assert (Hd : rebind_record rules d = match binding_of d ≫= moves_to rules with
      | Some to => mkRecord (r_delta_id d) (r_base_version d) (rebound_change (r_change d) to) (r_evidence d)
                     (r_state d) (r_version d + 1)
      | None => d end) by done.
    rewrite !omap_cons. unfold rebound_of at 1. rewrite Hd in Hstep.
    destruct (binding_of d) as [b|] eqn:Hb; cbn [mbind option_bind] in *; [|by apply Hstep].
    cbn [move_bindings]. destruct (moves_to rules b) as [to|]; cbn [mbind option_bind] in *; [|by apply Hstep].
    destruct (update_binding pre d suf b to db Hb Hdb Hnd) as [Ek Hu].
    destruct (sb_kind b) eqn:Hk, (sb_condition b) as [stored|]; try (by destruct (Ek eq_refl));
      unfold tx_bind at 1; rewrite Hu; rewrite decide_False by done;
      rewrite (binding_id _ _ Hb), Hstep by done; by rewrite <- app_assoc.
Qed.

(** A target a validated rule set names is one a binding may carry. *)
Lemma target_ok {SE} base ms rules k subject to :
  Identity.new (SE := SE) base ms = Ok rules -> place rules k subject = Rebound to ->
  trim_is_empty to = false /\ (k = Action -> weighed_capability to = true).
Proof.
  intros (-> & Hs & _)%new_spec Hp. destruct (place_cases (mkRules base ms) k subject) as [(m & Hm & <- & _ & E)|[_ E]];
    rewrite E in Hp; [|done]. injection Hp as <-. rewrite Forall_forall in Hs.
  destruct (Hs m Hm) as [_ Hv]. by apply validate_ok in Hv as (_ & _ & _ & ? & _ & _ & ?).
Qed.

Lemma rebind_record_cases rules d :
  (target_of rules d = None /\ rebind_record rules d = d) \/
  (exists b to, binding_of d = Some b /\ place rules (sb_kind b) (sb_subject b) = Rebound to /\
     to <> sb_subject b /\ target_of rules d = Some to /\
     rebind_record rules d = mkRecord (r_delta_id d) (r_base_version d) (rebound_change (r_change d) to)
       (r_evidence d) (r_state d) (r_version d + 1)).
Proof.
  unfold rebind_record. destruct (target_of rules d) as [to|] eqn:Ht; [|by left]. right.
  unfold target_of in Ht. apply bind_Some in Ht as (b & Hb & Hto). exists b, to. unfold moves_to in Hto.
  destruct (place rules (sb_kind b) (sb_subject b)) as [to'|]; [|done].
  destruct (String.eqb_spec to' (sb_subject b)); [done|]. by injection Hto as ->.
Qed.

Lemma rebind_record_ok {SE} base ms rules d :
  Identity.new (SE := SE) base ms = Ok rules -> record_ok d -> record_ok (rebind_record rules d).
Proof.
  intros Hn Hd. destruct (rebind_record_cases rules d) as [[_ ->]|(b & to & Hb & Hp & _ & _ & ->)]; [done|].
  destruct (target_ok _ _ _ _ _ _ Hn Hp) as [Hne Hw]. destruct Hd as (Hv & He & Hbase & Hver).
  split_and!; simpl; try done; [|lia]. apply change_validate_ok in Hv. apply change_validate_ok.
  unfold binding_of in Hb. unfold rebound_change.
  destruct (r_change d) as [[text|capability effect] w]; cbn [payload when] in *.
  - destruct w as [[p|k|s]|]; try done. naive_solver.
  - injection Hb as <-. split; [by apply Hw|]. by destruct Hv.
Qed.

Lemma rebind_effect db a db' ds vs fs ms :
  Holds db ds vs fs ms -> rebind_learning_identities_on db = Ok (a, db') ->
  exists rules, Identity.new (SE := StoreError) (served_base_version db) (Identity.migrations rules) = Ok rules /\
    identity_migrations_on (served_base_version db) db = Ok (Identity.migrations rules) /\
    check_conclusions (conclusions rules (omap binding_of ds) []) = Ok tt /\
    db' = with_deltas (fun _ => map row_of (map (rebind_record rules) ds)) db /\
    (size_of (map (rebind_record rules) ds) <= DEFINITION_MAX_BYTES)%Z /\
    a = mkRebind (served_base_version db) (Identity.migrations rules) (omap (rebound_of rules) ds)
          (collect_unassigned rules (omap binding_of ds) []).
Proof.
  intros Hh Ht. unfold rebind_learning_identities_on in Ht. inv_tx.
  rewrite (bindings_on_records _ _ (h_deltas _ _ _ _ _ Hh)) in *. simplify_eq.
  match goal with H : Identity.new _ _ = Ok ?r |- _ => rename r into rules; rename H into Hn end.
  pose proof (move_bindings_effect rules [] ds [] _ (h_deltas _ _ _ _ _ Hh) (h_ids _ _ _ _ _ Hh)) as Hm.
  rewrite Hm in *. simplify_eq. cbn [app] in *.
  match type of Hn with Identity.new _ ?X = _ =>
    assert (Hms : X = Identity.migrations rules) by (by pose proof Hn as (-> & _ & _)%new_spec); subst X
  end.
  exists rules. split; [done|]. split; [done|].
  match goal with H : check_conclusions _ = Ok ?t |- _ => destruct t end. split; [done|].
  assert (Hrok : Forall record_ok (map (rebind_record rules) ds)).
  { apply Forall_map. eapply Forall_impl; [apply Hh|]. intros d. by eapply rebind_record_ok. }
  set (db1 := with_deltas (fun _ => map row_of (map (rebind_record rules) ds)) db) in *.
  destruct (definition_on_records (map (rebind_record rules) ds) db1 eq_refl Hrok) as [_ Hsize].
  destruct (omap (rebound_of rules) ds) as [|x xs] eqn:Hre.
  - inv_tx. simpl in *. inv_tx. split_and!; try done.
    assert (Hsame : map (rebind_record rules) ds = ds).
    { apply map_id_in. intros d Hd. destruct (rebind_record_cases rules d) as [[_ Eq]|(b & to & Hb & Hp & Hne & Htg & _)]; [done|].
      exfalso. assert (Hin : mkRebound (r_delta_id d) (sb_kind b) (sb_subject b) to ∈ omap (rebound_of rules) ds).
      { apply list_elem_of_omap. exists d. split; [done|]. unfold rebound_of. rewrite Hb. simpl.
        unfold target_of in Htg. rewrite Hb in Htg. simpl in Htg. by rewrite Htg. }
      rewrite Hre in Hin. by inversion Hin. }
    rewrite Hsame. apply Hh.
  - unfold tx_store in *. rewrite Hsize in *. simplify_eq. simpl in *.
    case_bool_decide; simpl in *; inv_tx. split_and!; try done. lia.
Qed.

Lemma rebind_holds {SE} base stored rules db ds vs fs ms :
  Identity.new (SE := SE) base stored = Ok rules -> Holds db ds vs fs ms ->
  (size_of (map (rebind_record rules) ds) <= DEFINITION_MAX_BYTES)%Z ->
  Holds (with_deltas (fun _ => map row_of (map (rebind_record rules) ds)) db)
    (map (rebind_record rules) ds) vs fs ms.
Proof.
  intros Hn Hh Hsize. constructor; try apply Hh; try done.
  - rewrite ids_map by (intros; apply rebind_record_id). apply Hh.
  - apply Forall_map. eapply Forall_impl; [apply Hh|]. intros d. by eapply rebind_record_ok.
  - etrans; [|apply (h_retention _ _ _ _ _ Hh)].
    erewrite filter_map, length_map; [done|]. intros d. unfold rebind_record. by case_match.
  - eapply Forall_impl; [apply Hh|]. intros v (d & Hd & Eid & Hver & Hw). exists (rebind_record rules d).
    split; [by apply list_elem_of_fmap_2|]. split; [by rewrite rebind_record_id|].
    destruct (rebind_record_cases rules d) as [[_ ->]|(b & to & _ & _ & _ & _ & ->)]; simpl; [done|].
    split; lia.
Qed.

(** * Rollback, feedback, rules *)

Lemma roll_back_effect id expected db u db' ds :
  learning_deltas db = map row_of ds -> roll_back_tx id expected db = Ok (u, db') ->
  db' = with_deltas (fun _ => map row_of (map (advance Active RolledBack id expected) ds)) db /\
  exists d, d ∈ ds /\ pinned Active id expected d.
Proof.
  intros Hdb Ht. unfold roll_back_tx in Ht. inv_tx.
  destruct (transition_effect _ _ _ _ _ _ _ _ Hdb ltac:(eassumption)) as [-> Hm].
  match goal with H : (if negb ?b then _ else _) _ = Ok _ |- _ => destruct b; simpl in H; [|by inv_tx] end.
  inv_tx. split; [done|]. by apply Hm.
Qed.

Lemma feedback_holds r db u db' ds vs fs ms :
  feedback_validate r = Ok tt -> Holds db ds vs fs ms -> record_feedback_tx r db = Ok (u, db') ->
  Holds db' ds vs (fs ++ [r]) ms.
Proof.
  intros Hr Hh Ht. unfold record_feedback_tx in Ht. inv_tx.
  destruct (existsb _ _) eqn:Hex; inv_tx. constructor; try apply Hh.
  - simpl. by rewrite (h_feedback _ _ _ _ _ Hh), map_app.
  - apply Forall_app. split; [apply Hh|]. by constructor.
  - rewrite map_app. apply NoDup_app. split_and!; [apply Hh| |apply NoDup_singleton].
    intros x Hx Hx'%list_elem_of_singleton. simpl in Hx'. subst x.
    apply list_elem_of_fmap in Hx as (f & Ef & Hf).
    assert (Ht' : existsb (fun row => String.eqb (fr_attempt_id row) (fb_attempt_id r)) (routing_feedback db) = true).
    { apply existsb_exists. exists (feedback_row f). rewrite (h_feedback _ _ _ _ _ Hh).
      split; [by apply in_map, list_elem_of_In|]. apply String.eqb_eq. by rewrite Ef. }
    congruence.
Qed.

Lemma migration_holds m version db a db' ds vs fs ms :
  (0 <= version)%Z -> Holds db ds vs fs ms -> record_migration_on m version db = Ok (a, db') ->
  exists ms', Holds db' ds vs fs ms'.
Proof.
  intros Hv Hh Ht. unfold record_migration_on in Ht.
  destruct (Z.eqb_spec (m_base_version m) version) as [<-|]; simpl in Ht; [|by inv_tx]. inv_tx.
  assert (Edb : db' = with_migrations (fun rows => if existsb (same_migration_key (migration_row m (m_base_version m))) rows
                   then rows else rows ++ [migration_row m (m_base_version m)]) db).
  { case_match; [|by inv_tx]. case_match; by inv_tx. }
  rewrite Edb. destruct (existsb (same_migration_key (migration_row m (m_base_version m))) (identity_migrations db)) eqn:Hex.
  - exists ms. constructor; try apply Hh. simpl. rewrite Hex. apply Hh.
  - exists (ms ++ [m]). constructor; try apply Hh.
    + simpl. rewrite Hex, map_app. by rewrite (h_migrations _ _ _ _ _ Hh).
    + apply Forall_app. split; [apply Hh|]. by constructor.
Qed.

(** * Reachable stores *)

Inductive LearningCall :=
  | CallRecord (c : DeltaCandidate)
  | CallCorpus (delta_id : string) (cases : list CorpusCase)
  | CallActivate (delta_id : string) (expected : Z)
  | CallRollBack (delta_id : string) (expected : Z)
  | CallFeedback (r : FeedbackRecord)
  | CallMigration (m : IdentityMigration)
  | CallRebind.

Definition run (call : LearningCall) (s : TaskStore LearningDb) : TaskStore LearningDb :=
  match call with
  | CallRecord c => (record_learning_delta c s).2
  | CallCorpus id cases => (record_learning_corpus id cases s).2
  | CallActivate id expected => (activate_learning_delta id expected s).2
  | CallRollBack id expected => (roll_back_learning_delta id expected s).2
  | CallFeedback r => (record_feedback r s).2
  | CallMigration m => (record_identity_migration m s).2
  | CallRebind => (transaction rebind_learning_identities_on s).2
  end.

(** The [u64] arguments of a call. *)
Definition typed (call : LearningCall) : Prop :=
  match call with CallRecord c => (0 <= c_base_version c)%Z | _ => True end.

(** What a call committed to the database, one transaction body per call. *)
Inductive committed : LearningCall -> relation LearningDb :=
  | commit_record c u db db' :
      candidate_validate c = Ok tt -> record_delta_tx c db = Ok (u, db') -> committed (CallRecord c) db db'
  | commit_corpus id cases d active controls u db db' :
      delta_record_on id db = Ok (Some d) ->
      record_cases (mkCorpusCandidate id (r_version d) (r_change d)) active (zip cases controls) db = Ok (u, db') ->
      committed (CallCorpus id cases) db db'
  | commit_activate id expected u db db' :
      activate_tx id expected db = Ok (u, db') -> committed (CallActivate id expected) db db'
  | commit_roll_back id expected u db db' :
      roll_back_tx id expected db = Ok (u, db') -> committed (CallRollBack id expected) db db'
  | commit_feedback r u db db' :
      feedback_validate r = Ok tt -> record_feedback_tx r db = Ok (u, db') -> committed (CallFeedback r) db db'
  | commit_migration m a db db' :
      record_migration_on m (served_base_version db) db = Ok (a, db') -> committed (CallMigration m) db db'
  | commit_rebind a db db' :
      rebind_learning_identities_on db = Ok (a, db') -> committed CallRebind db db'.

Lemma conn_some (s : TaskStore LearningDb) db : conn s = Ok db -> ts_conn s = Some db.
Proof. unfold conn. destruct (ts_held_claim_commit s); [done|]. destruct (ts_conn s); [|done]. by intros [= ->]. Qed.

Lemma snd_after {A B E S} (r : result A E * S) (f : A -> S -> result B E * S) (g : E -> result B E) :
  (forall a s, (f a s).2 = s) -> match r with (Err e, s) => (g e, s) | (Ok a, s) => f a s end.2 = r.2.
Proof. intros Hf. destruct r as [[a|e] s]; simpl; [apply Hf|done]. Qed.

(** A call leaves the database it found or the one its body committed. *)
Lemma run_committed call s db' :
  ts_conn (run call s) = Some db' ->
  ts_conn s = Some db' \/ exists db, ts_conn s = Some db /\ committed call db db'.
Proof.
  assert (Htx : forall E (HE : FromStore E) A (body : tx LearningDb E A),
    (forall db a, ts_conn s = Some db -> body db = Ok (a, db') -> committed call db db') ->
    ts_conn (transaction body s).2 = Some db' ->
    ts_conn s = Some db' \/ exists db, ts_conn s = Some db /\ committed call db db').
  { intros E HE A body Hbody [Hs|(db & a & Hs & Hb)]%transaction_db; [by left|]. right. exists db. eauto. }
  destruct call as [c|id cases|id e|id e|r|m|]; simpl in *.
  - unfold record_learning_delta. destruct (candidate_validate c) as [[]|] eqn:Hc; [|by left].
    rewrite (snd_after _ (fun _ s => _) (fun e => Err e)) by done. apply Htx. econstructor; eassumption.
  - unfold record_learning_corpus. destruct (learning_delta id s) as [d|] eqn:Hd; simpl; [|by left].
    case_decide; [by left|]. simpl.
    destruct (check_kinds id [] cases) as [[]|]; simpl; [|by left].
    destruct (decode_all _ cases) as [controls|]; simpl; [|by left].
    destruct (learning_definition s) as [active|]; simpl; [|by left].
    rewrite (snd_after _ (fun _ s => _) (fun e => Err e)) by done. apply Htx. intros db a Hs Hb.
    unfold learning_delta, read in Hd. destruct (conn s) as [dbc|] eqn:Hcn; [|done].
    apply conn_some in Hcn. rewrite Hs in Hcn. injection Hcn as <-.
    destruct (delta_record_on id db) as [[d'|]|] eqn:Hr; try done. injection Hd as ->.
    econstructor; eassumption.
  - unfold activate_learning_delta. rewrite (snd_after _ (fun _ s => _) (fun e => Err e)) by done.
    apply Htx. econstructor; eassumption.
  - unfold roll_back_learning_delta. rewrite (snd_after _ (fun _ s => _) (fun e => Err e)) by done.
    apply Htx. econstructor; eassumption.
  - unfold record_feedback. destruct (feedback_validate r) as [[]|] eqn:Hr; [|by left].
    rewrite (snd_after _ (fun _ s => _) (fun e => Err e)) by done. apply Htx. econstructor; eassumption.
  - apply Htx. intros db a _ Hb. inv_tx. econstructor; eassumption.
  - apply Htx. econstructor; eassumption.
Qed.

(** The stored record under an id. *)
Lemma delta_record_on_records id db ds :
  learning_deltas db = map row_of ds -> Forall record_ok ds ->
  delta_record_on id db = Ok (find (fun d => String.eqb (r_delta_id d) id) ds).
Proof.
  intros Hdb Hok. unfold delta_record_on. rewrite (delta_row_records _ _ _ Hdb).
  destruct (find _ ds) as [d|] eqn:Hf; simpl; [|done]. apply find_record in Hf as [Hin _].
  rewrite delta_record_of; [done|]. rewrite Forall_forall in Hok. by apply Hok.
Qed.

(** What a commit does to the records and the feedback rows: a record that left
    [inactive] stays, in a state at least as late, and no feedback row changes. *)
Definition settles (d d' : DeltaRecord) : Prop :=
  r_delta_id d' = r_delta_id d /\ (r_version d <= r_version d')%Z /\
  (r_state d <> Inactive -> r_state d' <> Inactive) /\
  (r_state d = RolledBack -> r_state d' = RolledBack).

Definition keeps (ds ds' : list DeltaRecord) : Prop :=
  forall d, d ∈ ds -> r_state d <> Inactive -> exists d', d' ∈ ds' /\ settles d d'.

Lemma settles_refl d : settles d d.
Proof. unfold settles. split_and!; auto with lia. Qed.

Lemma keeps_refl ds : keeps ds ds.
Proof. intros d Hd _. exists d. split; [done|]. apply settles_refl. Qed.

Lemma keeps_map f ds : (forall d, d ∈ ds -> settles d (f d)) -> keeps ds (map f ds).
Proof. intros Hf d Hd _. exists (f d). split; [by apply list_elem_of_fmap_2|by apply Hf]. Qed.

Lemma keeps_trans ds1 ds2 ds3 : keeps ds1 ds2 -> keeps ds2 ds3 -> keeps ds1 ds3.
Proof.
  intros H12 H23 d Hd Hs. destruct (H12 d Hd Hs) as (d' & Hd' & E1 & V1 & S1 & R1).
  destruct (H23 d' Hd' (S1 Hs)) as (d'' & Hd'' & E2 & V2 & S2 & R2). exists d''. split; [done|].
  unfold settles. split_and!; [congruence|lia|auto|auto].
Qed.

Lemma advance_settles from to id expected d :
  from = Inactive /\ to = Active \/ from = Active /\ to = RolledBack -> settles d (advance from to id expected d).
Proof.
  intros Hft. destruct (advance_cases from to id expected d) as [[(_ & Hs & _) ->]|[_ ->]]; [|apply settles_refl].
  unfold settles. cbn [r_delta_id r_version r_state]. destruct Hft as [[-> ->]|[-> ->]]; split_and!; try done; try lia; congruence.
Qed.

Lemma rebind_settles rules d : settles d (rebind_record rules d).
Proof.
  destruct (rebind_record_cases rules d) as [[_ ->]|(b & to & _ & _ & _ & _ & ->)]; [apply settles_refl|].
  unfold settles. simpl. split_and!; auto; lia.
Qed.

(** The invariant and the order of records are kept by every commit. *)
Lemma committed_keeps call db db' ds vs fs ms :
  typed call -> Holds db ds vs fs ms -> committed call db db' ->
  exists ds' vs' fs' ms', Holds db' ds' vs' fs' ms' /\ keeps ds ds' /\ fs `prefix_of` fs'.
Proof.
  intros Hty Hh Hc. destruct Hc as [c u db db' Hc Ht|id cases d active controls u db db' Hd Ht|id e u db db' Ht|
    id e u db db' Ht|r u db db' Hr Ht|m a db db' Ht|a db db' Ht].
  - destruct (record_delta_holds _ _ _ _ _ _ _ _ Hc Hty Hh Ht) as (vs' & Hh'). eexists _, vs', fs, ms.
    split; [exact Hh'|]. split; [|done]. intros d Hd Hs. exists d. split; [|apply settles_refl].
    apply list_elem_of_filter. split; [|by apply elem_of_app; left].
    apply kept_settled; [|by apply elem_of_app; left|done].
    by destruct (record_delta_effect _ _ _ _ ds (h_deltas _ _ _ _ _ Hh) Ht) as (Hid & _ & _); apply ids_snoc; [apply Hh|].
  - rewrite (delta_record_on_records _ _ _ (h_deltas _ _ _ _ _ Hh) (h_records _ _ _ _ _ Hh)) in Hd.
    injection Hd as Hd. apply find_record in Hd as [Hin Hid]. subst id.
    destruct (record_cases_inv _ _ _ _ _ _ _ _ _ _ Hin Hh Ht) as [vs' Hh']. exists ds, vs', fs, ms.
    split; [done|]. split; [apply keeps_refl|done].
  - destruct (activate_effect _ _ _ _ _ _ _ _ _ Hh Ht) as (-> & _ & _ & Hsize).
    exists (map (advance Inactive Active id e) ds), vs, fs, ms. split; [by apply advance_inv|].
    split; [|done]. apply keeps_map. intros. apply advance_settles. by left.
  - destruct (roll_back_effect _ _ _ _ _ _ (h_deltas _ _ _ _ _ Hh) Ht) as (-> & _).
    exists (map (advance Active RolledBack id e) ds), vs, fs, ms. split.
    + apply advance_inv; [done|done|]. etrans; [apply max_instruction_bytes_sublist, rollback_sublist|apply Hh].
    + split; [|done]. apply keeps_map. intros. apply advance_settles. by right.
  - exists ds, vs, (fs ++ [r]), ms. split; [by eapply feedback_holds|]. split; [apply keeps_refl|by apply prefix_app_r].
  - destruct (migration_holds m _ db a db' ds vs fs ms (proj1 (h_versions _ _ _ _ _ Hh)) Hh Ht) as (ms' & Hh').
    exists ds, vs, fs, ms'. split; [done|]. split; [apply keeps_refl|done].
  - destruct (rebind_effect _ _ _ _ _ _ _ Hh Ht) as (rules & Hn & _ & _ & -> & Hsize & _).
    exists (map (rebind_record rules) ds), vs, fs, ms. split; [by eapply rebind_holds|].
    split; [|done]. apply keeps_map. intros. apply rebind_settles.
Qed.

(** One step of a store: a call, or the base ledger moving: another base serves
    and the rules of some bases left. *)
Inductive store_step : relation (TaskStore LearningDb) :=
  | step_call call s : typed call -> store_step s (run call s)
  | step_base db served generation (keep : Z -> bool) held path held' path' :
      (0 <= served)%Z -> (0 <= generation)%Z ->
      store_step (mkTaskStore (Some db) held path)
        (mkTaskStore (Some (mkDb (learning_deltas db) (LearningStore.learning_corpus db)
          (routing_feedback db) (filter (fun r => Is_true (keep (mr_base_version r))) (identity_migrations db))
          served generation)) held' path').

Inductive opened : TaskStore LearningDb -> Prop :=
  | open_store served generation held path :
      (0 <= served)%Z -> (0 <= generation)%Z ->
      opened (mkTaskStore (Some (mkDb [] [] [] [] served generation)) held path).

(** A store opened on a fresh database, after any steps. *)
Definition reachable (s : TaskStore LearningDb) : Prop := exists s0, opened s0 /\ rtc store_step s0 s.

Lemma step_keeps s s' :
  store_step s s' -> forall db', ts_conn s' = Some db' ->
  exists db, ts_conn s = Some db /\
    forall ds vs fs ms, Holds db ds vs fs ms ->
    exists ds' vs' fs' ms', Holds db' ds' vs' fs' ms' /\ keeps ds ds' /\ fs `prefix_of` fs'.
Proof.
  intros Hst db' Hdb. destruct Hst as [call s Hty|db served gen keep held path held' path' H1 H2].
  - apply run_committed in Hdb as [Hdb|(db & Hdb & Hc)]; eexists; (split; [exact Hdb|]); intros ds vs fs ms Hh.
    + exists ds, vs, fs, ms. split; [done|]. split; [apply keeps_refl|done].
    + by eapply committed_keeps.
  - injection Hdb as <-. exists db. split; [done|]. intros ds vs fs ms Hh.
    exists ds, vs, fs, (filter (fun m => Is_true (keep (m_base_version m))) ms).
    split; [|split; [apply keeps_refl|done]]. constructor; try apply Hh.
    + simpl. rewrite (h_migrations _ _ _ _ _ Hh). by apply filter_map.
    + apply Forall_forall. intros m [_ Hm]%list_elem_of_filter.
      pose proof (h_rules _ _ _ _ _ Hh) as Hr. rewrite Forall_forall in Hr. by apply Hr.
    + done.
Qed.

Lemma steps_keep s s' :
  rtc store_step s s' -> forall db', ts_conn s' = Some db' ->
  exists db, ts_conn s = Some db /\
    forall ds vs fs ms, Holds db ds vs fs ms ->
    exists ds' vs' fs' ms', Holds db' ds' vs' fs' ms' /\ keeps ds ds' /\ fs `prefix_of` fs'.
Proof.
  induction 1 as [s|s s1 s' Hst Hrest IH]; intros db' Hdb.
  - exists db'. split; [done|]. intros ds vs fs ms Hh. exists ds, vs, fs, ms.
    split; [done|]. split; [apply keeps_refl|done].
  - destruct (IH _ Hdb) as (db1 & Hdb1 & K1). destruct (step_keeps _ _ Hst _ Hdb1) as (db & Hdb0 & K0).
    exists db. split; [done|]. intros ds vs fs ms Hh.
    destruct (K0 _ _ _ _ Hh) as (ds1 & vs1 & fs1 & ms1 & Hh1 & Hk1 & Hp1).
    destruct (K1 _ _ _ _ Hh1) as (ds2 & vs2 & fs2 & ms2 & Hh2 & Hk2 & Hp2).
    exists ds2, vs2, fs2, ms2. split; [done|]. split; [by eapply keeps_trans|by etrans].
Qed.

Lemma reachable_holds s db : reachable s -> ts_conn s = Some db -> exists ds vs fs ms, Holds db ds vs fs ms.
Proof.
  intros (s0 & Ho & Hst) Hdb. destruct (steps_keep _ _ Hst _ Hdb) as (db0 & Hdb0 & Hk).
  destruct Ho as [served gen held path H1 H2]. injection Hdb0 as <-.
  destruct (Hk [] [] [] []) as (ds & vs & fs & ms & Hh & _); [|by exists ds, vs, fs, ms].
  by constructor; simpl; try done; try constructor; try lia.
Qed.
End LearningStoreThms.
