(* ===== verification/LearningProps.v ===== *)
(** The guarantees of the learning store, in the store's own calls: what every
    read answers in a reachable store, what an activation rests on, what it and
    a rollback change, what a rebinding pass moves, and what is never lost. *)

From stdpp Require Import pretty sorting.
From S2P Require Import Prelude.
From S2P Require Import Contracts.
From S2P Require Import Text.
From S2P Require Import Requests.
From S2P Require Import Identity.
From S2P Require Import Learning.
From S2P Require Import LearningThms.
From S2P Require Import Store.
From S2P Require Import Codes.
From S2P Require Import LearningStore.
From S2P Require Import LearningStoreThms.

Section LearningProps.
Context `{JsonCodec ConditionFact} `{JsonCodec VersionEvidence}.

(** * Reads of a store that holds records *)

Lemma learning_delta_reads id s db ds vs fs ms :
  conn s = Ok db -> Holds db ds vs fs ms ->
  learning_delta id s =
  match find (fun d => String.eqb (r_delta_id d) id) ds with
  | Some d => Ok d
  | None => Err (delta_missing id)
  end.
Proof.
  intros Hc Hh. unfold learning_delta, read. rewrite Hc.
  rewrite (delta_record_on_records _ _ _ (h_deltas _ _ _ _ _ Hh) (h_records _ _ _ _ _ Hh)). simpl.
  by destruct (find _ ds).
Qed.

Lemma find_by_id ds d : NoDup (ids ds) -> d ∈ ds ->
  find (fun e => String.eqb (r_delta_id e) (r_delta_id d)) ds = Some d.
Proof.
  intros Hnd Hd. destruct (find _ ds) as [e|] eqn:Hf.
  - apply find_record in Hf as [He Eid]. f_equal. by apply (same_record ds).
  - apply find_no_record in Hf. exfalso. apply Hf. by apply list_elem_of_fmap_2.
Qed.

Lemma learning_delta_Ok id s db ds vs fs ms d :
  conn s = Ok db -> Holds db ds vs fs ms ->
  learning_delta id s = Ok d <-> d ∈ ds /\ r_delta_id d = id.
Proof.
  intros Hc Hh. rewrite (learning_delta_reads _ _ _ _ _ _ _ Hc Hh). split.
  - destruct (find _ ds) as [e|] eqn:Hf; [|done]. intros [= <-]. by apply find_record.
  - intros [Hd <-]. by rewrite (find_by_id ds d (h_ids _ _ _ _ _ Hh) Hd).
Qed.

Lemma learning_definition_reads s db ds vs fs ms :
  conn s = Ok db -> Holds db ds vs fs ms -> learning_definition s = Ok (definition_of ds).
Proof.
  intros Hc Hh. unfold learning_definition, read. rewrite Hc.
  by destruct (definition_on_records ds db (h_deltas _ _ _ _ _ Hh) (h_records _ _ _ _ _ Hh)) as [-> _].
Qed.

Lemma into_record_of f : into_record (feedback_row f) = Ok f.
Proof.
  unfold into_record, feedback_row. cbn [fr_outcome fr_cause fr_verdict fr_reward fr_version_evidence fr_observed
    fr_attempt_id fr_parent_attempt_id fr_purpose fr_connection fr_model_id fr_repair_of].
  pose proof (reading_spelling (fb_outcome f)) as E1. pose proof (reading_spelling (fb_cause f)) as E2.
  pose proof (reading_spelling (fb_verdict f)) as E3. pose proof (reading_spelling (fb_reward f)) as E4.
  simpl in E1, E2, E3, E4. rewrite E1, E2, E3, E4, from_to_json. cbn [ok_or rbind].
  by destruct f as [? ? ? ? ? ? ? ? ? ? ? []].
Qed.

Lemma feedback_reads a s db ds vs fs ms :
  conn s = Ok db -> Holds db ds vs fs ms ->
  feedback a s =
  match find (fun f => String.eqb (fb_attempt_id f) a) fs with
  | Some f => Ok f
  | None => Err (Delta (FeedbackMissing a))
  end.
Proof.
  intros Hc Hh. unfold feedback, read, feedback_on. rewrite Hc, (h_feedback _ _ _ _ _ Hh).
  assert (E : find (fun r => String.eqb (fr_attempt_id r) a) (map feedback_row fs) =
              feedback_row <$> find (fun f => String.eqb (fb_attempt_id f) a) fs).
  { by apply find_map. }
  rewrite E. destruct (find _ fs) as [f|]; simpl; [|done]. by rewrite into_record_of.
Qed.

Lemma conn_mut_conn (s : TaskStore LearningDb) db : conn_mut s = Ok db -> conn s = Ok db.
Proof.
  unfold conn_mut, conn. destruct (ts_held_claim_commit s); [done|].
  by destruct (ts_path_identity s).
Qed.

Lemma reachable_conn s db : reachable s -> conn s = Ok db -> exists ds vs fs ms, Holds db ds vs fs ms.
Proof. intros Hr Hc%conn_some. by eapply reachable_holds. Qed.

(** A call that answers after its transaction committed. *)
Lemma answered {E A} `{FromStore E} {B} (body : tx LearningDb E A) (f : TaskStore LearningDb -> result B E) s b s' :
  match transaction body s with (Err e, s) => (Err e, s) | (Ok _, s) => (f s, s) end = (Ok b, s') ->
  exists a db db', conn s = Ok db /\ body db = Ok (a, db') /\ conn s' = Ok db' /\ f s' = Ok b /\
    ts_path_identity s' = ts_path_identity s.
Proof.
  destruct (transaction body s) as [[a|e] s1] eqn:Ht; [|done]. intros [= Hf <-].
  destruct (transaction_Ok body s a) as (db & db' & Hm & Hb & Hs); [by rewrite Ht|].
  rewrite Ht in Hs. simpl in Hs. exists a, db, db'. split; [by apply conn_mut_conn|]. split; [done|].
  unfold conn_mut in Hm. destruct (ts_held_claim_commit s) eqn:Hheld; [done|].
  split; [by rewrite Hs|]. by rewrite Hs in *.
Qed.

Lemma definition_of_in ds d : d ∈ ds -> r_state d = Active -> delta_of d ∈ definition_of ds.
Proof. intros Hd Hs. unfold definition_of. apply list_elem_of_fmap_2. by apply list_elem_of_filter. Qed.

(** * The part every request carries *)

(** C35.  In every reachable store the definition that the store answers fits a
    request: whatever the purpose, the instruction part assembled on a base no
    longer than the longest one the program has stays within the definition's
    bound, and it carries no credential reference that its base does not. *)
Theorem learned_part_always_fits s def purpose base :
  reachable s -> learning_definition s = Ok def -> (slen base <= slen LARGEST_INSTRUCTION_BASE)%Z ->
  (slen (instruction_part def purpose base) <= DEFINITION_MAX_BYTES)%Z /\
  (carries_credential_reference base = false ->
   carries_credential_reference (instruction_part def purpose base) = false).
Proof.
  intros Hr Hd Hb. destruct (conn s) as [db|e] eqn:Hc; [|unfold learning_definition, read in Hd; by rewrite Hc in Hd].
  destruct (reachable_conn _ _ Hr Hc) as (ds & vs & fs & ms & Hh).
  rewrite (learning_definition_reads _ _ _ _ _ _ Hc Hh) in Hd. injection Hd as <-. split.
  - pose proof (h_size _ _ _ _ _ Hh) as Hs. unfold size_of in Hs.
    pose proof (proj1 (measure_is_exact (definition_of ds) LARGEST_INSTRUCTION_BASE) purpose) as Hm.
    rewrite slen_instruction_part in *. lia.
  - intros Hcl. apply assembled_part_clean; [|done]. unfold definition_of. apply Forall_map, Forall_forall.
    intros d [_ Hd]%list_elem_of_filter. pose proof (h_records _ _ _ _ _ Hh) as Hok.
    rewrite Forall_forall in Hok. destruct (Hok d Hd) as (Hv & _). apply change_validate_ok in Hv.
    unfold clean_text, instruction. simpl. destruct (payload (r_change d)); [by apply Hv|done].
Qed.

(** * Reads *)

Lemma migration_of_row m : (0 <= m_base_version m)%Z -> migration_of (migration_row m (m_base_version m)) = Ok m.
Proof.
  intros Hb. unfold migration_of, migration_row. cbn [mr_base_version mr_kind mr_rule mr_old_id mr_new_id mr_subject].
  rewrite read_u64_Ok by done. cbn [map_err rbind].
  pose proof (reading_spelling (kind m)) as E1. pose proof (reading_spelling (rule m)) as E2. simpl in E1, E2.
  rewrite E1, E2. cbn [ok_or rbind]. by destruct m.
Qed.

(** In every reachable store the reads answer: a delta that is found is
    filed under its id and passes validation, the definition decodes, each
    delta's verdicts decode with at most one per case kind, a feedback row that
    is found is filed under its attempt and passes validation, and the rules of
    every base decode.  The only refusal is that there is no such row. *)
Theorem every_row_reads_back s db :
  reachable s -> conn s = Ok db ->
  (forall id, match learning_delta id s with
    | Ok d => r_delta_id d = id /\ validate id (r_change d) = Ok tt
    | Err e => e = StoreNotFound (MissingDelta id)
    end) /\
  (exists def, learning_definition s = Ok def /\ NoDup (map delta_id def)) /\
  (forall id, exists verdicts, learning_corpus_of id s = Ok verdicts /\ NoDup (map v_kind verdicts) /\
     Forall (fun v => v_delta_id v = id) verdicts) /\
  (forall attempt, match feedback attempt s with
    | Ok f => fb_attempt_id f = attempt /\ feedback_validate f = Ok tt
    | Err e => e = Delta (FeedbackMissing attempt)
    end) /\
  (forall base, (0 <= base <= i64_max)%Z ->
     exists rules, identity_migrations_on base db = Ok rules /\ Forall (fun m => m_base_version m = base) rules).
Proof.
  intros Hr Hc. destruct (reachable_conn _ _ Hr Hc) as (ds & vs & fs & ms & Hh). split_and!.
  - intros id. rewrite (learning_delta_reads _ _ _ _ _ _ _ Hc Hh).
    destruct (find _ ds) as [d|] eqn:Hf; [|done]. apply find_record in Hf as [Hd <-]. split; [done|].
    pose proof (h_records _ _ _ _ _ Hh) as Hok. rewrite Forall_forall in Hok. by apply Hok.
  - exists (definition_of ds). split; [by eapply learning_definition_reads|].
    unfold definition_of. rewrite map_map. simpl. apply NoDup_map_filter, Hh.
  - intros id. destruct (corpus_on_records _ _ _ _ _ id Hh) as (verdicts & Hv & Hp).
    exists verdicts. split; [unfold learning_corpus_of, read; by rewrite Hc|].
    assert (Hid : Forall (fun v => v_delta_id v = id) verdicts).
    { rewrite Hp. apply Forall_forall. by intros v [Hv' _]%list_elem_of_filter. }
    split; [|done].
    assert (Hk : NoDup (map (fun v => (v_delta_id v, v_kind v)) verdicts)).
    { rewrite Hp. apply NoDup_map_filter, Hh. }
    clear -Hk Hid. induction Hid as [|v verdicts Ev Hid IH]; [constructor|].
    cbn [map] in *. apply NoDup_cons in Hk as [Hn Hk]. apply NoDup_cons. split; [|by apply IH].
    intros (w & Ew & Hw)%list_elem_of_fmap. apply Hn. apply list_elem_of_fmap. exists w. split; [|done].
    rewrite Forall_forall in Hid. by rewrite Ew, Ev, (Hid w Hw).
  - intros a. rewrite (feedback_reads _ _ _ _ _ _ _ Hc Hh). destruct (find _ fs) as [f|] eqn:Hf; [|done].
    apply find_Some in Hf as [Hin <-%String.eqb_eq]. split; [done|].
    pose proof (h_accepted _ _ _ _ _ Hh) as Ha. rewrite Forall_forall in Ha. by apply Ha.
  - intros base [Hb1 Hb2]. exists (filter (fun m => m_base_version m = base) ms). split.
    + unfold identity_migrations_on, stored_u64. rewrite decide_True by done. cbn [map_err rbind].
      rewrite (h_migrations _ _ _ _ _ Hh), (filter_map _ _ (fun m => m_base_version m = base)) by done.
      apply decode_all_Ok, Forall2_fmap_l, Forall_Forall2_diag, Forall_forall.
      intros m [Eb Hm]%list_elem_of_filter. by apply migration_of_row; rewrite Eb.
    + apply Forall_forall. by intros m [Hm _]%list_elem_of_filter.
Qed.

(** * Activation and rollback *)

(** The facts on which a verdict was reached. *)
Lemma verdict_passed candidate active control case base v :
  v = corpus_verdict candidate active control case base -> v_passed v = true ->
  match v_kind v with
  | TransferKind => exists facts, applies (cc_change candidate) facts = true
  | CompositionKind =>
      (max_instruction_bytes (composed_with active
         (mkDelta (cc_delta_id candidate) (cc_version candidate) (cc_change candidate))) base
       <= DEFINITION_MAX_BYTES)%Z
  | NegativeControlKind => exists facts, applies (cc_change candidate) facts = false
  end.
Proof.
  intros -> Hp. unfold corpus_verdict, judge_case in *.
  destruct case as [facts|facts|facts c]; cbn [v_kind v_passed case_kind] in *.
  - by exists facts.
  - destruct (payload (cc_change candidate)); cbn [v_passed] in Hp.
    + by apply bool_decide_eq_true in Hp.
    + by apply andb_true_iff in Hp as [_ Hp%bool_decide_eq_true].
  - apply andb_true_iff in Hp as [_ Hp%negb_true_iff]. by exists facts.
Qed.

Lemma advance_other from to id expected d :
  r_delta_id d <> id -> advance from to id expected d = d.
Proof. intros Hne. destruct (advance_cases from to id expected d) as [[(? & _) _]|[_ ?]]; done. Qed.

Lemma advance_same from to id expected d :
  pinned from id expected d -> advance from to id expected d =
    mkRecord (r_delta_id d) (r_base_version d) (r_change d) (r_evidence d) to (r_version d + 1).
Proof. intros Hp. unfold advance. by rewrite decide_True. Qed.

(** What the reads answer after one record moved on. *)
Lemma advance_reads from to id expected s s' db db' ds vs fs ms d :
  conn s = Ok db -> conn s' = Ok db' -> Holds db ds vs fs ms ->
  Holds db' (map (advance from to id expected) ds) vs fs ms -> d ∈ ds -> pinned from id expected d ->
  learning_delta id s = Ok d /\
  learning_delta id s' =
    Ok (mkRecord (r_delta_id d) (r_base_version d) (r_change d) (r_evidence d) to (r_version d + 1)) /\
  (forall other, other <> id -> learning_delta other s' = learning_delta other s).
Proof.
  intros Hc Hc' Hh Hh' Hd Hp. split_and!.
  - apply (learning_delta_Ok _ _ _ _ _ _ _ _ Hc Hh). split; [done|by apply Hp].
  - apply (learning_delta_Ok _ _ _ _ _ _ _ _ Hc' Hh'). split; [|by apply Hp].
    apply list_elem_of_fmap. exists d. split; [|done]. by rewrite advance_same.
  - intros other Hne. rewrite (learning_delta_reads _ _ _ _ _ _ _ Hc Hh), (learning_delta_reads _ _ _ _ _ _ _ Hc' Hh').
    rewrite (find_map (fun d => String.eqb (r_delta_id d) other) (fun d => String.eqb (r_delta_id d) other))
      by (intros; by rewrite advance_id).
    destruct (find _ ds) as [e|] eqn:Hf; simpl; [|done].
    apply find_record in Hf as [_ He]. rewrite advance_other; [done|congruence].
Qed.

(** What an activation that answers found and left. *)
Lemma activation_grounds s id version def s' :
  reachable s -> activate_learning_delta id version s = (Ok def, s') ->
  exists db db' ds vs fs ms d,
    conn s = Ok db /\ conn s' = Ok db' /\ learning_definition s' = Ok def /\ Holds db ds vs fs ms /\
    Holds db' (map (advance Inactive Active id version) ds) vs fs ms /\
    d ∈ ds /\ pinned Inactive id version d /\
    forall k, exists v active control case, v_kind v = k /\ v_passed v = true /\
      v = corpus_verdict (mkCorpusCandidate id version (r_change d)) active control case LARGEST_INSTRUCTION_BASE.
Proof.
  intros Hr Ha. unfold activate_learning_delta in Ha.
  apply answered in Ha as (u & db & db' & Hc & Hb & Hc' & Hdef & _).
  destruct (reachable_conn _ _ Hr Hc) as (ds & vs & fs & ms & Hh).
  destruct (activate_effect _ _ _ _ _ _ _ _ _ Hh Hb) as (E & (d & Hd & Hp) & Hpassed & Hsize).
  exists db, db', ds, vs, fs, ms, d. split_and!; try done; [rewrite E; by apply advance_inv|].
  destruct Hp as (<- & Hst & <-). intros k. destruct (Hpassed k) as (v & Hin & Eid & Ever & Ek & Hpv).
  pose proof (h_judged _ _ _ _ _ Hh) as Hj. rewrite Forall_forall in Hj.
  destruct (Hj v Hin) as (e & He & Eid' & _ & Hw). assert (e = d) as ->.
  { apply (same_record ds); [apply Hh|done|done|congruence]. }
  destruct (Hw Ever) as (active & control & case & ->). eauto 8.
Qed.

(** The facts of the three verdicts. *)
Lemma grounds_facts id version change :
  (forall k, exists v active control case, v_kind v = k /\ v_passed v = true /\
     v = corpus_verdict (mkCorpusCandidate id version change) active control case LARGEST_INSTRUCTION_BASE) ->
  (exists facts, applies change facts = true) /\ (exists facts, applies change facts = false) /\
  (exists active, (max_instruction_bytes (composed_with active (mkDelta id version change))
                     LARGEST_INSTRUCTION_BASE <= DEFINITION_MAX_BYTES)%Z).
Proof.
  intros Hv. split_and!.
  - destruct (Hv TransferKind) as (v & act & ctl & case & Hk & Hpv & E).
    pose proof (verdict_passed _ _ _ _ _ _ E Hpv) as Hx. by rewrite Hk in Hx.
  - destruct (Hv NegativeControlKind) as (v & act & ctl & case & Hk & Hpv & E).
    pose proof (verdict_passed _ _ _ _ _ _ E Hpv) as Hx. by rewrite Hk in Hx.
  - destruct (Hv CompositionKind) as (v & act & ctl & case & Hk & Hpv & E).
    pose proof (verdict_passed _ _ _ _ _ _ E Hpv) as Hx. rewrite Hk in Hx. by exists act.
Qed.

(** An activation that answers found the delta inactive at the version it
    names, and rests on verdicts about the change it activates: on some facts
    the change applies, on some it does not, and with it some definition stayed
    within its bound.  It makes that delta active at the next version, puts its
    change in the answered definition, and touches no other delta. *)
Theorem activation_rests_on_its_own_change s id version def s' :
  reachable s -> activate_learning_delta id version s = (Ok def, s') ->
  exists d, learning_delta id s = Ok d /\ r_state d = Inactive /\ r_version d = version /\
    ((exists facts, applies (r_change d) facts = true) /\
     (exists facts, applies (r_change d) facts = false) /\
     (exists active, (max_instruction_bytes (composed_with active (mkDelta id version (r_change d)))
                        LARGEST_INSTRUCTION_BASE <= DEFINITION_MAX_BYTES)%Z)) /\
    learning_delta id s' =
      Ok (mkRecord id (r_base_version d) (r_change d) (r_evidence d) Active (version + 1)) /\
    mkDelta id (version + 1) (r_change d) ∈ def /\
    forall other, other <> id -> learning_delta other s' = learning_delta other s.
Proof.
  intros Hr Ha.
  destruct (activation_grounds _ _ _ _ _ Hr Ha)
    as (db & db' & ds & vs & fs & ms & d & Hc & Hc' & Hdef & Hh & Hh' & Hd & Hp & Hv).
  destruct (advance_reads _ _ _ _ _ _ _ _ _ _ _ _ _ Hc Hc' Hh Hh' Hd Hp) as (R1 & R2 & R3).
  apply grounds_facts in Hv. pose proof Hp as (Eid & Hst & Ever). exists d.
  split_and!; try apply Hv; try done; [by rewrite R2, Eid, Ever|].
  rewrite (learning_definition_reads _ _ _ _ _ _ Hc' Hh') in Hdef. injection Hdef as <-.
  rewrite <- Eid, <- Ever.
  apply (definition_of_in _ (mkRecord (r_delta_id d) (r_base_version d) (r_change d) (r_evidence d) Active (r_version d + 1)));
    [|done]. apply list_elem_of_fmap. exists d. split; [|done]. rewrite advance_same; [done|by rewrite Eid, Ever].
Qed.

(** A rollback that answers found the delta active at the version it names;
    it leaves it rolled back at the next version with its change, takes exactly
    its contribution out of the definition, in place, and touches no other
    delta. *)
Theorem rollback_withdraws_its_own_delta s id version before after s' :
  reachable s -> learning_definition s = Ok before -> roll_back_learning_delta id version s = (Ok after, s') ->
  exists d, learning_delta id s = Ok d /\ r_state d = Active /\ r_version d = version /\
    mkDelta id version (r_change d) ∈ before /\
    after = filter (fun e => delta_id e <> id) before /\
    learning_delta id s' =
      Ok (mkRecord id (r_base_version d) (r_change d) (r_evidence d) RolledBack (version + 1)) /\
    forall other, other <> id -> learning_delta other s' = learning_delta other s.
Proof.
  intros Hr Hbefore Ha. unfold roll_back_learning_delta in Ha.
  apply answered in Ha as (u & db & db' & Hc & Hb & Hc' & Hdef & _).
  destruct (reachable_conn _ _ Hr Hc) as (ds & vs & fs & ms & Hh).
  destruct (roll_back_effect _ _ _ _ _ _ (h_deltas _ _ _ _ _ Hh) Hb) as (E & d & Hd & Hp).
  assert (Hh' : Holds db' (map (advance Active RolledBack id version) ds) vs fs ms).
  { rewrite E. apply advance_inv; [done|done|].
    etrans; [apply max_instruction_bytes_sublist, rollback_sublist|apply Hh]. }
  destruct (advance_reads _ _ _ _ _ _ _ _ _ _ _ _ _ Hc Hc' Hh Hh' Hd Hp) as (R1 & R2 & R3).
  rewrite (learning_definition_reads _ _ _ _ _ _ Hc' Hh') in Hdef. injection Hdef as <-.
  rewrite (learning_definition_reads _ _ _ _ _ _ Hc Hh) in Hbefore. injection Hbefore as <-.
  exists d. pose proof Hp as (Eid & Hst & Ever). split_and!; try done.
  - rewrite <- Eid, <- Ever. by apply (definition_of_in _ d).
  - unfold definition_of. rewrite (filter_map delta_of _ (fun e => r_delta_id e <> id)) by done. f_equal.
    assert (Hin : forall e, e ∈ ds -> r_delta_id e = id -> e = d).
    { intros e He Ee. apply (same_record ds); [apply Hh|done|done|congruence]. }
    clear -Hin Hst Hp Eid. induction ds as [|e ds IH]; [done|]. cbn [map]. rewrite !filter_cons.
    assert (IH' := IH (fun e He => Hin e ltac:(apply elem_of_cons; by right))). clear IH.
    destruct (decide (r_delta_id e = id)) as [Ee|Hne].
    + assert (e = d) as -> by (apply Hin; [apply elem_of_cons; by left|done]).
      rewrite advance_same by done. cbn [r_state]. rewrite decide_False by done.
      rewrite (decide_True _ _ Hst), filter_cons_False; [done|tauto].
    + rewrite advance_other by done. destruct (decide (r_state e = Active)); [|done].
      rewrite filter_cons_True by done. by rewrite IH'.
  - rewrite R2. by rewrite Eid, Ever.
Qed.

(** * What is never lost *)

Lemma steps_reads s s' db' :
  reachable s -> rtc store_step s s' -> conn s' = Ok db' ->
  exists db ds vs fs ms ds' vs' fs' ms', ts_conn s = Some db /\ Holds db ds vs fs ms /\
    Holds db' ds' vs' fs' ms' /\ keeps ds ds' /\ fs `prefix_of` fs'.
Proof.
  intros Hr Hst Hc'. destruct (steps_keep _ _ Hst _ (conn_some _ _ Hc')) as (db & Hdb & Hk).
  destruct (reachable_holds _ _ Hr Hdb) as (ds & vs & fs & ms & Hh).
  destruct (Hk _ _ _ _ Hh) as (ds' & vs' & fs' & ms' & Hh' & ? & ?). by exists db, ds, vs, fs, ms, ds', vs', fs', ms'.
Qed.

Lemma conn_of (s : TaskStore LearningDb) db db' : conn s = Ok db -> ts_conn s = Some db' -> db = db'.
Proof. intros Hc%conn_some. congruence. Qed.

Lemma reachable_step s s' : reachable s -> rtc store_step s s' -> reachable s'.
Proof. intros (s0 & Ho & Hs) Hst. exists s0. split; [done|by etrans]. Qed.

(** A delta that left [inactive] never becomes inactive again and is never
    dropped, whatever calls follow: it stays readable, once rolled back it stays
    rolled back, and no version of it can be activated again. *)
Theorem a_delta_activates_once s s' id d db' :
  reachable s -> learning_delta id s = Ok d -> r_state d <> Inactive ->
  rtc store_step s s' -> conn s' = Ok db' ->
  exists d', learning_delta id s' = Ok d' /\ r_state d' <> Inactive /\ (r_version d <= r_version d')%Z /\
    (r_state d = RolledBack -> r_state d' = RolledBack) /\
    forall version def s'', activate_learning_delta id version s' <> (Ok def, s'').
Proof.
  intros Hr Hd Hs Hst Hc'.
  destruct (steps_reads _ _ _ Hr Hst Hc') as (db & ds & vs & fs & ms & ds' & vs' & fs' & ms' & Hdb & Hh & Hh' & Hk & _).
  destruct (conn s) as [db0|] eqn:Hc; [|unfold learning_delta, read in Hd; by rewrite Hc in Hd].
  rewrite (conn_of _ _ _ Hc Hdb) in Hc.
  apply (learning_delta_Ok _ _ _ _ _ _ _ _ Hc Hh) in Hd as [Hin Eid].
  destruct (Hk d Hin Hs) as (d' & Hin' & Eid' & Hver & Hleft & Hback).
  assert (Hd' : learning_delta id s' = Ok d').
  { apply (learning_delta_Ok _ _ _ _ _ _ _ _ Hc' Hh'). split; [done|congruence]. }
  exists d'. split_and!; auto. intros version def s'' Ha.
  destruct (activation_grounds _ _ _ _ _ (reachable_step _ _ Hr Hst) Ha)
    as (db2 & _ & ds2 & vs2 & fs2 & ms2 & e & Hc2 & _ & _ & Hh2 & _ & He & (Ee & Hi & _) & _).
  assert (He' : learning_delta id s' = Ok e) by (by apply (learning_delta_Ok _ _ _ _ _ _ _ _ Hc2 Hh2)).
  rewrite Hd' in He'. injection He' as <-. by apply Hleft.
Qed.

(** Feedback is append-only: a row once readable reads the same after any
    calls, and another row for its attempt is refused without a change. *)
Theorem feedback_is_append_only s s' attempt f db' :
  reachable s -> feedback attempt s = Ok f -> rtc store_step s s' -> conn s' = Ok db' ->
  feedback attempt s' = Ok f /\
  forall g, fb_attempt_id g = attempt -> (exists e, record_feedback g s' = (Err e, s')).
Proof.
  intros Hr Hf Hst Hc'.
  destruct (steps_reads _ _ _ Hr Hst Hc') as (db & ds & vs & fs & ms & ds' & vs' & fs' & ms' & Hdb & Hh & Hh' & _ & Hp).
  destruct (conn s) as [db0|] eqn:Hc; [|unfold feedback, read in Hf; by rewrite Hc in Hf].
  rewrite (conn_of _ _ _ Hc Hdb) in Hc. rewrite (feedback_reads _ _ _ _ _ _ _ Hc Hh) in Hf.
  assert (Hf' : find (fun f => String.eqb (fb_attempt_id f) attempt) fs' = Some f).
  { destruct Hp as [rest ->]. rewrite find_app. by destruct (find _ fs) as [g|]; simplify_eq. }
  split; [by rewrite (feedback_reads _ _ _ _ _ _ _ Hc' Hh'), Hf'|].
  intros g <-. unfold record_feedback. destruct (feedback_validate g) as [[]|e]; [|by eexists].
  assert (Hex : existsb (fun row => String.eqb (fr_attempt_id row) (fb_attempt_id g)) (routing_feedback db') = true).
  { apply existsb_exists. exists (feedback_row f). rewrite (h_feedback _ _ _ _ _ Hh').
    apply find_Some in Hf' as [Hin Hid]. split; [by apply in_map, list_elem_of_In|done]. }
  unfold transaction, record_feedback_tx, tx_bind, tx_get. destruct (conn_mut s') as [db1|e] eqn:Hm; [|by eexists].
  apply conn_mut_conn in Hm. rewrite Hc' in Hm. injection Hm as <-. rewrite Hex. by eexists.
Qed.

(** * The rebinding pass *)

Lemma decode_all_Err {A B E} (f : A -> result B E) l e :
  decode_all f l = Err e -> exists x, x ∈ l /\ f x = Err e.
Proof.
  induction l as [|x l IH]; [done|]. cbn [decode_all]. destruct (f x) as [y|e'] eqn:Hx.
  - destruct (decode_all f l) as [ys|]; [done|]. intros [= ->]. destruct (IH eq_refl) as (z & Hz & Hfz).
    exists z. split; [apply elem_of_cons; by right|done].
  - intros [= ->]. exists x. split; [apply elem_of_cons; by left|done].
Qed.

(** The refusals of a pass that are not about its own statements. *)
Definition foreign (e : IdentityError StoreError) : Prop :=
  forall id, e <> Identity.Store (Storage (BindingMoved id)).

Lemma new_foreign base ms e : Identity.new base ms = Err e -> foreign e.
Proof.
  unfold Identity.new. destruct (check_rules base [] ms) as [|e'] eqn:Hr; [done|]. intros [= ->]. revert Hr.
  generalize (@nil (IdentityKind * string * string)). induction ms as [|m ms IH]; intros claimed; [done|].
  cbn [check_rules]. destruct (negb _); [by intros [= <-]|].
  destruct (Identity.validate m) as [|e'] eqn:Hv; cbn [rbind].
  - destruct (find _ claimed) as [[[k sj] first]|]; [|apply IH].
    destruct (String.eqb first (new_id m)); [apply IH|by intros [= <-]].
  - intros [= ->]. unfold Identity.validate, check_namespace, check_subject, malformed in Hv. intros id.
    repeat case_match; simplify_eq/=; repeat case_match; simplify_eq/=; done.
Qed.

Lemma migrations_foreign base db e : identity_migrations_on base db = Err e -> foreign e.
Proof.
  unfold identity_migrations_on, stored_u64. case_decide; cbn [map_err rbind]; [|by intros [= <-]].
  intros (r & _ & Hr)%decode_all_Err. unfold migration_of, read_u64, ok_or, corrupt_column in Hr.
  repeat case_match; simplify_eq/=; done.
Qed.

Lemma conclusions_foreign decided e : check_conclusions decided = Err e -> foreign e.
Proof.
  induction decided as [|[[k sj] cs] decided IH]; [done|]. cbn [check_conclusions].
  destruct (first_disagreement cs) as [[a b]|]; [by intros [= <-]|apply IH].
Qed.

Lemma rebind_foreign db ds vs fs ms e :
  Holds db ds vs fs ms -> rebind_learning_identities_on db = Err e -> foreign e.
Proof.
  intros Hh. unfold rebind_learning_identities_on, tx_bind, tx_get, tx_lift.
  destruct (identity_migrations_on _ db) as [ms'|e'] eqn:Hms; [|intros [= ->]; by eapply migrations_foreign].
  destruct (Identity.new _ ms') as [rules|e'] eqn:Hn; [|intros [= ->]; by eapply new_foreign].
  rewrite (bindings_on_records _ _ (h_deltas _ _ _ _ _ Hh)).
  destruct (check_conclusions _) as [[]|e'] eqn:Hcc; [|intros [= ->]; by eapply conclusions_foreign].
  rewrite (move_bindings_effect rules [] ds [] _ (h_deltas _ _ _ _ _ Hh) (h_ids _ _ _ _ _ Hh)). cbn [app].
  assert (Hrok : Forall record_ok (map (rebind_record rules) ds)).
  { apply Forall_map. eapply Forall_impl; [apply Hh|]. intros d. by eapply rebind_record_ok. }
  set (db1 := with_deltas _ db).
  destruct (definition_on_records (map (rebind_record rules) ds) db1 eq_refl Hrok) as [_ Hsize].
  unfold tx_store, tx_ret, tx_err. rewrite Hsize.
  destruct (omap (rebound_of rules) ds); simpl; [done|]. case_bool_decide; [|done]. by intros [= <-].
Qed.

(** The record of an id, among records with ids of their own. *)
Lemma rebound_ids rules ds d :
  NoDup (ids ds) -> d ∈ ds ->
  (rebind_record rules d = d <-> Forall (fun r => rs_delta_id r <> r_delta_id d) (omap (rebound_of rules) ds)).
Proof.
  intros Hnd Hd. rewrite Forall_forall. split.
  - intros E r (e & He & Hre)%list_elem_of_omap Eid.
    assert (e = d) as ->.
    { apply (same_record ds); [done|done|done|]. unfold rebound_of in Hre.
      apply bind_Some in Hre as (b & _ & (to & _ & [= <-])%bind_Some). done. }
    destruct (rebind_record_cases rules d) as [[Hnone _]|(b & to & _ & _ & _ & _ & E')].
    + unfold rebound_of, target_of in *. destruct (binding_of d); [|done]. simpl in *. by rewrite Hnone in Hre.
    + rewrite E' in E. apply (f_equal r_version) in E. simpl in E. lia.
  - intros Hall. destruct (rebind_record_cases rules d) as [[_ E]|(b & to & Hb' & _ & _ & Htg & _)]; [done|].
    exfalso. apply (Hall (mkRebound (r_delta_id d) (sb_kind b) (sb_subject b) to)); [|done].
    apply list_elem_of_omap. exists d. split; [done|]. unfold rebound_of. rewrite Hb'. simpl.
    unfold target_of in Htg. rewrite Hb' in Htg. simpl in Htg. by rewrite Htg.
Qed.

(** The subjects no rule places are listed once each. *)
Definition unplaced (rules : IdentityRules) (bs : list StoredBinding) (named : NamedSubject) : Prop :=
  exists b, b ∈ bs /\ place rules (sb_kind b) (sb_subject b) = Unassigned /\
    named = mkNamed (sb_kind b) (sb_subject b).

Lemma unplaced_cons rules b bs named :
  unplaced rules (b :: bs) named <->
  (place rules (sb_kind b) (sb_subject b) = Unassigned /\ named = mkNamed (sb_kind b) (sb_subject b)) \/
  unplaced rules bs named.
Proof.
  split.
  - intros (b' & Hb & Hp & ->). apply elem_of_cons in Hb as [->|Hb]; [by left|right]. by exists b'.
  - intros [[Hp ->]|(b' & Hb & Hp & ->)]; [exists b|exists b']; (split; [|done]); apply elem_of_cons; auto.
Qed.

Lemma collect_unassigned_spec rules bs seen :
  NoDup seen ->
  NoDup (collect_unassigned rules bs seen) /\
  forall named, named ∈ collect_unassigned rules bs seen <-> named ∈ seen \/ unplaced rules bs named.
Proof.
  revert seen. induction bs as [|b bs IH]; intros seen Hs; cbn [collect_unassigned].
  { split; [done|]. intros named. split; [by left|]. intros [Hn|(b & Hb & _)]; [done|]. by apply elem_of_nil in Hb. }
  destruct (place rules (sb_kind b) (sb_subject b)) as [to|] eqn:Ep.
  - destruct (IH seen Hs) as [Hn Hi]. split; [done|]. intros named. rewrite Hi, unplaced_cons, Ep.
    split; [tauto|]. intros [?|[[? _]|?]]; [by left|done|by right].
  - case_bool_decide as Hin.
    + destruct (IH seen Hs) as [Hn Hi]. split; [done|]. intros named. rewrite Hi, unplaced_cons, Ep.
      split; [tauto|]. intros [?|[[_ ->]|?]]; [by left|by left|by right].
    + destruct (IH (seen ++ [mkNamed (sb_kind b) (sb_subject b)])) as [Hn Hi].
      { apply NoDup_app. split_and!; [done| |apply NoDup_singleton]. intros n Hn ->%list_elem_of_singleton. done. }
      split; [done|]. intros named. rewrite Hi, unplaced_cons, Ep, elem_of_app, list_elem_of_singleton. tauto.
Qed.

(** C36.  A rebinding pass that answers reads the rules of the serving base and
    moves every stored binding to the id its rule names, leaving every other record
    as it was.  Its report is, in record order and once each, exactly the bindings it
    moved: the record's id, the kind, the subject it named and the id it names now;
    and it names the bindings no rule places, each once.  A pass that refuses changes
    nothing, and it never refuses because a binding moved under it. *)
Theorem rebind_pass_applies_the_rules s :
  reachable s ->
  match transaction rebind_learning_identities_on s with
  | (Ok pass, s') =>
      exists rules db db' ds,
        conn s = Ok db /\ learning_deltas db = map row_of ds /\
        conn s' = Ok db' /\ learning_deltas db' = map row_of (map (rebind_record rules) ds) /\
        identity_rules s = Ok rules /\
        rb_base_version pass = served_base_version db /\ rb_migrations pass = Identity.migrations rules /\
        rb_rebound pass = omap (rebound_of rules) ds /\
        NoDup (rb_unassigned pass) /\
        (forall named, named ∈ rb_unassigned pass <-> unplaced rules (omap binding_of ds) named) /\
        (forall id d, learning_delta id s = Ok d -> learning_delta id s' = Ok (rebind_record rules d)) /\
        (forall id d, learning_delta id s = Ok d ->
           (rebind_record rules d = d <-> Forall (fun r => rs_delta_id r <> id) (rb_rebound pass)))
  | (Err e, s') => s' = s /\ forall id, e <> Identity.Store (Storage (BindingMoved id))
  end.
Proof.
  intros Hr. destruct (transaction _ s) as [[pass|e] s'] eqn:Ht.
  - destruct (transaction_Ok rebind_learning_identities_on s pass) as (db & db' & Hm & Hb & Hs'); [by rewrite Ht|].
    rewrite Ht in Hs'. simpl in Hs'. subst s'. pose proof (conn_mut_conn _ _ Hm) as Hc.
    destruct (reachable_conn _ _ Hr Hc) as (ds & vs & fs & ms & Hh).
    destruct (rebind_effect _ _ _ _ _ _ _ Hh Hb) as (rules & Hn & Hrules & _ & -> & Hsize & ->).
    assert (Hh' := rebind_holds _ _ _ _ _ _ _ _ Hn Hh Hsize).
    assert (Hc' : conn (mkTaskStore (Some (with_deltas (fun _ => map row_of (map (rebind_record rules) ds)) db))
              (ts_held_claim_commit s) (ts_path_identity s)) = Ok (with_deltas (fun _ => map row_of (map (rebind_record rules) ds)) db)).
    { unfold conn in *. simpl. by destruct (ts_held_claim_commit s). }
    destruct (collect_unassigned_spec rules (omap binding_of ds) [] (NoDup_nil_2)) as [Hnd Hun].
    eexists rules, db, _, ds. split_and!; [done|apply Hh|exact Hc'|done| |done..|exact Hnd| | |].
    + unfold identity_rules, read. rewrite Hc. by rewrite Hrules.
    + intros named. cbn [rb_unassigned]. rewrite Hun, elem_of_nil. tauto.
    + intros id d Hd. apply (learning_delta_Ok _ _ _ _ _ _ _ _ Hc Hh) in Hd as [Hd <-].
      apply (learning_delta_Ok _ _ _ _ _ _ _ _ Hc' Hh'). split; [by apply list_elem_of_fmap_2|apply rebind_record_id].
    + intros id d Hd. apply (learning_delta_Ok _ _ _ _ _ _ _ _ Hc Hh) in Hd as [Hd <-].
      apply rebound_ids; [apply Hh|done].
  - pose proof (transaction_Err rebind_learning_identities_on s e) as Hs. rewrite Ht in Hs. split; [by apply Hs|].
    unfold transaction in Ht. destruct (conn_mut s) as [db|e'] eqn:Hm.
    + destruct (rebind_learning_identities_on db) as [[a db']|e'] eqn:Hb; [done|]. injection Ht as -> _.
      destruct (reachable_conn _ _ Hr (conn_mut_conn _ _ Hm)) as (ds & vs & fs & ms & Hh).
      by eapply rebind_foreign.
    + injection Ht as <- _. unfold conn_mut in Hm. repeat case_match; by simplify_eq.
Qed.

(** * Two surprises *)

(** An instruction delta without a condition, which validation accepts, can
    never be activated: the negative control its activation needs is a case it
    does not apply to. *)
Theorem unconditional_delta_never_activates s id d version def s' :
  reachable s -> learning_delta id s = Ok d -> when (r_change d) = None ->
  activate_learning_delta id version s <> (Ok def, s').
Proof.
  intros Hr Hd Hw Ha.
  destruct (activation_grounds _ _ _ _ _ Hr Ha)
    as (db & _ & ds & vs & fs & ms & e & Hc & _ & _ & Hh & _ & He & (Ee & _) & Hv).
  assert (He' : learning_delta id s = Ok e) by (by apply (learning_delta_Ok _ _ _ _ _ _ _ _ Hc Hh)).
  rewrite Hd in He'. injection He' as <-. apply grounds_facts in Hv as (_ & (facts & Hf) & _).
  unfold applies in Hf. by rewrite Hw in Hf.
Qed.
End LearningProps.

(** * A concrete store *)

Module Samples.
Definition condition_tuple (f : ConditionFact) : nat * string :=
  match f with
  | Purpose p => (0, p)
  | Kind k => (1, request_kind_as_str k)
  | OnSurface s => (2, surface_as_str s)
  end.
Definition tuple_condition (t : nat * string) : option ConditionFact :=
  match t.1 with
  | 0 => Some (Purpose t.2)
  | 1 => Kind <$> request_kind_from_db t.2
  | _ => OnSurface <$> surface_parse t.2
  end.
Lemma tuple_condition_tuple f : tuple_condition (condition_tuple f) = Some f.
Proof.
  destruct f as [p|k|sf]; [done|..]; unfold tuple_condition, condition_tuple; cbn [fst snd].
  - by destruct k.
  - by destruct sf.
Qed.

#[export] Instance condition_json : JsonCodec ConditionFact.
Proof.
  apply (Build_JsonCodec _ (fun f => code_of (condition_tuple f)) (fun s => of_code s ≫= tuple_condition)).
  intros f. rewrite of_code_of. simpl. apply tuple_condition_tuple.
Defined.

Definition evidence_tuple (e : VersionEvidence) :=
  (ve_build e, ve_policy_generation e, ve_base_version e, ve_model e, ve_connection e).
#[export] Instance evidence_json : JsonCodec VersionEvidence.
Proof.
  apply (Build_JsonCodec _ (fun e => code_of (evidence_tuple e))
    (fun s => (fun '(b, p, v, m, c) => mkVersionEvidence b p v m c) <$> of_code s)).
  intros e. rewrite of_code_of. simpl. by destruct e.
Defined.

Definition fresh_store : TaskStore LearningDb := mkTaskStore (Some (mkDb [] [] [] [] 1 0)) false true.
Definition after (calls : list LearningCall) : TaskStore LearningDb :=
  fold_left (fun s call => run call s) calls fresh_store.

Lemma after_steps s calls : Forall typed calls -> rtc store_step s (fold_left (fun s call => run call s) calls s).
Proof.
  revert s. induction calls as [|call calls IH]; intros s Hty; [done|]. apply Forall_cons in Hty as [Hc Hty].
  eapply rtc_l; [by apply (step_call call)|]. by apply IH.
Qed.

Lemma after_more calls more : Forall typed more -> rtc store_step (after calls) (after (calls ++ more)).
Proof. intros Hty. unfold after. rewrite fold_left_app. by apply after_steps. Qed.

Lemma after_reachable calls : Forall typed calls -> reachable (after calls).
Proof.
  intros Hty. exists fresh_store. split; [by constructor|]. by apply after_steps.
Qed.

Definition recorded (id : string) (change : DeltaChange) : LearningCall :=
  CallRecord (mkCandidate id 1 change "seen twice").
Definition brief (text purpose : string) : DeltaChange := mkChange (Instruction text) (Some (Purpose purpose)).
Definition decides (effect : PredicateEffect) (kind : RequestKind) : DeltaChange :=
  mkChange (Applicability "plan_work" effect) (Some (Kind kind)).
Definition on_kind (kind : RequestKind) : ConditionFacts := for_selection kind (Some ∅).

(** A delta taught, checked on its three cases and activated. *)
Definition taught : list LearningCall :=
  [recorded "control" (brief "Name the files." "plan_work");
   recorded "delta" (brief "Name the tests." "assess_plan");
   CallCorpus "delta" [Transfer (for_purpose "assess_plan"); Composition (for_purpose "assess_plan");
                       NegativeControl (for_purpose "plan_work") "control"]].
Definition active : list LearningCall := taught ++ [CallActivate "delta" 1].
Definition rolled_back : list LearningCall := active ++ [CallRollBack "delta" 2].

Definition observed : FeedbackRecord :=
  mkFeedback "attempt" None "assess_plan" "connection" None OutcomePass CauseNone
    (mkVersionEvidence "build" None None None None) None VerdictPass RewardNone true.

(** Two deltas at odds about one capability, the older one activated last. *)
Definition older_last : list LearningCall :=
  [recorded "control" (decides Require_ Deliver);
   recorded "older" (decides Require_ Change);
   recorded "newer" (decides Decline Change);
   CallCorpus "newer" [Transfer (on_kind Change); Composition (on_kind Change);
                       NegativeControl (on_kind Deliver) "control"];
   CallActivate "newer" 1;
   CallCorpus "older" [Transfer (on_kind Change); Composition (on_kind Change);
                       NegativeControl (on_kind Deliver) "control"]].
End Samples.

Import Samples.

(** The witnesses run the store; its reachability is by its calls. *)
Ltac sample := first [by apply after_reachable; repeat constructor | vm_compute; reflexivity].

Lemma learned_part_always_fits_witness :
  exists def, learning_definition (after active) = Ok def /\ def <> [] /\
  ((slen (instruction_part def "assess_plan" ASSESS_INSTRUCTIONS) <= DEFINITION_MAX_BYTES)%Z /\
   (carries_credential_reference ASSESS_INSTRUCTIONS = false ->
    carries_credential_reference (instruction_part def "assess_plan" ASSESS_INSTRUCTIONS) = false)).
Proof.
  eexists. split; [vm_compute; reflexivity|]. split; [done|].
  apply (learned_part_always_fits (after active)); [sample|vm_compute; reflexivity|].
  apply Z.leb_le. vm_compute. reflexivity.
Defined.

Definition db_of (s : TaskStore LearningDb) : LearningDb :=
  match conn s with Ok db => db | Err _ => mkDb [] [] [] [] 0 0 end.
Definition delta_of_store (id : string) (s : TaskStore LearningDb) : DeltaRecord :=
  match learning_delta id s with Ok d => d | Err _ => mkRecord id 0 (brief id id) id Inactive 0 end.
Definition definition_of_store (s : TaskStore LearningDb) : LearningDefinition :=
  match learning_definition s with Ok def => def | Err _ => [] end.

Lemma every_row_reads_back_witness :
  (forall attempt, match feedback attempt (after (active ++ [CallFeedback observed])) with
    | Ok f => fb_attempt_id f = attempt /\ feedback_validate f = Ok tt
    | Err e => e = Delta (FeedbackMissing attempt)
    end) /\ feedback "attempt" (after (active ++ [CallFeedback observed])) = Ok observed.
Proof.
  split; [|vm_compute; reflexivity].
  apply (every_row_reads_back (after (active ++ [CallFeedback observed]))
           (db_of (after (active ++ [CallFeedback observed])))); sample.
Defined.

Lemma activation_rests_on_its_own_change_witness :
  exists d, learning_delta "delta" (after taught) = Ok d /\ r_state d = Inactive.
Proof.
  destruct (activation_rests_on_its_own_change (after taught) "delta" 1
              (definition_of_store (after active)) (after active)) as (d & Hd & Hs & _);
    [sample|vm_compute; reflexivity|].
  exists d. split; [exact Hd|exact Hs].
Defined.

Lemma rollback_withdraws_its_own_delta_witness :
  exists d, learning_delta "delta" (after active) = Ok d /\ r_state d = Active.
Proof.
  destruct (rollback_withdraws_its_own_delta (after active) "delta" 2 (definition_of_store (after active))
              (definition_of_store (after rolled_back)) (after rolled_back)) as (d & Hd & Hs & _);
    [sample|vm_compute; reflexivity|vm_compute; reflexivity|].
  exists d. split; [exact Hd|exact Hs].
Defined.

Lemma a_delta_activates_once_witness :
  exists d', learning_delta "delta" (after rolled_back) = Ok d' /\ r_state d' <> Inactive.
Proof.
  destruct (a_delta_activates_once (after active) (after rolled_back) "delta" (delta_of_store "delta" (after active))
              (db_of (after rolled_back))) as (d' & Hd & Hs & _).
  - sample.
  - vm_compute. reflexivity.
  - vm_compute. discriminate.
  - by apply (after_more active [CallRollBack "delta" 2]); repeat constructor.
  - vm_compute. reflexivity.
  - exists d'. split; [exact Hd|exact Hs].
Defined.

Lemma feedback_is_append_only_witness :
  feedback "attempt" (after ([CallFeedback observed] ++ active)) = Ok observed.
Proof.
  apply (feedback_is_append_only (after [CallFeedback observed]) (after ([CallFeedback observed] ++ active))
           "attempt" observed (db_of (after ([CallFeedback observed] ++ active)))).
  - sample.
  - vm_compute. reflexivity.
  - by apply (after_more [CallFeedback observed] active); repeat constructor.
  - vm_compute. reflexivity.
Defined.

Definition merge_rule : IdentityMigration := mkMigration 1 Role "assess_plan" "review_change" Merge None.

Lemma rebind_pass_applies_the_rules_witness :
  learning_delta "delta" (after (active ++ [CallMigration merge_rule; CallRebind])) =
    Ok (mkRecord "delta" 1 (brief "Name the tests." "review_change") "seen twice" Active 3) /\
  exists pass s' ds rules,
    transaction rebind_learning_identities_on (after (active ++ [CallMigration merge_rule])) = (Ok pass, s') /\
    rb_rebound pass = omap (rebound_of rules) ds /\ length (rb_rebound pass) = 1.
Proof.
  split; [vm_compute; reflexivity|].
  pose proof (rebind_pass_applies_the_rules (after (active ++ [CallMigration merge_rule])) ltac:(sample)) as T.
  destruct (transaction rebind_learning_identities_on (after (active ++ [CallMigration merge_rule])))
    as [[pass|e] s'] eqn:E; [|vm_compute in E; discriminate E].
  destruct T as (rules & db & db' & ds & _ & _ & _ & _ & _ & _ & _ & Hre & _). exists pass, s', ds, rules.
  split; [done|]. split; [exact Hre|]. vm_compute in E. by injection E as <- _.
Defined.

Lemma unconditional_delta_never_activates_witness :
  let s := after [recorded "always" (mkChange (Instruction "Name the tests.") None)] in
  learning_delta "always" s = Ok (delta_of_store "always" s) /\
  forall version def s', activate_learning_delta "always" version s <> (Ok def, s').
Proof.
  split; [vm_compute; reflexivity|]. intros version def s'.
  apply (unconditional_delta_never_activates _ "always"
           (delta_of_store "always" (after [recorded "always" (mkChange (Instruction "Name the tests.") None)])));
    [sample|vm_compute; reflexivity|vm_compute; reflexivity].
Defined.

(** A composition verdict can certify a decision the definition does not
    make: it judges the candidate as the last delta, and the store keeps deltas
    in the order they were recorded.  In the reachable store [older_last] the
    passed verdict of the older delta says that the composed definition requires
    the capability, its activation answers, and the definition it answers
    declines it on the facts of the case. *)
Theorem composition_verdict_misreads_the_order :
  exists s id def s' v, reachable s /\ v ∈ match learning_corpus_of id s with Ok vs => vs | Err _ => [] end /\
    v_kind v = CompositionKind /\ v_passed v = true /\
    v_expected v = ("the composed definition decides plan_work as require within " +:+
                      pretty DEFINITION_MAX_BYTES +:+ " bytes")%string /\
    activate_learning_delta id 1 s = (Ok def, s') /\
    applicability def "plan_work" (on_kind Change) = Some Decline.
Proof.
  exists (after older_last), "older", (definition_of_store (after (older_last ++ [CallActivate "older" 1]))),
    (after (older_last ++ [CallActivate "older" 1])).
  destruct (learning_corpus_of "older" (after older_last)) as [[|v vs]|] eqn:E; [vm_compute in E; discriminate| |vm_compute in E; discriminate].
  exists v. split; [sample|]. split; [apply elem_of_cons; by left|].
  vm_compute in E. injection E as <- _. split_and!; vm_compute; reflexivity.
Qed.
