(* ===== verification/Actions.v ===== *)
(** The action catalogue and the rules of a plan ([src/src/actions.rs]): which
    capabilities a request needs and who can close them, the order of a plan's
    parts, the mechanical assessment, the checks of a material fork and of a
    semantic reply.  The handlers that read and write the store are in
    [PlanActions]. *)

From S2P Require Import Prelude.
From S2P Require Import Contracts.
From S2P Require Import Procedure.
From S2P Require Import Utf8.
From S2P Require Import Text.
From S2P Require Import Requests.
From S2P Require Import Learning.
From S2P Require Import Store.

Definition RESOLVE_DECISION : string := "resolve_decision".
Definition DECISION_OPTION_SLOTS : Z := 5.
Definition INSPECT_SYSTEM : string := "inspect_system".
Definition FRAME_GOAL : string := "frame_goal".
Definition CHALLENGE_DIRECTION : string := "challenge_direction".
Definition DESIGN_CONTRACTS : string := "design_contracts".
Definition PLAN_WORK : string := "plan_work".
Definition ASSESS_PLAN : string := "assess_plan".
Definition TEST_ASSUMPTION : string := "test_assumption".
Definition PREPARE_ENVIRONMENT : string := "prepare_environment".
Definition PLAN_STAGES : list string :=
  [FRAME_GOAL; CHALLENGE_DIRECTION; DESIGN_CONTRACTS; PLAN_WORK; ASSESS_PLAN].
Definition ASSESS_SECURITY : string := "assess_security".
Definition AUDIT_TESTS : string := "audit_tests".
Definition ASSESS_READINESS : string := "assess_readiness".
Definition IMPLEMENT_CHANGE : string := "implement_change".
Definition DELIVER_CHANGE : string := "deliver_change".
Definition REVIEW_CHANGE : string := "review_change".
Definition DIAGNOSE_ISSUE : string := "diagnose_issue".

(** * The catalogue *)

Inductive Implementation := ImplLocal | ImplPurpose | ImplLocalAndPurpose | ImplUnavailable.

#[export] Instance Implementation_eq_dec : EqDecision Implementation.
Proof. solve_decision. Defined.

Record ActionDefinition := mkDefinition {
  ad_id : string;
  ad_revision : Z;
  ad_trigger : string;
  ad_negative_trigger : string;
  ad_outcome : string;
  ad_implementation : Implementation;
}.

Definition plan_definitions : list ActionDefinition :=
    [mkDefinition FRAME_GOAL 1
      "a new request, a changed intent, or a result contract no approved basis covers"
      "not for a request an approved contract already frames — and never a rewrite of the user's own words"
      "the task's addressable criteria, constraints and open unknowns, read from the store"
      ImplLocal;
     mkDefinition CHALLENGE_DIRECTION 1
      "the work touches a risky surface without an approved contract"
      "not for a known local change or an approved direction — never a license to shrink the request"
      "checked risks from the challenge_direction Broker purpose; without a broker seam the row stays open on capability_unavailable"
      ImplPurpose;
     mkDefinition DESIGN_CONTRACTS 1
      "a new or changed boundary on a risky surface without an approved contract"
      "no decorative design for a known local edit or an already approved contract"
      "boundary contracts from the design_contracts Broker purpose; without a broker seam the row stays open on capability_unavailable"
      ImplPurpose;
     mkDefinition PLAN_WORK 1
      "a requested plan, dependent parts, several parts, or a risky surface that needs coordination"
      "not for a single local part — and never a file list standing in for a plan"
      "one plan revision under the current selection: parts linked to criteria in the order their dependencies allow"
      ImplLocal;
     mkDefinition ASSESS_PLAN 1
      "a plan revision of the current selection without a verdict"
      "not when no plan exists or the latest revision is already judged — plan existence is never the verdict"
      "a mechanical coverage and test-design verdict bound to the revision; a pass also needs the assess_plan Broker purpose's semantic leg"
      ImplLocalAndPurpose].

(** [ActionRegistry::new]: the rows by their ids.  [ActionRegistry] has no other
    constructor and no operation that changes it. *)
Definition registry_new : list ActionDefinition :=
    [mkDefinition RESOLVE_DECISION 1
      "a material fork needs a versioned ask/auto decision"
      "not for workflow gates, permission asks, or answers — it publishes the fork, it never consents"
      "one pending Question in ask mode, or an applied machine answer under a bounded delegation in auto mode"
      ImplLocal;
     mkDefinition INSPECT_SYSTEM 2
      "a caller asks which project capabilities the system layer actually knows"
      "not a search kind — it reports the boundary's declared/satisfied/detected systems, it never answers a query and never parses project source in process"
      "a typed boundary payload — declared/satisfied/detected systems by kind with freshness and residual risk; the parse legs are probed through the index worker, and a probe that did not answer is reported with its wire class"
      ImplLocal;
     mkDefinition TEST_ASSUMPTION 1
      "a check result tests a named hypothesis against its expected result"
      "an unavailable executable, fixture, or environment is a setup gap, not a product result"
      "the expected result and a typed distinction between product outcomes and setup gaps"
      ImplLocal;
     mkDefinition PREPARE_ENVIRONMENT 1
      "a prior assumption check recorded a setup gap that an authorized restore can address"
      "not for a completed check or a product defect"
      "a bounded environment restoration request and the unchanged original check expectation"
      ImplLocal] ++ plan_definitions.

(** [ActionRegistry::definition] *)
Definition definition (id : string) : option ActionDefinition :=
  find (fun row => String.eqb (ad_id row) id) registry_new.

(** * Requests *)

Inductive DecisionAuthor := AuthorSystem | AuthorAgent | AuthorHuman.

Definition author_as_str (a : DecisionAuthor) : string :=
  match a with AuthorSystem => "system" | AuthorAgent => "agent" | AuthorHuman => "human" end.

Record Delegation := mkDelegation { dg_action : string; dg_task_id : TaskId }.

(** [Delegation::covers] *)
Definition delegation_covers (d : Delegation) (action : string) (task_id : TaskId) : bool :=
  String.eqb (dg_action d) action && String.eqb (dg_task_id d) task_id.

Record ResolveDecisionInput := mkResolve {
  rd_task_id : TaskId;
  rd_prompt : string;
  rd_options : list QuestionOption;
  rd_recommended_option_id : OptionId;
  rd_recommendation_basis : string;
  rd_delegation : option Delegation;
  rd_author : option DecisionAuthor;
}.

Record WorkPart := mkPart {
  wp_id : string;
  wp_criteria : list CriterionId;
  wp_depends_on : list string;
  wp_proof : string;
}.

Record PlanRequest := mkRequest {
  pq_task_id : TaskId;
  pq_kind : RequestKind;
  pq_surfaces : SurfaceScan;
  pq_contract : ContractBasis;
  pq_parts : list WorkPart;
  pq_delegation : option Delegation;
  pq_author : option DecisionAuthor;
}.

(** * Selection *)

Inductive RouteBlock := NotInBuild | RouteUnavailable.

Inductive Route :=
  | RouteLocal (id : string)
  | RouteEquivalent (id : string)
  | RoutePurpose (id : string)
  | RouteBlocked (block : RouteBlock).

Record SelectedObligation := mkSelected {
  so_capability : string;
  so_applicability : ObligationApplicability;
  so_route : Route;
}.

Inductive SkipReason := NotNeeded | AlreadySatisfied | NeedsInformation | Unsupported.

#[export] Instance SkipReason_eq_dec : EqDecision SkipReason.
Proof. solve_decision. Defined.

Record Declined := mkDeclined { dc_action : string; dc_reason : SkipReason }.

Inductive Need := NeedRequired | NeedUnresolved | NeedSkip (reason : SkipReason).

#[export] Instance Need_eq_dec : EqDecision Need.
Proof. solve_decision. Defined.

(** The iteration order of a [BTreeSet<Surface>]. *)
Definition ALL_SURFACES : list Surface :=
  [Local; Auth; PublicApi; Migration; Permissions; Secrets; Trust; UntrustedInput; Isolation;
   Dependencies; PrivateData].
Definition surfaces_in_order (surfaces : gset Surface) : list Surface :=
  filter (fun s => s ∈ surfaces) ALL_SURFACES.

Definition need_when (holds : bool) : Need := if holds then NeedRequired else NeedSkip NotNeeded.

Definition coordinated (parts : list WorkPart) : bool :=
  (1 <? zlen parts)%Z || existsb (fun part => negb (bool_decide (wp_depends_on part = []))) parts.

(** The rows [needs] starts from. *)
Definition request_needs (request : PlanRequest) : list (string * Need * option string) :=
  let surfaces := surfaces_in_order <$> decided (pq_surfaces request) in
  let approved := bool_decide (pq_contract request = Approved) in
  let risky := existsb is_risk <$> surfaces in
  let frame := if approved then NeedSkip AlreadySatisfied else NeedRequired in
  let risk := match approved, risky with
              | true, _ => NeedSkip AlreadySatisfied
              | false, None => NeedUnresolved
              | false, Some risky => need_when risky
              end in
  let kind := pq_kind request in
  let plan := match risky with
              | None => NeedUnresolved
              | Some risky =>
                  need_when (bool_decide (kind = PlanOnly) || coordinated (pq_parts request) ||
                             (risky && negb approved))
              end in
  let '(inspect, security) := match surfaces with
                              | None => (NeedRequired, NeedUnresolved)
                              | Some surfaces => (NeedSkip AlreadySatisfied, need_when (existsb triggers_security surfaces))
                              end in
  let edits := bool_decide (kind = Change \/ kind = Deliver) in
  let readiness_equivalent := if decide (kind = PlanOnly) then Some ASSESS_PLAN else None in
  [(FRAME_GOAL, frame, None); (CHALLENGE_DIRECTION, risk, None); (DESIGN_CONTRACTS, risk, None);
   (PLAN_WORK, plan, None); (ASSESS_PLAN, plan, None); (INSPECT_SYSTEM, inspect, None);
   (ASSESS_SECURITY, security, None); (AUDIT_TESTS, need_when edits, None);
   (IMPLEMENT_CHANGE, need_when edits, None);
   (DELIVER_CHANGE, need_when (bool_decide (kind = Deliver)), None);
   (REVIEW_CHANGE, need_when (bool_decide (kind = Audit)), None);
   (DIAGNOSE_ISSUE, need_when (bool_decide (kind = Diagnose)), None);
   (ASSESS_READINESS, NeedRequired, readiness_equivalent)].

(** One turn of the loop over the learned conditions. *)
Definition learned_need (learned : LearningDefinition) (facts : ConditionFacts) (capability : string)
    (need : Need) : Need :=
  if decide (need = NeedUnresolved) then need
  else match applicability learned capability facts with
       | Some Require_ => NeedRequired
       | Some Decline => NeedSkip NotNeeded
       | None => need
       end.

Definition selection_facts (request : PlanRequest) : ConditionFacts :=
  for_selection (pq_kind request) (decided (pq_surfaces request)).

(** [needs] *)
Definition needs (request : PlanRequest) (learned : LearningDefinition)
    : list (string * Need * option string) :=
  map (fun '(capability, need, equivalent) =>
         (capability, learned_need learned (selection_facts request) capability need, equivalent))
      (request_needs request).

Definition runs_locally (id : string) : bool :=
  match definition id with
  | Some row => bool_decide (ad_implementation row = ImplLocal \/ ad_implementation row = ImplLocalAndPurpose)
  | None => false
  end.

(** [ActionRegistry::route] *)
Definition route (capability : string) (equivalent : option string) : Route :=
  if runs_locally capability then RouteLocal capability
  else if match definition capability with
          | Some row => bool_decide (ad_implementation row = ImplPurpose)
          | None => false
          end then RoutePurpose capability
  else match match equivalent with Some id => if runs_locally id then Some id else None | None => None end with
       | Some equivalent => RouteEquivalent equivalent
       | None => match definition capability with
                 | Some _ => RouteBlocked RouteUnavailable
                 | None => RouteBlocked NotInBuild
                 end
       end.

(** [ActionRegistry::decline_reason] *)
Definition decline_reason (id : string) (ns : list (string * Need * option string)) : SkipReason :=
  match find (fun row => String.eqb row.1.1 id) ns with
  | Some (_, NeedSkip reason, _) => reason
  | _ => match definition id with Some _ => NotNeeded | None => Unsupported end
  end.

(** The rows and the trace of [ActionRegistry::select]. *)
Definition select_obligations (ns : list (string * Need * option string)) : list SelectedObligation :=
  omap (fun '(capability, need, equivalent) =>
          match need with
          | NeedRequired => Some (mkSelected capability Required (route capability equivalent))
          | NeedUnresolved => Some (mkSelected capability Unresolved (route capability equivalent))
          | NeedSkip _ => None
          end) ns.
Definition select_declined (shortlist : list string) (obligations : list SelectedObligation)
    (ns : list (string * Need * option string)) : list Declined :=
  map (fun id => mkDeclined id (decline_reason id ns))
      (filter (fun id => existsb (fun row => String.eqb (so_capability row) id) obligations = false)
              shortlist).

(** [state::PLAN_BLOCKER_OWNER] and [state::plan_blocker] *)
Definition PLAN_BLOCKER_OWNER : string := "plan".
Definition plan_blocker (reason : ErrorCode) (action_id : string) : Blocker :=
  mkBlocker reason PLAN_BLOCKER_OWNER (ByDependency action_id).

(** [state::PlanRowWrite] *)
Record PlanRowWrite := mkRowWrite {
  w_capability : string;
  w_applicability : ObligationApplicability;
  w_stage : bool;
  w_handler : option string;
  w_blocker : option Blocker;
}.

Definition row_write (row : SelectedObligation) : PlanRowWrite :=
  let '(handler, route_blocker) :=
    match so_route row with
    | RouteLocal handler | RouteEquivalent handler => (Some handler, None)
    | RoutePurpose handler => (Some handler, Some CapabilityUnavailable)
    | RouteBlocked _ => (None, Some CapabilityUnavailable)
    end in
  let reason := if decide (so_applicability row = Unresolved) then Some DependencyBlocked
                else route_blocker in
  mkRowWrite (so_capability row) (so_applicability row)
    (existsb (String.eqb (so_capability row)) PLAN_STAGES) handler
    ((fun reason => plan_blocker reason (so_capability row)) <$> reason).

(** What [facts_digest] serializes. *)
Record CanonicalFacts := mkCanonical {
  cf_kind : RequestKind;
  cf_surfaces : option (gset Surface);
  cf_contract : ContractBasis;
  cf_parts : list WorkPart;
}.
Definition canonical_facts (request : PlanRequest) : CanonicalFacts :=
  mkCanonical (pq_kind request) (decided (pq_surfaces request)) (pq_contract request)
    (pq_parts request).

(** * Refusals *)

(** [SemanticRefusal]; [serde_json::error::Category] is the class of a parse
    error. *)
Inductive Category := CatIo | CatSyntax | CatData | CatEof.

Inductive SemanticRefusal :=
  | ToolCall
  | EmptyReply
  | OverLimit
  | Malformed (class : Category)
  | ForeignSurface (surface : Surface)
  | MissingSurface (surface : Surface).

(** [ActionError]; the sources of two variants are the errors of the context
    assembly and of the Broker. *)
Inductive ActionError (ContextError ModelError : Type) :=
  | AStore (source : StoreError)
  | InspectionFreshnessFailed (primary : ContextError) (secondary : StoreError)
  | EmptyPrompt
  | PromptTooLarge (max : Z)
  | OptionSlots (expected actual : Z)
  | DuplicateOptionId (option_id : string)
  | InvalidOptionId (option_id : string)
  | DisabledWithoutReason (option_id : string)
  | RecommendationNotSelectable (option_id : string)
  | EmptyBasis
  | AutoAuthorRequired
  | AutoImpersonatesHuman
  | ActionUnavailable (action : string)
  | EmptyPlan
  | PlanTooLarge (max : Z)
  | InvalidPartId (part : string)
  | ProofTooLarge (part : string) (max : Z)
  | DuplicatePart (part : string)
  | UnknownDependency (part dependency : string)
  | DependencyCycle (part : string)
  | PlanRecord (raw : string)
  | InvalidCheckId
  | InvalidAssertion (max : Z)
  | MissingEnvironmentGrant
  | InvalidEnvironmentTarget
  | EnvironmentRestoreTooLarge (max : Z)
  | AssumptionNotRecorded
  | EnvironmentNotNeeded
  | SemanticDispatch (action : string) (source : ModelError)
  | SemanticReply (action : string) (cause : SemanticRefusal).
Arguments AStore {ContextError ModelError}.
Arguments InspectionFreshnessFailed {ContextError ModelError}.
Arguments EmptyPrompt {ContextError ModelError}.
Arguments PromptTooLarge {ContextError ModelError}.
Arguments OptionSlots {ContextError ModelError}.
Arguments DuplicateOptionId {ContextError ModelError}.
Arguments InvalidOptionId {ContextError ModelError}.
Arguments DisabledWithoutReason {ContextError ModelError}.
Arguments RecommendationNotSelectable {ContextError ModelError}.
Arguments EmptyBasis {ContextError ModelError}.
Arguments AutoAuthorRequired {ContextError ModelError}.
Arguments AutoImpersonatesHuman {ContextError ModelError}.
Arguments ActionUnavailable {ContextError ModelError}.
Arguments EmptyPlan {ContextError ModelError}.
Arguments PlanTooLarge {ContextError ModelError}.
Arguments InvalidPartId {ContextError ModelError}.
Arguments ProofTooLarge {ContextError ModelError}.
Arguments DuplicatePart {ContextError ModelError}.
Arguments UnknownDependency {ContextError ModelError}.
Arguments DependencyCycle {ContextError ModelError}.
Arguments PlanRecord {ContextError ModelError}.
Arguments InvalidCheckId {ContextError ModelError}.
Arguments InvalidAssertion {ContextError ModelError}.
Arguments MissingEnvironmentGrant {ContextError ModelError}.
Arguments InvalidEnvironmentTarget {ContextError ModelError}.
Arguments EnvironmentRestoreTooLarge {ContextError ModelError}.
Arguments AssumptionNotRecorded {ContextError ModelError}.
Arguments EnvironmentNotNeeded {ContextError ModelError}.
Arguments SemanticDispatch {ContextError ModelError}.
Arguments SemanticReply {ContextError ModelError}.

(** [ActionError::error_code] *)
Definition action_error_code {ContextError ModelError} (e : ActionError ContextError ModelError)
    : ErrorCode :=
  match e with
  | AStore source => store_error_code source
  | InspectionFreshnessFailed _ secondary => store_error_code secondary
  | AutoAuthorRequired | AutoImpersonatesHuman => Denied
  | ActionUnavailable _ | SemanticDispatch _ _ => CapabilityUnavailable
  | SemanticReply _ _ => DependencyBlocked
  | PlanRecord _ => StorageUnavailable
  | AssumptionNotRecorded => NotFound
  | EnvironmentNotNeeded => Conflict
  | EmptyPrompt | InvalidCheckId | InvalidAssertion _ | MissingEnvironmentGrant
  | InvalidEnvironmentTarget | EnvironmentRestoreTooLarge _ | PromptTooLarge _ | OptionSlots _ _
  | DuplicateOptionId _ | InvalidOptionId _ | DisabledWithoutReason _
  | RecommendationNotSelectable _ | EmptyBasis | EmptyPlan | PlanTooLarge _ | InvalidPartId _
  | ProofTooLarge _ _ | DuplicatePart _ | UnknownDependency _ _ | DependencyCycle _ => InvalidInput
  end.

(** [legal_id] *)
Definition ascii_alphanumeric (c : ascii) : bool :=
  let n := Z.of_nat (nat_of_ascii c) in within 48 57 n || within 65 90 n || within 97 122 n.
Definition legal_id_byte (c : ascii) : bool :=
  ascii_alphanumeric c || Ascii.eqb c "." || Ascii.eqb c "_" || Ascii.eqb c "-".
Definition legal_id (raw : string) : bool :=
  negb (String.eqb raw EmptyString) && (slen raw <=? 64)%Z &&
  forallb legal_id_byte (String.list_ascii_of_string raw).

(** * Plans *)

Inductive FrameUnknown := ImpactSurface | AddressableCriteria.

Record Plan := mkPlan { p_order : list string; p_parts : list WorkPart }.

Inductive PlanFinding :=
  | ZeroCriteria
  | UncoveredCriterion (criterion : CriterionId)
  | UnknownCriterion (part : string) (criterion : CriterionId)
  | MissingProof (part : string).

Record Assessment := mkAssessment {
  as_plan_revision : Z;
  as_verdict : PlanVerdict;
  as_findings : list PlanFinding;
}.

Section Plans.
Context {ContextError ModelError : Type}.
Abbreviation Error := (ActionError ContextError ModelError).

(** The first loop of [dependency_order]: the ids seen so far. *)
Fixpoint part_ids (parts : list WorkPart) (ids : gset string) : result (gset string) Error :=
  match parts with
  | [] => Ok ids
  | part :: parts =>
      if (ARRAY_MAX_ITEMS <? zlen (wp_criteria part))%Z || (ARRAY_MAX_ITEMS <? zlen (wp_depends_on part))%Z
      then Err (PlanTooLarge ARRAY_MAX_ITEMS)
      else if negb (legal_id (wp_id part)) then Err (InvalidPartId (wp_id part))
      else if (TEXT_MAX_BYTES <? slen (wp_proof part))%Z
      then Err (ProofTooLarge (wp_id part) TEXT_MAX_BYTES)
      else if decide (wp_id part ∈ ids) then Err (DuplicatePart (wp_id part))
      else part_ids parts ({[ wp_id part ]} ∪ ids)
  end.

(** Its second loop: the first part that names a part the plan does not have. *)
Fixpoint check_dependencies (parts : list WorkPart) (ids : gset string) : result unit Error :=
  match parts with
  | [] => Ok tt
  | part :: parts =>
      match find (fun dependency => negb (bool_decide (dependency ∈ ids))) (wp_depends_on part) with
      | Some dependency => Err (UnknownDependency (wp_id part) dependency)
      | None => check_dependencies parts ids
      end
  end.

(** One pass over the parts: a part is placed when it is not placed yet and all
    it depends on is, parts placed earlier in the pass included. *)
Fixpoint place_pass (parts : list WorkPart) (placed : gset string) (order : list string)
    : gset string * list string :=
  match parts with
  | [] => (placed, order)
  | part :: parts =>
      if negb (bool_decide (wp_id part ∈ placed)) &&
         forallb (fun dependency => bool_decide (dependency ∈ placed)) (wp_depends_on part)
      then place_pass parts ({[ wp_id part ]} ∪ placed) (order ++ [wp_id part])
      else place_pass parts placed order
  end.

(** The [while] loop, a turn per unit of fuel. *)
Fixpoint place_parts (fuel : nat) (parts : list WorkPart) (placed : gset string) (order : list string)
    : outcome (result (list string) Error) :=
  match find (fun part => negb (bool_decide (wp_id part ∈ placed))) parts with
  | None => Ret (Ok order)
  | Some stuck =>
      match fuel with
      | O => Diverge
      | S fuel =>
          let '(placed', order') := place_pass parts placed order in
          if length order' =? length order then Ret (Err (DependencyCycle (wp_id stuck)))
          else place_parts fuel parts placed' order'
      end
  end.

(** [dependency_order] *)
Definition dependency_order (parts : list WorkPart) : outcome (result (list string) Error) :=
  if decide (parts = []) then Ret (Err EmptyPlan)
  else if (ARRAY_MAX_ITEMS <? zlen parts)%Z then Ret (Err (PlanTooLarge ARRAY_MAX_ITEMS))
  else match part_ids parts ∅ with
       | Err e => Ret (Err e)
       | Ok ids =>
           match check_dependencies parts ids with
           | Err e => Ret (Err e)
           | Ok _ => place_parts (length parts) parts ∅ []
           end
       end.

(** * Material forks *)

(** The loop of [validate_fork] over the positions. *)
Fixpoint check_options (recommended : OptionId) (options : list QuestionOption) (seen : gset string)
    (recommended_enabled : bool) : result bool Error :=
  match options with
  | [] => Ok recommended_enabled
  | option :: options =>
      let raw := option_id option in
      if negb (legal_id raw) then Err (InvalidOptionId raw)
      else if decide (raw ∈ seen) then Err (DuplicateOptionId raw)
      else if match availability option with Disabled reason => trim_is_empty reason | Enabled => false end
      then Err (DisabledWithoutReason raw)
      else check_options recommended options ({[ raw ]} ∪ seen)
             (recommended_enabled ||
              (String.eqb raw recommended && bool_decide (availability option = Enabled)))
  end.

(** [validate_fork] *)
Definition validate_fork (input : ResolveDecisionInput) : result unit Error :=
  if trim_is_empty (rd_prompt input) then Err EmptyPrompt
  else if (TEXT_MAX_BYTES <? slen (rd_prompt input))%Z then Err (PromptTooLarge TEXT_MAX_BYTES)
  else if negb (zlen (rd_options input) =? DECISION_OPTION_SLOTS)%Z
  then Err (OptionSlots DECISION_OPTION_SLOTS (zlen (rd_options input)))
  else
    let? recommended_enabled := check_options (rd_recommended_option_id input) (rd_options input) ∅ false in
    if negb recommended_enabled then Err (RecommendationNotSelectable (rd_recommended_option_id input))
    else if trim_is_empty (rd_recommendation_basis input) then Err EmptyBasis
    else Ok tt.
End Plans.

(** [plan_findings]: the mechanical assessment of a plan. *)
Definition part_findings (criteria : list Criterion) (part : WorkPart) : list PlanFinding :=
  map (UnknownCriterion (wp_id part))
    (filter (fun id => existsb (fun criterion => String.eqb (cr_id criterion) id) criteria = false)
            (wp_criteria part)) ++
  (if trim_is_empty (wp_proof part) then [MissingProof (wp_id part)] else []).
Definition plan_findings (plan : Plan) (criteria : list Criterion) : list PlanFinding :=
  (if decide (criteria = []) then [ZeroCriteria] else []) ++
  map (fun criterion => UncoveredCriterion (cr_id criterion))
    (filter (fun criterion =>
       existsb (fun part => existsb (String.eqb (cr_id criterion)) (wp_criteria part)) (p_parts plan) = false)
       criteria) ++
  flat_map (part_findings criteria) (p_parts plan).

(** [same_fork] *)
Definition same_fork (pending question : Question) : bool :=
  String.eqb (q_prompt pending) (q_prompt question) &&
  bool_decide (q_options pending = q_options question) &&
  String.eqb (q_recommended_option_id pending) (q_recommended_option_id question) &&
  String.eqb (q_recommendation_basis pending) (q_recommendation_basis question).

(** * Semantic replies *)

Record SurfaceNote := mkNote { n_surface : Surface; n_text : string }.

Inductive SemanticVerdict := SemPass | SemFail.

(** The reply records, and what [ProviderReply] carries of them. *)
Record ForkOption := mkForkOption {
  fo_id : string;
  fo_label : string;
  fo_consequences : string;
  fo_disabled_reason : option string;
}.
Record ForkReply := mkForkReply {
  fr_prompt : string;
  fr_options : list ForkOption;
  fr_recommended : string;
  fr_basis : string;
}.
Record AssessReply := mkAssessReply { ar_verdict : SemanticVerdict; ar_findings : list string }.

(** The loop of [check_notes] over the notes. *)
Fixpoint foreign_note (selected : option (gset Surface)) (notes : list SurfaceNote)
    : result unit SemanticRefusal :=
  match notes with
  | [] => Ok tt
  | note :: notes =>
      if trim_is_empty (n_text note) then Err EmptyReply
      else if negb match selected with
                   | Some surfaces => bool_decide (n_surface note ∈ surfaces)
                   | None => false
                   end
      then Err (ForeignSurface (n_surface note))
      else foreign_note selected notes
  end.

(** [check_notes] *)
Definition check_notes (notes : list SurfaceNote) (request : PlanRequest) : result unit SemanticRefusal :=
  if (ARRAY_MAX_ITEMS <? zlen notes)%Z then Err OverLimit
  else
    let selected := decided (pq_surfaces request) in
    let? _ := foreign_note selected notes in
    match find (fun surface => is_risk surface &&
                  negb (existsb (fun note => bool_decide (n_surface note = surface)) notes))
               (surfaces_in_order (default ∅ selected)) with
    | Some surface => Err (MissingSurface surface)
    | None => Ok tt
    end.

(** [check_findings] *)
Definition check_findings (findings : list string) : result unit SemanticRefusal :=
  if (ARRAY_MAX_ITEMS <? zlen findings)%Z then Err OverLimit
  else if existsb trim_is_empty findings then Err EmptyReply
  else Ok tt.

(** [read_reply]: [tool_calls] is whether the reply asks for a tool, [parse] the
    strict decoder of the purpose's record over the trimmed text. *)
Definition read_reply {T} (parse : string -> result T Category) (tool_calls : bool) (text : string)
    : result T SemanticRefusal :=
  if tool_calls then Err ToolCall
  else if (TEXT_MAX_BYTES <? slen text)%Z then Err OverLimit
  else if trim_is_empty text then Err EmptyReply
  else map_err Malformed (parse (trim text)).
