(* ===== verification/ActionsThms.v ===== *)
(** What the plan rules of [Actions] guarantee: the order of a plan's parts, the
    needs a learned condition may move, the routes of this build, the checks of
    a plan, a fork and a semantic reply. *)

From S2P Require Import Prelude.
From S2P Require Import Contracts.
From S2P Require Import Procedure.
From S2P Require Import Utf8.
From S2P Require Import Text.
From S2P Require Import Requests.
From S2P Require Import Learning.
From S2P Require Import Store.
From S2P Require Import Actions.

(** * The order of a plan's parts *)

Definition ids_of (parts : list WorkPart) : list string := map wp_id parts.

(** [d] stands before [id] in [order]. *)
Definition before (order : list string) (d id : string) : Prop :=
  exists pre post, order = pre ++ id :: post /\ d ∈ pre.

(** An order of the parts in which every part follows those it depends on. *)
Definition dependency_ordered (parts : list WorkPart) (order : list string) : Prop :=
  order ≡ₚ ids_of parts /\
  forall part d, part ∈ parts -> d ∈ wp_depends_on part -> before order d (wp_id part).

Definition part_within_bounds (part : WorkPart) : Prop :=
  (zlen (wp_criteria part) <= ARRAY_MAX_ITEMS)%Z /\ (zlen (wp_depends_on part) <= ARRAY_MAX_ITEMS)%Z /\
  legal_id (wp_id part) = true /\ (slen (wp_proof part) <= TEXT_MAX_BYTES)%Z.

(** What the two loops before the placement require. *)
Definition legal_parts (parts : list WorkPart) : Prop :=
  parts <> [] /\ (zlen parts <= ARRAY_MAX_ITEMS)%Z /\ Forall part_within_bounds parts /\
  NoDup (ids_of parts) /\
  forall part d, part ∈ parts -> d ∈ wp_depends_on part -> d ∈ ids_of parts.

(** One placement: a part that is not placed, all of whose dependencies are. *)
Inductive place_step (parts : list WorkPart) (order : list string) : list string -> Prop :=
  | place_part part :
      part ∈ parts -> wp_id part ∉ order -> (forall d, d ∈ wp_depends_on part -> d ∈ order) ->
      place_step parts order (order ++ [wp_id part]).

Section Order.
Context {ContextError ModelError : Type}.
Variable parts : list WorkPart.

Lemma place_steps_extend order order' :
  rtc (place_step parts) order order' -> exists ext, order' = order ++ ext.
Proof.
  induction 1 as [order|order mid order' [part Hp Hn Hd] _ [ext ->]]; [by exists []; rewrite app_nil_r|].
  exists (wp_id part :: ext). by rewrite <- app_assoc.
Qed.

(** Placements keep the order free of duplicates and within the parts, and a
    placed part has its dependencies before it. *)
Lemma place_steps_sound order order' :
  rtc (place_step parts) order order' ->
  NoDup order -> (forall id, id ∈ order -> id ∈ ids_of parts) ->
  NoDup order' /\ forall id, id ∈ order' -> id ∈ ids_of parts.
Proof.
  induction 1 as [order|order mid order' [part Hp Hn Hd] _ IH]; [done|]. intros Hnd Hin. apply IH.
  - apply NoDup_app. split_and!; [done| |apply NoDup_singleton]. by intros x Hx ->%list_elem_of_singleton.
  - intros id [Hid| ->%list_elem_of_singleton]%elem_of_app; [by apply Hin|].
    by apply (list_elem_of_fmap_2 wp_id).
Qed.

Lemma before_app order ext d id : before order d id -> before (order ++ ext) d id.
Proof. intros (pre & post & -> & Hd). exists pre, (post ++ ext). by rewrite <- app_assoc. Qed.

Lemma place_steps_before order order' :
  NoDup (ids_of parts) -> rtc (place_step parts) order order' ->
  (forall part d, part ∈ parts -> wp_id part ∈ order -> d ∈ wp_depends_on part -> before order d (wp_id part)) ->
  forall part d, part ∈ parts -> wp_id part ∈ order' -> d ∈ wp_depends_on part -> before order' d (wp_id part).
Proof.
  intros Hids. induction 1 as [order|order mid order' [part Hp Hn Hd] _ IH]; [done|]. intros Hb.
  apply IH. intros other d Ho [Hin|Heq]%elem_of_app Hdep; [by apply before_app, Hb|].
  apply list_elem_of_singleton in Heq. exists order, []. split; [by rewrite Heq|].
  assert (other = part) as ->; [|by apply Hd].
  apply list_elem_of_lookup in Ho as [i Hi]. apply list_elem_of_lookup in Hp as [j Hj].
  assert (i = j) as ->; [|congruence].
  eapply (NoDup_lookup (ids_of parts)); [done| |]; unfold ids_of; rewrite list_lookup_fmap.
  - by rewrite Hi.
  - rewrite Hj. simpl. by rewrite Heq.
Qed.

(** A pass is a sequence of placements; when it places nothing, no placement is
    possible. *)
Lemma place_pass_spec visit placed order placed' order' :
  (forall part, part ∈ visit -> part ∈ parts) ->
  (forall id, id ∈ placed <-> id ∈ order) ->
  place_pass visit placed order = (placed', order') ->
  rtc (place_step parts) order order' /\ (forall id, id ∈ placed' <-> id ∈ order') /\
  (order' = order -> forall part, part ∈ visit -> wp_id part ∈ order \/
     exists d, d ∈ wp_depends_on part /\ d ∉ order).
Proof.
  revert placed order. induction visit as [|part visit IH]; intros placed order Hv Hpl; simpl.
  - intros [= <- <-]. split_and!; [done|done|]. intros _ part []%elem_of_nil.
  - destruct (negb (bool_decide (wp_id part ∈ placed)) && _) eqn:Hc; intros Hpass.
    + apply andb_true_iff in Hc as [Hn%negb_true_iff%bool_decide_eq_false Hd].
      apply IH in Hpass as (Hs & Hp' & _); [| |].
      * split_and!; [|done|].
        -- eapply rtc_l; [|exact Hs]. constructor; [apply Hv; left| by rewrite <- Hpl|].
           intros d Hdin. apply Hpl. rewrite forallb_forall in Hd.
           apply (proj1 (bool_decide_eq_true _)). by apply Hd, list_elem_of_In.
        -- intros Heq. apply place_steps_extend in Hs as [ext He]. rewrite He in Heq.
           apply (f_equal length) in Heq. rewrite !length_app in Heq. simpl in Heq. lia.
      * intros x Hx. apply Hv. by right.
      * intros id. rewrite elem_of_union, elem_of_singleton, elem_of_app, list_elem_of_singleton, Hpl. tauto.
    + apply IH in Hpass as (Hs & Hp' & Hnone); [| |done].
      * split_and!; [done|done|]. intros Heq x [->|Hx]%elem_of_cons; [|by apply Hnone].
        apply andb_false_iff in Hc as [Hc|Hc].
        -- left. apply negb_false_iff, (proj1 (bool_decide_eq_true _)) in Hc. by apply Hpl.
        -- right. apply not_true_iff_false in Hc. rewrite forallb_forall in Hc.
           destruct (decide (Forall (fun d => d ∈ order) (wp_depends_on part))) as [Hall|Hnot].
           ++ exfalso. apply Hc. intros d Hd%list_elem_of_In. apply (proj2 (bool_decide_eq_true _)), Hpl.
              by apply (proj1 (Forall_forall _ _) Hall).
           ++ apply not_Forall_Exists in Hnot; [|apply _]. by apply Exists_exists in Hnot as (d & Hd & Hno); exists d.
      * intros y Hy. apply Hv. by right.
Qed.

(** When some dependency order exists, a placement is possible until every part
    is placed. *)
Lemma first_unplaced (target order : list string) id :
  id ∈ target -> id ∉ order -> exists pre x post, target = pre ++ x :: post /\ (x ∉ order) /\
    forall d, d ∈ pre -> d ∈ order.
Proof.
  induction target as [|y target IH]; intros Hin Hno; [by apply elem_of_nil in Hin|].
  destruct (decide (y ∈ order)) as [Hy|Hy].
  - apply elem_of_cons in Hin as [->|Hin]; [done|].
    destruct (IH Hin Hno) as (pre & x & post & -> & Hx & Hpre). exists (y :: pre), x, post.
    split_and!; [done|done|]. intros d [->|Hd]%elem_of_cons; [done|by apply Hpre].
  - exists [], y, target. split_and!; [done|done|]. by intros d []%elem_of_nil.
Qed.

Lemma NoDup_split_unique (pre pre' : list string) x post post' :
  NoDup (pre ++ x :: post) -> pre ++ x :: post = pre' ++ x :: post' -> pre = pre'.
Proof.
  intros Hnd E. enough (length pre = length pre') by (by apply app_inj_1 in E as [-> _]).
  eapply NoDup_lookup; [exact Hnd|by apply list_lookup_middle|]. rewrite E. by apply list_lookup_middle.
Qed.

Lemma placement_possible target (order : list string) part :
  dependency_ordered parts target -> NoDup (ids_of parts) ->
  part ∈ parts -> wp_id part ∉ order ->
  exists other, other ∈ parts /\ (wp_id other ∉ order) /\ forall d, d ∈ wp_depends_on other -> d ∈ order.
Proof.
  intros [Hperm Hbefore] Hids Hp Hno.
  destruct (first_unplaced target order (wp_id part)) as (pre & x & post & E & Hx & Hpre); [|done|].
  { rewrite Hperm. by apply (list_elem_of_fmap_2 wp_id). }
  assert (x ∈ ids_of parts) as Hxin. { rewrite <- Hperm, E. apply elem_of_app. right. left. }
  apply list_elem_of_fmap in Hxin as (other & -> & Ho). exists other. split_and!; [done|done|].
  intros d Hd. apply Hpre. destruct (Hbefore other d Ho Hd) as (pre' & post' & E' & Hd').
  enough (pre = pre') as -> by done. eapply (NoDup_split_unique pre pre' (wp_id other)).
  - by rewrite <- E, Hperm.
  - by rewrite <- E, E'.
Qed.

(** The checks before the placement accept exactly the legal parts. *)
Lemma part_ids_Ok visit seen ids :
  part_ids (ContextError := ContextError) (ModelError := ModelError) visit seen = Ok ids <->
  Forall part_within_bounds visit /\ NoDup (ids_of visit) /\
  (forall id, id ∈ ids_of visit -> id ∉ seen) /\ ids = list_to_set (ids_of visit) ∪ seen.
Proof.
  revert seen. induction visit as [|part visit IH]; intros seen; simpl.
  - rewrite union_empty_l_L. split; [intros [= ->]|by intros (_ & _ & _ & ->)].
    split_and!; [by constructor|constructor| |done]. by intros id []%elem_of_nil.
  - rewrite Forall_cons, NoDup_cons.
    assert (Hb : part_within_bounds part <->
      ((ARRAY_MAX_ITEMS <? zlen (wp_criteria part))%Z || (ARRAY_MAX_ITEMS <? zlen (wp_depends_on part))%Z) = false /\
      negb (legal_id (wp_id part)) = false /\ (TEXT_MAX_BYTES <? slen (wp_proof part))%Z = false).
    { unfold part_within_bounds. rewrite orb_false_iff, negb_false_iff, !Z.ltb_ge. tauto. }
    destruct (_ || _); [split; [done|intros ([(? & _)%Hb _] & _); done]|].
    destruct (negb _); [split; [done|intros ([(_ & ? & _)%Hb _] & _); done]|].
    destruct (Z.ltb _ _); [split; [done|intros ([(_ & _ & ?)%Hb _] & _); done]|].
    assert (Hin : part_within_bounds part) by (apply Hb; done).
    destruct (decide (wp_id part ∈ seen)) as [Hs|Hs].
    { split; [done|]. intros (_ & _ & Hfresh & _). exfalso. apply (Hfresh (wp_id part)); [left|done]. }
    rewrite IH. split.
    + intros (Hf & Hnd & Hfresh & ->). split_and!; [done|done| |done| |].
      * intros Hp. apply (Hfresh _ Hp), elem_of_union. left. by apply elem_of_singleton.
      * intros id [->|Hid]%elem_of_cons; [done|]. intros Hseen. apply (Hfresh id Hid), elem_of_union. by right.
      * by rewrite (union_comm_L {[ wp_id part ]} (list_to_set _)), union_assoc_L.
    + intros ([_ Hf] & [Hp Hnd] & Hfresh & ->). split_and!; [done|done| |].
      * intros id Hid [->%elem_of_singleton|Hseen]%elem_of_union; [done|].
        apply (Hfresh id); [by right|done].
      * by rewrite (union_comm_L {[ wp_id part ]} (list_to_set _)), union_assoc_L.
Qed.

Lemma check_dependencies_Ok visit ids :
  check_dependencies (ContextError := ContextError) (ModelError := ModelError) visit ids = Ok tt <->
  forall part d, part ∈ visit -> d ∈ wp_depends_on part -> d ∈ ids.
Proof.
  induction visit as [|part visit IH]; simpl.
  - split; [|done]. by intros _ part d []%elem_of_nil.
  - destruct (find _ _) as [dependency|] eqn:Hf.
    + split; [done|]. intros Hall. apply find_Some in Hf as [Hd Hno].
      exfalso. apply negb_true_iff, (proj1 (bool_decide_eq_false _)) in Hno. apply Hno, (Hall part); [left|done].
    + apply find_None in Hf. rewrite Forall_forall in Hf. rewrite IH. split.
      * intros Hall x d [->|Hx]%elem_of_cons Hd; [|by apply (Hall x)].
        specialize (Hf d Hd). apply negb_false_iff, (proj1 (bool_decide_eq_true _)) in Hf. done.
      * intros Hall x d Hx Hd. apply (Hall x); [by right|done].
Qed.

Definition is_cycle (e : ActionError ContextError ModelError) : bool :=
  match e with DependencyCycle _ => true | _ => false end.

Lemma part_ids_Err visit e :
  part_ids visit ∅ = Err e -> is_cycle e = false /\ ~ (Forall part_within_bounds visit /\ NoDup (ids_of visit)).
Proof.
  intros Hids. split.
  - revert Hids. generalize (∅ : gset string). induction visit as [|part visit IH]; [done|]. intros seen. simpl.
    destruct (_ || _); [by intros [= <-]|]. destruct (negb _); [by intros [= <-]|].
    destruct (Z.ltb _ _); [by intros [= <-]|]. case_decide; [by intros [= <-]|]. apply IH.
  - intros [Hb Hnd].
    assert (part_ids visit ∅ = Ok (E := ActionError ContextError ModelError) (list_to_set (ids_of visit) ∪ ∅)) as E.
    { apply part_ids_Ok. split_and!; [done|done| |done]. by intros id _ []%elem_of_empty. }
    congruence.
Qed.

Lemma check_dependencies_Err visit ids e :
  check_dependencies visit ids = Err e -> is_cycle e = false /\
  exists part d, part ∈ visit /\ d ∈ wp_depends_on part /\ (d ∉ ids).
Proof.
  induction visit as [|part visit IH]; simpl; [done|]. destruct (find _ _) as [d|] eqn:Hf.
  - intros [= <-]. split; [done|]. apply find_Some in Hf as [Hd Hno].
    apply negb_true_iff, (proj1 (bool_decide_eq_false _)) in Hno. exists part, d. split_and!; [left|done|done].
  - intros He. destruct (IH He) as (Hc & x & d & Hx & Hd & Hno). split; [done|].
    exists x, d. split_and!; [by right|done|done].
Qed.

(** The loop of the code stops within a turn per part, and never on a part that
    some order could place. *)
Lemma place_parts_spec fuel placed order :
  NoDup (ids_of parts) -> NoDup order -> (forall id, id ∈ order -> id ∈ ids_of parts) ->
  (forall id, id ∈ placed <-> id ∈ order) -> length parts <= fuel + length order ->
  match place_parts (ContextError := ContextError) (ModelError := ModelError) fuel parts placed order with
  | Ret (Ok order') => rtc (place_step parts) order order' /\ order' ≡ₚ ids_of parts
  | Ret (Err e) => exists part, part ∈ parts /\ e = DependencyCycle (wp_id part) /\
      forall target, ~ dependency_ordered parts target
  | _ => False
  end.
Proof.
  intros Hids. revert placed order. induction fuel as [|fuel IH]; intros placed order Hnd Hsub Hpl Hfuel; simpl.
  all: destruct (find _ parts) as [stuck|] eqn:Hf.
  2, 4: split; [done|]; apply NoDup_Permutation; [done|done|]; intros id; split; [by apply Hsub|];
    intros (part & -> & Hp)%list_elem_of_fmap; apply find_None in Hf; rewrite Forall_forall in Hf;
    specialize (Hf part Hp); apply negb_false_iff, (proj1 (bool_decide_eq_true _)) in Hf; by apply Hpl.
  all: apply find_Some in Hf as [Hst Hno]; apply negb_true_iff, (proj1 (bool_decide_eq_false _)) in Hno;
    rewrite Hpl in Hno.
  - (* every id is placed once the fuel is used up *)
    apply Hno. assert (submseteq order (ids_of parts)) as Hs by (by apply NoDup_submseteq).
    assert (order ≡ₚ ids_of parts) as Hperm.
    { apply submseteq_length_Permutation; [done|]. unfold ids_of. rewrite length_map. lia. }
    rewrite Hperm. by apply (list_elem_of_fmap_2 wp_id).
  - destruct (place_pass parts placed order) as [placed' order'] eqn:Hpass.
    apply place_pass_spec in Hpass as (Hs & Hp' & Hnone); [|done|done].
    destruct (Nat.eqb_spec (length order') (length order)) as [Heq|Hneq].
    + exists stuck. split_and!; [done|done|]. intros target Ht.
      apply place_steps_extend in Hs as [ext ->]. rewrite length_app in Heq.
      assert (ext = []) as -> by (destruct ext; simpl in Heq; [done|lia]).
      destruct (placement_possible target order stuck) as (other & Ho & Hno' & Hall); [done..|].
      destruct (Hnone (app_nil_r _) other Ho) as [?|(d & Hd & Hdn)]; [done|]. by apply Hdn, Hall.
    + destruct (place_steps_sound _ _ Hs Hnd Hsub) as [Hnd' Hsub'].
      specialize (IH placed' order' Hnd' Hsub' Hp').
      assert (length parts <= fuel + length order') as Hle.
      { pose proof Hs as Hs'. apply place_steps_extend in Hs' as [ext ->]. rewrite length_app in *. lia. }
      specialize (IH Hle). destruct (place_parts fuel parts placed' order') as [[order''|e]| |]; [|done..].
      destruct IH as [Hs'' ?]. split; [by etrans|done].
Qed.

Lemma dependency_order_spec :
  match dependency_order (ContextError := ContextError) (ModelError := ModelError) parts with
  | Ret (Ok order) => legal_parts parts /\ dependency_ordered parts order
  | Ret (Err (DependencyCycle id)) => legal_parts parts /\ id ∈ ids_of parts /\
      forall target, ~ dependency_ordered parts target
  | Ret (Err _) => ~ legal_parts parts
  | _ => False
  end.
Proof.
  unfold dependency_order. destruct (decide (parts = [])) as [->|Hne]; [by intros (? & _)|].
  destruct (Z.ltb_spec ARRAY_MAX_ITEMS (zlen parts)) as [|Hlen]; [intros (_ & ? & _); lia|].
  destruct (part_ids parts ∅) as [ids|e] eqn:Hids.
  2: { apply part_ids_Err in Hids as [Hc Hno]. destruct e; try done; intros (_ & _ & Hb & Hnd & _); by apply Hno. }
  apply part_ids_Ok in Hids as (Hb & Hnd & _ & ->).
  destruct (check_dependencies parts _) as [[]|e] eqn:Hdep.
  2: { apply check_dependencies_Err in Hdep as [Hc (part & d & Hp & Hd & Hno)].
       rewrite union_empty_r_L, elem_of_list_to_set in Hno.
       destruct e; try done; intros (_ & _ & _ & _ & Hall); by apply Hno, (Hall part). }
  rewrite check_dependencies_Ok in Hdep.
  assert (Hlegal : legal_parts parts).
  { split_and!; [done|done|done|done|]. intros part d Hp Hd. specialize (Hdep part d Hp Hd).
    by rewrite union_empty_r_L, elem_of_list_to_set in Hdep. }
  assert (Hspec := place_parts_spec (length parts) ∅ [] Hnd (NoDup_nil_2)).
  destruct (place_parts _ _ _ _) as [[order|e]| |]; cycle 2; [by apply Hspec; [set_solver|set_solver|simpl; lia]..| |].
  - destruct Hspec as [Hs Hperm]; [set_solver|set_solver|simpl; lia|]. split; [done|]. split; [done|].
    intros part d Hp Hd. eapply place_steps_before; [done|exact Hs| |done| |done].
    + intros ? ? ? []%elem_of_nil.
    + rewrite Hperm. by apply (list_elem_of_fmap_2 wp_id).
  - destruct Hspec as (part & Hp & -> & Hno); [set_solver|set_solver|simpl; lia|]. split_and!; [done| |done].
    by apply (list_elem_of_fmap_2 wp_id).
Qed.
End Order.

(** The order of a plan is right whenever one exists: a plan the limits admit
    and whose dependencies allow some order is given one, in which every part is
    placed once and follows the parts it depends on; a legal plan that no order
    can satisfy is refused as a cycle at one of its parts, and any other refusal
    means that the plan breaks a limit. *)
Theorem plans_are_ordered_or_refused (parts : list WorkPart) :
  (legal_parts parts /\ exists order, dependency_order (ContextError := unit) (ModelError := unit) parts = Ret (Ok order) /\
     dependency_ordered parts order) \/
  (legal_parts parts /\ (forall target, ~ dependency_ordered parts target) /\
     exists id, id ∈ ids_of parts /\
       dependency_order (ContextError := unit) (ModelError := unit) parts = Ret (Err (DependencyCycle id))) \/
  (~ legal_parts parts /\ exists e, dependency_order (ContextError := unit) (ModelError := unit) parts = Ret (Err e) /\
     is_cycle e = false).
Proof.
  pose proof (@dependency_order_spec unit unit parts) as H.
  destruct (dependency_order parts) as [[order|e]| |]; try done.
  - left. destruct H as [? ?]. split; [done|]. by exists order.
  - right. destruct e; (right; split; [exact H|by eexists]) || (left; destruct H as (? & ? & ?)).
    split_and!; [done|done|by eexists].
Qed.

Lemma place_parts_more {CE ME} parts fuel extra placed order r :
  place_parts (ContextError := CE) (ModelError := ME) fuel parts placed order = Ret r ->
  place_parts (fuel + extra) parts placed order = Ret r.
Proof.
  revert placed order. induction fuel as [|fuel IH]; intros placed order; simpl.
  - destruct (find _ _) as [stuck|] eqn:Hf; [done|]. intros [= <-]. by destruct extra; simpl; rewrite Hf.
  - destruct (find _ _); [|done]. destruct (place_pass _ _ _) as [placed' order'].
    destruct (_ =? _); [done|]. apply IH.
Qed.

(** The placement loop of a plan stops: given at least one turn per part it
    returns, and what it returns is the answer of [dependency_order], which
    therefore always returns. *)
Theorem placement_loop_terminates (parts : list WorkPart) (turns : nat) :
  legal_parts parts -> length parts <= turns ->
  exists answer, place_parts (ContextError := unit) (ModelError := unit) turns parts ∅ [] = Ret answer /\
    dependency_order parts = Ret answer.
Proof.
  intros Hl Hturns. pose proof Hl as (Hne & Hlen & Hb & Hnd & Hdep).
  assert (Hids : part_ids (ContextError := unit) (ModelError := unit) parts ∅ =
                   Ok (list_to_set (ids_of parts) ∪ ∅)).
  { apply part_ids_Ok. split_and!; [done|done| |done]. by intros id _ []%elem_of_empty. }
  assert (Hcd : check_dependencies (ContextError := unit) (ModelError := unit) parts
                  (list_to_set (ids_of parts) ∪ ∅) = Ok tt).
  { apply check_dependencies_Ok. intros part d Hp Hd. rewrite union_empty_r_L, elem_of_list_to_set.
    by apply (Hdep part). }
  assert (Hspec := place_parts_spec (ContextError := unit) (ModelError := unit) parts (length parts) ∅ [] Hnd NoDup_nil_2).
  destruct (place_parts (length parts) parts ∅ []) as [answer| |] eqn:Hp;
    [|by destruct Hspec; [set_solver|set_solver|simpl; lia]..].
  exists answer. split.
  - replace turns with (length parts + (turns - length parts)) by lia. by apply place_parts_more.
  - unfold dependency_order. rewrite decide_False by done.
    destruct (Z.ltb_spec ARRAY_MAX_ITEMS (zlen parts)); [lia|]. by rewrite Hids, Hcd.
Qed.

(** Three parts, given in the wrong order. *)
Definition three_parts : list WorkPart :=
  [mkPart "ship" [] ["check"] "ship.log"; mkPart "check" [] ["build"] "test.log";
   mkPart "build" [] [] "build.log"].

Lemma three_parts_legal : legal_parts three_parts.
Proof.
  split_and!; [done|done| | |].
  - repeat constructor; by vm_compute.
  - apply (bool_decide_eq_true_1 _). by vm_compute.
  - intros part d Hp Hd. unfold three_parts in *. apply (bool_decide_eq_true_1 _).
    repeat (apply elem_of_cons in Hp as [->|Hp]; [simpl in Hd; repeat (apply elem_of_cons in Hd as [->|Hd]; [by vm_compute|]); by apply elem_of_nil in Hd|]).
    by apply elem_of_nil in Hp.
Qed.

Lemma placement_loop_terminates_witness :
  exists answer, place_parts (ContextError := unit) (ModelError := unit) 3 three_parts ∅ [] = Ret answer /\
    dependency_order three_parts = Ret answer.
Proof. apply (placement_loop_terminates three_parts 3 three_parts_legal). simpl. lia. Defined.

(** A plan in an order that its dependencies allow keeps that order: the first
    pass places every part. *)
Lemma place_pass_ordered visit placed order :
  (forall pre part post, visit = pre ++ part :: post ->
     wp_id part ∉ placed /\ wp_id part ∉ ids_of pre /\
     forall d, d ∈ wp_depends_on part -> d ∈ placed \/ d ∈ ids_of pre) ->
  (place_pass visit placed order).2 = order ++ ids_of visit.
Proof.
  revert placed order. induction visit as [|part visit IH]; intros placed order Hv; simpl; [by rewrite app_nil_r|].
  destruct (Hv [] part visit eq_refl) as (Hn & _ & Hd).
  rewrite bool_decide_eq_false_2 by done. simpl.
  assert (forallb (fun d => bool_decide (d ∈ placed)) (wp_depends_on part) = true) as ->.
  { apply forallb_forall. intros d Hin%list_elem_of_In. apply (proj2 (bool_decide_eq_true _)).
    destruct (Hd d Hin) as [?|[]%elem_of_nil]; done. }
  rewrite IH; [by rewrite <- app_assoc|]. intros pre x post ->.
  destruct (Hv (part :: pre) x post eq_refl) as (Hx & Hpre & Hdx). simpl in Hpre, Hdx.
  rewrite not_elem_of_cons in Hpre. destruct Hpre as [Hne Hpre]. split_and!; [set_solver|done|].
  intros d Hdd. destruct (Hdx d Hdd) as [?|[->|?]%elem_of_cons]; [left; set_solver..|by right].
Qed.

(** * The mechanical assessment *)

(** What a plan with no findings is: the task has criteria, each is served by some
    part, parts serve only those, and each part names the check that proves it. *)
Definition covers_task (plan : Plan) (criteria : list Criterion) : Prop :=
  criteria <> [] /\
  (forall criterion, criterion ∈ criteria ->
     exists part, part ∈ p_parts plan /\ cr_id criterion ∈ wp_criteria part) /\
  (forall part, part ∈ p_parts plan ->
     (forall id, id ∈ wp_criteria part -> id ∈ map cr_id criteria) /\
     trim_is_empty (wp_proof part) = false).

Lemma existsb_eqb_elem x (l : list string) : existsb (String.eqb x) l = true <-> x ∈ l.
Proof.
  rewrite existsb_exists. split.
  - intros (y & Hy & ->%String.eqb_eq). by apply list_elem_of_In.
  - intros Hx. exists x. split; [by apply list_elem_of_In|apply String.eqb_refl].
Qed.

Lemma existsb_field_elem {A} (f : A -> string) id (l : list A) :
  existsb (fun a => String.eqb (f a) id) l = true <-> id ∈ map f l.
Proof.
  rewrite existsb_exists. split.
  - intros (y & Hy & <-%String.eqb_eq). apply (list_elem_of_fmap_2 f). by apply list_elem_of_In.
  - intros (a & -> & Ha)%list_elem_of_fmap. exists a. split; [by apply list_elem_of_In|apply String.eqb_refl].
Qed.

Lemma filter_nil {A} (P : A -> Prop) `{forall x, Decision (P x)} l :
  filter P l = [] <-> forall x, x ∈ l -> ~ P x.
Proof.
  split.
  - intros Hf x Hx HP. assert (x ∈ filter P l) as Hin by (by apply list_elem_of_filter). rewrite Hf in Hin. by apply elem_of_nil in Hin.
  - intros Hno. induction l as [|x l IH]; [done|]. rewrite filter_cons_False by (apply Hno; left).
    apply IH. intros y Hy. apply Hno. by right.
Qed.

Lemma part_findings_nil criteria part :
  part_findings criteria part = [] <->
  (forall id, id ∈ wp_criteria part -> id ∈ map cr_id criteria) /\ trim_is_empty (wp_proof part) = false.
Proof.
  unfold part_findings. rewrite app_nil. split.
  - intros [Hm Ht]. apply map_eq_nil in Hm. rewrite filter_nil in Hm. split.
    + intros id Hid. specialize (Hm id Hid). apply not_false_is_true in Hm. by apply existsb_field_elem.
    + by destruct (trim_is_empty _).
  - intros [Hc ->]. split; [|done].
    assert (filter (fun id => existsb (fun criterion => String.eqb (cr_id criterion) id) criteria = false)
              (wp_criteria part) = []) as ->; [|done].
    apply filter_nil. intros id Hid Hf. apply Hc in Hid. apply existsb_field_elem in Hid. congruence.
Qed.

Lemma plan_findings_nil plan criteria : plan_findings plan criteria = [] <-> covers_task plan criteria.
Proof.
  unfold plan_findings, covers_task. rewrite !app_nil.
  assert (H1 : (if decide (criteria = []) then [ZeroCriteria] else []) = [] <-> criteria <> []).
  { by case_decide. }
  assert (H2 : flat_map (part_findings criteria) (p_parts plan) = [] <->
    forall part, part ∈ p_parts plan -> part_findings criteria part = []).
  { induction (p_parts plan) as [|part parts IH]; simpl.
    - split; [|done]. by intros _ part []%elem_of_nil.
    - rewrite app_nil, IH. split; [intros [? H2] x [->|?]%elem_of_cons; [done|by apply H2]|].
      intros Hall. split; [apply Hall; left|]. intros x Hx. apply Hall. by right. }
  rewrite H1, H2. split.
  - intros (Hne & Hcov & Hparts). split_and!; [done| |].
    + apply map_eq_nil in Hcov. rewrite filter_nil in Hcov. intros criterion Hc.
      specialize (Hcov criterion Hc). apply not_false_is_true, existsb_exists in Hcov as (part & Hp & Hin).
      exists part. split; [by apply list_elem_of_In|by apply existsb_eqb_elem].
    + intros part Hp. by apply part_findings_nil, Hparts.
  - intros (Hne & Hcov & Hparts). split_and!; [done| |].
    + rewrite (proj2 (filter_nil _ _)); [done|]. intros criterion Hc Hf.
      destruct (Hcov criterion Hc) as (part & Hp & Hin). apply not_true_iff_false in Hf. apply Hf, existsb_exists.
      exists part. split; [by apply list_elem_of_In|by apply existsb_eqb_elem].
    + intros part Hp. by apply part_findings_nil, Hparts.
Qed.

(** * Forks *)

(** The fork a question is published for. *)
Definition honest_fork (input : ResolveDecisionInput) : Prop :=
  trim_is_empty (rd_prompt input) = false /\ (slen (rd_prompt input) <= TEXT_MAX_BYTES)%Z /\
  length (rd_options input) = 5 /\ NoDup (map option_id (rd_options input)) /\
  (forall option, option ∈ rd_options input ->
     legal_id (option_id option) = true /\
     forall reason, availability option = Disabled reason -> trim_is_empty reason = false) /\
  (exists option, option ∈ rd_options input /\ option_id option = rd_recommended_option_id input /\
     availability option = Enabled) /\
  trim_is_empty (rd_recommendation_basis input) = false.

Lemma check_options_Ok {CE ME} recommended options seen enabled found :
  check_options (ContextError := CE) (ModelError := ME) recommended options seen enabled = Ok found <->
  NoDup (map option_id options) /\ (forall option, option ∈ options -> option_id option ∉ seen /\
     legal_id (option_id option) = true /\
     forall reason, availability option = Disabled reason -> trim_is_empty reason = false) /\
  found = enabled || existsb (fun option => String.eqb (option_id option) recommended &&
                                            bool_decide (availability option = Enabled)) options.
Proof.
  revert seen enabled. induction options as [|o options IH]; intros seen enabled; simpl.
  - rewrite orb_false_r. split; [intros [= <-]; split_and!; [constructor| |done]; by intros o []%elem_of_nil|].
    by intros (_ & _ & ->).
  - rewrite NoDup_cons.
    destruct (legal_id (option_id o)) eqn:Hl; simpl.
    2: { split; [done|]. intros (_ & Ho & _). destruct (Ho o) as (_ & ? & _); [left|congruence]. }
    destruct (decide (option_id o ∈ seen)) as [Hs|Hs].
    { split; [done|]. intros (_ & Ho & _). by destruct (Ho o) as [? _]; [left|]. }
    destruct (match availability o with Disabled reason => trim_is_empty reason | Enabled => false end) eqn:Hd.
    { split; [done|]. intros (_ & Ho & _). destruct (Ho o) as (_ & _ & Hr); [left|].
      destruct (availability o) as [|reason]; [done|]. by rewrite (Hr reason) in Hd. }
    rewrite IH, orb_assoc. split.
    + intros (Hnd & Ho & ->). split_and!; [|done| |done].
      * intros (x & Hx & Hin)%list_elem_of_fmap. destruct (Ho x Hin) as [Hno _]. apply Hno, elem_of_union.
        left. by apply elem_of_singleton.
      * intros x [->|Hx]%elem_of_cons; [split_and!; [done|done|]; intros reason Hr; by rewrite Hr in Hd|].
        destruct (Ho x Hx) as (Hno & ? & ?). split_and!; [|done|done]. set_solver.
    + intros ([Hno Hnd] & Ho & ->). split_and!; [done| |done]. intros x Hx.
      destruct (Ho x) as (? & ? & ?); [by right|]. split_and!; [|done|done].
      intros [Hx'%elem_of_singleton|?]%elem_of_union; [|done]. apply Hno. rewrite <- Hx'.
      by apply (list_elem_of_fmap_2 option_id).
Qed.

Lemma validate_fork_Ok {CE ME} input :
  validate_fork (ContextError := CE) (ModelError := ME) input = Ok tt <-> honest_fork input.
Proof.
  unfold validate_fork, honest_fork.
  destruct (trim_is_empty (rd_prompt input)); [split; [done|intros (? & _); done]|].
  destruct (Z.ltb_spec TEXT_MAX_BYTES (slen (rd_prompt input))); [split; [done|intros (_ & ? & _); lia]|].
  unfold zlen, DECISION_OPTION_SLOTS. destruct (Z.eqb_spec (Z.of_nat (length (rd_options input))) 5) as [Hn|Hn]; simpl;
    [|split; [done|intros (_ & _ & ? & _); lia]].
  destruct (check_options _ _ _ _) as [found|e] eqn:Hc; simpl.
  - apply check_options_Ok in Hc as (Hnd & Ho & ->). simpl.
    destruct (existsb _ _) eqn:He; simpl.
    + destruct (trim_is_empty (rd_recommendation_basis input)); [split; [done|intros (_ & _ & _ & _ & _ & _ & ?); done]|].
      split; [intros _|done]. split_and!; [done|done|lia|done| | |done].
      * intros o Hin. by destruct (Ho o Hin) as (_ & ? & ?).
      * apply existsb_exists in He as (o & Hin & [Hr%String.eqb_eq Ha%bool_decide_eq_true]%andb_true_iff).
        exists o. split_and!; [by apply list_elem_of_In|done|done].
    + split; [done|]. intros (_ & _ & _ & _ & _ & (o & Hin & Hr & Ha) & _).
      apply not_true_iff_false in He. exfalso. apply He, existsb_exists. exists o.
      split; [by apply list_elem_of_In|]. by rewrite Hr, String.eqb_refl, Ha.
  - split; [done|]. intros (_ & _ & _ & Hnd & Ho & _).
    assert (exists found, check_options (ContextError := CE) (ModelError := ME) (rd_recommended_option_id input) (rd_options input) ∅ false = Ok found)
      as [found E]; [|congruence].
    eexists. apply check_options_Ok. split_and!; [done| |done]. intros o Hin. destruct (Ho o Hin).
    split_and!; [by intros ?%elem_of_empty|done|done].
Qed.

(** * Semantic replies *)

(** A reply that can close a stage: it notes nothing but selected surfaces, says
    something about each, and answers every selected risky one. *)
Definition complete_notes (notes : list SurfaceNote) (request : PlanRequest) : Prop :=
  (zlen notes <= ARRAY_MAX_ITEMS)%Z /\
  (forall note, note ∈ notes -> trim_is_empty (n_text note) = false /\
     exists surfaces, decided (pq_surfaces request) = Some surfaces /\ n_surface note ∈ surfaces) /\
  (forall surfaces surface, decided (pq_surfaces request) = Some surfaces -> surface ∈ surfaces ->
     is_risk surface = true -> surface ∈ map n_surface notes).

Lemma elem_of_surfaces_in_order surfaces s : s ∈ surfaces_in_order surfaces <-> s ∈ surfaces.
Proof.
  unfold surfaces_in_order. rewrite list_elem_of_filter. split; [by intros []|]. intros Hs. split; [done|].
  apply list_elem_of_In. destruct s; vm_compute; tauto.
Qed.

Lemma foreign_note_Ok selected notes :
  foreign_note selected notes = Ok tt <->
  forall note, note ∈ notes -> trim_is_empty (n_text note) = false /\
    exists surfaces, selected = Some surfaces /\ n_surface note ∈ surfaces.
Proof.
  induction notes as [|note notes IH]; simpl; [split; [intros _ ? []%elem_of_nil|done]|].
  destruct (trim_is_empty (n_text note)) eqn:Ht.
  { split; [done|]. intros Hall. destruct (Hall note) as [? _]; [left|congruence]. }
  destruct selected as [surfaces|]; simpl.
  - case_bool_decide as Hin; simpl.
    + rewrite IH. split; [intros Hall x [->|?]%elem_of_cons; [split; [done|by exists surfaces]|by apply Hall]|].
      intros Hall x Hx. apply Hall. by right.
    + split; [done|]. intros Hall. destruct (Hall note) as (_ & s & [= <-] & ?); [left|done].
  - split; [done|]. intros Hall. destruct (Hall note) as (_ & s & [=] & _). left.
Qed.

Lemma check_notes_Ok notes request : check_notes notes request = Ok tt <-> complete_notes notes request.
Proof.
  unfold check_notes, complete_notes.
  destruct (Z.ltb_spec ARRAY_MAX_ITEMS (zlen notes)); [split; [done|intros (? & _); lia]|].
  destruct (foreign_note _ _) as [[]|] eqn:Hf; simpl.
  2: { split; [done|]. intros (_ & Hn & _). apply foreign_note_Ok in Hn. congruence. }
  rewrite foreign_note_Ok in Hf.
  assert (Hsel : forall surface, surface ∈ default ∅ (decided (pq_surfaces request)) <->
    exists surfaces, decided (pq_surfaces request) = Some surfaces /\ surface ∈ surfaces).
  { intros surface. destruct (decided _) as [surfaces|]; simpl; [|split; [by intros ?%elem_of_empty|by intros (? & [=] & _)]].
    split; [by exists surfaces|by intros (? & [= <-] & ?)]. }
  assert (Hnoted : forall surface, existsb (fun note => bool_decide (n_surface note = surface)) notes = true <->
                     surface ∈ map n_surface notes).
  { intros surface. rewrite existsb_exists. split.
    - intros (note & Hin & <-%bool_decide_eq_true). apply (list_elem_of_fmap_2 n_surface). by apply list_elem_of_In.
    - intros (note & -> & Hin)%list_elem_of_fmap. exists note. split; [by apply list_elem_of_In|]. by rewrite bool_decide_true. }
  destruct (find _ _) as [surface|] eqn:Hfind.
  - split; [done|]. intros (_ & _ & Hall). apply find_Some in Hfind as [Hin [Hr Hno]%andb_true_iff].
    apply elem_of_surfaces_in_order, Hsel in Hin as (surfaces & Hd & Hin).
    specialize (Hall surfaces surface Hd Hin Hr). apply Hnoted in Hall. by rewrite Hall in Hno.
  - split; [|done]. intros _. split_and!; [done|done|]. intros surfaces surface Hd Hin Hr.
    apply find_None in Hfind. rewrite Forall_forall in Hfind. specialize (Hfind surface).
    apply Hnoted. rewrite Hr in Hfind. simpl in Hfind. apply negb_false_iff, Hfind.
    apply elem_of_surfaces_in_order, Hsel. by exists surfaces.
Qed.

(** * Needs *)

(** The weighed rows are exactly the declared capabilities, in order: the
    assertion at the end of [needs] holds. *)
Lemma needs_capabilities request learned :
  map (fun row => row.1.1) (needs request learned) = SELECTION_CAPABILITIES.
Proof.
  unfold needs, request_needs. destruct (decided (pq_surfaces request)); simpl; reflexivity.
Qed.

Lemma elem_of_select_obligations ns so :
  so ∈ select_obligations ns <->
  exists capability need equivalent, (capability, need, equivalent) ∈ ns /\
    (need = NeedRequired /\ so = mkSelected capability Required (route capability equivalent) \/
     need = NeedUnresolved /\ so = mkSelected capability Unresolved (route capability equivalent)).
Proof.
  unfold select_obligations. rewrite list_elem_of_omap. split.
  - intros ([[capability need] equivalent] & Hin & Hso). exists capability, need, equivalent. split; [done|].
    destruct need; [left|right|done]; split; try done; congruence.
  - intros (capability & need & equivalent & Hin & Hso). exists (capability, need, equivalent). split; [done|].
    by destruct Hso as [[-> ->]|[-> ->]].
Qed.

Lemma row_write_unresolved capability route_ :
  w_applicability (row_write (mkSelected capability Unresolved route_)) = Unresolved /\
  w_blocker (row_write (mkSelected capability Unresolved route_)) =
    Some (plan_blocker DependencyBlocked capability).
Proof. by destruct route_. Qed.

Lemma learned_need_unresolved learned facts capability :
  learned_need learned facts capability NeedUnresolved = NeedUnresolved.
Proof. done. Qed.

(** What nobody has decided stays open: when the impact scan decided nothing,
    the plan, its assessment and the security check are recorded unresolved, and
    so are the direction and the design unless an approved contract covers them,
    each on its dependency blocker, whatever conditions have been learned. *)
Theorem undecided_scan_stays_unresolved (request : PlanRequest) (learned : LearningDefinition) (capability : string) :
  decided (pq_surfaces request) = None ->
  capability ∈ [PLAN_WORK; ASSESS_PLAN; ASSESS_SECURITY] \/
  (pq_contract request = Absent /\ capability ∈ [CHALLENGE_DIRECTION; DESIGN_CONTRACTS]) ->
  exists row, row ∈ map row_write (select_obligations (needs request learned)) /\
    w_capability row = capability /\ w_applicability row = Unresolved /\
    w_blocker row = Some (plan_blocker DependencyBlocked capability).
Proof.
  intros Hd Hcap.
  assert (exists equivalent, (capability, NeedUnresolved, equivalent) ∈ needs request learned) as [equivalent Hin].
  { exists None. unfold needs, request_needs. rewrite Hd. simpl. rewrite !learned_need_unresolved.
    destruct Hcap as [Hin|[Ha Hin]].
    - repeat (apply elem_of_cons in Hin as [->|Hin]; [repeat (left; reflexivity) || right; repeat ((left; reflexivity) || right)|]).
      by apply elem_of_nil in Hin.
    - rewrite bool_decide_eq_false_2 by congruence. simpl. rewrite !learned_need_unresolved.
      repeat (apply elem_of_cons in Hin as [->|Hin]; [repeat ((left; reflexivity) || right)|]).
      by apply elem_of_nil in Hin. }
  exists (row_write (mkSelected capability Unresolved (route capability equivalent))).
  split; [|split; [unfold row_write; by destruct (route _ _)|apply row_write_unresolved]].
  apply (list_elem_of_fmap_2 row_write), elem_of_select_obligations.
  exists capability, NeedUnresolved, equivalent. split; [done|by right].
Qed.

(** A request whose scan could not decide, under a learned condition that declines
    the security check. *)
Definition unscanned : PlanRequest :=
  mkRequest "task" Change ScanUnknown Absent [mkPart "a" [] [] "check"] None None.
Definition declining : LearningDefinition :=
  [mkDelta "d" 1 (mkChange (Applicability ASSESS_SECURITY Decline) (Some (Kind Change)))].

Lemma undecided_scan_stays_unresolved_witness :
  exists row, row ∈ map row_write (select_obligations (needs unscanned declining)) /\
    w_capability row = ASSESS_SECURITY /\ w_applicability row = Unresolved /\
    w_blocker row = Some (plan_blocker DependencyBlocked ASSESS_SECURITY).
Proof.
  apply (undecided_scan_stays_unresolved unscanned declining ASSESS_SECURITY); [reflexivity|].
  left. by apply (bool_decide_eq_true_1 _).
Defined.
