(* ===== verification/TaskDb.v ===== *)
(** The tables of the task store ([src/src/state/sql/schema.sql], [plans.sql],
    [decisions.sql]) and the statements its operations share ([state.rs]): the
    event outbox and the superseding of questions.

    A table is the list of its rows in [rowid] order, or a map by its key where
    every statement names that key.  A column with a closed vocabulary holds the
    value it spells, and a column of a record the code both writes and reads as
    JSON holds the record; the columns other writers fill as text are strings.
    Random identifiers are drawn from a sequence: [generate n] is the [n]-th. *)

From S2P Require Import Prelude.
From S2P Require Import Contracts.
From S2P Require Import Procedure.
From S2P Require Import Requests.
From S2P Require Import Store.

(** * Rows *)

Record TaskRow := mkTask {
  tk_session : SessionId;
  tk_revision : Z;
  tk_intent : Z;
  tk_contract : Z;
  tk_lifecycle : Lifecycle;
  tk_goal : string;
  tk_goal_digest : string;
  tk_goal_artifact : string;
  tk_event_cursor : Z;
}.

Record CriterionRow := mkCriterionRow {
  ck_id : CriterionId; ck_task : TaskId; ck_position : nat; ck_text : string }.

Record ConstraintRow := mkConstraintRow { cn_task : TaskId; cn_position : nat; cn_text : string }.

Record ObligationRow := mkObligationRow {
  ob_id : string;
  ob_task : TaskId;
  ob_criterion : CriterionId;
  ob_applicability : ObligationApplicability;
  ob_execution : ObligationExecution;
}.

Inductive EvidenceValidity := Current | StaleEvidence.

#[export] Instance EvidenceValidity_eq_dec : EqDecision EvidenceValidity.
Proof. solve_decision. Defined.

Record EvidenceRow := mkEvidenceRow {
  ed_id : EvidenceId;
  ed_task : TaskId;
  ed_scope : string;
  ed_observation : string;
  ed_digest : string;
  ed_validity : EvidenceValidity;
  ed_obligation : string;
}.

(** [state]: [pending], [answered], [superseded]. *)
Inductive QuestionState := QPending | QAnswered | QSuperseded.

#[export] Instance QuestionState_eq_dec : EqDecision QuestionState.
Proof. solve_decision. Defined.

Record QuestionRow := mkQuestionRow {
  qr_id : QuestionId;
  qr_task : TaskId;
  qr_revision : Z;
  qr_intent : Z;
  qr_prompt : string;
  qr_body : Question;
  qr_state : QuestionState;
  qr_answer_json : option string;
  qr_origin : option string;
}.

Record AttemptRow := mkAttempt {
  at_id : string;
  at_task : TaskId;
  at_action : string;
  at_class : EffectClass;
  at_describe : string;
  at_state : string;
  at_detail : option string;
}.

(** Its [id] is its place in the table: the journal is append-only. *)
Record AnswerRow := mkAnswerRow {
  aw_question : QuestionId;
  aw_task : TaskId;
  aw_revision : Z;
  aw_selection_json : string;
  aw_author : string;
  aw_outcome : AnswerAttemptOutcome;
  aw_denial : option string;
}.

Record ReceiptRow := mkReceipt {
  rc_command : string;
  rc_session : SessionId;
  rc_principal : string;
  rc_params_digest : string;
  rc_result_json : string;
}.

(** What a compaction records: [SpendEntry], [ScopedIndexEntry] and
    [ContinuationCheckpoint]. *)
Record SpendEntry := mkSpend { sp_scope : string; sp_spent : Z }.
Record ScopedIndexEntry := mkIndexEntry { ix_evidence : EvidenceId; ix_validity : string; ix_digest : string }.
Record ContinuationCheckpoint := mkCheckpoint {
  cp_id : string;
  cp_task : TaskId;
  cp_intent : Z;
  cp_question_id : option QuestionId;
  cp_question_revision : option Z;
  cp_goal_digest : string;
  cp_answer_digest : string;
  cp_evidence_digest : string;
  cp_evidence : list ScopedIndexEntry;
  cp_spend : list SpendEntry;
  cp_folded : Z;
  cp_history_digest : string;
}.

(** The JSON objects the operations journal. *)
Inductive EventDelta :=
  | TaskCreated (task_id : TaskId) (goal_digest : string)
  | QuestionPublished (question_id : QuestionId) (question_revision : Z)
  | QuestionAnswered (question_id : QuestionId) (author : string)
  | SupersededByIntent (question_id : QuestionId) (question_revision stale_intent live_intent : Z)
  | SupersededBySelection (question_id : QuestionId) (question_revision selection next_selection : Z)
  | SupersededByLifecycle (question_id : QuestionId) (question_revision : Z) (lifecycle : Lifecycle)
  | TaskPaused (from : Lifecycle)
  | TaskSteered (instruction : string)
  | TaskCancelled (reason : option string)
  | TaskCompacted (checkpoint : ContinuationCheckpoint)
  | TaskCompleted.

(** [PlanSelectionRecord] and [PlanGateHold] *)
Record PlanSelectionRecord := mkSelection {
  sel_revision : Z;
  sel_facts_digest : string;
  sel_request_kind : RequestKind;
}.

Inductive PlanGateHold := HoldUnassessed | HoldPaused.

#[export] Instance PlanGateHold_eq_dec : EqDecision PlanGateHold.
Proof. solve_decision. Defined.

Record TaskDb := mkTaskDb {
  tasks : gmap TaskId TaskRow;
  criteria_rows : list CriterionRow;
  constraint_rows : list ConstraintRow;
  obligation_rows : list ObligationRow;
  evidence_rows : list EvidenceRow;
  question_rows : list QuestionRow;
  event_rows : list (Event EventDelta);
  receipt_rows : list ReceiptRow;
  attempt_rows : list AttemptRow;
  answer_rows : list AnswerRow;
  plan_selections : gmap TaskId PlanSelectionRecord;
  plan_rows : gmap TaskId (list PlanObligationRecord);
  plan_revisions_ : gmap TaskId (list PlanRevisionRecord);
  plan_gate_holds : gmap TaskId PlanGateHold;
  plan_blocks : gset TaskId;
  drawn : nat;
}.

(** An update of one table. *)
Definition on_tasks (f : gmap TaskId TaskRow -> gmap TaskId TaskRow) (db : TaskDb) : TaskDb :=
  mkTaskDb (f (tasks db)) (criteria_rows db) (constraint_rows db) (obligation_rows db) (evidence_rows db) (question_rows db) (event_rows db) (receipt_rows db) (attempt_rows db) (answer_rows db) (plan_selections db) (plan_rows db) (plan_revisions_ db) (plan_gate_holds db) (plan_blocks db) (drawn db).
Definition on_criteria_rows (f : list CriterionRow -> list CriterionRow) (db : TaskDb) : TaskDb :=
  mkTaskDb (tasks db) (f (criteria_rows db)) (constraint_rows db) (obligation_rows db) (evidence_rows db) (question_rows db) (event_rows db) (receipt_rows db) (attempt_rows db) (answer_rows db) (plan_selections db) (plan_rows db) (plan_revisions_ db) (plan_gate_holds db) (plan_blocks db) (drawn db).
Definition on_constraint_rows (f : list ConstraintRow -> list ConstraintRow) (db : TaskDb) : TaskDb :=
  mkTaskDb (tasks db) (criteria_rows db) (f (constraint_rows db)) (obligation_rows db) (evidence_rows db) (question_rows db) (event_rows db) (receipt_rows db) (attempt_rows db) (answer_rows db) (plan_selections db) (plan_rows db) (plan_revisions_ db) (plan_gate_holds db) (plan_blocks db) (drawn db).
Definition on_obligation_rows (f : list ObligationRow -> list ObligationRow) (db : TaskDb) : TaskDb :=
  mkTaskDb (tasks db) (criteria_rows db) (constraint_rows db) (f (obligation_rows db)) (evidence_rows db) (question_rows db) (event_rows db) (receipt_rows db) (attempt_rows db) (answer_rows db) (plan_selections db) (plan_rows db) (plan_revisions_ db) (plan_gate_holds db) (plan_blocks db) (drawn db).
Definition on_evidence_rows (f : list EvidenceRow -> list EvidenceRow) (db : TaskDb) : TaskDb :=
  mkTaskDb (tasks db) (criteria_rows db) (constraint_rows db) (obligation_rows db) (f (evidence_rows db)) (question_rows db) (event_rows db) (receipt_rows db) (attempt_rows db) (answer_rows db) (plan_selections db) (plan_rows db) (plan_revisions_ db) (plan_gate_holds db) (plan_blocks db) (drawn db).
Definition on_question_rows (f : list QuestionRow -> list QuestionRow) (db : TaskDb) : TaskDb :=
  mkTaskDb (tasks db) (criteria_rows db) (constraint_rows db) (obligation_rows db) (evidence_rows db) (f (question_rows db)) (event_rows db) (receipt_rows db) (attempt_rows db) (answer_rows db) (plan_selections db) (plan_rows db) (plan_revisions_ db) (plan_gate_holds db) (plan_blocks db) (drawn db).
Definition on_event_rows (f : list (Event EventDelta) -> list (Event EventDelta)) (db : TaskDb) : TaskDb :=
  mkTaskDb (tasks db) (criteria_rows db) (constraint_rows db) (obligation_rows db) (evidence_rows db) (question_rows db) (f (event_rows db)) (receipt_rows db) (attempt_rows db) (answer_rows db) (plan_selections db) (plan_rows db) (plan_revisions_ db) (plan_gate_holds db) (plan_blocks db) (drawn db).
Definition on_receipt_rows (f : list ReceiptRow -> list ReceiptRow) (db : TaskDb) : TaskDb :=
  mkTaskDb (tasks db) (criteria_rows db) (constraint_rows db) (obligation_rows db) (evidence_rows db) (question_rows db) (event_rows db) (f (receipt_rows db)) (attempt_rows db) (answer_rows db) (plan_selections db) (plan_rows db) (plan_revisions_ db) (plan_gate_holds db) (plan_blocks db) (drawn db).
Definition on_attempt_rows (f : list AttemptRow -> list AttemptRow) (db : TaskDb) : TaskDb :=
  mkTaskDb (tasks db) (criteria_rows db) (constraint_rows db) (obligation_rows db) (evidence_rows db) (question_rows db) (event_rows db) (receipt_rows db) (f (attempt_rows db)) (answer_rows db) (plan_selections db) (plan_rows db) (plan_revisions_ db) (plan_gate_holds db) (plan_blocks db) (drawn db).
Definition on_answer_rows (f : list AnswerRow -> list AnswerRow) (db : TaskDb) : TaskDb :=
  mkTaskDb (tasks db) (criteria_rows db) (constraint_rows db) (obligation_rows db) (evidence_rows db) (question_rows db) (event_rows db) (receipt_rows db) (attempt_rows db) (f (answer_rows db)) (plan_selections db) (plan_rows db) (plan_revisions_ db) (plan_gate_holds db) (plan_blocks db) (drawn db).
Definition on_plan_selections (f : gmap TaskId PlanSelectionRecord -> gmap TaskId PlanSelectionRecord) (db : TaskDb) : TaskDb :=
  mkTaskDb (tasks db) (criteria_rows db) (constraint_rows db) (obligation_rows db) (evidence_rows db) (question_rows db) (event_rows db) (receipt_rows db) (attempt_rows db) (answer_rows db) (f (plan_selections db)) (plan_rows db) (plan_revisions_ db) (plan_gate_holds db) (plan_blocks db) (drawn db).
Definition on_plan_rows (f : gmap TaskId (list PlanObligationRecord) -> gmap TaskId (list PlanObligationRecord)) (db : TaskDb) : TaskDb :=
  mkTaskDb (tasks db) (criteria_rows db) (constraint_rows db) (obligation_rows db) (evidence_rows db) (question_rows db) (event_rows db) (receipt_rows db) (attempt_rows db) (answer_rows db) (plan_selections db) (f (plan_rows db)) (plan_revisions_ db) (plan_gate_holds db) (plan_blocks db) (drawn db).
Definition on_plan_revisions (f : gmap TaskId (list PlanRevisionRecord) -> gmap TaskId (list PlanRevisionRecord)) (db : TaskDb) : TaskDb :=
  mkTaskDb (tasks db) (criteria_rows db) (constraint_rows db) (obligation_rows db) (evidence_rows db) (question_rows db) (event_rows db) (receipt_rows db) (attempt_rows db) (answer_rows db) (plan_selections db) (plan_rows db) (f (plan_revisions_ db)) (plan_gate_holds db) (plan_blocks db) (drawn db).
Definition on_plan_gate_holds (f : gmap TaskId PlanGateHold -> gmap TaskId PlanGateHold) (db : TaskDb) : TaskDb :=
  mkTaskDb (tasks db) (criteria_rows db) (constraint_rows db) (obligation_rows db) (evidence_rows db) (question_rows db) (event_rows db) (receipt_rows db) (attempt_rows db) (answer_rows db) (plan_selections db) (plan_rows db) (plan_revisions_ db) (f (plan_gate_holds db)) (plan_blocks db) (drawn db).
Definition on_plan_blocks (f : gset TaskId -> gset TaskId) (db : TaskDb) : TaskDb :=
  mkTaskDb (tasks db) (criteria_rows db) (constraint_rows db) (obligation_rows db) (evidence_rows db) (question_rows db) (event_rows db) (receipt_rows db) (attempt_rows db) (answer_rows db) (plan_selections db) (plan_rows db) (plan_revisions_ db) (plan_gate_holds db) (f (plan_blocks db)) (drawn db).
Definition on_drawn (f : nat -> nat) (db : TaskDb) : TaskDb :=
  mkTaskDb (tasks db) (criteria_rows db) (constraint_rows db) (obligation_rows db) (evidence_rows db) (question_rows db) (event_rows db) (receipt_rows db) (attempt_rows db) (answer_rows db) (plan_selections db) (plan_rows db) (plan_revisions_ db) (plan_gate_holds db) (plan_blocks db) (f (drawn db)).

Abbreviation stx := (tx TaskDb StoreError).

(** Runs a statement for every element, in order. *)
Fixpoint tx_iter {A} (f : A -> stx unit) (l : list A) : stx unit :=
  match l with
  | [] => tx_ret tt
  | a :: l => let! _ := f a in tx_iter f l
  end.

(** * Rows of a task *)

Definition task_row (task_id : TaskId) : stx TaskRow :=
  fun db => match tasks db !! task_id with
            | Some row => Ok (row, db)
            | None => Err (StoreNotFound (MissingTask task_id))
            end.

Definition with_lifecycle (l : Lifecycle) (t : TaskRow) : TaskRow :=
  mkTask (tk_session t) (tk_revision t) (tk_intent t) (tk_contract t) l (tk_goal t) (tk_goal_digest t)
    (tk_goal_artifact t) (tk_event_cursor t).
(** [revision = ?, event_cursor = event_cursor + 1] *)
Definition moved (revision : Z) (t : TaskRow) : TaskRow :=
  mkTask (tk_session t) revision (tk_intent t) (tk_contract t) (tk_lifecycle t) (tk_goal t)
    (tk_goal_digest t) (tk_goal_artifact t) (tk_event_cursor t + 1).
Definition with_intent (intent : Z) (t : TaskRow) : TaskRow :=
  mkTask (tk_session t) (tk_revision t) intent (tk_contract t) (tk_lifecycle t) (tk_goal t)
    (tk_goal_digest t) (tk_goal_artifact t) (tk_event_cursor t).

Definition update_task (task_id : TaskId) (f : TaskRow -> TaskRow) : TaskDb -> TaskDb :=
  on_tasks (alter f task_id).

(** [UPDATE tasks SET revision = ?2, lifecycle = .., event_cursor = event_cursor + 1]:
    [TASK_SET_WAITING], [TASK_SET_RUNNING], [CANCEL_TASK], [COMPLETE_TASK]. *)
Definition set_lifecycle (task_id : TaskId) (revision : Z) (l : Lifecycle) : TaskDb -> TaskDb :=
  update_task task_id (fun t => moved revision (with_lifecycle l t)).
Definition TASK_SET_WAITING task_id revision := set_lifecycle task_id revision LWaiting.
Definition TASK_SET_RUNNING task_id revision := set_lifecycle task_id revision LRunning.
Definition CANCEL_TASK task_id revision := set_lifecycle task_id revision LCancelled.
Definition COMPLETE_TASK task_id revision := set_lifecycle task_id revision LCompleted.
Definition UPDATE_INTENT (task_id : TaskId) (revision intent : Z) : TaskDb -> TaskDb :=
  update_task task_id (fun t => moved revision (with_intent intent t)).

(** The updates whose WHERE clause reads the lifecycle. *)
Definition move_when (from : Lifecycle -> bool) (to : Lifecycle) (task_id : TaskId) : TaskDb -> TaskDb :=
  update_task task_id (fun t =>
    if from (tk_lifecycle t) then moved (tk_revision t + 1) (with_lifecycle to t) else t).
Definition relabel_when (from to : Lifecycle) (task_id : TaskId) : TaskDb -> TaskDb :=
  update_task task_id (fun t => if decide (tk_lifecycle t = from) then with_lifecycle to t else t).

Definition BLOCK_TASK_NOT_CANCELLED := move_when (fun l => negb (bool_decide (l = LCancelled))) LBlocked.
Definition BLOCK_TASK_OPEN := move_when (fun l => negb (lifecycle_is_terminal l)) LBlocked.
Definition PLAN_BLOCK_RUNNING_TASK := move_when (fun l => bool_decide (l = LRunning)) LBlocked.
Definition PLAN_RELEASE_TASK := move_when (fun l => bool_decide (l = LBlocked)) LRunning.
Definition PAUSE_TASK_FOR_WORKFLOW_OFF :=
  move_when (fun l => bool_decide (l = LRunning \/ l = LWaiting)) LPaused.
Definition SUPERSESSION_RESUMES_TASK := relabel_when LWaiting LRunning.
Definition PAUSE_RUNNING_TASK := relabel_when LRunning LWaiting.
Definition RELEASE_WORKFLOW_OFF_PAUSE := relabel_when LPaused LRunning.

(** * Questions *)

Definition with_question_state (s : QuestionState) (q : QuestionRow) : QuestionRow :=
  mkQuestionRow (qr_id q) (qr_task q) (qr_revision q) (qr_intent q) (qr_prompt q) (qr_body q) s
    (qr_answer_json q) (qr_origin q).

Definition is_pending (task_id : TaskId) (q : QuestionRow) : bool :=
  String.eqb (qr_task q) task_id && bool_decide (qr_state q = QPending).

(** [PENDING_QUESTION_EXISTS] *)
Definition pending_question_exists (task_id : TaskId) (db : TaskDb) : bool :=
  existsb (is_pending task_id) (question_rows db).

(** [ORDER BY revision DESC LIMIT 1] over the pending rows: the first row with
    the largest revision. *)
Fixpoint latest_question (rows : list QuestionRow) : option QuestionRow :=
  match rows with
  | [] => None
  | q :: rows =>
      match latest_question rows with
      | Some later => if (qr_revision q <? qr_revision later)%Z then Some later else Some q
      | None => Some q
      end
  end.
Definition pending_question (task_id : TaskId) (db : TaskDb) : option QuestionRow :=
  latest_question (filter (fun q => is_pending task_id q) (question_rows db)).

(** [UPDATE questions SET state = 'superseded' WHERE .. RETURNING ..] *)
Definition supersede (dies : QuestionRow -> bool) : stx (list QuestionRow) :=
  fun db => Ok (filter (fun q => dies q) (question_rows db),
                on_question_rows (map (fun q => if dies q then with_question_state QSuperseded q else q)) db).

(** * Events *)

Section Events.
(** The random identifiers ([uuid::Uuid::new_v4]). *)
Variable generate : nat -> string.

(** [XId::generate] *)
Definition fresh_id : stx string := fun db => Ok (generate (drawn db), on_drawn S db).

(** [next_cursor] *)
Definition next_cursor (db : TaskDb) : Z :=
  (foldr (fun e acc => Z.max (ev_cursor e) acc) 0 (event_rows db) + 1)%Z.

(** The PRIMARY KEY of [events], its UNIQUE cursor and [idx_events_aggregate]. *)
Definition event_collides (e f : Event EventDelta) : bool :=
  String.eqb (ev_event_id e) (ev_event_id f) || (ev_cursor e =? ev_cursor f)%Z ||
  (String.eqb (ev_aggregate_id e) (ev_aggregate_id f) &&
   (ev_aggregate_revision e =? ev_aggregate_revision f)%Z).

(** [append_event] *)
Definition append_event (session_id : SessionId) (task_id : option TaskId) (aggregate : string * Z)
    (event_type : string) (delta : EventDelta) (origin : string) : stx unit :=
  let! event_id := fresh_id in
  fun db =>
    let event := mkEvent 1 event_id aggregate.1 aggregate.2 (next_cursor db) session_id task_id
                   event_type delta origin in
    if existsb (event_collides event) (event_rows db) then Err (Storage ConstraintFailed)
    else Ok (tt, on_event_rows (fun rows => rows ++ [event]) db).

(** [supersede_pending_questions] *)
Definition supersede_pending_questions (session_id : SessionId) (task_id : TaskId) (live_intent : Z)
    (origin : string) : stx unit :=
  let! killed := supersede (fun q => is_pending task_id q && negb (qr_intent q =? live_intent)%Z) in
  tx_iter (fun q => append_event session_id (Some task_id) (qr_id q, qr_revision q) "question.superseded"
                      (SupersededByIntent (qr_id q) (qr_revision q) (qr_intent q) live_intent) origin) killed.

(** [supersede_terminal_questions] *)
Definition supersede_terminal_questions (session_id : SessionId) (task_id : TaskId) (lifecycle : Lifecycle)
    (origin : string) : stx unit :=
  let! killed := supersede (is_pending task_id) in
  tx_iter (fun q => append_event session_id (Some task_id) (qr_id q, qr_revision q) "question.superseded"
                      (SupersededByLifecycle (qr_id q) (qr_revision q) lifecycle) origin) killed.
End Events.
