(* ===== verification/PlanGate.v ===== *)
(** The plan half of the task store ([src/src/state.rs]): the selection and its
    rows, the plan revisions, the gate that non-read effects wait on, and the
    lifecycle rule that blocks and releases a task.  Every operation is one
    Immediate transaction over [TaskDb]. *)

From stdpp Require Import pretty sorting.
From S2P Require Import Prelude.
From S2P Require Import Contracts.
From S2P Require Import Text.
From S2P Require Import Requests.
From S2P Require Import Store.
From S2P Require Import Actions.
From S2P Require Import Procedure.
From S2P Require Import TaskDb.

Definition PLAN_OBLIGATION_PREFIX : string := "plan:".

Inductive PlanGate :=
  | GateUnassessed
  | GateOpen
  | GatePaused (unresolved open_stages : list string).

#[export] Instance PlanGate_eq_dec : EqDecision PlanGate.
Proof. solve_decision. Defined.

Definition hold_as_str (h : PlanGateHold) : string :=
  match h with HoldUnassessed => "unassessed" | HoldPaused => "paused" end.

(** [PlanGateHold::blocker] *)
Definition hold_blocker (h : PlanGateHold) : Blocker :=
  plan_blocker DependencyBlocked ("plan_gate:" +:+ hold_as_str h).

Inductive PlanRowChange :=
  | Close (execution : ObligationExecution) (outcome_json : string)
  | Block (blocker : Blocker).

Record PlanRowUpdate := mkRowUpdate {
  up_capability : string;
  up_handler : string;
  up_selection_revision : Z;
  up_facts_digest : string;
  up_change : PlanRowChange;
}.

Record PlanSelectionWrite := mkSelectionWrite {
  sw_facts_digest : string;
  sw_request_kind : RequestKind;
  sw_rows : list PlanRowWrite;
}.

Record PlanRevisionWrite := mkRevisionWrite {
  rw_handler : string;
  rw_reopens : string;
  rw_selection_revision : Z;
  rw_facts_digest : string;
  rw_body_json : string;
}.

Record PlanAssessmentWrite := mkAssessmentWrite {
  aw_handler : string;
  aw_selection_revision : Z;
  aw_facts_digest : string;
  aw_plan_revision : Z;
  aw_verdict : PlanVerdict;
  aw_assessment_json : string;
  aw_changes : list (string * PlanRowChange);
}.

(** * Reads *)

Definition is_decision (b : Blocker) : bool :=
  match b_condition b with ByDecision _ _ => true | _ => false end.

(** [PlanObligationRecord::holds_lifecycle] *)
Definition holds_lifecycle (row : PlanObligationRecord) : bool :=
  if decide (applicability row = Unresolved) then true
  else match blocker row with
       | None => false
       | Some blocker =>
           if is_decision blocker then false
           else negb (negb (stage row) && bool_decide (handler row = None) &&
                      bool_decide (applicability row = Required) &&
                      bool_decide (b_reason blocker = CapabilityUnavailable))
       end.

(** The rows of a task: [plan_selection_on], [plan_rows_on], [gate_hold_on]. *)
Definition plan_selection_on (task_id : TaskId) (db : TaskDb) : option PlanSelectionRecord :=
  plan_selections db !! task_id.
Definition plan_rows_on (task_id : TaskId) (db : TaskDb) : list PlanObligationRecord :=
  default [] (plan_rows db !! task_id).
Definition plan_revisions_on (task_id : TaskId) (db : TaskDb) : list PlanRevisionRecord :=
  default [] (plan_revisions_ db !! task_id).
Definition gate_hold_on (task_id : TaskId) (db : TaskDb) : option PlanGateHold :=
  plan_gate_holds db !! task_id.

(** [plan_row_holds_on] *)
Definition plan_row_holds_on (task_id : TaskId) (db : TaskDb) : bool :=
  existsb holds_lifecycle (plan_rows_on task_id db).

(** [LATEST_PLAN_VERDICT_FOR_SELECTION]: the verdict of the row with the largest
    revision among those recorded under the selection. *)
Fixpoint latest_plan (plans : list PlanRevisionRecord) : option PlanRevisionRecord :=
  match plans with
  | [] => None
  | p :: plans =>
      match latest_plan plans with
      | Some later => if (revision p <? revision later)%Z then Some later else Some p
      | None => Some p
      end
  end.
Definition latest_verdict (task_id : TaskId) (selection : Z) (db : TaskDb) : option PlanVerdict :=
  latest_plan (filter (fun p => pr_selection_revision p = selection) (plan_revisions_on task_id db))
    ≫= verdict.

Definition open_stage (row : PlanObligationRecord) : bool :=
  stage row && bool_decide (applicability row = Required) && negb (bool_decide (execution row = Satisfied)).

(** [gate_on] *)
Definition gate_on (task_id : TaskId) (db : TaskDb) : result PlanGate StoreError :=
  match plan_selection_on task_id db with
  | None => Ok GateUnassessed
  | Some selection =>
      let rows := plan_rows_on task_id db in
      let unresolved := map capability (filter (fun row => applicability row = Unresolved) rows) in
      let open_stages := map capability (filter (fun row => open_stage row) rows) in
      let plan_required := existsb (fun row => String.eqb (capability row) PLAN_WORK &&
                                              bool_decide (applicability row = Required)) rows in
      let? open_stages :=
        if plan_required then
          let? selection := stored_u64 (sel_revision selection) in
          let passed := match latest_verdict task_id selection db with Some Pass => true | _ => false end in
          Ok (if negb passed && negb (existsb (String.eqb ASSESS_PLAN) open_stages)
              then open_stages ++ [ASSESS_PLAN] else open_stages)
        else Ok open_stages in
      if decide (unresolved = [] /\ open_stages = []) then Ok GateOpen
      else Ok (GatePaused unresolved open_stages)
  end.

(** A read of the transaction's own database. *)
Definition tx_read {A} (f : TaskDb -> result A StoreError) : stx A :=
  fun db => match f db with Ok a => Ok (a, db) | Err e => Err e end.

(** * Lifecycle *)

(** [PLAN_RELEASE_BLOCKING_SOURCES] *)
Definition other_sources (task_id : TaskId) (db : TaskDb) : bool :=
  existsb (fun o => String.eqb (ob_task o) task_id && bool_decide (ob_applicability o = Unresolved)) (obligation_rows db) ||
  existsb (fun a => String.eqb (at_task a) task_id && String.eqb (at_state a) "unknown") (attempt_rows db) ||
  pending_question_exists task_id db.

(** [release_plan_owned_block] *)
Definition release_plan_owned_block (task_id : TaskId) : stx unit :=
  let! db := tx_get in
  if bool_decide (task_id ∈ plan_blocks db) && negb (other_sources task_id db) then
    let! _ := tx_modify (PLAN_RELEASE_TASK task_id) in
    tx_modify (on_plan_blocks (fun blocks => blocks ∖ {[ task_id ]}))
  else tx_ret tt.

(** [settle_plan_lifecycle]; [TASK_LIFECYCLE] on a missing row is the
    database's refusal. *)
Definition settle_plan_lifecycle (task_id : TaskId) : stx unit :=
  let! db := tx_get in
  match tasks db !! task_id with
  | None => tx_err (Storage ConstraintFailed)
  | Some task =>
      let held := bool_decide (is_Some (gate_hold_on task_id db)) || plan_row_holds_on task_id db in
      match tk_lifecycle task with
      | LRunning =>
          if held then
            let! _ := tx_modify (PLAN_BLOCK_RUNNING_TASK task_id) in
            tx_modify (on_plan_blocks (fun blocks => {[ task_id ]} ∪ blocks))
          else tx_ret tt
      | LBlocked => if held then tx_ret tt else release_plan_owned_block task_id
      | _ => tx_ret tt
      end
  end.

Definition gate_kind (gate : PlanGate) : PlanGateHold :=
  match gate with GateUnassessed => HoldUnassessed | _ => HoldPaused end.

(** The first half of [settle_plan_state]: the hold follows the gate. *)
Definition settle_gate_hold (task_id : TaskId) : stx unit :=
  let! db := tx_get in
  match gate_hold_on task_id db with
  | None => tx_ret tt
  | Some hold =>
      let! gate := tx_read (gate_on task_id) in
      match gate with
      | GateOpen => tx_modify (on_plan_gate_holds (delete task_id))
      | gate =>
          if decide (gate_kind gate = hold) then tx_ret tt
          else tx_modify (on_plan_gate_holds (<[task_id := gate_kind gate]>))
      end
  end.

(** [settle_plan_state] *)
Definition settle_plan_state (task_id : TaskId) : stx unit :=
  let! _ := settle_gate_hold task_id in settle_plan_lifecycle task_id.

(** [require_open_task] *)
Definition require_open_task (task_id : TaskId) : stx unit :=
  let! task := task_row task_id in
  if lifecycle_is_terminal (tk_lifecycle task) then tx_err StoreAlreadyTerminal else tx_ret tt.

(** [block_foreign] *)
Definition block_foreign (task_id : TaskId) (block : TaskId -> TaskDb -> TaskDb) : stx unit :=
  let! _ := tx_modify (block task_id) in
  tx_modify (on_plan_blocks (fun blocks => blocks ∖ {[ task_id ]})).

(** * Row writes *)

(** [check_plan_binding] *)
Definition check_plan_binding (task_id : TaskId) (selection_revision : Z) (facts_digest : string) : stx unit :=
  let! _ := require_open_task task_id in
  let! db := tx_get in
  match plan_selection_on task_id db with
  | None => tx_err (StoreConflict PlanSelectionMissing)
  | Some current =>
      if negb (sel_revision current =? selection_revision)%Z ||
         negb (String.eqb (sel_facts_digest current) facts_digest)
      then tx_err (StoreConflict (PlanSelectionStale (sel_revision current)))
      else tx_ret tt
  end.

(** [CLOSE_PLAN_ROW], [BLOCK_PLAN_ROW] *)
Definition change_row (change : PlanRowChange) (row : PlanObligationRecord) : PlanObligationRecord :=
  match change with
  | Close execution outcome_json =>
      mkObligationRecord (capability row) (applicability row) execution (stage row) (handler row) None
        (Some outcome_json)
  | Block blocker =>
      mkObligationRecord (capability row) (applicability row) (execution row) (stage row) (handler row)
        (Some blocker) (outcome_json row)
  end.

(** An UPDATE of the rows of one task. *)
Definition update_rows (task_id : TaskId) (f : PlanObligationRecord -> PlanObligationRecord)
    : TaskDb -> TaskDb := on_plan_rows (alter (map f) task_id).
Definition update_row (task_id : TaskId) (named : string) (f : PlanObligationRecord -> PlanObligationRecord)
    : TaskDb -> TaskDb :=
  update_rows task_id (fun row => if String.eqb (capability row) named then f row else row).

(** [apply_plan_row_change] *)
Definition apply_plan_row_change (task_id : TaskId) (named writer : string) (change : PlanRowChange)
    : stx unit :=
  let! db := tx_get in
  match find (fun row => String.eqb (capability row) named) (plan_rows_on task_id db) with
  | None => tx_err (StoreConflict (PlanRowMissing named))
  | Some row =>
      if negb (bool_decide (handler row = Some writer)) then tx_err (StoreConflict (PlanRowHandler named writer))
      else if decide (applicability row = Unresolved) then tx_err (StoreConflict (PlanRowUnresolved named))
      else tx_modify (update_row task_id named (change_row change))
  end.

(** [update_plan_row] *)
Definition update_plan_row_tx (task_id : TaskId) (update : PlanRowUpdate) : stx unit :=
  let! _ := check_plan_binding task_id (up_selection_revision update) (up_facts_digest update) in
  let! _ := apply_plan_row_change task_id (up_capability update) (up_handler update) (up_change update) in
  settle_plan_state task_id.

(** [REOPEN_PLAN_ROWS_BY_HANDLER] *)
Definition reopen_row (reopens : string) (row : PlanObligationRecord) : PlanObligationRecord :=
  if bool_decide (handler row = Some reopens) && bool_decide (applicability row = Required)
  then mkObligationRecord (capability row) (applicability row) Pending (stage row) (handler row) None None
  else row.

(** [NEXT_PLAN_REVISION] *)
Definition next_plan_revision (task_id : TaskId) (db : TaskDb) : Z :=
  (foldr (fun p acc => Z.max (revision p) acc) 0 (plan_revisions_on task_id db) + 1)%Z.

(** The object [json!({ revision })] encodes, as its compact text. *)
Definition revision_json (plan_revision : Z) : string :=
  String (Ascii.ascii_of_nat 123) (String (Ascii.ascii_of_nat 34) "revision") +:+
  String (Ascii.ascii_of_nat 34) ":" +:+ pretty plan_revision +:+ "}".

(** [INSERT_PLAN_REVISION]; a revision already recorded breaks the PRIMARY KEY. *)
Definition insert_plan_revision (task_id : TaskId) (p : PlanRevisionRecord) : stx unit :=
  fun db =>
    if existsb (fun q => (revision q =? revision p)%Z) (plan_revisions_on task_id db)
    then Err (Storage ConstraintFailed)
    else Ok (tt, on_plan_revisions (<[task_id := plan_revisions_on task_id db ++ [p]]>) db).

(** [record_plan_revision] *)
Definition record_plan_revision_tx (task_id : TaskId) (write : PlanRevisionWrite) : stx Z :=
  let! _ := check_plan_binding task_id (rw_selection_revision write) (rw_facts_digest write) in
  let! db := tx_get in
  let! plan_revision := tx_lift (unsigned (next_plan_revision task_id db)) in
  let! selection := tx_lift (stored_u64 (rw_selection_revision write)) in
  let! _ := insert_plan_revision task_id (mkPlanRevision plan_revision selection (rw_body_json write) None None) in
  let! _ := apply_plan_row_change task_id (rw_handler write) (rw_handler write)
              (Close Satisfied (revision_json plan_revision)) in
  let! _ := tx_modify (update_rows task_id (reopen_row (rw_reopens write))) in
  let! _ := settle_plan_state task_id in
  tx_ret plan_revision.

(** [ASSESS_PLAN_REVISION]: the row it updates. *)
Definition assessable (plans : list PlanRevisionRecord) (plan_revision selection : Z) (p : PlanRevisionRecord) : bool :=
  (revision p =? plan_revision)%Z && (pr_selection_revision p =? selection)%Z &&
  match verdict p with None => true | Some _ => false end &&
  forallb (fun q => (revision q <=? revision p)%Z) plans.
Definition judge_row (v : PlanVerdict) (assessment_json : string) (p : PlanRevisionRecord) : PlanRevisionRecord :=
  mkPlanRevision (revision p) (pr_selection_revision p) (body_json p) (Some v) (Some assessment_json).

(** [record_plan_assessment] *)
Definition record_plan_assessment_tx (task_id : TaskId) (a : PlanAssessmentWrite) : stx unit :=
  let! _ := check_plan_binding task_id (aw_selection_revision a) (aw_facts_digest a) in
  let! plan_revision := tx_lift (stored_u64 (aw_plan_revision a)) in
  let! selection := tx_lift (stored_u64 (aw_selection_revision a)) in
  let! db := tx_get in
  let plans := plan_revisions_on task_id db in
  if negb (existsb (assessable plans plan_revision selection) plans)
  then tx_err (StoreConflict (PlanNotAssessable (aw_plan_revision a)))
  else
    let! _ := tx_modify (on_plan_revisions
                (<[task_id := map (fun p => if assessable plans plan_revision selection p
                                            then judge_row (aw_verdict a) (aw_assessment_json a) p else p) plans]>)) in
    let! _ := tx_iter (fun '(named, change) => apply_plan_row_change task_id named (aw_handler a) change)
                (aw_changes a) in
    settle_plan_state task_id.

(** [hold_for_plan_gate] *)
Definition hold_for_plan_gate_tx (task_id : TaskId) (observed : PlanGateHold) : stx (option PlanGateHold) :=
  let! _ := require_open_task task_id in
  let! gate := tx_read (gate_on task_id) in
  let! _ := match gate with
            | GateOpen => tx_ret tt
            | _ => tx_modify (on_plan_gate_holds (<[task_id := observed]>))
            end in
  let! _ := settle_plan_state task_id in
  let! db := tx_get in
  tx_ret (gate_hold_on task_id db).

(** * Selection *)

Definition unresolved_obligation (task_id : TaskId) (db : TaskDb) : bool :=
  existsb (fun o => String.eqb (ob_task o) task_id && bool_decide (ob_applicability o = Unresolved))
    (obligation_rows db).

Definition with_applicability (a : ObligationApplicability) (row : PlanObligationRecord) : PlanObligationRecord :=
  mkObligationRecord (capability row) a (execution row) (stage row) (handler row) (blocker row) (outcome_json row).

(** [UNRESOLVE_PLAN_ROWS] *)
Definition unresolve_plan_rows (task_id : TaskId) : TaskDb -> TaskDb :=
  update_rows task_id (with_applicability Unresolved).

(** The loop of [reset_recovered_plan_rows] over the stored rows. *)
Fixpoint reset_rows (task_id : TaskId) (derived : list PlanRowWrite) (stored : list PlanObligationRecord)
    (reset : bool) : stx bool :=
  match stored with
  | [] => tx_ret reset
  | row :: stored =>
      if negb (bool_decide (applicability row = Unresolved)) then reset_rows task_id derived stored reset
      else
        match find (fun d => String.eqb (w_capability d) (capability row) &&
                             negb (bool_decide (w_applicability d = Unresolved))) derived with
        | None => reset_rows task_id derived stored reset
        | Some recovered =>
            let! _ := tx_modify (update_row task_id (capability row) (with_applicability (w_applicability recovered))) in
            reset_rows task_id derived stored true
        end
  end.

(** [reset_recovered_plan_rows] *)
Definition reset_recovered_plan_rows (task_id : TaskId) (derived : list PlanRowWrite) : stx bool :=
  let! db := tx_get in
  if unresolved_obligation task_id db then tx_ret false
  else reset_rows task_id derived (plan_rows_on task_id db) false.

Section Selection.
Variable generate : nat -> string.

(** The loop of [supersede_plan_questions] over the stored rows. *)
Fixpoint supersede_rows (session_id : SessionId) (task_id : TaskId) (selection next_selection : Z)
    (rows : list PlanObligationRecord) (superseded : bool) : stx bool :=
  match rows with
  | [] => tx_ret superseded
  | row :: rows =>
      match b_condition <$> blocker row with
      | Some (ByDecision question_id rev) =>
          let! rev := tx_lift (stored_u64 rev) in
          let! killed := supersede (fun q => String.eqb (qr_id q) question_id && is_pending task_id q &&
                                             (qr_revision q =? rev)%Z) in
          match killed with
          | [] => supersede_rows session_id task_id selection next_selection rows superseded
          | q :: _ =>
              let! question_revision := tx_lift (unsigned (qr_revision q)) in
              let! _ := append_event generate session_id (Some task_id) (question_id, question_revision)
                          "question.superseded"
                          (SupersededBySelection question_id question_revision selection next_selection) "state" in
              supersede_rows session_id task_id selection next_selection rows true
          end
      | _ => supersede_rows session_id task_id selection next_selection rows superseded
      end
  end.

(** [supersede_plan_questions] *)
Definition supersede_plan_questions (session_id : SessionId) (task_id : TaskId) (selection next_selection : Z)
    : stx unit :=
  let! db := tx_get in
  let! superseded := supersede_rows session_id task_id selection next_selection (plan_rows_on task_id db) false in
  if superseded : bool then tx_modify (SUPERSESSION_RESUMES_TASK task_id) else tx_ret tt.

Definition written_row (row : PlanRowWrite) : PlanObligationRecord :=
  mkObligationRecord (w_capability row) (w_applicability row) Pending (w_stage row) (w_handler row)
    (w_blocker row) None.

(** [INSERT_PLAN_OBLIGATION]; a capability written twice breaks the PRIMARY KEY. *)
Definition insert_plan_obligation (task_id : TaskId) (row : PlanRowWrite) : stx unit :=
  fun db =>
    if existsb (fun stored => String.eqb (capability stored) (w_capability row)) (plan_rows_on task_id db)
    then Err (Storage ConstraintFailed)
    else Ok (tt, on_plan_rows (<[task_id := plan_rows_on task_id db ++ [written_row row]]>) db).

(** [record_plan_selection] *)
Definition record_plan_selection_tx (session_id : SessionId) (task_id : TaskId) (selection : PlanSelectionWrite)
    : stx PlanSelectionRecord :=
  let! _ := require_open_task task_id in
  let! db := tx_get in
  let current := plan_selection_on task_id db in
  match match current with
        | Some c => if String.eqb (sel_facts_digest c) (sw_facts_digest selection) then Some c else None
        | None => None
        end with
  | Some kept =>
      let! reset := reset_recovered_plan_rows task_id (sw_rows selection) in
      let! _ := if reset : bool then settle_plan_state task_id else tx_ret tt in
      tx_ret kept
  | None =>
      let rev := match current with Some c => (sel_revision c + 1)%Z | None => 1%Z end in
      let! _ := match current with
                | Some c => supersede_plan_questions session_id task_id (sel_revision c) rev
                | None => tx_ret tt
                end in
      let! stored := tx_lift (stored_u64 rev) in
      let recorded := mkSelection stored (sw_facts_digest selection) (sw_request_kind selection) in
      let! _ := tx_modify (on_plan_selections (<[task_id := recorded]>)) in
      let! _ := tx_modify (on_plan_rows (delete task_id)) in
      let! _ := tx_iter (insert_plan_obligation task_id) (sw_rows selection) in
      let! _ := settle_plan_state task_id in
      tx_ret recorded
  end.
End Selection.

(** [mark_plan_applicability_unresolved] *)
Definition mark_plan_applicability_unresolved_tx (task_id : TaskId) : stx unit :=
  let! _ := require_open_task task_id in
  let! db := tx_get in
  match plan_selection_on task_id db with
  | None => tx_ret tt
  | Some _ =>
      let! _ := tx_modify (unresolve_plan_rows task_id) in
      settle_plan_state task_id
  end.

(** * The store's operations *)

Abbreviation Store := (TaskStore TaskDb).

Definition update_plan_row (task_id : TaskId) (update : PlanRowUpdate) (s : Store) :=
  transaction (update_plan_row_tx task_id update) s.
Definition record_plan_revision (task_id : TaskId) (write : PlanRevisionWrite) (s : Store) :=
  transaction (record_plan_revision_tx task_id write) s.
Definition record_plan_assessment (task_id : TaskId) (a : PlanAssessmentWrite) (s : Store) :=
  transaction (record_plan_assessment_tx task_id a) s.
Definition hold_for_plan_gate (task_id : TaskId) (observed : PlanGateHold) (s : Store) :=
  transaction (hold_for_plan_gate_tx task_id observed) s.
Definition record_plan_selection (generate : nat -> string) (session_id : SessionId) (task_id : TaskId)
    (selection : PlanSelectionWrite) (s : Store) :=
  transaction (record_plan_selection_tx generate session_id task_id selection) s.
Definition mark_plan_applicability_unresolved (task_id : TaskId) (s : Store) :=
  transaction (mark_plan_applicability_unresolved_tx task_id) s.

Definition plan_selection (task_id : TaskId) (s : Store) : result (option PlanSelectionRecord) StoreError :=
  read (fun db => Ok (plan_selection_on task_id db)) s.
Definition plan_obligations (task_id : TaskId) (s : Store) : result (list PlanObligationRecord) StoreError :=
  read (fun db => Ok (plan_rows_on task_id db)) s.

(** [ORDER BY revision]: the key is unique within a task. *)
Definition by_revision (p q : PlanRevisionRecord) : Prop := (revision p <= revision q)%Z.
#[export] Instance by_revision_dec : RelDecision by_revision.
Proof. intros p q. unfold by_revision. apply _. Defined.
Definition plan_revisions (task_id : TaskId) (s : Store) : result (list PlanRevisionRecord) StoreError :=
  read (fun db => Ok (merge_sort by_revision (plan_revisions_on task_id db))) s.

Definition plan_gate (task_id : TaskId) (s : Store) : result PlanGate StoreError :=
  read (gate_on task_id) s.
