(* ===== verification/TaskStore.v ===== *)
(** The task half of the store ([src/src/state.rs]): creation with its receipt,
    questions and answers with their journal, steering, cancelling, pausing, the
    effects ledger, evidence and obligations, completion, the snapshot and the
    blockers it projects. *)

From stdpp Require Import pretty.
From S2P Require Import Prelude.
From S2P Require Import Contracts.
From S2P Require Import Text.
From S2P Require Import Requests.
From S2P Require Import Store.
From S2P Require Import Actions.
From S2P Require Import Procedure.
From S2P Require Import TaskDb.
From S2P Require Import PlanGate.

(** * Views ([contracts.rs]) *)

Record Obligation := mkObligation {
  o_id : string;
  o_criterion_refs : list CriterionId;
  o_applicability : ObligationApplicability;
  o_execution : ObligationExecution;
  o_basis_refs : list EvidenceId;
}.

Record AttemptRef := mkAttemptRef {
  ar_attempt_id : string;
  ar_action_id : string;
  ar_effect_class : EffectClass;
  ar_state : AttemptState;
}.

Record ArtifactRef := mkArtifactRef {
  af_id : string;
  af_digest : string;
  af_size_bytes : Z;
  af_media_type : string;
  af_scope : option string;
}.

Record TaskSnapshot := mkTaskSnapshot {
  sn_task_id : TaskId;
  sn_revision : Z;
  sn_intent_revision : Z;
  sn_lifecycle : Lifecycle;
  sn_goal_ref : ArtifactRef;
  sn_contract_revision : Z;
  sn_constraints : Page string;
  sn_criteria : Page Criterion;
  sn_obligations : Page Obligation;
  sn_actions : Page string;
  sn_attempts : Page AttemptRef;
  sn_decision_refs : Page string;
  sn_event_cursor : Z;
  sn_blockers : option (list Blocker);
}.

Record CommandResult := mkCommandResult {
  cr_status : string;
  cr_task_id : TaskId;
  cr_task_revision : Z;
  cr_intent_revision : Z;
  cr_event_cursor : Z;
  cr_snapshot : TaskSnapshot;
  cr_contract_revision : option Z;
}.

Record AnswerAttempt := mkAnswerAttempt {
  an_id : Z;
  an_question_id : QuestionId;
  an_task_id : TaskId;
  an_question_revision : Z;
  an_selection : AnswerSelection;
  an_author : string;
  an_outcome : AnswerAttemptOutcome;
  an_denial : option string;
}.

(** The JSON object an answered fork leaves on its plan row
    ([retain_answered_plan_fork], read back as [AnsweredForkIdentity]). *)
Record AnsweredForkIdentity := mkForkIdentity {
  fi_question_id : QuestionId;
  fi_question_revision : Z;
  fi_selection_revision : Z;
  fi_facts_digest : string;
}.

(** * Blockers *)

Definition WORKFLOW_OFF_BLOCKER_OWNER : string := "workflow".
Definition WORKFLOW_OFF_BLOCKER_KIND : string := "workflow_off:paused".
Definition workflow_off_blocker : Blocker :=
  mkBlocker DependencyBlocked WORKFLOW_OFF_BLOCKER_OWNER (ByDependency WORKFLOW_OFF_BLOCKER_KIND).

(** [extend_plan_blockers] *)
Fixpoint extend_plan_blockers (blockers plan : list Blocker) (pending : option QuestionRow) : list Blocker :=
  match plan with
  | [] => blockers
  | b :: plan =>
      let skipped :=
        match b_condition b with
        | ByDecision question_id rev =>
            negb (match pending with
                  | Some q => String.eqb (qr_id q) question_id && (qr_revision q =? rev)%Z
                  | None => false
                  end) ||
            existsb (fun listed => bool_decide (b_condition listed = b_condition b)) blockers
        | _ => false
        end in
      extend_plan_blockers (if skipped then blockers else blockers ++ [b]) plan pending
  end.

(** What [plan_blockers_for_tasks] and [plan_blockers_on] give for one task: each
    row that stores a blocker or waits on its applicability, then the hold. *)
Definition row_blocker (row : PlanObligationRecord) : option Blocker :=
  if decide (applicability row = Unresolved) then Some (plan_blocker DependencyBlocked (capability row))
  else blocker row.
Definition plan_blockers_on (task_id : TaskId) (db : TaskDb) : list Blocker :=
  omap row_blocker (plan_rows_on task_id db) ++
  match gate_hold_on task_id db with Some hold => [hold_blocker hold] | None => [] end.

Definition unresolved_count (task_id : TaskId) (db : TaskDb) : nat :=
  length (filter (fun o => ob_task o = task_id /\ ob_applicability o = Unresolved) (obligation_rows db)).
Definition unknown_count (task_id : TaskId) (db : TaskDb) : nat :=
  length (filter (fun a => at_task a = task_id /\ at_state a = "unknown") (attempt_rows db)).

Definition decision_blocker (q : QuestionRow) : Blocker :=
  mkBlocker DependencyBlocked "state" (ByDecision (qr_id q) (qr_revision q)).
Definition obligations_blocker (n : nat) : Blocker :=
  mkBlocker DependencyBlocked "state" (ByDependency ("obligations:" +:+ pretty n)).
Definition attempts_blocker (n : nat) : Blocker :=
  mkBlocker OutcomeUnknown "executor" (ByReconciliation ("attempts:" +:+ pretty n)).
Definition no_ready_blocker : Blocker := mkBlocker DependencyBlocked "controller" NoReadyAction.

(** The blockers [blockers_in_tx] derives from the lifecycle. *)
Definition own_blockers (task_id : TaskId) (l : Lifecycle) (db : TaskDb) : list Blocker :=
  match l with
  | LWaiting => match pending_question task_id db with Some q => [decision_blocker q] | None => [] end
  | LBlocked =>
      (if 0 <? unresolved_count task_id db then [obligations_blocker (unresolved_count task_id db)] else []) ++
      (if 0 <? unknown_count task_id db then [attempts_blocker (unknown_count task_id db)] else [])
  | LPaused => [workflow_off_blocker]
  | _ => []
  end.

Definition projects_plan (l : Lifecycle) : bool :=
  match l with LWaiting | LBlocked | LPaused => true | _ => false end.

(** [blockers_in_tx] *)
Definition blockers_of (task_id : TaskId) (l : Lifecycle) (db : TaskDb) : option (list Blocker) :=
  let blockers := own_blockers task_id l db in
  let blockers := if projects_plan l
                  then extend_plan_blockers blockers (plan_blockers_on task_id db) (pending_question task_id db)
                  else blockers in
  let blockers := if bool_decide (l = LBlocked) && bool_decide (blockers = [])
                  then [no_ready_blocker] else blockers in
  if decide (blockers = []) then None else Some blockers.

(** * The snapshot *)

Definition goal_artifact_id (task_id : TaskId) : string := "goal-" +:+ task_id.

(** [PlanObligationRecord::obligation] *)
Definition plan_obligation_view (row : PlanObligationRecord) : Obligation :=
  mkObligation (PLAN_OBLIGATION_PREFIX +:+ capability row) [] (applicability row) (execution row) [].

(** [AttemptState] as the snapshot reads the column. *)
Definition attempt_state_view (raw : string) : AttemptState :=
  if decide (raw = "admitted") then AttemptAdmitted
  else if decide (raw = "running") then Running
  else if decide (raw = "confirmed") then Confirmed
  else if decide (raw = "rejected") then Rejected
  else if decide (raw = "cancel_requested") then CancelRequested
  else if decide (raw = "unknown") then Unknown
  else Planned.

(** The rows of a task, [ORDER BY position]: positions are given in insertion
    order. *)
Definition criteria_of (task_id : TaskId) (db : TaskDb) : list Criterion :=
  map (fun c => mkCriterion (ck_id c) (ck_text c)) (filter (fun c => ck_task c = task_id) (criteria_rows db)).
Definition constraints_of (task_id : TaskId) (db : TaskDb) : list string :=
  map cn_text (filter (fun c => cn_task c = task_id) (constraint_rows db)).
Definition obligations_of (task_id : TaskId) (db : TaskDb) : list Obligation :=
  map (fun o => mkObligation (ob_id o) [ob_criterion o] (ob_applicability o) (ob_execution o) [])
    (filter (fun o => ob_task o = task_id) (obligation_rows db)) ++
  map plan_obligation_view (plan_rows_on task_id db).
Definition attempts_of (task_id : TaskId) (db : TaskDb) : list AttemptRef :=
  map (fun a => mkAttemptRef (at_id a) (at_action a) (at_class a) (attempt_state_view (at_state a)))
    (filter (fun a => at_task a = task_id) (attempt_rows db)).

(** [snapshot_in_tx] *)
Definition snapshot_of (task_id : TaskId) (task : TaskRow) (db : TaskDb) : TaskSnapshot :=
  let rev := tk_revision task in
  mkTaskSnapshot task_id rev (tk_intent task) (tk_lifecycle task)
    (mkArtifactRef (tk_goal_artifact task) (tk_goal_digest task) (slen (tk_goal task))
       "text/plain;charset=utf-8" (Some ("task:" +:+ task_id)))
    (tk_contract task) (page_new (constraints_of task_id db) rev) (page_new (criteria_of task_id db) rev)
    (page_new (obligations_of task_id db) rev) (page_new [] rev) (page_new (attempts_of task_id db) rev)
    (page_new [] rev) (tk_event_cursor task) (blockers_of task_id (tk_lifecycle task) db).
Definition snapshot_in_tx (task_id : TaskId) : stx TaskSnapshot :=
  let! task := task_row task_id in
  let! db := tx_get in
  tx_ret (snapshot_of task_id task db).

Definition snapshot (task_id : TaskId) (s : Store) : result TaskSnapshot StoreError :=
  read (fun db => match snapshot_in_tx task_id db with Ok (sn, _) => Ok sn | Err e => Err e end) s.

(** [goal_bytes], [task_lifecycle], [task_cancelled] *)
Definition goal_bytes (task_id : TaskId) (s : Store) : result string StoreError :=
  read (fun db => match tasks db !! task_id with
                  | Some task => Ok (tk_goal task)
                  | None => Err (StoreNotFound (MissingTask task_id))
                  end) s.
Definition task_lifecycle (task_id : TaskId) (s : Store) : result Lifecycle StoreError :=
  read (fun db => match tasks db !! task_id with
                  | Some task => Ok (tk_lifecycle task)
                  | None => Err (StoreNotFound (MissingTask task_id))
                  end) s.
Definition task_cancelled (task_id : TaskId) (s : Store) : result bool StoreError :=
  let? l := task_lifecycle task_id s in Ok (bool_decide (l = LCancelled)).

(** * Operations *)

Section Operations.
Context `{JsonCodec AnswerSelection} `{JsonCodec CommandResult} `{JsonCodec AnsweredForkIdentity}.
Context `{JsonCodec (SessionId * string * string * list string * list string)}.
(** The random identifiers, and [hex(sha2::Sha256::digest(..))]. *)
Variable generate : nat -> string.
Variable sha256_hex : string -> string.

(** ** Creation *)

(** [receipt] *)
Definition receipt_on (command_id : string) (db : TaskDb) : option (string * string) :=
  (fun r => (rc_params_digest r, rc_result_json r)) <$>
  find (fun r => String.eqb (rc_command r) command_id) (receipt_rows db).

Definition insert_task (task_id : TaskId) (row : TaskRow) : stx unit :=
  fun db => match tasks db !! task_id with
            | Some _ => Err (Storage ConstraintFailed)
            | None => Ok (tt, on_tasks (<[task_id := row]>) db)
            end.
Definition insert_criterion (task_id : TaskId) (position : nat) (text : string) : stx unit :=
  let! id := fresh_id generate in
  fun db => if existsb (fun c => String.eqb (ck_id c) id) (criteria_rows db) then Err (Storage ConstraintFailed)
            else Ok (tt, on_criteria_rows (fun rows => rows ++ [mkCriterionRow id task_id position text]) db).
Definition insert_constraint (task_id : TaskId) (position : nat) (text : string) : stx unit :=
  fun db => if existsb (fun c => String.eqb (cn_task c) task_id && (cn_position c =? position)) (constraint_rows db)
            then Err (Storage ConstraintFailed)
            else Ok (tt, on_constraint_rows (fun rows => rows ++ [mkConstraintRow task_id position text]) db).
Fixpoint tx_enumerate (f : nat -> string -> stx unit) (position : nat) (texts : list string) : stx unit :=
  match texts with
  | [] => tx_ret tt
  | text :: texts => let! _ := f position text in tx_enumerate f (S position) texts
  end.
Definition touch_event_cursor (t : TaskRow) : TaskRow :=
  mkTask (tk_session t) (tk_revision t) (tk_intent t) (tk_contract t) (tk_lifecycle t) (tk_goal t)
    (tk_goal_digest t) (tk_goal_artifact t) 1.
(** [record_receipt] *)
Definition record_receipt (command_id : string) (session_id : SessionId) (principal params_digest result_json : string)
    : stx unit :=
  fun db => if existsb (fun r => String.eqb (rc_command r) command_id) (receipt_rows db)
            then Err (Storage ConstraintFailed)
            else Ok (tt, on_receipt_rows
                   (fun rows => rows ++ [mkReceipt command_id session_id principal params_digest result_json]) db).

(** The transaction of [create_task]. *)
Definition create_task_tx (session_id : SessionId) (command_id principal goal : string)
    (criteria constraints : list string) (params_digest : string) : stx CommandResult :=
  let! task_id := fresh_id generate in
  let digest := sha256_hex goal in
  let! _ := insert_task task_id (mkTask session_id 1 1 1 LRunning goal digest (goal_artifact_id task_id) 0) in
  let! _ := tx_enumerate (insert_criterion task_id) 0 criteria in
  let! _ := tx_enumerate (insert_constraint task_id) 0 constraints in
  let! _ := tx_modify (update_task task_id touch_event_cursor) in
  let! _ := append_event generate session_id (Some task_id) (task_id, 1%Z) "task.created"
              (TaskCreated task_id digest) "human" in
  let! sn := snapshot_in_tx task_id in
  let answer := mkCommandResult "accepted" task_id (sn_revision sn) (sn_intent_revision sn) 1 sn (Some 1%Z) in
  let! _ := record_receipt command_id session_id principal params_digest (to_json answer) in
  tx_ret answer.

(** [create_task] *)
Definition create_task (session_id : SessionId) (command_id principal goal : string)
    (criteria constraints : list string) (s : Store) : result CommandResult StoreError * Store :=
  if String.eqb goal EmptyString || (TEXT_MAX_BYTES <? slen goal)%Z then (Err (StoreInvalidInput EmptyGoal), s)
  else
    let params_digest := to_json (session_id, principal, goal, criteria, constraints) in
    match conn s with
    | Err e => (Err e, s)
    | Ok db =>
        match receipt_on command_id db with
        | Some (digest, result_json) =>
            if negb (String.eqb digest params_digest) then (Err (StoreConflict (DuplicateCommand command_id)), s)
            else match from_json result_json with
                 | Some answer => (Ok answer, s)
                 | None => (Err (Storage (Undecodable result_json)), s)
                 end
        | None =>
            transaction (create_task_tx session_id command_id principal goal criteria constraints params_digest) s
        end
    end.

(** ** Questions *)

(** [insert_question]; a question id already stored breaks the PRIMARY KEY. *)
Definition insert_question (session_id : SessionId) (q : Question) : stx unit :=
  let! task := task_row (q_task_id q) in
  if negb (bool_decide (tk_lifecycle task = LRunning \/ tk_lifecycle task = LWaiting))
  then tx_err (StoreConflict (QuestionOnLifecycle (lifecycle_as_str (tk_lifecycle task))))
  else if negb (q_intent_revision q =? tk_intent task)%Z
  then tx_err (StoreStaleIntent (q_intent_revision q) (tk_intent task))
  else
    let! _ := supersede_pending_questions generate session_id (q_task_id q) (tk_intent task) "state" in
    let! db := tx_get in
    if pending_question_exists (q_task_id q) db then tx_err (StoreConflict PendingQuestionExists)
    else if existsb (fun row => String.eqb (qr_id row) (q_question_id q)) (question_rows db)
    then tx_err (Storage ConstraintFailed)
    else
      let! _ := tx_modify (on_question_rows (fun rows => rows ++
                  [mkQuestionRow (q_question_id q) (q_task_id q) (q_question_revision q) (q_intent_revision q)
                     (q_prompt q) q QPending None None])) in
      let revision := (tk_revision task + 1)%Z in
      let! _ := tx_modify (TASK_SET_WAITING (q_task_id q) revision) in
      append_event generate session_id (Some (q_task_id q)) (q_task_id q, revision) "question.published"
        (QuestionPublished (q_question_id q) (q_question_revision q)) "state".

(** [publish_question]: the snapshot is read after the commit. *)
Definition publish_question (session_id : SessionId) (q : Question) (s : Store)
    : result TaskSnapshot StoreError * Store :=
  match transaction (insert_question session_id q) s with
  | (Ok _, s) => (snapshot (q_task_id q) s, s)
  | (Err e, s) => (Err e, s)
  end.

(** The transaction of [publish_plan_fork]. *)
Definition publish_plan_fork_tx (session_id : SessionId) (q : Question) (update : PlanRowUpdate) : stx unit :=
  let task_id := q_task_id q in
  let! _ := check_plan_binding task_id (up_selection_revision update) (up_facts_digest update) in
  let! task := task_row task_id in
  let! _ := if decide (tk_lifecycle task = LBlocked) then release_plan_owned_block task_id else tx_ret tt in
  let! _ := apply_plan_row_change task_id (up_capability update) (up_handler update) (up_change update) in
  let! _ := insert_question session_id q in
  settle_plan_state task_id.

(** [publish_plan_fork] *)
Definition publish_plan_fork (session_id : SessionId) (q : Question) (update : PlanRowUpdate) (s : Store)
    : result TaskSnapshot StoreError * Store :=
  match transaction (publish_plan_fork_tx session_id q update) s with
  | (Ok _, s) => (snapshot (q_task_id q) s, s)
  | (Err e, s) => (Err e, s)
  end.

(** [CURRENT_QUESTION] and [current_question] *)
Definition current_question_on (task_id : TaskId) (db : TaskDb) : option (Question * Z) :=
  match tasks db !! task_id with
  | None => None
  | Some task =>
      if lifecycle_is_terminal (tk_lifecycle task) then None
      else match pending_question task_id db with
           | None => None
           | Some q => if (q_intent_revision (qr_body q) =? tk_intent task)%Z
                       then Some (qr_body q, tk_revision task) else None
           end
  end.
Definition current_question (task_id : TaskId) (s : Store) : result (option (Question * Z)) StoreError :=
  read (fun db => Ok (current_question_on task_id db)) s.

(** ** Answers *)

(** The selection gate of [answer_question_commit]. *)
Definition check_selection (q : Question) (question_id : QuestionId) (selection : AnswerSelection)
    : result unit StoreError :=
  match selection with
  | SelOption named =>
      match find (fun o => String.eqb (option_id o) named) (q_options q) with
      | None => Err (StoreInvalidInput (UnknownOption named question_id))
      | Some o => match availability o with
                  | Disabled reason => Err (StoreInvalidInput (DisabledOption named reason))
                  | Enabled => Ok tt
                  end
      end
  | SelCustom text => if trim_is_empty text then Err (StoreInvalidInput EmptyCustomAnswer) else Ok tt
  end.

Definition answered_row (question_id : QuestionId) (answer_json author : string) (row : QuestionRow) : QuestionRow :=
  if String.eqb (qr_id row) question_id
  then mkQuestionRow (qr_id row) (qr_task row) (qr_revision row) (qr_intent row) (qr_prompt row) (qr_body row)
         QAnswered (Some answer_json) (Some author)
  else row.

Definition insert_answer_attempt (row : AnswerRow) : stx unit :=
  tx_modify (on_answer_rows (fun rows => rows ++ [row])).

(** [retain_answered_plan_fork] *)
Definition names_fork (question_id : QuestionId) (question_revision : Z) (row : PlanObligationRecord) : bool :=
  match b_condition <$> blocker row with
  | Some (ByDecision fork rev) => String.eqb fork question_id && (rev =? question_revision)%Z
  | _ => false
  end.
Definition with_outcome (outcome_json : string) (row : PlanObligationRecord) : PlanObligationRecord :=
  mkObligationRecord (capability row) (applicability row) (execution row) (stage row) (handler row) (blocker row)
    (Some outcome_json).
Definition retain_answered_plan_fork (task_id : TaskId) (question_id : QuestionId) (question_revision : Z) : stx unit :=
  let! db := tx_get in
  match plan_selection_on task_id db, find (names_fork question_id question_revision) (plan_rows_on task_id db) with
  | Some selection, Some row =>
      let identity := to_json (mkForkIdentity question_id question_revision (sel_revision selection)
                                 (sel_facts_digest selection)) in
      tx_modify (update_row task_id (capability row) (with_outcome identity))
  | _, _ => tx_ret tt
  end.

(** [answer_question_commit] *)
Definition answer_question_tx (session_id : SessionId) (task_id : TaskId) (question_id : QuestionId)
    (question_revision : Z) (selection : AnswerSelection) (author : string) : stx CommandResult :=
  let! task := task_row task_id in
  if lifecycle_is_terminal (tk_lifecycle task) then tx_err StoreAlreadyTerminal
  else
    let! db := tx_get in
    match find (fun row => String.eqb (qr_id row) question_id && String.eqb (qr_task row) task_id) (question_rows db) with
    | None => tx_err (StoreNotFound (MissingQuestion question_id))
    | Some row =>
        if negb (bool_decide (qr_state row = QPending)) then
          if negb (qr_intent row =? tk_intent task)%Z then tx_err (StoreStaleIntent (qr_intent row) (tk_intent task))
          else tx_err (StoreConflict QuestionNotPending)
        else if negb (qr_revision row =? question_revision)%Z
        then tx_err (StoreConflict (QuestionRevision question_revision (qr_revision row)))
        else if negb (q_intent_revision (qr_body row) =? tk_intent task)%Z
        then tx_err (StoreStaleIntent (q_intent_revision (qr_body row)) (tk_intent task))
        else
          let! _ := tx_lift (check_selection (qr_body row) question_id selection) in
          let answer_json := to_json selection in
          let! _ := tx_modify (on_question_rows (map (answered_row question_id answer_json author))) in
          let revision := (tk_revision task + 1)%Z in
          let! _ := tx_modify (TASK_SET_RUNNING task_id revision) in
          let! _ := append_event generate session_id (Some task_id) (task_id, revision) "question.answered"
                      (QuestionAnswered question_id author) author in
          let! _ := insert_answer_attempt
                      (mkAnswerRow question_id task_id question_revision answer_json author Applied None) in
          let! _ := retain_answered_plan_fork task_id question_id question_revision in
          let! _ := settle_plan_lifecycle task_id in
          let! sn := snapshot_in_tx task_id in
          tx_ret (mkCommandResult "applied" task_id (sn_revision sn) (tk_intent task) (sn_event_cursor sn) sn None)
    end.

(** [record_denied_attempt] *)
Definition record_denied_attempt (task_id : TaskId) (question_id : QuestionId) (question_revision : Z)
    (selection_json author denial : string) (s : Store) : result unit StoreError * Store :=
  transaction (insert_answer_attempt
    (mkAnswerRow question_id task_id question_revision selection_json author AttemptDenied (Some denial))) s.

(** [answer_question] *)
Definition answer_question (session_id : SessionId) (task_id : TaskId) (question_id : QuestionId)
    (question_revision : Z) (selection : AnswerSelection) (author : string) (s : Store)
    : result CommandResult StoreError * Store :=
  match transaction (answer_question_tx session_id task_id question_id question_revision selection author) s with
  | (Ok answer, s) => (Ok answer, s)
  | (Err e, s) =>
      match record_denied_attempt task_id question_id question_revision (to_json selection) author
              (denial_class e) s with
      | (Ok _, s) => (Err e, s)
      | (Err journal, s) => (Err (DenialJournalFailed e journal), s)
      end
  end.

(** [answer_attempts] *)
Definition attempt_view (id : Z) (row : AnswerRow) : AnswerAttempt :=
  mkAnswerAttempt id (aw_question row) (aw_task row) (aw_revision row)
    (default (SelCustom (aw_selection_json row)) (from_json (aw_selection_json row)))
    (aw_author row) (aw_outcome row) (aw_denial row).
Definition answer_attempts_on (task_id : TaskId) (db : TaskDb) : list AnswerAttempt :=
  omap (fun '(i, row) => if decide (aw_task row = task_id) then Some (attempt_view (Z.of_nat i + 1) row) else None)
    (imap (fun i row => (i, row)) (answer_rows db)).
Definition answer_attempts (task_id : TaskId) (s : Store) : result (list AnswerAttempt) StoreError :=
  read (fun db => Ok (answer_attempts_on task_id db)) s.

(** [latest_applied_answer_question] *)
Definition latest_applied_answer_question (task_id : TaskId) (s : Store) : result (option QuestionId) StoreError :=
  read (fun db => Ok (aw_question <$>
    last (filter (fun row => aw_task row = task_id /\ aw_outcome row = Applied) (answer_rows db)))) s.

(** [answered_question], and the origin of the bytes a request carries. *)
Definition answered_question (task_id : TaskId) (s : Store) : result (option (string * string)) StoreError :=
  read (fun db => Ok (
    row ← last (filter (fun q => qr_task q = task_id /\ qr_state q = QAnswered) (question_rows db));
    answer ← qr_answer_json row; origin ← qr_origin row; Some (answer, origin))) s.

Definition answer_input_origin (task_id : TaskId) (s : Store) : result InputOrigin StoreError :=
  let? answered := answered_question task_id s in
  Ok match answered with
     | Some (_, author) => if decide (author = "human") then OriginHuman else OriginTool
     | None => OriginTool
     end.

(** ** Control *)

(** [pause_for_workflow_off] *)
Definition pause_for_workflow_off_tx (session_id : SessionId) (task_id : TaskId) : stx bool :=
  let! task := task_row task_id in
  if decide (tk_lifecycle task = LRunning \/ tk_lifecycle task = LWaiting) then
    let! _ := tx_modify (PAUSE_TASK_FOR_WORKFLOW_OFF task_id) in
    let! _ := append_event generate session_id (Some task_id) (task_id, (tk_revision task + 1)%Z) "task.paused"
                (TaskPaused (tk_lifecycle task)) "runtime" in
    tx_ret true
  else tx_ret false.
Definition pause_for_workflow_off (session_id : SessionId) (task_id : TaskId) (s : Store) :=
  transaction (pause_for_workflow_off_tx session_id task_id) s.

(** [steer_task] *)
Definition steer_task_tx (session_id : SessionId) (task_id : TaskId) (expected_intent expected_revision : Z)
    (instruction : string) : stx CommandResult :=
  let! task := task_row task_id in
  if lifecycle_is_terminal (tk_lifecycle task) then tx_err (StoreConflict TerminalCannotReopen)
  else if negb (tk_intent task =? expected_intent)%Z then tx_err (StoreStaleIntent expected_intent (tk_intent task))
  else if negb (tk_revision task =? expected_revision)%Z
  then tx_err (StoreConflict (TaskRevision expected_revision (tk_revision task)))
  else
    let revision := (tk_revision task + 1)%Z in
    let intent := (tk_intent task + 1)%Z in
    let! _ := tx_modify (UPDATE_INTENT task_id revision intent) in
    let! _ := supersede_pending_questions generate session_id task_id intent "human" in
    let! _ := tx_modify (SUPERSESSION_RESUMES_TASK task_id) in
    let! _ := append_event generate session_id (Some task_id) (task_id, revision) "task.steered"
                (TaskSteered instruction) "human" in
    let! _ := tx_modify (RELEASE_WORKFLOW_OFF_PAUSE task_id) in
    let! _ := settle_plan_lifecycle task_id in
    let! sn := snapshot_in_tx task_id in
    tx_ret (mkCommandResult "applied" task_id (sn_revision sn) intent (sn_event_cursor sn) sn None).
Definition steer_task (session_id : SessionId) (task_id : TaskId) (expected_intent expected_revision : Z)
    (instruction : string) (s : Store) :=
  transaction (steer_task_tx session_id task_id expected_intent expected_revision instruction) s.

(** [cancel_task_with_origin] *)
Definition cancel_task_tx (session_id : SessionId) (task_id : TaskId) (expected_intent : Z)
    (reason : option string) (origin : string) : stx CommandResult :=
  let! task := task_row task_id in
  if negb (tk_intent task =? expected_intent)%Z then tx_err (StoreStaleIntent expected_intent (tk_intent task))
  else if lifecycle_is_terminal (tk_lifecycle task) then
    let! _ := supersede_terminal_questions generate session_id task_id (tk_lifecycle task) origin in
    let! sn := snapshot_in_tx task_id in
    tx_ret (mkCommandResult "already_terminal" task_id (tk_revision task) (tk_intent task) (sn_event_cursor sn) sn None)
  else
    let revision := (tk_revision task + 1)%Z in
    let! _ := tx_modify (CANCEL_TASK task_id revision) in
    let! _ := supersede_terminal_questions generate session_id task_id LCancelled origin in
    let! _ := append_event generate session_id (Some task_id) (task_id, revision) "task.cancelled"
                (TaskCancelled reason) origin in
    let! sn := snapshot_in_tx task_id in
    tx_ret (mkCommandResult "applied" task_id revision (tk_intent task) (sn_event_cursor sn) sn None).
Definition cancel_task_with_origin (session_id : SessionId) (task_id : TaskId) (expected_intent : Z)
    (reason : option string) (origin : string) (s : Store) :=
  transaction (cancel_task_tx session_id task_id expected_intent reason origin) s.
Definition cancel_task (session_id : SessionId) (task_id : TaskId) (expected_intent : Z)
    (reason : option string) (s : Store) :=
  cancel_task_with_origin session_id task_id expected_intent reason "human" s.

(** ** Effects, evidence and obligations *)

(** [format!("{class:?}").to_lowercase()] is the column's spelling of the class. *)
Definition plan_attempt_tx (task_id : TaskId) (class : EffectClass) (describe : string) : stx string :=
  let! id := fresh_id generate in
  fun db => if existsb (fun a => String.eqb (at_id a) id) (attempt_rows db) then Err (Storage ConstraintFailed)
            else Ok (id, on_attempt_rows (fun rows => rows ++
                   [mkAttempt id task_id ("action-" +:+ id) class describe "planned" None]) db).
Definition plan_attempt (task_id : TaskId) (class : EffectClass) (describe : string) (s : Store) :=
  transaction (plan_attempt_tx task_id class describe) s.

(** [set_attempt_state] *)
Definition set_attempt_state_tx (attempt_id state : string) (detail : option string) : stx unit :=
  let! db := tx_get in
  if existsb (fun a => String.eqb (at_id a) attempt_id) (attempt_rows db) then
    tx_modify (on_attempt_rows (map (fun a =>
      if String.eqb (at_id a) attempt_id
      then mkAttempt (at_id a) (at_task a) (at_action a) (at_class a) (at_describe a) state detail else a)))
  else tx_err (StoreNotFound (MissingAttempt attempt_id)).
Definition set_attempt_state (attempt_id state : string) (detail : option string) (s : Store) :=
  transaction (set_attempt_state_tx attempt_id state detail) s.
Definition attempt_running (attempt_id : string) (s : Store) := set_attempt_state attempt_id "running" None s.
Definition attempt_confirmed (attempt_id : string) (s : Store) := set_attempt_state attempt_id "confirmed" None s.
Definition attempt_rejected (attempt_id detail : string) (s : Store) :=
  set_attempt_state attempt_id "rejected" (Some detail) s.
Definition attempt_unknown (attempt_id detail : string) (s : Store) :=
  set_attempt_state attempt_id "unknown" (Some detail) s.

(** [attempt_state], [attempt_record], [latest_unresolved_attempt] *)
Definition attempt_record (attempt_id : string) (s : Store)
    : result (option (string * string * option string)) StoreError :=
  read (fun db => Ok ((fun a => (at_task a, at_state a, at_detail a)) <$>
    find (fun a => String.eqb (at_id a) attempt_id) (attempt_rows db))) s.
Definition attempt_state (attempt_id : string) (s : Store) : result (option string) StoreError :=
  read (fun db => Ok (at_state <$> find (fun a => String.eqb (at_id a) attempt_id) (attempt_rows db))) s.
Definition latest_unresolved_attempt (task_id : TaskId) (s : Store) : result (option string) StoreError :=
  read (fun db => Ok (at_id <$> last (filter (fun a => at_task a = task_id /\
    (at_state a = "running" \/ at_state a = "unknown")) (attempt_rows db)))) s.

Definition satisfy_obligation (obligation_id : string) (o : ObligationRow) : ObligationRow :=
  if String.eqb (ob_id o) obligation_id
  then mkObligationRow (ob_id o) (ob_task o) (ob_criterion o) (ob_applicability o) Satisfied else o.

(** [INSERT_EVIDENCE] and [SATISFY_OBLIGATION] for one obligation. *)
Definition support_obligation (task_id : TaskId) (scope observation digest obligation_id : string) : stx string :=
  let! id := fresh_id generate in
  let! _ := (fun db =>
    if existsb (fun e => String.eqb (ed_id e) id) (evidence_rows db) then Err (Storage ConstraintFailed)
    else Ok (tt, on_evidence_rows (fun rows => rows ++
           [mkEvidenceRow id task_id scope observation digest Current obligation_id]) db)) : stx unit in
  let! _ := tx_modify (on_obligation_rows (map (satisfy_obligation obligation_id))) in
  tx_ret id.

Definition obligations_for (task_id : TaskId) (db : TaskDb) : list ObligationRow :=
  filter (fun o => ob_task o = task_id) (obligation_rows db).

(** [insert_evidence]: three autocommit statements under the one owner. *)
Definition insert_evidence_tx (task_id : TaskId) (obligation_index : nat) (scope observation digest : string)
    : stx string :=
  let! db := tx_get in
  match obligations_for task_id db !! obligation_index with
  | None => tx_err (StoreNotFound MissingObligation)
  | Some o => support_obligation task_id scope observation digest (ob_id o)
  end.
Definition insert_evidence (task_id : TaskId) (obligation_index : nat) (scope observation digest : string) (s : Store) :=
  transaction (insert_evidence_tx task_id obligation_index scope observation digest) s.

(** [insert_evidence_for_task] *)
Definition insert_evidence_for_task_tx (task_id : TaskId) (scope observation digest : string) : stx unit :=
  let! db := tx_get in
  tx_iter (fun o => let! _ := support_obligation task_id scope observation digest (ob_id o) in tx_ret tt)
    (obligations_for task_id db).
Definition insert_evidence_for_task (task_id : TaskId) (scope observation digest : string) (s : Store) :=
  transaction (insert_evidence_for_task_tx task_id scope observation digest) s.

Definition mark_stale (evidence_id : string) (e : EvidenceRow) : EvidenceRow :=
  if String.eqb (ed_id e) evidence_id
  then mkEvidenceRow (ed_id e) (ed_task e) (ed_scope e) (ed_observation e) (ed_digest e) StaleEvidence (ed_obligation e)
  else e.
(** [STALE_OBLIGATION], [UNRESOLVED_APPLICABILITY], [REOPEN_OBLIGATION] *)
Definition change_obligation (obligation_id : string) (a : option ObligationApplicability)
    (e : option ObligationExecution) (o : ObligationRow) : ObligationRow :=
  if String.eqb (ob_id o) obligation_id
  then mkObligationRow (ob_id o) (ob_task o) (ob_criterion o) (default (ob_applicability o) a)
         (default (ob_execution o) e)
  else o.

(** [TASK_ID_FOR_OBLIGATION]; a missing row is the database's refusal. *)
Definition task_of_obligation (obligation_id : string) : stx TaskId :=
  fun db => match find (fun o => String.eqb (ob_id o) obligation_id) (obligation_rows db) with
            | Some o => Ok (ob_task o, db)
            | None => Err (Storage ConstraintFailed)
            end.

(** [invalidate_evidence] *)
Definition invalidate_evidence_tx (evidence_id : string) : stx TaskId :=
  let! db := tx_get in
  match find (fun e => String.eqb (ed_id e) evidence_id) (evidence_rows db) with
  | None => tx_err (StoreNotFound (MissingEvidence_ evidence_id))
  | Some e =>
      let! _ := tx_modify (on_evidence_rows (map (mark_stale evidence_id))) in
      let! _ := tx_modify (on_obligation_rows
                  (map (change_obligation (ed_obligation e) (Some Unresolved) (Some Stale)))) in
      let! task_id := task_of_obligation (ed_obligation e) in
      let! _ := block_foreign task_id BLOCK_TASK_NOT_CANCELLED in
      tx_ret task_id
  end.
Definition invalidate_evidence (evidence_id : string) (s : Store) := transaction (invalidate_evidence_tx evidence_id) s.

(** [mark_applicability_unresolved] *)
Definition mark_applicability_unresolved_tx (obligation_id : string) : stx (option TaskId) :=
  let! db := tx_get in
  if existsb (fun o => String.eqb (ob_id o) obligation_id) (obligation_rows db) then
    let! _ := tx_modify (on_obligation_rows (map (change_obligation obligation_id (Some Unresolved) None))) in
    let! task_id := task_of_obligation obligation_id in
    let! _ := tx_modify (unresolve_plan_rows task_id) in
    let! _ := block_foreign task_id BLOCK_TASK_NOT_CANCELLED in
    tx_ret (Some task_id)
  else tx_err (StoreNotFound MissingObligation).
Definition mark_applicability_unresolved (obligation_id : string) (s : Store)
    : result (option TaskId) StoreError * Store :=
  if String.prefix PLAN_OBLIGATION_PREFIX obligation_id then (Ok None, s)
  else transaction (mark_applicability_unresolved_tx obligation_id) s.

(** [evidence_validity], [evidence_for_task] *)
Definition evidence_validity (evidence_id : string) (s : Store) : result (option EvidenceValidity) StoreError :=
  read (fun db => Ok (ed_validity <$> find (fun e => String.eqb (ed_id e) evidence_id) (evidence_rows db))) s.
Definition evidence_for_task (task_id : TaskId) (s : Store) : result (list EvidenceRow) StoreError :=
  read (fun db => Ok (filter (fun e => ed_task e = task_id) (evidence_rows db))) s.

(** [mark_outcome_unknown], [mark_no_ready] *)
Definition mark_outcome_unknown (task_id : TaskId) (s : Store) :=
  transaction (block_foreign task_id BLOCK_TASK_OPEN) s.
Definition mark_no_ready (task_id : TaskId) (s : Store) :=
  transaction (block_foreign task_id BLOCK_TASK_OPEN) s.

(** [materialize_obligations]: one autocommit insert per missing criterion, so
    those before a refused one stay. *)
Definition missing_obligations (task_id : TaskId) (db : TaskDb) : list CriterionId :=
  map ck_id (filter (fun c => ck_task c = task_id /\
    existsb (fun o => String.eqb (ob_task o) task_id && String.eqb (ob_criterion o) (ck_id c)) (obligation_rows db) = false)
    (criteria_rows db)).
Definition insert_obligation (task_id : TaskId) (criterion_id : CriterionId) : stx unit :=
  let! id := fresh_id generate in
  fun db => if existsb (fun o => String.eqb (ob_id o) id) (obligation_rows db) then Err (Storage ConstraintFailed)
            else Ok (tt, on_obligation_rows (fun rows => rows ++
                   [mkObligationRow id task_id criterion_id Required Pending]) db).
Fixpoint insert_obligations (task_id : TaskId) (missing : list CriterionId) (s : Store)
    : result unit StoreError * Store :=
  match missing with
  | [] => (Ok tt, s)
  | criterion_id :: missing =>
      match transaction (insert_obligation task_id criterion_id) s with
      | (Ok _, s) => insert_obligations task_id missing s
      | (Err e, s) => (Err e, s)
      end
  end.
Definition materialize_obligations (task_id : TaskId) (s : Store) : result unit StoreError * Store :=
  match conn_mut s with
  | Err e => (Err e, s)
  | Ok db => insert_obligations task_id (missing_obligations task_id db) s
  end.

(** [delete_scoped_record] *)
Definition delete_scoped_record_tx (task_id : TaskId) (evidence_id : string) : stx unit :=
  let! db := tx_get in
  match find (fun e => String.eqb (ed_id e) evidence_id && String.eqb (ed_task e) task_id) (evidence_rows db) with
  | None => tx_err (StoreNotFound (MissingEvidence_ evidence_id))
  | Some e =>
      let! _ := tx_modify (on_evidence_rows (filter (fun e => ~ (ed_id e = evidence_id /\ ed_task e = task_id)))) in
      let! db := tx_get in
      if existsb (fun other => String.eqb (ed_obligation other) (ed_obligation e)) (evidence_rows db)
      then tx_ret tt
      else tx_modify (on_obligation_rows (map (change_obligation (ed_obligation e) None (Some Pending))))
  end.
Definition delete_scoped_record (task_id : TaskId) (evidence_id : string) (s : Store) :=
  transaction (delete_scoped_record_tx task_id evidence_id) s.

(** ** Completion *)

(** [COMPLETION_COUNTS] and [STALE_EVIDENCE_COUNT] *)
Definition unsatisfied_total (task_id : TaskId) (db : TaskDb) : nat :=
  length (filter (fun o => ob_task o = task_id /\ ob_execution o <> Satisfied) (obligation_rows db)) +
  length (filter (fun row => execution row <> Satisfied) (plan_rows_on task_id db)).
Definition unresolved_total (task_id : TaskId) (db : TaskDb) : nat :=
  unresolved_count task_id db +
  length (filter (fun row => applicability row = Unresolved) (plan_rows_on task_id db)).
Definition stale_total (task_id : TaskId) (db : TaskDb) : nat :=
  length (flat_map (fun e =>
    if decide (ed_validity e = StaleEvidence)
    then filter (fun o => ob_id o = ed_obligation e /\ ob_task o = task_id) (obligation_rows db)
    else []) (evidence_rows db)).

(** [complete_if_eligible]: the answer of a task that is still open commits its
    pause and is refused after the commit. *)
Definition complete_task_tx (session_id : SessionId) (task_id : TaskId) : stx (result TaskSnapshot StoreError) :=
  let! task := task_row task_id in
  if lifecycle_is_terminal (tk_lifecycle task) then tx_err (StoreConflict TaskAlreadyTerminal)
  else
    let! db := tx_get in
    let unsatisfied := unsatisfied_total task_id db in
    let unresolved := unresolved_total task_id db in
    let unknown := unknown_count task_id db in
    if (0 <? unsatisfied) || (0 <? unresolved) || (0 <? unknown) then
      let! _ := tx_modify (PAUSE_RUNNING_TASK task_id) in
      tx_ret (Err (StoreConflict (CompletionOpen (Z.of_nat unsatisfied) (Z.of_nat unresolved) (Z.of_nat unknown))))
    else if 0 <? stale_total task_id db
    then tx_err (StoreConflict (CompletionStale (Z.of_nat (stale_total task_id db))))
    else
      let revision := (tk_revision task + 1)%Z in
      let! _ := tx_modify (COMPLETE_TASK task_id revision) in
      let! _ := supersede_terminal_questions generate session_id task_id LCompleted "state" in
      let! _ := append_event generate session_id (Some task_id) (task_id, revision) "task.completed"
                  TaskCompleted "state" in
      let! sn := snapshot_in_tx task_id in
      tx_ret (Ok sn).
Definition complete_if_eligible (session_id : SessionId) (task_id : TaskId) (s : Store)
    : result TaskSnapshot StoreError * Store :=
  match transaction (complete_task_tx session_id task_id) s with
  | (Ok (Ok sn), s) => (Ok sn, s)
  | (Ok (Err e), s) => (Err e, s)
  | (Err e, s) => (Err e, s)
  end.
End Operations.
