(* ===== verification/TaskCalls.v ===== *)
(** The calls of the task store as data, so that a run is a sequence of calls: the
    write operations of [PlanGate] and [TaskStore], each with its arguments. *)

From S2P Require Import Prelude.
From S2P Require Import Contracts.
From S2P Require Import Store.
From S2P Require Import TaskDb.
From S2P Require Import PlanGate.
From S2P Require Import TaskStore.

Inductive TaskCall :=
  | CreateTask (session : SessionId) (command principal goal : string) (criteria constraints : list string)
  | PublishQuestion (session : SessionId) (question : Question)
  | PublishPlanFork (session : SessionId) (question : Question) (update : PlanRowUpdate)
  | AnswerQuestion (session : SessionId) (task : TaskId) (question : QuestionId) (revision : Z)
      (selection : AnswerSelection) (author : string)
  | RecordDenied (task : TaskId) (question : QuestionId) (revision : Z) (selection_json author denial : string)
  | PauseForWorkflowOff (session : SessionId) (task : TaskId)
  | SteerTask (session : SessionId) (task : TaskId) (intent revision : Z) (instruction : string)
  | CancelTask (session : SessionId) (task : TaskId) (intent : Z) (reason : option string) (origin : string)
  | PlanAttempt (task : TaskId) (class : EffectClass) (describe : string)
  | SetAttemptState (attempt state : string) (detail : option string)
  | InsertEvidence (task : TaskId) (index : nat) (scope observation digest : string)
  | InsertEvidenceForTask (task : TaskId) (scope observation digest : string)
  | InvalidateEvidence (evidence : string)
  | MarkApplicabilityUnresolved (obligation : string)
  | MarkPlanApplicabilityUnresolved (task : TaskId)
  | MarkOutcomeUnknown (task : TaskId)
  | MarkNoReady (task : TaskId)
  | MaterializeObligations (task : TaskId)
  | DeleteScopedRecord (task : TaskId) (evidence : string)
  | CompleteIfEligible (session : SessionId) (task : TaskId)
  | RecordPlanSelection (session : SessionId) (task : TaskId) (selection : PlanSelectionWrite)
  | UpdatePlanRow (task : TaskId) (update : PlanRowUpdate)
  | RecordPlanRevision (task : TaskId) (write : PlanRevisionWrite)
  | RecordPlanAssessment (task : TaskId) (assessment : PlanAssessmentWrite)
  | HoldForPlanGate (task : TaskId) (observed : PlanGateHold).

Section Calls.
Context `{JsonCodec AnswerSelection} `{JsonCodec CommandResult} `{JsonCodec AnsweredForkIdentity}.
Context `{JsonCodec (SessionId * string * string * list string * list string)}.
Variable generate : nat -> string.
Variable sha256_hex : string -> string.

(** The store after a call. *)
Definition call (c : TaskCall) (s : Store) : Store :=
  match c with
  | CreateTask session command principal goal criteria constraints =>
      (create_task generate sha256_hex session command principal goal criteria constraints s).2
  | PublishQuestion session question => (publish_question generate session question s).2
  | PublishPlanFork session question update => (publish_plan_fork generate session question update s).2
  | AnswerQuestion session task question revision selection author =>
      (answer_question generate session task question revision selection author s).2
  | RecordDenied task question revision selection_json author denial =>
      (record_denied_attempt task question revision selection_json author denial s).2
  | PauseForWorkflowOff session task => (pause_for_workflow_off generate session task s).2
  | SteerTask session task intent revision instruction =>
      (steer_task generate session task intent revision instruction s).2
  | CancelTask session task intent reason origin =>
      (cancel_task_with_origin generate session task intent reason origin s).2
  | PlanAttempt task class describe => (plan_attempt generate task class describe s).2
  | SetAttemptState attempt state detail => (set_attempt_state attempt state detail s).2
  | InsertEvidence task index scope observation digest =>
      (insert_evidence generate task index scope observation digest s).2
  | InsertEvidenceForTask task scope observation digest =>
      (insert_evidence_for_task generate task scope observation digest s).2
  | InvalidateEvidence evidence => (invalidate_evidence evidence s).2
  | MarkApplicabilityUnresolved obligation => (mark_applicability_unresolved obligation s).2
  | MarkPlanApplicabilityUnresolved task => (mark_plan_applicability_unresolved task s).2
  | MarkOutcomeUnknown task => (mark_outcome_unknown task s).2
  | MarkNoReady task => (mark_no_ready task s).2
  | MaterializeObligations task => (materialize_obligations generate task s).2
  | DeleteScopedRecord task evidence => (delete_scoped_record task evidence s).2
  | CompleteIfEligible session task => (complete_if_eligible generate session task s).2
  | RecordPlanSelection session task selection => (record_plan_selection generate session task selection s).2
  | UpdatePlanRow task update => (update_plan_row task update s).2
  | RecordPlanRevision task write => (record_plan_revision task write s).2
  | RecordPlanAssessment task assessment => (record_plan_assessment task assessment s).2
  | HoldForPlanGate task observed => (hold_for_plan_gate task observed s).2
  end.

(** A run of calls, one after the other. *)
Definition calls (cs : list TaskCall) (s : Store) : Store := fold_left (fun s c => call c s) cs s.

(** The single transactions a call is made of, but for the one that completes. *)
Inductive PlainTx : forall A, stx A -> Prop :=
  | tx_create session command principal goal criteria constraints digest :
      PlainTx _ (create_task_tx generate sha256_hex session command principal goal criteria constraints digest)
  | tx_publish session question : PlainTx _ (insert_question generate session question)
  | tx_fork session question update : PlainTx _ (publish_plan_fork_tx generate session question update)
  | tx_answer session task question revision selection author :
      PlainTx _ (answer_question_tx generate session task question revision selection author)
  | tx_denied task question revision selection_json author denial :
      PlainTx _ (insert_answer_attempt
                  (mkAnswerRow question task revision selection_json author AttemptDenied (Some denial)))
  | tx_pause session task : PlainTx _ (pause_for_workflow_off_tx generate session task)
  | tx_steer session task intent revision instruction :
      PlainTx _ (steer_task_tx generate session task intent revision instruction)
  | tx_cancel session task intent reason origin : PlainTx _ (cancel_task_tx generate session task intent reason origin)
  | tx_plan_attempt task class describe : PlainTx _ (plan_attempt_tx generate task class describe)
  | tx_set_attempt attempt state detail : PlainTx _ (set_attempt_state_tx attempt state detail)
  | tx_evidence task index scope observation digest :
      PlainTx _ (insert_evidence_tx generate task index scope observation digest)
  | tx_evidence_all task scope observation digest :
      PlainTx _ (insert_evidence_for_task_tx generate task scope observation digest)
  | tx_invalidate evidence : PlainTx _ (invalidate_evidence_tx evidence)
  | tx_mark obligation : PlainTx _ (mark_applicability_unresolved_tx obligation)
  | tx_mark_plan task : PlainTx _ (mark_plan_applicability_unresolved_tx task)
  | tx_block task : PlainTx _ (block_foreign task BLOCK_TASK_OPEN)
  | tx_obligation task criterion : PlainTx _ (insert_obligation generate task criterion)
  | tx_delete task evidence : PlainTx _ (delete_scoped_record_tx task evidence)
  | tx_select session task selection : PlainTx _ (record_plan_selection_tx generate session task selection)
  | tx_update task update : PlainTx _ (update_plan_row_tx task update)
  | tx_revision task write : PlainTx _ (record_plan_revision_tx task write)
  | tx_assess task assessment : PlainTx _ (record_plan_assessment_tx task assessment)
  | tx_hold task observed : PlainTx _ (hold_for_plan_gate_tx task observed).

(** All the transactions calls are made of. *)
Inductive TaskTx : forall A, stx A -> Prop :=
  | tx_plain A m : PlainTx A m -> TaskTx A m
  | tx_complete session task : TaskTx _ (complete_task_tx generate session task).

(** What the databases of a store go through: committed transactions. *)
Definition commits (db db' : TaskDb) : Prop :=
  exists A (m : stx A) a, TaskTx A m /\ m db = Ok (a, db').
Definition plain_commits (db db' : TaskDb) : Prop :=
  exists A (m : stx A) a, PlainTx A m /\ m db = Ok (a, db').

(** The store of a fresh database. *)
Definition empty_db : TaskDb := mkTaskDb ∅ [] [] [] [] [] [] [] [] [] ∅ ∅ ∅ ∅ ∅ 0.
Definition fresh_store : Store := mkTaskStore (Some empty_db) false true.

(** * From calls to transactions *)

Lemma transaction_plain {A} (m : stx A) s db' :
  PlainTx A m -> ts_conn (transaction m s).2 = Some db' ->
  exists db, ts_conn s = Some db /\ rtc plain_commits db db'.
Proof.
  intros Hm [Hs|(db & a & Hs & Hr)]%transaction_db; [by exists db'|].
  exists db. split; [done|]. apply rtc_once. by exists A, m, a.
Qed.

Lemma insert_obligations_commits task missing s db' :
  ts_conn (insert_obligations generate task missing s).2 = Some db' ->
  exists db, ts_conn s = Some db /\ rtc plain_commits db db'.
Proof.
  revert s. induction missing as [|criterion missing IH]; intros s; simpl; [by intros; exists db'|].
  destruct (transaction _ s) as [[a|e] s1] eqn:Ht; simpl.
  - intros (db1 & Hn1 & Hr)%IH. destruct (transaction_plain (insert_obligation generate task criterion) s db1)
      as (db & Hs & Hr'); [constructor|by rewrite Ht|]. exists db. split; [done|]. by etrans.
  - intros Hn1. apply (transaction_plain (insert_obligation generate task criterion)); [constructor|by rewrite Ht].
Qed.

(** A call that is no completion commits plain transactions, or leaves the
    database alone. *)
Definition completes (c : TaskCall) : bool := match c with CompleteIfEligible _ _ => true | _ => false end.

Lemma call_plain c s db' :
  completes c = false -> ts_conn (call c s) = Some db' -> exists db, ts_conn s = Some db /\ rtc plain_commits db db'.
Proof.
  assert (Hsame : ts_conn s = Some db' -> exists db, ts_conn s = Some db /\ rtc plain_commits db db') by (by exists db').
  assert (Htx : forall A (m : stx A), PlainTx A m -> ts_conn (transaction m s).2 = Some db' ->
    exists db, ts_conn s = Some db /\ rtc plain_commits db db') by (intros; by eapply transaction_plain).
  destruct c; intros Hc; try discriminate Hc; clear Hc; simpl; try (apply Htx; constructor).
  - unfold create_task. destruct (_ || _); [done|]. destruct (conn s) as [db|]; [|done].
    destruct (receipt_on _ _) as [[digest result_json]|].
    + destruct (negb _); [done|]. by destruct (from_json _).
    + apply Htx. constructor.
  - unfold publish_question. destruct (transaction _ s) as [[]] eqn:Ht; simpl;
      intros; (eapply Htx; [constructor|by rewrite Ht]).
  - unfold publish_plan_fork. destruct (transaction _ s) as [[]] eqn:Ht; simpl;
      intros; (eapply Htx; [constructor|by rewrite Ht]).
  - unfold answer_question. destruct (transaction _ s) as [[] s1] eqn:Ht; simpl.
    + intros. eapply Htx; [constructor|by rewrite Ht].
    + assert (s1 = s) as -> by (pose proof (transaction_Err _ s e ltac:(by rewrite Ht)) as E; by rewrite Ht in E).
      intros Hd. apply (Htx _ (insert_answer_attempt
        (mkAnswerRow question task revision (to_json selection) author AttemptDenied (Some (denial_class e)))));
        [constructor|].
      revert Hd. unfold record_denied_attempt. by destruct (transaction (insert_answer_attempt _) s) as [[]].
  - unfold mark_applicability_unresolved. destruct (String.prefix _ _); [done|]. apply Htx. constructor.
  - unfold materialize_obligations. destruct (conn_mut s) as [db|]; [|done]. apply insert_obligations_commits.
Qed.

(** A completion call runs its one transaction. *)
Lemma call_completing session task s db' :
  ts_conn (call (CompleteIfEligible session task) s) = Some db' ->
  ts_conn s = Some db' \/
  exists db a, ts_conn s = Some db /\ complete_task_tx generate session task db = Ok (a, db').
Proof.
  simpl. unfold complete_if_eligible. intros Hn. apply transaction_db.
  revert Hn. by destruct (transaction _ s) as [[[]|]].
Qed.

Lemma plain_commit db db' : plain_commits db db' -> commits db db'.
Proof. intros (A & m & a & Hm & He). exists A, m, a. split; [by apply tx_plain|done]. Qed.

(** A call commits transactions, or leaves the database alone. *)
Lemma call_commits c s db' :
  ts_conn (call c s) = Some db' -> exists db, ts_conn s = Some db /\ rtc commits db db'.
Proof.
  intros Hn. destruct (completes c) eqn:Hc.
  - destruct c; try discriminate Hc. apply call_completing in Hn as [Hn|(db & a & Hs & Hr)]; [by exists db'|].
    exists db. split; [done|]. apply rtc_once. eexists _, _, a. by split; [apply tx_complete|].
  - destruct (call_plain c s db' Hc Hn) as (db & Hs & Hr). exists db. split; [done|].
    eapply rtc_subrel; [|exact Hr]. intros; by apply plain_commit.
Qed.

Lemma calls_commits cs s db' :
  ts_conn (calls cs s) = Some db' -> exists db, ts_conn s = Some db /\ rtc commits db db'.
Proof.
  revert s. induction cs as [|c cs IH]; intros s; simpl; [by intros; exists db'|].
  intros (db1 & Hn1 & Hr)%IH. apply call_commits in Hn1 as (db & Hs & Hr'). exists db. split; [done|]. by etrans.
Qed.

(** A relation every transaction respects relates the databases of a run, and a
    property every transaction keeps holds after it. *)
Lemma commits_relation (R : relation TaskDb) `{!PreOrder R} db db' :
  (forall A (m : stx A) db a db', TaskTx A m -> m db = Ok (a, db') -> R db db') -> rtc commits db db' -> R db db'.
Proof.
  intros HR. induction 1 as [db|db db1 db' (A & m & a & Hm & He) _ IH]; [reflexivity|].
  etrans; [by eapply HR|done].
Qed.

Lemma calls_relation (R : relation TaskDb) `{!PreOrder R} cs s db db' :
  (forall A (m : stx A) db a db', TaskTx A m -> m db = Ok (a, db') -> R db db') ->
  ts_conn s = Some db -> ts_conn (calls cs s) = Some db' -> R db db'.
Proof.
  intros HR Hs (db0 & Hs0 & Hr)%calls_commits. rewrite Hs in Hs0. injection Hs0 as <-. by apply commits_relation.
Qed.

Lemma commits_invariant (P : TaskDb -> Prop) db db' :
  (forall A (m : stx A) db a db', TaskTx A m -> P db -> m db = Ok (a, db') -> P db') ->
  P db -> rtc commits db db' -> P db'.
Proof.
  intros HP Hdb. induction 1 as [db|db db1 db' (A & m & a & Hm & He) _ IH]; [done|]. eapply IH, HP; [done|done|done].
Qed.

Lemma calls_invariant (P : TaskDb -> Prop) cs s db db' :
  (forall A (m : stx A) db a db', TaskTx A m -> P db -> m db = Ok (a, db') -> P db') ->
  ts_conn s = Some db -> P db -> ts_conn (calls cs s) = Some db' -> P db'.
Proof.
  intros HP Hs Hdb (db0 & Hs0 & Hr)%calls_commits. rewrite Hs in Hs0. injection Hs0 as <-. by eapply commits_invariant.
Qed.
End Calls.
