(* ===== verification/TaskStoreThms.v ===== *)
(** Lemmas on the statements and transactions of [TaskDb], [PlanGate] and
    [TaskStore]: what each writes, and the relations between the databases before
    and after that hold for every call. *)

From stdpp Require Import sorting.
From S2P Require Import Prelude.
From S2P Require Import Contracts.
From S2P Require Import Text.
From S2P Require Import Requests.
From S2P Require Import Store.
From S2P Require Import Actions.
From S2P Require Import Procedure.
From S2P Require Import TaskDb.
From S2P Require Import PlanGate.
From S2P Require Import TaskStore.
From S2P Require Import TaskCalls.

(** * Transactions that respect a relation *)

Section Tracks.
Context (R : relation TaskDb) {HR : PreOrder R}.

(** Whatever the transaction answers, the databases are related. *)
Definition tracks {A} (m : stx A) : Prop := forall db a db', m db = Ok (a, db') -> R db db'.

Lemma tracks_ret {A} (a : A) : tracks (tx_ret a).
Proof. intros db x db' [= <- <-]. reflexivity. Qed.

Lemma tracks_err {A} e : tracks (tx_err e : stx A).
Proof. by intros db x db'. Qed.

Lemma tracks_get : tracks tx_get.
Proof. intros db x db' [= <- <-]. reflexivity. Qed.

Lemma tracks_modify f : (forall db, R db (f db)) -> tracks (tx_modify f).
Proof. intros Hf db x db' [= <- <-]. apply Hf. Qed.

Lemma tracks_lift {A} (r : result A StoreError) : tracks (tx_lift r).
Proof. intros db x db'. unfold tx_lift. destruct r; [|done]. intros [= <- <-]. reflexivity. Qed.

Lemma tracks_read {A} (f : TaskDb -> result A StoreError) : tracks (tx_read f).
Proof. intros db x db'. unfold tx_read. destruct (f db); [|done]. intros [= <- <-]. reflexivity. Qed.

Lemma tracks_bind {A B} (m : stx A) (k : A -> stx B) :
  tracks m -> (forall a, tracks (k a)) -> tracks (tx_bind k m).
Proof.
  intros Hm Hk db b db'' (a & db' & H1 & H2)%tx_bind_Ok. etrans; [by eapply Hm|by eapply Hk].
Qed.

Lemma tracks_iter {A} (f : A -> stx unit) l : (forall a, tracks (f a)) -> tracks (tx_iter f l).
Proof.
  intros Hf. induction l as [|a l IH]; simpl; [apply tracks_ret|]. apply tracks_bind; [apply Hf|]. by intros _.
Qed.

Lemma tracks_row task_id : tracks (task_row task_id).
Proof. intros db x db'. unfold task_row. destruct (tasks db !! task_id); [|done]. intros [= <- <-]. reflexivity. Qed.

(** A guarded statement: refused, or an update. *)
Lemma tracks_guarded {A} (g : TaskDb -> bool) (e : StoreError) (a : A) (f : TaskDb -> TaskDb) :
  (forall db, R db (f db)) -> tracks (fun db => if g db then Err e else Ok (a, f db)).
Proof. intros Hf db x db'. destruct (g db); [done|]. intros [= <- <-]. apply Hf. Qed.
End Tracks.

(** Splits a transaction into its statements. *)
Ltac track :=
  repeat first
    [ match goal with |- PreOrder _ => apply _ end
    | solve [auto 2 with track nocore]
    | apply tracks_ret | apply tracks_err | apply tracks_get | apply tracks_lift | apply tracks_read
    | apply tracks_row
    | apply tracks_modify; intros ?; solve [auto 2 with track nocore]
    | apply tracks_iter; [apply _|..|intros ?]
    | apply tracks_bind; [apply _|..|intros ?]
    | progress cbv zeta
    | match goal with
      | |- tracks _ (match ?x with _ => _ end) => destruct x
      end ].

Create HintDb track.

(** * What no call undoes *)

Definition cursors (db : TaskDb) : list Z := map ev_cursor (event_rows db).

(** The journals only grow, in increasing cursor order, and an unresolved
    obligation stays unresolved. *)
Record history (db db' : TaskDb) : Prop := mkHistory {
  hi_events : exists events, event_rows db' = event_rows db ++ events;
  hi_cursors : StronglySorted Z.lt (cursors db) -> StronglySorted Z.lt (cursors db');
  hi_answers : exists answers, answer_rows db' = answer_rows db ++ answers;
  hi_unresolved : forall o, o ∈ obligation_rows db -> ob_applicability o = Unresolved ->
    exists o', o' ∈ obligation_rows db' /\ ob_id o' = ob_id o /\ ob_task o' = ob_task o /\
      ob_applicability o' = Unresolved;
}.

#[export] Instance history_preorder : PreOrder history.
Proof.
  split.
  - intros db. split; [by exists []; rewrite app_nil_r|done|by exists []; rewrite app_nil_r|]. intros o Ho Hu. by exists o.
  - intros a b c [[e1 E1] C1 [w1 W1] U1] [[e2 E2] C2 [w2 W2] U2]. split.
    + exists (e1 ++ e2). by rewrite E2, E1, app_assoc.
    + auto.
    + exists (w1 ++ w2). by rewrite W2, W1, app_assoc.
    + intros o Ho Hu. destruct (U1 o Ho Hu) as (o1 & Ho1 & <- & <- & Hu1). by apply U2.
Qed.

Lemma history_frame db db' :
  event_rows db' = event_rows db -> answer_rows db' = answer_rows db -> obligation_rows db' = obligation_rows db ->
  history db db'.
Proof.
  intros He Ha Ho. split; unfold cursors; rewrite ?He, ?Ha, ?Ho; [by exists []; rewrite app_nil_r|done|
    by exists []; rewrite app_nil_r|]. intros o Hin Hu. by exists o.
Qed.

Lemma history_tasks f db : history db (on_tasks f db). Proof. by apply history_frame. Qed.
Lemma history_criteria f db : history db (on_criteria_rows f db). Proof. by apply history_frame. Qed.
Lemma history_constraints f db : history db (on_constraint_rows f db). Proof. by apply history_frame. Qed.
Lemma history_evidence f db : history db (on_evidence_rows f db). Proof. by apply history_frame. Qed.
Lemma history_questions f db : history db (on_question_rows f db). Proof. by apply history_frame. Qed.
Lemma history_receipts f db : history db (on_receipt_rows f db). Proof. by apply history_frame. Qed.
Lemma history_attempts f db : history db (on_attempt_rows f db). Proof. by apply history_frame. Qed.
Lemma history_selections f db : history db (on_plan_selections f db). Proof. by apply history_frame. Qed.
Lemma history_plan_rows f db : history db (on_plan_rows f db). Proof. by apply history_frame. Qed.
Lemma history_revisions f db : history db (on_plan_revisions f db). Proof. by apply history_frame. Qed.
Lemma history_holds f db : history db (on_plan_gate_holds f db). Proof. by apply history_frame. Qed.
Lemma history_blocks f db : history db (on_plan_blocks f db). Proof. by apply history_frame. Qed.
Lemma history_drawn f db : history db (on_drawn f db). Proof. by apply history_frame. Qed.

Lemma history_answer row db : history db (on_answer_rows (fun rows => rows ++ [row]) db).
Proof.
  split; [by exists []; rewrite app_nil_r|done|by exists [row]|]. intros o Ho Hu. by exists o.
Qed.

Lemma history_new_obligation o db : history db (on_obligation_rows (fun rows => rows ++ [o]) db).
Proof.
  split; [by exists []; rewrite app_nil_r|done|by exists []; rewrite app_nil_r|]. intros x Hx Hu. exists x.
  split_and!; [|done..]. simpl. apply elem_of_app. by left.
Qed.

(** An update of the obligations that never resolves one. *)
Lemma history_obligations f db :
  (forall o, ob_id (f o) = ob_id o /\ ob_task (f o) = ob_task o /\
             (ob_applicability o = Unresolved -> ob_applicability (f o) = Unresolved)) ->
  history db (on_obligation_rows (map f) db).
Proof.
  intros Hf. split; [by exists []; rewrite app_nil_r|done|by exists []; rewrite app_nil_r|]. intros o Ho Hu.
  destruct (Hf o) as (Hid & Ht & Ha). exists (f o). split_and!; auto. simpl. by apply (list_elem_of_fmap_2 f).
Qed.

Lemma history_satisfy id db : history db (on_obligation_rows (map (satisfy_obligation id)) db).
Proof. apply history_obligations. intros o. unfold satisfy_obligation. by destruct (String.eqb _ _). Qed.

Lemma history_unresolve id e db :
  history db (on_obligation_rows (map (change_obligation id (Some Unresolved) e)) db).
Proof. apply history_obligations. intros o. unfold change_obligation. by destruct (String.eqb _ _). Qed.

Lemma history_execution id e db :
  history db (on_obligation_rows (map (change_obligation id None e)) db).
Proof. apply history_obligations. intros o. unfold change_obligation. by destruct (String.eqb _ _). Qed.

(** An update of one table. *)
Ltac history_table :=
  first [ apply history_tasks | apply history_plan_rows | apply history_blocks | apply history_holds
        | apply history_questions | apply history_satisfy | apply history_unresolve | apply history_execution
        | apply history_new_obligation | apply history_answer | apply history_selections | apply history_revisions
        | apply history_criteria | apply history_constraints | apply history_evidence | apply history_receipts
        | apply history_attempts | apply history_drawn ].
#[export] Hint Extern 1 (history _ _) => history_table : track.

(** The next cursor is past every recorded one. *)
Lemma next_cursor_above db e : e ∈ event_rows db -> (ev_cursor e < next_cursor db)%Z.
Proof.
  unfold next_cursor. induction (event_rows db) as [|x rows IH]; [by intros ?%elem_of_nil|].
  intros [->|Hin]%elem_of_cons; simpl; [lia|]. specialize (IH Hin). lia.
Qed.

Lemma sorted_snoc (l : list Z) x : StronglySorted Z.lt l -> (forall y, y ∈ l -> (y < x)%Z) -> StronglySorted Z.lt (l ++ [x]).
Proof.
  induction l as [|y l IH]; simpl; intros Hs Hx; [repeat constructor|].
  apply StronglySorted_inv in Hs as [Hs Hy]. constructor.
  - apply IH; [done|]. intros z Hz. apply Hx. by right.
  - apply Forall_app. split; [done|]. repeat constructor. apply Hx. left.
Qed.

Section Writes.
Variable generate : nat -> string.

Lemma append_event_Ok session task aggregate ty delta origin db u db' :
  append_event generate session task aggregate ty delta origin db = Ok (u, db') ->
  exists event, ev_cursor event = next_cursor db /\ ev_aggregate_id event = aggregate.1 /\
    ev_aggregate_revision event = aggregate.2 /\ ev_delta event = delta /\ ev_event_type event = ty /\
    ev_task_id event = task /\
    db' = on_event_rows (fun rows => rows ++ [event]) (on_drawn S db).
Proof.
  unfold append_event, fresh_id, tx_bind. destruct (existsb _ _); [done|]. intros [= <- <-].
  eexists. split_and!; [| | | | | |reflexivity]; done.
Qed.

Lemma history_append session task aggregate ty delta origin :
  tracks history (append_event generate session task aggregate ty delta origin).
Proof.
  intros db u db' (event & Hc & _ & _ & _ & _ & _ & ->)%append_event_Ok. split; simpl.
  - by exists [event].
  - unfold cursors. simpl. rewrite map_app. intros Hs. simpl. rewrite Hc. apply sorted_snoc; [done|].
    intros y (e & -> & He)%list_elem_of_fmap. by apply next_cursor_above.
  - by exists []; rewrite app_nil_r.
  - intros o Ho Hu. by exists o.
Qed.

Lemma history_fresh : tracks history (fresh_id generate).
Proof. intros db a db' [= <- <-]. apply history_drawn. Qed.

Lemma history_supersede dies : tracks history (supersede dies).
Proof. intros db a db' [= <- <-]. apply history_questions. Qed.
End Writes.
#[export] Hint Resolve history_append history_fresh history_supersede : track.
#[export] Hint Extern 2 (tracks history (fun db => if _ then Err _ else Ok (_, _))) =>
  apply tracks_guarded; intros; solve [auto 2 with track] : track.

Section History.
Context `{JsonCodec AnswerSelection} `{JsonCodec CommandResult} `{JsonCodec AnsweredForkIdentity}.
Context `{JsonCodec (SessionId * string * string * list string * list string)}.
Variable generate : nat -> string.
Variable sha256_hex : string -> string.

Lemma history_block task block :
  (forall db, history db (block task db)) -> tracks history (block_foreign task block).
Proof. intros Hb. unfold block_foreign. apply tracks_bind; [apply _|by apply tracks_modify|]. intros _. track. Qed.

Lemma history_enumerate f position texts :
  (forall i t, tracks history (f i t)) -> tracks history (tx_enumerate f position texts).
Proof. intros Hf. revert position. induction texts as [|t texts IH]; intros position; simpl; track; auto. Qed.

Lemma history_reset task derived stored reset : tracks history (reset_rows task derived stored reset).
Proof. revert reset. induction stored as [|row stored IH]; intros reset; simpl; track; auto. Qed.

Lemma history_supersede_rows session task selection next rows superseded :
  tracks history (supersede_rows generate session task selection next rows superseded).
Proof. revert superseded. induction rows as [|row rows IH]; intros superseded; simpl; track; auto. Qed.

Lemma history_insert_task id row : tracks history (insert_task id row).
Proof. intros db a db'. unfold insert_task. destruct (_ !! _); [done|]. intros [= <- <-]. apply history_tasks. Qed.

Lemma history_task_of id : tracks history (task_of_obligation id).
Proof. intros db a db'. unfold task_of_obligation. destruct (find _ _); [|done]. intros [= <- <-]. reflexivity. Qed.

Lemma tx_history A (m : stx A) : TaskTx generate sha256_hex A m -> tracks history m.
Proof.
  destruct 1 as [? ? []|]; track.
  all: first [ apply history_insert_task | apply history_task_of | apply history_reset | apply history_supersede_rows
             | apply history_enumerate; intros; track; apply tracks_guarded; intros; history_table
             | apply tracks_guarded; intros; history_table ].
Qed.
End History.

(** * What each transaction writes *)

(** New events and drawn identifiers. *)
Definition journal (events : list (Event EventDelta)) (n : nat) (db : TaskDb) : TaskDb :=
  on_event_rows (fun rows => rows ++ events) (on_drawn (fun k => n + k) db).

Lemma journal_nil db : journal [] 0 db = db.
Proof. unfold journal, on_event_rows, on_drawn. simpl. rewrite app_nil_r. by destruct db. Qed.

Lemma journal_journal e1 n1 e2 n2 db : journal e2 n2 (journal e1 n1 db) = journal (e1 ++ e2) (n2 + n1) db.
Proof. unfold journal, on_event_rows, on_drawn. simpl. by rewrite <- app_assoc, Nat.add_assoc. Qed.

Definition kill (dies : QuestionRow -> bool) (q : QuestionRow) : QuestionRow :=
  if dies q then with_question_state QSuperseded q else q.

Lemma supersede_Ok dies db killed db' :
  supersede dies db = Ok (killed, db') ->
  killed = filter (fun q => dies q) (question_rows db) /\ db' = on_question_rows (map (kill dies)) db.
Proof. by intros [= <- <-]. Qed.

Lemma task_row_Ok task_id db row db' :
  task_row task_id db = Ok (row, db') -> tasks db !! task_id = Some row /\ db' = db.
Proof. unfold task_row. destruct (tasks db !! task_id); [|done]. by intros [= <- <-]. Qed.

Section Effects.
Variable generate : nat -> string.

Lemma append_journal session task aggregate ty delta origin db u db' :
  append_event generate session task aggregate ty delta origin db = Ok (u, db') ->
  exists event, db' = journal [event] 1 db.
Proof. intros (event & _ & _ & _ & _ & _ & _ & ->)%append_event_Ok. by exists event. Qed.

Lemma iter_journal {A} (f : A -> stx unit) l db u db' :
  (forall a db u db', f a db = Ok (u, db') -> exists event, db' = journal [event] 1 db) ->
  tx_iter f l db = Ok (u, db') -> exists events n, db' = journal events n db.
Proof.
  intros Hf. revert db. induction l as [|a l IH]; intros db; simpl.
  - intros [= <- <-]. exists [], 0. by rewrite journal_nil.
  - intros (? & db1 & H1 & H2)%tx_bind_Ok. apply Hf in H1 as (event & ->). apply IH in H2 as (events & n & ->).
    rewrite journal_journal. by eexists _, _.
Qed.

Lemma supersede_pending_Ok session task intent origin db u db' :
  supersede_pending_questions generate session task intent origin db = Ok (u, db') ->
  exists events n, db' = journal events n
    (on_question_rows (map (kill (fun q => is_pending task q && negb (qr_intent q =? intent)%Z))) db).
Proof.
  unfold supersede_pending_questions. intros (killed & db1 & H1 & H2)%tx_bind_Ok.
  apply supersede_Ok in H1 as [_ ->]. apply iter_journal in H2 as (events & n & ->); [by exists events, n|].
  intros q. intros. by eapply append_journal.
Qed.

Lemma supersede_terminal_Ok session task l origin db u db' :
  supersede_terminal_questions generate session task l origin db = Ok (u, db') ->
  exists events n, db' = journal events n (on_question_rows (map (kill (is_pending task))) db).
Proof.
  unfold supersede_terminal_questions. intros (killed & db1 & H1 & H2)%tx_bind_Ok.
  apply supersede_Ok in H1 as [_ ->]. apply iter_journal in H2 as (events & n & ->); [by exists events, n|].
  intros q. intros. by eapply append_journal.
Qed.

Lemma snapshot_Ok task db sn db' :
  snapshot_in_tx task db = Ok (sn, db') -> db' = db /\ exists row, tasks db !! task = Some row /\ sn = snapshot_of task row db.
Proof.
  unfold snapshot_in_tx. intros (row & db1 & H1 & H2)%tx_bind_Ok. apply task_row_Ok in H1 as [Hr ->].
  unfold tx_bind, tx_get, tx_ret in H2. injection H2 as <- <-. split; [done|]. by exists row.
Qed.

Definition new_question (q : Question) : QuestionRow :=
  mkQuestionRow (q_question_id q) (q_task_id q) (q_question_revision q) (q_intent_revision q) (q_prompt q) q QPending
    None None.

Definition kill_stale (task : TaskId) (intent : Z) : QuestionRow -> QuestionRow :=
  kill (fun q => is_pending task q && negb (qr_intent q =? intent)%Z).

Lemma insert_question_Ok session q db u db' :
  insert_question generate session q db = Ok (u, db') ->
  exists task events n, tasks db !! q_task_id q = Some task /\
    (tk_lifecycle task = LRunning \/ tk_lifecycle task = LWaiting) /\ q_intent_revision q = tk_intent task /\
    existsb (is_pending (q_task_id q)) (map (kill_stale (q_task_id q) (tk_intent task)) (question_rows db)) = false /\
    (q_question_id q ∉ map qr_id (question_rows db)) /\
    db' = journal events n (TASK_SET_WAITING (q_task_id q) (tk_revision task + 1)
            (on_question_rows (fun rows => map (kill_stale (q_task_id q) (tk_intent task)) rows ++ [new_question q]) db)).
Proof.
  unfold insert_question. intros (task & db1 & H1 & H2)%tx_bind_Ok. apply task_row_Ok in H1 as [Ht ->].
  destruct (negb (bool_decide _)) eqn:Hl; [done|]. apply negb_false_iff, (proj1 (bool_decide_eq_true _)) in Hl.
  destruct (negb (_ =? _)%Z) eqn:Hi; [done|]. apply negb_false_iff, Z.eqb_eq in Hi.
  apply tx_bind_Ok in H2 as (? & db1 & H1 & H2). apply supersede_pending_Ok in H1 as (e1 & n1 & ->).
  apply tx_bind_Ok in H2 as (dbx & db1 & [= <- <-] & H2).
  destruct (pending_question_exists _ _) eqn:Hp; [done|].
  destruct (existsb (fun row => String.eqb (qr_id row) _) _) eqn:Hid; [done|].
  apply tx_bind_Ok in H2 as (? & db1 & [= <- <-] & H2). apply tx_bind_Ok in H2 as (? & db1 & [= <- <-] & H2).
  apply append_journal in H2 as (event & ->). exists task, (e1 ++ [event]), (1 + n1).
  split_and!; [done|done|done|done| |].
  - intros Hin. apply not_true_iff_false in Hid. apply Hid, existsb_exists.
    apply list_elem_of_fmap in Hin as (row & Hq & Hin). exists (kill_stale (q_task_id q) (tk_intent task) row).
    simpl. split; [apply in_map; by apply list_elem_of_In|].
    rewrite Hq. unfold kill_stale, kill. destruct (_ && _); simpl; apply String.eqb_refl.
  - rewrite <- journal_journal. reflexivity.
Qed.

Lemma retain_Ok `{JsonCodec AnsweredForkIdentity} task question rev db u db' :
  retain_answered_plan_fork task question rev db = Ok (u, db') ->
  db' = db \/ exists named outcome, db' = update_row task named (with_outcome outcome) db.
Proof.
  unfold retain_answered_plan_fork. intros (dbx & db1 & [= <- <-] & H2)%tx_bind_Ok.
  destruct (plan_selection_on task db); [|injection H2 as <- <-; by left].
  destruct (find _ _); injection H2 as <- <-; [right; by eexists _, _|by left].
Qed.

(** [answer_question_commit], up to the lifecycle rule it ends with. *)
Lemma answer_question_Ok `{JsonCodec AnswerSelection} `{JsonCodec AnsweredForkIdentity}
    session task_id question rev selection author db a db' :
  answer_question_tx generate session task_id question rev selection author db = Ok (a, db') ->
  exists task row events n retained, tasks db !! task_id = Some task /\
    lifecycle_is_terminal (tk_lifecycle task) = false /\
    row ∈ question_rows db /\ qr_id row = question /\ qr_task row = task_id /\ qr_state row = QPending /\
    qr_revision row = rev /\ q_intent_revision (qr_body row) = tk_intent task /\
    check_selection (qr_body row) question selection = Ok tt /\
    (retained = (fun db => db) \/ exists named outcome, retained = update_row task_id named (with_outcome outcome)) /\
    settle_plan_lifecycle task_id
      (retained (on_answer_rows (fun rows => rows ++ [mkAnswerRow question task_id rev (to_json selection) author Applied None])
        (journal events n (TASK_SET_RUNNING task_id (tk_revision task + 1)
          (on_question_rows (map (answered_row question (to_json selection) author)) db))))) = Ok (tt, db').
Proof.
  unfold answer_question_tx. intros (task & db1 & H1 & H2)%tx_bind_Ok. apply task_row_Ok in H1 as [Ht ->].
  destruct (lifecycle_is_terminal _) eqn:Hl; [done|]. apply tx_bind_Ok in H2 as (dbx & db1 & [= <- <-] & H2).
  destruct (find _ (question_rows db)) as [row|] eqn:Hf; [|done]. apply find_Some in Hf as [Hin [Hq Hk]%andb_true_iff].
  apply String.eqb_eq in Hq, Hk.
  destruct (negb (bool_decide _)) eqn:Hs; [by revert H2; case_match|].
  apply negb_false_iff, (proj1 (bool_decide_eq_true _)) in Hs.
  destruct (negb (_ =? rev)%Z) eqn:Hr; [done|]. apply negb_false_iff, Z.eqb_eq in Hr.
  destruct (negb (_ =? _)%Z) eqn:Hi; [done|]. apply negb_false_iff, Z.eqb_eq in Hi.
  apply tx_bind_Ok in H2 as ([] & db1 & H1 & H2). unfold tx_lift in H1.
  destruct (check_selection _ _ _) as [[]|] eqn:Hc; [|done]. injection H1 as <-.
  apply tx_bind_Ok in H2 as (? & db1 & [= <- <-] & H2). apply tx_bind_Ok in H2 as (? & db1 & [= <- <-] & H2).
  apply tx_bind_Ok in H2 as (? & db1 & H1 & H2). apply append_journal in H1 as (event & ->).
  apply tx_bind_Ok in H2 as (? & db1 & [= <- <-] & H2). apply tx_bind_Ok in H2 as (? & db1 & Hret & H2).
  apply tx_bind_Ok in H2 as ([] & db2 & Hset & H2). apply tx_bind_Ok in H2 as (sn & db3 & Hsn & H2).
  apply snapshot_Ok in Hsn as [-> _]. injection H2 as _ <-.
  apply retain_Ok in Hret as [->|(named & outcome & ->)].
  - exists task, row, [event], 1, (fun db => db). split_and!; try done. by left.
  - exists task, row, [event], 1, (update_row task_id named (with_outcome outcome)). split_and!; try done.
    right. by exists named, outcome.
Qed.
End Effects.

(** A task is held by its gate hold or by one of its rows. *)
Definition held (task_id : TaskId) (db : TaskDb) : bool :=
  bool_decide (is_Some (gate_hold_on task_id db)) || plan_row_holds_on task_id db.

Lemma release_Ok task db u db' :
  release_plan_owned_block task db = Ok (u, db') ->
  (db' = db /\ (task ∉ plan_blocks db \/ other_sources task db = true)) \/
  (task ∈ plan_blocks db /\ other_sources task db = false /\
   db' = on_plan_blocks (fun blocks => blocks ∖ {[ task ]}) (PLAN_RELEASE_TASK task db)).
Proof.
  unfold release_plan_owned_block. intros (dbx & db1 & [= <- <-] & H2)%tx_bind_Ok.
  case_bool_decide as Hm; simpl in H2; [|injection H2 as <- <-; left; split; [done|by left]].
  destruct (other_sources task db) eqn:Ho; simpl in H2; [injection H2 as <- <-; left; split; [done|by right]|].
  apply tx_bind_Ok in H2 as (? & db1 & [= <- <-] & [= <- <-]). by right.
Qed.

Lemma settle_lifecycle_Ok task db u db' :
  settle_plan_lifecycle task db = Ok (u, db') ->
  exists row, tasks db !! task = Some row /\
    ((db' = db /\ (tk_lifecycle row = LRunning -> held task db = false)) \/
     (tk_lifecycle row = LRunning /\ held task db = true /\
      db' = on_plan_blocks (fun blocks => {[ task ]} ∪ blocks) (PLAN_BLOCK_RUNNING_TASK task db)) \/
     (tk_lifecycle row = LBlocked /\ held task db = false /\ task ∈ plan_blocks db /\ other_sources task db = false /\
      db' = on_plan_blocks (fun blocks => blocks ∖ {[ task ]}) (PLAN_RELEASE_TASK task db))).
Proof.
  unfold settle_plan_lifecycle. intros (dbx & db1 & [= <- <-] & H2)%tx_bind_Ok.
  destruct (tasks db !! task) as [row|] eqn:Ht; [|done]. exists row. split; [done|]. cbv zeta in H2.
  change (bool_decide (is_Some (gate_hold_on task db)) || plan_row_holds_on task db) with (held task db) in H2.
  destruct (tk_lifecycle row) eqn:Hl; try (injection H2 as <- <-; by left).
  - destruct (held task db) eqn:Hh; [|injection H2 as <- <-; by left].
    apply tx_bind_Ok in H2 as (? & db1 & [= <- <-] & [= <- <-]). right. left. done.
  - destruct (held task db) eqn:Hh; [injection H2 as <- <-; by left|].
    apply release_Ok in H2 as [[-> _]|(? & ? & ->)]; [by left|]. by right; right.
Qed.

(** The hold of a task follows its gate. *)
Definition hold_agrees (task : TaskId) (db : TaskDb) : Prop :=
  forall hold, gate_hold_on task db = Some hold ->
    exists gate, gate_on task db = Ok gate /\ gate <> GateOpen /\ gate_kind gate = hold.

Lemma settle_hold_Ok task db u db' :
  settle_gate_hold task db = Ok (u, db') ->
  hold_agrees task db' /\ (exists f, db' = on_plan_gate_holds f db /\
    (f = (fun h => h) \/ f = delete task \/ exists kind, f = <[task := kind]>)) /\
  (gate_hold_on task db = None -> db' = db).
Proof.
  unfold settle_gate_hold. intros (dbx & db1 & [= <- <-] & H2)%tx_bind_Ok.
  assert (Hid : on_plan_gate_holds (fun h => h) db = db) by (by destruct db).
  destruct (gate_hold_on task db) as [hold|] eqn:Hh.
  2: { injection H2 as <- <-. split_and!; [|by eexists; split; [symmetry; apply Hid|left]|done].
       intros hold. by rewrite Hh. }
  apply tx_bind_Ok in H2 as (gate & db1 & H1 & H2). unfold tx_read in H1.
  destruct (gate_on task db) as [g|] eqn:Hg; [|done]. injection H1 as -> <-.
  destruct (decide (gate = GateOpen)) as [->|Hne].
  { injection H2 as <- <-. split_and!; [|by eexists; split; [done|right; left]|done].
    intros h. unfold gate_hold_on. simpl. by rewrite lookup_delete_eq. }
  assert (H2' : (if decide (gate_kind gate = hold) then (tx_ret tt : stx unit)
                 else tx_modify (on_plan_gate_holds <[task:=gate_kind gate]>)) db = Ok (u, db')).
  { by destruct gate. }
  clear H2. destruct (decide (gate_kind gate = hold)) as [Hk|Hk]; injection H2' as <- <-.
  - split_and!; [|by eexists; split; [symmetry; apply Hid|left]|done].
    intros h. rewrite Hh. intros [= <-]. by exists gate.
  - split_and!; [|by eexists; split; [done|right; right; eexists]|done].
    intros h. unfold gate_hold_on. simpl. rewrite lookup_insert_eq. intros [= <-]. exists gate.
    split_and!; [|done|done]. exact Hg.
Qed.

(** [steer_task], up to the lifecycle rule it ends with. *)
Lemma steer_task_Ok generate session task_id intent rev instruction db a db' :
  steer_task_tx generate session task_id intent rev instruction db = Ok (a, db') ->
  exists task events n, tasks db !! task_id = Some task /\ lifecycle_is_terminal (tk_lifecycle task) = false /\
    tk_intent task = intent /\ tk_revision task = rev /\
    settle_plan_lifecycle task_id
      (journal events n (RELEASE_WORKFLOW_OFF_PAUSE task_id (SUPERSESSION_RESUMES_TASK task_id
        (on_question_rows (map (kill_stale task_id (intent + 1))) (UPDATE_INTENT task_id (rev + 1) (intent + 1) db)))))
      = Ok (tt, db').
Proof.
  unfold steer_task_tx. intros (task & db1 & H1 & H2)%tx_bind_Ok. apply task_row_Ok in H1 as [Ht ->].
  destruct (lifecycle_is_terminal _) eqn:Hl; [done|].
  destruct (negb (_ =? intent)%Z) eqn:Hi; [done|]. apply negb_false_iff, Z.eqb_eq in Hi as <-.
  destruct (negb (_ =? rev)%Z) eqn:Hr; [done|]. apply negb_false_iff, Z.eqb_eq in Hr as <-.
  apply tx_bind_Ok in H2 as (? & db1 & [= <- <-] & H2).
  apply tx_bind_Ok in H2 as (? & db1 & H1 & H2). apply supersede_pending_Ok in H1 as (e1 & n1 & ->).
  apply tx_bind_Ok in H2 as (? & db1 & [= <- <-] & H2).
  apply tx_bind_Ok in H2 as (? & db1 & H1 & H2). apply append_journal in H1 as (event & ->).
  apply tx_bind_Ok in H2 as (? & db1 & [= <- <-] & H2).
  apply tx_bind_Ok in H2 as ([] & db2 & Hset & H2). apply tx_bind_Ok in H2 as (sn & db3 & Hsn & H2).
  apply snapshot_Ok in Hsn as [-> _]. injection H2 as _ <-.
  exists task, (e1 ++ [event]), (1 + n1). split_and!; try done.
  rewrite <- journal_journal. exact Hset.
Qed.

Lemma cancel_task_Ok generate session task_id intent reason origin db a db' :
  cancel_task_tx generate session task_id intent reason origin db = Ok (a, db') ->
  exists task events n, tasks db !! task_id = Some task /\ tk_intent task = intent /\
    if lifecycle_is_terminal (tk_lifecycle task)
    then db' = journal events n (on_question_rows (map (kill (is_pending task_id))) db)
    else db' = journal events n (on_question_rows (map (kill (is_pending task_id)))
                 (CANCEL_TASK task_id (tk_revision task + 1) db)).
Proof.
  unfold cancel_task_tx. intros (task & db1 & H1 & H2)%tx_bind_Ok. apply task_row_Ok in H1 as [Ht ->].
  destruct (negb (_ =? intent)%Z) eqn:Hi; [done|]. apply negb_false_iff, Z.eqb_eq in Hi as <-.
  destruct (lifecycle_is_terminal _) eqn:Hl.
  - apply tx_bind_Ok in H2 as (? & db1 & H1 & H2). apply supersede_terminal_Ok in H1 as (e1 & n1 & ->).
    apply tx_bind_Ok in H2 as (sn & db3 & Hsn & H2). apply snapshot_Ok in Hsn as [-> _]. injection H2 as _ <-.
    exists task, e1, n1. by rewrite Hl.
  - apply tx_bind_Ok in H2 as (? & db1 & [= <- <-] & H2).
    apply tx_bind_Ok in H2 as (? & db1 & H1 & H2). apply supersede_terminal_Ok in H1 as (e1 & n1 & ->).
    apply tx_bind_Ok in H2 as (? & db1 & H1 & H2). apply append_journal in H1 as (event & ->).
    apply tx_bind_Ok in H2 as (sn & db3 & Hsn & H2). apply snapshot_Ok in Hsn as [-> _]. injection H2 as _ <-.
    exists task, (e1 ++ [event]), (1 + n1). rewrite Hl. split_and!; try done. by rewrite <- journal_journal.
Qed.

(** Nothing of the task is open. *)
Definition eligible (task_id : TaskId) (db : TaskDb) : Prop :=
  unsatisfied_total task_id db = 0 /\ unresolved_total task_id db = 0 /\ unknown_count task_id db = 0 /\
  stale_total task_id db = 0.

Lemma complete_task_Ok generate session task_id db a db' :
  complete_task_tx generate session task_id db = Ok (a, db') ->
  exists task, tasks db !! task_id = Some task /\ lifecycle_is_terminal (tk_lifecycle task) = false /\
    match a with
    | Ok sn => eligible task_id db /\ exists events n,
        db' = journal events n (on_question_rows (map (kill (is_pending task_id)))
                (COMPLETE_TASK task_id (tk_revision task + 1) db))
    | Err e => ~ eligible task_id db /\ db' = PAUSE_RUNNING_TASK task_id db
    end.
Proof.
  unfold complete_task_tx, eligible. intros (task & db1 & H1 & H2)%tx_bind_Ok. apply task_row_Ok in H1 as [Ht ->].
  exists task. split; [done|]. destruct (lifecycle_is_terminal _) eqn:Hl; [done|]. split; [done|].
  apply tx_bind_Ok in H2 as (dbx & db1 & [= <- <-] & H2). cbv zeta in H2.
  destruct (_ || _) eqn:Hopen.
  - apply tx_bind_Ok in H2 as (? & db1 & [= <- <-] & [= <- <-]). split; [|done]. intros (Hx & Hy & Hz & _).
    by rewrite Hx, Hy, Hz in Hopen.
  - rewrite !orb_false_iff, !Nat.ltb_ge in Hopen. destruct Hopen as [[Hx Hy] Hz].
    destruct (0 <? stale_total task_id db) eqn:Hs; [done|]. apply Nat.ltb_ge in Hs.
    apply tx_bind_Ok in H2 as (? & db1 & [= <- <-] & H2).
    apply tx_bind_Ok in H2 as (? & db1 & H1 & H2). apply supersede_terminal_Ok in H1 as (e1 & n1 & ->).
    apply tx_bind_Ok in H2 as (? & db1 & H1 & H2). apply append_journal in H1 as (event & ->).
    apply tx_bind_Ok in H2 as (sn & db3 & Hsn & H2). apply snapshot_Ok in Hsn as [-> _]. injection H2 as <- <-.
    split; [split_and!; lia|]. exists (e1 ++ [event]), (1 + n1). by rewrite <- journal_journal.
Qed.

(** * How a task moves *)

(** A task keeps its session and its goal, its revisions do not go back, and
    cancellation is final. *)
Record advances (t t' : TaskRow) : Prop := mkAdvances {
  av_session : tk_session t' = tk_session t;
  av_goal : tk_goal t' = tk_goal t;
  av_revision : (tk_revision t <= tk_revision t')%Z;
  av_intent : (tk_intent t <= tk_intent t')%Z;
  av_cancelled : tk_lifecycle t = LCancelled -> tk_lifecycle t' = LCancelled;
}.

#[export] Instance advances_preorder : PreOrder advances.
Proof.
  split.
  - intros t. split; done.
  - intros a b c [] []. split; try congruence; try lia. auto.
Qed.

(** Every task advances, and none is newly completed. *)
Record moves (db db' : TaskDb) : Prop := mkMoves {
  mv_rows : forall id t, tasks db !! id = Some t -> exists t', tasks db' !! id = Some t' /\ advances t t';
  mv_done : forall id t', tasks db' !! id = Some t' -> tk_lifecycle t' = LCompleted ->
    exists t, tasks db !! id = Some t /\ tk_lifecycle t = LCompleted;
}.

#[export] Instance moves_preorder : PreOrder moves.
Proof.
  split.
  - intros db. split; [intros id t Ht; by exists t|intros id t Ht Hc; by exists t].
  - intros a b c [R1 D1] [R2 D2]. split.
    + intros id t Ht. destruct (R1 id t Ht) as (t1 & Ht1 & A1). destruct (R2 id t1 Ht1) as (t2 & Ht2 & A2).
      exists t2. split; [done|by etrans].
    + intros id t2 Ht2 Hc. destruct (D2 id t2 Ht2 Hc) as (t1 & Ht1 & Hc1). by apply (D1 id t1).
Qed.

Lemma moves_same db db' : tasks db' = tasks db -> moves db db'.
Proof. intros E. split; rewrite E; [intros id t Ht; by exists t|intros id t Ht Hc; by exists t]. Qed.

Lemma moves_tasks db1 db1' db db' :
  tasks db = tasks db1 -> tasks db' = tasks db1' -> moves db1 db1' -> moves db db'.
Proof. intros E E' [R D]. split; rewrite E, E'; done. Qed.

Lemma moves_update id f db :
  (forall t, tasks db !! id = Some t ->
     advances t (f t) /\ (tk_lifecycle (f t) = LCompleted -> tk_lifecycle t = LCompleted)) ->
  moves db (update_task id f db).
Proof.
  intros Hf. split; simpl.
  - intros other t Ht. destruct (decide (other = id)) as [->|Hne].
    + exists (f t). rewrite lookup_alter_eq, Ht. split; [done|by apply Hf].
    + exists t. by rewrite lookup_alter_ne.
  - intros other t' Ht' Hc. destruct (decide (other = id)) as [->|Hne].
    + rewrite lookup_alter_eq in Ht'. apply fmap_Some in Ht' as (t & Ht & ->). exists t. split; [done|by apply Hf].
    + rewrite lookup_alter_ne in Ht' by done. by exists t'.
Qed.

Lemma advances_moved t revision l :
  (tk_revision t <= revision)%Z -> (tk_lifecycle t = LCancelled -> l = LCancelled) ->
  advances t (moved revision (with_lifecycle l t)).
Proof. intros Hr Hl. split; simpl; try done; lia. Qed.

Lemma moves_when from to id db :
  from LCancelled = false -> to <> LCompleted -> moves db (move_when from to id db).
Proof.
  intros Hf Ht. apply moves_update. intros t _. destruct (from (tk_lifecycle t)) eqn:E; [|by split].
  split; [|done]. apply advances_moved; [lia|]. intros Hc. by rewrite Hc, Hf in E.
Qed.

Lemma relabel_moves from to id db :
  from <> LCancelled -> to <> LCompleted -> moves db (relabel_when from to id db).
Proof.
  intros Hf Ht. apply moves_update. intros t _. case_decide as E; [|by split]. split; [|done].
  split; simpl; try done. intros Hc. by rewrite Hc in E.
Qed.

Lemma set_lifecycle_moves id t l db :
  tasks db !! id = Some t -> lifecycle_is_terminal (tk_lifecycle t) = false -> l <> LCompleted ->
  moves db (set_lifecycle id (tk_revision t + 1) l db).
Proof.
  intros Ht Hl Hne. apply moves_update. intros t' Ht'. rewrite Ht in Ht'. injection Ht' as <-. split; [|done].
  apply advances_moved; [lia|]. intros Hc. by rewrite Hc in Hl.
Qed.

Ltac moves_table :=
  first [ by apply moves_when | by apply relabel_moves | by apply moves_same
        | apply moves_update; intros; by (split; [split|]) ].
#[export] Hint Extern 1 (moves _ _) => moves_table : track.

Section Moves.
Context `{JsonCodec AnswerSelection} `{JsonCodec CommandResult} `{JsonCodec AnsweredForkIdentity}.
Context `{JsonCodec (SessionId * string * string * list string * list string)}.
Variable generate : nat -> string.
Variable sha256_hex : string -> string.

Lemma moves_append session task aggregate ty delta origin :
  tracks moves (append_event generate session task aggregate ty delta origin).
Proof. intros db u db' (event & ->)%append_journal. by apply moves_same. Qed.

Lemma moves_fresh : tracks moves (fresh_id generate).
Proof. intros db a db' [= <- <-]. by apply moves_same. Qed.

Lemma moves_supersede dies : tracks moves (supersede dies).
Proof. intros db a db' [= <- <-]. by apply moves_same. Qed.

Hint Resolve moves_append moves_fresh moves_supersede : track.

Lemma moves_block_not_cancelled task : tracks moves (block_foreign task BLOCK_TASK_NOT_CANCELLED).
Proof. unfold block_foreign, BLOCK_TASK_NOT_CANCELLED. track. Qed.

Lemma moves_settle_lifecycle task : tracks moves (settle_plan_lifecycle task).
Proof.
  unfold settle_plan_lifecycle, release_plan_owned_block, PLAN_BLOCK_RUNNING_TASK, PLAN_RELEASE_TASK. track.
Qed.

Hint Resolve moves_settle_lifecycle : track.

Lemma moves_settle task : tracks moves (settle_plan_state task).
Proof. unfold settle_plan_state, settle_gate_hold. track. Qed.

Hint Resolve moves_settle : track.

Lemma moves_enumerate f position texts :
  (forall i t, tracks moves (f i t)) -> tracks moves (tx_enumerate f position texts).
Proof. intros Hf. revert position. induction texts as [|t texts IH]; intros position; simpl; track; auto. Qed.

Lemma moves_reset task derived stored reset : tracks moves (reset_rows task derived stored reset).
Proof. revert reset. induction stored as [|row stored IH]; intros reset; simpl; track; auto. Qed.

Lemma moves_supersede_rows session task selection next rows superseded :
  tracks moves (supersede_rows generate session task selection next rows superseded).
Proof. revert superseded. induction rows as [|row rows IH]; intros superseded; simpl; track; auto. Qed.

Lemma moves_insert_task id row : tk_lifecycle row = LRunning -> tracks moves (insert_task id row).
Proof.
  intros Hr db a db'. unfold insert_task. destruct (tasks db !! id) eqn:Hn; [done|]. intros [= <- <-]. split; simpl.
  - intros other t Ht. exists t. rewrite lookup_insert_ne by congruence. done.
  - intros other t' Ht' Hc. destruct (decide (other = id)) as [->|Hne].
    + rewrite lookup_insert_eq in Ht'. injection Ht' as <-. by rewrite Hc in Hr.
    + rewrite lookup_insert_ne in Ht' by done. by exists t'.
Qed.

Lemma moves_task_of id : tracks moves (task_of_obligation id).
Proof. intros db a db'. unfold task_of_obligation. destruct (find _ _); [|done]. intros [= <- <-]. reflexivity. Qed.

Lemma moves_change_row task named writer change : tracks moves (apply_plan_row_change task named writer change).
Proof. unfold apply_plan_row_change. track. Qed.

Lemma moves_question session q : tracks moves (insert_question generate session q).
Proof.
  intros db u db' (task & events & n & Ht & Hl & _ & _ & _ & ->)%insert_question_Ok.
  apply (moves_tasks db (TASK_SET_WAITING (q_task_id q) (tk_revision task + 1) db)); [done|done|].
  by apply set_lifecycle_moves; [|destruct Hl as [->| ->]|].
Qed.

Lemma moves_answer session task_id question rev selection author :
  tracks moves (answer_question_tx generate session task_id question rev selection author).
Proof.
  intros db a db' (task & row & events & n & retained & Ht & Hl & _ & _ & _ & _ & _ & _ & _ & Hret & Hs)%answer_question_Ok.
  apply moves_settle_lifecycle in Hs. etrans; [|exact Hs].
  apply (moves_tasks db (TASK_SET_RUNNING task_id (tk_revision task + 1) db)); [done| |by apply set_lifecycle_moves].
  by destruct Hret as [->|(? & ? & ->)].
Qed.

Lemma moves_steer session task_id intent rev instruction :
  tracks moves (steer_task_tx generate session task_id intent rev instruction).
Proof.
  intros db a db' (task & events & n & Ht & Hl & <- & <- & Hs)%steer_task_Ok.
  apply moves_settle_lifecycle in Hs. etrans; [|exact Hs].
  apply (moves_tasks db (RELEASE_WORKFLOW_OFF_PAUSE task_id (SUPERSESSION_RESUMES_TASK task_id
    (UPDATE_INTENT task_id (tk_revision task + 1) (tk_intent task + 1) db)))); [done|done|].
  etrans; [|by apply relabel_moves]. etrans; [|by apply relabel_moves].
  apply moves_update. intros t Ht'. rewrite Ht in Ht'. injection Ht' as <-. split; [|done].
  split; simpl; try done; lia.
Qed.

Lemma moves_cancel session task_id intent reason origin :
  tracks moves (cancel_task_tx generate session task_id intent reason origin).
Proof.
  intros db a db' (task & events & n & Ht & _ & Hc)%cancel_task_Ok.
  destruct (lifecycle_is_terminal _) eqn:Hl; subst db'; [by apply moves_same|].
  apply (moves_tasks db (CANCEL_TASK task_id (tk_revision task + 1) db)); [done|done|]. by apply set_lifecycle_moves.
Qed.

Hint Resolve moves_question moves_answer moves_steer moves_cancel moves_insert_task moves_task_of moves_reset
  moves_supersede_rows moves_change_row moves_block_not_cancelled : track.

(** A transaction that is no completion moves the tasks. *)
Lemma plain_moves A (m : stx A) : PlainTx generate sha256_hex A m -> tracks moves m.
Proof.
  intros Hm. destruct Hm; try solve [auto 2 with track nocore].
  all: unfold create_task_tx, publish_plan_fork_tx, pause_for_workflow_off_tx, PAUSE_TASK_FOR_WORKFLOW_OFF,
    plan_attempt_tx, set_attempt_state_tx, insert_evidence_tx, insert_evidence_for_task_tx, support_obligation,
    invalidate_evidence_tx, mark_applicability_unresolved_tx, mark_plan_applicability_unresolved_tx,
    block_foreign, BLOCK_TASK_OPEN, insert_obligation, delete_scoped_record_tx, record_plan_selection_tx,
    update_plan_row_tx, record_plan_revision_tx, record_plan_assessment_tx, hold_for_plan_gate_tx; track.
  all: first [ by apply moves_insert_task
             | apply moves_enumerate; intros; track; apply tracks_guarded; intros; moves_table
             | apply tracks_guarded; intros; moves_table ].
Qed.

(** The completion of a task moves the tasks, or it completes that task, of which
    nothing is open. *)
Lemma complete_moves session id db a db' :
  complete_task_tx generate session id db = Ok (a, db') ->
  moves db db' \/
  exists t events n, tasks db !! id = Some t /\ lifecycle_is_terminal (tk_lifecycle t) = false /\ eligible id db /\
    db' = journal events n (on_question_rows (map (kill (is_pending id))) (COMPLETE_TASK id (tk_revision t + 1) db)).
Proof.
  intros (t & Ht & Hl & Hb)%complete_task_Ok. destruct a as [sn|e].
  - right. destruct Hb as (He & events & n & ->). by exists t, events, n.
  - left. destruct Hb as [_ ->]. by apply relabel_moves.
Qed.

(** A transaction moves the tasks, or it completes one of which nothing is open. *)
Lemma tx_moves A (m : stx A) db a db' :
  TaskTx generate sha256_hex A m -> m db = Ok (a, db') ->
  moves db db' \/
  exists id t events n, tasks db !! id = Some t /\ lifecycle_is_terminal (tk_lifecycle t) = false /\ eligible id db /\
    db' = journal events n (on_question_rows (map (kill (is_pending id))) (COMPLETE_TASK id (tk_revision t + 1) db)).
Proof.
  intros Hm Hr. destruct Hm as [B m Hm|session task]; [left; by eapply plain_moves|].
  apply complete_moves in Hr as [?|?]; [by left|right; by exists task].
Qed.
End Moves.
