(* ===== verification/TaskStoreInv.v ===== *)
(** The invariant of a task in the store: its gate hold names a closed gate, it
    does not run while something holds it, the plan's mark is on a blocked or
    settled task only, and it waits on at most one question, pinned to an intent
    it has had.  Every transaction keeps it for every task. *)

From S2P Require Import Prelude.
From S2P Require Import Contracts.
From S2P Require Import Requests.
From S2P Require Import Store.
From S2P Require Import Actions.
From S2P Require Import Procedure.
From S2P Require Import TaskDb.
From S2P Require Import PlanGate.
From S2P Require Import TaskStore.
From S2P Require Import TaskCalls.
From S2P Require Import TaskStoreThms.

(** The pending questions of a task. *)
Definition pendings (id : TaskId) (db : TaskDb) : list QuestionRow :=
  filter (fun q => is_pending id q = true) (question_rows db).

Lemma pending_exists_spec id db : pending_question_exists id db = false <-> pendings id db = [].
Proof.
  unfold pending_question_exists, pendings. rewrite <- not_true_iff_false, existsb_exists. split.
  - intros Hno. apply filter_none. intros q Hq Hp. apply Hno. exists q. split; [by apply list_elem_of_In|done].
  - intros Hf (q & Hq%list_elem_of_In & Hp).
    assert (q ∈ pendings id db) as Hin by (by apply list_elem_of_filter). unfold pendings in Hin. rewrite Hf in Hin.
    by apply elem_of_nil in Hin.
Qed.

Definition awaits (l : Lifecycle) : bool :=
  match l with LWaiting | LPaused | LBlocked => true | _ => false end.

(** The part of the invariant the plan's settlement relies on. *)
Record pre_at (id : TaskId) (db : TaskDb) : Prop := mkPre {
  pr_marked : id ∈ plan_blocks db -> exists t, tasks db !! id = Some t /\
    (tk_lifecycle t = LBlocked \/ lifecycle_is_terminal (tk_lifecycle t) = true) /\ pendings id db = [];
  pr_pending : pendings id db <> [] -> exists t, tasks db !! id = Some t /\ awaits (tk_lifecycle t) = true;
  pr_one : length (pendings id db) <= 1;
  pr_intent : forall q, q ∈ pendings id db -> q_intent_revision (qr_body q) = qr_intent q /\
    exists t, tasks db !! id = Some t /\ (qr_intent q <= tk_intent t)%Z;
  pr_selection : match plan_selection_on id db with
                 | None => plan_rows_on id db = []
                 | Some s => (sel_revision s <= i64_max)%Z
                 end;
  pr_absent : tasks db !! id = None -> plan_selection_on id db = None /\ gate_hold_on id db = None;
}.

Record inv_at (id : TaskId) (db : TaskDb) : Prop := mkInv {
  ia_pre : pre_at id db;
  ia_hold : hold_agrees id db;
  ia_unheld : forall t, tasks db !! id = Some t -> tk_lifecycle t = LRunning -> held id db = false;
}.

(** * Frames: a transaction that leaves the task's rows alone *)

Record frame_at (id : TaskId) (db db' : TaskDb) : Prop := mkFrame {
  fr_task : tasks db' !! id = tasks db !! id;
  fr_selection : plan_selections db' !! id = plan_selections db !! id;
  fr_rows : plan_rows db' !! id = plan_rows db !! id;
  fr_revisions : plan_revisions_ db' !! id = plan_revisions_ db !! id;
  fr_hold : plan_gate_holds db' !! id = plan_gate_holds db !! id;
  fr_mark : id ∈ plan_blocks db' <-> id ∈ plan_blocks db;
  fr_pendings : pendings id db' = pendings id db;
}.

#[export] Instance frame_preorder id : PreOrder (frame_at id).
Proof.
  split; [by intros db|]. intros a b c [] []. split; try congruence. tauto.
Qed.

Lemma gate_on_frame id db db' : frame_at id db db' -> gate_on id db' = gate_on id db.
Proof.
  intros []. unfold gate_on, plan_selection_on, plan_rows_on, latest_verdict, plan_revisions_on.
  by rewrite fr_selection0, fr_rows0, fr_revisions0.
Qed.

Lemma held_frame id db db' : frame_at id db db' -> held id db' = held id db.
Proof. intros []. unfold held, gate_hold_on, plan_row_holds_on, plan_rows_on. by rewrite fr_hold0, fr_rows0. Qed.

Lemma pre_at_frame id db db' : frame_at id db db' -> pre_at id db -> pre_at id db'.
Proof.
  intros F [M P O I S A]. destruct F. split; unfold plan_selection_on, plan_rows_on, gate_hold_on in *;
    rewrite ?fr_task0, ?fr_pendings0, ?fr_selection0, ?fr_rows0, ?fr_hold0; auto. intros Hm%fr_mark0. by apply M.
Qed.

Lemma inv_at_frame id db db' : frame_at id db db' -> inv_at id db -> inv_at id db'.
Proof.
  intros F [P Hh U]. split; [by eapply pre_at_frame|..].
  - intros h. unfold gate_hold_on. rewrite (fr_hold _ _ _ F). intros Hhold. destruct (Hh h Hhold) as (g & Hg & ?).
    exists g. by rewrite (gate_on_frame _ _ _ F).
  - intros t. rewrite (fr_task _ _ _ F), (held_frame _ _ _ F). apply U.
Qed.

(** ** Statements *)

Lemma frame_journal id events n db : frame_at id db (journal events n db).
Proof. by split. Qed.

Lemma frame_update id other f db : other <> id -> frame_at id db (update_task other f db).
Proof. intros Hne. split; simpl; try done. by rewrite lookup_alter_ne. Qed.

Lemma frame_rows id other f db : other <> id -> frame_at id db (update_rows other f db).
Proof. intros Hne. split; simpl; try done. by rewrite lookup_alter_ne. Qed.

Lemma frame_insert_rows id other rows db : other <> id -> frame_at id db (on_plan_rows (<[other := rows]>) db).
Proof. intros Hne. split; simpl; try done. by rewrite lookup_insert_ne. Qed.

Lemma frame_delete_rows id other db : other <> id -> frame_at id db (on_plan_rows (delete other) db).
Proof. intros Hne. split; simpl; try done. by rewrite lookup_delete_ne. Qed.

Lemma frame_selection id other s db : other <> id -> frame_at id db (on_plan_selections (<[other := s]>) db).
Proof. intros Hne. split; simpl; try done. by rewrite lookup_insert_ne. Qed.

Lemma frame_insert_revisions id other ps db :
  other <> id -> frame_at id db (on_plan_revisions (<[other := ps]>) db).
Proof. intros Hne. split; simpl; try done. by rewrite lookup_insert_ne. Qed.

Lemma frame_hold id other h db : other <> id -> frame_at id db (on_plan_gate_holds (<[other := h]>) db).
Proof. intros Hne. split; simpl; try done. by rewrite lookup_insert_ne. Qed.

Lemma frame_drop_hold id other db : other <> id -> frame_at id db (on_plan_gate_holds (delete other) db).
Proof. intros Hne. split; simpl; try done. by rewrite lookup_delete_ne. Qed.

Lemma frame_mark id other db : other <> id -> frame_at id db (on_plan_blocks (fun blocks => {[ other ]} ∪ blocks) db).
Proof. intros Hne. split; simpl; try done. set_solver. Qed.

Lemma frame_unmark id other db : other <> id -> frame_at id db (on_plan_blocks (fun blocks => blocks ∖ {[ other ]}) db).
Proof. intros Hne. split; simpl; try done. set_solver. Qed.

(** A kill leaves the rows it does not select. *)
Lemma pendings_map id f rows :
  (forall q, q ∈ rows -> (is_pending id q = true -> f q = q) /\ (is_pending id (f q) = true -> is_pending id q = true)) ->
  filter (fun q => is_pending id q = true) (map f rows) = filter (fun q => is_pending id q = true) rows.
Proof.
  induction rows as [|q rows IH]; intros Hf; [done|]. cbn [map].
  destruct (Hf q) as [H1 H2]; [left|]. rewrite !filter_cons.
  rewrite IH by (intros x Hx; apply Hf; by right).
  destruct (decide (is_pending id q = true)) as [Hp|Hp].
  - rewrite (H1 Hp). by rewrite decide_True.
  - rewrite decide_False; [done|]. intros Hq. by apply Hp, H2.
Qed.

Lemma is_pending_other id other q : is_pending other q = true -> other <> id -> is_pending id q = false.
Proof.
  unfold is_pending. intros [Ht%String.eqb_eq _]%andb_true_iff Hne. rewrite Ht.
  destruct (String.eqb_spec other id); [done|]. done.
Qed.

Lemma frame_kill id other dies db :
  other <> id -> (forall q, dies q = true -> is_pending other q = true) ->
  frame_at id db (on_question_rows (map (kill dies)) db).
Proof.
  intros Hne Hd. split; simpl; try done. apply pendings_map. intros q _. unfold kill.
  destruct (dies q) eqn:Hdq; [|done]. pose proof (is_pending_other id other q (Hd q Hdq) Hne) as Hp.
  split; [by rewrite Hp|]. unfold is_pending, with_question_state. simpl. by rewrite andb_false_r.
Qed.

Lemma frame_tables id f1 f2 f3 f4 f5 f6 f7 f8 db :
  frame_at id db (on_criteria_rows f1 (on_constraint_rows f2 (on_obligation_rows f3 (on_evidence_rows f4
    (on_event_rows f5 (on_receipt_rows f6 (on_attempt_rows f7 (on_answer_rows f8 db)))))))).
Proof. by split. Qed.

Ltac frame_table :=
  first [ by apply frame_update | by apply frame_rows | by apply frame_insert_rows | by apply frame_delete_rows
        | by apply frame_selection | by apply frame_insert_revisions | by apply frame_hold | by apply frame_drop_hold
        | by apply frame_mark | by apply frame_unmark | by split ].
#[export] Hint Extern 1 (frame_at _ _ _) => frame_table : track.

Section Frames.
Context `{JsonCodec AnswerSelection} `{JsonCodec CommandResult} `{JsonCodec AnsweredForkIdentity}.
Context `{JsonCodec (SessionId * string * string * list string * list string)}.
Variable generate : nat -> string.
Variable sha256_hex : string -> string.
Variables id other : TaskId.
Hypothesis Hne : other <> id.

Lemma frame_append session task aggregate ty delta origin :
  tracks (frame_at id) (append_event generate session task aggregate ty delta origin).
Proof. intros db u db' (event & ->)%append_journal. apply frame_journal. Qed.

Lemma frame_fresh : tracks (frame_at id) (fresh_id generate).
Proof. intros db a db' [= <- <-]. by split. Qed.

Hint Resolve frame_append frame_fresh : track.

Lemma frame_supersede dies :
  (forall q, dies q = true -> is_pending other q = true) -> tracks (frame_at id) (supersede dies).
Proof. intros Hd db a db' [= <- <-]. by apply (frame_kill id other). Qed.

Lemma frame_settle_lifecycle : tracks (frame_at id) (settle_plan_lifecycle other).
Proof. unfold settle_plan_lifecycle, release_plan_owned_block, PLAN_BLOCK_RUNNING_TASK, PLAN_RELEASE_TASK, move_when. track. Qed.

Hint Resolve frame_settle_lifecycle : track.

Lemma frame_settle : tracks (frame_at id) (settle_plan_state other).
Proof. unfold settle_plan_state, settle_gate_hold. track. Qed.

Lemma frame_change named writer change : tracks (frame_at id) (apply_plan_row_change other named writer change).
Proof. unfold apply_plan_row_change. track. Qed.

Hint Resolve frame_settle frame_change : track.

Lemma frame_reset derived stored reset : tracks (frame_at id) (reset_rows other derived stored reset).
Proof. revert reset. induction stored as [|row stored IH]; intros reset; simpl; track; auto. Qed.

Lemma frame_supersede_rows session selection next rows superseded :
  tracks (frame_at id) (supersede_rows generate session other selection next rows superseded).
Proof.
  revert superseded. induction rows as [|row rows IH]; intros superseded; simpl; [track|].
  destruct (b_condition <$> blocker row) as [[]|]; [|auto..].
  apply tracks_bind; [apply _|track|]. intros rev. apply tracks_bind; [apply _| |].
  - apply frame_supersede. intros q [[_ Hp]%andb_true_iff _]%andb_true_iff. done.
  - intros killed. destruct killed; [auto|]. track; auto.
Qed.

Hint Resolve frame_reset frame_supersede_rows : track.

Lemma frame_insert_obligation_row row : tracks (frame_at id) (insert_plan_obligation other row).
Proof. apply tracks_guarded. intros db. frame_table. Qed.

Lemma frame_insert_revision p : tracks (frame_at id) (insert_plan_revision other p).
Proof. apply tracks_guarded. intros db. frame_table. Qed.

Hint Resolve frame_insert_obligation_row frame_insert_revision : track.

Lemma frame_block from to : tracks (frame_at id) (block_foreign other (move_when from to)).
Proof. unfold block_foreign, move_when. track. Qed.

Hint Resolve frame_block : track.

Lemma frame_select session selection : tracks (frame_at id) (record_plan_selection_tx generate session other selection).
Proof. unfold record_plan_selection_tx, SUPERSESSION_RESUMES_TASK, relabel_when. track. Qed.

Lemma frame_update_row update : tracks (frame_at id) (update_plan_row_tx other update).
Proof. unfold update_plan_row_tx. track. Qed.

Lemma frame_revision write : tracks (frame_at id) (record_plan_revision_tx other write).
Proof. unfold record_plan_revision_tx. track. Qed.

Lemma frame_assess a : tracks (frame_at id) (record_plan_assessment_tx other a).
Proof. unfold record_plan_assessment_tx. track. Qed.

Lemma frame_hold_gate observed : tracks (frame_at id) (hold_for_plan_gate_tx other observed).
Proof. unfold hold_for_plan_gate_tx. track. Qed.

Lemma frame_mark_plan : tracks (frame_at id) (mark_plan_applicability_unresolved_tx other).
Proof. unfold mark_plan_applicability_unresolved_tx. track. Qed.

Lemma frame_question session q : q_task_id q = other -> tracks (frame_at id) (insert_question generate session q).
Proof.
  intros Hq db u db' (task & events & n & Ht & _ & _ & _ & _ & ->)%insert_question_Ok. subst other.
  etrans; [|apply frame_journal]. etrans; [|by apply frame_update]. split; try done. unfold pendings. simpl.
  rewrite filter_app.
  assert (filter (fun x => is_pending id x = true) [new_question q] = []) as ->.
  { rewrite filter_cons_False; [done|]. unfold is_pending. simpl. by destruct (String.eqb_spec (q_task_id q) id). }
  rewrite app_nil_r. apply (fr_pendings id db (on_question_rows (map (kill_stale (q_task_id q) (tk_intent task))) db)).
  apply (frame_kill id (q_task_id q)); [done|]. by intros x [? _]%andb_true_iff.
Qed.

Lemma frame_fork session q update :
  q_task_id q = other -> tracks (frame_at id) (publish_plan_fork_tx generate session q update).
Proof.
  intros Hq. unfold publish_plan_fork_tx, release_plan_owned_block, PLAN_RELEASE_TASK, move_when. rewrite Hq.
  pose proof (frame_question session q Hq). track. all: auto.
Qed.

Lemma frame_steer session intent rev instruction :
  tracks (frame_at id) (steer_task_tx generate session other intent rev instruction).
Proof.
  intros db a db' (task & events & n & Ht & Hl & <- & <- & Hs)%steer_task_Ok.
  apply frame_settle_lifecycle in Hs. etrans; [|exact Hs]. etrans; [|apply frame_journal].
  etrans; [|by apply frame_update]. etrans; [|by apply frame_update]. etrans; [by apply (frame_update id other)|].
  apply (frame_kill id other); [done|]. by intros x [? _]%andb_true_iff.
Qed.

Lemma frame_cancel session intent reason origin :
  tracks (frame_at id) (cancel_task_tx generate session other intent reason origin).
Proof.
  intros db a db' (task & events & n & Ht & _ & Hc)%cancel_task_Ok.
  destruct (lifecycle_is_terminal _); subst db'; (etrans; [|apply frame_journal]).
  - by apply (frame_kill id other).
  - etrans; [by apply (frame_update id other)|]. by apply (frame_kill id other).
Qed.

Lemma frame_complete session : tracks (frame_at id) (complete_task_tx generate session other).
Proof.
  intros db a db' (task & Ht & _ & Ha)%complete_task_Ok. destruct a as [sn|e].
  - destruct Ha as (_ & events & n & ->). etrans; [|apply frame_journal].
    etrans; [by apply (frame_update id other)|]. by apply (frame_kill id other).
  - destruct Ha as [_ ->]. by apply frame_update.
Qed.

Lemma frame_pause session : tracks (frame_at id) (pause_for_workflow_off_tx generate session other).
Proof. unfold pause_for_workflow_off_tx, PAUSE_TASK_FOR_WORKFLOW_OFF, move_when. track. Qed.

(** An answer changes the rows of the question it names. *)
Lemma frame_answer session question rev selection author db a db' :
  NoDup (map qr_id (question_rows db)) ->
  answer_question_tx generate session other question rev selection author db = Ok (a, db') -> frame_at id db db'.
Proof.
  intros Hnd (task & row & events & n & retained & Ht & Hl & Hin & Hq & Htask & _ & _ & _ & _ & Hret & Hs)%answer_question_Ok.
  apply frame_settle_lifecycle in Hs. etrans; [|exact Hs].
  transitivity (TASK_SET_RUNNING other (tk_revision task + 1)
    (on_question_rows (map (answered_row question (to_json selection) author)) db)).
  2: { destruct Hret as [->|(named & outcome & ->)]; [by split|]. etrans; [|by apply frame_rows]. by split. }
  etrans; [|by apply frame_update]. split; try done. apply pendings_map. intros q Hqin. unfold answered_row.
  destruct (String.eqb_spec (qr_id q) question) as [Heq|]; [|done].
  assert (q = row) as ->.
  { apply list_elem_of_lookup in Hqin as [i Hi]. apply list_elem_of_lookup in Hin as [j Hj].
    assert (i = j) as ->; [|congruence].
    eapply (NoDup_lookup (map qr_id (question_rows db))); [done| |];
      rewrite list_lookup_fmap; [by rewrite Hi|rewrite Hj; simpl; congruence]. }
  assert (is_pending id row = false) as Hp.
  { unfold is_pending. rewrite Htask. by destruct (String.eqb_spec other id). }
  split; [by rewrite Hp|]. unfold is_pending. simpl. by rewrite andb_false_r.
Qed.
End Frames.

(** * The settlement establishes the invariant *)

Lemma pendings_running id db t :
  pre_at id db -> tasks db !! id = Some t -> awaits (tk_lifecycle t) = false -> pendings id db = [].
Proof.
  intros P Ht Ha. destruct (pendings id db) eqn:E; [done|]. exfalso.
  destruct (pr_pending _ _ P) as (t' & Ht' & Ha'); [by rewrite E|]. congruence.
Qed.

Lemma lookup_update id f db : tasks (update_task id f db) !! id = f <$> tasks db !! id.
Proof. apply lookup_alter_eq. Qed.

(** An update of the task row that respects the marks and the pendings. *)
Lemma pre_update id f db :
  pre_at id db ->
  (forall t, tasks db !! id = Some t ->
     (tk_intent t <= tk_intent (f t))%Z /\
     (id ∈ plan_blocks db -> tk_lifecycle (f t) = LBlocked \/ lifecycle_is_terminal (tk_lifecycle (f t)) = true) /\
     (pendings id db <> [] -> awaits (tk_lifecycle (f t)) = true)) ->
  pre_at id (update_task id f db).
Proof.
  intros [M P O I S A] Hf. split; try done.
  - intros Hm. destruct (M Hm) as (t & Ht & _ & Hp). exists (f t). rewrite lookup_update, Ht.
    split_and!; [done|by apply Hf|done].
  - intros Hp. destruct (P Hp) as (t & Ht & _). exists (f t). rewrite lookup_update, Ht. split; [done|by apply Hf].
  - intros q Hq. destruct (I q Hq) as (Hi & t & Ht & Hle). split; [done|]. exists (f t). rewrite lookup_update, Ht.
    split; [done|]. destruct (Hf t Ht) as (? & _). lia.
  - rewrite lookup_update. intros Hn. destruct (tasks db !! id) eqn:Ht; [done|]. by apply A.
Qed.

Lemma hold_agrees_tables id db db' :
  plan_selections db' !! id = plan_selections db !! id -> plan_rows db' !! id = plan_rows db !! id ->
  plan_revisions_ db' !! id = plan_revisions_ db !! id -> plan_gate_holds db' !! id = plan_gate_holds db !! id ->
  hold_agrees id db -> hold_agrees id db'.
Proof.
  intros E1 E2 E3 E4 Hh h. unfold gate_hold_on. rewrite E4. intros Hhold.
  destruct (Hh h Hhold) as (g & Hg & ?). exists g. split; [|done]. revert Hg.
  unfold gate_on, plan_selection_on, plan_rows_on, latest_verdict, plan_revisions_on. by rewrite E1, E2, E3.
Qed.

Lemma pre_unmark id db : pre_at id db -> pre_at id (on_plan_blocks (fun blocks => blocks ∖ {[ id ]}) db).
Proof. intros [M P O I S A]. split; try done. simpl. set_solver. Qed.

Lemma settle_lifecycle_inv id db u db' :
  pre_at id db -> hold_agrees id db -> settle_plan_lifecycle id db = Ok (u, db') -> inv_at id db'.
Proof.
  intros P Hh (t & Ht & [[-> Hu]|[(Hl & Hheld & ->)|(Hl & Hheld & Hm & Ho & ->)]])%settle_lifecycle_Ok.
  - split; [done|done|]. intros t' Ht'. rewrite Ht in Ht'. injection Ht' as <-. done.
  - pose proof (pendings_running id db t P Ht) as Hp. rewrite Hl in Hp. specialize (Hp eq_refl).
    assert (Hnew : tasks (PLAN_BLOCK_RUNNING_TASK id db) !! id =
                   Some (moved (tk_revision t + 1) (with_lifecycle LBlocked t))).
    { simpl. rewrite lookup_alter_eq, Ht. simpl. by rewrite Hl. }
    split; [|by eapply hold_agrees_tables|intros t'; change (tasks (PLAN_BLOCK_RUNNING_TASK id db) !! id = Some t' ->
      tk_lifecycle t' = LRunning -> held id db = false); rewrite Hnew; by intros [= <-]].
    pose proof P as [M P' O I S A]. split; try done.
    + intros _. eexists. split; [exact Hnew|]. split; [by left|done].
    + intros q Hq. change (q ∈ pendings id db) in Hq. rewrite Hp in Hq. by apply elem_of_nil in Hq.
    + intros Hn. change (tasks (PLAN_BLOCK_RUNNING_TASK id db) !! id = None) in Hn. congruence.
  - unfold other_sources in Ho. apply orb_false_iff in Ho as [_ Hpend]. apply pending_exists_spec in Hpend.
    assert (Hnew : tasks (PLAN_RELEASE_TASK id db) !! id =
                   Some (moved (tk_revision t + 1) (with_lifecycle LRunning t))).
    { simpl. rewrite lookup_alter_eq, Ht. simpl. by rewrite Hl. }
    split; [|by eapply hold_agrees_tables|intros t' _ _; exact Hheld].
    change (pre_at id (PLAN_RELEASE_TASK id (on_plan_blocks (fun blocks => blocks ∖ {[ id ]}) db))).
    apply pre_update; [by apply pre_unmark|]. intros t' Ht'. simpl in Ht'. rewrite Ht in Ht'. injection Ht' as <-.
    rewrite Hl. simpl. split_and!; [lia|set_solver|done].
Qed.

Lemma settle_state_inv id db u db' :
  pre_at id db -> is_Some (tasks db !! id) -> settle_plan_state id db = Ok (u, db') -> inv_at id db'.
Proof.
  intros P [t Ht] (? & db1 & H1 & H2)%tx_bind_Ok. apply settle_hold_Ok in H1 as (Hh & (f & -> & _) & _).
  eapply settle_lifecycle_inv; [|exact Hh|exact H2]. pose proof P as [M P' O I S A]. split; try done.
  simpl. by rewrite Ht.
Qed.

(** * Triples: what holds before a transaction, and after it *)

Definition triple {A} (P : TaskDb -> Prop) (m : stx A) (Q : TaskDb -> Prop) : Prop :=
  forall db a db', P db -> m db = Ok (a, db') -> Q db'.

Lemma triple_bind {A B} P Q R (m : stx A) (k : A -> stx B) :
  triple P m Q -> (forall a, triple Q (k a) R) -> triple P (tx_bind k m) R.
Proof. intros Hm Hk db b db'' HP (a & db' & H1 & H2)%tx_bind_Ok. eapply Hk; [|done]. by eapply Hm. Qed.

Lemma triple_ret {A} P (a : A) : triple P (tx_ret a) P.
Proof. by intros db x db' HP [= <- <-]. Qed.

Lemma triple_err {A} P e Q : triple P (tx_err e : stx A) Q.
Proof. by intros db x db' HP. Qed.

Lemma triple_get P : triple P tx_get P.
Proof. by intros db x db' HP [= <- <-]. Qed.

Lemma triple_lift {A} P (r : result A StoreError) : triple P (tx_lift r) P.
Proof. intros db x db' HP. unfold tx_lift. destruct r; [|done]. by intros [= <- <-]. Qed.

Lemma triple_read {A} P (f : TaskDb -> result A StoreError) : triple P (tx_read f) P.
Proof. intros db x db' HP. unfold tx_read. destruct (f db); [|done]. by intros [= <- <-]. Qed.

Lemma triple_row P id : triple P (task_row id) P.
Proof. by intros db x db' HP [_ ->]%task_row_Ok. Qed.

Lemma triple_modify (P Q : TaskDb -> Prop) f : (forall db, P db -> Q (f db)) -> triple P (tx_modify f) Q.
Proof. intros Hf db x db' HP [= <- <-]. by apply Hf. Qed.

Lemma triple_iter {A} P (f : A -> stx unit) l : (forall a, triple P (f a) P) -> triple P (tx_iter f l) P.
Proof. intros Hf. induction l as [|a l IH]; simpl; [apply triple_ret|]. by eapply triple_bind. Qed.

Lemma triple_weaken {A} (P P' Q Q' : TaskDb -> Prop) (m : stx A) :
  (forall db, P' db -> P db) -> (forall db, Q db -> Q' db) -> triple P m Q -> triple P' m Q'.
Proof. intros HP HQ Hm db a db' H1 H2. by eapply HQ, Hm; [apply HP|]. Qed.

Lemma triple_tracks {A} (P Q : TaskDb -> Prop) (R : relation TaskDb) (m : stx A) :
  (forall db db', P db -> R db db' -> Q db') -> tracks R m -> triple P m Q.
Proof. intros Hk Hm db a db' HP Hr. eapply Hk; [done|by eapply Hm]. Qed.

(** ** The writes of a plan *)

(** A task with a recorded selection, whatever its gate says. *)
Definition planned (id : TaskId) (db : TaskDb) : Prop :=
  pre_at id db /\ is_Some (tasks db !! id) /\ is_Some (plan_selection_on id db).

Lemma planned_rows id f db :
  planned id db -> planned id (on_plan_rows f db).
Proof.
  intros ([M P O I S A] & Ht & [s Hs]). split; [|split; [done|by exists s]]. split; try done.
  change (plan_selection_on id (on_plan_rows f db)) with (plan_selection_on id db). by rewrite Hs in S |- *.
Qed.

Lemma planned_revisions id f db : planned id db -> planned id (on_plan_revisions f db).
Proof. intros ([M P O I S A] & Ht & Hs). split; [by split|done]. Qed.

Lemma triple_planned_rows id f : triple (planned id) (tx_modify (on_plan_rows f)) (planned id).
Proof. apply triple_modify. apply planned_rows. Qed.

Lemma open_planned id : triple (pre_at id) (require_open_task id) (fun db => pre_at id db /\ is_Some (tasks db !! id)).
Proof.
  intros db u db' P (t & db1 & H1 & H2)%tx_bind_Ok. apply task_row_Ok in H1 as [Ht ->].
  destruct (lifecycle_is_terminal _); [done|]. injection H2 as _ <-. split; [done|by exists t].
Qed.

Lemma binding_planned id rev digest : triple (pre_at id) (check_plan_binding id rev digest) (planned id).
Proof.
  intros db u db' P (? & db1 & H1 & H2)%tx_bind_Ok. apply open_planned in H1 as [P1 Ht]; [|done].
  apply tx_bind_Ok in H2 as (? & db2 & [= <- <-] & H2).
  destruct (plan_selection_on id db1) as [s|] eqn:Hs; [|done]. destruct (_ || _); [done|]. injection H2 as _ <-.
  split_and!; [done|done|by exists s].
Qed.

Lemma change_planned id named writer change :
  triple (planned id) (apply_plan_row_change id named writer change) (planned id).
Proof.
  intros db u db' P (? & db1 & [= <- <-] & H2)%tx_bind_Ok. destruct (find _ _); [|done].
  destruct (negb _); [done|]. case_decide; [done|]. injection H2 as _ <-. by apply planned_rows.
Qed.

Lemma revision_planned id p : triple (planned id) (insert_plan_revision id p) (planned id).
Proof.
  intros db u db' P. unfold insert_plan_revision. destruct (existsb _ _); [done|]. intros [= _ <-].
  by apply planned_revisions.
Qed.

Lemma row_planned id row : triple (planned id) (insert_plan_obligation id row) (planned id).
Proof.
  intros db u db' P. unfold insert_plan_obligation. destruct (existsb _ _); [done|]. intros [= _ <-].
  by apply planned_rows.
Qed.

Lemma settle_planned id : triple (planned id) (settle_plan_state id) (inv_at id).
Proof. intros db u db' (P & Ht & _). by apply settle_state_inv. Qed.

Lemma update_row_inv id update : triple (inv_at id) (update_plan_row_tx id update) (inv_at id).
Proof.
  eapply triple_bind; [eapply triple_weaken; [apply ia_pre|done|apply binding_planned]|]. intros _.
  eapply triple_bind; [apply change_planned|]. intros _. apply settle_planned.
Qed.

Lemma record_revision_inv id write : triple (inv_at id) (record_plan_revision_tx id write) (inv_at id).
Proof.
  eapply triple_bind; [eapply triple_weaken; [apply ia_pre|done|apply binding_planned]|]. intros _.
  eapply triple_bind; [apply triple_get|]. intros ?. do 2 (eapply triple_bind; [apply triple_lift|]; intros ?).
  eapply triple_bind; [apply revision_planned|]. intros _. eapply triple_bind; [apply change_planned|]. intros _.
  eapply triple_bind; [apply triple_planned_rows|]. intros _. eapply triple_bind; [apply settle_planned|].
  intros _. apply triple_ret.
Qed.

Lemma record_assessment_inv id a : triple (inv_at id) (record_plan_assessment_tx id a) (inv_at id).
Proof.
  eapply triple_bind; [eapply triple_weaken; [apply ia_pre|done|apply binding_planned]|]. intros _.
  do 2 (eapply triple_bind; [apply triple_lift|]; intros ?). eapply triple_bind; [apply triple_get|]. intros ?.
  cbv zeta. destruct (negb _); [apply triple_err|].
  eapply triple_bind; [apply triple_modify; intros db; apply planned_revisions|]. intros _.
  eapply triple_bind; [apply triple_iter; intros [named change]; apply change_planned|]. intros _.
  apply settle_planned.
Qed.

Lemma hold_gate_inv id observed : triple (inv_at id) (hold_for_plan_gate_tx id observed) (inv_at id).
Proof.
  eapply triple_bind; [eapply triple_weaken; [apply ia_pre|done|apply open_planned]|]. intros _.
  eapply triple_bind; [apply triple_read|]. intros gate.
  eapply triple_bind with (Q := fun db => pre_at id db /\ is_Some (tasks db !! id)).
  - assert (Hh : triple (fun db => pre_at id db /\ is_Some (tasks db !! id))
      (tx_modify (on_plan_gate_holds (<[id := observed]>))) (fun db => pre_at id db /\ is_Some (tasks db !! id))).
    { apply triple_modify. intros db ([M P O I S A] & [t Ht]). split; [|by exists t]. split; try done.
      simpl. by rewrite Ht. }
    destruct gate; [exact Hh|apply triple_ret|exact Hh].
  - intros _. eapply triple_bind; [intros db u db' [P Ht]; by apply settle_state_inv|]. intros _.
    eapply triple_bind; [apply triple_get|]. intros db. apply triple_ret.
Qed.

Lemma mark_plan_inv id : triple (inv_at id) (mark_plan_applicability_unresolved_tx id) (inv_at id).
Proof.
  intros db u db' V (? & db1 & H1 & H2)%tx_bind_Ok.
  assert (db1 = db) as ->.
  { apply tx_bind_Ok in H1 as (t & db2 & Ht & H1). apply task_row_Ok in Ht as [_ ->].
    destruct (lifecycle_is_terminal _); [done|]. by injection H1 as _ ->. }
  apply open_planned in H1 as [P Ht]; [|apply V]. apply tx_bind_Ok in H2 as (? & db2 & [= <- <-] & H2).
  destruct (plan_selection_on id db) as [s|] eqn:Hs; [|by injection H2 as _ <-].
  apply tx_bind_Ok in H2 as (? & db2 & [= <- <-] & H2). eapply settle_planned; [|exact H2].
  apply planned_rows. split_and!; [done|done|by exists s].
Qed.

(** ** Questions that die *)

Lemma is_pending_kill id dies q : is_pending id (kill dies q) = is_pending id q && negb (dies q).
Proof.
  unfold kill. destruct (dies q); simpl; [|by rewrite andb_true_r]. unfold is_pending. simpl. by rewrite !andb_false_r.
Qed.

Lemma kill_live dies q : dies q = false -> kill dies q = q.
Proof. unfold kill. by intros ->. Qed.

Lemma pendings_kill id dies db :
  pendings id (on_question_rows (map (kill dies)) db) = filter (fun q => dies q = false) (pendings id db).
Proof.
  unfold pendings. simpl. induction (question_rows db) as [|q rows IH]; [done|]. cbn [map].
  rewrite !filter_cons, is_pending_kill, IH. destruct (decide (is_pending id q = true)) as [Hp|Hp].
  - rewrite Hp, filter_cons. destruct (dies q) eqn:Hd; [done|]. cbn. by rewrite kill_live.
  - apply not_true_iff_false in Hp. by rewrite Hp.
Qed.

(** Fewer questions are pending, the rest is unchanged. *)
Lemma pre_fewer id db db' :
  pre_at id db ->
  tasks db' !! id = tasks db !! id -> plan_selections db' !! id = plan_selections db !! id ->
  plan_rows db' !! id = plan_rows db !! id -> plan_gate_holds db' !! id = plan_gate_holds db !! id ->
  plan_blocks db' = plan_blocks db -> (forall q, q ∈ pendings id db' -> q ∈ pendings id db) ->
  length (pendings id db') <= length (pendings id db) -> pre_at id db'.
Proof.
  intros [M P O I S A] Et Es Er Eh Eb Hsub Hlen. unfold plan_selection_on, plan_rows_on, gate_hold_on in *.
  assert (Hnil : pendings id db = [] -> pendings id db' = []).
  { intros Hn. rewrite Hn in Hlen. by destruct (pendings id db'); [|simpl in Hlen; lia]. }
  split; rewrite ?Et, ?Eb; unfold plan_selection_on, plan_rows_on, gate_hold_on; rewrite ?Es, ?Er, ?Eh; try done.
  - intros Hm. destruct (M Hm) as (t & Ht & Hl & Hp). exists t. split_and!; auto.
  - intros Hne. apply P. intros Hn. by apply Hne, Hnil.
  - lia.
  - intros q Hq. by apply I, Hsub.
Qed.

Lemma pre_kill id dies db : pre_at id db -> pre_at id (on_question_rows (map (kill dies)) db).
Proof.
  intros P. apply (pre_fewer id db); try done; rewrite pendings_kill.
  - intros q Hq. by apply list_elem_of_filter in Hq as [_ Hq].
  - apply length_filter.
Qed.

Lemma pre_journal id events n db : pre_at id db -> pre_at id (journal events n db).
Proof. apply pre_at_frame, frame_journal. Qed.

(** At most one question is pending: killing one leaves none. *)
Lemma kill_last id dies q db :
  pre_at id db -> q ∈ pendings id db -> dies q = true ->
  pendings id (on_question_rows (map (kill dies)) db) = [].
Proof.
  intros P Hq Hd. rewrite pendings_kill. pose proof (pr_one _ _ P) as Ho.
  destruct (pendings id db) as [|x [|y l]]; [by apply elem_of_nil in Hq| |simpl in Ho; lia].
  apply list_elem_of_singleton in Hq as <-. by rewrite filter_cons_False by congruence.
Qed.

(** A waiting task with nothing pending may resume. *)
Lemma pre_resume id db :
  pre_at id db -> pendings id db = [] -> pre_at id (SUPERSESSION_RESUMES_TASK id db).
Proof.
  intros P Hp. apply pre_update; [done|]. intros t Ht. rewrite Hp.
  split_and!; [by case_decide|intros Hm|done]. destruct (pr_marked _ _ P Hm) as (t' & Ht' & Hl & _).
  rewrite Ht in Ht'. injection Ht' as <-. rewrite decide_False; [done|]. intros Hw. rewrite Hw in Hl. by destruct Hl.
Qed.

(** ** A new selection *)

Lemma reset_planned id derived stored reset :
  triple (planned id) (reset_rows id derived stored reset) (planned id).
Proof.
  revert reset. induction stored as [|row stored IH]; intros reset; simpl; [apply triple_ret|].
  destruct (negb _); [apply IH|]. destruct (find _ _); [|apply IH].
  eapply triple_bind; [apply triple_planned_rows|]. intros _. apply IH.
Qed.

Lemma reset_false id derived stored reset db db' :
  reset_rows id derived stored reset db = Ok (false, db') -> reset = false /\ db' = db.
Proof.
  revert reset db. induction stored as [|row stored IH]; intros reset db; simpl; [by intros [= -> ->]|].
  destruct (negb _); [apply IH|]. destruct (find _ _); [|apply IH].
  by intros (? & db1 & _ & [? _]%IH)%tx_bind_Ok.
Qed.

Section Superseding.
Variable generate : nat -> string.

Definition superseding (id : TaskId) (superseded : bool) (db : TaskDb) : Prop :=
  pre_at id db /\ is_Some (tasks db !! id) /\ (superseded = true -> pendings id db = []).

Lemma supersede_rows_inv session id selection next rows superseded b db db' :
  superseding id superseded db ->
  supersede_rows generate session id selection next rows superseded db = Ok (b, db') -> superseding id b db'.
Proof.
  revert superseded db. induction rows as [|row rows IH]; intros superseded db HS; simpl; [by intros [= <- <-]|].
  destruct (b_condition <$> blocker row) as [[question rev| | |]|]; try by apply IH.
  intros (r & db1 & H1 & H2)%tx_bind_Ok.
  assert (db1 = db) as -> by (revert H1; unfold tx_lift; destruct (stored_u64 rev); [by intros [= _ ->]|done]).
  apply tx_bind_Ok in H2 as (killed & db1 & Hk & H2). apply supersede_Ok in Hk as [Hk ->].
  set (dies := fun q => String.eqb (qr_id q) question && is_pending id q && (qr_revision q =? r)%Z) in *.
  destruct HS as (P & Ht & Hs).
  assert (P' : pre_at id (on_question_rows (map (kill dies)) db)) by by apply pre_kill.
  destruct killed as [|q killed].
  { apply IH in H2; [done|]. split_and!; [done|done|]. intros E. rewrite pendings_kill, (Hs E). done. }
  apply tx_bind_Ok in H2 as (? & db1 & H1' & H2).
  assert (db1 = on_question_rows (map (kill dies)) db) as ->.
  { revert H1'. unfold tx_lift. destruct (unsigned _); [by intros [= _ ->]|done]. }
  apply tx_bind_Ok in H2 as (? & db1 & Ha & H2). apply append_journal in Ha as (event & ->).
  apply IH in H2; [done|]. split_and!; [by apply pre_journal|done|]. intros _.
  assert (Hq : q ∈ q :: killed) by left. rewrite Hk in Hq.
  apply list_elem_of_filter in Hq as [Hd%Is_true_true Hq]. apply (kill_last id dies q); [done| |done].
  apply list_elem_of_filter. split; [|done]. by apply andb_true_iff in Hd as [[_ Hd]%andb_true_iff _].
Qed.

Lemma supersede_questions_inv session id selection next :
  triple (fun db => pre_at id db /\ is_Some (tasks db !! id))
    (supersede_plan_questions generate session id selection next)
    (fun db => pre_at id db /\ is_Some (tasks db !! id)).
Proof.
  intros db u db' [P Ht] (? & db1 & [= <- <-] & H2)%tx_bind_Ok. apply tx_bind_Ok in H2 as (b & db1 & H1 & H2).
  apply supersede_rows_inv in H1 as (P1 & Ht1 & Hs); [|by split_and!]. destruct b; injection H2 as _ <-; [|done].
  split; [by apply pre_resume, Hs|]. destruct Ht1 as [t Ht1]. unfold SUPERSESSION_RESUMES_TASK, relabel_when.
  rewrite lookup_update, Ht1. by eexists.
Qed.

Lemma select_inv session id selection :
  triple (inv_at id) (record_plan_selection_tx generate session id selection) (inv_at id).
Proof.
  intros db a db' V (? & db1 & H1 & H2)%tx_bind_Ok.
  assert (db1 = db) as ->.
  { apply tx_bind_Ok in H1 as (t & db2 & Ht & H1). apply task_row_Ok in Ht as [_ ->].
    destruct (lifecycle_is_terminal _); [done|]. by injection H1 as _ ->. }
  apply open_planned in H1 as [P Ht]; [|apply V]. apply tx_bind_Ok in H2 as (? & db2 & [= <- <-] & H2). cbv zeta in H2.
  destruct (match plan_selection_on id db with Some c => _ | None => None end) as [kept|] eqn:Hk.
  - assert (Hpl : planned id db).
    { split_and!; [done|done|]. by destruct (plan_selection_on id db); [eexists|]. }
    apply tx_bind_Ok in H2 as (reset & db1 & H1' & H2). unfold reset_recovered_plan_rows in H1'.
    apply tx_bind_Ok in H1' as (? & db2 & [= <- <-] & H1').
    destruct (unresolved_obligation id db); [injection H1' as <- <-; by injection H2 as _ <-|].
    destruct reset.
    + apply reset_planned in H1'; [|done]. apply tx_bind_Ok in H2 as (? & db2 & Hs & H2). injection H2 as _ <-.
      eapply settle_planned; [exact H1'|exact Hs].
    + apply reset_false in H1' as [_ ->]. by injection H2 as _ <-.
  - apply tx_bind_Ok in H2 as (? & db1 & H1' & H2).
    assert (HP1 : pre_at id db1 /\ is_Some (tasks db1 !! id)).
    { destruct (plan_selection_on id db); [by eapply supersede_questions_inv|]. by injection H1' as _ <-. }
    clear H1' Hk P Ht V. destruct HP1 as [P1 Ht1].
    apply tx_bind_Ok in H2 as (stored & db2 & Hst & H2).
    assert (db2 = db1 /\ (stored <= i64_max)%Z) as [-> Hle].
    { revert Hst. unfold tx_lift, stored_u64. case_decide; [|done]. by intros [= <- <-]. }
    cbv zeta in H2. apply tx_bind_Ok in H2 as (? & db2 & [= <- <-] & H2).
    apply tx_bind_Ok in H2 as (? & db2 & [= <- <-] & H2). apply tx_bind_Ok in H2 as (? & db2 & Hit & H2).
    apply tx_bind_Ok in H2 as (? & db3 & Hs & H2). injection H2 as _ <-.
    eapply settle_planned; [|exact Hs]. eapply (triple_iter (planned id)); [intros; apply row_planned| |exact Hit].
    apply planned_rows. destruct P1 as [M P O I S A].
    assert (Hsel : plan_selection_on id (on_plan_selections <[id := mkSelection stored (sw_facts_digest selection)
      (sw_request_kind selection)]> db1) = Some (mkSelection stored (sw_facts_digest selection)
      (sw_request_kind selection))) by apply lookup_insert_eq.
    split_and!; [|done|by rewrite Hsel; eexists]. destruct Ht1 as [t Ht1].
    split; try done; [by rewrite Hsel|]. simpl. congruence.
Qed.
End Superseding.
