(* ===== verification/TaskStoreKept.v ===== *)
(** Every transaction of the task store keeps the invariant of [TaskStoreInv] for
    every task, so it holds of every task of every run. *)

From S2P Require Import Prelude.
From S2P Require Import Contracts.
From S2P Require Import Requests.
From S2P Require Import Store.
From S2P Require Import Actions.
From S2P Require Import Procedure.
From S2P Require Import TaskDb.
From S2P Require Import PlanGate.
From S2P Require Import TaskStore.
From S2P Require Import TaskCalls.
From S2P Require Import TaskStoreThms.
From S2P Require Import TaskStoreInv.

(** * The gate and the rows it reads *)

Lemma filter_map_same {A B} (P : A -> Prop) `{!forall x, Decision (P x)} (g : A -> B) (f : A -> A) l :
  (forall x, P (f x) <-> P x) -> (forall x, g (f x) = g x) -> map g (filter P (map f l)) = map g (filter P l).
Proof.
  intros HP Hg. induction l as [|x l IH]; [done|]. cbn [map]. rewrite !filter_cons.
  destruct (decide (P x)) as [Hx|Hx].
  - rewrite decide_True by exact (proj2 (HP x) Hx). simpl. by rewrite Hg, IH.
  - rewrite decide_False; [done|]. intros Hfx. by apply Hx, (proj1 (HP x)).
Qed.

(** An update of the rows that keeps what the gate reads of them. *)
Lemma gate_on_map id f db :
  (forall row, capability (f row) = capability row /\ applicability (f row) = applicability row /\
               execution (f row) = execution row /\ stage (f row) = stage row) ->
  gate_on id (update_rows id f db) = gate_on id db.
Proof.
  intros Hf. unfold gate_on. change (plan_selection_on id (update_rows id f db)) with (plan_selection_on id db).
  destruct (plan_selection_on id db) as [s|]; [|done].
  assert (plan_rows_on id (update_rows id f db) = map f (plan_rows_on id db)) as ->.
  { unfold plan_rows_on, update_rows. simpl. rewrite lookup_alter_eq. by destruct (plan_rows db !! id). }
  cbv zeta. rewrite (filter_map_same (fun row => applicability row = Unresolved) capability f).
  2: { intros row. destruct (Hf row) as (_ & -> & _). done. } 2: { intros row. by destruct (Hf row) as (-> & _). }
  rewrite (filter_map_same (fun row => Is_true (open_stage row)) capability f).
  2: { intros row. unfold open_stage. destruct (Hf row) as (_ & -> & -> & ->). done. }
  2: { intros row. by destruct (Hf row) as (-> & _). }
  assert (forall l, existsb (fun row => String.eqb (capability row) PLAN_WORK && bool_decide (applicability row = Required))
    (map f l) = existsb (fun row => String.eqb (capability row) PLAN_WORK && bool_decide (applicability row = Required)) l)
    as ->; [|done].
  induction l as [|row l IH]; [done|]. simpl. destruct (Hf row) as (-> & -> & _). by rewrite IH.
Qed.

Lemma hold_agrees_gate id db db' :
  gate_on id db' = gate_on id db -> gate_hold_on id db' = gate_hold_on id db -> hold_agrees id db -> hold_agrees id db'.
Proof. intros Eg Eh Hh h. rewrite Eh, Eg. apply Hh. Qed.

(** Rows that become unresolved leave a closed gate closed, for the same reason. *)
Lemma hold_agrees_unresolve id db :
  pre_at id db -> hold_agrees id db -> hold_agrees id (unresolve_plan_rows id db).
Proof.
  intros P Hh h Hhold. destruct (Hh h Hhold) as (g & Hg & Hne & Hk). pose proof (pr_selection _ _ P) as S.
  unfold gate_on in *. change (plan_selection_on id (unresolve_plan_rows id db)) with (plan_selection_on id db).
  destruct (plan_selection_on id db) as [s|]; [|by exists g].
  assert (plan_rows_on id (unresolve_plan_rows id db) = map (with_applicability Unresolved) (plan_rows_on id db)) as ->.
  { unfold plan_rows_on, unresolve_plan_rows, update_rows. simpl. rewrite lookup_alter_eq. by destruct (plan_rows db !! id). }
  change (latest_verdict id (sel_revision s) (unresolve_plan_rows id db)) with (latest_verdict id (sel_revision s) db).
  cbv zeta in *. destruct (plan_rows_on id db) as [|row rows]; [by exists g|].
  assert (Hpaused : gate_kind g = HoldPaused).
  { revert Hg. match goal with |- (let? open := ?r in _) = _ -> _ => destruct r end; simpl; [|done].
    case_decide; intros [= <-]; done. }
  cbn [map]. rewrite filter_cons_True by done. cbn [map].
  match goal with |- exists gate, (let? open := ?r in _) = _ /\ _ => assert (Hr : exists open, r = Ok open) end.
  { clear Hg. destruct (existsb _ _); [|by eexists]. destruct (stored_u64 (sel_revision s)) eqn:Hst; [by eexists|].
    revert Hst. unfold stored_u64. by rewrite decide_True. }
  destruct Hr as [open Hr]. rewrite Hr. simpl.
  eexists. split_and!; [done|done|]. simpl. congruence.
Qed.

(** * At the task *)

Lemma triple_frame {A} id (m : stx A) : tracks (frame_at id) m -> triple (inv_at id) m (inv_at id).
Proof. intros Hm. eapply triple_tracks; [|exact Hm]. intros db db' V F. by eapply inv_at_frame. Qed.

(** A task that does not run is not held to anything more. *)
Lemma inv_resting id db db' :
  pre_at id db' -> hold_agrees id db ->
  plan_selections db' !! id = plan_selections db !! id -> plan_rows db' !! id = plan_rows db !! id ->
  plan_revisions_ db' !! id = plan_revisions_ db !! id -> plan_gate_holds db' !! id = plan_gate_holds db !! id ->
  (forall t, tasks db' !! id = Some t -> tk_lifecycle t <> LRunning) -> inv_at id db'.
Proof.
  intros P Hh E1 E2 E3 E4 Hr. split; [done|by eapply hold_agrees_tables|]. intros t Ht Hl. by apply Hr in Ht.
Qed.

Lemma pre_relabel id from db :
  pre_at id db -> pendings id db = [] -> from = LWaiting \/ from = LPaused ->
  pre_at id (relabel_when from LRunning id db).
Proof.
  intros P Hp Hf. apply pre_update; [done|]. intros t Ht. rewrite Hp.
  split_and!; [by case_decide|intros Hm|done]. destruct (pr_marked _ _ P Hm) as (t' & Ht' & Hl & _).
  rewrite Ht in Ht'. injection Ht' as <-. rewrite decide_False; [done|]. intros Hw. rewrite Hw in Hl.
  destruct Hf as [->| ->]; by destruct Hl.
Qed.

(** ** Questions *)

Lemma none_pending id rows :
  existsb (is_pending id) rows = false -> filter (fun q => is_pending id q = true) rows = [].
Proof.
  intros Hn. apply filter_none. intros q Hq Hp. apply not_true_iff_false in Hn. apply Hn, existsb_exists.
  exists q. by split; [apply list_elem_of_In|].
Qed.

Section Kept.
Context `{JsonCodec AnswerSelection} `{JsonCodec CommandResult} `{JsonCodec AnsweredForkIdentity}.
Context `{JsonCodec (SessionId * string * string * list string * list string)}.
Variable generate : nat -> string.
Variable sha256_hex : string -> string.

(** What a published question leaves. *)
Lemma question_pre session q db u db' :
  pre_at (q_task_id q) db -> insert_question generate session q db = Ok (u, db') ->
  pre_at (q_task_id q) db' /\ pendings (q_task_id q) db' = [new_question q] /\
  exists t, tasks db' !! q_task_id q = Some t /\ tk_lifecycle t = LWaiting.
Proof.
  intros P (task & events & n & Ht & Hl & Hi & Hno & _ & ->)%insert_question_Ok. set (id := q_task_id q) in *.
  assert (Hnew : tasks (TASK_SET_WAITING id (tk_revision task + 1) db) !! id =
                 Some (moved (tk_revision task + 1) (with_lifecycle LWaiting task))).
  { simpl. rewrite lookup_alter_eq. by rewrite Ht. }
  assert (Hp : pendings id (on_question_rows (fun rows => map (kill_stale id (tk_intent task)) rows ++ [new_question q]) db)
               = [new_question q]).
  { unfold pendings. simpl. rewrite filter_app, none_pending by done.
    rewrite filter_cons_True; [done|]. unfold is_pending. simpl. by rewrite String.eqb_refl. }
  split; [|split; [exact Hp|eexists; split; [exact Hnew|done]]].
  apply pre_journal. destruct P as [M P O I S A].
  split.
  - intros Hm. destruct (M Hm) as (t & Ht' & Hb & _). exfalso. rewrite Ht in Ht'. injection Ht' as <-.
    destruct Hl as [Hl|Hl]; rewrite Hl in Hb; by destruct Hb.
  - intros _. eexists. split; [exact Hnew|done].
  - change (length (pendings id (on_question_rows (fun rows => map (kill_stale id (tk_intent task)) rows ++ [new_question q]) db)) <= 1).
    by rewrite Hp.
  - intros x Hx. change (x ∈ pendings id (on_question_rows (fun rows => map (kill_stale id (tk_intent task)) rows ++ [new_question q]) db)) in Hx.
    rewrite Hp in Hx. apply list_elem_of_singleton in Hx as ->. split; [done|]. eexists. split; [exact Hnew|]. simpl. lia.
  - done.
  - intros Hn. change (tasks (TASK_SET_WAITING id (tk_revision task + 1) db) !! id = None) in Hn. congruence.
Qed.

Lemma question_tables session q db u db' :
  insert_question generate session q db = Ok (u, db') ->
  plan_selections db' = plan_selections db /\ plan_rows db' = plan_rows db /\ plan_revisions_ db' = plan_revisions_ db /\
  plan_gate_holds db' = plan_gate_holds db.
Proof. by intros (task & events & n & _ & _ & _ & _ & _ & ->)%insert_question_Ok. Qed.

Lemma question_inv session q : triple (inv_at (q_task_id q)) (insert_question generate session q) (inv_at (q_task_id q)).
Proof.
  intros db u db' V Hq. pose proof (question_tables _ _ _ _ _ Hq) as (E1 & E2 & E3 & E4).
  apply question_pre in Hq as (P & _ & t & Ht & Hl); [|apply V].
  apply (inv_resting _ db); rewrite ?E1, ?E2, ?E3, ?E4; [done|apply V|done..|].
  intros t' Ht'. rewrite Ht in Ht'. injection Ht' as <-. by rewrite Hl.
Qed.

Lemma release_planned id : triple (planned id) (release_plan_owned_block id) (planned id).
Proof.
  clear generate sha256_hex. intros db u db' (P & [t Ht] & Hs) [[-> _]|(Hm & Ho & ->)]%release_Ok; [split_and!; [done|by exists t|done]|].
  unfold other_sources in Ho. apply orb_false_iff in Ho as [_ Hpend]. apply pending_exists_spec in Hpend.
  split_and!; [|simpl; rewrite lookup_alter_eq, Ht; by eexists|done].
  change (pre_at id (PLAN_RELEASE_TASK id (on_plan_blocks (fun blocks => blocks ∖ {[ id ]}) db))).
  apply pre_update; [by apply pre_unmark|]. intros t' Ht'. simpl in Ht'. rewrite Ht in Ht'. injection Ht' as <-.
  simpl. split_and!; [|set_solver|].
  - by destruct (bool_decide _).
  - intros Hne. by apply Hne in Hpend.
Qed.

Lemma fork_inv session q update :
  triple (inv_at (q_task_id q)) (publish_plan_fork_tx generate session q update) (inv_at (q_task_id q)).
Proof.
  unfold publish_plan_fork_tx. cbv zeta.
  eapply triple_bind; [eapply triple_weaken; [apply ia_pre|done|apply binding_planned]|]. intros _.
  eapply triple_bind; [apply triple_row|]. intros task.
  eapply triple_bind with (Q := planned (q_task_id q)).
  { case_decide; [apply release_planned|apply triple_ret]. }
  intros _. eapply triple_bind; [apply change_planned|]. intros _.
  eapply triple_bind with (Q := planned (q_task_id q)); [|intros _; apply settle_planned].
  intros db u db' (P & _ & Hs) Hq. pose proof (question_tables _ _ _ _ _ Hq) as (E1 & _).
  apply question_pre in Hq as (P' & _ & t & Ht & _); [|done]. split_and!; [done|by exists t|].
  unfold plan_selection_on. by rewrite E1.
Qed.

Lemma pendings_answered id question answer author row db :
  pre_at id db -> row ∈ question_rows db -> qr_id row = question -> qr_task row = id -> qr_state row = QPending ->
  pendings id (on_question_rows (map (answered_row question answer author)) db) = [].
Proof.
  intros P Hin Hq Ht Hs.
  assert (Hrow : row ∈ pendings id db).
  { apply list_elem_of_filter. split; [|done]. unfold is_pending. rewrite Ht, Hs, String.eqb_refl. done. }
  assert (Hone : pendings id db = [row]).
  { pose proof (pr_one _ _ P) as Ho. destruct (pendings id db) as [|x [|y l]]; [by apply elem_of_nil in Hrow| |simpl in Ho; lia].
    by apply list_elem_of_singleton in Hrow as <-. }
  unfold pendings. simpl. apply filter_none. intros x Hx Hp. apply list_elem_of_fmap in Hx as (y & -> & Hy).
  assert (Hyp : is_pending id y = true).
  { revert Hp. unfold answered_row. destruct (String.eqb _ _); [|done]. unfold is_pending. simpl. by rewrite andb_false_r. }
  assert (Hyin : y ∈ pendings id db) by (by apply list_elem_of_filter). rewrite Hone in Hyin.
  apply list_elem_of_singleton in Hyin as ->. revert Hp. unfold answered_row.
  rewrite Hq, String.eqb_refl. unfold is_pending. simpl. by rewrite andb_false_r.
Qed.

Lemma answer_inv session id question rev selection author :
  triple (inv_at id) (answer_question_tx generate session id question rev selection author) (inv_at id).
Proof.
  intros db a db' V (task & row & events & n & retained & Ht & Hl & Hin & Hq & Htask & Hs & _ & _ & _ & Hret & Hset)%answer_question_Ok.
  destruct V as [P Hh _].
  pose proof (pendings_answered id question (to_json selection) author row db P Hin Hq Htask Hs) as Hp.
  assert (Hrun : tasks (TASK_SET_RUNNING id (tk_revision task + 1) db) !! id =
                 Some (moved (tk_revision task + 1) (with_lifecycle LRunning task))).
  { simpl. by rewrite lookup_alter_eq, Ht. }
  set (db0 := on_answer_rows (fun rows => rows ++ [mkAnswerRow question id rev (to_json selection) author Applied None])
    (journal events n (TASK_SET_RUNNING id (tk_revision task + 1)
      (on_question_rows (map (answered_row question (to_json selection) author)) db)))) in *.
  assert (P0 : pre_at id db0).
  { destruct P as [M P O I S A]. split.
    - intros Hm. exfalso. destruct (M Hm) as (_ & _ & _ & Hnone).
      assert (Hrow : row ∈ pendings id db).
      { apply list_elem_of_filter. split; [|done]. unfold is_pending. rewrite Htask, Hs, String.eqb_refl. done. }
      rewrite Hnone in Hrow. by apply elem_of_nil in Hrow.
    - intros Hne. by apply Hne in Hp.
    - by change (length (pendings id (on_question_rows (map (answered_row question (to_json selection) author)) db)) <= 1);
        rewrite Hp; simpl; lia.
    - intros q Hqin. change (q ∈ pendings id (on_question_rows (map (answered_row question (to_json selection) author)) db)) in Hqin.
      rewrite Hp in Hqin. by apply elem_of_nil in Hqin.
    - done.
    - intros Hn. change (tasks (TASK_SET_RUNNING id (tk_revision task + 1) db) !! id = None) in Hn. congruence. }
  assert (Hh0 : hold_agrees id db0) by by apply (hold_agrees_tables id db).
  destruct Hret as [->|(named & outcome & ->)]; [by eapply settle_lifecycle_inv|].
  eapply settle_lifecycle_inv; [| |exact Hset].
  - destruct P0 as [M P' O I S A]. split; try done.
    change (plan_selection_on id (update_row id named (with_outcome outcome) db0)) with (plan_selection_on id db0).
    destruct (plan_selection_on id db0); [done|]. revert S. unfold plan_rows_on. simpl. rewrite lookup_alter_eq.
    by destruct (plan_rows db !! id) as [[]|].
  - apply (hold_agrees_gate id db0); [|done|exact Hh0]. apply gate_on_map. intros r. by destruct (String.eqb _ _).
Qed.

(** ** Control *)

Lemma steer_inv session id intent rev instruction :
  triple (inv_at id) (steer_task_tx generate session id intent rev instruction) (inv_at id).
Proof.
  intros db a db' V (task & events & n & Ht & Hl & <- & <- & Hset)%steer_task_Ok. destruct V as [P Hh _].
  eapply settle_lifecycle_inv; [| |exact Hset]; [|by apply (hold_agrees_tables id db)].
  apply pre_journal.
  set (db1 := UPDATE_INTENT id (tk_revision task + 1) (tk_intent task + 1) db).
  assert (P1 : pre_at id db1).
  { apply pre_update; [done|]. intros t Ht'. rewrite Ht in Ht'. injection Ht' as <-. simpl. split_and!; [lia| |].
    - intros Hm. destruct (pr_marked _ _ P Hm) as (t & Ht' & Hb & _). rewrite Ht in Ht'. by injection Ht' as <-.
    - intros Hne. destruct (pr_pending _ _ P Hne) as (t & Ht' & Hb). rewrite Ht in Ht'. by injection Ht' as <-. }
  set (db2 := on_question_rows (map (kill_stale id (tk_intent task + 1))) db1).
  assert (P2 : pre_at id db2) by by apply pre_kill.
  assert (Hp : pendings id db2 = []).
  { unfold db2, kill_stale. rewrite pendings_kill. apply filter_none. intros q Hq.
    change (q ∈ pendings id db) in Hq. destruct (pr_intent _ _ P q Hq) as (_ & t & Ht' & Hle).
    rewrite Ht in Ht'. injection Ht' as <-. apply list_elem_of_filter in Hq as [Hq _]. rewrite Hq. simpl.
    destruct (Z.eqb_spec (qr_intent q) (tk_intent task + 1)); [lia|done]. }
  apply pre_relabel; [|exact Hp|by right]. by apply pre_resume.
Qed.

(** A settled task: its questions are dead. *)
Lemma settled_inv id task l events n db :
  inv_at id db -> tasks db !! id = Some task -> lifecycle_is_terminal l = true ->
  inv_at id (journal events n (on_question_rows (map (kill (is_pending id))) (set_lifecycle id (tk_revision task + 1) l db))).
Proof.
  intros V Ht Hl. assert (Hp : pendings id (on_question_rows (map (kill (is_pending id))) db) = []).
  { rewrite pendings_kill. apply filter_none. intros q Hq. apply list_elem_of_filter in Hq as [Hq _]. congruence. }
  apply (inv_resting _ db); try done; [|apply V|].
  - apply pre_journal. change (pre_at id (set_lifecycle id (tk_revision task + 1) l
      (on_question_rows (map (kill (is_pending id))) db))).
    apply pre_update; [apply pre_kill, V|]. intros t _. simpl. split_and!; [done|by right|]. intros Hne. by apply Hne in Hp.
  - simpl. rewrite lookup_alter_eq, Ht. intros t [= <-] Hr. simpl in Hr. by rewrite Hr in Hl.
Qed.

Lemma cancel_inv session id intent reason origin :
  triple (inv_at id) (cancel_task_tx generate session id intent reason origin) (inv_at id).
Proof.
  intros db a db' V (task & events & n & Ht & _ & Hc)%cancel_task_Ok.
  destruct (lifecycle_is_terminal _) eqn:Hl; subst db'; [|by apply settled_inv].
  apply (inv_resting _ db); try done; [apply pre_journal, pre_kill, V|apply V|].
  simpl. rewrite Ht. intros t [= <-] Hr. by rewrite Hr in Hl.
Qed.

Lemma complete_task_inv session id : triple (inv_at id) (complete_task_tx generate session id) (inv_at id).
Proof.
  intros db a db' V (task & Ht & Hl & Ha)%complete_task_Ok. destruct a as [sn|e].
  { destruct Ha as (_ & events & n & ->). by apply settled_inv. }
  destruct Ha as [_ ->]. apply (inv_resting _ db); try done; [|apply V|].
  - apply pre_update; [apply V|]. intros t Ht'. rewrite Ht in Ht'. injection Ht' as <-.
    split_and!; [by case_decide| |].
    + intros Hm. destruct (pr_marked _ _ (ia_pre _ _ V) Hm) as (t & Ht' & Hb & _). rewrite Ht in Ht'.
      injection Ht' as <-. rewrite decide_False; [done|]. intros Hw. rewrite Hw in Hb. by destruct Hb.
    + intros Hne. destruct (pr_pending _ _ (ia_pre _ _ V) Hne) as (t & Ht' & Hb). rewrite Ht in Ht'.
      injection Ht' as <-. by case_decide.
  - unfold PAUSE_RUNNING_TASK, relabel_when. rewrite lookup_update, Ht. intros t [= <-]. by case_decide.
Qed.

(** ** Blocks *)

Lemma block_inv id from :
  from LRunning = true -> from LCancelled = false ->
  triple (fun db => pre_at id db /\ hold_agrees id db) (block_foreign id (move_when from LBlocked)) (inv_at id).
Proof.
  intros Hr Hc db u db' [P Hh] (? & db1 & [= <- <-] & [= _ <-])%tx_bind_Ok.
  apply (inv_resting _ db); try done.
  - apply pre_unmark. apply pre_update; [done|]. intros t Ht. split_and!.
    + by destruct (from (tk_lifecycle t)).
    + intros Hm. destruct (pr_marked _ _ P Hm) as (t' & Ht' & Hb & _). rewrite Ht in Ht'. injection Ht' as <-.
      destruct (from (tk_lifecycle t)); [by left|done].
    + intros Hne. destruct (pr_pending _ _ P Hne) as (t' & Ht' & Hb). rewrite Ht in Ht'. injection Ht' as <-.
      by destruct (from (tk_lifecycle t)).
  - intros t Ht. change (tasks (update_task id (fun t => if from (tk_lifecycle t)
      then moved (tk_revision t + 1) (with_lifecycle LBlocked t) else t) db) !! id = Some t) in Ht.
    rewrite lookup_update in Ht. apply fmap_Some in Ht as (t0 & _ & ->). destruct (from (tk_lifecycle t0)) eqn:Hf; [done|].
    intros Hl. congruence.
Qed.

Lemma block_kept id from :
  from LRunning = true -> from LCancelled = false -> triple (inv_at id) (block_foreign id (move_when from LBlocked)) (inv_at id).
Proof. intros Hr Hc. eapply triple_weaken; [|done|by apply block_inv]. by intros db [P Hh _]. Qed.

Lemma pause_inv session id : triple (inv_at id) (pause_for_workflow_off_tx generate session id) (inv_at id).
Proof.
  intros db a db' V (task & db1 & H1' & H2')%tx_bind_Ok. apply task_row_Ok in H1' as [Ht ->].
  case_decide as Hl; [|by injection H2' as _ <-]. apply tx_bind_Ok in H2' as (? & db1 & [= <- <-] & H2').
  apply tx_bind_Ok in H2' as (? & db1 & Ha & H2'). apply append_journal in Ha as (event & ->). injection H2' as _ <-.
  apply (inv_resting _ db); try done; [|apply V|].
  - apply pre_journal. apply pre_update; [apply V|]. intros t Ht'. rewrite Ht in Ht'. injection Ht' as <-.
    rewrite bool_decide_true by done. split_and!; [done| |done].
    intros Hm. destruct (pr_marked _ _ (ia_pre _ _ V) Hm) as (t & Ht' & Hb & _). rewrite Ht in Ht'. injection Ht' as <-.
    destruct Hl as [Hl|Hl]; rewrite Hl in Hb; by destruct Hb.
  - intros t. change (tasks (PAUSE_TASK_FOR_WORKFLOW_OFF id db) !! id = Some t -> tk_lifecycle t <> LRunning).
    unfold PAUSE_TASK_FOR_WORKFLOW_OFF, move_when. rewrite lookup_update, Ht. simpl. rewrite bool_decide_true by done.
    by intros [= <-].
Qed.

(** ** Evidence and the effects *)

Lemma frame_all_append id session task aggregate ty delta origin :
  tracks (frame_at id) (append_event generate session task aggregate ty delta origin).
Proof. intros db u db' (event & ->)%append_journal. apply frame_journal. Qed.

Lemma frame_all_fresh id : tracks (frame_at id) (fresh_id generate).
Proof. intros db a db' [= <- <-]. by split. Qed.

Lemma frame_guarded {A} id (g : TaskDb -> bool) (e : StoreError) (a : A) f :
  (forall db, frame_at id db (f db)) -> tracks (frame_at id) (fun db => if g db then Err e else Ok (a, f db)).
Proof. apply tracks_guarded. Qed.

Lemma frame_task_of id o : tracks (frame_at id) (task_of_obligation o).
Proof. intros db a db'. unfold task_of_obligation. destruct (find _ _); [|done]. intros [= <- <-]. reflexivity. Qed.

Hint Resolve frame_all_append frame_all_fresh frame_task_of : track.
Hint Extern 2 (tracks (frame_at _) (fun db => if _ then Err _ else Ok (_, _))) =>
  apply frame_guarded; intros; by split : track.

Lemma frame_support id task scope observation digest o :
  tracks (frame_at id) (support_obligation generate task scope observation digest o).
Proof. unfold support_obligation. track. Qed.

Lemma frame_enumerate id f position texts :
  (forall i t, tracks (frame_at id) (f i t)) -> tracks (frame_at id) (tx_enumerate f position texts).
Proof. intros Hf. revert position. induction texts as [|t texts IH]; intros position; simpl; track; auto. Qed.

Lemma invalidate_inv id evidence : triple (inv_at id) (invalidate_evidence_tx evidence) (inv_at id).
Proof.
  eapply triple_bind; [apply triple_get|]. intros db. destruct (find _ _); [|apply triple_err].
  do 2 (eapply triple_bind; [apply triple_frame, tracks_modify; intros; by split|]; intros _).
  eapply triple_bind; [apply triple_frame, frame_task_of|]. intros task.
  eapply triple_bind; [|intros _; apply triple_ret].
  destruct (decide (task = id)) as [->|Hne]; [by apply block_kept|]. by apply triple_frame, frame_block.
Qed.

Lemma mark_inv id obligation : triple (inv_at id) (mark_applicability_unresolved_tx obligation) (inv_at id).
Proof.
  eapply triple_bind; [apply triple_get|]. intros db. destruct (existsb _ _); [|apply triple_err].
  eapply triple_bind; [apply triple_frame, tracks_modify; intros; by split|]. intros _.
  eapply triple_bind; [apply triple_frame, frame_task_of|]. intros task.
  destruct (decide (task = id)) as [->|Hne].
  - eapply triple_bind with (Q := fun db => pre_at id db /\ hold_agrees id db).
    + apply triple_modify. intros db0 [P Hh _]. split; [|by apply hold_agrees_unresolve].
      destruct P as [M P O I S A]. split; try done.
      change (plan_selection_on id (unresolve_plan_rows id db0)) with (plan_selection_on id db0).
      destruct (plan_selection_on id db0); [done|]. revert S. unfold plan_rows_on. simpl. rewrite lookup_alter_eq.
      by destruct (plan_rows db0 !! id) as [[]|].
    + intros _. eapply triple_bind; [by apply block_inv|]. intros _. apply triple_ret.
  - eapply triple_bind; [apply triple_frame, tracks_modify; intros; by apply frame_rows|]. intros _.
    eapply triple_bind; [by apply triple_frame, frame_block|]. intros _. apply triple_ret.
Qed.

(** ** Creation *)

Lemma insert_task_inv id task row :
  tk_lifecycle row = LRunning -> triple (inv_at id) (insert_task task row) (inv_at id).
Proof.
  intros Hrow db u db' V. unfold insert_task. destruct (tasks db !! task) as [t|] eqn:Hn; [done|].
  intros [= _ <-]. destruct (decide (task = id)) as [->|Hne].
  2: { eapply inv_at_frame; [|exact V]. split; simpl; try done. by rewrite lookup_insert_ne. }
  destruct V as [[M P O I S A] Hh U]. destruct (A Hn) as [Hsel Hhold]. rewrite Hsel in S.
  assert (Hp : pendings id db = []).
  { destruct (pendings id db) eqn:E; [done|]. destruct P as (t & Ht & _); [done|]. congruence. }
  split; [split|..].
  - intros Hm. destruct (M Hm) as (t & Ht & _). congruence.
  - intros Hne. by apply Hne in Hp.
  - done.
  - intros q Hq. change (q ∈ pendings id db) in Hq. rewrite Hp in Hq. by apply elem_of_nil in Hq.
  - change (plan_selection_on id (on_tasks <[id:=row]> db)) with (plan_selection_on id db). by rewrite Hsel.
  - simpl. by rewrite lookup_insert_eq.
  - intros h. change (gate_hold_on id db = Some h -> exists g, gate_on id db = Ok g /\ g <> GateOpen /\ gate_kind g = h).
    congruence.
  - intros t _ _. change (held id db = false). unfold held. rewrite Hhold. unfold plan_row_holds_on.
    by rewrite S.
Qed.

Lemma touch_inv id task : triple (inv_at id) (tx_modify (update_task task touch_event_cursor)) (inv_at id).
Proof.
  destruct (decide (task = id)) as [->|Hne]; [|by apply triple_frame, tracks_modify; intros; apply frame_update].
  apply triple_modify. intros db [P Hh U]. split.
  - apply pre_update; [done|]. intros t Ht. split_and!; [done| |].
    + intros Hm. destruct (pr_marked _ _ P Hm) as (t' & Ht' & Hb & _). rewrite Ht in Ht'. by injection Ht' as <-.
    + intros Hne. destruct (pr_pending _ _ P Hne) as (t' & Ht' & Hb). rewrite Ht in Ht'. by injection Ht' as <-.
  - by apply (hold_agrees_tables id db).
  - intros t. rewrite lookup_update. intros (t0 & Ht & ->)%fmap_Some Hl. by apply (U t0).
Qed.

Lemma create_inv id session command principal goal criteria constraints digest :
  triple (inv_at id) (create_task_tx generate sha256_hex session command principal goal criteria constraints digest)
    (inv_at id).
Proof.
  unfold create_task_tx. eapply triple_bind; [apply triple_frame, frame_all_fresh|]. intros task. cbv zeta.
  eapply triple_bind; [by apply insert_task_inv|]. intros _.
  eapply triple_bind; [apply triple_frame, frame_enumerate; intros; unfold insert_criterion; track|]. intros _.

  eapply triple_bind; [apply triple_frame, frame_enumerate; intros; unfold insert_constraint; track|]. intros _.
  eapply triple_bind; [apply touch_inv|]. intros _.
  eapply triple_bind; [apply triple_frame, frame_all_append|]. intros _.
  eapply triple_bind; [apply triple_frame; unfold snapshot_in_tx; track|]. intros sn.
  eapply triple_bind; [apply triple_frame; unfold record_receipt; track|]. intros _. apply triple_ret.
Qed.
End Kept.

(** * The identifiers of questions stay distinct *)

Definition question_ids (db : TaskDb) : list QuestionId := map qr_id (question_rows db).

Definition distinct (db db' : TaskDb) : Prop := NoDup (question_ids db) -> NoDup (question_ids db').

#[export] Instance distinct_preorder : PreOrder distinct.
Proof. split; unfold distinct; [by intros db|]. auto. Qed.

Lemma distinct_same db db' : question_rows db' = question_rows db -> distinct db db'.
Proof. unfold distinct, question_ids. by intros ->. Qed.

Lemma distinct_map f db : (forall q, qr_id (f q) = qr_id q) -> distinct db (on_question_rows (map f) db).
Proof.
  intros Hf. unfold distinct, question_ids. simpl. rewrite map_map. by rewrite (map_ext (fun q => qr_id (f q)) qr_id Hf).
Qed.

Lemma kill_id dies q : qr_id (kill dies q) = qr_id q.
Proof. unfold kill. by destruct (dies q). Qed.

#[export] Hint Extern 1 (distinct _ _) => by apply distinct_same : track.

Section Distinct.
Context `{JsonCodec AnswerSelection} `{JsonCodec CommandResult} `{JsonCodec AnsweredForkIdentity}.
Context `{JsonCodec (SessionId * string * string * list string * list string)}.
Variable generate : nat -> string.
Variable sha256_hex : string -> string.

Lemma distinct_append session task aggregate ty delta origin :
  tracks distinct (append_event generate session task aggregate ty delta origin).
Proof. intros db u db' (event & ->)%append_journal. by apply distinct_same. Qed.

Lemma distinct_fresh : tracks distinct (fresh_id generate).
Proof. intros db a db' [= <- <-]. by apply distinct_same. Qed.

Lemma distinct_supersede dies : tracks distinct (supersede dies).
Proof. intros db a db' [_ ->]%supersede_Ok. apply distinct_map, kill_id. Qed.

Hint Resolve distinct_append distinct_fresh distinct_supersede : track.

Lemma distinct_settle_lifecycle task : tracks distinct (settle_plan_lifecycle task).
Proof. unfold settle_plan_lifecycle, release_plan_owned_block. track. Qed.

Hint Resolve distinct_settle_lifecycle : track.

Lemma distinct_settle task : tracks distinct (settle_plan_state task).
Proof. unfold settle_plan_state, settle_gate_hold. track. Qed.

Lemma distinct_change task named writer change : tracks distinct (apply_plan_row_change task named writer change).
Proof. unfold apply_plan_row_change. track. Qed.

Lemma distinct_reset task derived stored reset : tracks distinct (reset_rows task derived stored reset).
Proof. revert reset. induction stored as [|row stored IH]; intros reset; simpl; track; auto. Qed.

Lemma distinct_supersede_rows session task selection next rows superseded :
  tracks distinct (supersede_rows generate session task selection next rows superseded).
Proof. revert superseded. induction rows as [|row rows IH]; intros superseded; simpl; track; auto. Qed.

Lemma distinct_enumerate f position texts :
  (forall i t, tracks distinct (f i t)) -> tracks distinct (tx_enumerate f position texts).
Proof. intros Hf. revert position. induction texts as [|t texts IH]; intros position; simpl; track; auto. Qed.

Lemma distinct_insert_task id row : tracks distinct (insert_task id row).
Proof. intros db a db'. unfold insert_task. destruct (_ !! _); [done|]. intros [= <- <-]. by apply distinct_same. Qed.

Lemma distinct_task_of id : tracks distinct (task_of_obligation id).
Proof. intros db a db'. unfold task_of_obligation. destruct (find _ _); [|done]. intros [= <- <-]. reflexivity. Qed.

Lemma distinct_question session q : tracks distinct (insert_question generate session q).
Proof.
  intros db u db' (task & events & n & _ & _ & _ & _ & Hnew & ->)%insert_question_Ok Hnd. unfold question_ids. simpl.
  rewrite map_app, map_map, (map_ext (fun q => qr_id (kill_stale _ _ q)) qr_id); [|intros; apply kill_id]. simpl.
  apply NoDup_app. split_and!; [done| |apply NoDup_singleton].
  intros x Hx Hin. apply list_elem_of_singleton in Hin as ->. by apply Hnew.
Qed.

Lemma distinct_answer session task_id question rev selection author :
  tracks distinct (answer_question_tx generate session task_id question rev selection author).
Proof.
  intros db a db' (task & row & events & n & retained & _ & _ & _ & _ & _ & _ & _ & _ & _ & Hret & Hs)%answer_question_Ok.
  apply distinct_settle_lifecycle in Hs. etrans; [|exact Hs].
  transitivity (on_question_rows (map (answered_row question (to_json selection) author)) db).
  - apply distinct_map. intros q. unfold answered_row. by destruct (String.eqb _ _).
  - by destruct Hret as [->|(? & ? & ->)]; apply distinct_same.
Qed.

Hint Resolve distinct_settle distinct_change distinct_reset distinct_supersede_rows distinct_insert_task
  distinct_task_of distinct_question distinct_answer : track.

Lemma tx_distinct A (m : stx A) : TaskTx generate sha256_hex A m -> tracks distinct m.
Proof.
  destruct 1 as [? ? []|]; try solve [auto 2 with track nocore].
  all: unfold create_task_tx, publish_plan_fork_tx, release_plan_owned_block, pause_for_workflow_off_tx, steer_task_tx,
    cancel_task_tx, supersede_pending_questions, supersede_terminal_questions, snapshot_in_tx, plan_attempt_tx,
    set_attempt_state_tx, insert_evidence_tx, insert_evidence_for_task_tx, support_obligation, invalidate_evidence_tx,
    mark_applicability_unresolved_tx, mark_plan_applicability_unresolved_tx, block_foreign, insert_obligation,
    delete_scoped_record_tx, complete_task_tx, record_plan_selection_tx, reset_recovered_plan_rows,
    supersede_plan_questions, insert_plan_obligation, update_plan_row_tx, record_plan_revision_tx, insert_plan_revision,
    record_plan_assessment_tx, hold_for_plan_gate_tx, check_plan_binding, require_open_task, insert_answer_attempt,
    record_receipt; track.
  all: first [ by apply distinct_same
             | apply distinct_enumerate; intros; unfold insert_criterion, insert_constraint; track;
               apply tracks_guarded; intros; by apply distinct_same
             | apply tracks_guarded; intros; by apply distinct_same ].
Qed.
End Distinct.

(** * Every transaction keeps the invariant *)

Record store_inv (db : TaskDb) : Prop := mkStoreInv {
  si_distinct : NoDup (question_ids db);
  si_tasks : forall id, inv_at id db;
}.

Lemma empty_inv : store_inv empty_db.
Proof.
  split; [constructor|]. intros id. split; [split|..]; unfold plan_selection_on, gate_hold_on, pendings; simpl;
    rewrite ?lookup_empty; try done; try lia.
  - set_solver.
Qed.

Section Inv.
Context `{JsonCodec AnswerSelection} `{JsonCodec CommandResult} `{JsonCodec AnsweredForkIdentity}.
Context `{JsonCodec (SessionId * string * string * list string * list string)}.
Variable generate : nat -> string.
Variable sha256_hex : string -> string.

(** A transaction on one task: what it keeps there, and its frame elsewhere. *)
Lemma at_task {A} id task (m : stx A) :
  triple (inv_at task) m (inv_at task) -> (task <> id -> tracks (frame_at id) m) -> triple (inv_at id) m (inv_at id).
Proof. intros Hin Hout. destruct (decide (task = id)) as [<-|Hne]; [done|]. by apply triple_frame, Hout. Qed.

Lemma frame_all_set id attempt state detail : tracks (frame_at id) (set_attempt_state_tx attempt state detail).
Proof. unfold set_attempt_state_tx. track. Qed.

Lemma frame_all_delete id task evidence : tracks (frame_at id) (delete_scoped_record_tx task evidence).
Proof. unfold delete_scoped_record_tx. track. Qed.

Lemma frame_all_plan_attempt id task class describe : tracks (frame_at id) (plan_attempt_tx generate task class describe).
Proof. unfold plan_attempt_tx. track; [apply frame_all_fresh|apply frame_guarded; by split]. Qed.

Lemma frame_all_obligation id task criterion : tracks (frame_at id) (insert_obligation generate task criterion).
Proof. unfold insert_obligation. track; [apply frame_all_fresh|apply frame_guarded; by split]. Qed.

Lemma frame_all_evidence id task index scope observation digest :
  tracks (frame_at id) (insert_evidence_tx generate task index scope observation digest).
Proof. unfold insert_evidence_tx. pose proof (frame_support generate id). track; auto. Qed.

Lemma frame_all_evidences id task scope observation digest :
  tracks (frame_at id) (insert_evidence_for_task_tx generate task scope observation digest).
Proof. unfold insert_evidence_for_task_tx. pose proof (frame_support generate id). track; auto. Qed.

Lemma tx_inv_at A (m : stx A) id db a db' :
  TaskTx generate sha256_hex A m -> NoDup (question_ids db) -> inv_at id db -> m db = Ok (a, db') -> inv_at id db'.
Proof.
  intros Hm Hnd V Hr. destruct Hm as [? ? []|].
  4: { destruct (decide (task = id)) as [<-|Hne]; [by eapply answer_inv|].
       eapply inv_at_frame; [|exact V]. by eapply frame_answer. }
  all: revert V Hr; revert db Hnd a db'; intros db _ a db'; revert db a db';
       match goal with |- forall db a db', inv_at ?i db -> ?m db = Ok (a, db') -> inv_at ?i db' =>
         change (triple (inv_at i) m (inv_at i)) end.
  - apply create_inv.
  - eapply at_task; [apply question_inv|]. intros; by eapply frame_question.
  - eapply at_task; [apply fork_inv|]. intros; by eapply frame_fork.
  - apply triple_frame, tracks_modify. by split.
  - eapply at_task; [apply pause_inv|]. intros; by apply frame_pause.
  - eapply at_task; [apply steer_inv|]. intros; by apply frame_steer.
  - eapply at_task; [apply cancel_inv|]. intros; by apply frame_cancel.
  - apply triple_frame, frame_all_plan_attempt.
  - apply triple_frame, frame_all_set.
  - apply triple_frame, frame_all_evidence.
  - apply triple_frame, frame_all_evidences.
  - apply invalidate_inv.
  - apply mark_inv.
  - eapply at_task; [apply mark_plan_inv|]. intros; by apply frame_mark_plan.
  - eapply at_task; [by apply block_kept|]. intros; by apply frame_block.
  - apply triple_frame, frame_all_obligation.
  - apply triple_frame, frame_all_delete.
  - eapply at_task; [apply select_inv|]. intros; by apply frame_select.
  - eapply at_task; [apply update_row_inv|]. intros; by apply frame_update_row.
  - eapply at_task; [apply record_revision_inv|]. intros; by apply frame_revision.
  - eapply at_task; [apply record_assessment_inv|]. intros; by apply frame_assess.
  - eapply at_task; [apply hold_gate_inv|]. intros; by apply frame_hold_gate.
  - eapply at_task; [apply complete_task_inv|]. intros; by apply frame_complete.
Qed.

Lemma tx_inv A (m : stx A) db a db' :
  TaskTx generate sha256_hex A m -> store_inv db -> m db = Ok (a, db') -> store_inv db'.
Proof.
  intros Hm [Hnd Hi] Hr. split; [by eapply tx_distinct|]. intros id. by eapply tx_inv_at.
Qed.
End Inv.
