(* ===== verification/Codecs.v ===== *)
(** The codecs of the task store: a streaming encoding of its views into tokens, and
    of the tokens into one string, which reads back. *)

From stdpp Require Import countable finite.
From S2P Require Import Prelude.
From S2P Require Import Contracts.
From S2P Require Import Text.
From S2P Require Import Store.
From S2P Require Import Codes.
From S2P Require Import TaskDb.
From S2P Require Import TaskStore.

(** * Tokens and their text *)

(** A plus before every character of a token, a point after its last. *)
Fixpoint join_token (token rest : string) : string :=
  match token with
  | EmptyString => String "." rest
  | String c token => String "+" (String c (join_token token rest))
  end.
Definition join_tokens (tokens : list string) : string := foldr join_token EmptyString tokens.

Fixpoint split_tokens (s : string) : option (list string) :=
  match s with
  | EmptyString => Some []
  | String d s =>
      if Ascii.eqb d "." then cons EmptyString <$> split_tokens s
      else match s with
           | EmptyString => None
           | String c s =>
               match split_tokens s with
               | Some (token :: tokens) => Some (String c token :: tokens)
               | _ => None
               end
           end
  end.

Lemma split_join tokens : split_tokens (join_tokens tokens) = Some tokens.
Proof.
  induction tokens as [|token tokens IH]; [done|]. simpl. induction token as [|c token IHt]; simpl; [by rewrite IH|].
  by rewrite IHt.
Qed.

#[local] Obligation Tactic := idtac.

(** * Types that stream *)

Class Stream (A : Type) := {
  emit : A -> list string;
  absorb : list string -> option (A * list string);
  absorb_emit : forall a rest, absorb (emit a ++ rest) = Some (a, rest);
}.

Program Definition stream_codec (A : Type) `{Stream A} : JsonCodec A :=
  Build_JsonCodec A (fun a => join_tokens (emit a)) (fun s => tokens ← split_tokens s; fst <$> absorb tokens) _.
Next Obligation. intros A SA a. simpl. rewrite split_join. simpl. by rewrite <- (app_nil_r (emit a)), absorb_emit. Qed.

#[export] Program Instance string_stream : Stream string :=
  Build_Stream string (fun s => [s]) (fun ts => match ts with s :: ts => Some (s, ts) | [] => None end) _.
Next Obligation. done. Qed.

(** A countable type streams its code, in one token. *)
Program Definition code_stream (A : Type) `{Countable A} : Stream A :=
  Build_Stream A (fun a => [code_of a])
    (fun ts => match ts with t :: ts => (fun a => (a, ts)) <$> of_code t | [] => None end) _.
Next Obligation. intros A Heq Hc a rest. cbn [app]. by rewrite of_code_of. Qed.

#[export] Program Instance prod_stream {A B} `{Stream A} `{Stream B} : Stream (A * B) :=
  Build_Stream (A * B) (fun p => emit p.1 ++ emit p.2)
    (fun ts => p ← absorb ts; q ← absorb p.2; Some ((p.1, q.1), q.2)) _.
Next Obligation. intros A B SA SB [a b] rest. simpl. rewrite <- app_assoc, absorb_emit. simpl. by rewrite absorb_emit. Qed.

#[export] Instance nat_stream : Stream nat := code_stream nat.
#[export] Instance Z_stream : Stream Z := code_stream Z.

Fixpoint absorb_list {A} `{Stream A} (n : nat) (ts : list string) : option (list A * list string) :=
  match n with
  | 0 => Some ([], ts)
  | S n => p ← absorb ts; q ← absorb_list n p.2; Some (p.1 :: q.1, q.2)
  end.
#[export] Program Instance list_stream {A} `{Stream A} : Stream (list A) :=
  Build_Stream (list A) (fun l => emit (length l) ++ flat_map emit l)
    (fun ts => p ← absorb ts; absorb_list p.1 p.2) _.
Next Obligation.
  intros A SA l rest. cbv beta. rewrite <- app_assoc, absorb_emit. simpl. induction l as [|a l IH]; [done|]. simpl.
  rewrite <- app_assoc, absorb_emit. simpl. by rewrite IH.
Qed.

(** A type that is read through another. *)
Section Via.
Context {A B : Type} `{Stream B} (f : A -> B) (g : B -> A) (Hgf : forall a, g (f a) = a).

Program Definition via : Stream A :=
  Build_Stream A (fun a => emit (f a)) (fun ts => p ← absorb ts; Some (g p.1, p.2)) _.
Next Obligation. intros a rest. simpl. rewrite absorb_emit. simpl. by rewrite Hgf. Qed.
End Via.

#[export] Instance option_stream {A} `{Stream A} : Stream (option A) :=
  via option_list (fun l => match l with a :: _ => Some a | [] => None end) ltac:(by intros []).

(** * The views of the task store *)

Ltac finite_by all := refine {| enum := all |}; [repeat constructor; set_solver|intros []; set_solver].

#[export] Instance lifecycle_finite : Finite Lifecycle.
Proof. finite_by [LRunning; LWaiting; LPaused; LBlocked; LCompleted; LCancelled]. Defined.
#[export] Instance execution_finite : Finite ObligationExecution.
Proof. finite_by [Pending; Satisfied; Failed; Stale]. Defined.
#[export] Instance applicability_finite : Finite ObligationApplicability.
Proof. finite_by [Required; NotApplicable; Unresolved]. Defined.
#[export] Instance class_finite : Finite EffectClass.
Proof. finite_by [Read; Write; Exec; Egress; Model; Control]. Defined.
#[export] Instance attempt_eq_dec : EqDecision AttemptState.
Proof. solve_decision. Defined.
#[export] Instance attempt_finite : Finite AttemptState.
Proof. finite_by [Planned; AttemptAdmitted; Running; Confirmed; Rejected; CancelRequested; Unknown]. Defined.
#[export] Instance error_code_finite : Finite ErrorCode.
Proof.
  finite_by [InvalidInput; UnsupportedVersion; UnknownMethod; NotFound; Conflict; StaleIntent; AlreadyTerminal; Denied;
    CapabilityUnavailable; DependencyBlocked; OutcomeUnknown; ContextOverflow; BudgetExhausted; StorageUnavailable;
    OutputLimit; InternalError; ErrCancelled].
Defined.

#[export] Instance lifecycle_stream : Stream Lifecycle := code_stream _.
#[export] Instance execution_stream : Stream ObligationExecution := code_stream _.
#[export] Instance applicability_stream : Stream ObligationApplicability := code_stream _.
#[export] Instance class_stream : Stream EffectClass := code_stream _.
#[export] Instance attempt_stream : Stream AttemptState := code_stream _.
#[export] Instance error_code_stream : Stream ErrorCode := code_stream _.

Definition condition_parts (c : ResumeCondition) : nat * (string * Z) :=
  match c with
  | ByDecision q r => (0, (q, r))
  | NoReadyAction => (1, (EmptyString, 0%Z))
  | ByDependency a => (2, (a, 0%Z))
  | ByReconciliation a => (3, (a, 0%Z))
  end.
Definition parts_condition (p : nat * (string * Z)) : ResumeCondition :=
  match p.1 with
  | 0 => ByDecision p.2.1 p.2.2
  | 1 => NoReadyAction
  | 2 => ByDependency p.2.1
  | _ => ByReconciliation p.2.1
  end.
#[export] Instance condition_stream : Stream ResumeCondition := via condition_parts parts_condition ltac:(by intros []).
#[export] Instance selection_stream : Stream AnswerSelection :=
  via (fun s => match s with SelOption o => (0, o) | SelCustom t => (1, t) end)
    (fun p => match p.1 with 0 => SelOption p.2 | _ => SelCustom p.2 end) ltac:(by intros []).
#[export] Instance blocker_stream : Stream Blocker :=
  via (fun b => (b_reason b, b_owner b, b_condition b)) (fun '(r, o, c) => mkBlocker r o c) ltac:(by intros []).
#[export] Instance page_stream {T} `{Stream T} : Stream (Page T).
Proof.
  apply (via (B := list T * Z * option string) (fun p : Page T => (items p, snapshot_generation p, Contracts.next_cursor p))
    (fun '(i, s, n) => mkPage i s n)). by intros [].
Defined.
#[export] Instance criterion_stream : Stream Criterion :=
  via (fun c => (cr_id c, cr_text c)) (fun '(i, t) => mkCriterion i t) ltac:(by intros []).
#[export] Instance obligation_stream : Stream Obligation :=
  via (fun o => (o_id o, o_criterion_refs o, o_applicability o, o_execution o, o_basis_refs o))
    (fun '(i, c, a, e, b) => mkObligation i c a e b) ltac:(by intros []).
#[export] Instance attempt_ref_stream : Stream AttemptRef :=
  via (fun a => (ar_attempt_id a, ar_action_id a, ar_effect_class a, ar_state a))
    (fun '(i, a, c, s) => mkAttemptRef i a c s) ltac:(by intros []).
#[export] Instance artifact_stream : Stream ArtifactRef :=
  via (fun a => (af_id a, af_digest a, af_size_bytes a, af_media_type a, af_scope a))
    (fun '(i, d, z, m, s) => mkArtifactRef i d z m s) ltac:(by intros []).
#[export] Instance snapshot_stream : Stream TaskSnapshot :=
  via (fun s => ((sn_task_id s, sn_revision s, sn_intent_revision s, sn_lifecycle s, sn_goal_ref s),
                 (sn_contract_revision s, sn_constraints s, sn_criteria s, sn_obligations s),
                 (sn_actions s, sn_attempts s, sn_decision_refs s, sn_event_cursor s, sn_blockers s)))
    (fun '((t, r, i, l, g), (c, k, cr, o), (a, at_, d, e, b)) => mkTaskSnapshot t r i l g c k cr o a at_ d e b)
    ltac:(by intros []).
#[export] Instance command_result_stream : Stream CommandResult :=
  via (fun c => (cr_status c, cr_task_id c, cr_task_revision c, cr_intent_revision c, cr_event_cursor c,
                 cr_snapshot c, cr_contract_revision c))
    (fun '(s, t, r, i, e, sn, c) => mkCommandResult s t r i e sn c) ltac:(by intros []).
#[export] Instance fork_identity_stream : Stream AnsweredForkIdentity :=
  via (fun f => (fi_question_id f, fi_question_revision f, fi_selection_revision f, fi_facts_digest f))
    (fun '(q, r, s, d) => mkForkIdentity q r s d) ltac:(by intros []).

#[export] Instance selection_json : JsonCodec AnswerSelection := stream_codec _.
#[export] Instance command_result_json : JsonCodec CommandResult := stream_codec _.
#[export] Instance fork_identity_json : JsonCodec AnsweredForkIdentity := stream_codec _.
#[export] Instance params_json : JsonCodec (SessionId * string * string * list string * list string) := stream_codec _.
