(* ===== verification/TaskStoreProps.v ===== *)
(** The guarantees of the task store, over every run of its calls: what a running
    task is free of, what it waits on, how it moves and completes, what is written
    once and never lost. *)

From stdpp Require Import sorting pretty.
From S2P Require Import Prelude.
From S2P Require Import Contracts.
From S2P Require Import Text.
From S2P Require Import Requests.
From S2P Require Import Store.
From S2P Require Import Actions.
From S2P Require Import Procedure.
From S2P Require Import TaskDb.
From S2P Require Import PlanGate.
From S2P Require Import TaskStore.
From S2P Require Import TaskCalls.
From S2P Require Import TaskStoreThms.
From S2P Require Import TaskStoreInv.
From S2P Require Import TaskStoreKept.
From S2P Require Import Codecs.

(** * Further relations between the databases of a run *)

(** ** Receipts *)

Definition receipts_grow (db db' : TaskDb) : Prop := exists more, receipt_rows db' = receipt_rows db ++ more.

#[export] Instance receipts_preorder : PreOrder receipts_grow.
Proof.
  split; [intros db; by exists []; rewrite app_nil_r|]. intros a b c [m1 E1] [m2 E2]. exists (m1 ++ m2).
  by rewrite E2, E1, app_assoc.
Qed.

Lemma receipts_same db db' : receipt_rows db' = receipt_rows db -> receipts_grow db db'.
Proof. intros E. exists []. by rewrite E, app_nil_r. Qed.

Lemma receipt_grows command db db' r :
  receipts_grow db db' -> receipt_on command db = Some r -> receipt_on command db' = Some r.
Proof.
  unfold receipt_on. intros [more ->] (x & Hx & ->)%fmap_Some. by rewrite find_app, Hx.
Qed.

(** ** Questions that are over *)

(** A question that is not pending stays so, under its identifier. *)
Definition ends (db db' : TaskDb) : Prop :=
  forall q, q ∈ question_rows db -> qr_state q <> QPending ->
    exists q', q' ∈ question_rows db' /\ qr_id q' = qr_id q /\ qr_state q' <> QPending.

#[export] Instance ends_preorder : PreOrder ends.
Proof.
  split; [intros db q Hq Hs; by exists q|]. intros a b c H1 H2 q Hq Hs.
  destruct (H1 q Hq Hs) as (q1 & Hq1 & <- & Hs1). by apply H2.
Qed.

Lemma ends_same db db' : question_rows db' = question_rows db -> ends db db'.
Proof. intros E q Hq Hs. exists q. by rewrite E. Qed.

Lemma ends_map f db :
  (forall q, qr_id (f q) = qr_id q /\ (qr_state q <> QPending -> qr_state (f q) <> QPending)) ->
  ends db (on_question_rows (map f) db).
Proof.
  intros Hf q Hq Hs. destruct (Hf q) as [Hi Hp]. exists (f q). split_and!; auto. simpl.
  by apply (list_elem_of_fmap_2 f).
Qed.

Lemma kill_over dies q : qr_state q <> QPending -> qr_state (kill dies q) <> QPending.
Proof. unfold kill. by destruct (dies q). Qed.

#[export] Hint Extern 1 (ends _ _) => by apply ends_same : track.
#[export] Hint Extern 1 (receipts_grow _ _) => by apply receipts_same : track.

Section Relations.
Context `{JsonCodec AnswerSelection} `{JsonCodec CommandResult} `{JsonCodec AnsweredForkIdentity}.
Context `{JsonCodec (SessionId * string * string * list string * list string)}.
Variable generate : nat -> string.
Variable sha256_hex : string -> string.

Lemma receipts_append session task aggregate ty delta origin :
  tracks receipts_grow (append_event generate session task aggregate ty delta origin).
Proof. intros db u db' (event & ->)%append_journal. by apply receipts_same. Qed.
Lemma receipts_fresh : tracks receipts_grow (fresh_id generate).
Proof. intros db a db' [= <- <-]. by apply receipts_same. Qed.
Lemma receipts_supersede dies : tracks receipts_grow (supersede dies).
Proof. intros db a db' [_ ->]%supersede_Ok. by apply receipts_same. Qed.
Lemma receipts_insert_task id row : tracks receipts_grow (insert_task id row).
Proof. intros db a db'. unfold insert_task. destruct (_ !! _); [done|]. intros [= <- <-]. by apply receipts_same. Qed.
Lemma receipts_task_of id : tracks receipts_grow (task_of_obligation id).
Proof. intros db a db'. unfold task_of_obligation. destruct (find _ _); [|done]. intros [= <- <-]. reflexivity. Qed.
Lemma receipts_record command session principal digest result :
  tracks receipts_grow (record_receipt command session principal digest result).
Proof. apply tracks_guarded. intros db. by eexists. Qed.
Lemma receipts_enumerate f position texts :
  (forall i t, tracks receipts_grow (f i t)) -> tracks receipts_grow (tx_enumerate f position texts).
Proof. intros Hf. revert position. induction texts as [|t texts IH]; intros position; simpl; track; auto. Qed.
Lemma receipts_reset task derived stored reset : tracks receipts_grow (reset_rows task derived stored reset).
Proof. revert reset. induction stored as [|row stored IH]; intros reset; simpl; track; auto. Qed.
Hint Resolve receipts_append receipts_fresh receipts_supersede receipts_insert_task receipts_task_of receipts_record
  receipts_reset : track.
Lemma receipts_supersede_rows session task selection next rows superseded :
  tracks receipts_grow (supersede_rows generate session task selection next rows superseded).
Proof. revert superseded. induction rows as [|row rows IH]; intros superseded; simpl; track; auto. Qed.
Hint Resolve receipts_supersede_rows : track.

Lemma tx_receipts A (m : stx A) : TaskTx generate sha256_hex A m -> tracks receipts_grow m.
Proof.
  destruct 1 as [? ? []|]; track.
  all: first [ by apply receipts_same
             | apply receipts_enumerate; intros; unfold insert_criterion, insert_constraint; track;
               apply tracks_guarded; intros; by apply receipts_same
             | apply tracks_guarded; intros; by apply receipts_same ].
Qed.

Lemma ends_append session task aggregate ty delta origin :
  tracks ends (append_event generate session task aggregate ty delta origin).
Proof. intros db u db' (event & ->)%append_journal. by apply ends_same. Qed.
Lemma ends_fresh : tracks ends (fresh_id generate).
Proof. intros db a db' [= <- <-]. by apply ends_same. Qed.
Lemma ends_supersede dies : tracks ends (supersede dies).
Proof. intros db a db' [_ ->]%supersede_Ok. apply ends_map. intros q. split; [apply kill_id|apply kill_over]. Qed.
Lemma ends_insert_task id row : tracks ends (insert_task id row).
Proof. intros db a db'. unfold insert_task. destruct (_ !! _); [done|]. intros [= <- <-]. by apply ends_same. Qed.
Lemma ends_task_of id : tracks ends (task_of_obligation id).
Proof. intros db a db'. unfold task_of_obligation. destruct (find _ _); [|done]. intros [= <- <-]. reflexivity. Qed.
Lemma ends_enumerate f position texts :
  (forall i t, tracks ends (f i t)) -> tracks ends (tx_enumerate f position texts).
Proof. intros Hf. revert position. induction texts as [|t texts IH]; intros position; simpl; track; auto. Qed.
Lemma ends_reset task derived stored reset : tracks ends (reset_rows task derived stored reset).
Proof. revert reset. induction stored as [|row stored IH]; intros reset; simpl; track; auto. Qed.
Lemma ends_publish row : tracks ends (tx_modify (on_question_rows (fun rows => rows ++ [row]))).
Proof.
  apply tracks_modify. intros db q Hq Hs. exists q. split_and!; [|done|done]. simpl. apply elem_of_app. by left.
Qed.
Lemma ends_answered question answer author :
  tracks ends (tx_modify (on_question_rows (map (answered_row question answer author)))).
Proof.
  apply tracks_modify. intros db. apply ends_map. intros q. unfold answered_row. by destruct (String.eqb _ _).
Qed.
Hint Resolve ends_append ends_fresh ends_supersede ends_insert_task ends_task_of ends_reset ends_publish
  ends_answered : track.
Lemma ends_supersede_rows session task selection next rows superseded :
  tracks ends (supersede_rows generate session task selection next rows superseded).
Proof. revert superseded. induction rows as [|row rows IH]; intros superseded; simpl; track; auto. Qed.
Hint Resolve ends_supersede_rows : track.
Lemma ends_settle task : tracks ends (settle_plan_lifecycle task).
Proof. unfold settle_plan_lifecycle, release_plan_owned_block. track. Qed.

Lemma tx_ends A (m : stx A) : TaskTx generate sha256_hex A m -> tracks ends m.
Proof.
  destruct 1 as [? ? []|]; track.
  all: first [ by apply ends_same
             | apply ends_enumerate; intros; unfold insert_criterion, insert_constraint; track;
               apply tracks_guarded; intros; by apply ends_same
             | apply tracks_guarded; intros; by apply ends_same ].
Qed.

(** The invariant of a run from the fresh store. *)
Lemma run_inv cs db : ts_conn (calls generate sha256_hex cs fresh_store) = Some db -> store_inv db.
Proof.
  intros Hs. eapply (calls_invariant generate sha256_hex store_inv cs fresh_store empty_db);
    [intros; by eapply tx_inv|done|apply empty_inv|exact Hs].
Qed.
End Relations.

(** * The guarantees *)

Section Guarantees.
Context `{JsonCodec AnswerSelection} `{JsonCodec CommandResult} `{JsonCodec AnsweredForkIdentity}.
Context `{JsonCodec (SessionId * string * string * list string * list string)}.
Variable generate : nat -> string.
Variable sha256_hex : string -> string.

Local Abbreviation call := (call generate sha256_hex).
Local Abbreviation calls := (calls generate sha256_hex).
Local Abbreviation commits := (commits generate sha256_hex).

(** C22.  A running task is held by nothing: after any calls it has no gate hold and no
    row of its plan that holds its lifecycle; and a gate hold, whatever the task's
    lifecycle, names the reason for which its gate is closed at that moment. *)
Theorem running_tasks_are_unheld cs db id t :
  ts_conn (calls cs fresh_store) = Some db -> tasks db !! id = Some t ->
  (tk_lifecycle t = LRunning ->
     gate_hold_on id db = None /\ Forall (fun row => holds_lifecycle row = false) (plan_rows_on id db)) /\
  (forall hold, gate_hold_on id db = Some hold ->
     exists gate, gate_on id db = Ok gate /\ gate <> GateOpen /\ gate_kind gate = hold).
Proof.
  intros Hs Ht. destruct (si_tasks db (run_inv generate sha256_hex cs db Hs) id) as [P Hh U]. split; [|exact Hh].
  intros Hl. specialize (U t Ht Hl). unfold held in U. apply orb_false_iff in U as [Hg Hr]. split.
  - case_bool_decide as Hn; [done|]. by destruct (gate_hold_on id db); [exfalso; apply Hn; eexists|].
  - apply Forall_forall. intros row Hrow. unfold plan_row_holds_on in Hr. apply not_true_iff_false. intros Htrue.
    apply not_true_iff_false in Hr. apply Hr, existsb_exists. exists row. by split; [apply list_elem_of_In|].
Qed.

(** C23.  A task waits on one question at a time: after any calls a pending question is
    the one [pending_question] finds for its task, the task is waiting, paused or
    blocked, and the question is pinned to an intent the task has had. *)
Theorem one_question_waits cs db q :
  ts_conn (calls cs fresh_store) = Some db -> q ∈ question_rows db -> qr_state q = QPending ->
  pending_question (qr_task q) db = Some q /\ q_intent_revision (qr_body q) = qr_intent q /\
  exists t, tasks db !! qr_task q = Some t /\ awaits (tk_lifecycle t) = true /\ (qr_intent q <= tk_intent t)%Z.
Proof.
  intros Hs Hq Hp. destruct (si_tasks db (run_inv generate sha256_hex cs db Hs) (qr_task q)) as [P _ _].
  assert (Hin : q ∈ pendings (qr_task q) db).
  { apply list_elem_of_filter. split; [|done]. unfold is_pending. by rewrite Hp, String.eqb_refl. }
  assert (Hone : pendings (qr_task q) db = [q]).
  { pose proof (pr_one _ _ P) as Ho. destruct (pendings (qr_task q) db) as [|x [|y l]];
      [by apply elem_of_nil in Hin| |simpl in Ho; lia]. by apply list_elem_of_singleton in Hin as <-. }
  split_and!.
  - unfold pending_question.
    assert (filter (fun x => is_pending (qr_task q) x) (question_rows db) = pendings (qr_task q) db) as ->; [|by rewrite Hone].
    unfold pendings. apply list_filter_iff. intros x. apply Is_true_true.
  - by apply (pr_intent _ _ P).
  - destruct (pr_intent _ _ P q Hin) as (_ & t & Ht & Hle). exists t. split_and!; [done| |done].
    destruct (pr_pending _ _ P) as (t' & Ht' & Ha); [by rewrite Hone|]. congruence.
Qed.

(** The question a successful answer closed. *)
Lemma answered_over session task question rev selection author s a :
  (answer_question generate session task question rev selection author s).1 = Ok a ->
  exists db, ts_conn (answer_question generate session task question rev selection author s).2 = Some db /\
    exists q, q ∈ question_rows db /\ qr_id q = question /\ qr_state q <> QPending.
Proof.
  unfold answer_question. destruct (transaction _ s) as [[a'|e] s1] eqn:Htx; [|by destruct (record_denied_attempt _ _ _ _ _ _ _) as [[]]].
  intros _. simpl. destruct (transaction_Ok (answer_question_tx generate session task question rev selection author) s a')
    as (db & db' & _ & Hb & Hs1); [by rewrite Htx|]. rewrite Htx in Hs1. simpl in Hs1. exists db'. subst s1.
  split; [done|]. apply answer_question_Ok in Hb as (t & row & events & n & retained & _ & _ & Hin & Hid & _ & _ & _ & _ & _ & Hret & Hset).
  apply ends_settle in Hset. destruct (Hset (answered_row question (to_json selection) author row)) as (q & Hq & Hqi & Hqs).
  - assert (Hrow : answered_row question (to_json selection) author row ∈
      map (answered_row question (to_json selection) author) (question_rows db)) by by apply list_elem_of_fmap_2.
    by destruct Hret as [->|(? & ? & ->)].
  - unfold answered_row. by rewrite Hid, String.eqb_refl.
  - exists q. split_and!; [done| |done]. rewrite Hqi. unfold answered_row. by rewrite Hid, String.eqb_refl.
Qed.

(** A question is answered at most once: in a store that any calls have led to,
    once an answer to it was applied no later answer to it is, whatever calls come
    between and whatever revision, selection or author the later one names. *)
Theorem answered_once before session task question rev selection author a between session' task' rev' selection' author' a' :
  (answer_question generate session task question rev selection author (calls before fresh_store)).1 = Ok a ->
  (answer_question generate session' task' question rev' selection' author'
     (calls between (answer_question generate session task question rev selection author (calls before fresh_store)).2)).1
  <> Ok a'.
Proof.
  intros Ha. destruct (answered_over _ _ _ _ _ _ _ _ Ha) as (db1 & Hs1 & q & Hq & Hid & Hover).
  set (s1 := (answer_question generate session task question rev selection author (calls before fresh_store)).2) in *.
  assert (Hrun : calls between s1 = calls (before ++ [AnswerQuestion session task question rev selection author] ++ between) fresh_store).
  { unfold TaskCalls.calls. by rewrite !fold_left_app. }
  unfold answer_question at 1. intros Hb. destruct (transaction _ (calls between s1)) as [[a2|e] s2] eqn:Htx;
    [|by destruct (record_denied_attempt _ _ _ _ _ _ _) as [[]]].
  destruct (transaction_Ok (answer_question_tx generate session' task' question rev' selection' author') (calls between s1) a2)
    as (db & db' & Hc & Hbody & _); [by rewrite Htx|].
  assert (Hs : ts_conn (calls between s1) = Some db).
  { revert Hc. unfold conn_mut. destruct (ts_held_claim_commit _); [done|]. destruct (negb _); [done|].
    destruct (ts_conn (calls between s1)); [|done]. by intros [= ->]. }
  destruct (calls_relation generate sha256_hex ends between s1 db1 db) with (q := q) as (q' & Hq' & Hid' & Hover'); [|done..|].
  { intros A m dbx ax dby Hm Hr. by eapply tx_ends. }
  apply answer_question_Ok in Hbody as (t & row & events & n & retained & _ & _ & Hin & Hrid & _ & Hpend & _).
  assert (Hnd : NoDup (question_ids db)) by (rewrite Hrun in Hs; by eapply si_distinct, run_inv).
  apply Hover'. enough (q' = row) as -> by done.
  apply list_elem_of_lookup in Hq' as [i Hi]. apply list_elem_of_lookup in Hin as [j Hj].
  assert (i = j) as ->; [|congruence]. eapply (NoDup_lookup (question_ids db)); [done| |];
    unfold question_ids; rewrite list_lookup_fmap; [by rewrite Hi|rewrite Hj; simpl; congruence].
Qed.

(** A run of plain transactions completes nothing. *)
Lemma plain_run_moves db db' : rtc (plain_commits generate sha256_hex) db db' -> moves db db'.
Proof.
  induction 1 as [|db db1 db' (A & m & a & Hm & Hr) _ IH]; [reflexivity|]. etrans; [|exact IH]. by eapply plain_moves.
Qed.

(** The task is completed in the database of a store. *)
Definition completed_in (id : TaskId) (s : Store) : bool :=
  match ts_conn s with
  | Some db => match tasks db !! id with Some t => bool_decide (tk_lifecycle t = LCompleted) | None => false end
  | None => false
  end.

Lemma completed_in_spec id s :
  completed_in id s = true <->
  exists db t, ts_conn s = Some db /\ tasks db !! id = Some t /\ tk_lifecycle t = LCompleted.
Proof.
  unfold completed_in. split.
  - destruct (ts_conn s) as [db|]; [|done]. destruct (tasks db !! id) as [t|] eqn:Ht; [|done].
    intros Hc%bool_decide_eq_true. by exists db, t.
  - intros (db & t & -> & -> & ->). done.
Qed.

(** Moving the tasks completes none. *)
Lemma moves_complete_none id s db db' s' :
  ts_conn s = Some db -> ts_conn s' = Some db' -> moves db db' -> completed_in id s' = true -> completed_in id s = true.
Proof.
  intros Hs Hs' [_ D] (db1 & t & Hs1 & Ht & Hc)%completed_in_spec. rewrite Hs' in Hs1. injection Hs1 as <-.
  destruct (D id t Ht Hc) as (t0 & Ht0 & Hc0). apply completed_in_spec. by exists db, t0.
Qed.

(** The call that completes a task. *)
Lemma completing_call id c s :
  completed_in id s = false -> completed_in id (call c s) = true ->
  exists session db t db', c = CompleteIfEligible session id /\ ts_conn s = Some db /\ tasks db !! id = Some t /\
    lifecycle_is_terminal (tk_lifecycle t) = false /\ eligible id db /\ ts_conn (call c s) = Some db' /\
    tasks db' !! id = Some (moved (tk_revision t + 1) (with_lifecycle LCompleted t)).
Proof.
  intros Hno Hyes. pose proof Hyes as (db' & t' & Hs' & Ht' & Hc)%completed_in_spec.
  assert (Hmoves : forall db, ts_conn s = Some db -> ~ moves db db').
  { intros db Hs Hm. pose proof (moves_complete_none id s db db' _ Hs Hs' Hm Hyes). congruence. }
  destruct (completes c) eqn:Hk.
  2: { destruct (call_plain generate sha256_hex c s db' Hk Hs') as (db & Hs & Hr).
       exfalso. by apply (Hmoves db Hs), plain_run_moves. }
  destruct c as [| | | | | | | | | | | | | | | | | | |session task| | | | |]; try discriminate Hk.
  apply call_completing in Hs' as Hrun. destruct Hrun as [Hs|(db & a & Hs & Hr)].
  { exfalso. apply (Hmoves db' Hs). reflexivity. }
  apply complete_moves in Hr as [Hm|(t & events & n & Ht & Hl & He & Hdb')]; [by destruct (Hmoves db Hs)|].
  assert (task = id) as ->.
  { destruct (decide (task = id)) as [|Hne]; [done|]. subst db'. simpl in Ht'. rewrite lookup_alter_ne in Ht' by done.
    assert (completed_in id s = true) by (apply completed_in_spec; by exists db, t'). congruence. }
  exists session, db, t, db'. split_and!; try done. subst db'. simpl. by rewrite lookup_alter_eq, Ht.
Qed.

(** A task that is completed after a run was completed by one of its calls. *)
Lemma completed_somewhere id cs s :
  completed_in id s = false -> completed_in id (calls cs s) = true ->
  exists before c after, cs = before ++ c :: after /\
    completed_in id (calls before s) = false /\ completed_in id (call c (calls before s)) = true.
Proof.
  intros Hno. induction cs as [|c cs IH] using rev_ind; [simpl; congruence|].
  unfold TaskCalls.calls. rewrite fold_left_app. fold (calls cs s). simpl. intros Hyes.
  destruct (completed_in id (calls cs s)) eqn:Hc; [|by exists cs, c, []].
  destruct (IH eq_refl) as (before & c1 & after & -> & Hb & Ha).
  exists before, c1, (after ++ [c]). by rewrite <- app_assoc.
Qed.

(** C24.  A completion is earned.  In any run of calls from a fresh store, a call after
    which a task is completed and before which it was not is a completion call for that
    very task, which finds the task open and, in the database it finds, no obligation
    and no plan row of the task unsatisfied or unresolved, no effect of it with an
    unknown outcome and no stale evidence; of the task's row it changes the lifecycle,
    counts the revision and the cursor up, and changes nothing else.  A task that a run
    leaves completed was completed by one of its calls. *)
Theorem completion_is_earned id :
  (forall before c,
    completed_in id (calls before fresh_store) = false -> completed_in id (call c (calls before fresh_store)) = true ->
    exists session db t db', c = CompleteIfEligible session id /\
      ts_conn (calls before fresh_store) = Some db /\ tasks db !! id = Some t /\
      lifecycle_is_terminal (tk_lifecycle t) = false /\
      unsatisfied_total id db = 0 /\ unresolved_total id db = 0 /\ unknown_count id db = 0 /\ stale_total id db = 0 /\
      ts_conn (call c (calls before fresh_store)) = Some db' /\
      tasks db' !! id = Some (moved (tk_revision t + 1) (with_lifecycle LCompleted t))) /\
  (forall cs, completed_in id (calls cs fresh_store) = true ->
    exists before c after, cs = before ++ c :: after /\
      completed_in id (calls before fresh_store) = false /\ completed_in id (call c (calls before fresh_store)) = true).
Proof.
  split.
  - intros before c Hb Ha.
    destruct (completing_call id c _ Hb Ha) as (session & db & t & db' & ? & ? & ? & ? & (? & ? & ? & ?) & ? & ?).
    exists session, db, t, db'. by split_and!.
  - intros cs. apply completed_somewhere. unfold completed_in. simpl. by rewrite lookup_empty.
Qed.

(** Tasks only advance: whatever calls come, a task stays in its session with its
    goal, its revision and its intent never go back, and a cancelled task stays
    cancelled. *)
Theorem tasks_only_advance s cs db db' id t :
  ts_conn s = Some db -> ts_conn (calls cs s) = Some db' -> tasks db !! id = Some t ->
  exists t', tasks db' !! id = Some t' /\ tk_session t' = tk_session t /\ tk_goal t' = tk_goal t /\
    (tk_revision t <= tk_revision t')%Z /\ (tk_intent t <= tk_intent t')%Z /\
    (tk_lifecycle t = LCancelled -> tk_lifecycle t' = LCancelled).
Proof.
  intros Hs Hs' Ht.
  enough (forall db db', rtc commits db db' -> forall t, tasks db !! id = Some t ->
    exists t', tasks db' !! id = Some t' /\ advances t t') as Hall.
  { apply calls_commits in Hs' as (db0 & Hs0 & Hr). rewrite Hs in Hs0. injection Hs0 as <-.
    destruct (Hall db db' Hr t Ht) as (t' & Ht' & []). exists t'. by split_and!. }
  clear. intros db db'. induction 1 as [db|db db1 db' (A & m & a & Hm & He) _ IH]; intros t Ht; [by exists t|].
  assert (Hstep : exists t1, tasks db1 !! id = Some t1 /\ advances t t1).
  { destruct (tx_moves generate sha256_hex A m db a db1 Hm He) as [[R _]|(other & t1 & events & n & Ht1 & Hopen & _ & ->)].
    { by apply R. }
    simpl. destruct (decide (other = id)) as [->|Hne].
    - rewrite lookup_alter_eq, Ht1. rewrite Ht in Ht1. injection Ht1 as <-. eexists. split; [done|].
      apply advances_moved; [lia|]. intros Hc. by rewrite Hc in Hopen.
    - rewrite lookup_alter_ne by done. by exists t. }
  destruct Hstep as (t1 & Ht1 & Hadv). destruct (IH t1 Ht1) as (t' & Ht' & Hadv'). exists t'. split; [done|by etrans].
Qed.

(** The obligation behind an evidence row is unresolved once the row is withdrawn. *)
Lemma invalidated evidence s id :
  (invalidate_evidence evidence s).1 = Ok id ->
  exists db, ts_conn (invalidate_evidence evidence s).2 = Some db /\
    exists o, o ∈ obligation_rows db /\ ob_task o = id /\ ob_applicability o = Unresolved.
Proof.
  intros Hi. destruct (transaction_Ok _ _ _ Hi) as (db & db' & _ & Hb & Hs). exists db'. split; [unfold invalidate_evidence; by rewrite Hs|].
  apply tx_bind_Ok in Hb as (? & db1 & [= <- <-] & Hb).
  destruct (find _ (evidence_rows db)) as [e|]; [|done].
  apply tx_bind_Ok in Hb as (? & db1 & [= <- <-] & Hb). apply tx_bind_Ok in Hb as (? & db1 & [= <- <-] & Hb).
  apply tx_bind_Ok in Hb as (task & db1 & Htask & Hb). unfold task_of_obligation in Htask.
  destruct (find _ _) as [o|] eqn:Ho; [|done]. injection Htask as <- <-.
  apply tx_bind_Ok in Hb as (? & db2 & Hblock & Hb). injection Hb as <- <-.
  apply find_Some in Ho as [Ho Hid%String.eqb_eq]. exists o.
  unfold block_foreign in Hblock. apply tx_bind_Ok in Hblock as (? & db3 & [= <- <-] & [= _ <-]).
  split_and!; [exact Ho|done|]. simpl in Ho. apply list_elem_of_fmap in Ho as (o' & -> & _).
  revert Hid. unfold change_obligation. destruct (String.eqb_spec (ob_id o') (ed_obligation e)); [done|]. done.
Qed.

(** Withdrawn evidence bars completion for good: once [invalidate_evidence] has
    withdrawn a support of a task, no later [complete_if_eligible] completes that task,
    whatever calls come between. *)
Theorem withdrawn_evidence_bars_completion evidence s id cs session sn :
  (invalidate_evidence evidence s).1 = Ok id ->
  (complete_if_eligible generate session id (calls cs (invalidate_evidence evidence s).2)).1 <> Ok sn.
Proof.
  intros (db1 & Hs1 & o & Ho & Hid & Hu)%invalidated. set (s1 := (invalidate_evidence evidence s).2) in *.
  unfold complete_if_eligible. intros Hc.
  destruct (transaction _ (calls cs s1)) as [[[sn'|e]|e] s2] eqn:Htx; [|done|done].
  destruct (transaction_Ok (complete_task_tx generate session id) (calls cs s1) (Ok sn')) as (db & db' & Hconn & Hb & _);
    [by rewrite Htx|].
  assert (Hs : ts_conn (calls cs s1) = Some db).
  { revert Hconn. unfold conn_mut. destruct (ts_held_claim_commit _); [done|]. destruct (negb _); [done|].
    destruct (ts_conn (calls cs s1)); [|done]. by intros [= ->]. }
  assert (Hh : history db1 db).
  { eapply (calls_relation generate sha256_hex history cs s1); [|done|done]. intros A m dbx ax dby Hm Hr. by eapply tx_history. }
  destruct (hi_unresolved _ _ Hh o Ho Hu) as (o' & Ho' & _ & Ht' & Hu').
  apply complete_task_Ok in Hb as (t & _ & _ & (_ & Hunres & _) & _).
  unfold unresolved_total, unresolved_count in Hunres.
  assert (o' ∈ filter (fun o => ob_task o = id /\ ob_applicability o = Unresolved) (obligation_rows db)) as Hf.
  { apply list_elem_of_filter. split; [|done]. split; congruence. }
  destruct (filter _ (obligation_rows db)); [by apply elem_of_nil in Hf|done].
Qed.

(** The journals only grow: any calls append to the event outbox and to the answer
    journal, rewriting and removing nothing, and the cursors of the outbox stay strictly
    increasing. *)
Theorem journals_only_grow s cs db db' :
  ts_conn s = Some db -> ts_conn (calls cs s) = Some db' ->
  (exists events, event_rows db' = event_rows db ++ events) /\
  (exists answers, answer_rows db' = answer_rows db ++ answers) /\
  (StronglySorted Z.lt (map ev_cursor (event_rows db)) -> StronglySorted Z.lt (map ev_cursor (event_rows db'))).
Proof.
  intros Hs Hs'. destruct (calls_relation generate sha256_hex history cs s db db') as [? ? ? _]; [|done|done|by split_and!].
  intros A m dbx ax dby Hm Hr. by eapply tx_history.
Qed.

(** A refused answer changes nothing but the journal: when [answer_question] refuses
    on an open store, the database it leaves is the one before plus one answer attempt,
    denied, which keeps the selection as it was given and names the class of the refusal. *)
Theorem refused_answer_is_journalled session task question rev selection author s db e s' :
  conn_mut s = Ok db ->
  answer_question generate session task question rev selection author s = (Err e, s') ->
  ts_conn s' = Some (on_answer_rows (fun rows => rows ++
    [mkAnswerRow question task rev (to_json selection) author AttemptDenied (Some (denial_class e))]) db).
Proof.
  intros Hc. unfold answer_question.
  destruct (transaction (answer_question_tx generate session task question rev selection author) s) as [[a|e1] s1] eqn:Htx;
    [done|].
  assert (s1 = s) as ->.
  { pose proof (transaction_Err _ s e1 ltac:(by rewrite Htx)) as E. by rewrite Htx in E. }
  unfold record_denied_attempt, transaction. rewrite Hc. simpl. by intros [= <- <-].
Qed.

Lemma to_json_inj {A} `{JsonCodec A} (a b : A) : to_json a = to_json b -> a = b.
Proof. intros E. apply (f_equal from_json) in E. rewrite !from_to_json in E. by injection E. Qed.

(** The receipt an accepted creation leaves. *)
Lemma created_receipt session command principal goal criteria constraints s a :
  (create_task generate sha256_hex session command principal goal criteria constraints s).1 = Ok a ->
  exists db, ts_conn (create_task generate sha256_hex session command principal goal criteria constraints s).2 = Some db /\
    exists result, receipt_on command db = Some (to_json (session, principal, goal, criteria, constraints), result) /\
      from_json result = Some a.
Proof.
  unfold create_task. destruct (_ || _); [done|]. destruct (conn s) as [db|] eqn:Hc; [|done].
  assert (Hs : ts_conn s = Some db).
  { revert Hc. unfold conn. destruct (ts_held_claim_commit s); [done|]. destruct (ts_conn s); [|done]. by intros [= ->]. }
  destruct (receipt_on command db) as [[digest result]|] eqn:Hr.
  - destruct (String.eqb_spec digest (to_json (session, principal, goal, criteria, constraints))) as [->|]; [|done]. simpl.
    destruct (from_json result) as [b|] eqn:Hj; [|done]. intros [= ->]. exists db. split; [done|]. by exists result.
  - intros Ha. destruct (transaction_Ok _ s a Ha) as (db0 & db' & Hc' & Hb & Hs'). rewrite Hs'. exists db'.
    split; [done|]. unfold create_task_tx in Hb.
    apply tx_bind_Ok in Hb as (task & db1 & _ & Hb). cbv zeta in Hb.
    apply tx_bind_Ok in Hb as (? & db2 & Hdb2 & Hb). apply tx_bind_Ok in Hb as (? & db3 & Hdb3 & Hb).
    apply tx_bind_Ok in Hb as (? & db4 & Hdb4 & Hb). apply tx_bind_Ok in Hb as (? & db5 & Hdb5 & Hb).
    apply tx_bind_Ok in Hb as (? & db6 & Hdb6 & Hb). apply tx_bind_Ok in Hb as (sn & db7 & Hdb7 & Hb).
    apply tx_bind_Ok in Hb as (? & db8 & Hdb8 & Hb). injection Hb as <- <-.
    unfold record_receipt in Hdb8. destruct (existsb _ (receipt_rows db7)) eqn:He; [done|]. injection Hdb8 as _ <-.
    eexists. split; [|apply from_to_json]. unfold receipt_on. simpl. rewrite find_app.
    destruct (find _ (receipt_rows db7)) as [r|] eqn:Hf.
    + apply find_Some in Hf as [Hin Hrc]. exfalso. apply not_true_iff_false in He. apply He, existsb_exists.
      exists r. by split; [apply list_elem_of_In|].
    + rewrite find_cons. simpl. by rewrite String.eqb_refl.
Qed.

(** A command creates one task: once [create_task] has accepted a command, the same
    command with the same parameters gets the same answer and changes nothing, and with
    any other parameters it is a conflict that changes nothing, whatever calls come
    between. *)
Theorem create_is_idempotent session command principal goal criteria constraints s a cs db :
  (create_task generate sha256_hex session command principal goal criteria constraints s).1 = Ok a ->
  let s1 := calls cs (create_task generate sha256_hex session command principal goal criteria constraints s).2 in
  conn s1 = Ok db ->
  create_task generate sha256_hex session command principal goal criteria constraints s1 = (Ok a, s1) /\
  forall session' principal' goal' criteria' constraints',
    (session', principal', goal', criteria', constraints') <> (session, principal, goal, criteria, constraints) ->
    goal' <> EmptyString -> (slen goal' <= TEXT_MAX_BYTES)%Z ->
    create_task generate sha256_hex session' command principal' goal' criteria' constraints' s1 =
      (Err (StoreConflict (DuplicateCommand command)), s1).
Proof.
  intros Ha s1 Hc.
  assert (Hg : String.eqb goal EmptyString || (TEXT_MAX_BYTES <? slen goal)%Z = false).
  { revert Ha. unfold create_task. by destruct (_ || _). }
  destruct (created_receipt _ _ _ _ _ _ _ _ Ha) as (db0 & Hs0 & result & Hr & Hj).
  assert (Hs1 : ts_conn s1 = Some db).
  { revert Hc. unfold conn. destruct (ts_held_claim_commit s1); [done|]. destruct (ts_conn s1); [|done]. by intros [= ->]. }
  assert (Hr1 : receipt_on command db = Some (to_json (session, principal, goal, criteria, constraints), result)).
  { eapply receipt_grows; [|exact Hr]. eapply (calls_relation generate sha256_hex receipts_grow cs); [|exact Hs0|exact Hs1].
    intros A m dbx ax dby Hm Hb. by eapply tx_receipts. }
  split.
  - unfold create_task. by rewrite Hg, Hc, Hr1, String.eqb_refl, Hj.
  - intros session' principal' goal' criteria' constraints' Hne Hne' Hlen. unfold create_task.
    destruct (String.eqb_spec goal' EmptyString) as [|_]; [done|].
    replace (TEXT_MAX_BYTES <? slen goal')%Z with false by (symmetry; by apply Z.ltb_ge). simpl.
    rewrite Hc, Hr1. destruct (String.eqb_spec (to_json (session, principal, goal, criteria, constraints))
      (to_json (session', principal', goal', criteria', constraints'))) as [E|_]; [|done].
    apply to_json_inj in E. by rewrite E in Hne.
Qed.
End Guarantees.

(** * The gate *)

Lemma map_filter_nil {A B} (g : A -> B) (P : A -> Prop) `{!forall x, Decision (P x)} l :
  map g (filter P l) = [] <-> Forall (fun x => ~ P x) l.
Proof.
  rewrite Forall_forall. split.
  - intros Hn x Hx HP. assert (g x ∈ map g (filter P l)) as Hin by (apply list_elem_of_fmap_2; by apply list_elem_of_filter).
    rewrite Hn in Hin. by apply elem_of_nil in Hin.
  - intros Hno. rewrite filter_none; [done|]. intros x Hx. by apply Hno.
Qed.

Lemma closed_stages rows :
  Forall (fun row => stage row = true -> applicability row = Required -> execution row = Satisfied) rows <->
  map capability (filter (fun row => open_stage row) rows) = [].
Proof.
  rewrite map_filter_nil. apply Forall_iff. intros row. unfold open_stage. rewrite Is_true_true.
  split.
  - intros Hs [[Hst Ha%(proj1 (bool_decide_eq_true _))]%andb_true_iff He]%andb_true_iff.
    by rewrite bool_decide_true in He by auto.
  - intros Hn Hst Ha. destruct (decide (execution row = Satisfied)) as [|He]; [done|]. exfalso. apply Hn.
    by rewrite Hst, bool_decide_true, bool_decide_false.
Qed.

(** What opens the gate: [gate_on] answers open exactly when a selection is recorded,
    every row of the plan has its applicability, every required stage row is satisfied,
    and, where planning is required, the latest plan revision of that selection passed
    its assessment and the selection's revision fits the database's integer. *)
Theorem gate_opens_iff id db :
  gate_on id db = Ok GateOpen <->
  exists s, plan_selection_on id db = Some s /\
    Forall (fun row => applicability row <> Unresolved) (plan_rows_on id db) /\
    Forall (fun row => stage row = true -> applicability row = Required -> execution row = Satisfied) (plan_rows_on id db) /\
    (existsb (fun row => String.eqb (capability row) PLAN_WORK && bool_decide (applicability row = Required))
       (plan_rows_on id db) = true ->
     latest_verdict id (sel_revision s) db = Some Pass /\ (sel_revision s <= i64_max)%Z).
Proof.
  unfold gate_on. destruct (plan_selection_on id db) as [s|]; [|split; [done|by intros (? & ? & _)]].
  cbv zeta. set (rows := plan_rows_on id db).
  set (open := map capability (filter (fun row => open_stage row) rows)).
  set (unresolved := map capability (filter (fun row => applicability row = Unresolved) rows)).
  assert (Hu : Forall (fun row => applicability row <> Unresolved) rows <-> unresolved = []) by
    (unfold unresolved; by rewrite map_filter_nil).
  setoid_rewrite (closed_stages rows). setoid_rewrite Hu. fold open.
  assert (Hplain : (if decide (unresolved = [] /\ open = []) then Ok GateOpen else Ok (GatePaused unresolved open)) =
    (Ok GateOpen : result PlanGate StoreError) <-> unresolved = [] /\ open = []) by (case_decide; by split).
  set (listed := existsb (String.eqb ASSESS_PLAN) open).
  assert (Hlisted : open = [] -> listed = false) by (unfold listed; by intros ->).
  clearbody listed open unresolved. destruct (existsb _ rows).
  2: { simpl. rewrite Hplain. split; [intros [? ?]; exists s; by split_and!|]. by intros (x & [= <-] & ? & ? & _). }
  destruct (stored_u64 (sel_revision s)) as [v|e] eqn:Hv.
  2: { simpl. split; [done|]. intros (x & [= <-] & _ & _ & Hp). destruct (Hp eq_refl) as [_ Hle].
       revert Hv. unfold stored_u64. by rewrite decide_True. }
  apply stored_u64_Ok in Hv as [-> Hle]. simpl.
  assert (Hl : (exists x, Some s = Some x /\ unresolved = [] /\ open = [] /\ (true = true ->
      latest_verdict id (sel_revision x) db = Some Pass /\ (sel_revision x <= i64_max)%Z)) <->
    unresolved = [] /\ open = [] /\ latest_verdict id (sel_revision s) db = Some Pass).
  { split; [intros (x & [= <-] & ? & ? & Hp); split_and!; [done|done|by apply Hp]|].
    intros (? & ? & ?). exists s. by split_and!. }
  rewrite Hl. clear Hl.
  destruct (latest_verdict id (sel_revision s) db) as [[]|]; simpl; [rewrite Hplain; by intuition|..].
  all: destruct listed; simpl; rewrite ?Hplain; (split; [|by intros (_ & _ & [=])]).
  all: try (intros [_ Ho]; by specialize (Hlisted Ho)).
  all: rewrite decide_False; [done|]; intros [_ Ho]; by apply app_eq_nil in Ho as [_ [=]].
Qed.

(** * Blocks the plan does not own *)

(** The calls of the plan. *)
Definition plan_call (c : TaskCall) : bool :=
  match c with
  | PublishPlanFork _ _ _ | MarkPlanApplicabilityUnresolved _ | RecordPlanSelection _ _ _ | UpdatePlanRow _ _
  | RecordPlanRevision _ _ | RecordPlanAssessment _ _ | HoldForPlanGate _ _ => true
  | _ => false
  end.

(** A task that something other than the plan has blocked. *)
Definition foreign (id : TaskId) (t : TaskRow) (db : TaskDb) : Prop :=
  tasks db !! id = Some t /\ tk_lifecycle t = LBlocked /\ id ∉ plan_blocks db.

Definition respects (id : TaskId) (t : TaskRow) (db db' : TaskDb) : Prop := foreign id t db -> foreign id t db'.

#[export] Instance respects_preorder id t : PreOrder (respects id t).
Proof. split; unfold respects; auto. Qed.

Lemma respects_same id t db db' : tasks db' = tasks db -> plan_blocks db' = plan_blocks db -> respects id t db db'.
Proof. unfold respects, foreign. by intros -> ->. Qed.

Lemma respects_update id t other f db :
  (tk_lifecycle t = LBlocked -> f t = t) -> respects id t db (update_task other f db).
Proof.
  intros Hf (Ht & Hl & Hm). split_and!; [|done|done]. simpl. destruct (decide (other = id)) as [->|Hne].
  - rewrite lookup_alter_eq, Ht. simpl. by rewrite (Hf Hl).
  - by rewrite lookup_alter_ne.
Qed.

#[export] Hint Extern 1 (respects _ _ _ _) => by apply respects_same : track.

Section Foreign.
Context `{JsonCodec AnswerSelection} `{JsonCodec CommandResult} `{JsonCodec AnsweredForkIdentity}.
Context `{JsonCodec (SessionId * string * string * list string * list string)}.
Variable generate : nat -> string.
Variable sha256_hex : string -> string.
Variables (id : TaskId) (t : TaskRow).

Lemma respects_append session task aggregate ty delta origin :
  tracks (respects id t) (append_event generate session task aggregate ty delta origin).
Proof. intros db u db' (event & ->)%append_journal. by apply respects_same. Qed.

Lemma respects_supersede dies : tracks (respects id t) (supersede dies).
Proof. intros db a db' [_ ->]%supersede_Ok. by apply respects_same. Qed.

Lemma respects_settle_lifecycle other : tracks (respects id t) (settle_plan_lifecycle other).
Proof.
  intros db u db' (row & Hrow & [[-> _]|[(Hr & _ & ->)|(_ & _ & Hm & _ & ->)]])%settle_lifecycle_Ok F; [done|..];
    destruct (decide (other = id)) as [->|Hne]; destruct F as (Ht & Hl & Hn).
  - rewrite Ht in Hrow. injection Hrow as <-. congruence.
  - split_and!; [|done|simpl; set_solver]. simpl. by rewrite lookup_alter_ne.
  - done.
  - split_and!; [|done|simpl; set_solver]. simpl. by rewrite lookup_alter_ne.
Qed.

Lemma respects_release other : tracks (respects id t) (release_plan_owned_block other).
Proof.
  intros db u db' [[-> _]|(Hm & _ & ->)]%release_Ok (Ht & Hl & Hn); [done|].
  destruct (decide (other = id)) as [->|Hne]; [done|].
  split_and!; [|done|simpl; set_solver]. simpl. by rewrite lookup_alter_ne.
Qed.

Lemma respects_question session q : tracks (respects id t) (insert_question generate session q).
Proof.
  intros db u db' (task & events & n & Ht & Hl & _ & _ & _ & ->)%insert_question_Ok (Hid & Hb & Hm).
  split_and!; [|done|done]. simpl. rewrite lookup_alter_ne; [done|]. intros E. rewrite E, Hid in Ht. injection Ht as <-.
  rewrite Hb in Hl. by destruct Hl.
Qed.

Hint Resolve respects_append respects_supersede respects_settle_lifecycle respects_release respects_question : track.

Lemma respects_settle other : tracks (respects id t) (settle_plan_state other).
Proof. unfold settle_plan_state, settle_gate_hold. track. Qed.

Lemma respects_resume other : tracks (respects id t) (tx_modify (SUPERSESSION_RESUMES_TASK other)).
Proof.
  apply tracks_modify. intros db. apply respects_update. intros Hl. rewrite decide_False; [done|]. by rewrite Hl.
Qed.

Lemma respects_reset other derived stored reset : tracks (respects id t) (reset_rows other derived stored reset).
Proof. revert reset. induction stored as [|row stored IH]; intros reset; simpl; track; auto. Qed.

Lemma respects_supersede_rows session other selection next rows superseded :
  tracks (respects id t) (supersede_rows generate session other selection next rows superseded).
Proof. revert superseded. induction rows as [|row rows IH]; intros superseded; simpl; track; auto. Qed.

Hint Resolve respects_settle respects_resume respects_reset respects_supersede_rows : track.

Lemma respects_transaction {A} (m : stx A) s db db' :
  tracks (respects id t) m -> ts_conn s = Some db -> ts_conn (transaction m s).2 = Some db' -> respects id t db db'.
Proof.
  intros Hm Hs [Hs'|(db0 & a & Hs0 & Hb)]%transaction_db.
  - assert (db' = db) as -> by congruence. reflexivity.
  - assert (db0 = db) as -> by congruence. by eapply Hm.
Qed.

Lemma plan_call_respects c s db db' :
  plan_call c = true -> ts_conn s = Some db -> ts_conn (call generate sha256_hex c s) = Some db' -> respects id t db db'.
Proof.
  destruct c; simpl; try done; intros _ Hs Hs'.
  1: { unfold publish_plan_fork in Hs'. revert Hs'.
       assert (Hm : tracks (respects id t) (publish_plan_fork_tx generate session question update))
         by (unfold publish_plan_fork_tx, check_plan_binding, require_open_task, apply_plan_row_change; track).
       pose proof (respects_transaction _ s db db' Hm Hs) as Hr. by destruct (transaction _ s) as [[]]. }
  all: eapply respects_transaction; [|exact Hs|exact Hs'].
  all: unfold mark_plan_applicability_unresolved_tx, record_plan_selection_tx, reset_recovered_plan_rows,
    supersede_plan_questions, insert_plan_obligation, update_plan_row_tx, record_plan_revision_tx, insert_plan_revision,
    record_plan_assessment_tx, hold_for_plan_gate_tx, check_plan_binding, require_open_task, apply_plan_row_change; track.
  all: apply tracks_guarded; intros; by apply respects_same.
Qed.

(** The plan releases only the blocks it made: a task that is blocked without the
    plan's mark on it (by withdrawn evidence, an effect of unknown outcome, an idle
    controller) is the same row after any calls of the plan, on any tasks. *)
Theorem plan_keeps_foreign_blocks cs s db db' :
  forallb plan_call cs = true -> ts_conn s = Some db ->
  tasks db !! id = Some t -> tk_lifecycle t = LBlocked -> id ∉ plan_blocks db ->
  ts_conn (calls generate sha256_hex cs s) = Some db' -> tasks db' !! id = Some t /\ id ∉ plan_blocks db'.
Proof.
  intros Hcs Hs Ht Hl Hm Hs'. enough (foreign id t db') as (? & _ & ?) by done.
  revert s db Hs Ht Hl Hm Hs'. induction cs as [|c cs IH]; intros s db Hs Ht Hl Hm Hs'.
  { simpl in Hs'. assert (db' = db) as -> by congruence. done. }
  simpl in Hcs. apply andb_true_iff in Hcs as [Hc Hcs].
  assert (Hmid : exists db1, ts_conn (call generate sha256_hex c s) = Some db1).
  { change (ts_conn (calls generate sha256_hex cs (call generate sha256_hex c s)) = Some db') in Hs'.
    apply calls_commits in Hs' as (db1 & Hs1 & _). by exists db1. }
  destruct Hmid as [db1 Hs1]. destruct (plan_call_respects c s db db1 Hc Hs Hs1) as (Ht1 & _ & Hm1); [done|].
  by apply (IH Hcs (call generate sha256_hex c s) db1).
Qed.
End Foreign.

(** * A concrete run *)

Module TaskSamples.
Definition generate (n : nat) : string := "id" +:+ pretty n.
Definition sha256_hex (bytes : string) : string := "sha256 of " +:+ bytes.

Definition after (cs : list TaskCall) : Store := calls generate sha256_hex cs fresh_store.
Definition db_after (cs : list TaskCall) : TaskDb := default empty_db (ts_conn (after cs)).

Definition which : Question :=
  mkQuestion "question" 1 "id0" 1 "Which one?" [mkOption "first" "First" "It is faster." Enabled;
    mkOption "second" "Second" "It is smaller." (Disabled "Not installed.")] "first" "speed".

(** Created, asked, answered, supported and completed. *)
Definition created : list TaskCall :=
  [CreateTask "session" "command" "human" "Ship it" ["It builds."] ["No network."]; MaterializeObligations "id0"].
Definition asked : list TaskCall := created ++ [PublishQuestion "session" which].
Definition answered : list TaskCall := asked ++ [AnswerQuestion "session" "id0" "question" 1 (SelOption "first") "human"].
Definition supported : list TaskCall := answered ++ [InsertEvidence "id0" 0 "cargo test" "passed" "digest"].
Definition completed : list TaskCall := supported ++ [CompleteIfEligible "session" "id0"].

Definition row_of (cs : list TaskCall) : TaskRow :=
  default (mkTask "none" 0 0 0 LBlocked "none" "none" "none" 0) (tasks (db_after cs) !! "id0").

Example lifecycles : map (fun cs => tk_lifecycle (row_of cs)) [created; asked; answered; supported; completed] =
  [LRunning; LWaiting; LRunning; LRunning; LCompleted].
Proof. vm_compute. reflexivity. Qed.

(** The off pause and a block for an unknown outcome keep the pending question, and
    its answer sets the task running. *)
Definition first_choice : TaskCall := AnswerQuestion "session" "id0" "question" 1 (SelOption "first") "human".
Example answer_releases_off_pause :
  map (fun cs => tk_lifecycle (row_of cs))
    [asked ++ [PauseForWorkflowOff "session" "id0"]; asked ++ [PauseForWorkflowOff "session" "id0"; first_choice];
     asked ++ [MarkOutcomeUnknown "id0"]; asked ++ [MarkOutcomeUnknown "id0"; first_choice]] =
  [LPaused; LRunning; LBlocked; LRunning].
Proof. vm_compute. reflexivity. Qed.

(** A store the plan holds: a selection whose planning row is open. *)
Definition plan_row : PlanRowWrite := mkRowWrite "plan_work" Required true (Some "plan_work") None.
Definition selected : list TaskCall :=
  created ++ [RecordPlanSelection "session" "id0" (mkSelectionWrite "facts" Change [plan_row]); HoldForPlanGate "id0" HoldUnassessed].

End TaskSamples.
Import TaskSamples.

(** * Witnesses *)

Lemma running_tasks_are_unheld_witness :
  gate_hold_on "id0" (db_after answered) = None /\
  exists gate, gate_on "id0" (db_after selected) = Ok gate /\ gate <> GateOpen /\ gate_kind gate = HoldPaused.
Proof.
  split.
  - destruct (running_tasks_are_unheld generate sha256_hex answered (db_after answered) "id0" (row_of answered)) as [Hu _];
      [vm_compute; reflexivity|vm_compute; reflexivity|]. apply Hu. vm_compute. reflexivity.
  - destruct (running_tasks_are_unheld generate sha256_hex selected (db_after selected) "id0" (row_of selected)) as [_ Hg];
      [vm_compute; reflexivity|vm_compute; reflexivity|]. apply Hg. vm_compute. reflexivity.
Defined.

Definition asked_row : QuestionRow := new_question which.

Lemma one_question_waits_witness :
  pending_question (qr_task asked_row) (db_after asked) = Some asked_row /\
  q_intent_revision (qr_body asked_row) = qr_intent asked_row /\
  exists t, tasks (db_after asked) !! qr_task asked_row = Some t /\ awaits (tk_lifecycle t) = true /\
    (qr_intent asked_row <= tk_intent t)%Z.
Proof.
  refine (one_question_waits generate sha256_hex asked (db_after asked) asked_row _ _ _).
  - vm_compute. reflexivity.
  - assert (E : question_rows (db_after asked) = [asked_row]) by (vm_compute; reflexivity). rewrite E. by left.
  - reflexivity.
Defined.

(** The answer of a call that succeeds. *)
Definition answer_to (r : result CommandResult StoreError) : CommandResult :=
  match r with Ok a => a | Err _ => mkCommandResult "none" "none" 0 0 0 (snapshot_of "none" (row_of asked) empty_db) None end.
Definition first_answer : result CommandResult StoreError * Store :=
  answer_question generate "session" "id0" "question" 1 (SelOption "first") "human" (calls generate sha256_hex asked fresh_store).
Definition asked_again : list TaskCall := [SteerTask "session" "id0" 1 3 "Go on."; PublishQuestion "session" which].

Lemma answered_once_witness :
  (answer_question generate "session" "id0" "question" 1 (SelCustom "Both") "human"
    (calls generate sha256_hex asked_again first_answer.2)).1 <> Ok (answer_to first_answer.1).
Proof.
  exact (answered_once generate sha256_hex asked "session" "id0" "question" 1 (SelOption "first") "human"
    (answer_to first_answer.1) asked_again "session" "id0" 1 (SelCustom "Both") "human" (answer_to first_answer.1)
    ltac:(vm_compute; reflexivity)).
Defined.

Lemma completion_is_earned_witness :
  exists session db t, ts_conn (calls generate sha256_hex supported fresh_store) = Some db /\ tasks db !! "id0" = Some t /\
    CompleteIfEligible "session" "id0" = CompleteIfEligible session "id0" /\
    unsatisfied_total "id0" db = 0 /\ unresolved_total "id0" db = 0 /\ unknown_count "id0" db = 0 /\
    stale_total "id0" db = 0.
Proof.
  destruct (completion_is_earned generate sha256_hex "id0") as [H _].
  destruct (H supported (CompleteIfEligible "session" "id0")) as
    (session & db & t & db' & Hc & Hs & Ht & _ & H1 & H2 & H3 & H4 & _); [vm_compute; reflexivity..|].
  exists session, db, t. by split_and!.
Defined.

Definition cancelled : list TaskCall := asked ++ [CancelTask "session" "id0" 1 None "human"].

Lemma tasks_only_advance_witness :
  exists t', tasks (db_after (cancelled ++ [SteerTask "session" "id0" 1 3 "Go on."])) !! "id0" = Some t' /\
    tk_session t' = "session" /\ tk_goal t' = "Ship it" /\ (tk_revision (row_of cancelled) <= tk_revision t')%Z /\
    (1 <= tk_intent t')%Z /\ (LCancelled = LCancelled -> tk_lifecycle t' = LCancelled).
Proof.
  apply (tasks_only_advance generate sha256_hex (after cancelled) [SteerTask "session" "id0" 1 3 "Go on."]
    (db_after cancelled) (db_after (cancelled ++ [SteerTask "session" "id0" 1 3 "Go on."])) "id0" (row_of cancelled));
    vm_compute; reflexivity.
Defined.

Definition withdrawing : Store := (invalidate_evidence "id6" (after supported)).2.

Lemma withdrawn_evidence_bars_completion_witness :
  (complete_if_eligible generate "session" "id0" (calls generate sha256_hex [InsertEvidence "id0" 0 "again" "passed" "digest"]
    (invalidate_evidence "id6" (after supported)).2)).1 <> Ok (snapshot_of "id0" (row_of supported) (db_after supported)).
Proof. apply withdrawn_evidence_bars_completion. vm_compute. reflexivity. Defined.

Lemma journals_only_grow_witness :
  (exists events, event_rows (db_after completed) = event_rows (db_after asked) ++ events) /\
  (exists answers, answer_rows (db_after completed) = answer_rows (db_after asked) ++ answers) /\
  (StronglySorted Z.lt (map ev_cursor (event_rows (db_after asked))) ->
   StronglySorted Z.lt (map ev_cursor (event_rows (db_after completed)))).
Proof.
  apply (journals_only_grow generate sha256_hex (after asked)
    [AnswerQuestion "session" "id0" "question" 1 (SelOption "first") "human";
     InsertEvidence "id0" 0 "cargo test" "passed" "digest"; CompleteIfEligible "session" "id0"]); vm_compute; reflexivity.
Defined.

Lemma refused_answer_is_journalled_witness :
  let refused := answer_question generate "session" "id0" "question" 1 (SelOption "second") "human" (after asked) in
  ts_conn refused.2 = Some (on_answer_rows (fun rows => rows ++
    [mkAnswerRow "question" "id0" 1 (to_json (SelOption "second")) "human" AttemptDenied (Some "disabled_option")])
    (db_after asked)).
Proof.
  apply (refused_answer_is_journalled generate "session" "id0" "question" 1 (SelOption "second") "human" (after asked)
    (db_after asked) (StoreInvalidInput (DisabledOption "second" "Not installed."))); vm_compute; reflexivity.
Defined.

Definition creation : result CommandResult StoreError * Store :=
  create_task generate sha256_hex "session" "command" "human" "Ship it" ["It builds."] ["No network."] fresh_store.
Definition replayed : Store := calls generate sha256_hex [MaterializeObligations "id0"] creation.2.

Lemma create_is_idempotent_witness :
  create_task generate sha256_hex "session" "command" "human" "Ship it" ["It builds."] ["No network."] replayed =
  (Ok (answer_to creation.1), replayed).
Proof.
  destruct (create_is_idempotent generate sha256_hex "session" "command" "human" "Ship it" ["It builds."] ["No network."]
    fresh_store (answer_to creation.1) [MaterializeObligations "id0"] (db_after created)) as [Hsame _].
  - vm_compute. reflexivity.
  - vm_compute. reflexivity.
  - exact Hsame.
Defined.

Definition idle : list TaskCall := selected ++ [MarkNoReady "id0"].
Definition replanned : list TaskCall :=
  [RecordPlanSelection "session" "id0" (mkSelectionWrite "other facts" Change [])].

Lemma plan_keeps_foreign_blocks_witness :
  tasks (db_after (idle ++ replanned)) !! "id0" = Some (row_of idle) /\ "id0" ∉ plan_blocks (db_after (idle ++ replanned)).
Proof.
  apply (plan_keeps_foreign_blocks generate sha256_hex "id0" (row_of idle) replanned (after idle) (db_after idle)).
  - reflexivity.
  - vm_compute. reflexivity.
  - vm_compute. reflexivity.
  - vm_compute. reflexivity.
  - intros Hin. assert (Hno : bool_decide ("id0" ∈ plan_blocks (db_after idle)) = false) by (vm_compute; reflexivity).
    apply bool_decide_eq_false in Hno. by apply Hno.
  - vm_compute. reflexivity.
Defined.
