(* ===== verification/Routes.v ===== *)
(** The assignments of the configuration that a request is routed by
    ([src/src/config.rs]: connections, profiles, purposes and their resolution)
    and the values a routed request carries across the ledger and the provider
    ([src/src/model.rs], [src/src/providers.rs]).

    A [BTreeMap] is a finite map; where the code iterates one, [keys_of] gives its
    keys in their order.  An absent TOML key is [None]. *)

From stdpp Require Import sorting.
From S2P Require Import Prelude.
From S2P Require Import Contracts.
From S2P Require Import Requests.
From S2P Require Import Notifications.
From S2P Require Import Store.

(** * Connections and assignments *)

Inductive ConnKind := KindApiKey | KindLocal | KindSubscription.

#[export] Instance ConnKind_eq_dec : EqDecision ConnKind.
Proof. solve_decision. Defined.

Record Connection := mkConnection {
  cx_kind : ConnKind;
  cx_endpoint : string;
  cx_credential_ref : option string;
  cx_region : option string;
  cx_profile : option string;
}.

Record Profile := mkProfile { pf_credential_ref : option string }.

Inductive EffortLevel := Minimal | Low | Medium | High | Xhigh.

#[export] Instance EffortLevel_eq_dec : EqDecision EffortLevel.
Proof. solve_decision. Defined.

Definition effort_name (l : EffortLevel) : string :=
  match l with
  | Minimal => "minimal" | Low => "low" | Medium => "medium" | High => "high" | Xhigh => "xhigh"
  end.
Definition effort_parse (raw : string) : option EffortLevel :=
  if decide (raw = "minimal") then Some Minimal
  else if decide (raw = "low") then Some Low
  else if decide (raw = "medium") then Some Medium
  else if decide (raw = "high") then Some High
  else if decide (raw = "xhigh") then Some Xhigh
  else None.

#[export] Instance EffortLevel_vocabulary : Vocabulary EffortLevel.
Proof. apply (Build_Vocabulary _ effort_name effort_parse); unfold effort_parse; vocabulary. Defined.

Record FixedModel := mkFixed { fm_connection : string; fm_model_id : string }.

#[export] Instance FixedModel_eq_dec : EqDecision FixedModel.
Proof. solve_decision. Defined.

Inductive ModelAssign := InheritModel | AutoModel (pool : option (list string)) | Fixed (fixed : FixedModel).

#[export] Instance ModelAssign_eq_dec : EqDecision ModelAssign.
Proof. solve_decision. Defined.

Inductive EffortAssign := InheritEffort | AutoEffort | FixedEffort (value : EffortLevel).

#[export] Instance EffortAssign_eq_dec : EqDecision EffortAssign.
Proof. solve_decision. Defined.

Inductive FallbackAssign := AutoFallback (chain : list FixedModel) | ManualFallback | OffFallback.

#[export] Instance FallbackAssign_eq_dec : EqDecision FallbackAssign.
Proof. solve_decision. Defined.

Record Defaults := mkDefaults { df_model : ModelAssign; df_effort : EffortAssign; df_fallback : FallbackAssign }.

Record PurposeDef := mkPurpose {
  pp_group : option string;
  pp_model : option ModelAssign;
  pp_effort : option EffortAssign;
  pp_fallback : option FallbackAssign;
  pp_pool : option (list string);
  pp_eligible : option (list string);
}.

#[export] Instance PurposeDef_eq_dec : EqDecision PurposeDef.
Proof. solve_decision. Defined.

(** The groups' one field is their model. *)
Record Models := mkModels {
  md_defaults : option Defaults;
  md_groups : gmap string ModelAssign;
  md_purposes : gmap string PurposeDef;
}.

(** The part of [Config] that routes a request. *)
Record Config := mkConfig {
  cf_connections : gmap string Connection;
  cf_profiles : gmap string Profile;
  cf_models : Models;
}.

(** The keys of a [BTreeMap], in order. *)
Definition string_le (a b : string) : Prop := String.leb a b = true.
#[export] Instance string_le_dec a b : Decision (string_le a b) := decide (String.leb a b = true).

Definition keys_of {A} (m : gmap string A) : list string := merge_sort string_le (elements (dom m)).

(** * Resolution of a purpose *)

Record ResolvedPurpose := mkResolved {
  rp_model : ModelAssign; rp_model_source : string;
  rp_effort : EffortAssign; rp_effort_source : string;
  rp_fallback : FallbackAssign; rp_fallback_source : string;
}.

(** [Stage], [ConfigIssue], [ConfigError] *)
Inductive Stage := Parse | Schema | Resolve.

Inductive ConfigIssue :=
  | Parser (message : string)
  | ConfigVersionNotNonNegativeInteger
  | KeyNotEditable (key : string)
  | DocumentOnlyKey (key : string)
  | EmptyKeySegment (key : string)
  | UnterminatedKeyQuote (key : string)
  | UnknownRootKey (key : string)
  | Required (field : string)
  | UnsupportedConfigVersion
  | MissingConnections
  | CredentialRefRequired (kind : ConnKind)
  | LocalCredentialsForbidden
  | UnknownGroupReference (group : string)
  | UnknownConnectionReference (connection : string)
  | ConflictingPurposeDefinitions
  | PersonalNamespaceClaimed (id : string)
  | ExpectedTable (key : string)
  | ExpectedString (field : string)
  | UnsupportedConnectionKind (kind : string)
  | InlineCredential
  | UnknownKey (key : string) (known : list string)
  | GroupReferenceNotString
  | PoolNotArray
  | PoolEntryNotString
  | EligibleNotArray
  | EligibleEntryNotString
  | FixedModelMissingConnection
  | FixedModelMissingId
  | UnsupportedModelMode (mode : string)
  | FixedEffortMissingValue
  | UnsupportedEffortValue (value : string)
  | UnsupportedEffortMode (mode : string)
  | ChainNotArray
  | ChainEntryNotTable
  | FixedChainEntryMissingConnection
  | FixedChainEntryMissingModelId
  | UnsupportedFallbackMode (mode : string)
  | WorkflowEnabledNotBoolean
  | ContextAutoCompactNotBoolean
  | HookEntryNotAddressable (key : string)
  | UnsupportedHookEvent (event : string)
  | HookCommandNotAbsolutePath (key : string)
  | HookArgsInvalid (key : string)
  | McpServerNameInvalid (name : string)
  | McpProgramNotAbsolutePath (key : string)
  | McpOriginInvalid (key : string)
  | McpArgsInvalid (key : string)
  | McpEnvInvalid (key : string)
  | UnsupportedDecisionMode (mode : string)
  | RequiredNotResettable (key : string)
  | NoRetainedDocument
  | ValueTypeMismatch (key : string)
  | SecretRefExpected (key : string)
  | UnsupportedCredentialStore (store : string)
  | UnknownProfileReference (profile : string)
  | EndpointNotAllowed.

Record ConfigError := mkConfigError { ce_stage : Stage; ce_key : option string; ce_issue : ConfigIssue }.

(** [ConfigError::parse], [schema], [resolve] *)
Definition parse_error (message : string) : ConfigError := mkConfigError Parse None (Parser message).
Definition schema_error (key : string) (issue : ConfigIssue) : ConfigError := mkConfigError Schema (Some key) issue.
Definition resolve_error (key : string) (issue : ConfigIssue) : ConfigError := mkConfigError Resolve (Some key) issue.

(** [Config::resolve_purpose] *)
Definition resolve_purpose (config : Config) (purpose : string) : result ResolvedPurpose ConfigError :=
  let? defaults := ok_or (md_defaults (cf_models config))
    (resolve_error "models.defaults" (Required "models.defaults")) in
  let def := md_purposes (cf_models config) !! purpose in
  let own := "models.purposes." +:+ purpose in
  let? model :=
    match def ≫= pp_model with
    | Some ((AutoModel _ | Fixed _) as model) => Ok (model, own)
    | _ =>
        match def ≫= pp_group with
        | Some group =>
            let? model := ok_or (md_groups (cf_models config) !! group)
              (resolve_error (own +:+ ".group") (UnknownGroupReference group)) in
            Ok (model, "models.groups." +:+ group)
        | None => Ok (df_model defaults, "models.defaults")
        end
    end in
  let effort :=
    match def ≫= pp_effort with
    | Some ((AutoEffort | FixedEffort _) as effort) => (effort, own)
    | _ => (df_effort defaults, "models.defaults")
    end in
  let fallback :=
    match def ≫= pp_fallback with
    | Some fallback => (fallback, own)
    | None => (df_fallback defaults, "models.defaults")
    end in
  Ok (mkResolved model.1 model.2 effort.1 effort.2 fallback.1 fallback.2).

(** [Config::merge_purposes]: the bindings of another source, in key order; the
    ones before a conflict stay merged. *)
Fixpoint merge_bindings (other : gmap string PurposeDef) (names : list string) (purposes : gmap string PurposeDef)
    : result unit ConfigError * gmap string PurposeDef :=
  match names with
  | [] => (Ok tt, purposes)
  | name :: names =>
      match other !! name, purposes !! name with
      | Some def, Some existing =>
          if decide (existing = def) then merge_bindings other names purposes
          else (Err (resolve_error ("models.purposes." +:+ name) ConflictingPurposeDefinitions), purposes)
      | Some def, None => merge_bindings other names (<[name := def]> purposes)
      | None, _ => merge_bindings other names purposes
      end
  end.

Definition merge_purposes (config other : Config) : result unit ConfigError * Config :=
  let bindings := md_purposes (cf_models other) in
  let merged := merge_bindings bindings (keys_of bindings) (md_purposes (cf_models config)) in
  (merged.1, mkConfig (cf_connections config) (cf_profiles config)
    (mkModels (md_defaults (cf_models config)) (md_groups (cf_models config)) merged.2)).

(** * A request *)

Inductive EpochMutationReason := SystemChange | ToolsChange | ModelSwitch.

Definition epoch_reason_as_str (r : EpochMutationReason) : string :=
  match r with
  | SystemChange => "system change" | ToolsChange => "tools change" | ModelSwitch => "model switch"
  end.

#[export] Instance EpochMutationReason_eq_dec : EqDecision EpochMutationReason.
Proof. solve_decision. Defined.

Record EpochCost := mkEpochCost {
  ec_reason : EpochMutationReason;
  ec_replaced_part : string;
  ec_expected_rewrite_bytes : Z;
}.

#[export] Instance EpochCost_eq_dec : EqDecision EpochCost.
Proof. solve_decision. Defined.

Record RequestManifest := mkManifest {
  mf_attempt_id : string;
  mf_purpose : string;
  mf_world : string;
  mf_model : ModelAssign;
  mf_effort : EffortAssign;
  mf_instructions : string;
  mf_tools : list string;
  mf_output_reserve : Z;
  mf_inputs : string;
  mf_inputs_digest : string;
  mf_epoch_id : string;
  mf_mutation_reason : option string;
  mf_epoch_cost : option EpochCost;
  mf_input_origin : InputOrigin;
  mf_cost_bound : Z;
}.

#[export] Instance RequestManifest_eq_dec : EqDecision RequestManifest.
Proof. solve_decision. Defined.

(** * What crosses the ledger *)

Record SendContext := mkSendContext {
  sx_purpose : string;
  sx_connection : string;
  sx_parent_attempt_id : option string;
  sx_ranking_basis : option string;
}.

Inductive SendOutcome :=
  | SendSettled (usage : UsageDelta) (wire_retries : Z)
  | SendFailed (wire_retries : Z).

Record SendTicket := mkTicket { tkt_attempt_id : string; tkt_cost_bound : Z; tkt_reserved : bool }.

Inductive LedgerError := LedgerStore (error : StoreError) | LedgerBudgetExhausted (scope : string).
