(* ===== verification/LedgerDb.v ===== *)
(** The tables of the budget and usage ledger ([src/src/state/sql/schema.sql]) and
    the statements its operations share ([state/sql/mod.rs]).

    The ledger's tables stand beside the tables of the tasks in one database.  A
    column a [STRICT] table declares [INTEGER] holds a 64-bit integer, and an
    expression outside that range is a real number such a column refuses: a
    statement that would store one fails and drops its transaction.  A comparison
    is of the exact values, as SQLite compares an integer with a real. *)

From stdpp Require Import sorting.
From S2P Require Import Prelude.
From S2P Require Import Contracts.
From S2P Require Import Requests.
From S2P Require Import Notifications.
From S2P Require Import Store.
From S2P Require Import TaskDb.
From S2P Require Import Routes.

#[export] Instance Exactness_eq_dec : EqDecision Exactness.
Proof. solve_decision. Defined.

(** * Rows *)

Record ScopeRow := mkScope { bs_limit : Z; bs_spent : Z; bs_reserved : Z }.

Inductive BudgetReservationState := RsReserved | RsCharged | RsReleased.

#[export] Instance BudgetReservationState_eq_dec : EqDecision BudgetReservationState.
Proof. solve_decision. Defined.

Definition reservation_state_as_str (s : BudgetReservationState) : string :=
  match s with RsReserved => "reserved" | RsCharged => "charged" | RsReleased => "released" end.
Definition reservation_state_from_db (raw : string) : option BudgetReservationState :=
  if decide (raw = "reserved") then Some RsReserved
  else if decide (raw = "charged") then Some RsCharged
  else if decide (raw = "released") then Some RsReleased
  else None.

#[export] Instance BudgetReservationState_vocabulary : Vocabulary BudgetReservationState.
Proof.
  apply (Build_Vocabulary _ reservation_state_as_str reservation_state_from_db);
    unfold reservation_state_from_db; vocabulary.
Defined.

(** Its primary key is the reservation and the scope. *)
Record ReservationRow := mkReservation {
  br_id : string;
  br_scope : string;
  br_bound : Z;
  br_state : BudgetReservationState;
  br_charged : option Z;
}.

Inductive SettlementState := Dispatched | Settled.

#[export] Instance SettlementState_eq_dec : EqDecision SettlementState.
Proof. solve_decision. Defined.

Definition settlement_state_as_str (s : SettlementState) : string :=
  match s with Dispatched => "dispatched" | Settled => "settled" end.
Definition settlement_state_from_db (raw : string) : option SettlementState :=
  if decide (raw = "dispatched") then Some Dispatched
  else if decide (raw = "settled") then Some Settled
  else None.

#[export] Instance SettlementState_vocabulary : Vocabulary SettlementState.
Proof.
  apply (Build_Vocabulary _ settlement_state_as_str settlement_state_from_db);
    unfold settlement_state_from_db; vocabulary.
Defined.

Record SettlementRow := mkSettlement {
  se_rowid : Z;
  se_attempt : string;
  se_parent : option string;
  se_purpose : string;
  se_connection : string;
  se_basis : option string;
  se_bound : Z;
  se_state : SettlementState;
  se_exactness : Exactness;
  se_unknown : option string;
  se_retries : Z;
  se_bins : UsageBins;
  se_charged : option Z;
}.

Record TotalsRow := mkTotals {
  ut_settled : Z;
  ut_without_total : Z;
  ut_total_tokens : option Z;
  ut_charged_count : Z;
  ut_charged_units : option Z;
  ut_latest_prompt : option Z;
  ut_dispatched : Z;
  ut_next_rowid : Z;
}.

Inductive WorkBudgetState := WorkOpen | WorkStopped.

#[export] Instance WorkBudgetState_eq_dec : EqDecision WorkBudgetState.
Proof. solve_decision. Defined.

Definition work_state_as_str (s : WorkBudgetState) : string :=
  match s with WorkOpen => "open" | WorkStopped => "stopped" end.

Record WorkRow := mkWork {
  wb_deadline : Z;
  wb_send_bound : Z;
  wb_state : WorkBudgetState;
  wb_stop_reason : option string;
}.

Inductive SharingGrantState := GrantOpen | GrantRevoked | GrantExpired | GrantFailed.

#[export] Instance SharingGrantState_eq_dec : EqDecision SharingGrantState.
Proof. solve_decision. Defined.

Definition grant_state_as_str (s : SharingGrantState) : string :=
  match s with
  | GrantOpen => "open" | GrantRevoked => "revoked" | GrantExpired => "expired" | GrantFailed => "failed"
  end.

Record GrantRow := mkGrantRow {
  sg_task : TaskId;
  sg_token_digest : string;
  sg_expires_at : Z;
  sg_state : SharingGrantState;
}.

(** The settlements stand in the order of their [rowid]s. *)
Record LedgerDb := mkLedgerDb {
  task_db : TaskDb;
  scopes : gmap string ScopeRow;
  reservations : list ReservationRow;
  settlements : list SettlementRow;
  usage_totals : option TotalsRow;
  work_budgets : gmap TaskId WorkRow;
  sharing_grants : gmap string GrantRow;
}.

Definition on_scopes (f : gmap string ScopeRow -> gmap string ScopeRow) (db : LedgerDb) : LedgerDb :=
  mkLedgerDb (task_db db) (f (scopes db)) (reservations db) (settlements db) (usage_totals db) (work_budgets db) (sharing_grants db).
Definition on_reservations (f : list ReservationRow -> list ReservationRow) (db : LedgerDb) : LedgerDb :=
  mkLedgerDb (task_db db) (scopes db) (f (reservations db)) (settlements db) (usage_totals db) (work_budgets db) (sharing_grants db).
Definition on_settlements (f : list SettlementRow -> list SettlementRow) (db : LedgerDb) : LedgerDb :=
  mkLedgerDb (task_db db) (scopes db) (reservations db) (f (settlements db)) (usage_totals db) (work_budgets db) (sharing_grants db).
Definition on_totals (f : option TotalsRow -> option TotalsRow) (db : LedgerDb) : LedgerDb :=
  mkLedgerDb (task_db db) (scopes db) (reservations db) (settlements db) (f (usage_totals db)) (work_budgets db) (sharing_grants db).
Definition on_work_budgets (f : gmap TaskId WorkRow -> gmap TaskId WorkRow) (db : LedgerDb) : LedgerDb :=
  mkLedgerDb (task_db db) (scopes db) (reservations db) (settlements db) (usage_totals db) (f (work_budgets db)) (sharing_grants db).
Definition on_sharing_grants (f : gmap string GrantRow -> gmap string GrantRow) (db : LedgerDb) : LedgerDb :=
  mkLedgerDb (task_db db) (scopes db) (reservations db) (settlements db) (usage_totals db) (work_budgets db) (f (sharing_grants db)).

Abbreviation ltx := (tx LedgerDb StoreError).

(** Runs a statement for every element, in order. *)
Fixpoint each {A} (f : A -> ltx unit) (l : list A) : ltx unit :=
  match l with
  | [] => tx_ret tt
  | a :: l => let! _ := f a in each f l
  end.

(** * Integer columns *)

Definition fits (v : Z) : bool := bool_decide (- i64_max - 1 <= v <= i64_max)%Z.

(** The [u64] of a call as an [INTEGER]. *)
Definition budget_units_i64 (units : Z) : result Z StoreError :=
  if decide (units <= i64_max)%Z then Ok units else Err (StoreInvalidInput (BudgetUnitsOutOfRange units)).
Definition work_bound_i64 (field : string) (value : Z) : result Z StoreError :=
  if decide (value <= i64_max)%Z then Ok value else Err (StoreInvalidInput (WorkBudgetBoundOutOfRange field value)).
Definition sharing_expiry_i64 (value : Z) : result Z StoreError :=
  if decide (value <= i64_max)%Z then Ok value else Err (StoreInvalidInput (SharingExpiryOutOfRange value)).

(** [map(f).transpose()?] *)
Definition transpose {A B} (f : A -> result B StoreError) (o : option A) : result (option B) StoreError :=
  match o with None => Ok None | Some a => let? b := f a in Ok (Some b) end.

(** * Budget statements *)

Definition scope_fits (row : ScopeRow) : bool := fits (bs_spent row) && fits (bs_reserved row).

(** An [UPDATE] of one scope under a guard: whether a row changed. *)
Definition update_scope (scope : string) (guard : ScopeRow -> bool) (f : ScopeRow -> ScopeRow) : ltx bool :=
  fun db =>
    match scopes db !! scope with
    | Some row =>
        if guard row then
          if scope_fits (f row) then Ok (true, on_scopes (<[scope := f row]>) db)
          else Err (Storage ConstraintFailed)
        else Ok (false, db)
    | None => Ok (false, db)
    end.

(** [RESERVE_BUDGET] *)
Definition reserve_scope (scope : string) (bound : Z) : ltx bool :=
  update_scope scope (fun row => bool_decide (bs_spent row + bs_reserved row + bound <= bs_limit row)%Z)
    (fun row => mkScope (bs_limit row) (bs_spent row) (bs_reserved row + bound)).

(** [CHARGE_BUDGET_SCOPE] *)
Definition charge_scope (scope : string) (delta bound : Z) : ltx bool :=
  update_scope scope (fun row => bool_decide (bound <= bs_reserved row)%Z)
    (fun row => mkScope (bs_limit row) (bs_spent row + delta) (bs_reserved row - bound)).

(** [RELEASE_BUDGET_SCOPE] *)
Definition release_scope (scope : string) (bound : Z) : ltx bool :=
  update_scope scope (fun _ => true)
    (fun row => mkScope (bs_limit row) (bs_spent row) (bs_reserved row - bound)).

(** [INSERT_BUDGET_SCOPE] *)
Definition insert_scope (scope : string) (limit : Z) : ltx unit :=
  fun db => match scopes db !! scope with
            | Some _ => Err (Storage ConstraintFailed)
            | None => Ok (tt, on_scopes (<[scope := mkScope limit 0 0]>) db)
            end.

(** [INSERT_BUDGET_RESERVATION] *)
Definition insert_reservation (reservation_id scope : string) (bound : Z) : ltx unit :=
  fun db =>
    if existsb (fun row => bool_decide (br_id row = reservation_id /\ br_scope row = scope)) (reservations db)
    then Err (Storage ConstraintFailed)
    else Ok (tt, on_reservations (fun rows => rows ++ [mkReservation reservation_id scope bound RsReserved None]) db).

(** [RESERVATION_EXISTS] *)
Definition reservation_exists (reservation_id : string) (db : LedgerDb) : bool :=
  existsb (fun row => bool_decide (br_id row = reservation_id)) (reservations db).

Definition by_scope (a b : ReservationRow) : Prop := string_le (br_scope a) (br_scope b).
#[export] Instance by_scope_dec a b : Decision (by_scope a b) := decide (string_le (br_scope a) (br_scope b)).

(** [BUDGET_RESERVATION_SCOPES] *)
Definition reservation_rows (reservation_id : string) (db : LedgerDb) : list ReservationRow :=
  merge_sort by_scope (filter (fun row => br_id row = reservation_id) (reservations db)).

(** [SET_BUDGET_RESERVATION_STATE] *)
Definition set_reservation_state (reservation_id : string) (state : BudgetReservationState) (charged : option Z)
    (rows : list ReservationRow) : list ReservationRow :=
  map (fun row => if decide (br_id row = reservation_id)
                  then mkReservation (br_id row) (br_scope row) (br_bound row) state charged else row) rows.

(** * Settlement statements *)

Definition settlement_row (attempt_id : string) (db : LedgerDb) : option SettlementRow :=
  find (fun row => bool_decide (se_attempt row = attempt_id)) (settlements db).

(** [MAX(rowid)] *)
Definition max_rowid (rows : list SettlementRow) : option Z :=
  foldr (fun row acc => Some (match acc with Some m => Z.max (se_rowid row) m | None => se_rowid row end)) None rows.

Definition dispatched_rows (db : LedgerDb) : list SettlementRow :=
  filter (fun row => se_state row = Dispatched) (settlements db).
Definition settled_rows (db : LedgerDb) : list SettlementRow :=
  filter (fun row => se_state row = Settled) (settlements db).

(** The settled sends of a scope: [WORK_BUDGET_SEND_STATE], [WORK_BUDGET_ROW]. *)
Definition settled_sends (scope : string) (db : LedgerDb) : Z :=
  zsum (fun r => zlen (filter (fun s => se_attempt s = br_id r /\ se_state s = Settled) (settlements db)))
    (filter (fun r => br_scope r = scope) (reservations db)).

Definition totals_fit (t : TotalsRow) : bool :=
  fits (ut_settled t) && fits (ut_without_total t) && fits (default 0%Z (ut_total_tokens t)) &&
  fits (ut_charged_count t) && fits (default 0%Z (ut_charged_units t)) && fits (ut_dispatched t) && fits (ut_next_rowid t).

(** An [UPDATE] of the totals' one row. *)
Definition update_totals (f : TotalsRow -> TotalsRow) : ltx unit :=
  fun db =>
    match usage_totals db with
    | None => Ok (tt, db)
    | Some t => if totals_fit (f t) then Ok (tt, on_totals (fun _ => Some (f t)) db) else Err (Storage ConstraintFailed)
    end.

(** [NEXT_SETTLEMENT_ROWID]: an update that returns no row is an error of the
    query that expects one. *)
Definition next_settlement_rowid : ltx Z :=
  let! db := tx_get in
  let! t := tx_lift (ok_or (usage_totals db) (Storage (Undecodable "query returned no rows"))) in
  let next := (Z.max (ut_next_rowid t) (default 0 (max_rowid (settlements db)) + 1) + 1)%Z in
  let! _ := update_totals (fun t => mkTotals (ut_settled t) (ut_without_total t) (ut_total_tokens t)
    (ut_charged_count t) (ut_charged_units t) (ut_latest_prompt t) (ut_dispatched t + 1) next) in
  tx_ret (next - 1)%Z.

(** [INSERT_SETTLEMENT_DISPATCHED], with the guard of
    [usage_settlements_dispatch_only]; a rowid above every other goes to the end. *)
Definition insert_settlement (rowid : Z) (attempt_id : string) (context : SendContext) (bound : Z) : ltx unit :=
  fun db =>
    if existsb (fun row => bool_decide (se_attempt row = attempt_id \/ se_rowid row = rowid)) (settlements db)
    then Err (Storage ConstraintFailed)
    else Ok (tt, on_settlements (fun rows => rows ++
      [mkSettlement rowid attempt_id (sx_parent_attempt_id context) (sx_purpose context) (sx_connection context)
         (sx_ranking_basis context) bound Dispatched UnknownExactness None 0 default_bins None]) db).

(** [SETTLE_USAGE_SETTLEMENT]: whether the row was still open. *)
Definition settled_row (exactness : Exactness) (unknown : option string) (retries : Z) (bins : UsageBins)
    (charged : option Z) (row : SettlementRow) : SettlementRow :=
  mkSettlement (se_rowid row) (se_attempt row) (se_parent row) (se_purpose row) (se_connection row) (se_basis row)
    (se_bound row) Settled exactness unknown retries bins charged.

Definition settle_settlement (attempt_id : string) (exactness : Exactness) (unknown : option string) (retries : Z)
    (bins : UsageBins) (charged : option Z) : ltx bool :=
  fun db =>
    let open := fun row => bool_decide (se_attempt row = attempt_id /\ se_state row = Dispatched) in
    Ok (existsb open (settlements db),
        on_settlements (map (fun row => if open row then settled_row exactness unknown retries bins charged row else row)) db).

(** [SETTLE_USAGE_TOTAL] *)
Definition settle_total (total charged prompt : option Z) (attempt_id : string) : ltx unit :=
  let! db := tx_get in
  update_totals (fun t => mkTotals
    (ut_settled t + 1)
    (ut_without_total t + match total with Some _ => 0 | None => 1 end)
    (Some (default 0 (ut_total_tokens t) + default 0 total)%Z)
    (ut_charged_count t + match charged with Some _ => 1 | None => 0 end)
    (Some (default 0 (ut_charged_units t) + default 0 charged)%Z)
    (match settlement_row attempt_id db, max_rowid (settled_rows db) with
     | Some row, Some newest => if decide (se_rowid row = newest) then prompt else ut_latest_prompt t
     | _, _ => ut_latest_prompt t
     end)
    (Z.max (ut_dispatched t - 1) 0)
    (ut_next_rowid t)).
