(* ===== verification/Ledger.v ===== *)
(** The budget and usage ledger ([src/src/state.rs]): scopes with a limit,
    reservations that resolve once, the settlement every dispatched attempt leaves,
    the bounded work of a task, the observers' grants and the cache-read rate of a
    frozen cohort; and the gate the controller walks before a step
    ([src/src/controller.rs]).  A [u64] argument is a [Z]. *)

From stdpp Require Import sorting.
From S2P Require Import Prelude.
From S2P Require Import Contracts.
From S2P Require Import Requests.
From S2P Require Import Notifications.
From S2P Require Import Store.
From S2P Require Import TaskDb.
From S2P Require Import Routes.
From S2P Require Import LedgerDb.

Abbreviation LStore := (TaskStore LedgerDb).

(** * Budgets *)

(** [open_budget] *)
Definition open_budget_tx (scope : string) (stored_limit : Z) : ltx unit :=
  let! db := tx_get in
  match scopes db !! scope with
  | Some _ => tx_err (StoreConflict (BudgetScopeExists scope))
  | None => insert_scope scope stored_limit
  end.

Definition open_budget (scope : string) (limit_units : Z) (s : LStore) : result unit StoreError * LStore :=
  match budget_units_i64 limit_units with
  | Err e => (Err e, s)
  | Ok stored_limit => transaction (open_budget_tx scope stored_limit) s
  end.

(** [reserve_denied] *)
Definition reserve_denied (scope : string) (bound : Z) (db : LedgerDb) : StoreError :=
  match scopes db !! scope with
  | None => StoreNotFound (MissingBudgetScope scope)
  | Some row =>
      match unsigned (bs_spent row), unsigned (bs_reserved row), unsigned (bs_limit row) with
      | Ok spent, Ok reserved, Ok limit => StoreConflict (CauseBudgetExhausted scope spent reserved bound limit)
      | Err e, _, _ => e
      | _, Err e, _ => e
      | _, _, Err e => e
      end
  end.

(** The loop of [budget_reserve] and [begin_send]: [bound] is the stored bound. *)
Definition reserve_one (reservation_id : string) (bound : Z) (scope : string) : ltx unit :=
  let! reserved := reserve_scope scope bound in
  if (reserved : bool) then insert_reservation reservation_id scope bound
  else let! db := tx_get in tx_err (reserve_denied scope bound db).

(** [budget_reserve] *)
Definition budget_reserve_tx (reservation_id : string) (scope_names : list string) (stored_bound : Z) : ltx unit :=
  let! db := tx_get in
  if reservation_exists reservation_id db
  then tx_err (StoreConflict (ReservationAlreadyRecorded reservation_id))
  else each (reserve_one reservation_id stored_bound) scope_names.

Definition budget_reserve (reservation_id : string) (scope_names : list string) (bound : Z) (s : LStore)
    : result unit StoreError * LStore :=
  if bool_decide (scope_names = []) then (Err (StoreInvalidInput EmptyBudgetScopes), s)
  else
    match budget_units_i64 bound with
    | Err e => (Err e, s)
    | Ok stored_bound => transaction (budget_reserve_tx reservation_id scope_names stored_bound) s
    end.

(** The loop of [resolve_reservation_tx]. *)
Definition resolve_scope (confirmed : option Z) (release : bool) (row : ReservationRow) : ltx unit :=
  if release then let! _ := release_scope (br_scope row) (br_bound row) in tx_ret tt
  else
    let! _ :=
      match confirmed with
      | Some delta =>
          if decide (br_bound row < delta)%Z
          then
            let! confirmed := tx_store (unsigned delta) in
            let! bound := tx_store (unsigned (br_bound row)) in
            tx_err (StoreInvalidInput (ConfirmedExceedsBound confirmed bound))
          else tx_ret tt
      | None => tx_ret tt
      end in
    let! charged := charge_scope (br_scope row) (default (br_bound row) confirmed) (br_bound row) in
    if (charged : bool) then tx_ret tt
    else
      let! db := tx_get in
      let! reserved := tx_store (unsigned (default 0%Z (bs_reserved <$> scopes db !! br_scope row))) in
      let! bound := tx_store (unsigned (br_bound row)) in
      tx_err (StoreConflict (ChargeReservedBelowBound (br_scope row) reserved bound)).

(** [resolve_reservation_tx] *)
Definition resolve_reservation_tx (reservation_id : string) (terminal : BudgetReservationState)
    (confirmed : option Z) (release : bool) : ltx unit :=
  let! db := tx_get in
  let rows := reservation_rows reservation_id db in
  match rows with
  | [] => tx_err (StoreNotFound (MissingReservation reservation_id))
  | _ =>
      match find (fun row => negb (bool_decide (br_state row = RsReserved))) rows with
      | Some row => tx_err (StoreConflict (ReservationNotReserved reservation_id (reservation_state_as_str (br_state row))))
      | None =>
          let! _ := each (resolve_scope confirmed release) rows in
          tx_modify (on_reservations (set_reservation_state reservation_id terminal confirmed))
      end
  end.

(** [budget_charge] *)
Definition budget_charge (reservation_id : string) (confirmed : option Z) (s : LStore)
    : result unit StoreError * LStore :=
  match transpose budget_units_i64 confirmed with
  | Err e => (Err e, s)
  | Ok stored => transaction (resolve_reservation_tx reservation_id RsCharged stored false) s
  end.

(** [budget_release] *)
Definition budget_release (reservation_id : string) (s : LStore) : result unit StoreError * LStore :=
  transaction (resolve_reservation_tx reservation_id RsReleased None true) s.

(** [BudgetStatus] and [BudgetReservation] *)
Record BudgetStatus := mkStatus { st_limit_units : Z; st_spent : Z; st_reserved : Z }.
Record BudgetReservation := mkBudgetReservation {
  rv_state : BudgetReservationState; rv_bound : Z; rv_charged : option Z }.

(** [budget_status] *)
Definition budget_status (scope : string) (s : LStore) : result BudgetStatus StoreError :=
  read (fun db =>
    let? row := ok_or (scopes db !! scope) (StoreNotFound (MissingBudgetScope scope)) in
    let? limit := unsigned (bs_limit row) in
    let? spent := unsigned (bs_spent row) in
    let? reserved := unsigned (bs_reserved row) in
    Ok (mkStatus limit spent reserved)) s.

(** [budget_reservation]: [LIMIT 1] reads the primary key's first row. *)
Definition budget_reservation (reservation_id : string) (s : LStore) : result BudgetReservation StoreError :=
  read (fun db =>
    let? row := ok_or (head (reservation_rows reservation_id db)) (StoreNotFound (MissingReservation reservation_id)) in
    let? bound := unsigned (br_bound row) in
    let? charged := transpose unsigned (br_charged row) in
    Ok (mkBudgetReservation (br_state row) bound charged)) s.

(** * Bounded work *)

Record WorkBudget := mkWorkBudget {
  wk_task : TaskId;
  wk_deadline : Z;
  wk_send_bound : Z;
  wk_unit_bound : Z;
  wk_spent : Z;
  wk_reserved : Z;
  wk_settled_sends : Z;
  wk_state : WorkBudgetState;
  wk_stop_reason : option string;
}.

Definition WORK_STOPPED_REASON : string := "stopped".

(** [work_budget_on]: the row joined with its scope. *)
Definition work_budget_on (task_id : TaskId) (db : LedgerDb) : result (option WorkBudget) StoreError :=
  match work_budgets db !! task_id, scopes db !! task_id with
  | Some w, Some b =>
      let? deadline := unsigned (wb_deadline w) in
      let? send_bound := unsigned (wb_send_bound w) in
      let? unit_bound := unsigned (bs_limit b) in
      let? spent := unsigned (bs_spent b) in
      let? reserved := unsigned (bs_reserved b) in
      let? settled := unsigned (settled_sends task_id db) in
      Ok (Some (mkWorkBudget task_id deadline send_bound unit_bound spent reserved settled (wb_state w) (wb_stop_reason w)))
  | _, _ => Ok None
  end.

Definition work_budget (task_id : TaskId) (s : LStore) : result (option WorkBudget) StoreError :=
  read (work_budget_on task_id) s.

(** The body of [open_work_budget]. *)
Definition open_work_budget_tx (task_id : TaskId) (deadline sends units : Z) : ltx (option WorkBudget) :=
  let! db := tx_get in
  match tasks (task_db db) !! task_id with
  | None => tx_err (StoreNotFound (MissingTask task_id))
  | Some _ =>
      match work_budgets db !! task_id with
      | Some w => tx_err (StoreConflict (WorkBudgetExists task_id (work_state_as_str (wb_state w))))
      | None =>
          if bool_decide (is_Some (scopes db !! task_id)) then tx_err (StoreConflict (BudgetScopeExists task_id))
          else
            let! _ := insert_scope task_id units in
            let! _ := tx_modify (on_work_budgets (<[task_id := mkWork deadline sends WorkOpen None]>)) in
            let! db := tx_get in
            tx_store (work_budget_on task_id db)
      end
  end.

(** [open_work_budget] *)
Definition open_work_budget (task_id : TaskId) (deadline send_bound unit_bound : Z) (s : LStore)
    : result WorkBudget StoreError * LStore :=
  match
    (let? stored_deadline := work_bound_i64 "deadline_unix_seconds" deadline in
     let? stored_sends := work_bound_i64 "send_bound" send_bound in
     let? stored_units := work_bound_i64 "unit_bound" unit_bound in
     Ok (stored_deadline, stored_sends, stored_units))
  with
  | Err e => (Err e, s)
  | Ok (stored_deadline, stored_sends, stored_units) =>
      let (answer, s) := transaction (open_work_budget_tx task_id stored_deadline stored_sends stored_units) s in
      (rbind (fun budget => ok_or budget (StoreNotFound (MissingWorkBudget task_id))) answer, s)
  end.

(** [STOP_WORK_BUDGET], where the row is open. *)
Definition stop_row (reason : string) (w : WorkRow) : WorkRow :=
  if decide (wb_state w = WorkOpen) then mkWork (wb_deadline w) (wb_send_bound w) WorkStopped (Some reason) else w.

(** [stop_work_budget] *)
Definition stop_work_budget_tx (task_id : TaskId) (reason : string) : ltx WorkBudget :=
  let! db := tx_get in
  match tasks (task_db db) !! task_id with
  | None => tx_err (StoreNotFound (MissingTask task_id))
  | Some _ =>
      let stopped := bool_decide (wb_state <$> work_budgets db !! task_id = Some WorkOpen) in
      let! _ := tx_modify (on_work_budgets (alter (stop_row reason) task_id)) in
      let! db := tx_get in
      let! budget := tx_store (work_budget_on task_id db) in
      match budget with
      | None => tx_err (StoreNotFound (MissingWorkBudget task_id))
      | Some budget => if stopped then tx_ret budget else tx_err (StoreConflict (WorkBudgetStopped task_id))
      end
  end.

Definition stop_work_budget (task_id : TaskId) (reason : string) : LStore -> result WorkBudget StoreError * LStore :=
  transaction (stop_work_budget_tx task_id reason).

Definition WORK_DEADLINE_REACHED : string := "work deadline reached".
Definition WORK_SEND_BOUND_REACHED : string := "work send bound reached".
Definition WORK_UNIT_BOUND_REACHED : string := "work unit bound reached".

(** Why a worker goes no further at this clock. *)
Definition stop_reason_of (now : Z) (budget : WorkBudget) : option string :=
  match wk_state budget with
  | WorkStopped => Some (default WORK_STOPPED_REASON (wk_stop_reason budget))
  | WorkOpen =>
      if decide (wk_deadline budget <= now)%Z then Some WORK_DEADLINE_REACHED
      else if decide (wk_send_bound budget <= wk_settled_sends budget)%Z then Some WORK_SEND_BOUND_REACHED
      else if decide (wk_unit_bound budget <= saturating_add u64_max (wk_spent budget) (wk_reserved budget))%Z
      then Some WORK_UNIT_BOUND_REACHED
      else None
  end.

(** [stop_reached_work_budget]: a row another path stopped is not an error. *)
Definition stop_reached_work_budget (task_id : TaskId) (reason : string) (s : LStore)
    : result unit StoreError * LStore :=
  let (answer, s) := stop_work_budget task_id reason s in
  (match answer with
   | Ok _ => Ok tt
   | Err (StoreConflict (WorkBudgetStopped _)) => Ok tt
   | Err e => Err e
   end, s).

(** The walk of [work_budget_gate] over a scope chain; [clock] is the reading at
    each scope. *)
Fixpoint work_gate (clock : nat -> Z) (chain : list TaskId) (s : LStore) : result (option string) StoreError * LStore :=
  match chain with
  | [] => (Ok None, s)
  | scope :: chain =>
      match work_budget scope s with
      | Err e => (Err e, s)
      | Ok None => work_gate (fun i => clock (S i)) chain s
      | Ok (Some budget) =>
          match stop_reason_of (clock 0) budget with
          | None => work_gate (fun i => clock (S i)) chain s
          | Some reason =>
              if decide (wk_state budget = WorkOpen) then
                let (answer, s) := stop_reached_work_budget scope reason s in
                (match answer with Ok _ => Ok (Some reason) | Err e => Err e end, s)
              else (Ok (Some reason), s)
          end
      end
  end.

Definition work_budget_gate (clock : nat -> Z) (task_id : TaskId) (chain : list TaskId) (s : LStore)
    : result (option string) StoreError * LStore :=
  work_gate clock (match chain with [] => [task_id] | _ => chain end) s.
