(* ===== verification/Sends.v ===== *)
(** Sends and what they settle ([src/src/state.rs]): the dispatch that reserves the
    bound and opens the settlement, the settling that resolves both, the
    reconciling of interrupted sends, the totals, the observers' grants and the
    cache-read rate; and the two ledgers of the dispatch boundary ([model.rs]). *)

From stdpp Require Import sorting pretty.
From S2P Require Import Prelude.
From S2P Require Import Contracts.
From S2P Require Import Requests.
From S2P Require Import Notifications.
From S2P Require Import Store.
From S2P Require Import TaskDb.
From S2P Require Import Routes.
From S2P Require Import LedgerDb.
From S2P Require Import Ledger.

(** * Dispatch *)

(** The open scopes of a dispatch, each once. *)
Definition open_scopes (names : list string) (db : LedgerDb) : list string :=
  fold_left (fun open scope =>
    if bool_decide (is_Some (scopes db !! scope)) && negb (bool_decide (scope ∈ open)) then open ++ [scope] else open)
    names [].

(** The check of one scope's recorded send bound. *)
Definition check_send_bound (scope : string) : ltx unit :=
  let! db := tx_get in
  match work_budgets db !! scope with
  | Some w =>
      let settled := settled_sends scope db in
      if bool_decide (wb_state w = WorkOpen) && bool_decide (wb_send_bound w <= settled)%Z then
        let! settled := tx_store (unsigned settled) in
        let! bound := tx_store (unsigned (wb_send_bound w)) in
        tx_err (StoreConflict (WorkSendBoundReached scope settled bound))
      else tx_ret tt
  | None => tx_ret tt
  end.

(** The body of [begin_send]; it answers the scopes the bound is held at. *)
Definition begin_send_tx (names : list string) (context : SendContext) (attempt_id : string) (stored_bound : Z)
    : ltx (list string) :=
  let! db := tx_get in
  match settlement_row attempt_id db with
  | Some _ => tx_err (StoreConflict (SettlementAlreadyRecorded attempt_id))
  | None =>
      let open := open_scopes names db in
      let! _ := each check_send_bound open in
      let! _ := each (reserve_one attempt_id stored_bound) open in
      let! rowid := next_settlement_rowid in
      let! _ := insert_settlement rowid attempt_id context stored_bound in
      tx_ret open
  end.

(** [begin_send] *)
Definition begin_send (names : list string) (context : SendContext) (manifest : RequestManifest) (s : LStore)
    : result SendTicket StoreError * LStore :=
  match budget_units_i64 (mf_cost_bound manifest) with
  | Err e => (Err e, s)
  | Ok stored_bound =>
      let (answer, s) := transaction (begin_send_tx names context (mf_attempt_id manifest) stored_bound) s in
      (rbind (fun open => Ok (mkTicket (mf_attempt_id manifest) (mf_cost_bound manifest)
                                (negb (bool_decide (open = []))))) answer, s)
  end.

(** * Settling *)

(** [settlement_not_dispatched] *)
Definition settlement_not_dispatched (attempt_id : string) (db : LedgerDb) : StoreError :=
  match settlement_row attempt_id db with
  | None => StoreNotFound (MissingSettlement attempt_id)
  | Some row => StoreConflict (SettlementNotDispatched attempt_id (settlement_state_as_str (se_state row)))
  end.

(** The bins of a report as stored columns. *)
Definition stored_bins (b : UsageBins) : result UsageBins StoreError :=
  let? p := transpose budget_units_i64 (l_prompt_tokens b) in
  let? c := transpose budget_units_i64 (l_completion_tokens b) in
  let? r := transpose budget_units_i64 (l_reasoning_tokens b) in
  let? cr := transpose budget_units_i64 (l_cache_read_tokens b) in
  let? cw := transpose budget_units_i64 (l_cache_write_tokens b) in
  let? t := transpose budget_units_i64 (l_total_tokens b) in
  Ok (mkLegs p c r cr cw t).

(** The charge of a ticket: the confirmed total under the bound, the bound where
    nothing was confirmed, nothing where nothing was reserved. *)
Definition charge_of (ticket : SendTicket) (confirmed : option Z) : option Z :=
  if tkt_reserved ticket
  then Some (match confirmed with Some total => Z.min total (tkt_cost_bound ticket) | None => tkt_cost_bound ticket end)
  else None.

(** Closes one row with its bins and charge, and resolves its reservation. *)
Definition finish_send_tx (attempt_id : string) (reserved : bool) (exactness : Exactness) (unknown : option string)
    (wire_retries : Z) (bins : UsageBins) (charged : option Z) : ltx unit :=
  let! settled := settle_settlement attempt_id exactness unknown wire_retries bins charged in
  if negb settled then let! db := tx_get in tx_err (settlement_not_dispatched attempt_id db)
  else
    let! _ := settle_total (l_total_tokens bins) charged (l_prompt_tokens bins) attempt_id in
    if reserved then resolve_reservation_tx attempt_id RsCharged charged false else tx_ret tt.

Definition outcome_usage (outcome : SendOutcome) : UsageDelta :=
  match outcome with SendSettled usage _ => usage | SendFailed _ => UsageUnknown end.
Definition outcome_retries (outcome : SendOutcome) : Z :=
  match outcome with SendSettled _ retries => retries | SendFailed retries => retries end.
Definition unknown_reason (outcome : SendOutcome) : option string :=
  match exactness (outcome_usage outcome), outcome with
  | UnknownExactness, SendFailed _ => Some "send failed"
  | UnknownExactness, SendSettled _ _ => Some "provider reported no usage"
  | _, _ => None
  end.

(** [finish_send] *)
Definition finish_send (ticket : SendTicket) (outcome : SendOutcome) (s : LStore) : result unit StoreError * LStore :=
  let usage := outcome_usage outcome in
  let confirmed := confirmed_total usage in
  if bool_decide (exactness usage = Exact) && negb (is_some confirmed)
  then (Err (StoreInvalidInput (SettlementMissingTotal (tkt_attempt_id ticket) (exactness_as_str (exactness usage)))), s)
  else
    match
      (let? charged := transpose budget_units_i64 (charge_of ticket confirmed) in
       let? bins := stored_bins (bins usage) in
       Ok (charged, bins))
    with
    | Err e => (Err e, s)
    | Ok (charged, bins) =>
        transaction (finish_send_tx (tkt_attempt_id ticket) (tkt_reserved ticket) (exactness usage)
          (unknown_reason outcome) (outcome_retries outcome) bins charged) s
    end.

(** [reservation_is_open] *)
Definition reservation_is_open (reservation_id : string) (db : LedgerDb) : bool :=
  let rows := reservation_rows reservation_id db in
  negb (bool_decide (rows = [])) && forallb (fun row => bool_decide (br_state row = RsReserved)) rows.

(** One round of the loop of [reconcile_sends]: whether it closed the row. *)
Definition reconcile_one (attempt_id : string) (bound : Z) : ltx bool :=
  let! db := tx_get in
  let reserved := reservation_is_open attempt_id db in
  let charged := if reserved then Some bound else None in
  let! settled := settle_settlement attempt_id UnknownExactness (Some "interrupted") 0 default_bins charged in
  if negb settled then tx_ret false
  else
    let! _ := settle_total None charged None attempt_id in
    let! _ := if reserved then resolve_reservation_tx attempt_id RsCharged (Some bound) false else tx_ret tt in
    tx_ret true.

Fixpoint reconcile_rows (rows : list SettlementRow) (reconciled : Z) : ltx Z :=
  match rows with
  | [] => tx_ret reconciled
  | row :: rows =>
      let! closed := reconcile_one (se_attempt row) (se_bound row) in
      reconcile_rows rows (if (closed : bool) then reconciled + 1 else reconciled)%Z
  end.

(** [reconcile_sends] *)
Definition reconcile_sends_tx : ltx Z :=
  let! db := tx_get in reconcile_rows (dispatched_rows db) 0.

Definition reconcile_sends : LStore -> result Z StoreError * LStore := transaction reconcile_sends_tx.

(** * Reading settlements *)

Record SettlementRecord := mkSettlementRecord {
  sr_attempt_id : string;
  sr_parent_attempt_id : option string;
  sr_purpose : string;
  sr_connection : string;
  sr_ranking_basis : option string;
  sr_cost_bound : Z;
  sr_state : SettlementState;
  sr_exactness : Exactness;
  sr_unknown_reason : option string;
  sr_wire_retries : Z;
  sr_bins : UsageBins;
  sr_charged_units : option Z;
}.

(** [StoredSettlement::into_record] *)
Definition settlement_record (row : SettlementRow) : result SettlementRecord StoreError :=
  let? bound := unsigned (se_bound row) in
  let? retries :=
    if decide (0 <= se_retries row <= u32_max)%Z then Ok (se_retries row)
    else Err (corrupt_column "settlement wire retries" (pretty (se_retries row))) in
  let? p := transpose unsigned (l_prompt_tokens (se_bins row)) in
  let? c := transpose unsigned (l_completion_tokens (se_bins row)) in
  let? r := transpose unsigned (l_reasoning_tokens (se_bins row)) in
  let? cr := transpose unsigned (l_cache_read_tokens (se_bins row)) in
  let? cw := transpose unsigned (l_cache_write_tokens (se_bins row)) in
  let? t := transpose unsigned (l_total_tokens (se_bins row)) in
  let? charged := transpose unsigned (se_charged row) in
  Ok (mkSettlementRecord (se_attempt row) (se_parent row) (se_purpose row) (se_connection row) (se_basis row) bound
        (se_state row) (se_exactness row) (se_unknown row) retries (mkLegs p c r cr cw t) charged).

Fixpoint records (rows : list SettlementRow) : result (list SettlementRecord) StoreError :=
  match rows with
  | [] => Ok []
  | row :: rows => let? record := settlement_record row in let? rest := records rows in Ok (record :: rest)
  end.

(** [settlement], [latest_settlement] and [settlements_for_parent] *)
Definition settlement (attempt_id : string) (s : LStore) : result SettlementRecord StoreError :=
  read (fun db =>
    let? row := ok_or (settlement_row attempt_id db) (StoreNotFound (MissingSettlement attempt_id)) in
    settlement_record row) s.
Definition latest_settlement (s : LStore) : result SettlementRecord StoreError :=
  read (fun db =>
    let? row := ok_or (last (settlements db)) (StoreNotFound (MissingSettlement "latest")) in
    settlement_record row) s.
Definition settlements_for_parent (parent : string) (s : LStore) : result (list SettlementRecord) StoreError :=
  read (fun db => records (filter (fun row => se_parent row = Some parent) (settlements db))) s.

(** * Totals *)

Record SettlementTotals := mkSettlementTotals {
  tt_settled_count : Z;
  tt_settled_without_total : Z;
  tt_total_tokens : option Z;
  tt_charged_units : option Z;
  tt_dispatched_count : Z;
  tt_latest_prompt_tokens : option Z;
}.

(** The columns of [SETTLEMENT_TOTALS]. *)
Definition totals_view (t : TotalsRow) : SettlementTotals :=
  mkSettlementTotals (ut_settled t) (ut_without_total t)
    (if decide (ut_without_total t < ut_settled t)%Z then ut_total_tokens t else None)
    (if decide (0 < ut_charged_count t)%Z then ut_charged_units t else None)
    (ut_dispatched t) (ut_latest_prompt t).

(** [settlement_totals] *)
Definition settlement_totals (s : LStore) : result SettlementTotals StoreError :=
  read (fun db =>
    let? t := ok_or (usage_totals db) (Storage (Undecodable "query returned no rows")) in
    let v := totals_view t in
    let? count := unsigned (tt_settled_count v) in
    let? without := unsigned (tt_settled_without_total v) in
    let? total := transpose unsigned (tt_total_tokens v) in
    let? charged := transpose unsigned (tt_charged_units v) in
    let? dispatched := unsigned (tt_dispatched_count v) in
    let? latest := transpose unsigned (tt_latest_prompt_tokens v) in
    Ok (mkSettlementTotals count without total charged dispatched latest)) s.

(** [SUM] and [COUNT] of a nullable column *)
Definition sum_column {A} (f : A -> option Z) (rows : list A) : option Z :=
  foldr (fun a acc => match f a with
                      | Some v => Some (v + default 0 acc)%Z
                      | None => acc
                      end) None rows.
Definition count_column {A B} (f : A -> option B) (rows : list A) : Z := zlen (omap f rows).

(** The row [USAGE_TOTALS_BACKFILL] computes. *)
Definition totals_of (rows : list SettlementRow) : TotalsRow :=
  let settled := filter (fun row => se_state row = Settled) rows in
  let totals := fun row => l_total_tokens (se_bins row) in
  mkTotals (zlen settled) (zlen settled - count_column totals settled) (sum_column totals settled)
    (count_column se_charged settled) (sum_column se_charged settled)
    (last settled ≫= fun row => l_prompt_tokens (se_bins row))
    (zlen (filter (fun row => se_state row = Dispatched) rows))
    (Z.max (default 0%Z (max_rowid rows) + 1) 1).

(** [USAGE_TOTALS_STALE] *)
Definition totals_stale (db : LedgerDb) : bool :=
  match usage_totals db with
  | None => false
  | Some t =>
      match max_rowid (settlements db) with Some newest => bool_decide (ut_next_rowid t <= newest)%Z | None => false end
      || negb (bool_decide (ut_dispatched t = zlen (dispatched_rows db)))
  end.

(** [backfill_usage_totals_on]: an aggregate of integers that leaves their range
    is an error. *)
Definition backfill_usage_totals : ltx unit :=
  let! db := tx_get in
  if is_some (usage_totals db) && negb (totals_stale db) then tx_ret tt
  else if totals_fit (totals_of (settlements db)) then tx_modify (on_totals (fun _ => Some (totals_of (settlements db))))
  else tx_err (Storage ConstraintFailed).

(** * The cache-read rate of a frozen cohort *)

Record CacheCohort := mkCohort {
  ch_candidate : string;
  ch_models : list string;
  ch_attempt_ids : list string;
  ch_include_cold : bool;
  ch_frozen_on : string;
}.

Record CacheCohortCounts := mkCounts { cc_measured : Z; cc_censored : Z; cc_cold_excluded : Z }.

(** The reason of an unknown rate. *)
Inductive CacheUnknownReason := NoMeasuredAttempt (warm_only : bool) | NoInputTokens.

Inductive CacheRate :=
  | RateNotRun
  | RateUnknown (cohort : CacheCohort) (counts : CacheCohortCounts) (reason : CacheUnknownReason)
  | RateMeasured (cohort : CacheCohort) (counts : CacheCohortCounts) (cache_read_tokens input_tokens : Z).

Definition CACHE_COHORT_CHUNK : nat := 900.

(** [chunks(n)]: [fuel] is the length of the list. *)
Fixpoint chunks {A} (fuel n : nat) (l : list A) : list (list A) :=
  match fuel, l with
  | S fuel, _ :: _ => take n l :: chunks fuel n (drop n l)
  | _, _ => []
  end.

(** [token_total] *)
Definition token_total (current add : Z) : result Z StoreError :=
  ok_or (checked_add u64_max current add) (Storage TotalOverflow).

(** What the loop over the rows accumulates. *)
Record CohortSums := mkSums { cs_counts : CacheCohortCounts; cs_cache_read : Z; cs_input : Z; cs_unsettled : Z }.

Definition cohort_row (include_cold : bool) (sums : CohortSums) (row : SettlementRow) : result CohortSums StoreError :=
  let counts := cs_counts sums in
  if decide (se_state row = Dispatched)
  then Ok (mkSums counts (cs_cache_read sums) (cs_input sums) (cs_unsettled sums + 1))
  else
    let? prompt := transpose unsigned (l_prompt_tokens (se_bins row)) in
    let? cache_read := transpose unsigned (l_cache_read_tokens (se_bins row)) in
    let? cache_write := transpose unsigned (l_cache_write_tokens (se_bins row)) in
    match prompt, cache_read, cache_write with
    | Some prompt, Some cache_read, Some cache_write =>
        if bool_decide (cache_read = 0%Z) && negb include_cold
        then Ok (mkSums (mkCounts (cc_measured counts) (cc_censored counts) (cc_cold_excluded counts + 1))
                   (cs_cache_read sums) (cs_input sums) (cs_unsettled sums))
        else
          let? read := token_total (cs_cache_read sums) cache_read in
          let? input := token_total (cs_input sums) prompt in
          let? input := token_total input cache_read in
          let? input := token_total input cache_write in
          Ok (mkSums (mkCounts (cc_measured counts + 1) (cc_censored counts) (cc_cold_excluded counts))
                read input (cs_unsettled sums))
    | _, _, _ =>
        Ok (mkSums (mkCounts (cc_measured counts) (cc_censored counts + 1) (cc_cold_excluded counts))
              (cs_cache_read sums) (cs_input sums) (cs_unsettled sums))
    end.

Fixpoint cohort_rows (include_cold : bool) (sums : CohortSums) (rows : list SettlementRow) : result CohortSums StoreError :=
  match rows with
  | [] => Ok sums
  | row :: rows => let? sums := cohort_row include_cold sums row in cohort_rows include_cold sums rows
  end.

(** The rows of one statement over a batch of attempts. *)
Definition batch_rows (db : LedgerDb) (chunk : list string) : list SettlementRow :=
  filter (fun row => se_attempt row ∈ chunk) (settlements db).

(** The distinct attempts of a cohort, sorted. *)
Definition cohort_ids (cohort : CacheCohort) : list string :=
  merge_sort string_le (elements (list_to_set (C := gset string) (ch_attempt_ids cohort))).

(** [cache_read_rate] *)
Definition cache_read_rate_on (cohort : CacheCohort) (db : LedgerDb) : result CacheRate StoreError :=
  let ids := cohort_ids cohort in
  if bool_decide (ids = []) then Err (StoreInvalidInput CacheCohortEmpty)
  else
    let rows := flat_map (batch_rows db) (chunks (length ids) CACHE_COHORT_CHUNK ids) in
    if decide (length rows < length ids)
    then Err (StoreInvalidInput (CacheCohortMissing (Z.of_nat (length ids - length rows))))
    else
      let? sums := cohort_rows (ch_include_cold cohort) (mkSums (mkCounts 0 0 0) 0 0 0) rows in
      let counts := cs_counts sums in
      if decide (0 < cs_unsettled sums)%Z then Err (StoreInvalidInput (CacheCohortUnsettled (cs_unsettled sums)))
      else if decide (cc_measured counts = 0%Z)
      then Ok (RateUnknown cohort counts (NoMeasuredAttempt (negb (ch_include_cold cohort))))
      else if decide (cs_input sums = 0%Z) then Ok (RateUnknown cohort counts NoInputTokens)
      else Ok (RateMeasured cohort counts (cs_cache_read sums) (cs_input sums)).

Definition cache_read_rate (cohort : CacheCohort) : LStore -> result CacheRate StoreError :=
  read (cache_read_rate_on cohort).

(** [CacheRate::numerator_and_denominator] *)
Definition numerator_and_denominator (rate : CacheRate) : option (Z * Z) :=
  match rate with RateMeasured _ _ read input => Some (read, input) | _ => None end.

(** * Observers' grants *)

Record SharingGrant := mkSharingGrant {
  gr_grant_id : string;
  gr_task_id : TaskId;
  gr_token_digest : string;
  gr_expires_at : Z;
  gr_state : SharingGrantState;
}.

(** [sharing_grant_on] *)
Definition sharing_grant_on (grant_id : string) (db : LedgerDb) : result (option SharingGrant) StoreError :=
  match sharing_grants db !! grant_id with
  | None => Ok None
  | Some row =>
      let? expires := unsigned (sg_expires_at row) in
      Ok (Some (mkSharingGrant grant_id (sg_task row) (sg_token_digest row) expires (sg_state row)))
  end.

Definition task_session (task_id : TaskId) (db : LedgerDb) : option SessionId :=
  tk_session <$> tasks (task_db db) !! task_id.

(** The body of [open_sharing_grant]. *)
Definition open_sharing_grant_tx (grant_id : string) (session_id : SessionId) (task_id : TaskId)
    (token_digest : string) (stored_expiry : Z) : ltx (option SharingGrant) :=
  let! db := tx_get in
  if decide (task_session task_id db = Some session_id) then
    if bool_decide (is_Some (sharing_grants db !! grant_id)) then tx_err (Storage ConstraintFailed)
    else
      let! _ := tx_modify (on_sharing_grants (<[grant_id := mkGrantRow task_id token_digest stored_expiry GrantOpen]>)) in
      let! db := tx_get in
      tx_store (sharing_grant_on grant_id db)
  else tx_err (StoreNotFound (MissingTask task_id)).

Definition open_sharing_grant (grant_id : string) (session_id : SessionId) (task_id : TaskId)
    (token_digest : string) (expires_at : Z) (s : LStore) : result SharingGrant StoreError * LStore :=
  match sharing_expiry_i64 expires_at with
  | Err e => (Err e, s)
  | Ok stored_expiry =>
      let (answer, s) := transaction (open_sharing_grant_tx grant_id session_id task_id token_digest stored_expiry) s in
      (rbind (fun grant => ok_or grant (StoreNotFound (MissingSharingGrant grant_id))) answer, s)
  end.

(** The guarded closing of one grant: the row it matches, and how it closes. *)
Definition close_grant (grant_id : string) (guard : GrantRow -> bool) (closed : SharingGrantState) : ltx bool :=
  fun db =>
    match sharing_grants db !! grant_id with
    | Some row =>
        if bool_decide (sg_state row = GrantOpen) && guard row
        then Ok (true, on_sharing_grants (<[grant_id := mkGrantRow (sg_task row) (sg_token_digest row) (sg_expires_at row) closed]>) db)
        else Ok (false, db)
    | None => Ok (false, db)
    end.

(** [transition_sharing_grant] *)
Definition transition_sharing_grant_tx (grant_id : string) (session_id : option SessionId) (require_transition : bool)
    (guard : GrantRow -> bool) (closed : SharingGrantState) : ltx SharingGrant :=
  let! db := tx_get in
  let owner := sharing_grants db !! grant_id ≫= fun row => task_session (sg_task row) db in
  if match session_id with Some session => negb (bool_decide (owner = Some session)) | None => false end
  then tx_err (StoreNotFound (MissingSharingGrant grant_id))
  else
    let! matched := close_grant grant_id guard closed in
    let! db := tx_get in
    let! grant := tx_store (sharing_grant_on grant_id db) in
    match grant with
    | None => tx_err (StoreNotFound (MissingSharingGrant grant_id))
    | Some grant =>
        if require_transition && negb matched
        then tx_err (StoreConflict (SharingGrantClosed (gr_grant_id grant) (grant_state_as_str (gr_state grant))))
        else tx_ret grant
    end.

(** [revoke_sharing_grant], [expire_sharing_grant] and [fail_sharing_grant] *)
Definition revoke_sharing_grant (grant_id : string) (session_id : SessionId)
    : LStore -> result SharingGrant StoreError * LStore :=
  transaction (transition_sharing_grant_tx grant_id (Some session_id) false (fun _ => true) GrantRevoked).
Definition expire_sharing_grant (grant_id : string) (now : Z) (s : LStore) : result SharingGrant StoreError * LStore :=
  match sharing_expiry_i64 now with
  | Err e => (Err e, s)
  | Ok stored_now =>
      transaction (transition_sharing_grant_tx grant_id None true
        (fun row => bool_decide (sg_expires_at row <= stored_now)%Z) GrantExpired) s
  end.
Definition fail_sharing_grant (grant_id : string) : LStore -> result SharingGrant StoreError * LStore :=
  transaction (transition_sharing_grant_tx grant_id None false (fun _ => true) GrantFailed).

(** [fail_open_sharing_grants] *)
Definition fail_grant (row : GrantRow) : GrantRow :=
  if decide (sg_state row = GrantOpen) then mkGrantRow (sg_task row) (sg_token_digest row) (sg_expires_at row) GrantFailed
  else row.
Definition fail_open_sharing_grants_tx : ltx unit := tx_modify (on_sharing_grants (fmap fail_grant)).
Definition fail_open_sharing_grants : LStore -> result unit StoreError * LStore :=
  transaction fail_open_sharing_grants_tx.

(** * The ledgers of the dispatch boundary *)

(** [StoreLedger]: [begin_send] and [finish_send] over a store and a scope chain. *)
Definition ledger_error (error : StoreError) : LedgerError :=
  match error with
  | StoreConflict (CauseBudgetExhausted scope _ _ _ _) => LedgerBudgetExhausted scope
  | other => LedgerStore other
  end.

Definition store_begin_send (names : list string) (context : SendContext) (manifest : RequestManifest) (s : LStore)
    : result SendTicket LedgerError * LStore :=
  let (answer, s) := begin_send names context manifest s in (map_err ledger_error answer, s).
Definition store_finish_send (ticket : SendTicket) (outcome : SendOutcome) (s : LStore)
    : result unit LedgerError * LStore :=
  let (answer, s) := finish_send ticket outcome s in (map_err LedgerStore answer, s).

(** [NullLedger] *)
Definition null_begin_send (_ : SendContext) (manifest : RequestManifest) (s : unit) : result SendTicket LedgerError * unit :=
  (Ok (mkTicket (mf_attempt_id manifest) (mf_cost_bound manifest) false), s).
Definition null_finish_send (_ : SendTicket) (_ : SendOutcome) (s : unit) : result unit LedgerError * unit := (Ok tt, s).
