(* ===== verification/LedgerCalls.v ===== *)
(** The calls of the ledger as data, beside the calls of the task store they run
    between, and the transactions a run commits. *)

From S2P Require Import Prelude.
From S2P Require Import Contracts.
From S2P Require Import Requests.
From S2P Require Import Notifications.
From S2P Require Import Store.
From S2P Require Import TaskDb.
From S2P Require Import PlanGate.
From S2P Require Import TaskStore.
From S2P Require Import TaskCalls.
From S2P Require Import Routes.
From S2P Require Import LedgerDb.
From S2P Require Import Ledger.
From S2P Require Import Sends.

Inductive LedgerCall :=
  | Tasks (c : TaskCall)
  | OpenBudget (scope : string) (limit_units : Z)
  | BudgetReserve (reservation_id : string) (names : list string) (bound : Z)
  | BudgetCharge (reservation_id : string) (confirmed : option Z)
  | BudgetRelease (reservation_id : string)
  | OpenWorkBudget (task_id : TaskId) (deadline send_bound unit_bound : Z)
  | StopWorkBudget (task_id : TaskId) (reason : string)
  | BeginSend (names : list string) (context : SendContext) (manifest : RequestManifest)
  | FinishSend (ticket : SendTicket) (outcome : SendOutcome)
  | ReconcileSends
  | OpenSharingGrant (grant_id : string) (session_id : SessionId) (task_id : TaskId) (token_digest : string) (expires_at : Z)
  | RevokeSharingGrant (grant_id : string) (session_id : SessionId)
  | ExpireSharingGrant (grant_id : string) (now : Z)
  | FailSharingGrant (grant_id : string)
  | FailOpenSharingGrants.

(** An [u64] is not negative; of a report, the counters the ledger adds up. *)
Definition nonneg (o : option Z) : Prop := (0 <= default 0 o)%Z.
Definition nonneg_bins (b : UsageBins) : Prop :=
  nonneg (l_prompt_tokens b) /\ nonneg (l_total_tokens b).

Definition u64_args (c : LedgerCall) : Prop :=
  match c with
  | OpenBudget _ limit => (0 <= limit)%Z
  | BudgetReserve _ _ bound => (0 <= bound)%Z
  | BudgetCharge _ (Some confirmed) => (0 <= confirmed)%Z
  | OpenWorkBudget _ deadline sends units => (0 <= deadline /\ 0 <= sends /\ 0 <= units)%Z
  | BeginSend _ _ manifest => (0 <= mf_cost_bound manifest)%Z
  | FinishSend ticket outcome => (0 <= tkt_cost_bound ticket)%Z /\ nonneg_bins (bins (outcome_usage outcome))
  | _ => True
  end.

Section Calls.
Context `{JsonCodec AnswerSelection} `{JsonCodec CommandResult} `{JsonCodec AnsweredForkIdentity}.
Context `{JsonCodec (SessionId * string * string * list string * list string)}.
Variable generate : nat -> string.
Variable sha256_hex : string -> string.

(** The store of the tasks inside the ledger's. *)
Definition task_store (s : LStore) : Store :=
  mkTaskStore (task_db <$> ts_conn s) (ts_held_claim_commit s) (ts_path_identity s).
Definition with_task_db (tdb : TaskDb) (db : LedgerDb) : LedgerDb :=
  mkLedgerDb tdb (scopes db) (reservations db) (settlements db) (usage_totals db) (work_budgets db) (sharing_grants db).
Definition with_task_store (s : LStore) (t : Store) : LStore :=
  mkTaskStore (tdb ← ts_conn t; db ← ts_conn s; Some (with_task_db tdb db)) (ts_held_claim_commit t) (ts_path_identity t).

(** The store after a call. *)
Definition lcall (c : LedgerCall) (s : LStore) : LStore :=
  match c with
  | Tasks c => with_task_store s (call generate sha256_hex c (task_store s))
  | OpenBudget scope limit => (open_budget scope limit s).2
  | BudgetReserve id names bound => (budget_reserve id names bound s).2
  | BudgetCharge id confirmed => (budget_charge id confirmed s).2
  | BudgetRelease id => (budget_release id s).2
  | OpenWorkBudget task deadline sends units => (open_work_budget task deadline sends units s).2
  | StopWorkBudget task reason => (stop_work_budget task reason s).2
  | BeginSend names context manifest => (begin_send names context manifest s).2
  | FinishSend ticket outcome => (finish_send ticket outcome s).2
  | ReconcileSends => (reconcile_sends s).2
  | OpenSharingGrant grant session task digest expires => (open_sharing_grant grant session task digest expires s).2
  | RevokeSharingGrant grant session => (revoke_sharing_grant grant session s).2
  | ExpireSharingGrant grant now => (expire_sharing_grant grant now s).2
  | FailSharingGrant grant => (fail_sharing_grant grant s).2
  | FailOpenSharingGrants => (fail_open_sharing_grants s).2
  end.

Definition lcalls (cs : list LedgerCall) (s : LStore) : LStore := fold_left (fun s c => lcall c s) cs s.
End Calls.

(** The transaction of a call, with the values its conversions admitted. *)
Inductive LedgerTx : LedgerCall -> forall A, ltx A -> Prop :=
  | ltx_open scope limit : (limit <= i64_max)%Z -> LedgerTx (OpenBudget scope limit) _ (open_budget_tx scope limit)
  | ltx_reserve id names bound :
      (bound <= i64_max)%Z -> LedgerTx (BudgetReserve id names bound) _ (budget_reserve_tx id names bound)
  | ltx_charge id confirmed :
      LedgerTx (BudgetCharge id confirmed) _ (resolve_reservation_tx id RsCharged confirmed false)
  | ltx_release id : LedgerTx (BudgetRelease id) _ (resolve_reservation_tx id RsReleased None true)
  | ltx_open_work task deadline sends units :
      (units <= i64_max)%Z ->
      LedgerTx (OpenWorkBudget task deadline sends units) _ (open_work_budget_tx task deadline sends units)
  | ltx_stop_work task reason : LedgerTx (StopWorkBudget task reason) _ (stop_work_budget_tx task reason)
  | ltx_begin names context manifest :
      (mf_cost_bound manifest <= i64_max)%Z ->
      LedgerTx (BeginSend names context manifest) _
        (begin_send_tx names context (mf_attempt_id manifest) (mf_cost_bound manifest))
  | ltx_finish ticket outcome :
      LedgerTx (FinishSend ticket outcome) _
        (finish_send_tx (tkt_attempt_id ticket) (tkt_reserved ticket) (exactness (outcome_usage outcome))
           (unknown_reason outcome) (outcome_retries outcome) (bins (outcome_usage outcome))
           (charge_of ticket (confirmed_total (outcome_usage outcome))))
  | ltx_reconcile : LedgerTx ReconcileSends _ reconcile_sends_tx
  | ltx_open_grant grant session task digest expires :
      LedgerTx (OpenSharingGrant grant session task digest expires) _
        (open_sharing_grant_tx grant session task digest expires)
  | ltx_revoke grant session :
      LedgerTx (RevokeSharingGrant grant session) _
        (transition_sharing_grant_tx grant (Some session) false (fun _ => true) GrantRevoked)
  | ltx_expire grant now :
      LedgerTx (ExpireSharingGrant grant now) _
        (transition_sharing_grant_tx grant None true (fun row => bool_decide (sg_expires_at row <= now)%Z) GrantExpired)
  | ltx_fail grant :
      LedgerTx (FailSharingGrant grant) _
        (transition_sharing_grant_tx grant None false (fun _ => true) GrantFailed)
  | ltx_fail_open : LedgerTx FailOpenSharingGrants _ fail_open_sharing_grants_tx.

(** What a call does to the database: nothing, its transaction, or calls of the
    task store. *)
Inductive lstep (c : LedgerCall) (db : LedgerDb) : LedgerDb -> Prop :=
  | step_same : lstep c db db
  | step_tx A (m : ltx A) a db' : LedgerTx c A m -> m db = Ok (a, db') -> lstep c db db'
  | step_tasks tdb : lstep c db (with_task_db tdb db).

(** The database a run starts from: the totals' row is filled when it opens. *)
Definition empty_ledger : LedgerDb := mkLedgerDb empty_db ∅ [] [] (Some (totals_of [])) ∅ ∅.
Definition fresh_ledger : LStore := mkTaskStore (Some empty_ledger) false true.

(** * From calls to transactions *)

Lemma transposed {A B} (f : A -> result B StoreError) (g : A -> B) o v :
  (forall a b, f a = Ok b -> b = g a) -> transpose f o = Ok v -> v = g <$> o.
Proof.
  intros Hf. destruct o as [a|]; simpl; [|by intros [= <-]].
  destruct (f a) as [b|] eqn:E; simpl; [|done]. intros [= <-]. by rewrite (Hf _ _ E).
Qed.

Lemma budget_units_Ok units v : budget_units_i64 units = Ok v -> v = units /\ (units <= i64_max)%Z.
Proof. unfold budget_units_i64. case_decide; [|done]. by intros [= <-]. Qed.

Lemma transposed_units o v : transpose budget_units_i64 o = Ok v -> v = o.
Proof.
  intros E. apply (transposed _ id) in E; [by rewrite option_fmap_id in E|].
  by intros a b [-> _]%budget_units_Ok.
Qed.

Lemma stored_bins_Ok b v : stored_bins b = Ok v -> v = b.
Proof.
  unfold stored_bins. destruct b as [p c r cr cw t]; simpl.
  repeat match goal with
    | |- context [transpose budget_units_i64 ?o] =>
        let E := fresh "E" in
        destruct (transpose budget_units_i64 o) eqn:E; simpl; [apply transposed_units in E; subst|done]
    end. by intros [= <-].
Qed.

Lemma ledger_transaction {A} c (m : ltx A) s db' :
  LedgerTx c A m -> ts_conn (transaction m s).2 = Some db' -> exists db, ts_conn s = Some db /\ lstep c db db'.
Proof.
  intros Hm [Hs|(db & a & Hs & Hr)]%transaction_db; [exists db'; split; [done|constructor]|].
  exists db. split; [done|]. by eapply step_tx.
Qed.

(** A call that answers from the value its transaction returned. *)
Ltac in_transaction :=
  match goal with
  | |- context [transaction ?m ?s] =>
      let Ht := fresh "Ht" in
      destruct (transaction m s) as [? ?] eqn:Ht; simpl; intros ?; eapply (ledger_transaction _ m s);
      [by constructor|by rewrite Ht]
  end.

Section Calls.
Context `{JsonCodec AnswerSelection} `{JsonCodec CommandResult} `{JsonCodec AnsweredForkIdentity}.
Context `{JsonCodec (SessionId * string * string * list string * list string)}.
Variable generate : nat -> string.
Variable sha256_hex : string -> string.
Local Abbreviation run_call := (lcall generate sha256_hex).
Local Abbreviation run_calls := (lcalls generate sha256_hex).

Lemma lcall_step c s db' :
  ts_conn (run_call c s) = Some db' -> exists db, ts_conn s = Some db /\ lstep c db db'.
Proof.
  assert (Hsame : ts_conn s = Some db' -> exists db, ts_conn s = Some db /\ lstep c db db').
  { intros Hs. exists db'. split; [done|constructor]. }
  destruct c; cbn [lcall]; try (eapply ledger_transaction; by constructor).
  - unfold with_task_store. simpl. destruct (ts_conn (call _ _ _ _)) as [tdb|]; [|done].
    destruct (ts_conn s) as [db|]; [|done]. simpl. intros [= <-]. exists db. split; [done|constructor].
  - unfold open_budget. destruct (budget_units_i64 _) as [v|] eqn:E; [|done].
    apply budget_units_Ok in E as [-> ?]. eapply ledger_transaction. by constructor.
  - unfold budget_reserve. case_bool_decide; [done|]. destruct (budget_units_i64 _) as [v|] eqn:E; [|done].
    apply budget_units_Ok in E as [-> ?]. eapply ledger_transaction. by constructor.
  - unfold budget_charge. destruct (transpose _ _) as [v|] eqn:E; [|done]. apply transposed_units in E as ->.
    eapply ledger_transaction. by constructor.
  - unfold open_work_budget, work_bound_i64. destruct (decide (deadline <= i64_max)%Z); [|exact Hsame]. cbn [rbind].
    destruct (decide (send_bound <= i64_max)%Z); [|exact Hsame]. cbn [rbind].
    destruct (decide (unit_bound <= i64_max)%Z); [|exact Hsame]. cbn [rbind].
    in_transaction.
  - unfold begin_send. destruct (budget_units_i64 _) as [v|] eqn:E; [|done]. apply budget_units_Ok in E as [-> ?].
    in_transaction.
  - unfold finish_send. case_match; [done|]. destruct (transpose _ _) as [v|] eqn:E; simpl; [|done].
    apply transposed_units in E as ->. destruct (stored_bins _) as [b|] eqn:E; simpl; [|done].
    apply stored_bins_Ok in E as ->. eapply ledger_transaction. constructor.
  - unfold open_sharing_grant, sharing_expiry_i64. case_decide; [|done].
    in_transaction.
  - unfold expire_sharing_grant, sharing_expiry_i64. case_decide; [|done]. eapply ledger_transaction. by constructor.
Qed.

Lemma lcalls_closed cs s : ts_conn s = None -> ts_conn (run_calls cs s) = None.
Proof.
  revert s. induction cs as [|c cs IH]; intros s Hs; simpl; [done|]. apply IH.
  destruct (ts_conn (run_call c s)) eqn:E; [|done]. apply lcall_step in E as (? & ? & _). congruence.
Qed.

(** A property every step keeps holds after a run, and a relation every step
    respects relates its ends. *)
Lemma lcalls_invariant (P : LedgerDb -> Prop) (ok : LedgerCall -> Prop) cs s db db' :
  (forall c db db', ok c -> lstep c db db' -> P db -> P db') ->
  Forall ok cs -> ts_conn s = Some db -> P db -> ts_conn (run_calls cs s) = Some db' -> P db'.
Proof.
  intros HP. revert s db. induction cs as [|c cs IH]; intros s db Hok Hs Hdb; simpl.
  { intros Hs'. by simplify_eq. }
  apply Forall_cons in Hok as [Hc Hok]. intros Hs'.
  destruct (ts_conn (run_call c s)) as [db1|] eqn:E.
  - pose proof E as (db0 & Hs0 & Hstep)%lcall_step. simplify_eq. by eapply IH; [| |eapply HP|].
  - by rewrite (lcalls_closed cs _ E) in Hs'.
Qed.

Lemma lcalls_relation (R : relation LedgerDb) `{!PreOrder R} (ok : LedgerCall -> Prop) cs s db db' :
  (forall c db db', ok c -> lstep c db db' -> R db db') ->
  Forall ok cs -> ts_conn s = Some db -> ts_conn (run_calls cs s) = Some db' -> R db db'.
Proof.
  intros HR Hok Hs. eapply (lcalls_invariant (R db)); [|done|done|reflexivity].
  intros c db1 db2 Hc Hstep H12. etrans; [done|by eapply HR].
Qed.
End Calls.
