(* ===== verification/Compaction.v ===== *)
(** The working context of a task and its forced compaction ([state.rs]): what the
    next request of a task carries, the checkpoint its episodic history folds into,
    the pins a resume compares, and the index of scoped records. *)

From stdpp Require Import pretty sorting.
From S2P Require Import Prelude.
From S2P Require Import Contracts.
From S2P Require Import Utf8.
From S2P Require Import Text.
From S2P Require Import Store.
From S2P Require Import TaskDb.
From S2P Require Import PlanGate.
From S2P Require Import TaskStore.
From S2P Require Import TaskCalls.
From S2P Require Import TaskStoreThms.
From S2P Require Import Codecs.
From S2P Require Import Requests.
From S2P Require Import LedgerDb.
From S2P Require Import Ledger.
From S2P Require Import LedgerCalls.

(** * Text *)

Definition NL : string := String "010" EmptyString.
(** [push_str] in a loop. *)
Definition lines {A} (line : A -> string) (l : list A) : string := foldr (fun a acc => line a +:+ acc) EmptyString l.

(** The derived [Debug] of the enums a context names. *)
Definition debug_applicability (a : ObligationApplicability) : string :=
  match a with Required => "Required" | NotApplicable => "NotApplicable" | Unresolved => "Unresolved" end.
Definition debug_execution (e : ObligationExecution) : string :=
  match e with Pending => "Pending" | Satisfied => "Satisfied" | Failed => "Failed" | Stale => "Stale" end.
Definition debug_effect (e : EffectClass) : string :=
  match e with
  | Read => "Read" | Write => "Write" | Exec => "Exec" | Egress => "Egress" | Model => "Model" | Control => "Control"
  end.
Definition debug_attempt (s : AttemptState) : string :=
  match s with
  | Planned => "Planned" | AttemptAdmitted => "Admitted" | Running => "Running" | Confirmed => "Confirmed"
  | Rejected => "Rejected" | CancelRequested => "CancelRequested" | Unknown => "Unknown"
  end.

(** * Views *)

Record PinnedInputs := mkPinned {
  pi_intent : Z;
  pi_goal_digest : string;
  pi_answer_digest : string;
  pi_evidence_digest : string;
}.

Record AssembledContext := mkContext {
  ac_text : string;
  ac_intent : string;
  ac_decision : string;
  ac_evidence : string;
  ac_remainder : string;
  ac_spend : string;
  ac_history : string;
}.

Record CompactionReport := mkReport {
  cr_checkpoint : string;
  cr_before : Z;
  cr_after : Z;
  cr_folded : Z;
}.

(** [validity_text] *)
Definition validity_text (v : EvidenceValidity) : string :=
  match v with Current => "current" | StaleEvidence => "stale" end.

(** [compacted_history_line] *)
Definition compacted_history_line (c : ContinuationCheckpoint) : string :=
  "history: compacted " +:+ cp_id c +:+ " " +:+ pretty (cp_folded c) +:+ " records digest " +:+ cp_history_digest c +:+ NL.

(** [ContinuationCheckpoint::stale_pin] *)
Definition stale_pin (c : ContinuationCheckpoint) (live : PinnedInputs) : option string :=
  if decide (cp_intent c <> pi_intent live) then Some "intent"
  else if decide (cp_goal_digest c <> pi_goal_digest live) then Some "goal"
  else if decide (cp_answer_digest c <> pi_answer_digest live) then Some "answer"
  else if decide (cp_evidence_digest c <> pi_evidence_digest live) then Some "evidence"
  else None.

(** [task_scope_prefix] *)
Definition task_scope_prefix (task_id : TaskId) : string := "task:" +:+ task_id.

(** [LIKE ?1 || '%'] of a text without wildcards: a prefix, ASCII letters of either
    case. *)
Definition like_prefix (text s : string) : bool := String.prefix (lowercase text) (lowercase s).

(** [evidence_index_bytes] *)
Definition evidence_index_bytes (records : list EvidenceRow) : string :=
  lines (fun e => ed_id e +:+ " " +:+ validity_text (ed_validity e) +:+ " " +:+ ed_digest e +:+ NL) records.

(** [scopes.sort()] *)
Definition scope_le (a b : string * Z) : Prop :=
  match String.compare a.1 b.1 with Lt => True | Eq => (a.2 <= b.2)%Z | Gt => False end.
#[local] Instance scope_le_dec a b : Decision (scope_le a b).
Proof. unfold scope_le. destruct (String.compare _ _); apply _. Defined.

(** [SPEND_SCOPES], sorted. *)
Definition spend_scopes (task_id : TaskId) (db : LedgerDb) : list (string * Z) :=
  merge_sort scope_le (filter (fun row => like_prefix (task_scope_prefix task_id) row.1)
    (map (fun row => (row.1, bs_spent row.2)) (map_to_list (scopes db)))).

(** [LATEST_COMPACTION]: of the events of one kind, the one of the greatest cursor. *)
Definition latest_event (events : list (Event EventDelta)) : option (Event EventDelta) :=
  foldl (fun latest e => match latest with
                         | Some l => if (ev_cursor l <? ev_cursor e)%Z then Some e else latest
                         | None => Some e
                         end) None events.
Definition compactions (task_id : TaskId) (db : TaskDb) : list (Event EventDelta) :=
  filter (fun e => ev_task_id e = Some task_id /\ ev_event_type e = "task.compacted") (event_rows db).

(** * Operations *)

Section Operations.
Variable generate : nat -> string.

(** The digest of bytes, as hex. *)
Variable sha256_hex : string -> string.

(** [spend_part] *)
Definition spend_line (row : string * Z) : string := row.1 +:+ " " +:+ pretty row.2 +:+ NL.
Definition spend_part (task_id : TaskId) (s : LStore) : result string StoreError :=
  read (fun db =>
    let rows := spend_scopes task_id db in
    if decide (rows = []) then Ok ("spend: none" +:+ NL)
    else
      let? rows := try_map (fun row => let? spent := unsigned row.2 in Ok (row.1, spent)) rows in
      Ok ("spend:" +:+ NL +:+ lines spend_line rows)) s.

(** [recorded_spend] *)
Definition recorded_spend (task_id : TaskId) (s : LStore) : result (list SpendEntry) StoreError :=
  read (fun db => try_map (fun row => let? spent := unsigned row.2 in Ok (mkSpend row.1 spent)) (spend_scopes task_id db)) s.

(** [continuation_checkpoint] *)
Definition checkpoint_of (delta : EventDelta) : result ContinuationCheckpoint StoreError :=
  match delta with TaskCompacted c => Ok c | _ => Err (Storage (Undecodable "task.compacted")) end.
Definition continuation_checkpoint (task_id : TaskId) (s : LStore) : result (option ContinuationCheckpoint) StoreError :=
  read (fun db =>
    match latest_event (compactions task_id (task_db db)) with
    | None => Ok None
    | Some e => let? c := checkpoint_of (ev_delta e) in Ok (Some c)
    end) s.

(** The parts of [assembled_context]. *)
Definition decision_part (question : option (Question * Z)) (answer : option (string * string)) : string :=
  "decision:" +:+ NL +:+
  match question with
  | Some (q, revision) => "question: " +:+ q_question_id q +:+ " r" +:+ pretty revision +:+ " pending" +:+ NL
  | None => "question: none" +:+ NL
  end +:+
  match answer with
  | Some (answer, origin) => "answer: " +:+ origin +:+ " " +:+ answer +:+ NL
  | None => "answer: none" +:+ NL
  end.
Definition evidence_part (records : list EvidenceRow) : string :=
  "records: " +:+ pretty (zlen records) +:+ NL +:+
  lines (fun e => ed_id e +:+ " " +:+ validity_text (ed_validity e) +:+ " " +:+ ed_digest e +:+ NL) records.
Definition remainder_part (obligations : list Obligation) : string :=
  let outstanding := filter (fun o => o_execution o <> Satisfied) obligations in
  "remainder:" +:+ NL +:+
  lines (fun o => o_id o +:+ " " +:+ debug_applicability (o_applicability o) +:+ " " +:+ debug_execution (o_execution o) +:+ NL) outstanding +:+
  "outstanding: " +:+ pretty (zlen outstanding) +:+ NL.
Definition history_part (checkpoint : option ContinuationCheckpoint) (records : list EvidenceRow) (attempts : list AttemptRef) : string :=
  match checkpoint with
  | Some c => compacted_history_line c
  | None =>
      "history:" +:+ NL +:+
      lines (fun e => "record " +:+ ed_id e +:+ " " +:+ ed_observation e +:+ NL) records +:+
      lines (fun a => "attempt " +:+ ar_attempt_id a +:+ " " +:+ ar_action_id a +:+ " " +:+ debug_effect (ar_effect_class a) +:+ " " +:+
                      debug_attempt (ar_state a) +:+ NL) attempts
  end.

(** [assembled_context] *)
Definition assembled_context (task_id : TaskId) (s : LStore) : result AssembledContext StoreError :=
  let t := task_store s in
  let? sn := snapshot task_id t in
  let? goal := goal_bytes task_id t in
  let goal := from_utf8_lossy goal in
  let? question := current_question task_id t in
  let? answer := answered_question task_id t in
  let? records := evidence_for_task task_id t in
  let? checkpoint := continuation_checkpoint task_id s in
  let intent := "goal: " +:+ goal +:+ NL +:+ "intent: " +:+ pretty (sn_intent_revision sn) +:+ NL in
  let decision := decision_part question answer in
  let evidence := evidence_part records in
  let remainder := remainder_part (items (sn_obligations sn)) in
  let? spend := spend_part task_id s in
  let history := history_part checkpoint records (items (sn_attempts sn)) in
  Ok (mkContext (intent +:+ decision +:+ evidence +:+ remainder +:+ spend +:+ history) intent decision evidence remainder spend history).

(** [pinned_inputs] *)
Definition pinned_inputs (task_id : TaskId) (s : LStore) : result PinnedInputs StoreError :=
  let t := task_store s in
  let? sn := snapshot task_id t in
  let? goal := goal_bytes task_id t in
  let? answer := answered_question task_id t in
  let? records := evidence_for_task task_id t in
  Ok (mkPinned (sn_intent_revision sn) (sha256_hex goal)
        (sha256_hex match answer with Some (answer, _) => answer | None => EmptyString end)
        (sha256_hex (evidence_index_bytes records))).

(** [scoped_index] *)
Definition scoped_index (task_id : TaskId) (s : LStore) : result (list ScopedIndexEntry) StoreError :=
  let? checkpoint := continuation_checkpoint task_id s in
  match checkpoint with
  | None => Ok []
  | Some c =>
      let? records := evidence_for_task task_id (task_store s) in
      Ok (filter (fun entry => ix_evidence entry ∈ map ed_id records) (cp_evidence c))
  end.

(** A transaction on the tables of the tasks. *)
Definition task_tx {A} (m : stx A) : ltx A :=
  fun db => match m (task_db db) with Ok (a, tdb) => Ok (a, with_task_db tdb db) | Err e => Err e end.

(** What [force_compaction] records before it writes anything; the identifier of
    the checkpoint is the next one drawn. *)
Definition prospective_checkpoint (task_id : TaskId) (before : AssembledContext) (s : LStore) : result ContinuationCheckpoint StoreError :=
  let t := task_store s in
  let? pins := pinned_inputs task_id s in
  let? records := evidence_for_task task_id t in
  let? sn := snapshot task_id t in
  let? question := current_question task_id t in
  let? id := read (fun db => Ok (generate (drawn (task_db db)))) s in
  let? spend := recorded_spend task_id s in
  Ok (mkCheckpoint id task_id (pi_intent pins) (option_map (fun q => q_question_id q.1) question) (option_map snd question)
        (pi_goal_digest pins) (pi_answer_digest pins) (pi_evidence_digest pins)
        (map (fun e => mkIndexEntry (ed_id e) (validity_text (ed_validity e)) (ed_digest e)) records)
        spend (zlen records + zlen (items (sn_attempts sn))) (sha256_hex (ac_history before))).

Definition compaction_tx (session_id : SessionId) (task_id : TaskId) (c : ContinuationCheckpoint) : stx unit :=
  let! _ := tx_modify (on_drawn S) in
  append_event generate session_id (Some task_id) (cp_id c, 1%Z) "task.compacted" (TaskCompacted c) "runtime".

(** [force_compaction] *)
Definition force_compaction (session_id : SessionId) (task_id : TaskId) (s : LStore) : result CompactionReport StoreError * LStore :=
  match (let? before := assembled_context task_id s in
         let? c := prospective_checkpoint task_id before s in
         if decide (slen (ac_history before) <= slen (compacted_history_line c))%Z
         then Err (StoreConflict (CompactionNotShorter (slen (ac_history before)) (slen (compacted_history_line c))))
         else Ok (before, c)) with
  | Err e => (Err e, s)
  | Ok (before, c) =>
      match transaction (task_tx (compaction_tx session_id task_id c)) s with
      | (Err e, s) => (Err e, s)
      | (Ok _, s) =>
          match assembled_context task_id s with
          | Err e => (Err e, s)
          | Ok after => (Ok (mkReport (cp_id c) (slen (ac_text before)) (slen (ac_text after)) (cp_folded c)), s)
          end
      end
  end.
End Operations.

(** * Reads that a compaction leaves alone *)

Lemma conn_task_store (s : LStore) db : conn s = Ok db -> conn (task_store s) = Ok (task_db db).
Proof. unfold conn, task_store. destruct s as [[db0|] [] path]; cbn; try done. by intros [= ->]. Qed.

Lemma conn_task_store_inv (s : LStore) tdb : conn (task_store s) = Ok tdb -> exists db, conn s = Ok db.
Proof. unfold conn, task_store. destruct s as [[db0|] [] path]; cbn; try done. intros _. by eexists. Qed.

Lemma latest_event_elem events e : latest_event events = Some e -> e ∈ events.
Proof.
  unfold latest_event. induction events as [|x events IH] using rev_ind; [done|]. rewrite foldl_app. cbn.
  destruct (foldl _ None events) as [l|]; [case_match|]; intros [= <-]; apply elem_of_app; [right; by left|left; by apply IH|right; by left].
Qed.

Lemma latest_event_snoc events e :
  (forall x, x ∈ events -> (ev_cursor x < ev_cursor e)%Z) -> latest_event (events ++ [e]) = Some e.
Proof.
  intros Hlt. pose proof (latest_event_elem events) as Hin. unfold latest_event in *. rewrite foldl_app. cbn.
  destruct (foldl _ None events) as [l|]; [|done]. specialize (Hlt l (Hin l eq_refl)).
  by destruct (Z.ltb_spec (ev_cursor l) (ev_cursor e)); [|lia].
Qed.

Section Reads.
Variable sha256_hex : string -> string.
Variables (s s' : LStore) (db : LedgerDb) (events : list (Event EventDelta)) (n : nat).
Hypothesis Hs : conn s = Ok db.
Hypothesis Hs' : conn s' = Ok (with_task_db (journal events n (task_db db)) db).

(** Rows of the journal, and drawn identifiers, are in none of the other reads. *)
Lemma quiet_reads task_id :
  snapshot task_id (task_store s') = snapshot task_id (task_store s) /\
  goal_bytes task_id (task_store s') = goal_bytes task_id (task_store s) /\
  current_question task_id (task_store s') = current_question task_id (task_store s) /\
  answered_question task_id (task_store s') = answered_question task_id (task_store s) /\
  evidence_for_task task_id (task_store s') = evidence_for_task task_id (task_store s) /\
  spend_part task_id s' = spend_part task_id s.
Proof using Hs Hs'.
  pose proof (conn_task_store s db Hs) as H1. pose proof (conn_task_store s' _ Hs') as H2.
  unfold snapshot, goal_bytes, current_question, answered_question, evidence_for_task, spend_part.
  rewrite !(read_open _ _ _ H1), !(read_open _ _ _ H2), (read_open _ _ _ Hs), (read_open _ _ _ Hs').
  split_and!; try reflexivity. unfold snapshot_in_tx, task_row, tx_bind. cbn [task_db with_task_db].
  change (tasks (journal events n (task_db db))) with (tasks (task_db db)). by destruct (tasks (task_db db) !! task_id).
Qed.

Lemma quiet_pins task_id : pinned_inputs sha256_hex task_id s' = pinned_inputs sha256_hex task_id s.
Proof using Hs Hs'.
  destruct (quiet_reads task_id) as (E1 & E2 & _ & E4 & E5 & _). unfold pinned_inputs. by rewrite E1, E2, E4, E5.
Qed.

(** Only the history follows the checkpoint. *)
Lemma folded_context task_id before c :
  assembled_context task_id s = Ok before -> continuation_checkpoint task_id s' = Ok (Some c) ->
  assembled_context task_id s' = Ok (mkContext
    (ac_intent before +:+ ac_decision before +:+ ac_evidence before +:+ ac_remainder before +:+ ac_spend before +:+ compacted_history_line c)
    (ac_intent before) (ac_decision before) (ac_evidence before) (ac_remainder before) (ac_spend before) (compacted_history_line c)).
Proof using Hs Hs'.
  destruct (quiet_reads task_id) as (E1 & E2 & E3 & E4 & E5 & E6). unfold assembled_context. cbn zeta.
  rewrite E1, E2, E3, E4, E5, E6. intros Hb ->. cbn [rbind].
  destruct (snapshot task_id (task_store s)) as [sn|]; [|done]. cbn [rbind] in *.
  destruct (goal_bytes task_id (task_store s)) as [goal|]; [|done]. cbn [rbind] in *.
  destruct (current_question task_id (task_store s)) as [question|]; [|done]. cbn [rbind] in *.
  destruct (answered_question task_id (task_store s)) as [answer|]; [|done]. cbn [rbind] in *.
  destruct (evidence_for_task task_id (task_store s)) as [records|]; [|done]. cbn [rbind] in *.
  destruct (continuation_checkpoint task_id s) as [checkpoint|]; [|done]. cbn [rbind] in *.
  destruct (spend_part task_id s) as [spend|]; [|done]. cbn [rbind] in *. by injection Hb as <-.
Qed.
End Reads.

(** * The compaction *)

Section Compact.
Variable generate : nat -> string.
Variable sha256_hex : string -> string.
Variables (session_id : SessionId) (task_id : TaskId).

Local Abbreviation force := (force_compaction generate sha256_hex session_id task_id).

(** The record of a compaction. *)
Definition records_compaction (c : ContinuationCheckpoint) (event : Event EventDelta) (tdb : TaskDb) : Prop :=
  ev_delta event = TaskCompacted c /\ ev_event_type event = "task.compacted" /\ ev_task_id event = Some task_id /\
  ev_cursor event = next_cursor tdb.

Lemma compaction_tx_Ok c tdb u tdb' :
  compaction_tx generate session_id task_id c tdb = Ok (u, tdb') ->
  exists event, records_compaction c event tdb /\ tdb' = journal [event] 2 tdb.
Proof using Type.
  unfold compaction_tx, tx_modify, tx_bind. intros (event & Hc & _ & _ & Hd & Hty & Ht & ->)%append_event_Ok.
  exists event. by split_and!.
Qed.

Lemma recorded_checkpoint c event tdb (s' : LStore) db :
  records_compaction c event tdb -> conn s' = Ok (with_task_db (journal [event] 2 tdb) db) ->
  continuation_checkpoint task_id s' = Ok (Some c).
Proof using Type.
  intros (Hd & Hty & Ht & Hc) Hs'. unfold continuation_checkpoint. rewrite (read_open _ _ _ Hs').
  unfold compactions. cbn [task_db with_task_db]. change (event_rows (journal [event] 2 tdb)) with (event_rows tdb ++ [event]).
  rewrite filter_app, filter_cons_True by done. cbn [filter list_filter]. rewrite latest_event_snoc; [by rewrite Hd|].
  intros x [_ Hx]%list_elem_of_filter. rewrite Hc. by apply next_cursor_above.
Qed.

(** What a compaction that answers did. *)
Record compacted (s s' : LStore) (report : CompactionReport) (db : LedgerDb) (before : AssembledContext)
    (c : ContinuationCheckpoint) (event : Event EventDelta) : Prop := mkCompacted {
  cd_conn : conn s = Ok db;
  cd_before : assembled_context task_id s = Ok before;
  cd_checkpoint : prospective_checkpoint generate sha256_hex task_id before s = Ok c;
  cd_shorter : (slen (compacted_history_line c) < slen (ac_history before))%Z;
  cd_records : records_compaction c event (task_db db);
  cd_store : s' = mkTaskStore (Some (with_task_db (journal [event] 2 (task_db db)) db)) (ts_held_claim_commit s) (ts_path_identity s);
  cd_after : assembled_context task_id s' = Ok (mkContext
    (ac_intent before +:+ ac_decision before +:+ ac_evidence before +:+ ac_remainder before +:+ ac_spend before +:+ compacted_history_line c)
    (ac_intent before) (ac_decision before) (ac_evidence before) (ac_remainder before) (ac_spend before) (compacted_history_line c));
  cd_report : report = mkReport (cp_id c) (slen (ac_text before))
    (slen (ac_intent before +:+ ac_decision before +:+ ac_evidence before +:+ ac_remainder before +:+ ac_spend before +:+ compacted_history_line c))
    (cp_folded c);
}.

Lemma force_compaction_cases s r s' :
  force s = (r, s') ->
  (exists e, r = Err e /\ s' = s) \/
  exists report db before c event, r = Ok report /\ compacted s s' report db before c event.
Proof using Type.
  unfold force_compaction. destruct (assembled_context task_id s) as [before|e0] eqn:Hb; cbn [rbind]; [|intros [= <- <-]; left; by eexists].
  destruct (prospective_checkpoint _ _ _ _ _) as [c|e0] eqn:Hc; cbn [rbind]; [|intros [= <- <-]; left; by eexists].
  case_decide as Hlen; [intros [= <- <-]; left; by eexists|].
  destruct (transaction _ s) as [[u|e0] s1] eqn:Htx.
  - assert (Hu : (transaction (task_tx (compaction_tx generate session_id task_id c)) s).1 = Ok u) by (by rewrite Htx).
    apply transaction_Ok in Hu as (db & db' & Hm & Hr & Hs1). rewrite Htx in Hs1. cbn in Hs1. subst s1.
    destruct (conn_mut_open s db Hm) as [Hconn Hheld]. unfold task_tx in Hr.
    destruct (compaction_tx _ _ _ _ _) as [[u' tdb]|] eqn:Hct; [|done]. injection Hr as -> <-.
    apply compaction_tx_Ok in Hct as (event & Hev & ->).
    set (s2 := mkTaskStore _ _ _) in *.
    assert (Hs2 : conn s2 = Ok (with_task_db (journal [event] 2 (task_db db)) db)) by (unfold conn, s2; cbn; by rewrite Hheld).
    pose proof (recorded_checkpoint c event (task_db db) s2 db Hev Hs2) as Hcp.
    pose proof (folded_context s s2 db [event] 2 Hconn Hs2 task_id before c Hb Hcp) as Hafter.
    rewrite Hafter. intros [= <- <-]. right. eexists _, db, before, c, event. split; [reflexivity|].
    split; try done. lia.
  - intros [= <- <-]. left. exists e0. split; [done|].
    assert (He : (transaction (task_tx (compaction_tx generate session_id task_id c)) s).1 = Err e0) by (by rewrite Htx).
    apply transaction_Err in He. by rewrite Htx in He.
Qed.

Lemma assembled_text s before : assembled_context task_id s = Ok before ->
  ac_text before = ac_intent before +:+ ac_decision before +:+ ac_evidence before +:+ ac_remainder before +:+ ac_spend before +:+ ac_history before.
Proof using Type.
  unfold assembled_context. cbn zeta.
  repeat match goal with |- rbind _ ?r = _ -> _ => destruct r; cbn [rbind]; [|done] end. by intros [= <-].
Qed.
End Compact.

(** * What later calls leave of a fold *)

(** Events are only appended, and none of them is a compaction. *)
Definition stands (db db' : TaskDb) : Prop :=
  exists events, event_rows db' = event_rows db ++ events /\ Forall (fun e => ev_event_type e <> "task.compacted") events.

#[local] Instance stands_preorder : PreOrder stands.
Proof.
  split.
  - intros db. exists []. by rewrite app_nil_r.
  - intros a b c (e1 & H1 & F1) (e2 & H2 & F2). exists (e1 ++ e2). rewrite H2, H1, app_assoc. split; [done|by apply Forall_app].
Qed.

Lemma stands_same db db' : event_rows db' = event_rows db -> stands db db'.
Proof. intros E. exists []. by rewrite app_nil_r. Qed.
#[local] Hint Extern 1 (stands _ _) => apply stands_same; reflexivity : track.
#[local] Hint Extern 2 (tracks stands (fun db => if _ then Err _ else Ok (_, _))) =>
  apply tracks_guarded; intros; apply stands_same; reflexivity : track.

Section Stands.
Context `{JsonCodec AnswerSelection} `{JsonCodec CommandResult} `{JsonCodec AnsweredForkIdentity}.
Context `{JsonCodec (SessionId * string * string * list string * list string)}.
Variable generate : nat -> string.
Variable sha256_hex : string -> string.

Lemma stands_append session task aggregate ty delta origin :
  ty <> "task.compacted" -> tracks stands (append_event generate session task aggregate ty delta origin).
Proof using Type.
  intros Hty db u db' (event & _ & _ & _ & _ & Ht & _ & ->)%append_event_Ok. exists [event]. split; [done|].
  repeat constructor. by rewrite Ht.
Qed.
Hint Extern 1 (tracks stands (append_event _ _ _ _ _ _ _)) => apply stands_append; discriminate : track.

Lemma stands_fresh : tracks stands (fresh_id generate).
Proof using Type. intros db a db' [= <- <-]. by apply stands_same. Qed.
Lemma stands_supersede dies : tracks stands (supersede dies).
Proof using Type. intros db a db' [= <- <-]. by apply stands_same. Qed.
Hint Resolve stands_fresh stands_supersede : track.

Lemma stands_insert_task id row : tracks stands (insert_task id row).
Proof using Type. intros db a db'. unfold insert_task. destruct (_ !! _); [done|]. intros [= <- <-]. by apply stands_same. Qed.
Lemma stands_task_of id : tracks stands (task_of_obligation id).
Proof using Type. intros db a db'. unfold task_of_obligation. destruct (find _ _); [|done]. intros [= <- <-]. reflexivity. Qed.
Lemma stands_enumerate f position texts : (forall i t, tracks stands (f i t)) -> tracks stands (tx_enumerate f position texts).
Proof using Type. intros Hf. revert position. induction texts as [|t texts IH]; intros position; simpl; track; auto. Qed.
Lemma stands_reset task derived stored reset : tracks stands (reset_rows task derived stored reset).
Proof using Type. revert reset. induction stored as [|row stored IH]; intros reset; simpl; track; auto. Qed.
Lemma stands_supersede_rows session task selection next rows superseded :
  tracks stands (supersede_rows generate session task selection next rows superseded).
Proof using Type. revert superseded. induction rows as [|row rows IH]; intros superseded; simpl; track; auto. Qed.

Lemma tx_stands A (m : stx A) : TaskTx generate sha256_hex A m -> tracks stands m.
Proof using Type.
  destruct 1 as [? ? []|]; track.
  all: first [ apply stands_insert_task | apply stands_task_of | apply stands_reset | apply stands_supersede_rows
             | apply stands_enumerate; intros; track; apply tracks_guarded; intros; by apply stands_same
             | apply tracks_guarded; intros; by apply stands_same ].
Qed.
End Stands.

(** * What compaction promises *)

Section Claims.
Context `{JsonCodec AnswerSelection} `{JsonCodec CommandResult} `{JsonCodec AnsweredForkIdentity}.
Context `{JsonCodec (SessionId * string * string * list string * list string)}.
Variable generate : nat -> string.
Variable sha256_hex : string -> string.

(** C28.  A compaction that answers leaves a context whose history alone is shorter: goal and
    intent, decision, scoped records, remainder and spend come back byte for byte, the
    report measures both contexts truly, and the store gained one event and nothing
    else.  A compaction that is refused, for whatever reason, leaves the store as it
    was. *)
Theorem compaction_only_shortens session_id task_id s r s' :
  force_compaction generate sha256_hex session_id task_id s = (r, s') ->
  match r with
  | Err _ => s' = s
  | Ok report =>
      exists db event before after,
        conn s = Ok db /\
        s' = mkTaskStore (Some (with_task_db (journal [event] 2 (task_db db)) db)) (ts_held_claim_commit s) (ts_path_identity s) /\
        assembled_context task_id s = Ok before /\ assembled_context task_id s' = Ok after /\
        ac_intent after = ac_intent before /\ ac_decision after = ac_decision before /\ ac_evidence after = ac_evidence before /\
        ac_remainder after = ac_remainder before /\ ac_spend after = ac_spend before /\
        (slen (ac_history after) < slen (ac_history before))%Z /\
        cr_before report = slen (ac_text before) /\ cr_after report = slen (ac_text after) /\
        (cr_after report < cr_before report)%Z
  end.
Proof.
  intros [(e & -> & ->)|(report & db & before & c & event & -> & Hc)]%force_compaction_cases; [done|].
  destruct Hc as [Hconn Hb Hcp Hlen Hev Hs' Hafter Hr]. exists db, event, before. eexists. split; [done|]. split; [exact Hs'|].
  split; [exact Hb|]. split; [exact Hafter|]. subst report. cbn. do 5 (split; [reflexivity|]). split; [exact Hlen|].
  do 2 (split; [reflexivity|]). rewrite (assembled_text task_id s before Hb). rewrite !slen_app. lia.
Qed.

(** The checkpoint of a compaction says afterwards what moved: it is the one the store
    answers with, every scoped record is in its index, and against the inputs of any
    later store it names no pin exactly when all four are what they were, and else one
    that differs. *)
Theorem checkpoint_names_what_moved session_id task_id s report s' :
  force_compaction generate sha256_hex session_id task_id s = (Ok report, s') ->
  exists c pins,
    continuation_checkpoint task_id s' = Ok (Some c) /\ cp_id c = cr_checkpoint report /\
    pinned_inputs sha256_hex task_id s = Ok pins /\ pinned_inputs sha256_hex task_id s' = Ok pins /\
    (let? records := evidence_for_task task_id (task_store s') in Ok (map ed_id records)) =
      (let? index := scoped_index task_id s' in Ok (map ix_evidence index)) /\
    forall later live, pinned_inputs sha256_hex task_id later = Ok live ->
      (stale_pin c live = None <-> live = pins) /\
      (stale_pin c live = Some "intent" -> pi_intent live <> pi_intent pins) /\
      (stale_pin c live = Some "goal" -> pi_goal_digest live <> pi_goal_digest pins) /\
      (stale_pin c live = Some "answer" -> pi_answer_digest live <> pi_answer_digest pins) /\
      (stale_pin c live = Some "evidence" -> pi_evidence_digest live <> pi_evidence_digest pins).
Proof.
  intros [(e & ? & _)|(report' & db & before & c & event & [= <-] & Hc)]%force_compaction_cases; [done|].
  destruct Hc as [Hconn Hb Hcp _ Hev Hs' _ Hr].
  assert (Hheld : ts_held_claim_commit s = false) by (unfold conn in Hconn; by destruct (ts_held_claim_commit s)).
  assert (Hconn' : conn s' = Ok (with_task_db (journal [event] 2 (task_db db)) db)) by (subst s'; unfold conn; cbn; by rewrite Hheld).
  pose proof (recorded_checkpoint task_id c event (task_db db) s' db Hev Hconn') as Hrec.
  pose proof (quiet_pins sha256_hex s s' db [event] 2 Hconn Hconn' task_id) as Hpins.
  destruct (quiet_reads s s' db [event] 2 Hconn Hconn' task_id) as (_ & _ & _ & _ & Hev' & _).
  unfold prospective_checkpoint in Hcp. cbn zeta in Hcp.
  destruct (pinned_inputs sha256_hex task_id s) as [pins|] eqn:Epins; [|done]. cbn [rbind] in Hcp.
  destruct (evidence_for_task task_id (task_store s)) as [records|] eqn:Erec; [|done]. cbn [rbind] in Hcp.
  repeat match type of Hcp with rbind _ ?x = _ => destruct x; cbn [rbind] in Hcp; [|done] end. injection Hcp as <-.
  eexists _, pins. split; [exact Hrec|]. split; [by subst report|]. split; [done|]. split; [done|]. split.
  - rewrite Hev'. unfold scoped_index. rewrite Hrec. cbn [rbind]. rewrite Hev'. cbn [rbind cp_evidence]. f_equal.
    rewrite filter_all; [by rewrite <- list_fmap_compose|]. intros x (e & -> & He)%list_elem_of_fmap. cbn. by apply list_elem_of_fmap_2.
  - intros later live _. unfold stale_pin. cbn. destruct live, pins; cbn.
    repeat case_decide; (split; [naive_solver|]); split_and!; try done; naive_solver.
Qed.

Lemma kept_compactions task_id tdb tdb' : stands tdb tdb' ->
  filter (fun e => ev_task_id e = Some task_id /\ ev_event_type e = "task.compacted") (event_rows tdb') =
  filter (fun e => ev_task_id e = Some task_id /\ ev_event_type e = "task.compacted") (event_rows tdb).
Proof using Type.
  intros (events & -> & Hf). rewrite filter_app. rewrite (filter_none _ events); [by rewrite app_nil_r|].
  intros e He [_ Hty]. rewrite Forall_forall in Hf. by apply (Hf e He).
Qed.

Lemma conn_with_task_store (s : LStore) t tdb db :
  conn s = Ok db -> conn t = Ok tdb -> conn (with_task_store s t) = Ok (with_task_db tdb db).
Proof using Type.
  unfold conn, with_task_store. destruct s as [[db0|] [] path]; try done. cbn. intros [= ->].
  destruct t as [[tdb0|] [] path']; try done. cbn. by intros [= ->].
Qed.

(** A fold stands until the next one: whatever calls of the task store run after a
    compaction (records and attempts included), the checkpoint is the same and the
    history of the context is still its one line, so no episode before or after it
    comes back; and the part that lists the scoped records keeps following them. *)
Theorem a_fold_stands task_id cs s c t tdb context :
  continuation_checkpoint task_id s = Ok (Some c) ->
  t = calls generate sha256_hex cs (task_store s) -> conn t = Ok tdb ->
  assembled_context task_id (with_task_store s t) = Ok context ->
  continuation_checkpoint task_id (with_task_store s t) = Ok (Some c) /\
  ac_history context = compacted_history_line c /\
  ac_evidence context = evidence_part (filter (fun e => ed_task e = task_id) (evidence_rows tdb)).
Proof.
  intros Hc -> Ht Hctx. assert (exists db, conn s = Ok db) as [db Hs].
  { unfold continuation_checkpoint, read in Hc. destruct (conn s) as [db|]; [by exists db|done]. }
  pose proof (conn_with_task_store s _ tdb db Hs Ht) as Hw.
  assert (Hcp : continuation_checkpoint task_id (with_task_store s (calls generate sha256_hex cs (task_store s))) = Ok (Some c)).
  { rewrite <- Hc. unfold continuation_checkpoint, compactions. rewrite (read_open _ _ _ Hw), (read_open _ _ _ Hs). cbn [task_db with_task_db].
    rewrite (kept_compactions task_id (task_db db) tdb); [done|].
    apply (calls_relation generate sha256_hex stands cs (task_store s)).
    - intros A m dbx a dby Hm Hr. by eapply tx_stands.
    - apply conn_Ok. by apply conn_task_store.
    - by apply conn_Ok. }
  split; [exact Hcp|]. unfold assembled_context in Hctx. cbn zeta in Hctx. rewrite Hcp in Hctx.
  assert (Hrec : evidence_for_task task_id (task_store (with_task_store s (calls generate sha256_hex cs (task_store s)))) =
    Ok (filter (fun e => ed_task e = task_id) (evidence_rows tdb))).
  { unfold evidence_for_task. by rewrite (read_open _ _ _ (conn_task_store _ _ Hw)). }
  rewrite Hrec in Hctx.
  repeat match type of Hctx with rbind _ ?x = _ => destruct x; cbn [rbind] in Hctx; [|done] end. by injection Hctx as <-.
Qed.

Lemma prospective_shape task_id before s c :
  prospective_checkpoint generate sha256_hex task_id before s = Ok c ->
  exists db, conn s = Ok db /\ cp_id c = generate (drawn (task_db db)) /\ cp_history_digest c = sha256_hex (ac_history before) /\
    exists records sn, evidence_for_task task_id (task_store s) = Ok records /\ snapshot task_id (task_store s) = Ok sn /\
      cp_folded c = (zlen records + zlen (items (sn_attempts sn)))%Z.
Proof using Type.
  unfold prospective_checkpoint. cbn zeta.
  destruct (pinned_inputs sha256_hex task_id s) as [pins|]; cbn [rbind]; [|done].
  destruct (evidence_for_task task_id (task_store s)) as [records|] eqn:Er; cbn [rbind]; [|done].
  destruct (snapshot task_id (task_store s)) as [sn|] eqn:Es; cbn [rbind]; [|done].
  destruct (current_question task_id (task_store s)) as [question|]; cbn [rbind]; [|done].
  destruct (conn s) as [db|] eqn:Hc; unfold read; rewrite Hc; cbn [rbind]; [|done].
  destruct (recorded_spend task_id s) as [spend|]; cbn [rbind]; [|done]. intros [= <-]. exists db. split_and!; [done..|].
  by exists records, sn.
Qed.

(** Folding twice in a row folds once: with identifiers of one length and digests of one
    length, a compaction right after another is refused as not shorter, and the store
    keeps the first. *)
Theorem a_second_fold_is_refused session_id task_id s report s' id_length digest_length :
  (forall n, slen (generate n) = id_length) -> (forall bytes, slen (sha256_hex bytes) = digest_length) ->
  force_compaction generate sha256_hex session_id task_id s = (Ok report, s') ->
  exists before folded,
    force_compaction generate sha256_hex session_id task_id s' = (Err (StoreConflict (CompactionNotShorter before folded)), s') /\
    folded = before.
Proof.
  intros Hid Hdig [(e & ? & _)|(report' & db & before & c & event & [= <-] & Hc)]%force_compaction_cases; [done|].
  destruct Hc as [Hconn Hb Hcp _ Hev Hs' Hafter Hr].
  assert (Hheld : ts_held_claim_commit s = false) by (unfold conn in Hconn; by destruct (ts_held_claim_commit s)).
  assert (Hconn' : conn s' = Ok (with_task_db (journal [event] 2 (task_db db)) db)) by (subst s'; unfold conn; cbn; by rewrite Hheld).
  destruct (quiet_reads s s' db [event] 2 Hconn Hconn' task_id) as (Q1 & _ & Q3 & _ & Q5 & _).
  pose proof (quiet_pins sha256_hex s s' db [event] 2 Hconn Hconn' task_id) as Qp.
  destruct (prospective_checkpoint generate sha256_hex task_id (mkContext
    (ac_intent before +:+ ac_decision before +:+ ac_evidence before +:+ ac_remainder before +:+ ac_spend before +:+ compacted_history_line c)
    (ac_intent before) (ac_decision before) (ac_evidence before) (ac_remainder before) (ac_spend before) (compacted_history_line c)) s')
    as [c'|e] eqn:Hcp'.
  - assert (Hlen : slen (compacted_history_line c') = slen (compacted_history_line c)).
    { destruct (prospective_shape _ _ _ _ Hcp) as (db0 & _ & Ei & Ed & r0 & sn0 & Er0 & Es0 & Ef).
      destruct (prospective_shape _ _ _ _ Hcp') as (db1 & _ & Ei' & Ed' & r1 & sn1 & Er1 & Es1 & Ef').
      rewrite Q5, Er0 in Er1. rewrite Q1, Es0 in Es1. injection Er1 as <-. injection Es1 as <-.
      unfold compacted_history_line. rewrite Ei, Ei', Ed, Ed', Ef, Ef', !slen_app, !Hid, !Hdig. reflexivity. }
    do 2 eexists. split; [|reflexivity]. unfold force_compaction. rewrite Hafter. cbn [rbind]. rewrite Hcp'. cbn [rbind ac_history].
    rewrite decide_True by lia. by rewrite Hlen.
  - exfalso. revert Hcp'. unfold prospective_checkpoint in *. cbn zeta in *. rewrite Qp, Q5, Q1, Q3.
    destruct (pinned_inputs sha256_hex task_id s); cbn [rbind] in *; [|done].
    destruct (evidence_for_task task_id (task_store s)); cbn [rbind] in *; [|done].
    destruct (snapshot task_id (task_store s)); cbn [rbind] in *; [|done].
    destruct (current_question task_id (task_store s)); cbn [rbind] in *; [|done].
    unfold recorded_spend in *. rewrite !(read_open _ _ _ Hconn) in Hcp. rewrite !(read_open _ _ _ Hconn'). cbn [rbind] in *.
    change (spend_scopes task_id (with_task_db (journal [event] 2 (task_db db)) db)) with (spend_scopes task_id db).
    by destruct (try_map _ _).
Qed.
End Claims.

(** * A concrete task *)

Module CompactionSamples.
Definition generate (n : nat) : string := String (Ascii.ascii_of_nat (48 + n)) "d".
Definition sha256_hex (bytes : string) : string := "digest".
Definition worked : list TaskCall :=
  [CreateTask "session" "command" "human" "Ship it" ["It builds."] []; MaterializeObligations "0d";
   InsertEvidence "0d" 0 "cargo test" "All of the four hundred tests of the workspace passed." "tests"].
Definition tasks_after (cs : list TaskCall) : Store := calls generate sha256_hex cs fresh_store.
Definition store : LStore :=
  mkTaskStore (Some (mkLedgerDb (default empty_db (ts_conn (tasks_after worked))) {[ "task:0d/model" := mkScope 100 7 0 ]} [] [] None ∅ ∅)) false true.
Definition folded : result CompactionReport StoreError * LStore := force_compaction generate sha256_hex "session" "0d" store.
Definition report : CompactionReport := mkReport "5d" 213 185 1.
Definition context_of (s : LStore) : AssembledContext :=
  match assembled_context "0d" s with Ok c => c | Err _ => mkContext "none" "none" "none" "none" "none" "none" "none" end.
Definition checkpoint : ContinuationCheckpoint :=
  mkCheckpoint "5d" "0d" 1 None None "digest" "digest" "digest" [mkIndexEntry "4d" "current" "tests"] [mkSpend "task:0d/model" 7] 1 "digest".
Definition later : list TaskCall :=
  [InsertEvidence "0d" 0 "cargo clippy" "No warnings." "lints"; PlanAttempt "0d" Exec "cargo build"].
Definition later_tasks : Store := calls generate sha256_hex later (task_store folded.2).
End CompactionSamples.
Import CompactionSamples.

Lemma compaction_only_shortens_witness :
  exists before after, assembled_context "0d" store = Ok before /\ assembled_context "0d" folded.2 = Ok after /\
    (slen (ac_history after) < slen (ac_history before))%Z.
Proof.
  assert (E : force_compaction generate sha256_hex "session" "0d" store = (Ok report, folded.2)) by (vm_compute; reflexivity).
  pose proof (compaction_only_shortens generate sha256_hex "session" "0d" store (Ok report) folded.2 E) as H.
  destruct H as (db & event & before & after & _ & _ & Hb & Ha & _ & _ & _ & _ & _ & Hlt & _).
  exists before, after. split; [exact Hb|]. split; [exact Ha|exact Hlt].
Defined.

Lemma checkpoint_names_what_moved_witness :
  exists c pins, continuation_checkpoint "0d" folded.2 = Ok (Some c) /\ pinned_inputs sha256_hex "0d" folded.2 = Ok pins /\
    stale_pin c pins = None.
Proof.
  destruct (checkpoint_names_what_moved generate sha256_hex "session" "0d" store report folded.2) as (c & pins & Hc & _ & _ & Hp & _ & Hl).
  - vm_compute. reflexivity.
  - exists c, pins. split; [exact Hc|]. split; [exact Hp|]. destruct (Hl folded.2 pins Hp) as [Hn _]. by apply Hn.
Defined.

Lemma a_fold_stands_witness :
  ac_history (context_of (with_task_store folded.2 later_tasks)) = compacted_history_line checkpoint.
Proof.
  apply (a_fold_stands generate sha256_hex "0d" later folded.2 checkpoint later_tasks
    (default empty_db (ts_conn later_tasks)) (context_of (with_task_store folded.2 later_tasks))); vm_compute; reflexivity.
Defined.

Lemma a_second_fold_is_refused_witness :
  exists before, (force_compaction generate sha256_hex "session" "0d" folded.2).1 = Err (StoreConflict (CompactionNotShorter before before)).
Proof.
  destruct (a_second_fold_is_refused generate sha256_hex "session" "0d" store report folded.2 2 6) as (before & f & Hf & ->).
  - reflexivity.
  - reflexivity.
  - vm_compute. reflexivity.
  - exists before. by rewrite Hf.
Defined.
