(* ===== verification/Index.v ===== *)
(** The generations of the project index ([state.rs], [state/sql/index.sql]) and the
    vocabularies of their rows ([index.rs]): reserving a number, sealing a build,
    superseding the generation it replaces, reading one back, marking one stale, and
    the retention of the newest. *)

From stdpp Require Import pretty sorting.
From S2P Require Import Prelude.
From S2P Require Import Contracts.
From S2P Require Import Utf8.
From S2P Require Import Text.
From S2P Require Import Store.

(** * The graph of a generation ([index.rs]) *)

(** A path, by its bytes. *)
Abbreviation Path := string.

Record SourceRef := mkSource { sr_path : Path; sr_line : option Z; sr_ignored : bool }.

Inductive EdgeKind := EdgeImport | EdgeCall | EdgeTest.
Inductive EdgeProvenance := Observed | Inferred | Structural.
Inductive EdgeConfidence := Certain | UnknownTarget.

Record IndexEdge := mkEdge {
  ie_from : SourceRef;
  ie_to : SourceRef;
  ie_kind : EdgeKind;
  ie_provenance : EdgeProvenance;
  ie_version : Z;
  ie_confidence : EdgeConfidence;
}.

Inductive TraversalLimit := LimitDepth | LimitNodes | LimitTime.

Inductive PartialReason :=
  | LimitReached (limit : Z)
  | EntriesFailed (count : Z)
  | UnresolvedPaths (count : Z)
  | UnsupportedLanguage (count : Z)
  | ParseErrors (count : Z)
  | StaleDocuments (count : Z)
  | UnknownModulePaths (count : Z)
  | TraversalLimited (limit : TraversalLimit).

Inductive Completeness := Complete | Partial (reasons : list PartialReason).

(** [Completeness::from_reasons], [Completeness::is_complete] *)
Definition from_reasons (reasons : list PartialReason) : Completeness :=
  match reasons with [] => Complete | _ => Partial reasons end.
Definition is_complete (c : Completeness) : bool := match c with Complete => true | Partial _ => false end.

Inductive StaleCause :=
  | IsolatedRun | WorkerRefused | WatcherMissed | Interrupted | SourceChanged | Superseded | PartialCoverage.

Inductive GenerationState := Fresh | StaleGeneration (cause : StaleCause).

#[export] Instance EdgeKind_eq_dec : EqDecision EdgeKind. Proof. solve_decision. Defined.
#[export] Instance EdgeProvenance_eq_dec : EqDecision EdgeProvenance. Proof. solve_decision. Defined.
#[export] Instance StaleCause_eq_dec : EqDecision StaleCause. Proof. solve_decision. Defined.
#[export] Instance GenerationState_eq_dec : EqDecision GenerationState. Proof. solve_decision. Defined.

Record ProjectGraph := mkGraph {
  pg_edges : list IndexEdge;
  pg_completeness : Completeness;
  pg_unresolved : list Path;
  pg_narrowed_to : list Path;
  pg_documents : list Path;
}.

Inductive CarryPolicy := CarryFull | CarryNarrowed (replaced : list Path) | CarryNothing.

(** The stored names: [from_name] of each vocabulary, and what [write_edge],
    [cause_name] and [as_stored] write. *)
Definition kind_name (k : EdgeKind) : string :=
  match k with EdgeImport => "import" | EdgeCall => "call" | EdgeTest => "test" end.
Definition kind_from_name (name : string) : option EdgeKind :=
  if decide (name = "import") then Some EdgeImport
  else if decide (name = "call") then Some EdgeCall
  else if decide (name = "test") then Some EdgeTest
  else None.
Definition provenance_name (p : EdgeProvenance) : string :=
  match p with Observed => "observed" | Inferred => "inferred" | Structural => "structural" end.
Definition provenance_from_name (name : string) : option EdgeProvenance :=
  if decide (name = "observed") then Some Observed
  else if decide (name = "inferred") then Some Inferred
  else if decide (name = "structural") then Some Structural
  else None.
Definition confidence_name (c : EdgeConfidence) : string :=
  match c with Certain => "certain" | UnknownTarget => "unknown" end.
Definition confidence_from_name (name : string) : option EdgeConfidence :=
  if decide (name = "certain") then Some Certain
  else if decide (name = "unknown") then Some UnknownTarget
  else None.
Definition cause_name (c : StaleCause) : string :=
  match c with
  | IsolatedRun => "isolated_run" | WorkerRefused => "worker_refused" | WatcherMissed => "watcher_missed"
  | Interrupted => "interrupted" | SourceChanged => "source_changed" | Superseded => "superseded"
  | PartialCoverage => "partial_coverage"
  end.
Definition cause_from_name (name : string) : option StaleCause :=
  if decide (name = "isolated_run") then Some IsolatedRun
  else if decide (name = "worker_refused") then Some WorkerRefused
  else if decide (name = "watcher_missed") then Some WatcherMissed
  else if decide (name = "interrupted") then Some Interrupted
  else if decide (name = "source_changed") then Some SourceChanged
  else if decide (name = "superseded") then Some Superseded
  else if decide (name = "partial_coverage") then Some PartialCoverage
  else None.

(** [GenerationState::is_fresh], [as_stored], [from_stored], and [stale_cause_of] *)
Definition is_fresh (s : GenerationState) : bool := match s with Fresh => true | StaleGeneration _ => false end.
Definition as_stored (s : GenerationState) : string := match s with Fresh => "fresh" | StaleGeneration _ => "stale" end.
Definition stale_cause_of (s : GenerationState) : option string :=
  match s with Fresh => None | StaleGeneration c => Some (cause_name c) end.
Definition from_stored (state : string) (cause : option string) : option GenerationState :=
  match cause with
  | None => if decide (state = "fresh") then Some Fresh else None
  | Some cause => if decide (state = "stale") then StaleGeneration <$> cause_from_name cause else None
  end.

(** * The tables *)

(** The columns that hold JSON carry the values their derived encodings read back. *)
Record GenerationRow := mkGeneration {
  gn_state : string;
  gn_cause : option string;
  gn_coverage : Completeness;
  gn_unresolved : list Path;
  gn_sealed : bool;
}.

Record EdgeRow := mkEdgeRow {
  er_generation : Z;
  er_from : string;
  er_line : Z;
  er_ignored : bool;
  er_to : string;
  er_kind : string;
  er_provenance : string;
  er_version : Z;
  er_confidence : string;
}.

(** The edges stand in the order of their [rowid]s. *)
Record IndexDb := mkIndexDb {
  generations : gmap Z GenerationRow;
  edge_rows : list EdgeRow;
  document_rows : gset (Z * string);
}.
Definition on_generations (f : gmap Z GenerationRow -> gmap Z GenerationRow) (db : IndexDb) : IndexDb :=
  mkIndexDb (f (generations db)) (edge_rows db) (document_rows db).
Definition on_edges (f : list EdgeRow -> list EdgeRow) (db : IndexDb) : IndexDb :=
  mkIndexDb (generations db) (f (edge_rows db)) (document_rows db).
Definition on_documents (f : gset (Z * string) -> gset (Z * string)) (db : IndexDb) : IndexDb :=
  mkIndexDb (generations db) (edge_rows db) (f (document_rows db)).

Abbreviation itx := (tx IndexDb StoreError).
Abbreviation IStore := (TaskStore IndexDb).

(** ** Statements *)

(** [ORDER BY generation DESC] *)
Definition number_ge (a b : Z) : Prop := (b <= a)%Z.
#[local] Instance number_ge_dec a b : Decision (number_ge a b). Proof. unfold number_ge. apply _. Defined.
#[local] Instance number_ge_trans : Transitive number_ge. Proof. intros a b c. unfold number_ge. lia. Qed.
#[local] Instance number_ge_total : Total number_ge. Proof. intros a b. unfold number_ge. lia. Qed.
Definition numbers (db : IndexDb) : list Z := merge_sort number_ge (elements (dom (generations db))).

(** [LATEST_INDEX_GENERATION], [NEXT_INDEX_GENERATION], [PREVIOUS_INDEX_GENERATION] *)
Definition newest (db : IndexDb) : option Z := head (numbers db).
Definition next_generation (db : IndexDb) : Z := (default 0 (newest db) + 1)%Z.
Definition previous_generation (generation : Z) (db : IndexDb) : option Z :=
  head (filter (fun g => g <> generation) (numbers db)).

(** [RESERVE_INDEX_GENERATION] *)
Definition reservation : GenerationRow := mkGeneration "stale" (Some "interrupted") (Partial [EntriesFailed 1]) [] false.

(** [SEAL_INDEX_GENERATION], [MARK_INDEX_GENERATION_STALE], [SUPERSEDE_INDEX_GENERATION] *)
Definition sealed_as (state : string) (cause : option string) (coverage : Completeness) (unresolved : list Path) (row : GenerationRow)
    : GenerationRow := mkGeneration state cause coverage unresolved true.
Definition marked_as (state cause : string) (row : GenerationRow) : GenerationRow :=
  mkGeneration state (Some cause) (gn_coverage row) (gn_unresolved row) true.
Definition superseded (row : GenerationRow) : GenerationRow :=
  if decide (gn_state row = "fresh") then marked_as "stale" "superseded" row else row.

(** The primary key of [index_edges], and its [INSERT OR REPLACE]. *)
Definition edge_key (row : EdgeRow) : Z * string * Z * string * string * string :=
  (er_generation row, er_from row, er_line row, er_to row, er_kind row, er_provenance row).
Definition insert_edge (row : EdgeRow) (rows : list EdgeRow) : list EdgeRow :=
  filter (fun other => edge_key other <> edge_key row) rows ++ [row].

(** [prune_index_generations] *)
Definition prune (keep : nat) (db : IndexDb) : IndexDb :=
  let kept := take keep (numbers db) in
  mkIndexDb (filter (fun g => g.1 ∈ kept) (generations db)) (filter (fun row => er_generation row ∈ kept) (edge_rows db))
    (filter (fun row => row.1 ∈ kept) (document_rows db)).

(** * Operations *)

Definition INDEX_GENERATION_RETENTION : nat := 8.

(** [generation_state] *)
Definition generation_state (state : string) (cause : option string) (sealed : bool) : result GenerationState StoreError :=
  match from_stored state cause with
  | Some state => Ok (if sealed then state else StaleGeneration Interrupted)
  | None => Err (corrupt_column "index generation state" state)
  end.

(** [value as i32] *)
Definition to_i32 (v : Z) : Z := ((v + 2147483648) mod 4294967296 - 2147483648)%Z.

(** [StoredEdge::decode] *)
Definition decode (row : EdgeRow) : result IndexEdge StoreError :=
  let? kind := ok_or (kind_from_name (er_kind row)) (corrupt_column "edge kind" (er_kind row)) in
  let? provenance := ok_or (provenance_from_name (er_provenance row)) (corrupt_column "edge provenance" (er_provenance row)) in
  let? confidence := ok_or (confidence_from_name (er_confidence row)) (corrupt_column "edge confidence" (er_confidence row)) in
  if decide (er_line row < 0)%Z then Err (corrupt_column "index edge line" "out of range")
  else Ok (mkEdge (mkSource (er_from row) (Some (er_line row)) (er_ignored row)) (mkSource (er_to row) None false)
             kind provenance (to_i32 (er_version row)) confidence).

(** [write_edge] *)
Definition edge_row (generation : Z) (edge : IndexEdge) : result EdgeRow StoreError :=
  let from := from_utf8_lossy (sr_path (ie_from edge)) in
  match sr_line (ie_from edge) with
  | None => Err (corrupt_column "index edge line" from)
  | Some line =>
      if decide (i64_max < line)%Z then Err (corrupt_column "index edge line" "out of range")
      else Ok (mkEdgeRow generation from line (sr_ignored (ie_from edge)) (from_utf8_lossy (sr_path (ie_to edge)))
                 (kind_name (ie_kind edge)) (provenance_name (ie_provenance edge)) (ie_version edge)
                 (confidence_name (ie_confidence edge)))
  end.
Definition write_edge (generation : Z) (edge : IndexEdge) : itx unit :=
  let! row := tx_lift (edge_row generation edge) in tx_modify (on_edges (insert_edge row)).

(** [reserve_index_generation]: a number past [i64] is not read as one. *)
Definition reserve_tx : itx Z :=
  let! db := tx_get in
  let generation := next_generation db in
  if decide (i64_max < generation)%Z then tx_err (Storage TotalOverflow)
  else
    let! generation := tx_lift (unsigned generation) in
    let! _ := tx_modify (on_generations (<[generation := reservation]>)) in
    tx_ret generation.
Definition reserve_index_generation (s : IStore) : result Z StoreError * IStore := transaction reserve_tx s.

(** What a narrowed seal keeps of the generation it replaces. *)
Definition carried_edges (policy : CarryPolicy) (previous : option Z) (db : IndexDb) : result (list IndexEdge) StoreError :=
  match policy, previous with
  | CarryNarrowed replaced, Some previous =>
      try_map decode (filter (fun row => er_generation row = previous /\ er_from row ∉ map from_utf8_lossy replaced) (edge_rows db))
  | _, _ => Ok []
  end.

(** The JSON of a path that is not UTF-8 is refused. *)
Definition paths_json (paths : list Path) : result (list Path) StoreError :=
  if forallb (fun path => utf8_valid (bytes_of path)) paths then Ok paths else Err (Storage (Undecodable "path")).

(** [tx_iter] over edges, in order. *)
Fixpoint write_edges (generation : Z) (edges : list IndexEdge) : itx unit :=
  match edges with
  | [] => tx_ret tt
  | edge :: edges => let! _ := write_edge generation edge in write_edges generation edges
  end.

(** [seal_index_generation] *)
Definition seal_tx (generation : Z) (policy : CarryPolicy) (state : GenerationState) (graph : ProjectGraph) : itx unit :=
  let! db := tx_get in
  let! previous := tx_lift match previous_generation generation db with
                           | Some previous => let? previous := unsigned previous in Ok (Some previous)
                           | None => Ok None
                           end in
  let! carried := tx_lift (carried_edges policy previous db) in
  let! unresolved := tx_lift (paths_json (pg_unresolved graph)) in
  let! _ := tx_modify (on_generations (alter (sealed_as (as_stored state) (stale_cause_of state) (pg_completeness graph) unresolved) generation)) in
  let! _ := write_edges generation (carried ++ pg_edges graph) in
  let! _ := tx_modify (on_documents (union (list_to_set (map (fun path => (generation, from_utf8_lossy path)) (pg_documents graph))))) in
  let! _ := tx_modify match previous with
                      | Some previous => on_generations (alter superseded previous)
                      | None => fun db => db
                      end in
  tx_modify (prune INDEX_GENERATION_RETENTION).
Definition seal_index_generation (generation : Z) (policy : CarryPolicy) (state : GenerationState) (graph : ProjectGraph) (s : IStore)
    : result unit StoreError * IStore := transaction (seal_tx generation policy state graph) s.

(** [index_graph] *)
Record IndexGeneration := mkIndexGeneration { ig_generation : Z; ig_state : GenerationState; ig_graph : ProjectGraph }.

Definition string_le (a b : string) : Prop := String.compare a b <> Gt.
#[local] Instance string_le_dec a b : Decision (string_le a b). Proof. unfold string_le. apply _. Defined.

(** [ORDER BY from_path, from_line, to_path] *)
Definition edge_le (a b : EdgeRow) : Prop :=
  match String.compare (er_from a) (er_from b) with
  | Lt => True
  | Gt => False
  | Eq => match Z.compare (er_line a) (er_line b) with
          | Lt => True
          | Gt => False
          | Eq => string_le (er_to a) (er_to b)
          end
  end.
#[local] Instance edge_le_dec a b : Decision (edge_le a b).
Proof. unfold edge_le. destruct (String.compare _ _); try apply _. destruct (Z.compare _ _); apply _. Defined.

Definition documents_of (generation : Z) (db : IndexDb) : list Path :=
  merge_sort string_le (map snd (filter (fun row => row.1 = generation) (elements (document_rows db)))).
Definition edges_of (generation : Z) (db : IndexDb) : list EdgeRow :=
  merge_sort edge_le (filter (fun row => er_generation row = generation) (edge_rows db)).
Definition index_graph (generation : Z) (s : IStore) : result (option IndexGeneration) StoreError :=
  read (fun db =>
    match generations db !! generation with
    | None => Ok None
    | Some row =>
        let? state := generation_state (gn_state row) (gn_cause row) (gn_sealed row) in
        let? edges := try_map decode (edges_of generation db) in
        Ok (Some (mkIndexGeneration generation state
              (mkGraph edges (gn_coverage row) (gn_unresolved row) [] (documents_of generation db))))
    end) s.

(** [latest_index_generation], [latest_index_state] *)
Definition latest_index_generation (s : IStore) : result (option Z) StoreError :=
  read (fun db => match newest db with
                  | None => Ok None
                  | Some g => let? g := unsigned g in Ok (Some g)
                  end) s.
Definition latest_index_state (s : IStore) : result (option (Z * GenerationState)) StoreError :=
  read (fun db => match newest db with
                  | None => Ok None
                  | Some g =>
                      match generations db !! g with
                      | None => Ok None
                      | Some row =>
                          let? g := unsigned g in
                          let? state := generation_state (gn_state row) (gn_cause row) (gn_sealed row) in
                          Ok (Some (g, state))
                      end
                  end) s.

(** [mark_index_generation_stale] *)
Definition mark_stale_tx (generation : Z) (cause : StaleCause) : itx bool :=
  let! db := tx_get in
  let! _ := tx_modify (on_generations (alter (marked_as (as_stored (StaleGeneration cause)) (cause_name cause)) generation)) in
  tx_ret (bool_decide (is_Some (generations db !! generation))).
Definition mark_index_generation_stale (generation : Z) (cause : StaleCause) (s : IStore) : result bool StoreError * IStore :=
  transaction (mark_stale_tx generation cause) s.

(** * The builds of the runtime ([commands.rs]) *)

(** What a finished run hands over: its graph, or the cause [stale_cause_of] gives
    its error. *)
Abbreviation Outcome := (result ProjectGraph StaleCause).

(** The state and the carry of a finished run, from [seal_index_run]. *)
Definition seal_state (graph : ProjectGraph) : GenerationState :=
  if is_complete (pg_completeness graph) then Fresh else StaleGeneration PartialCoverage.
Definition seal_policy (graph : ProjectGraph) : CarryPolicy :=
  if decide (pg_narrowed_to graph = []) then CarryFull else CarryNarrowed (pg_narrowed_to graph).
Definition failed_graph : ProjectGraph := mkGraph [] (Partial [EntriesFailed 1]) [] [] [].

(** [seal_index_run] *)
Definition seal_index_run (generation : Z) (outcome : Outcome) (s : IStore) : result unit StoreError * IStore :=
  match outcome with
  | Ok graph => seal_index_generation generation (seal_policy graph) (seal_state graph) graph s
  | Err cause => seal_index_generation generation CarryNothing (StaleGeneration cause) failed_graph s
  end.

(** [WatchBatch], and [mark_watched_generation] *)
Record WatchBatch := mkBatch { wb_paths : list Path; wb_missed : bool; wb_file_set_moved : bool }.
Definition needs_full_rebuild (batch : WatchBatch) : bool :=
  wb_missed batch || wb_file_set_moved batch || bool_decide (wb_paths batch = []).
Definition mark_watched_generation (batch : WatchBatch) (s : IStore) : result unit StoreError * IStore :=
  if bool_decide (wb_paths batch = []) && negb (wb_missed batch) && negb (wb_file_set_moved batch) then (Ok tt, s)
  else
    let cause := if wb_missed batch then WatcherMissed else SourceChanged in
    match latest_index_generation s with
    | Err e => (Err e, s)
    | Ok None => (Ok tt, s)
    | Ok (Some previous) =>
        match mark_index_generation_stale previous cause s with
        | (Ok _, s) => (Ok tt, s)
        | (Err e, s) => (Err e, s)
        end
    end.

(** [index_freshness]: [None] where nothing was cut. *)
Definition index_freshness (s : IStore) : result (option GenerationState) StoreError :=
  let? latest := latest_index_state s in Ok (snd <$> latest).

(** The operations as data.  A build reserves its number before it runs and seals it
    with what the run answers; an interrupted one reserves it and no more. *)
Inductive IndexCall :=
  | Build (outcome : Outcome)
  | Interrupt
  | Watch (batch : WatchBatch)
  | Mark (generation : Z) (cause : StaleCause).

Definition index_call (c : IndexCall) (s : IStore) : IStore :=
  match c with
  | Build outcome =>
      match reserve_index_generation s with
      | (Ok generation, s) => (seal_index_run generation outcome s).2
      | (Err _, s) => s
      end
  | Interrupt => (reserve_index_generation s).2
  | Watch batch => (mark_watched_generation batch s).2
  | Mark generation cause => (mark_index_generation_stale generation cause s).2
  end.
Definition index_calls (cs : list IndexCall) (s : IStore) : IStore := fold_left (fun s c => index_call c s) cs s.
Definition empty_index : IndexDb := mkIndexDb ∅ [] ∅.
Definition fresh_index : IStore := mkTaskStore (Some empty_index) false true.

(** * Numbers *)

Lemma numbers_elem db g : g ∈ numbers db <-> is_Some (generations db !! g).
Proof. unfold numbers. by rewrite merge_sort_Permutation, elem_of_elements, elem_of_dom. Qed.

Lemma numbers_sorted db : StronglySorted number_ge (numbers db).
Proof. apply (StronglySorted_merge_sort _). Qed.

Lemma numbers_nodup db : NoDup (numbers db).
Proof. unfold numbers. rewrite merge_sort_Permutation. apply NoDup_elements. Qed.

Lemma numbers_dom db db' : dom (generations db') = dom (generations db) -> numbers db' = numbers db.
Proof. unfold numbers. by intros ->. Qed.

Lemma sorted_head (l : list Z) g : StronglySorted number_ge l -> head l = Some g -> g ∈ l /\ forall h, h ∈ l -> (h <= g)%Z.
Proof.
  destruct l as [|x l]; [done|]. intros [_ Hx]%StronglySorted_inv [= ->]. split; [by left|].
  intros h [->|Hh]%elem_of_cons; [lia|]. rewrite Forall_forall in Hx. by apply Hx.
Qed.

Lemma newest_Some db g : newest db = Some g <-> is_Some (generations db !! g) /\ forall h, is_Some (generations db !! h) -> (h <= g)%Z.
Proof.
  unfold newest. split.
  - intros [Hg Hm]%(sorted_head _ _ (numbers_sorted db)). split; [by apply numbers_elem|]. intros h Hh. apply Hm. by apply numbers_elem.
  - intros [Hg Hm]. destruct (head (numbers db)) as [x|] eqn:E.
    + apply (sorted_head _ _ (numbers_sorted db)) in E as [Hx Hx']. f_equal.
      pose proof (Hx' g ltac:(by apply numbers_elem)). pose proof (Hm x ltac:(by apply numbers_elem)). lia.
    + apply head_None in E. apply numbers_elem in Hg. rewrite E in Hg. by apply elem_of_nil in Hg.
Qed.

Lemma newest_None db : newest db = None -> generations db = ∅.
Proof.
  unfold newest. intros E%head_None. apply map_eq. intros g. rewrite lookup_empty. destruct (generations db !! g) eqn:Hg; [|done].
  assert (Hin : g ∈ numbers db) by by apply numbers_elem. rewrite E in Hin. by apply elem_of_nil in Hin.
Qed.

Lemma next_above db g : is_Some (generations db !! g) -> (g < next_generation db)%Z.
Proof.
  intros Hg. unfold next_generation. destruct (newest db) as [n|] eqn:E.
  - apply newest_Some in E as [_ Hm]. specialize (Hm g Hg). cbn. lia.
  - apply newest_None in E. rewrite E, lookup_empty in Hg. by destruct Hg.
Qed.

(** A number above every other one comes first. *)
Lemma numbers_insert db g row :
  (forall h, is_Some (generations db !! h) -> (h < g)%Z) -> numbers (on_generations (<[g := row]>) db) = g :: numbers db.
Proof.
  intros Hg. apply (StronglySorted_unique_strong number_ge); [|apply numbers_sorted| |].
  - intros a b _ _. unfold number_ge. lia.
  - constructor; [apply numbers_sorted|]. apply Forall_forall. intros h Hh%numbers_elem. specialize (Hg h Hh). unfold number_ge. lia.
  - unfold numbers at 1. rewrite merge_sort_Permutation. cbn [generations on_generations]. rewrite dom_insert_L.
    rewrite elements_union_singleton; [by unfold numbers; rewrite merge_sort_Permutation|].
    intros Hin. apply elem_of_dom in Hin. specialize (Hg g Hin). lia.
Qed.

Lemma previous_of_head g (rest : list Z) db : numbers db = g :: rest -> previous_generation g db = head rest.
Proof.
  intros E. unfold previous_generation. pose proof (numbers_nodup db) as Hn. rewrite E in *. apply NoDup_cons in Hn as [Hg _].
  rewrite filter_cons_False by tauto. rewrite filter_all; [done|]. intros x Hx ->. by apply Hg.
Qed.

Lemma prune_lookup keep db g row :
  generations (prune keep db) !! g = Some row <-> generations db !! g = Some row /\ g ∈ take keep (numbers db).
Proof. unfold prune. cbn [generations]. by rewrite map_lookup_filter_Some. Qed.

Lemma newest_kept keep db g : newest db = Some g -> g ∈ take (S keep) (numbers db).
Proof. unfold newest. destruct (numbers db) as [|x l]; [done|]. intros [= ->]. by left. Qed.

(** * What a seal writes *)

Lemma write_edges_Ok g edges db u db' :
  write_edges g edges db = Ok (u, db') ->
  exists rows, Forall2 (fun e r => edge_row g e = Ok r) edges rows /\ db' = on_edges (fun l => foldl (fun l r => insert_edge r l) l rows) db.
Proof.
  revert db. induction edges as [|e edges IH]; intros db; cbn [write_edges].
  - intros [= <- <-]. exists []. split; [constructor|by destruct db].
  - unfold write_edge. unfold tx_bind at 1 2. unfold tx_lift. destruct (edge_row g e) as [r|] eqn:Er; [|done]. cbn.
    intros (rows & Hr & ->)%IH. exists (r :: rows). split; [by constructor|done].
Qed.

Record sealed_db (g : Z) (policy : CarryPolicy) (state : GenerationState) (graph : ProjectGraph) (db db' : IndexDb)
    (carried : list IndexEdge) (rows : list EdgeRow) : Prop := mkSealed {
  sl_carried : carried_edges policy (previous_generation g db) db = Ok carried;
  sl_rows : Forall2 (fun e r => edge_row g e = Ok r) (carried ++ pg_edges graph) rows;
  sl_db : db' = prune INDEX_GENERATION_RETENTION (mkIndexDb
    (match previous_generation g db with Some p => alter superseded p | None => fun m => m end
      (alter (sealed_as (as_stored state) (stale_cause_of state) (pg_completeness graph) (pg_unresolved graph)) g (generations db)))
    (foldl (fun l r => insert_edge r l) (edge_rows db) rows)
    (list_to_set (map (fun path => (g, from_utf8_lossy path)) (pg_documents graph)) ∪ document_rows db));
}.

Lemma seal_tx_Ok g policy state graph db u db' :
  seal_tx g policy state graph db = Ok (u, db') -> exists carried rows, sealed_db g policy state graph db db' carried rows.
Proof.
  unfold seal_tx. intros (db0 & db1 & H0 & H)%tx_bind_Ok. injection H0 as <- <-.
  apply tx_bind_Ok in H as (previous & db1 & H1 & H). unfold tx_lift in H1.
  assert (Hp : previous = previous_generation g db /\ db1 = db).
  { destruct (previous_generation g db) as [p|]; [|by injection H1 as <- <-]. unfold unsigned in H1. case_decide; [|done].
    by injection H1 as <- <-. }
  destruct Hp as [-> ->]. apply tx_bind_Ok in H as (carried & db1 & H2 & H). unfold tx_lift in H2.
  destruct (carried_edges _ _ _) as [carried'|] eqn:Ec; [|done]. injection H2 as -> <-.
  apply tx_bind_Ok in H as (unresolved & db1 & H3 & H). unfold tx_lift, paths_json in H3.
  destruct (forallb _ _); [|done]. injection H3 as <- <-.
  apply tx_bind_Ok in H as ([] & db1 & H4 & H). injection H4 as <-.
  apply tx_bind_Ok in H as ([] & db2 & (rows & Hr & ->)%write_edges_Ok & H).
  apply tx_bind_Ok in H as ([] & db3 & H5 & H). injection H5 as <-.
  apply tx_bind_Ok in H as ([] & db4 & H6 & H). unfold tx_modify in H, H6.
  exists carried, rows. split; [exact Ec|exact Hr|]. injection H as _ <-. injection H6 as <-.
  by destruct (previous_generation g db).
Qed.

Lemma previous_ne g db p : previous_generation g db = Some p -> p <> g /\ is_Some (generations db !! p).
Proof.
  unfold previous_generation. intros E. assert (Hin : p ∈ filter (fun g' => g' <> g) (numbers db)).
  { destruct (filter _ _) as [|x l]; [done|]. injection E as ->. by left. }
  apply list_elem_of_filter in Hin as [Hne Hin]. split; [done|by apply numbers_elem].
Qed.

(** The row a seal leaves at a number. *)
Definition sealed_row (g : Z) (state : GenerationState) (graph : ProjectGraph) (db : IndexDb) (h : Z) (row : GenerationRow) : GenerationRow :=
  if decide (h = g) then sealed_as (as_stored state) (stale_cause_of state) (pg_completeness graph) (pg_unresolved graph) row
  else if decide (previous_generation g db = Some h) then superseded row
  else row.

Lemma sealed_lookup g policy state graph db db' carried rows h row' :
  sealed_db g policy state graph db db' carried rows ->
  generations db' !! h = Some row' <->
    h ∈ take INDEX_GENERATION_RETENTION (numbers db) /\ exists row, generations db !! h = Some row /\ row' = sealed_row g state graph db h row.
Proof.
  intros [_ _ ->]. rewrite prune_lookup. cbn [generations].
  match goal with |- context[numbers (mkIndexDb ?m ?e ?d)] => set (m' := m); assert (Hn : numbers (mkIndexDb m' e d) = numbers db) end.
  { apply numbers_dom. cbn. unfold m'. destruct (previous_generation g db); by rewrite ?dom_alter_L. }
  rewrite Hn. clear Hn. unfold sealed_row. rewrite (and_comm (m' !! h = Some row')). apply and_iff_compat_l. unfold m'. clear m'.
  destruct (previous_generation g db) as [p|] eqn:Ep.
  - destruct (previous_ne g db p Ep) as [Hpg _]. destruct (decide (h = g)) as [->|Hh].
    + rewrite lookup_alter_ne by done. rewrite lookup_alter_eq. destruct (generations db !! g); cbn; naive_solver.
    + destruct (decide (Some p = Some h)) as [[= ->]|Hp].
      * rewrite lookup_alter_eq, lookup_alter_ne by done. destruct (generations db !! h); cbn; naive_solver.
      * rewrite !lookup_alter_ne by congruence. naive_solver.
  - destruct (decide (h = g)) as [->|Hh].
    + rewrite lookup_alter_eq. destruct (generations db !! g); cbn; naive_solver.
    + rewrite lookup_alter_ne by done. destruct (decide (None = Some h)); naive_solver.
Qed.

(** * What the builds keep *)

(** A generation that is served as current. *)
Definition current (g : Z) (db : IndexDb) : Prop :=
  exists row, generations db !! g = Some row /\ generation_state (gn_state row) (gn_cause row) (gn_sealed row) = Ok Fresh.

(** A row that says fresh is the newest. *)
Definition one_fresh (db : IndexDb) : Prop :=
  forall g row, generations db !! g = Some row -> gn_state row = "fresh" -> newest db = Some g.

Lemma current_fresh g db : current g db -> exists row, generations db !! g = Some row /\ gn_state row = "fresh".
Proof.
  intros (row & Hr & Hs). exists row. split; [done|]. unfold generation_state, from_stored in Hs.
  destruct (gn_cause row) as [c|].
  - case_decide; [|done]. destruct (cause_from_name c); [|done]. by destruct (gn_sealed row).
  - case_decide as E; [done|done].
Qed.

Lemma reserve_Ok s g s1 :
  reserve_index_generation s = (Ok g, s1) ->
  exists db, ts_conn s = Some db /\ g = next_generation db /\ (0 <= g <= i64_max)%Z /\
    s1 = mkTaskStore (Some (on_generations (<[g := reservation]>) db)) (ts_held_claim_commit s) (ts_path_identity s).
Proof.
  unfold reserve_index_generation. intros Hr. assert (H1 : (transaction reserve_tx s).1 = Ok g) by (by rewrite Hr).
  apply transaction_Ok in H1 as (db & db' & Hm & Hb & Hs). rewrite Hr in Hs. cbn in Hs.
  destruct (conn_mut_open s db Hm) as [Hc _]. exists db. split; [by apply conn_Ok|].
  unfold reserve_tx, tx_bind, tx_get in Hb. case_decide; [done|]. unfold tx_lift, unsigned in Hb.
  destruct (decide (0 <= next_generation db)%Z); [|done]. injection Hb as <- <-. split_and!; [done|lia|lia|done].
Qed.

Lemma seal_Ok g policy state graph s s1 :
  seal_index_generation g policy state graph s = (Ok tt, s1) ->
  exists db db1 carried rows, ts_conn s = Some db /\ sealed_db g policy state graph db db1 carried rows /\
    s1 = mkTaskStore (Some db1) (ts_held_claim_commit s) (ts_path_identity s).
Proof.
  unfold seal_index_generation. intros Hr. assert (H1 : (transaction (seal_tx g policy state graph) s).1 = Ok tt) by (by rewrite Hr).
  apply transaction_Ok in H1 as (db & db' & Hm & Hb & Hs). rewrite Hr in Hs. cbn in Hs.
  destruct (conn_mut_open s db Hm) as [Hc _]. apply seal_tx_Ok in Hb as (carried & rows & Hsl).
  exists db, db', carried, rows. split; [by apply conn_Ok|by split].
Qed.

Lemma seal_run_policy g outcome s :
  exists policy state graph, seal_index_run g outcome s = seal_index_generation g policy state graph s /\
    match outcome with
    | Ok graph' => policy = seal_policy graph' /\ state = seal_state graph' /\ graph = graph'
    | Err cause => policy = CarryNothing /\ state = StaleGeneration cause /\ graph = failed_graph
    end.
Proof. destruct outcome; eexists _, _, _; split; try reflexivity; split_and!; reflexivity. Qed.

Lemma sealed_newest g policy state graph db db' carried rows :
  sealed_db g policy state graph db db' carried rows -> newest db' = newest db.
Proof.
  intros Hs. destruct (newest db) as [n|] eqn:E.
  - apply newest_Some. pose proof (newest_kept 7 db n E) as Hk. apply newest_Some in E as [[row Hn] Hm]. split.
    + exists (sealed_row g state graph db n row). apply (sealed_lookup _ _ _ _ _ _ _ _ _ _ Hs). split; [exact Hk|by exists row].
    + intros h [row' Hh]. apply (sealed_lookup _ _ _ _ _ _ _ _ _ _ Hs) in Hh as (_ & row0 & Hh & _). apply Hm. by exists row0.
  - apply newest_None in E. destruct (newest db') as [n|] eqn:E'; [|done]. apply newest_Some in E' as [[row Hn] _].
    apply (sealed_lookup _ _ _ _ _ _ _ _ _ _ Hs) in Hn as (_ & row0 & Hn & _). by rewrite E, lookup_empty in Hn.
Qed.

Lemma reserved_previous db g : g = next_generation db -> previous_generation g (on_generations (<[g := reservation]>) db) = newest db.
Proof. intros ->. apply previous_of_head. apply numbers_insert. apply next_above. Qed.

Lemma reserved_newest db g : g = next_generation db -> newest (on_generations (<[g := reservation]>) db) = Some g.
Proof. intros ->. unfold newest. rewrite numbers_insert; [done|]. apply next_above. Qed.

Lemma build_keeps_one_fresh db g policy state graph db' carried rows :
  one_fresh db -> g = next_generation db ->
  sealed_db g policy state graph (on_generations (<[g := reservation]>) db) db' carried rows -> one_fresh db'.
Proof.
  intros Hone Hg Hs h row' Hh Hfresh. rewrite (sealed_newest _ _ _ _ _ _ _ _ Hs), (reserved_newest db g Hg).
  apply (sealed_lookup _ _ _ _ _ _ _ _ _ _ Hs) in Hh as (_ & row & Hh & ->). unfold sealed_row in Hfresh.
  rewrite (reserved_previous db g Hg) in Hfresh. case_decide as E; [by rewrite E|]. exfalso.
  cbn [generations on_generations] in Hh. rewrite lookup_insert_ne in Hh by congruence. case_decide as Ep.
  - unfold superseded in Hfresh. by case_decide.
  - apply Ep. by apply (Hone h row).
Qed.

Lemma mark_Ok g cause s r s1 :
  mark_index_generation_stale g cause s = (r, s1) ->
  s1 = s \/ exists db, ts_conn s = Some db /\
    s1 = mkTaskStore (Some (on_generations (alter (marked_as "stale" (cause_name cause)) g) db)) (ts_held_claim_commit s) (ts_path_identity s).
Proof.
  unfold mark_index_generation_stale. intros Hr. destruct r as [b|e].
  - assert (H1 : (transaction (mark_stale_tx g cause) s).1 = Ok b) by (by rewrite Hr).
    apply transaction_Ok in H1 as (db & db' & Hm & Hb & Hs). rewrite Hr in Hs. cbn in Hs.
    destruct (conn_mut_open s db Hm) as [Hc _]. right. exists db. split; [by apply conn_Ok|]. by injection Hb as _ <-.
  - left. pose proof (transaction_Err (mark_stale_tx g cause) s e ltac:(by rewrite Hr)) as H1. by rewrite Hr in H1.
Qed.

Lemma marked_newest g f db : newest (on_generations (alter f g) db) = newest db.
Proof. unfold newest. rewrite (numbers_dom db (on_generations (alter f g) db)); [done|]. cbn. by rewrite dom_alter_L. Qed.

Lemma mark_keeps_one_fresh g cause db : one_fresh db -> one_fresh (on_generations (alter (marked_as "stale" (cause_name cause)) g) db).
Proof.
  intros Hone h row Hh Hf. rewrite marked_newest. cbn in Hh. destruct (decide (h = g)) as [->|Hne].
  - rewrite lookup_alter_eq in Hh. destruct (generations db !! g); [|done]. injection Hh as <-. done.
  - rewrite lookup_alter_ne in Hh by congruence. by apply (Hone h row).
Qed.

(** A call that leaves the store alone, or marks a generation. *)
Lemma watch_marks batch s :
  (mark_watched_generation batch s).2 = s \/ exists g cause r, mark_index_generation_stale g cause s = (r, (mark_watched_generation batch s).2).
Proof.
  unfold mark_watched_generation. destruct (_ && _); [by left|]. destruct (latest_index_generation s) as [[g|]|e]; [|by left..].
  right. exists g, (if wb_missed batch then WatcherMissed else SourceChanged).
  destruct (mark_index_generation_stale g _ s) as [[]] eqn:E; by eexists.
Qed.

(** A build whose reservation is sealed in the end. *)
Definition whole (c : IndexCall) (s : IStore) : Prop :=
  match c with
  | Build outcome =>
      match reserve_index_generation s with
      | (Ok g, s) => (seal_index_run g outcome s).1 = Ok tt
      | (Err _, _) => True
      end
  | Interrupt => False
  | Watch _ | Mark _ _ => True
  end.
Fixpoint whole_run (cs : list IndexCall) (s : IStore) : Prop :=
  match cs with [] => True | c :: cs => whole c s /\ whole_run cs (index_call c s) end.

(** A property of the open database. *)
Definition holds (P : IndexDb -> Prop) (s : IStore) : Prop := forall db, ts_conn s = Some db -> P db.

Lemma call_keeps_one_fresh c s : whole c s -> holds one_fresh s -> holds one_fresh (index_call c s).
Proof.
  intros Hw Hs. destruct c as [outcome| |batch|g cause]; cbn [index_call whole] in *.
  - destruct (reserve_index_generation s) as [[g|e] s1] eqn:Hr; [|].
    + apply reserve_Ok in Hr as (db & Hdb & Hg & _ & ->). destruct (seal_run_policy g outcome
        (mkTaskStore (Some (on_generations <[g:=reservation]> db)) (ts_held_claim_commit s) (ts_path_identity s))) as (policy & state & graph & E & _).
      rewrite E in *. destruct (seal_index_generation _ _ _ _ _) as [[[]|] s2] eqn:Hsl; [|done].
      apply seal_Ok in Hsl as (dbr & db2 & carried & rows & Hd & Hsd & ->). injection Hd as <-. cbn. intros db3 [= <-].
      eapply build_keeps_one_fresh; [by apply Hs|exact Hg|exact Hsd].
    + unfold reserve_index_generation in Hr. pose proof (transaction_Err reserve_tx s e ltac:(by rewrite Hr)) as H1.
      rewrite Hr in H1. cbn in H1. by subst.
  - done.
  - destruct (watch_marks batch s) as [->|(g & cause & r & Hm)]; [done|].
    apply mark_Ok in Hm as [->|(db & Hdb & ->)]; [done|]. intros db' [= <-]. by apply mark_keeps_one_fresh, Hs.
  - destruct (mark_index_generation_stale g cause s) as [r s1] eqn:Hm.
    apply mark_Ok in Hm as [->|(db & Hdb & ->)]; [done|]. intros db' [= <-]. by apply mark_keeps_one_fresh, Hs.
Qed.

Lemma run_keeps_one_fresh cs s : whole_run cs s -> holds one_fresh s -> holds one_fresh (index_calls cs s).
Proof.
  revert s. induction cs as [|c cs IH]; intros s; [done|]. intros [Hc Hcs] Hs. apply IH; [done|]. by apply call_keeps_one_fresh.
Qed.

(** ** Numbers only grow, and no row outlives its generation *)

Definition grows (db db' : IndexDb) : Prop := forall n, newest db = Some n -> exists n', newest db' = Some n' /\ (n <= n')%Z.

#[local] Instance grows_preorder : PreOrder grows.
Proof.
  split; [by intros db n Hn; exists n|]. intros a b c Hab Hbc n (n' & Hn' & Hle)%Hab. destruct (Hbc n' Hn') as (n'' & Hn'' & Hle').
  exists n''. split; [done|lia].
Qed.

Definition rooted (db : IndexDb) : Prop :=
  (forall row, row ∈ edge_rows db -> is_Some (generations db !! er_generation row)) /\
  (forall row, row ∈ document_rows db -> is_Some (generations db !! row.1)).

Lemma reserve_grows db g : g = next_generation db -> grows db (on_generations (<[g := reservation]>) db).
Proof. intros Hg n Hn. exists g. rewrite (reserved_newest db g Hg). split; [done|]. apply newest_Some in Hn as [Hn _]. apply next_above in Hn. lia. Qed.

Lemma same_newest_grows db db' : newest db' = newest db -> grows db db'.
Proof. intros E n Hn. exists n. rewrite E. split; [done|lia]. Qed.

Lemma reserve_rooted db g : rooted db -> rooted (on_generations (<[g := reservation]>) db).
Proof.
  intros [He Hd]. split; cbn; intros row Hrow; apply elem_of_dom; rewrite dom_insert_L; apply elem_of_union_r, elem_of_dom; auto.
Qed.

Lemma mark_rooted db g f : rooted db -> rooted (on_generations (alter f g) db).
Proof.
  intros [He Hd]. split; cbn; intros row Hrow; apply elem_of_dom; rewrite dom_alter_L; apply elem_of_dom; auto.
Qed.

Lemma prune_rooted keep db : rooted (prune keep db).
Proof.
  split; cbn; intros row Hrow.
  - apply list_elem_of_filter in Hrow as [Hk _]. assert (Hin : er_generation row ∈ numbers db) by (by eapply sublist_subseteq; [apply sublist_take|]).
    apply numbers_elem in Hin as [r Hr]. exists r. by apply map_lookup_filter_Some.
  - apply elem_of_filter in Hrow as [Hk _]. assert (Hin : row.1 ∈ numbers db) by (by eapply sublist_subseteq; [apply sublist_take|]).
    apply numbers_elem in Hin as [r Hr]. exists r. by apply map_lookup_filter_Some.
Qed.

Lemma prune_retains keep db : size (generations (prune keep db)) <= keep.
Proof.
  rewrite <- size_dom. transitivity (size (list_to_set (C := gset Z) (take keep (numbers db)))).
  - apply subseteq_size. intros g [row Hg]%elem_of_dom. cbn in Hg. apply map_lookup_filter_Some in Hg as [_ Hg]. by apply elem_of_list_to_set.
  - rewrite size_list_to_set by (eapply sublist_NoDup; [apply numbers_nodup|apply sublist_take]). rewrite length_take. lia.
Qed.

(** Every call keeps the store open, its rows rooted, and its numbers growing. *)
Lemma call_grows c s db :
  ts_conn s = Some db -> rooted db ->
  exists db', ts_conn (index_call c s) = Some db' /\ rooted db' /\ grows db db'.
Proof.
  assert (Hres : forall s db, ts_conn s = Some db -> rooted db ->
    exists db', ts_conn (reserve_index_generation s).2 = Some db' /\ rooted db' /\ grows db db').
  { intros s0 db0 Hs Hr. destruct (reserve_index_generation s0) as [[g|e] s1] eqn:E; cbn [snd].
    - apply reserve_Ok in E as (db1 & H1 & Hg & _ & ->). rewrite Hs in H1. injection H1 as <-.
      eexists. split; [reflexivity|]. split; [by apply reserve_rooted|by apply reserve_grows].
    - pose proof (transaction_Err reserve_tx s0 e ltac:(by unfold reserve_index_generation in E; rewrite E)) as H1.
      unfold reserve_index_generation in E. rewrite E in H1. cbn in H1. subst s1. by exists db0. }
  assert (Hmark : forall g cause r s s1 db, mark_index_generation_stale g cause s = (r, s1) -> ts_conn s = Some db -> rooted db ->
    exists db', ts_conn s1 = Some db' /\ rooted db' /\ grows db db').
  { intros g cause r s0 s1 db0 Hm Hs Hr. apply mark_Ok in Hm as [->|(db1 & H1 & ->)]; [by exists db0|]. rewrite Hs in H1. injection H1 as <-.
    eexists. split; [reflexivity|]. split; [by apply mark_rooted|by apply same_newest_grows, marked_newest]. }
  intros Hs Hroot. destruct c as [outcome| |batch|g cause]; cbn [index_call].
  - destruct (Hres s db Hs Hroot) as (db1 & H1 & Hr1 & Hg1). destruct (reserve_index_generation s) as [[g|e] s1]; cbn [snd] in *; [|by exists db1].
    destruct (seal_run_policy g outcome s1) as (policy & state & graph & -> & _).
    destruct (seal_index_generation g policy state graph s1) as [[[]|e] s2] eqn:E; cbn [snd].
    + apply seal_Ok in E as (db1' & db2 & carried & rows & H1' & Hsd & ->). rewrite H1 in H1'. injection H1' as <-.
      exists db2. split; [done|]. split; [destruct Hsd as [_ _ ->]; apply prune_rooted|]. etrans; [exact Hg1|].
      apply same_newest_grows. by eapply sealed_newest.
    + unfold seal_index_generation in E. pose proof (transaction_Err _ s1 e ltac:(by rewrite E)) as H2. rewrite E in H2. cbn in H2. subst s2.
      by exists db1.
  - by apply Hres.
  - destruct (watch_marks batch s) as [->|(g & cause & r & Hm)]; [by exists db|]. by eapply Hmark.
  - destruct (mark_index_generation_stale g cause s) as [r s1] eqn:E. by eapply Hmark.
Qed.

Lemma run_grows cs s db :
  ts_conn s = Some db -> rooted db -> exists db', ts_conn (index_calls cs s) = Some db' /\ rooted db' /\ grows db db'.
Proof.
  revert s db. induction cs as [|c cs IH]; intros s db Hs Hr; [by exists db|]. destruct (call_grows c s db Hs Hr) as (db1 & H1 & Hr1 & Hg1).
  destruct (IH _ _ H1 Hr1) as (db2 & H2 & Hr2 & Hg2). exists db2. split; [done|]. split; [done|by etrans].
Qed.

Lemma empty_rooted : rooted empty_index.
Proof. split; cbn; [by intros row ?%elem_of_nil|by intros row ?%elem_of_empty]. Qed.

(** ** Reading a generation back *)

(** An edge as the derivation makes one: read at a line, pointing at a document. *)
Definition valid_edge (e : IndexEdge) : Prop :=
  (exists line, sr_line (ie_from e) = Some line /\ (0 <= line)%Z) /\
  sr_line (ie_to e) = None /\ sr_ignored (ie_to e) = false /\ (-2147483648 <= ie_version e < 2147483648)%Z /\
  utf8_valid (bytes_of (sr_path (ie_from e))) = true /\ utf8_valid (bytes_of (sr_path (ie_to e))) = true.
Definition edge_ok (e : IndexEdge) : bool :=
  match sr_line (ie_from e) with Some line => (0 <=? line)%Z | None => false end &&
  bool_decide (sr_line (ie_to e) = None) && negb (sr_ignored (ie_to e)) && (-2147483648 <=? ie_version e)%Z && (ie_version e <? 2147483648)%Z &&
  utf8_valid (bytes_of (sr_path (ie_from e))) && utf8_valid (bytes_of (sr_path (ie_to e))).
Definition edge_identity (e : IndexEdge) : Path * option Z * Path * EdgeKind * EdgeProvenance :=
  (sr_path (ie_from e), sr_line (ie_from e), sr_path (ie_to e), ie_kind e, ie_provenance e).

Lemma edges_ok edges : forallb edge_ok edges = true -> Forall valid_edge edges.
Proof.
  intros Hall. apply Forall_forall. intros e He. apply list_elem_of_In in He. apply (proj1 (forallb_forall _ _) Hall) in He.
  unfold edge_ok in He. rewrite !andb_true_iff, bool_decide_eq_true, negb_true_iff, Z.leb_le, Z.ltb_lt in He.
  destruct He as ((((((Hl & Ht) & Hi) & Hv1) & Hv2) & Hf) & Hp). split_and!; try done. destruct (sr_line (ie_from e)) as [line|]; [|done].
  exists line. split; [done|lia].
Qed.

Lemma kind_name_inj a b : kind_name a = kind_name b -> a = b.
Proof. by destruct a, b. Qed.
Lemma provenance_name_inj a b : provenance_name a = provenance_name b -> a = b.
Proof. by destruct a, b. Qed.

Lemma decode_edge_row g e r : valid_edge e -> edge_row g e = Ok r ->
  decode r = Ok e /\ er_generation r = g.
Proof.
  intros ((line & Hl & H0) & Htl & Hti & Hv & Hf & Ht). unfold edge_row. rewrite Hl. case_decide as Hm; [done|]. intros [= <-].
  split; [|done]. unfold decode. cbn [er_kind er_provenance er_confidence er_line er_version er_from er_to er_ignored].
  rewrite !lossy_valid by done. destruct e as [[fp fl fi] [tp tl ti] kind provenance version confidence].
  cbn in *. subst. assert (Hw : to_i32 version = version) by (unfold to_i32; rewrite Z.mod_small by lia; lia).
  rewrite Hw. destruct (decide (line < 0)%Z); [lia|]. by destruct kind, provenance, confidence.
Qed.

Lemma edge_row_key g a b ra rb : valid_edge a -> valid_edge b -> edge_row g a = Ok ra -> edge_row g b = Ok rb ->
  edge_key ra = edge_key rb -> edge_identity a = edge_identity b.
Proof.
  intros ((la & Hla & _) & _ & _ & _ & Hfa & Hta) ((lb & Hlb & _) & _ & _ & _ & Hfb & Htb). unfold edge_row, edge_identity. rewrite Hla, Hlb.
  repeat case_decide; try done. intros [= <-] [= <-]. unfold edge_key. cbn. rewrite !lossy_valid by done.
  intros [= -> -> -> Hk%kind_name_inj Hp%provenance_name_inj]. by rewrite Hk, Hp.
Qed.

Lemma edge_row_identity g a b ra rb :
  edge_row g a = Ok ra -> edge_row g b = Ok rb -> edge_identity a = edge_identity b -> edge_key ra = edge_key rb.
Proof.
  unfold edge_row, edge_identity. destruct (sr_line (ie_from a)); [|done]. destruct (sr_line (ie_from b)); [|done].
  repeat case_decide; try done. intros [= <-] [= <-] [= -> -> -> -> ->]. done.
Qed.

(** The edge kept of those derived under one identity: the last one. *)
Definition stored_edge (derived : list IndexEdge) (k : Path * option Z * Path * EdgeKind * EdgeProvenance) : option IndexEdge :=
  last (filter (fun e => edge_identity e = k) derived).
(** The edges of a generation that was derived as these: one per identity, the
    last derived. *)
Definition reads_as (edges derived : list IndexEdge) : Prop :=
  NoDup (map edge_identity edges) /\ forall e, e ∈ edges <-> stored_edge derived (edge_identity e) = Some e.

Lemma Forall_kept {A} (P Q : A -> Prop) `{!forall x, Decision (Q x)} l : Forall P l -> Forall P (filter Q l).
Proof. rewrite !Forall_forall. intros Hl x [_ Hx]%list_elem_of_filter. by apply Hl. Qed.

(** [INSERT OR REPLACE] on the edges themselves. *)
Definition put_edge (l : list IndexEdge) (e : IndexEdge) : list IndexEdge :=
  filter (fun o => edge_identity o <> edge_identity e) l ++ [e].

Lemma stored_edge_snoc derived e k :
  stored_edge (derived ++ [e]) k = if decide (edge_identity e = k) then Some e else stored_edge derived k.
Proof.
  unfold stored_edge. rewrite filter_app, filter_cons. case_decide; cbn; [by rewrite last_snoc|by rewrite app_nil_r].
Qed.

Lemma stored_edge_identity derived k e : stored_edge derived k = Some e -> edge_identity e = k.
Proof. intros He%last_Some_elem_of. by apply list_elem_of_filter in He as [? _]. Qed.

Lemma put_edges derived : reads_as (foldl put_edge [] derived) derived.
Proof.
  induction derived as [|e derived [Hn Hm]] using rev_ind; [split; [constructor|]|].
  { intros e. split; [by intros ?%elem_of_nil|done]. }
  rewrite foldl_app. cbn [foldl]. set (l := foldl put_edge [] derived) in *. unfold put_edge. split.
  - rewrite map_app. apply NoDup_app. split_and!.
    + eapply sublist_NoDup; [exact Hn|]. apply fmap_sublist, sublist_filter.
    + intros k (o & -> & [Ho _]%list_elem_of_filter)%list_elem_of_fmap Hk%list_elem_of_singleton. done.
    + apply NoDup_singleton.
  - intros o. rewrite elem_of_app, list_elem_of_filter, list_elem_of_singleton, stored_edge_snoc, Hm. split.
    + intros [[Hne Ho]| ->]; [|by rewrite decide_True]. rewrite decide_False; [done|]. by intros E.
    + case_decide as E; [intros [= ->]; by right|intros Ho; left; split; [|done]]. by intros E'.
Qed.

(** One row per edge. *)
Definition rows_for (g : Z) (edges : list IndexEdge) (rows : list EdgeRow) : Prop :=
  Forall2 (fun e r => edge_row g e = Ok r) edges rows.

Lemma kept_rows g (e : IndexEdge) r edges rows :
  Forall valid_edge edges -> valid_edge e -> edge_row g e = Ok r -> rows_for g edges rows ->
  rows_for g (filter (fun o => edge_identity o <> edge_identity e) edges) (filter (fun o => edge_key o <> edge_key r) rows).
Proof.
  intros Hv He Hr Hrows. induction Hrows as [|x y edges rows Hxy Hrows IH]; [constructor|].
  apply Forall_cons in Hv as [Hx Hv]. specialize (IH Hv). rewrite !filter_cons.
  destruct (decide (edge_identity x = edge_identity e)) as [E|E].
  - rewrite decide_False by tauto. rewrite decide_False; [done|]. intros H. apply H. by eapply edge_row_identity.
  - rewrite decide_True by done. rewrite decide_True; [by constructor|]. intros H. apply E. by eapply edge_row_key.
Qed.

Lemma put_rows g edges rows base brows :
  Forall valid_edge edges -> Forall valid_edge base -> rows_for g edges rows -> rows_for g base brows ->
  rows_for g (foldl put_edge base edges) (foldl (fun l r => insert_edge r l) brows rows).
Proof.
  intros Hv. revert base brows rows. induction Hv as [|e edges He Hv IH]; intros base brows rows Hb Hrows Hbr.
  { apply Forall2_nil_inv_l in Hrows as ->. done. }
  apply Forall2_cons_inv_l in Hrows as (r & rows' & Hr & Hrows & ->). cbn [foldl]. apply IH; [|done|].
  - apply Forall_app. split; [by apply Forall_kept|by constructor].
  - apply Forall2_app; [by apply kept_rows|by repeat constructor].
Qed.

(** Rows of another generation stay in front. *)
Lemma insert_edges_beside rows base acc :
  (forall r b, r ∈ rows -> b ∈ base -> edge_key b <> edge_key r) ->
  foldl (fun l r => insert_edge r l) (base ++ acc) rows = base ++ foldl (fun l r => insert_edge r l) acc rows.
Proof.
  revert acc. induction rows as [|r rows IH]; intros acc Hb; [done|]. cbn [foldl]. unfold insert_edge at 2 4.
  rewrite filter_app, (filter_all _ base) by (intros b Hin; by apply Hb; [left|]). rewrite <- app_assoc. apply IH.
  intros r' b Hr'. apply Hb. by right.
Qed.

Lemma decoded_rows g edges rows :
  Forall valid_edge edges -> Forall2 (fun e r => edge_row g e = Ok r) edges rows ->
  Forall2 (fun r e => decode r = Ok e) rows edges /\ Forall (fun r => er_generation r = g) rows.
Proof.
  intros Hv Hr. induction Hr as [|e r edges rows Her Hr IH]; [by split; constructor|]. apply Forall_cons in Hv as [He Hv].
  destruct (IH Hv) as [H1 H2]. destruct (decode_edge_row g e r He Her) as [Hd Hg]. by split; constructor.
Qed.

(** A fallible map over rows in another order. *)
Lemma try_map_permuted {A B R} (f : A -> result B R) l l' k :
  Permutation l l' -> Forall2 (fun a b => f a = Ok b) l' k -> exists k', try_map f l = Ok k' /\ Permutation k' k.
Proof.
  intros Hp Hk. assert (Ht : forall l k, Forall2 (fun a b => f a = Ok b) l k -> try_map f l = Ok k).
  { clear. induction 1 as [|a b l k Hab Hl IH]; [done|]. cbn. by rewrite Hab, IH. }
  symmetry in Hp. revert k Hk. induction Hp as [|x l l' Hp IH|x y l|l1 l2 l3 H12 IH12 H23 IH23]; intros k Hk.
  - apply Forall2_nil_inv_l in Hk as ->. by exists [].
  - apply Forall2_cons_inv_l in Hk as (b & k' & Hb & Hk & ->). destruct (IH k' Hk) as (k2 & E & Hp2). exists (b :: k2). cbn. rewrite Hb, E. by split; [|constructor].
  - apply Forall2_cons_inv_l in Hk as (b & k' & Hb & Hk & ->). apply Forall2_cons_inv_l in Hk as (c & k2 & Hc & Hk & ->).
    exists (c :: b :: k2). cbn. rewrite Hb, Hc, (Ht _ _ Hk). by split; [|constructor].
  - destruct (IH12 k Hk) as (k2 & E2 & Hp2).
    assert (Hk2 : Forall2 (fun a b => f a = Ok b) l2 k2).
    { clear -E2. revert k2 E2. induction l2 as [|a l IH]; cbn; intros k2; [intros [= <-]; constructor|].
      destruct (f a) as [b|] eqn:Ef; [|done]. cbn. destruct (try_map f l) as [bs|] eqn:Et; [|done]. cbn. intros [= <-]. constructor; [done|by apply IH]. }
    destruct (IH23 k2 Hk2) as (k3 & E3 & Hp3). exists k3. split; [done|by etrans].
Qed.

Lemma stored_state state : generation_state (as_stored state) (stale_cause_of state) true = Ok state.
Proof. by destruct state as [|[]]. Qed.

Lemma sealed_edges g policy state graph db db' carried rows :
  sealed_db g policy state graph db db' carried rows -> g ∈ take INDEX_GENERATION_RETENTION (numbers db) ->
  (forall row, row ∈ edge_rows db -> er_generation row <> g) -> Forall valid_edge (carried ++ pg_edges graph) ->
  exists kept, rows_for g (foldl put_edge [] (carried ++ pg_edges graph)) kept /\ Permutation (edges_of g db') kept.
Proof.
  intros [_ Hrows ->] Hk Hnone Hv. destruct (decoded_rows g _ _ Hv Hrows) as [_ Hg].
  set (derived := carried ++ pg_edges graph) in *. exists (foldl (fun l r => insert_edge r l) [] rows).
  assert (Hkept : rows_for g (foldl put_edge [] derived) (foldl (fun l r => insert_edge r l) [] rows))
    by (apply put_rows; [done|constructor|done|constructor]).
  split; [exact Hkept|]. unfold edges_of. rewrite merge_sort_Permutation. unfold prune. cbn [edge_rows].
  match goal with |- context[numbers (mkIndexDb ?m ?e ?d)] => assert (Hnum : numbers (mkIndexDb m e d) = numbers db) end.
  { apply numbers_dom. cbn. destruct (previous_generation g db); by rewrite ?dom_alter_L. }
  rewrite Hnum. clear Hnum. rewrite list_filter_filter, <- (app_nil_r (edge_rows db)), insert_edges_beside.
  - rewrite filter_app. rewrite (filter_none _ (edge_rows db)) by (intros r Hr [E _]; by apply (Hnone r Hr)).
    rewrite filter_all; [done|]. intros r [i Hi]%list_elem_of_lookup_1.
    destruct (Forall2_lookup_r _ _ _ _ _ Hkept Hi) as (e & _ & He).
    assert (er_generation r = g) as ->; [|done]. revert He. unfold edge_row. destruct (sr_line _); [|done]. case_decide; [done|]. by intros [= <-].
  - intros r b Hr Hb [= E]. apply (Hnone b Hb). rewrite Forall_forall in Hg. by rewrite <- (Hg r Hr).
Qed.

Lemma sealed_documents g policy state graph db db' carried rows :
  sealed_db g policy state graph db db' carried rows -> g ∈ take INDEX_GENERATION_RETENTION (numbers db) ->
  (forall row, row ∈ document_rows db -> row.1 <> g) ->
  Forall (fun d => utf8_valid (bytes_of d) = true) (pg_documents graph) ->
  NoDup (documents_of g db') /\ forall d, d ∈ documents_of g db' <-> d ∈ pg_documents graph.
Proof.
  intros [_ _ ->] Hk Hnone Hv. unfold documents_of.
  match goal with |- context[numbers (mkIndexDb ?m ?e ?d)] => idtac | |- context[prune ?k (mkIndexDb ?m ?e ?d)] =>
    assert (Hnum : numbers (mkIndexDb m e d) = numbers db) end.
  { apply numbers_dom. cbn. destruct (previous_generation g db); by rewrite ?dom_alter_L. }
  unfold prune. cbn [document_rows]. rewrite Hnum. clear Hnum. split.
  - rewrite merge_sort_Permutation. apply NoDup_fmap_2_strong; [|apply NoDup_filter, NoDup_elements].
    intros [g1 d1] [g2 d2] [H1 _]%list_elem_of_filter [H2 _]%list_elem_of_filter E. cbn in *. by subst.
  - intros d. rewrite merge_sort_Permutation. rewrite Forall_forall in Hv. split.
    + intros ([g1 d1] & -> & [H1 Hin]%list_elem_of_filter)%list_elem_of_fmap. cbn in *. subst g1.
      apply elem_of_elements, elem_of_filter in Hin as [_ [Hin|Hin]%elem_of_union]; [|by apply Hnone in Hin].
      apply elem_of_list_to_set in Hin. apply list_elem_of_fmap in Hin as (d & [= ->] & Hd). by rewrite lossy_valid by by apply Hv.
    + intros Hd. change d with (g, d).2. apply list_elem_of_fmap_2. apply list_elem_of_filter. split; [done|].
      apply elem_of_elements, elem_of_filter. split; [done|]. apply elem_of_union_l, elem_of_list_to_set.
      apply list_elem_of_fmap. exists d. by rewrite lossy_valid by by apply Hv.
Qed.

Lemma put_valid base edges : Forall valid_edge base -> Forall valid_edge edges -> Forall valid_edge (foldl put_edge base edges).
Proof.
  intros Hb Hv. revert base Hb. induction Hv as [|e edges He _ IH]; intros base Hb; [done|]. apply IH, Forall_app.
  split; [by apply Forall_kept|by constructor].
Qed.

Lemma seal_reads_back g policy state graph db db' carried rows s' :
  sealed_db g policy state graph db db' carried rows -> conn s' = Ok db' -> newest db = Some g ->
  (forall row, row ∈ edge_rows db -> er_generation row <> g) -> (forall row, row ∈ document_rows db -> row.1 <> g) ->
  Forall valid_edge (carried ++ pg_edges graph) -> Forall (fun d => utf8_valid (bytes_of d) = true) (pg_documents graph) ->
  exists edges documents,
    index_graph g s' = Ok (Some (mkIndexGeneration g state (mkGraph edges (pg_completeness graph) (pg_unresolved graph) [] documents))) /\
    reads_as edges (carried ++ pg_edges graph) /\ NoDup documents /\ forall d, d ∈ documents <-> d ∈ pg_documents graph.
Proof.
  intros Hs Hc Hg Hne Hnd Hv Hu. pose proof (newest_kept 7 db g Hg) as Hk.
  destruct (sealed_edges _ _ _ _ _ _ _ _ Hs Hk Hne Hv) as (kept & Hkept & He). destruct (sealed_documents _ _ _ _ _ _ _ _ Hs Hk Hnd Hu) as [Hd1 Hd2].
  destruct (decoded_rows g _ _ (put_valid [] _ ltac:(constructor) Hv) Hkept) as [Hdec _].
  destruct (try_map_permuted decode _ _ _ He Hdec) as (edges & Ht & Hp).
  apply newest_Some in Hg as [[row Hrow] _].
  assert (Hrow' : generations db' !! g = Some (sealed_row g state graph db g row)).
  { apply (sealed_lookup _ _ _ _ _ _ _ _ _ _ Hs). split; [exact Hk|by exists row]. }
  exists edges, (documents_of g db'). split_and!; [| |exact Hd1|exact Hd2].
  - unfold index_graph. rewrite (read_open _ _ _ Hc), Hrow'. unfold sealed_row. rewrite decide_True by done. cbn [gn_state gn_cause gn_sealed sealed_as].
    rewrite stored_state. cbn [rbind]. by rewrite Ht.
  - destruct (put_edges (carried ++ pg_edges graph)) as [Hn Hm]. split; [by rewrite Hp|]. intros e. by rewrite Hp, Hm.
Qed.

(** ** Carrying rows *)

Lemma seal_conn g policy state graph s s1 :
  seal_index_generation g policy state graph s = (Ok tt, s1) ->
  exists db db1 carried rows, conn s = Ok db /\ conn s1 = Ok db1 /\ sealed_db g policy state graph db db1 carried rows.
Proof.
  unfold seal_index_generation. intros Hr. assert (H1 : (transaction (seal_tx g policy state graph) s).1 = Ok tt) by (by rewrite Hr).
  apply transaction_Ok in H1 as (db & db' & Hm & Hb & Hs). rewrite Hr in Hs. cbn in Hs. subst s1.
  destruct (conn_mut_open s db Hm) as [Hc Hh]. apply seal_tx_Ok in Hb as (carried & rows & Hsl).
  exists db, db', carried, rows. split; [done|]. split; [unfold conn; cbn; by rewrite Hh|done].
Qed.

Lemma reserved_seal cs g s1 policy state graph s2 :
  reserve_index_generation (index_calls cs fresh_index) = (Ok g, s1) ->
  seal_index_generation g policy state graph s1 = (Ok tt, s2) ->
  exists db db2 carried rows,
    ts_conn (index_calls cs fresh_index) = Some db /\ rooted db /\ g = next_generation db /\ conn s2 = Ok db2 /\
    sealed_db g policy state graph (on_generations (<[g := reservation]>) db) db2 carried rows.
Proof.
  intros Hres Hseal. destruct (run_grows cs fresh_index empty_index eq_refl empty_rooted) as (db & Hdb & Hr & _).
  apply reserve_Ok in Hres as (db' & Hdb' & Hg & _ & ->). rewrite Hdb in Hdb'. injection Hdb' as <-.
  apply seal_conn in Hseal as (db1 & db2 & carried & rows & Hc1 & Hc2 & Hsd). apply conn_Ok in Hc1. injection Hc1 as <-.
  by exists db, db2, carried, rows.
Qed.

Lemma reserved_empty db g : rooted db -> g = next_generation db ->
  (forall row, row ∈ edge_rows db -> er_generation row <> g) /\ (forall row, row ∈ document_rows db -> row.1 <> g).
Proof.
  intros [He Hd] ->. split; intros row Hrow E; [apply He in Hrow|apply Hd in Hrow]; rewrite E in Hrow; apply next_above in Hrow; lia.
Qed.

Lemma decode_from r e : decode r = Ok e -> sr_path (ie_from e) = er_from r.
Proof.
  unfold decode. destruct (kind_from_name _); [|done]. destruct (provenance_from_name _); [|done]. destruct (confidence_from_name _); [|done].
  cbn. case_decide; [done|]. by intros [= <-].
Qed.

(** Decoding and picking by subject commute. *)
Lemma decode_picked (P : Path -> Prop) `{!forall x, Decision (P x)} rows edges :
  try_map decode rows = Ok edges ->
  try_map decode (filter (fun r => P (er_from r)) rows) = Ok (filter (fun e => P (sr_path (ie_from e))) edges).
Proof.
  revert edges. induction rows as [|r rows IH]; intros edges; [by intros [= <-]|]. cbn [try_map].
  destruct (decode r) as [e|] eqn:Hr; [|done]. cbn [rbind]. destruct (try_map decode rows) as [es|]; [|done]. cbn [rbind]. intros [= <-].
  pose proof (decode_from r e Hr) as Hf. rewrite filter_cons. destruct (decide (P (er_from r))) as [Hp|Hp].
  - cbn [try_map]. rewrite Hr, (IH es eq_refl). cbn [rbind]. rewrite filter_cons, Hf. by rewrite decide_True.
  - rewrite (IH es eq_refl). rewrite filter_cons, Hf. by rewrite decide_False.
Qed.

(** ** What is stored of derived edges *)

Local Abbreviation identity_path k := (k.1.1.1.1).

Lemma stored_edge_app l l' k :
  stored_edge (l ++ l') k = match stored_edge l' k with Some e => Some e | None => stored_edge l k end.
Proof. unfold stored_edge. rewrite filter_app, last_app. by destruct (last (filter _ l')). Qed.

Lemma stored_edge_in derived k e : stored_edge derived k = Some e -> e ∈ derived /\ edge_identity e = k.
Proof.
  intros He. split; [|by eapply stored_edge_identity]. unfold stored_edge in He.
  apply last_Some_elem_of in He. by apply list_elem_of_filter in He as [_ ?].
Qed.

Lemma stored_edge_none derived k : (forall e, e ∈ derived -> edge_identity e <> k) -> stored_edge derived k = None.
Proof. intros Hn. destruct (stored_edge derived k) as [e|] eqn:E; [|done]. apply stored_edge_in in E as [Hin E]. by destruct (Hn e Hin). Qed.

(** Edges that read as others store what they store. *)
Lemma reads_as_stored edges derived k : reads_as edges derived -> stored_edge edges k = stored_edge derived k.
Proof.
  intros [_ Hm]. destruct (stored_edge edges k) as [o|] eqn:Eo.
  - apply stored_edge_in in Eo as [Hin <-]. symmetry. by apply Hm.
  - destruct (stored_edge derived k) as [e|] eqn:Ee; [|done]. exfalso. pose proof (stored_edge_identity _ _ _ Ee) as <-.
    apply Hm in Ee. unfold stored_edge in Eo. apply last_None in Eo.
    assert (Hf : e ∈ filter (fun o => edge_identity o = edge_identity e) edges) by (by apply list_elem_of_filter).
    rewrite Eo in Hf. by apply elem_of_nil in Hf.
Qed.

Lemma stored_edge_picked (P : Path -> Prop) `{!forall x, Decision (P x)} derived k :
  stored_edge (filter (fun e => P (sr_path (ie_from e))) derived) k =
    if decide (P (identity_path k)) then stored_edge derived k else None.
Proof.
  case_decide as Hp.
  - unfold stored_edge. rewrite list_filter_filter. f_equal. apply list_filter_iff. intros e. split; [tauto|].
    intros <-. by split.
  - apply stored_edge_none. intros e [He _]%list_elem_of_filter <-. by apply Hp.
Qed.

(** The edges of documents each of which gives edges of its own. *)
Lemma stored_edge_documents (edges : Path -> list IndexEdge) docs k :
  (forall d e, e ∈ edges d -> sr_path (ie_from e) = d) ->
  stored_edge (flat_map edges docs) k =
    if decide (identity_path k ∈ docs) then stored_edge (edges (identity_path k)) k else None.
Proof.
  intros He. induction docs as [|d docs IH]; [done|]. cbn [flat_map]. rewrite stored_edge_app, IH. clear IH.
  destruct (decide (d = identity_path k)) as [->|Hd].
  - rewrite (decide_True (P := _ ∈ _ :: docs)) by left. case_decide; [|done]. by destruct (stored_edge _ k).
  - rewrite (stored_edge_none (edges d)) by (intros e Hin <-; apply Hd; symmetry; by apply He).
    destruct (decide (identity_path k ∈ docs)) as [Hin|Hni].
    + rewrite (decide_True (P := _ ∈ d :: docs)) by (by right). by destruct (stored_edge _ k).
    + rewrite decide_False; [done|]. intros [E|]%elem_of_cons; [by apply Hd|done].
Qed.

Lemma reads_as_same a b derived derived' :
  reads_as a derived -> reads_as b derived' -> (forall k, stored_edge derived k = stored_edge derived' k) -> Permutation a b.
Proof.
  intros [Ha Hma] [Hb Hmb] Hk. apply NoDup_Permutation; [by eapply NoDup_fmap_1|by eapply NoDup_fmap_1|].
  intros e. by rewrite Hma, Hmb, Hk.
Qed.

(** What a narrowed seal carries: the edges of the prior generation whose
    documents were not re-derived. *)
Lemma carried_prior p s prior db g replaced carried :
  conn s = Ok db -> index_graph p s = Ok (Some prior) -> newest db = Some p -> g = next_generation db ->
  Forall (fun d => utf8_valid (bytes_of d) = true) replaced ->
  carried_edges (CarryNarrowed replaced) (previous_generation g (on_generations (<[g := reservation]>) db))
    (on_generations (<[g := reservation]>) db) = Ok carried ->
  Permutation carried (filter (fun e => sr_path (ie_from e) ∉ replaced) (pg_edges (ig_graph prior))).
Proof.
  intros Hc Hg Hp -> Hv. rewrite (reserved_previous db _ eq_refl), Hp. cbn [carried_edges edge_rows on_generations].
  assert (Hmap : map from_utf8_lossy replaced = replaced).
  { clear -Hv. induction Hv as [|d l Hd _ IH]; [done|]. cbn. by rewrite lossy_valid, IH. }
  rewrite Hmap. clear Hmap. unfold index_graph in Hg. rewrite (read_open _ _ _ Hc) in Hg.
  destruct (generations db !! p) as [row|]; [|done]. destruct (generation_state _ _ _); cbn [rbind] in Hg; [|done].
  destruct (try_map decode (edges_of p db)) as [edges|] eqn:Ht; [|done]. cbn [rbind] in Hg. injection Hg as <-. cbn [ig_graph pg_edges].
  assert (Hrows : exists decoded, try_map decode (filter (fun row => er_generation row = p) (edge_rows db)) = Ok decoded /\ Permutation decoded edges).
  { apply (try_map_permuted decode _ (edges_of p db)).
    - unfold edges_of. by rewrite merge_sort_Permutation.
    - clear -Ht. revert edges Ht. induction (edges_of p db) as [|a l IH]; cbn; intros k; [intros [= <-]; constructor|].
      destruct (decode a) as [b|] eqn:Ef; [|done]. cbn. destruct (try_map decode l) as [bs|]; [|done]. cbn. intros [= <-]. constructor; [done|by apply IH]. }
  destruct Hrows as (decoded & Hdec & Hperm). apply (decode_picked (fun d => d ∉ replaced)) in Hdec. rewrite list_filter_filter in Hdec.
  intros Hcar. rewrite (list_filter_iff _ (fun row => (er_from row ∉ replaced) /\ er_generation row = p)) in Hcar by (intros; tauto).
  rewrite Hdec in Hcar. injection Hcar as <-. by rewrite Hperm.
Qed.

Lemma reads_as_picked (P : Path -> Prop) `{!forall x, Decision (P x)} edges derived carried :
  reads_as edges derived -> Permutation carried (filter (fun e => P (sr_path (ie_from e))) edges) ->
  reads_as carried (filter (fun e => P (sr_path (ie_from e))) derived).
Proof.
  intros [Hn Hm] Hp. split.
  - rewrite Hp. eapply sublist_NoDup; [exact Hn|]. apply fmap_sublist, sublist_filter.
  - intros e. rewrite Hp, list_elem_of_filter, (stored_edge_picked P), Hm. cbn. case_decide; naive_solver.
Qed.

(** ** A cut of the documents *)

Section Cut.
Context (old new : Path -> list IndexEdge) (before docs replaced : list Path).
Hypothesis from_old : forall d e, e ∈ old d -> sr_path (ie_from e) = d.
Hypothesis from_new : forall d e, e ∈ new d -> sr_path (ie_from e) = d.
Hypothesis cut_documents : forall d, d ∉ replaced -> (d ∈ docs <-> d ∈ before).
Hypothesis cut_edges : forall d, d ∈ docs -> d ∉ replaced -> new d = old d.

Lemma cut_stores prior carried k :
  reads_as prior (flat_map old before) -> Permutation carried (filter (fun e => sr_path (ie_from e) ∉ replaced) prior) ->
  stored_edge (carried ++ flat_map new (filter (fun d => d ∈ replaced) docs)) k = stored_edge (flat_map new docs) k.
Proof using All.
  intros Hprior Hcar. pose proof (reads_as_picked (fun d => d ∉ replaced) _ _ _ Hprior Hcar) as Hkept.
  rewrite stored_edge_app, (reads_as_stored _ _ k Hkept).
  pose proof (stored_edge_picked (fun d => d ∉ replaced) (flat_map old before) k) as E. cbn beta in E |- *. rewrite E, !stored_edge_documents by done. clear E.
  set (d := identity_path k). destruct (decide (d ∈ replaced)) as [Hr|Hr].
  - rewrite (decide_False (P := d ∉ replaced)) by tauto. destruct (decide (d ∈ docs)) as [Hd|Hd].
    + rewrite decide_True by (by apply list_elem_of_filter). by destruct (stored_edge (new d) k).
    + rewrite decide_False; [done|]. by intros [_ ?]%list_elem_of_filter.
  - rewrite decide_False by (intros [? _]%list_elem_of_filter; done). rewrite decide_True by done.
    destruct (decide (d ∈ docs)) as [Hd|Hd].
    + rewrite decide_True by (by apply cut_documents). by rewrite cut_edges.
    + rewrite decide_False; [done|]. intros H. apply Hd. by apply cut_documents.
Qed.

Lemma cut_valid prior carried :
  reads_as prior (flat_map old before) -> Permutation carried (filter (fun e => sr_path (ie_from e) ∉ replaced) prior) ->
  Forall valid_edge (flat_map new docs) ->
  Forall valid_edge (carried ++ flat_map new (filter (fun d => d ∈ replaced) docs)).
Proof using All.
  intros [_ Hm] Hcar Hv. rewrite Forall_forall in *. intros e [He|He]%elem_of_app; apply Hv, list_elem_of_In, in_flat_map.
  - rewrite Hcar in He. apply list_elem_of_filter in He as [Hr He]. apply Hm, stored_edge_in in He as [He _].
    apply list_elem_of_In, in_flat_map in He as (d & Hd & He). apply list_elem_of_In in Hd, He.
    rewrite (from_old d e He) in Hr. apply cut_documents in Hd; [|done]. exists d. rewrite <- !list_elem_of_In. by rewrite cut_edges.
  - apply list_elem_of_In, in_flat_map in He as (d & Hd & He). apply list_elem_of_In in Hd. apply list_elem_of_filter in Hd as [_ Hd].
    exists d. by rewrite <- list_elem_of_In.
Qed.
End Cut.

(** Edges of identities of their own read as themselves. *)
Lemma distinct_reads_as edges : NoDup (map edge_identity edges) -> reads_as edges edges.
Proof.
  intros Hn. split; [done|]. intros e. split; [|by intros [? _]%stored_edge_in]. intros He.
  destruct (stored_edge edges (edge_identity e)) as [o|] eqn:Eo.
  - apply stored_edge_in in Eo as [Ho E]. f_equal. apply list_elem_of_lookup_1 in He as [i Hi], Ho as [j Hj].
    assert (i = j) as <-; [|congruence]. eapply (NoDup_lookup _ i j (edge_identity e) Hn); rewrite list_lookup_fmap, ?Hi, ?Hj; cbn; congruence.
  - unfold stored_edge in Eo. apply last_None in Eo.
    assert (Hf : e ∈ filter (fun o => edge_identity o = edge_identity e) edges) by (by apply list_elem_of_filter).
    rewrite Eo in Hf. by apply elem_of_nil in Hf.
Qed.

Lemma latest_newest s db p :
  ts_conn s = Some db -> latest_index_generation s = Ok (Some p) -> conn s = Ok db /\ newest db = Some p.
Proof.
  unfold latest_index_generation, read. intros Hs Hl. destruct (conn s) as [db0|] eqn:Hc; [|done].
  apply conn_Ok in Hc as E. rewrite Hs in E. injection E as <-. split; [done|]. destruct (newest db) as [n|]; [|done].
  unfold unsigned in Hl. case_decide; [|done]. by injection Hl as ->.
Qed.

(** * What the index promises *)

(** C29.  Of whole builds, at most one generation is served as current, and it is the newest:
    after any run of builds that reach their seal, watched changes and marks, a
    generation that reads as fresh is the one [latest_index_generation] names, and no
    other reads as fresh. *)
Theorem one_generation_is_current cs db g :
  whole_run cs fresh_index -> ts_conn (index_calls cs fresh_index) = Some db -> current g db ->
  newest db = Some g /\ forall h, current h db -> h = g.
Proof.
  intros Hw Hdb Hg. assert (Hone : one_fresh db).
  { apply (run_keeps_one_fresh cs fresh_index Hw); [|done]. intros db0 [= <-] h row Hh. cbn [generations empty_index] in Hh. by rewrite lookup_empty in Hh. }
  destruct (current_fresh g db Hg) as (row & Hr & Hf). pose proof (Hone g row Hr Hf) as Hn. split; [done|].
  intros h Hh. destruct (current_fresh h db Hh) as (row' & Hr' & Hf'). pose proof (Hone h row' Hr' Hf') as Hn'. congruence.
Qed.

(** C32.  An interrupted build leaves two generations current: the next build supersedes the
    reservation the interrupted one left behind and not the generation before it, so
    that generation goes on reading as fresh beside the new one. *)
Theorem an_interrupted_build_leaves_two_current s db p g graph s1 s2 s3 :
  ts_conn s = Some db -> newest db = Some p -> current p db ->
  s1 = index_call Interrupt s -> reserve_index_generation s1 = (Ok g, s2) -> is_complete (pg_completeness graph) = true ->
  seal_index_run g (Ok graph) s2 = (Ok tt, s3) ->
  exists db3, ts_conn s3 = Some db3 /\ p <> g /\ current p db3 /\ current g db3.
Proof.
  intros Hs Hp Hcur -> Hres Hcomplete Hseal. cbn [index_call] in Hres.
  destruct (reserve_index_generation s) as [[g0|e] s0] eqn:Hres0; cbn [snd] in Hres.
  2:{ exfalso. pose proof (transaction_Err reserve_tx s e ltac:(by unfold reserve_index_generation in Hres0; rewrite Hres0)) as H1.
      unfold reserve_index_generation in *. rewrite Hres0 in H1. cbn in H1. subst s0. congruence. }
  apply reserve_Ok in Hres0 as (db0 & H0 & Hg0 & _ & ->). rewrite Hs in H0. injection H0 as <-.
  apply reserve_Ok in Hres as (db1 & H1 & Hg & _ & ->). injection H1 as <-.
  set (db1 := on_generations <[g0:=reservation]> db) in *. set (db2 := on_generations <[g:=reservation]> db1) in *.
  assert (Hlt0 : (p < g0)%Z) by (subst g0; apply next_above; by apply newest_Some in Hp as [? _]).
  assert (Hn1 : newest db1 = Some g0) by (by apply reserved_newest).
  assert (Hlt : (g0 < g)%Z) by (subst g; apply next_above; by apply newest_Some in Hn1 as [? _]).
  assert (Hnum : numbers db2 = g :: g0 :: numbers db).
  { unfold db2, db1. rewrite Hg, numbers_insert by (apply next_above). f_equal. rewrite Hg0. apply numbers_insert, next_above. }
  cbn [seal_index_run] in Hseal. apply seal_Ok in Hseal as (dbr & db3 & carried & rows & Hdbr & Hsd & ->). injection Hdbr as <-.
  exists db3. split; [done|]. split; [lia|].
  assert (Hprev : previous_generation g db2 = Some g0) by (by rewrite (previous_of_head g (g0 :: numbers db))).
  unfold newest in Hp. destruct (numbers db) as [|p' rest] eqn:Erest; [done|]. injection Hp as ->. split.
  - destruct Hcur as (row & Hr & Hst). exists row. split; [|done]. apply (sealed_lookup _ _ _ _ _ _ _ _ _ _ Hsd). split.
    + rewrite Hnum. right. right. left.
    + exists row. split; [cbn; rewrite !lookup_insert_ne by lia; exact Hr|]. unfold sealed_row. rewrite decide_False by lia.
      rewrite decide_False; [done|]. rewrite Hprev. intros [= ->]. lia.
  - eexists. split; [apply (sealed_lookup _ _ _ _ _ _ _ _ _ _ Hsd)|].
    + split; [rewrite Hnum; left|]. exists reservation. split; [cbn; by rewrite lookup_insert_eq|reflexivity].
    + unfold sealed_row. rewrite decide_True by done. unfold seal_state. rewrite Hcomplete. reflexivity.
Qed.

(** A number is never reissued, and no row outlives its generation: whatever builds,
    interruptions and marks come before and between, a reservation is above every
    earlier one even where retention has removed the older rows, and every edge and
    document of the store belongs to a generation it still has. *)
Theorem numbers_are_never_reissued before between g g' s1 s2 db :
  reserve_index_generation (index_calls before fresh_index) = (Ok g, s1) ->
  reserve_index_generation (index_calls between s1) = (Ok g', s2) ->
  ts_conn (index_calls between s1) = Some db -> (g < g')%Z /\ rooted db.
Proof.
  intros H1 H2 Hdb. destruct (run_grows before fresh_index empty_index eq_refl empty_rooted) as (db0 & Hdb0 & Hr0 & _).
  apply reserve_Ok in H1 as (db0' & Hdb0' & Hg & _ & ->). rewrite Hdb0 in Hdb0'. injection Hdb0' as <-.
  destruct (run_grows between (mkTaskStore (Some (on_generations <[g:=reservation]> db0)) (ts_held_claim_commit (index_calls before fresh_index))
    (ts_path_identity (index_calls before fresh_index))) _ eq_refl (reserve_rooted db0 g Hr0)) as (db1 & Hdb1 & Hr1 & Hgrow).
  rewrite Hdb1 in Hdb. injection Hdb as <-. split; [|done].
  apply reserve_Ok in H2 as (db1' & Hdb1' & Hg' & _ & _). rewrite Hdb1 in Hdb1'. injection Hdb1' as <-.
  destruct (Hgrow g (reserved_newest db0 g Hg)) as (n & Hn & Hle). subst g'. apply newest_Some in Hn as [Hn _]. apply next_above in Hn. lia.
Qed.

(** C31.  A sealed generation reads back: after a full build is reserved and sealed, its
    number answers with its state, its coverage and what it could not place, with the
    documents the run indexed, each once, and with the edges it derived, one of each
    identity (source document and line, target, kind and provenance): where the run
    derived several under one identity, the last, as [INSERT OR REPLACE] keeps it.  The
    paths are UTF-8 and the edges as the derivation makes them, read at a line and
    pointing at a document. *)
Theorem a_sealed_generation_reads_back cs g s1 state graph s2 :
  reserve_index_generation (index_calls cs fresh_index) = (Ok g, s1) ->
  seal_index_generation g CarryFull state graph s1 = (Ok tt, s2) ->
  Forall valid_edge (pg_edges graph) -> Forall (fun d => utf8_valid (bytes_of d) = true) (pg_documents graph) ->
  exists edges documents,
    index_graph g s2 = Ok (Some (mkIndexGeneration g state (mkGraph edges (pg_completeness graph) (pg_unresolved graph) [] documents))) /\
    NoDup (map edge_identity edges) /\
    (forall e, e ∈ edges <-> stored_edge (pg_edges graph) (edge_identity e) = Some e) /\
    (NoDup (map edge_identity (pg_edges graph)) -> Permutation edges (pg_edges graph)) /\
    NoDup documents /\ forall d, d ∈ documents <-> d ∈ pg_documents graph.
Proof.
  intros Hres Hseal Hv Hu. destruct (reserved_seal _ _ _ _ _ _ _ Hres Hseal) as (db & db2 & carried & rows & _ & Hroot & Hg & Hc & Hsd).
  destruct (reserved_empty db g Hroot Hg) as [He Hd]. pose proof (sl_carried _ _ _ _ _ _ _ _ Hsd) as Hcar. injection Hcar as <-.
  destruct (seal_reads_back _ _ _ _ _ _ _ _ _ Hsd Hc (reserved_newest db g Hg) He Hd Hv Hu) as (edges & documents & Hig & [Hn Hm] & Hdocs).
  exists edges, documents. split_and!; [exact Hig|done|done| |apply Hdocs..]. intros Hnd.
  apply (reads_as_same _ _ (pg_edges graph) (pg_edges graph)); [by split|by apply distinct_reads_as|done].
Qed.

(** C30.  A narrowed build is the full one.  Let the prior generation, the latest, read
    back what its run derived of its documents, let every document outside the cut be
    there now exactly if it was there then, and let those that are still give the edges
    they gave (so a document that was added, removed or changed is in the cut).  Then
    sealing the run over the cut reads back the edges and documents of sealing a run
    over every document, one edge of each identity.  The paths are UTF-8, each
    document's edges start in it, and edges are as the derivation makes them, read at a
    line and pointing at a document. *)
Theorem a_narrowed_build_is_the_full_one cs p prior g s1 sn sf replaced (old new : Path -> list IndexEdge) before docs narrowed full state :
  index_graph p (index_calls cs fresh_index) = Ok (Some prior) ->
  latest_index_generation (index_calls cs fresh_index) = Ok (Some p) ->
  reads_as (pg_edges (ig_graph prior)) (flat_map old before) ->
  (forall d e, e ∈ old d \/ e ∈ new d -> sr_path (ie_from e) = d) ->
  (forall d, d ∉ replaced -> (d ∈ docs <-> d ∈ before)) ->
  (forall d, d ∈ docs -> (d ∉ replaced) -> new d = old d) ->
  pg_edges full = flat_map new docs -> pg_edges narrowed = flat_map new (filter (fun d => d ∈ replaced) docs) ->
  pg_documents full = docs -> pg_documents narrowed = docs -> Forall valid_edge (flat_map new docs) ->
  Forall (fun d => utf8_valid (bytes_of d) = true) docs -> Forall (fun d => utf8_valid (bytes_of d) = true) replaced ->
  reserve_index_generation (index_calls cs fresh_index) = (Ok g, s1) ->
  seal_index_generation g (CarryNarrowed replaced) state narrowed s1 = (Ok tt, sn) ->
  seal_index_generation g CarryFull state full s1 = (Ok tt, sf) ->
  exists a b, index_graph g sn = Ok (Some a) /\ index_graph g sf = Ok (Some b) /\
    Permutation (pg_edges (ig_graph a)) (pg_edges (ig_graph b)) /\ reads_as (pg_edges (ig_graph a)) (flat_map new docs) /\
    forall d, d ∈ pg_documents (ig_graph a) <-> d ∈ pg_documents (ig_graph b).
Proof.
  intros Hprior Hlatest Hreads Hfrom Hdocs Hsame Hf Hnr Hdf Hdn Hv Hu Hur Hres Hsn Hsf.
  assert (Hold : forall d e, e ∈ old d -> sr_path (ie_from e) = d) by (intros; apply Hfrom; by left).
  assert (Hnew : forall d e, e ∈ new d -> sr_path (ie_from e) = d) by (intros; apply Hfrom; by right).
  destruct (reserved_seal _ _ _ _ _ _ _ Hres Hsn) as (db & dbn & carried & rows & Hdb & Hroot & Hg & Hcn & Hsdn).
  destruct (reserved_seal _ _ _ _ _ _ _ Hres Hsf) as (db' & dbf & carried' & rows' & Hdb' & _ & _ & Hcf & Hsdf).
  rewrite Hdb in Hdb'. injection Hdb' as <-. destruct (reserved_empty db g Hroot Hg) as [He Hd].
  destruct (latest_newest _ db p Hdb Hlatest) as [Hc0 Hnewest].
  pose proof (carried_prior p _ prior db g replaced carried Hc0 Hprior Hnewest Hg Hur (sl_carried _ _ _ _ _ _ _ _ Hsdn)) as Hcar.
  pose proof (fun k => cut_stores old new before docs replaced Hold Hnew Hdocs Hsame _ carried k Hreads Hcar) as Hstores.
  destruct (seal_reads_back _ _ _ _ _ _ _ _ _ Hsdn Hcn (reserved_newest db g Hg) He Hd) as (ea & da & Ha & Hea & _ & Hda);
    [rewrite Hnr; by eapply (cut_valid old new before docs replaced)|by rewrite Hdn|].
  pose proof (sl_carried _ _ _ _ _ _ _ _ Hsdf) as Hcar'. injection Hcar' as <-. cbn [app] in Hsdf.
  destruct (seal_reads_back _ _ _ _ _ _ _ _ _ Hsdf Hcf (reserved_newest db g Hg) He Hd) as (eb & dbs & Hb & Heb & _ & Hdb2);
    [cbn [app]; by rewrite Hf|by rewrite Hdf|].
  cbn [app] in Heb. rewrite Hnr in Hea. rewrite Hf in Heb.
  eexists _, _. split; [exact Ha|]. split; [exact Hb|]. cbn [ig_graph pg_edges pg_documents]. split_and!.
  - apply (reads_as_same _ _ _ _ Hea Heb). exact Hstores.
  - destruct Hea as [Hn Hm]. split; [done|]. intros e. by rewrite Hm, Hstores.
  - intros d. by rewrite Hda, Hdb2, Hdn, Hdf.
Qed.

(** * A concrete project *)

Module IndexSamples.
Definition edge (from : Path) (line : Z) (to : Path) : IndexEdge :=
  mkEdge (mkSource from (Some line) false) (mkSource to None false) EdgeImport Inferred 3 Certain.
Definition old_edges (d : Path) : list IndexEdge :=
  if decide (d = "src/a.rs") then [edge d 1 "src/b.rs"; edge d 2 "src/c.rs"]
  else if decide (d = "src/b.rs") then [edge d 7 "src/c.rs"]
  else [].
Definition new_edges (d : Path) : list IndexEdge :=
  if decide (d = "src/b.rs") then [edge d 9 "src/a.rs"] else old_edges d.
Definition documents : list Path := ["src/a.rs"; "src/b.rs"; "src/c.rs"].
Definition graph_of (edges : Path -> list IndexEdge) (ds : list Path) : ProjectGraph :=
  mkGraph (flat_map edges ds) Complete [] [] documents.
Definition first_graph : ProjectGraph := graph_of old_edges documents.
Definition second_graph : ProjectGraph := graph_of new_edges documents.
Definition narrowed_graph : ProjectGraph := graph_of new_edges ["src/b.rs"].
Definition built : list IndexCall := [Build (Ok first_graph)].
Definition reserved (cs : list IndexCall) : IStore := (reserve_index_generation (index_calls cs fresh_index)).2.
Definition db_of (s : IStore) : IndexDb := default empty_index (ts_conn s).
Definition prior : IndexGeneration :=
  match index_graph 1 (index_calls built fresh_index) with
  | Ok (Some g) => g | _ => mkIndexGeneration 0 Fresh first_graph
  end.
Definition busy : list IndexCall :=
  built ++ [Watch (mkBatch ["src/b.rs"] false false); Build (Err WorkerRefused); Build (Ok second_graph); Build (Ok second_graph)].

(** Sealing a number that was never reserved answers, keeps none of its rows, and
    supersedes the newest generation. *)
Example sealing_an_unknown_number :
  let '(answer, s) := seal_index_generation 9 CarryFull Fresh second_graph (index_calls built fresh_index) in
  answer = Ok tt /\ generations (db_of s) !! 9%Z = None /\ edges_of 9 (db_of s) = [] /\
  (gn_cause <$> generations (db_of s) !! 1%Z) = Some (Some "superseded").
Proof. vm_compute. repeat split. Qed.
End IndexSamples.
Import IndexSamples.

Lemma one_generation_is_current_witness : newest (db_of (index_calls busy fresh_index)) = Some 4%Z.
Proof.
  apply (one_generation_is_current busy (db_of (index_calls busy fresh_index)) 4).
  - vm_compute. tauto.
  - vm_compute. reflexivity.
  - eexists. vm_compute. split; reflexivity.
Defined.

Lemma an_interrupted_build_leaves_two_current_witness :
  let s2 := (reserve_index_generation (index_call Interrupt (index_calls built fresh_index))).2 in
  exists db3, ts_conn (seal_index_run 3 (Ok second_graph) s2).2 = Some db3 /\ current 1 db3 /\ current 3 db3.
Proof.
  destruct (an_interrupted_build_leaves_two_current (index_calls built fresh_index) (db_of (index_calls built fresh_index)) 1 3 second_graph
    (index_call Interrupt (index_calls built fresh_index))
    (reserve_index_generation (index_call Interrupt (index_calls built fresh_index))).2
    (seal_index_run 3 (Ok second_graph) (reserve_index_generation (index_call Interrupt (index_calls built fresh_index))).2).2)
    as (db3 & H1 & _ & H2 & H3).
  - vm_compute. reflexivity.
  - vm_compute. reflexivity.
  - eexists. vm_compute. split; reflexivity.
  - reflexivity.
  - vm_compute. reflexivity.
  - reflexivity.
  - vm_compute. reflexivity.
  - exists db3. split; [exact H1|]. split; [exact H2|exact H3].
Defined.

Lemma numbers_are_never_reissued_witness : (2 < 7)%Z /\ rooted (db_of (index_calls busy (reserved built))).
Proof.
  apply (numbers_are_never_reissued built busy 2 7 (reserved built) (reserve_index_generation (index_calls busy (reserved built))).2
    (db_of (index_calls busy (reserved built)))); vm_compute; reflexivity.
Defined.

(** A document whose run derives one edge twice, the second time surer. *)
Definition twice : ProjectGraph :=
  mkGraph [edge "src/a.rs" 1 "src/b.rs"; mkEdge (mkSource "src/a.rs" (Some 1%Z) false) (mkSource "src/b.rs" None false) EdgeImport Inferred 4 Certain]
    Complete [] [] documents.

Lemma a_sealed_generation_reads_back_witness :
  exists edges, (exists documents, index_graph 2 (seal_index_generation 2 CarryFull Fresh twice (reserved built)).2 =
      Ok (Some (mkIndexGeneration 2 Fresh (mkGraph edges Complete [] [] documents)))) /\
    NoDup (map edge_identity edges) /\ (edge "src/a.rs" 1 "src/b.rs" ∉ edges).
Proof.
  destruct (a_sealed_generation_reads_back built 2 (reserved built) Fresh twice
    (seal_index_generation 2 CarryFull Fresh twice (reserved built)).2) as (edges & docs & Hi & Hn & Hm & _).
  - vm_compute. reflexivity.
  - vm_compute. reflexivity.
  - apply edges_ok. vm_compute. reflexivity.
  - vm_compute. repeat constructor.
  - exists edges. split; [exists docs; exact Hi|]. split; [exact Hn|]. intros H. apply Hm in H. vm_compute in H. discriminate H.
Defined.

Lemma a_narrowed_build_is_the_full_one_witness :
  exists a b, index_graph 2 (seal_index_generation 2 (CarryNarrowed ["src/b.rs"]) Fresh narrowed_graph (reserved built)).2 = Ok (Some a) /\
    index_graph 2 (seal_index_generation 2 CarryFull Fresh second_graph (reserved built)).2 = Ok (Some b) /\
    Permutation (pg_edges (ig_graph a)) (pg_edges (ig_graph b)).
Proof.
  destruct (a_narrowed_build_is_the_full_one built 1 prior 2 (reserved built)
    (seal_index_generation 2 (CarryNarrowed ["src/b.rs"]) Fresh narrowed_graph (reserved built)).2
    (seal_index_generation 2 CarryFull Fresh second_graph (reserved built)).2
    ["src/b.rs"] old_edges new_edges documents documents narrowed_graph second_graph Fresh) as (a & b & Ha & Hb & Hp & _).
  - vm_compute. reflexivity.
  - vm_compute. reflexivity.
  - assert (E : pg_edges (ig_graph prior) = flat_map old_edges documents) by (vm_compute; reflexivity). rewrite E.
    apply distinct_reads_as. apply (bool_decide_unpack _). vm_compute. exact I.
  - intros d e. unfold new_edges, old_edges. repeat case_decide; subst; intros [Hin|Hin];
      repeat (apply elem_of_cons in Hin as [->|Hin]; [reflexivity|]); by apply elem_of_nil in Hin.
  - intros d _. reflexivity.
  - intros d _ Hd. unfold new_edges. rewrite decide_False; [reflexivity|]. intros ->. apply Hd. left.
  - reflexivity.
  - reflexivity.
  - reflexivity.
  - reflexivity.
  - apply edges_ok. vm_compute. reflexivity.
  - vm_compute. repeat constructor.
  - vm_compute. repeat constructor.
  - vm_compute. reflexivity.
  - vm_compute. reflexivity.
  - vm_compute. reflexivity.
  - exists a, b. split; [exact Ha|]. split; [exact Hb|exact Hp].
Defined.
