(* ===== verification/LedgerThms.v ===== *)
(** The balance of the budget ledger: what a scope reserves is what its open
    reservations hold, what it spent is what its charged ones cost, and both stay
    under its limit.  Every step of every call keeps it. *)

From stdpp Require Import sorting.
From S2P Require Import Prelude.
From S2P Require Import Contracts.
From S2P Require Import Requests.
From S2P Require Import Notifications.
From S2P Require Import Store.
From S2P Require Import TaskDb.
From S2P Require Import Routes.
From S2P Require Import LedgerDb.
From S2P Require Import Ledger.
From S2P Require Import Sends.
From S2P Require Import LedgerCalls.

(** * The abstract account of a scope *)

Definition held_of (r : ReservationRow) : Z := if decide (br_state r = RsReserved) then br_bound r else 0.
Definition cost_of (r : ReservationRow) : Z :=
  if decide (br_state r = RsCharged) then default (br_bound r) (br_charged r) else 0.
Definition at_scope (f : ReservationRow -> Z) (scope : string) (r : ReservationRow) : Z :=
  if decide (br_scope r = scope) then f r else 0.

(** What the open reservations of a scope hold, and what its charged ones cost. *)
Definition held (scope : string) (rs : list ReservationRow) : Z := zsum (at_scope held_of scope) rs.
Definition costs (scope : string) (rs : list ReservationRow) : Z := zsum (at_scope cost_of scope) rs.

Definition reservation_key (r : ReservationRow) : string * string := (br_id r, br_scope r).

Record ledger_inv (db : LedgerDb) : Prop := mkLedgerInv {
  li_keys : NoDup (map reservation_key (reservations db));
  li_scopes : forall scope row, scopes db !! scope = Some row ->
    bs_reserved row = held scope (reservations db) /\ bs_spent row = costs scope (reservations db) /\
    (bs_spent row + bs_reserved row <= bs_limit row <= i64_max)%Z;
  li_rows : forall r, r ∈ reservations db ->
    (0 <= br_bound r)%Z /\ is_Some (scopes db !! br_scope r) /\
    (forall c, br_charged r = Some c -> 0 <= c <= br_bound r)%Z;
  li_bounds : forall s, s ∈ settlements db -> (0 <= se_bound s)%Z;
}.

(** Every row of a ledger that balances adds nonnegative amounts. *)
Lemma held_of_nonneg r : (0 <= br_bound r)%Z -> (0 <= held_of r)%Z.
Proof. unfold held_of. case_decide; lia. Qed.

Lemma cost_of_nonneg r :
  (0 <= br_bound r)%Z -> (forall c, br_charged r = Some c -> 0 <= c <= br_bound r)%Z -> (0 <= cost_of r)%Z.
Proof. unfold cost_of. intros Hb Hc. case_decide; [|lia]. destruct (br_charged r); simpl; [naive_solver lia|lia]. Qed.

Lemma zsum_mem {A} (f : A -> Z) l : (forall x, x ∈ l -> 0 <= f x)%Z -> (0 <= zsum f l)%Z.
Proof.
  induction l as [|x l IH]; simpl; [done|]. intros Hf.
  pose proof (Hf x ltac:(left)). specialize (IH ltac:(intros; apply Hf; by right)). lia.
Qed.

Lemma zsum_elem_le {A} (f : A -> Z) l x : (forall x, x ∈ l -> 0 <= f x)%Z -> x ∈ l -> (f x <= zsum f l)%Z.
Proof.
  intros Hf (l1 & l2 & ->)%list_elem_of_split. rewrite zsum_app. simpl.
  assert (0 <= zsum f l1)%Z by (apply zsum_mem; set_solver).
  assert (0 <= zsum f l2)%Z by (apply zsum_mem; set_solver). lia.
Qed.

(** A change of one row of a list changes its sum by that row. *)
Lemma zsum_map_one {A} (f : A -> Z) (g : A -> A) l x :
  NoDup l -> x ∈ l -> (forall y, y ∈ l -> y <> x -> f (g y) = f y) -> zsum f (map g l) = (zsum f l - f x + f (g x))%Z.
Proof.
  intros Hnd Hx Hg. induction l as [|y l IH]; [by apply elem_of_nil in Hx|].
  apply NoDup_cons in Hnd as [Hy Hnd]. simpl. apply elem_of_cons in Hx as [->|Hx].
  - assert (zsum f (map g l) = zsum f l) as ->; [|lia].
    clear IH. induction l as [|z l IH]; [done|]. apply not_elem_of_cons in Hy as [Hne Hy].
    apply NoDup_cons in Hnd as [_ Hnd]. simpl. rewrite (Hg z), IH; [done|done|done| |set_solver|done].
    intros w Hw. apply Hg. set_solver.
  - rewrite IH, (Hg y); [lia|left|by intros ->|done|done|]. intros w Hw. apply Hg. by right.
Qed.

Lemma zsum_map_none {A} (f : A -> Z) (g : A -> A) l :
  (forall y, y ∈ l -> f (g y) = f y) -> zsum f (map g l) = zsum f l.
Proof.
  induction l as [|y l IH]; intros Hg; simpl; [done|]. rewrite (Hg y), IH; [done| |left].
  intros z Hz. apply Hg. by right.
Qed.

Lemma zsum_snoc {A} (f : A -> Z) l x : zsum f (l ++ [x]) = (zsum f l + f x)%Z.
Proof. rewrite zsum_app. simpl. lia. Qed.

#[local] Arguments zsum : simpl never.
#[local] Arguments held : simpl never.
#[local] Arguments costs : simpl never.

Lemma held_snoc scope rs r : held scope (rs ++ [r]) = (held scope rs + at_scope held_of scope r)%Z.
Proof. apply zsum_snoc. Qed.
Lemma costs_snoc scope rs r : costs scope (rs ++ [r]) = (costs scope rs + at_scope cost_of scope r)%Z.
Proof. apply zsum_snoc. Qed.

Section balanced.
Context (db : LedgerDb) (Hinv : ledger_inv db).

Lemma costs_nonneg scope : (0 <= costs scope (reservations db))%Z.
Proof.
  apply zsum_mem. intros r Hr. unfold at_scope. case_decide; [|lia].
  destruct (li_rows db Hinv r Hr) as (? & _ & ?). by apply cost_of_nonneg.
Qed.

Lemma held_nonneg scope : (0 <= held scope (reservations db))%Z.
Proof.
  apply zsum_mem. intros r Hr. unfold at_scope. case_decide; [|lia].
  destruct (li_rows db Hinv r Hr) as (? & _ & ?). by apply held_of_nonneg.
Qed.

Lemma held_at_least r :
  r ∈ reservations db -> br_state r = RsReserved -> (br_bound r <= held (br_scope r) (reservations db))%Z.
Proof.
  intros Hr Hs. unfold held. etrans; [|apply (zsum_elem_le _ _ r); [|done]].
  - unfold at_scope, held_of. by rewrite !decide_True by done.
  - intros q Hq. unfold at_scope. case_decide; [|lia]. destruct (li_rows db Hinv q Hq) as (? & _ & ?).
    by apply held_of_nonneg.
Qed.
End balanced.

(** * Statements *)

(** Steps over the reading of the database. *)
Ltac tx_got H :=
  let E := fresh "E" in
  apply tx_bind_Ok in H as (? & ? & E & H); unfold tx_get in E; injection E as <- <-.

Lemma update_scope_Ok scope guard f db b db' :
  update_scope scope guard f db = Ok (b, db') ->
  if b then exists row, scopes db !! scope = Some row /\ guard row = true /\ scope_fits (f row) = true /\
       db' = on_scopes (<[scope := f row]>) db
  else db' = db.
Proof.
  unfold update_scope. destruct (scopes db !! scope) as [row|] eqn:E; [|by intros [= <- <-]].
  destruct (guard row) eqn:Eg; [|by intros [= <- <-]]. destruct (scope_fits (f row)) eqn:Ef; [|done].
  intros [= <- <-]. by exists row.
Qed.

Lemma insert_scope_keeps scope limit db db' :
  (0 <= limit <= i64_max)%Z -> insert_scope scope limit db = Ok (tt, db') -> ledger_inv db -> ledger_inv db'.
Proof.
  intros Hl. unfold insert_scope. destruct (scopes db !! scope) eqn:E; [done|]. intros [= <-] [K S R B].
  assert (Hno : forall r, r ∈ reservations db -> br_scope r <> scope).
  { intros r Hr <-. destruct (R r Hr) as (_ & Hs & _). rewrite E in Hs. by destruct Hs. }
  split; cbn; [done| | |done].
  - intros sc row [[<- <-]|[Hne Hrow]]%lookup_insert_Some; [|by apply S].
    cbn. unfold held, costs. rewrite !zsum_zero; [lia|..];
      intros i r Hr%list_elem_of_lookup_2; unfold at_scope; by rewrite decide_False by auto.
  - intros r Hr. destruct (R r Hr) as (? & ? & ?). split_and!; [done| |done].
    destruct (decide (scope = br_scope r)) as [->|]; [by rewrite lookup_insert_eq|by rewrite lookup_insert_ne].
Qed.

Lemma reserve_one_keeps id bound scope db db' :
  (0 <= bound <= i64_max)%Z -> reserve_one id bound scope db = Ok (tt, db') -> ledger_inv db -> ledger_inv db'.
Proof.
  unfold reserve_one. intros Hb H Hinv. inv_tx. unfold reserve_scope in H0. apply update_scope_Ok in H0.
  destruct a; [|by inv_tx]. destruct H0 as (row & Hrow & Hg & _ & ->). apply bool_decide_eq_true_1 in Hg.
  unfold insert_reservation in H1. destruct (existsb _ _) eqn:Hex; [done|]. injection H1 as <-.
  destruct Hinv as [K S R B]. split; cbn.
  - rewrite map_app, NoDup_app. split_and!; [done| |apply NoDup_singleton].
    intros k Hk ->%list_elem_of_singleton. apply list_elem_of_fmap in Hk as (r & Hk & Hr).
    apply not_true_iff_false in Hex. apply Hex, existsb_exists. exists r. rewrite <- list_elem_of_In. split; [done|].
    apply bool_decide_eq_true_2. by injection Hk.
  - intros sc row' Hl. rewrite held_snoc, costs_snoc. unfold at_scope, held_of, cost_of. cbn.
    apply lookup_insert_Some in Hl as [[<- <-]|[Hne Hl]].
    + cbn. rewrite !decide_True by done. rewrite decide_False by done.
      destruct (S scope row Hrow) as (E1 & E2 & ?). lia.
    + rewrite !(decide_False (P := scope = sc)) by done. destruct (S sc row' Hl) as (E1 & E2 & ?). lia.
  - intros r [Hr| ->%list_elem_of_singleton]%elem_of_app; cbn.
    + destruct (R r Hr) as (? & ? & ?). split_and!; [done| |done].
      destruct (decide (scope = br_scope r)) as [->|]; [by rewrite lookup_insert_eq|by rewrite lookup_insert_ne].
    + split_and!; [lia|by rewrite lookup_insert_eq|done].
  - done.
Qed.

Lemma each_keeps {A} (P : LedgerDb -> Prop) (f : A -> ltx unit) l db db' :
  (forall a db db', a ∈ l -> f a db = Ok (tt, db') -> P db -> P db') -> each f l db = Ok (tt, db') -> P db -> P db'.
Proof.
  revert db. induction l as [|a l IH]; intros db Hf H Hdb; simpl in H; inv_tx; [done|].
  destruct a0. eapply IH; [|done|].
  - intros b db1 db2 Hb. apply Hf. by right.
  - eapply Hf; [left|done|done].
Qed.

(** ** Resolving a reservation *)

(** What resolving one row of a reservation does to its scope. *)
Definition resolved (confirmed : option Z) (release : bool) (r : ReservationRow) (row : ScopeRow) : ScopeRow :=
  if release then mkScope (bs_limit row) (bs_spent row) (bs_reserved row - br_bound r)
  else mkScope (bs_limit row) (bs_spent row + default (br_bound r) confirmed) (bs_reserved row - br_bound r).

Lemma insert_alter_scope (m : gmap string ScopeRow) scope row f :
  m !! scope = Some row -> <[scope := f row]> m = alter f scope m.
Proof.
  intros Hr. apply map_eq. intros k. destruct (decide (scope = k)) as [<-|Hne].
  - by rewrite lookup_insert_eq, lookup_alter_eq, Hr.
  - by rewrite lookup_insert_ne, lookup_alter_ne.
Qed.

Lemma alter_missing_scope (m : gmap string ScopeRow) scope f : m !! scope = None -> alter f scope m = m.
Proof. intros Hr. apply map_eq. intros k. destruct (decide (scope = k)) as [<-|]; [by rewrite lookup_alter_eq, Hr|by rewrite lookup_alter_ne]. Qed.

Lemma on_scopes_id db : on_scopes (fun m => m) db = db.
Proof. by destruct db. Qed.

Lemma resolve_scope_Ok confirmed release r db db' :
  resolve_scope confirmed release r db = Ok (tt, db') ->
  db' = on_scopes (alter (resolved confirmed release r) (br_scope r)) db /\
  (release = false -> forall c, confirmed = Some c -> (c <= br_bound r)%Z).
Proof.
  unfold resolve_scope, resolved. destruct release.
  - intros H. inv_tx. split; [|done]. unfold release_scope in *.
    match goal with H : update_scope _ _ _ _ = Ok _ |- _ =>
      revert H; unfold update_scope; destruct (scopes db !! br_scope r) as [row|] eqn:E end.
    + simpl. case_match; [|done]. intros [= <- <-]. unfold on_scopes. simpl. by erewrite <- insert_alter_scope by done.
    + intros [= <- <-]. unfold on_scopes. rewrite alter_missing_scope by done. by destruct db.
  - intros H. inv_tx.
    assert (db0 = db /\ forall c, confirmed = Some c -> (c <= br_bound r)%Z) as [-> Hc].
    { destruct confirmed as [c|]; [|inv_tx; split; [done|congruence]].
      case_decide; [by inv_tx|]. inv_tx. split; [done|]. intros c' [= <-]. lia. }
    split; [|done]. destruct a0; [|by inv_tx]. inv_tx.
    match goal with H : charge_scope _ _ _ _ = Ok _ |- _ => apply update_scope_Ok in H as (row & Hrow & _ & _ & ->) end.
    unfold on_scopes. simpl. by erewrite <- insert_alter_scope by done.
Qed.

Definition resolve_all (confirmed : option Z) (release : bool) (rows : list ReservationRow)
    (m : gmap string ScopeRow) : gmap string ScopeRow :=
  fold_left (fun m r => alter (resolved confirmed release r) (br_scope r) m) rows m.

Lemma each_resolve confirmed release rows db db' :
  each (resolve_scope confirmed release) rows db = Ok (tt, db') ->
  db' = on_scopes (resolve_all confirmed release rows) db /\
  (release = false -> forall r c, r ∈ rows -> confirmed = Some c -> (c <= br_bound r)%Z).
Proof.
  revert db. induction rows as [|r rows IH]; intros db H; simpl in H; inv_tx.
  - split; [by destruct db'|]. by intros _ r c Hr%elem_of_nil.
  - destruct a. apply resolve_scope_Ok in H0 as [-> Hc]. apply IH in H1 as [-> Hcs]. split; [done|].
    intros Hrel q c [->|Hq]%elem_of_cons; [by apply Hc|by apply Hcs].
Qed.

Lemma resolve_all_lookup confirmed release rows m scope :
  NoDup (map br_scope rows) ->
  resolve_all confirmed release rows m !! scope =
    match find (fun r => bool_decide (br_scope r = scope)) rows with
    | Some r => resolved confirmed release r <$> m !! scope
    | None => m !! scope
    end.
Proof.
  unfold resolve_all. revert m. induction rows as [|r rows IH]; intros m Hnd; [done|].
  cbn [map] in Hnd. apply NoDup_cons in Hnd as [Hr Hnd]. cbn [fold_left]. rewrite IH, find_cons by done.
  case_bool_decide as Hs.
  - subst scope. assert (find (fun q => bool_decide (br_scope q = br_scope r)) rows = None) as ->.
    { apply find_None, Forall_forall. intros q Hq. apply bool_decide_eq_false_2. intros He. apply Hr. rewrite <- He.
      by apply list_elem_of_fmap_2. }
    by rewrite lookup_alter_eq.
  - case_match; by rewrite lookup_alter_ne.
Qed.

Lemma reservation_rows_spec id db r : r ∈ reservation_rows id db <-> br_id r = id /\ r ∈ reservations db.
Proof. unfold reservation_rows. by rewrite merge_sort_Permutation, list_elem_of_filter. Qed.

Lemma reservation_rows_NoDup id db :
  NoDup (map reservation_key (reservations db)) -> NoDup (map br_scope (reservation_rows id db)).
Proof.
  intros Hk. unfold reservation_rows. rewrite merge_sort_Permutation.
  induction (reservations db) as [|r rs IH]; [constructor|]. cbn [map] in Hk. apply NoDup_cons in Hk as [Hr Hk].
  rewrite filter_cons. case_decide as Hid; [|by apply IH]. cbn [map]. apply NoDup_cons. split; [|by apply IH].
  intros (q & Hs & [Hq Hin]%list_elem_of_filter)%list_elem_of_fmap. apply Hr, list_elem_of_fmap. exists q.
  unfold reservation_key. split; [by rewrite Hs, Hq, Hid|done].
Qed.

(** What a successful resolution did. *)
Lemma resolve_Ok id terminal confirmed release db db' :
  resolve_reservation_tx id terminal confirmed release db = Ok (tt, db') ->
  reservation_rows id db <> [] /\ (forall r, r ∈ reservation_rows id db -> br_state r = RsReserved) /\
  (release = false -> forall r c, r ∈ reservation_rows id db -> confirmed = Some c -> (c <= br_bound r)%Z) /\
  db' = on_reservations (set_reservation_state id terminal confirmed)
          (on_scopes (resolve_all confirmed release (reservation_rows id db)) db).
Proof.
  unfold resolve_reservation_tx. intros H. tx_got H. destruct (reservation_rows id db) as [|r0 rows0] eqn:Er; [done|].
  rewrite <- Er in *. assert (reservation_rows id db <> []) as Hne by (by rewrite Er). clear r0 rows0 Er.
  destruct (find _ _) as [|] eqn:Ef; [done|]. inv_tx. destruct a.
  apply each_resolve in H0 as [-> Hc]. split_and!; [done| |done|done].
  apply find_None in Ef. rewrite Forall_forall in Ef. intros r Hr. specialize (Ef r Hr).
  apply negb_false_iff, bool_decide_eq_true_1 in Ef. done.
Qed.

Lemma resolve_all_dom confirmed release rows m scope :
  is_Some (resolve_all confirmed release rows m !! scope) <-> is_Some (m !! scope).
Proof.
  unfold resolve_all. revert m. induction rows as [|r rows IH]; intros m; [done|]. cbn [fold_left]. rewrite IH.
  destruct (decide (br_scope r = scope)) as [<-|]; [|by rewrite lookup_alter_ne].
  by rewrite lookup_alter_eq, fmap_is_Some.
Qed.

(** The part of a reservation's rows at one scope. *)
Lemma resolved_sum (f : ReservationRow -> Z) id terminal confirmed rs scope :
  NoDup (map reservation_key rs) ->
  zsum (at_scope f scope) (set_reservation_state id terminal confirmed rs) =
    (zsum (at_scope f scope) rs +
     match find (fun r => bool_decide (br_scope r = scope)) (filter (fun r => br_id r = id) rs) with
     | Some r => f (mkReservation id scope (br_bound r) terminal confirmed) - f r
     | None => 0
     end)%Z.
Proof.
  intros Hk. unfold set_reservation_state.
  assert (Hother : forall y, br_id y <> id \/ br_scope y <> scope ->
    at_scope f scope (if decide (br_id y = id)
                      then mkReservation (br_id y) (br_scope y) (br_bound y) terminal confirmed else y) = at_scope f scope y).
  { intros y [Hy|Hy]; [by rewrite decide_False|]. case_decide; [|done]. unfold at_scope. by rewrite !decide_False. }
  destruct (find _ _) as [r|] eqn:Ef.
  - apply find_Some in Ef as [[Hid Hr]%list_elem_of_filter Hs%bool_decide_eq_true_1].
    erewrite (zsum_map_one _ _ rs r); [|by eapply NoDup_fmap_1|done|].
    + rewrite (decide_True (P := br_id r = id)) by done. unfold at_scope. cbn. rewrite !decide_True by done.
      rewrite Hid, Hs. lia.
    + intros y Hy Hne. apply Hother. destruct (decide (br_id y = id)) as [Hyi|]; [right|by left]. intros Hys.
      apply Hne. apply list_elem_of_lookup in Hy as [i Hi]. apply list_elem_of_lookup in Hr as [j Hj].
      assert (i = j) as <-; [|congruence]. eapply (NoDup_lookup _ _ _ (reservation_key y)); [done|..];
        rewrite list_lookup_fmap, ?Hi, ?Hj; [done|]. cbn. unfold reservation_key. by rewrite Hid, Hs, Hyi, Hys.
  - rewrite zsum_map_none; [lia|]. intros y Hy. apply Hother. destruct (decide (br_id y = id)) as [Hyi|]; [right|by left].
    intros Hys. apply find_None in Ef. rewrite Forall_forall in Ef.
    specialize (Ef y ltac:(by apply list_elem_of_filter)). by apply bool_decide_eq_false_1 in Ef.
Qed.

Lemma find_permutation_scope rows rows' scope :
  Permutation rows rows' -> NoDup (map br_scope rows) ->
  find (fun r => bool_decide (br_scope r = scope)) rows = find (fun r => bool_decide (br_scope r = scope)) rows'.
Proof.
  intros HP. induction HP as [|x l l' HP IH|x y l|l1 l2 l3 HP1 IH1 HP2 IH2]; intros Hnd; [done|..].
  - cbn [map] in Hnd. apply NoDup_cons in Hnd as [_ Hnd]. rewrite !find_cons. by rewrite IH.
  - rewrite !find_cons. cbn [map] in Hnd. do 2 case_bool_decide; try done. apply NoDup_cons in Hnd as [Hn _].
    exfalso. apply Hn, elem_of_cons. left. congruence.
  - rewrite IH1, IH2; [done| |done]. by rewrite <- HP1.
Qed.

Lemma resolve_keeps id terminal confirmed (release : bool) db db' :
  (if release then terminal = RsReleased /\ confirmed = None
   else terminal = RsCharged /\ (forall c, confirmed = Some c -> 0 <= c)%Z) ->
  resolve_reservation_tx id terminal confirmed release db = Ok (tt, db') -> ledger_inv db -> ledger_inv db'.
Proof.
  intros Hmode (Hne & Hopen & Hc & ->)%resolve_Ok Hinv. pose proof Hinv as [K S R B].
  set (rs := reservations db) in *.
  assert (Hcost : forall r, r ∈ reservation_rows id db -> (forall c, confirmed = Some c -> 0 <= c <= br_bound r)%Z).
  { intros r Hr c ->. destruct release; [by destruct Hmode|]. destruct Hmode as [_ Hn]. split; [by apply Hn|by eapply Hc]. }
  split; cbn [on_reservations on_scopes reservations scopes settlements]; [| | |done].
  - fold rs. unfold set_reservation_state. rewrite map_map. erewrite map_ext; [done|]. intros r. by case_decide.
  - intros scope row. rewrite resolve_all_lookup by by apply reservation_rows_NoDup.
    unfold held, costs. fold rs. rewrite !resolved_sum by done. fold (held scope rs) (costs scope rs).
    assert (Hp : Permutation (reservation_rows id db) (filter (fun r => br_id r = id) rs))
      by apply merge_sort_Permutation.
    pose proof (find_permutation_scope _ _ scope Hp (reservation_rows_NoDup id db K)) as Hfind.
    rewrite <- Hfind. clear Hfind Hp.
    destruct (find _ _) as [r|] eqn:Ef; [|intros Hrow; destruct (S scope row Hrow); lia].
    apply find_Some in Ef as [Hr Hs%bool_decide_eq_true_1]. destruct (scopes db !! scope) as [row0|] eqn:E; [|done].
    cbn. intros [= <-]. destruct (S scope row0 E) as (E1 & E2 & E3).
    pose proof (Hopen r Hr) as Hst. pose proof (Hcost r Hr) as Hcr.
    apply reservation_rows_spec in Hr as [Hid Hin]. destruct (R r Hin) as (Hb & _ & _).
    unfold held_of, cost_of, resolved. rewrite Hst. cbn.
    rewrite (decide_True (P := RsReserved = RsReserved)), (decide_False (P := RsReserved = RsCharged)) by done.
    destruct release; destruct Hmode as [-> Hm]; cbn.
    + rewrite !decide_False by done. lia.
    + rewrite decide_False, decide_True by done. destruct confirmed as [c|]; cbn; [specialize (Hcr c eq_refl)|]; lia.
  - intros r. fold rs. unfold set_reservation_state. intros (q & -> & Hq)%list_elem_of_fmap. destruct (R q Hq) as (? & ? & ?).
    rewrite resolve_all_dom. case_decide as Hid; cbn; [|done]. split_and!; [done|done|].
    apply Hcost. by apply reservation_rows_spec.
Qed.

(** * Every step *)

(** The tables a statement leaves alone. *)
Record same_budgets (db db' : LedgerDb) : Prop := mkSameBudgets {
  sb_scopes : scopes db' = scopes db;
  sb_reservations : reservations db' = reservations db;
  sb_settlements : forall s', s' ∈ settlements db' -> (0 <= se_bound s')%Z \/ exists s, s ∈ settlements db /\ se_bound s = se_bound s';
}.

Lemma ledger_inv_frame db db' : same_budgets db db' -> ledger_inv db -> ledger_inv db'.
Proof.
  intros [E1 E2 E3] [K S R B]. split; rewrite ?E1, ?E2; [done|done|done|].
  intros s' [?|(s & Hs & <-)]%E3; [done|by apply B].
Qed.

Lemma update_totals_Ok f db db' :
  update_totals f db = Ok (tt, db') ->
  exists totals, db' = on_totals (fun _ => totals) db /\
    totals = f <$> usage_totals db /\ (forall t, totals = Some t -> totals_fit t = true).
Proof.
  unfold update_totals. destruct (usage_totals db) as [t|] eqn:E.
  - destruct (totals_fit (f t)) eqn:Ef; [|done]. intros [= <-]. exists (Some (f t)). by split_and!; [..|intros ? [= <-]].
  - intros [= <-]. exists None. split_and!; [|done..]. unfold on_totals. destruct db; simpl in *. by rewrite E.
Qed.

Lemma check_send_bound_Ok scope db db' : check_send_bound scope db = Ok (tt, db') -> db' = db.
Proof.
  unfold check_send_bound. intros H. inv_tx. destruct (work_budgets db !! scope) as [w|]; [|by inv_tx].
  case_match; by inv_tx.
Qed.

Lemma each_check_Ok names db db' : each check_send_bound names db = Ok (tt, db') -> db' = db.
Proof.
  revert db. induction names as [|n names IH]; intros db H; simpl in H; inv_tx; [done|].
  destruct a. apply check_send_bound_Ok in H0 as ->. by apply IH.
Qed.

(** What a successful dispatch did, one statement at a time. *)
Lemma begin_send_Ok names context attempt bound db open db' :
  begin_send_tx names context attempt bound db = Ok (open, db') ->
  open = open_scopes names db /\ settlement_row attempt db = None /\
  exists db1 t rowid,
    each (reserve_one attempt bound) open db = Ok (tt, db1) /\ usage_totals db1 = Some t /\
    rowid = Z.max (ut_next_rowid t) (default 0%Z (max_rowid (settlements db1)) + 1) /\
    (forall row, row ∈ settlements db1 -> se_attempt row <> attempt /\ se_rowid row <> rowid) /\
    db' = on_settlements (fun rows => rows ++
            [mkSettlement rowid attempt (sx_parent_attempt_id context) (sx_purpose context) (sx_connection context)
               (sx_ranking_basis context) bound Dispatched UnknownExactness None 0 default_bins None])
          (on_totals (fun _ => Some (mkTotals (ut_settled t) (ut_without_total t) (ut_total_tokens t)
             (ut_charged_count t) (ut_charged_units t) (ut_latest_prompt t) (ut_dispatched t + 1) (rowid + 1))) db1).
Proof.
  unfold begin_send_tx. intros H. tx_got H.
  destruct (settlement_row attempt db) eqn:Es; [done|].
  apply tx_bind_Ok in H as ([] & db1 & Hc & H). apply each_check_Ok in Hc as ->.
  apply tx_bind_Ok in H as ([] & db1 & Hr & H). apply tx_bind_Ok in H as (rowid & db2 & Hn & H).
  apply tx_bind_Ok in H as ([] & db3 & Hi & H). unfold tx_ret in H. injection H as <- <-.
  split_and!; [done|done|]. unfold next_settlement_rowid in Hn.
  tx_got Hn.
  apply tx_bind_Ok in Hn as (t & y & E & Hn). unfold tx_lift in E.
  destruct (usage_totals db1) as [t0|] eqn:Et; [|done]. simpl in E. injection E as <- <-.
  apply tx_bind_Ok in Hn as ([] & y & E & Hn). apply update_totals_Ok in E as (totals & -> & -> & _).
  rewrite Et in *. simpl in Hn. unfold tx_ret in Hn. injection Hn as <- <-.
  unfold insert_settlement in Hi. destruct (existsb _ _) eqn:Hex; [done|]. injection Hi as <-.
  exists db1, t0, (Z.max (ut_next_rowid t0) (default 0%Z (max_rowid (settlements db1)) + 1)).
  split_and!; [done|done|done| |].
  - intros row Hrow. apply not_true_iff_false in Hex.
    split; intros E; apply Hex, existsb_exists; exists row; rewrite <- list_elem_of_In; (split; [done|]);
      apply bool_decide_eq_true_2; [by left|right; lia].
  - simpl. by rewrite !Z.add_simpl_r.
Qed.

Lemma reserve_one_frame id bound scope db db' :
  reserve_one id bound scope db = Ok (tt, db') ->
  settlements db' = settlements db /\ usage_totals db' = usage_totals db /\ work_budgets db' = work_budgets db /\
  sharing_grants db' = sharing_grants db /\ task_db db' = task_db db.
Proof.
  unfold reserve_one. intros H. inv_tx. apply update_scope_Ok in H0. destruct a; [|by inv_tx].
  destruct H0 as (row & _ & _ & _ & ->). unfold insert_reservation in H1. case_match; [done|]. by injection H1 as <-.
Qed.

Lemma each_reserve_frame id bound names db db' :
  each (reserve_one id bound) names db = Ok (tt, db') ->
  settlements db' = settlements db /\ usage_totals db' = usage_totals db /\ work_budgets db' = work_budgets db /\
  sharing_grants db' = sharing_grants db /\ task_db db' = task_db db.
Proof.
  intros H. eapply (each_keeps (fun db' => settlements db' = settlements db /\ usage_totals db' = usage_totals db /\
    work_budgets db' = work_budgets db /\ sharing_grants db' = sharing_grants db /\ task_db db' = task_db db)
    (reserve_one id bound)); [|done|done].
  intros scope db1 db2 _ (-> & -> & -> & -> & ->)%reserve_one_frame. done.
Qed.

(** What closing a row did. *)
Definition close_row (attempt : string) (exactness : Exactness) (unknown : option string) (retries : Z)
    (bins : UsageBins) (charged : option Z) (row : SettlementRow) : SettlementRow :=
  if bool_decide (se_attempt row = attempt /\ se_state row = Dispatched)
  then settled_row exactness unknown retries bins charged row else row.

(** The totals' row after one close. *)
Definition closed_totals (attempt : string) (bins : UsageBins) (charged : option Z) (db : LedgerDb) (t : TotalsRow) : TotalsRow :=
  mkTotals (ut_settled t + 1)
    (ut_without_total t + match l_total_tokens bins with Some _ => 0 | None => 1 end)
    (Some (default 0 (ut_total_tokens t) + default 0 (l_total_tokens bins))%Z)
    (ut_charged_count t + match charged with Some _ => 1 | None => 0 end)
    (Some (default 0 (ut_charged_units t) + default 0 charged)%Z)
    (match settlement_row attempt db, max_rowid (settled_rows db) with
     | Some row, Some newest => if decide (se_rowid row = newest) then l_prompt_tokens bins else ut_latest_prompt t
     | _, _ => ut_latest_prompt t
     end)
    (Z.max (ut_dispatched t - 1) 0)
    (ut_next_rowid t).

Definition after_close attempt exactness unknown retries bins charged (db : LedgerDb) : LedgerDb :=
  on_settlements (map (close_row attempt exactness unknown retries bins charged)) db.

Lemma finish_send_Ok attempt (reserved : bool) exactness unknown retries bins charged db db' :
  finish_send_tx attempt reserved exactness unknown retries bins charged db = Ok (tt, db') ->
  (exists row, row ∈ settlements db /\ se_attempt row = attempt /\ se_state row = Dispatched) /\
  exists db1,
    let closed := after_close attempt exactness unknown retries bins charged db in
    db1 = on_totals (fun _ => closed_totals attempt bins charged closed <$> usage_totals db) closed /\
    if reserved then resolve_reservation_tx attempt RsCharged charged false db1 = Ok (tt, db') else db' = db1.
Proof.
  unfold finish_send_tx. intros H. apply tx_bind_Ok in H as (settled & db1 & Hs & H).
  unfold settle_settlement in Hs. injection Hs as <- <-.
  destruct (existsb _ _) eqn:Hex; simpl in H; [|by inv_tx]. split.
  { apply existsb_exists in Hex as (row & Hrow%list_elem_of_In & [??]%bool_decide_eq_true_1). by exists row. }
  apply tx_bind_Ok in H as ([] & db1 & Ht & H). unfold settle_total in Ht.
  tx_got Ht.
  apply update_totals_Ok in Ht as (totals & -> & -> & _).
  eexists. split; [reflexivity|]. destruct reserved; [exact H|]. unfold tx_ret in H. by injection H as <-.
Qed.

Lemma closes_frame attempt exactness unknown retries bins charged totals db :
  same_budgets db (on_totals totals (after_close attempt exactness unknown retries bins charged db)).
Proof.
  split; cbn; [done|done|]. intros s' (s & -> & Hs)%list_elem_of_fmap. right. exists s. split; [done|].
  unfold close_row. by case_bool_decide.
Qed.

Lemma finish_send_keeps attempt reserved exactness unknown retries bins charged db db' :
  (forall c, charged = Some c -> 0 <= c)%Z ->
  finish_send_tx attempt reserved exactness unknown retries bins charged db = Ok (tt, db') ->
  ledger_inv db -> ledger_inv db'.
Proof.
  intros Hc (_ & db1 & -> & H)%finish_send_Ok Hinv. destruct reserved.
  - eapply (resolve_keeps _ _ _ false); [done|exact H|]. by eapply ledger_inv_frame; [apply closes_frame|].
  - subst db'. by eapply ledger_inv_frame; [apply closes_frame|].
Qed.

(** A round of the reconciling is a close whose charge is the held bound. *)
Lemma reconcile_one_Ok attempt bound db closed db' :
  reconcile_one attempt bound db = Ok (closed, db') ->
  if closed : bool
  then finish_send_tx attempt (reservation_is_open attempt db) UnknownExactness (Some "interrupted") 0 default_bins
         (if reservation_is_open attempt db then Some bound else None) db = Ok (tt, db')
  else settlements db' = settlements db /\
       db' = after_close attempt UnknownExactness (Some "interrupted") 0 default_bins
               (if reservation_is_open attempt db then Some bound else None) db.
Proof.
  unfold reconcile_one, finish_send_tx. intros H. tx_got H. apply tx_bind_Ok in H as (settled & db1 & Hs & H).
  unfold tx_bind at 1. rewrite Hs. destruct settled; simpl in H |- *.
  - apply tx_bind_Ok in H as ([] & db2 & Ht & H). apply tx_bind_Ok in H as ([] & db3 & Hr & H).
    unfold tx_ret in H. injection H as <- <-. unfold tx_bind. rewrite Ht. by destruct (reservation_is_open attempt db).
  - unfold tx_ret in H. injection H as <- <-. unfold settle_settlement in Hs.
    injection Hs as Hex <-. split; [|done]. cbn. apply map_id_in. intros row Hrow.
    destruct (bool_decide _) eqn:Eb; [|done]. exfalso. apply not_true_iff_false in Hex. apply Hex, existsb_exists.
    exists row. by rewrite <- list_elem_of_In.
Qed.

Lemma reconcile_one_keeps attempt bound db closed db' :
  (0 <= bound)%Z -> reconcile_one attempt bound db = Ok (closed, db') -> ledger_inv db -> ledger_inv db'.
Proof.
  intros Hb H%reconcile_one_Ok Hinv. destruct closed.
  - eapply finish_send_keeps; [|exact H|done]. intros c. case_match; [by intros [= <-]|done].
  - destruct H as [Hs ->]. eapply ledger_inv_frame; [|done]. split; [done|done|].
    intros s Hin. right. exists s. split; [|done]. by rewrite <- Hs.
Qed.

Lemma reconcile_rows_keeps (P : LedgerDb -> Prop) rows n db m db' :
  (forall row db closed db', row ∈ rows -> reconcile_one (se_attempt row) (se_bound row) db = Ok (closed, db') -> P db -> P db') ->
  reconcile_rows rows n db = Ok (m, db') -> P db -> P db'.
Proof.
  revert n db. induction rows as [|row rows IH]; intros n db Hone H Hdb; simpl in H.
  - by injection H as <- <-.
  - apply tx_bind_Ok in H as (closed & db1 & Hr & H). eapply IH; [|exact H|].
    + intros r db2 c db3 Hin. apply Hone. by right.
    + eapply Hone; [left|exact Hr|done].
Qed.

Lemma reconcile_keeps db m db' : reconcile_sends_tx db = Ok (m, db') -> ledger_inv db -> ledger_inv db'.
Proof.
  unfold reconcile_sends_tx. intros H Hinv. tx_got H.
  eapply reconcile_rows_keeps; [|exact H|done]. intros row db1 closed db2 [_ Hrow]%list_elem_of_filter Hr.
  eapply reconcile_one_keeps; [|exact Hr]. by apply (li_bounds _ Hinv).
Qed.

Lemma begin_send_keeps names context attempt bound db open db' :
  (0 <= bound <= i64_max)%Z -> begin_send_tx names context attempt bound db = Ok (open, db') ->
  ledger_inv db -> ledger_inv db'.
Proof.
  intros Hb (-> & _ & db1 & t & rowid & Hr & _ & _ & _ & ->)%begin_send_Ok Hinv.
  eapply ledger_inv_frame with db1.
  - split; cbn; [done|done|]. intros s [Hs| ->%list_elem_of_singleton]%elem_of_app; cbn; [by right; exists s|left; lia].
  - eapply (each_keeps ledger_inv); [|exact Hr|done]. intros scope db2 db3 _ H. by eapply reserve_one_keeps.
Qed.

(** The budgets of a statement on another table. *)
Ltac budgets_frame :=
  eapply ledger_inv_frame; [|done]; split; cbn; [done|done|];
  let s := fresh "s" in let Hs := fresh "Hs" in intros s Hs; right; by exists s.

Lemma open_work_keeps task deadline sends units db w db' :
  (0 <= units <= i64_max)%Z -> open_work_budget_tx task deadline sends units db = Ok (w, db') ->
  ledger_inv db -> ledger_inv db'.
Proof.
  intros Hu. unfold open_work_budget_tx. intros H Hinv. tx_got H.
  destruct (tasks _ !! _); [|by inv_tx]. destruct (work_budgets _ !! _); [by inv_tx|].
  destruct (bool_decide _); [by inv_tx|]. apply tx_bind_Ok in H as ([] & db1 & Hs & H). inv_tx.
  apply insert_scope_keeps in Hs; [|done|done]. clear Hinv. budgets_frame.
Qed.

Lemma transition_grant_Ok grant session require guard closed db g db' :
  transition_sharing_grant_tx grant session require guard closed db = Ok (g, db') ->
  exists row, sharing_grants db !! grant = Some row /\
  (forall s, session = Some s -> task_session (sg_task row) db = Some s) /\
  ((sg_state row = GrantOpen /\ guard row = true /\
    db' = on_sharing_grants (<[grant := mkGrantRow (sg_task row) (sg_token_digest row) (sg_expires_at row) closed]>) db)
   \/ (db' = db /\ require = false /\ (sg_state row <> GrantOpen \/ guard row = false))).
Proof.
  unfold transition_sharing_grant_tx. intros H. tx_got H.
  match type of H with (if ?b then _ else _) _ = _ => destruct b eqn:Hses end; [done|].
  apply tx_bind_Ok in H as (matched & db1 & Hm & H). tx_got H. apply tx_bind_Ok in H as (answer & y & E & H). unfold tx_store in E.
  destruct (sharing_grant_on grant db1) as [o|] eqn:Ho; [|done]. injection E as <- <-.
  destruct o as [found|]; [|done]. destruct (require && negb matched) eqn:Er; [done|]. injection H as <- <-.
  unfold close_grant in Hm. destruct (sharing_grants db !! grant) as [row|] eqn:Eg.
  - exists row. split; [done|]. split.
    { intros s ->. apply negb_false_iff, bool_decide_eq_true_1 in Hses. by simpl in Hses. }
    destruct (bool_decide (sg_state row = GrantOpen) && guard row) eqn:Eb; injection Hm as <- <-.
    + apply andb_true_iff in Eb as [?%bool_decide_eq_true_1 ?]. by left.
    + right. rewrite andb_true_r in Er. split_and!; [done|done|].
      apply andb_false_iff in Eb as [?%bool_decide_eq_false_1|?]; [by left|by right].
  - injection Hm as <- <-. unfold sharing_grant_on in Ho. by rewrite Eg in Ho.
Qed.

Lemma open_grant_Ok grant session task digest expires db g db' :
  open_sharing_grant_tx grant session task digest expires db = Ok (g, db') ->
  task_session task db = Some session /\ sharing_grants db !! grant = None /\
  db' = on_sharing_grants (<[grant := mkGrantRow task digest expires GrantOpen]>) db.
Proof.
  unfold open_sharing_grant_tx. intros H. inv_tx. case_decide; [|by inv_tx]. case_bool_decide as Hg; inv_tx.
  split_and!; [done| |done]. by apply eq_None_not_Some.
Qed.

Lemma stop_work_Ok task reason db w db' :
  stop_work_budget_tx task reason db = Ok (w, db') ->
  wb_state <$> work_budgets db !! task = Some WorkOpen /\ db' = on_work_budgets (alter (stop_row reason) task) db.
Proof.
  unfold stop_work_budget_tx. intros H. tx_got H. destruct (tasks _ !! _); [|done].
  apply tx_bind_Ok in H as ([] & db1 & Hm & H). injection Hm as <-. tx_got H.
  apply tx_bind_Ok in H as (answer & y & E & H). unfold tx_store in E. destruct (work_budget_on _ _) as [o|]; [|done]. injection E as <- <-.
  destruct o as [budget|]; [|done]. case_bool_decide; [|done]. by injection H as <- <-.
Qed.

(** The balance is kept by every step of a call on unsigned arguments. *)
Lemma ledger_inv_step c db db' : u64_args c -> lstep c db db' -> ledger_inv db -> ledger_inv db'.
Proof.
  intros Hu [|A m a db1 Htx Hm|tdb]; [done|..].
  - destruct Htx; simpl in Hu; intros Hinv.
    + unfold open_budget_tx in Hm. inv_tx. case_match; [by inv_tx|]. destruct a. by eapply insert_scope_keeps.
    + unfold budget_reserve_tx in Hm. inv_tx. case_match; [by inv_tx|]. destruct a.
      eapply (each_keeps ledger_inv); [|done|done]. intros. by eapply reserve_one_keeps.
    + destruct a. eapply (resolve_keeps _ _ _ false); [|done|done]. split; [done|]. by intros c ->.
    + destruct a. by eapply (resolve_keeps _ _ _ true).
    + eapply open_work_keeps; [|done|done]. lia.
    + apply stop_work_Ok in Hm as [_ ->]. budgets_frame.
    + by eapply begin_send_keeps.
    + destruct a. eapply finish_send_keeps; [|done|done]. intros c. unfold charge_of.
      destruct Hu as [Hb [_ Ht]]. destruct (tkt_reserved ticket); [|done]. intros [= <-].
      destruct (outcome_usage outcome) as [| |l]; cbn in *; [done|unfold nonneg in Ht; cbn in Ht; lia|].
      unfold nonneg in Ht. destruct (l_total_tokens l); cbn in *; [lia|done].
    + by eapply reconcile_keeps.
    + apply open_grant_Ok in Hm as (_ & _ & ->). budgets_frame.
    + apply transition_grant_Ok in Hm as (row & _ & _ & [(_ & _ & ->)|(-> & _)]); budgets_frame.
    + apply transition_grant_Ok in Hm as (row & _ & _ & [(_ & _ & ->)|(-> & _)]); budgets_frame.
    + apply transition_grant_Ok in Hm as (row & _ & _ & [(_ & _ & ->)|(-> & _)]); budgets_frame.
    + unfold fail_open_sharing_grants_tx in Hm. inv_tx. budgets_frame.
  - intros Hinv. budgets_frame.
Qed.

Lemma ledger_inv_empty : ledger_inv empty_ledger.
Proof.
  split; cbn; [constructor| |..].
  - intros scope row. by rewrite lookup_empty.
  - intros r Hr. by apply elem_of_nil in Hr.
  - intros s Hs. by apply elem_of_nil in Hs.
Qed.
