(* ===== verification/LedgerTotals.v ===== *)
(** The settlements stand in the order of their row identities, each attempt once,
    and the totals' one row, updated as sends open and close, is the row the
    aggregate over the settlements computes. *)

From stdpp Require Import sorting.
From S2P Require Import Prelude.
From S2P Require Import Contracts.
From S2P Require Import Requests.
From S2P Require Import Notifications.
From S2P Require Import Store.
From S2P Require Import TaskDb.
From S2P Require Import Routes.
From S2P Require Import LedgerDb.
From S2P Require Import Ledger.
From S2P Require Import Sends.
From S2P Require Import LedgerCalls.
From S2P Require Import LedgerThms.

(** The incremental row against the aggregate: a sum of no value is absent in the
    one and zero in the other, which the reading does not tell apart. *)
Record agrees (t : TotalsRow) (rows : list SettlementRow) : Prop := mkAgrees {
  ag_settled : ut_settled t = ut_settled (totals_of rows);
  ag_without : ut_without_total t = ut_without_total (totals_of rows);
  ag_total : default 0%Z (ut_total_tokens t) = default 0%Z (ut_total_tokens (totals_of rows));
  ag_count : ut_charged_count t = ut_charged_count (totals_of rows);
  ag_charged : default 0%Z (ut_charged_units t) = default 0%Z (ut_charged_units (totals_of rows));
  ag_latest : ut_latest_prompt t = ut_latest_prompt (totals_of rows);
  ag_dispatched : ut_dispatched t = ut_dispatched (totals_of rows);
  ag_next : ut_next_rowid t = ut_next_rowid (totals_of rows);
  ag_present : (0 < ut_settled t)%Z -> is_Some (ut_total_tokens t) /\ is_Some (ut_charged_units t);
}.

Record sends_inv (db : LedgerDb) : Prop := mkSendsInv {
  si_sorted : StronglySorted Z.lt (map se_rowid (settlements db));
  si_positive : forall s, s ∈ settlements db -> (0 < se_rowid s)%Z;
  si_attempts : NoDup (map se_attempt (settlements db));
  si_totals : exists t, usage_totals db = Some t /\ agrees t (settlements db);
}.

(** * Columns over lists *)

Lemma count_column_app {A B} (f : A -> option B) l1 l2 :
  count_column f (l1 ++ l2) = (count_column f l1 + count_column f l2)%Z.
Proof. unfold count_column. by rewrite omap_app, zlen_app. Qed.

Lemma count_column_cons {A B} (f : A -> option B) x l :
  count_column f (x :: l) = ((match f x with Some _ => 1 | None => 0 end) + count_column f l)%Z.
Proof. unfold count_column. simpl. destruct (f x); [by rewrite zlen_cons|by rewrite Z.add_0_l]. Qed.

Lemma sum_column_cons {A} (f : A -> option Z) x l :
  default 0%Z (sum_column f (x :: l)) = (default 0 (f x) + default 0 (sum_column f l))%Z.
Proof. unfold sum_column. simpl. destruct (f x); simpl; [done|by rewrite Z.add_0_l]. Qed.

Lemma sum_column_app {A} (f : A -> option Z) l1 l2 :
  default 0%Z (sum_column f (l1 ++ l2)) = (default 0 (sum_column f l1) + default 0 (sum_column f l2))%Z.
Proof. induction l1 as [|x l1 IH]; [simpl; lia|]. simpl app. rewrite !sum_column_cons, IH. lia. Qed.

Lemma sum_column_present {A} (f : A -> option Z) l : (0 < count_column f l)%Z -> is_Some (sum_column f l).
Proof.
  induction l as [|x l IH]; [done|]. rewrite count_column_cons. simpl. destruct (f x); [by eexists|]. simpl. apply IH.
Qed.

(** A reading of the row does not tell the two apart. *)
Lemma agrees_view t rows : agrees t rows -> totals_view t = totals_view (totals_of rows).
Proof.
  intros []. unfold totals_view. rewrite ag_settled0, ag_without0, ag_latest0, ag_dispatched0, ag_count0.
  unfold totals_of in *. cbn [ut_settled ut_without_total ut_total_tokens ut_charged_count ut_charged_units] in *.
  set (settled := filter _ _) in *. set (tokens := fun row => l_total_tokens (se_bins row)) in *.
  assert (Hpos : forall A (f : SettlementRow -> option A), (0 < count_column f settled)%Z -> (0 < zlen settled)%Z).
  { intros A f. destruct settled as [|s l]; [done|]. rewrite zlen_cons. pose proof (zlen_nonneg l). lia. }
  f_equal.
  - case_decide as Hlt; [|done]. assert (Hc : (0 < count_column tokens settled)%Z) by lia.
    destruct ag_present0 as [[v Ht] _]; [rewrite ag_settled0; by eapply Hpos|].
    destruct (sum_column_present tokens settled Hc) as [w Hw]. rewrite Ht, Hw in *. simpl in ag_total0. congruence.
  - case_decide as Hlt; [|done]. destruct (sum_column_present se_charged settled Hlt) as [w Hw].
    destruct ag_present0 as [_ [v Ht]]; [rewrite ag_settled0; by eapply Hpos|].
    rewrite Ht, Hw in *. simpl in ag_charged0. congruence.
Qed.

(** * Order *)

Lemma max_rowid_app rows row :
  max_rowid (rows ++ [row]) = Some (match max_rowid rows with Some m => Z.max m (se_rowid row) | None => se_rowid row end).
Proof.
  induction rows as [|x rows IH]; [done|]. simpl. rewrite IH. destruct (max_rowid rows); f_equal; lia.
Qed.

Lemma max_rowid_sorted rows : StronglySorted Z.lt (map se_rowid rows) -> max_rowid rows = se_rowid <$> last rows.
Proof.
  induction rows as [|x rows IH]; intros Hs; [done|]. cbn [map] in Hs. apply StronglySorted_inv in Hs as [Hs Hx].
  cbn [max_rowid foldr]. fold (max_rowid rows). rewrite (IH Hs). rewrite last_cons.
  destruct (last rows) as [y|] eqn:El; [|done]. simpl. f_equal. rewrite Forall_forall in Hx.
  apply last_Some_elem_of in El. specialize (Hx (se_rowid y) ltac:(by apply list_elem_of_fmap_2)). lia.
Qed.

Lemma max_rowid_bound rows s : s ∈ rows -> (se_rowid s <= default 0 (max_rowid rows))%Z.
Proof.
  induction rows as [|x rows IH]; [by intros ?%elem_of_nil|]. simpl. intros [->|Hs]%elem_of_cons.
  - destruct (max_rowid rows); simpl; lia.
  - specialize (IH Hs). destruct (max_rowid rows) eqn:E; simpl in *; [lia|]. by destruct rows; [apply elem_of_nil in Hs|].
Qed.

Lemma sorted_app_inv (l1 l2 : list Z) :
  StronglySorted Z.lt (l1 ++ l2) <->
  StronglySorted Z.lt l1 /\ StronglySorted Z.lt l2 /\ (forall x y, x ∈ l1 -> y ∈ l2 -> (x < y)%Z).
Proof.
  induction l1 as [|z l1 IH]; simpl.
  { split; [intros ?; split_and!; [constructor|done|by intros x y ?%elem_of_nil]|tauto]. }
  split.
  - intros [Hs Hz]%StronglySorted_inv. apply Forall_app in Hz as [Hz1 Hz2]. apply IH in Hs as (H1 & H2 & H3).
    split_and!; [by constructor|done|]. intros x y [->|Hx]%elem_of_cons Hy; [|by apply H3].
    rewrite Forall_forall in Hz2. by apply Hz2.
  - intros ([H1 Hz]%StronglySorted_inv & H2 & H3). constructor.
    + apply IH. split_and!; [done|done|]. intros x y Hx. apply H3. by right.
    + apply Forall_app. split; [done|]. apply Forall_forall. intros y Hy. apply H3; [left|done].
Qed.

Lemma sorted_filter (P : SettlementRow -> Prop) `{!forall s, Decision (P s)} rows :
  StronglySorted Z.lt (map se_rowid rows) -> StronglySorted Z.lt (map se_rowid (filter P rows)).
Proof.
  induction rows as [|x rows IH]; [done|]. cbn [map]. intros [Hs Hx]%StronglySorted_inv. rewrite filter_cons.
  case_decide; [|by apply IH]. cbn [map]. constructor; [by apply IH|]. rewrite Forall_forall in *.
  intros r (s & -> & [_ Hin]%list_elem_of_filter)%list_elem_of_fmap. apply Hx. by apply list_elem_of_fmap_2.
Qed.

(** * Opening and closing *)

Lemma agrees_open t rows row :
  agrees t rows -> se_state row = Dispatched -> (forall s, s ∈ rows -> se_rowid s < se_rowid row)%Z ->
  se_rowid row = Z.max (ut_next_rowid t) (default 0%Z (max_rowid rows) + 1) ->
  agrees (mkTotals (ut_settled t) (ut_without_total t) (ut_total_tokens t) (ut_charged_count t) (ut_charged_units t)
            (ut_latest_prompt t) (ut_dispatched t + 1) (se_rowid row + 1)) (rows ++ [row]).
Proof.
  intros [] Hst Hnew Hrow. simpl in *.
  assert (Hf : filter (fun row => se_state row = Settled) (rows ++ [row]) = filter (fun row => se_state row = Settled) rows).
  { rewrite filter_app, filter_cons, decide_False by (by rewrite Hst). by rewrite filter_nil, app_nil_r. }
  split; simpl; rewrite ?Hf; try done.
  - rewrite ag_dispatched0, filter_app, filter_cons, decide_True by done. by rewrite filter_nil, zlen_app.
  - rewrite max_rowid_app. simpl. rewrite ag_next0 in Hrow. destruct (max_rowid rows); simpl in *; lia.
Qed.

Section close.
Context (attempt : string) (e : Exactness) (unknown : option string) (retries : Z) (b : UsageBins) (charged : option Z).
Let close := close_row attempt e unknown retries b charged.

Lemma close_other rows : (forall s, s ∈ rows -> se_attempt s <> attempt) -> map close rows = rows.
Proof.
  intros Hne. apply map_id_in. intros s Hs. unfold close, close_row. rewrite bool_decide_eq_false_2; [done|].
  intros [? _]. by eapply Hne.
Qed.

(** Closing the open row of an attempt changes that row only. *)
Lemma close_split rows row :
  NoDup (map se_attempt rows) -> row ∈ rows -> se_attempt row = attempt -> se_state row = Dispatched ->
  exists l1 l2, rows = l1 ++ row :: l2 /\ map close rows = l1 ++ settled_row e unknown retries b charged row :: l2 /\
    (forall s, s ∈ l1 -> se_attempt s <> attempt) /\ (forall s, s ∈ l2 -> se_attempt s <> attempt).
Proof.
  intros Hnd (l1 & l2 & ->)%list_elem_of_split Ha Hs. exists l1, l2. split; [done|].
  rewrite map_app in Hnd. apply NoDup_app in Hnd as (_ & H12 & Hnd). cbn [map] in Hnd. apply NoDup_cons in Hnd as [H2 _].
  assert (Hn1 : forall s, s ∈ l1 -> se_attempt s <> attempt).
  { intros s Hin Hsa. apply (H12 (se_attempt s)); [by apply list_elem_of_fmap_2|]. cbn. rewrite Hsa, Ha. left. }
  assert (Hn2 : forall s, s ∈ l2 -> se_attempt s <> attempt).
  { intros s Hin Hsa. apply H2. rewrite Ha, <- Hsa. by apply list_elem_of_fmap_2. }
  split_and!; [|done|done]. rewrite map_app. cbn [map]. rewrite !close_other by done.
  unfold close at 1, close_row. by rewrite bool_decide_eq_true_2.
Qed.

Lemma agrees_close t db row :
  usage_totals db = Some t -> sends_inv db -> row ∈ settlements db -> se_attempt row = attempt ->
  se_state row = Dispatched ->
  agrees (closed_totals attempt b charged (after_close attempt e unknown retries b charged db) t) (map close (settlements db)).
Proof.
  intros Ht [Hsort _ Hnd (t' & Ht' & Hag)] Hrow Ha Hs. rewrite Ht in Ht'. injection Ht' as <-.
  destruct (close_split _ _ Hnd Hrow Ha Hs) as (l1 & l2 & Hrows & Hclosed & Hn1 & Hn2).
  unfold closed_totals, settled_rows, after_close. cbn [settlements on_settlements]. fold close. rewrite Hclosed.
  set (r' := settled_row e unknown retries b charged row).
  assert (settlement_row attempt (on_settlements (map close) db) = Some r') as Hfind.
  { unfold settlement_row. cbn [settlements on_settlements]. rewrite Hclosed, find_app.
    assert (find (fun s => bool_decide (se_attempt s = attempt)) l1 = None) as ->.
    { apply find_None, Forall_forall. intros s Hin. by apply bool_decide_eq_false_2, Hn1. }
    rewrite find_cons, bool_decide_eq_true_2; [done|by subst r']. }
  change (on_settlements (map (close_row attempt e unknown retries b charged)) db) with (on_settlements (map close) db).
  rewrite Hfind. rewrite Hrows in Hag, Hsort.
  set (st := fun s : SettlementRow => se_state s = Settled) in *.
  assert (Hf : filter st (l1 ++ row :: l2) = filter st l1 ++ filter st l2).
  { rewrite filter_app, filter_cons, decide_False; [done|]. unfold st. by rewrite Hs. }
  assert (Hf' : filter st (l1 ++ r' :: l2) = filter st l1 ++ r' :: filter st l2).
  { by rewrite filter_app, filter_cons, decide_True. }
  assert (Hsort' : StronglySorted Z.lt (map se_rowid (l1 ++ r' :: l2))) by (by rewrite map_app in Hsort |- *).
  fold (st r'). assert (Hmax : max_rowid (filter st (l1 ++ r' :: l2)) = se_rowid <$> last (filter st l1 ++ r' :: filter st l2)).
  { rewrite max_rowid_sorted by by apply sorted_filter. by rewrite Hf'. }
  rewrite Hmax. clear Hmax Hfind.
  destruct Hag. revert ag_settled0 ag_without0 ag_total0 ag_count0 ag_charged0 ag_latest0 ag_dispatched0 ag_next0 ag_present0.
  unfold totals_of. fold st. cbn [ut_settled ut_without_total ut_total_tokens ut_charged_count ut_charged_units
    ut_latest_prompt ut_dispatched ut_next_rowid]. rewrite Hf.
  intros E1 E2 E3 E4 E5 E6 E7 E8 _. split; unfold totals_of; fold st; cbn [ut_settled ut_without_total ut_total_tokens
    ut_charged_count ut_charged_units ut_latest_prompt ut_dispatched ut_next_rowid]; rewrite ?Hf'.
  - rewrite E1, !zlen_app, zlen_cons. lia.
  - rewrite E2, !zlen_app, zlen_cons, !count_column_app, count_column_cons. subst r'. cbn.
    destruct (l_total_tokens b); lia.
  - rewrite E3, !sum_column_app, sum_column_cons. subst r'. cbn. lia.
  - rewrite E4, !count_column_app, count_column_cons. subst r'. cbn. destruct charged; lia.
  - rewrite E5, !sum_column_app, sum_column_cons. subst r'. cbn. lia.
  - rewrite last_app_cons. destruct (filter st l2) as [|x l'] eqn:El2.
    + simpl. by rewrite decide_True.
    + rewrite last_cons_cons. rewrite E6, last_app_cons. destruct (last (x :: l')) as [y|] eqn:Ely; [|by apply last_None in Ely].
      simpl. rewrite decide_False; [done|]. intros Heq.
      apply last_Some_elem_of in Ely. rewrite <- El2 in Ely. apply list_elem_of_filter in Ely as [_ Hy].
      rewrite map_app in Hsort'. apply sorted_app_inv in Hsort' as (_ & Hs2 & _). cbn [map] in Hs2.
      apply StronglySorted_inv in Hs2 as [_ Hlt]. rewrite Forall_forall in Hlt.
      specialize (Hlt (se_rowid y) ltac:(by apply list_elem_of_fmap_2)). change (se_rowid r') with (se_rowid row) in Hlt. lia.
  - rewrite E7, !filter_app, !filter_cons. rewrite (decide_True (P := se_state row = Dispatched)) by done.
    rewrite (decide_False (P := se_state r' = Dispatched)) by (by subst r'). rewrite !zlen_app, zlen_cons. 
    pose proof (zlen_nonneg (filter (fun s => se_state s = Dispatched) l1)).
    pose proof (zlen_nonneg (filter (fun s => se_state s = Dispatched) l2)). lia.
  - rewrite E8. f_equal. f_equal. f_equal. rewrite !max_rowid_sorted by done. rewrite !last_app_cons.
    destruct l2; [done|]. by rewrite !last_cons_cons.
  - intros _. split; by eexists.
Qed.

Lemma close_sends_inv db row totals :
  sends_inv db -> row ∈ settlements db -> se_attempt row = attempt -> se_state row = Dispatched ->
  totals = closed_totals attempt b charged (after_close attempt e unknown retries b charged db) <$> usage_totals db ->
  sends_inv (on_totals (fun _ => totals) (after_close attempt e unknown retries b charged db)).
Proof.
  intros Hinv Hrow Ha Hs ->. pose proof Hinv as [Hsort Hpos Hnd (t & Ht & Hag)].
  assert (Hids : map se_rowid (map close (settlements db)) = map se_rowid (settlements db)).
  { rewrite map_map. apply map_ext. intros s. unfold close, close_row. by case_bool_decide. }
  assert (Hats : map se_attempt (map close (settlements db)) = map se_attempt (settlements db)).
  { rewrite map_map. apply map_ext. intros s. unfold close, close_row. by case_bool_decide. }
  split; cbn; fold close.
  - by rewrite Hids.
  - intros s' (s & -> & Hin)%list_elem_of_fmap. unfold close, close_row. case_bool_decide; by apply (Hpos s).
  - by rewrite Hats.
  - rewrite Ht. eexists. split; [reflexivity|]. by eapply agrees_close.
Qed.
End close.

(** * Every step *)

(** The settlements and the totals of a statement on another table. *)
Record same_sends (db db' : LedgerDb) : Prop := mkSameSends {
  ss_settlements : settlements db' = settlements db;
  ss_totals : usage_totals db' = usage_totals db;
}.

#[export] Instance same_sends_preorder : PreOrder same_sends.
Proof. split; [by intros db|]. intros a b c [] []. split; congruence. Qed.

Lemma sends_inv_frame db db' : same_sends db db' -> sends_inv db -> sends_inv db'.
Proof. intros [E1 E2] [A B C D]. split; by rewrite ?E1, ?E2. Qed.

Lemma resolve_same_sends id terminal confirmed release db db' :
  resolve_reservation_tx id terminal confirmed release db = Ok (tt, db') -> same_sends db db'.
Proof. by intros (_ & _ & _ & ->)%resolve_Ok. Qed.

Lemma finish_sends_inv attempt reserved e unknown retries b charged db db' :
  finish_send_tx attempt reserved e unknown retries b charged db = Ok (tt, db') -> sends_inv db -> sends_inv db'.
Proof.
  intros ((row & Hrow & Ha & Hs) & db1 & -> & H)%finish_send_Ok Hinv.
  assert (Hdb1 : sends_inv (on_totals (fun _ => closed_totals attempt b charged
    (after_close attempt e unknown retries b charged db) <$> usage_totals db)
    (after_close attempt e unknown retries b charged db))) by by eapply close_sends_inv.
  destruct reserved; [|by subst]. apply resolve_same_sends in H. by eapply sends_inv_frame.
Qed.

Lemma begin_sends_inv names context attempt bound db open db' :
  begin_send_tx names context attempt bound db = Ok (open, db') -> sends_inv db -> sends_inv db'.
Proof.
  intros (-> & Hno & db1 & t & rowid & Hr & Ht & Hid & Hnew & ->)%begin_send_Ok Hinv.
  apply each_reserve_frame in Hr as (E1 & E2 & _). assert (Hdb1 : sends_inv db1) by (eapply sends_inv_frame; [by split|done]).
  clear Hinv E1 E2. destruct Hdb1 as [Hsort Hpos Hnd (t' & Ht' & Hag)]. rewrite Ht in Ht'. injection Ht' as <-.
  assert (Hlt : forall s, s ∈ settlements db1 -> (se_rowid s < rowid)%Z).
  { intros s Hs%max_rowid_bound. rewrite Hid. lia. }
  split; cbn.
  - rewrite map_app. apply sorted_app_inv. split_and!; [done|repeat constructor|].
    intros x y (s & -> & Hs)%list_elem_of_fmap ->%list_elem_of_singleton. by apply Hlt.
  - intros s [Hs| ->%list_elem_of_singleton]%elem_of_app; [by apply Hpos|]. cbn. rewrite Hid.
    assert (0 <= default 0 (max_rowid (settlements db1)))%Z; [|lia].
    destruct (settlements db1) as [|x l] eqn:E; [done|]. etrans; [|apply (max_rowid_bound _ x); left].
    specialize (Hpos x ltac:(left)). lia.
  - rewrite map_app, NoDup_app. split_and!; [done| |apply NoDup_singleton].
    intros x (s & -> & Hs)%list_elem_of_fmap Hx%list_elem_of_singleton. cbn in Hx. by destruct (Hnew s Hs).
  - eexists. split; [reflexivity|].
    exact (agrees_open t (settlements db1) (mkSettlement rowid attempt (sx_parent_attempt_id context) (sx_purpose context)
      (sx_connection context) (sx_ranking_basis context) bound Dispatched UnknownExactness None 0 default_bins None)
      Hag eq_refl Hlt Hid).
Qed.

Lemma reconcile_one_sends attempt bound db closed db' :
  reconcile_one attempt bound db = Ok (closed, db') -> sends_inv db -> sends_inv db'.
Proof.
  intros H%reconcile_one_Ok Hinv. destruct closed; [by eapply finish_sends_inv|].
  destruct H as [Hs ->]. apply (sends_inv_frame db); [by split|done].
Qed.

(** The steps that are not sends leave them alone. *)
Lemma other_same_sends c A (m : ltx A) db a db' :
  LedgerTx c A m -> m db = Ok (a, db') ->
  match c with BeginSend _ _ _ | FinishSend _ _ | ReconcileSends => True | _ => same_sends db db' end.
Proof.
  intros Htx Hm. destruct Htx; try done.
  - unfold open_budget_tx in Hm. tx_got Hm. case_match; [done|]. unfold insert_scope in Hm. case_match; [done|].
    by injection Hm as <- <-.
  - unfold budget_reserve_tx in Hm. tx_got Hm. case_match; [done|]. destruct a.
    apply each_reserve_frame in Hm as (E1 & E2 & _). by split.
  - destruct a. by eapply resolve_same_sends.
  - destruct a. by eapply resolve_same_sends.
  - unfold open_work_budget_tx in Hm. tx_got Hm. destruct (tasks _ !! _); [|done].
    destruct (work_budgets _ !! _); [done|]. destruct (bool_decide _); [done|].
    apply tx_bind_Ok in Hm as ([] & db1 & Hs & Hm). unfold insert_scope in Hs. case_match; [done|]. injection Hs as <-.
    inv_tx. all: by split.
  - by apply stop_work_Ok in Hm as [_ ->].
  - by apply open_grant_Ok in Hm as (_ & _ & ->).
  - by apply transition_grant_Ok in Hm as (row & _ & _ & [(_ & _ & ->)|(-> & _)]).
  - by apply transition_grant_Ok in Hm as (row & _ & _ & [(_ & _ & ->)|(-> & _)]).
  - by apply transition_grant_Ok in Hm as (row & _ & _ & [(_ & _ & ->)|(-> & _)]).
  - unfold fail_open_sharing_grants_tx in Hm. by inv_tx.
Qed.

Lemma sends_inv_step c db db' : lstep c db db' -> sends_inv db -> sends_inv db'.
Proof.
  intros [|A m a db1 Htx Hm|tdb] Hinv; [done|..].
  - pose proof (other_same_sends c A m db a db1 Htx Hm) as Hother.
    destruct Htx; try by eapply sends_inv_frame.
    + by eapply begin_sends_inv.
    + destruct a. by eapply finish_sends_inv.
    + unfold reconcile_sends_tx in Hm. tx_got Hm. eapply reconcile_rows_keeps; [|exact Hm|done].
      intros row db2 closed db3 _ H. by eapply reconcile_one_sends.
  - apply (sends_inv_frame db); [by split|done].
Qed.

Lemma sends_inv_empty : sends_inv empty_ledger.
Proof.
  split; cbn; [constructor| |constructor|].
  - intros s Hs. by apply elem_of_nil in Hs.
  - eexists. split; [reflexivity|]. by split.
Qed.
