(* ===== verification/LedgerLive.v ===== *)
(** Reconciling always closes: in a ledger whose reservations are those of its
    sends, every interrupted send settles, its bound becomes spent, and none stays
    open. *)

From stdpp Require Import sorting.
From S2P Require Import Prelude.
From S2P Require Import Contracts.
From S2P Require Import Requests.
From S2P Require Import Notifications.
From S2P Require Import Store.
From S2P Require Import TaskDb.
From S2P Require Import Routes.
From S2P Require Import LedgerDb.
From S2P Require Import Ledger.
From S2P Require Import Sends.
From S2P Require Import LedgerCalls.
From S2P Require Import LedgerThms.
From S2P Require Import LedgerTotals.

(** Every reservation is the one of a send, at the send's bound. *)
Definition linked (db : LedgerDb) : Prop :=
  forall r, r ∈ reservations db -> exists s, s ∈ settlements db /\ se_attempt s = br_id r /\ se_bound s = br_bound r.

(** A run that reserves through its sends only. *)
Definition reserves_by_sends (c : LedgerCall) : Prop := match c with BudgetReserve _ _ _ => False | _ => True end.

(** Reservations keep their identity and bound, and settlements theirs. *)
Record same_links (db db' : LedgerDb) : Prop := mkSameLinks {
  sl_reservations : forall r', r' ∈ reservations db' ->
    exists r, r ∈ reservations db /\ br_id r = br_id r' /\ br_bound r = br_bound r';
  sl_settlements : forall s, s ∈ settlements db ->
    exists s', s' ∈ settlements db' /\ se_attempt s' = se_attempt s /\ se_bound s' = se_bound s;
}.

#[export] Instance same_links_preorder : PreOrder same_links.
Proof.
  split.
  - intros db. split; [intros r Hr; by exists r|intros s Hs; by exists s].
  - intros a b c [R1 S1] [R2 S2]. split.
    + intros r (r1 & (r2 & ? & ? & ?)%R1 & ? & ?)%R2. exists r2. split_and!; [done|congruence..].
    + intros s (s1 & (s2 & ? & ? & ?)%S2 & ? & ?)%S1. exists s2. split_and!; [done|congruence..].
Qed.

Lemma linked_same db db' : same_links db db' -> linked db -> linked db'.
Proof.
  intros [R S] Hl r' (r & Hr & Hid & Hb)%R. destruct (Hl r Hr) as (s & (s' & ? & ? & ?)%S & ? & ?).
  exists s'. split_and!; [done|congruence..].
Qed.

Lemma links_of db db' : reservations db' = reservations db -> settlements db' = settlements db -> same_links db db'.
Proof. intros E1 E2. split; rewrite ?E1, ?E2; [intros r Hr; by exists r|intros s Hs; by exists s]. Qed.

Lemma resolve_links id terminal confirmed release db db' :
  resolve_reservation_tx id terminal confirmed release db = Ok (tt, db') -> same_links db db'.
Proof.
  intros (_ & _ & _ & ->)%resolve_Ok. split; cbn; [|intros s Hs; by exists s].
  intros r' (r & -> & Hr)%list_elem_of_fmap. exists r. by case_decide.
Qed.

Lemma closes_links attempt e unknown retries b charged totals db :
  same_links db (on_totals totals (after_close attempt e unknown retries b charged db)).
Proof.
  split; cbn; [intros r Hr; by exists r|]. intros s Hs.
  exists (close_row attempt e unknown retries b charged s). split; [by apply list_elem_of_fmap_2|].
  unfold close_row. by case_bool_decide.
Qed.

Lemma finish_links attempt reserved e unknown retries b charged db db' :
  finish_send_tx attempt reserved e unknown retries b charged db = Ok (tt, db') -> same_links db db'.
Proof.
  intros (_ & db1 & -> & H)%finish_send_Ok. destruct reserved.
  - etrans; [apply closes_links|]. by eapply resolve_links.
  - subst db'. apply closes_links.
Qed.

Lemma reconcile_one_links attempt bound db closed db' :
  reconcile_one attempt bound db = Ok (closed, db') -> same_links db db'.
Proof.
  intros H%reconcile_one_Ok. destruct closed; [by eapply finish_links|]. destruct H as [Hs ->]. by apply links_of.
Qed.

(** The reservations a dispatch inserts. *)
Lemma each_reserve_rows id bound names db db' :
  each (reserve_one id bound) names db = Ok (tt, db') ->
  reservations db' = reservations db ++ map (fun scope => mkReservation id scope bound RsReserved None) names.
Proof.
  revert db. induction names as [|n names IH]; intros db H; simpl in H.
  - injection H as <-. by rewrite app_nil_r.
  - apply tx_bind_Ok in H as ([] & db1 & Hr & H). rewrite (IH _ H). unfold reserve_one in Hr.
    apply tx_bind_Ok in Hr as (ok & db2 & Hu & Hr). apply update_scope_Ok in Hu. destruct ok; [|done].
    destruct Hu as (row & _ & _ & _ & ->). unfold insert_reservation in Hr. case_match; [done|]. injection Hr as <-.
    cbn. by rewrite <- app_assoc.
Qed.

Lemma begin_linked names context attempt bound db open db' :
  begin_send_tx names context attempt bound db = Ok (open, db') -> linked db -> linked db'.
Proof.
  intros (-> & _ & db1 & t & rowid & Hr & _ & _ & _ & ->)%begin_send_Ok Hl.
  pose proof (each_reserve_rows _ _ _ _ _ Hr) as Hrows. apply each_reserve_frame in Hr as (E1 & _).
  intros r. cbn. rewrite Hrows, E1. intros [Hin|(scope & -> & _)%list_elem_of_fmap]%elem_of_app.
  - destruct (Hl r Hin) as (s & ? & ? & ?). exists s. split_and!; [set_solver|done..].
  - eexists. split; [apply elem_of_app; right; apply list_elem_of_singleton; reflexivity|done].
Qed.

Lemma linked_step c db db' : reserves_by_sends c -> lstep c db db' -> linked db -> linked db'.
Proof.
  intros Hc [|A m a db1 Htx Hm|tdb] Hl; [done|..]; [|by eapply linked_same; [apply links_of|]].
  destruct Htx; try done.
  - eapply linked_same; [|done]. unfold open_budget_tx in Hm. tx_got Hm. case_match; [done|].
    unfold insert_scope in Hm. case_match; [done|]. injection Hm as <- <-. by apply links_of.
  - destruct a. eapply linked_same; [|done]. by eapply resolve_links.
  - destruct a. eapply linked_same; [|done]. by eapply resolve_links.
  - eapply linked_same; [|done]. unfold open_work_budget_tx in Hm. tx_got Hm. destruct (tasks _ !! _); [|done].
    destruct (work_budgets _ !! _); [done|]. destruct (bool_decide _); [done|].
    apply tx_bind_Ok in Hm as ([] & db2 & Hs & Hm). unfold insert_scope in Hs. case_match; [done|]. injection Hs as <-.
    inv_tx. all: by apply links_of.
  - apply stop_work_Ok in Hm as [_ ->]. eapply linked_same; [by apply links_of|done].
  - by eapply begin_linked.
  - destruct a. eapply linked_same; [by eapply finish_links|done].
  - unfold reconcile_sends_tx in Hm. tx_got Hm. eapply reconcile_rows_keeps; [|exact Hm|done].
    intros row db2 closed db3 _ H Hl2. eapply linked_same; [by eapply reconcile_one_links|done].
  - apply open_grant_Ok in Hm as (_ & _ & ->). eapply linked_same; [by apply links_of|done].
  - apply transition_grant_Ok in Hm as (row & _ & _ & [(_ & _ & ->)|(-> & _)]); (eapply linked_same; [by apply links_of|done]).
  - apply transition_grant_Ok in Hm as (row & _ & _ & [(_ & _ & ->)|(-> & _)]); (eapply linked_same; [by apply links_of|done]).
  - apply transition_grant_Ok in Hm as (row & _ & _ & [(_ & _ & ->)|(-> & _)]); (eapply linked_same; [by apply links_of|done]).
  - unfold fail_open_sharing_grants_tx in Hm. inv_tx. eapply linked_same; [by apply links_of|done].
Qed.

(** * Resolving always answers *)

Lemma fits_between v : (0 <= v <= i64_max)%Z -> fits v = true.
Proof. intros Hv. apply bool_decide_eq_true_2. unfold i64_max in *. lia. Qed.

Lemma each_resolve_total confirmed rows db :
  NoDup (map br_scope rows) ->
  (forall r, r ∈ rows -> (0 <= confirmed <= br_bound r)%Z /\ exists row, scopes db !! br_scope r = Some row /\
    (0 <= bs_spent row /\ br_bound r <= bs_reserved row /\ bs_spent row + bs_reserved row <= i64_max)%Z) ->
  each (resolve_scope (Some confirmed) false) rows db = Ok (tt, on_scopes (resolve_all (Some confirmed) false rows) db).
Proof.
  revert db. induction rows as [|r rows IH]; intros db Hnd Hrows; [by destruct db|].
  cbn [map] in Hnd. apply NoDup_cons in Hnd as [Hr Hnd]. destruct (Hrows r) as (Hc & row & Hrow & Hfit); [left|].
  assert (Hone : resolve_scope (Some confirmed) false r db =
    Ok (tt, on_scopes (alter (resolved (Some confirmed) false r) (br_scope r)) db)).
  { unfold resolve_scope, tx_bind. rewrite decide_False by lia. unfold tx_ret at 1.
    unfold charge_scope, update_scope. rewrite Hrow, bool_decide_eq_true_2 by lia. unfold scope_fits. cbn.
    rewrite !fits_between by lia. cbn. unfold tx_ret. do 2 f_equal. unfold on_scopes. cbn.
    by erewrite <- (insert_alter_scope _ _ _ (resolved (Some confirmed) false r)) by done. }
  cbn [each]. unfold tx_bind at 1. rewrite Hone, IH; [by destruct db|done|]. intros q Hq.
  destruct (Hrows q ltac:(by right)) as (Hcq & rowq & Hrowq & Hfitq). split; [done|]. exists rowq. split; [|done].
  cbn. rewrite lookup_alter_ne; [done|]. intros E. apply Hr. rewrite E. by apply list_elem_of_fmap_2.
Qed.

Lemma resolve_total id bound db :
  ledger_inv db -> reservation_is_open id db = true -> (0 <= bound)%Z ->
  (forall r, r ∈ reservations db -> br_id r = id -> br_bound r = bound) ->
  exists db', resolve_reservation_tx id RsCharged (Some bound) false db = Ok (tt, db').
Proof.
  intros Hinv Hopen Hb Hbound. unfold reservation_is_open in Hopen.
  apply andb_true_iff in Hopen as [Hne%negb_true_iff%bool_decide_eq_false_1 Hall].
  rewrite forallb_forall in Hall. unfold resolve_reservation_tx, tx_bind at 1. unfold tx_get at 1.
  destruct (reservation_rows id db) as [|r0 l] eqn:Er; [done|]. rewrite <- Er in *.
  assert (find (fun row => negb (bool_decide (br_state row = RsReserved))) (reservation_rows id db) = None) as ->.
  { apply find_None, Forall_forall. intros r Hr%list_elem_of_In. by rewrite (Hall r Hr). }
  eexists. unfold tx_bind at 1. rewrite each_resolve_total; [reflexivity|apply reservation_rows_NoDup, Hinv|].
  intros r Hr. pose proof Hr as Hst%list_elem_of_In%Hall%bool_decide_eq_true_1.
  apply reservation_rows_spec in Hr as [Hid Hin]. rewrite (Hbound r Hin Hid). split; [lia|].
  destruct (li_rows _ Hinv r Hin) as (_ & [row Hrow] & _). exists row. split; [done|].
  destruct (li_scopes _ Hinv _ row Hrow) as (E1 & E2 & E3). pose proof (held_at_least db Hinv r Hin Hst) as Hheld.
  pose proof (costs_nonneg db Hinv (br_scope r)). rewrite (Hbound r Hin Hid) in Hheld. lia.
Qed.

(** What resolving at the bound leaves in a scope. *)
Definition same_weight (db db' : LedgerDb) : Prop :=
  forall scope row, scopes db !! scope = Some row ->
  exists row', scopes db' !! scope = Some row' /\ bs_limit row' = bs_limit row /\
    (bs_spent row' + bs_reserved row' = bs_spent row + bs_reserved row /\ bs_spent row <= bs_spent row')%Z.

#[export] Instance same_weight_preorder : PreOrder same_weight.
Proof.
  split; [intros db scope row Hr; exists row; split_and!; [done|done|lia|lia]|].
  intros a b c Hab Hbc scope row (row1 & (row2 & ? & ? & ? & ?)%Hbc & ? & ? & ?)%Hab.
  exists row2. split_and!; [done|congruence|lia|lia].
Qed.

Lemma resolve_weight id bound db db' :
  ledger_inv db -> (forall r, r ∈ reservations db -> br_id r = id -> br_bound r = bound) ->
  resolve_reservation_tx id RsCharged (Some bound) false db = Ok (tt, db') -> same_weight db db'.
Proof.
  intros Hinv Hbound (_ & _ & _ & ->)%resolve_Ok scope row Hrow. cbn.
  rewrite resolve_all_lookup by apply reservation_rows_NoDup, Hinv. destruct (find _ _) as [r|] eqn:Ef.
  - apply find_Some in Ef as [[Hid Hr]%reservation_rows_spec _]. rewrite Hrow. cbn. eexists. split; [done|].
    cbn. destruct (li_rows _ Hinv r Hr) as (? & _). rewrite (Hbound r Hr Hid) in *. split_and!; [done|lia|lia].
  - exists row. split_and!; [done|done|lia|lia].
Qed.

(** * Every interrupted send closes *)

(** The room the totals need for the sends still open. *)
Record headroom (t : TotalsRow) (open : list SettlementRow) : Prop := mkHeadroom {
  hr_fits : totals_fit t = true;
  hr_settled : (ut_settled t + zlen open <= i64_max)%Z;
  hr_charged : (default 0 (ut_charged_units t) + zsum se_bound open <= i64_max)%Z;
}.

Lemma fits_range v : fits v = true -> (- i64_max - 1 <= v <= i64_max)%Z.
Proof. apply bool_decide_eq_true_1. Qed.

Lemma count_column_le {A B} (f : A -> option B) l : (0 <= count_column f l <= zlen l)%Z.
Proof.
  induction l as [|x l IH]; [done|]. rewrite count_column_cons, zlen_cons. destruct (f x); lia.
Qed.

(** Closing one send leaves room for the others. *)
Lemma closed_headroom attempt charged db t row rest rows :
  agrees t rows -> headroom t (row :: rest) -> (0 <= se_bound row)%Z -> (forall s, s ∈ rest -> 0 <= se_bound s)%Z ->
  (forall c, charged = Some c -> c = se_bound row) ->
  headroom (closed_totals attempt default_bins charged db t) rest.
Proof.
  intros Hag [Hf Hs Hc] Hb Hbs Hch. unfold totals_fit in Hf. rewrite !andb_true_iff in Hf.
  destruct Hf as [[[[[[F1 F2] F3] F4] F5] F6] F7].
  rewrite zlen_cons in Hs. change (zsum se_bound (row :: rest)) with (se_bound row + zsum se_bound rest)%Z in Hc.
  pose proof (zlen_nonneg rest). pose proof (zsum_mem se_bound rest Hbs).
  destruct Hag as [A1 A2 _ A4 _ _ A7 _ _]. unfold totals_of in A1, A2, A4, A7. cbn in A1, A2, A4, A7.
  pose proof (count_column_le (fun row => l_total_tokens (se_bins row)) (filter (fun row => se_state row = Settled) rows)).
  pose proof (count_column_le se_charged (filter (fun row => se_state row = Settled) rows)).
  pose proof (zlen_nonneg (filter (fun row => se_state row = Dispatched) rows)).
  apply fits_range in F1, F2, F3, F4, F5, F6, F7.
  assert (0 <= default 0 charged <= se_bound row)%Z.
  { destruct charged as [c|]; cbn; [rewrite (Hch c eq_refl)|]; lia. }
  split; unfold closed_totals; cbn [ut_settled ut_charged_units].
  - unfold totals_fit, fits. cbn [ut_settled ut_without_total ut_total_tokens ut_charged_count ut_charged_units
      ut_dispatched ut_next_rowid]. cbn [default_bins l_total_tokens].
    rewrite !bool_decide_eq_true_2; [done|..]; clear A7; destruct charged; cbn in *; lia.
  - lia.
  - destruct charged; cbn in *; lia.
Qed.

Lemma dispatched_split rows row rest :
  NoDup (map se_attempt rows) -> filter (fun s => se_state s = Dispatched) rows = row :: rest ->
  row ∈ rows /\ se_state row = Dispatched /\ forall e unknown retries b charged,
    filter (fun s => se_state s = Dispatched) (map (close_row (se_attempt row) e unknown retries b charged) rows) = rest.
Proof.
  intros Hnd Hf. assert (Hin : row ∈ filter (fun s => se_state s = Dispatched) rows) by (rewrite Hf; left).
  apply list_elem_of_filter in Hin as [Hs Hin]. split_and!; [done|done|]. intros e unknown retries b charged.
  destruct (close_split (se_attempt row) e unknown retries b charged rows row Hnd Hin eq_refl Hs)
    as (l1 & l2 & -> & -> & Hn1 & _).
  rewrite filter_app, filter_cons in Hf |- *. rewrite decide_True in Hf by done. rewrite decide_False by done.
  destruct (filter _ l1) as [|x l] eqn:El; [by injection Hf|]. exfalso. injection Hf as -> _.
  apply (Hn1 row); [|done]. eapply proj2, list_elem_of_filter. rewrite El. left.
Qed.

Lemma settle_total_total attempt b charged db t :
  usage_totals db = Some t -> totals_fit (closed_totals attempt b charged db t) = true ->
  settle_total (l_total_tokens b) charged (l_prompt_tokens b) attempt db =
    Ok (tt, on_totals (fun _ => Some (closed_totals attempt b charged db t)) db).
Proof.
  intros Ht Hf. unfold settle_total, tx_bind, tx_get, update_totals. rewrite Ht. unfold closed_totals in Hf. by rewrite Hf.
Qed.

Record reconcilable (db : LedgerDb) (rows : list SettlementRow) : Prop := mkReconcilable {
  rb_open : dispatched_rows db = rows;
  rb_ledger : ledger_inv db;
  rb_sends : sends_inv db;
  rb_linked : linked db;
  rb_room : exists t, usage_totals db = Some t /\ headroom t rows;
}.

Lemma reconcile_one_total row rest db :
  reconcilable db (row :: rest) ->
  exists db', reconcile_one (se_attempt row) (se_bound row) db = Ok (true, db') /\ reconcilable db' rest /\ same_weight db db'.
Proof.
  intros [Hopen Hinv Hsends Hl (t & Ht & Hroom)]. pose proof Hsends as [_ _ Hnd (t' & Ht' & Hag)].
  rewrite Ht in Ht'. injection Ht' as <-.
  destruct (dispatched_split _ _ _ Hnd Hopen) as (Hrow & Hst & Hrest).
  set (reserved := reservation_is_open (se_attempt row) db).
  set (charged := if reserved then Some (se_bound row) else None).
  set (closed := after_close (se_attempt row) UnknownExactness (Some "interrupted") 0 default_bins charged db).
  set (db1 := on_totals (fun _ => Some (closed_totals (se_attempt row) default_bins charged closed t)) closed).
  assert (Hbounds : forall s, s ∈ row :: rest -> (0 <= se_bound s)%Z).
  { intros s Hs. apply (li_bounds _ Hinv). rewrite <- Hopen in Hs. by apply list_elem_of_filter in Hs as [_ Hs]. }
  assert (Hroom1 : headroom (closed_totals (se_attempt row) default_bins charged closed t) rest).
  { apply (closed_headroom _ _ _ _ row _ (settlements db)); [done|done|apply Hbounds; left| |].
    - intros s Hs. apply Hbounds. by right.
    - intros c. subst charged. by destruct reserved; [intros [= <-]|]. }
  assert (Hsettle : settle_settlement (se_attempt row) UnknownExactness (Some "interrupted") 0 default_bins charged db =
                    Ok (true, closed)).
  { unfold settle_settlement. f_equal. f_equal. apply existsb_exists. exists row. rewrite <- list_elem_of_In.
    split; [done|]. by apply bool_decide_eq_true_2. }
  assert (Htotal : settle_total None charged None (se_attempt row) closed = Ok (tt, db1)).
  { apply (settle_total_total _ default_bins); [done|apply Hroom1]. }
  assert (Hlinks : forall r, r ∈ reservations db1 -> br_id r = se_attempt row -> br_bound r = se_bound row).
  { intros r Hr Hid. destruct (Hl r Hr) as (s & Hs & Ha & <-). f_equal.
    apply list_elem_of_lookup in Hs as [i Hi]. apply list_elem_of_lookup in Hrow as [j Hj].
    assert (i = j) as <-; [|congruence]. eapply (NoDup_lookup _ _ _ (se_attempt row)); [done|..];
      rewrite list_lookup_fmap, ?Hi, ?Hj; [|done]. cbn. by rewrite Ha, Hid. }
  assert (Hinv1 : ledger_inv db1) by (eapply ledger_inv_frame; [apply closes_frame|done]).
  assert (Hres : exists db2, (if reserved then resolve_reservation_tx (se_attempt row) RsCharged (Some (se_bound row)) false
                              else tx_ret tt) db1 = Ok (tt, db2) /\ same_weight db1 db2).
  { destruct reserved eqn:Er; [|by exists db1]. destruct (resolve_total (se_attempt row) (se_bound row) db1) as [db2 H2];
      [done|exact Er|apply Hbounds; left|done|]. exists db2. split; [done|]. by eapply resolve_weight. }
  destruct Hres as (db2 & H2 & Hweight). exists db2.
  assert (Hone : reconcile_one (se_attempt row) (se_bound row) db = Ok (true, db2)).
  { unfold reconcile_one. unfold tx_bind at 1. unfold tx_get at 1. fold reserved. fold charged.
    unfold tx_bind at 1. rewrite Hsettle. cbn [negb]. unfold tx_bind at 1. rewrite Htotal. unfold tx_bind at 1.
    by rewrite H2. }
  assert (Hdb2 : settlements db2 = settlements db1 /\ usage_totals db2 = usage_totals db1).
  { destruct reserved; [|by injection H2 as <-]. by apply resolve_same_sends in H2 as []. }
  destruct Hdb2 as [E1 E2]. split_and!; [done| |exact Hweight]. split.
  - unfold dispatched_rows. rewrite E1. apply Hrest.
  - eapply reconcile_one_keeps; [|exact Hone|done]. apply Hbounds. left.
  - by eapply reconcile_one_sends.
  - eapply linked_same; [by eapply reconcile_one_links|done].
  - rewrite E2. by eexists.
Qed.

Lemma reconcile_rows_total rows n db :
  reconcilable db rows ->
  exists db', reconcile_rows rows n db = Ok ((n + zlen rows)%Z, db') /\ dispatched_rows db' = [] /\ same_weight db db'.
Proof.
  revert n db. induction rows as [|row rows IH]; intros n db Hdb.
  - exists db. split_and!; [|apply Hdb|done]. cbn. unfold tx_ret. by rewrite Z.add_0_r.
  - destruct (reconcile_one_total row rows db Hdb) as (db1 & Hone & Hdb1 & Hw1).
    destruct (IH (n + 1)%Z db1 Hdb1) as (db2 & Hrest & Hopen & Hw2). exists db2. split_and!; [|done|by etrans].
    cbn [reconcile_rows]. unfold tx_bind. rewrite Hone, Hrest, zlen_cons. do 2 f_equal. lia.
Qed.
