(* ===== verification/LedgerProps.v ===== *)
(** The guarantees of the ledger over every run of its calls and the task store's:
    no scope is overspent, a dispatch reserves everywhere or nowhere, a send settles
    once and charges what it confirmed under its bound, an interrupted send closes
    on reopening, the totals are the aggregate, and what has ended stays ended. *)

From stdpp Require Import sorting pretty.
From S2P Require Import Prelude.
From S2P Require Import Contracts.
From S2P Require Import Requests.
From S2P Require Import Notifications.
From S2P Require Import Store.
From S2P Require Import TaskDb.
From S2P Require Import PlanGate.
From S2P Require Import TaskStore.
From S2P Require Import TaskCalls.
From S2P Require Import Codecs.
From S2P Require Import Routes.
From S2P Require Import LedgerDb.
From S2P Require Import Ledger.
From S2P Require Import Sends.
From S2P Require Import LedgerCalls.
From S2P Require Import LedgerThms.
From S2P Require Import LedgerTotals.
From S2P Require Import LedgerLive.

(** * What has ended *)

(** A settled send, a resolved reservation, a stopped worker and a closed grant are
    final, and a limit never moves. *)
Record final (db db' : LedgerDb) : Prop := mkFinal {
  fi_settled : forall s, s ∈ settlements db -> se_state s = Settled -> s ∈ settlements db';
  fi_resolved : forall r, r ∈ reservations db -> br_state r <> RsReserved -> r ∈ reservations db';
  fi_stopped : forall task w, work_budgets db !! task = Some w ->
    exists w', work_budgets db' !! task = Some w' /\ wb_deadline w' = wb_deadline w /\
      wb_send_bound w' = wb_send_bound w /\ (wb_state w = WorkStopped -> w' = w);
  fi_closed : forall grant g, sharing_grants db !! grant = Some g ->
    exists g', sharing_grants db' !! grant = Some g' /\ sg_task g' = sg_task g /\
      sg_expires_at g' = sg_expires_at g /\ (sg_state g <> GrantOpen -> g' = g);
  fi_limit : forall scope row, scopes db !! scope = Some row ->
    exists row', scopes db' !! scope = Some row' /\ bs_limit row' = bs_limit row;
}.

#[export] Instance final_preorder : PreOrder final.
Proof.
  split.
  - intros db. split; [done|done|..]; intros ? x Hx; exists x; by split_and?.
  - intros a b c [S1 R1 W1 G1 L1] [S2 R2 W2 G2 L2]. split; [auto|auto|..].
    + intros task w (w1 & (w2 & Hw2 & ? & ? & H2)%W2 & ? & ? & H1)%W1. exists w2. split_and!; [done|congruence|congruence|].
      intros Hs. rewrite <- (H1 Hs). apply H2. by rewrite (H1 Hs).
    + intros grant g (g1 & (g2 & Hg2 & ? & ? & H2)%G2 & ? & ? & H1)%G1. exists g2. split_and!; [done|congruence|congruence|].
      intros Hs. rewrite <- (H1 Hs). apply H2. by rewrite (H1 Hs).
    + intros scope row (row1 & (row2 & ? & ?)%L2 & ?)%L1. exists row2. split; [done|congruence].
Qed.

(** The tables a statement leaves, one by one. *)
Lemma final_of db db' :
  settlements db' = settlements db -> reservations db' = reservations db -> work_budgets db' = work_budgets db ->
  sharing_grants db' = sharing_grants db ->
  (forall scope row, scopes db !! scope = Some row -> exists row', scopes db' !! scope = Some row' /\ bs_limit row' = bs_limit row) ->
  final db db'.
Proof.
  intros E1 E2 E3 E4 Hl. split; rewrite ?E1, ?E2, ?E3, ?E4; [done|done|..|done]; intros ? x Hx; exists x; by split_and?.
Qed.

Lemma final_tables db db' :
  settlements db' = settlements db -> reservations db' = reservations db -> work_budgets db' = work_budgets db ->
  sharing_grants db' = sharing_grants db -> scopes db' = scopes db -> final db db'.
Proof. intros ? ? ? ? E. apply final_of; [done..|]. rewrite E. intros scope row Hr. by exists row. Qed.

Lemma final_insert_scope scope limit db db' : insert_scope scope limit db = Ok (tt, db') -> final db db'.
Proof.
  unfold insert_scope. destruct (scopes db !! scope) eqn:E; [done|]. intros [= <-]. apply final_of; [done..|].
  intros sc row Hr. exists row. cbn. rewrite lookup_insert_ne by congruence. done.
Qed.

Lemma final_reserve_one id bound scope db db' : reserve_one id bound scope db = Ok (tt, db') -> final db db'.
Proof.
  unfold reserve_one. intros H. apply tx_bind_Ok in H as (ok & db1 & Hu & H). apply update_scope_Ok in Hu.
  destruct ok; [|done]. destruct Hu as (row & Hrow & _ & _ & ->). unfold insert_reservation in H. case_match; [done|].
  injection H as <-. split; cbn; [done| | | |].
  - intros r Hr _. apply elem_of_app. by left.
  - intros ? x Hx. exists x. by split_and?.
  - intros ? x Hx. exists x. by split_and?.
  - intros sc row0 Hr. destruct (decide (scope = sc)) as [<-|].
    + rewrite lookup_insert_eq. eexists. split; [done|]. cbn. congruence.
    + rewrite lookup_insert_ne by done. by exists row0.
Qed.

Lemma final_resolve id terminal confirmed release db db' :
  resolve_reservation_tx id terminal confirmed release db = Ok (tt, db') -> final db db'.
Proof.
  intros (_ & Hopen & _ & ->)%resolve_Ok. split; cbn; [done| | | |].
  - intros r Hr Hs. apply list_elem_of_fmap. exists r. split; [|done]. case_decide as Hid; [|done].
    exfalso. apply Hs, Hopen. by apply reservation_rows_spec.
  - intros ? x Hx. exists x. by split_and?.
  - intros ? x Hx. exists x. by split_and?.
  - intros scope row Hrow. unfold resolve_all. revert Hrow. generalize (scopes db). revert row.
    induction (reservation_rows id db) as [|r rows IH]; intros row m Hrow; [by exists row|]. cbn [fold_left].
    destruct (decide (br_scope r = scope)) as [<-|].
    + assert (Hr : alter (resolved confirmed release r) (br_scope r) m !! br_scope r = Some (resolved confirmed release r row))
        by (by rewrite lookup_alter_eq, Hrow).
      apply IH in Hr; [|intros q Hq; apply Hopen; by right]. destruct Hr as (row' & Hr' & Hl). exists row'. split; [done|].
      rewrite Hl. unfold resolved. by case_match.
    + apply IH; [intros q Hq; apply Hopen; by right|]. by rewrite lookup_alter_ne.
Qed.

Lemma final_closes attempt e unknown retries b charged totals db :
  final db (on_totals totals (after_close attempt e unknown retries b charged db)).
Proof.
  split; cbn; [|done|..]; [|intros ? x Hx; exists x; by split_and?..].
  intros s Hs Hst. apply list_elem_of_fmap. exists s. split; [|done]. unfold close_row.
  rewrite bool_decide_eq_false_2; [done|]. intros [_ Hd]. congruence.
Qed.

Lemma final_finish attempt reserved e unknown retries b charged db db' :
  finish_send_tx attempt reserved e unknown retries b charged db = Ok (tt, db') -> final db db'.
Proof.
  intros (_ & db1 & -> & H)%finish_send_Ok. destruct reserved.
  - etrans; [apply final_closes|by eapply final_resolve].
  - subst db'. apply final_closes.
Qed.

Lemma final_begin names context attempt bound db open db' :
  begin_send_tx names context attempt bound db = Ok (open, db') -> final db db'.
Proof.
  intros (-> & _ & db1 & t & rowid & Hr & _ & _ & _ & ->)%begin_send_Ok. trans db1.
  - eapply (each_keeps (final db)); [|exact Hr|reflexivity]. intros scope db2 db3 _ H H2.
    etrans; [done|by eapply final_reserve_one].
  - split; cbn; [|done|intros ? x Hx; exists x; by split_and?..]. intros s Hs _. apply elem_of_app. by left.
Qed.

Lemma final_grant grant g row db :
  sharing_grants db !! grant = Some row -> sg_state row = GrantOpen -> sg_task g = sg_task row ->
  sg_expires_at g = sg_expires_at row -> final db (on_sharing_grants (<[grant := g]>) db).
Proof.
  intros Hg Hs Ht He. split; cbn; [done|done|intros ? x Hx; exists x; by split_and?| |intros ? x Hx; exists x; by split_and?].
  intros grant' g' Hg'. destruct (decide (grant = grant')) as [<-|].
  - rewrite lookup_insert_eq. exists g. rewrite Hg in Hg'. injection Hg' as <-. by split_and!.
  - rewrite lookup_insert_ne by done. by exists g'.
Qed.

Lemma final_transition grant session require guard closed db g db' :
  transition_sharing_grant_tx grant session require guard closed db = Ok (g, db') -> final db db'.
Proof.
  intros (row & Hrow & _ & [(Hs & _ & ->)|(-> & _)])%transition_grant_Ok; [|done]. by eapply final_grant.
Qed.

Lemma final_reconcile_one attempt bound db closed db' :
  reconcile_one attempt bound db = Ok (closed, db') -> final db db'.
Proof.
  intros H%reconcile_one_Ok. destruct closed; [by eapply final_finish|]. destruct H as [Hs ->]. by apply final_tables.
Qed.

Lemma final_step c db db' : lstep c db db' -> final db db'.
Proof.
  intros [|A m a db1 Htx Hm|tdb]; [done| |by apply final_tables].
  destruct Htx.
  - unfold open_budget_tx in Hm. tx_got Hm. case_match; [done|]. destruct a. by eapply final_insert_scope.
  - unfold budget_reserve_tx in Hm. tx_got Hm. case_match; [done|]. destruct a.
    eapply (each_keeps (final db)); [|exact Hm|reflexivity]. intros scope db2 db3 _ Hr H2.
    etrans; [done|by eapply final_reserve_one].
  - destruct a. by eapply final_resolve.
  - destruct a. by eapply final_resolve.
  - unfold open_work_budget_tx in Hm. tx_got Hm. destruct (tasks _ !! _); [|done].
    destruct (work_budgets _ !! _) eqn:Ew; [done|]. destruct (bool_decide _); [done|].
    apply tx_bind_Ok in Hm as ([] & db2 & Hs & Hm). pose proof Hs as Hf%final_insert_scope. etrans; [exact Hf|].
    unfold insert_scope in Hs. case_match; [done|]. injection Hs as <-. inv_tx.
    all: split; cbn; [done|done| |intros ? x Hx; exists x; by split_and?..].
    all: intros task' w Hw; rewrite lookup_insert_ne by congruence; by exists w.
  - apply stop_work_Ok in Hm as [Hopen ->]. split; cbn; [done|done| |intros ? x Hx; exists x; by split_and?..].
    intros task' w Hw. destruct (decide (task = task')) as [<-|].
    + rewrite lookup_alter_eq, Hw. rewrite Hw in Hopen. injection Hopen as Ho. eexists. split; [reflexivity|].
      unfold stop_row. rewrite decide_True by done. split_and!; [done|done|]. intros Hst. congruence.
    + rewrite lookup_alter_ne by done. by exists w.
  - by eapply final_begin.
  - destruct a. by eapply final_finish.
  - unfold reconcile_sends_tx in Hm. tx_got Hm. eapply (reconcile_rows_keeps (final db)); [|exact Hm|reflexivity].
    intros row db2 closed db3 _ H H2. etrans; [done|by eapply final_reconcile_one].
  - apply open_grant_Ok in Hm as (_ & Hno & ->). split; cbn; [done|done|intros ? x Hx; exists x; by split_and?| |intros ? x Hx; exists x; by split_and?].
    intros grant' g' Hg'. rewrite lookup_insert_ne by congruence. by exists g'.
  - by eapply final_transition.
  - by eapply final_transition.
  - by eapply final_transition.
  - unfold fail_open_sharing_grants_tx in Hm. inv_tx. split; cbn; [done|done|intros ? x Hx; exists x; by split_and?| |intros ? x Hx; exists x; by split_and?].
    intros grant g Hg. rewrite lookup_fmap, Hg. eexists. split; [reflexivity|]. unfold fail_grant. by case_decide.
Qed.

(** * Lemmas of the dispatch *)

Lemma open_scopes_spec names db :
  NoDup (open_scopes names db) /\
  forall scope, scope ∈ open_scopes names db <-> scope ∈ names /\ is_Some (scopes db !! scope).
Proof.
  unfold open_scopes.
  assert (Hgen : forall acc, NoDup acc ->
    let open := fold_left (fun open scope =>
      if bool_decide (is_Some (scopes db !! scope)) && negb (bool_decide (scope ∈ open)) then open ++ [scope] else open)
      names acc in
    NoDup open /\ forall scope, scope ∈ open <-> scope ∈ acc \/ scope ∈ names /\ is_Some (scopes db !! scope)).
  { induction names as [|n names IH]; intros acc Hnd; cbn.
    - split; [done|]. intros scope. split; [by left|]. by intros [?|[?%elem_of_nil _]].
    - destruct (bool_decide (is_Some (scopes db !! n)) && negb (bool_decide (n ∈ acc))) eqn:E.
      + apply andb_true_iff in E as [Hs%bool_decide_eq_true_1 Hn%negb_true_iff%bool_decide_eq_false_1].
        destruct (IH (acc ++ [n])) as [H1 H2].
        { apply NoDup_app. split_and!; [done| |apply NoDup_singleton]. intros x Hx ->%list_elem_of_singleton. done. }
        split; [done|]. intros scope. rewrite H2, elem_of_app, list_elem_of_singleton, elem_of_cons. naive_solver.
      + destruct (IH acc Hnd) as [H1 H2]. split; [done|]. intros scope. rewrite H2, elem_of_cons.
        apply andb_false_iff in E as [Hs%bool_decide_eq_false_1|Hn%negb_false_iff%bool_decide_eq_true_1]; naive_solver. }
  destruct (Hgen [] (NoDup_nil_2)) as [H1 H2]. split; [done|]. intros scope. rewrite H2. split; [|by right].
  by intros [?%elem_of_nil|].
Qed.

Lemma each_check_bounds names db db' :
  each check_send_bound names db = Ok (tt, db') ->
  forall scope w, scope ∈ names -> work_budgets db !! scope = Some w -> wb_state w = WorkOpen ->
  (settled_sends scope db < wb_send_bound w)%Z.
Proof.
  revert db. induction names as [|n names IH]; intros db H scope w Hin Hw Ho; [by apply elem_of_nil in Hin|].
  cbn [each] in H. apply tx_bind_Ok in H as ([] & db1 & Hc & H). pose proof (check_send_bound_Ok _ _ _ Hc) as ->.
  apply elem_of_cons in Hin as [->|Hin]; [|by eapply IH]. unfold check_send_bound in Hc. tx_got Hc.
  rewrite Hw, Ho in Hc. rewrite (bool_decide_eq_true_2 (WorkOpen = WorkOpen)) in Hc by done. cbn [andb] in Hc.
  case_bool_decide as Hb; [|lia]. apply tx_bind_Ok in Hc as (? & ? & _ & Hc). by apply tx_bind_Ok in Hc as (? & ? & _ & Hc).
Qed.

(** What reserving at a list of scopes leaves in each. *)
Lemma each_reserve_scopes id bound names db db' :
  NoDup names -> each (reserve_one id bound) names db = Ok (tt, db') ->
  forall scope, scopes db' !! scope =
    (fun row => if decide (scope ∈ names) then mkScope (bs_limit row) (bs_spent row) (bs_reserved row + bound) else row)
      <$> scopes db !! scope /\
    (scope ∈ names -> exists row, scopes db !! scope = Some row /\ (bs_spent row + bs_reserved row + bound <= bs_limit row)%Z).
Proof.
  revert db. induction names as [|n names IH]; intros db Hnd H scope.
  { injection H as <-. split; [|by intros ?%elem_of_nil]. destruct (scopes db !! scope); [|done]. cbn.
    rewrite decide_False; [done|by intros ?%elem_of_nil]. }
  apply NoDup_cons in Hnd as [Hn Hnd]. cbn [each] in H. apply tx_bind_Ok in H as ([] & db1 & Hr & H).
  unfold reserve_one in Hr. apply tx_bind_Ok in Hr as (ok & db2 & Hu & Hr). apply update_scope_Ok in Hu.
  destruct ok; [|done]. destruct Hu as (row & Hrow & Hg%bool_decide_eq_true_1 & _ & ->).
  unfold insert_reservation in Hr. case_match; [done|]. injection Hr as <-.
  destruct (IH _ Hnd H scope) as [E Hs]. cbn in E, Hs. rewrite E. destruct (decide (n = scope)) as [<-|Hne].
  - rewrite !lookup_insert_eq, Hrow. cbn. rewrite decide_False, decide_True by set_solver. split; [done|]. by exists row.
  - rewrite !lookup_insert_ne in * by done. split.
    + destruct (scopes db !! scope); [|done]. cbn. f_equal. do 2 case_decide; set_solver.
    + intros [->|Hin]%elem_of_cons; [done|by apply Hs].
Qed.

(** * The guarantees *)

Section Guarantees.
Context `{JsonCodec AnswerSelection} `{JsonCodec CommandResult} `{JsonCodec AnsweredForkIdentity}.
Context `{JsonCodec (SessionId * string * string * list string * list string)}.
Variable generate : nat -> string.
Variable sha256_hex : string -> string.
Local Abbreviation run_calls cs := (lcalls generate sha256_hex cs fresh_ledger).

Lemma run_ledger cs db :
  Forall u64_args cs -> ts_conn (run_calls cs) = Some db -> ledger_inv db /\ sends_inv db.
Proof.
  intros Hu Hdb. split.
  - apply (lcalls_invariant generate sha256_hex ledger_inv u64_args cs fresh_ledger empty_ledger db); [|done|reflexivity|apply ledger_inv_empty|done].
    intros c db1 db2 Hc Hs. by eapply ledger_inv_step.
  - apply (lcalls_invariant generate sha256_hex sends_inv (fun _ => True) cs fresh_ledger empty_ledger db); [| |reflexivity|apply sends_inv_empty|done].
    + intros c db1 db2 _ Hs. by eapply sends_inv_step.
    + by apply Forall_forall.
Qed.

Lemma run_linked cs db :
  Forall reserves_by_sends cs -> ts_conn (run_calls cs) = Some db -> linked db.
Proof.
  intros Hu Hdb. apply (lcalls_invariant generate sha256_hex linked reserves_by_sends cs fresh_ledger empty_ledger db); [|done|reflexivity| |done].
  - intros c db1 db2 Hc Hs. by eapply linked_step.
  - intros r Hr. by apply elem_of_nil in Hr.
Qed.

(** C6.  No scope is overspent: whatever calls run between, a scope's reserved column
    is exactly what its open reservations hold, its spent column what its charged
    ones cost, neither is negative, and together they stay under the limit. *)
Theorem budgets_balance cs db scope row :
  Forall u64_args cs -> ts_conn (run_calls cs) = Some db -> scopes db !! scope = Some row ->
  bs_reserved row = held scope (reservations db) /\ bs_spent row = costs scope (reservations db) /\
  (0 <= bs_spent row /\ 0 <= bs_reserved row /\ bs_spent row + bs_reserved row <= bs_limit row <= i64_max)%Z.
Proof.
  intros Hu Hdb Hrow. destruct (run_ledger cs db Hu Hdb) as [Hinv _].
  destruct (li_scopes _ Hinv scope row Hrow) as (E1 & E2 & E3).
  pose proof (costs_nonneg db Hinv scope). pose proof (held_nonneg db Hinv scope). split_and!; [done|done|lia..].
Qed.

(** The incremental totals are the aggregate: after any run the totals' row is
    present and not stale, and reads as the row the backfill would compute from the
    settlements. *)
Theorem totals_are_incremental cs db :
  Forall u64_args cs -> ts_conn (run_calls cs) = Some db ->
  exists t, usage_totals db = Some t /\ totals_view t = totals_view (totals_of (settlements db)) /\
    totals_stale db = false.
Proof.
  intros Hu Hdb. destruct (run_ledger cs db Hu Hdb) as [_ [Hsort Hpos _ (t & Ht & Hag)]]. exists t.
  split_and!; [done|by apply agrees_view|]. unfold totals_stale. rewrite Ht, (ag_next _ _ Hag), (ag_dispatched _ _ Hag).
  unfold totals_of, dispatched_rows. cbn. rewrite bool_decide_eq_true_2 by done. rewrite orb_false_r.
  destruct (max_rowid (settlements db)) eqn:Em; [|done]. apply bool_decide_eq_false_2. cbn. lia.
Qed.

(** What has ended stays ended: a settled send and a resolved reservation keep
    their row, a stopped worker is not reopened, a closed grant not granted again,
    and no limit moves, over any further calls. *)
Theorem ends_are_final cs cs' db db' :
  ts_conn (run_calls cs) = Some db -> ts_conn (run_calls (cs ++ cs')) = Some db' -> final db db'.
Proof.
  intros Hdb Hdb'. unfold lcalls in Hdb'. rewrite fold_left_app in Hdb'.
  eapply (lcalls_relation generate sha256_hex final (fun _ => True) cs'); [| |exact Hdb|exact Hdb'].
  - intros c db1 db2 _ Hs. by eapply final_step.
  - by apply Forall_forall.
Qed.

(** C7.  A dispatch reserves at every open scope of its chain or at none: a ticket
    means that each of them holds the bound on top of what it held, under its limit,
    and that no worker open there had reached its send bound; a refusal leaves the
    store as it was. *)
Theorem dispatch_reserves_everywhere_or_nowhere names context manifest (s : LStore) db :
  conn_mut s = Ok db ->
  match begin_send names context manifest s with
  | (Err _, s') => s' = s
  | (Ok ticket, s') =>
      tkt_attempt_id ticket = mf_attempt_id manifest /\ tkt_cost_bound ticket = mf_cost_bound manifest /\
      tkt_reserved ticket = existsb (fun scope => bool_decide (is_Some (scopes db !! scope))) names /\
      exists db', ts_conn s' = Some db' /\ forall scope,
        scopes db' !! scope =
          (fun row => if decide (scope ∈ names)
                      then mkScope (bs_limit row) (bs_spent row) (bs_reserved row + mf_cost_bound manifest) else row)
          <$> scopes db !! scope /\
        (forall row, scope ∈ names -> scopes db !! scope = Some row ->
          (bs_spent row + bs_reserved row + mf_cost_bound manifest <= bs_limit row)%Z /\
          forall w, work_budgets db !! scope = Some w -> wb_state w = WorkOpen ->
            (settled_sends scope db < wb_send_bound w)%Z)
  end.
Proof using Type.
  clear generate sha256_hex. intros Hs. unfold begin_send. destruct (budget_units_i64 _) as [bound|] eqn:Eb; [|done].
  apply budget_units_Ok in Eb as [-> _]. unfold transaction. rewrite Hs.
  destruct (begin_send_tx _ _ _ _ db) as [[open db']|] eqn:Et; [|done]. cbn.
  pose proof Et as (-> & Hno & db1 & t & rowid & Hr & Ht & Hid & Hnew & ->)%begin_send_Ok.
  destruct (open_scopes_spec names db) as [Hnd Hspec].
  assert (Hcheck : each check_send_bound (open_scopes names db) db = Ok (tt, db)).
  { unfold begin_send_tx in Et. tx_got Et. rewrite Hno in Et. apply tx_bind_Ok in Et as ([] & db2 & Hc & _).
    by pose proof (each_check_Ok _ _ _ Hc) as ->. }
  split_and!; [done|done| |].
  { apply eq_true_iff_eq. rewrite negb_true_iff, bool_decide_eq_false, existsb_exists. split.
    - destruct (open_scopes names db) as [|x l] eqn:Eo; [done|]. intros _. exists x.
      destruct (proj1 (Hspec x) ltac:(left)) as [? ?]. rewrite <- list_elem_of_In. split; [done|]. by apply bool_decide_eq_true_2.
    - intros (x & Hx%list_elem_of_In & Hso%bool_decide_eq_true_1) Ho. specialize (Hspec x). rewrite Ho in Hspec.
      apply (not_elem_of_nil x). by apply Hspec. }
  eexists. split; [reflexivity|]. intros scope.
  destruct (each_reserve_scopes _ _ _ _ _ Hnd Hr scope) as [E Hroom]. cbn. rewrite E. split.
  - destruct (scopes db !! scope) as [row|] eqn:Erow; [|done]. cbn. f_equal.
    specialize (Hspec scope). rewrite Erow in Hspec. do 2 case_decide; naive_solver.
  - intros row Hin Hrow. assert (Hopen : scope ∈ open_scopes names db) by (apply Hspec; by rewrite Hrow).
    destruct (Hroom Hopen) as (row' & Hrow' & Hfit). rewrite Hrow in Hrow'. injection Hrow' as <-. split; [done|].
    intros w Hw Ho. by eapply each_check_bounds.
Qed.

(** Settling a send charges every scope that held its bound the confirmed total
    under that bound, the whole bound where nothing was confirmed, returns the rest
    of the hold, and records the provider's own bins beside the charge. *)
Theorem settling_charges_the_confirmed_total cs db s ticket outcome s' :
  Forall u64_args cs -> s = run_calls cs -> ts_conn s = Some db ->
  finish_send ticket outcome s = (Ok tt, s') ->
  let charge := match confirmed_total (outcome_usage outcome) with
                | Some total => Z.min total (tkt_cost_bound ticket) | None => tkt_cost_bound ticket end in
  exists db', ts_conn s' = Some db' /\
  (exists row, row ∈ settlements db' /\ se_attempt row = tkt_attempt_id ticket /\ se_state row = Settled /\
     se_bins row = bins (outcome_usage outcome) /\ se_charged row = if tkt_reserved ticket then Some charge else None) /\
  forall scope row, scopes db !! scope = Some row ->
    match find (fun r => bool_decide (br_scope r = scope)) (reservation_rows (tkt_attempt_id ticket) db),
          tkt_reserved ticket with
    | Some r, true =>
        (charge <= br_bound r)%Z /\
        scopes db' !! scope = Some (mkScope (bs_limit row) (bs_spent row + charge) (bs_reserved row - br_bound r))
    | _, _ => scopes db' !! scope = Some row
    end.
Proof.
  intros Hu -> Hdb. destruct (run_ledger cs db Hu Hdb) as [Hinv Hsends]. unfold finish_send.
  destruct (_ && _); [done|]. destruct (transpose _ _) as [charged|] eqn:Ec; cbn [rbind]; [|done].
  apply transposed_units in Ec as ->. destruct (stored_bins _) as [b|] eqn:Eb; cbn [rbind]; [|done].
  apply stored_bins_Ok in Eb as ->. set (charged := charge_of ticket _).
  intros Ht. set (charge := match confirmed_total _ with Some _ => _ | None => _ end).
  assert (Hcharged : charged = if tkt_reserved ticket then Some charge else None) by done.
  assert (Hok : (transaction (finish_send_tx (tkt_attempt_id ticket) (tkt_reserved ticket)
    (exactness (outcome_usage outcome)) (unknown_reason outcome) (outcome_retries outcome) (bins (outcome_usage outcome))
    charged) (run_calls cs)).1 = Ok tt) by by rewrite Ht.
  apply transaction_Ok in Hok as (db0 & db' & Hc & Hm & Hs'). rewrite Ht in Hs'. cbn in Hs'. subst s'.
  assert (db0 = db) as ->. { unfold conn_mut in Hc. rewrite Hdb in Hc. repeat case_match; congruence. }
  exists db'. split; [done|].
  pose proof Hm as ((row & Hrow & Ha & Hst) & db1 & Edb1 & Hres)%finish_send_Ok.
  assert (Hclosed : settled_row (exactness (outcome_usage outcome)) (unknown_reason outcome) (outcome_retries outcome)
    (bins (outcome_usage outcome)) charged row ∈ settlements db1).
  { rewrite Edb1. cbn. apply list_elem_of_fmap. exists row. split; [|done]. unfold close_row.
    by rewrite bool_decide_eq_true_2. }
  assert (Hrows : reservation_rows (tkt_attempt_id ticket) db1 = reservation_rows (tkt_attempt_id ticket) db)
    by (by rewrite Edb1).
  destruct (tkt_reserved ticket) eqn:Er.
  - pose proof Hres as [Esettle _]%resolve_same_sends. split.
    { eexists. split; [rewrite Esettle; exact Hclosed|]. by rewrite <- Ha, <- Hcharged. }
    apply resolve_Ok in Hres as (_ & _ & Hbound & ->). intros scope srow Hscope. cbn. rewrite Hrows in *.
    rewrite resolve_all_lookup by (apply reservation_rows_NoDup, Hinv). rewrite Edb1. cbn. rewrite Hscope. cbn.
    destruct (find _ _) as [r|] eqn:Ef; [|done]. apply find_Some in Ef as [Hr _].
    rewrite Hcharged in *. cbn. split; [by eapply Hbound|done].
  - subst db'. split; [eexists; split; [exact Hclosed|by rewrite <- Ha, <- Hcharged]|]. intros scope srow Hscope.
    rewrite Edb1. cbn. by destruct (find _ _).
Qed.

(** A send settles once: after its settlement, any later one, with any ticket of
    that attempt and after any further calls, is refused and changes nothing. *)
Theorem a_send_settles_once cs cs' ticket outcome db ticket' outcome' :
  ts_conn (run_calls cs) = Some db ->
  (finish_send ticket outcome (run_calls cs)).1 = Ok tt ->
  tkt_attempt_id ticket' = tkt_attempt_id ticket ->
  let s := run_calls (cs ++ FinishSend ticket outcome :: cs') in
  (finish_send ticket' outcome' s).1 <> Ok tt /\ (finish_send ticket' outcome' s).2 = s.
Proof.
  intros Hdb Hfirst Ha. set (s := run_calls (cs ++ FinishSend ticket outcome :: cs')). cbn zeta.
  assert (Hrefused : (finish_send ticket' outcome' s).1 <> Ok tt).
  { intros Hok. destruct (ts_conn s) as [db2|] eqn:Hdb2.
    2:{ revert Hok. unfold finish_send. destruct (_ && _); [done|]. destruct (rbind _ _) as [[? ?]|]; [|done].
        unfold transaction, conn_mut. rewrite Hdb2. by repeat case_match. }
    assert (Hsends : forall cs db, ts_conn (run_calls cs) = Some db -> sends_inv db).
    { intros cs0 db0 Hdb0. apply (lcalls_invariant generate sha256_hex sends_inv (fun _ => True) cs0 fresh_ledger
        empty_ledger db0); [|by apply Forall_forall|reflexivity|apply sends_inv_empty|done].
      intros c db1 db3 _ Hs. by eapply sends_inv_step. }
    assert (Htx : forall t o s, (finish_send t o s).1 = Ok tt -> exists db db',
      conn_mut s = Ok db /\ ts_conn (finish_send t o s).2 = Some db' /\
      (exists row, row ∈ settlements db /\ se_attempt row = tkt_attempt_id t /\ se_state row = Dispatched) /\
      (exists row, row ∈ settlements db' /\ se_attempt row = tkt_attempt_id t /\ se_state row = Settled)).
    { clear. intros t o s. unfold finish_send. destruct (_ && _); [done|]. destruct (rbind _ _) as [[charged b]|]; [|done].
      intros (db & db' & Hc & Hm & Hs)%transaction_Ok. exists db, db'. rewrite Hs.
      apply finish_send_Ok in Hm as ((row & Hrow & Hra & Hst) & db1 & Edb1 & Hres).
      split_and!; [done|done|by exists row|]. assert (settlements db' = settlements db1) as ->.
      { destruct (tkt_reserved t); [by apply resolve_same_sends in Hres as []|by subst]. }
      exists (settled_row (exactness (outcome_usage o)) (unknown_reason o) (outcome_retries o) b charged row).
      split; [|done]. rewrite Edb1. cbn. apply list_elem_of_fmap. exists row. split; [|done]. unfold close_row.
      by rewrite bool_decide_eq_true_2. }
    destruct (Htx _ _ _ Hfirst) as (db0 & db1 & _ & Hdb1 & _ & (row & Hrow & Hra & Hst)).
    destruct (Htx _ _ _ Hok) as (db3 & db4 & Hc & _ & (row' & Hrow' & Hra' & Hst') & _).
    assert (db3 = db2) as -> by (unfold conn_mut in Hc; rewrite Hdb2 in Hc; repeat case_match; congruence).
    assert (Hfinal : final db1 db2).
    { eapply (lcalls_relation generate sha256_hex final (fun _ => True) cs'); [|by apply Forall_forall|exact Hdb1|].
      - intros c dba dbb _ Hs. by eapply final_step.
      - rewrite <- Hdb2. subst s. unfold lcalls. rewrite fold_left_app. done. }
    pose proof (fi_settled _ _ Hfinal row Hrow Hst) as Hin2.
    destruct (Hsends _ _ Hdb2) as [_ _ Hnd _].
    apply list_elem_of_lookup in Hin2 as [i Hi]. apply list_elem_of_lookup in Hrow' as [j Hj].
    assert (i = j) as <-; [|congruence]. eapply (NoDup_lookup _ _ _ (tkt_attempt_id ticket)); [done|..];
      rewrite list_lookup_fmap, ?Hi, ?Hj; cbn; congruence. }
  split; [exact Hrefused|]. revert Hrefused. unfold finish_send. destruct (_ && _); [done|].
  destruct (rbind _ _) as [[charged b]|]; [|done]. intros Hne.
  destruct (transaction _ s).1 as [[]|e] eqn:Et; [by destruct Hne|]. by apply transaction_Err in Et.
Qed.

(** C8.  Reopening closes every interrupted send: over a ledger whose reservations
    are those of its sends, and whose totals have room for the open bounds,
    reconciling answers how many sends were open, leaves none, and keeps every
    scope's spent and reserved units together, none released. *)
Theorem reconciling_closes_every_send cs db t :
  Forall u64_args cs -> Forall reserves_by_sends cs -> conn_mut (run_calls cs) = Ok db ->
  usage_totals db = Some t -> headroom t (dispatched_rows db) ->
  exists db', reconcile_sends (run_calls cs) =
      (Ok (zlen (dispatched_rows db)),
       mkTaskStore (Some db') (ts_held_claim_commit (run_calls cs)) (ts_path_identity (run_calls cs))) /\
    dispatched_rows db' = [] /\ same_weight db db'.
Proof.
  intros Hu Hr Hc Ht Hroom.
  assert (Hdb : ts_conn (run_calls cs) = Some db) by (unfold conn_mut in Hc; repeat case_match; congruence).
  destruct (run_ledger cs db Hu Hdb) as [Hinv Hsends].
  destruct (reconcile_rows_total (dispatched_rows db) 0 db) as (db' & Hrows & Hopen & Hw).
  { split; [done|done|done|by eapply run_linked|by exists t]. }
  exists db'. split_and!; [|done|done]. unfold reconcile_sends, transaction. rewrite Hc.
  unfold reconcile_sends_tx, tx_bind, tx_get. by rewrite Hrows.
Qed.
End Guarantees.

(** * A concrete run *)

Module LedgerSamples.
Definition generate (n : nat) : string := "id" +:+ pretty n.
Definition sha256_hex (bytes : string) : string := "sha256 of " +:+ bytes.

Definition after (cs : list LedgerCall) : LStore := lcalls generate sha256_hex cs fresh_ledger.
Definition db_after (cs : list LedgerCall) : LedgerDb := default empty_ledger (ts_conn (after cs)).

Definition chain : list string := ["session"; "id0"; "nowhere"].
Definition manifest (attempt : string) (bound : Z) : RequestManifest :=
  mkManifest attempt "work" "world" InheritModel InheritEffort "instructions" ["read"] 64 "inputs" "digest" "epoch" None
    None OriginHuman bound.
Definition context : SendContext := mkSendContext "work" "connection" None None.
Definition ticket (attempt : string) (bound : Z) : SendTicket := mkTicket attempt bound true.
Definition reported (total : Z) : SendOutcome := SendSettled (UsageExact 3 4 total) 1.

(** A session's scope of 100 units and a worker's of 40, and two sends in flight
    under both. *)
Definition opened : list LedgerCall :=
  [OpenBudget "session" 100; Tasks (CreateTask "session" "command" "human" "Ship it" ["It builds."] ["No network."]);
   OpenWorkBudget "id0" 1000 2 40].
Definition sent : list LedgerCall := opened ++ [BeginSend chain context (manifest "a" 10); BeginSend chain context (manifest "b" 20)].
Definition settled : list LedgerCall := sent ++ [FinishSend (ticket "a" 10) (reported 7)].
Definition closed : list LedgerCall := settled ++ [StopWorkBudget "id0" "explicit_stop"; ReconcileSends].

Definition units (cs : list LedgerCall) : list (option (Z * Z * Z)) :=
  map (fun scope => (fun row => (bs_limit row, bs_spent row, bs_reserved row)) <$> scopes (db_after cs) !! scope) chain.

Example units_of_the_run :
  map units [opened; sent; settled; closed] =
  [[Some (100, 0, 0); Some (40, 0, 0); None]; [Some (100, 0, 30); Some (40, 0, 30); None];
   [Some (100, 7, 20); Some (40, 7, 20); None]; [Some (100, 27, 0); Some (40, 27, 0); None]]%Z.
Proof. vm_compute. reflexivity. Qed.

(** A bound over the worker's limit is refused at both scopes. *)
Example refused_everywhere :
  (begin_send chain context (manifest "c" 11) (after sent)).1 =
    Err (StoreConflict (CauseBudgetExhausted "id0" 0 30 11 40)) /\
  (begin_send chain context (manifest "c" 11) (after sent)).2 = after sent.
Proof. split; vm_compute; reflexivity. Qed.

Lemma run_of_u64 : Forall u64_args closed.
Proof. repeat constructor; vm_compute; by intros. Qed.
Lemma run_by_sends : Forall reserves_by_sends closed.
Proof. repeat constructor. Qed.
Lemma prefix_of_u64 cs more : closed = cs ++ more -> Forall u64_args cs.
Proof. intros E. pose proof run_of_u64 as H. rewrite E in H. by apply Forall_app in H as [H _]. Qed.
End LedgerSamples.
Import LedgerSamples.

(** * Witnesses *)

Lemma budgets_balance_witness :
  bs_reserved (mkScope 100 7 20) = held "session" (reservations (db_after settled)) /\
  bs_spent (mkScope 100 7 20) = costs "session" (reservations (db_after settled)) /\
  (0 <= 7 /\ 0 <= 20 /\ 7 + 20 <= 100 <= i64_max)%Z.
Proof.
  refine (budgets_balance generate sha256_hex settled (db_after settled) "session" (mkScope 100 7 20) _ _ _).
  - by eapply prefix_of_u64.
  - vm_compute. reflexivity.
  - vm_compute. reflexivity.
Defined.

Lemma totals_are_incremental_witness :
  exists t, usage_totals (db_after closed) = Some t /\
    totals_view t = totals_view (totals_of (settlements (db_after closed))) /\ totals_stale (db_after closed) = false.
Proof.
  refine (totals_are_incremental generate sha256_hex closed (db_after closed) run_of_u64 _). vm_compute. reflexivity.
Defined.

Lemma ends_are_final_witness : final (db_after settled) (db_after (settled ++ [StopWorkBudget "id0" "explicit_stop"; ReconcileSends])).
Proof.
  refine (ends_are_final generate sha256_hex settled [StopWorkBudget "id0" "explicit_stop"; ReconcileSends]
    (db_after settled) _ _ _); vm_compute; reflexivity.
Defined.

Lemma dispatch_reserves_everywhere_or_nowhere_witness :
  exists db', ts_conn (begin_send chain context (manifest "c" 10) (after sent)).2 = Some db' /\
    scopes db' !! "session" = Some (mkScope 100 0 40).
Proof.
  pose proof (dispatch_reserves_everywhere_or_nowhere chain context (manifest "c" 10) (after sent) (db_after sent)
    ltac:(vm_compute; reflexivity)) as H.
  assert (E : (begin_send chain context (manifest "c" 10) (after sent)).1 = Ok (mkTicket "c" 10 true)) by (vm_compute; reflexivity).
  destruct (begin_send _ _ _ _) as [answer s']. cbn in E. subst answer.
  destruct H as (_ & _ & _ & db' & Hs & Hscopes). exists db'. split; [exact Hs|].
  destruct (Hscopes "session") as [Hrow _]. rewrite Hrow. vm_compute. reflexivity.
Defined.

Lemma settling_charges_the_confirmed_total_witness :
  exists db', ts_conn (finish_send (ticket "b" 20) (reported 50) (after settled)).2 = Some db' /\
    scopes db' !! "id0" = Some (mkScope 40 27 0).
Proof.
  destruct (settling_charges_the_confirmed_total generate sha256_hex settled (db_after settled) (after settled)
    (ticket "b" 20) (reported 50) (finish_send (ticket "b" 20) (reported 50) (after settled)).2) as (db' & Hs & _ & Hscopes).
  - by eapply prefix_of_u64.
  - reflexivity.
  - vm_compute. reflexivity.
  - vm_compute. reflexivity.
  - exists db'. split; [exact Hs|].
    pose proof (Hscopes "id0" (mkScope 40 7 20) ltac:(vm_compute; reflexivity)) as Hrow. clear Hs Hscopes.
    vm_compute in Hrow |- *. exact (proj2 Hrow).
Defined.

Lemma a_send_settles_once_witness :
  (finish_send (ticket "a" 10) (reported 9) (after closed)).1 <> Ok tt /\
  (finish_send (ticket "a" 10) (reported 9) (after closed)).2 = after closed.
Proof.
  refine (a_send_settles_once generate sha256_hex sent [StopWorkBudget "id0" "explicit_stop"; ReconcileSends] (ticket "a" 10)
    (reported 7) (db_after sent) (ticket "a" 10) (reported 9) _ _ _); vm_compute; reflexivity.
Defined.

Lemma reconciling_closes_every_send_witness :
  exists db', reconcile_sends (after sent) = (Ok 2%Z, mkTaskStore (Some db') false true) /\
    dispatched_rows db' = [] /\ same_weight (db_after sent) db'.
Proof.
  refine (reconciling_closes_every_send generate sha256_hex sent (db_after sent)
    (default (totals_of []) (usage_totals (db_after sent))) _ _ _ _ _).
  - by eapply prefix_of_u64.
  - pose proof run_by_sends as H. by repeat (apply Forall_cons in H as [? H]; constructor).
  - vm_compute. reflexivity.
  - vm_compute. reflexivity.
  - split; vm_compute; try reflexivity; discriminate.
Defined.
