(* ===== verification/Providers.v ===== *)
(** The provider seam ([src/src/providers.rs], [providers/openai.rs]): failures and
    their classes, credential references and their resolution, the recorded
    dialects and routes of the connection ids, offline eligibility, and the
    interface of an adapter with the offline loopback that implements it.

    An error of the HTTP client or of the reader is what the code asks of it.  The
    platform decides which native store [keyring:] names; it is a parameter.  A
    price is an IEEE double, computed with the pure operations of [SpecFloat]. *)

From Stdlib Require Import SpecFloat.
From S2P Require Import Prelude.
From S2P Require Import Contracts.
From S2P Require Import Text.
From S2P Require Import Requests.
From S2P Require Import Notifications.
From S2P Require Import Store.
From S2P Require Import Routes.

(** * Credential references *)

Inductive StoreKind := Keychain | SecretService.

#[export] Instance StoreKind_eq_dec : EqDecision StoreKind.
Proof. solve_decision. Defined.

(** The targets the [cfg] attributes of [native_store_kind] name. *)
Inductive TargetOs := MacOs | Linux | OtherOs.

Definition native_store_kind (os : TargetOs) : StoreKind :=
  match os with MacOs => Keychain | Linux => SecretService | OtherOs => Keychain end.

Inductive SecretRefError := NotScoped | UnsupportedStore (store : string).

Record SecretRef := mkSecretRef { sf_store : StoreKind; sf_raw : string; sf_scope : string }.

(** [str::split_once] at one ASCII character. *)
Fixpoint split_once (sep : ascii) (s : string) : option (string * string) :=
  match s with
  | EmptyString => None
  | String c s =>
      if Ascii.eqb c sep then Some (EmptyString, s)
      else match split_once sep s with
           | Some (before, after) => Some (String c before, after)
           | None => None
           end
  end.

Definition is_ascii_alphabetic (c : ascii) : bool :=
  let n := nat_of_ascii c in ((65 <=? n) && (n <=? 90)) || ((97 <=? n) && (n <=? 122)).
Definition is_ascii_alphanumeric (c : ascii) : bool :=
  let n := nat_of_ascii c in is_ascii_alphabetic c || ((48 <=? n) && (n <=? 57)).

Fixpoint all_chars (p : ascii -> bool) (s : string) : bool :=
  match s with EmptyString => true | String c s => p c && all_chars p s end.

Definition store_ok (store : string) : bool :=
  match store with
  | EmptyString => false
  | String c _ => is_ascii_alphabetic c
  end && all_chars (fun c => is_ascii_alphanumeric c || Ascii.eqb c "_" || Ascii.eqb c "-") store.

Definition scope_ok (scope : string) : bool :=
  negb (bool_decide (scope = EmptyString)) &&
  negb (existsb is_whitespace (chars (String.length scope) (bytes_of scope))) &&
  forallb (fun segment => negb (bool_decide (segment = EmptyString))) (split "/" scope).

(** [SecretRef::parse] *)
Definition secret_ref_parse (os : TargetOs) (raw : string) : result SecretRef SecretRefError :=
  match split_once ":" raw with
  | None => Err NotScoped
  | Some (store, scope) =>
      if negb (store_ok store) || negb (scope_ok scope) then Err NotScoped
      else
        let? kind :=
          if decide (store = "keyring") then Ok (native_store_kind os)
          else if decide (store = "keychain") then Ok Keychain
          else if decide (store = "secret-service" \/ store = "secret_service") then Ok SecretService
          else Err (UnsupportedStore store) in
        Ok (mkSecretRef kind raw scope)
  end.

(** [SecretRef::service] and [SecretRef::profile]: the first and the last segment. *)
Definition secret_ref_service (r : SecretRef) : string := default EmptyString (head (split "/" (sf_scope r))).
Definition secret_ref_profile (r : SecretRef) : string := default EmptyString (last (split "/" (sf_scope r))).

(** * Dialects *)

Inductive Dialect :=
  | DResponses | DGemini | DChatCompletions | DMessages | DOllamaChat | DConverse | DCursorAgent | DDevinAgent
  | DGitlabWorkflow.

#[export] Instance Dialect_eq_dec : EqDecision Dialect.
Proof. solve_decision. Defined.

(** The row of a literal in a table. *)
Definition row_of {A} (table : list (string * A)) (key : string) : option A :=
  snd <$> find (fun row => bool_decide (row.1 = key)) table.

Definition DIALECTS : list (string * Dialect) :=
  [
   ("openai", DResponses); ("abliteration", DResponses); ("meta", DResponses); ("ollama", DResponses);
   ("custom-responses", DResponses); ("openrouter", DResponses); ("sakana", DResponses); ("xai", DResponses);
   ("xai-oauth", DResponses); ("openai-codex", DResponses); ("openai-codex-device", DResponses);
   ("amazon-bedrock", DConverse); ("bedrock-mantle", DResponses); ("cursor", DCursorAgent);
   ("devin", DDevinAgent); ("gitlab-duo-agent", DGitlabWorkflow); ("ollama-cloud", DOllamaChat);
   ("google", DGemini); ("anthropic", DMessages); ("minimax", DMessages); ("umans", DMessages);
   ("cloudflare-ai-gateway", DMessages); ("custom-messages", DMessages); ("vercel-ai-gateway", DMessages);
   ("gitlab-duo", DChatCompletions); ("github-copilot", DChatCompletions); ("opencode-go", DChatCompletions);
   ("opencode-zen", DChatCompletions); ("custom-chat-completions", DChatCompletions);
   ("aiand", DChatCompletions); ("aimlapi", DChatCompletions); ("alibaba-coding-plan", DChatCompletions);
   ("alibaba-token-plan", DChatCompletions); ("coreweave", DChatCompletions); ("deepinfra", DChatCompletions);
   ("deepseek", DChatCompletions); ("firepass", DChatCompletions); ("fireworks", DChatCompletions);
   ("gmi-cloud", DChatCompletions); ("groq", DChatCompletions); ("huggingface", DChatCompletions);
   ("kilo", DChatCompletions); ("litellm", DChatCompletions); ("llama.cpp", DChatCompletions);
   ("lm-studio", DChatCompletions); ("minimax-code", DChatCompletions); ("minimax-code-cn", DChatCompletions);
   ("mistral", DChatCompletions); ("moonshot", DChatCompletions); ("nanogpt", DChatCompletions);
   ("novita", DChatCompletions); ("nvidia", DChatCompletions); ("qianfan", DChatCompletions);
   ("qwen-portal", DChatCompletions); ("siliconflow", DChatCompletions); ("siliconflow-cn", DChatCompletions);
   ("synthetic", DChatCompletions); ("together", DChatCompletions); ("venice", DChatCompletions);
   ("vllm", DChatCompletions); ("wafer-serverless", DChatCompletions); ("xiaomi", DChatCompletions);
   ("xiaomi-token-plan-ams", DChatCompletions); ("xiaomi-token-plan-cn", DChatCompletions);
   ("xiaomi-token-plan-sgp", DChatCompletions); ("yolo-auto", DChatCompletions); ("zenmux", DChatCompletions);
   ("zhipu-coding-plan", DChatCompletions)].

Definition dialect_for : string -> option Dialect := row_of DIALECTS.

(** * Failures *)

(** What the code asks of an error of the HTTP client. *)
Record RequestError := mkRequestError { rq_timeout : bool; rq_builder : bool; rq_connect : bool }.
(** What it asks of an error of the reader: its kind, and the client error inside. *)
Record ReadError := mkReadError { rd_timed_out : bool; rd_inner : option RequestError }.

Inductive TransportCause :=
  | Deadline (budget : Z)
  | Request (source : RequestError)
  | ReadFailed (source : ReadError)
  | Status (code : Z).

Inductive TransportClass := DeadlineExpired | Timeout | RequestFailure | ReadFailure | HttpStatus (code : Z).

(** [TransportCause::class] *)
Definition transport_class (cause : TransportCause) : TransportClass :=
  match cause with
  | Deadline _ => DeadlineExpired
  | Request source => if rq_timeout source then Timeout else RequestFailure
  | ReadFailed source =>
      if rd_timed_out source || match rd_inner source with Some inner => rq_timeout inner | None => false end
      then Timeout else ReadFailure
  | Status code => HttpStatus code
  end.

Inductive ProviderError :=
  | UnknownConnection (connection : string)
  | LiveGrantRequired (kind : ConnKind)
  | StoreUnavailable (store : StoreKind) (reason : string)
  | StoreAmbiguous (store : StoreKind)
  | CredentialUnresolved (connection scope : string) (cause : option SecretRefError)
  | LocalProfileDeclared (connection : string)
  | CredentialProfileMismatch (connection profile : string)
  | CredentialOutsideNamespace (store : StoreKind) (scope : string)
  | CredentialOccupied (scope : string)
  | CredentialAbsent (scope : string)
  | CredentialMalformed (connection : string)
  | UnsupportedCredentialClass (connection class : string)
  | CredentialBaseMismatch (connection enrolled : string)
  | DialectMismatch (connection : string)
  | DialectUnserved (connection : string) (dialect : Dialect)
  | UnpinnedModel (connection : string)
  | RegionMismatch (connection region : string)
  | EndpointRequired (connection : string)
  | Transport (connection : string) (cause : TransportCause)
  | ProviderFailed (connection reason : string)
  | UnknownTerminal (connection : string)
  | StreamViolation (connection reason : string)
  | IncompatibleOutput (connection reason : string)
  | UnsupportedParameter (connection parameter model : string)
  | UnsendableRequest (connection reason : string)
  | ReasoningProvenance (connection reason : string)
  | Retried (wire_retries : Z) (source : ProviderError).

(** [ProviderError::settle] *)
Definition settle_error (error : ProviderError) : Z * ProviderError :=
  match error with Retried wire_retries source => (wire_retries, source) | class => (0%Z, class) end.

(** * Credential resolution *)

Section Credentials.
Variable os : TargetOs.

(** [parse_scoped] *)
Definition parse_scoped (connection key raw : string) : result SecretRef ProviderError :=
  map_err (fun parse => CredentialUnresolved connection key (Some parse)) (secret_ref_parse os raw).

(** [resolve_credential_in]: the profile a connection binds comes first. *)
Definition resolve_credential_in (connections : gmap string Connection) (profiles : gmap string Profile)
    (connection : string) : result SecretRef ProviderError :=
  match connections !! connection with
  | None => Err (UnknownConnection connection)
  | Some conn =>
      match cx_profile conn with
      | Some profile =>
          let key := "profiles." +:+ profile +:+ ".credential_ref" in
          let? raw := ok_or (profiles !! profile ≫= pf_credential_ref) (CredentialUnresolved connection key None) in
          let? credential := parse_scoped connection key raw in
          if decide (secret_ref_profile credential = profile) then Ok credential
          else Err (CredentialProfileMismatch connection profile)
      | None =>
          let key := "connections." +:+ connection +:+ ".credential_ref" in
          let? raw := ok_or (cx_credential_ref conn) (CredentialUnresolved connection key None) in
          parse_scoped connection key raw
      end
  end.

(** [open_proxy_connection] and [admit_absent_binding] *)
Definition open_proxy_connection (connection : string) : bool :=
  bool_decide (connection ∈
    ["litellm"; "llama.cpp"; "lm-studio"; "ollama"; "vllm"; "custom-responses"; "custom-messages"]).
Definition admit_absent_binding (connection : string) : bool :=
  open_proxy_connection connection || bool_decide (connection = "openrouter").

(** [resolve_absent_binding_in] *)
Definition resolve_absent_binding_in (connections : gmap string Connection) (profiles : gmap string Profile)
    (connection : string) (absent : string -> bool) : result (option SecretRef) ProviderError :=
  let unbound :=
    match connections !! connection with
    | Some conn => negb (is_some (cx_profile conn)) && negb (is_some (cx_credential_ref conn))
    | None => false
    end in
  if unbound && absent connection then Ok None
  else let? credential := resolve_credential_in connections profiles connection in Ok (Some credential).

Definition resolve_optional_credential_in (connections : gmap string Connection) (profiles : gmap string Profile)
    (connection : string) : result (option SecretRef) ProviderError :=
  resolve_absent_binding_in connections profiles connection open_proxy_connection.
Definition resolve_admitted_credential_in (connections : gmap string Connection) (profiles : gmap string Profile)
    (connection : string) : result (option SecretRef) ProviderError :=
  if decide (connection = "github-copilot") then Err (DialectMismatch connection)
  else resolve_absent_binding_in connections profiles connection admit_absent_binding.

(** [offline_usable] and [offline_eligible] *)
Definition offline_usable (connections : gmap string Connection) (profiles : gmap string Profile)
    (connection : string) : bool :=
  match connections !! connection with
  | None => false
  | Some entry =>
      match cx_kind entry with
      | KindLocal => true
      | KindApiKey =>
          match resolve_optional_credential_in connections profiles connection with Ok _ => true | Err _ => false end
      | KindSubscription => false
      end
  end.

Definition offline_eligible (model : ModelAssign) (connections : gmap string Connection)
    (profiles : gmap string Profile) : result unit ProviderError :=
  match model with
  | Fixed fixed =>
      match connections !! fm_connection fixed with
      | None => Err (UnknownConnection (fm_connection fixed))
      | Some entry =>
          if offline_usable connections profiles (fm_connection fixed) then Ok tt
          else Err (LiveGrantRequired (cx_kind entry))
      end
  | _ => Ok tt
  end.
End Credentials.

(** * The recorded Responses contracts ([providers/openai.rs]) *)

Inductive EntryRule := IdsOnly | OpenRouterTools | Sakana | Xai | XaiOAuth.
Inductive BlindRetry := RetryAllowed | RetryRefused.

#[export] Instance BlindRetry_eq_dec : EqDecision BlindRetry.
Proof. solve_decision. Defined.

Record SourceContract := mkContract {
  ct_seed : list string;
  ct_authoritative_models : bool;
  ct_entry : EntryRule;
  ct_reasoning_artifact : bool;
  ct_requires_configured_endpoint : bool;
  ct_blind_retry : BlindRetry;
}.

Definition GITLAB_RESPONSES_MODELS : list string := ["gpt-5-codex"; "gpt-5.2-codex"].
Definition CODEX_MODELS : list string := ["gpt-5-codex"; "gpt-5.2-codex"].
Definition RESPONSES_MODELS : list string := ["gpt-5.2"; "gpt-5.2-codex"; "gpt-5.1"; "o4-mini"; "o3"].
Definition MANTLE_MODELS : list string :=
  ["openai.gpt-5.4"; "openai.gpt-5.5"; "openai.gpt-5.6-luna"; "openai.gpt-5.6-sol"; "openai.gpt-5.6-terra"].
Definition ABLITERATION_MODELS : list string :=
  ["abliterated-model"; "abliterated-model-large"; "abliterated-model-large-v2"].
Definition META_MUSE_MODELS : list string :=
  ["muse-spark-1.1"; "muse-spark-1.2"; "muse-spark-1.2-contributor"; "muse-spark-1.3"; "muse-spark-1.3-contributor"].

Definition codex_contract : SourceContract := mkContract CODEX_MODELS false IdsOnly true true RetryRefused.

Definition CONTRACTS : list (string * SourceContract) :=
  [("openai", mkContract RESPONSES_MODELS false IdsOnly true false RetryAllowed);
   ("bedrock-mantle", mkContract MANTLE_MODELS false IdsOnly true false RetryAllowed);
   ("abliteration", mkContract ABLITERATION_MODELS true IdsOnly false false RetryAllowed);
   ("meta", mkContract META_MUSE_MODELS true IdsOnly false false RetryAllowed);
   ("ollama", mkContract [] true IdsOnly false false RetryAllowed);
   ("openrouter", mkContract [] true OpenRouterTools false false RetryAllowed);
   ("sakana", mkContract [] true Sakana false false RetryAllowed);
   ("xai", mkContract [] true Xai false false RetryAllowed);
   ("xai-oauth", mkContract [] true XaiOAuth true false RetryAllowed);
   ("gitlab-duo", mkContract GITLAB_RESPONSES_MODELS true IdsOnly false false RetryAllowed);
   ("opencode-go", mkContract [] true IdsOnly false false RetryAllowed);
   ("opencode-zen", mkContract [] true IdsOnly false false RetryAllowed);
   ("openai-codex", codex_contract); ("openai-codex-device", codex_contract);
   ("github-copilot", mkContract [] false IdsOnly true true RetryAllowed);
   ("custom-responses", mkContract [] true IdsOnly false true RetryAllowed)].

(** [openai::contract_for] *)
Definition contract_for : string -> option SourceContract := row_of CONTRACTS.

Definition is_codex_connection (connection : string) : bool :=
  bool_decide (connection ∈ ["openai-codex"; "openai-codex-device"]).
Definition refuses_blind_retry (connection : string) : bool :=
  match contract_for connection with
  | Some contract => bool_decide (ct_blind_retry contract = RetryRefused)
  | None => false
  end.
Definition same_recorded_contract (left right : string) : bool :=
  is_codex_connection left && is_codex_connection right.

(** [blind_retry_refused] *)
Definition blind_retry_refused (from to : string) : bool :=
  refuses_blind_retry from && same_recorded_contract from to.

(** * Catalogue rows and prices ([providers/local.rs]) *)

Definition f64_of (tokens : Z) : spec_float := binary_normalize 53 1024 tokens 0 false.
Definition is_finite (x : spec_float) : bool :=
  match x with S754_zero _ | S754_finite _ _ _ => true | S754_infinity _ | S754_nan => false end.

Inductive ModelPrice := PriceUnknown | PriceUsd (input_per_1m output_per_1m : spec_float).

(** [ModelPrice::full_cost] *)
Definition full_cost (price : ModelPrice) (tokens : Z) : option spec_float :=
  match price with
  | PriceUnknown => None
  | PriceUsd input output =>
      let cost := SFdiv 53 1024 (SFmul 53 1024 (SFadd 53 1024 input output) (f64_of tokens)) (f64_of 1000000) in
      if is_finite cost then Some cost else None
  end.

(** [f64::total_cmp] of two finite numbers: a negative zero precedes a positive one. *)
Definition zero_sign (x : spec_float) : option bool := match x with S754_zero s => Some s | _ => None end.
Definition total_cmp (a b : spec_float) : comparison :=
  match zero_sign a, zero_sign b with
  | Some true, Some false => Lt
  | Some false, Some true => Gt
  | _, _ => default Eq (SFcompare a b)
  end.

Record CatalogModel := mkCatalogModel {
  cm_id : string;
  cm_reasoning : bool;
  cm_vision : bool;
  cm_tools : bool;
  cm_efforts : list EffortLevel;
  cm_effort_default : option EffortLevel;
  cm_context_window : option Z;
  cm_max_output_tokens : option Z;
  cm_price : ModelPrice;
}.
Definition catalog_model (id : string) : CatalogModel := mkCatalogModel id false false false [] None None None PriceUnknown.

(** * Routed ids *)

Definition GITLAB_DUO_MODELS : list (string * (string * Dialect)) :=
  [
   ("duo-chat-opus-4-6", ("claude-opus-4-6", DMessages));
   ("duo-chat-sonnet-4-6", ("claude-sonnet-4-6", DMessages));
   ("duo-chat-opus-4-5", ("claude-opus-4-5-20251101", DMessages));
   ("duo-chat-sonnet-4-5", ("claude-sonnet-4-5-20250929", DMessages));
   ("duo-chat-haiku-4-5", ("claude-haiku-4-5-20251001", DMessages));
   ("duo-chat-gpt-5-1", ("gpt-5.1-2025-11-13", DChatCompletions));
   ("duo-chat-gpt-5-2", ("gpt-5.2-2025-12-11", DChatCompletions));
   ("duo-chat-gpt-5-mini", ("gpt-5-mini-2025-08-07", DChatCompletions));
   ("duo-chat-gpt-5-codex", ("gpt-5-codex", DResponses));
   ("duo-chat-gpt-5-2-codex", ("gpt-5.2-codex", DResponses))].
Definition GITLAB_DUO_ROUTES : list Dialect := [DMessages; DResponses; DChatCompletions].
Definition COPILOT_ROUTES : list Dialect := [DMessages; DChatCompletions; DResponses].

Definition COPILOT_MODELS : list (string * string) :=
  [
   ("claude-fable-5", "anthropic-messages"); ("claude-haiku-4.5", "anthropic-messages");
   ("claude-opus-4.5", "anthropic-messages"); ("claude-opus-4.6", "anthropic-messages");
   ("claude-opus-4.7", "anthropic-messages"); ("claude-opus-4.8", "anthropic-messages");
   ("claude-opus-5", "anthropic-messages"); ("claude-sonnet-4", "anthropic-messages");
   ("claude-sonnet-4.5", "anthropic-messages"); ("claude-sonnet-4.6", "anthropic-messages");
   ("claude-sonnet-5", "anthropic-messages"); ("gemini-2.5-pro", "openai-completions");
   ("gemini-3-flash-preview", "openai-completions"); ("gemini-3-pro-preview", "openai-completions");
   ("gemini-3.1-pro-preview", "openai-completions"); ("gemini-3.5-flash", "openai-completions");
   ("gemini-3.6-flash", "openai-completions"); ("gemini-3.7-flash", "openai-completions");
   ("gpt-4.1", "openai-completions"); ("gpt-4o", "openai-completions"); ("gpt-5", "openai-responses");
   ("gpt-5-mini", "openai-responses"); ("gpt-5.1", "openai-responses"); ("gpt-5.1-codex", "openai-responses");
   ("gpt-5.1-codex-max", "openai-responses"); ("gpt-5.1-codex-mini", "openai-responses");
   ("gpt-5.2", "openai-responses"); ("gpt-5.2-codex", "openai-responses");
   ("gpt-5.3-codex", "openai-responses"); ("gpt-5.4", "openai-responses");
   ("gpt-5.4-mini", "openai-responses"); ("gpt-5.4-nano", "openai-responses"); ("gpt-5.5", "openai-responses");
   ("gpt-5.6-luna", "openai-responses"); ("gpt-5.6-sol", "openai-responses");
   ("gpt-5.6-terra", "openai-responses"); ("grok-4.5", "openai-responses"); ("grok-4.6", "openai-responses");
   ("grok-code-fast-1", "openai-completions"); ("kimi-k2.7-code", "openai-completions");
   ("kimi-k3", "openai-completions"); ("mai-code-1-flash-picker", "openai-responses");
   ("mai-code-1.1-flash", "openai-responses"); ("raptor-mini", "openai-completions")].

(** [copilot_route] and [copilot_first_model] *)
Definition copilot_route (model : string) : option Dialect :=
  match row_of COPILOT_MODELS model with
  | None => None
  | Some api =>
      if decide (api = "anthropic-messages") then Some DMessages
      else if decide (api = "openai-completions") then Some DChatCompletions
      else if decide (api = "openai-responses") then Some DResponses
      else None
  end.
Definition string_min (a b : string) : string := if String.leb a b then a else b.
Definition copilot_first_model : option string :=
  match map fst COPILOT_MODELS with [] => None | id :: ids => Some (fold_left string_min ids id) end.

Definition OPENCODE_GO_ROUTES : list Dialect := [DChatCompletions; DMessages; DResponses].
Definition opencode_go_route (model : string) : Dialect :=
  if String.prefix "gpt-" model || String.prefix "grok-" model || String.prefix "muse-" model ||
     bool_decide (model = "deepseek-v4-flash")
  then DResponses
  else if bool_decide (model ∈ ["minimax-m2.7"; "minimax-m3"; "minimax-m3-free"; "qwen3.5-plus"; "qwen3.6-plus"])
  then DChatCompletions
  else if String.prefix "claude-" model || String.prefix "qwen" model || String.prefix "minimax-m2.5" model
  then DMessages
  else DChatCompletions.

Definition OPENCODE_ZEN_ROUTES : list Dialect := [DChatCompletions; DMessages; DResponses; DGemini].
Definition opencode_zen_route (model : string) : Dialect :=
  if String.prefix "gpt-" model || String.prefix "grok-" model || String.prefix "muse-" model then DResponses
  else if String.prefix "claude-" model || String.prefix "qwen-" model then DMessages
  else if String.prefix "gemini-" model then DGemini
  else DChatCompletions.

Definition ZENMUX_ROUTES : list Dialect := [DChatCompletions; DMessages].
Definition ZENMUX_OPENAI_BASE : string := "https://zenmux.ai/api/v1".

(** [zenmux_is_anthropic] and [zenmux_route] *)
Definition zenmux_is_anthropic (model : string) : bool :=
  match split_once "/" model with Some (owner, _) => eq_ignore_ascii_case owner "anthropic" | None => false end.
Definition zenmux_route (model : string) : Dialect :=
  if zenmux_is_anthropic model then DMessages else DChatCompletions.

(** [routes_for] *)
Definition routes_for (connection : string) : list Dialect :=
  default [] (row_of [("gitlab-duo", GITLAB_DUO_ROUTES); ("github-copilot", COPILOT_ROUTES);
    ("opencode-go", OPENCODE_GO_ROUTES); ("opencode-zen", OPENCODE_ZEN_ROUTES); ("zenmux", ZENMUX_ROUTES)] connection).

(** [routed_wire_model] and [route_for] *)
Definition routed_wire_model (connection model : string) : option (string * Dialect) :=
  if decide (connection = "gitlab-duo") then row_of GITLAB_DUO_MODELS model
  else if decide (connection = "github-copilot") then (fun dialect => (model, dialect)) <$> copilot_route model
  else if decide (connection = "opencode-go") then Some (model, opencode_go_route model)
  else if decide (connection = "opencode-zen") then Some (model, opencode_zen_route model)
  else if decide (connection = "zenmux") then Some (model, zenmux_route model)
  else None.
Definition route_for (connection model : string) : option Dialect := snd <$> routed_wire_model connection model.

(** [routed_catalog] *)
Definition routed_catalog (connection : string) : option (list CatalogModel) :=
  if decide (connection = "gitlab-duo") then Some (map (fun row => catalog_model row.1) GITLAB_DUO_MODELS) else None.

(** * Adapters *)

Record ToolCall := mkToolCall { tl_tool : string; tl_path : option string }.
Record ProviderReply := mkReply {
  rp_text : string;
  rp_tool_calls : list ToolCall;
  rp_usage : UsageDelta;
  rp_wire_retries : Z;
}.

(** The [Provider] trait: the adapter is the state [P]. *)
Class Provider (P : Type) := {
  serves : P -> string -> Connection -> bool;
  send : RequestManifest -> P -> result ProviderReply ProviderError * P;
}.

Definition ADMITTED_READ : string := "performing the admitted read".
Definition WAITING_FOR_DECISION : string := "no permitted action; waiting for a decision".

(** [str::lines]: segments of line feeds, the empty one after the last dropped,
    each without a carriage return at its end. *)
Fixpoint strip_cr (line : string) : string :=
  match line with
  | EmptyString => EmptyString
  | String c EmptyString => if Ascii.eqb c (ascii_of_nat 13) then EmptyString else line
  | String c rest => String c (strip_cr rest)
  end.
Definition lines (s : string) : list string :=
  let segments := split (ascii_of_nat 10) s in
  map strip_cr (if decide (last segments = Some EmptyString) then removelast segments else segments).

(** [str::strip_prefix] *)
Definition strip_prefix (p s : string) : option string :=
  if String.prefix p s then Some (sdrop (String.length p) s) else None.

(** [LoopbackProvider]: its count of calls. *)
Record LoopbackProvider := mkLoopback { lp_calls : Z }.

Definition loopback_serves (_ : LoopbackProvider) (connection : string) (entry : Connection) : bool :=
  bool_decide (cx_kind entry = KindLocal) && negb (is_some (dialect_for connection)).

Definition loopback_send (manifest : RequestManifest) (p : LoopbackProvider)
    : result ProviderReply ProviderError * LoopbackProvider :=
  (Ok match head (omap (strip_prefix "read ") (reverse (lines (mf_inputs manifest)))) with
      | Some path => mkReply ADMITTED_READ [mkToolCall "read_file" (Some path)] UsageUnknown 0
      | None => mkReply WAITING_FOR_DECISION [] UsageUnknown 0
      end,
   mkLoopback (lp_calls p + 1)).

#[export] Instance loopback_provider : Provider LoopbackProvider :=
  {| serves := loopback_serves; send := loopback_send |}.

Example loopback_reads :
  (loopback_send (mkManifest "a" "main" "w" InheritModel InheritEffort "i" [] 0 ("goal" +:+ String (ascii_of_nat 10) "read src/lib.rs")
    "d" "e" None None OriginHuman 1) (mkLoopback 0)).1 =
  Ok (mkReply ADMITTED_READ [mkToolCall "read_file" (Some "src/lib.rs")] UsageUnknown 0).
Proof. vm_compute. reflexivity. Qed.
