(* ===== verification/Toml.v ===== *)
(** TOML documents and JSON values as data ([toml_edit], [serde_json]): what
    [src/src/config.rs] asks of an item, the ordered maps of a table, and loops
    that stop at an error.

    A table is the list of its entries in document order, each key once.  Comments
    and layout are not part of the data; [inline] tells a [InlineTable] from a
    [Table], the one difference of form the code looks at.  An array of tables, a
    float and a date answer every question with no. *)

From S2P Require Import Prelude.
From S2P Require Import Text.

#[local] Set Warnings "-register-all".

(** * Items *)

Inductive Item :=
  | TString (text : string)
  | TInteger (value : Z)
  | TBool (value : bool)
  | TArray (items : list Item)
  | TTable (inline : bool) (fields : list (string * Item))
  | TOther.

Abbreviation Fields := (list (string * Item)).

(** [Item::as_str], [as_integer], [as_bool], [as_array], [as_table_like],
    [Value::as_inline_table] *)
Definition as_str (item : Item) : option string := match item with TString s => Some s | _ => None end.
Definition as_integer (item : Item) : option Z := match item with TInteger i => Some i | _ => None end.
Definition as_bool (item : Item) : option bool := match item with TBool b => Some b | _ => None end.
Definition as_array (item : Item) : option (list Item) := match item with TArray l => Some l | _ => None end.
Definition as_table_like (item : Item) : option Fields := match item with TTable _ t => Some t | _ => None end.
Definition as_inline_table (item : Item) : option Fields := match item with TTable true t => Some t | _ => None end.

(** * Ordered maps *)

Section OrderedMaps.
Context {A : Type}.
Implicit Type t : list (string * A).

(** [TableLike::get], [contains_key], [insert], [remove] *)
Fixpoint get (key : string) t : option A :=
  match t with
  | [] => None
  | (k, a) :: t => if decide (k = key) then Some a else get key t
  end.
Definition contains_key (key : string) t : bool := match get key t with Some _ => true | None => false end.
Fixpoint put (key : string) (a : A) t : list (string * A) :=
  match t with
  | [] => [(key, a)]
  | (k, b) :: t => if decide (k = key) then (k, a) :: t else (k, b) :: put key a t
  end.
Definition del (key : string) t : list (string * A) := filter (fun e => e.1 <> key) t.

Lemma get_put key k a t : get k (put key a t) = if decide (key = k) then Some a else get k t.
Proof. induction t as [|[k' b] t IH]; cbn; repeat (case_decide || cbn); subst; congruence. Qed.

Lemma get_put_same key a t : get key (put key a t) = Some a.
Proof. rewrite get_put. by rewrite decide_True. Qed.

Lemma get_put_other key k a t : key <> k -> get k (put key a t) = get k t.
Proof. intros. rewrite get_put. by rewrite decide_False. Qed.

Lemma get_del key k t : get k (del key t) = if decide (key = k) then None else get k t.
Proof.
  unfold del. induction t as [|[k' b] t IH]; [by case_decide|]. rewrite filter_cons. cbn.
  repeat (case_decide || cbn); subst; try congruence; naive_solver.
Qed.

Lemma put_keys key a t k : k ∈ (put key a t).*1 <-> k = key \/ k ∈ t.*1.
Proof. induction t as [|[k' b] t IH]; cbn; repeat case_decide; cbn; subst; set_solver. Qed.

Lemma put_nodup key a t : NoDup t.*1 -> NoDup (put key a t).*1.
Proof.
  induction t as [|[k b] t IH]; cbn; [intros _; repeat constructor; set_solver|].
  rewrite !NoDup_cons. intros [Hk Hn]. case_decide; cbn; rewrite NoDup_cons; [done|].
  rewrite put_keys. split; [naive_solver|]. by apply IH.
Qed.

Lemma del_sublist key t : sublist (del key t) t.
Proof. apply sublist_filter. Qed.

Lemma del_nodup key t : NoDup t.*1 -> NoDup (del key t).*1.
Proof. intros Hn. eapply sublist_NoDup; [exact Hn|]. apply fmap_sublist, del_sublist. Qed.

Lemma get_None_keys key t : get key t = None <-> key ∉ t.*1.
Proof. induction t as [|[k b] t IH]; cbn; [set_solver|]. case_decide; set_solver. Qed.

Lemma get_Some_elem key a t : get key t = Some a -> (key, a) ∈ t.
Proof. induction t as [|[k b] t IH]; cbn; [done|]. case_decide; [intros [= ->]; subst|]; set_solver. Qed.

Lemma elem_get key a t : NoDup t.*1 -> (key, a) ∈ t -> get key t = Some a.
Proof.
  induction t as [|[k b] t IH]; cbn; [set_solver|]. rewrite NoDup_cons. intros [Hk Hn] [[= -> ->]|Hin]%elem_of_cons.
  - by rewrite decide_True.
  - rewrite decide_False; [by apply IH|]. intros ->. apply Hk. apply list_elem_of_fmap. by exists (key, a).
Qed.

Lemma put_elem key a t e : e ∈ put key a t -> e = (key, a) \/ e ∈ t.
Proof. induction t as [|[k b] t IH]; cbn; repeat case_decide; subst; set_solver. Qed.

End OrderedMaps.

Create HintDb toml.
#[export] Hint Resolve put_nodup del_nodup : toml.

(** * JSON *)

(** A number is kept as its text; an object lists its entries in key order. *)
Inductive Value :=
  | JNull
  | JBool (value : bool)
  | JNumber (text : string)
  | JString (text : string)
  | JArray (items : list Value)
  | JObject (fields : list (string * Value)).

(** [Value::as_str], [as_array], [as_object] *)
Definition json_str (v : Value) : option string := match v with JString s => Some s | _ => None end.
Definition json_array (v : Value) : option (list Value) := match v with JArray l => Some l | _ => None end.
Definition json_object (v : Value) : option (list (string * Value)) := match v with JObject t => Some t | _ => None end.

(** * Loops that stop at an error *)

Section TryFold.
Context {S A E : Type}.

(** [for x in l { s = step(s, x)? }] *)
Fixpoint try_fold (step : S -> A -> result S E) (s : S) (l : list A) : result S E :=
  match l with
  | [] => Ok s
  | x :: l => let? s := step s x in try_fold step s l
  end.

End TryFold.

(** A loop that inserts what one entry of a table reads as under its name. *)
Definition read_entries {V E} (read : string -> Item -> result V E) (fields : Fields) : result (gmap string V) E :=
  try_fold (fun m '(name, item) => let? v := read name item in Ok (<[name := v]> m)) ∅ fields.

Lemma rbind_Ok {A B E} (k : A -> result B E) (r : result A E) b : rbind k r = Ok b <-> exists a, r = Ok a /\ k a = Ok b.
Proof. destruct r as [a|e]; cbn; split; [by exists a|naive_solver|done|naive_solver]. Qed.

Lemma is_ok_Ok {A E} (r : result A E) : is_ok r = true <-> exists a, r = Ok a.
Proof. destruct r; cbn; split; naive_solver. Qed.

Lemma forallb_agree {A} (f g : A -> bool) l : (forall x, f x = g x) -> forallb f l = forallb g l.
Proof. intros Hfg. induction l as [|x l IH]; cbn; [done|]. by rewrite Hfg, IH. Qed.

Section FoldLaws.
Context {S A E : Type}.
Variable step : S -> A -> result S E.

Lemma try_fold_app s l1 l2 : try_fold step s (l1 ++ l2) = let? s := try_fold step s l1 in try_fold step s l2.
Proof. revert s. induction l1 as [|x l1 IH]; intros s; cbn; [done|]. destruct (step s x); cbn; [apply IH|done]. Qed.

(** Where the outcome of a step does not depend on the state, a loop succeeds when
    every step does. *)
Lemma try_fold_ok s l :
  (forall s s' x, is_ok (step s x) = is_ok (step s' x)) ->
  is_ok (try_fold step s l) = forallb (fun x => is_ok (step s x)) l.
Proof.
  intros Hstep. revert s. induction l as [|x l IH]; intros s; cbn; [done|].
  destruct (step s x) as [s'|e] eqn:Hx; cbn; [|done]. rewrite IH. apply forallb_agree. intros y. apply Hstep.
Qed.

(** What every step keeps, the loop keeps. *)
Lemma try_fold_inv (P : S -> Prop) s l s' :
  P s -> (forall s x s', x ∈ l -> P s -> step s x = Ok s' -> P s') -> try_fold step s l = Ok s' -> P s'.
Proof.
  revert s. induction l as [|x l IH]; intros s Hs Hstep; cbn; [by intros [= <-]|].
  rewrite rbind_Ok. intros (s1 & Hx & Hl). eapply IH; [|intros; eapply Hstep|exact Hl]; [|by right|done|done].
  eapply Hstep; [by left|done|done].
Qed.

End FoldLaws.

Section Fields.
Context {S E B : Type}.
Variable step : S -> string * Item -> result S E.
Variable field : S -> B.
Variable key : string.

(** A component of the state that only the entry of one key sets: it holds what
    that entry reads as, or what it held before. *)
Lemma try_fold_field (R : Item -> B -> Prop) s fields s' :
  NoDup fields.*1 ->
  (forall s k item s', k <> key -> step s (k, item) = Ok s' -> field s' = field s) ->
  (forall s1 item s', field s1 = field s -> step s1 (key, item) = Ok s' -> R item (field s')) ->
  try_fold step s fields = Ok s' ->
  match get key fields with Some item => R item (field s') | None => field s' = field s end.
Proof.
  intros Hn Hother. revert s. induction fields as [|[k item] fields IH]; intros s Hkey; cbn; [by intros [= <-]|].
  rewrite rbind_Ok. intros (s1 & Hx & Hl). rewrite fmap_cons, NoDup_cons in Hn. destruct Hn as [Hk Hn].
  case_decide as Heq.
  - subst k. assert (Hf : field s' = field s1).
    { assert (Hi : get key fields = None) by by apply get_None_keys. clear - Hother Hi Hl. revert s1 Hl.
      induction fields as [|[k' item'] fields IH]; intros s1; cbn; [by intros [= <-]|]. cbn in Hi. case_decide; [done|].
      rewrite rbind_Ok. intros (s2 & Hx & Hl). rewrite (IH Hi s2 Hl). by eapply Hother. }
    rewrite Hf. by eapply Hkey.
  - assert (Hs1 : field s1 = field s) by by eapply Hother. rewrite <- Hs1. apply IH; [done| |done].
    intros s2 item' s2' Hs2. apply Hkey. congruence.
Qed.

End Fields.

Section Entries.
Context {V E : Type}.
Variable read : string -> Item -> result V E.

Lemma read_entries_ok fields :
  is_ok (read_entries read fields) = forallb (fun e => is_ok (read e.1 e.2)) fields.
Proof.
  unfold read_entries. rewrite try_fold_ok.
  - apply forallb_agree. intros [k item]. cbn. by destruct (read k item).
  - intros s s' [k item]. by destruct (read k item).
Qed.

(** The map holds what each entry reads as, and nothing else. *)
Lemma read_entries_lookup fields m name :
  NoDup fields.*1 -> read_entries read fields = Ok m ->
  match get name fields with
  | Some item => exists v, read name item = Ok v /\ m !! name = Some v
  | None => m !! name = None
  end.
Proof.
  intros Hn Hr.
  pose proof (try_fold_field (fun (m : gmap string V) '(name, item) => let? v := read name item in Ok (<[name := v]> m))
    (fun m => m !! name) name
    (fun item o => exists v, read name item = Ok v /\ o = Some v) ∅ fields m Hn) as Hf.
  cbn beta in Hf. rewrite lookup_empty in Hf. apply Hf; [| |exact Hr].
  - intros s k item s' Hk. rewrite rbind_Ok. intros (v & _ & [= <-]). by rewrite lookup_insert_ne.
  - intros s item s' _. rewrite rbind_Ok. intros (v & Hv & [= <-]). exists v. by rewrite lookup_insert_eq.
Qed.

Lemma read_entries_Some fields m name v :
  NoDup fields.*1 -> read_entries read fields = Ok m -> m !! name = Some v ->
  exists item, get name fields = Some item /\ read name item = Ok v.
Proof.
  intros Hn Hr Hm. pose proof (read_entries_lookup fields m name Hn Hr) as Hl.
  destruct (get name fields) as [item|]; [|congruence]. destruct Hl as (v' & Hv & Hm'). exists item. split; [done|congruence].
Qed.

End Entries.
