(* ===== verification/Pages.v ===== *)
(** Reading the task store page by page ([state.rs]: the status, todo, scheduler and
    collection pages with their batched blockers, the event feed; [commands.rs]: the
    parameters of a page and the walk that guards a session switch). *)

From stdpp Require Import pretty sorting.
From S2P Require Import Prelude.
From S2P Require Import Contracts.
From S2P Require Import Utf8.
From S2P Require Import Text.
From S2P Require Import Net.
From S2P Require Import Procedure.
From S2P Require Import Requests.
From S2P Require Import Store.
From S2P Require Import Actions.
From S2P Require Import TaskDb.
From S2P Require Import PlanGate.
From S2P Require Import TaskStore.
From S2P Require Import TaskCalls.
From S2P Require Import Codecs.
From S2P Require Import TaskStoreThms.
From S2P Require Import TaskStoreProps.
From S2P Require Import Toml.

(** * The parameters of a page *)

Definition PAGE_DEFAULT : Z := 20.
Definition PAGE_MAX : Z := 200.
Definition u64_top : Z := 18446744073709551615.

(** The refusals these readers give. *)
Inductive RequestError :=
  | InvalidPage
  | InvalidPageSize
  | InvalidPageCursor
  | PageCursorOffsetOutOfRange
  | InvalidAfterCursor.

(** [str::parse::<u64>], and [Value::as_u64] of a number kept as its text. *)
Definition parse_u64 (s : string) : option Z := parse_unsigned u64_top 10 (bytes_of s).
Definition json_u64 (v : Value) : option Z := match v with JNumber text => parse_u64 text | _ => None end.

Abbreviation Params := (list (string * Value)).

(** [after_cursor] *)
Definition after_cursor (params : Params) : result Z RequestError :=
  match get "after_cursor" params with
  | None => Ok 0%Z
  | Some value =>
      let? cursor := ok_or (json_u64 value) InvalidAfterCursor in
      if decide (cursor <= i64_max)%Z then Ok cursor else Err InvalidAfterCursor
  end.

(** [page_limit] *)
Definition page_limit (params : Params) : result Z RequestError :=
  match get "page" params with
  | None => Ok PAGE_DEFAULT
  | Some page =>
      let? page := ok_or (json_object page) InvalidPage in
      match get "page_size" page with
      | None => Ok PAGE_DEFAULT
      | Some size =>
          let? size := ok_or (json_u64 size) InvalidPageSize in
          if decide (size = 0)%Z then Err InvalidPageSize else Ok (Z.min size PAGE_MAX)
      end
  end.

(** [str::split_once] at a string. *)
Fixpoint split_once_at (sep s : string) : option (string * string) :=
  if String.prefix sep s then Some (EmptyString, sdrop (String.length sep) s)
  else match s with
       | EmptyString => None
       | String c s => '(before, after) ← split_once_at sep s; Some (String c before, after)
       end.

(** The text of a cursor, from [status_cursor]. *)
Definition page_cursor (text : string) : result (Z * Z) RequestError :=
  if negb (String.prefix "gen:" text) then Err InvalidPageCursor
  else
    let cursor := sdrop 4 text in
    match split_once_at ":offset:" cursor with
    | None => let? generation := ok_or (parse_u64 cursor) InvalidPageCursor in Ok (generation, 0%Z)
    | Some (generation, offset) =>
        let? generation := ok_or (parse_u64 generation) InvalidPageCursor in
        let? offset := ok_or (parse_u64 offset) InvalidPageCursor in
        if decide (i64_max < offset)%Z then Err PageCursorOffsetOutOfRange else Ok (generation, offset)
    end.

(** [status_cursor], [status_page] *)
Definition status_cursor (params : Params) : result (option (Z * Z)) RequestError :=
  match get "page" params with
  | None => Ok None
  | Some page =>
      let? page := ok_or (json_object page) InvalidPage in
      match get "cursor" page with
      | None => Ok None
      | Some cursor =>
          let? text := ok_or (json_str cursor) InvalidPageCursor in
          let? cursor := page_cursor text in Ok (Some cursor)
      end
  end.
Definition status_page (params : Params) : result (option (Z * Z) * Z) RequestError :=
  let? limit := page_limit params in
  let? cursor := status_cursor params in
  Ok (cursor, limit).

(** * Views *)

Record TaskStatus := mkStatus {
  st_task : TaskId;
  st_revision : Z;
  st_intent : Z;
  st_lifecycle : Lifecycle;
  st_blockers : option (list Blocker);
}.
Record TodoItem := mkTodo {
  td_task : TaskId;
  td_revision : Z;
  td_lifecycle : Lifecycle;
  td_blockers : option (list Blocker);
}.
Record SchedulerItem := mkSchedulerItem {
  si_task : TaskId;
  si_revision : Z;
  si_lifecycle : Lifecycle;
  si_ready : bool;
  si_blockers : option (list Blocker);
}.

(** The items of a paged collection of a snapshot. *)
Inductive CollectionItem :=
  | ItemCriterion (c : Criterion)
  | ItemConstraint (text : string)
  | ItemObligation (o : Obligation)
  | ItemAttempt (a : AttemptRef).

(** * Blockers of several tasks *)

Abbreviation BlockerMap := (gmap TaskId (list Blocker)).

(** [entry(task).or_default().push(b)] *)
Definition push_blocker (task_id : TaskId) (b : Blocker) (m : BlockerMap) : BlockerMap :=
  <[task_id := default [] (m !! task_id) ++ [b]]> m.

(** [pending_questions_for_tasks]: the row [pending_question] finds, for every task
    that has one. *)
Definition pending_questions_for_tasks (ids : list TaskId) (db : TaskDb) : list QuestionRow :=
  omap (fun id => pending_question id db) (remove_dups ids).

(** [unresolved_obligations_for_tasks], [unknown_attempts_for_tasks]: grouped by
    task, so a task without such a row has no group. *)
Definition grouped (count : TaskId -> nat) (ids : list TaskId) : list (TaskId * nat) :=
  omap (fun id => if decide (count id = 0) then None else Some (id, count id)) (remove_dups ids).

(** [plan_blockers_on] of several tasks. *)
Definition plan_blockers_map (ids : list TaskId) (db : TaskDb) : BlockerMap :=
  list_to_map (omap (fun id => match plan_blockers_on id db with [] => None | l => Some (id, l) end) (remove_dups ids)).

(** The pending fork of each task, and the decision of those that wait. *)
Definition add_pending (lifecycles : gmap TaskId Lifecycle) (acc : gmap TaskId QuestionRow * BlockerMap) (q : QuestionRow)
    : gmap TaskId QuestionRow * BlockerMap :=
  let '(pending, blockers) := acc in
  (<[qr_task q := q]> pending,
   if decide (lifecycles !! qr_task q = Some LWaiting) then push_blocker (qr_task q) (decision_blocker q) blockers
   else blockers).

Definition add_counted (lifecycles : gmap TaskId Lifecycle) (mk : nat -> Blocker) (blockers : BlockerMap) (row : TaskId * nat)
    : BlockerMap :=
  if decide (lifecycles !! row.1 = Some LBlocked) then push_blocker row.1 (mk row.2) blockers else blockers.

Definition add_plan (pending : gmap TaskId QuestionRow) (acc : BlockerMap * BlockerMap) (task : TaskId * Lifecycle)
    : BlockerMap * BlockerMap :=
  let '(plan, blockers) := acc in
  let '(task_id, lifecycle) := task in
  if negb (projects_plan lifecycle) then (plan, blockers)
  else match plan !! task_id with
       | None => (plan, blockers)
       | Some rows =>
           let entry := extend_plan_blockers (default [] (blockers !! task_id)) rows (pending !! task_id) in
           (delete task_id plan, if decide (entry = []) then delete task_id blockers else <[task_id := entry]> blockers)
       end.

Definition add_own (blockers : BlockerMap) (task : TaskId * Lifecycle) : BlockerMap :=
  let '(task_id, lifecycle) := task in
  let blockers := if decide (lifecycle = LPaused) then push_blocker task_id workflow_off_blocker blockers else blockers in
  if decide (lifecycle = LBlocked) then
    if decide (default [] (blockers !! task_id) = []) then <[task_id := [no_ready_blocker]]> blockers else blockers
  else blockers.

(** [batched_blockers] *)
Definition batched_blockers (listed : list (TaskId * Lifecycle)) (db : TaskDb) : BlockerMap :=
  match listed with
  | [] => ∅
  | _ =>
      let ids := listed.*1 in
      let lifecycles := list_to_map (reverse listed) in
      let '(pending, blockers) := foldl (add_pending lifecycles) (∅, ∅) (pending_questions_for_tasks ids db) in
      let blockers := foldl (add_counted lifecycles obligations_blocker) blockers (grouped (fun id => unresolved_count id db) ids) in
      let blockers := foldl (add_counted lifecycles attempts_blocker) blockers (grouped (fun id => unknown_count id db) ids) in
      let '(_, blockers) := foldl (add_plan pending) (plan_blockers_map ids db, blockers) listed in
      foldl add_own blockers listed
  end.

(** * Pages *)

Section Pages.
(** The [rowid] each task row was inserted under. *)
Variable rowid : TaskId -> nat.

Definition rowid_le (a b : TaskId * TaskRow) : Prop := rowid a.1 <= rowid b.1.
#[local] Instance rowid_le_dec a b : Decision (rowid_le a b).
Proof. unfold rowid_le. apply _. Defined.

(** [WHERE session_id = ?1 ORDER BY rowid] *)
Definition session_rows (session_id : SessionId) (db : TaskDb) : list (TaskId * TaskRow) :=
  merge_sort rowid_le (filter (fun t => tk_session t.2 = session_id) (map_to_list (tasks db))).

(** [LIMIT ?2 OFFSET ?3], of arguments that are not negative. *)
Definition limit_offset {A} (limit offset : Z) (rows : list A) : list A :=
  take (Z.to_nat limit) (drop (Z.to_nat offset) rows).

(** [SESSION_GENERATION] *)
Definition session_generation (session_id : SessionId) (db : TaskDb) : Z :=
  foldr (fun t acc => Z.max (tk_revision t.2) acc) 0%Z (session_rows session_id db).

(** [status_page_context] *)
Definition status_page_context (session_id : SessionId) (cursor : option (Z * Z)) (db : TaskDb) : result (Z * Z) StoreError :=
  let generation := session_generation session_id db in
  let offset := match cursor with Some (_, offset) => offset | None => 0%Z end in
  match cursor with
  | Some (expected, _) =>
      if decide (expected <> generation) then Err (StoreConflict (CursorGeneration expected generation))
      else if decide (i64_max < offset)%Z then Err (StoreInvalidInput CursorOffsetOutOfRange)
      else Ok (generation, offset)
  | None => Ok (generation, offset)
  end.

(** [next_page_offset]: a sum that leaves [u64] is refused like one that leaves
    [i64]. *)
Definition next_page_offset (offset limit : Z) : result Z StoreError :=
  let next := (offset + limit)%Z in
  if decide (u64_top < next)%Z then Err (StoreInvalidInput CursorOffsetOutOfRange)
  else if decide (i64_max < next)%Z then Err (StoreInvalidInput CursorOffsetOutOfRange)
  else Ok next.

(** [sql_offset] *)
Definition sql_offset (offset : Z) : result Z StoreError :=
  if decide (offset <= i64_max)%Z then Ok offset else Err (StoreInvalidInput CursorOffsetOutOfRange).

Definition cursor_text (generation offset : Z) : string := "gen:" +:+ pretty generation +:+ ":offset:" +:+ pretty offset.

(** The cursor of a page that leaves rows behind. *)
Definition with_next {A} (has_more : bool) (generation offset : Z) (page : Page A) : Page A :=
  if has_more then mkPage (items page) (snapshot_generation page) (Some (cursor_text generation offset)) else page.

(** The rows of one page, what follows them, and where. *)
Definition page_rows (session_id : SessionId) (limit : Z) (cursor : option (Z * Z)) (db : TaskDb)
    : result (list (TaskId * TaskRow) * Z * Z * bool) StoreError :=
  let? context := status_page_context session_id cursor db in
  let '(generation, offset) := context in
  let? next_offset := next_page_offset offset limit in
  let? offset := sql_offset offset in
  let rows := limit_offset (limit + 1) offset (session_rows session_id db) in
  Ok (take (Z.to_nat limit) rows, generation, next_offset, (limit <? zlen rows)%Z).

(** [task_status_page] *)
Definition task_status_page (session_id : SessionId) (limit : Z) (cursor : option (Z * Z)) (s : Store)
    : result (Page TaskStatus) StoreError :=
  read (fun db =>
    let? page := page_rows session_id limit cursor db in
    let '(rows, generation, next_offset, has_more) := page in
    let blockers := batched_blockers (map (fun t => (t.1, tk_lifecycle t.2)) rows) db in
    Ok (with_next has_more generation next_offset
          (page_new (map (fun t => mkStatus t.1 (tk_revision t.2) (tk_intent t.2) (tk_lifecycle t.2) (blockers !! t.1)) rows) generation))) s.

(** [todo_items]: the triggers on [tasks] keep the projection's revision and
    lifecycle equal to the row's. *)
Definition todo_items (session_id : SessionId) (limit : Z) (cursor : option (Z * Z)) (s : Store)
    : result (list TodoItem * Z * Z * bool) StoreError :=
  read (fun db =>
    let? page := page_rows session_id limit cursor db in
    let '(rows, generation, next_offset, has_more) := page in
    let blockers := batched_blockers (map (fun t => (t.1, tk_lifecycle t.2)) rows) db in
    Ok (map (fun t => mkTodo t.1 (tk_revision t.2) (tk_lifecycle t.2) (blockers !! t.1)) rows, generation, next_offset, has_more)) s.

(** [todo_page] *)
Definition todo_page (session_id : SessionId) (limit : Z) (cursor : option (Z * Z)) (s : Store)
    : result (Page TodoItem) StoreError :=
  let? todo := todo_items session_id limit cursor s in
  let '(its, generation, next_offset, has_more) := todo in
  Ok (with_next has_more generation next_offset (page_new its generation)).

(** [scheduler_page] *)
Definition scheduler_item (item : TodoItem) : SchedulerItem :=
  mkSchedulerItem (td_task item) (td_revision item) (td_lifecycle item)
    (bool_decide (td_lifecycle item = LRunning) && bool_decide (td_blockers item = None)) (td_blockers item).
Definition scheduler_page (session_id : SessionId) (limit : Z) (cursor : option (Z * Z)) (s : Store)
    : result (Page SchedulerItem) StoreError :=
  let? todo := todo_items session_id limit cursor s in
  let '(its, generation, next_offset, has_more) := todo in
  Ok (with_next has_more generation next_offset (page_new (map scheduler_item its) generation)).

(** [collection] *)
Definition collection_items (collection : string) (sn : TaskSnapshot) : option (list CollectionItem) :=
  if decide (collection = "criteria") then Some (map ItemCriterion (items (sn_criteria sn)))
  else if decide (collection = "constraints") then Some (map ItemConstraint (items (sn_constraints sn)))
  else if decide (collection = "obligations") then Some (map ItemObligation (items (sn_obligations sn)))
  else if decide (collection = "attempts") then Some (map ItemAttempt (items (sn_attempts sn)))
  else None.
Definition collection (task_id : TaskId) (name : string) (cursor : option (Z * Z)) (limit : Z) (s : Store)
    : result (Page CollectionItem) StoreError :=
  let? sn := snapshot task_id s in
  let? _ :=
    match cursor with
    | Some (generation, _) =>
        if decide (generation <> sn_revision sn) then Err (StoreConflict (CursorGeneration generation (sn_revision sn))) else Ok tt
    | None => Ok tt
    end in
  let generation := sn_revision sn in
  let? its := ok_or (collection_items name sn) (StoreInvalidInput (UnknownCollection name)) in
  let offset := match cursor with Some (_, offset) => offset | None => 0%Z end in
  let start := Z.min offset (zlen its) in
  let stop := Z.min (start + limit) (zlen its) in
  Ok (with_next (stop <? zlen its)%Z generation stop (page_new (limit_offset (stop - start) start its) generation)).

(** [in_flight_task] *)
Definition in_flight_task (session_id : SessionId) (s : Store) : result (option TaskId) StoreError :=
  read (fun db => Ok (fst <$> find (fun t => negb (lifecycle_is_terminal (tk_lifecycle t.2))) (session_rows session_id db))) s.

(** The loop of [running_task]: one unit of fuel per page, and [offset] counts the
    rows that were read. *)
Fixpoint scan_running (fuel : nat) (session_id : SessionId) (s : Store) (scanned : option (Z * Z)) (offset : Z)
    : outcome (result (option TaskId) StoreError) :=
  match fuel with
  | O => Diverge
  | S fuel =>
      match task_status_page session_id PAGE_MAX scanned s with
      | Err (StoreConflict (CursorGeneration _ _)) => Ret (in_flight_task session_id s)
      | Err error => Ret (Err error)
      | Ok page =>
          match find (fun status => bool_decide (st_lifecycle status = LRunning)) (items page) with
          | Some running => Ret (Ok (Some (st_task running)))
          | None =>
              match Contracts.next_cursor page with
              | None => Ret (Ok None)
              | Some _ =>
                  let* offset := add_or_panic u64_top offset PAGE_MAX in
                  scan_running fuel session_id s (Some (snapshot_generation page, offset)) offset
              end
          end
      end
  end.

(** [running_task] *)
Definition running_task (fuel : nat) (session_id : SessionId) (s : Store) : outcome (result (option TaskId) StoreError) :=
  match in_flight_task session_id s with
  | Err error => Ret (Err error)
  | Ok None => Ret (Ok None)
  | Ok (Some _) => scan_running fuel session_id s None 0
  end.
End Pages.

(** * The event feed *)

(** [ORDER BY cursor] *)
Definition cursor_le (a b : Event EventDelta) : Prop := (ev_cursor a <= ev_cursor b)%Z.
#[local] Instance cursor_le_dec a b : Decision (cursor_le a b).
Proof. unfold cursor_le. apply _. Defined.
#[local] Instance cursor_le_trans : Transitive cursor_le.
Proof. intros a b c. unfold cursor_le. lia. Qed.
#[local] Instance cursor_le_total : Total cursor_le.
Proof. intros a b. unfold cursor_le. lia. Qed.

(** [WHERE session_id = ?1 AND cursor > ?2], and the task where one is named. *)
Definition fed (session_id : SessionId) (task_id : option TaskId) (after : Z) (e : Event EventDelta) : bool :=
  String.eqb (ev_session_id e) session_id && (after <? ev_cursor e)%Z &&
  match task_id with Some id => bool_decide (ev_task_id e = Some id) | None => true end.

(** [events_after] *)
Definition events_after (session_id : SessionId) (task_id : option TaskId) (after limit : Z) (s : Store)
    : result (list (Event EventDelta)) StoreError :=
  if decide (i64_max < after)%Z then Err (StoreInvalidInput EventCursorOutOfRange)
  else read (fun db => Ok (take (Z.to_nat limit) (merge_sort cursor_le
         (filter (fun e => fed session_id task_id after e) (event_rows db))))) s.

(** [event_count] *)
Definition event_count (s : Store) : result Z StoreError := read (fun db => Ok (zlen (event_rows db))) s.

(** * Folds that visit each key once *)

Section Observed.
Context {K S A O : Type} `{EqDecision K}.
Variables (key : A -> K) (obs : K -> S -> O) (f : S -> A -> S) (g : A -> O -> O).
Hypothesis at_key : forall s a, obs (key a) (f s a) = g a (obs (key a) s).
Hypothesis off_key : forall s a k, k <> key a -> obs k (f s a) = obs k s.

Lemma foldl_observed rows s k :
  NoDup (map key rows) ->
  obs k (foldl f s rows) = match find (fun a => bool_decide (key a = k)) rows with Some a => g a (obs k s) | None => obs k s end.
Proof using at_key off_key.
  revert s. induction rows as [|a rows IH]; intros s Hn; [done|]. cbn [map] in Hn. apply NoDup_cons in Hn as [Ha Hn].
  cbn [foldl]. rewrite IH by done. rewrite find_cons. case_bool_decide as E.
  - subst k. replace (find _ rows) with (@None A); [apply at_key|]. symmetry. apply find_None, Forall_forall.
    intros b Hb. apply bool_decide_eq_false. intros E. apply Ha. rewrite <- E. by apply list_elem_of_fmap_2.
  - destruct (find _ rows); by rewrite off_key.
Qed.
End Observed.

(** Rows picked by their key. *)
Lemma omap_keyed {K A} `{EqDecision K} (key : A -> K) (h : K -> option A) ids :
  (forall k a, h k = Some a -> key a = k) -> NoDup ids ->
  NoDup (map key (omap h ids)) /\
  forall k, find (fun a => bool_decide (key a = k)) (omap h ids) = if decide (k ∈ ids) then h k else None.
Proof.
  intros Hk. induction ids as [|i ids IH]; intros Hn; [by split; [constructor|]|]. apply NoDup_cons in Hn as [Hi Hn].
  destruct (IH Hn) as [Hd Hf]. cbn [omap list_omap]. change (list_omap _ _ h ids) with (omap h ids).
  destruct (h i) as [a|] eqn:Ha.
  - pose proof (Hk i a Ha) as Hka. split.
    + cbn. apply NoDup_cons. split; [|done]. rewrite Hka. intros (b & Hb & Hin)%list_elem_of_fmap.
      apply list_elem_of_omap in Hin as (j & Hj & Hjb). apply Hk in Hjb. apply Hi. rewrite Hb, Hjb. done.
    + intros k. rewrite find_cons, Hka. case_bool_decide as E.
      * subst. rewrite decide_True by by left. done.
      * rewrite Hf. destruct (decide (k ∈ ids)) as [Hin|Hin]; [by rewrite decide_True by by right|].
        by rewrite decide_False by (intros [->|?]%elem_of_cons; done).
  - split; [done|]. intros k. rewrite Hf. destruct (decide (k ∈ ids)) as [Hin|Hin]; [by rewrite decide_True by by right|].
    destruct (decide (k ∈ i :: ids)) as [[->|?]%elem_of_cons|?]; done.
Qed.

(** * The batch answers as each task's own read does *)

Lemma latest_question_elem rows q : latest_question rows = Some q -> q ∈ rows.
Proof.
  induction rows as [|r rows IH]; [done|]. cbn. destruct (latest_question rows) as [later|] eqn:E.
  - case_match; intros [= <-]; [right; by apply IH|by left].
  - intros [= <-]. by left.
Qed.

Lemma pending_question_task id db q : pending_question id db = Some q -> qr_task q = id.
Proof.
  intros [Hp _]%latest_question_elem%list_elem_of_filter. unfold is_pending in Hp. apply Is_true_true in Hp.
  apply andb_true_iff in Hp as [Hp _]. by apply String.eqb_eq in Hp.
Qed.

(** The blockers of one task, in the order the batch lists them. *)
Definition batch_order (task_id : TaskId) (l : Lifecycle) (db : TaskDb) : list Blocker :=
  let own := if decide (l = LPaused) then [] else own_blockers task_id l db in
  let listed := if projects_plan l then extend_plan_blockers own (plan_blockers_on task_id db) (pending_question task_id db) else own in
  let listed := if decide (l = LPaused) then listed ++ [workflow_off_blocker] else listed in
  if decide (l = LBlocked /\ listed = []) then [no_ready_blocker] else listed.

(** What a list is under its key: nothing where it is empty. *)
Definition entry_of (l : list Blocker) : option (list Blocker) := if decide (l = []) then None else Some l.

Lemma entry_of_default l : default [] (entry_of l) = l.
Proof. unfold entry_of. by case_decide. Qed.

Section Batch.
Variables (listed : list (TaskId * Lifecycle)) (db : TaskDb) (id : TaskId) (l : Lifecycle).
Hypothesis Hn : NoDup listed.*1.
Hypothesis Hin : (id, l) ∈ listed.

Lemma listed_lifecycle : (list_to_map (reverse listed) : gmap TaskId Lifecycle) !! id = Some l.
Proof using Hn Hin.
  apply elem_of_list_to_map; [|by rewrite elem_of_reverse]. rewrite fmap_reverse, reverse_Permutation. done.
Qed.

Lemma listed_elem : id ∈ listed.*1.
Proof using Hin. by apply (list_elem_of_fmap_2 fst) in Hin. Qed.

Lemma find_listed : find (fun a => bool_decide (a.1 = id)) listed = Some (id, l).
Proof using Hn Hin.
  clear -Hn Hin. induction listed as [|[k v] rows IH]; [by apply elem_of_nil in Hin|]. cbn in Hn. apply NoDup_cons in Hn as [Hk Hn'].
  rewrite find_cons. cbn. apply elem_of_cons in Hin as [[= -> ->]|Hin']; [by rewrite bool_decide_true|].
  rewrite bool_decide_false; [by apply IH|]. intros ->. apply Hk. by apply (list_elem_of_fmap_2 fst) in Hin'.
Qed.

Local Abbreviation lifecycles := (list_to_map (reverse listed) : gmap TaskId Lifecycle).

Lemma after_pending :
  let acc := foldl (add_pending lifecycles) (∅, ∅) (pending_questions_for_tasks listed.*1 db) in
  (acc.1 !! id, acc.2 !! id) = (pending_question id db,
    entry_of (if decide (l = LWaiting) then own_blockers id l db else [])).
Proof using Hn Hin.
  cbn zeta. pose proof (omap_keyed qr_task (fun k => pending_question k db) (remove_dups listed.*1)
    (fun k a H => pending_question_task k db a H) (NoDup_remove_dups _)) as [Hd Hf].
  rewrite (foldl_observed (K := TaskId) qr_task (fun k s => (s.1 !! k, s.2 !! k)) (add_pending lifecycles)
    (fun q o => (Some q, if decide (lifecycles !! qr_task q = Some LWaiting) then Some (default [] o.2 ++ [decision_blocker q]) else o.2))).
  - unfold pending_questions_for_tasks. rewrite Hf, decide_True by (apply elem_of_remove_dups, listed_elem).
    cbn. rewrite !lookup_empty. destruct (pending_question id db) as [q|] eqn:Eq.
    + rewrite (pending_question_task _ _ _ Eq), listed_lifecycle. destruct l; cbn; try done. by rewrite Eq.
    + destruct l; cbn; try done. by rewrite Eq.
  - intros [p b] q. cbn. unfold push_blocker. rewrite lookup_insert_eq. f_equal. case_decide; [by rewrite lookup_insert_eq|done].
  - intros [p b] q k Hk. cbn. unfold push_blocker. rewrite lookup_insert_ne by done. f_equal.
    case_decide; [by rewrite lookup_insert_ne|done].
  - exact Hd.
Qed.

Lemma after_counted count mk (blockers : BlockerMap) :
  foldl (add_counted lifecycles mk) blockers (grouped count listed.*1) !! id =
    if decide (l = LBlocked /\ count id <> 0) then Some (default [] (blockers !! id) ++ [mk (count id)]) else blockers !! id.
Proof using Hn Hin.
  pose proof (omap_keyed fst (fun k => if decide (count k = 0) then None else Some (k, count k)) (remove_dups listed.*1)) as [Hd Hf];
    [intros k a; case_decide; [done|by intros [= <-]]|apply NoDup_remove_dups|].
  rewrite (foldl_observed (K := TaskId) fst (fun k (s : BlockerMap) => s !! k) (add_counted lifecycles mk)
    (fun row o => if decide (lifecycles !! row.1 = Some LBlocked) then Some (default [] o ++ [mk row.2]) else o)).
  - unfold grouped. rewrite Hf, decide_True by (apply elem_of_remove_dups, listed_elem). case_decide as E.
    + by rewrite decide_False by naive_solver.
    + cbn. rewrite listed_lifecycle. destruct (decide (l = LBlocked)) as [->|Hl].
      * by rewrite !decide_True by done.
      * by rewrite !decide_False by naive_solver.
  - intros s row. unfold add_counted, push_blocker. case_decide; [by rewrite lookup_insert_eq|done].
  - intros s row k Hk. unfold add_counted, push_blocker. case_decide; [by rewrite lookup_insert_ne|done].
  - exact Hd.
Qed.

Lemma plan_map_lookup : plan_blockers_map listed.*1 db !! id = entry_of (plan_blockers_on id db).
Proof using Hin.
  unfold plan_blockers_map.
  pose proof (omap_keyed (A := TaskId * list Blocker) fst
    (fun k => match plan_blockers_on k db with [] => None | l => Some (k, l) end) (remove_dups listed.*1)) as [Hd Hf];
    [intros k a; case_match; [done|by intros [= <-]]|apply NoDup_remove_dups|].
  unfold entry_of. case_decide as E.
  - apply not_elem_of_list_to_map. intros ([k v] & Hk & (j & _ & Hj)%list_elem_of_omap)%list_elem_of_fmap. cbn in Hk. subst k.
    destruct (plan_blockers_on j db) eqn:Ej; [done|]. injection Hj as -> _. by rewrite E in Ej.
  - apply elem_of_list_to_map; [exact Hd|]. apply list_elem_of_omap. exists id.
    split; [apply elem_of_remove_dups, listed_elem|]. by destruct (plan_blockers_on id db).
Qed.

Lemma after_plan pending (plan blockers : BlockerMap) :
  (foldl (add_plan pending) (plan, blockers) listed).2 !! id =
    if projects_plan l then
      match plan !! id with
      | Some rows => entry_of (extend_plan_blockers (default [] (blockers !! id)) rows (pending !! id))
      | None => blockers !! id
      end
    else blockers !! id.
Proof using Hn Hin.
  pose proof (foldl_observed (K := TaskId) fst (fun k (s : BlockerMap * BlockerMap) => (s.1 !! k, s.2 !! k)) (add_plan pending)
    (fun task o => if projects_plan task.2 then
                     match o.1 with
                     | Some rows => (None, entry_of (extend_plan_blockers (default [] o.2) rows (pending !! task.1)))
                     | None => o
                     end
                   else o)) as Hobs.
  specialize (Hobs ltac:(intros [p b] [k v]; cbn; destruct (projects_plan v); [|done]; cbn; destruct (p !! k) eqn:E; cbn;
    [rewrite lookup_delete_eq; unfold entry_of; case_decide; [by rewrite lookup_delete_eq|by rewrite lookup_insert_eq]|by rewrite E])).
  specialize (Hobs ltac:(intros [p b] [k v] j Hj; cbn in *; destruct (projects_plan v); [|done]; cbn; destruct (p !! k) eqn:E; cbn;
    [rewrite lookup_delete_ne by done; case_decide; [by rewrite lookup_delete_ne|by rewrite lookup_insert_ne]|done])).
  specialize (Hobs listed (plan, blockers) id Hn). rewrite find_listed in Hobs. cbn in Hobs.
  apply (f_equal snd) in Hobs. cbn in Hobs. rewrite Hobs. destruct (projects_plan l); [|done]. by destruct (plan !! id).
Qed.

Lemma after_own (blockers : BlockerMap) :
  foldl add_own blockers listed !! id =
    let o := if decide (l = LPaused) then Some (default [] (blockers !! id) ++ [workflow_off_blocker]) else blockers !! id in
    if decide (l = LBlocked /\ default [] o = []) then Some [no_ready_blocker] else o.
Proof using Hn Hin.
  rewrite (foldl_observed (K := TaskId) fst (fun k (s : BlockerMap) => s !! k) add_own
    (fun task o => let o := if decide (task.2 = LPaused) then Some (default [] o ++ [workflow_off_blocker]) else o in
                   if decide (task.2 = LBlocked /\ default [] o = []) then Some [no_ready_blocker] else o)).
  - by rewrite find_listed.
  - intros s [k v]. cbn [add_own fst snd]. unfold push_blocker.
    destruct (decide (v = LPaused)) as [->|Hp]; cbn zeta.
    + rewrite !(decide_False (P := LPaused = LBlocked)) by done. rewrite decide_False by naive_solver. by rewrite lookup_insert_eq.
    + destruct (decide (v = LBlocked)) as [->|Hb]; [|by rewrite decide_False by naive_solver].
      case_decide as E; [rewrite lookup_insert_eq; by rewrite decide_True|by rewrite decide_False by naive_solver].
  - intros s [k v] j Hj. cbn [add_own fst snd] in *. unfold push_blocker.
    repeat case_decide; by rewrite ?lookup_insert_ne.
  - exact Hn.
Qed.
End Batch.

(** The batch, for one of its tasks. *)
Lemma batched_lookup listed db id l :
  NoDup listed.*1 -> (id, l) ∈ listed -> batched_blockers listed db !! id = entry_of (batch_order id l db).
Proof.
  intros Hn Hin. unfold batched_blockers. destruct listed as [|t0 rest] eqn:El; [by apply elem_of_nil in Hin|].
  rewrite <- El in *. clear El t0 rest.
  pose proof (after_pending listed db id l Hn Hin) as Hp. cbn zeta in Hp.
  destruct (foldl _ (∅, ∅) _) as [pending blockers]. cbn in Hp. injection Hp as Hp1 Hp2.
  destruct (foldl (add_plan pending) _ _) as [plan' blockers'] eqn:Eplan.
  assert (Hb : blockers' !! id = (foldl (add_plan pending) (plan_blockers_map listed.*1 db,
     foldl (add_counted (list_to_map (reverse listed)) attempts_blocker)
       (foldl (add_counted (list_to_map (reverse listed)) obligations_blocker) blockers (grouped (fun k => unresolved_count k db) listed.*1))
       (grouped (fun k => unknown_count k db) listed.*1)) listed).2 !! id) by (by rewrite Eplan).
  rewrite (after_plan listed id l Hn Hin), (plan_map_lookup listed db id l Hin), Hp1 in Hb.
  rewrite (after_counted listed id l Hn Hin (fun k => unknown_count k db)) in Hb.
  rewrite (after_counted listed id l Hn Hin (fun k => unresolved_count k db)), Hp2 in Hb.
  rewrite (after_own listed id l Hn Hin), Hb. clear. unfold batch_order.
  assert (Hplan : forall o, match entry_of (plan_blockers_on id db) with
    | Some rows => entry_of (extend_plan_blockers (default [] (entry_of o)) rows (pending_question id db))
    | None => entry_of o end = entry_of (extend_plan_blockers o (plan_blockers_on id db) (pending_question id db))).
  { intros o. rewrite entry_of_default. unfold entry_of at 1. case_decide as E; [by rewrite E|done]. }
  destruct l; cbn [projects_plan own_blockers].
  - rewrite !decide_False by naive_solver. done.
  - rewrite !(decide_False (P := LWaiting = LPaused)), !(decide_False (P := LWaiting = LBlocked /\ _)) by naive_solver.
    rewrite (decide_True (P := LWaiting = LWaiting)) by done. rewrite Hplan. rewrite ?decide_False by naive_solver. done.
  - rewrite !(decide_True (P := LPaused = LPaused)) by done.
    rewrite !(decide_False (P := LPaused = LWaiting)), !(decide_False (P := LPaused = LBlocked /\ _)) by naive_solver.
    rewrite Hplan, entry_of_default. cbn zeta. unfold entry_of. by rewrite decide_False by (intros E; by apply app_nil in E as [_ ?]).
  - rewrite !(decide_False (P := LBlocked = LPaused)), !(decide_False (P := LBlocked = LWaiting)) by done.
    assert (Hown : (if decide (LBlocked = LBlocked /\ unknown_count id db <> 0)
        then Some (default [] (if decide (LBlocked = LBlocked /\ unresolved_count id db <> 0)
               then Some (default [] (entry_of []) ++ [obligations_blocker (unresolved_count id db)]) else entry_of []) ++ [attempts_blocker (unknown_count id db)])
        else if decide (LBlocked = LBlocked /\ unresolved_count id db <> 0)
             then Some (default [] (entry_of []) ++ [obligations_blocker (unresolved_count id db)]) else entry_of []) =
      entry_of ((if 0 <? unresolved_count id db then [obligations_blocker (unresolved_count id db)] else []) ++
                (if 0 <? unknown_count id db then [attempts_blocker (unknown_count id db)] else []))).
    { unfold entry_of. destruct (unresolved_count id db), (unknown_count id db); cbn; repeat case_decide; naive_solver. }
    rewrite Hown, Hplan. cbn zeta. rewrite entry_of_default. repeat case_decide; naive_solver.
  - rewrite !decide_False by naive_solver. done.
  - rewrite !decide_False by naive_solver. done.
Qed.

(** A task's own read pushes the off pause before the plan, the batch after it. *)
Lemma extend_plan_cons w acc plan pending :
  (forall q r, b_condition w <> ByDecision q r) ->
  extend_plan_blockers (w :: acc) plan pending = w :: extend_plan_blockers acc plan pending.
Proof.
  intros Hw. revert acc. induction plan as [|b plan IH]; intros acc; [done|]. cbn [extend_plan_blockers].
  destruct (b_condition b) as [q r| | |] eqn:Eb; [|by rewrite <- IH..].
  cbn [existsb]. rewrite (bool_decide_false (b_condition w = ByDecision q r)) by apply Hw. cbn [orb].
  case_match; [apply IH|by rewrite <- IH].
Qed.

Lemma batch_order_permutes id l db :
  exists own, blockers_of id l db = entry_of own /\ Permutation (batch_order id l db) own /\
    (l <> LPaused -> batch_order id l db = own).
Proof.
  unfold blockers_of, batch_order. fold (entry_of (if bool_decide (l = LBlocked) && bool_decide
    ((if projects_plan l then extend_plan_blockers (own_blockers id l db) (plan_blockers_on id db) (pending_question id db)
      else own_blockers id l db) = []) then [no_ready_blocker] else
    (if projects_plan l then extend_plan_blockers (own_blockers id l db) (plan_blockers_on id db) (pending_question id db)
      else own_blockers id l db))).
  eexists. split; [reflexivity|]. destruct (decide (l = LPaused)) as [->|Hl].
  - cbn [projects_plan own_blockers]. rewrite bool_decide_false by done. cbn [andb]. rewrite decide_False by naive_solver.
    rewrite extend_plan_cons by done. split; [by rewrite Permutation_app_comm|done].
  - assert (He : (if decide (l = LBlocked /\ (if projects_plan l then extend_plan_blockers (own_blockers id l db) (plan_blockers_on id db) (pending_question id db) else own_blockers id l db) = [])
      then [no_ready_blocker] else if projects_plan l then extend_plan_blockers (own_blockers id l db) (plan_blockers_on id db) (pending_question id db) else own_blockers id l db) =
      if bool_decide (l = LBlocked) && bool_decide ((if projects_plan l then extend_plan_blockers (own_blockers id l db) (plan_blockers_on id db) (pending_question id db) else own_blockers id l db) = [])
      then [no_ready_blocker] else if projects_plan l then extend_plan_blockers (own_blockers id l db) (plan_blockers_on id db) (pending_question id db) else own_blockers id l db).
    { rewrite <- bool_decide_and. case_decide as E; [by rewrite bool_decide_true|by rewrite bool_decide_false]. }
    rewrite He. done.
Qed.

(** * Cursors read back *)

Definition no_colon : string -> Prop := fun s => Forall (fun b => b <> COLON) (bytes_of s).

Lemma split_once_at_app a sep rest :
  no_colon a -> split_once_at (String ":" sep) (a +:+ String ":" sep +:+ rest) = Some (a, rest).
Proof.
  induction a as [|c a IH]; intros Ha.
  - rewrite string_app_nil. change (String ":" sep +:+ rest) with ((String ":" sep) +:+ rest).
    assert (Hp : String.prefix (String ":" sep) (String ":" sep +:+ rest) = true) by apply prefix_app.
    destruct (String ":" sep +:+ rest) eqn:E; [done|]. rewrite <- E in *. cbn [split_once_at]. rewrite E. cbn [split_once_at]. rewrite <- E.
    rewrite Hp. f_equal. f_equal. clear. rewrite string_app_cons. cbn [String.length sdrop].
    induction sep as [|d sep IH]; [by rewrite string_app_nil|]. rewrite string_app_cons. cbn. exact IH.
  - unfold no_colon in Ha. change (bytes_of (String c a)) with (Z.of_N (Ascii.N_of_ascii c) :: bytes_of a) in Ha.
    apply Forall_cons in Ha as [Hc Ha]. rewrite string_app_cons. cbn [split_once_at String.prefix].
    destruct (Ascii.ascii_dec ":" c) as [<-|Hne]; [by exfalso; apply Hc|].
    rewrite IH by done. done.
Qed.

Lemma decimal_no_colon n : (0 <= n)%Z -> no_colon (pretty n).
Proof.
  intros Hn. pose proof (decimal_digits n Hn) as Hd. unfold decimal in Hd. unfold no_colon. eapply Forall_impl; [exact Hd|].
  intros b Hb ->. by vm_compute in Hb.
Qed.

Lemma page_cursor_text generation offset :
  (0 <= generation <= u64_top)%Z -> (0 <= offset <= i64_max)%Z ->
  page_cursor (cursor_text generation offset) = Ok (generation, offset).
Proof.
  intros Hg Ho. unfold page_cursor, cursor_text. rewrite prefix_app. cbn [negb].
  change (sdrop 4 ("gen:" +:+ pretty generation +:+ ":offset:" +:+ pretty offset)) with (pretty generation +:+ ":offset:" +:+ pretty offset).
  rewrite (split_once_at_app (pretty generation) "offset:" (pretty offset)) by (apply decimal_no_colon; lia).
  unfold parse_u64. fold (decimal generation) (decimal offset).
  rewrite !parse_decimal by (unfold u64_top, i64_max in *; lia). cbn [ok_or rbind]. by rewrite decide_False by lia.
Qed.

(** * Walking the pages *)

Section Walk.
Variable rowid : TaskId -> nat.
Variables (session_id : SessionId) (db : TaskDb) (s : Store).
Hypothesis Hconn : conn s = Ok db.

Local Abbreviation rows := (session_rows rowid session_id db).
Local Abbreviation generation := (session_generation rowid session_id db).

Lemma session_rows_nodup : NoDup (rows.*1).
Proof using Type.
  unfold session_rows. rewrite merge_sort_Permutation. eapply sublist_NoDup; [apply (NoDup_fst_map_to_list (tasks db))|].
  apply fmap_sublist, sublist_filter.
Qed.

Lemma session_rows_elem t : t ∈ rows <-> tasks db !! t.1 = Some t.2 /\ tk_session t.2 = session_id.
Proof using Type.
  destruct t as [k v]. unfold session_rows. rewrite merge_sort_Permutation, list_elem_of_filter, elem_of_map_to_list. cbn. naive_solver.
Qed.

(** The page that starts at a row. *)
Lemma page_rows_at limit cursor offset :
  (cursor = None /\ offset = 0%Z) \/ cursor = Some (generation, offset) ->
  (1 <= limit)%Z -> (0 <= offset)%Z -> (offset + limit <= i64_max)%Z ->
  page_rows rowid session_id limit cursor db =
    Ok (take (Z.to_nat limit) (drop (Z.to_nat offset) rows), generation, (offset + limit)%Z, (offset + limit <? zlen rows)%Z).
Proof using Type.
  intros Hc Hl Ho Hm. unfold page_rows.
  assert (Hctx : status_page_context rowid session_id cursor db = Ok (generation, offset)).
  { unfold status_page_context. destruct Hc as [[-> ->]| ->]; [done|]. rewrite decide_False by naive_solver. by rewrite decide_False by lia. }
  rewrite Hctx. cbn [rbind]. unfold next_page_offset, sql_offset.
  cbn zeta. rewrite (decide_False (P := (u64_top < offset + limit)%Z)) by (unfold u64_top, i64_max in *; lia).
  rewrite (decide_False (P := (i64_max < offset + limit)%Z)) by lia. cbn [rbind].
  rewrite (decide_True (P := (offset <= i64_max)%Z)) by lia. cbn [rbind]. unfold limit_offset. f_equal. f_equal; [f_equal; f_equal|].
  - rewrite take_take. f_equal. lia.
  - unfold zlen. rewrite length_take, length_drop. destruct (Z.ltb_spec (offset + limit) (Z.of_nat (length rows)));
      [apply Z.ltb_lt|apply Z.ltb_ge]; lia.
Qed.

(** What a page shows of a row: its columns, and the blockers its own read gives. *)
Definition same_blockers (a b : option (list Blocker)) : Prop :=
  match a, b with Some a, Some b => Permutation a b | None, None => True | _, _ => False end.
Definition shows (t : TaskId * TaskRow) (st : TaskStatus) : Prop :=
  st_task st = t.1 /\ st_revision st = tk_revision t.2 /\ st_intent st = tk_intent t.2 /\ st_lifecycle st = tk_lifecycle t.2 /\
  same_blockers (st_blockers st) (sn_blockers (snapshot_of t.1 t.2 db)).

Lemma batch_same_blockers listed id l :
  NoDup listed.*1 -> (id, l) ∈ listed -> same_blockers (batched_blockers listed db !! id) (blockers_of id l db).
Proof using Type.
  intros Hn Hin. rewrite (batched_lookup listed db id l Hn Hin). destruct (batch_order_permutes id l db) as (own & -> & Hp & _).
  unfold entry_of. destruct (decide (batch_order id l db = [])) as [E1|E1], (decide (own = [])) as [E2|E2]; cbn; try done.
  - rewrite E1 in Hp. by apply Permutation_nil in Hp.
  - rewrite E2 in Hp. by apply Permutation_sym, Permutation_nil in Hp.
Qed.

Local Abbreviation page_statuses listed :=
  (map (fun t : TaskId * TaskRow => mkStatus t.1 (tk_revision t.2) (tk_intent t.2) (tk_lifecycle t.2)
         (batched_blockers (map (fun t => (t.1, tk_lifecycle t.2)) listed) db !! t.1)) listed).

Lemma page_shows listed : NoDup listed.*1 -> Forall2 shows listed (page_statuses listed).
Proof using Type.
  intros Hn. apply Forall2_fmap_r, Forall_Forall2_diag, Forall_forall. intros t Ht. split_and!; try done.
  apply batch_same_blockers; [|by apply (list_elem_of_fmap_2 (fun t => (t.1, tk_lifecycle t.2)))].
  rewrite <- list_fmap_compose. done.
Qed.

(** A page, from its place. *)
Lemma status_page_at limit cursor offset :
  (cursor = None /\ offset = 0%Z) \/ cursor = Some (generation, offset) ->
  (1 <= limit)%Z -> (0 <= offset)%Z -> (offset + limit <= i64_max)%Z ->
  let listed := take (Z.to_nat limit) (drop (Z.to_nat offset) rows) in
  task_status_page rowid session_id limit cursor s =
    Ok (with_next (offset + limit <? zlen rows)%Z generation (offset + limit) (page_new (page_statuses listed) generation)).
Proof using Hconn.
  intros Hc Hl Ho Hm listed. unfold task_status_page, read. rewrite Hconn, (page_rows_at _ _ _ Hc Hl Ho Hm). done.
Qed.

Lemma listed_nodup limit offset : NoDup (take limit (drop offset rows)).*1.
Proof using Type.
  eapply sublist_NoDup; [apply session_rows_nodup|]. apply fmap_sublist. etrans; [apply sublist_take|apply sublist_drop].
Qed.

(** A client that follows the cursors. *)
Fixpoint follow (fuel : nat) (limit : Z) (cursor : option (Z * Z)) : outcome (result (list TaskStatus) StoreError) :=
  match fuel with
  | O => Diverge
  | S fuel =>
      match task_status_page rowid session_id limit cursor s with
      | Err error => Ret (Err error)
      | Ok page =>
          match Contracts.next_cursor page with
          | None => Ret (Ok (items page))
          | Some text =>
              match page_cursor text with
              | Err _ => Panic
              | Ok cursor =>
                  let* rest := follow fuel limit (Some cursor) in
                  Ret (let? rest := rest in Ok (items page ++ rest))
              end
          end
      end
  end.

Hypothesis Hgeneration : (0 <= generation <= u64_top)%Z.

Lemma follow_lists fuel limit cursor offset :
  (cursor = None /\ offset = 0%Z) \/ cursor = Some (generation, offset) ->
  (1 <= limit)%Z -> (0 <= offset)%Z -> (offset + limit <= i64_max)%Z -> (zlen rows + limit <= i64_max)%Z ->
  length rows - Z.to_nat offset < fuel ->
  exists its, follow fuel limit cursor = Ret (Ok its) /\ Forall2 shows (drop (Z.to_nat offset) rows) its.
Proof using Hconn Hgeneration.
  revert cursor offset. induction fuel as [|fuel IH]; intros cursor offset Hc Hl Ho Hm Hz Hf; [lia|]. cbn [follow].
  rewrite (status_page_at limit cursor offset Hc Hl Ho Hm). cbn zeta.
  pose proof (page_shows _ (listed_nodup (Z.to_nat limit) (Z.to_nat offset))) as Hp.
  destruct (Z.ltb_spec (offset + limit) (zlen rows)) as [Hlt|Hge]; cbn [with_next Contracts.next_cursor items page_new snapshot_generation].
  - rewrite page_cursor_text by (done || (unfold zlen in *; lia)).
    destruct (IH (Some (generation, (offset + limit)%Z)) (offset + limit)%Z) as (its & -> & Hits); [by right|done|lia|unfold zlen in *; lia|done|unfold zlen in *; lia|].
    eexists. split; [reflexivity|]. rewrite <- (take_drop (Z.to_nat limit) (drop (Z.to_nat offset) rows)) at 1.
    apply Forall2_app; [exact Hp|]. rewrite drop_drop. by replace (Z.to_nat offset + Z.to_nat limit) with (Z.to_nat (offset + limit)) by lia.
  - eexists. split; [reflexivity|].
    rewrite take_ge in Hp by (rewrite length_drop; unfold zlen in *; lia).
    rewrite take_ge by (rewrite length_drop; unfold zlen in *; lia). exact Hp.
Qed.

(** The first row a predicate picks, from a place on. *)
Lemma scan_running_finds fuel cursor offset :
  (cursor = None /\ offset = 0%Z) \/ cursor = Some (generation, offset) ->
  (0 <= offset)%Z -> (offset + PAGE_MAX <= i64_max)%Z -> (zlen rows + PAGE_MAX <= i64_max)%Z ->
  length rows - Z.to_nat offset < fuel ->
  scan_running rowid fuel session_id s cursor offset =
    Ret (Ok (fst <$> find (fun t => bool_decide (tk_lifecycle t.2 = LRunning)) (drop (Z.to_nat offset) rows))).
Proof using Hconn.
  revert cursor offset. induction fuel as [|fuel IH]; intros cursor offset Hc Ho Hm Hz Hf; [lia|]. cbn [scan_running].
  rewrite (status_page_at PAGE_MAX cursor offset Hc) by (unfold PAGE_MAX in *; lia). cbn zeta.
  set (listed := take _ _).
  assert (Hfind : forall b o, find (fun status => bool_decide (st_lifecycle status = LRunning))
      (items (with_next b generation o (page_new (page_statuses listed) generation))) =
    (fun t : TaskId * TaskRow => mkStatus t.1 (tk_revision t.2) (tk_intent t.2) (tk_lifecycle t.2)
         (batched_blockers (map (fun t => (t.1, tk_lifecycle t.2)) listed) db !! t.1)) <$>
      find (fun t => bool_decide (tk_lifecycle t.2 = LRunning)) listed).
  { intros b o. destruct b; cbn [with_next items page_new]; by rewrite (find_map _ (fun t : TaskId * TaskRow => bool_decide (tk_lifecycle t.2 = LRunning))). }
  rewrite Hfind. rewrite <- (take_drop (Z.to_nat PAGE_MAX) (drop (Z.to_nat offset) rows)) at 1. fold listed. rewrite find_app.
  destruct (find (fun t => bool_decide (tk_lifecycle t.2 = LRunning)) listed) as [t|] eqn:Et; [done|]. cbn [fmap option_fmap option_map].
  destruct (Z.ltb_spec (offset + PAGE_MAX) (zlen rows)) as [Hlt|Hge]; cbn [with_next Contracts.next_cursor page_new snapshot_generation].
  - rewrite add_or_panic_Ret by (unfold u64_top, i64_max, PAGE_MAX in *; lia). cbn [obind].
    rewrite (IH (Some (generation, (offset + PAGE_MAX)%Z)) (offset + PAGE_MAX)%Z); [|by right|unfold PAGE_MAX in *; lia|unfold zlen in *; lia|done|unfold zlen, PAGE_MAX in *; lia].
    rewrite drop_drop. by replace (Z.to_nat offset + Z.to_nat PAGE_MAX) with (Z.to_nat (offset + PAGE_MAX)) by (unfold PAGE_MAX; lia).
  - rewrite drop_drop, drop_ge by (unfold zlen, PAGE_MAX in *; lia). done.
Qed.
End Walk.

(** * Reading the feed on *)

Section Feed.
Variables (session_id : SessionId) (task_id : option TaskId) (limit : Z).

(** What the feed holds after a cursor. *)
Definition feed (after : Z) (db : TaskDb) : list (Event EventDelta) :=
  filter (fun e => fed session_id task_id after e) (event_rows db).

Lemma fed_later a b e : (a <= b)%Z -> fed session_id task_id b e = fed session_id task_id a e && (b <? ev_cursor e)%Z.
Proof using Type.
  intros Hab. unfold fed. destruct (String.eqb _ _); [|done]. cbn [andb].
  destruct (Z.ltb_spec b (ev_cursor e)), (Z.ltb_spec a (ev_cursor e)); try lia; cbn [andb]; by rewrite ?andb_true_r, ?andb_false_r.
Qed.

Lemma sublist_sorted (l k : list Z) : l `sublist_of` k -> StronglySorted Z.lt k -> StronglySorted Z.lt l.
Proof using Type.
  induction 1 as [|x l k Hs IH|x l k Hs IH]; [done|..]; intros Hk; apply StronglySorted_inv in Hk as [Hk Hx].
  - constructor; [by apply IH|]. eapply Forall_forall. intros y Hy. rewrite Forall_forall in Hx. apply Hx. by eapply sublist_subseteq.
  - by apply IH.
Qed.

Lemma feed_sorted after db : StronglySorted Z.lt (cursors db) -> StronglySorted Z.lt (map ev_cursor (feed after db)).
Proof using Type. apply sublist_sorted. apply (fmap_sublist ev_cursor), sublist_filter. Qed.

Lemma ordered_by_cursor (l : list (Event EventDelta)) : StronglySorted Z.lt (map ev_cursor l) -> merge_sort cursor_le l = l.
Proof using Type.
  intros Hl. assert (Hle : StronglySorted cursor_le l).
  { clear -Hl. induction l as [|e l IH]; [constructor|]. cbn in Hl. apply StronglySorted_inv in Hl as [Hl He].
    constructor; [by apply IH|]. apply (Forall_fmap ev_cursor) in He. eapply Forall_impl; [exact He|]. unfold cursor_le. cbn. lia. }
  apply (StronglySorted_unique_strong cursor_le); [|apply (StronglySorted_merge_sort _)|exact Hle|apply merge_sort_Permutation].
  intros a b Ha Hb Hab Hba. rewrite merge_sort_Permutation in Ha. unfold cursor_le in *.
  assert (E : ev_cursor a = ev_cursor b) by lia. clear -Hl Ha Hb E. induction l as [|e l IH]; [by apply elem_of_nil in Ha|].
  cbn in Hl. apply StronglySorted_inv in Hl as [Hl He]. apply (Forall_fmap ev_cursor) in He. rewrite Forall_forall in He. cbn in He.
  apply elem_of_cons in Ha as [->|Ha], Hb as [->|Hb]; [done|apply He in Hb; cbn in Hb; lia|apply He in Ha; cbn in Ha; lia|by apply IH].
Qed.

(** A sorted list cut at the cursor of one of its events. *)
Lemma cut_at_cursor front (e : Event EventDelta) rest :
  StronglySorted Z.lt (map ev_cursor (front ++ e :: rest)) ->
  filter (fun x => (ev_cursor e <? ev_cursor x)%Z) (front ++ e :: rest) = rest.
Proof using Type.
  rewrite map_app. intros Hs. apply StronglySorted_app in Hs as (Hf & _ & Hr). cbn in Hr. apply StronglySorted_inv in Hr as [_ Hr].
  assert (Hfront : Forall (fun x => (ev_cursor x < ev_cursor e)%Z) front).
  { apply Forall_forall. intros x Hx. apply Hf; [by apply (list_elem_of_fmap_2 ev_cursor)|by left]. }
  clear Hf. induction front as [|x front IH].
  - cbn [app]. rewrite filter_cons_False by (rewrite Z.ltb_irrefl; tauto). clear -Hr. induction rest as [|y rest IH]; [done|].
    cbn in Hr. apply Forall_cons in Hr as [Hy Hr]. rewrite filter_cons_True by (apply Is_true_true, Z.ltb_lt; exact Hy). by rewrite IH.
  - apply Forall_cons in Hfront as [Hx Hfront]. cbn [app]. rewrite filter_cons_False; [by apply IH|].
    intros Hlt%Is_true_true%Z.ltb_lt. lia.
Qed.

Lemma events_after_reads after s db :
  conn s = Ok db -> StronglySorted Z.lt (cursors db) -> (after <= i64_max)%Z ->
  events_after session_id task_id after limit s = Ok (take (Z.to_nat limit) (feed after db)).
Proof using Type.
  intros Hc Hs Ha. unfold events_after, read. rewrite decide_False by lia. rewrite Hc.
  by rewrite ordered_by_cursor by (by apply feed_sorted).
Qed.

(** What follows the last event of a page. *)
Definition read_to (after : Z) (page : list (Event EventDelta)) : Z :=
  match last page with Some e => ev_cursor e | None => after end.

Lemma feed_resumes after page db :
  StronglySorted Z.lt (cursors db) -> page `prefix_of` feed after db ->
  page ++ feed (read_to after page) db = feed after db.
Proof using Type.
  intros Hs [rest Hf]. unfold read_to. destruct (last page) as [e|] eqn:El; [|by rewrite (proj1 (last_None page) El) in *].
  apply last_Some in El as [front ->]. pose proof (feed_sorted after db Hs) as Hsort. rewrite Hf, <- app_assoc in Hsort. rewrite Hf at 1. f_equal.
  assert (Hae : (after <= ev_cursor e)%Z).
  { assert (He : e ∈ feed after db) by (rewrite Hf; set_solver). apply list_elem_of_filter in He as [He _].
    unfold fed in He. destruct (String.eqb _ _); [|done]. destruct (Z.ltb_spec after (ev_cursor e)); [lia|done]. }
  assert (Hff : feed (ev_cursor e) db = filter (fun x => (ev_cursor e <? ev_cursor x)%Z) (feed after db)).
  { unfold feed. rewrite list_filter_filter. apply list_filter_iff. intros x. rewrite (fed_later _ _ x Hae), andb_True. naive_solver. }
  rewrite Hff, Hf, <- app_assoc. by apply cut_at_cursor.
Qed.
End Feed.

Section Resume.
Context `{JsonCodec AnswerSelection} `{JsonCodec CommandResult} `{JsonCodec AnsweredForkIdentity}.
Context `{JsonCodec (SessionId * string * string * list string * list string)}.
Context (generate : nat -> string) (sha256_hex : string -> string).
Variables (session_id : SessionId) (task_id : option TaskId) (limit : Z).

Local Abbreviation feed := (feed session_id task_id).

(** A reader that asks again from the last cursor it saw, while calls commit in
    between: everything it read, where it stands, and the store it reads. *)
Fixpoint resume (after : Z) (batches : list (list TaskCall)) (s : Store) : result (list (Event EventDelta) * Z * Store) StoreError :=
  match batches with
  | [] => Ok ([], after, s)
  | cs :: batches =>
      let s := calls generate sha256_hex cs s in
      let? page := events_after session_id task_id after limit s in
      let? rest := resume (read_to after page) batches s in
      let '(seen, cursor, s) := rest in Ok (page ++ seen, cursor, s)
  end.

Lemma events_after_Ok after s page :
  events_after session_id task_id after limit s = Ok page -> (after <= i64_max)%Z /\ exists db, conn s = Ok db.
Proof using Type.
  unfold events_after, read. case_decide; [done|]. destruct (conn s) as [db|]; [|done]. intros _. split; [lia|by exists db].
Qed.

(** What the reader saw stays the front of what the grown feed holds. *)
Lemma feed_grows after db db' : history db db' -> feed after db `prefix_of` feed after db'.
Proof using Type.
  intros [[events He] _ _ _]. unfold feed. rewrite He, filter_app. by apply prefix_app_r.
Qed.

Lemma calls_history cs s db db' :
  ts_conn s = Some db -> ts_conn (calls generate sha256_hex cs s) = Some db' -> history db db'.
Proof using Type.
  intros Hs Hs'. apply (calls_relation generate sha256_hex history cs s db db'); [|done|done].
  intros A m dbx ax dby Hm Hr. by eapply tx_history.
Qed.

(** A store that can be read and written, which every call leaves so. *)
Definition opened (s : Store) : Prop :=
  ts_held_claim_commit s = false /\ ts_path_identity s = true /\ exists db, ts_conn s = Some db.

Lemma transaction_opened {A} (m : stx A) s : opened s -> opened (transaction m s).2.
Proof using Type.
  intros (Hh & Hp & db & Hs). unfold transaction. destruct (conn_mut s) as [db0|]; [|by split_and!; [..|exists db]].
  destruct (m db0) as [[a db1]|]; cbn [snd]; [|by split_and!; [..|exists db]]. split_and!; [done|done|by eexists].
Qed.

Lemma obligations_opened task missing s : opened s -> opened (insert_obligations generate task missing s).2.
Proof using Type.
  revert s. induction missing as [|criterion missing IH]; intros s Ho; simpl; [done|].
  pose proof (transaction_opened (insert_obligation generate task criterion) s Ho) as Ht.
  destruct (transaction _ s) as [[a|e] s1]; [by apply IH|exact Ht].
Qed.

Lemma call_opened c s : opened s -> opened (call generate sha256_hex c s).
Proof using Type.
  intros Ho. assert (Htx : forall A (m : stx A), opened (transaction m s).2) by (intros; by apply transaction_opened).
  destruct c; simpl; try apply Htx.
  - unfold create_task. destruct (_ || _); [done|]. destruct (conn s) as [db|]; [|done].
    destruct (receipt_on _ _) as [[digest result_json]|]; [|apply Htx].
    destruct (negb _); [done|]. by destruct (from_json _).
  - pose proof (Htx _ (insert_question generate session question)) as Ht.
    unfold publish_question. by destruct (transaction _ s) as [[]].
  - pose proof (Htx _ (publish_plan_fork_tx generate session question update)) as Ht.
    unfold publish_plan_fork. by destruct (transaction _ s) as [[]].
  - pose proof (Htx _ (answer_question_tx generate session task question revision selection author)) as Ht.
    unfold answer_question. destruct (transaction _ s) as [[] s1]; [done|]. cbn [snd] in Ht.
    match goal with |- context [record_denied_attempt ?t ?q ?r ?j ?a ?d ?s] =>
      pose proof (transaction_opened (insert_answer_attempt (mkAnswerRow q t r j a AttemptDenied (Some d))) s Ht) as Hd end.
    revert Hd. unfold record_denied_attempt. by destruct (transaction (insert_answer_attempt _) s1) as [[]].
  - unfold mark_applicability_unresolved. destruct (String.prefix _ _); [done|]. apply Htx.
  - unfold materialize_obligations. destruct (conn_mut s) as [db|]; [|done]. by apply obligations_opened.
  - pose proof (Htx _ (complete_task_tx generate session task)) as Ht.
    unfold complete_if_eligible. by destruct (transaction _ s) as [[[]|]].
Qed.

Lemma calls_opened cs s : opened s -> opened (calls generate sha256_hex cs s).
Proof using Type. revert s. induction cs as [|c cs IH]; intros s Ho; [done|]. by apply IH, call_opened. Qed.

Lemma fresh_opened : opened fresh_store.
Proof using Type. split_and!; [done|done|by eexists]. Qed.

Lemma opened_conn s db : opened s -> ts_conn s = Some db -> conn s = Ok db.
Proof using Type. intros (Hh & _) Hs. unfold conn. by rewrite Hh, Hs. Qed.

(** The events of a run are in increasing cursor order. *)
Lemma run_sorted cs db :
  ts_conn (calls generate sha256_hex cs fresh_store) = Some db -> StronglySorted Z.lt (cursors db).
Proof using Type.
  intros Hs. pose proof (calls_history cs fresh_store empty_db db eq_refl Hs) as Hh. apply Hh. constructor.
Qed.

(** A read of a run's store, whatever it asks for. *)
Lemma run_reads cs db after :
  ts_conn (calls generate sha256_hex cs fresh_store) = Some db ->
  events_after session_id task_id after limit (calls generate sha256_hex cs fresh_store) =
    if decide (i64_max < after)%Z then Err (StoreInvalidInput EventCursorOutOfRange)
    else Ok (take (Z.to_nat limit) (feed after db)).
Proof using Type.
  intros Hs. pose proof (opened_conn _ _ (calls_opened cs _ fresh_opened) Hs) as Hc. case_decide.
  - unfold events_after. by rewrite decide_True.
  - apply events_after_reads; [done|by eapply run_sorted|lia].
Qed.

Definition numbered (db : TaskDb) : Prop := Forall (fun e => ev_cursor e <= i64_max)%Z (event_rows db).

Lemma numbered_before db db' : history db db' -> numbered db' -> numbered db.
Proof using Type. intros [[events He] _ _ _] Hn. unfold numbered in *. rewrite He in Hn. by apply Forall_app in Hn as [Hn _]. Qed.

Lemma read_to_bound after n db :
  (after <= i64_max)%Z -> numbered db -> (read_to after (take n (feed after db)) <= i64_max)%Z.
Proof using Type.
  intros Ha Hn. unfold read_to. destruct (last _) as [e|] eqn:El; [|done].
  apply last_Some_elem_of, elem_of_take in El as (i & Hi & _). apply list_elem_of_lookup_2, list_elem_of_filter in Hi as [_ Hi].
  unfold numbered in Hn. rewrite Forall_forall in Hn. by apply Hn.
Qed.

Lemma resume_loses_nothing batches cs after db' :
  ts_conn (calls generate sha256_hex (cs ++ concat batches) fresh_store) = Some db' ->
  (after <= i64_max)%Z -> numbered db' ->
  exists seen cursor,
    resume after batches (calls generate sha256_hex cs fresh_store) =
      Ok (seen, cursor, calls generate sha256_hex (cs ++ concat batches) fresh_store) /\
    seen ++ feed cursor db' = feed after db'.
Proof using Type.
  revert cs after. induction batches as [|batch batches IH]; intros cs after Hs' Ha Hn; cbn [resume concat] in *.
  { exists [], after. by rewrite app_nil_r. }
  rewrite app_assoc in Hs'. set (s1 := calls generate sha256_hex batch (calls generate sha256_hex cs fresh_store)).
  assert (E1 : calls generate sha256_hex (cs ++ batch) fresh_store = s1) by (unfold s1, TaskCalls.calls; by rewrite fold_left_app).
  destruct (calls_opened (cs ++ batch) _ fresh_opened) as (_ & _ & db1 & Hs1).
  pose proof (run_reads (cs ++ batch) db1 after Hs1) as Hread. rewrite E1, decide_False in Hread by lia.
  rewrite Hread. cbn [rbind].
  assert (Hh : history db1 db').
  { apply (calls_history (concat batches) s1); [by rewrite <- E1|]. rewrite <- Hs'. unfold s1, TaskCalls.calls. by rewrite !fold_left_app. }
  destruct (IH (cs ++ batch) (read_to after (take (Z.to_nat limit) (feed after db1))) Hs') as (seen & cursor & Hr & Hseen);
    [by apply read_to_bound; [|eapply numbered_before]|done|].
  rewrite E1 in Hr. rewrite Hr. cbn [rbind]. exists (take (Z.to_nat limit) (feed after db1) ++ seen), cursor.
  split; [by rewrite <- app_assoc|]. rewrite <- app_assoc, Hseen.
  apply feed_resumes; [by eapply run_sorted|]. etrans; [apply prefix_take|by apply feed_grows].
Qed.
End Resume.

(** * What the pages promise *)

(** C25.  The blockers of a page are the ones each of its tasks gives when it is read
    alone: the batch of one query per table and the read of one task list the same
    blockers, in the same order unless the task is off; there the task's own read
    shows the off pause first and the page shows it last. *)
Theorem batched_blockers_agree listed db id l :
  NoDup listed.*1 -> (id, l) ∈ listed ->
  same_blockers (batched_blockers listed db !! id) (blockers_of id l db) /\
  (l <> LPaused -> batched_blockers listed db !! id = blockers_of id l db) /\
  (l = LPaused -> exists plan, blockers_of id l db = Some (workflow_off_blocker :: plan) /\
     batched_blockers listed db !! id = Some (plan ++ [workflow_off_blocker])).
Proof.
  intros Hn Hin. split; [by apply batch_same_blockers|]. rewrite (batched_lookup listed db id l Hn Hin). split.
  - intros Hl. destruct (batch_order_permutes id l db) as (own & -> & _ & Heq). by rewrite Heq.
  - intros ->. exists (extend_plan_blockers [] (plan_blockers_on id db) (pending_question id db)).
    unfold blockers_of, batch_order. cbn [projects_plan own_blockers]. rewrite bool_decide_false by done. cbn [andb].
    rewrite extend_plan_cons by done. rewrite !(decide_True (P := LPaused = LPaused)) by done.
    rewrite (decide_False (P := LPaused = LBlocked /\ _)) by naive_solver.
    split; [done|]. unfold entry_of. rewrite decide_False; [done|]. intros E. apply (f_equal length) in E. rewrite length_app in E. cbn in E. lia.
Qed.

(** A client that follows the cursors of the status pages reads every task of the
    session once, in the order of their rows, each with the columns of its row and the
    blockers its own read gives, and then stops: no page of any size loses, repeats or
    reorders a task, and every cursor the store hands out is one it reads back. *)
Theorem status_pages_list_the_session rowid session_id db s limit :
  conn s = Ok db -> (1 <= limit)%Z -> (zlen (session_rows rowid session_id db) + limit <= i64_max)%Z ->
  (0 <= session_generation rowid session_id db <= u64_top)%Z ->
  exists its,
    follow rowid session_id s (S (length (session_rows rowid session_id db))) limit None = Ret (Ok its) /\
    Forall2 (shows db) (session_rows rowid session_id db) its /\
    NoDup (map st_task its) /\
    forall id, id ∈ map st_task its <-> exists t, tasks db !! id = Some t /\ tk_session t = session_id.
Proof.
  intros Hc Hl Hz Hg.
  destruct (follow_lists rowid session_id db s Hc Hg (S (length (session_rows rowid session_id db))) limit None 0)
    as (its & Hf & Hits); [by left|done|done|unfold zlen in *; lia|done|lia|]. rewrite drop_0 in Hits.
  assert (Hids : map st_task its = (session_rows rowid session_id db).*1).
  { clear -Hits. induction Hits as [|t st ts its Hts _ IH]; [done|]. cbn. destruct Hts as (-> & _). by rewrite IH. }
  exists its. split_and!; [exact Hf|exact Hits|rewrite Hids; apply session_rows_nodup|]. intros id. rewrite Hids. split.
  - intros ([k t] & -> & Ht)%list_elem_of_fmap. apply session_rows_elem in Ht. by exists t.
  - intros (t & Ht). change id with (id, t).1. apply list_elem_of_fmap_2. by apply session_rows_elem.
Qed.

(** C27.  The walk that guards a session switch terminates and is right: it answers with the
    first running task of the session in the order of the rows, and with none exactly
    when no task of the session runs. *)
Theorem running_task_is_found rowid session_id db s :
  conn s = Ok db -> (zlen (session_rows rowid session_id db) + PAGE_MAX <= i64_max)%Z ->
  exists found,
    running_task rowid (S (length (session_rows rowid session_id db))) session_id s = Ret (Ok found) /\
    found = fst <$> find (fun t => bool_decide (tk_lifecycle t.2 = LRunning)) (session_rows rowid session_id db) /\
    (found = None <-> forall id t, tasks db !! id = Some t -> tk_session t = session_id -> tk_lifecycle t <> LRunning).
Proof.
  intros Hc Hz. eexists. split; [|split; [reflexivity|]].
  - unfold running_task, in_flight_task, read. rewrite Hc.
    destruct (find (fun t => negb _) _) as [t|] eqn:Et; cbn [fmap option_fmap option_map].
    + rewrite (scan_running_finds rowid session_id db s Hc _ None 0); [by rewrite drop_0|by left|done|unfold zlen, PAGE_MAX, i64_max in *; lia|done|lia].
    + do 2 f_equal. symmetry. replace (find _ _) with (@None (TaskId * TaskRow)); [done|]. symmetry. apply find_None.
      apply find_None in Et. eapply Forall_impl; [exact Et|]. intros t Ht. cbn in *. apply bool_decide_eq_false. intros E. by rewrite E in Ht.
  - rewrite fmap_None, find_None, Forall_forall. split.
    + intros Hall id t Ht Hs Hr. specialize (Hall (id, t) ltac:(by apply session_rows_elem)). by apply bool_decide_eq_false in Hall.
    + intros Hall [id t] [Ht Hs]%session_rows_elem. apply bool_decide_eq_false. by eapply Hall.
Qed.

Section FeedClaim.
Context `{JsonCodec AnswerSelection} `{JsonCodec CommandResult} `{JsonCodec AnsweredForkIdentity}.
Context `{JsonCodec (SessionId * string * string * list string * list string)}.
Context (generate : nat -> string) (sha256_hex : string -> string).

(** C26.  A reader of the event feed that asks again from the last cursor it saw misses
    nothing and sees nothing twice.  In a store any calls have led to, whatever calls
    commit between its reads, a reader that starts at a cursor the database can hold
    (at most i64::MAX, and no event was numbered past it) is answered every time, and
    what it read, followed by what the feed still holds after its cursor, is the feed
    from where it began.  Each single read of any such store answers the next events
    after the cursor, in cursor order and up to the limit, and refuses a cursor beyond
    i64::MAX. *)
Theorem event_feed_loses_nothing session_id task_id limit cs after :
  (forall batches db',
     ts_conn (calls generate sha256_hex (cs ++ concat batches) fresh_store) = Some db' ->
     (after <= i64_max)%Z -> numbered db' ->
     exists seen cursor,
       resume generate sha256_hex session_id task_id limit after batches (calls generate sha256_hex cs fresh_store) =
         Ok (seen, cursor, calls generate sha256_hex (cs ++ concat batches) fresh_store) /\
       seen ++ feed session_id task_id cursor db' = feed session_id task_id after db') /\
  exists db, ts_conn (calls generate sha256_hex cs fresh_store) = Some db /\
    StronglySorted Z.lt (map ev_cursor (event_rows db)) /\
    events_after session_id task_id after limit (calls generate sha256_hex cs fresh_store) =
      if decide (i64_max < after)%Z then Err (StoreInvalidInput EventCursorOutOfRange)
      else Ok (take (Z.to_nat limit) (feed session_id task_id after db)).
Proof.
  split; [intros batches db'; by apply resume_loses_nothing|].
  destruct (calls_opened generate sha256_hex cs _ fresh_opened) as (_ & _ & db & Hs). exists db.
  split_and!; [done|by eapply run_sorted|by apply run_reads].
Qed.
End FeedClaim.

(** * A concrete store *)

Module PageSamples.
Import TaskSamples.

(** A planned task that is switched off, two more of the session, and one elsewhere. *)
Definition several : list TaskCall :=
  created ++ [PauseForWorkflowOff "session" "id0";
    RecordPlanSelection "session" "id0" (mkSelectionWrite "facts" Change [mkRowWrite "plan_work" Unresolved true None None]);
    CreateTask "session" "other" "human" "Test it" ["It passes."] []; CreateTask "session" "third" "human" "Tag it" [] [];
    CreateTask "elsewhere" "fourth" "human" "Tag it" [] []].
Definition several_db : TaskDb := db_after several.
Definition ids : list TaskId := map (fun t => t.1) (map_to_list (tasks several_db)).
Definition rowid (id : TaskId) : nat := String.length id * 100 + foldr (fun c acc => Ascii.nat_of_ascii c + acc) 0 (String.list_ascii_of_string id).
Definition listed : list (TaskId * Lifecycle) := map (fun t => (t.1, tk_lifecycle t.2)) (session_rows rowid "session" several_db).
End PageSamples.
Import TaskSamples PageSamples.

Lemma batched_blockers_agree_witness :
  exists plan, blockers_of "id0" LPaused several_db = Some (workflow_off_blocker :: plan) /\
    batched_blockers listed several_db !! "id0" = Some (plan ++ [workflow_off_blocker]).
Proof.
  destruct (batched_blockers_agree listed several_db "id0" LPaused) as (_ & _ & H).
  - apply (bool_decide_unpack _). vm_compute. exact I.
  - apply (bool_decide_unpack _). vm_compute. exact I.
  - exact (H eq_refl).
Defined.

Lemma status_pages_list_the_session_witness :
  exists its, follow rowid "session" (after several) 4 2 None = Ret (Ok its) /\ NoDup (map st_task its).
Proof.
  destruct (status_pages_list_the_session rowid "session" several_db (after several) 2) as (its & Hf & _ & Hn & _).
  - vm_compute. reflexivity.
  - lia.
  - vm_compute. intros [=].
  - split; vm_compute; intros [=].
  - exists its. split; [|exact Hn]. rewrite <- Hf. vm_compute. reflexivity.
Defined.

Lemma running_task_is_found_witness :
  exists found, running_task rowid 4 "session" (after several) = Ret (Ok (Some found)).
Proof.
  destruct (running_task_is_found rowid "session" several_db (after several)) as (found & Hf & Hd & _).
  - vm_compute. reflexivity.
  - vm_compute. intros [=].
  - destruct found as [id|]; [|exfalso; vm_compute in Hd; discriminate Hd]. exists id. exact Hf.
Defined.

Definition rounds : list (list TaskCall) :=
  [[]; [SteerTask "session" "id0" 1 2 "Go on."; CreateTask "session" "last" "human" "Sign it" [] []]; []].
Definition last_db : TaskDb := db_after (several ++ concat rounds).

(** Whoever reads twice at a time while the goal is steered and a task is added. *)
Lemma event_feed_loses_nothing_witness :
  exists seen cursor s',
    resume generate sha256_hex "session" None 2 0 rounds (after several) = Ok (seen, cursor, s') /\
    seen ++ feed "session" None cursor last_db = feed "session" None 0 last_db.
Proof.
  destruct (event_feed_loses_nothing generate sha256_hex "session" None 2 several 0) as [H _].
  destruct (H rounds last_db) as (seen & cursor & Hr & Hs).
  - vm_compute. reflexivity.
  - vm_compute. intros [=].
  - apply (bool_decide_unpack _). vm_compute. exact I.
  - exists seen, cursor, (calls generate sha256_hex (several ++ concat rounds) fresh_store). split; [exact Hr|exact Hs].
Defined.
