(* ===== verification/Schema.v ===== *)
(** The schema of the configuration ([src/src/config.rs]): one reader per section of
    a document, and the admission of a whole document.

    A reader takes the item the document holds and answers its typed value or the
    refusal that names the offending key.  Text of a document enters and leaves
    through the TOML library; the readers work on its tree ([Toml]).  The views the
    code keeps of [Config] are [Routes.Config] (what routes a request) and the
    sections around it. *)

From S2P Require Import Prelude.
From S2P Require Import Contracts.
From S2P Require Import Text.
From S2P Require Import Requests.
From S2P Require Import Notifications.
From S2P Require Import Store.
From S2P Require Import Identity.
From S2P Require Import Routes.
From S2P Require Import Net.
From S2P Require Import Providers.
From S2P Require Import Toml.

(** * The legal keys of each scope *)

Definition CONFIG_ROOTS : list string :=
  ["config_version"; "workflow"; "decisions"; "context"; "connections"; "profiles"; "models"; "hooks"; "mcp"].

Definition HOOK_EVENTS : list string := ["effect.request"].
Definition HOOK_KEYS : list string := ["command"; "args"].
Definition MCP_SERVER_KEYS : list string := ["origin"; "program"; "args"; "env"; "credential"].
Definition MCP_CREDENTIAL_KEYS : list string := ["reference"; "origin"; "variable"].
Definition WORKFLOW_KEYS : list string := ["enabled"].
Definition DECISIONS_KEYS : list string := ["mode"].
Definition CONTEXT_KEYS : list string := ["auto_compact"].
Definition CONNECTION_KEYS : list string := ["kind"; "endpoint"; "credential_ref"; "region"; "profile"].
Definition PROFILE_KEYS : list string := ["credential_ref"].
Definition MODELS_KEYS : list string := ["defaults"; "groups"; "purposes"].
Definition MODEL_SLOT_KEYS : list string := ["model"; "effort"; "fallback"].
Definition GROUP_KEYS : list string := ["model"].
Definition PURPOSE_KEYS : list string := ["group"; "model"; "effort"; "fallback"; "pool"; "eligible"].
Definition CHAIN_ENTRY_KEYS : list string := ["mode"; "connection"; "model_id"].

(** * Readers of a field *)

Abbreviation answer A := (result A ConfigError).

(** [table_like] *)
Definition table_like (key : string) (item : Item) : answer Fields :=
  ok_or (as_table_like item) (schema_error key (ExpectedTable key)).

(** [string_field] *)
Definition string_field (table : Fields) (table_key field : string) : answer (option string) :=
  match get field table with
  | None => Ok None
  | Some item =>
      let? text := ok_or (as_str item) (schema_error (table_key +:+ "." +:+ field) (ExpectedString field)) in
      Ok (Some text)
  end.

(** [pick] *)
Definition pick (table : Fields) (field : string) : answer Item :=
  ok_or (get field table) (schema_error field (Required field)).

(** A loop that refuses the first field outside the list. *)
Definition known_fields (fields : list string) (refusal : string -> ConfigError) (known : list string) : answer unit :=
  try_fold (fun _ field => if decide (field ∈ known) then Ok tt else Err (refusal field)) tt fields.

(** [name_array] *)
Definition name_array (value : Item) (key : string) (not_array entry_not_string : ConfigIssue) : answer (list string) :=
  let? items := ok_or (as_array value) (schema_error key not_array) in
  try_map (fun entry => ok_or (as_str entry) (schema_error key entry_not_string)) items.

(** [toml_mode] *)
Definition toml_mode (table : Fields) (key : string) : answer string :=
  ok_or (get "mode" table ≫= as_str) (schema_error (key +:+ ".mode") (Required "mode")).

(** * Assignments *)

(** A required string of a fixed assignment. *)
Definition text_or (table : Fields) (field key : string) (issue : ConfigIssue) : answer string :=
  ok_or (get field table ≫= as_str) (schema_error (key +:+ "." +:+ field) issue).

(** [model_assign] *)
Definition model_assign (item : Item) (key : string) : answer ModelAssign :=
  let? table := ok_or (as_table_like item) (schema_error key (ExpectedTable key)) in
  let? mode := toml_mode table key in
  if decide (mode = "inherit") then Ok InheritModel
  else if decide (mode = "auto") then
    match get "pool" table with
    | None => Ok (AutoModel None)
    | Some value =>
        let? names := name_array value (key +:+ ".pool") PoolNotArray PoolEntryNotString in
        Ok (AutoModel (Some names))
    end
  else if decide (mode = "fixed") then
    let? connection := text_or table "connection" key FixedModelMissingConnection in
    let? model_id := text_or table "model_id" key FixedModelMissingId in
    Ok (Fixed (mkFixed connection model_id))
  else Err (schema_error (key +:+ ".mode") (UnsupportedModelMode mode)).

(** [effort_assign] *)
Definition effort_assign (item : Item) (key : string) : answer EffortAssign :=
  let? table := ok_or (as_table_like item) (schema_error key (ExpectedTable key)) in
  let? mode := toml_mode table key in
  if decide (mode = "inherit") then Ok InheritEffort
  else if decide (mode = "auto") then Ok AutoEffort
  else if decide (mode = "fixed") then
    let? raw := text_or table "value" key FixedEffortMissingValue in
    let? value := ok_or (effort_parse raw) (schema_error (key +:+ ".value") (UnsupportedEffortValue raw)) in
    Ok (FixedEffort value)
  else Err (schema_error (key +:+ ".mode") (UnsupportedEffortMode mode)).

(** One entry of a chain: its keys are strict, its mode fixed. *)
Definition chain_entry (key : string) (entry : Item) : answer FixedModel :=
  let? inline := ok_or (as_inline_table entry) (schema_error (key +:+ ".chain") ChainEntryNotTable) in
  let? _ := known_fields (inline.*1)
              (fun field => schema_error (key +:+ ".chain." +:+ field) (UnknownKey field CHAIN_ENTRY_KEYS)) CHAIN_ENTRY_KEYS in
  let? _ :=
    match get "mode" inline with
    | None => Ok tt
    | Some mode =>
        let? mode := ok_or (as_str mode) (schema_error (key +:+ ".chain.mode") (ExpectedString "mode")) in
        if decide (mode = "fixed") then Ok tt
        else Err (schema_error (key +:+ ".chain.mode") (UnsupportedModelMode mode))
    end in
  let? connection := text_or inline "connection" (key +:+ ".chain") FixedChainEntryMissingConnection in
  let? model_id := text_or inline "model_id" (key +:+ ".chain") FixedChainEntryMissingModelId in
  Ok (mkFixed connection model_id).

(** [fallback_assign] *)
Definition fallback_assign (item : Item) (key : string) : answer FallbackAssign :=
  let? table := ok_or (as_table_like item) (schema_error key (ExpectedTable key)) in
  let? mode := toml_mode table key in
  if decide (mode = "auto") then
    let? chain :=
      match get "chain" table with
      | None => Ok []
      | Some value =>
          let? items := ok_or (as_array value) (schema_error (key +:+ ".chain") ChainNotArray) in
          try_map (chain_entry key) items
      end in
    Ok (AutoFallback chain)
  else if decide (mode = "manual") then Ok ManualFallback
  else if decide (mode = "off") then Ok OffFallback
  else Err (schema_error (key +:+ ".mode") (UnsupportedFallbackMode mode)).

(** * The models section *)

Definition with_group (v : option string) (d : PurposeDef) : PurposeDef :=
  mkPurpose v (pp_model d) (pp_effort d) (pp_fallback d) (pp_pool d) (pp_eligible d).
Definition with_model (v : option ModelAssign) (d : PurposeDef) : PurposeDef :=
  mkPurpose (pp_group d) v (pp_effort d) (pp_fallback d) (pp_pool d) (pp_eligible d).
Definition with_effort (v : option EffortAssign) (d : PurposeDef) : PurposeDef :=
  mkPurpose (pp_group d) (pp_model d) v (pp_fallback d) (pp_pool d) (pp_eligible d).
Definition with_fallback (v : option FallbackAssign) (d : PurposeDef) : PurposeDef :=
  mkPurpose (pp_group d) (pp_model d) (pp_effort d) v (pp_pool d) (pp_eligible d).
Definition with_pool (v : option (list string)) (d : PurposeDef) : PurposeDef :=
  mkPurpose (pp_group d) (pp_model d) (pp_effort d) (pp_fallback d) v (pp_eligible d).
Definition with_eligible (v : option (list string)) (d : PurposeDef) : PurposeDef :=
  mkPurpose (pp_group d) (pp_model d) (pp_effort d) (pp_fallback d) (pp_pool d) v.

Definition no_purpose : PurposeDef := mkPurpose None None None None None None.

(** [purpose_def] *)
Definition purpose_field (key : string) (def : PurposeDef) (entry : string * Item) : answer PurposeDef :=
  let '(field, value) := entry in
  if decide (field = "group") then
    let? group := ok_or (as_str value) (schema_error (key +:+ ".group") GroupReferenceNotString) in
    Ok (with_group (Some group) def)
  else if decide (field = "model") then
    let? model := model_assign value (key +:+ ".model") in Ok (with_model (Some model) def)
  else if decide (field = "effort") then
    let? effort := effort_assign value (key +:+ ".effort") in Ok (with_effort (Some effort) def)
  else if decide (field = "fallback") then
    let? fallback := fallback_assign value (key +:+ ".fallback") in Ok (with_fallback (Some fallback) def)
  else if decide (field = "pool") then
    let? names := name_array value (key +:+ ".pool") PoolNotArray PoolEntryNotString in Ok (with_pool (Some names) def)
  else if decide (field = "eligible") then
    let? names := name_array value (key +:+ ".eligible") EligibleNotArray EligibleEntryNotString in
    Ok (with_eligible (Some names) def)
  else Err (schema_error (key +:+ "." +:+ field) (UnknownKey field PURPOSE_KEYS)).

Definition purpose_def (key name : string) (entry : Item) : answer PurposeDef :=
  let? purpose := table_like name entry in
  try_fold (purpose_field key) no_purpose purpose.

Definition read_purpose (name : string) (entry : Item) : answer PurposeDef :=
  purpose_def ("models.purposes." +:+ name) name entry.

(** The defaults and one group, from [models_table]. *)
Definition read_defaults (item : Item) : answer Defaults :=
  let? defaults := table_like "models.defaults" item in
  let? _ := known_fields (defaults.*1)
              (fun field => schema_error ("models.defaults." +:+ field) (UnknownKey field MODEL_SLOT_KEYS)) MODEL_SLOT_KEYS in
  let? model_item := pick defaults "model" in
  let? model := model_assign model_item "models.defaults.model" in
  let? effort_item := pick defaults "effort" in
  let? effort := effort_assign effort_item "models.defaults.effort" in
  let? fallback_item := pick defaults "fallback" in
  let? fallback := fallback_assign fallback_item "models.defaults.fallback" in
  Ok (mkDefaults model effort fallback).

Definition read_group (name : string) (entry : Item) : answer ModelAssign :=
  let? group := table_like name entry in
  let? _ := known_fields (group.*1)
              (fun field => schema_error ("models.groups." +:+ name +:+ "." +:+ field) (UnknownKey field GROUP_KEYS)) GROUP_KEYS in
  let? item := pick group "model" in
  model_assign item ("models.groups." +:+ name +:+ ".model").

Definition no_models : Models := mkModels None ∅ ∅.

(** [models_table]: the rows of a second table would add to the first's; a document
    holds a key once. *)
Definition models_field (models : Models) (entry : string * Item) : answer Models :=
  let '(key, item) := entry in
  if decide (key = "defaults") then
    let? defaults := read_defaults item in
    Ok (mkModels (Some defaults) (md_groups models) (md_purposes models))
  else if decide (key = "groups") then
    let? groups := table_like "models.groups" item in
    let? read := read_entries read_group groups in
    Ok (mkModels (md_defaults models) (read ∪ md_groups models) (md_purposes models))
  else if decide (key = "purposes") then
    let? purposes := table_like "models.purposes" item in
    let? read := read_entries read_purpose purposes in
    Ok (mkModels (md_defaults models) (md_groups models) (read ∪ md_purposes models))
  else Err (schema_error "models" (UnknownKey key MODELS_KEYS)).

Definition models_table (table : Fields) : answer Models := try_fold models_field no_models table.

(** * Connections and profiles *)

(** The octets of an IPv4 address the standard library admits whole. *)
Definition parse_ipv4 (s : bytes) : option (list Z) :=
  match read_ipv4 s with Some (octets, []) => Some octets | _ => None end.

(** [endpoint_allowed] *)
Definition endpoint_allowed (endpoint : string) : bool :=
  let endpoint := bytes_of (trim endpoint) in
  let https := Prelude.strip_prefix (bytes_of "https://") endpoint in
  match (match https with Some rest => Some rest | None => Prelude.strip_prefix (bytes_of "http://") endpoint end) with
  | None => bool_decide (endpoint = [])
  | Some rest =>
      let authority := until_first [SLASH; QUESTION; HASH] rest in
      if bool_decide (authority = []) || one_of authority AT then false
      else if is_some https then true
      else
        let host :=
          match Prelude.strip_prefix [LBRACKET] authority with
          | Some bracketed => until_first [RBRACKET] bracketed
          | None => until_first [COLON] authority
          end in
        bool_decide (host = bytes_of "localhost") ||
        match parse_ipv4 host with Some octets => bool_decide (head octets = Some 127%Z) | None => false end ||
        match parse_ipv6 host with Some groups => bool_decide (groups = [0; 0; 0; 0; 0; 0; 0; 1]%Z) | None => false end
  end.

Example endpoints :
  map endpoint_allowed
    ["https://api.openai.com/v1"; " http://localhost:8080 "; "http://127.9.9.9/"; "http://[::1]:80"; "  "] = repeat true 5 /\
  map endpoint_allowed
    ["http://example.com"; "https://u@host"; "https:///x"; "ftp://localhost"; "http://127.0.0.1.evil"; "http://[::ffff:127.0.0.1]";
     "http://localhost@evil"; "api.openai.com"] = repeat false 8.
Proof. split; vm_compute; reflexivity. Qed.

Definition kind_of (raw key : string) : answer ConnKind :=
  if decide (raw = "api_key") then Ok KindApiKey
  else if decide (raw = "local") then Ok KindLocal
  else if decide (raw = "subscription") then Ok KindSubscription
  else Err (schema_error (key +:+ ".kind") (UnsupportedConnectionKind raw)).

(** The last loop of [connection]: an inline secret has an answer of its own. *)
Definition connection_field (key : string) (_ : unit) (field : string) : answer unit :=
  if decide (field ∈ CONNECTION_KEYS) then Ok tt
  else if decide (field ∈ ["api_key"; "secret"; "token"; "password"]) then
    Err (schema_error (key +:+ "." +:+ field) InlineCredential)
  else Err (schema_error (key +:+ "." +:+ field) (UnknownKey field CONNECTION_KEYS)).

(** [connection] *)
Definition connection (name : string) (item : Item) : answer Connection :=
  let? table := table_like name item in
  let key := "connections." +:+ name in
  let? kind_raw := string_field table key "kind" in
  let? kind_raw := ok_or kind_raw (schema_error (key +:+ ".kind") (Required "kind")) in
  let? kind := kind_of kind_raw key in
  let? endpoint := string_field table key "endpoint" in
  let? endpoint := ok_or endpoint (schema_error (key +:+ ".endpoint") (Required "endpoint")) in
  if negb (endpoint_allowed endpoint) then Err (schema_error (key +:+ ".endpoint") EndpointNotAllowed)
  else
    let? credential_ref := string_field table key "credential_ref" in
    let? region := string_field table key "region" in
    let? profile := string_field table key "profile" in
    let? _ := try_fold (connection_field key) tt (table.*1) in
    Ok (mkConnection kind endpoint credential_ref region profile).

Section Credentials.
Variable os : TargetOs.

(** [credential_ref_admitted] *)
Definition credential_ref_admitted (raw key : string) : result unit ConfigIssue :=
  match secret_ref_parse os raw with
  | Ok _ => Ok tt
  | Err (UnsupportedStore store) => Err (UnsupportedCredentialStore store)
  | Err NotScoped => Err (SecretRefExpected key)
  end.

Definition admit_credential (raw key : string) : answer unit :=
  map_err (schema_error key) (credential_ref_admitted raw key).

(** [profile] *)
Definition profile_field (profile_key : string) (_ : option string) (entry : string * Item) : answer (option string) :=
  let '(field, value) := entry in
  let key := profile_key +:+ "." +:+ field in
  if decide (field = "credential_ref") then
    let? raw := ok_or (as_str value) (schema_error key (ExpectedString "credential_ref")) in
    let? _ := admit_credential raw key in
    Ok (Some raw)
  else Err (schema_error key (UnknownKey field PROFILE_KEYS)).

Definition profile (name : string) (item : Item) : answer Profile :=
  let? table := table_like name item in
  let? credential_ref := try_fold (profile_field ("profiles." +:+ name)) None table in
  Ok (mkProfile credential_ref).
End Credentials.

(** * Hooks *)

Record HookEntry := mkHook { hk_event : string; hk_scope : string; hk_command : string; hk_args : list string }.

(** [HookEntry::id] and [Hooks::for_event]: the first in identity order. *)
Definition hook_id (entry : HookEntry) : string := hk_event entry +:+ "@" +:+ hk_scope entry.
Definition for_event (event : string) (entries : gmap string HookEntry) : option HookEntry :=
  find (fun entry => bool_decide (hk_event entry = event)) (omap (fun id => entries !! id) (keys_of entries)).

(** [Path::is_absolute] on a Unix host. *)
Definition absolute_program (raw : string) : bool := is_absolute (bytes_of raw).

(** The two local variables of the loop over an entry's fields. *)
Definition hook_field (address : string) (read : option string * list string) (entry : string * Item)
    : answer (option string * list string) :=
  let '(field, value) := entry in
  let key := address +:+ "." +:+ field in
  if decide (field = "command") then
    let? raw := ok_or (as_str value) (schema_error key (ExpectedString "command")) in
    if absolute_program raw then Ok (Some raw, read.2) else Err (schema_error key (HookCommandNotAbsolutePath key))
  else if decide (field = "args") then
    let? items := ok_or (as_array value) (schema_error key (HookArgsInvalid key)) in
    let? args := try_map (fun item => ok_or (as_str item) (schema_error key (HookArgsInvalid key))) items in
    Ok (read.1, read.2 ++ args)
  else Err (schema_error key (UnknownKey field HOOK_KEYS)).

Definition read_hook (key : string) (item : Item) : answer HookEntry :=
  let address := "hooks." +:+ key in
  let not_addressable := schema_error address (HookEntryNotAddressable address) in
  let? parts := ok_or (split_once "@" key) not_addressable in
  let '(event, scope) := parts in
  if bool_decide (event = EmptyString) || bool_decide (scope = EmptyString) then Err not_addressable
  else if bool_decide (event ∉ HOOK_EVENTS) then Err (schema_error (address +:+ ".event") (UnsupportedHookEvent event))
  else
    let? entry := table_like address item in
    let? read := try_fold (hook_field address) (None, []) entry in
    let? command := ok_or read.1 (schema_error (address +:+ ".command") (Required (address +:+ ".command"))) in
    Ok (mkHook event scope command read.2).

(** [hooks_table] *)
Definition hooks_table (table : Fields) : answer (gmap string HookEntry) := read_entries read_hook table.

(** * Declared MCP servers *)

Record McpCredentialDeclaration := mkMcpCredential {
  mcr_reference : string; mcr_origin : string; mcr_variable : string;
}.

Record McpServerDeclaration := mkMcpServer {
  ms_origin : string;
  ms_program : string;
  ms_args : list string;
  ms_env : gmap string string;
  ms_credential : option McpCredentialDeclaration;
}.

(** [mcp_string], [mcp_string_array], [mcp_env_table] *)
Definition mcp_string (key : string) (value : Item) : answer (option string) :=
  match as_str value with Some text => Ok (Some text) | None => Err (schema_error key (ExpectedString key)) end.
Definition mcp_string_array (key : string) (value : Item) : answer (list string) :=
  let? items := ok_or (as_array value) (schema_error key (McpArgsInvalid key)) in
  try_map (fun item => ok_or (as_str item) (schema_error key (McpArgsInvalid key))) items.
Definition mcp_env_table (key : string) (value : Item) : answer (gmap string string) :=
  let? table := ok_or (as_table_like value) (schema_error key (McpEnvInvalid key)) in
  read_entries (fun name item =>
    ok_or (as_str item) (schema_error (key +:+ "." +:+ name) (McpEnvInvalid (key +:+ "." +:+ name)))) table.

(** [is_bounded_server_name], [is_bounded_origin] *)
Definition bounded_char (marks : list ascii) (c : ascii) : bool := is_ascii_alphanumeric c || existsb (Ascii.eqb c) marks.
Definition is_bounded_server_name (raw : string) : bool :=
  negb (bool_decide (raw = EmptyString)) && (slen raw <=? 64)%Z &&
  all_chars (bounded_char ["."; "_"; "-"; ":"; "/"]%char) raw.
Definition is_bounded_origin (raw : string) : bool :=
  negb (bool_decide (raw = EmptyString)) && (slen raw <=? 128)%Z && contains "://" raw &&
  all_chars (bounded_char ["."; "_"; "-"; ":"; "/"; "+"]%char) raw.

Section Mcp.
Variable os : TargetOs.

(** A field that must have been stated. *)
Definition required_field {A} (address field : string) (value : option A) : answer A :=
  ok_or value (schema_error (address +:+ "." +:+ field) (Required (address +:+ "." +:+ field))).

(** The local variables of [mcp_credential_declaration]. *)
Definition mcp_credential_field (address : string) (read : option string * option string * option string)
    (entry : string * Item) : answer (option string * option string * option string) :=
  let '(field, value) := entry in
  let '(reference, origin, variable) := read in
  let field_key := address +:+ "." +:+ field in
  if decide (field = "reference") then let? v := mcp_string field_key value in Ok (v, origin, variable)
  else if decide (field = "origin") then let? v := mcp_string field_key value in Ok (reference, v, variable)
  else if decide (field = "variable") then let? v := mcp_string field_key value in Ok (reference, origin, v)
  else Err (schema_error field_key (UnknownKey field MCP_CREDENTIAL_KEYS)).

Definition mcp_credential_declaration (address : string) (item : Item) : answer McpCredentialDeclaration :=
  let? entry := table_like address item in
  let? read := try_fold (mcp_credential_field address) (None, None, None) entry in
  let '(reference, origin, variable) := read in
  let? reference := required_field address "reference" reference in
  let? _ := admit_credential os reference (address +:+ ".reference") in
  let? origin := required_field address "origin" origin in
  let? variable := required_field address "variable" variable in
  Ok (mkMcpCredential reference origin variable).

(** The local variables of [mcp_server_declaration]. *)
Record McpRow := mkMcpRow {
  mw_origin : option string;
  mw_program : option string;
  mw_args : list string;
  mw_env : gmap string string;
  mw_credential : option McpCredentialDeclaration;
}.

Definition mcp_server_field (address : string) (row : McpRow) (entry : string * Item) : answer McpRow :=
  let '(field, value) := entry in
  let field_key := address +:+ "." +:+ field in
  let '(mkMcpRow origin program args env credential) := row in
  if decide (field = "origin") then
    let? v := mcp_string field_key value in Ok (mkMcpRow v program args env credential)
  else if decide (field = "program") then
    let? raw := mcp_string field_key value in
    let? raw := ok_or raw (schema_error field_key (Required field_key)) in
    if absolute_program raw then Ok (mkMcpRow origin (Some raw) args env credential)
    else Err (schema_error field_key (McpProgramNotAbsolutePath field_key))
  else if decide (field = "args") then
    let? v := mcp_string_array field_key value in Ok (mkMcpRow origin program v env credential)
  else if decide (field = "env") then
    let? v := mcp_env_table field_key value in Ok (mkMcpRow origin program args v credential)
  else if decide (field = "credential") then
    let? v := mcp_credential_declaration field_key value in Ok (mkMcpRow origin program args env (Some v))
  else Err (schema_error field_key (UnknownKey field MCP_SERVER_KEYS)).

Definition mcp_server_declaration (address : string) (item : Item) : answer McpServerDeclaration :=
  let? entry := table_like address item in
  let? row := try_fold (mcp_server_field address) (mkMcpRow None None [] ∅ None) entry in
  let? origin := required_field address "origin" (mw_origin row) in
  if negb (is_bounded_origin origin) then
    Err (schema_error (address +:+ ".origin") (McpOriginInvalid (address +:+ ".origin")))
  else
    let? program := required_field address "program" (mw_program row) in
    Ok (mkMcpServer origin program (mw_args row) (mw_env row) (mw_credential row)).

(** [mcp_servers_table], [mcp_section] *)
Definition read_mcp_server (name : string) (item : Item) : answer McpServerDeclaration :=
  let address := "mcp.servers." +:+ name in
  if negb (is_bounded_server_name name) then Err (schema_error address (McpServerNameInvalid name))
  else mcp_server_declaration address item.
Definition mcp_servers_table (table : Fields) : answer (gmap string McpServerDeclaration) :=
  read_entries read_mcp_server table.
Definition mcp_field (_ : gmap string McpServerDeclaration) (entry : string * Item)
    : answer (gmap string McpServerDeclaration) :=
  let '(key, item) := entry in
  if decide (key = "servers") then
    let? table := table_like "mcp.servers" item in mcp_servers_table table
  else Err (schema_error ("mcp." +:+ key) (UnknownKey key ["servers"])).
Definition mcp_section (table : Fields) : answer (gmap string McpServerDeclaration) := try_fold mcp_field ∅ table.
End Mcp.

(** * The small sections *)

Inductive DecisionModeValue := DecideAsk | DecideAuto | DecideInherit.
Inductive DecisionMode := ModeAsk | ModeAuto.

#[export] Instance DecisionModeValue_eq_dec : EqDecision DecisionModeValue.
Proof. solve_decision. Defined.

(** [DecisionModeValue::as_str], [parse] *)
Definition decision_as_str (m : DecisionModeValue) : string :=
  match m with DecideAsk => "ask" | DecideAuto => "auto" | DecideInherit => "inherit" end.
Definition decision_parse (raw : string) : option DecisionModeValue :=
  if decide (raw = "ask") then Some DecideAsk
  else if decide (raw = "auto") then Some DecideAuto
  else if decide (raw = "inherit") then Some DecideInherit
  else None.

#[export] Instance DecisionModeValue_vocabulary : Vocabulary DecisionModeValue.
Proof. apply (Build_Vocabulary _ decision_as_str decision_parse); unfold decision_parse; vocabulary. Defined.

(** [Workflow], [Decisions] and [Context] have one field each: it stands for the
    section. *)
Definition workflow_field (_ : option bool) (entry : string * Item) : answer (option bool) :=
  let '(field, value) := entry in
  if decide (field = "enabled") then
    let? enabled := ok_or (as_bool value) (schema_error "workflow.enabled" WorkflowEnabledNotBoolean) in Ok (Some enabled)
  else Err (schema_error ("workflow." +:+ field) (UnknownKey field WORKFLOW_KEYS)).

(** [workflow_section] *)
Definition workflow_section (item : Item) : answer (option bool) :=
  let? table := table_like "workflow" item in try_fold workflow_field None table.

Definition decisions_field (_ : option DecisionModeValue) (entry : string * Item) : answer (option DecisionModeValue) :=
  let '(field, value) := entry in
  if decide (field = "mode") then
    let? raw := ok_or (as_str value) (schema_error "decisions.mode" (ExpectedString "mode")) in
    let? mode := ok_or (decision_parse raw) (schema_error "decisions.mode" (UnsupportedDecisionMode raw)) in Ok (Some mode)
  else Err (schema_error ("decisions." +:+ field) (UnknownKey field DECISIONS_KEYS)).

(** [decisions_section] *)
Definition decisions_section (item : Item) : answer (option DecisionModeValue) :=
  let? table := table_like "decisions" item in try_fold decisions_field None table.

Definition context_field (_ : option bool) (entry : string * Item) : answer (option bool) :=
  let '(field, value) := entry in
  if decide (field = "auto_compact") then
    let? v := ok_or (as_bool value) (schema_error "context.auto_compact" ContextAutoCompactNotBoolean) in Ok (Some v)
  else Err (schema_error ("context." +:+ field) (UnknownKey field CONTEXT_KEYS)).

(** [context_section] *)
Definition context_section (item : Item) : answer (option bool) :=
  let? table := table_like "context" item in try_fold context_field None table.

(** The [config_version] entry of a root, and [document_config_version]. *)
Definition read_version (item : Item) : answer Z :=
  match as_integer item with
  | Some value =>
      if (0 <=? value)%Z then Ok value else Err (schema_error "config_version" ConfigVersionNotNonNegativeInteger)
  | None => Err (schema_error "config_version" ConfigVersionNotNonNegativeInteger)
  end.
Definition document_config_version (version : option Z) : answer Z :=
  let? version := ok_or version (schema_error "config_version" (Required "config_version")) in
  if negb (version =? 1)%Z then Err (schema_error "config_version" UnsupportedConfigVersion) else Ok version.

(** * References *)

(** [model_reference_names], [check_model_refs], [check_chain_refs] *)
Definition model_reference_names (model : ModelAssign) : list string :=
  match model with
  | Fixed fixed => [fm_connection fixed]
  | AutoModel (Some pool) => pool
  | _ => []
  end.

Definition declared_connection (connections : gmap string Connection) (key : string) (_ : unit) (name : string) : answer unit :=
  match connections !! name with
  | Some _ => Ok tt
  | None => Err (schema_error key (UnknownConnectionReference name))
  end.

Definition check_model_refs (connections : gmap string Connection) (model : ModelAssign) (key : string) : answer unit :=
  try_fold (declared_connection connections key) tt (model_reference_names model).

Definition check_chain_refs (connections : gmap string Connection) (fallback : FallbackAssign) (key : string) : answer unit :=
  match fallback with
  | AutoFallback chain => try_fold (declared_connection connections key) tt (map fm_connection chain)
  | _ => Ok tt
  end.

(** The entries of a [BTreeMap], in key order. *)
Definition entries_of {A} (m : gmap string A) : list (string * A) :=
  omap (fun key => pair key <$> m !! key) (keys_of m).

Definition check_purpose (connections : gmap string Connection) (groups : gmap string ModelAssign) (_ : unit)
    (row : string * PurposeDef) : answer unit :=
  let '(name, purpose) := row in
  let key := "models.purposes." +:+ name in
  let? _ :=
    match pp_group purpose with
    | Some group =>
        match groups !! group with
        | Some _ => Ok tt
        | None => Err (schema_error (key +:+ ".group") (UnknownGroupReference group))
        end
    | None => Ok tt
    end in
  let? _ :=
    match pp_model purpose with Some model => check_model_refs connections model (key +:+ ".model") | None => Ok tt end in
  match pp_fallback purpose with
  | Some fallback => check_chain_refs connections fallback (key +:+ ".fallback.chain")
  | None => Ok tt
  end.

(** [check_model_references] *)
Definition check_model_references (connections : gmap string Connection) (models : Models) : answer unit :=
  let? _ :=
    match md_defaults models with
    | Some defaults =>
        let? _ := check_model_refs connections (df_model defaults) "models.defaults.model" in
        check_chain_refs connections (df_fallback defaults) "models.defaults.fallback.chain"
    | None => Ok tt
    end in
  let? _ :=
    try_fold (fun _ '(name, model) => check_model_refs connections model ("models.groups." +:+ name +:+ ".model"))
      tt (entries_of (md_groups models)) in
  try_fold (check_purpose connections (md_groups models)) tt (entries_of (md_purposes models)).

(** * A whole document *)

(** The local variables of [validated_document] and [validated_base]. *)
Record Sections := mkSections {
  sc_version : option Z;
  sc_workflow : option bool;
  sc_decisions : option DecisionModeValue;
  sc_context : option bool;
  sc_connections : gmap string Connection;
  sc_profiles : gmap string Profile;
  sc_models : Models;
  sc_hooks : gmap string HookEntry;
  sc_mcp : gmap string McpServerDeclaration;
}.

Definition no_sections : Sections := mkSections None None None None ∅ ∅ no_models ∅ ∅.

(** [ParsedDocument] *)
Record ParsedDocument := mkParsed {
  pa_version : Z;
  pa_workflow : option bool;
  pa_decisions : option DecisionModeValue;
  pa_context : option bool;
  pa_routes : Config;
  pa_hooks : gmap string HookEntry;
  pa_mcp : gmap string McpServerDeclaration;
}.

Section Documents.
Variable os : TargetOs.

Definition unknown_root (key : string) : ConfigError := schema_error key (UnknownRootKey key).

(** The entry of one root key, in [validated_document]. *)
Definition root_field (s : Sections) (entry : string * Item) : answer Sections :=
  let '(key, item) := entry in
  let '(mkSections version workflow decisions context connections profiles models hooks mcp) := s in
  if decide (key = "config_version") then
    let? v := read_version item in
    Ok (mkSections (Some v) workflow decisions context connections profiles models hooks mcp)
  else if decide (key = "workflow") then
    let? v := workflow_section item in
    Ok (mkSections version v decisions context connections profiles models hooks mcp)
  else if decide (key = "decisions") then
    let? v := decisions_section item in
    Ok (mkSections version workflow v context connections profiles models hooks mcp)
  else if decide (key = "context") then
    let? v := context_section item in
    Ok (mkSections version workflow decisions v connections profiles models hooks mcp)
  else if decide (key = "connections") then
    let? table := table_like key item in
    let? v := read_entries connection table in
    Ok (mkSections version workflow decisions context (v ∪ connections) profiles models hooks mcp)
  else if decide (key = "profiles") then
    let? table := table_like key item in
    let? v := read_entries (profile os) table in
    Ok (mkSections version workflow decisions context connections (v ∪ profiles) models hooks mcp)
  else if decide (key = "models") then
    let? table := table_like key item in
    let? v := models_table table in
    Ok (mkSections version workflow decisions context connections profiles v hooks mcp)
  else if decide (key = "hooks") then
    let? table := table_like key item in
    let? v := hooks_table table in
    Ok (mkSections version workflow decisions context connections profiles models v mcp)
  else if decide (key = "mcp") then
    let? table := table_like key item in
    let? v := mcp_section os table in
    Ok (mkSections version workflow decisions context connections profiles models hooks v)
  else Err (unknown_root key).

(** The checks of one declared connection: its credential binding and its profile. *)
Definition check_credential_binding (name : string) (conn : Connection) : answer unit :=
  let key := "connections." +:+ name +:+ ".credential_ref" in
  match cx_kind conn, cx_credential_ref conn with
  | KindLocal, Some _ => Err (schema_error key LocalCredentialsForbidden)
  | KindLocal, None => Ok tt
  | kind, None =>
      if bool_decide (kind = KindApiKey) && admit_absent_binding name then Ok tt
      else Err (schema_error key (CredentialRefRequired kind))
  | _, Some _ => Ok tt
  end.

Definition check_connection (profiles : gmap string Profile) (_ : unit) (row : string * Connection) : answer unit :=
  let '(name, conn) := row in
  let key := "connections." +:+ name in
  let? _ := check_credential_binding name conn in
  let? _ :=
    match cx_credential_ref conn with
    | Some raw => admit_credential os raw (key +:+ ".credential_ref")
    | None => Ok tt
    end in
  match cx_profile conn with
  | Some profile =>
      match profiles !! profile with
      | Some _ => Ok tt
      | None => Err (schema_error (key +:+ ".profile") (UnknownProfileReference profile))
      end
  | None => Ok tt
  end.

(** [validated_document] *)
Definition validated_document (doc : Fields) : answer ParsedDocument :=
  let? s := try_fold root_field no_sections doc in
  let? version := document_config_version (sc_version s) in
  if bool_decide (sc_connections s = ∅) then Err (schema_error "connections" MissingConnections)
  else
    let? _ := try_fold (check_connection (sc_profiles s)) tt (entries_of (sc_connections s)) in
    match md_defaults (sc_models s) with
    | None => Err (schema_error "models.defaults" (Required "models.defaults"))
    | Some _ =>
        let? _ := check_model_references (sc_connections s) (sc_models s) in
        Ok (mkParsed version (sc_workflow s) (sc_decisions s) (sc_context s)
              (mkConfig (sc_connections s) (sc_profiles s) (sc_models s)) (sc_hooks s) (sc_mcp s))
    end.
End Documents.

(** The entry of one root key, in [validated_base]. *)
Definition base_field (s : Sections) (entry : string * Item) : answer Sections :=
  let '(key, item) := entry in
  let '(mkSections version workflow decisions context connections profiles models hooks mcp) := s in
  if decide (key = "config_version") then
    let? v := read_version item in
    Ok (mkSections (Some v) workflow decisions context connections profiles models hooks mcp)
  else if decide (key = "workflow") then
    let? v := workflow_section item in
    Ok (mkSections version v decisions context connections profiles models hooks mcp)
  else if decide (key = "decisions") then
    let? v := decisions_section item in
    Ok (mkSections version workflow v context connections profiles models hooks mcp)
  else if decide (key = "context") then
    let? v := context_section item in
    Ok (mkSections version workflow decisions v connections profiles models hooks mcp)
  else if decide (key = "models") then
    let? table := table_like key item in
    let? v := models_table table in
    Ok (mkSections version workflow decisions context connections profiles v hooks mcp)
  else Err (unknown_root key).

Definition unclaimed (_ : unit) (name : string) : answer unit :=
  if claims_personal_namespace name then Err (schema_error ("models.purposes." +:+ name) (PersonalNamespaceClaimed name))
  else Ok tt.

(** [validated_base] *)
Definition validated_base (doc : Fields)
    : answer (option bool * option DecisionModeValue * option bool * Models) :=
  let? s := try_fold base_field no_sections doc in
  let? _ := document_config_version (sc_version s) in
  let? _ := try_fold unclaimed tt (keys_of (md_purposes (sc_models s))) in
  Ok (sc_workflow s, sc_decisions s, sc_context s, sc_models s).
