(* ===== verification/SchemaThms.v ===== *)
(** What an admitted document is: the schema's readers as relations between a
    document's entries and its typed view, and the references an admitted document
    keeps. *)

From stdpp Require Import sorting.
From S2P Require Import Prelude.
From S2P Require Import Contracts.
From S2P Require Import Text.
From S2P Require Import Requests.
From S2P Require Import Notifications.
From S2P Require Import Store.
From S2P Require Import Identity.
From S2P Require Import Routes.
From S2P Require Import Net.
From S2P Require Import Providers.
From S2P Require Import Toml.
From S2P Require Import Schema.

(** * Answers *)

Lemma ok_or_Ok {A E} (o : option A) (e : E) a : ok_or o e = Ok a <-> o = Some a.
Proof. destruct o; cbn; naive_solver. Qed.

Lemma map_err_Ok {A E F} (f : E -> F) (r : result A E) a : map_err f r = Ok a <-> r = Ok a.
Proof. destruct r; cbn; naive_solver. Qed.

(** Takes apart an answer that is a value. *)
Ltac inv_answer :=
  repeat match goal with
  | H : rbind _ _ = Ok _ |- _ => let a := fresh "a" in let Ha := fresh "Ha" in apply rbind_Ok in H as (a & Ha & H)
  | H : ok_or _ _ = Ok _ |- _ => apply ok_or_Ok in H
  | H : map_err _ _ = Ok _ |- _ => apply map_err_Ok in H
  | H : Err _ = Ok _ |- _ => discriminate H
  | H : Ok _ = Ok _ |- _ => injection H as H
  | H : (if decide ?P then _ else _) = Ok _ |- _ => destruct (decide P)
  | H : (if ?b then _ else _) = Ok _ |- _ => let E := fresh "E" in destruct b eqn:E
  | p : _ * _ |- _ => destruct p
  | H : unit |- _ => destruct H
  end.

(** A loop of checks passes when every check does. *)
Lemma checks_pass {A E} (check : unit -> A -> result unit E) l u :
  try_fold check tt l = Ok u <-> forall x, x ∈ l -> check tt x = Ok tt.
Proof.
  destruct u. induction l as [|x l IH]; cbn; [set_solver|]. rewrite rbind_Ok. setoid_rewrite elem_of_cons.
  split.
  - intros ([] & Hx & Hl) y [->|Hy]; [done|]. by apply IH.
  - intros Hall. exists tt. split; [by apply Hall; left|]. apply IH. intros y Hy. apply Hall. by right.
Qed.

Lemma known_fields_pass fields refusal known u :
  known_fields fields refusal known = Ok u <-> forall f, f ∈ fields -> f ∈ known.
Proof.
  unfold known_fields. rewrite checks_pass. split; intros Hall f Hf; specialize (Hall f Hf); by case_decide.
Qed.

Lemma try_map_Ok {A B E} (f : A -> result B E) l ys : try_map f l = Ok ys <-> Forall2 (fun x y => f x = Ok y) l ys.
Proof.
  revert ys. induction l as [|x l IH]; intros ys; cbn.
  - split; [intros [= <-]; constructor|by inversion 1].
  - rewrite rbind_Ok. setoid_rewrite rbind_Ok. setoid_rewrite IH. split.
    + intros (y & Hy & ys' & Hys & [= <-]). by constructor.
    + inversion 1; subst. eauto 10.
Qed.

(** Reading back what a list was written as. *)
Lemma try_map_map {A B E} (f : A -> result B E) (g : B -> A) l :
  (forall x, f (g x) = Ok x) -> try_map f (map g l) = Ok l.
Proof. intros Hfg. apply try_map_Ok. induction l; cbn; constructor; auto. Qed.

(** * Ordered keys *)

Lemma elem_of_keys_of {A} (m : gmap string A) k : k ∈ keys_of m <-> is_Some (m !! k).
Proof. unfold keys_of. rewrite merge_sort_Permutation, elem_of_elements. apply elem_of_dom. Qed.

Lemma elem_of_entries_of {A} (m : gmap string A) k a : (k, a) ∈ entries_of m <-> m !! k = Some a.
Proof.
  unfold entries_of. rewrite list_elem_of_omap. setoid_rewrite elem_of_keys_of. split.
  - intros (k' & _ & Hm). destruct (m !! k') eqn:E; cbn in Hm; naive_solver.
  - intros Hm. exists k. rewrite Hm. cbn. eauto.
Qed.

Lemma entries_pass {A E} (check : unit -> string * A -> result unit E) m u :
  try_fold check tt (entries_of m) = Ok u <-> forall k a, m !! k = Some a -> check tt (k, a) = Ok tt.
Proof.
  rewrite checks_pass. split.
  - intros Hall k a Hm. apply Hall. by apply elem_of_entries_of.
  - intros Hall [k a] Hm%elem_of_entries_of. by apply Hall.
Qed.

(** * References *)

Definition all_declared (connections : gmap string Connection) (names : list string) : Prop :=
  forall name, name ∈ names -> is_Some (connections !! name).

(** The connections a fallback names. *)
Definition chain_names (fallback : FallbackAssign) : list string :=
  match fallback with AutoFallback chain => map fm_connection chain | _ => [] end.

Lemma declared_pass connections key names u :
  try_fold (declared_connection connections key) tt names = Ok u <-> all_declared connections names.
Proof.
  rewrite checks_pass. unfold all_declared, declared_connection. split; intros Hall name Hn; specialize (Hall name Hn).
  - by destruct (connections !! name).
  - by destruct Hall as [? ->].
Qed.

Lemma check_model_refs_pass connections model key u :
  check_model_refs connections model key = Ok u <-> all_declared connections (model_reference_names model).
Proof. apply declared_pass. Qed.

Lemma check_chain_refs_pass connections fallback key u :
  check_chain_refs connections fallback key = Ok u <-> all_declared connections (chain_names fallback).
Proof. destruct fallback; cbn; [apply declared_pass| |]; destruct u; unfold all_declared; set_solver. Qed.

(** What one purpose row refers to is declared. *)
Record purpose_declared (connections : gmap string Connection) (groups : gmap string ModelAssign) (p : PurposeDef) : Prop :=
  mkPurposeDeclared {
  pd_group : forall group, pp_group p = Some group -> is_Some (groups !! group);
  pd_model : forall model, pp_model p = Some model -> all_declared connections (model_reference_names model);
  pd_fallback : forall fallback, pp_fallback p = Some fallback -> all_declared connections (chain_names fallback);
}.

Record references_declared (connections : gmap string Connection) (models : Models) : Prop := mkDeclared {
  rd_defaults : forall d, md_defaults models = Some d ->
    all_declared connections (model_reference_names (df_model d)) /\ all_declared connections (chain_names (df_fallback d));
  rd_groups : forall name model, md_groups models !! name = Some model -> all_declared connections (model_reference_names model);
  rd_purposes : forall name p, md_purposes models !! name = Some p -> purpose_declared connections (md_groups models) p;
}.

Lemma check_purpose_pass connections groups name p u :
  check_purpose connections groups tt (name, p) = Ok u <-> purpose_declared connections groups p.
Proof.
  destruct u. unfold check_purpose. rewrite rbind_Ok. setoid_rewrite rbind_Ok. split.
  - intros ([] & Hg & [] & Hm & Hf). constructor.
    + intros group E. rewrite E in Hg. by destruct (groups !! group).
    + intros model E. rewrite E in Hm. by eapply check_model_refs_pass.
    + intros fallback E. rewrite E in Hf. by eapply check_chain_refs_pass.
  - intros [Hg Hm Hf]. exists tt. split; [|exists tt; split].
    + destruct (pp_group p) as [group|]; [|done]. by destruct (Hg group eq_refl) as [? ->].
    + destruct (pp_model p) as [model|]; [|done]. by apply check_model_refs_pass, Hm.
    + destruct (pp_fallback p) as [fallback|]; [|done]. by apply check_chain_refs_pass, Hf.
Qed.

(** The referential checks, as what they establish. *)
Lemma check_model_references_pass connections models u :
  check_model_references connections models = Ok u <-> references_declared connections models.
Proof.
  unfold check_model_references. rewrite rbind_Ok. setoid_rewrite rbind_Ok. setoid_rewrite entries_pass.
  setoid_rewrite check_model_refs_pass. setoid_rewrite check_purpose_pass. split.
  - intros ([] & Hd & [] & Hg & Hp). constructor; [|by eauto..].
    intros d E. rewrite E in Hd. apply rbind_Ok in Hd as ([] & Hm & Hf).
    split; [by eapply check_model_refs_pass|by eapply check_chain_refs_pass].
  - intros [Hd Hg Hp]. exists tt. split; [|exists tt; by split].
    destruct (md_defaults models) as [d|]; [|done]. destruct (Hd d eq_refl) as [Hm Hf].
    apply rbind_Ok. exists tt. split; [by apply check_model_refs_pass|by apply check_chain_refs_pass].
Qed.

(** * Sections as relations *)

(** What an entry reads as, where the table has it. *)
Definition reads {A} (read : Item -> answer A) (fields : Fields) (key : string) (unset : A) : answer A :=
  match get key fields with Some item => read item | None => Ok unset end.

(** Reads an item that must be a table. *)
Definition in_table {A} (key : string) (read : Fields -> answer A) (item : Item) : answer A :=
  let? table := table_like key item in read table.

Lemma try_fold_reads {S B} (step : S -> string * Item -> answer S) (field : S -> B) (key : string) (read : Item -> answer B)
    s fields s' :
  NoDup fields.*1 ->
  (forall s k item s', k <> key -> step s (k, item) = Ok s' -> field s' = field s) ->
  (forall s1 item s', field s1 = field s -> step s1 (key, item) = Ok s' -> read item = Ok (field s')) ->
  try_fold step s fields = Ok s' -> reads read fields key (field s) = Ok (field s').
Proof.
  intros Hn Hother Hkey Hl. unfold reads.
  pose proof (try_fold_field step field key (fun item b => read item = Ok b) s fields s' Hn Hother Hkey Hl) as Hf.
  destruct (get key fields); [done|]. by rewrite Hf.
Qed.

(** A loop over fields that reads each on its own and refuses an unknown key. *)
Lemma try_fold_known {S} (step : S -> string * Item -> answer S) (known : list string) s fields s' :
  (forall s k item s', step s (k, item) = Ok s' -> k ∈ known) ->
  try_fold step s fields = Ok s' -> forall k, k ∈ fields.*1 -> k ∈ known.
Proof.
  intros Hstep. revert s. induction fields as [|[k item] fields IH]; intros s; cbn; [set_solver|].
  rewrite rbind_Ok. intros (s1 & Hx & Hl) k' [->|Hk']%elem_of_cons; [by eapply Hstep|by eapply IH].
Qed.

(** Decides which key a field has. *)
Ltac split_key := repeat (case_decide; subst); try (exfalso; set_solver); try done.

(** The outcome of a step that reads its entry alone. *)
Ltac uniform :=
  repeat case_decide; cbn; try done;
  repeat match goal with |- context [rbind _ ?r] => destruct r; cbn; try done end;
  repeat case_match; try done.

(** ** A purpose row *)

Lemma purpose_field_uniform key s s' e : is_ok (purpose_field key s e) = is_ok (purpose_field key s' e).
Proof. destruct e as [k item]. unfold purpose_field. uniform. Qed.

Lemma purpose_field_known key s k item s' : purpose_field key s (k, item) = Ok s' -> k ∈ PURPOSE_KEYS.
Proof. unfold purpose_field, PURPOSE_KEYS. intros H. repeat case_decide; subst; set_solver. Qed.

Definition some_of {A} (read : Item -> answer A) (item : Item) : answer (option A) := let? a := read item in Ok (Some a).

(** A row as its six fields. *)
Record purpose_view (key : string) (fields : Fields) (def : PurposeDef) : Prop := mkPurposeView {
  pv_known : forall k, k ∈ fields.*1 -> k ∈ PURPOSE_KEYS;
  pv_group : reads (some_of (fun i => ok_or (as_str i) (schema_error (key +:+ ".group") GroupReferenceNotString))) fields "group" None
             = Ok (pp_group def);
  pv_model : reads (some_of (fun i => model_assign i (key +:+ ".model"))) fields "model" None = Ok (pp_model def);
  pv_effort : reads (some_of (fun i => effort_assign i (key +:+ ".effort"))) fields "effort" None = Ok (pp_effort def);
  pv_fallback : reads (some_of (fun i => fallback_assign i (key +:+ ".fallback"))) fields "fallback" None = Ok (pp_fallback def);
  pv_pool : reads (some_of (fun i => name_array i (key +:+ ".pool") PoolNotArray PoolEntryNotString)) fields "pool" None
            = Ok (pp_pool def);
  pv_eligible : reads (some_of (fun i => name_array i (key +:+ ".eligible") EligibleNotArray EligibleEntryNotString)) fields
                  "eligible" None = Ok (pp_eligible def);
}.

(** Puts known answers into the goal. *)
Ltac with_answers := repeat match goal with Ha : ?x = _ |- context [?x] => rewrite Ha; cbn end.

(** The entry of a step, one case per key. *)
Ltac key_cases H :=
  repeat (match type of H with (if decide ?P then _ else _) = _ =>
    destruct (decide P) as [->|_];
      [repeat (let a := fresh in apply rbind_Ok in H as (a & _ & H)); injection H as <-; cbn; split_and!; congruence|] end);
  discriminate.

(** A component of a section's record, by the lemma that frames a step and the
    component's own entry. *)
Ltac component Hreads frame step field :=
  apply (Hreads _ field);
    [let Hx := fresh in intros ???? ? Hx; apply frame in Hx; naive_solver
    |let s1 := fresh in let Hf := fresh in let Hx := fresh in intros s1 ?? Hf Hx; unfold step in Hx; destruct s1;
     repeat first [rewrite decide_True in Hx by reflexivity | rewrite decide_False in Hx by discriminate];
     unfold some_of, in_table; cbn in Hf;
     repeat (let Ha := fresh in apply rbind_Ok in Hx as (? & Ha & Hx); rewrite Ha; cbn); injection Hx as <-; cbn; subst;
     rewrite ?(right_id_L ∅ (∪)); done].

Lemma purpose_field_frame key d k item d' :
  purpose_field key d (k, item) = Ok d' ->
  (k <> "group" -> pp_group d' = pp_group d) /\ (k <> "model" -> pp_model d' = pp_model d) /\
  (k <> "effort" -> pp_effort d' = pp_effort d) /\ (k <> "fallback" -> pp_fallback d' = pp_fallback d) /\
  (k <> "pool" -> pp_pool d' = pp_pool d) /\ (k <> "eligible" -> pp_eligible d' = pp_eligible d).
Proof. unfold purpose_field. intros H. key_cases H. Qed.

Lemma purpose_view_of key fields def :
  NoDup fields.*1 -> try_fold (purpose_field key) no_purpose fields = Ok def -> purpose_view key fields def.
Proof.
  intros Hn Hf. pose proof (fun B field k read Ho Hk => try_fold_reads (B := B) _ field k read _ _ _ Hn Ho Hk Hf) as Hreads.
  split; [eapply try_fold_known; [apply purpose_field_known|exact Hf]|..].
  - component Hreads purpose_field_frame purpose_field pp_group.
  - component Hreads purpose_field_frame purpose_field pp_model.
  - component Hreads purpose_field_frame purpose_field pp_effort.
  - component Hreads purpose_field_frame purpose_field pp_fallback.
  - component Hreads purpose_field_frame purpose_field pp_pool.
  - component Hreads purpose_field_frame purpose_field pp_eligible.
Qed.

(** The step of an entry whose key is known succeeds, as the field [Hread] reads. *)
Ltac known_step step Hget Hread :=
  unfold reads in Hread; rewrite Hget in Hread; unfold step; repeat case_match; simplify_eq;
  repeat first [rewrite decide_True by reflexivity | rewrite decide_False by discriminate];
  unfold some_of, in_table in Hread; repeat (apply rbind_Ok in Hread as (? & -> & Hread); cbn); try done; by rewrite Hread.

Ltac split_known Hk := repeat (apply elem_of_cons in Hk as [->|Hk]); [..|by apply elem_of_nil in Hk].

Lemma purpose_view_iff key fields def :
  NoDup fields.*1 -> try_fold (purpose_field key) no_purpose fields = Ok def <-> purpose_view key fields def.
Proof.
  intros Hn. split; [by apply purpose_view_of|]. intros Hv.
  assert (Hok : is_ok (try_fold (purpose_field key) no_purpose fields) = true).
  { rewrite try_fold_ok by (intros; apply purpose_field_uniform). apply forallb_forall. intros [k item] Hin%list_elem_of_In.
    pose proof (elem_get _ _ _ Hn Hin) as Hget. destruct Hv as [Hknown Hgroup Hmodel Heffort Hfallback Hpool Heligible].
    pose proof (Hknown k (list_elem_of_fmap_2 fst _ _ Hin)) as Hk. split_known Hk.
    - known_step purpose_field Hget Hgroup.
    - known_step purpose_field Hget Hmodel.
    - known_step purpose_field Hget Heffort.
    - known_step purpose_field Hget Hfallback.
    - known_step purpose_field Hget Hpool.
    - known_step purpose_field Hget Heligible. }
  apply is_ok_Ok in Hok as [def' Hdef']. rewrite Hdef'. f_equal. apply purpose_view_of in Hdef'; [|done].
  destruct Hv, Hdef'. destruct def, def'. cbn in *. congruence.
Qed.

(** ** The models section *)

Lemma models_field_known s k item s' : models_field s (k, item) = Ok s' -> k ∈ MODELS_KEYS.
Proof. unfold models_field, MODELS_KEYS. intros H. repeat case_decide; subst; set_solver. Qed.

Lemma models_field_uniform s s' e : is_ok (models_field s e) = is_ok (models_field s' e).
Proof. destruct e as [k item]. unfold models_field. uniform. Qed.

Lemma models_field_frame m k item m' :
  models_field m (k, item) = Ok m' ->
  (k <> "defaults" -> md_defaults m' = md_defaults m) /\ (k <> "groups" -> md_groups m' = md_groups m) /\
  (k <> "purposes" -> md_purposes m' = md_purposes m).
Proof. unfold models_field. intros H. key_cases H. Qed.

Record models_view (fields : Fields) (models : Models) : Prop := mkModelsView {
  mv_known : forall k, k ∈ fields.*1 -> k ∈ MODELS_KEYS;
  mv_defaults : reads (some_of read_defaults) fields "defaults" None = Ok (md_defaults models);
  mv_groups : reads (in_table "models.groups" (read_entries read_group)) fields "groups" ∅ = Ok (md_groups models);
  mv_purposes : reads (in_table "models.purposes" (read_entries read_purpose)) fields "purposes" ∅ = Ok (md_purposes models);
}.

Lemma models_view_of fields models : NoDup fields.*1 -> models_table fields = Ok models -> models_view fields models.
Proof.
  intros Hn Hf. pose proof (fun B field k read Ho Hk => try_fold_reads (B := B) _ field k read _ _ _ Hn Ho Hk Hf) as Hreads.
  split; [eapply try_fold_known; [apply models_field_known|exact Hf]|..].
  - component Hreads models_field_frame models_field md_defaults.
  - component Hreads models_field_frame models_field md_groups.
  - component Hreads models_field_frame models_field md_purposes.
Qed.

Lemma models_view_iff fields models : NoDup fields.*1 -> models_table fields = Ok models <-> models_view fields models.
Proof.
  intros Hn. split; [by apply models_view_of|]. intros Hv.
  assert (Hok : is_ok (models_table fields) = true).
  { unfold models_table. rewrite try_fold_ok by (intros; apply models_field_uniform).
    apply forallb_forall. intros [k item] Hin%list_elem_of_In.
    pose proof (elem_get _ _ _ Hn Hin) as Hget. destruct Hv as [Hknown Hdefaults Hgroups Hpurposes].
    pose proof (Hknown k (list_elem_of_fmap_2 fst _ _ Hin)) as Hk. split_known Hk.
    - known_step models_field Hget Hdefaults.
    - known_step models_field Hget Hgroups.
    - known_step models_field Hget Hpurposes. }
  apply is_ok_Ok in Hok as [m' Hm']. rewrite Hm'. f_equal. apply models_view_of in Hm'; [|done].
  destruct Hv, Hm'. destruct models, m'. cbn in *. congruence.
Qed.

(** ** The root *)

Section Root.
Variable os : TargetOs.

Lemma root_field_known s k item s' : root_field os s (k, item) = Ok s' -> k ∈ CONFIG_ROOTS.
Proof.
  unfold root_field, CONFIG_ROOTS. destruct s. intros H.
  repeat (match type of H with (if decide ?P then _ else _) = _ => destruct (decide P); [subst; set_solver|] end). discriminate.
Qed.

Lemma root_field_uniform s s' e : is_ok (root_field os s e) = is_ok (root_field os s' e).
Proof. destruct e as [k item], s, s'. unfold root_field. uniform. Qed.

Record root_view (fields : Fields) (s : Sections) : Prop := mkRootView {
  rv_known : forall k, k ∈ fields.*1 -> k ∈ CONFIG_ROOTS;
  rv_version : reads (some_of read_version) fields "config_version" None = Ok (sc_version s);
  rv_workflow : reads workflow_section fields "workflow" None = Ok (sc_workflow s);
  rv_decisions : reads decisions_section fields "decisions" None = Ok (sc_decisions s);
  rv_context : reads context_section fields "context" None = Ok (sc_context s);
  rv_connections : reads (in_table "connections" (read_entries connection)) fields "connections" ∅ = Ok (sc_connections s);
  rv_profiles : reads (in_table "profiles" (read_entries (profile os))) fields "profiles" ∅ = Ok (sc_profiles s);
  rv_models : reads (in_table "models" models_table) fields "models" no_models = Ok (sc_models s);
  rv_hooks : reads (in_table "hooks" hooks_table) fields "hooks" ∅ = Ok (sc_hooks s);
  rv_mcp : reads (in_table "mcp" (mcp_section os)) fields "mcp" ∅ = Ok (sc_mcp s);
}.

(** An entry sets the component of its key alone. *)
Lemma root_field_frame s k item s' :
  root_field os s (k, item) = Ok s' ->
  (k <> "config_version" -> sc_version s' = sc_version s) /\ (k <> "workflow" -> sc_workflow s' = sc_workflow s) /\
  (k <> "decisions" -> sc_decisions s' = sc_decisions s) /\ (k <> "context" -> sc_context s' = sc_context s) /\
  (k <> "connections" -> sc_connections s' = sc_connections s) /\ (k <> "profiles" -> sc_profiles s' = sc_profiles s) /\
  (k <> "models" -> sc_models s' = sc_models s) /\ (k <> "hooks" -> sc_hooks s' = sc_hooks s) /\
  (k <> "mcp" -> sc_mcp s' = sc_mcp s).
Proof. unfold root_field. destruct s. intros H. key_cases H. Qed.

Lemma root_view_of fields s : NoDup fields.*1 -> try_fold (root_field os) no_sections fields = Ok s -> root_view fields s.
Proof.
  intros Hn Hf. pose proof (fun B field k read Ho Hk => try_fold_reads (B := B) _ field k read _ _ _ Hn Ho Hk Hf) as Hreads.
  split; [eapply try_fold_known; [apply root_field_known|exact Hf]|..].
  - component Hreads root_field_frame root_field sc_version.
  - component Hreads root_field_frame root_field sc_workflow.
  - component Hreads root_field_frame root_field sc_decisions.
  - component Hreads root_field_frame root_field sc_context.
  - component Hreads root_field_frame root_field sc_connections.
  - component Hreads root_field_frame root_field sc_profiles.
  - component Hreads root_field_frame root_field sc_models.
  - component Hreads root_field_frame root_field sc_hooks.
  - component Hreads root_field_frame root_field sc_mcp.
Qed.

Lemma root_view_iff fields s : NoDup fields.*1 -> try_fold (root_field os) no_sections fields = Ok s <-> root_view fields s.
Proof.
  intros Hn. split; [by apply root_view_of|]. intros Hv.
  assert (Hok : is_ok (try_fold (root_field os) no_sections fields) = true).
  { rewrite try_fold_ok by (intros; apply root_field_uniform).
    apply forallb_forall. intros [k item] Hin%list_elem_of_In.
    pose proof (elem_get _ _ _ Hn Hin) as Hget. destruct Hv as [Hknown Hve Hwo Hde Hco Hcn Hpr Hmo Hho Hmc].
    pose proof (Hknown k (list_elem_of_fmap_2 fst _ _ Hin)) as Hk. split_known Hk.
    - known_step root_field Hget Hve.
    - known_step root_field Hget Hwo.
    - known_step root_field Hget Hde.
    - known_step root_field Hget Hco.
    - known_step root_field Hget Hcn.
    - known_step root_field Hget Hpr.
    - known_step root_field Hget Hmo.
    - known_step root_field Hget Hho.
    - known_step root_field Hget Hmc. }
  apply is_ok_Ok in Hok as [s' Hs']. rewrite Hs'. f_equal. apply root_view_of in Hs'; [|done].
  destruct Hv, Hs'. destruct s, s'. cbn in *. congruence.
Qed.
End Root.

(** * Admission *)

Section Admission.
Variable os : TargetOs.

Lemma admit_credential_pass raw key u : admit_credential os raw key = Ok u <-> exists r, secret_ref_parse os raw = Ok r.
Proof.
  destruct u. unfold admit_credential, credential_ref_admitted. rewrite map_err_Ok.
  destruct (secret_ref_parse os raw) as [r|[|]]; naive_solver.
Qed.

(** A connection states the credential its kind asks for, in the grammar of a
    reference, and the profile it names is declared. *)
Record connection_bound (profiles : gmap string Profile) (name : string) (conn : Connection) : Prop := mkBound {
  cb_credential :
    match cx_kind conn with
    | KindLocal => cx_credential_ref conn = None
    | kind => is_Some (cx_credential_ref conn) \/ (kind = KindApiKey /\ admit_absent_binding name = true)
    end;
  cb_reference : forall raw, cx_credential_ref conn = Some raw -> exists r, secret_ref_parse os raw = Ok r;
  cb_profile : forall profile, cx_profile conn = Some profile -> is_Some (profiles !! profile);
}.

Lemma check_connection_pass profiles name conn u :
  check_connection os profiles tt (name, conn) = Ok u <-> connection_bound profiles name conn.
Proof.
  destruct u. unfold check_connection, check_credential_binding. rewrite rbind_Ok. setoid_rewrite rbind_Ok. split.
  - intros ([] & Hb & [] & Hr & Hp). constructor.
    + destruct (cx_kind conn), (cx_credential_ref conn); try done; try (left; by eexists).
      * right. split; [done|]. by destruct (admit_absent_binding name).
    + intros raw E. rewrite E in Hr. by eapply admit_credential_pass.
    + intros profile E. rewrite E in Hp. by destruct (profiles !! profile).
  - intros [Hb Hr Hp]. exists tt. split; [|exists tt; split].
    + destruct (cx_kind conn), (cx_credential_ref conn); try done; destruct Hb as [[? [=]]|[? Hb]]; try done; by rewrite Hb.
    + destruct (cx_credential_ref conn) as [raw|]; [|done]. by apply admit_credential_pass, Hr.
    + destruct (cx_profile conn) as [profile|]; [|done]. by destruct (Hp profile eq_refl) as [? ->].
Qed.

(** What the checks after the loop establish of a view. *)
Record admitted (p : ParsedDocument) : Prop := mkAdmitted {
  am_version : pa_version p = 1%Z;
  am_connections : cf_connections (pa_routes p) <> ∅;
  am_bound : forall name conn, cf_connections (pa_routes p) !! name = Some conn ->
               connection_bound (cf_profiles (pa_routes p)) name conn;
  am_defaults : is_Some (md_defaults (cf_models (pa_routes p)));
  am_references : references_declared (cf_connections (pa_routes p)) (cf_models (pa_routes p));
}.

Definition view_of (s : Sections) (version : Z) : ParsedDocument :=
  mkParsed version (sc_workflow s) (sc_decisions s) (sc_context s)
    (mkConfig (sc_connections s) (sc_profiles s) (sc_models s)) (sc_hooks s) (sc_mcp s).

Lemma document_config_version_pass version v :
  document_config_version version = Ok v <-> version = Some v /\ v = 1%Z.
Proof.
  unfold document_config_version. rewrite rbind_Ok. setoid_rewrite ok_or_Ok. split.
  - intros (v' & -> & Hv). destruct (Z.eqb_spec v' 1); cbn in Hv; [|done]. by injection Hv as <-.
  - intros [-> ->]. by exists 1%Z.
Qed.

(** A document is admitted when its entries read and its view is admissible. *)
Lemma validated_document_pass doc p :
  NoDup doc.*1 ->
  validated_document os doc = Ok p <->
  exists s, root_view os doc s /\ sc_version s = Some (pa_version p) /\ p = view_of s (pa_version p) /\ admitted p.
Proof.
  intros Hn. unfold validated_document. rewrite rbind_Ok. setoid_rewrite (root_view_iff os doc _ Hn).
  setoid_rewrite rbind_Ok. setoid_rewrite document_config_version_pass. split.
  - intros (s & Hv & v & [Hver ->] & H). exists s. case_bool_decide; [done|].
    apply rbind_Ok in H as ([] & Hc & H). rewrite entries_pass in Hc. setoid_rewrite check_connection_pass in Hc.
    destruct (md_defaults (sc_models s)) as [d|] eqn:Hd; [|done]. apply rbind_Ok in H as ([] & Hr & [= <-]).
    split_and!; try done. constructor; cbn; try done. by eapply check_model_references_pass.
  - intros (s & Hv & Hver & Hp & Ha). exists s. split; [done|]. exists 1%Z. destruct Ha as [Hone Hc Hb [d Hd] Hr].
    rewrite Hone in *. rewrite Hp in Hc, Hb, Hd, Hr. cbn in *. split; [done|].
    rewrite bool_decide_false by done. apply rbind_Ok. exists tt. split.
    { apply entries_pass. intros. by apply check_connection_pass, Hb. }
    rewrite Hd. apply rbind_Ok. exists tt. split; [by apply check_model_references_pass|]. by rewrite Hp.
Qed.
End Admission.
