(* ===== verification/Edits.v ===== *)
(** The edits of a configuration document ([src/src/config.rs]): the addresses of
    its keys, the target an address names, the values a target takes on the wire and
    in the document, [set] and [reset], and the moves of a purpose binding.

    [FileConfig] is the code's [Config]: the typed view and the retained document.
    An accepted edit answers the document; the code answers its bytes and their
    digest, which the TOML library renders. *)

From S2P Require Import Prelude.
From S2P Require Import Contracts.
From S2P Require Import Text.
From S2P Require Import Requests.
From S2P Require Import Notifications.
From S2P Require Import Store.
From S2P Require Import Identity.
From S2P Require Import Routes.
From S2P Require Import Providers.
From S2P Require Import Toml.
From S2P Require Import Schema.

(** * Addresses *)

Definition DQUOTE : ascii := ascii_of_nat 34.
Definition DOT_CHAR : ascii := ".".

(** A character in front of the first segment. *)
Definition cons_first (c : ascii) (segments : list string) : list string :=
  match segments with [] => [String c EmptyString] | s :: segments => String c s :: segments end.

(** The loop of [key_segments]: cut at a dot outside quotes. *)
Fixpoint raw_segments (quoted : bool) (key : string) : option (list string) :=
  match key with
  | EmptyString => if quoted then None else Some [EmptyString]
  | String c key =>
      if Ascii.eqb c DQUOTE then cons_first c <$> raw_segments (negb quoted) key
      else if Ascii.eqb c DOT_CHAR && negb quoted then cons EmptyString <$> raw_segments quoted key
      else cons_first c <$> raw_segments quoted key
  end.

(** [str::strip_suffix] of one character. *)
Fixpoint strip_last (c : ascii) (s : string) : option string :=
  match s with
  | EmptyString => None
  | String d EmptyString => if Ascii.eqb d c then Some EmptyString else None
  | String d s => String d <$> strip_last c s
  end.

Definition unquote (segment : string) : string :=
  match segment with
  | String c rest => if Ascii.eqb c DQUOTE then default segment (strip_last DQUOTE rest) else segment
  | EmptyString => segment
  end.

(** [key_segments] *)
Definition key_segments (key : string) : option (list string) := map unquote <$> raw_segments false key.

(** A segment in quotes. *)
Definition quote (s : string) : string := String DQUOTE (s +:+ String DQUOTE EmptyString).

Example addresses :
  key_segments "workflow.enabled" = Some ["workflow"; "enabled"] /\
  key_segments ("connections." +:+ quote "llama.cpp" +:+ ".profile") = Some ["connections"; "llama.cpp"; "profile"] /\
  key_segments EmptyString = Some [EmptyString] /\ key_segments (String DQUOTE "a.b") = None /\
  key_segments ("a" +:+ quote "b") = Some ["a" +:+ quote "b"].
Proof. split_and!; vm_compute; reflexivity. Qed.

(** * Targets *)

Inductive EditTarget :=
  | WorkflowEnabled
  | DecisionsMode
  | ContextAutoCompact
  | DefaultsModel
  | DefaultsEffort
  | DefaultsFallback
  | GroupModel (name : string)
  | PurposeModel (name : string)
  | PurposeEffort (name : string)
  | PurposeFallback (name : string)
  | PurposeEligible (name : string)
  | ConnectionRegion (name : string)
  | ConnectionProfile (name : string)
  | ProfileCredentialRef (name : string).

#[export] Instance EditTarget_eq_dec : EqDecision EditTarget.
Proof. solve_decision. Defined.

(** [EditTarget::is_override] *)
Definition is_override (target : EditTarget) : bool :=
  match target with DefaultsModel | DefaultsEffort | DefaultsFallback | GroupModel _ => false | _ => true end.

(** [target_path]: the tables on the way, and the field. *)
Definition target_path (target : EditTarget) : list string * string :=
  match target with
  | WorkflowEnabled => (["workflow"], "enabled")
  | DecisionsMode => (["decisions"], "mode")
  | ContextAutoCompact => (["context"], "auto_compact")
  | DefaultsModel => (["models"; "defaults"], "model")
  | DefaultsEffort => (["models"; "defaults"], "effort")
  | DefaultsFallback => (["models"; "defaults"], "fallback")
  | GroupModel name => (["models"; "groups"; name], "model")
  | PurposeModel name => (["models"; "purposes"; name], "model")
  | PurposeEffort name => (["models"; "purposes"; name], "effort")
  | PurposeFallback name => (["models"; "purposes"; name], "fallback")
  | PurposeEligible name => (["models"; "purposes"; name], "eligible")
  | ConnectionRegion name => (["connections"; name], "region")
  | ConnectionProfile name => (["connections"; name], "profile")
  | ProfileCredentialRef name => (["profiles"; name], "credential_ref")
  end.

(** * Carriers *)

Record ConfigCarrier := mkCarrier {
  ca_pattern : string;
  ca_read : ParsedDocument -> list string -> option Value;
  ca_target : list string -> EditTarget;
}.

(** The loop of [ConfigCarrier::names]. *)
Fixpoint captures (pattern segments : list string) : option (list string) :=
  match pattern, segments with
  | expected :: pattern, actual :: segments =>
      if String.prefix "<" expected then
        if decide (actual = EmptyString) then None else cons actual <$> captures pattern segments
      else if decide (expected = actual) then captures pattern segments
      else None
  | _, _ => Some []
  end.

(** [ConfigCarrier::names] *)
Definition carrier_names (carrier : ConfigCarrier) (key : string) : option (list string) :=
  let pattern := split DOT_CHAR (ca_pattern carrier) in
  segments ← key_segments key;
  if decide (length pattern <> length segments) then None else captures pattern segments.

(** [first_name] *)
Definition first_name (names : list string) : string := default EmptyString (head names).

Definition text_or_null (text : option string) : Value := match text with Some s => JString s | None => JNull end.

(** [Config::auto_compact], [Config::decisions_mode] *)
Definition auto_compact (view : ParsedDocument) : bool := default false (pa_context view).
Definition decisions_mode_of (mode : option DecisionModeValue) : DecisionMode :=
  match mode with Some DecideAuto => ModeAuto | _ => ModeAsk end.

Definition CONFIG_CARRIERS : list ConfigCarrier :=
  [mkCarrier "workflow.enabled" (fun view _ => Some (JBool (default true (pa_workflow view)))) (fun _ => WorkflowEnabled);
   mkCarrier "decisions.mode" (fun view _ => Some (text_or_null (decision_as_str <$> pa_decisions view))) (fun _ => DecisionsMode);
   mkCarrier "context.auto_compact" (fun view _ => Some (JBool (auto_compact view))) (fun _ => ContextAutoCompact);
   mkCarrier "connections.<id>.region"
     (fun view names => Some (text_or_null (cf_connections (pa_routes view) !! first_name names ≫= cx_region)))
     (fun names => ConnectionRegion (first_name names));
   mkCarrier "connections.<id>.profile"
     (fun view names => Some (text_or_null (cf_connections (pa_routes view) !! first_name names ≫= cx_profile)))
     (fun names => ConnectionProfile (first_name names));
   mkCarrier "profiles.<name>.credential_ref"
     (fun view names => Some (text_or_null (cf_profiles (pa_routes view) !! first_name names ≫= pf_credential_ref)))
     (fun names => ProfileCredentialRef (first_name names))].

(** [carrier_for], [is_readable_key] *)
Definition carrier_for (key : string) : option ConfigCarrier :=
  find (fun carrier => is_some (carrier_names carrier key)) CONFIG_CARRIERS.
Definition is_readable_key (key : string) : bool := is_some (carrier_for key).

(** [is_hook_key], [is_document_only_key] *)
Definition is_hook_key (key : string) : bool := bool_decide (key = "hooks") || String.prefix "hooks." key.
Definition is_document_only_key (key : string) : bool :=
  is_hook_key key || bool_decide (key = "mcp.servers") || String.prefix "mcp.servers." key.

(** * The nearest root *)

(** One row of [edit_distance]: [current] is the vector of the row, indexed and
    updated in place; an index out of range panics. *)
Definition set_index {A} (l : list A) (i : nat) (x : A) : outcome (list A) :=
  if decide (i < length l) then Ret (<[i := x]> l) else Panic.

Fixpoint distance_row (left_char : Z) (rights : list Z) (column : nat) (previous current : list nat) : outcome (list nat) :=
  match rights with
  | [] => Ret current
  | right_char :: rights =>
      let* above := index previous column in
      let* beside := index previous (S column) in
      let* before := index current column in
      let substitution := above + (if decide (left_char = right_char) then 0 else 1) in
      let* current := set_index current (S column) (Nat.min (Nat.min substitution (beside + 1)) (before + 1)) in
      distance_row left_char rights (S column) previous current
  end.

Fixpoint distance_rows (lefts rights : list Z) (row : nat) (previous current : list nat) : outcome (list nat) :=
  match lefts with
  | [] => Ret previous
  | left_char :: lefts =>
      let* current := set_index current 0 (row + 1) in
      let* current := distance_row left_char rights 0 previous current in
      distance_rows lefts rights (S row) current previous
  end.

(** [edit_distance], over characters *)
Definition distance (lefts rights : list Z) : outcome nat :=
  let* previous := distance_rows lefts rights 0 (seq 0 (length rights + 1)) (repeat 0 (length rights + 1)) in
  index previous (length rights).

Definition characters (s : string) : list Z := chars (String.length s) (bytes_of s).
Definition edit_distance (lefts rights : string) : outcome nat := distance (characters lefts) (characters rights).

Definition ROOT_KEY_HINT_DISTANCE : nat := 3.

(** [nearest_root]: the first of the least distances within the limit. *)
Fixpoint nearest (key : string) (roots : list string) (best : option (nat * string)) : outcome (option (nat * string)) :=
  match roots with
  | [] => Ret best
  | root :: roots =>
      let* d := edit_distance key root in
      let best :=
        if d <=? ROOT_KEY_HINT_DISTANCE then
          match best with
          | Some (least, _) => if d <? least then Some (d, root) else best
          | None => Some (d, root)
          end
        else best in
      nearest key roots best
  end.
Definition nearest_root (key : string) : outcome (option string) :=
  let* best := nearest key CONFIG_ROOTS None in Ret (snd <$> best).

Example hints :
  map nearest_root ["workflo"; "model"; "hook"; "decision"; "zzzzzzz"; "mpc"] =
    map Ret [Some "workflow"; Some "models"; Some "hooks"; Some "decisions"; None; Some "mcp"].
Proof. vm_compute. reflexivity. Qed.

(** * Refusals of an address *)

Definition not_editable_key (key : string) : ConfigError := schema_error key (KeyNotEditable key).
Definition document_only_key (key : string) : ConfigError := schema_error key (DocumentOnlyKey key).
Definition malformed_edit_key (key : string) : ConfigError := schema_error key (EmptyKeySegment key).
Definition unterminated_quote_key (key : string) : ConfigError := schema_error key (UnterminatedKeyQuote key).
Definition unknown_scope_key (key : string) (known : list string) : ConfigError := schema_error key (UnknownKey key known).
Definition unknown_root_key (key root : string) : ConfigError := schema_error key (UnknownRootKey root).
Definition type_mismatch (key : string) : ConfigError := schema_error key (ValueTypeMismatch key).

(** [chain_scope] *)
Definition chain_scope (key : string) (tail : list string) : ConfigError :=
  match tail with
  | [] => not_editable_key key
  | [field] => if decide (field ∈ CHAIN_ENTRY_KEYS) then not_editable_key key else unknown_scope_key key CHAIN_ENTRY_KEYS
  | _ => unknown_scope_key key CHAIN_ENTRY_KEYS
  end.

(** The tail of a fallback's chain. *)
Definition chain_tail (rest : list string) : option (list string) :=
  match rest with
  | slot :: chain :: tail => if decide (slot = "fallback" /\ chain = "chain") then Some tail else None
  | _ => None
  end.

(** The arms of [unknown_edit_key] below [connections] and [profiles], and below the
    three tables of [models]. *)
Definition unknown_connections (key : string) (rest : list string) : ConfigError :=
  match rest with
  | [] | [_] => not_editable_key key
  | [_; field] =>
      if decide (field ∈ ["kind"; "endpoint"; "credential_ref"]) then document_only_key key
      else if decide (field ∈ CONNECTION_KEYS) then not_editable_key key
      else unknown_scope_key key CONNECTION_KEYS
  | _ => unknown_scope_key key CONNECTION_KEYS
  end.

Definition unknown_profiles (key : string) (rest : list string) : ConfigError :=
  match rest with
  | [] | [_] => not_editable_key key
  | [_; field] => if decide (field ∈ PROFILE_KEYS) then not_editable_key key else unknown_scope_key key PROFILE_KEYS
  | _ => unknown_scope_key key PROFILE_KEYS
  end.

Definition unknown_defaults (key : string) (rest : list string) : ConfigError :=
  match chain_tail rest, rest with
  | Some tail, _ => chain_scope key tail
  | None, [] => not_editable_key key
  | None, slot :: _ => if decide (slot ∈ MODEL_SLOT_KEYS) then not_editable_key key else unknown_scope_key key MODEL_SLOT_KEYS
  end.

Definition unknown_groups (key : string) (rest : list string) : ConfigError :=
  match rest with
  | [] | [_] => not_editable_key key
  | _ :: field :: _ => if decide (field = "model") then not_editable_key key else unknown_scope_key key GROUP_KEYS
  end.

Definition unknown_purposes (key : string) (rest : list string) : ConfigError :=
  match rest with
  | [] | [_] => not_editable_key key
  | _ :: (field :: below) as row =>
      if decide (below = [] /\ field ∈ ["group"; "pool"]) then not_editable_key key
      else match chain_tail row with
           | Some tail => chain_scope key tail
           | None =>
               if decide (field ∈ ["model"; "effort"; "fallback"; "eligible"]) then not_editable_key key
               else unknown_scope_key key PURPOSE_KEYS
           end
  end.

Definition unknown_models (key : string) (rest : list string) : ConfigError :=
  match rest with
  | [] => not_editable_key key
  | table :: rest =>
      if decide (table = "defaults") then unknown_defaults key rest
      else if decide (table = "groups") then unknown_groups key rest
      else if decide (table = "purposes") then unknown_purposes key rest
      else unknown_scope_key key MODELS_KEYS
  end.

(** [unknown_edit_key] *)
Definition unknown_edit_key (key : string) : ConfigError :=
  match key_segments key with
  | None => unterminated_quote_key key
  | Some segments =>
      let root := default EmptyString (head segments) in
      let rest := tail segments in
      if decide (EmptyString ∈ root :: rest) then malformed_edit_key key
      else if decide (root = "config_version") then schema_error key (KeyNotEditable root)
      else if decide (root = "workflow") then
        match rest with [] => not_editable_key key | _ => unknown_scope_key key WORKFLOW_KEYS end
      else if decide (root = "decisions") then
        match rest with [] => not_editable_key key | _ => unknown_scope_key key DECISIONS_KEYS end
      else if decide (root = "context") then
        match rest with [] => not_editable_key key | _ => unknown_scope_key key CONTEXT_KEYS end
      else if decide (root = "connections") then unknown_connections key rest
      else if decide (root = "profiles") then unknown_profiles key rest
      else if decide (root = "hooks") then document_only_key key
      else if decide (root = "mcp") then document_only_key key
      else if decide (root = "models") then unknown_models key rest
      else unknown_root_key key root
  end.

(** The assignment slots of [edit_target]. *)
Definition slot_target (segments : list string) : option EditTarget :=
  match segments with
  | [models; defaults; slot] =>
      if decide (models = "models" /\ defaults = "defaults") then
        if decide (slot = "model") then Some DefaultsModel
        else if decide (slot = "effort") then Some DefaultsEffort
        else if decide (slot = "fallback") then Some DefaultsFallback
        else None
      else None
  | [models; table; name; slot] =>
      if decide (models = "models" /\ table = "groups" /\ slot = "model") then Some (GroupModel name)
      else if decide (models = "models" /\ table = "purposes") then
        if decide (slot = "model") then Some (PurposeModel name)
        else if decide (slot = "effort") then Some (PurposeEffort name)
        else if decide (slot = "fallback") then Some (PurposeFallback name)
        else if decide (slot = "eligible") then Some (PurposeEligible name)
        else None
      else None
  | _ => None
  end.

(** [edit_target] *)
Definition edit_target (key : string) : answer EditTarget :=
  match key_segments key with
  | None => Err (unterminated_quote_key key)
  | Some segments =>
      if decide (EmptyString ∈ segments) then Err (unknown_edit_key key)
      else
        match (carrier ← carrier_for key; names ← carrier_names carrier key; Some (ca_target carrier names)) with
        | Some target => Ok target
        | None => ok_or (slot_target segments) (unknown_edit_key key)
        end
  end.

(** * Values *)

Inductive ConfigValue :=
  | CBool (value : bool)
  | CDecisionMode (value : DecisionModeValue)
  | CModel (value : ModelAssign)
  | CEffort (value : EffortAssign)
  | CFallback (value : FallbackAssign)
  | CNames (value : list string)
  | CText (value : string).

(** [model_item], [effort_item], [fallback_item] *)
Definition model_item (model : ModelAssign) : Item :=
  TTable true
    match model with
    | InheritModel => [("mode", TString "inherit")]
    | AutoModel None => [("mode", TString "auto")]
    | AutoModel (Some names) => [("mode", TString "auto"); ("pool", TArray (map TString names))]
    | Fixed fixed =>
        [("mode", TString "fixed"); ("connection", TString (fm_connection fixed)); ("model_id", TString (fm_model_id fixed))]
    end.
Definition effort_item (effort : EffortAssign) : Item :=
  TTable true
    match effort with
    | InheritEffort => [("mode", TString "inherit")]
    | AutoEffort => [("mode", TString "auto")]
    | FixedEffort value => [("mode", TString "fixed"); ("value", TString (effort_name value))]
    end.
Definition fallback_item (fallback : FallbackAssign) : Item :=
  TTable true
    match fallback with
    | AutoFallback chain => [("mode", TString "auto"); ("chain", TArray (map (fun fixed => model_item (Fixed fixed)) chain))]
    | ManualFallback => [("mode", TString "manual")]
    | OffFallback => [("mode", TString "off")]
    end.

(** The item a value is written as, where its target takes it (the match of [set]). *)
Definition set_item (key : string) (target : EditTarget) (value : ConfigValue) : answer Item :=
  match value, target with
  | CBool enabled, (WorkflowEnabled | ContextAutoCompact) => Ok (TBool enabled)
  | CDecisionMode mode, DecisionsMode => Ok (TString (decision_as_str mode))
  | CModel model, (DefaultsModel | GroupModel _ | PurposeModel _) => Ok (model_item model)
  | CEffort effort, (DefaultsEffort | PurposeEffort _) => Ok (effort_item effort)
  | CFallback fallback, (DefaultsFallback | PurposeFallback _) => Ok (fallback_item fallback)
  | CNames names, PurposeEligible _ => Ok (TArray (map TString names))
  | CText text, (ConnectionRegion _ | ConnectionProfile _ | ProfileCredentialRef _) => Ok (TString text)
  | _, _ => Err (type_mismatch key)
  end.

(** * Wire values *)

Abbreviation Object := (list (string * Value)).

(** [wire_mode], [wire_name_array] *)
Definition wire_mode (fields : Object) (key : string) : answer string :=
  ok_or (get "mode" fields ≫= json_str) (schema_error (key +:+ ".mode") (Required "mode")).
Definition wire_name_array (items : list Value) (key : string) (entry_not_string : ConfigIssue) : answer (list string) :=
  try_map (fun entry => ok_or (json_str entry) (schema_error key entry_not_string)) items.

Definition wire_text (fields : Object) (field key : string) (issue : ConfigIssue) : answer string :=
  ok_or (get field fields ≫= json_str) (schema_error (key +:+ "." +:+ field) issue).

(** [wire_model] *)
Definition wire_model (fields : Object) (key : string) : answer ModelAssign :=
  let? mode := wire_mode fields key in
  if decide (mode = "inherit") then Ok InheritModel
  else if decide (mode = "auto") then
    match get "pool" fields with
    | None => Ok (AutoModel None)
    | Some value =>
        let? items := ok_or (json_array value) (schema_error (key +:+ ".pool") PoolNotArray) in
        let? names := wire_name_array items (key +:+ ".pool") PoolEntryNotString in
        Ok (AutoModel (Some names))
    end
  else if decide (mode = "fixed") then
    let? connection := wire_text fields "connection" key FixedModelMissingConnection in
    let? model_id := wire_text fields "model_id" key FixedModelMissingId in
    Ok (Fixed (mkFixed connection model_id))
  else Err (schema_error (key +:+ ".mode") (UnsupportedModelMode mode)).

(** [wire_effort] *)
Definition wire_effort (fields : Object) (key : string) : answer EffortAssign :=
  let? mode := wire_mode fields key in
  if decide (mode = "inherit") then Ok InheritEffort
  else if decide (mode = "auto") then Ok AutoEffort
  else if decide (mode = "fixed") then
    let? raw := wire_text fields "value" key FixedEffortMissingValue in
    let? value := ok_or (effort_parse raw) (schema_error (key +:+ ".value") (UnsupportedEffortValue raw)) in
    Ok (FixedEffort value)
  else Err (schema_error (key +:+ ".mode") (UnsupportedEffortMode mode)).

Definition wire_chain_entry (key : string) (entry : Value) : answer FixedModel :=
  let? fields := ok_or (json_object entry) (schema_error (key +:+ ".chain") ChainEntryNotTable) in
  let? _ := known_fields (fields.*1)
              (fun field => schema_error (key +:+ ".chain." +:+ field) (UnknownKey field CHAIN_ENTRY_KEYS)) CHAIN_ENTRY_KEYS in
  let? _ :=
    match get "mode" fields with
    | None => Ok tt
    | Some mode =>
        let? mode := ok_or (json_str mode) (schema_error (key +:+ ".chain.mode") (ExpectedString "mode")) in
        if decide (mode = "fixed") then Ok tt
        else Err (schema_error (key +:+ ".chain.mode") (UnsupportedModelMode mode))
    end in
  let? connection := wire_text fields "connection" (key +:+ ".chain") FixedChainEntryMissingConnection in
  let? model_id := wire_text fields "model_id" (key +:+ ".chain") FixedChainEntryMissingModelId in
  Ok (mkFixed connection model_id).

(** [wire_fallback] *)
Definition wire_fallback (fields : Object) (key : string) : answer FallbackAssign :=
  let? mode := wire_mode fields key in
  if decide (mode = "auto") then
    let? chain :=
      match get "chain" fields with
      | None => Ok []
      | Some value =>
          let? items := ok_or (json_array value) (schema_error (key +:+ ".chain") ChainNotArray) in
          try_map (wire_chain_entry key) items
      end in
    Ok (AutoFallback chain)
  else if decide (mode = "manual") then Ok ManualFallback
  else if decide (mode = "off") then Ok OffFallback
  else Err (schema_error (key +:+ ".mode") (UnsupportedFallbackMode mode)).

(** [wire_value] *)
Definition wire_value (key : string) (value : Value) : answer ConfigValue :=
  let? target := edit_target key in
  match target, value with
  | WorkflowEnabled, JBool enabled => Ok (CBool enabled)
  | ContextAutoCompact, JBool enabled => Ok (CBool enabled)
  | ContextAutoCompact, _ => Err (schema_error "context.auto_compact" ContextAutoCompactNotBoolean)
  | DecisionsMode, JString mode =>
      let? mode := ok_or (decision_parse mode) (schema_error key (UnsupportedDecisionMode mode)) in Ok (CDecisionMode mode)
  | (DefaultsModel | GroupModel _ | PurposeModel _), JObject fields =>
      let? model := wire_model fields key in Ok (CModel model)
  | (DefaultsEffort | PurposeEffort _), JObject fields => let? effort := wire_effort fields key in Ok (CEffort effort)
  | (DefaultsFallback | PurposeFallback _), JObject fields =>
      let? fallback := wire_fallback fields key in Ok (CFallback fallback)
  | PurposeEligible _, JArray items =>
      let? names := wire_name_array items key EligibleEntryNotString in Ok (CNames names)
  | (ConnectionRegion _ | ConnectionProfile _ | ProfileCredentialRef _), JString text => Ok (CText text)
  | _, _ => Err (type_mismatch key)
  end.

(** * Writing into a document *)

(** [set_field]: an assignment written over a table keeps the table and its kept
    keys in place; anything else replaces what is there. *)
Fixpoint set_field (table : Fields) (field : string) (item : Item) {struct item} : Fields :=
  match get field table with
  | Some (TTable inline target) =>
      match item with
      | TTable true new =>
          let fix set_all (target : Fields) (new : Fields) {struct new} : Fields :=
            match new with
            | [] => target
            | (key, value) :: new => set_all (set_field target key value) new
            end in
          put field (TTable inline (set_all (filter (fun e => contains_key e.1 new = true) target) new)) table
      | _ => put field item table
      end
  | _ => put field item table
  end.

(** [ensure_table_like] on the way to a field: a missing table is made, inline
    inside an inline one; then the edit of the table that is reached. *)
Fixpoint ensure_table_like (path : list string) (key : string) (edit : Fields -> Fields) (node : Item) : answer Item :=
  match node with
  | TTable inline fields =>
      match path with
      | [] => Ok (TTable inline (edit fields))
      | segment :: path =>
          let? child := ensure_table_like path key edit (default (TTable inline []) (get segment fields)) in
          Ok (TTable inline (put segment child fields))
      end
  | _ => Err (schema_error key (ExpectedTable key))
  end.

Definition ensure_in (doc : Fields) (path : list string) (key : string) (edit : Fields -> Fields) : answer Fields :=
  let? root := ensure_table_like path key edit (TTable false doc) in
  ok_or (as_table_like root) (schema_error key (ExpectedTable key)).

(** The walk of [reset] to a table that may be missing. *)
Fixpoint remove_at (path : list string) (field : string) (node : Item) : Item :=
  match node with
  | TTable inline fields =>
      match path with
      | [] => TTable inline (del field fields)
      | segment :: path =>
          match get segment fields with
          | Some child => TTable inline (put segment (remove_at path field child) fields)
          | None => node
          end
      end
  | _ => node
  end.

Definition remove_in (doc : Fields) (path : list string) (field : string) : Fields :=
  default doc (as_table_like (remove_at path field (TTable false doc))).

(** The item an address of tables leads to. *)
Fixpoint item_at (path : list string) (node : Item) : option Item :=
  match path with
  | [] => Some node
  | segment :: path => table ← as_table_like node; next ← get segment table; item_at path next
  end.

(** [require_declared_connection] *)
Definition require_declared_connection (doc : Fields) (target : EditTarget) (key : string) : answer unit :=
  match target with
  | ConnectionRegion name | ConnectionProfile name =>
      if default false (contains_key name <$> (get "connections" doc ≫= as_table_like)) then Ok tt
      else Err (schema_error key (UnknownConnectionReference name))
  | _ => Ok tt
  end.

(** * The configuration and its edits *)

(** [Config]: the typed view, and the document it retains. *)
Record FileConfig := mkFileConfig { fc_view : ParsedDocument; fc_raw : option Fields }.

(** [Config::default] *)
Definition no_view : ParsedDocument := mkParsed 0 None None None (mkConfig ∅ ∅ no_models) ∅ ∅.
Definition no_config : FileConfig := mkFileConfig no_view None.

Section Config.
Variable os : TargetOs.
(** The parser of the TOML library: a tree, or its message. *)
Variable parse_toml : string -> result Fields string.

(** [Config::parse], [Config::validate], [Config::parse_validated] *)
Definition parse (text : string) : answer FileConfig :=
  let? doc := map_err parse_error (parse_toml text) in Ok (mkFileConfig no_view (Some doc)).
Definition validate (c : FileConfig) : answer FileConfig :=
  match fc_raw c with
  | None => Ok c
  | Some doc => let? view := validated_document os doc in Ok (mkFileConfig view (Some doc))
  end.
Definition parse_validated (text : string) : answer FileConfig := let? c := parse text in validate c.

(** [refresh_view_if_valid] *)
Definition refresh_view_if_valid (c : FileConfig) : FileConfig :=
  match fc_raw c with
  | None => c
  | Some doc => match validated_document os doc with Ok view => mkFileConfig view (Some doc) | Err _ => c end
  end.

(** The connections an assignment names, read from the document. *)
Fixpoint typed_references (connections : Fields) (names : list string) (typed : gmap string Connection)
    : answer (gmap string Connection) :=
  match names with
  | [] => Ok typed
  | name :: names =>
      match get name connections with
      | Some item => let? conn := connection name item in typed_references connections names (<[name := conn]> typed)
      | None => typed_references connections names typed
      end
  end.

(** [validate_model_reference] *)
Definition validate_model_reference (doc : Fields) (model : ModelAssign) (key : string) : answer unit :=
  match get "connections" doc ≫= as_table_like with
  | None => Ok tt
  | Some connections =>
      let? typed := typed_references connections (model_reference_names model) ∅ in check_model_refs typed model key
  end.

(** [validate_fallback_reference] *)
Definition validate_fallback_reference (doc : Fields) (fallback : FallbackAssign) (key : string) : answer unit :=
  match fallback with
  | AutoFallback chain =>
      match get "connections" doc ≫= as_table_like with
      | None => Ok tt
      | Some connections =>
          let? typed := typed_references connections (map fm_connection chain) ∅ in
          try_fold (fun _ entry => check_model_refs typed (Fixed entry) key) tt chain
      end
  | _ => Ok tt
  end.

(** The item of a target is judged by its own schema (the match of
    [validate_target]). *)
Definition validate_item (doc : Fields) (target : EditTarget) (key : string) (item : Item) : answer unit :=
  match target with
  | WorkflowEnabled => let? _ := ok_or (as_bool item) (schema_error key WorkflowEnabledNotBoolean) in Ok tt
  | ContextAutoCompact => let? _ := ok_or (as_bool item) (schema_error key ContextAutoCompactNotBoolean) in Ok tt
  | DecisionsMode =>
      let? raw := ok_or (as_str item) (schema_error key (ExpectedString "mode")) in
      let? _ := ok_or (decision_parse raw) (schema_error key (UnsupportedDecisionMode raw)) in Ok tt
  | DefaultsModel | GroupModel _ | PurposeModel _ =>
      let? model := model_assign item key in validate_model_reference doc model key
  | DefaultsEffort | PurposeEffort _ => let? _ := effort_assign item key in Ok tt
  | DefaultsFallback | PurposeFallback _ =>
      let? fallback := fallback_assign item key in validate_fallback_reference doc fallback key
  | PurposeEligible _ => let? _ := name_array item key EligibleNotArray EligibleEntryNotString in Ok tt
  | ConnectionRegion _ => let? _ := ok_or (as_str item) (schema_error key (ExpectedString "region")) in Ok tt
  | ConnectionProfile _ =>
      let? raw := ok_or (as_str item) (schema_error key (ExpectedString "profile")) in
      if default false (contains_key raw <$> (get "profiles" doc ≫= as_table_like)) then Ok tt
      else Err (schema_error key (UnknownProfileReference raw))
  | ProfileCredentialRef _ =>
      let? raw := ok_or (as_str item) (schema_error key (ExpectedString "credential_ref")) in admit_credential os raw key
  end.

(** [validate_target] *)
Definition validate_target (raw : option Fields) (target : EditTarget) (key : string) : answer unit :=
  match raw with
  | None => Err (schema_error key NoRetainedDocument)
  | Some doc =>
      let '(path, field) := target_path target in
      match (node ← item_at path (TTable false doc); table ← as_table_like node; get field table) with
      | None => Ok tt
      | Some item => validate_item doc target key item
      end
  end.

(** [finish_edit]: the document whose bytes are answered. *)
Definition finish_edit (c : FileConfig) : Fields := default [] (fc_raw c).

(** [commit_edit]: [c] holds what the edit left of the document, [original] what it
    was. *)
Definition commit_edit (key : string) (target : EditTarget) (original : option Fields) (edited : answer unit)
    (c : FileConfig) : answer Fields * FileConfig :=
  match (let? _ := edited in validate_target (fc_raw c) target key) with
  | Err error => (Err error, mkFileConfig (fc_view c) original)
  | Ok _ => let c := refresh_view_if_valid c in (Ok (finish_edit c), c)
  end.

(** [require_document] and the edit of what it answers. *)
Definition edit_document (key : string) (c : FileConfig) (edit : Fields -> answer Fields) : answer unit * FileConfig :=
  match fc_raw c with
  | None => (Err (schema_error key NoRetainedDocument), c)
  | Some doc =>
      match edit doc with
      | Ok doc => (Ok tt, mkFileConfig (fc_view c) (Some doc))
      | Err error => (Err error, c)
      end
  end.

(** [Config::set] *)
Definition set (key : string) (value : ConfigValue) (c : FileConfig) : answer Fields * FileConfig :=
  match (let? target := edit_target key in let? item := set_item key target value in Ok (target, item)) with
  | Err error => (Err error, c)
  | Ok (target, item) =>
      let '(path, field) := target_path target in
      let '(edited, c') :=
        edit_document key c (fun doc =>
          let? _ := require_declared_connection doc target key in
          ensure_in doc path key (fun table => set_field table field item)) in
      commit_edit key target (fc_raw c) edited c'
  end.

(** [Config::reset] *)
Definition reset (key : string) (c : FileConfig) : answer Fields * FileConfig :=
  match edit_target key with
  | Err error => (Err error, c)
  | Ok target =>
      if negb (is_override target) then (Err (schema_error key (RequiredNotResettable key)), c)
      else
        let '(path, field) := target_path target in
        let '(edited, c') :=
          edit_document key c (fun doc =>
            let? _ := require_declared_connection doc target key in Ok (remove_in doc path field)) in
        commit_edit key target (fc_raw c) edited c'
  end.

(** [Config::set_wire] *)
Definition set_wire (key : string) (value : Value) (c : FileConfig) : answer Fields * FileConfig :=
  match wire_value key value with
  | Err error => (Err error, c)
  | Ok value => set key value c
  end.

(** [Config::read_value] *)
Definition read_value (key : string) (c : FileConfig) : option Value :=
  carrier ← carrier_for key;
  names ← carrier_names carrier key;
  ca_read carrier (fc_view c) names.

(** * Moving a purpose *)

(** [move_purpose_table] *)
Definition move_rows (from to : string) (purposes : Fields) : Fields :=
  if contains_key to purposes then del from purposes
  else match get from purposes with
       | Some binding => put to binding (del from purposes)
       | None => purposes
       end.

(** The table at a path, edited in place; nothing where there is none. *)
Fixpoint edit_at (path : list string) (edit : Fields -> Fields) (node : Item) : Item :=
  match node with
  | TTable inline fields =>
      match path with
      | [] => TTable inline (edit fields)
      | segment :: path =>
          match get segment fields with
          | Some child => TTable inline (put segment (edit_at path edit child) fields)
          | None => node
          end
      end
  | _ => node
  end.

Definition purposes_of (doc : Fields) : option Fields :=
  models ← get "models" doc ≫= as_table_like;
  get "purposes" models ≫= as_table_like.

Definition move_purpose_table (from to : string) (doc : Fields) : Fields :=
  default doc (as_table_like (edit_at ["models"; "purposes"] (move_rows from to) (TTable false doc))).

(** One row of the document, under the name it is read by. *)
Definition one_purpose (name : string) (def : option PurposeDef) : Config :=
  mkConfig ∅ ∅ (mkModels None ∅ (match def with Some def => {[ name := def ]} | None => ∅ end)).

Definition read_row (name : string) (purposes : Fields) : answer (option PurposeDef) :=
  match get name purposes with
  | Some entry => let? def := read_purpose name entry in Ok (Some def)
  | None => Ok None
  end.

(** [Config::rebind_purpose] *)
Definition rebind_purpose (from to : string) (c : FileConfig) : answer (option Fields) * FileConfig :=
  match fc_raw c ≫= purposes_of with
  | None => (Ok None, c)
  | Some purposes =>
      match read_row from purposes with
      | Err error => (Err error, c)
      | Ok None => (Ok None, c)
      | Ok (Some binding) =>
          match (let? target := read_row to purposes in
                 (merge_purposes (one_purpose to target) (one_purpose to (Some binding))).1) with
          | Err error => (Err error, c)
          | Ok _ =>
              let moved :=
                if decide (from <> to) then mkFileConfig (fc_view c) (move_purpose_table from to <$> fc_raw c) else c in
              let c := refresh_view_if_valid moved in
              (Ok (Some (finish_edit c)), c)
          end
      end
  end.

(** [purpose_moves] *)
Definition purpose_moves (rules : list IdentityMigration) : list (string * string) :=
  map (fun r => (old_id r, new_id r)) (filter (fun r => kind r = Role) rules).

(** [Config::planned_purpose_moves]: the moves proven against a copy. *)
Fixpoint plan_moves (moves : list (string * string)) (proven : FileConfig) : answer (list (string * string)) :=
  match moves with
  | [] => Ok []
  | (from, to) :: moves =>
      let '(moved, proven) := rebind_purpose from to proven in
      let? moved := moved in
      let? rest := plan_moves moves proven in
      Ok (match moved with Some _ => (from, to) :: rest | None => rest end)
  end.
Definition planned_purpose_moves (rules : list IdentityMigration) (c : FileConfig) : answer (list (string * string)) :=
  plan_moves (purpose_moves rules) c.

(** [Config::move_purpose_bindings] *)
Fixpoint move_bindings (moves : list (string * string)) (edit : option Fields) (c : FileConfig)
    : answer (option Fields) * FileConfig :=
  match moves with
  | [] => (Ok edit, c)
  | (from, to) :: moves =>
      match rebind_purpose from to c with
      | (Err error, c) => (Err error, c)
      | (Ok (Some moved), c) => move_bindings moves (Some moved) c
      | (Ok None, c) => move_bindings moves edit c
      end
  end.
Definition move_purpose_bindings (moves : list (string * string)) (c : FileConfig) : answer (option Fields) * FileConfig :=
  move_bindings moves None c.
End Config.
