(* ===== verification/EditsThms.v ===== *)
(** The addresses of an edit, the distance behind the hint of a misspelled root, and
    the agreement of the two carriers of an assignment: the document and the wire. *)

From S2P Require Import Prelude.
From S2P Require Import Contracts.
From S2P Require Import Text.
From S2P Require Import Requests.
From S2P Require Import Notifications.
From S2P Require Import Store.
From S2P Require Import Identity.
From S2P Require Import Routes.
From S2P Require Import Providers.
From S2P Require Import Toml.
From S2P Require Import Schema.
From S2P Require Import SchemaThms.
From S2P Require Import Edits.

(** * The distance of two keys *)

(** A way to turn one list into another, and the number of edits in it. *)
Inductive alignment : list Z -> list Z -> nat -> Prop :=
  | al_nil : alignment [] [] 0
  | al_keep a l r n : alignment l r n -> alignment (a :: l) (a :: r) n
  | al_substitute a b l r n : alignment l r n -> alignment (a :: l) (b :: r) (S n)
  | al_delete a l r n : alignment l r n -> alignment (a :: l) r (S n)
  | al_insert b l r n : alignment l r n -> alignment l (b :: r) (S n).

Definition least (l r : list Z) (d : nat) : Prop := alignment l r d /\ forall n, alignment l r n -> d <= n.

Lemma alignment_app l r n l' r' n' : alignment l r n -> alignment l' r' n' -> alignment (l ++ l') (r ++ r') (n + n').
Proof. induction 1; cbn; intros; eauto using alignment. Qed.

Lemma alignment_reverse l r n : alignment l r n -> alignment (reverse l) (reverse r) n.
Proof.
  induction 1 as [|a l r n _ IH|a b l r n _ IH|a l r n _ IH|b l r n _ IH]; rewrite ?reverse_cons; [constructor|..].
  - rewrite <- (Nat.add_0_r n). apply alignment_app; [done|]. repeat constructor.
  - rewrite <- Nat.add_1_r. apply alignment_app; [done|]. repeat constructor.
  - rewrite <- Nat.add_1_r, <- (app_nil_r (reverse r)). apply alignment_app; [done|]. repeat constructor.
  - rewrite <- Nat.add_1_r, <- (app_nil_r (reverse l)). apply alignment_app; [done|]. repeat constructor.
Qed.

(** The last step of a way between two lists. *)
Lemma alignment_last l a r b n :
  alignment (l ++ [a]) (r ++ [b]) n ->
  (a = b /\ alignment l r n) \/
  exists m, n = S m /\ (alignment l r m \/ alignment l (r ++ [b]) m \/ alignment (l ++ [a]) r m).
Proof.
  intros H%alignment_reverse. rewrite !reverse_snoc in H.
  inversion H as [|? l0 r0 ? Ha|? ? l0 r0 ? Ha|? l0 r0 ? Ha|? l0 r0 ? Ha]; subst; apply alignment_reverse in Ha;
    rewrite ?reverse_cons, !reverse_involutive in Ha; eauto 10.
Qed.

Lemma alignment_nil_l r n : alignment [] r n -> length r <= n.
Proof. remember [] as l eqn:E. induction 1; cbn; try discriminate; [lia|]. specialize (IHalignment E). lia. Qed.

Lemma alignment_nil_r l n : alignment l [] n -> length l <= n.
Proof. remember [] as r eqn:E. induction 1; cbn; try discriminate; [lia|]. specialize (IHalignment E). lia. Qed.

Lemma least_nil_l r : least [] r (length r).
Proof. split; [|apply alignment_nil_l]. induction r; cbn; eauto using alignment. Qed.

Lemma least_nil_r l : least l [] (length l).
Proof. split; [|apply alignment_nil_r]. induction l; cbn; eauto using alignment. Qed.

(** The recurrence of the table. *)
Lemma least_snoc l a r b above beside before :
  least l r above -> least l (r ++ [b]) beside -> least (l ++ [a]) r before ->
  least (l ++ [a]) (r ++ [b])
    (Nat.min (Nat.min (above + (if decide (a = b) then 0 else 1)) (beside + 1)) (before + 1)).
Proof.
  intros [Ha Hla] [Hs Hls] [Hb Hlb]. split.
  - assert (H1 : alignment (l ++ [a]) (r ++ [b]) (above + (if decide (a = b) then 0 else 1))).
    { apply alignment_app; [done|]. case_decide; subst; repeat constructor. }
    assert (H2 : alignment (l ++ [a]) (r ++ [b]) (beside + 1)).
    { rewrite <- (app_nil_r (r ++ [b])). apply alignment_app; [done|]. repeat constructor. }
    assert (H3 : alignment (l ++ [a]) (r ++ [b]) (before + 1)).
    { rewrite <- (app_nil_r (l ++ [a])). apply alignment_app; [done|]. repeat constructor. }
    apply (Nat.min_case _ _ (alignment _ _)); [apply (Nat.min_case _ _ (alignment _ _))|]; done.
  - intros n [[-> Hn]|(m & -> & [Hm|[Hm|Hm]])]%alignment_last.
    + rewrite decide_True by done. apply Hla in Hn. lia.
    + apply Hla in Hm. case_decide; lia.
    + apply Hls in Hm. lia.
    + apply Hlb in Hm. lia.
Qed.

(** A vector that holds the distances of [l] to the first [n] prefixes of [r]. *)
Definition row_upto (l r : list Z) (n : nat) (v : list nat) : Prop :=
  length v = S (length r) /\ forall j, j < n -> exists d, v !! j = Some d /\ least l (take j r) d.

Lemma row_insert l r n v d :
  row_upto l r n v -> n <= length r -> least l (take n r) d -> row_upto l r (S n) (<[n := d]> v).
Proof.
  intros [Hl Hv] Hn Hd. split; [by rewrite length_insert|]. intros j Hj.
  destruct (decide (j = n)) as [->|Hne].
  - exists d. rewrite list_lookup_insert_eq by lia. done.
  - rewrite list_lookup_insert_ne by done. apply Hv. lia.
Qed.

Lemma distance_row_spec l a done_ rest previous current :
  let r := done_ ++ rest in
  row_upto l r (S (length r)) previous -> row_upto (l ++ [a]) r (S (length done_)) current ->
  exists v, distance_row a rest (length done_) previous current = Ret v /\ row_upto (l ++ [a]) r (S (length r)) v.
Proof.
  revert done_ current. induction rest as [|b rest IH]; intros done_ current r Hp Hc; cbn [distance_row].
  - exists current. split; [done|]. subst r. by rewrite app_nil_r in *.
  - assert (Hlen : length r = length done_ + S (length rest)) by (subst r; by rewrite length_app).
    assert (Htake : take (length done_) r = done_) by (subst r; by rewrite take_app_length).
    assert (Hnext : take (S (length done_)) r = done_ ++ [b]).
    { subst r. rewrite cons_middle, app_assoc. rewrite take_app_le by (rewrite length_app; cbn; lia).
      apply take_ge. rewrite length_app. cbn. lia. }
    destruct (proj2 Hp (length done_) ltac:(lia)) as (above & Ea & La).
    destruct (proj2 Hp (S (length done_)) ltac:(lia)) as (beside & Eb & Lb).
    destruct (proj2 Hc (length done_) ltac:(lia)) as (before & Ec & Lc).
    rewrite (index_Ret _ _ _ Ea), (index_Ret _ _ _ Eb), (index_Ret _ _ _ Ec). cbn [obind].
    unfold set_index. rewrite decide_True by (rewrite (proj1 Hc); lia). cbn [obind].
    rewrite Htake in La, Lc. rewrite Hnext in Lb.
    pose proof (least_snoc _ _ _ _ _ _ _ La Lb Lc) as Ld. rewrite <- Hnext in Ld.
    pose proof (row_insert _ _ _ _ _ Hc ltac:(lia) Ld) as Hc'.
    assert (Hsnoc : length (done_ ++ [b]) = S (length done_)) by (rewrite length_app; cbn; lia).
    specialize (IH (done_ ++ [b])). cbn zeta in IH. rewrite <- app_assoc, Hsnoc in IH. by apply IH.
Qed.

Lemma distance_rows_spec l rest r previous current :
  row_upto l r (S (length r)) previous -> length current = S (length r) ->
  exists v, distance_rows rest r (length l) previous current = Ret v /\ row_upto (l ++ rest) r (S (length r)) v.
Proof.
  revert l previous current. induction rest as [|a rest IH]; intros l previous current Hp Hc; cbn [distance_rows].
  - exists previous. by rewrite app_nil_r.
  - unfold set_index at 1. rewrite decide_True by lia. cbn [obind].
    destruct (distance_row_spec l a [] r previous (<[0 := length l + 1]> current)) as (v & Ev & Hv); [done| |].
    { apply row_insert; [|lia|]; [split; [done|lia]|]. rewrite take_0.
      replace (length l + 1) with (length (l ++ [a])) by (rewrite length_app; cbn; lia). apply least_nil_r. }
    cbn [length] in Ev. rewrite Ev. cbn [obind].
    destruct (IH (l ++ [a]) v previous Hv (proj1 Hp)) as (w & Ew & Hw).
    rewrite length_app, Nat.add_1_r in Ew. exists w. rewrite <- app_assoc in Hw. done.
Qed.

(** The distance never reads out of range, and is the least number of edits. *)
Lemma distance_least l r : exists d, distance l r = Ret d /\ least l r d.
Proof.
  unfold distance. rewrite Nat.add_1_r.
  destruct (distance_rows_spec [] l r (seq 0 (S (length r))) (repeat 0 (S (length r)))) as (v & Ev & Hl & Hv).
  - split; [by rewrite length_seq|]. intros j Hj. exists j. split; [by apply lookup_seq|].
    rewrite <- (length_take_le r j) at 2 by lia. apply least_nil_l.
  - by rewrite repeat_length.
  - cbn [length] in Ev. rewrite Ev. cbn [obind]. destruct (Hv (length r)) as (d & Ed & Hd); [lia|].
    exists d. split; [by apply index_Ret|]. rewrite take_ge in Hd by lia. done.
Qed.

(** * One schema for both carriers *)

(** The item a JSON value would be written as. *)
Fixpoint item_of (v : Value) : Item :=
  match v with
  | JString s => TString s
  | JBool b => TBool b
  | JArray items => TArray (map item_of items)
  | JObject fields => TTable true (map (fun e => (e.1, item_of e.2)) fields)
  | JNull | JNumber _ => TOther
  end.
Definition fields_of (fields : Object) : Fields := map (fun e => (e.1, item_of e.2)) fields.

Lemma get_fields_of key fields : get key (fields_of fields) = item_of <$> get key fields.
Proof. induction fields as [|[k v] fields IH]; cbn; [done|]. by case_decide. Qed.

Lemma fields_of_keys fields : (fields_of fields).*1 = fields.*1.
Proof. unfold fields_of. rewrite <- list_fmap_compose. by apply list_fmap_ext. Qed.

Lemma as_str_item_of v : as_str (item_of v) = json_str v.
Proof. by destruct v. Qed.

Lemma as_array_item_of v : as_array (item_of v) = map item_of <$> json_array v.
Proof. by destruct v. Qed.

Lemma as_inline_item_of v : as_inline_table (item_of v) = fields_of <$> json_object v.
Proof. by destruct v. Qed.

Lemma get_str_fields_of key fields : get key (fields_of fields) ≫= as_str = get key fields ≫= json_str.
Proof. rewrite get_fields_of. destruct (get key fields); cbn; [apply as_str_item_of|done]. Qed.

Lemma try_map_compose {A B C E} (f : B -> result C E) (g : A -> B) l : try_map f (map g l) = try_map (fun x => f (g x)) l.
Proof. induction l as [|x l IH]; cbn; [done|]. by rewrite IH. Qed.

Lemma try_map_ext {A B E} (f g : A -> result B E) l : (forall x, f x = g x) -> try_map f l = try_map g l.
Proof. intros Hfg. induction l as [|x l IH]; cbn; [done|]. by rewrite Hfg, IH. Qed.

Lemma wire_names_agree items key issue :
  try_map (fun entry => ok_or (as_str entry) (schema_error key issue)) (map item_of items) = wire_name_array items key issue.
Proof. rewrite try_map_compose. apply try_map_ext. intros v. by rewrite as_str_item_of. Qed.

Lemma wire_text_agrees fields field key issue : text_or (fields_of fields) field key issue = wire_text fields field key issue.
Proof. unfold text_or, wire_text. by rewrite get_str_fields_of. Qed.

Lemma wire_mode_agrees fields key : toml_mode (fields_of fields) key = wire_mode fields key.
Proof. unfold toml_mode, wire_mode. by rewrite get_str_fields_of. Qed.

Lemma wire_model_agrees fields key : wire_model fields key = model_assign (TTable true (fields_of fields)) key.
Proof.
  unfold wire_model, model_assign. cbn [as_table_like ok_or rbind]. rewrite wire_mode_agrees.
  destruct (wire_mode fields key) as [mode|]; cbn [rbind]; [|done]. case_decide; [done|]. case_decide.
  - rewrite get_fields_of. destruct (get "pool" fields) as [v|]; cbn [fmap option_fmap option_map]; [|done].
    unfold name_array. rewrite as_array_item_of. destruct (json_array v) as [items|]; cbn [fmap option_fmap option_map ok_or rbind]; [|done].
    by rewrite wire_names_agree.
  - by rewrite !wire_text_agrees.
Qed.

Lemma wire_effort_agrees fields key : wire_effort fields key = effort_assign (TTable true (fields_of fields)) key.
Proof.
  unfold wire_effort, effort_assign. cbn [as_table_like ok_or rbind]. by rewrite wire_mode_agrees, wire_text_agrees.
Qed.

Lemma wire_chain_entry_agrees key v : wire_chain_entry key v = chain_entry key (item_of v).
Proof.
  unfold wire_chain_entry, chain_entry. rewrite as_inline_item_of. destruct (json_object v) as [fields|]; cbn; [|done].
  rewrite fields_of_keys, !wire_text_agrees, get_fields_of. destruct (known_fields _ _ _); cbn; [|done].
  destruct (get "mode" fields) as [mode|]; cbn; [|done]. by rewrite as_str_item_of.
Qed.

Lemma wire_fallback_agrees fields key : wire_fallback fields key = fallback_assign (TTable true (fields_of fields)) key.
Proof.
  unfold wire_fallback, fallback_assign. cbn [as_table_like ok_or rbind]. rewrite wire_mode_agrees.
  destruct (wire_mode fields key) as [mode|]; cbn [rbind]; [|done]. case_decide; [|done].
  rewrite get_fields_of. destruct (get "chain" fields) as [v|]; cbn [fmap option_fmap option_map]; [|done].
  rewrite as_array_item_of. destruct (json_array v) as [items|]; cbn [fmap option_fmap option_map ok_or rbind]; [|done].
  rewrite try_map_compose. erewrite try_map_ext; [done|]. intros x. by rewrite wire_chain_entry_agrees.
Qed.

(** * Reading back an assignment *)

Lemma name_array_names names key e1 e2 : name_array (TArray (map TString names)) key e1 e2 = Ok names.
Proof. unfold name_array. cbn. by apply try_map_map. Qed.

Lemma model_assign_item model key : model_assign (model_item model) key = Ok model.
Proof.
  destruct model as [|[names|]|[]]; [done| |done..].
  change (rbind (fun names => Ok (AutoModel (Some names)))
    (name_array (TArray (map TString names)) (key +:+ ".pool") PoolNotArray PoolEntryNotString) = Ok (AutoModel (Some names))).
  by rewrite name_array_names.
Qed.

Lemma effort_assign_item effort key : effort_assign (effort_item effort) key = Ok effort.
Proof. by destruct effort as [| |[]]. Qed.

Lemma chain_entry_item key fixed : chain_entry key (model_item (Fixed fixed)) = Ok fixed.
Proof. by destruct fixed. Qed.

Lemma fallback_assign_item fallback key : fallback_assign (fallback_item fallback) key = Ok fallback.
Proof.
  destruct fallback as [chain| |]; [|done..].
  change (rbind (fun chain => Ok (AutoFallback chain))
    (try_map (chain_entry key) (map (fun fixed => model_item (Fixed fixed)) chain)) = Ok (AutoFallback chain)).
  by rewrite (try_map_map _ (fun fixed => model_item (Fixed fixed)) _ (chain_entry_item key)).
Qed.

(** An assignment is read from the entries of its table alone. *)
Lemma model_assign_get inline inline' t t' key :
  (forall k, get k t' = get k t) -> model_assign (TTable inline' t') key = model_assign (TTable inline t) key.
Proof. intros Hg. unfold model_assign, toml_mode, text_or. cbn [as_table_like ok_or rbind]. by rewrite !Hg. Qed.

Lemma effort_assign_get inline inline' t t' key :
  (forall k, get k t' = get k t) -> effort_assign (TTable inline' t') key = effort_assign (TTable inline t) key.
Proof. intros Hg. unfold effort_assign, toml_mode, text_or. cbn [as_table_like ok_or rbind]. by rewrite !Hg. Qed.

Lemma fallback_assign_get inline inline' t t' key :
  (forall k, get k t' = get k t) -> fallback_assign (TTable inline' t') key = fallback_assign (TTable inline t) key.
Proof. intros Hg. unfold fallback_assign, toml_mode. cbn [as_table_like ok_or rbind]. by rewrite !Hg. Qed.

(** * Addresses *)

Definition no_quote : string -> bool := all_chars (fun c => negb (Ascii.eqb c DQUOTE)).
Definition plain : string -> bool := all_chars (fun c => negb (Ascii.eqb c DQUOTE) && negb (Ascii.eqb c DOT_CHAR)).

(** The ways to spell a segment in an address. *)
Inductive spelled : string -> string -> Prop :=
  | spelled_plain s : plain s = true -> spelled s s
  | spelled_quoted s : no_quote s = true -> spelled (quote s) s.

Definition prepend (s : string) (segments : list string) : list string :=
  match segments with [] => [s] | x :: xs => (s +:+ x) :: xs end.

Lemma cons_first_prepend c s segments : cons_first c (prepend s segments) = prepend (String c s) segments.
Proof. by destruct segments. Qed.

Lemma raw_segments_not_nil b s : raw_segments b s <> Some [].
Proof.
  revert b. induction s as [|c s IH]; intros b; cbn; [by destruct b|].
  repeat case_match; intros (l & _ & Hl)%fmap_Some; try done; by destruct l.
Qed.

Lemma raw_segments_inside s rest :
  no_quote s = true -> raw_segments true (s +:+ rest) = prepend s <$> raw_segments true rest.
Proof.
  induction s as [|c s IH]; autorewrite with text; cbn [no_quote all_chars raw_segments]; intros Hs.
  - destruct (raw_segments true rest) as [[]|] eqn:E; [by apply raw_segments_not_nil in E|done..].
  - apply andb_true_iff in Hs as [Hc Hs]. apply negb_true_iff in Hc. rewrite Hc, andb_false_r, IH by done.
    rewrite <- option_fmap_compose. apply option_fmap_ext. intros l. apply cons_first_prepend.
Qed.

(** A word in front of the rest of an address. *)
Definition word (w : string) : Prop := forall rest, raw_segments false (w +:+ rest) = prepend w <$> raw_segments false rest.

Lemma spelled_word w s : spelled w s -> word w.
Proof.
  destruct 1 as [s Hs|s Hs]; intros rest.
  - induction s as [|c s IH]; autorewrite with text; cbn [raw_segments].
    + destruct (raw_segments false rest) as [[]|] eqn:E; [by apply raw_segments_not_nil in E|done..].
    + cbn in Hs. apply andb_true_iff in Hs as [[Hq Hd]%andb_true_iff Hs]. apply negb_true_iff in Hq, Hd.
      rewrite Hq, Hd. cbn. rewrite IH by done. rewrite <- option_fmap_compose. apply option_fmap_ext. intros l.
      apply cons_first_prepend.
  - unfold quote. autorewrite with text. cbn [raw_segments]. rewrite Ascii.eqb_refl. cbn [negb].
    rewrite <- string_app_assoc, raw_segments_inside by done. autorewrite with text. cbn [raw_segments].
    rewrite Ascii.eqb_refl. cbn [negb]. rewrite <- !option_fmap_compose.
    destruct (raw_segments false rest) as [[|x xs]|] eqn:E; [by apply raw_segments_not_nil in E| |done].
    unfold compose. cbn [fmap option_fmap option_map cons_first prepend].
    by rewrite string_app_cons, <- string_app_assoc.
Qed.

Lemma raw_segments_join ws :
  ws <> [] -> Forall word ws -> raw_segments false (String.concat "." ws) = Some ws.
Proof.
  intros Hne Hw. induction Hw as [|w ws Hw Hws IH]; [done|]. destruct ws as [|w' ws].
  - cbn [String.concat]. rewrite <- (string_app_nil_r w) at 1. rewrite Hw. cbn. by rewrite string_app_nil_r.
  - change (String.concat "." (w :: w' :: ws)) with (w +:+ "." +:+ String.concat "." (w' :: ws)).
    rewrite Hw. autorewrite with text. cbn [raw_segments].
    change (Ascii.eqb "." DQUOTE) with false. change (Ascii.eqb "." DOT_CHAR) with true. cbn [andb negb].
    rewrite IH by done. cbn. by rewrite string_app_nil_r.
Qed.

Lemma strip_last_snoc c s : strip_last c (s +:+ String c EmptyString) = Some s.
Proof.
  induction s as [|d s IH]; autorewrite with text; cbn; [by rewrite Ascii.eqb_refl|]. rewrite IH.
  by destruct s.
Qed.

Lemma unquote_spelled w s : spelled w s -> unquote w = s.
Proof.
  destruct 1 as [s Hs|s Hs].
  - destruct s as [|c s]; [done|]. cbn in *. by destruct (Ascii.eqb c DQUOTE).
  - unfold quote, unquote. rewrite Ascii.eqb_refl. by rewrite strip_last_snoc.
Qed.

(** An address spelled from segments is cut into them. *)
Lemma key_segments_spelled ws ss :
  ws <> [] -> Forall2 spelled ws ss -> key_segments (String.concat "." ws) = Some ss.
Proof.
  intros Hne Hs. unfold key_segments. rewrite raw_segments_join; [|done|].
  - cbn. f_equal. clear Hne. induction Hs as [|w s ws ss Hw _ IH]; cbn; [done|]. by rewrite IH, (unquote_spelled _ _ Hw).
  - clear Hne. induction Hs as [|w s ws ss Hw _ IH]; constructor; [by eapply spelled_word|done].
Qed.
