(* ===== verification/EditLaws.v ===== *)
(** What an edit does to a document, level by level: the entry it writes, the table
    that holds it, the section above, the root; and what the readers of [Schema] make
    of each. *)

From S2P Require Import Prelude.
From S2P Require Import Contracts.
From S2P Require Import Text.
From S2P Require Import Requests.
From S2P Require Import Notifications.
From S2P Require Import Store.
From S2P Require Import Identity.
From S2P Require Import Routes.
From S2P Require Import Providers.
From S2P Require Import Toml.
From S2P Require Import Schema.
From S2P Require Import SchemaThms.
From S2P Require Import Edits.
From S2P Require Import EditsThms.

(** * Documents that hold a key once *)

Fixpoint tidy (item : Item) : Prop :=
  match item with
  | TTable _ fields => NoDup fields.*1 /\ foldr (fun e P => tidy e.2 /\ P) True fields
  | _ => True
  end.
Definition tidy_fields (fields : Fields) : Prop := NoDup fields.*1 /\ forall e, e ∈ fields -> tidy e.2.

Lemma tidy_table inline fields : tidy (TTable inline fields) <-> tidy_fields fields.
Proof.
  unfold tidy_fields. cbn. assert (Hf : foldr (fun e P => tidy e.2 /\ P) True fields <-> forall e, e ∈ fields -> tidy e.2); [|naive_solver].
  induction fields as [|e fields IH]; cbn; [set_solver|]. rewrite IH. setoid_rewrite elem_of_cons. naive_solver.
Qed.

Lemma tidy_nil : tidy_fields [].
Proof. split; [constructor|set_solver]. Qed.

Lemma tidy_get fields key item : tidy_fields fields -> get key fields = Some item -> tidy item.
Proof. intros [_ Ht] Hg%get_Some_elem. by apply (Ht _ Hg). Qed.

Lemma tidy_put fields key item : tidy_fields fields -> tidy item -> tidy_fields (put key item fields).
Proof. intros [Hn Ht] Hi. split; [by apply put_nodup|]. intros e [->|He]%put_elem; [done|by apply Ht]. Qed.

Lemma tidy_del fields key : tidy_fields fields -> tidy_fields (del key fields).
Proof. intros [Hn Ht]. split; [by apply del_nodup|]. intros e [_ He]%list_elem_of_filter. by apply Ht. Qed.

#[export] Hint Resolve tidy_nil tidy_put tidy_del tidy_get : toml.
#[export] Hint Extern 1 (tidy (TString _)) => exact I : toml.
#[export] Hint Extern 1 (tidy (TBool _)) => exact I : toml.
#[export] Hint Extern 1 (tidy (TArray _)) => exact I : toml.

(** * Writing one entry *)

Definition is_table (item : Item) : bool := match item with TTable _ _ => true | _ => false end.

(** The items an edit writes: a value, or an inline table of values. *)
Definition flat (item : Item) : Prop :=
  match item with
  | TTable inline new => inline = true /\ NoDup new.*1 /\ forall e, e ∈ new -> is_table e.2 = false
  | _ => True
  end.

(** A table written over another one may keep its form and the order of its keys. *)
Definition agrees (item item' : Item) : Prop :=
  item' = item \/
  exists inline inline' new t', item = TTable inline new /\ item' = TTable inline' t' /\ forall k, get k t' = get k new.

Lemma agrees_model item item' key : agrees item item' -> model_assign item' key = model_assign item key.
Proof. intros [->|(i & i' & new & t' & -> & -> & Hg)]; [done|]. by apply model_assign_get. Qed.
Lemma agrees_effort item item' key : agrees item item' -> effort_assign item' key = effort_assign item key.
Proof. intros [->|(i & i' & new & t' & -> & -> & Hg)]; [done|]. by apply effort_assign_get. Qed.
Lemma agrees_fallback item item' key : agrees item item' -> fallback_assign item' key = fallback_assign item key.
Proof. intros [->|(i & i' & new & t' & -> & -> & Hg)]; [done|]. by apply fallback_assign_get. Qed.
Lemma agrees_value item item' : is_table item = false -> agrees item item' -> item' = item.
Proof. intros Hi [->|(i & i' & new & t' & -> & _)]; done. Qed.

Lemma set_field_value table field item : is_table item = false -> set_field table field item = put field item table.
Proof. intros Hi. destruct item; try done; cbn; by repeat case_match. Qed.

(** The loop over the entries of a new assignment. *)
Fixpoint put_all (target new : Fields) : Fields :=
  match new with [] => target | (key, value) :: new => put_all (put key value target) new end.

Lemma set_field_table table field new :
  flat (TTable true new) ->
  set_field table field (TTable true new) =
    match get field table with
    | Some (TTable inline target) =>
        put field (TTable inline (put_all (filter (fun e => contains_key e.1 new = true) target) new)) table
    | _ => put field (TTable true new) table
    end.
Proof.
  intros (_ & _ & Hflat). cbn [set_field]. destruct (get field table) as [[]|]; try done. do 2 f_equal.
  set (kept := filter _ _). clearbody kept. revert kept. induction new as [|[k v] new IH]; intros kept; cbn; [done|].
  rewrite set_field_value by (apply (Hflat (k, v)); by left). apply IH. intros e He. apply Hflat. by right.
Qed.

Lemma get_put_all k target new :
  NoDup new.*1 -> get k (put_all target new) = match get k new with Some v => Some v | None => get k target end.
Proof.
  revert target. induction new as [|[k' v] new IH]; intros target Hn; cbn; [done|].
  rewrite fmap_cons, NoDup_cons in Hn. destruct Hn as [Hk Hn]. rewrite IH by done. rewrite get_put. case_decide as E; [|done].
  subst k'. apply get_None_keys in Hk. cbn in Hk. by rewrite Hk.
Qed.

Lemma get_filter k (P : string -> bool) (t : Fields) :
  get k (filter (fun e => P e.1 = true) t) = if P k then get k t else None.
Proof.
  induction t as [|[k' v] t IH]; [by destruct (P k)|]. rewrite filter_cons. cbn. case_decide as Hp; cbn.
  - case_decide as E; [subst; by rewrite Hp|done].
  - rewrite IH. case_decide as E; [subst; by destruct (P k)|done].
Qed.

Lemma put_all_tidy target new : tidy_fields target -> (forall e, e ∈ new -> is_table e.2 = false) -> tidy_fields (put_all target new).
Proof.
  revert target. induction new as [|[k v] new IH]; intros target Ht Hnew; cbn; [done|].
  apply IH; [|intros; apply Hnew; by right]. apply tidy_put; [done|]. specialize (Hnew (k, v)). cbn in Hnew.
  destruct v; try exact I. exfalso. by discriminate Hnew; left.
Qed.

(** An edit puts one entry, which agrees with what it was given. *)
Lemma set_field_spec table field item :
  flat item -> tidy_fields table ->
  exists item', set_field table field item = put field item' table /\ tidy item' /\ agrees item item'.
Proof.
  intros Hflat Ht. destruct (is_table item) eqn:Hi.
  - destruct item as [| | | |inline new|]; try done. pose proof Hflat as (-> & Hn & Hnew).
    assert (Hitem : tidy (TTable true new)).
    { apply tidy_table. split; [done|]. intros [k v] He. specialize (Hnew _ He). by destruct v. }
    rewrite set_field_table by done. destruct (get field table) as [[| | | |i target|]|] eqn:Hg;
      try (by exists (TTable true new); split_and!; [|done|left]).
    eexists. split_and!; [done| |].
    + apply tidy_table, put_all_tidy; [|done]. apply (tidy_get _ _ _ Ht) in Hg. apply tidy_table in Hg as [Hnt Htt].
      split; [|intros e [_ He]%list_elem_of_filter; by apply Htt].
      eapply sublist_NoDup; [exact Hnt|]. apply fmap_sublist, sublist_filter.
    + right. eexists _, _, _, _. split_and!; [done..|]. intros k. rewrite get_put_all by done.
      destruct (get k new) eqn:Hk; [done|]. rewrite (get_filter k (fun k => contains_key k new)). unfold contains_key. by rewrite Hk.
  - exists item. rewrite set_field_value by done. split_and!; [done| |by left]. by destruct item.
Qed.

Lemma set_item_flat key target value item : set_item key target value = Ok item -> flat item.
Proof.
  assert (Hv : forall l, forallb (fun e : string * Item => negb (is_table e.2)) l = true -> forall e, e ∈ l -> is_table e.2 = false).
  { intros l Hl e He. apply list_elem_of_In in He. rewrite forallb_forall in Hl. specialize (Hl e He). by destruct (is_table e.2). }
  intros H. destruct value, target; try discriminate H; injection H as <-; try done;
    (split; [done|split; [|apply Hv; by repeat case_match]]);
    repeat case_match; apply (bool_decide_unpack _); reflexivity.
Qed.

(** * Reading after a write *)

Lemma reads_put_same {A} (read : Item -> answer A) key item fields unset : reads read (put key item fields) key unset = read item.
Proof. unfold reads. by rewrite get_put_same. Qed.

Lemma reads_put_other {A} (read : Item -> answer A) key key' item fields unset :
  key <> key' -> reads read (put key item fields) key' unset = reads read fields key' unset.
Proof. intros. unfold reads. by rewrite get_put_other. Qed.

Lemma reads_del_same {A} (read : Item -> answer A) key fields unset : reads read (del key fields) key unset = Ok unset.
Proof. unfold reads. rewrite get_del. by rewrite decide_True. Qed.

Lemma reads_del_other {A} (read : Item -> answer A) key key' fields unset :
  key <> key' -> reads read (del key fields) key' unset = reads read fields key' unset.
Proof. intros. unfold reads. rewrite get_del. by rewrite decide_False. Qed.

Lemma known_put {A} (known : list string) key (a : A) (t : list (string * A)) :
  key ∈ known -> (forall k, k ∈ t.*1 -> k ∈ known) -> forall k, k ∈ (put key a t).*1 -> k ∈ known.
Proof. intros Hk Ht k [->|H]%put_keys; [done|by apply Ht]. Qed.

Lemma known_del {A} (known : list string) key (t : list (string * A)) :
  (forall k, k ∈ t.*1 -> k ∈ known) -> forall k, k ∈ (del key t).*1 -> k ∈ known.
Proof. intros Ht k Hk. apply Ht. eapply elem_of_submseteq; [exact Hk|]. apply sublist_submseteq, fmap_sublist, del_sublist. Qed.

(** The views of a section after a write: the component of the key alone. *)
Ltac put_component := rewrite ?reads_put_same, ?reads_put_other by discriminate; try done.
Ltac del_component := rewrite ?reads_del_same, ?reads_del_other by discriminate; try done.
Ltac is_known := first [apply known_put; [apply (bool_decide_unpack _); exact I|done] | by apply known_del].

(** The table under a key, empty where there is none. *)
Lemma child_table {A} (label key : string) (read : Fields -> answer A) fields unset x inline :
  reads (in_table label read) fields key unset = Ok x -> read [] = Ok unset -> tidy_fields fields ->
  exists i t, default (TTable inline []) (get key fields) = TTable i t /\ read t = Ok x /\ tidy_fields t.
Proof.
  unfold reads, in_table, table_like. intros Hr Hnil Ht. destruct (get key fields) as [item|] eqn:Hg; cbn.
  - apply rbind_Ok in Hr as (t & Hitem & Hr). apply ok_or_Ok in Hitem. destruct item as [| | | |i t'|]; try done.
    injection Hitem as ->. exists i, t. split_and!; [done..|]. apply (tidy_table i). by eapply tidy_get.
  - exists inline, []. split_and!; [done|by rewrite Hnil|apply tidy_nil].
Qed.

Lemma table_under {A} (label key : string) (read : Fields -> answer A) fields unset x item :
  reads (in_table label read) fields key unset = Ok x -> get key fields = Some item -> tidy_fields fields ->
  exists i t, item = TTable i t /\ read t = Ok x /\ tidy_fields t.
Proof.
  unfold reads, in_table, table_like. intros Hr Hg Ht. rewrite Hg in Hr. apply rbind_Ok in Hr as (t & Hitem & Hr).
  apply ok_or_Ok in Hitem. destruct item as [| | | |i t'|]; try done. injection Hitem as ->.
  exists i, t. split_and!; [done..|]. apply (tidy_table i). by eapply tidy_get.
Qed.

(** ** Rows of a table *)

Section Rows.
Context {V : Type}.
Variable read : string -> Item -> answer V.

Lemma read_entries_determined fields m :
  NoDup fields.*1 -> (forall e, e ∈ fields -> is_ok (read e.1 e.2) = true) ->
  (forall name, m !! name = match get name fields with
                          | Some item => match read name item with Ok v => Some v | Err _ => None end
                          | None => None
                          end) ->
  read_entries read fields = Ok m.
Proof.
  intros Hn Hok Hm. assert (Hr : is_ok (read_entries read fields) = true).
  { rewrite read_entries_ok. apply forallb_forall. intros e He%list_elem_of_In. by apply Hok. }
  apply is_ok_Ok in Hr as [m' Hm']. rewrite Hm'. f_equal. apply map_eq. intros name. rewrite Hm.
  pose proof (read_entries_lookup read fields m' name Hn Hm') as Hl.
  destruct (get name fields) as [item|]; [|done]. by destruct Hl as (v & -> & ->).
Qed.

Lemma read_entries_each fields m e : read_entries read fields = Ok m -> e ∈ fields -> is_ok (read e.1 e.2) = true.
Proof.
  intros Hr He. assert (Hok : is_ok (read_entries read fields) = true) by by rewrite Hr.
  rewrite read_entries_ok in Hok. rewrite forallb_forall in Hok. apply Hok. by apply list_elem_of_In.
Qed.

Lemma read_entries_put fields m name item v :
  NoDup fields.*1 -> read_entries read fields = Ok m -> read name item = Ok v ->
  read_entries read (put name item fields) = Ok (<[name := v]> m).
Proof.
  intros Hn Hr Hv. apply read_entries_determined; [by apply put_nodup| |].
  - intros e [->|He]%put_elem; [cbn; by rewrite Hv|by eapply read_entries_each].
  - intros k. rewrite get_put. case_decide as E.
    + subst. cbn. by rewrite lookup_insert_eq, Hv.
    + rewrite lookup_insert_ne by done. pose proof (read_entries_lookup read fields m k Hn Hr) as Hl.
      destruct (get k fields) as [i|]; [|done]. by destruct Hl as (w & -> & ->).
Qed.

End Rows.

(** ** A purpose row *)

Ltac purpose_put :=
  let Hn := fresh in let Hv := fresh in let Hi := fresh in intros [Hn _] Hv Hi;
  rewrite purpose_view_iff in Hv by done; apply purpose_view_iff; [by apply put_nodup|]; destruct Hv; constructor;
  [is_known|put_component; unfold some_of; by rewrite Hi..].
Ltac purpose_del :=
  let Hn := fresh in let Hv := fresh in intros [Hn _] Hv;
  rewrite purpose_view_iff in Hv by done; apply purpose_view_iff; [by apply del_nodup|]; destruct Hv; constructor;
  [is_known|del_component..].

Section PurposeRow.
Variables (key : string) (t : Fields) (def : PurposeDef).
Abbreviation row t := (try_fold (purpose_field key) no_purpose t).

Lemma purpose_put_model item m :
  tidy_fields t -> row t = Ok def -> model_assign item (key +:+ ".model") = Ok m ->
  row (put "model" item t) = Ok (with_model (Some m) def).
Proof. purpose_put. Qed.
Lemma purpose_put_effort item m :
  tidy_fields t -> row t = Ok def -> effort_assign item (key +:+ ".effort") = Ok m ->
  row (put "effort" item t) = Ok (with_effort (Some m) def).
Proof. purpose_put. Qed.
Lemma purpose_put_fallback item m :
  tidy_fields t -> row t = Ok def -> fallback_assign item (key +:+ ".fallback") = Ok m ->
  row (put "fallback" item t) = Ok (with_fallback (Some m) def).
Proof. purpose_put. Qed.
Lemma purpose_put_eligible item m :
  tidy_fields t -> row t = Ok def ->
  name_array item (key +:+ ".eligible") EligibleNotArray EligibleEntryNotString = Ok m ->
  row (put "eligible" item t) = Ok (with_eligible (Some m) def).
Proof. purpose_put. Qed.

Lemma purpose_del_model : tidy_fields t -> row t = Ok def -> row (del "model" t) = Ok (with_model None def).
Proof. purpose_del. Qed.
Lemma purpose_del_effort : tidy_fields t -> row t = Ok def -> row (del "effort" t) = Ok (with_effort None def).
Proof. purpose_del. Qed.
Lemma purpose_del_fallback : tidy_fields t -> row t = Ok def -> row (del "fallback" t) = Ok (with_fallback None def).
Proof. purpose_del. Qed.
Lemma purpose_del_eligible : tidy_fields t -> row t = Ok def -> row (del "eligible" t) = Ok (with_eligible None def).
Proof. purpose_del. Qed.
End PurposeRow.

(** ** The models section *)

Ltac models_put :=
  let Hn := fresh in let Hv := fresh in let Hi := fresh in intros [Hn _] Hv Hi;
  rewrite models_view_iff in Hv by done; apply models_view_iff; [by apply put_nodup|]; destruct Hv; constructor;
  [is_known|put_component; unfold some_of; by rewrite Hi..].

Section ModelsTable.
Variables (t : Fields) (models : Models).

Lemma models_put_defaults item d :
  tidy_fields t -> models_table t = Ok models -> read_defaults item = Ok d ->
  models_table (put "defaults" item t) = Ok (mkModels (Some d) (md_groups models) (md_purposes models)).
Proof. models_put. Qed.
Lemma models_put_groups item g :
  tidy_fields t -> models_table t = Ok models -> in_table "models.groups" (read_entries read_group) item = Ok g ->
  models_table (put "groups" item t) = Ok (mkModels (md_defaults models) g (md_purposes models)).
Proof. models_put. Qed.
Lemma models_put_purposes item p :
  tidy_fields t -> models_table t = Ok models -> in_table "models.purposes" (read_entries read_purpose) item = Ok p ->
  models_table (put "purposes" item t) = Ok (mkModels (md_defaults models) (md_groups models) p).
Proof. models_put. Qed.
End ModelsTable.

(** ** The root *)

Ltac root_put :=
  let Hi := fresh in intros Hi; match goal with Hv : root_view _ _ _ |- _ => destruct Hv end;
  constructor; cbn; [is_known|put_component..].

Section RootTable.
Variable os : TargetOs.
Variables (t : Fields) (s : Sections).
Hypothesis Hv : root_view os t s.

Definition s_workflow v := mkSections (sc_version s) v (sc_decisions s) (sc_context s) (sc_connections s) (sc_profiles s)
  (sc_models s) (sc_hooks s) (sc_mcp s).
Definition s_decisions v := mkSections (sc_version s) (sc_workflow s) v (sc_context s) (sc_connections s) (sc_profiles s)
  (sc_models s) (sc_hooks s) (sc_mcp s).
Definition s_context v := mkSections (sc_version s) (sc_workflow s) (sc_decisions s) v (sc_connections s) (sc_profiles s)
  (sc_models s) (sc_hooks s) (sc_mcp s).
Definition s_connections v := mkSections (sc_version s) (sc_workflow s) (sc_decisions s) (sc_context s) v (sc_profiles s)
  (sc_models s) (sc_hooks s) (sc_mcp s).
Definition s_profiles v := mkSections (sc_version s) (sc_workflow s) (sc_decisions s) (sc_context s) (sc_connections s) v
  (sc_models s) (sc_hooks s) (sc_mcp s).
Definition s_models v := mkSections (sc_version s) (sc_workflow s) (sc_decisions s) (sc_context s) (sc_connections s)
  (sc_profiles s) v (sc_hooks s) (sc_mcp s).

Lemma root_put_workflow item v : workflow_section item = Ok v -> root_view os (put "workflow" item t) (s_workflow v).
Proof using Hv. root_put. Qed.
Lemma root_put_decisions item v : decisions_section item = Ok v -> root_view os (put "decisions" item t) (s_decisions v).
Proof using Hv. root_put. Qed.
Lemma root_put_context item v : context_section item = Ok v -> root_view os (put "context" item t) (s_context v).
Proof using Hv. root_put. Qed.
Lemma root_put_connections item v :
  in_table "connections" (read_entries connection) item = Ok v -> root_view os (put "connections" item t) (s_connections v).
Proof using Hv. root_put. Qed.
Lemma root_put_profiles item v :
  in_table "profiles" (read_entries (profile os)) item = Ok v -> root_view os (put "profiles" item t) (s_profiles v).
Proof using Hv. root_put. Qed.
Lemma root_put_models item v :
  in_table "models" models_table item = Ok v -> root_view os (put "models" item t) (s_models v).
Proof using Hv. root_put. Qed.
End RootTable.

(** ** Sections of one field *)

Lemma one_key (key : string) (t : Fields) :
  NoDup t.*1 -> (forall k, k ∈ t.*1 -> k = key) -> t = [] \/ exists item, t = [(key, item)].
Proof.
  intros Hn Hk. destruct t as [|[k item] t]; [by left|]. right. assert (k = key) as -> by (apply Hk; by left). exists item.
  destruct t as [|[k' item'] t]; [done|]. exfalso. assert (k' = key) as -> by (apply Hk; right; by left).
  cbn in Hn. apply NoDup_cons in Hn as [Hn _]. apply Hn. by left.
Qed.

(** A section whose loop knows one key, after a write and after a removal. *)
Lemma one_field_put {S} (step : S -> string * Item -> answer S) key s0 s t item :
  NoDup t.*1 -> (forall s k i s', step s (k, i) = Ok s' -> k = key) -> try_fold step s0 t = Ok s ->
  put key item t = [(key, item)] /\ del key t = [].
Proof.
  intros Hn Hkey Hf.
  assert (Hk : forall k, k ∈ t.*1 -> k ∈ [key]).
  { eapply try_fold_known; [|exact Hf]. intros s1 k i s' Hs. apply list_elem_of_singleton. by eapply Hkey. }
  destruct (one_key key t Hn) as [->|[i ->]]; [intros k Hin; by apply list_elem_of_singleton, Hk|done|].
  split; [cbn; by rewrite decide_True|]. unfold del. by rewrite filter_cons_False by (cbn; naive_solver).
Qed.

Lemma workflow_one s k i s' : workflow_field s (k, i) = Ok s' -> k = "enabled".
Proof. unfold workflow_field. intros H. by case_decide. Qed.
Lemma decisions_one s k i s' : decisions_field s (k, i) = Ok s' -> k = "mode".
Proof. unfold decisions_field. intros H. by case_decide. Qed.
Lemma context_one s k i s' : context_field s (k, i) = Ok s' -> k = "auto_compact".
Proof. unfold context_field. intros H. by case_decide. Qed.
Lemma profile_one os pk s k i s' : profile_field os pk s (k, i) = Ok s' -> k = "credential_ref".
Proof. unfold profile_field. intros H. by case_decide. Qed.

(** ** Rows read field by field *)

Lemma read_defaults_iff inline t d :
  read_defaults (TTable inline t) = Ok d <->
  (forall k, k ∈ t.*1 -> k ∈ MODEL_SLOT_KEYS) /\
  exists im ie ifb, get "model" t = Some im /\ get "effort" t = Some ie /\ get "fallback" t = Some ifb /\
    model_assign im "models.defaults.model" = Ok (df_model d) /\ effort_assign ie "models.defaults.effort" = Ok (df_effort d) /\
    fallback_assign ifb "models.defaults.fallback" = Ok (df_fallback d).
Proof.
  unfold read_defaults, pick. cbn [table_like as_table_like ok_or rbind].
  repeat setoid_rewrite rbind_Ok. setoid_rewrite known_fields_pass. setoid_rewrite ok_or_Ok. split.
  - intros ([] & Hk & im & Him & m & Hm & ie & Hie & e & He & ifb & Hifb & f & Hf & [= <-]). split; [done|].
    by exists im, ie, ifb.
  - intros (Hk & im & ie & ifb & Him & Hie & Hifb & Hm & He & Hf). exists tt. split; [done|].
    exists im. split; [done|]. eexists. split; [done|]. exists ie. split; [done|]. eexists. split; [done|].
    exists ifb. split; [done|]. eexists. split; [done|]. by destruct d.
Qed.

Definition with_region (v : option string) (c : Connection) : Connection :=
  mkConnection (cx_kind c) (cx_endpoint c) (cx_credential_ref c) v (cx_profile c).
Definition with_profile (v : option string) (c : Connection) : Connection :=
  mkConnection (cx_kind c) (cx_endpoint c) (cx_credential_ref c) (cx_region c) v.

Lemma connection_iff name inline t c :
  let key := "connections." +:+ name in
  connection name (TTable inline t) = Ok c <->
  (forall k, k ∈ t.*1 -> k ∈ CONNECTION_KEYS) /\
  (exists raw, string_field t key "kind" = Ok (Some raw) /\ kind_of raw key = Ok (cx_kind c)) /\
  (string_field t key "endpoint" = Ok (Some (cx_endpoint c)) /\ endpoint_allowed (cx_endpoint c) = true) /\
  string_field t key "credential_ref" = Ok (cx_credential_ref c) /\ string_field t key "region" = Ok (cx_region c) /\
  string_field t key "profile" = Ok (cx_profile c).
Proof.
  intros key. unfold connection. cbn [table_like as_table_like ok_or rbind]. fold key.
  assert (Hkeys : forall u, try_fold (connection_field key) tt t.*1 = Ok u <-> forall k, k ∈ t.*1 -> k ∈ CONNECTION_KEYS).
  { intros u. rewrite checks_pass. unfold connection_field. split; intros H k Hk; specialize (H k Hk).
    - case_decide; [done|]. by case_decide.
    - by rewrite decide_True. }
  repeat setoid_rewrite rbind_Ok. setoid_rewrite ok_or_Ok. split.
  - intros (ko & Hko & kr & -> & kind & Hkind & eo & Heo & ep & -> & H).
    destruct (endpoint_allowed ep) eqn:He; cbn in H; [|done]. repeat setoid_rewrite rbind_Ok in H.
    destruct H as (cr & Hcr & re & Hre & pr & Hpr & u & Hu & [= <-]). pose proof (proj1 (Hkeys u) Hu). cbn. split_and!; try done. by exists kr.
  - intros (Hk & (raw & Hkr & Hkind) & (Hep & He) & Hcr & Hre & Hpr).
    eexists. split; [done|]. eexists. split; [done|]. eexists. split; [done|]. eexists. split; [done|]. eexists. split; [done|].
    rewrite He. cbn. repeat setoid_rewrite rbind_Ok. eexists. split; [done|]. eexists. split; [done|]. eexists. split; [done|].
    exists tt. split; [by apply Hkeys|]. by destruct c.
Qed.
