(* ===== verification/EditRefine.v ===== *)
(** What an edit means, as an update of the typed view, and that the edit of the
    document has that meaning: an accepted edit of an admitted document leaves an
    admitted document whose view is the updated view. *)

From S2P Require Import Prelude.
From S2P Require Import Contracts.
From S2P Require Import Text.
From S2P Require Import Requests.
From S2P Require Import Notifications.
From S2P Require Import Store.
From S2P Require Import Identity.
From S2P Require Import Routes.
From S2P Require Import Providers.
From S2P Require Import Toml.
From S2P Require Import Schema.
From S2P Require Import SchemaThms.
From S2P Require Import Edits.
From S2P Require Import EditsThms.
From S2P Require Import EditLaws.

(** * The meaning of an edit *)

Definition s_defaults (f : Defaults -> Defaults) (m : Models) : Models :=
  mkModels (f <$> md_defaults m) (md_groups m) (md_purposes m).
Definition s_group (name : string) (v : ModelAssign) (m : Models) : Models :=
  mkModels (md_defaults m) (<[name := v]> (md_groups m)) (md_purposes m).
(** A row an edit writes to is made where there is none. *)
Definition s_purpose (name : string) (f : PurposeDef -> PurposeDef) (m : Models) : Models :=
  mkModels (md_defaults m) (md_groups m) (<[name := f (default no_purpose (md_purposes m !! name))]> (md_purposes m)).

(** The sections after a value is set at a target. *)
Definition applied (target : EditTarget) (value : ConfigValue) (s : Sections) : Sections :=
  match target, value with
  | WorkflowEnabled, CBool b => s_workflow s (Some b)
  | DecisionsMode, CDecisionMode m => s_decisions s (Some m)
  | ContextAutoCompact, CBool b => s_context s (Some b)
  | DefaultsModel, CModel m => s_models s (s_defaults (fun d => mkDefaults m (df_effort d) (df_fallback d)) (sc_models s))
  | DefaultsEffort, CEffort e => s_models s (s_defaults (fun d => mkDefaults (df_model d) e (df_fallback d)) (sc_models s))
  | DefaultsFallback, CFallback f => s_models s (s_defaults (fun d => mkDefaults (df_model d) (df_effort d) f) (sc_models s))
  | GroupModel name, CModel m => s_models s (s_group name m (sc_models s))
  | PurposeModel name, CModel m => s_models s (s_purpose name (with_model (Some m)) (sc_models s))
  | PurposeEffort name, CEffort e => s_models s (s_purpose name (with_effort (Some e)) (sc_models s))
  | PurposeFallback name, CFallback f => s_models s (s_purpose name (with_fallback (Some f)) (sc_models s))
  | PurposeEligible name, CNames l => s_models s (s_purpose name (with_eligible (Some l)) (sc_models s))
  | ConnectionRegion name, CText t => s_connections s (alter (with_region (Some t)) name (sc_connections s))
  | ConnectionProfile name, CText t => s_connections s (alter (with_profile (Some t)) name (sc_connections s))
  | ProfileCredentialRef name, CText t => s_profiles s (<[name := mkProfile (Some t)]> (sc_profiles s))
  | _, _ => s
  end.

(** The sections after a target is reset. *)
Definition cleared (target : EditTarget) (s : Sections) : Sections :=
  let alter_purpose name f :=
    s_models s (mkModels (md_defaults (sc_models s)) (md_groups (sc_models s)) (alter f name (md_purposes (sc_models s)))) in
  match target with
  | WorkflowEnabled => s_workflow s None
  | DecisionsMode => s_decisions s None
  | ContextAutoCompact => s_context s None
  | PurposeModel name => alter_purpose name (with_model None)
  | PurposeEffort name => alter_purpose name (with_effort None)
  | PurposeFallback name => alter_purpose name (with_fallback None)
  | PurposeEligible name => alter_purpose name (with_eligible None)
  | ConnectionRegion name => s_connections s (alter (with_region None) name (sc_connections s))
  | ConnectionProfile name => s_connections s (alter (with_profile None) name (sc_connections s))
  | ProfileCredentialRef name => s_profiles s (alter (fun _ => mkProfile None) name (sc_profiles s))
  | DefaultsModel | DefaultsEffort | DefaultsFallback | GroupModel _ => s
  end.

(** * Writing at a path *)

Definition slot (path : list string) (field : string) (node : Item) : option Item :=
  node ← item_at path node; table ← as_table_like node; get field table.

Lemma ensure_cons segment path key edit node node' :
  ensure_table_like (segment :: path) key edit node = Ok node' ->
  exists i t child', node = TTable i t /\ node' = TTable i (put segment child' t) /\
    ensure_table_like path key edit (default (TTable i []) (get segment t)) = Ok child'.
Proof.
  destruct node as [| | | |i t|]; cbn [ensure_table_like]; try done. rewrite rbind_Ok. intros (child' & Hc & [= <-]).
  by exists i, t, child'.
Qed.

Lemma ensure_nil key edit node node' :
  ensure_table_like [] key edit node = Ok node' -> exists i t, node = TTable i t /\ node' = TTable i (edit t).
Proof. destruct node as [| | | |i t|]; cbn; try done. intros [= <-]. by exists i, t. Qed.

Lemma tidy_default i t segment : tidy (TTable i t) -> tidy (default (TTable i []) (get segment t)).
Proof.
  intros Ht%tidy_table. destruct (get segment t) eqn:Hg; cbn [default]; [by eapply tidy_get|]. by apply tidy_table, tidy_nil.
Qed.

(** What was written is at the address, and keys are still held once. *)
Lemma ensure_slot path key field item node node' :
  flat item -> tidy node -> ensure_table_like path key (fun t => set_field t field item) node = Ok node' ->
  exists item', slot path field node' = Some item' /\ agrees item item' /\ tidy node'.
Proof.
  intros Hflat. revert node node'. induction path as [|segment path IH]; intros node node' Ht He.
  - apply ensure_nil in He as (i & t & -> & ->). apply tidy_table in Ht.
    destruct (set_field_spec t field item Hflat Ht) as (item' & -> & Hti & Hag). exists item'. split_and!; [|done|].
    + unfold slot. cbn. apply get_put_same.
    + by apply tidy_table, tidy_put.
  - apply ensure_cons in He as (i & t & child' & -> & -> & He).
    destruct (IH _ _ (tidy_default _ _ segment Ht) He) as (item' & Hs & Hag & Hti). exists item'. split_and!; [|done|].
    + unfold slot in *. cbn. by rewrite get_put_same.
    + apply tidy_table in Ht. by apply tidy_table, tidy_put.
Qed.

(** Only the entry of the first segment changes. *)
Lemma ensure_in_root doc segment path key edit doc' :
  ensure_in doc (segment :: path) key edit = Ok doc' ->
  exists child', doc' = put segment child' doc /\
    ensure_table_like path key edit (default (TTable false []) (get segment doc)) = Ok child'.
Proof.
  unfold ensure_in. rewrite rbind_Ok. intros (node & He & Hd). apply ensure_cons in He as (i & t & child' & [= <- <-] & -> & He).
  cbn in Hd. injection Hd as <-. by exists child'.
Qed.

(** * The view after a write *)

Section Write.
Variable os : TargetOs.
Variables (doc : Fields) (s : Sections) (key : string).
Hypothesis Ht : tidy_fields doc.
Hypothesis Hv : root_view os doc s.

(** Which values the item that agrees with what was written reads as. *)
Definition reads_as (value : ConfigValue) (item' : Item) : Prop :=
  match value with
  | CBool b => item' = TBool b
  | CDecisionMode m => item' = TString (decision_as_str m)
  | CModel m => forall k, model_assign item' k = Ok m
  | CEffort e => forall k, effort_assign item' k = Ok e
  | CFallback f => forall k, fallback_assign item' k = Ok f
  | CNames l => item' = TArray (map TString l)
  | CText t => item' = TString t
  end.

Lemma set_item_reads target value item item' :
  set_item key target value = Ok item -> agrees item item' -> reads_as value item'.
Proof using Type.
  intros H Ha. destruct value, target; try discriminate H; injection H as <-; cbn;
    try (eapply agrees_value; [|exact Ha]; reflexivity);
    intros k; first [rewrite (agrees_model _ _ _ Ha); apply model_assign_item
                    |rewrite (agrees_effort _ _ _ Ha); apply effort_assign_item
                    |rewrite (agrees_fallback _ _ _ Ha); apply fallback_assign_item].
Qed.

Lemma leaf_written field item t child' :
  flat item -> tidy_fields t -> forall i, ensure_table_like [] key (fun t => set_field t field item) (TTable i t) = Ok child' ->
  exists item', child' = TTable i (put field item' t) /\ agrees item item'.
Proof using Type.
  intros Hflat Htt i He. apply ensure_nil in He as (? & ? & [= <- <-] & ->).
  destruct (set_field_spec t field item Hflat Htt) as (item' & -> & _ & Ha). by exists item'.
Qed.

(** A section of one key. *)
Lemma section_written {A} label (step : option A -> string * Item -> answer (option A)) field item (v w : option A) child' :
  (forall s k i s', step s (k, i) = Ok s' -> k = field) ->
  flat item -> reads (in_table label (try_fold step None)) doc label None = Ok w ->
  ensure_table_like [] key (fun t => set_field t field item) (default (TTable false []) (get label doc)) = Ok child' ->
  (forall item', agrees item item' -> step None (field, item') = Ok v) ->
  in_table label (try_fold step None) child' = Ok v.
Proof using Ht.
  intros Hone Hflat Hr He Hstep.
  destruct (child_table label label _ doc None w false Hr eq_refl Ht) as (i & t & Hc & Hf & Htt). rewrite Hc in He.
  destruct (leaf_written field item t child' Hflat Htt i He) as (item' & -> & Ha).
  destruct (one_field_put step field None w t item' (proj1 Htt) Hone Hf) as [-> _].
  unfold in_table. cbn. by rewrite (Hstep item' Ha).
Qed.

(** A change of the models table is a change of the models. *)
Lemma models_written path edit m' child' :
  ensure_table_like path key edit (default (TTable false []) (get "models" doc)) = Ok child' ->
  (forall i t child', tidy_fields t -> models_table t = Ok (sc_models s) ->
     ensure_table_like path key edit (TTable i t) = Ok child' -> in_table "models" models_table child' = Ok m') ->
  root_view os (put "models" child' doc) (s_models s m').
Proof using Hv Ht.
  intros He Hm. apply root_put_models; [done|].
  destruct (child_table "models" "models" models_table doc no_models (sc_models s) false (rv_models _ _ _ Hv) eq_refl Ht)
    as (i & t & Hc & Hf & Htt). rewrite Hc in He. by eapply Hm.
Qed.

(** A change of one row of the purposes. *)
Lemma purposes_written name field item m f child' i t :
  tidy_fields t -> models_table t = Ok m -> flat item ->
  ensure_table_like ["purposes"; name] key (fun t => set_field t field item) (TTable i t) = Ok child' ->
  (forall item' row def, agrees item item' -> tidy_fields row ->
     try_fold (purpose_field ("models.purposes." +:+ name)) no_purpose row = Ok def ->
     try_fold (purpose_field ("models.purposes." +:+ name)) no_purpose (put field item' row) = Ok (f def)) ->
  in_table "models" models_table child' = Ok (s_purpose name f m).
Proof using Type.
  intros Htt Hm Hflat He Hrow. apply ensure_cons in He as (? & ? & table' & [= <- <-] & -> & He).
  pose proof (mv_purposes _ _ (models_view_of _ _ (proj1 Htt) Hm)) as Hp.
  destruct (child_table _ _ _ t ∅ _ i Hp eq_refl Htt) as (i1 & t1 & Hc & Hf & Ht1). rewrite Hc in He.
  apply ensure_cons in He as (? & ? & row' & [= <- <-] & -> & He).
  assert (Hread : exists i2 row, default (TTable i1 []) (get name t1) = TTable i2 row /\ tidy_fields row /\
    try_fold (purpose_field ("models.purposes." +:+ name)) no_purpose row = Ok (default no_purpose (md_purposes m !! name))).
  { pose proof (read_entries_lookup _ _ _ name (proj1 Ht1) Hf) as Hl. destruct (get name t1) as [item0|] eqn:Hg; cbn [default].
    - destruct Hl as (def & Hd & ->). unfold read_purpose, purpose_def in Hd. apply rbind_Ok in Hd as (row & Hrow0 & Hd).
      apply ok_or_Ok in Hrow0. destruct item0 as [| | | |i2 row2|]; try done. injection Hrow0 as ->. exists i2, row.
      split_and!; [done| |done]. apply (tidy_table i2). by eapply tidy_get.
    - exists i1, []. rewrite Hl. split_and!; [done|apply tidy_nil|done]. }
  destruct Hread as (i2 & row & Hd & Htr & Hfr). rewrite Hd in He.
  destruct (leaf_written field item row row' Hflat Htr i2 He) as (item' & -> & Ha).
  unfold in_table. cbn [table_like as_table_like ok_or rbind]. apply models_put_purposes; [done..|].
  unfold in_table. cbn [table_like as_table_like ok_or rbind]. apply read_entries_put; [apply Ht1|done|].
  unfold read_purpose, purpose_def. cbn [table_like as_table_like ok_or rbind]. by apply Hrow.
Qed.

(** A change of the defaults. *)
Lemma defaults_written field item m d f child' i t :
  field ∈ MODEL_SLOT_KEYS -> tidy_fields t -> models_table t = Ok m -> md_defaults m = Some d -> flat item ->
  ensure_table_like ["defaults"] key (fun t => set_field t field item) (TTable i t) = Ok child' ->
  (forall item' i row, agrees item item' -> read_defaults (TTable i row) = Ok d ->
     read_defaults (TTable i (put field item' row)) = Ok (f d)) ->
  in_table "models" models_table child' = Ok (s_defaults f m).
Proof using Type.
  intros Hfield Htt Hm Hd Hflat He Hrow. apply ensure_cons in He as (? & ? & row' & [= <- <-] & -> & He).
  pose proof (mv_defaults _ _ (models_view_of _ _ (proj1 Htt) Hm)) as Hr. unfold reads, some_of in Hr.
  destruct (get "defaults" t) as [row|] eqn:Hg; [|congruence]. cbn [default] in He.
  apply rbind_Ok in Hr as (d' & Hr & [= Hd']). rewrite Hd in Hd'. injection Hd' as ->.
  destruct row as [| | | |i1 t1|]; try done.
  assert (Ht1 : tidy_fields t1) by (apply (tidy_table i1); by eapply tidy_get).
  destruct (leaf_written field item t1 row' Hflat Ht1 i1 He) as (item' & -> & Ha).
  unfold in_table, s_defaults. cbn [table_like as_table_like ok_or rbind]. rewrite Hd. apply models_put_defaults; [done..|].
  by apply Hrow.
Qed.

(** A change of a group. *)
Lemma group_written name item v m child' i t :
  tidy_fields t -> models_table t = Ok m -> flat item ->
  ensure_table_like ["groups"; name] key (fun t => set_field t "model" item) (TTable i t) = Ok child' ->
  (forall item' k, agrees item item' -> model_assign item' k = Ok v) ->
  in_table "models" models_table child' = Ok (s_group name v m).
Proof using Type.
  intros Htt Hm Hflat He Hmodel. apply ensure_cons in He as (? & ? & table' & [= <- <-] & -> & He).
  pose proof (mv_groups _ _ (models_view_of _ _ (proj1 Htt) Hm)) as Hp.
  destruct (child_table _ _ _ t ∅ _ i Hp eq_refl Htt) as (i1 & t1 & Hc & Hf & Ht1). rewrite Hc in He.
  apply ensure_cons in He as (? & ? & row' & [= <- <-] & -> & He).
  assert (Hread : exists i2 row, default (TTable i1 []) (get name t1) = TTable i2 row /\ tidy_fields row /\
    forall k, k ∈ row.*1 -> k ∈ GROUP_KEYS).
  { pose proof (read_entries_lookup _ _ _ name (proj1 Ht1) Hf) as Hl. destruct (get name t1) as [item0|] eqn:Hg; cbn [default].
    - destruct Hl as (v0 & Hd & _). unfold read_group in Hd. apply rbind_Ok in Hd as (row & Hrow0 & Hd).
      apply ok_or_Ok in Hrow0. destruct item0 as [| | | |i2 row2|]; try done. injection Hrow0 as ->. exists i2, row.
      apply rbind_Ok in Hd as (u & Hk & _). pose proof (proj1 (known_fields_pass _ _ _ u) Hk).
      split_and!; [done| |done]. apply (tidy_table i2). by eapply tidy_get.
    - exists i1, []. split_and!; [done|apply tidy_nil|]. intros k Hk. by apply elem_of_nil in Hk. }
  destruct Hread as (i2 & row & Hd & Htr & Hkr). rewrite Hd in He.
  destruct (leaf_written "model" item row row' Hflat Htr i2 He) as (item' & -> & Ha).
  unfold in_table. cbn [table_like as_table_like ok_or rbind]. apply models_put_groups; [done..|].
  unfold in_table. cbn [table_like as_table_like ok_or rbind]. apply read_entries_put; [apply Ht1|done|].
  unfold read_group. cbn [table_like as_table_like ok_or rbind]. apply rbind_Ok. exists tt. split.
  - apply known_fields_pass. is_known.
  - unfold pick. rewrite get_put_same. cbn [ok_or rbind]. by apply Hmodel.
Qed.

(** A change of a declared connection. *)
Lemma connection_written name field item f child' :
  flat item -> is_Some (sc_connections s !! name) ->
  ensure_table_like [name] key (fun t => set_field t field item) (default (TTable false []) (get "connections" doc)) = Ok child' ->
  (forall item' i row c, agrees item item' -> connection name (TTable i row) = Ok c ->
     connection name (TTable i (put field item' row)) = Ok (f c)) ->
  root_view os (put "connections" child' doc) (s_connections s (alter f name (sc_connections s))).
Proof using Hv Ht.
  intros Hflat [c Hc0] He Hrow. apply root_put_connections; [done|].
  destruct (child_table _ _ _ doc ∅ _ false (rv_connections _ _ _ Hv) eq_refl Ht) as (i & t & Hc & Hf & Htt). rewrite Hc in He.
  apply ensure_cons in He as (? & ? & row' & [= <- <-] & -> & He).
  destruct (read_entries_Some _ _ _ _ _ (proj1 Htt) Hf Hc0) as (row & Hg & Hr). rewrite Hg in He. cbn [default] in He.
  destruct row as [| | | |i1 t1|]; try done.
  assert (Ht1 : tidy_fields t1) by (apply (tidy_table i1); by eapply tidy_get).
  destruct (leaf_written field item t1 row' Hflat Ht1 i1 He) as (item' & -> & Ha).
  unfold in_table. cbn [table_like as_table_like ok_or rbind].
  replace (alter f name (sc_connections s)) with (<[name := f c]> (sc_connections s)).
  - apply read_entries_put; [apply Htt|done|]. by apply Hrow.
  - apply map_eq. intros k. destruct (decide (k = name)) as [->|Hne].
    + by rewrite lookup_insert_eq, lookup_alter_eq, Hc0.
    + by rewrite lookup_insert_ne, lookup_alter_ne.
Qed.

(** A change of a profile. *)
Lemma profile_written name text child' :
  (exists r, secret_ref_parse os text = Ok r) ->
  ensure_table_like [name] key (fun t => set_field t "credential_ref" (TString text))
    (default (TTable false []) (get "profiles" doc)) = Ok child' ->
  root_view os (put "profiles" child' doc) (s_profiles s (<[name := mkProfile (Some text)]> (sc_profiles s))).
Proof using Hv Ht.
  intros Hparse He. apply root_put_profiles; [done|].
  destruct (child_table _ _ _ doc ∅ _ false (rv_profiles _ _ _ Hv) eq_refl Ht) as (i & t & Hc & Hf & Htt). rewrite Hc in He.
  apply ensure_cons in He as (? & ? & row' & [= <- <-] & -> & He).
  assert (Hread : exists i2 row p, default (TTable i []) (get name t) = TTable i2 row /\ tidy_fields row /\
    try_fold (profile_field os ("profiles." +:+ name)) None row = Ok p).
  { pose proof (read_entries_lookup _ _ _ name (proj1 Htt) Hf) as Hl. destruct (get name t) as [item0|] eqn:Hg; cbn [default].
    - destruct Hl as (v0 & Hd & _). unfold profile in Hd. apply rbind_Ok in Hd as (row & Hrow0 & Hd).
      apply ok_or_Ok in Hrow0. destruct item0 as [| | | |i2 row2|]; try done. injection Hrow0 as ->.
      apply rbind_Ok in Hd as (p & Hp & _). exists i2, row, p. split_and!; [done| |done].
      apply (tidy_table i2). by eapply tidy_get.
    - exists i, [], None. split_and!; [done|apply tidy_nil|done]. }
  destruct Hread as (i2 & row & p & Hd & Htr & Hfr). rewrite Hd in He.
  destruct (leaf_written "credential_ref" (TString text) row row' I Htr i2 He) as (item' & -> & Ha).
  apply agrees_value in Ha as ->; [|done].
  unfold in_table. cbn [table_like as_table_like ok_or rbind]. apply read_entries_put; [apply Htt|done|].
  unfold profile. cbn [table_like as_table_like ok_or rbind].
  destruct (one_field_put _ "credential_ref" None p row (TString text) (proj1 Htr) (profile_one os ("profiles." +:+ name)) Hfr) as [-> _].
  cbn [try_fold profile_field as_str ok_or rbind]. rewrite decide_True by done.
  by rewrite (proj2 (admit_credential_pass os text _ tt) Hparse).
Qed.
End Write.

Lemma string_field_put_same t tk field x : string_field (put field (TString x) t) tk field = Ok (Some x).
Proof. unfold string_field. by rewrite get_put_same. Qed.
Lemma string_field_put_other t tk field field' item : field <> field' -> string_field (put field item t) tk field' = string_field t tk field'.
Proof. intros. unfold string_field. by rewrite get_put_other. Qed.
Lemma string_field_del_same t tk field : string_field (del field t) tk field = Ok None.
Proof. unfold string_field. rewrite get_del. by rewrite decide_True. Qed.
Lemma string_field_del_other t tk field field' : field <> field' -> string_field (del field t) tk field' = string_field t tk field'.
Proof. intros. unfold string_field. rewrite get_del. by rewrite decide_False. Qed.

Ltac connection_fields :=
  intros (Hk & Hkind & [Hep Hal] & Hcr & Hre & Hpr)%connection_iff; apply connection_iff; cbn;
  rewrite ?string_field_put_same, ?string_field_del_same, ?string_field_put_other, ?string_field_del_other by discriminate;
  split_and!; try done; is_known.

Section ConnectionRow.
Variables (name : string) (i : bool) (t : Fields) (c : Connection).

Lemma connection_put_region x :
  connection name (TTable i t) = Ok c -> connection name (TTable i (put "region" (TString x) t)) = Ok (with_region (Some x) c).
Proof. connection_fields. Qed.
Lemma connection_put_profile x :
  connection name (TTable i t) = Ok c -> connection name (TTable i (put "profile" (TString x) t)) = Ok (with_profile (Some x) c).
Proof. connection_fields. Qed.
Lemma connection_del_region :
  connection name (TTable i t) = Ok c -> connection name (TTable i (del "region" t)) = Ok (with_region None c).
Proof. connection_fields. Qed.
Lemma connection_del_profile :
  connection name (TTable i t) = Ok c -> connection name (TTable i (del "profile" t)) = Ok (with_profile None c).
Proof. connection_fields. Qed.
End ConnectionRow.

Ltac defaults_fields :=
  intros (Hk & im & ie & ifb & Him & Hie & Hifb & Hm & He & Hf)%read_defaults_iff Hread; apply read_defaults_iff; cbn;
  split; [is_known|]; rewrite ?get_put_same, ?get_put_other by discriminate;
  repeat eexists; try eassumption; apply Hread.

Section DefaultsRow.
Variables (i : bool) (t : Fields) (d : Defaults) (item : Item).

Lemma defaults_put_model m :
  read_defaults (TTable i t) = Ok d -> (forall k, model_assign item k = Ok m) ->
  read_defaults (TTable i (put "model" item t)) = Ok (mkDefaults m (df_effort d) (df_fallback d)).
Proof. defaults_fields. Qed.
Lemma defaults_put_effort e :
  read_defaults (TTable i t) = Ok d -> (forall k, effort_assign item k = Ok e) ->
  read_defaults (TTable i (put "effort" item t)) = Ok (mkDefaults (df_model d) e (df_fallback d)).
Proof. defaults_fields. Qed.
Lemma defaults_put_fallback f :
  read_defaults (TTable i t) = Ok d -> (forall k, fallback_assign item k = Ok f) ->
  read_defaults (TTable i (put "fallback" item t)) = Ok (mkDefaults (df_model d) (df_effort d) f).
Proof. defaults_fields. Qed.
End DefaultsRow.

(** * The view after an edit *)

(** What the target of an edit needs of the document and of its value: a declared
    connection, a reference in the grammar. *)
Definition target_ready (os : TargetOs) (target : EditTarget) (value : ConfigValue) (s : Sections) : Prop :=
  match target, value with
  | (ConnectionRegion name | ConnectionProfile name), _ => is_Some (sc_connections s !! name)
  | ProfileCredentialRef _, CText text => exists r, secret_ref_parse os text = Ok r
  | _, _ => True
  end.

Section SetView.
Variables (os : TargetOs) (doc : Fields) (s : Sections) (key : string) (item : Item).
Hypothesis Ht : tidy_fields doc.
Hypothesis Hv : root_view os doc s.
Hypothesis Hflat : flat item.

(** An edit of the document at the path of a target. *)
Local Abbreviation edited target doc' :=
  (ensure_in doc (target_path target).1 key (fun t => set_field t (target_path target).2 item) = Ok doc').
Local Abbreviation reads_back value := (forall item', agrees item item' -> reads_as value item').

Lemma set_workflow doc' b : edited WorkflowEnabled doc' -> reads_back (CBool b) -> root_view os doc' (s_workflow s (Some b)).
Proof using Ht Hv Hflat.
  intros (child' & -> & He)%ensure_in_root Hreads. apply root_put_workflow; [done|].
  eapply (section_written doc key Ht "workflow" workflow_field); [apply workflow_one|done|apply Hv|exact He|].
  intros item' Ha. by rewrite (Hreads item' Ha).
Qed.

Lemma set_decisions doc' m :
  edited DecisionsMode doc' -> reads_back (CDecisionMode m) -> root_view os doc' (s_decisions s (Some m)).
Proof using Ht Hv Hflat.
  intros (child' & -> & He)%ensure_in_root Hreads. apply root_put_decisions; [done|].
  eapply (section_written doc key Ht "decisions" decisions_field); [apply decisions_one|done|apply Hv|exact He|].
  intros item' Ha. rewrite (Hreads item' Ha). by destruct m.
Qed.

Lemma set_context doc' b : edited ContextAutoCompact doc' -> reads_back (CBool b) -> root_view os doc' (s_context s (Some b)).
Proof using Ht Hv Hflat.
  intros (child' & -> & He)%ensure_in_root Hreads. apply root_put_context; [done|].
  eapply (section_written doc key Ht "context" context_field); [apply context_one|done|apply Hv|exact He|].
  intros item' Ha. by rewrite (Hreads item' Ha).
Qed.

(** One slot of the defaults. *)
Lemma set_defaults doc' target f :
  (target_path target).1 = ["models"; "defaults"] -> (target_path target).2 ∈ MODEL_SLOT_KEYS ->
  is_Some (md_defaults (sc_models s)) -> edited target doc' ->
  (forall item' i row d, agrees item item' -> read_defaults (TTable i row) = Ok d ->
     read_defaults (TTable i (put (target_path target).2 item' row)) = Ok (f d)) ->
  root_view os doc' (s_models s (s_defaults f (sc_models s))).
Proof using Ht Hv Hflat.
  intros -> Hslot [d Hd] (child' & -> & He)%ensure_in_root Hrow. eapply models_written; [exact Ht|exact Hv|exact He|].
  intros i t child1 Htt Hm He1. eapply defaults_written; [done..|]. intros; by apply Hrow.
Qed.

Lemma set_group doc' name m :
  edited (GroupModel name) doc' -> reads_back (CModel m) -> root_view os doc' (s_models s (s_group name m (sc_models s))).
Proof using Ht Hv Hflat.
  intros (child' & -> & He)%ensure_in_root Hreads. eapply models_written; [exact Ht|exact Hv|exact He|].
  intros i t child1 Htt Hm He1. eapply group_written; [done..|]. intros. by apply Hreads.
Qed.

(** One field of a purpose row. *)
Lemma set_purpose doc' target name f :
  (target_path target).1 = ["models"; "purposes"; name] -> edited target doc' ->
  (forall item' row def, agrees item item' -> tidy_fields row ->
     try_fold (purpose_field ("models.purposes." +:+ name)) no_purpose row = Ok def ->
     try_fold (purpose_field ("models.purposes." +:+ name)) no_purpose (put (target_path target).2 item' row) = Ok (f def)) ->
  root_view os doc' (s_models s (s_purpose name f (sc_models s))).
Proof using Ht Hv Hflat.
  intros -> (child' & -> & He)%ensure_in_root Hrow. eapply models_written; [exact Ht|exact Hv|exact He|].
  intros i t child1 Htt Hm He1. by eapply purposes_written.
Qed.

(** One field of a declared connection. *)
Lemma set_connection doc' target name f :
  (target_path target).1 = ["connections"; name] -> is_Some (sc_connections s !! name) -> edited target doc' ->
  (forall item' i row c, agrees item item' -> connection name (TTable i row) = Ok c ->
     connection name (TTable i (put (target_path target).2 item' row)) = Ok (f c)) ->
  root_view os doc' (s_connections s (alter f name (sc_connections s))).
Proof using Ht Hv Hflat.
  intros -> Hc (child' & -> & He)%ensure_in_root Hrow. by eapply connection_written.
Qed.
End SetView.

(** The edited document reads as the updated sections. *)
Lemma set_view os doc s key target value item doc' :
  tidy_fields doc -> root_view os doc s -> is_Some (md_defaults (sc_models s)) ->
  set_item key target value = Ok item -> target_ready os target value s ->
  ensure_in doc (target_path target).1 key (fun t => set_field t (target_path target).2 item) = Ok doc' ->
  root_view os doc' (applied target value s).
Proof.
  intros Ht Hv Hd Hitem Hready He. pose proof (set_item_flat _ _ _ _ Hitem) as Hflat.
  pose proof (fun item' => set_item_reads key target value item item' Hitem) as Hreads.
  destruct target, value; try discriminate Hitem; cbn [target_ready] in Hready; cbn [applied].
  - by eapply set_workflow.
  - by eapply set_decisions.
  - by eapply set_context.
  - eapply set_defaults with (target := DefaultsModel); [done..|apply (bool_decide_unpack _); exact I|done|exact He|].
    intros. apply defaults_put_model; [done|by apply Hreads].
  - eapply set_defaults with (target := DefaultsEffort); [done..|apply (bool_decide_unpack _); exact I|done|exact He|].
    intros. apply defaults_put_effort; [done|by apply Hreads].
  - eapply set_defaults with (target := DefaultsFallback); [done..|apply (bool_decide_unpack _); exact I|done|exact He|].
    intros. apply defaults_put_fallback; [done|by apply Hreads].
  - by eapply set_group.
  - eapply set_purpose with (target := PurposeModel name); [done..|exact He|]. intros. apply purpose_put_model; [done..|by apply Hreads].
  - eapply set_purpose with (target := PurposeEffort name); [done..|exact He|]. intros. apply purpose_put_effort; [done..|by apply Hreads].
  - eapply set_purpose with (target := PurposeFallback name); [done..|exact He|]. intros. apply purpose_put_fallback; [done..|by apply Hreads].
  - eapply set_purpose with (target := PurposeEligible name); [done..|exact He|]. intros item' row def Ha Htr Hr. apply purpose_put_eligible; [done..|].
    rewrite (Hreads item' Ha). apply name_array_names.
  - eapply set_connection with (target := ConnectionRegion name); [done..|exact He|]. intros item' i row c Ha Hr.
    rewrite (Hreads item' Ha). by apply connection_put_region.
  - eapply set_connection with (target := ConnectionProfile name); [done..|exact He|]. intros item' i row c Ha Hr.
    rewrite (Hreads item' Ha). by apply connection_put_profile.
  - injection Hitem as <-. apply ensure_in_root in He as (child' & -> & He). by eapply profile_written.
Qed.
