(* ===== verification/EditReset.v ===== *)
(** The other edits of a document: what a reset takes away and what a rebinding
    moves, each as an update of the typed view. *)

From S2P Require Import Prelude.
From S2P Require Import Contracts.
From S2P Require Import Text.
From S2P Require Import Requests.
From S2P Require Import Notifications.
From S2P Require Import Store.
From S2P Require Import Identity.
From S2P Require Import Routes.
From S2P Require Import Providers.
From S2P Require Import Toml.
From S2P Require Import Schema.
From S2P Require Import SchemaThms.
From S2P Require Import Edits.
From S2P Require Import EditsThms.
From S2P Require Import EditLaws.
From S2P Require Import EditRefine.

(** * Removing a field *)

Lemma remove_tidy path field node : tidy node -> tidy (remove_at path field node).
Proof.
  revert node. induction path as [|segment path IH]; intros [| | | |i t|] Ht; cbn [remove_at]; try done.
  - apply tidy_table. apply tidy_table in Ht. by apply tidy_del.
  - destruct (get segment t) as [child|] eqn:Hg; [|done]. apply tidy_table in Ht. apply tidy_table, tidy_put; [done|].
    apply IH. by eapply tidy_get.
Qed.

(** Only the entry of the first segment changes, and only where there is one. *)
Lemma remove_in_root doc segment path field :
  remove_in doc (segment :: path) field =
    match get segment doc with Some child => put segment (remove_at path field child) doc | None => doc end.
Proof. unfold remove_in. cbn [remove_at]. by destruct (get segment doc). Qed.

Lemma remove_in_tidy doc path field : tidy_fields doc -> tidy_fields (remove_in doc path field).
Proof.
  intros Ht. unfold remove_in. pose proof (remove_tidy path field (TTable false doc)) as Hr.
  destruct (remove_at path field (TTable false doc)); cbn; try done. eapply tidy_table, Hr. by apply tidy_table.
Qed.

(** Rows of a table, one of them without a field. *)
Section Rows.
Context {V : Type}.
Variable read : string -> Item -> answer V.
Hypothesis read_table : forall name item v, read name item = Ok v -> is_table item = true.

Lemma rows_removed t m name field f i :
  tidy_fields t -> read_entries read t = Ok m ->
  (forall i row v, tidy_fields row -> read name (TTable i row) = Ok v -> read name (TTable i (del field row)) = Ok (f v)) ->
  exists t', remove_at [name] field (TTable i t) = TTable i t' /\ read_entries read t' = Ok (alter f name m).
Proof using read_table.
  intros Ht Hr Hf. cbn [remove_at]. pose proof (read_entries_lookup read t m name (proj1 Ht) Hr) as Hl.
  destruct (get name t) as [row|] eqn:Hg.
  - destruct Hl as (v & Hv & Hm). pose proof (read_table _ _ _ Hv) as Htab. destruct row as [| | | |i2 row|]; try done.
    assert (Htr : tidy_fields row) by (apply (tidy_table i2); by eapply tidy_get).
    eexists. split; [done|]. replace (alter f name m) with (<[name := f v]> m).
    + apply read_entries_put; [apply Ht|done|]. by apply Hf.
    + apply map_eq. intros k. destruct (decide (k = name)) as [->|Hne].
      * by rewrite lookup_insert_eq, lookup_alter_eq, Hm.
      * by rewrite lookup_insert_ne, lookup_alter_ne.
  - exists t. split; [done|]. rewrite Hr. f_equal. apply map_eq. intros k. destruct (decide (k = name)) as [->|Hne].
    + by rewrite lookup_alter_eq, Hl.
    + by rewrite lookup_alter_ne.
Qed.

(** The same, seen from the table that holds the rows. *)
Lemma rows_field_removed label fields key m name field f child i :
  tidy_fields fields -> reads (in_table label (read_entries read)) fields key ∅ = Ok m -> get key fields = Some child ->
  (forall i row v, tidy_fields row -> read name (TTable i row) = Ok v -> read name (TTable i (del field row)) = Ok (f v)) ->
  remove_at [key; name] field (TTable i fields) = TTable i (put key (remove_at [name] field child) fields) /\
  in_table label (read_entries read) (remove_at [name] field child) = Ok (alter f name m).
Proof using read_table.
  intros Ht Hr Hg Hf. destruct (table_under _ _ _ _ _ _ _ Hr Hg Ht) as (i1 & t & -> & Hread & Htt).
  destruct (rows_removed t m name field f i1 Htt Hread Hf) as (t' & He & Hr'). split.
  - cbn [remove_at]. by rewrite Hg.
  - by rewrite He.
Qed.
End Rows.

Lemma read_purpose_table name item v : read_purpose name item = Ok v -> is_table item = true.
Proof. unfold read_purpose, purpose_def. intros H. inv_answer. by destruct item. Qed.
Lemma connection_table name item v : connection name item = Ok v -> is_table item = true.
Proof. unfold connection. intros H. apply rbind_Ok in H as (t & H & _). apply ok_or_Ok in H. by destruct item. Qed.
Lemma profile_table os name item v : profile os name item = Ok v -> is_table item = true.
Proof. unfold profile. intros H. apply rbind_Ok in H as (t & H & _). apply ok_or_Ok in H. by destruct item. Qed.

(** An unset section is what is read where there is no entry. *)
Lemma reads_absent {A} (read : Item -> answer A) fields key unset x :
  get key fields = None -> reads read fields key unset = Ok x -> x = unset.
Proof. unfold reads. intros ->. by intros [= <-]. Qed.

Lemma alter_absent {V} (f : V -> V) (name : string) : alter f name (∅ : gmap string V) = ∅.
Proof. apply map_eq. intros k. rewrite lookup_empty. destruct (decide (k = name)) as [->|]; [by rewrite lookup_alter_eq, lookup_empty|by rewrite lookup_alter_ne, lookup_empty]. Qed.

Section ResetView.
Variables (os : TargetOs) (doc : Fields) (s : Sections).
Hypothesis Ht : tidy_fields doc.
Hypothesis Hv : root_view os doc s.

(** A section of one key, emptied. *)
Lemma section_removed {A} label (step : option A -> string * Item -> answer (option A)) field w child :
  (forall s k i s', step s (k, i) = Ok s' -> k = field) ->
  reads (in_table label (try_fold step None)) doc label None = Ok w -> get label doc = Some child ->
  in_table label (try_fold step None) (remove_at [] field child) = Ok None.
Proof using Ht.
  intros Hone Hr Hg. destruct (table_under _ _ _ _ _ _ _ Hr Hg Ht) as (i & t & -> & Hf & Htt).
  destruct (one_field_put step field None w t (TBool true) (proj1 Htt) Hone Hf) as [_ Hd].
  cbn [remove_at]. by rewrite Hd.
Qed.

(** A declared connection without a field. *)
Lemma connection_removed name field f :
  (forall i row c, connection name (TTable i row) = Ok c -> connection name (TTable i (del field row)) = Ok (f c)) ->
  root_view os (remove_in doc ["connections"; name] field) (s_connections s (alter f name (sc_connections s))).
Proof using Ht Hv.
  intros Hrow. rewrite remove_in_root. destruct (get "connections" doc) as [child|] eqn:Hg.
  - apply root_put_connections; [done|].
    by apply (rows_field_removed connection connection_table "connections" doc "connections" _ name field f child false Ht
      (rv_connections _ _ _ Hv) Hg (fun i row c _ => Hrow i row c)).
  - pose proof (reads_absent _ _ _ _ _ Hg (rv_connections _ _ _ Hv)) as E. rewrite E, alter_absent, <- E. by destruct s.
Qed.

(** A profile without its reference. *)
Lemma profile_removed name :
  root_view os (remove_in doc ["profiles"; name] "credential_ref") (s_profiles s (alter (fun _ => mkProfile None) name (sc_profiles s))).
Proof using Ht Hv.
  rewrite remove_in_root. destruct (get "profiles" doc) as [child|] eqn:Hg.
  - apply root_put_profiles; [done|].
    eapply (rows_field_removed (profile os) (profile_table os) "profiles" doc "profiles" _ name "credential_ref" _ child false);
      [done|apply Hv|done|].
    intros i row v Htr Hr. unfold profile in Hr |- *. cbn [table_like as_table_like ok_or rbind] in *.
    apply rbind_Ok in Hr as (p & Hp & _).
    destruct (one_field_put _ "credential_ref" None p row (TBool true) (proj1 Htr) (profile_one os ("profiles." +:+ name)) Hp) as [_ ->].
    done.
  - pose proof (reads_absent _ _ _ _ _ Hg (rv_profiles _ _ _ Hv)) as E. rewrite E, alter_absent, <- E. by destruct s.
Qed.

(** A purpose row without a field. *)
Lemma purpose_removed name field f :
  (forall key row def, tidy_fields row -> try_fold (purpose_field key) no_purpose row = Ok def ->
     try_fold (purpose_field key) no_purpose (del field row) = Ok (f def)) ->
  root_view os (remove_in doc ["models"; "purposes"; name] field)
    (s_models s (mkModels (md_defaults (sc_models s)) (md_groups (sc_models s)) (alter f name (md_purposes (sc_models s))))).
Proof using Ht Hv.
  intros Hrow. rewrite remove_in_root. pose proof (rv_models _ _ _ Hv) as Hm. destruct (get "models" doc) as [child|] eqn:Hg.
  - apply root_put_models; [done|]. destruct (table_under _ _ _ _ _ _ _ Hm Hg Ht) as (i & t & -> & Hf & Htt).
    pose proof (mv_purposes _ _ (models_view_of _ _ (proj1 Htt) Hf)) as Hp. cbn [remove_at].
    destruct (get "purposes" t) as [rows|] eqn:Hgp.
    + assert (Hrow' : forall i row v, tidy_fields row -> read_purpose name (TTable i row) = Ok v ->
                read_purpose name (TTable i (del field row)) = Ok (f v)).
      { intros. unfold read_purpose, purpose_def. cbn [table_like as_table_like ok_or rbind]. by apply Hrow. }
      destruct (rows_field_removed read_purpose read_purpose_table "models.purposes" t "purposes" _ name field f rows i Htt Hp Hgp Hrow')
        as [_ Hrm].
      unfold in_table at 1. cbn [table_like as_table_like ok_or rbind]. by apply models_put_purposes.
    + pose proof (reads_absent _ _ _ _ _ Hgp Hp) as E. rewrite E, alter_absent, <- E.
      unfold in_table. cbn [table_like as_table_like ok_or rbind]. rewrite Hf. by destruct (sc_models s).
  - pose proof (reads_absent _ _ _ _ _ Hg Hm) as E. rewrite E. cbn. rewrite alter_absent.
    change (mkModels None ∅ ∅) with no_models. rewrite <- E. by destruct s.
Qed.
End ResetView.

(** The document reads as the sections without what was reset. *)
Lemma reset_view os doc s target :
  tidy_fields doc -> root_view os doc s -> is_override target = true ->
  root_view os (remove_in doc (target_path target).1 (target_path target).2) (cleared target s).
Proof.
  intros Ht Hv Ho. destruct target; try discriminate Ho; cbn [target_path fst snd cleared].
  - rewrite remove_in_root. pose proof (rv_workflow _ _ _ Hv) as Hr. destruct (get "workflow" doc) as [child|] eqn:Hg.
    + apply root_put_workflow; [done|]. eapply (section_removed doc Ht "workflow" workflow_field); [apply workflow_one|exact Hr|done].
    + pose proof (reads_absent _ _ _ _ _ Hg Hr) as E. rewrite <- E. by destruct s.
  - rewrite remove_in_root. pose proof (rv_decisions _ _ _ Hv) as Hr. destruct (get "decisions" doc) as [child|] eqn:Hg.
    + apply root_put_decisions; [done|]. eapply (section_removed doc Ht "decisions" decisions_field); [apply decisions_one|exact Hr|done].
    + pose proof (reads_absent _ _ _ _ _ Hg Hr) as E. rewrite <- E. by destruct s.
  - rewrite remove_in_root. pose proof (rv_context _ _ _ Hv) as Hr. destruct (get "context" doc) as [child|] eqn:Hg.
    + apply root_put_context; [done|]. eapply (section_removed doc Ht "context" context_field); [apply context_one|exact Hr|done].
    + pose proof (reads_absent _ _ _ _ _ Hg Hr) as E. rewrite <- E. by destruct s.
  - apply purpose_removed; [done..|]. intros. by apply purpose_del_model.
  - apply purpose_removed; [done..|]. intros. by apply purpose_del_effort.
  - apply purpose_removed; [done..|]. intros. by apply purpose_del_fallback.
  - apply purpose_removed; [done..|]. intros. by apply purpose_del_eligible.
  - apply connection_removed; [done..|]. intros. by apply connection_del_region.
  - apply connection_removed; [done..|]. intros. by apply connection_del_profile.
  - by apply profile_removed.
Qed.

(** * Moving a purpose *)

(** An answer does not depend on the address its error would name. *)
Definition same_value {A} (r r' : answer A) : Prop := forall a, r = Ok a -> r' = Ok a.

Lemma same_value_refl {A} (r : answer A) : same_value r r.
Proof. by intros a. Qed.
Lemma same_bind {A B} (r r' : answer A) (k k' : A -> answer B) :
  same_value r r' -> (forall a, same_value (k a) (k' a)) -> same_value (rbind k r) (rbind k' r').
Proof. intros Hr Hk b (a & Ha & Hb)%rbind_Ok. apply rbind_Ok. exists a. split; [by apply Hr|by apply Hk]. Qed.
Lemma same_ok_or {A} (o : option A) e e' : same_value (ok_or o e) (ok_or o e').
Proof. unfold same_value. destruct o; cbn; naive_solver. Qed.
Lemma same_err {A} e (r : answer A) : same_value (Err e) r.
Proof. by intros a. Qed.
Lemma same_try_map {A B} (f f' : A -> answer B) l : (forall x, same_value (f x) (f' x)) -> same_value (try_map f l) (try_map f' l).
Proof.
  intros Hf ys. rewrite !try_map_Ok. intros Hl. eapply Forall2_impl; [exact Hl|]. intros x y. apply Hf.
Qed.
Lemma same_try_fold {S A} (f f' : S -> A -> answer S) l :
  (forall s x, same_value (f s x) (f' s x)) -> forall s, same_value (try_fold f s l) (try_fold f' s l).
Proof. intros Hf. induction l as [|x l IH]; intros s; cbn; [apply same_value_refl|]. apply same_bind; [apply Hf|done]. Qed.

Create HintDb address discriminated.
#[export] Hint Resolve same_value_refl same_bind same_ok_or same_err same_try_map same_try_fold : address.

Ltac any_address :=
  repeat first [apply same_value_refl | apply same_err | apply same_ok_or | solve [auto 1 with address]
               | apply same_try_map; intros ? | apply same_try_fold; intros ?? | apply same_bind; [|intros ?]
               | case_decide | match goal with |- same_value (match ?x with _ => _ end) _ => destruct x end].

Lemma name_array_any item k k' e1 e2 : same_value (name_array item k e1 e2) (name_array item k' e1 e2).
Proof. unfold name_array. any_address. Qed.
#[export] Hint Resolve name_array_any : address.
Lemma model_assign_any item k k' : same_value (model_assign item k) (model_assign item k').
Proof. unfold model_assign, toml_mode, text_or. any_address. Qed.
Lemma effort_assign_any item k k' : same_value (effort_assign item k) (effort_assign item k').
Proof. unfold effort_assign, toml_mode, text_or. any_address. Qed.
Lemma chain_entry_any item k k' : same_value (chain_entry k item) (chain_entry k' item).
Proof.
  unfold chain_entry, text_or. apply same_bind; [any_address|intros inline].
  apply same_bind; [intros u; rewrite !known_fields_pass; done|intros _]. any_address.
Qed.
#[export] Hint Resolve model_assign_any effort_assign_any chain_entry_any : address.
Lemma fallback_assign_any item k k' : same_value (fallback_assign item k) (fallback_assign item k').
Proof. unfold fallback_assign, toml_mode. any_address. Qed.
#[export] Hint Resolve fallback_assign_any : address.

(** A row reads alike under every name. *)
Lemma read_purpose_any item from to : same_value (read_purpose from item) (read_purpose to item).
Proof.
  unfold read_purpose, purpose_def, table_like. apply same_bind; [any_address|intros row].
  apply same_try_fold. intros s [field value]. unfold purpose_field. any_address.
Qed.

(** The sections after a purpose moves: the row under its new name. *)
Definition rebound (from to : string) (s : Sections) : Sections :=
  match md_purposes (sc_models s) !! from with
  | Some def => s_models s (mkModels (md_defaults (sc_models s)) (md_groups (sc_models s))
                  (<[to := def]> (delete from (md_purposes (sc_models s)))))
  | None => s
  end.

Lemma read_entries_del {V} (read : string -> Item -> answer V) fields m name :
  NoDup fields.*1 -> read_entries read fields = Ok m -> read_entries read (del name fields) = Ok (delete name m).
Proof.
  intros Hn Hr. apply read_entries_determined; [by apply del_nodup| |].
  - intros e [_ He]%list_elem_of_filter. by eapply read_entries_each.
  - intros k. rewrite get_del. case_decide as E.
    + subst. by rewrite lookup_delete_eq.
    + rewrite lookup_delete_ne by done. pose proof (read_entries_lookup read fields m k Hn Hr) as Hl.
      destruct (get k fields) as [i|]; [|done]. by destruct Hl as (w & -> & ->).
Qed.

(** The rows after a move that meets no other binding. *)
Lemma move_rows_read from to rows m def :
  tidy_fields rows -> read_entries read_purpose rows = Ok m -> from <> to -> m !! from = Some def ->
  (forall other, m !! to = Some other -> other = def) ->
  tidy_fields (move_rows from to rows) /\ read_entries read_purpose (move_rows from to rows) = Ok (<[to := def]> (delete from m)).
Proof.
  intros Ht Hr Hne Hf Hto. destruct (read_entries_Some _ _ _ _ _ (proj1 Ht) Hr Hf) as (item & Hg & Hi).
  pose proof (read_entries_del read_purpose rows m from (proj1 Ht) Hr) as Hd.
  unfold move_rows, contains_key. pose proof (read_entries_lookup _ _ _ to (proj1 Ht) Hr) as Hl.
  destruct (get to rows) as [other|] eqn:Hgt; cbn [is_some].
  - destruct Hl as (v & _ & Hm). split; [by apply tidy_del|]. rewrite Hd. f_equal. symmetry.
    rewrite (Hto v Hm) in Hm. apply insert_id. by rewrite lookup_delete_ne.
  - rewrite Hg. split; [apply tidy_put; [by apply tidy_del|by eapply tidy_get]|].
    apply read_entries_put; [by apply del_nodup, Ht|done|]. by eapply read_purpose_any.
Qed.

Section Move.
Variables (os : TargetOs) (doc : Fields) (s : Sections).
Hypothesis Ht : tidy_fields doc.
Hypothesis Hv : root_view os doc s.

(** The rows of the document are the rows of the view. *)
Lemma purposes_of_read rows :
  purposes_of doc = Some rows ->
  exists i models i', get "models" doc = Some (TTable i models) /\ get "purposes" models = Some (TTable i' rows) /\
    tidy_fields models /\ models_table models = Ok (sc_models s) /\
    tidy_fields rows /\ read_entries read_purpose rows = Ok (md_purposes (sc_models s)).
Proof using Ht Hv.
  unfold purposes_of. intros H. pose proof (rv_models _ _ _ Hv) as Hm.
  destruct (get "models" doc) as [child|] eqn:Hg; [|done].
  destruct (table_under _ _ _ _ _ _ _ Hm Hg Ht) as (i & models & -> & Hf & Htm). cbn in H.
  pose proof (mv_purposes _ _ (models_view_of _ _ (proj1 Htm) Hf)) as Hp.
  destruct (get "purposes" models) as [table|] eqn:Hgp; [|done].
  destruct (table_under _ _ _ _ _ _ _ Hp Hgp Htm) as (i' & rows' & -> & Hr & Htr). injection H as ->.
  by exists i, models, i'.
Qed.

Lemma read_row_view rows name o :
  purposes_of doc = Some rows -> read_row name rows = Ok o -> md_purposes (sc_models s) !! name = o.
Proof using Ht Hv.
  intros (i & models & i' & _ & _ & _ & _ & Htr & Hr)%purposes_of_read. unfold read_row.
  pose proof (read_entries_lookup _ _ _ name (proj1 Htr) Hr) as Hl.
  destruct (get name rows) as [item|]; [|by intros [= <-]]. destruct Hl as (v & Hv' & ->). rewrite Hv'. by intros [= <-].
Qed.

Lemma read_row_ok rows name :
  purposes_of doc = Some rows -> read_row name rows = Ok (md_purposes (sc_models s) !! name).
Proof using Ht Hv.
  intros Hrows. pose proof (purposes_of_read rows Hrows) as (i & models & i' & _ & _ & _ & _ & Htr & Hr). unfold read_row.
  pose proof (read_entries_lookup _ _ _ name (proj1 Htr) Hr) as Hl.
  destruct (get name rows) as [item|]; [|by rewrite Hl]. by destruct Hl as (v & -> & ->).
Qed.

Lemma move_view rows from to def :
  purposes_of doc = Some rows -> from <> to -> md_purposes (sc_models s) !! from = Some def ->
  (forall other, md_purposes (sc_models s) !! to = Some other -> other = def) ->
  tidy_fields (move_purpose_table from to doc) /\ root_view os (move_purpose_table from to doc) (rebound from to s).
Proof using Ht Hv.
  intros (i & models & i' & Hg & Hgp & Htm & Hf & Htr & Hr)%purposes_of_read Hne Hfrom Hto.
  destruct (move_rows_read from to rows _ def Htr Hr Hne Hfrom Hto) as [Ht' Hr'].
  unfold move_purpose_table. cbn [edit_at]. rewrite Hg. cbn [edit_at]. rewrite Hgp. cbn [edit_at as_table_like default]. split.
  - apply tidy_put; [done|]. apply tidy_table, tidy_put; [done|]. by apply tidy_table.
  - unfold rebound. rewrite Hfrom. apply root_put_models; [done|]. unfold in_table. cbn [table_like as_table_like ok_or rbind].
    by apply models_put_purposes.
Qed.

(** No row, nothing to move. *)
Lemma no_purposes from : purposes_of doc = None -> md_purposes (sc_models s) !! from = None.
Proof using Ht Hv.
  unfold purposes_of. intros H. pose proof (rv_models _ _ _ Hv) as Hm. destruct (get "models" doc) as [child|] eqn:Hg.
  - destruct (table_under _ _ _ _ _ _ _ Hm Hg Ht) as (i & models & -> & Hf & Htm). cbn in H.
    pose proof (mv_purposes _ _ (models_view_of _ _ (proj1 Htm) Hf)) as Hp. destruct (get "purposes" models) as [table|] eqn:Hgp.
    + by destruct (table_under _ _ _ _ _ _ _ Hp Hgp Htm) as (i' & rows & -> & _).
    + by rewrite (reads_absent _ _ _ _ _ Hgp Hp).
  - by rewrite (reads_absent _ _ _ _ _ Hg Hm).
Qed.
End Move.

(** The conflict check of a move: the row it meets states the same. *)
Lemma merge_one to target binding :
  is_ok (merge_purposes (one_purpose to target) (one_purpose to (Some binding))).1 = true <->
  (forall other, target = Some other -> other = binding).
Proof.
  unfold merge_purposes, one_purpose. cbn. change (keys_of {[to := binding]}) with (keys_of ({[to := binding]} : gmap string PurposeDef)).
  assert (Hk : keys_of ({[to := binding]} : gmap string PurposeDef) = [to]).
  { unfold keys_of. rewrite dom_singleton_L, elements_singleton. done. }
  rewrite Hk. cbn. rewrite lookup_singleton_eq. destruct target as [other|].
  - rewrite lookup_singleton_eq. case_decide; cbn; naive_solver.
  - rewrite lookup_empty. cbn. naive_solver.
Qed.
