(* ===== verification/EditAdmit.v ===== *)
(** Edits of an admitted configuration: which are permitted, what a permitted one
    makes of the typed view, and that [set], [reset] and [rebind_purpose] do exactly
    that and leave an admitted configuration. *)

From S2P Require Import Prelude.
From S2P Require Import Contracts.
From S2P Require Import Text.
From S2P Require Import Requests.
From S2P Require Import Notifications.
From S2P Require Import Store.
From S2P Require Import Identity.
From S2P Require Import Routes.
From S2P Require Import Providers.
From S2P Require Import Toml.
From S2P Require Import Schema.
From S2P Require Import SchemaThms.
From S2P Require Import Edits.
From S2P Require Import EditsThms.
From S2P Require Import EditLaws.
From S2P Require Import EditRefine.
From S2P Require Import EditReset.

(** * The specification *)

(** The sections of a view. *)
Definition sections_of (p : ParsedDocument) : Sections :=
  mkSections (Some (pa_version p)) (pa_workflow p) (pa_decisions p) (pa_context p) (cf_connections (pa_routes p))
    (cf_profiles (pa_routes p)) (cf_models (pa_routes p)) (pa_hooks p) (pa_mcp p).

Lemma view_of_sections p v : v = pa_version p -> view_of (sections_of p) v = p.
Proof. intros ->. by destruct p as [? ? ? ? [] ? ?]. Qed.

(** An update of the sections, as an update of the view. *)
Definition on_view (f : Sections -> Sections) (p : ParsedDocument) : ParsedDocument := view_of (f (sections_of p)) (pa_version p).

(** What a value refers to is declared. *)
Definition refers_to_declared (target : EditTarget) (value : ConfigValue) (s : Sections) : Prop :=
  match value with
  | CModel m => all_declared (sc_connections s) (model_reference_names m)
  | CFallback f => all_declared (sc_connections s) (chain_names f)
  | CText text => match target with ConnectionProfile _ => is_Some (sc_profiles s !! text) | _ => True end
  | _ => True
  end.

(** The value is one its target takes; the target is there; what the value refers
    to is declared. *)
Record permitted (os : TargetOs) (target : EditTarget) (value : ConfigValue) (p : ParsedDocument) : Prop := mkPermitted {
  pm_item : is_ok (set_item EmptyString target value) = true;
  pm_target : target_ready os target value (sections_of p);
  pm_refers : refers_to_declared target value (sections_of p);
}.

(** A reset needs a target with something below it, and a declared connection. *)
Definition resettable (target : EditTarget) (p : ParsedDocument) : Prop :=
  is_override target = true /\
  match target with
  | ConnectionRegion name | ConnectionProfile name => is_Some (cf_connections (pa_routes p) !! name)
  | _ => True
  end.

(** The view is the view of the document that is retained, which holds its keys
    once. *)
Definition coherent (os : TargetOs) (c : FileConfig) : Prop :=
  exists doc, fc_raw c = Some doc /\ tidy_fields doc /\ validated_document os doc = Ok (fc_view c).

Lemma set_item_any key key' target value : is_ok (set_item key target value) = is_ok (set_item key' target value).
Proof. by destruct target, value. Qed.

Section Admit.
Variable os : TargetOs.

Lemma coherent_view doc p :
  tidy_fields doc ->
  validated_document os doc = Ok p <-> root_view os doc (sections_of p) /\ admitted os p.
Proof.
  intros Ht. rewrite validated_document_pass by apply Ht. split.
  - intros (s & Hv & Hver & Hp & Ha). split; [|done]. rewrite Hp. destruct s. cbn in *. by rewrite Hver in Hv.
  - intros [Hv Ha]. exists (sections_of p). split_and!; [done..| |done]. by rewrite view_of_sections.
Qed.

(** A document with another view. *)
Lemma coherent_on_view doc f p :
  tidy_fields doc -> root_view os doc (f (sections_of p)) -> sc_version (f (sections_of p)) = Some (pa_version p) ->
  admitted os (on_view f p) -> validated_document os doc = Ok (on_view f p).
Proof.
  intros Ht Hv Hver Ha. apply coherent_view; [done|]. split; [|done]. unfold on_view, view_of, sections_of at 1. cbn.
  destruct (f (sections_of p)). cbn in *. by subst.
Qed.

(** * Updates keep the view admissible *)

Lemma all_declared_mono (c c' : gmap string Connection) names :
  (forall name, is_Some (c !! name) -> is_Some (c' !! name)) -> all_declared c names -> all_declared c' names.
Proof. intros Hm Hd name Hn. by apply Hm, Hd. Qed.

(** Only declared connections and profiles matter to the references. *)
Lemma references_mono c c' m :
  (forall name, is_Some (c !! name) -> is_Some (c' !! name)) -> references_declared c m -> references_declared c' m.
Proof.
  intros Hm [Hd Hg Hp]. constructor.
  - intros d E. destruct (Hd d E). split; by eapply all_declared_mono.
  - intros name model E. eapply all_declared_mono; [exact Hm|]. by eapply Hg.
  - intros name p E. destruct (Hp name p E). constructor; [done|..]; intros; eapply all_declared_mono; eauto.
Qed.

Lemma references_purposes c m purposes :
  (forall name p, purposes !! name = Some p -> purpose_declared c (md_groups m) p) ->
  references_declared c m -> references_declared c (mkModels (md_defaults m) (md_groups m) purposes).
Proof. intros Hp [Hd Hg _]. by constructor. Qed.

(** The row a purpose starts from refers to declared things. *)
Lemma no_purpose_declared c g : purpose_declared c g no_purpose.
Proof. by constructor. Qed.

Lemma purpose_or_none c m name :
  references_declared c m -> purpose_declared c (md_groups m) (default no_purpose (md_purposes m !! name)).
Proof. intros [_ _ Hp]. destruct (md_purposes m !! name) eqn:E; cbn; [by eapply Hp|apply no_purpose_declared]. Qed.

(** Another row for one purpose. *)
Lemma references_s_purpose c m name f :
  (forall def, purpose_declared c (md_groups m) def -> purpose_declared c (md_groups m) (f def)) ->
  references_declared c m -> references_declared c (s_purpose name f m).
Proof.
  intros Hf Hr. apply references_purposes; [|done]. intros k p Hp. destruct (decide (k = name)) as [->|Hne].
  - rewrite lookup_insert_eq in Hp. injection Hp as <-. by apply Hf, purpose_or_none.
  - rewrite lookup_insert_ne in Hp by done. by eapply rd_purposes.
Qed.

Lemma references_alter_purpose c m name f :
  (forall def, purpose_declared c (md_groups m) def -> purpose_declared c (md_groups m) (f def)) ->
  references_declared c m ->
  references_declared c (mkModels (md_defaults m) (md_groups m) (alter f name (md_purposes m))).
Proof.
  intros Hf Hr. apply references_purposes; [|done]. intros k p Hp. destruct (decide (k = name)) as [->|Hne].
  - rewrite lookup_alter_eq in Hp. destruct (md_purposes m !! name) eqn:E; [|done]. injection Hp as <-.
    apply Hf. by eapply rd_purposes.
  - rewrite lookup_alter_ne in Hp by done. by eapply rd_purposes.
Qed.

Lemma references_s_defaults c m f :
  (forall d, all_declared c (model_reference_names (df_model d)) /\ all_declared c (chain_names (df_fallback d)) ->
     all_declared c (model_reference_names (df_model (f d))) /\ all_declared c (chain_names (df_fallback (f d)))) ->
  references_declared c m -> references_declared c (s_defaults f m).
Proof.
  intros Hf [Hd Hg Hp]. constructor; [|done..]. cbn. intros d E. destruct (md_defaults m) as [d0|]; [|done].
  injection E as <-. by apply Hf, Hd.
Qed.

Lemma references_s_group c m name v :
  all_declared c (model_reference_names v) -> references_declared c m -> references_declared c (s_group name v m).
Proof.
  intros Hv [Hd Hg Hp]. constructor; cbn; [done|..].
  - intros k model E. destruct (decide (k = name)) as [->|Hne].
    + rewrite lookup_insert_eq in E. by injection E as <-.
    + rewrite lookup_insert_ne in E by done. by eapply Hg.
  - intros k p E. destruct (Hp k p E) as [Hgr Hmo Hfa]. constructor; [|done..]. intros g Eg. specialize (Hgr g Eg).
    destruct (decide (g = name)) as [->|Hne]; [by rewrite lookup_insert_eq|by rewrite lookup_insert_ne].
Qed.

Lemma alter_is_Some {V} (f : V -> V) name k (m : gmap string V) : is_Some (alter f name m !! k) <-> is_Some (m !! k).
Proof.
  destruct (decide (k = name)) as [->|]; [rewrite lookup_alter_eq; apply fmap_is_Some|by rewrite lookup_alter_ne].
Qed.

Lemma alter_not_empty {V} (f : V -> V) name (m : gmap string V) : m <> ∅ -> alter f name m <> ∅.
Proof.
  intros Hm E. apply Hm, map_empty. intros k. apply eq_None_not_Some. rewrite <- (alter_is_Some f name), E, lookup_empty.
  apply is_Some_None.
Qed.

Lemma alter_Some {V} (f : V -> V) name k (m : gmap string V) v :
  alter f name m !! k = Some v -> m !! k = Some v \/ exists u, m !! k = Some u /\ k = name /\ v = f u.
Proof.
  destruct (decide (k = name)) as [->|]; [rewrite lookup_alter_eq|rewrite lookup_alter_ne by done; by left].
  intros (u & Hu & ->)%fmap_Some. right. eauto.
Qed.

Lemma admitted_models m p :
  admitted os p -> is_Some (md_defaults m) -> references_declared (cf_connections (pa_routes p)) m ->
  admitted os (on_view (fun s => s_models s m) p).
Proof. intros [] Hd Hr. by constructor. Qed.

Lemma admitted_profiles profiles p :
  admitted os p -> (forall k, is_Some (cf_profiles (pa_routes p) !! k) -> is_Some (profiles !! k)) ->
  admitted os (on_view (fun s => s_profiles s profiles) p).
Proof.
  intros [Hve Hc Hb Hd Hr] Hm. constructor; try done. intros name conn E. destruct (Hb name conn E). constructor; try done.
  intros profile Ep. by apply Hm, cb_profile.
Qed.

Lemma admitted_connections name f p :
  admitted os p ->
  (forall conn, cx_kind (f conn) = cx_kind conn /\ cx_credential_ref (f conn) = cx_credential_ref conn) ->
  (forall conn profile, cx_profile (f conn) = Some profile -> cx_profile conn = Some profile \/ is_Some (cf_profiles (pa_routes p) !! profile)) ->
  admitted os (on_view (fun s => s_connections s (alter f name (sc_connections s))) p).
Proof.
  intros [Hve Hc Hb Hd Hr] Hf Hp. constructor; cbn; try done.
  - by apply alter_not_empty.
  - intros k conn [E|(u & E & -> & ->)]%alter_Some; [by apply Hb|]. specialize (Hb name u E) as [Hb1 Hb2 Hb3].
    destruct (Hf u) as [Hk Hcr]. constructor; [by rewrite Hk, Hcr|by rewrite Hcr|].
    intros profile [Ep|Ep]%Hp; [by apply Hb3|done].
  - eapply references_mono; [|done]. intros k. by rewrite alter_is_Some.
Qed.

Lemma admitted_references p : admitted os p -> references_declared (cf_connections (pa_routes p)) (cf_models (pa_routes p)).
Proof. by intros []. Qed.

(** A permitted value leaves the view admissible. *)
Lemma admitted_applied target value p :
  admitted os p -> permitted os target value p -> admitted os (on_view (applied target value) p).
Proof.
  intros Ha [Hi Ht Hr]. pose proof (admitted_references p Ha) as Href. pose proof (am_defaults _ _ Ha) as [d Hd].
  destruct target, value; try discriminate Hi; cbn [applied refers_to_declared target_ready] in *.
  1-3: by destruct Ha; constructor.
  1-3: apply admitted_models; [done|cbn; rewrite Hd; by eexists|apply references_s_defaults; [intros d' []; by split|done]].
  - apply admitted_models; [done|cbn; rewrite Hd; by eexists|by apply references_s_group].
  - apply admitted_models; [done|cbn; rewrite Hd; by eexists|]. apply references_s_purpose; [|done]. intros def []; constructor; try done.
    cbn. by intros ? [= <-].
  - apply admitted_models; [done|cbn; rewrite Hd; by eexists|]. apply references_s_purpose; [|done]. by intros def []; constructor.
  - apply admitted_models; [done|cbn; rewrite Hd; by eexists|]. apply references_s_purpose; [|done]. intros def []; constructor; try done.
    cbn. by intros ? [= <-].
  - apply admitted_models; [done|cbn; rewrite Hd; by eexists|]. apply references_s_purpose; [|done]. by intros def []; constructor.
  - apply admitted_connections; [done..|]. intros conn profile. by left.
  - apply admitted_connections; [done..|]. intros conn profile [= <-]. by right.
  - apply admitted_profiles; [done|]. intros k. cbn. destruct (decide (k = name)) as [->|]; [by rewrite lookup_insert_eq|by rewrite lookup_insert_ne].
Qed.

Lemma admitted_purposes target p f name :
  admitted os p ->
  cleared target = (fun s => s_models s (mkModels (md_defaults (sc_models s)) (md_groups (sc_models s)) (alter f name (md_purposes (sc_models s))))) ->
  (forall c g def, purpose_declared c g def -> purpose_declared c g (f def)) ->
  admitted os (on_view (cleared target) p).
Proof.
  intros Ha -> Hf. apply admitted_models; [done|apply Ha|]. apply references_alter_purpose; [apply Hf|by apply admitted_references].
Qed.

Lemma admitted_cleared target p : admitted os p -> admitted os (on_view (cleared target) p).
Proof.
  intros Ha. destruct target; try by destruct Ha; constructor.
  1-4: eapply admitted_purposes; [done|reflexivity|by intros ??? []; constructor].
  - apply (admitted_connections name (with_region None)); [done..|]. intros conn profile. by left.
  - apply (admitted_connections name (with_profile None)); done.
  - apply (admitted_profiles (alter (fun _ => mkProfile None) name (cf_profiles (pa_routes p)))); [done|]. intros k. by rewrite alter_is_Some.
Qed.

Lemma admitted_rebound from to p : admitted os p -> admitted os (on_view (rebound from to) p).
Proof.
  intros Ha. pose proof (admitted_references p Ha) as Hr. unfold on_view, rebound. cbn.
  destruct (md_purposes (cf_models (pa_routes p)) !! from) as [def|] eqn:E; [|by rewrite view_of_sections].
  apply admitted_models; [done|apply Ha|]. apply references_purposes; [|done]. intros k q Hq.
  destruct (decide (k = to)) as [->|]; [rewrite lookup_insert_eq in Hq; injection Hq as <-; by eapply rd_purposes|].
  rewrite lookup_insert_ne in Hq by done. apply lookup_delete_Some in Hq as [_ Hq]. by eapply rd_purposes.
Qed.

(** * Judging what was written *)

(** A row is under a key of the document when the view has it. *)
Lemma declared_under {V} (read : string -> Item -> answer V) label doc key m name :
  tidy_fields doc -> reads (in_table label (read_entries read)) doc key ∅ = Ok m ->
  default false (contains_key name <$> (get key doc ≫= as_table_like)) = true <-> is_Some (m !! name).
Proof.
  intros Ht Hr. destruct (get key doc) as [child|] eqn:Hg.
  - destruct (table_under _ _ _ _ _ _ _ Hr Hg Ht) as (i & t & -> & Hread & Htt). cbn.
    pose proof (read_entries_lookup _ _ _ name (proj1 Htt) Hread) as Hl. unfold contains_key.
    destruct (get name t) as [item|]; cbn; [destruct Hl as (? & _ & ->); naive_solver|rewrite Hl]. split; [done|by intros []].
  - rewrite (reads_absent _ _ _ _ _ Hg Hr), lookup_empty. cbn. split; [done|by intros []].
Qed.

(** Which of the named connections the document declares. *)
Lemma typed_references_spec fields conns names typed :
  NoDup fields.*1 -> read_entries connection fields = Ok conns ->
  exists typed', typed_references fields names typed = Ok typed' /\
    forall n, is_Some (typed' !! n) <-> is_Some (typed !! n) \/ (n ∈ names /\ is_Some (conns !! n)).
Proof.
  intros Hn Hr. revert typed. induction names as [|name names IH]; intros typed; cbn.
  - exists typed. split; [done|]. intros n. rewrite elem_of_nil. naive_solver.
  - pose proof (read_entries_lookup connection fields conns name Hn Hr) as Hl. setoid_rewrite elem_of_cons.
    destruct (get name fields) as [item|].
    + destruct Hl as (conn & Hc & Hs). rewrite Hc. cbn. destruct (IH (<[name := conn]> typed)) as (typed' & -> & Hd).
      exists typed'. split; [done|]. intros n. rewrite Hd. destruct (decide (n = name)) as [->|Hne].
      * rewrite lookup_insert_eq. naive_solver.
      * rewrite lookup_insert_ne by done. naive_solver.
    + destruct (IH typed) as (typed' & -> & Hd). exists typed'. split; [done|]. intros n. rewrite Hd.
      destruct (decide (n = name)) as [->|Hne]; [|naive_solver]. rewrite Hl. naive_solver eauto using is_Some_None.
Qed.

Section Judged.
Variables (doc : Fields) (s : Sections) (key : string).
Hypothesis Ht : tidy_fields doc.
Hypothesis Hv : root_view os doc s.
Hypothesis Hc : sc_connections s <> ∅.

(** The connections of the document are those of the view. *)
Lemma connections_read :
  exists fields, get "connections" doc ≫= as_table_like = Some fields /\ NoDup fields.*1 /\
    read_entries connection fields = Ok (sc_connections s).
Proof using Ht Hv Hc.
  pose proof (rv_connections _ _ _ Hv) as Hr. destruct (get "connections" doc) as [child|] eqn:Hg.
  - destruct (table_under _ _ _ _ _ _ _ Hr Hg Ht) as (i & t & -> & Hread & Htt). exists t. split_and!; [done|apply Htt|done].
  - by rewrite (reads_absent _ _ _ _ _ Hg Hr) in Hc.
Qed.

Lemma validate_model_reference_pass model :
  validate_model_reference doc model key = Ok tt <-> all_declared (sc_connections s) (model_reference_names model).
Proof using Ht Hv Hc.
  destruct connections_read as (fields & Hf & Hn & Hr). unfold validate_model_reference. rewrite Hf.
  destruct (typed_references_spec fields _ (model_reference_names model) ∅ Hn Hr) as (typed & -> & Hd).
  cbn [rbind]. rewrite check_model_refs_pass. unfold all_declared. setoid_rewrite Hd. setoid_rewrite lookup_empty.
  split; intros Ha name Hin; specialize (Ha name Hin); [destruct Ha as [[? [=]]|[]]; done|by right].
Qed.

Lemma validate_fallback_reference_pass fallback :
  validate_fallback_reference doc fallback key = Ok tt <-> all_declared (sc_connections s) (chain_names fallback).
Proof using Ht Hv Hc.
  destruct connections_read as (fields & Hf & Hn & Hr). unfold validate_fallback_reference.
  destruct fallback as [chain| |]; [|split; [by intros _ ? ?%elem_of_nil|done]..]. rewrite Hf.
  destruct (typed_references_spec fields _ (map fm_connection chain) ∅ Hn Hr) as (typed & -> & Hd).
  cbn [rbind chain_names]. rewrite checks_pass. setoid_rewrite check_model_refs_pass. cbn [model_reference_names].
  unfold all_declared. setoid_rewrite Hd. setoid_rewrite lookup_empty. split.
  - intros Ha name Hin. pose proof Hin as (entry & -> & He)%list_elem_of_fmap.
    destruct (Ha entry He (fm_connection entry)) as [[? [=]]|[_ Hs]]; [by left|done].
  - intros Ha entry He name Hin%list_elem_of_singleton. right. subst name.
    assert (Hm : fm_connection entry ∈ map fm_connection chain) by (by apply list_elem_of_fmap_2).
    split; [done|by apply Ha].
Qed.

(** The item that was written is accepted when what it refers to is declared. *)
Lemma validate_item_pass target value item' :
  is_ok (set_item key target value) = true -> reads_as value item' ->
  (forall name text, target = ProfileCredentialRef name -> value = CText text -> exists r, secret_ref_parse os text = Ok r) ->
  validate_item os doc target key item' = Ok tt <-> refers_to_declared target value s.
Proof using Ht Hv Hc.
  intros Hi Hr Hp. destruct target, value; try discriminate Hi; cbn [reads_as] in Hr; cbn [validate_item refers_to_declared].
  all: try (rewrite Hr; cbn [rbind]; solve [done | by apply validate_model_reference_pass | by apply validate_fallback_reference_pass]).
  - rewrite Hr. by destruct value.
  - rewrite Hr, name_array_names. done.
  - rewrite Hr. cbn [as_str ok_or rbind]. rewrite <- (declared_under _ _ _ _ _ _ Ht (rv_profiles _ _ _ Hv)). by destruct (default false _).
  - rewrite Hr. cbn [as_str ok_or rbind]. rewrite admit_credential_pass. split; [done|]. intros _. by eapply Hp.
Qed.
End Judged.

(** A connection edit needs its row. *)
Lemma require_declared_pass doc s target key :
  tidy_fields doc -> root_view os doc s ->
  require_declared_connection doc target key = Ok tt <->
  match target with ConnectionRegion name | ConnectionProfile name => is_Some (sc_connections s !! name) | _ => True end.
Proof.
  intros Ht Hv. unfold require_declared_connection.
  destruct target; try done; rewrite <- (declared_under _ _ _ _ _ name Ht (rv_connections _ _ _ Hv)); by destruct (default false _).
Qed.

(** * The walk to a table *)

(** Every entry on a path, as far as there is one, is a table. *)
Fixpoint walkable (path : list string) (node : Item) : Prop :=
  match node with
  | TTable _ t =>
      match path with
      | [] => True
      | segment :: path => match get segment t with Some child => walkable path child | None => True end
      end
  | _ => False
  end.

Lemma walkable_empty i path : walkable path (TTable i []).
Proof. by destruct path. Qed.

Lemma ensure_walkable path key edit node :
  walkable path node -> exists i t t', node = TTable i t /\ ensure_table_like path key edit node = Ok (TTable i t').
Proof.
  revert node. induction path as [|segment path IH]; intros [| | | |i t|]; try done; cbn; [by eexists _, _, _|]. intros Hw.
  destruct (IH (default (TTable i []) (get segment t))) as (i' & t1 & t2 & _ & ->).
  { destruct (get segment t); [done|]. apply walkable_empty. }
  by eexists _, _, _.
Qed.

Lemma is_table_walkable item : is_table item = true -> walkable [] item.
Proof. by destruct item. Qed.

Lemma section_walkable {A} label (read : Fields -> answer A) doc unset x i :
  reads (in_table label read) doc label unset = Ok x -> walkable [label] (TTable i doc).
Proof.
  unfold reads. cbn. destruct (get label doc) as [child|]; [|done]. unfold in_table, table_like.
  intros (t & H & _)%rbind_Ok. by destruct child.
Qed.

Lemma rows_walkable {V} (read : string -> Item -> answer V) label fields key m name i :
  (forall name item v, read name item = Ok v -> is_table item = true) ->
  tidy_fields fields -> reads (in_table label (read_entries read)) fields key ∅ = Ok m -> walkable [key; name] (TTable i fields).
Proof.
  intros Htab Ht Hr. cbn. destruct (get key fields) as [child|] eqn:Hg; [|done].
  destruct (table_under _ _ _ _ _ _ _ Hr Hg Ht) as (j & t & -> & Hread & Htt). cbn.
  pose proof (read_entries_lookup _ _ _ name (proj1 Htt) Hread) as Hl. destruct (get name t) as [item|]; [|done].
  destruct Hl as (v & Hv & _). by eapply is_table_walkable, Htab.
Qed.

Lemma read_group_table name item v : read_group name item = Ok v -> is_table item = true.
Proof. unfold read_group. intros (t & H & _)%rbind_Ok. apply ok_or_Ok in H. by destruct item. Qed.

(** The path of every target leads through the tables of a document that reads. *)
Lemma path_walkable doc s target : tidy_fields doc -> root_view os doc s -> walkable (target_path target).1 (TTable false doc).
Proof.
  intros Ht Hv. pose proof (rv_models _ _ _ Hv) as Hm.
  assert (Hmodels : forall path, (forall i t, tidy_fields t -> models_table t = Ok (sc_models s) -> walkable path (TTable i t)) ->
            walkable ("models" :: path) (TTable false doc)).
  { intros path Hp. cbn. destruct (get "models" doc) as [child|] eqn:Hg; [|done].
    destruct (table_under _ _ _ _ _ _ _ Hm Hg Ht) as (i & t & -> & Hread & Htt). by apply Hp. }
  destruct target; cbn [target_path fst];
    try (by eapply section_walkable, Hv); try (by eapply rows_walkable, Hv; [apply connection_table || apply profile_table|..]);
    apply Hmodels; intros i t Htt Hread; destruct (models_view_of _ _ (proj1 Htt) Hread) as [_ Hd Hg Hp].
  1-3: cbn; unfold reads in Hd; destruct (get "defaults" t) as [child|]; [|done]; unfold some_of, read_defaults in Hd;
    apply rbind_Ok in Hd as (? & Hd & _); apply rbind_Ok in Hd as (? & Hd & _); apply ok_or_Ok in Hd; by destruct child.
  all: eapply rows_walkable; [|done..]; first [apply read_group_table | apply read_purpose_table].
Qed.

(** * The edits *)

(** What was written is what is judged. *)
Lemma written_slot doc path field key item doc' :
  flat item -> tidy_fields doc -> ensure_in doc path key (fun t => set_field t field item) = Ok doc' ->
  exists item', slot path field (TTable false doc') = Some item' /\ agrees item item' /\ tidy_fields doc'.
Proof.
  intros Hf Ht (node & He & Hn)%rbind_Ok. destruct (ensure_slot path key field item (TTable false doc) node Hf) as (item' & Hs & Ha & Hti);
    [by apply tidy_table|done|].
  assert (Hi : node = TTable false doc').
  { apply ok_or_Ok in Hn. destruct path; [apply ensure_nil in He as (? & ? & [= <- <-] & ->)|apply ensure_cons in He as (? & ? & ? & [= <- <-] & -> & _)];
      by injection Hn as <-. }
  subst node. exists item'. split_and!; [done..|]. by apply tidy_table in Hti.
Qed.

Lemma validate_slot doc target key :
  validate_target os (Some doc) target key =
    match slot (target_path target).1 (target_path target).2 (TTable false doc) with
    | None => Ok tt
    | Some item => validate_item os doc target key item
    end.
Proof. unfold validate_target. by destruct (target_path target). Qed.

Lemma removed_slot path field node : slot path field (remove_at path field node) = None.
Proof.
  unfold slot. revert node. induction path as [|segment path IH]; intros [| | | |i t|]; cbn; try done.
  - rewrite get_del. by rewrite decide_True.
  - destruct (get segment t) as [child|] eqn:Hg; cbn; [|by rewrite Hg]. rewrite get_put_same. cbn. apply IH.
Qed.

(** An edit of the document is judged by what it refers to, and read as the update. *)
Lemma written_judged doc p key target value item doc' :
  tidy_fields doc -> root_view os doc (sections_of p) -> admitted os p -> set_item key target value = Ok item ->
  require_declared_connection doc target key = Ok tt ->
  ensure_in doc (target_path target).1 key (fun t => set_field t (target_path target).2 item) = Ok doc' ->
  tidy_fields doc' /\ (validate_target os (Some doc') target key = Ok tt <-> permitted os target value p) /\
  (permitted os target value p -> root_view os doc' (applied target value (sections_of p))).
Proof.
  intros Ht Hv Ha Hitem Hd He. pose proof (set_item_flat _ _ _ _ Hitem) as Hf.
  destruct (written_slot _ _ _ _ _ _ Hf Ht He) as (item' & Hs & Hag & Ht').
  assert (Hi : is_ok (set_item EmptyString target value) = true) by (by rewrite (set_item_any _ key), Hitem).
  assert (Hview : target_ready os target value (sections_of p) -> root_view os doc' (applied target value (sections_of p))).
  { intros Hr. apply (set_view os doc _ key target value item); [done..|apply Ha|done|done|done]. }
  split_and!; [done| |intros Hp; apply Hview, Hp]. rewrite validate_slot, Hs.
  pose proof (set_item_reads key target value item item' Hitem Hag) as Hreads.
  apply (require_declared_pass doc (sections_of p)) in Hd; [|done..].
  assert (Hcase : (exists name text, target = ProfileCredentialRef name /\ value = CText text) \/ target_ready os target value (sections_of p)).
  { destruct target, value; try discriminate Hi; try (by right). left. by eexists _, _. }
  destruct Hcase as [(name & text & -> & ->)|Hr].
  - cbn [reads_as] in Hreads. rewrite Hreads. cbn [validate_item as_str ok_or rbind]. rewrite admit_credential_pass.
    split; [by intros Hr; constructor|by intros []].
  - rewrite (validate_item_pass doc' (applied target value (sections_of p)) key Ht' (Hview Hr)).
    + split; [intros Hp; constructor; [done..|]|intros []]; by destruct target, value.
    + destruct Ha. destruct target, value; try discriminate Hi; cbn; try done; by apply alter_not_empty.
    + by rewrite (set_item_any _ EmptyString).
    + done.
    + intros name text -> ->. apply Hr.
Qed.

(** A configuration whose document takes another view. *)
Lemma refreshed doc p view : validated_document os doc = Ok p -> refresh_view_if_valid os (mkFileConfig view (Some doc)) = mkFileConfig p (Some doc).
Proof. unfold refresh_view_if_valid. cbn. by intros ->. Qed.

Lemma applied_version target value s : sc_version (applied target value s) = sc_version s.
Proof. by destruct target, value. Qed.
Lemma cleared_version target s : sc_version (cleared target s) = sc_version s.
Proof. by destruct target. Qed.
Lemma rebound_version from to s : sc_version (rebound from to s) = sc_version s.
Proof. unfold rebound. by destruct (md_purposes (sc_models s) !! from). Qed.

(** What an edit answers and leaves. *)
Definition edited_to (doc : Fields) (view : ParsedDocument) (c : FileConfig) : Prop :=
  c = mkFileConfig view (Some doc) /\ coherent os c.

Lemma set_spec c key value :
  coherent os c ->
  match set os key value c with
  | (Ok doc, c') => exists target, edit_target key = Ok target /\ permitted os target value (fc_view c) /\
                      edited_to doc (on_view (applied target value) (fc_view c)) c'
  | (Err _, c') => c' = c /\ forall target, edit_target key = Ok target -> ~ permitted os target value (fc_view c)
  end.
Proof.
  intros (doc & Hraw & Ht & Hval). pose proof (proj1 (coherent_view doc _ Ht) Hval) as [Hv Ha]. unfold set.
  destruct (edit_target key) as [target|e] eqn:Htarget; cbn [rbind]; [|by split; [|intros ? [=]]].
  destruct (set_item key target value) as [item|e] eqn:Hitem; cbn [rbind].
  2: { split; [done|]. intros ? [= <-] [Hi _ _]. by rewrite (set_item_any _ key), Hitem in Hi. }
  rewrite (surjective_pairing (target_path target)). unfold edit_document. rewrite Hraw.
  assert (Hc : mkFileConfig (fc_view c) (Some doc) = c) by (destruct c; cbn in *; by subst).
  destruct (require_declared_connection doc target key) as [[]|e] eqn:Hd; cbn [rbind commit_edit].
  2: { unfold commit_edit. cbn. split; [done|]. intros ? [= <-] [_ Hr _].
       assert (require_declared_connection doc target key = Ok tt) as E; [|by rewrite Hd in E].
       apply (require_declared_pass doc (sections_of (fc_view c))); [done..|]. by destruct target. }
  pose proof (path_walkable doc _ target Ht Hv) as Hw.
  destruct (ensure_walkable (target_path target).1 key (fun t => set_field t (target_path target).2 item) _ Hw) as (i & t & t' & [= <- <-] & He).
  assert (He' : ensure_in doc (target_path target).1 key (fun t => set_field t (target_path target).2 item) = Ok t')
    by (unfold ensure_in; by rewrite He).
  rewrite He'. destruct (written_judged doc (fc_view c) key target value item t' Ht Hv Ha Hitem Hd He') as (Ht' & Hj & Hview).
  unfold commit_edit. cbn [rbind fc_raw fc_view]. destruct (validate_target os (Some t') target key) as [[]|e].
  - pose proof (proj1 Hj eq_refl) as Hp. exists target. split_and!; [done..|].
    assert (Hval' : validated_document os t' = Ok (on_view (applied target value) (fc_view c))).
    { apply coherent_on_view; [done|by apply Hview|by rewrite applied_version|by apply admitted_applied]. }
    rewrite (refreshed _ _ _ Hval'). split; [done|]. by exists t'.
  - split; [done|]. intros ? [= <-] Hp%Hj. done.
Qed.

Lemma reset_spec c key :
  coherent os c ->
  match reset os key c with
  | (Ok doc, c') => exists target, edit_target key = Ok target /\ resettable target (fc_view c) /\
                      edited_to doc (on_view (cleared target) (fc_view c)) c'
  | (Err _, c') => c' = c /\ forall target, edit_target key = Ok target -> ~ resettable target (fc_view c)
  end.
Proof.
  intros (doc & Hraw & Ht & Hval). pose proof (proj1 (coherent_view doc _ Ht) Hval) as [Hv Ha]. unfold reset.
  destruct (edit_target key) as [target|e] eqn:Htarget; [|by split; [|intros ? [=]]].
  destruct (is_override target) eqn:Ho; cbn [negb]; [|split; [done|intros ? [= <-] [Hr _]; by rewrite Ho in Hr]].
  rewrite (surjective_pairing (target_path target)). unfold edit_document. rewrite Hraw.
  assert (Hc : mkFileConfig (fc_view c) (Some doc) = c) by (destruct c; cbn in *; by subst).
  pose proof (require_declared_pass doc _ target key Ht Hv) as Hd.
  destruct (require_declared_connection doc target key) as [[]|e]; cbn [rbind].
  2: { unfold commit_edit. cbn. split; [done|]. intros ? [= <-] [_ Hr]. assert (Err e = @Ok unit _ tt) as [=].
       apply Hd. by destruct target. }
  pose proof (remove_in_tidy doc (target_path target).1 (target_path target).2 Ht) as Ht'.
  pose proof (reset_view os doc _ target Ht Hv Ho) as Hview.
  set (doc' := remove_in doc _ _) in *. unfold commit_edit. cbn [rbind fc_raw fc_view].
  assert (Hslot : slot (target_path target).1 (target_path target).2 (TTable false doc') = None).
  { subst doc'. rewrite <- (removed_slot (target_path target).1 (target_path target).2 (TTable false doc)) at 1. f_equal.
    unfold remove_in. destruct (target_path target).1 as [|seg path]; cbn; [done|]. by destruct (get seg doc). }
  rewrite validate_slot, Hslot. exists target. split_and!; [done| |].
  { split; [done|]. by destruct target; try exact I; apply (proj1 Hd eq_refl). }
  assert (Hval' : validated_document os doc' = Ok (on_view (cleared target) (fc_view c))).
  { apply coherent_on_view; [done..|by rewrite cleared_version|by apply admitted_cleared]. }
  rewrite (refreshed _ _ _ Hval'). split; [done|]. by exists doc'.
Qed.

Lemma rebound_same from p def :
  md_purposes (cf_models (pa_routes p)) !! from = Some def -> on_view (rebound from from) p = p.
Proof.
  intros Hf. unfold on_view, rebound. cbn. rewrite Hf. rewrite insert_delete_id by done.
  by destruct p as [? ? ? ? [? ? []] ? ?].
Qed.

Lemma rebind_spec c from to :
  coherent os c ->
  let purposes := md_purposes (cf_models (pa_routes (fc_view c))) in
  match rebind_purpose os from to c with
  | (Ok None, c') => c' = c /\ purposes !! from = None
  | (Ok (Some doc), c') =>
      (exists def, purposes !! from = Some def /\ forall other, purposes !! to = Some other -> other = def) /\
      edited_to doc (on_view (rebound from to) (fc_view c)) c'
  | (Err _, c') => c' = c /\ exists def other, purposes !! from = Some def /\ purposes !! to = Some other /\ other <> def
  end.
Proof.
  intros (doc & Hraw & Ht & Hval) purposes. pose proof (proj1 (coherent_view doc _ Ht) Hval) as [Hv Ha].
  unfold rebind_purpose. rewrite Hraw. cbn [mbind option_bind].
  destruct (purposes_of doc) as [rows|] eqn:Hrows; [|split; [done|exact (no_purposes os doc _ Ht Hv from Hrows)]].
  rewrite (read_row_ok os doc _ Ht Hv rows from Hrows).
  change (md_purposes (sc_models (sections_of (fc_view c)))) with purposes.
  destruct (purposes !! from) as [def|] eqn:Hfrom; [|done].
  rewrite (read_row_ok os doc _ Ht Hv rows to Hrows). cbn [rbind].
  change (md_purposes (sc_models (sections_of (fc_view c)))) with purposes.
  pose proof (merge_one to (purposes !! to) def) as Hm.
  destruct (merge_purposes (one_purpose to (purposes !! to)) (one_purpose to (Some def))).1 as [[]|e]; cbn [is_ok] in Hm.
  - pose proof (proj1 Hm eq_refl) as Hto. split; [by exists def|]. case_decide as Hne.
    + destruct (move_view os doc _ Ht Hv rows from to def Hrows Hne Hfrom Hto) as [Ht' Hview]. cbn [fmap option_fmap option_map].
      assert (Hval' : validated_document os (move_purpose_table from to doc) = Ok (on_view (rebound from to) (fc_view c))).
      { apply coherent_on_view; [done..|by rewrite rebound_version|by apply admitted_rebound]. }
      rewrite (refreshed _ _ _ Hval'). split; [done|]. by eexists.
    + assert (from = to) as <- by (destruct (decide (from = to)); done). rewrite (rebound_same from _ def Hfrom).
      destruct c as [view raw]. cbn in *. subst raw. rewrite (refreshed _ _ view Hval). split; [done|]. by exists doc.
  - split; [done|]. exists def. destruct (purposes !! to) as [other|].
    + exists other. split_and!; [done..|]. intros ->. assert (false = true); [|done]. apply Hm. by intros ? [= <-].
    + assert (false = true); [|done]. by apply Hm.
Qed.

(** * Runs of edits *)

(** The edits a client asks for. *)
Inductive EditOp :=
  | OpSet (key : string) (value : ConfigValue)
  | OpSetWire (key : string) (value : Value)
  | OpReset (key : string)
  | OpRebind (from to : string).

Definition run_op (op : EditOp) (c : FileConfig) : FileConfig :=
  match op with
  | OpSet key value => (set os key value c).2
  | OpSetWire key value => (set_wire os key value c).2
  | OpReset key => (reset os key c).2
  | OpRebind from to => (rebind_purpose os from to c).2
  end.

Lemma edited_coherent doc view c : edited_to doc view c -> coherent os c.
Proof. by intros []. Qed.

Lemma run_op_coherent op c : coherent os c -> coherent os (run_op op c).
Proof.
  intros Hc. destruct op as [key value|key value|key|from to]; cbn [run_op].
  - pose proof (set_spec c key value Hc) as Hs. destruct (set os key value c) as [[doc|e] c'].
    + destruct Hs as (target & _ & _ & He). by eapply edited_coherent.
    + by destruct Hs as [-> _].
  - unfold set_wire. destruct (wire_value key value) as [v|e]; [|done].
    pose proof (set_spec c key v Hc) as Hs. destruct (set os key v c) as [[doc|e] c'].
    + destruct Hs as (target & _ & _ & He). by eapply edited_coherent.
    + by destruct Hs as [-> _].
  - pose proof (reset_spec c key Hc) as Hs. destruct (reset os key c) as [[doc|e] c'].
    + destruct Hs as (target & _ & _ & He). by eapply edited_coherent.
    + by destruct Hs as [-> _].
  - pose proof (rebind_spec c from to Hc) as Hs. destruct (rebind_purpose os from to c) as [[[doc|]|e] c'].
    + destruct Hs as [_ He]. by eapply edited_coherent.
    + by destruct Hs as [-> _].
    + by destruct Hs as [-> _].
Qed.

Lemma run_ops_coherent ops c : coherent os c -> coherent os (foldl (fun c op => run_op op c) c ops).
Proof. revert c. induction ops as [|op ops IH]; intros c Hc; cbn; [done|]. by apply IH, run_op_coherent. Qed.

(** The moves a plan keeps are the moves that are then made. *)
Lemma plan_moves_apply moves planned c edit :
  coherent os c -> plan_moves os moves c = Ok planned ->
  exists edit' c', move_bindings os planned edit c = (Ok edit', c') /\ coherent os c'.
Proof.
  revert planned c edit. induction moves as [|[from to] moves IH]; intros planned c edit Hc Hp; cbn in Hp.
  - injection Hp as <-. by exists edit, c.
  - pose proof (rebind_spec c from to Hc) as Hs. destruct (rebind_purpose os from to c) as [[moved|e] c1] eqn:Hr; [|done].
    cbn in Hp. apply rbind_Ok in Hp as (rest & Hrest & [= <-]). destruct moved as [doc|].
    + destruct Hs as [_ He]. cbn. rewrite Hr. apply IH; [|done]. by eapply edited_coherent.
    + destruct Hs as [-> _]. by apply IH.
Qed.

End Admit.
