(* ===== verification/Effective.v ===== *)
(** The effective configuration ([src/src/config.rs]): the base this build serves
    beneath the user's document, and the entries a read answers.

    The TOML parser and the digest are parameters.  A base states defaults; a user
    document states what is its own; [composed] is what a dispatch acts on. *)

From S2P Require Import Prelude.
From S2P Require Import Contracts.
From S2P Require Import Text.
From S2P Require Import Requests.
From S2P Require Import Notifications.
From S2P Require Import Store.
From S2P Require Import Identity.
From S2P Require Import Routes.
From S2P Require Import Providers.
From S2P Require Import Toml.
From S2P Require Import Schema.
From S2P Require Import Edits.

(** * The base *)

(** [BaseSource], [BaseLayer] *)
Record BaseSource := mkBase { bs_version : Z; bs_text : string }.

Record BaseLayer := mkLayer {
  bl_version : Z;
  bl_digest : string;
  bl_workflow : option bool;
  bl_decisions : option DecisionModeValue;
  bl_context : option bool;
  bl_models : Models;
}.

(** [stated_fields], [SemanticInputs::of]: the purposes the base declares, and the
    fields each of the user's rows states. *)
Definition stated_fields (def : PurposeDef) : list string :=
  map fst (filter (fun f => f.2 = true)
    [("group", is_some (pp_group def)); ("model", is_some (pp_model def)); ("effort", is_some (pp_effort def));
     ("fallback", is_some (pp_fallback def)); ("pool", is_some (pp_pool def)); ("eligible", is_some (pp_eligible def))]).

(** * Read entries *)

Record ConfigSource := mkSource { so_kind : string; so_revision : string; so_target : option string }.
Inductive ConfigViewValue := Visible (value : Value) | Redacted.
Record ConfigEntry := mkConfigEntry { en_key : string; en_effective : ConfigViewValue; en_source : ConfigSource }.

Definition entry_of (kind : string) (key : string) (value : Value) (revision : string) : ConfigEntry :=
  mkConfigEntry key (Visible value) (mkSource kind revision None).

(** [user_flag_entry], [base_flag_entry], [user_decisions_entry],
    [base_decisions_entry] *)
Definition user_flag_entry (key : string) (value : bool) : string -> ConfigEntry := entry_of "user" key (JBool value).
Definition base_flag_entry (key : string) (value : bool) : string -> ConfigEntry := entry_of "shipped" key (JBool value).
Definition user_decisions_entry (value : DecisionModeValue) : string -> ConfigEntry :=
  entry_of "user" "decisions.mode" (JString (decision_as_str value)).
Definition base_decisions_entry (value : DecisionModeValue) : string -> ConfigEntry :=
  entry_of "shipped" "decisions.mode" (JString (decision_as_str value)).

(** * Composition *)

(** [compose_defaults]: a slot the user defers takes the base's value. *)
Definition compose_defaults (base user : option Defaults) : option Defaults :=
  match user with
  | None => base
  | Some defaults =>
      Some match base with
           | None => defaults
           | Some base =>
               mkDefaults
                 (match df_model defaults with InheritModel => df_model base | model => model end)
                 (match df_effort defaults with InheritEffort => df_effort base | effort => effort end)
                 (df_fallback defaults)
           end
  end.

(** [compose_models]: a row or a group the user writes is the user's whole. *)
Definition compose_models (base user : Models) : Models :=
  mkModels (compose_defaults (md_defaults base) (md_defaults user))
    (md_groups user ∪ md_groups base) (md_purposes user ∪ md_purposes base).

(** [Option::or] *)
Definition option_or {A} (a b : option A) : option A := match a with Some _ => a | None => b end.

(** [EffectiveConfig] *)
Record EffectiveConfig := mkEffective {
  ef_sources_digest : string;
  ef_base : BaseLayer;
  ef_parsed : option FileConfig;
  ef_workflow_entry : ConfigEntry;
  ef_decisions_entry : ConfigEntry;
  ef_context_entry : ConfigEntry;
}.

(** [EffectiveConfig::retained] *)
Definition retained (e : EffectiveConfig) : FileConfig := default no_config (ef_parsed e).

(** [EffectiveConfig::composed] *)
Definition composed_view (base : BaseLayer) (user : ParsedDocument) : ParsedDocument :=
  mkParsed (pa_version user) (option_or (pa_workflow user) (bl_workflow base))
    (option_or (pa_decisions user) (bl_decisions base)) (option_or (pa_context user) (bl_context base))
    (mkConfig (cf_connections (pa_routes user)) (cf_profiles (pa_routes user))
       (compose_models (bl_models base) (cf_models (pa_routes user))))
    (pa_hooks user) (pa_mcp user).
Definition composed (e : EffectiveConfig) : FileConfig :=
  let user := retained e in mkFileConfig (composed_view (ef_base e) (fc_view user)) (fc_raw user).

(** [EffectiveConfig::decisions_mode] *)
Definition decisions_mode (e : EffectiveConfig) : DecisionMode := decisions_mode_of (pa_decisions (fc_view (composed e))).

(** [EffectiveConfig::refresh_mode_entries] *)
Definition workflow_entry (base : BaseLayer) (user : option FileConfig) (revision : string) : ConfigEntry :=
  match user ≫= (fun c => pa_workflow (fc_view c)) with
  | Some value => user_flag_entry "workflow.enabled" value revision
  | None => base_flag_entry "workflow.enabled" (default true (bl_workflow base)) (bl_digest base)
  end.
Definition decisions_entry (base : BaseLayer) (user : option FileConfig) (revision : string) : ConfigEntry :=
  match user ≫= (fun c => pa_decisions (fc_view c)) with
  | Some value => user_decisions_entry value revision
  | None => base_decisions_entry (default DecideAsk (bl_decisions base)) (bl_digest base)
  end.
Definition context_entry (base : BaseLayer) (user : option FileConfig) (revision : string) : ConfigEntry :=
  match user ≫= (fun c => pa_context (fc_view c)) with
  | Some value => user_flag_entry "context.auto_compact" value revision
  | None => base_flag_entry "context.auto_compact" (default false (bl_context base)) (bl_digest base)
  end.
Definition refresh_mode_entries (revision : string) (e : EffectiveConfig) : EffectiveConfig :=
  mkEffective (ef_sources_digest e) (ef_base e) (ef_parsed e) (workflow_entry (ef_base e) (ef_parsed e) revision)
    (decisions_entry (ef_base e) (ef_parsed e) revision) (context_entry (ef_base e) (ef_parsed e) revision).

Section Effective.
Variable os : TargetOs.
Variable parse_toml : string -> result Fields string.
Variable sha256_hex : string -> string.

(** [BaseSource::digest], [BaseSource::layer] *)
Definition base_digest (base : BaseSource) : string := sha256_hex (bs_text base).
Definition base_layer (base : BaseSource) : answer BaseLayer :=
  let? doc := map_err parse_error (parse_toml (bs_text base)) in
  let? sections := validated_base doc in
  let '(workflow, decisions, context, models) := sections in
  Ok (mkLayer (bs_version base) (base_digest base) workflow decisions context models).

(** [sources_digest_on] *)
Definition sources_digest_on (base : BaseSource) (user : string) : string := sha256_hex (bs_text base +:+ user).

(** [resolve_effective_on] *)
Definition resolve_effective_on (base : BaseSource) (user_toml : option string) : answer EffectiveConfig :=
  let? parsed :=
    match user_toml with
    | Some text => let? c := parse_validated os parse_toml text in Ok (Some c)
    | None => Ok None
    end in
  let? layer := base_layer base in
  let user := default EmptyString user_toml in
  let effective :=
    mkEffective (sources_digest_on base user) layer parsed
      (base_flag_entry "workflow.enabled" (default true (bl_workflow layer)) (bl_digest layer))
      (base_decisions_entry (default DecideAsk (bl_decisions layer)) (bl_digest layer))
      (base_flag_entry "context.auto_compact" (default false (bl_context layer)) (bl_digest layer)) in
  let effective := refresh_mode_entries (sha256_hex user) effective in
  let routes := pa_routes (fc_view (composed effective)) in
  let? _ := check_model_references (cf_connections routes) (cf_models routes) in
  Ok effective.

(** [SemanticInputs::of] *)
Definition semantic_inputs (e : EffectiveConfig) : list string * list (string * list string) :=
  (keys_of (md_purposes (bl_models (ef_base e))),
   match ef_parsed e with
   | Some user =>
       map (fun '(key, def) => (key, stated_fields def)) (entries_of (md_purposes (cf_models (pa_routes (fc_view user)))))
   | None => []
   end).
End Effective.
