(* ===== verification/ConfigProps.v ===== *)
(** The properties of the configuration: what its edits keep and mean, what they read
    back, the one schema of its two carriers, the addresses, the hints, and the
    composition with the shipped base. *)

From S2P Require Import Prelude.
From S2P Require Import Contracts.
From S2P Require Import Text.
From S2P Require Import Requests.
From S2P Require Import Notifications.
From S2P Require Import Store.
From S2P Require Import Identity.
From S2P Require Import Routes.
From S2P Require Import Providers.
From S2P Require Import Toml.
From S2P Require Import Schema.
From S2P Require Import SchemaThms.
From S2P Require Import Edits.
From S2P Require Import EditsThms.
From S2P Require Import EditLaws.
From S2P Require Import EditRefine.
From S2P Require Import EditReset.
From S2P Require Import EditAdmit.
From S2P Require Import Effective.

(** * A sample configuration *)

Fixpoint is_tidy (item : Item) : bool :=
  match item with
  | TTable _ fields => bool_decide (NoDup fields.*1) && forallb (fun e => is_tidy e.2) fields
  | _ => true
  end.

Lemma is_tidy_tidy item : is_tidy item = true -> tidy item.
Proof.
  revert item. fix IH 1. intros [| | | |i t|] H; try exact I.
  apply andb_true_iff in H as [Hn Ht]. apply bool_decide_eq_true in Hn. split; [done|]. clear Hn.
  induction t as [|e t IHt]; cbn in *; [exact I|]. apply andb_true_iff in Ht as [He Ht]. split; [by apply IH|by apply IHt].
Qed.

Definition sample_connection : Item :=
  TTable false [("kind", TString "api_key"); ("endpoint", TString "https://api.openai.com"); ("credential_ref", TString "keychain:rivect/openai")].
Definition sample_doc : Fields :=
  [("config_version", TInteger 1);
   ("connections", TTable false [("openai", sample_connection); ("backup", sample_connection)]);
   ("models", TTable false
      [("defaults", TTable false
          [("model", model_item (Fixed (mkFixed "openai" "gpt-5"))); ("effort", effort_item AutoEffort);
           ("fallback", fallback_item ManualFallback)]);
       ("purposes", TTable false [("plan", TTable false [("effort", effort_item (FixedEffort High))])])])].
Definition sample_os : TargetOs := OtherOs.
Definition sample_config : FileConfig :=
  match parse_validated sample_os (fun _ => Ok sample_doc) EmptyString with Ok c => c | Err _ => no_config end.

Lemma sample_coherent : coherent sample_os sample_config.
Proof. exists sample_doc. split_and!; [by vm_compute|by apply (tidy_table true), is_tidy_tidy; vm_compute|by vm_compute]. Qed.

(** * Reading back *)

Lemma carrier_is key carrier :
  carrier_for key = Some carrier ->
  carrier ∈ CONFIG_CARRIERS /\ exists names, carrier_names carrier key = Some names.
Proof.
  unfold carrier_for. intros [Hin Hn]%find_Some. split; [done|]. destruct (carrier_names carrier key) as [names|]; [by exists names|done].
Qed.

(** A readable key is edited at the target of its carrier. *)
Lemma carrier_target key carrier names target :
  carrier_for key = Some carrier -> carrier_names carrier key = Some names -> edit_target key = Ok target ->
  target = ca_target carrier names.
Proof.
  intros Hc Hn. unfold edit_target. destruct (key_segments key) as [segments|]; [|done]. case_decide; [done|].
  rewrite Hc. cbn. rewrite Hn. cbn. by intros [= <-].
Qed.

(** What a wire value is taken as, by the target it is for. *)
Lemma wire_value_target key value v :
  wire_value key value = Ok v ->
  exists target, edit_target key = Ok target /\
    match target, value with
    | (WorkflowEnabled | ContextAutoCompact), JBool b => v = CBool b
    | DecisionsMode, JString mode => exists m, decision_parse mode = Some m /\ v = CDecisionMode m
    | (ConnectionRegion _ | ConnectionProfile _ | ProfileCredentialRef _), JString text => v = CText text
    | (WorkflowEnabled | ContextAutoCompact | DecisionsMode | ConnectionRegion _ | ConnectionProfile _ | ProfileCredentialRef _), _ => False
    | _, _ => True
    end.
Proof.
  unfold wire_value. intros (target & Ht & H)%rbind_Ok. exists target. split; [done|].
  destruct target, value; try exact I; try discriminate H; try (by injection H as <-).
  apply rbind_Ok in H as (m & Hm & [= <-]). apply ok_or_Ok in Hm. by exists m.
Qed.

Lemma decision_parse_as_str mode m : decision_parse mode = Some m -> decision_as_str m = mode.
Proof. unfold decision_parse. intros H. repeat (case_decide; [by simplify_eq|]). done. Qed.

(** The value a carrier reads after its target was set. *)
Lemma carrier_reads os carrier names key value v p :
  carrier ∈ CONFIG_CARRIERS -> wire_value key value = Ok v -> edit_target key = Ok (ca_target carrier names) ->
  permitted os (ca_target carrier names) v p ->
  ca_read carrier (on_view (applied (ca_target carrier names) v) p) names = Some value.
Proof.
  intros Hin (target & Ht & Hw)%wire_value_target Hc. rewrite Ht in Hc. injection Hc as ->. intros [_ Hr _].
  unfold CONFIG_CARRIERS in Hin. repeat (apply elem_of_cons in Hin as [->|Hin]); [..|by apply elem_of_nil in Hin];
    cbn [ca_target ca_read] in *; destruct value; try done.
  - by subst v.
  - destruct Hw as (m & Hm & ->). cbn. by rewrite (decision_parse_as_str _ _ Hm).
  - by subst v.
  - subst v. destruct Hr as [c Hc]. cbn in *. by rewrite lookup_alter_eq, Hc.
  - subst v. destruct Hr as [c Hc]. cbn in *. by rewrite lookup_alter_eq, Hc.
  - subst v. cbn. by rewrite lookup_insert_eq.
Qed.

(** * The composition *)

(** The layer that answers a key: the user's where it states it. *)
Definition answering {A} (sha256_hex : string -> string) (base : BaseSource) (user : option string) (stated : option A) : ConfigSource :=
  match stated with
  | Some _ => mkSource "user" (sha256_hex (default EmptyString user)) None
  | None => mkSource "shipped" (sha256_hex (bs_text base)) None
  end.

Lemma composed_defaults base user : is_Some user -> is_Some (compose_defaults base user).
Proof. intros [d ->]. by eexists. Qed.

Lemma resolves_of routes name :
  is_Some (md_defaults (cf_models routes)) -> references_declared (cf_connections routes) (cf_models routes) ->
  exists r, resolve_purpose routes name = Ok r.
Proof.
  intros [d Hd] [_ _ Hp]. unfold resolve_purpose. rewrite Hd. cbn [ok_or rbind].
  destruct (md_purposes (cf_models routes) !! name) as [def|] eqn:E; cbn [mbind option_bind]; [|by eexists].
  destruct (Hp name def E) as [Hg _ _]. destruct (pp_model def) as [[]|]; cbn; try by eexists.
  all: destruct (pp_group def) as [g|]; cbn; [|by eexists]; destruct (Hg g eq_refl) as [v ->]; cbn; by eexists.
Qed.

(** * The claims *)

(** C38.  Whatever edits and moves are asked of an admitted configuration, in
    whatever order and whether each is taken or refused, it stays admitted: its view
    is the one its retained document reads as, no reference dangles, and every purpose
    still resolves. *)
Theorem edits_keep_the_configuration_admitted os ops c :
  coherent os c ->
  let c' := foldl (fun c op => run_op os op c) c ops in
  coherent os c' /\ admitted os (fc_view c') /\ forall name, exists r, resolve_purpose (pa_routes (fc_view c')) name = Ok r.
Proof.
  intros Hc c'. pose proof (run_ops_coherent os ops c Hc) as Hc'. split; [done|]. destruct Hc' as (doc & _ & Ht & Hv).
  apply (coherent_view os doc _ Ht) in Hv as [_ Ha]. split; [done|]. intros name. by apply resolves_of; destruct Ha.
Qed.

(** C39.  An edit of an admitted configuration is taken exactly when its target
    takes that kind of value, the row it needs is declared and so is all the value
    refers to; then the view is the old one with that value at that target and
    nothing else changed, and it is what the answered document reads as.  A refused
    edit leaves the document and the view as they were. *)
Theorem set_is_the_update_of_the_view os c key value :
  coherent os c ->
  match set os key value c with
  | (Ok doc, c') => exists target, edit_target key = Ok target /\ permitted os target value (fc_view c) /\
                      edited_to os doc (on_view (applied target value) (fc_view c)) c'
  | (Err _, c') => c' = c /\ forall target, edit_target key = Ok target -> ~ permitted os target value (fc_view c)
  end.
Proof. apply set_spec. Qed.

(** C40.  A reset of an admitted configuration (one with a retained document
    that holds its keys once and passes the checks, the view being what it reads as) is taken exactly when its
    target has a layer below it and its connection is declared; then the view is the
    old one without that value, and it is what the answered document reads as.  A
    refused reset leaves the document and the view as they were. *)
Theorem reset_is_the_update_of_the_view os c key :
  coherent os c ->
  match reset os key c with
  | (Ok doc, c') => exists target, edit_target key = Ok target /\ resettable target (fc_view c) /\
                      edited_to os doc (on_view (cleared target) (fc_view c)) c'
  | (Err _, c') => c' = c /\ forall target, edit_target key = Ok target -> ~ resettable target (fc_view c)
  end.
Proof. apply reset_spec. Qed.

(** A purpose moves to its new name with the binding it had, unless the new
    name is bound to something else, which refuses the move and changes nothing; a
    purpose without a row is not moved. *)
Theorem rebinding_moves_the_binding os c from to :
  coherent os c ->
  let purposes := md_purposes (cf_models (pa_routes (fc_view c))) in
  match rebind_purpose os from to c with
  | (Ok None, c') => c' = c /\ purposes !! from = None
  | (Ok (Some doc), c') =>
      (exists def, purposes !! from = Some def /\ forall other, purposes !! to = Some other -> other = def) /\
      edited_to os doc (on_view (rebound from to) (fc_view c)) c'
  | (Err _, c') => c' = c /\ exists def other, purposes !! from = Some def /\ purposes !! to = Some other /\ other <> def
  end.
Proof. apply rebind_spec. Qed.

(** The moves a migration plans against a copy are moves that can then be
    made: applying the plan to the configuration it was proven against never fails. *)
Theorem planned_moves_never_fail os rules c planned :
  coherent os c -> planned_purpose_moves os rules c = Ok planned ->
  exists edit c', move_purpose_bindings os planned c = (Ok edit, c') /\ coherent os c'.
Proof. apply plan_moves_apply. Qed.

(** A readable key answers, after an accepted edit, the very wire value it was
    set to. *)
Theorem what_is_set_is_read_back os c key value doc c' :
  coherent os c -> is_readable_key key = true -> set_wire os key value c = (Ok doc, c') -> read_value key c' = Some value.
Proof.
  intros Hc Hk. unfold set_wire. destruct (wire_value key value) as [v|] eqn:Hw; [|done]. intros Hs.
  unfold is_readable_key in Hk. destruct (carrier_for key) as [carrier|] eqn:Hca; [|done].
  destruct (carrier_is key carrier Hca) as [Hin [names Hn]].
  pose proof (set_spec os c key v Hc) as Hspec. rewrite Hs in Hspec. destruct Hspec as (target & Ht & Hp & -> & _).
  pose proof (carrier_target _ _ _ _ Hca Hn Ht) as ->. unfold read_value. rewrite Hca. cbn. rewrite Hn. cbn [mbind option_bind fc_view].
  by eapply carrier_reads.
Qed.

(** The wire and the file speak one schema: an assignment given as a JSON
    object reads, or is refused, exactly as the inline table with the same fields. *)
Theorem the_wire_reads_as_the_file fields key :
  wire_model fields key = model_assign (TTable true (fields_of fields)) key /\
  wire_effort fields key = effort_assign (TTable true (fields_of fields)) key /\
  wire_fallback fields key = fallback_assign (TTable true (fields_of fields)) key.
Proof. split_and!; [apply wire_model_agrees|apply wire_effort_agrees|apply wire_fallback_agrees]. Qed.

(** An address spelled from segments, each bare or between quotes, is cut
    back into those segments, separators inside quotes included. *)
Theorem an_address_is_cut_as_it_was_spelled words segments :
  words <> [] -> Forall2 spelled words segments -> key_segments (String.concat "." words) = Some segments.
Proof. apply key_segments_spelled. Qed.

(** The distance behind the hint for a rejected key never reads out of its
    rows, and is the least number of insertions, deletions and replacements. *)
Theorem edit_distance_is_the_least_edit left right :
  exists d, edit_distance left right = Ret d /\ least (characters left) (characters right) d.
Proof. apply distance_least. Qed.

(** The effective configuration lays the user's document over the base: a row,
    a group or a section the user states is the user's, any other is the base's; every
    entry shows the composed value and names the layer that answers it with that
    layer's digest; no reference of the composition dangles. *)
Theorem composition_answers_from_the_stating_layer os parse_toml sha256_hex base user e :
  resolve_effective_on os parse_toml sha256_hex base user = Ok e ->
  let mine := fc_view (retained e) in
  let view := fc_view (composed e) in
  ef_workflow_entry e = mkConfigEntry "workflow.enabled" (Visible (JBool (default true (pa_workflow view))))
                          (answering sha256_hex base user (pa_workflow mine)) /\
  ef_decisions_entry e = mkConfigEntry "decisions.mode" (Visible (JString (decision_as_str (default DecideAsk (pa_decisions view)))))
                           (answering sha256_hex base user (pa_decisions mine)) /\
  ef_context_entry e = mkConfigEntry "context.auto_compact" (Visible (JBool (default false (pa_context view))))
                         (answering sha256_hex base user (pa_context mine)) /\
  (forall name, md_purposes (cf_models (pa_routes view)) !! name =
     match md_purposes (cf_models (pa_routes mine)) !! name with
     | Some row => Some row
     | None => md_purposes (bl_models (ef_base e)) !! name
     end) /\
  references_declared (cf_connections (pa_routes view)) (cf_models (pa_routes view)).
Proof.
  unfold resolve_effective_on. intros (parsed & Hp & H)%rbind_Ok. apply rbind_Ok in H as (layer & Hl & H).
  apply rbind_Ok in H as ([] & Hr & [= <-]). apply check_model_references_pass in Hr.
  assert (Hd : bl_digest layer = sha256_hex (bs_text base)).
  { unfold base_layer in Hl. inv_answer. by subst. }
  unfold refresh_mode_entries, workflow_entry, decisions_entry, context_entry. cbn -[lookup].
  destruct parsed as [c|]; cbn -[lookup]; rewrite Hd.
  - split_and!; [by destruct (pa_workflow (fc_view c))|by destruct (pa_decisions (fc_view c))|by destruct (pa_context (fc_view c))| |done].
    intros name. rewrite lookup_union. by destruct (md_purposes _ !! name), (md_purposes _ !! name).
  - split_and!; [done..| |done]. intros name. rewrite lookup_union, lookup_empty. by destruct (md_purposes _ !! name).
Qed.

(** * Instances *)

Definition fixed_on (connection model : string) : Value :=
  JObject [("mode", JString "fixed"); ("connection", JString connection); ("model_id", JString model)].
Definition sample_ops : list EditOp :=
  [OpSetWire "workflow.enabled" (JBool false); OpSetWire "models.purposes.review.model" (fixed_on "backup" "o4");
   OpSetWire "models.purposes.review.model" (fixed_on "gone" "o4"); OpReset "models.purposes.plan.effort";
   OpRebind "plan" "planning"; OpSetWire "connections.openai.region" (JString "eu"); OpReset "models.defaults.model"].

Lemma edits_keep_the_configuration_admitted_witness :
  let c' := foldl (fun c op => run_op sample_os op c) sample_config sample_ops in
  (read_value "connections.openai.region" c' = Some (JString "eu") /\
   md_purposes (cf_models (pa_routes (fc_view c'))) !! "review" = Some (with_model (Some (Fixed (mkFixed "backup" "o4"))) no_purpose) /\
   md_purposes (cf_models (pa_routes (fc_view c'))) !! "planning" = Some no_purpose) /\
  admitted sample_os (fc_view c').
Proof.
  split; [vm_compute; done|]. exact (proj1 (proj2 (edits_keep_the_configuration_admitted sample_os sample_ops sample_config sample_coherent))).
Defined.

Lemma set_is_the_update_of_the_view_witness :
  let value := CModel (Fixed (mkFixed "backup" "o4")) in
  (exists doc c', set sample_os "models.defaults.model" value sample_config = (Ok doc, c') /\
     edited_to sample_os doc (on_view (applied DefaultsModel value) (fc_view sample_config)) c') /\
  ~ permitted sample_os DefaultsModel (CModel (Fixed (mkFixed "gone" "o4"))) (fc_view sample_config).
Proof.
  split.
  - pose proof (set_is_the_update_of_the_view sample_os sample_config "models.defaults.model" (CModel (Fixed (mkFixed "backup" "o4"))) sample_coherent) as T.
    destruct (set sample_os _ _ sample_config) as [[doc|e] c'] eqn:E; [|vm_compute in E; discriminate E].
    destruct T as (target & Ht & _ & He). exists doc, c'. split; [done|].
    assert (target = DefaultsModel) as -> by (vm_compute in Ht; by injection Ht as <-). exact He.
  - pose proof (set_is_the_update_of_the_view sample_os sample_config "models.defaults.model" (CModel (Fixed (mkFixed "gone" "o4"))) sample_coherent) as T.
    destruct (set sample_os _ _ sample_config) as [[doc|e] c'] eqn:E; [vm_compute in E; discriminate E|].
    destruct T as [_ T]. apply T. vm_compute. reflexivity.
Defined.

Lemma reset_is_the_update_of_the_view_witness :
  exists doc c', reset sample_os "models.purposes.plan.effort" sample_config = (Ok doc, c') /\
    edited_to sample_os doc (on_view (cleared (PurposeEffort "plan")) (fc_view sample_config)) c'.
Proof.
  pose proof (reset_is_the_update_of_the_view sample_os sample_config "models.purposes.plan.effort" sample_coherent) as T.
  destruct (reset sample_os _ sample_config) as [[doc|e] c'] eqn:E; [|vm_compute in E; discriminate E].
  destruct T as (target & Ht & _ & He). exists doc, c'. split; [done|].
  assert (target = PurposeEffort "plan") as -> by (vm_compute in Ht; by injection Ht as <-). exact He.
Defined.

Lemma rebinding_moves_the_binding_witness :
  exists doc c', rebind_purpose sample_os "plan" "planning" sample_config = (Ok (Some doc), c') /\
    edited_to sample_os doc (on_view (rebound "plan" "planning") (fc_view sample_config)) c'.
Proof.
  pose proof (rebinding_moves_the_binding sample_os sample_config "plan" "planning" sample_coherent) as T.
  destruct (rebind_purpose sample_os _ _ sample_config) as [[[doc|]|e] c'] eqn:E; [|vm_compute in E; discriminate E..].
  exists doc, c'. split; [done|]. exact (proj2 T).
Defined.

Definition sample_rules : list IdentityMigration :=
  [mkMigration 1 Role "plan" "planning" Rename None; mkMigration 1 Role "absent" "elsewhere" Rename None].

Lemma planned_moves_never_fail_witness :
  planned_purpose_moves sample_os sample_rules sample_config = Ok [("plan", "planning")] /\
  exists edit c', move_purpose_bindings sample_os [("plan", "planning")] sample_config = (Ok edit, c') /\ coherent sample_os c'.
Proof.
  split; [vm_compute; reflexivity|]. apply (planned_moves_never_fail sample_os sample_rules); [apply sample_coherent|].
  vm_compute. reflexivity.
Defined.

Lemma what_is_set_is_read_back_witness :
  exists doc c', set_wire sample_os "connections.openai.region" (JString "eu") sample_config = (Ok doc, c') /\
    read_value "connections.openai.region" c' = Some (JString "eu").
Proof.
  destruct (set_wire sample_os "connections.openai.region" (JString "eu") sample_config) as [[doc|e] c'] eqn:E; [|vm_compute in E; discriminate E].
  exists doc, c'. split; [done|].
  refine (what_is_set_is_read_back sample_os sample_config "connections.openai.region" (JString "eu") doc c' sample_coherent _ E).
  vm_compute. reflexivity.
Defined.

Lemma an_address_is_cut_as_it_was_spelled_witness :
  key_segments (String.concat "." ["connections"; quote "llama.cpp"; "region"]) = Some ["connections"; "llama.cpp"; "region"].
Proof. apply an_address_is_cut_as_it_was_spelled; [done|]. by repeat constructor. Defined.

Definition sample_base : BaseSource := mkBase 1 "base".
(** A parser of two texts. *)
Definition sample_toml (text : string) : result Fields string :=
  if decide (text = "base") then
    Ok [("config_version", TInteger 1); ("workflow", TTable false [("enabled", TBool false)]);
        ("models", TTable false [("purposes", TTable false [("review", TTable false [("effort", effort_item AutoEffort)])])])]
  else if decide (text = "user") then Ok sample_doc
  else Err "unexpected text".

Lemma composition_answers_from_the_stating_layer_witness :
  exists e, resolve_effective_on sample_os sample_toml (fun s => s) sample_base (Some "user") = Ok e /\
    ef_workflow_entry e = mkConfigEntry "workflow.enabled" (Visible (JBool false)) (mkSource "shipped" "base" None) /\
    md_purposes (cf_models (pa_routes (fc_view (composed e)))) !! "review" = Some (with_effort (Some AutoEffort) no_purpose).
Proof.
  destruct (resolve_effective_on sample_os sample_toml (fun s => s) sample_base (Some "user")) as [e|] eqn:E; [|vm_compute in E; discriminate E].
  exists e. split; [done|]. pose proof (composition_answers_from_the_stating_layer _ _ _ _ _ _ E) as (Hw & _ & _ & Hp & _).
  rewrite Hw, Hp. vm_compute in E. injection E as <-. vm_compute. done.
Defined.
