(* ===== verification/Publications.v ===== *)
(** The publication journal of the configuration file ([config.rs], [state.rs], the
    [config_publications] statements of [state/sql/mod.rs]) and the checked write it
    guards ([executor.rs], [executor/linux.rs], the write leg of the sandbox helper):
    admission of one edit, the write of its bytes, the receipt, and the recovery of
    what a crash left between the two.

    The operating system is the class [Host]: what opening a path answers, the
    sandbox's verdict, how far the confined child got.  A digest and whether a text
    parses as TOML are parameters. *)

From stdpp Require Import sorting.
From S2P Require Import Prelude.
From S2P Require Import Utf8.
From S2P Require Import Text.
From S2P Require Import Net.
From S2P Require Import Paths.
From S2P Require Import Store.

(** * Write identities *)

(** [FileIdentity], [Unattested], [ReuseToken], [WriteIdentity].  A token is the bytes
    before the zero padding of its array. *)
Record FileIdentity := mkFile { dev : Z; ino : Z }.
Inductive Unattested := Unsupported | Unrecorded.
Record ReuseToken := mkToken { token_bytes : bytes }.
Record WriteIdentity := mkIdentity { wi_file : FileIdentity; wi_reuse : result ReuseToken Unattested }.

#[export] Instance FileIdentity_eq_dec : EqDecision FileIdentity. Proof. solve_decision. Defined.
#[export] Instance Unattested_eq_dec : EqDecision Unattested. Proof. solve_decision. Defined.
#[export] Instance ReuseToken_eq_dec : EqDecision ReuseToken. Proof. solve_decision. Defined.

Definition REUSE_TOKEN_MAX : Z := 133.
Definition REUSE_TAG_LINUX : Z := 1.
Definition REUSE_TAG_DARWIN : Z := 2.
Definition LINUX_HANDLE_TYPE_LEN : Z := 4.
Definition LINUX_MAX_HANDLE_SZ : Z := 128.
Definition DARWIN_UUID_LEN : Z := 16.

(** The shape a platform's token has. *)
Definition shaped (tag : Z) (payload : bytes) : bool :=
  if (tag =? REUSE_TAG_LINUX)%Z then
    match checked_sub (zlen payload) LINUX_HANDLE_TYPE_LEN with
    | Some handle => (0 <? handle)%Z && (handle mod 4 =? 0)%Z && (handle <=? LINUX_MAX_HANDLE_SZ)%Z
    | None => false
    end
  else if (tag =? REUSE_TAG_DARWIN)%Z then (zlen payload =? DARWIN_UUID_LEN)%Z
  else false.

(** [ReuseToken::from_bytes] *)
Definition from_bytes (raw : bytes) : option ReuseToken :=
  match raw with
  | [] => None
  | tag :: payload =>
      if negb (shaped tag payload) || (REUSE_TOKEN_MAX <? zlen raw)%Z then None else Some (mkToken raw)
  end.

(** ** Hexadecimal *)

(** One digit of [HEX] and of [{:x}], and [hex]. *)
Definition hex_char (digit : Z) : Z := if (digit <? 10)%Z then (48 + digit)%Z else (87 + digit)%Z.
Fixpoint hex (bs : bytes) : bytes :=
  match bs with [] => [] | b :: bs => hex_char (Z.shiftr b 4) :: hex_char (Z.land b 15) :: hex bs end.

(** [{:x}] of a [u64]: at most sixteen digits. *)
Fixpoint hex_digits (fuel : nat) (n : Z) (acc : bytes) : bytes :=
  match fuel with
  | O => acc
  | S fuel =>
      let acc := hex_char (n mod 16) :: acc in
      if (n / 16 =? 0)%Z then acc else hex_digits fuel (n / 16) acc
  end.
Definition lower_hex (n : Z) : bytes := hex_digits 16 n [].

(** [hex_digit] *)
Definition hex_digit (digit : Z) : option Z :=
  if within 48 57 digit then Some (digit - 48)%Z
  else if within 97 102 digit then Some (digit - 97 + 10)%Z
  else if within 65 70 digit then Some (digit - 65 + 10)%Z
  else None.

(** The pairs of [parse_reuse_token]; an odd run has none. *)
Fixpoint hex_pairs (digits : bytes) : option bytes :=
  match digits with
  | [] => Some []
  | high :: low :: digits =>
      h ← hex_digit high; l ← hex_digit low; rest ← hex_pairs digits; Some ((h * 16 + l)%Z :: rest)
  | [_] => None
  end.

(** [parse_reuse_token] *)
Definition parse_reuse_token (digits : bytes) : option ReuseToken :=
  if (zlen digits =? 0)%Z || (2 * REUSE_TOKEN_MAX <? zlen digits)%Z then None
  else raw ← hex_pairs digits; from_bytes raw.

(** [hex64]: [u64::from_str_radix] of at most sixteen digits. *)
Fixpoint radix16 (digits : bytes) (acc : Z) : option Z :=
  match digits with
  | [] => Some acc
  | d :: digits => v ← hex_digit d; radix16 digits (acc * 16 + v)%Z
  end.
Definition hex64 (digits : bytes) : result Z string :=
  if (zlen digits =? 0)%Z || (16 <? zlen digits)%Z then Err "malformed publication identity field"
  else ok_or (radix16 digits 0) "malformed publication identity field".

(** ** The [identity] column *)

Definition V2 : bytes := [118; 50]%Z.
Definition PUBLICATION_IDENTITY_MAX : Z := (3 + 2 * 16 + 2 + 2 * REUSE_TOKEN_MAX)%Z.

(** [encode_publish_identity] *)
Definition encode_publish_identity (identity : WriteIdentity) : bytes :=
  let file := wi_file identity in
  match wi_reuse identity with
  | Ok token => V2 ++ COLON :: lower_hex (dev file) ++ COLON :: lower_hex (ino file) ++ COLON :: hex (token_bytes token)
  | Err _ => lower_hex (dev file) ++ COLON :: lower_hex (ino file)
  end.

(** [parse_publish_identity]; a refusal is the text of its error. *)
Definition parse_publish_identity (raw : bytes) : result WriteIdentity string :=
  if (PUBLICATION_IDENTITY_MAX <? zlen raw)%Z then Err "publication identity column is too long"
  else
    let? (d, i, reuse) :=
      match split_at COLON raw with
      | [d; i] => Ok (d, i, Err Unrecorded)
      | [v; d; i; token] =>
          if decide (v = V2) then
            let? token := ok_or (parse_reuse_token token) "malformed publication identity token" in
            Ok (d, i, Ok token)
          else Err "malformed publication identity column"
      | _ => Err "malformed publication identity column"
      end in
    let? d := hex64 d in
    let? i := hex64 i in
    Ok (mkIdentity (mkFile d i) reuse).

(** ** The journal's rows *)

(** [i64 as u64] and [u64 as i64] *)
Definition as_u64 (v : Z) : Z := (v mod 18446744073709551616)%Z.
Definition as_i64 (v : Z) : Z := ((v + 9223372036854775808) mod 18446744073709551616 - 9223372036854775808)%Z.

(** A row of [config_publications]; the table is its rows in [rowid] order. *)
Record PublicationRow := mkRow {
  pr_owner : string;
  pr_target : string;
  pr_seq : Z;
  pr_intended : string;
  pr_base : option string;
  pr_identity : option bytes;
  pr_state : string;
}.
Abbreviation Journal := (list PublicationRow).
Abbreviation jtx := (tx Journal StoreError).
Abbreviation PStore := (TaskStore Journal).

(** [PublicationIntent] *)
Record PublicationIntent := mkIntent {
  owner : string;
  target : string;
  admission_seq : Z;
  intended_digest : string;
  base_digest : option string;
  publish_identity : option WriteIdentity;
}.

(** [publication_from_row] *)
Definition publication_from_row (row : PublicationRow) : result PublicationIntent StoreError :=
  let? identity :=
    match pr_identity row with
    | None => Ok None
    | Some raw => let? identity := map_err (fun what => Storage (Undecodable what)) (parse_publish_identity raw) in Ok (Some identity)
    end in
  Ok (mkIntent (pr_owner row) (pr_target row) (as_u64 (pr_seq row)) (pr_intended row) (pr_base row) identity).

(** The primary key. *)
Definition row_key (row : PublicationRow) : string * string * Z := (pr_owner row, pr_target row, pr_seq row).

(** [NEXT_PUBLICATION_SEQ] *)
Definition max_seq (target : string) (rows : Journal) : option Z :=
  foldr (fun row top =>
    if decide (pr_target row = target) then Some (match top with Some t => Z.max (pr_seq row) t | None => pr_seq row end) else top)
    None rows.
Definition next_publication_seq (target : string) (rows : Journal) : Z := (default 0 (max_seq target rows) + 1)%Z.

(** [INSERT_PUBLICATION] *)
Definition insert_publication (row : PublicationRow) : jtx unit :=
  let! rows := tx_get in
  if decide (row_key row ∈ map row_key rows) then tx_err (Storage ConstraintFailed) else tx_modify (fun rows => rows ++ [row]).

(** [append_publication]: a number past [i64] is not read as one. *)
Definition append_tx (owner target : string) (intended : string) (base : option string) (identity : option WriteIdentity) : jtx Z :=
  let! rows := tx_get in
  let seq := next_publication_seq target rows in
  if decide (i64_max < seq)%Z then tx_err (Storage TotalOverflow)
  else
    let! _ := insert_publication
      (mkRow owner target (as_i64 (as_u64 seq)) intended base (encode_publish_identity <$> identity) "pending") in
    tx_ret (as_u64 seq).
Definition append_publication owner target intended base identity (s : PStore) : result Z StoreError * PStore :=
  transaction (append_tx owner target intended base identity) s.

(** [ORDER BY target, admission_seq, owner] *)
Definition publication_le (a b : PublicationRow) : Prop :=
  match String.compare (pr_target a) (pr_target b) with
  | Lt => True
  | Gt => False
  | Eq =>
      match (pr_seq a ?= pr_seq b)%Z with
      | Lt => True
      | Gt => False
      | Eq => String.compare (pr_owner a) (pr_owner b) <> Gt
      end
  end.
#[export] Instance publication_le_dec a b : Decision (publication_le a b).
Proof. unfold publication_le. destruct (String.compare _ _); [destruct (_ ?= _)%Z|..]; apply _. Defined.

(** [PENDING_PUBLICATIONS] and [APPLIED_PUBLICATIONS], read by [publications] *)
Definition in_state (state : string) (rows : Journal) : Journal :=
  merge_sort publication_le (filter (fun row => pr_state row = state) rows).
Definition publications (state : string) : PStore -> result (list PublicationIntent) StoreError :=
  read (fun rows => try_map publication_from_row (in_state state rows)).
Definition pending_publications : PStore -> result (list PublicationIntent) StoreError := publications "pending".
Definition applied_publications : PStore -> result (list PublicationIntent) StoreError := publications "applied".

(** [COMPLETE_PUBLICATION] and [complete_publication] *)
Definition completes (owner target : string) (seq : Z) (row : PublicationRow) : bool :=
  bool_decide (pr_owner row = owner) && bool_decide (pr_target row = target) && (pr_seq row =? seq)%Z
    && bool_decide (pr_state row = "pending").
Definition applied (row : PublicationRow) : PublicationRow :=
  mkRow (pr_owner row) (pr_target row) (pr_seq row) (pr_intended row) (pr_base row) (pr_identity row) "applied".
Definition complete_tx (owner target : string) (seq : Z) : jtx unit :=
  let! rows := tx_get in
  if existsb (completes owner target (as_i64 seq)) rows then
    tx_modify (map (fun row => if completes owner target (as_i64 seq) row then applied row else row))
  else tx_err (StoreConflict (PublicationNotPending owner target seq)).
Definition complete_publication (owner target : string) (seq : Z) (s : PStore) : result unit StoreError * PStore :=
  transaction (complete_tx owner target seq) s.

(** * The host *)

(** What [std::io::Error] is asked for. *)
Inductive IoError := IoNotFound | IoOther (what : string).

(** The part of [Metadata] the code reads, and an open file: its metadata, its reuse
    token, and what reading it to the end answers. *)
Record Metadata := mkMetadata { m_is_file : bool; m_len : Z; m_dev : Z; m_ino : Z }.
Inductive ReuseTokenError := TokenUnsupported | TokenIo (what : string).
Record Handle := mkHandle {
  h_metadata : result Metadata IoError;
  h_token : result ReuseToken ReuseTokenError;
  h_read : result bytes IoError;
}.

(** The [WorkerError]s of a write.  [Confinement] is one of those by which the sandbox
    and its launcher report a missing capability. *)
Inductive WorkerError :=
  | ScopeRootUnavailable (source : IoError)
  | TargetMissing (target : string)
  | OutsideScope (target : string)
  | MetadataUnavailable (source : IoError)
  | NotRegularFile (target : string)
  | TargetChanged (target : string)
  | WriteFailed (source : IoError)
  | WriteMutationFailed (source : string)
  | WriteTooLarge
  | WriteIdentityUnattested (cause : Unattested)
  | WriteIdentityUnavailable (source : ReuseTokenError)
  | SandboxDenied (target : string)
  | Confinement (what : string).

(** How far the confined writer got: refused before its truncate, ended after it with
    the first [written] bytes on the disk, or done and synced. *)
Inductive HelperRun :=
  | HelperRefused (error : WorkerError)
  | HelperEnded (written : nat) (error : WorkerError)
  | HelperDone.

Class Host (World : Type) := {
  open_read : World -> string -> result Handle IoError;
  open_write : World -> string -> result Handle IoError;
  canonicalize : World -> bytes -> result bytes IoError;
  stat : World -> bytes -> result Metadata IoError;
  current_dir : World -> option bytes;
  write_gate : World -> bytes -> string -> result unit WorkerError * World;
  helper_run : World -> bytes -> HelperRun;
  mutate : World -> Handle -> (bytes -> bytes) -> World;
}.

(** ** [Path::parent] *)

Definition skipped (piece : bytes) : bool := bool_decide (piece = [] \/ piece = CUR_DIR).
Fixpoint join_pieces (pieces : list bytes) : bytes :=
  match pieces with
  | [] => []
  | [p] => p
  | p :: pieces => p ++ SLASH :: join_pieces pieces
  end.

(** What stands before the names: the root, a leading [.], or nothing. *)
Inductive Lead := LeadRoot | LeadCurDir | LeadNone.
Definition lead_of (path : bytes) : Lead * list bytes :=
  match split_at SLASH path with
  | [] :: ((_ :: _) as pieces) => (LeadRoot, pieces)
  | p :: pieces => if decide (p = CUR_DIR) then (LeadCurDir, pieces) else (LeadNone, p :: pieces)
  | [] => (LeadNone, [])
  end.
Definition rendered (lead : Lead) (pieces : list bytes) : bytes :=
  match lead, pieces with
  | LeadRoot, _ => SLASH :: join_pieces pieces
  | LeadCurDir, [] => CUR_DIR
  | LeadCurDir, _ => CUR_DIR ++ SLASH :: join_pieces pieces
  | LeadNone, _ => join_pieces pieces
  end.
Definition parent (path : bytes) : option bytes :=
  let '(lead, pieces) := lead_of path in
  match skip_while skipped (rev pieces), lead with
  | _ :: rest, _ => Some (rendered lead (rev (skip_while skipped rest)))
  | [], LeadCurDir => Some []
  | [], _ => None
  end.

(** * The checked write *)

Definition PUBLICATION_MAX_BYTES : Z := 1048576.
Definition WRITE_MAX_BYTES : Z := 1048576.

(** [confined_write] of the helper, stopped after [written] bytes: [set_len] first,
    then the bytes from the start. *)
Definition set_len (length : nat) (content : bytes) : bytes :=
  take length content ++ replicate (length - List.length content) 0%Z.
Definition confined_write (written : nat) (payload content : bytes) : bytes :=
  take written payload ++ drop written (set_len (List.length payload) content).

(** [Path::starts_with] of two canonical paths. *)
Definition path_starts_with (path scope : bytes) : bool := starts_with (path_components scope) (path_components path).

(** [same_regular_file] *)
Definition same_regular_file (expected opened : Metadata) : bool :=
  m_is_file expected && m_is_file opened && (m_dev expected =? m_dev opened)%Z && (m_ino expected =? m_ino opened)%Z.
Definition from_metadata (m : Metadata) : FileIdentity := mkFile (m_dev m) (m_ino m).

(** [confirm_write_occupant] *)
Definition confirm_write_occupant (target : string) (canonical : Metadata) (file : Handle) (expected : WriteIdentity)
    : result unit WorkerError :=
  let? opened := map_err MetadataUnavailable (h_metadata file) in
  if negb (same_regular_file canonical opened) || negb (bool_decide (from_metadata opened = wi_file expected))
  then Err (TargetChanged target)
  else
    let? admitted := map_err WriteIdentityUnattested (wi_reuse expected) in
    let? current := map_err WriteIdentityUnavailable (h_token file) in
    if decide (current = admitted) then Ok tt else Err (TargetChanged target).

Section writing.
Context {World : Type} `{Host World}.

(** [inspect_regular_target] *)
Definition inspect_regular_target (w : World) (scope_root : bytes) (target : string) : result Metadata WorkerError :=
  let? scope := map_err ScopeRootUnavailable (canonicalize w scope_root) in
  let? canonical := map_err (fun _ => TargetMissing target) (canonicalize w (bytes_of target)) in
  if negb (path_starts_with canonical scope) then Err (OutsideScope target)
  else
    let? meta := map_err MetadataUnavailable (stat w canonical) in
    if negb (m_is_file meta) then Err (NotRegularFile target) else Ok meta.

(** [helper_confined_write] *)
Definition helper_confined_write (w : World) (file : Handle) (payload : bytes) : result unit WorkerError * World :=
  match helper_run w payload with
  | HelperRefused e => (Err e, w)
  | HelperEnded written e => (Err e, mutate w file (confined_write written payload))
  | HelperDone => (Ok tt, mutate w file (confined_write (length payload) payload))
  end.

(** [write_once] and [write_opened_file] of the Linux backend. *)
Definition write_opened_file (w : World) (target : string) (canonical : Metadata) (file : Handle) (expected : WriteIdentity)
    (payload : bytes) : result unit WorkerError * World :=
  match confirm_write_occupant target canonical file expected with
  | Err e => (Err e, w)
  | Ok _ => helper_confined_write w file payload
  end.
Definition write_once (w : World) (scope_root : bytes) (target : string) (expected : WriteIdentity) (payload : bytes)
    : result unit WorkerError * World :=
  if (WRITE_MAX_BYTES <? zlen payload)%Z then (Err WriteTooLarge, w)
  else
    match inspect_regular_target w scope_root target with
    | Err e => (Err e, w)
    | Ok canonical =>
        match write_gate w scope_root target with
        | (Err e, w) => (Err e, w)
        | (Ok _, w) =>
            match open_write w target with
            | Err e => (Err (WriteFailed e), w)
            | Ok file => write_opened_file w target canonical file expected payload
            end
        end
    end.
End writing.

(** * Publications *)

(** [ConfigEdit] *)
Record ConfigEdit := mkEdit { ce_bytes : bytes; ce_digest : string }.

Inductive PublicationAdmission := Staged (i : PublicationIntent) | Pending (i : PublicationIntent) | Applied (i : PublicationIntent).
(** [PublicationAdmission::intent] *)
Definition admitted_intent (a : PublicationAdmission) : PublicationIntent := match a with Staged i | Pending i | Applied i => i end.

Inductive PublicationVerdict := Old | ExactlyNew | ByteIdenticalThird | Conflicting | TornOrUnparseable | VerdictAbsent | VerdictUnknown.
#[export] Instance PublicationVerdict_eq_dec : EqDecision PublicationVerdict. Proof. solve_decision. Defined.
Record PublicationRecovery := mkRecovery { rc_intent : PublicationIntent; rc_verdict : PublicationVerdict }.

Inductive PublicationError :=
  | PublicationTarget (source : IoError)
  | TargetNotUtf8
  | TargetAbsent (target : string)
  | PublicationJournal (source : StoreError)
  | IdentityMissing
  | PublicationWrite (source : WorkerError).

(** [FileAttribution] and [attribute] *)
Inductive FileAttribution := Different | Same | Unverifiable (cause : Unattested).
#[export] Instance FileAttribution_eq_dec : EqDecision FileAttribution. Proof. solve_decision. Defined.
Definition attribute (staged current : WriteIdentity) : FileAttribution :=
  if decide (wi_file staged <> wi_file current) then Different
  else
    match wi_reuse staged, wi_reuse current with
    | Ok staged, Ok current => if decide (staged = current) then Same else Different
    | Err cause, _ | _, Err cause => Unverifiable cause
    end.

(** [TargetObservation] and [TargetSight] *)
Record TargetObservation := mkObservation { ob_digest : string; ob_identity : WriteIdentity; ob_bytes : bytes }.
Inductive TargetSight := SightAbsent | SightPresent (digest : string) (identity : option WriteIdentity) (content : bytes) | SightUnknown.

Section publishing.
Context {World : Type} `{Host World}.
Variable sha256_hex : bytes -> string.
Variable parses : bytes -> bool.
Implicit Type (w : World) (s : PStore).

(** [read_target_once] *)
Definition read_target_once w (path : string) : result TargetObservation IoError :=
  let? file := open_read w path in
  let? metadata := h_metadata file in
  if negb (m_is_file metadata) then Err (IoOther "publication target is not a regular file")
  else if (PUBLICATION_MAX_BYTES <? m_len metadata)%Z then Err (IoOther "publication target exceeds the size ceiling")
  else
    let? reuse :=
      match h_token file with
      | Ok token => Ok (Ok token)
      | Err TokenUnsupported => Ok (Err Unsupported)
      | Err (TokenIo what) => Err (IoOther what)
      end in
    let? content := h_read file in
    let content := take (Z.to_nat (PUBLICATION_MAX_BYTES + 1)) content in
    if (PUBLICATION_MAX_BYTES <? zlen content)%Z then Err (IoOther "publication target exceeds the size ceiling")
    else Ok (mkObservation (sha256_hex content) (mkIdentity (from_metadata metadata) reuse) content).

(** [observe_target] *)
Definition observe_target w (target : string) : TargetSight :=
  match read_target_once w target with
  | Ok o => SightPresent (ob_digest o) (Some (ob_identity o)) (ob_bytes o)
  | Err IoNotFound => SightAbsent
  | Err (IoOther _) => SightUnknown
  end.

(** [std::path::absolute], by its components, and [spelled_same_file] *)
Definition absolute w (path : string) : option (list bytes) :=
  let path := bytes_of path in
  if decide (path = []) then None
  else if is_absolute path then Some (path_components path)
  else cwd ← current_dir w; Some (path_components cwd ++ path_components path).
Definition spelled_same_file w (a b : string) : bool :=
  match absolute w a, absolute w b with
  | Some a, Some b => bool_decide (a = b)
  | _, _ => bool_decide (a = b)
  end.

(** [same_target_file] *)
Definition same_target_file w (intent : PublicationIntent) (sight : TargetSight) (target_key : string) : FileAttribution :=
  match sight with
  | SightPresent _ (Some current) _ =>
      match publish_identity intent with
      | Some staged => attribute staged current
      | None => if decide (target intent = target_key) then Unverifiable Unrecorded else Different
      end
  | _ => if spelled_same_file w (target intent) target_key then Same else Different
  end.

(** [stage_publication] *)
Definition stage_publication w (owner target : string) (edit : ConfigEdit) s : result PublicationIntent PublicationError * PStore :=
  if negb (utf8_valid (bytes_of target)) then (Err TargetNotUtf8, s)
  else
    match read_target_once w target with
    | Err IoNotFound => (Err (TargetAbsent target), s)
    | Err e => (Err (PublicationTarget e), s)
    | Ok o =>
        let base := Some (ob_digest o) in
        let identity := Some (ob_identity o) in
        match append_publication owner target (ce_digest edit) base identity s with
        | (Err e, s) => (Err (PublicationJournal e), s)
        | (Ok seq, s) => (Ok (mkIntent owner target seq (ce_digest edit) base identity), s)
        end
    end.

(** The terminal rows [admit_publication] walks, with the first cause that kept one
    of them from being confirmed. *)
Fixpoint terminal_answer w (sight : TargetSight) (target_key : string) (intents : list PublicationIntent) (unverifiable : option Unattested)
    : PublicationIntent + option Unattested :=
  match intents with
  | [] => inr unverifiable
  | intent :: intents =>
      match same_target_file w intent sight target_key with
      | Same => inl intent
      | Unverifiable cause => terminal_answer w sight target_key intents (Some (default cause unverifiable))
      | Different => terminal_answer w sight target_key intents unverifiable
      end
  end.

(** [admit_publication] *)
Definition pending_match w (sight : TargetSight) (target_key : string) (edit : ConfigEdit) (intent : PublicationIntent) : bool :=
  bool_decide (intended_digest intent = ce_digest edit) && negb (bool_decide (same_target_file w intent sight target_key = Different)).
Definition staged_admission w (owner target : string) (edit : ConfigEdit) s : result PublicationAdmission PublicationError * PStore :=
  match stage_publication w owner target edit s with
  | (Ok intent, s) => (Ok (Staged intent), s)
  | (Err e, s) => (Err e, s)
  end.
Definition admit_publication w (owner target : string) (edit : ConfigEdit) s : result PublicationAdmission PublicationError * PStore :=
  if negb (utf8_valid (bytes_of target)) then (Err TargetNotUtf8, s)
  else
    let sight := observe_target w target in
    match pending_publications s with
    | Err e => (Err (PublicationJournal e), s)
    | Ok pending =>
        match find (pending_match w sight target edit) pending with
        | Some intent => (Ok (Pending intent), s)
        | None =>
            match applied_publications s with
            | Err e => (Err (PublicationJournal e), s)
            | Ok applied =>
                match sight with
                | SightPresent digest _ _ =>
                    if decide (digest = ce_digest edit) then
                      match terminal_answer w sight target (filter (fun i => intended_digest i = ce_digest edit) applied) None with
                      | inl intent => (Ok (Applied intent), s)
                      | inr (Some cause) => (Err (PublicationWrite (WriteIdentityUnattested cause)), s)
                      | inr None => staged_admission w owner target edit s
                      end
                    else staged_admission w owner target edit s
                | _ => staged_admission w owner target edit s
                end
            end
        end
    end.

(** [publish_intent] *)
Definition publish_intent w (intent : PublicationIntent) (payload : bytes) s : result unit PublicationError * World * PStore :=
  match publish_identity intent with
  | None => (Err IdentityMissing, w, s)
  | Some identity =>
      match write_once w (default [] (parent (bytes_of (target intent)))) (target intent) identity payload with
      | (Err e, w) => (Err (PublicationWrite e), w, s)
      | (Ok _, w) =>
          let '(answer, s) := complete_publication (owner intent) (target intent) (admission_seq intent) s in
          (map_err PublicationJournal answer, w, s)
      end
  end.

(** [classify_intent] *)
Definition classify_intent w (intent : PublicationIntent) : PublicationVerdict :=
  match observe_target w (target intent) with
  | SightAbsent => VerdictAbsent
  | SightUnknown => VerdictUnknown
  | SightPresent digest identity content =>
      if decide (digest = intended_digest intent) then
        match publish_identity intent, identity with
        | Some staged, Some current =>
            match attribute staged current with Same => ExactlyNew | Different => ByteIdenticalThird | Unverifiable _ => VerdictUnknown end
        | _, _ => VerdictUnknown
        end
      else if decide (base_digest intent = Some digest) then Old
      else if utf8_valid content && parses content then Conflicting
      else TornOrUnparseable
  end.

(** [resolve_pending_publication] *)
Definition resolve_pending_publication w (caller : string) (intent : PublicationIntent) (payload : bytes) s
    : result PublicationIntent PublicationError * World * PStore :=
  if decide (owner intent <> caller) then (Ok intent, w, s)
  else if decide (classify_intent w intent = ExactlyNew) then
    let '(answer, s) := complete_publication (owner intent) (target intent) (admission_seq intent) s in
    (let? _ := map_err PublicationJournal answer in Ok intent, w, s)
  else
    let '(answer, w, s) := publish_intent w intent payload s in
    (let? _ := answer in Ok intent, w, s).

(** [recover_publications] *)
Fixpoint recover_each w (pending : list PublicationIntent) s : result (list PublicationRecovery) StoreError * PStore :=
  match pending with
  | [] => (Ok [], s)
  | intent :: pending =>
      let verdict := classify_intent w intent in
      let '(answer, s) :=
        if decide (verdict = ExactlyNew) then complete_publication (owner intent) (target intent) (admission_seq intent) s
        else (Ok tt, s) in
      match answer with
      | Err e => (Err e, s)
      | Ok _ =>
          let '(rest, s) := recover_each w pending s in
          (let? rest := rest in Ok (mkRecovery intent verdict :: rest), s)
      end
  end.
Definition recover_publications w s : result (list PublicationRecovery) StoreError * PStore :=
  match pending_publications s with
  | Err e => (Err e, s)
  | Ok pending => recover_each w pending s
  end.
End publishing.

(** * The identity column reads back *)

Definition byte (b : Z) : Prop := (0 <= b <= 255)%Z.
Definition u64 (n : Z) : Prop := (0 <= n <= u64_max)%Z.

(** What [from_bytes] made, and an identity of [u64] numbers with such a token. *)
Definition token_ok (token : ReuseToken) : Prop := Forall byte (token_bytes token) /\ from_bytes (token_bytes token) = Some token.
Definition identity_ok (identity : WriteIdentity) : Prop :=
  u64 (dev (wi_file identity)) /\ u64 (ino (wi_file identity)) /\
  match wi_reuse identity with Ok token => token_ok token | Err _ => True end.

(** The journal does not keep why a token is missing. *)
Definition recorded (identity : WriteIdentity) : WriteIdentity :=
  mkIdentity (wi_file identity) (map_err (fun _ => Unrecorded) (wi_reuse identity)).

Lemma hex_digit_char d : (0 <= d < 16)%Z -> hex_digit (hex_char d) = Some d.
Proof.
  intros Hd. unfold hex_char, hex_digit, within. destruct (d <? 10)%Z eqn:E.
  - destruct ((48 <=? 48 + d)%Z && (48 + d <=? 57)%Z) eqn:E1; [f_equal|]; lia.
  - destruct ((48 <=? 87 + d)%Z && (87 + d <=? 57)%Z) eqn:E1; [lia|].
    destruct ((97 <=? 87 + d)%Z && (87 + d <=? 102)%Z) eqn:E2; [f_equal|]; lia.
Qed.

Lemma hex_char_plain d : (0 <= d < 16)%Z -> hex_char d <> COLON.
Proof. intros Hd. unfold hex_char, COLON. destruct (d <? 10)%Z eqn:E; lia. Qed.

Lemma nibbles b : byte b -> (0 <= Z.shiftr b 4 < 16 /\ 0 <= Z.land b 15 < 16 /\ Z.shiftr b 4 * 16 + Z.land b 15 = b)%Z.
Proof.
  unfold byte. intros Hb. change 15%Z with (Z.ones 4). rewrite Z.land_ones, Z.shiftr_div_pow2 by lia.
  change (2 ^ 4)%Z with 16%Z. pose proof (Z.div_mod b 16). pose proof (Z.mod_pos_bound b 16). lia.
Qed.

Lemma hex_pairs_hex bs : Forall byte bs -> hex_pairs (hex bs) = Some bs.
Proof.
  induction 1 as [|b bs Hb _ IH]; [done|]. destruct (nibbles b Hb) as (H1 & H2 & H3). cbn [hex hex_pairs].
  rewrite !hex_digit_char by done. cbn. rewrite IH. cbn. by rewrite H3.
Qed.

Lemma hex_length bs : zlen (hex bs) = (2 * zlen bs)%Z.
Proof. induction bs as [|b bs IH]; [done|]. cbn [hex]. rewrite !zlen_cons. lia. Qed.

Lemma hex_plain bs : Forall byte bs -> COLON ∉ hex bs.
Proof.
  induction 1 as [|b bs Hb _ IH]; [apply not_elem_of_nil|]. destruct (nibbles b Hb) as (H1 & H2 & _). cbn [hex].
  rewrite !not_elem_of_cons. split_and!; [by apply not_eq_sym, hex_char_plain..|done].
Qed.

Lemma radix16_digits fuel n acc : (0 <= n < 16 ^ Z.of_nat fuel)%Z -> radix16 (hex_digits fuel n acc) 0 = radix16 acc n.
Proof.
  revert n acc. induction fuel as [|fuel IH]; intros n acc Hn.
  - cbn in Hn. by replace n with 0%Z by lia.
  - rewrite Nat2Z.inj_succ, Z.pow_succ_r in Hn by lia. pose proof (Z.mod_pos_bound n 16). pose proof (Z.div_mod n 16).
    assert (Hstep : forall v, radix16 (hex_char (n mod 16) :: acc) v = radix16 acc (v * 16 + n mod 16)%Z).
    { intros v. cbn [radix16]. by rewrite hex_digit_char by lia. }
    cbn [hex_digits]. destruct (n / 16 =? 0)%Z eqn:E.
    + rewrite Hstep. f_equal. lia.
    + rewrite IH, Hstep; [f_equal; lia|]. split; [lia|]. apply Z.div_lt_upper_bound; lia.
Qed.

Lemma digits_length fuel n acc : (zlen acc <= zlen (hex_digits fuel n acc) <= Z.of_nat fuel + zlen acc)%Z.
Proof.
  revert n acc. induction fuel as [|fuel IH]; intros n acc; cbn [hex_digits]; [lia|].
  destruct (n / 16 =? 0)%Z; [rewrite zlen_cons; lia|]. specialize (IH (n / 16)%Z (hex_char (n mod 16) :: acc)).
  rewrite zlen_cons in IH. lia.
Qed.

Lemma digits_plain fuel n acc : COLON ∉ acc -> COLON ∉ hex_digits fuel n acc.
Proof.
  revert n acc. induction fuel as [|fuel IH]; intros n acc Hacc; cbn [hex_digits]; [done|].
  assert (Hn : COLON ∉ hex_char (n mod 16) :: acc).
  { apply not_elem_of_cons. split; [|done]. apply not_eq_sym, hex_char_plain, Z.mod_pos_bound. lia. }
  destruct (n / 16 =? 0)%Z; [done|]. by apply IH.
Qed.

Lemma digits_some fuel n acc : (zlen acc < zlen (hex_digits (S fuel) n acc))%Z.
Proof.
  cbn [hex_digits]. pose proof (zlen_cons (hex_char (n mod 16)) acc). destruct (n / 16 =? 0)%Z; [lia|].
  pose proof (digits_length fuel (n / 16)%Z (hex_char (n mod 16) :: acc)). lia.
Qed.

Lemma lower_hex_length n : (1 <= zlen (lower_hex n) <= 16)%Z.
Proof.
  pose proof (digits_some 15 n []) as H1. pose proof (digits_length 16 n []) as H2. unfold lower_hex.
  change (zlen (A := Z) []) with 0%Z in *. lia.
Qed.

Lemma lower_hex_plain n : COLON ∉ lower_hex n.
Proof. apply digits_plain, not_elem_of_nil. Qed.

Lemma hex64_lower n : u64 n -> hex64 (lower_hex n) = Ok n.
Proof.
  intros Hn. unfold hex64. pose proof (lower_hex_length n). replace (zlen (lower_hex n) =? 0)%Z with false by lia.
  replace (16 <? zlen (lower_hex n))%Z with false by lia. cbn [orb]. unfold lower_hex. rewrite radix16_digits; [done|].
  unfold u64, u64_max in Hn. change (Z.of_nat 16) with 16%Z. change (16 ^ 16)%Z with 18446744073709551616%Z. lia.
Qed.

Lemma split_plain sep a : sep ∉ a -> split_at sep a = [a].
Proof.
  induction a as [|b a IH]; [done|]. intros [Hb Ha]%not_elem_of_cons. cbn [split_at]. rewrite decide_False by done. by rewrite IH.
Qed.

Lemma split_field sep a rest : sep ∉ a -> split_at sep (a ++ sep :: rest) = a :: split_at sep rest.
Proof.
  induction a as [|b a IH].
  - intros _. cbn. by rewrite decide_True by done.
  - intros [Hb Ha]%not_elem_of_cons. cbn [app split_at]. rewrite decide_False by done. by rewrite IH.
Qed.

Lemma token_length token : token_ok token -> (0 < zlen (token_bytes token) <= REUSE_TOKEN_MAX)%Z.
Proof.
  intros [_ Hf]. destruct token as [raw]. cbn [token_bytes] in *. unfold from_bytes in Hf. destruct raw as [|tag payload]; [done|].
  destruct (REUSE_TOKEN_MAX <? zlen (tag :: payload))%Z eqn:E; [by rewrite orb_true_r in Hf|].
  pose proof (zlen_nonneg payload). rewrite zlen_cons in *. lia.
Qed.

Lemma token_reads_back token : token_ok token -> parse_reuse_token (hex (token_bytes token)) = Some token.
Proof.
  intros Ht. pose proof (token_length token Ht) as Hl. destruct Ht as [Hb Hf]. unfold parse_reuse_token. rewrite hex_length.
  replace (2 * zlen (token_bytes token) =? 0)%Z with false by lia.
  replace (2 * REUSE_TOKEN_MAX <? 2 * zlen (token_bytes token))%Z with false by lia. cbn [orb].
  by rewrite hex_pairs_hex by done.
Qed.

Lemma encoded_fits identity : identity_ok identity -> (PUBLICATION_IDENTITY_MAX <? zlen (encode_publish_identity identity))%Z = false.
Proof.
  intros (_ & _ & Ht). unfold encode_publish_identity, PUBLICATION_IDENTITY_MAX.
  pose proof (lower_hex_length (dev (wi_file identity))). pose proof (lower_hex_length (ino (wi_file identity))).
  destruct (wi_reuse identity) as [token|cause].
  - pose proof (token_length token Ht). rewrite !zlen_app, zlen_cons, !zlen_app, zlen_cons, zlen_app, zlen_cons, hex_length.
    change (zlen V2) with 2%Z. unfold REUSE_TOKEN_MAX in *. lia.
  - rewrite zlen_app, zlen_cons. unfold REUSE_TOKEN_MAX. lia.
Qed.

Lemma parse_encode identity : identity_ok identity -> parse_publish_identity (encode_publish_identity identity) = Ok (recorded identity).
Proof.
  intros Hok. unfold parse_publish_identity. rewrite encoded_fits by done. destruct Hok as (Hd & Hi & Ht).
  destruct identity as [[d i] reuse]. unfold encode_publish_identity, recorded. cbn [wi_file wi_reuse dev ino] in *.
  destruct reuse as [token|cause].
  - rewrite split_field by (apply (bool_decide_unpack _); vm_compute; exact I).
    rewrite !split_field by apply lower_hex_plain. destruct Ht as [Hb Hf]. rewrite split_plain by (by apply hex_plain).
    rewrite decide_True by done. rewrite token_reads_back by done. cbn [ok_or rbind]. by rewrite !hex64_lower by done.
  - rewrite split_field by apply lower_hex_plain. rewrite split_plain by apply lower_hex_plain. cbn [rbind]. by rewrite !hex64_lower by done.
Qed.

(** * The journal *)

(** A row this build writes. *)
Definition row_ok (row : PublicationRow) : Prop :=
  (0 < pr_seq row <= i64_max)%Z /\ (pr_state row = "pending" \/ pr_state row = "applied") /\
  exists intent, publication_from_row row = Ok intent.
Definition place (row : PublicationRow) : string * Z := (pr_target row, pr_seq row).
Definition journal_ok (rows : Journal) : Prop := Forall row_ok rows /\ NoDup (map place rows).

(** A row keeps its columns; a pending one may be receipted. *)
Definition row_step (before after : PublicationRow) : Prop :=
  after = before \/ (pr_state before = "pending" /\ after = applied before).
Definition journal_step (before after : Journal) : Prop := exists kept new, after = kept ++ new /\ Forall2 row_step before kept.

#[export] Instance row_step_preorder : PreOrder row_step.
Proof.
  split; [by intros r; left|]. intros a b c [->|[Ha ->]] [->|[Hb ->]]; try by (left + right).
Qed.

#[export] Instance journal_step_preorder : PreOrder journal_step.
Proof.
  split.
  - intros rows. exists rows, []. rewrite app_nil_r. split; [done|]. by induction rows; constructor.
  - intros a b c (k1 & n1 & -> & H1) (k2 & n2 & -> & H2). apply Forall2_app_inv_l in H2 as (k & m & Hk & Hm & ->).
    exists k, (m ++ n2). rewrite app_assoc. split; [done|]. by transitivity k1.
Qed.

Lemma wide v : (0 <= v <= i64_max)%Z -> as_u64 v = v /\ as_i64 v = v.
Proof.
  unfold as_u64, as_i64, i64_max. intros Hv. split; [apply Z.mod_small; lia|]. rewrite Z.mod_small; lia.
Qed.

Lemma max_seq_above target rows row :
  row ∈ rows -> pr_target row = target -> exists top, max_seq target rows = Some top /\ (pr_seq row <= top)%Z.
Proof.
  intros Hrow Ht. induction rows as [|r rows IH]; [by apply elem_of_nil in Hrow|]. cbn [max_seq foldr].
  fold (max_seq target rows). apply elem_of_cons in Hrow as [<-|Hrow].
  - rewrite decide_True by done. destruct (max_seq target rows) as [t|]; eexists; (split; [reflexivity|lia]).
  - destruct (IH Hrow) as (top & -> & Hle). case_decide; eexists; (split; [reflexivity|lia]).
Qed.

Lemma max_seq_range target rows top : Forall row_ok rows -> max_seq target rows = Some top -> (0 < top <= i64_max)%Z.
Proof.
  intros Hrows. revert top. induction Hrows as [|r rows [Hr _] _ IH]; intros top; [done|]. cbn [max_seq foldr].
  fold (max_seq target rows). case_decide; [|apply IH]. intros [= <-]. destruct (max_seq target rows) as [t|]; [|done].
  specialize (IH t eq_refl). lia.
Qed.

Lemma next_number_above target rows row : row ∈ rows -> pr_target row = target -> (pr_seq row < next_publication_seq target rows)%Z.
Proof.
  intros Hrow Ht. destruct (max_seq_above target rows row Hrow Ht) as (top & E & Hle). unfold next_publication_seq. rewrite E. cbn. lia.
Qed.

Lemma next_positive target rows : Forall row_ok rows -> (0 < next_publication_seq target rows)%Z.
Proof.
  intros Hrows. unfold next_publication_seq. destruct (max_seq target rows) as [top|] eqn:E; [|done].
  apply max_seq_range in E; [|done]. cbn. lia.
Qed.

(** An append writes one row, under a number above the target's others. *)
Definition staged_row (owner target : string) (intended : string) (base : option string) (identity : option WriteIdentity) (rows : Journal)
    : PublicationRow :=
  mkRow owner target (next_publication_seq target rows) intended base (encode_publish_identity <$> identity) "pending".

Lemma append_runs owner target intended base identity rows :
  Forall row_ok rows ->
  append_tx owner target intended base identity rows =
    if decide (i64_max < next_publication_seq target rows)%Z then Err (Storage TotalOverflow)
    else Ok (next_publication_seq target rows, rows ++ [staged_row owner target intended base identity rows]).
Proof.
  intros Hrows. pose proof (next_positive target rows Hrows). unfold append_tx, tx_bind at 1, tx_get at 1. cbn beta iota zeta.
  case_decide as Hmax; [done|]. destruct (wide (next_publication_seq target rows)) as [Hu Hi]; [lia|]. rewrite Hu, Hi.
  unfold insert_publication, tx_bind, tx_get. rewrite decide_False; [done|]. intros (row & Hkey & Hrow)%list_elem_of_fmap.
  injection Hkey as _ Ht Hs. pose proof (next_number_above target rows row Hrow (eq_sym Ht)). lia.
Qed.

Lemma staged_row_reads owner target intended base identity rows :
  Forall row_ok rows -> (next_publication_seq target rows <= i64_max)%Z -> from_option identity_ok True identity ->
  publication_from_row (staged_row owner target intended base identity rows) =
    Ok (mkIntent owner target (next_publication_seq target rows) intended base (recorded <$> identity)).
Proof.
  intros Hrows Hmax Hid. pose proof (next_positive target rows Hrows). unfold publication_from_row, staged_row. cbn [pr_identity pr_seq].
  destruct (wide (next_publication_seq target rows)) as [-> _]; [lia|].
  destruct identity as [i|]; [|done]. cbn in *. by rewrite parse_encode.
Qed.

Lemma staged_row_ok owner target intended base identity rows :
  Forall row_ok rows -> (next_publication_seq target rows <= i64_max)%Z -> from_option identity_ok True identity ->
  row_ok (staged_row owner target intended base identity rows).
Proof.
  intros Hrows Hmax Hid. pose proof (next_positive target rows Hrows).
  split_and!; [cbn; lia|cbn; lia|by left|]. eexists. by apply staged_row_reads.
Qed.

Lemma append_sound owner target intended base identity rows :
  journal_ok rows -> (next_publication_seq target rows <= i64_max)%Z -> from_option identity_ok True identity ->
  journal_ok (rows ++ [staged_row owner target intended base identity rows]).
Proof.
  intros [Hrows Hnd] Hmax Hid. split.
  - apply Forall_app. split; [done|]. constructor; [by apply staged_row_ok|constructor].
  - rewrite map_app. apply NoDup_app. split_and!; [done| |apply NoDup_singleton].
    intros p (row & -> & Hrow)%list_elem_of_fmap [E|[]%elem_of_nil]%elem_of_cons. injection E as Ht Hs.
    pose proof (next_number_above target rows row Hrow Ht). lia.
Qed.

Lemma append_step owner target intended base identity rows :
  journal_step rows (rows ++ [staged_row owner target intended base identity rows]).
Proof. exists rows, [staged_row owner target intended base identity rows]. split; [done|]. reflexivity. Qed.

(** ** The receipt *)

Definition receipted (owner target : string) (seq : Z) (rows : Journal) : Journal :=
  map (fun row => if completes owner target seq row then applied row else row) rows.

Lemma complete_runs owner target seq rows :
  complete_tx owner target seq rows =
    if existsb (completes owner target (as_i64 seq)) rows then Ok (tt, receipted owner target (as_i64 seq) rows)
    else Err (StoreConflict (PublicationNotPending owner target seq)).
Proof. unfold complete_tx, tx_bind, tx_get. by destruct (existsb _ _). Qed.

Lemma completes_true owner target seq row :
  completes owner target seq row = true <->
  pr_owner row = owner /\ pr_target row = target /\ pr_seq row = seq /\ pr_state row = "pending".
Proof. unfold completes. rewrite !andb_true_iff, !bool_decide_eq_true, Z.eqb_eq. tauto. Qed.

Lemma receipt_step owner target seq rows : Forall2 row_step rows (receipted owner target seq rows).
Proof.
  induction rows as [|row rows IH]; cbn; constructor; [|done].
  destruct (completes owner target seq row) eqn:E; [|by left]. apply completes_true in E. right. tauto.
Qed.

Lemma applied_reads row : publication_from_row (applied row) = publication_from_row row.
Proof. done. Qed.

Lemma receipt_sound owner target seq rows : journal_ok rows -> journal_ok (receipted owner target seq rows).
Proof.
  intros [Hrows Hnd]. split.
  - apply Forall_fmap. eapply Forall_impl; [exact Hrows|]. intros row Hrow. unfold compose.
    destruct (completes owner target seq row); [|exact Hrow]. destruct Hrow as (Hseq & _ & i & Hi).
    split; [exact Hseq|]. split; [by right|]. exists i. by rewrite applied_reads.
  - unfold receipted. rewrite map_map. erewrite map_ext; [exact Hnd|]. intros row. by destruct (completes owner target seq row).
Qed.

(** ** The reads *)

Lemma in_state_elem state rows row : row ∈ in_state state rows <-> row ∈ rows /\ pr_state row = state.
Proof. unfold in_state. rewrite merge_sort_Permutation, list_elem_of_filter. tauto. Qed.

Definition reads_as (row : PublicationRow) (intent : PublicationIntent) : Prop := publication_from_row row = Ok intent.

Lemma publications_read state s rows :
  conn s = Ok rows -> Forall row_ok rows ->
  exists intents, publications state s = Ok intents /\ Forall2 reads_as (in_state state rows) intents.
Proof.
  intros Hc Hrows. unfold publications. rewrite (read_open _ s rows Hc).
  assert (Hsel : Forall row_ok (in_state state rows)).
  { apply Forall_forall. intros row [Hin _]%in_state_elem. by eapply Forall_forall. }
  induction Hsel as [|row l (_ & _ & i & Hi) _ (ks & His & Hall)]; [by exists []|].
  cbn [try_map]. rewrite Hi. cbn [rbind]. rewrite His. cbn [rbind]. exists (i :: ks). split; [done|]. by constructor.
Qed.

Lemma reads_listed rows intents row i : Forall2 reads_as rows intents -> row ∈ rows -> reads_as row i -> i ∈ intents.
Proof.
  intros Hr [k Hk]%list_elem_of_lookup_1 Hi. destruct (Forall2_lookup_l _ _ _ _ _ Hr Hk) as (i' & Hik & Hi').
  unfold reads_as in *. rewrite Hi in Hi'. injection Hi' as <-. by eapply list_elem_of_lookup_2.
Qed.

(** What a read lists. *)
Lemma publications_elem state s rows :
  conn s = Ok rows -> Forall row_ok rows ->
  exists intents, publications state s = Ok intents /\
    forall i, i ∈ intents <-> exists row, row ∈ rows /\ pr_state row = state /\ reads_as row i.
Proof.
  intros Hc Hrows. destruct (publications_read state s rows Hc Hrows) as (intents & Hp & Hr). exists intents. split; [done|].
  intros i. split.
  - intros [k Hk]%list_elem_of_lookup_1. destruct (Forall2_lookup_r _ _ _ _ _ Hr Hk) as (row & [Hrow Hst]%list_elem_of_lookup_2%in_state_elem & Hi).
    by exists row.
  - intros (row & Hrow & Hst & Hi). apply (reads_listed _ _ row i Hr); [by apply in_state_elem|done].
Qed.

(** ** The calls on an open store *)

Definition with_rows (s : PStore) (rows : Journal) : PStore := mkTaskStore (Some rows) (ts_held_claim_commit s) (ts_path_identity s).

Lemma transaction_open {A} (body : jtx A) (s : PStore) rows :
  conn_mut s = Ok rows ->
  transaction body s = match body rows with Ok (a, rows') => (Ok a, with_rows s rows') | Err e => (Err e, s) end.
Proof. intros Hc. unfold transaction. by rewrite Hc. Qed.

Lemma with_rows_open s rows rows' : conn_mut s = Ok rows -> conn_mut (with_rows s rows') = Ok rows'.
Proof. unfold conn_mut. cbn. destruct (ts_held_claim_commit s); [done|]. by destruct (ts_path_identity s). Qed.

Lemma with_rows_same s rows : conn_mut s = Ok rows -> with_rows s rows = s.
Proof.
  unfold conn_mut, with_rows. destruct s as [c held path]. cbn. destruct held; [done|]. destruct path; [|done]. cbn. destruct c; [|done].
  by intros [= ->].
Qed.


Lemma append_publication_runs owner target intended base identity s rows :
  conn_mut s = Ok rows -> Forall row_ok rows ->
  append_publication owner target intended base identity s =
    if decide (i64_max < next_publication_seq target rows)%Z then (Err (Storage TotalOverflow), s)
    else (Ok (next_publication_seq target rows), with_rows s (rows ++ [staged_row owner target intended base identity rows])).
Proof.
  intros Hc Hrows. unfold append_publication. rewrite (transaction_open _ s rows Hc), append_runs by done. by case_decide.
Qed.

Lemma complete_publication_runs owner target seq s rows :
  conn_mut s = Ok rows ->
  complete_publication owner target seq s =
    if existsb (completes owner target (as_i64 seq)) rows then (Ok tt, with_rows s (receipted owner target (as_i64 seq) rows))
    else (Err (StoreConflict (PublicationNotPending owner target seq)), s).
Proof. intros Hc. unfold complete_publication. rewrite (transaction_open _ s rows Hc), complete_runs. by destruct (existsb _ _). Qed.

(** A row and the intent read from it have one key. *)
Lemma reads_key row intent :
  row_ok row -> reads_as row intent ->
  owner intent = pr_owner row /\ target intent = pr_target row /\ as_i64 (admission_seq intent) = pr_seq row /\
  admission_seq intent = pr_seq row /\ intended_digest intent = pr_intended row /\ base_digest intent = pr_base row.
Proof.
  intros [Hseq _]. unfold reads_as, publication_from_row. destruct (pr_identity row) as [raw|]; cbn [map_err rbind].
  - destruct (parse_publish_identity raw); cbn [map_err rbind]; [|done]. intros [= <-]. cbn. destruct (wide (pr_seq row)) as [-> ->]; [lia|done].
  - intros [= <-]. cbn. destruct (wide (pr_seq row)) as [-> ->]; [lia|done].
Qed.

Lemma reads_own_key row intent : row_ok row -> reads_as row intent -> pr_state row = "pending" ->
  completes (owner intent) (target intent) (as_i64 (admission_seq intent)) row = true.
Proof. intros Hok Hi Hst. destruct (reads_key row intent Hok Hi) as (-> & -> & -> & _). by apply completes_true. Qed.

Lemma same_place rows row row' :
  journal_ok rows -> row ∈ rows -> row' ∈ rows -> place row = place row' -> row = row'.
Proof.
  intros [_ Hnd]. revert Hnd. induction rows as [|r rows IH]; [by intros _ ?%elem_of_nil|]. cbn. intros [Hr Hnd]%NoDup_cons.
  intros [->|H1]%elem_of_cons [->|H2]%elem_of_cons Hp; [done| | |by apply IH].
  - destruct Hr. rewrite Hp. by apply list_elem_of_fmap_2.
  - destruct Hr. rewrite <- Hp. by apply list_elem_of_fmap_2.
Qed.

(** * Recovery *)

Section recovery.
Context {World : Type} `{Host World}.
Variable sha256_hex : bytes -> string.
Variable parses : bytes -> bool.
Abbreviation classify := (classify_intent sha256_hex parses).

(** The intents a recovery finds its own bytes at. *)
Definition own_write (w : World) (intent : PublicationIntent) : bool := bool_decide (classify w intent = ExactlyNew).
Definition receipts (row : PublicationRow) (intent : PublicationIntent) : bool :=
  completes (owner intent) (target intent) (as_i64 (admission_seq intent)) row.
Definition settle_each (w : World) (intents : list PublicationIntent) (row : PublicationRow) : PublicationRow :=
  if existsb (fun i => own_write w i && receipts row i) intents then applied row else row.

(** What one recovery makes of a row. *)
Definition recovered (w : World) (row : PublicationRow) : bool :=
  bool_decide (pr_state row = "pending") && match publication_from_row row with Ok i => own_write w i | Err _ => false end.
Definition settle (w : World) (row : PublicationRow) : PublicationRow := if recovered w row then applied row else row.
Definition recoveries (w : World) (intents : list PublicationIntent) : list PublicationRecovery :=
  map (fun i => mkRecovery i (classify w i)) intents.

Lemma settle_each_cons w i intents rows :
  map (settle_each w (i :: intents)) rows =
  map (settle_each w intents) (if own_write w i then receipted (owner i) (target i) (as_i64 (admission_seq i)) rows else rows).
Proof.
  unfold settle_each. cbn [existsb]. destruct (own_write w i) eqn:E; [|by apply map_ext; intros row].
  unfold receipted. rewrite map_map. apply map_ext. intros row. cbn [andb]. unfold receipts at 1.
  destruct (completes _ _ _ row) eqn:Ec; [|done]. cbn [orb]. destruct (existsb _ intents) eqn:Ex; [|done]. done.
Qed.

Lemma recover_each_runs w intents pend rows s :
  conn_mut s = Ok rows -> journal_ok rows -> NoDup pend -> Forall2 reads_as pend intents ->
  Forall (fun row => row ∈ rows /\ pr_state row = "pending") pend ->
  recover_each sha256_hex parses w intents s = (Ok (recoveries w intents), with_rows s (map (settle_each w intents) rows)).
Proof.
  intros Hc Hok Hnd Hr. revert s rows Hc Hok Hnd. induction Hr as [|row i pend intents Hi Hr IH]; intros s rows Hc Hok Hnd Hpend.
  - cbn. unfold settle_each. cbn. rewrite map_id. by rewrite (with_rows_same s rows).
  - apply NoDup_cons in Hnd as [Hnew Hnd]. apply Forall_cons in Hpend as [[Hin Hst] Hpend].
    assert (Hrow : row_ok row) by (destruct Hok as [Hf _]; by eapply Forall_forall in Hf).
    pose proof (reads_own_key row i Hrow Hi Hst) as Hkey.
    rewrite settle_each_cons. cbn [recover_each]. unfold own_write. destruct (decide (classify w i = ExactlyNew)) as [E|E].
    + rewrite bool_decide_true by done. rewrite (complete_publication_runs _ _ _ s rows Hc).
      replace (existsb _ rows) with true by (symmetry; apply existsb_exists; exists row; split; [by apply list_elem_of_In|done]).
      rewrite (IH _ (receipted (owner i) (target i) (as_i64 (admission_seq i)) rows)); [done|by eapply with_rows_open|by apply receipt_sound|done|].
      apply Forall_forall. intros r Hr'. assert (Hp := proj1 (Forall_forall _ _) Hpend r Hr'). destruct Hp as [Hrin Hrst]. split; [|done].
      apply list_elem_of_fmap. exists r. split; [|done]. destruct (completes _ _ _ r) eqn:Ec; [|done].
      apply completes_true in Ec, Hkey. destruct Hnew. replace row with r; [done|].
      apply (same_place rows); [done..|]. unfold place. f_equal; destruct_and!; congruence.
    + rewrite bool_decide_false by done. by rewrite (IH _ rows).
Qed.

Lemma settle_each_settle w rows intents :
  journal_ok rows -> Forall2 reads_as (in_state "pending" rows) intents ->
  map (settle_each w intents) rows = map (settle w) rows.
Proof.
  intros Hok Hr. apply map_ext_in. intros row Hrow%list_elem_of_In. unfold settle_each, settle.
  replace (existsb _ intents) with (recovered w row); [done|]. apply eq_true_iff_eq. unfold recovered.
  assert (Hrok : row_ok row) by (destruct Hok as [Hf _]; by eapply Forall_forall in Hf).
  rewrite andb_true_iff, bool_decide_eq_true, existsb_exists. split.
  - intros [Hst Hown]. destruct (proj2 (proj2 Hrok)) as [i Hi]. rewrite Hi in Hown. exists i.
    assert (Hin : row ∈ in_state "pending" rows) by (by apply in_state_elem).
    apply list_elem_of_lookup_1 in Hin as [k Hk]. destruct (Forall2_lookup_l _ _ _ _ _ Hr Hk) as (i' & Hi' & Hreads).
    unfold reads_as in Hreads. rewrite Hi in Hreads. injection Hreads as <-. split; [by apply list_elem_of_lookup_2, list_elem_of_In in Hi'|].
    rewrite Hown. cbn. by apply reads_own_key.
  - intros (i & Hin%list_elem_of_In & [Hown Hkey]%andb_true_iff). apply list_elem_of_lookup_1 in Hin as [k Hk].
    destruct (Forall2_lookup_r _ _ _ _ _ Hr Hk) as (row' & Hrow'%list_elem_of_lookup_2 & Hreads).
    apply in_state_elem in Hrow' as [Hin' Hst'].
    assert (Hrok' : row_ok row') by (destruct Hok as [Hf _]; by eapply Forall_forall in Hf).
    pose proof (reads_own_key row' i Hrok' Hreads Hst') as Hkey'. unfold receipts in Hkey. apply completes_true in Hkey, Hkey'.
    assert (row' = row) as <- by (apply (same_place rows); [done..|]; unfold place; f_equal; destruct_and!; congruence).
    split; [done|]. by rewrite Hreads.
Qed.

Lemma in_state_nodup state rows : journal_ok rows -> NoDup (in_state state rows).
Proof.
  intros [_ Hnd]. unfold in_state. rewrite merge_sort_Permutation. apply NoDup_filter. by eapply NoDup_fmap_1.
Qed.

Lemma recover_runs w s rows :
  conn_mut s = Ok rows -> journal_ok rows ->
  exists intents, Forall2 reads_as (in_state "pending" rows) intents /\
    recover_publications sha256_hex parses w s = (Ok (recoveries w intents), with_rows s (map (settle w) rows)).
Proof.
  intros Hc Hok. destruct (conn_mut_open s rows Hc) as [Hco _].
  destruct (publications_read "pending" s rows Hco (proj1 Hok)) as (intents & Hp & Hr). exists intents. split; [done|].
  unfold recover_publications, pending_publications. rewrite Hp.
  rewrite (recover_each_runs w intents (in_state "pending" rows) rows s); [|done|done|by apply in_state_nodup|done|].
  - by rewrite (settle_each_settle w rows intents).
  - apply Forall_forall. intros row Hin. by apply in_state_elem.
Qed.
End recovery.

(** * The write *)

(** What the code relies on: metadata and tokens of the platform's shapes; a path
    opened to be read and to be written, without a link to follow, is one file; the
    sandbox's probes leave the target as it was; and a mutation through an open file is
    what the next reader of its path sees, under the same identity. *)
Class HostLaws (World : Type) `{Host World} := {
  metadata_u64 w p h m : open_read w p = Ok h -> h_metadata h = Ok m -> u64 (m_dev m) /\ u64 (m_ino m);
  token_shaped w p h t : open_read w p = Ok h -> h_token h = Ok t -> token_ok t;
  one_file w p r h m m' :
    open_read w p = Ok r -> open_write w p = Ok h -> h_metadata r = Ok m -> h_metadata h = Ok m' ->
    from_metadata m' = from_metadata m /\ h_token h = h_token r;
  gate_keeps w root p : open_read (write_gate w root p).2 p = open_read w p;
  mutate_reads w p r h m content f :
    open_write w p = Ok h -> open_read w p = Ok r -> h_metadata r = Ok m -> h_read r = Ok content ->
    open_read (mutate w h f) p =
      Ok (mkHandle (Ok (mkMetadata (m_is_file m) (zlen (f content)) (m_dev m) (m_ino m))) (h_token r) (Ok (f content)));
}.

(** The confined writer leaves exactly its payload when it is done. *)
Lemma confined_write_done payload content : confined_write (length payload) payload content = payload.
Proof.
  unfold confined_write. rewrite firstn_all, skipn_all2; [apply app_nil_r|]. unfold set_len.
  rewrite length_app, length_take, length_replicate. lia.
Qed.

(** However far it got, the file has the payload's length: what is not written yet is
    the old bytes or zeros. *)
Lemma confined_write_length written payload content : length (confined_write written payload content) = length payload.
Proof. unfold confined_write, set_len. rewrite length_app, length_drop, length_app, !length_take, length_replicate. lia. Qed.

Section writes.
Context {World : Type} `{HostLaws World}.
Variable sha256_hex : bytes -> string.

Lemma observed w p o :
  read_target_once sha256_hex w p = Ok o ->
  exists r m content, open_read w p = Ok r /\ h_metadata r = Ok m /\ h_read r = Ok content /\ m_is_file m = true /\
    o = mkObservation (sha256_hex content) (mkIdentity (from_metadata m) (map_err (fun _ => Unsupported) (h_token r))) content /\
    (zlen content <= PUBLICATION_MAX_BYTES)%Z /\ (forall what, h_token r <> Err (TokenIo what)).
Proof.
  unfold read_target_once. destruct (open_read w p) as [r|] eqn:Er; [|done]. cbn [rbind].
  destruct (h_metadata r) as [m|] eqn:Em; [|done]. cbn [rbind]. destruct (m_is_file m) eqn:Ef; [|done]. cbn [negb].
  destruct (PUBLICATION_MAX_BYTES <? m_len m)%Z; [done|].
  assert (Htake : forall content : list Z, (PUBLICATION_MAX_BYTES <? zlen (take (Z.to_nat (PUBLICATION_MAX_BYTES + 1)) content))%Z = false ->
    (zlen content <= PUBLICATION_MAX_BYTES)%Z /\ take (Z.to_nat (PUBLICATION_MAX_BYTES + 1)) content = content).
  { intros content Hl. unfold zlen in *. rewrite length_take in Hl. apply Z.ltb_ge in Hl. rewrite Nat2Z.inj_min, Z2Nat.id in Hl by done.
    unfold PUBLICATION_MAX_BYTES in *. split; [lia|]. apply take_ge. apply Nat2Z.inj_le. rewrite Z2Nat.id by done. lia. }
  destruct (h_token r) as [t|[|what]] eqn:Et; cbn [rbind]; [..|done]; destruct (h_read r) as [content|] eqn:Eh; cbn [rbind]; try done;
    (destruct (PUBLICATION_MAX_BYTES <? zlen (take (Z.to_nat (PUBLICATION_MAX_BYTES + 1)) content))%Z eqn:El; [done|]); intros [= <-]; destruct (Htake content El) as [Hl ->];
    exists r, m, content; split_and!; rewrite ?Et; done.
Qed.

Lemma observed_identity w p o : read_target_once sha256_hex w p = Ok o -> identity_ok (ob_identity o).
Proof.
  intros (r & m & content & Er & Em & Eh & _ & -> & _)%observed. cbn. destruct (metadata_u64 w p r m Er Em) as [Hd Hi].
  split; [exact Hd|]. split; [exact Hi|]. cbn. destruct (h_token r) as [t|] eqn:Et; [|done]. by eapply token_shaped.
Qed.

(** What a finished write leaves, and a refused one. *)
Lemma confirmed target canonical file expected :
  confirm_write_occupant target canonical file expected = Ok tt ->
  exists m t, h_metadata file = Ok m /\ from_metadata m = wi_file expected /\ h_token file = Ok t /\ wi_reuse expected = Ok t.
Proof.
  unfold confirm_write_occupant. destruct (h_metadata file) as [m|]; [|done]. cbn [map_err rbind].
  destruct (same_regular_file canonical m); [|done]. cbn [negb orb].
  destruct (bool_decide_reflect (from_metadata m = wi_file expected)) as [Hf|]; [|done]. cbn [negb].
  destruct (wi_reuse expected) as [t|]; [|done]. cbn [map_err rbind]. destruct (h_token file) as [t'|]; [|done]. cbn [map_err rbind].
  case_decide; [|done]. intros _. exists m, t'. by subst.
Qed.

Lemma write_once_inv w root p expected payload answer w' :
  write_once w root p expected payload = (answer, w') ->
  (exists e, answer = Err e /\ open_read w' p = open_read w p) \/
  (exists file w1, open_read w1 p = open_read w p /\ open_write w1 p = Ok file /\
    (exists canonical, confirm_write_occupant p canonical file expected = Ok tt) /\ (zlen payload <= WRITE_MAX_BYTES)%Z /\
    ((answer = Ok tt /\ w' = mutate w1 file (confined_write (length payload) payload)) \/
     exists written e, answer = Err e /\ w' = mutate w1 file (confined_write written payload))).
Proof.
  unfold write_once. destruct (WRITE_MAX_BYTES <? zlen payload)%Z eqn:El; [intros [= <- <-]; left; by eexists|].
  destruct (inspect_regular_target w root p) as [canonical|e]; [|intros [= <- <-]; left; by eexists].
  pose proof (gate_keeps w root p) as Hk. destruct (write_gate w root p) as [[u|e] w1]; cbn in Hk; [|intros [= <- <-]; left; by eexists].
  destruct (open_write w1 p) as [file|e] eqn:Ew; [|intros [= <- <-]; left; by eexists].
  unfold write_opened_file. destruct (confirm_write_occupant p canonical file expected) as [[]|e] eqn:Ec; [|intros [= <- <-]; left; by eexists].
  unfold helper_confined_write. intros Hrun. destruct (helper_run w1 payload) as [e|written e|]; injection Hrun as <- <-.
  - left. by eexists.
  - right. exists file, w1. split_and!; [done..|by exists canonical|lia|right; by exists written, e].
  - right. exists file, w1. split_and!; [done..|by exists canonical|lia|by left].
Qed.

(** A target read once is read again after a write through it, under the identity it
    had. *)
Lemma reads_after w1 p o file f :
  read_target_once sha256_hex w1 p = Ok o -> open_write w1 p = Ok file -> (zlen (f (ob_bytes o)) <= PUBLICATION_MAX_BYTES)%Z ->
  read_target_once sha256_hex (mutate w1 file f) p =
    Ok (mkObservation (sha256_hex (f (ob_bytes o))) (ob_identity o) (f (ob_bytes o))).
Proof.
  intros (r & m & content & Er & Em & Eh & Ef & -> & Hl & Ht)%observed Hw Hlen. cbn [ob_bytes ob_identity] in *.
  unfold read_target_once. rewrite (mutate_reads w1 p r file m content f Hw Er Em Eh). cbn [rbind h_metadata m_is_file m_len h_token h_read].
  rewrite Ef. cbn [negb]. replace (PUBLICATION_MAX_BYTES <? zlen (f content))%Z with false by lia.
  assert (Htake : take (Z.to_nat (PUBLICATION_MAX_BYTES + 1)) (f content) = f content).
  { apply take_ge, Nat2Z.inj_le. rewrite Z2Nat.id by done. unfold zlen in Hlen. lia. }
  destruct (h_token r) as [t|[|what]] eqn:Et; cbn [rbind]; [..|by destruct (Ht what)];
    rewrite Htake; replace (PUBLICATION_MAX_BYTES <? zlen (f content))%Z with false by lia; done.
Qed.

Lemma same_reading w w' p : open_read w' p = open_read w p -> read_target_once sha256_hex w' p = read_target_once sha256_hex w p.
Proof. intros E. unfold read_target_once. by rewrite E. Qed.

(** The file a finished or an interrupted write went to is the staged one. *)
Lemma occupant w1 p o file canonical expected :
  read_target_once sha256_hex w1 p = Ok o -> open_write w1 p = Ok file ->
  confirm_write_occupant p canonical file expected = Ok tt ->
  exists t, wi_reuse expected = Ok t /\ ob_identity o = expected.
Proof.
  intros (r & m & content & Er & Em & _ & _ & -> & _ & _)%observed Hw (m' & t & Hm' & Hf & Ht & He)%confirmed.
  destruct (one_file w1 p r file m m' Er Hw Em Hm') as [Hfile Htok]. exists t. split; [done|]. cbn [ob_identity].
  rewrite <- Hfile, <- Htok, Hf, Ht. destruct expected as [ef er]. cbn in *. by rewrite He.
Qed.

(** The outcomes of a checked write on a target that can be read. *)
Lemma write_once_outcome w root p o expected payload answer w' :
  write_once w root p expected payload = (answer, w') -> read_target_once sha256_hex w p = Ok o ->
  (answer = Ok tt /\ (exists t, wi_reuse expected = Ok t) /\ ob_identity o = expected /\
    read_target_once sha256_hex w' p = Ok (mkObservation (sha256_hex payload) expected payload)) \/
  (exists e, answer = Err e /\
    (read_target_once sha256_hex w' p = Ok o \/
     (ob_identity o = expected /\ exists written, read_target_once sha256_hex w' p =
        Ok (mkObservation (sha256_hex (confined_write written payload (ob_bytes o))) expected (confined_write written payload (ob_bytes o)))))).
Proof.
  intros Hrun Ho. apply write_once_inv in Hrun as [(e & -> & Hsame)|(file & w1 & Hsame & Hw & [canonical Hc] & Hl & Hend)].
  - right. exists e. split; [done|]. left. by rewrite (same_reading w w').
  - rewrite <- (same_reading w w1 p Hsame) in Ho. destruct (occupant w1 p o file canonical expected Ho Hw Hc) as (t & Ht & Hid).
    assert (Hfit : forall n, (zlen (confined_write n payload (ob_bytes o)) <= PUBLICATION_MAX_BYTES)%Z).
    { intros n. unfold zlen. rewrite confined_write_length. exact Hl. }
    destruct Hend as [[-> ->]|(written & e & -> & ->)].
    + left. rewrite (reads_after w1 p o file) by done. rewrite confined_write_done, Hid. split_and!; [done|by exists t|done..].
    + right. exists e. split; [done|]. right. split; [done|]. exists written. rewrite (reads_after w1 p o file) by done. by rewrite Hid.
Qed.
End writes.

(** * The calls *)

Section calls.
Context {World : Type} `{HostLaws World}.
Variable sha256_hex : bytes -> string.
Variable parses : bytes -> bool.

Lemma stage_inv w owner target edit s rows answer s' :
  stage_publication sha256_hex w owner target edit s = (answer, s') -> conn_mut s = Ok rows -> journal_ok rows ->
  match answer with
  | Err _ => s' = s
  | Ok intent => exists o,
      read_target_once sha256_hex w target = Ok o /\ identity_ok (ob_identity o) /\
      (next_publication_seq target rows <= i64_max)%Z /\ utf8_valid (bytes_of target) = true /\
      intent = mkIntent owner target (next_publication_seq target rows) (ce_digest edit) (Some (ob_digest o)) (Some (ob_identity o)) /\
      s' = with_rows s (rows ++ [staged_row owner target (ce_digest edit) (Some (ob_digest o)) (Some (ob_identity o)) rows])
  end.
Proof.
  intros Hrun Hc [Hrows _]. unfold stage_publication in Hrun. destruct (utf8_valid (bytes_of target)) eqn:Hu; [|by injection Hrun as <- <-].
  cbn [negb] in Hrun. destruct (read_target_once sha256_hex w target) as [o|[|what]] eqn:Ho; [|by injection Hrun as <- <-..].
  rewrite (append_publication_runs _ _ _ _ _ s rows Hc Hrows) in Hrun. case_decide; [by injection Hrun as <- <-|].
  injection Hrun as <- <-. exists o. split_and!; [done|by eapply (observed_identity sha256_hex)|lia|done..].
Qed.

(** A call leaves the journal readable, with its rows and perhaps some more. *)
Definition keeps (rows : Journal) (s' : PStore) : Prop :=
  exists rows', conn_mut s' = Ok rows' /\ journal_ok rows' /\ journal_step rows rows'.

Lemma keeps_same s rows : conn_mut s = Ok rows -> journal_ok rows -> keeps rows s.
Proof. intros. by exists rows. Qed.

Lemma stage_keeps w owner target edit s rows :
  conn_mut s = Ok rows -> journal_ok rows -> keeps rows (stage_publication sha256_hex w owner target edit s).2.
Proof.
  intros Hc Hok. destruct (stage_publication sha256_hex w owner target edit s) as [[intent|e] s'] eqn:Hrun; cbn;
    apply (stage_inv _ _ _ _ _ rows) in Hrun; try done.
  - destruct Hrun as (o & _ & Hid & Hmax & _ & -> & ->). eexists. split; [by eapply with_rows_open|].
    split; [by apply append_sound|apply append_step].
  - subst. by apply keeps_same.
Qed.

Lemma staged_admission_keeps w owner target edit s rows :
  conn_mut s = Ok rows -> journal_ok rows -> keeps rows (staged_admission sha256_hex w owner target edit s).2.
Proof.
  intros Hc Hok. pose proof (stage_keeps w owner target edit s rows Hc Hok). unfold staged_admission.
  by destruct (stage_publication sha256_hex w owner target edit s) as [[intent|e] s'].
Qed.

Lemma admit_keeps w owner target edit s rows :
  conn_mut s = Ok rows -> journal_ok rows -> keeps rows (admit_publication sha256_hex w owner target edit s).2.
Proof.
  intros Hc Hok. pose proof (keeps_same s rows Hc Hok). pose proof (staged_admission_keeps w owner target edit s rows Hc Hok).
  unfold admit_publication. destruct (negb _); [done|]. destruct (pending_publications s) as [pending|]; [|done].
  destruct (find _ pending); [done|]. destruct (applied_publications s) as [applied|]; [|done].
  destruct (observe_target sha256_hex w target); [done| |done]. case_decide; [|done].
  destruct (terminal_answer _ _ _ _ _) as [intent|[cause|]]; done.
Qed.

(** A call that stages nothing leaves the journal readable, with its rows and no
    more. *)
Definition holds (rows : Journal) (s' : PStore) : Prop :=
  exists rows', conn_mut s' = Ok rows' /\ journal_ok rows' /\ Forall2 row_step rows rows'.

Lemma holds_same s rows : conn_mut s = Ok rows -> journal_ok rows -> holds rows s.
Proof. intros. exists rows. split_and!; [done..|reflexivity]. Qed.

Lemma holds_keeps rows s' : holds rows s' -> keeps rows s'.
Proof. intros (rows' & Hc & Hok & Hs). exists rows'. split_and!; [done..|]. exists rows', []. by rewrite app_nil_r. Qed.

Lemma complete_holds owner target seq s rows :
  conn_mut s = Ok rows -> journal_ok rows -> holds rows (complete_publication owner target seq s).2.
Proof.
  intros Hc Hok. rewrite (complete_publication_runs _ _ _ s rows Hc). destruct (existsb _ rows); [|by apply holds_same].
  eexists. split; [by eapply with_rows_open|]. split; [by apply receipt_sound|apply receipt_step].
Qed.

Lemma publish_holds w intent payload s rows :
  conn_mut s = Ok rows -> journal_ok rows -> holds rows (publish_intent w intent payload s).2.
Proof.
  intros Hc Hok. pose proof (holds_same s rows Hc Hok). unfold publish_intent. destruct (publish_identity intent) as [identity|]; [|done].
  destruct (write_once _ _ _ _ _) as [[u|e] w']; [|done].
  pose proof (complete_holds (owner intent) (target intent) (admission_seq intent) s rows Hc Hok).
  by destruct (complete_publication _ _ _ s).
Qed.

Lemma heal_holds w caller intent payload s rows :
  conn_mut s = Ok rows -> journal_ok rows -> holds rows (resolve_pending_publication sha256_hex parses w caller intent payload s).2.
Proof.
  intros Hc Hok. pose proof (holds_same s rows Hc Hok). unfold resolve_pending_publication. case_decide; [done|]. case_decide.
  - pose proof (complete_holds (owner intent) (target intent) (admission_seq intent) s rows Hc Hok).
    by destruct (complete_publication _ _ _ s).
  - pose proof (publish_holds w intent payload s rows Hc Hok). by destruct (publish_intent w intent payload s) as [[answer w'] s'].
Qed.

Lemma settle_step w rows : Forall2 row_step rows (map (settle sha256_hex parses w) rows).
Proof.
  induction rows as [|row rows IH]; cbn; constructor; [|done]. unfold settle.
  destruct (recovered sha256_hex parses w row) eqn:E; [|by left]. right. split; [|done].
  unfold recovered in E. apply andb_true_iff in E as [E _]. by apply bool_decide_eq_true in E.
Qed.

Lemma settle_sound w rows : journal_ok rows -> journal_ok (map (settle sha256_hex parses w) rows).
Proof.
  intros [Hrows Hnd]. split.
  - apply Forall_fmap. eapply Forall_impl; [exact Hrows|]. intros row Hrow. unfold compose, settle.
    destruct (recovered _ _ _ row); [|exact Hrow]. destruct Hrow as (Hseq & _ & i & Hi).
    split; [exact Hseq|]. split; [by right|]. exists i. by rewrite applied_reads.
  - rewrite map_map. erewrite map_ext; [exact Hnd|]. intros row. unfold settle. by destruct (recovered _ _ _ row).
Qed.

Lemma recover_holds w s rows :
  conn_mut s = Ok rows -> journal_ok rows -> holds rows (recover_publications sha256_hex parses w s).2.
Proof.
  intros Hc Hok. destruct (recover_runs sha256_hex parses w s rows Hc Hok) as (intents & _ & ->). cbn.
  eexists. split; [by eapply with_rows_open|]. split; [by apply settle_sound|apply settle_step].
Qed.
End calls.

(** The calls as data, each against the world it finds. *)
Inductive PubCall (World : Type) :=
  | CallAdmit (w : World) (owner target : string) (edit : ConfigEdit)
  | CallPublish (w : World) (intent : PublicationIntent) (payload : bytes)
  | CallResolve (w : World) (caller : string) (intent : PublicationIntent) (payload : bytes)
  | CallRecover (w : World).
Arguments CallAdmit {World}. Arguments CallPublish {World}. Arguments CallResolve {World}. Arguments CallRecover {World}.

Section runs.
Context {World : Type} `{Hh : Host World} `{Hl : !HostLaws World}.
Variable sha256_hex : bytes -> string.
Variable parses : bytes -> bool.
Abbreviation enroll := (admit_publication sha256_hex).
Abbreviation recover := (recover_publications sha256_hex parses).
Abbreviation resolve := (resolve_pending_publication sha256_hex parses).
Abbreviation observe := (observe_target sha256_hex).

Definition pub_call (c : PubCall World) (s : PStore) : PStore :=
  match c with
  | CallAdmit w owner target edit => (enroll w owner target edit s).2
  | CallPublish w intent payload => (publish_intent w intent payload s).2
  | CallResolve w caller intent payload => (resolve w caller intent payload s).2
  | CallRecover w => (recover w s).2
  end.
Definition pub_calls (cs : list (PubCall World)) (s : PStore) : PStore := fold_left (fun s c => pub_call c s) cs s.
Definition fresh_journal : PStore := mkTaskStore (Some []) false true.

Lemma pub_call_keeps c s rows : conn_mut s = Ok rows -> journal_ok rows -> keeps rows (pub_call c s).
Proof using Hl.
  destruct c; intros; [by apply admit_keeps|apply holds_keeps..]; [by apply publish_holds|by apply heal_holds|by apply recover_holds].
Qed.

Lemma pub_calls_keep cs s rows : conn_mut s = Ok rows -> journal_ok rows -> keeps rows (pub_calls cs s).
Proof using Hl.
  revert s rows. induction cs as [|c cs IH]; intros s rows Hc Hok; [by apply keeps_same|].
  destruct (pub_call_keeps c s rows Hc Hok) as (rows1 & Hc1 & Hok1 & Hs1).
  destruct (IH (pub_call c s) rows1 Hc1 Hok1) as (rows2 & Hc2 & Hok2 & Hs2). exists rows2. split_and!; [done..|by transitivity rows1].
Qed.

(** C21.  Whatever the calls were and whatever the file system did between them, the
    journal stays readable, every row holds a positive number that no other row of its
    target holds, and the calls that follow keep each row: they append, and turn a
    pending row into an applied one, but never drop, renumber, rewrite or reopen one. *)
Theorem publications_are_numbered_once cs more :
  exists rows rows',
    conn_mut (pub_calls cs fresh_journal) = Ok rows /\ conn_mut (pub_calls (cs ++ more) fresh_journal) = Ok rows' /\
    journal_ok rows /\ journal_step rows rows'.
Proof using Hl.
  destruct (pub_calls_keep cs fresh_journal []) as (rows & Hc & Hok & _); [done|by split; constructor|].
  destruct (pub_calls_keep more _ rows Hc Hok) as (rows' & Hc' & _ & Hs). exists rows, rows'. split_and!; [done| |done..].
  unfold pub_calls. by rewrite fold_left_app.
Qed.

(** ** One command, one row *)

(** The row of a staged intent, as a later admission reads it. *)
Definition as_recorded (i : PublicationIntent) : PublicationIntent :=
  mkIntent (owner i) (target i) (admission_seq i) (intended_digest i) (base_digest i) (recorded <$> publish_identity i).

Lemma find_unique {A} (f : A -> bool) l x : x ∈ l -> f x = true -> (forall y, y ∈ l -> f y = true -> y = x) -> find f l = Some x.
Proof.
  intros Hx Hf Hu. destruct (find f l) as [y|] eqn:E.
  - apply find_Some in E as [Hy Hfy]. f_equal. by apply Hu.
  - apply find_None in E. eapply Forall_forall in E; [|exact Hx]. cbv beta in E. congruence.
Qed.

(** How an intent compares with a sight depends on the identity it was seen under. *)
Lemma same_target_seen w w' intent d d' identity c c' key :
  same_target_file w intent (SightPresent d (Some identity) c) key = same_target_file w' intent (SightPresent d' (Some identity) c') key.
Proof. done. Qed.

Lemma attribute_recorded i : attribute (recorded i) i <> Different.
Proof.
  unfold attribute, recorded. destruct i as [f r]. cbn. rewrite decide_False by tauto. destruct r; cbn; [|done]. by rewrite decide_True.
Qed.

(** What an admission that staged a row had found. *)
Lemma admit_staged w owner target edit s intent s1 :
  enroll w owner target edit s = (Ok (Staged intent), s1) ->
  exists pending, pending_publications s = Ok pending /\
    find (pending_match w (observe w target) target edit) pending = None /\
    stage_publication sha256_hex w owner target edit s = (Ok intent, s1).
Proof.
  unfold admit_publication. destruct (negb _); [done|]. destruct (pending_publications s) as [pending|]; [|done].
  destruct (find _ pending) eqn:Ef; [done|].
  assert (Hst : staged_admission sha256_hex w owner target edit s = (Ok (Staged intent), s1) ->
    stage_publication sha256_hex w owner target edit s = (Ok intent, s1)).
  { unfold staged_admission. destruct (stage_publication _ _ _ _ _ s) as [[i|e] s']; [|done]. by intros [= -> ->]. }
  intros Hrun. exists pending. split_and!; [done..|]. apply Hst. revert Hrun.
  destruct (applied_publications s) as [applied|]; [|done]. destruct (observe w target); [done| |done]. case_decide; [|done].
  by destruct (terminal_answer _ _ _ _ _) as [i|[cause|]].
Qed.

(** The pending rows after one was staged: those before it and itself. *)
Lemma pending_after s rows row intents intent :
  conn_mut s = Ok rows -> Forall row_ok rows -> reads_as row intent -> row_ok row -> pr_state row = "pending" ->
  pending_publications s = Ok intents ->
  exists intents', pending_publications (with_rows s (rows ++ [row])) = Ok intents' /\ intent ∈ intents' /\
    forall i, i ∈ intents' -> i = intent \/ i ∈ intents.
Proof.
  intros Hc Hrows Hi Hrow Hst Hp. destruct (conn_mut_open s rows Hc) as [Hco _].
  destruct (conn_mut_open _ _ (with_rows_open s rows (rows ++ [row]) Hc)) as [Hco' _].
  destruct (publications_elem "pending" s rows Hco Hrows) as (known & Hk & Hold). unfold pending_publications in Hp.
  rewrite Hp in Hk. injection Hk as <-.
  destruct (publications_elem "pending" _ _ Hco') as (intents' & Hk' & Hnew); [by apply Forall_app; split; [|constructor]|].
  exists intents'. split; [done|]. split.
  - apply Hnew. exists row. split_and!; [apply elem_of_app; right; by left|done..].
  - intros i (r & [Hr|[->|[]%elem_of_nil]%elem_of_cons]%elem_of_app & Hrs & Hri)%Hnew.
    + right. apply Hold. by exists r.
    + left. unfold reads_as in *. congruence.
Qed.

Lemma staged_facts w owner target edit s rows intent s1 :
  conn_mut s = Ok rows -> journal_ok rows -> enroll w owner target edit s = (Ok (Staged intent), s1) ->
  exists o row pending intents,
    read_target_once sha256_hex w target = Ok o /\ identity_ok (ob_identity o) /\ utf8_valid (bytes_of target) = true /\
    publish_identity intent = Some (ob_identity o) /\ intended_digest intent = ce_digest edit /\
    conn_mut s1 = Ok (rows ++ [row]) /\ journal_ok (rows ++ [row]) /\ reads_as row (as_recorded intent) /\ pr_state row = "pending" /\
    pending_publications s = Ok pending /\ find (pending_match w (observe w target) target edit) pending = None /\
    pending_publications s1 = Ok intents /\ as_recorded intent ∈ intents /\ forall i, i ∈ intents -> i = as_recorded intent \/ i ∈ pending.
Proof using Hl.
  intros Hc Hok Ha. apply admit_staged in Ha as (pending & Hp & Hf & Hrun). apply (stage_inv _ _ _ _ _ _ rows) in Hrun; [|done..].
  destruct Hrun as (o & Ho & Hid & Hmax & Hu & -> & ->). pose proof Hok as [Hrows _].
  set (row := staged_row owner target (ce_digest edit) (Some (ob_digest o)) (Some (ob_identity o)) rows).
  assert (Hr : reads_as row (as_recorded (mkIntent owner target (next_publication_seq target rows) (ce_digest edit) (Some (ob_digest o)) (Some (ob_identity o))))).
  { unfold reads_as, row. by rewrite staged_row_reads. }
  assert (Hrok : row_ok row) by (by apply staged_row_ok).
  destruct (pending_after s rows row pending _ Hc Hrows Hr Hrok eq_refl Hp) as (intents & Hp' & Hin & Hout).
  exists o, row, pending, intents. split_and!; try done; [by eapply with_rows_open|by apply append_sound].
Qed.

Lemma sees w target o : read_target_once sha256_hex w target = Ok o -> observe w target = SightPresent (ob_digest o) (Some (ob_identity o)) (ob_bytes o).
Proof. intros Ho. unfold observe_target. by rewrite Ho. Qed.

(** ** The row over later calls *)

(** How an intent compares with a file seen under an identity. *)
Definition compared (identity : WriteIdentity) (target_key : string) (i : PublicationIntent) : FileAttribution :=
  match publish_identity i with
  | Some staged => attribute staged identity
  | None => if decide (target i = target_key) then Unverifiable Unrecorded else Different
  end.

Lemma compared_seen w i d identity c key : same_target_file w i (SightPresent d (Some identity) c) key = compared identity key i.
Proof. done. Qed.

(** Two files that differ differ both ways. *)
Lemma attribute_swapped a b : attribute (recorded a) b = Different -> attribute (recorded b) a = Different.
Proof.
  unfold attribute, recorded. cbn. destruct (decide (wi_file a <> wi_file b)) as [Hne|He].
  - by rewrite decide_True by congruence.
  - rewrite decide_False by (intros H; by apply He). destruct (wi_reuse a) as [x|], (wi_reuse b) as [y|]; cbn; try done.
    case_decide; [done|]. by rewrite decide_False.
Qed.

(** A row that may answer for what [intent] writes: pending, of the same digest and
    not known to be another file's. *)
Definition rival (identity : WriteIdentity) (intent : PublicationIntent) (row : PublicationRow) (i : PublicationIntent) : Prop :=
  pr_state row = "pending" /\ reads_as row i /\ intended_digest i = intended_digest intent /\
  compared identity (target intent) i <> Different.

(** The row of the intent waits, and no other row may answer for it. *)
Definition waits (identity : WriteIdentity) (intent : PublicationIntent) (rows : Journal) : Prop :=
  (exists row, row ∈ rows /\ reads_as row (as_recorded intent) /\ pr_state row = "pending") /\
  forall row i, row ∈ rows -> rival identity intent row i -> i = as_recorded intent.
(** The row of the intent is receipted. *)
Definition finished_row (intent : PublicationIntent) (rows : Journal) : Prop :=
  exists row, row ∈ rows /\ reads_as row (as_recorded intent) /\ pr_state row = "applied".

Lemma finished_step intent rows rows' : journal_step rows rows' -> finished_row intent rows -> finished_row intent rows'.
Proof.
  intros (kept & new & -> & Hs) (row & [k Hk]%list_elem_of_lookup_1 & Hr & Hst).
  destruct (Forall2_lookup_l _ _ _ _ _ Hs Hk) as (row' & Hk' & [->|[Hp _]]); [|by rewrite Hst in Hp].
  exists row. split_and!; [apply elem_of_app; left; by eapply list_elem_of_lookup_2|done..].
Qed.

Lemma waits_step identity intent rows rows' :
  Forall2 row_step rows rows' -> waits identity intent rows -> waits identity intent rows' \/ finished_row intent rows'.
Proof.
  intros Hs [(row & [k Hk]%list_elem_of_lookup_1 & Hr & Hst) Hother].
  destruct (Forall2_lookup_l _ _ _ _ _ Hs Hk) as (row' & Hk' & [->|[_ ->]]); apply list_elem_of_lookup_2 in Hk'.
  - left. split; [by exists row|]. intros r' i [j Hj]%list_elem_of_lookup_1 Hriv.
    destruct (Forall2_lookup_r _ _ _ _ _ Hs Hj) as (r & Hj' & [->|[_ ->]]); [|by destruct Hriv].
    eapply Hother; [by eapply list_elem_of_lookup_2|exact Hriv].
  - right. by exists (applied row).
Qed.

(** What a call does to the rows. *)
Lemma enroll_answer w owner target edit s rows answer s' :
  enroll w owner target edit s = (answer, s') -> conn_mut s = Ok rows -> journal_ok rows ->
  s' = s \/ exists intent, answer = Ok (Staged intent).
Proof using Hl.
  intros Hrun Hc Hok. assert (Hst : forall answer s', staged_admission sha256_hex w owner target edit s = (answer, s') ->
    s' = s \/ exists intent, answer = Ok (Staged intent)).
  { unfold staged_admission. intros answer0 s0. destruct (stage_publication _ _ _ _ _ s) as [[i|e] s1] eqn:E; intros [= <- <-]; [right; by exists i|].
    apply (stage_inv _ _ _ _ _ _ rows) in E; [|done..]. by left. }
  revert Hrun. unfold admit_publication. destruct (negb _); [intros [= _ <-]; by left|].
  destruct (pending_publications s) as [pending|]; [|intros [= _ <-]; by left].
  destruct (find _ pending); [intros [= _ <-]; by left|].
  destruct (applied_publications s) as [applied|]; [|intros [= _ <-]; by left].
  destruct (observe w target); [apply Hst| |apply Hst]. case_decide; [|apply Hst].
  destruct (terminal_answer _ _ _ _ _) as [i|[cause|]]; [intros [= _ <-]; by left..|apply Hst].
Qed.

Lemma pub_call_rows c s rows :
  conn_mut s = Ok rows -> journal_ok rows ->
  holds rows (pub_call c s) \/
  exists w owner target edit intent, enroll w owner target edit s = (Ok (Staged intent), pub_call c s).
Proof using Hl.
  intros Hc Hok. destruct c as [w owner target edit|w i payload|w caller i payload|w]; cbn [pub_call].
  - destruct (enroll w owner target edit s) as [answer s'] eqn:Hrun. cbn [snd].
    destruct (enroll_answer _ _ _ _ _ _ _ _ Hrun Hc Hok) as [->|[intent ->]]; [left; by apply holds_same|].
    right. by exists w, owner, target, edit, intent.
  - left. by apply publish_holds.
  - left. by apply heal_holds.
  - left. by apply recover_holds.
Qed.

Lemma staged_target w owner target edit s rows intent s1 :
  conn_mut s = Ok rows -> journal_ok rows -> enroll w owner target edit s = (Ok (Staged intent), s1) -> Publications.target intent = target.
Proof using Hl.
  intros Hc Hok (_ & _ & _ & Hr)%admit_staged. apply (stage_inv _ _ _ _ _ _ rows) in Hr; [|done..].
  by destruct Hr as (? & _ & _ & _ & _ & -> & _).
Qed.

(** The invariant of a staged row. *)
Lemma staged_waits w owner target edit s rows intent s1 :
  conn_mut s = Ok rows -> journal_ok rows -> enroll w owner target edit s = (Ok (Staged intent), s1) ->
  exists identity rows1, publish_identity intent = Some identity /\ conn_mut s1 = Ok rows1 /\ journal_ok rows1 /\
    waits identity intent rows1.
Proof using Hl.
  intros Hc Hok Ha. pose proof (staged_target _ _ _ _ _ _ _ _ Hc Hok Ha) as Ht.
  destruct (staged_facts _ _ _ _ _ rows _ _ Hc Hok Ha)
    as (o & row & pending & intents & Ho & _ & _ & Hpi & Hd & Hc1 & Hok1 & Hrow & Hst & Hp & Hf & Hp1 & _ & Hout).
  exists (ob_identity o), (rows ++ [row]). split_and!; [done..|]. split.
  { exists row. split_and!; [apply elem_of_app; right; by left|done..]. }
  intros r i Hr (Hrs & Hri & Hrd & Hcmp).
  destruct (publications_elem "pending" s1 _ (proj1 (conn_mut_open _ _ Hc1)) (proj1 Hok1)) as (listed & Hl1 & Hin).
  unfold pending_publications in Hp1. rewrite Hp1 in Hl1. injection Hl1 as <-.
  destruct (Hout i) as [?|Hold]; [apply Hin; by exists r|done|]. exfalso. apply find_None in Hf.
  eapply Forall_forall in Hf; [|exact Hold]. cbv beta in Hf. rewrite (sees w target o Ho) in Hf. unfold pending_match in Hf.
  rewrite compared_seen, <- Ht, Hrd, Hd, bool_decide_true, bool_decide_false in Hf by done. done.
Qed.

(** A later admission that stages a row stages no rival. *)
Lemma staging_keeps_waits identity intent w owner target edit s rows later s1 :
  conn_mut s = Ok rows -> journal_ok rows -> publish_identity intent = Some identity -> waits identity intent rows ->
  enroll w owner target edit s = (Ok (Staged later), s1) ->
  exists rows1, conn_mut s1 = Ok rows1 /\ journal_ok rows1 /\ waits identity intent rows1.
Proof using Hl.
  intros Hc Hok Hpi [(row & Hrow & Hr & Hst) Hother] Ha.
  destruct (staged_facts _ _ _ _ _ rows _ _ Hc Hok Ha)
    as (o & new & pending & _ & Ho & _ & _ & Hpl & Hdl & Hc1 & Hok1 & Hnew & _ & Hp & Hf & _).
  exists (rows ++ [new]). split_and!; [done..|]. split.
  { exists row. split_and!; [apply elem_of_app; by left|done..]. }
  intros r i [Hin|[->|[]%elem_of_nil]%elem_of_cons]%elem_of_app Hriv; [by eapply Hother|]. exfalso.
  destruct Hriv as (_ & Hri & Hrd & Hcmp). unfold reads_as in Hri, Hnew. rewrite Hnew in Hri. injection Hri as <-.
  apply Hcmp. unfold compared, as_recorded. cbn. rewrite Hpl. cbn. apply attribute_swapped.
  destruct (publications_elem "pending" s rows (proj1 (conn_mut_open s rows Hc)) (proj1 Hok)) as (known & Hk & Hold).
  unfold pending_publications in Hp. rewrite Hp in Hk. injection Hk as <-.
  assert (Hmine : as_recorded intent ∈ pending) by (apply Hold; by exists row).
  apply find_None in Hf. eapply Forall_forall in Hf; [|exact Hmine]. cbv beta in Hf. rewrite (sees w target o Ho) in Hf.
  unfold pending_match in Hf. cbn in Hf. rewrite Hpi in Hf. cbn in Hf. cbn in Hrd. rewrite <- Hrd, Hdl in Hf.
  rewrite (bool_decide_true (ce_digest edit = ce_digest edit)) in Hf by done. cbn in Hf.
  destruct (decide (attribute (recorded identity) (ob_identity o) = Different)) as [|Hne]; [done|].
  rewrite bool_decide_false in Hf by done. discriminate Hf.
Qed.

Lemma calls_keep_row identity intent cs s rows :
  conn_mut s = Ok rows -> journal_ok rows -> publish_identity intent = Some identity ->
  waits identity intent rows \/ finished_row intent rows ->
  exists rows', conn_mut (pub_calls cs s) = Ok rows' /\ journal_ok rows' /\
    (waits identity intent rows' \/ finished_row intent rows').
Proof using Hl.
  intros Hc Hok Hpi. revert s rows Hc Hok. induction cs as [|c cs IH]; intros s rows Hc Hok Hinv; [by exists rows|].
  assert (Hstep : exists rows1, conn_mut (pub_call c s) = Ok rows1 /\ journal_ok rows1 /\
    (waits identity intent rows1 \/ finished_row intent rows1)).
  { destruct Hinv as [Hw|Hf].
    - destruct (pub_call_rows c s rows Hc Hok) as [(rows1 & Hc1 & Hok1 & Hs)|(w & owner & target & edit & later & Ha)].
      + exists rows1. split_and!; [done..|]. by eapply waits_step.
      + destruct (staging_keeps_waits _ _ _ _ _ _ _ _ _ _ Hc Hok Hpi Hw Ha) as (rows1 & ? & ? & ?).
        exists rows1. split_and!; [done..|]. by left.
    - destruct (pub_call_keeps c s rows Hc Hok) as (rows1 & Hc1 & Hok1 & Hs). exists rows1. split_and!; [done..|].
      right. by eapply finished_step. }
  destruct Hstep as (rows1 & Hc1 & Hok1 & Hinv1). by apply (IH (pub_call c s) rows1).
Qed.

(** An admission while the row waits. *)
Lemma waiting_row_answers identity intent w' other edit s rows digest content :
  conn_mut s = Ok rows -> journal_ok rows -> publish_identity intent = Some identity -> waits identity intent rows ->
  utf8_valid (bytes_of (target intent)) = true -> intended_digest intent = ce_digest edit ->
  observe w' (target intent) = SightPresent digest (Some identity) content ->
  enroll w' other (target intent) edit s = (Ok (Pending (as_recorded intent)), s).
Proof.
  intros Hc Hok Hpi [(row & Hrow & Hr & Hst) Hother] Hu Hd Hsee.
  destruct (publications_elem "pending" s rows (proj1 (conn_mut_open s rows Hc)) (proj1 Hok)) as (pending & Hp & Hin).
  unfold admit_publication, pending_publications. rewrite Hu, Hp, Hsee. cbn [negb].
  rewrite (find_unique _ pending (as_recorded intent)); [done|apply Hin; by exists row| |].
  - unfold pending_match. rewrite compared_seen. cbn. rewrite Hd, bool_decide_true by done. unfold compared. cbn. rewrite Hpi. cbn.
    rewrite bool_decide_false by apply attribute_recorded. done.
  - intros i (r & Hr' & Hrs & Hri)%Hin [Hdi Hcmp]%andb_true_iff. apply bool_decide_eq_true in Hdi.
    apply negb_true_iff, bool_decide_eq_false in Hcmp. rewrite compared_seen in Hcmp.
    apply (Hother r i Hr'). split_and!; [done|done|congruence|done].
Qed.

(** C19.  A command that was admitted is never journaled again while it waits.  Whatever
    calls come after its admission (admissions of this or other edits for this or other
    paths, publications, recoveries, by any owner and over any file system), its row is
    listed as applied, or it is still listed as pending; and as long as it is pending,
    whoever admits the same bytes for the file, whatever the file holds by then (its old
    bytes, the new ones, or a torn mix), is answered with that row, and the journal stays
    as it is. *)
Theorem a_command_in_flight_is_journaled_once w owner target edit s rows intent s1 cs :
  conn_mut s = Ok rows -> journal_ok rows -> enroll w owner target edit s = (Ok (Staged intent), s1) ->
  exists pending finished,
    pending_publications (pub_calls cs s1) = Ok pending /\ applied_publications (pub_calls cs s1) = Ok finished /\
    (as_recorded intent ∈ finished \/
     as_recorded intent ∈ pending /\
     forall w' other digest content, observe w' target = SightPresent digest (publish_identity intent) content ->
       enroll w' other target edit (pub_calls cs s1) = (Ok (Pending (as_recorded intent)), pub_calls cs s1)).
Proof using Hl.
  intros Hc Hok Ha. destruct (staged_waits _ _ _ _ _ rows _ _ Hc Hok Ha) as (identity & rows1 & Hpi & Hc1 & Hok1 & Hw).
  pose proof (staged_target _ _ _ _ _ _ _ _ Hc Hok Ha) as Ht.
  destruct (staged_facts _ _ _ _ _ rows _ _ Hc Hok Ha) as (_ & _ & _ & _ & _ & _ & Hu & _ & Hd & _).
  destruct (calls_keep_row identity intent cs s1 rows1 Hc1 Hok1 Hpi (or_introl Hw)) as (rows' & Hc' & Hok' & Hinv).
  pose proof (proj1 (conn_mut_open _ _ Hc')) as Hco.
  destruct (publications_elem "pending" _ rows' Hco (proj1 Hok')) as (pending & Hp & Hpin).
  destruct (publications_elem "applied" _ rows' Hco (proj1 Hok')) as (finished & Hf & Hfin).
  exists pending, finished. split; [exact Hp|]. split; [exact Hf|]. destruct Hinv as [Hw'|(row & Hrow & Hr & Hst)]; [right|left; apply Hfin; by exists row].
  split; [apply Hpin; destruct Hw' as [(row & Hrow & Hr & Hst) _]; by exists row|].
  intros w' other digest content Hsee. subst target. rewrite Hpi in Hsee. by apply (waiting_row_answers identity intent w' other edit _ rows' digest content).
Qed.

(** C18.  The outcomes of a publication, on a target that can be read.  An answer of
    success is a file that holds exactly the payload under the staged identity, and a
    receipted row.  A failed receipt leaves the row pending over landed bytes.  A failed
    write leaves the journal as it was, and the file as it was or holding a prefix of
    the payload over its resized old bytes, under the same identity; nothing else is
    possible. *)
Theorem publishing_lands_the_bytes_or_leaves_the_row w intent payload s rows o answer w' s' :
  conn_mut s = Ok rows -> publish_intent w intent payload s = (answer, w', s') ->
  read_target_once sha256_hex w (target intent) = Ok o ->
  let after content := read_target_once sha256_hex w' (target intent) = Ok (mkObservation (sha256_hex content) (ob_identity o) content) in
  let own := completes (owner intent) (target intent) (as_i64 (admission_seq intent)) in
  match answer with
  | Ok _ => publish_identity intent = Some (ob_identity o) /\ after payload /\
      (exists row, row ∈ rows /\ own row = true) /\ conn_mut s' = Ok (map (fun row => if own row then applied row else row) rows)
  | Err (PublicationJournal _) => publish_identity intent = Some (ob_identity o) /\ after payload /\ s' = s
  | Err (PublicationWrite _) => s' = s /\
      (read_target_once sha256_hex w' (target intent) = Ok o \/
       publish_identity intent = Some (ob_identity o) /\ exists written, after (confined_write written payload (ob_bytes o)))
  | Err IdentityMissing => publish_identity intent = None /\ w' = w /\ s' = s
  | Err _ => False
  end.
Proof using Hl.
  intros Hc Hrun Ho after own. unfold publish_intent in Hrun. destruct (publish_identity intent) as [identity|]; [|by injection Hrun as <- <- <-].
  destruct (write_once w _ _ identity payload) as [wrote w1] eqn:Hw.
  apply (write_once_outcome sha256_hex _ _ _ o) in Hw as [(-> & _ & Hid & Hafter)|(e & -> & Hend)]; [| |done].
  - rewrite (complete_publication_runs _ _ _ s rows Hc) in Hrun. destruct (existsb _ rows) eqn:Hex; injection Hrun as <- <- <-; cbn [map_err].
    + rewrite Hid. split_and!; [done|unfold after; by rewrite Hid| |by eapply with_rows_open].
      apply existsb_exists in Hex as (row & Hin%list_elem_of_In & Hown). by exists row.
    + rewrite Hid. split_and!; [done|unfold after; by rewrite Hid|done].
  - injection Hrun as <- <- <-. split; [done|]. destruct Hend as [Hend|[Hid (written & Hend)]]; [by left|]. right.
    split; [by rewrite Hid|]. exists written. unfold after. by rewrite Hid.
Qed.

(** ** Recovery *)

Lemma own_write_iff w i :
  own_write sha256_hex parses w i = true <-> exists staged current token content,
    publish_identity i = Some staged /\ observe w (target i) = SightPresent (intended_digest i) (Some current) content /\
    wi_file staged = wi_file current /\ wi_reuse staged = Ok token /\ wi_reuse current = Ok token.
Proof.
  unfold own_write. rewrite bool_decide_eq_true. unfold classify_intent. split.
  - destruct (observe w (target i)) as [|d cur content|]; [done| |done]. case_decide as Hd; [|case_decide; [done|by destruct (_ && _)]].
    destruct (publish_identity i) as [staged|]; [|done]. destruct cur as [current|]; [|done]. unfold attribute.
    case_decide as Hf; [done|]. destruct (wi_reuse staged) as [a|] eqn:Ha, (wi_reuse current) as [b|] eqn:Hb; try done.
    case_decide; [|done]. intros _. subst. exists staged, current, b, content. by split_and!.
  - intros (staged & current & token & content & -> & -> & Hf & Ha & Hb). rewrite decide_True by done. unfold attribute.
    rewrite decide_False by tauto. rewrite Ha, Hb. by rewrite decide_True.
Qed.

Definition verdict_of (w : World) (row : PublicationRow) (rc : PublicationRecovery) : Prop :=
  reads_as row (rc_intent rc) /\ rc_verdict rc = classify_intent sha256_hex parses w (rc_intent rc).

(** C17.  Recovery answers for every pending row, in admission order, and turns into
    applied ones exactly the pending rows whose target holds the intended digest on the
    staged file, by device, inode and an equal reuse token on both sides.  A row without
    a token, another file with the same bytes, and old, torn or foreign bytes are never
    receipts; no other row moves.  (The world is not among its results.) *)
Theorem recovery_receipts_only_what_it_wrote w s rows :
  conn_mut s = Ok rows -> journal_ok rows ->
  exists recs s' (receipt : PublicationRow -> bool),
    recover w s = (Ok recs, s') /\ Forall2 (verdict_of w) (in_state "pending" rows) recs /\
    conn_mut s' = Ok (map (fun row => if receipt row then applied row else row) rows) /\
    forall row, row ∈ rows ->
      (receipt row = true <-> pr_state row = "pending" /\ exists intent staged current token content,
        reads_as row intent /\ publish_identity intent = Some staged /\
        observe w (target intent) = SightPresent (intended_digest intent) (Some current) content /\
        wi_file staged = wi_file current /\ wi_reuse staged = Ok token /\ wi_reuse current = Ok token).
Proof.
  intros Hc Hok. destruct (recover_runs sha256_hex parses w s rows Hc Hok) as (intents & Hr & ->).
  do 2 eexists. exists (recovered sha256_hex parses w). split_and!; [reflexivity| |by eapply with_rows_open|].
  - unfold recoveries. apply Forall2_fmap_r. eapply Forall2_impl; [exact Hr|]. done.
  - intros row Hrow. assert (Hrok : row_ok row) by (destruct Hok as [Hf _]; by eapply Forall_forall in Hf).
    destruct Hrok as (_ & _ & i & Hi). unfold recovered. rewrite Hi, andb_true_iff, bool_decide_eq_true, own_write_iff. split.
    + intros [Hst (staged & current & token & content & Hall)]. split; [done|]. exists i, staged, current, token, content. by split.
    + intros [Hst (i' & staged & current & token & content & Hi' & Hall)]. unfold reads_as in Hi'. rewrite Hi in Hi'. injection Hi' as <-.
      split; [done|]. by exists staged, current, token, content.
Qed.

(** The target of a staged intent, after a write of its bytes landed. *)
Lemma landed_sight w1 w2 w3 target edit o1 identity :
  ce_digest edit = sha256_hex (ce_bytes edit) -> read_target_once sha256_hex w1 target = Ok o1 ->
  write_once w1 (default [] (parent (bytes_of target))) target identity (ce_bytes edit) = (Ok tt, w2) ->
  observe w3 target = observe w2 target ->
  observe w3 target = SightPresent (ce_digest edit) (Some identity) (ce_bytes edit) /\ exists token, wi_reuse identity = Ok token.
Proof using Hl.
  intros Hdig Ho1 Hw Hsee. apply (write_once_outcome sha256_hex _ _ _ o1) in Hw as [(_ & [token Ht] & _ & Hafter)|(e & He & _)]; [|done..].
  rewrite (sees w2 target _ Hafter) in Hsee. cbn in Hsee. rewrite <- Hdig in Hsee. split; [done|by exists token].
Qed.

(** C16.  A crash between the bytes and the receipt loses nothing.  A command was staged,
    its write finished, and the process died before the receipt; whatever the path shows
    at the next boot is what the write left.  Recovery answers [ExactlyNew] for the row,
    and the row moves from the pending list to the applied one. *)
Theorem a_landed_write_is_receipted_by_recovery w w1 w2 w3 owner target edit s rows intent s1 o1 identity :
  conn_mut s = Ok rows -> journal_ok rows -> enroll w owner target edit s = (Ok (Staged intent), s1) ->
  publish_identity intent = Some identity -> ce_digest edit = sha256_hex (ce_bytes edit) ->
  read_target_once sha256_hex w1 target = Ok o1 ->
  write_once w1 (default [] (parent (bytes_of target))) target identity (ce_bytes edit) = (Ok tt, w2) ->
  observe w3 target = observe w2 target ->
  exists recs s' pending finished,
    recover w3 s1 = (Ok recs, s') /\ mkRecovery (as_recorded intent) ExactlyNew ∈ recs /\
    pending_publications s' = Ok pending /\ (as_recorded intent ∉ pending) /\
    applied_publications s' = Ok finished /\ as_recorded intent ∈ finished.
Proof using Hl.
  intros Hc Hok Ha Hpi Hdig Ho1 Hw Hsee.
  destruct (landed_sight _ _ _ _ _ _ _ Hdig Ho1 Hw Hsee) as (Hsight & token & Htok).
  pose proof (staged_target _ _ _ _ _ _ _ _ Hc Hok Ha) as Htarget.
  destruct (staged_facts _ _ _ _ _ rows _ _ Hc Hok Ha) as (o & row & _ & _ & _ & _ & _ & _ & Hdg & Hc1 & Hok1 & Hrow & Hst & _).
  assert (Hown : own_write sha256_hex parses w3 (as_recorded intent) = true).
  { apply own_write_iff. exists (recorded identity), identity, token, (ce_bytes edit). unfold as_recorded. cbn.
    rewrite Hpi, Htarget, Hdg. by rewrite Htok. }
  destruct (recover_runs sha256_hex parses w3 s1 _ Hc1 Hok1) as (found & Hr & Hrun).
  assert (Hrowin : row ∈ rows ++ [row]) by (apply elem_of_app; right; by left).
  assert (Hfound : as_recorded intent ∈ found) by (apply (reads_listed _ _ row _ Hr); [by apply in_state_elem|done]).
  pose proof (settle_sound sha256_hex parses w3 _ Hok1) as [Hrows2 Hnd2].
  pose proof (proj1 (conn_mut_open _ _ (with_rows_open s1 _ (map (settle sha256_hex parses w3) (rows ++ [row])) Hc1))) as Hco2.
  destruct (publications_elem "pending" _ _ Hco2 Hrows2) as (pending & Hp & Hpin).
  destruct (publications_elem "applied" _ _ Hco2 Hrows2) as (finished & Hf & Hfin).
  assert (Hset : settle sha256_hex parses w3 row = applied row).
  { unfold settle, recovered. rewrite Hrow, bool_decide_true by done. by rewrite Hown. }
  eexists _, _, pending, finished. split; [exact Hrun|]. split_and!; [|done| |done|].
  - unfold recoveries. apply list_elem_of_fmap. exists (as_recorded intent). split; [|done]. f_equal. symmetry. by apply bool_decide_eq_true in Hown.
  - intros (r & (r0 & -> & Hr0)%list_elem_of_fmap & Hrs & Hri)%Hpin.
    assert (settle sha256_hex parses w3 r0 = r0) as Hid.
    { unfold settle in *. destruct (recovered _ _ _ r0); [by cbn in Hrs|done]. }
    rewrite Hid in Hrs, Hri. assert (r0 = row) as ->; [|by rewrite Hset in Hid; rewrite <- Hid in Hst].
    pose proof (proj1 (Forall_forall _ _) (proj1 Hok1) r0 Hr0) as H0. pose proof (proj1 (Forall_forall _ _) (proj1 Hok1) row Hrowin) as H1.
    destruct (reads_key r0 _ H0 Hri) as (_ & Ht & Hs & _), (reads_key row _ H1 Hrow) as (_ & Ht' & Hs' & _).
    apply (same_place (rows ++ [row])); [done..|]. unfold place. congruence.
  - apply Hfin. exists (applied row). split_and!; [|done|done]. rewrite <- Hset. by apply list_elem_of_fmap_2.
Qed.

Lemma terminal_found w sight key l i : forall cause,
  i ∈ l -> same_target_file w i sight key = Same -> exists j, j ∈ l /\ terminal_answer w sight key l cause = inl j.
Proof.
  induction l as [|j l IH]; intros cause Hi Hs; [by apply elem_of_nil in Hi|]. cbn [terminal_answer].
  apply elem_of_cons in Hi as [->|Hi]; [rewrite Hs; exists j; split; [by left|done]|].
  destruct (same_target_file w j sight key); [|exists j; split; [by left|done]|].
  - destruct (IH cause Hi Hs) as (k & Hk & E). exists k. split; [by right|done].
  - destruct (IH (Some (default cause0 cause)) Hi Hs) as (k & Hk & E). exists k. split; [by right|done].
Qed.

(** What a store lists once the receipt of a staged intent is written. *)
Lemma receipted_lists w owner target edit s rows intent s1 s2 :
  conn_mut s = Ok rows -> journal_ok rows -> enroll w owner target edit s = (Ok (Staged intent), s1) ->
  complete_publication (Publications.owner intent) (Publications.target intent) (admission_seq intent) s1 = (Ok tt, s2) ->
  exists pending rows2,
    pending_publications s2 = Ok pending /\ find (pending_match w (observe w target) target edit) pending = None /\
    conn_mut s2 = Ok rows2 /\ journal_ok rows2 /\ finished_row intent rows2.
Proof using Hl.
  intros Hc Hok Ha Hdone. destruct (staged_facts _ _ _ _ _ rows _ _ Hc Hok Ha)
    as (o & row & before & _ & _ & _ & _ & _ & _ & Hc1 & Hok1 & Hrow & Hst & Hp & Hf & _).
  rewrite (complete_publication_runs _ _ _ s1 _ Hc1) in Hdone. destruct (existsb _ _); [|done]. injection Hdone as <-.
  set (rows2 := receipted _ _ _ (rows ++ [row])). pose proof (receipt_sound (Publications.owner intent) (Publications.target intent)
    (as_i64 (admission_seq intent)) _ Hok1) as [Hrows2 _]. fold rows2 in Hrows2.
  pose proof (proj1 (conn_mut_open _ _ (with_rows_open s1 _ rows2 Hc1))) as Hco2.
  destruct (publications_elem "pending" _ _ Hco2 Hrows2) as (pending & Hp2 & Hpin).
  assert (Hrowin : row ∈ rows ++ [row]) by (apply elem_of_app; right; by left).
  assert (Hown : completes (Publications.owner intent) (Publications.target intent) (as_i64 (admission_seq intent)) row = true).
  { apply (reads_own_key row (as_recorded intent)); [|done..]. eapply Forall_forall; [apply Hok1|done]. }
  exists pending, rows2. split_and!; [done| |by eapply with_rows_open|by apply receipt_sound|].
  - apply find_None, Forall_forall. intros i (r & (r0 & -> & Hr0)%list_elem_of_fmap & Hrs & Hri)%Hpin.
    destruct (completes _ _ _ r0) eqn:Ec; [by cbn in Hrs|]. apply elem_of_app in Hr0 as [Hr0|[->|[]%elem_of_nil]%elem_of_cons]; [|congruence].
    destruct (publications_elem "pending" s rows (proj1 (conn_mut_open s rows Hc)) (proj1 Hok)) as (known & Hk & Hold).
    unfold pending_publications in Hp. rewrite Hp in Hk. injection Hk as <-. apply find_None in Hf.
    eapply Forall_forall in Hf; [exact Hf|]. apply Hold. by exists r0.
  - exists (applied row). split_and!; [|done|done]. apply list_elem_of_fmap. exists row. split; [by rewrite Hown|done].
Qed.

(** An admission of bytes the file holds under the identity of an applied row. *)
Lemma finished_row_answers w other target edit s rows intent identity token content :
  conn_mut s = Ok rows -> journal_ok rows -> publish_identity intent = Some identity -> wi_reuse identity = Ok token ->
  finished_row intent rows -> utf8_valid (bytes_of target) = true -> intended_digest intent = ce_digest edit ->
  observe w target = SightPresent (ce_digest edit) (Some identity) content ->
  exists pending finished answer,
    pending_publications s = Ok pending /\ applied_publications s = Ok finished /\
    enroll w other target edit s = (Ok answer, s) /\ intended_digest (admitted_intent answer) = ce_digest edit /\
    match answer with
    | Applied i => i ∈ finished
    | Pending i => i ∈ pending /\ pending_match w (observe w target) target edit i = true
    | Staged _ => False
    end.
Proof.
  intros Hc Hok Hpi Htok (row & Hrow & Hr & Hst) Hu Hd Hsight. pose proof (proj1 (conn_mut_open _ _ Hc)) as Hco.
  destruct (publications_elem "pending" s rows Hco (proj1 Hok)) as (pending & Hp & _).
  destruct (publications_elem "applied" s rows Hco (proj1 Hok)) as (finished & Hap & Hfin).
  assert (Hin : as_recorded intent ∈ finished) by (apply Hfin; by exists row).
  exists pending, finished. unfold admit_publication, pending_publications, applied_publications. rewrite Hu, Hp, Hap. cbn [negb].
  destruct (find (pending_match w (observe w target) target edit) pending) as [i|] eqn:Ef.
  { exists (Pending i). apply find_Some in Ef as [Hi Hm]. split_and!; try done.
    unfold pending_match in Hm. apply andb_true_iff in Hm as [Hm _]. by apply bool_decide_eq_true in Hm. }
  rewrite Hsight, decide_True by done.
  destruct (terminal_found w (SightPresent (ce_digest edit) (Some identity) content) target
    (filter (fun i => intended_digest i = ce_digest edit) finished) (as_recorded intent) None) as (j & Hj & ->).
  - apply list_elem_of_filter. by split.
  - rewrite compared_seen. unfold compared. cbn. rewrite Hpi. cbn. unfold attribute, recorded. cbn.
    rewrite decide_False by tauto. rewrite Htok. cbn. by rewrite decide_True.
  - apply list_elem_of_filter in Hj as [Hd' Hj]. exists (Applied j). by split_and!.
Qed.

(** C20.  A command whose publication, of a file that could be read, succeeded is never
    journaled again while the file holds what it wrote.  Whatever calls come after the receipt (admissions, publications,
    recoveries, by any owner and over any file system), its row stays applied, and an
    admission of the same bytes for the file, by any owner, while the path shows what the
    write left, changes nothing in the journal: it is answered by an applied row of that
    digest, or by a row of that digest that one of those later calls admitted and that
    still waits. *)
Theorem a_finished_command_is_not_journaled_again w w1 w2 w3 owner other target edit s rows intent s1 s2 o1 cs :
  conn_mut s = Ok rows -> journal_ok rows -> enroll w owner target edit s = (Ok (Staged intent), s1) ->
  ce_digest edit = sha256_hex (ce_bytes edit) -> read_target_once sha256_hex w1 target = Ok o1 ->
  publish_intent w1 intent (ce_bytes edit) s1 = (Ok tt, w2, s2) -> observe w3 target = observe w2 target ->
  exists before pending finished answer,
    pending_publications s2 = Ok before /\
    pending_publications (pub_calls cs s2) = Ok pending /\ applied_publications (pub_calls cs s2) = Ok finished /\
    as_recorded intent ∈ finished /\
    enroll w3 other target edit (pub_calls cs s2) = (Ok answer, pub_calls cs s2) /\
    intended_digest (admitted_intent answer) = ce_digest edit /\
    match answer with
    | Applied i => i ∈ finished
    | Pending i => i ∈ pending /\ (i ∉ before)
    | Staged _ => False
    end.
Proof using Hl.
  intros Hc Hok Ha Hdig Ho1 Hpub Hsee.
  destruct (staged_facts _ _ _ _ _ rows _ _ Hc Hok Ha) as (o & row & _ & _ & Ho & _ & Hu & Hpi & Hd & _).
  pose proof (staged_target _ _ _ _ _ _ _ _ Hc Hok Ha) as Ht.
  unfold publish_intent in Hpub. rewrite Hpi, Ht in Hpub. destruct (write_once w1 _ _ _ _) as [[[]|e] w2'] eqn:Hw; [|done].
  destruct (complete_publication _ _ _ s1) as [[[]|e] s2'] eqn:Hdone; [|done]. injection Hpub as -> ->. rewrite <- Ht in Hdone at 1.
  destruct (landed_sight _ _ _ _ _ _ _ Hdig Ho1 Hw Hsee) as (Hsight & token & Htok).
  destruct (receipted_lists _ _ _ _ _ rows _ _ _ Hc Hok Ha Hdone) as (before & rows2 & Hp & Hf & Hc2 & Hok2 & Hfr).
  destruct (pub_calls_keep cs s2 rows2 Hc2 Hok2) as (rows3 & Hc3 & Hok3 & Hs3). pose proof (finished_step _ _ _ Hs3 Hfr) as Hfr3.
  destruct (finished_row_answers w3 other target edit _ rows3 intent _ token _ Hc3 Hok3 Hpi Htok Hfr3 Hu Hd Hsight)
    as (pending & finished & answer & Hp3 & Hf3 & Hans & Hdans & Hcase).
  exists before, pending, finished, answer. split_and!; [exact Hp|exact Hp3|exact Hf3| |exact Hans|exact Hdans|].
  - destruct (publications_elem "applied" _ rows3 (proj1 (conn_mut_open _ _ Hc3)) (proj1 Hok3)) as (listed & Hl3 & Hin).
    unfold applied_publications in Hf3. rewrite Hf3 in Hl3. injection Hl3 as <-. apply Hin.
    destruct Hfr3 as (r & Hr & Hri & Hrs). by exists r.
  - destruct answer as [i|i|i]; [done| |done]. destruct Hcase as [Hi Hm]. split; [done|]. intros Hold.
    apply find_None in Hf. eapply Forall_forall in Hf; [|exact Hold]. cbv beta in Hf. rewrite (sees w target o Ho) in Hf.
    rewrite Hsight in Hm. unfold pending_match in *. rewrite compared_seen in *. congruence.
Qed.
End runs.

(** the [identity] column reads back as what was written, up to the reason a token
    is missing; so two identities are written alike only when they name one file under
    one token, or both have none. *)
Theorem identity_column_reads_back identity :
  identity_ok identity ->
  parse_publish_identity (encode_publish_identity identity) = Ok (recorded identity) /\
  forall other, identity_ok other -> encode_publish_identity other = encode_publish_identity identity -> recorded other = recorded identity.
Proof.
  intros Hid. split; [by apply parse_encode|]. intros other Ho E. apply parse_encode in Ho, Hid. rewrite E, Hid in Ho. congruence.
Qed.

(** * A disk to run on *)

(** Files by path, on one device; the fate of the next confined writer. *)
Record Node := mkNode { n_ino : Z; n_attested : bool; n_gen : Z; n_content : bytes }.
Record Disk := mkDisk { nodes : gmap bytes Node; fate : HelperRun }.
Definition node_token (n : Node) : ReuseToken := mkToken [1; 1; 0; 0; 0; n_gen n mod 256; 0; 0; 0]%Z.
Definition node_handle (n : Node) : Handle :=
  mkHandle (Ok (mkMetadata true (zlen (n_content n)) 1 (as_u64 (n_ino n))))
    (if n_attested n then Ok (node_token n) else Err TokenUnsupported) (Ok (n_content n)).
Definition open_node (d : Disk) (path : string) : result Handle IoError :=
  match nodes d !! bytes_of path with Some n => Ok (node_handle n) | None => Err IoNotFound end.
Definition rewrite_node (file : Handle) (f : bytes -> bytes) (n : Node) : Node :=
  match h_metadata file with
  | Ok m => if (m_ino m =? as_u64 (n_ino n))%Z then mkNode (n_ino n) (n_attested n) (n_gen n) (f (n_content n)) else n
  | Err _ => n
  end.

#[export] Instance disk_host : Host Disk := {
  open_read := open_node;
  open_write := open_node;
  canonicalize d path := if decide (path = []) then Err IoNotFound else Ok path;
  stat d path := match nodes d !! path with Some n => h_metadata (node_handle n) | None => Err IoNotFound end;
  current_dir d := Some [SLASH];
  write_gate d root path := (Ok tt, d);
  helper_run d payload := fate d;
  mutate d file f := mkDisk (rewrite_node file f <$> nodes d) (fate d);
}.

Lemma node_token_ok n : token_ok (node_token n).
Proof.
  pose proof (Z.mod_pos_bound (n_gen n) 256). split; [|done]. cbn [node_token token_bytes]. repeat constructor; unfold byte; lia.
Qed.

#[export] Instance disk_laws : HostLaws Disk.
Proof.
  split.
  - intros d p h m. cbn. unfold open_node. destruct (nodes d !! bytes_of p) as [n|]; [|done]. intros [= <-] [= <-]. cbn.
    unfold u64, u64_max, as_u64. pose proof (Z.mod_pos_bound (n_ino n) 18446744073709551616). lia.
  - intros d p h t. cbn. unfold open_node. destruct (nodes d !! bytes_of p) as [n|]; [|done]. intros [= <-]. cbn.
    destruct (n_attested n); [|done]. intros [= <-]. apply node_token_ok.
  - intros d p r h m m'. cbn. intros -> [= <-] -> [= <-]. done.
  - done.
  - intros d p r h m content f. cbn. intros Hw Hr. rewrite Hw in Hr. injection Hr as <-. revert Hw. unfold open_node. cbn [nodes].
    rewrite lookup_fmap. destruct (nodes d !! bytes_of p) as [n|]; [|done]. intros [= <-] [= <-] [= <-]. cbn.
    unfold rewrite_node. cbn. by rewrite Z.eqb_refl.
Qed.

(** A digest that keeps the text, one file, and one edit of it. *)
Definition sample_sha (bs : bytes) : string := foldr (fun b s => String (Ascii.ascii_of_nat (Z.to_nat b)) s) EmptyString bs.
Definition config_path : string := "/c/config.toml".
Definition disk_with (text : string) (ends : HelperRun) : Disk := mkDisk {[ bytes_of config_path := mkNode 7 true 1 (bytes_of text) ]} ends.
Definition sample_edit : ConfigEdit := mkEdit (bytes_of "new!") (sample_sha (bytes_of "new!")).
Definition sample_identity : WriteIdentity := mkIdentity (mkFile 1 7) (Ok (mkToken [1; 1; 0; 0; 0; 1; 0; 0; 0]%Z)).
Definition sample_intent : PublicationIntent := mkIntent "cli" config_path 1 "new!" (Some "old") (Some sample_identity).
Definition staged_store : PStore :=
  with_rows fresh_journal [staged_row "cli" config_path "new!" (Some "old") (Some sample_identity) []].
Definition sample_parses (content : bytes) : bool := true.

(** The confined writer dies after two bytes: the file is a torn mix, the row waits, a
    retry by its owner writes it again and takes the receipt. *)
Example a_torn_write_is_retried :
  let torn := publish_intent (disk_with "old" (HelperEnded 2 (Confinement "killed"))) sample_intent (bytes_of "new!") staged_store in
  let healed := resolve_pending_publication sample_sha sample_parses (disk_with "ned" HelperDone) "cli" sample_intent (bytes_of "new!") torn.2 in
  nodes torn.1.2 !! bytes_of config_path = Some (mkNode 7 true 1 (bytes_of "ned" ++ [0%Z])) /\
  torn.2 = staged_store /\
  nodes healed.1.2 !! bytes_of config_path = Some (mkNode 7 true 1 (bytes_of "new!")) /\
  applied_publications healed.2 = Ok [sample_intent].
Proof. vm_compute. repeat split. Qed.

(** A file system without reuse tokens: the edit is journaled, its write is refused, and
    every retry of it meets the row that waits. *)
Example an_unattested_file_is_never_written :
  let disk := mkDisk {[ bytes_of config_path := mkNode 7 false 1 (bytes_of "old") ]} HelperDone in
  let staged := admit_publication sample_sha disk "cli" config_path sample_edit fresh_journal in
  exists intent, staged.1 = Ok (Staged intent) /\
    (publish_intent disk intent (bytes_of "new!") staged.2).1 = (Err (PublicationWrite (WriteIdentityUnattested Unsupported)), disk) /\
    (admit_publication sample_sha disk "cli" config_path sample_edit staged.2) = (Ok (Pending (as_recorded intent)), staged.2).
Proof.
  exists (mkIntent "cli" config_path 1 "new!" (Some "old") (Some (mkIdentity (mkFile 1 7) (Err Unsupported)))).
  vm_compute. repeat split.
Qed.

Lemma identity_column_reads_back_witness :
  parse_publish_identity (encode_publish_identity sample_identity) = Ok (recorded sample_identity) /\
  forall other, identity_ok other -> encode_publish_identity other = encode_publish_identity sample_identity -> recorded other = recorded sample_identity.
Proof.
  apply identity_column_reads_back. split; [by vm_compute|]. split; [by vm_compute|]. apply (node_token_ok (mkNode 7 true 1 [])).
Defined.

Lemma fresh_journal_ok : journal_ok [].
Proof. split; constructor. Qed.

Lemma publications_are_numbered_once_witness :
  exists rows rows',
    conn_mut (pub_calls sample_sha sample_parses [CallAdmit (disk_with "old" HelperDone) "cli" config_path sample_edit] fresh_journal) = Ok rows /\
    conn_mut (pub_calls sample_sha sample_parses ([CallAdmit (disk_with "old" HelperDone) "cli" config_path sample_edit]
      ++ [CallPublish (disk_with "old" HelperDone) sample_intent (bytes_of "new!")]) fresh_journal) = Ok rows' /\
    journal_ok rows /\ journal_step rows rows'.
Proof. apply (publications_are_numbered_once sample_sha sample_parses). Defined.

Lemma sample_staged :
  admit_publication sample_sha (disk_with "old" HelperDone) "cli" config_path sample_edit fresh_journal = (Ok (Staged sample_intent), staged_store).
Proof. vm_compute. reflexivity. Qed.

(** Calls after the admission: another edit for the file, a publication that cannot
    write, and a boot that finds the old bytes. *)
Definition other_edit : ConfigEdit := mkEdit (bytes_of "else") (sample_sha (bytes_of "else")).
Definition meanwhile : list (PubCall Disk) :=
  [CallAdmit (disk_with "old" HelperDone) "file" config_path other_edit;
   CallPublish (disk_with "old" (HelperRefused WriteTooLarge)) sample_intent (bytes_of "new!");
   CallRecover (disk_with "torn" HelperDone)].

Lemma a_command_in_flight_is_journaled_once_witness :
  admit_publication sample_sha (disk_with "torn" HelperDone) "file" config_path sample_edit
      (pub_calls sample_sha sample_parses meanwhile staged_store) =
    (Ok (Pending (as_recorded sample_intent)), pub_calls sample_sha sample_parses meanwhile staged_store).
Proof.
  destruct (a_command_in_flight_is_journaled_once sample_sha sample_parses (disk_with "old" HelperDone) "cli" config_path
    sample_edit fresh_journal [] sample_intent staged_store meanwhile eq_refl fresh_journal_ok sample_staged)
    as (pending & finished & _ & Hf & [Hin|[_ Hans]]).
  - exfalso. vm_compute in Hf. injection Hf as <-. by apply elem_of_nil in Hin.
  - eapply Hans. vm_compute. reflexivity.
Defined.

Lemma publishing_lands_the_bytes_or_leaves_the_row_witness :
  read_target_once sample_sha (publish_intent (disk_with "old" HelperDone) sample_intent (bytes_of "new!") staged_store).1.2 config_path =
    Ok (mkObservation "new!" sample_identity (bytes_of "new!")).
Proof.
  destruct (publish_intent (disk_with "old" HelperDone) sample_intent (bytes_of "new!") staged_store) as [[answer w'] s'] eqn:Hrun.
  assert (Ho : read_target_once sample_sha (disk_with "old" HelperDone) (target sample_intent) =
    Ok (mkObservation "old" sample_identity (bytes_of "old"))) by (vm_compute; reflexivity).
  pose proof (publishing_lands_the_bytes_or_leaves_the_row sample_sha _ _ _ staged_store
    [staged_row "cli" config_path "new!" (Some "old") (Some sample_identity) []] _ _ _ _ eq_refl Hrun Ho) as Hout.
  assert (Ha : answer = Ok tt) by (vm_compute in Hrun; congruence). subst answer. destruct Hout as (_ & Hout & _). exact Hout.
Defined.

Lemma recovery_receipts_only_what_it_wrote_witness :
  exists recs s' (receipt : PublicationRow -> bool),
    recover_publications sample_sha sample_parses (disk_with "new!" HelperDone) staged_store = (Ok recs, s') /\
    conn_mut s' = Ok (map (fun row => if receipt row then applied row else row)
      [staged_row "cli" config_path "new!" (Some "old") (Some sample_identity) []]).
Proof.
  destruct (recovery_receipts_only_what_it_wrote sample_sha sample_parses (disk_with "new!" HelperDone) staged_store
    [staged_row "cli" config_path "new!" (Some "old") (Some sample_identity) []]) as (recs & s' & receipt & Hrun & _ & Hrows & _).
  - done.
  - apply (append_sound "cli" config_path "new!" (Some "old") (Some sample_identity) []); [apply fresh_journal_ok|done|].
    split; [by vm_compute|]. split; [by vm_compute|]. apply (node_token_ok (mkNode 7 true 1 [])).
  - exists recs, s', receipt. split; [exact Hrun|exact Hrows].
Defined.

Lemma a_landed_write_is_receipted_by_recovery_witness :
  exists recs s' pending finished,
    recover_publications sample_sha sample_parses (disk_with "new!" HelperDone) staged_store = (Ok recs, s') /\
    mkRecovery (as_recorded sample_intent) ExactlyNew ∈ recs /\
    pending_publications s' = Ok pending /\ (as_recorded sample_intent ∉ pending) /\
    applied_publications s' = Ok finished /\ as_recorded sample_intent ∈ finished.
Proof.
  destruct (write_once (disk_with "old" HelperDone) (default [] (parent (bytes_of config_path))) config_path sample_identity (bytes_of "new!"))
    as [wrote w2] eqn:Hw.
  assert (Hok : wrote = Ok tt /\ observe_target sample_sha (disk_with "new!" HelperDone) config_path = observe_target sample_sha w2 config_path).
  { vm_compute in Hw. injection Hw as <- <-. split; [done|vm_compute; reflexivity]. }
  destruct Hok as [-> Hsee].
  apply (a_landed_write_is_receipted_by_recovery sample_sha sample_parses (disk_with "old" HelperDone) (disk_with "old" HelperDone) w2
    (disk_with "new!" HelperDone) "cli" config_path sample_edit fresh_journal [] sample_intent staged_store
    (mkObservation "old" sample_identity (bytes_of "old")) sample_identity);
    [done|apply fresh_journal_ok|apply sample_staged|done|done|vm_compute; reflexivity|exact Hw|exact Hsee].
Defined.

Lemma a_finished_command_is_not_journaled_again_witness :
  exists w2 s2 answer,
    publish_intent (disk_with "old" HelperDone) sample_intent (bytes_of "new!") staged_store = (Ok tt, w2, s2) /\
    admit_publication sample_sha w2 "file" config_path sample_edit (pub_calls sample_sha sample_parses meanwhile s2) =
      (Ok answer, pub_calls sample_sha sample_parses meanwhile s2) /\
    intended_digest (admitted_intent answer) = "new!".
Proof.
  destruct (publish_intent (disk_with "old" HelperDone) sample_intent (bytes_of "new!") staged_store) as [[answer w2] s2] eqn:Hrun.
  assert (answer = Ok tt) as -> by (vm_compute in Hrun; congruence).
  destruct (a_finished_command_is_not_journaled_again sample_sha sample_parses (disk_with "old" HelperDone) (disk_with "old" HelperDone) w2 w2
    "cli" "file" config_path sample_edit fresh_journal [] sample_intent staged_store s2
    (mkObservation "old" sample_identity (bytes_of "old")) meanwhile)
    as (before & pending & finished & answer & _ & _ & _ & _ & Ha & Hd & _);
    [done|apply fresh_journal_ok|apply sample_staged|done|vm_compute; reflexivity|exact Hrun|done|].
  exists w2, s2, answer. split; [reflexivity|]. split; [exact Ha|exact Hd].
Defined.
