(* ===== verification/Served.v ===== *)
(** The configuration the runtime serves while it publishes an edit ([commands.rs]), and
    the owner snapshot that admissions of checks are bound to ([executor.rs]): one
    command edits the retained document, journals and writes it, and then either serves
    the new view on every surface or puts the old one back. *)

From S2P Require Import Prelude.
From S2P Require Import Contracts.
From S2P Require Import Text.
From S2P Require Import Store.
From S2P Require Import Routes.
From S2P Require Import Providers.
From S2P Require Import Toml.
From S2P Require Import Schema.
From S2P Require Import Edits.
From S2P Require Import EditAdmit.
From S2P Require Import Effective.
From S2P Require Import ConfigProps.
From S2P Require Import Publications.

(** * The owner's snapshot *)

(** [WorkflowOwnerMode] and [OwnerSnapshot] *)
Inductive WorkflowOwnerMode := OwnerEnabled | ExplicitOff.
#[export] Instance WorkflowOwnerMode_eq_dec : EqDecision WorkflowOwnerMode. Proof. solve_decision. Defined.
Record OwnerSnapshot := mkOwner { os_generation : Z; os_mode : WorkflowOwnerMode; os_digest : string }.

(** [explicit_user_off] and [owner_mode] *)
Definition explicit_user_off (config : EffectiveConfig) : bool :=
  match en_effective (ef_workflow_entry config) with
  | Visible (JBool false) => bool_decide (so_kind (en_source (ef_workflow_entry config)) = "user")
  | _ => false
  end.
Definition owner_mode (config : EffectiveConfig) : WorkflowOwnerMode :=
  if explicit_user_off config then ExplicitOff else OwnerEnabled.

(** [WorkflowOffState::advance], [refresh], [new], [native_dispatch_open] *)
Definition advance (config : EffectiveConfig) (state : OwnerSnapshot) : OwnerSnapshot :=
  mkOwner (saturating_add u64_max (os_generation state) 1) (owner_mode config) (ef_sources_digest config).
Definition refresh (config : EffectiveConfig) (state : OwnerSnapshot) : OwnerSnapshot :=
  if decide (os_mode state <> owner_mode config \/ os_digest state <> ef_sources_digest config) then advance config state else state.
Definition off_state_new (config : EffectiveConfig) : OwnerSnapshot := refresh config (mkOwner 0 OwnerEnabled EmptyString).
Definition native_dispatch_open (state : OwnerSnapshot) : bool := bool_decide (os_mode state = OwnerEnabled).

(** The part of [CheckHandoff] the reconsult reads, [CheckHandoff::from_owner], and
    [verify_owner_context]. *)
Record CheckHandoff := mkHandoff { ho_generation : Z; ho_digest : string; ho_explicit_off : bool }.
Definition from_owner (state : OwnerSnapshot) : CheckHandoff :=
  mkHandoff (os_generation state) (os_digest state) (bool_decide (os_mode state = ExplicitOff)).
Inductive OwnerRefusal := OwnerMoved (current bound : Z) | OwnerToggled (explicit_off : bool) | SourcesChanged.
Definition verify_owner_context (state : OwnerSnapshot) (generation : Z) (digest : string) (explicit_off : bool)
    : result unit OwnerRefusal :=
  if decide (os_generation state <> generation) then Err (OwnerMoved (os_generation state) generation)
  else if decide (bool_decide (os_mode state = ExplicitOff) <> explicit_off) then Err (OwnerToggled explicit_off)
  else if decide (os_digest state <> digest) then Err SourcesChanged
  else Ok tt.

(** * The runtime *)

(** What a configuration command reads and writes of [Runtime]; the broker is the
    configuration it checks its candidates against. *)
Record Runtime := mkRuntime {
  rt_store : PStore;
  rt_effective : EffectiveConfig;
  rt_off : OwnerSnapshot;
  rt_broker : FileConfig;
  rt_config_path : string;
}.
Definition on_effective (f : EffectiveConfig -> EffectiveConfig) (rt : Runtime) : Runtime :=
  mkRuntime (rt_store rt) (f (rt_effective rt)) (rt_off rt) (rt_broker rt) (rt_config_path rt).
Definition on_off (f : EffectiveConfig -> OwnerSnapshot -> OwnerSnapshot) (rt : Runtime) : Runtime :=
  mkRuntime (rt_store rt) (rt_effective rt) (f (rt_effective rt) (rt_off rt)) (rt_broker rt) (rt_config_path rt).
Definition with_store (s : PStore) (rt : Runtime) : Runtime :=
  mkRuntime s (rt_effective rt) (rt_off rt) (rt_broker rt) (rt_config_path rt).
Definition set_config (config : FileConfig) (rt : Runtime) : Runtime :=
  mkRuntime (rt_store rt) (rt_effective rt) (rt_off rt) config (rt_config_path rt).

Definition with_parsed (parsed : option FileConfig) (e : EffectiveConfig) : EffectiveConfig :=
  mkEffective (ef_sources_digest e) (ef_base e) parsed (ef_workflow_entry e) (ef_decisions_entry e) (ef_context_entry e).
Definition with_sources (digest : string) (e : EffectiveConfig) : EffectiveConfig :=
  mkEffective digest (ef_base e) (ef_parsed e) (ef_workflow_entry e) (ef_decisions_entry e) (ef_context_entry e).

(** [RetainedView], [retained_view], [restore_retained_view] *)
Record RetainedView := mkRetained {
  rv_parsed : option FileConfig;
  rv_workflow : ConfigEntry;
  rv_decisions : ConfigEntry;
  rv_context : ConfigEntry;
}.
Definition retained_view (rt : Runtime) : RetainedView :=
  let e := rt_effective rt in mkRetained (ef_parsed e) (ef_workflow_entry e) (ef_decisions_entry e) (ef_context_entry e).
Definition restore_retained_view (before : RetainedView) (rt : Runtime) : Runtime :=
  on_off advance
    (on_effective (fun e => mkEffective (ef_sources_digest e) (ef_base e) (rv_parsed before) (rv_workflow before) (rv_decisions before)
                              (rv_context before)) rt).

Definition CONFIG_CARRIER_OWNER : string := "cli".

(** What a [config.set] and a [config.unset] apply. *)
Inductive ConfigCommand := ConfigSet (key : string) (value : Value) | ConfigUnset (key : string).

(** The two refusals of a command: the edit's own, and the publication's. *)
Inductive CommandError := EditRejected (error : ConfigError) | NotPublished (error : PublicationError).

(** [worker_error_code] and [publication_error] *)
Definition worker_error_code (e : WorkerError) : ErrorCode :=
  match e with
  | Confinement _ | WriteIdentityUnattested _ | WriteIdentityUnavailable _ => CapabilityUnavailable
  | WriteMutationFailed _ => OutcomeUnknown
  | _ => Denied
  end.
Definition publication_error (e : PublicationError) : ErrorCode :=
  match e with
  | PublicationJournal store => store_error_code store
  | PublicationWrite worker => worker_error_code worker
  | TargetAbsent _ => NotFound
  | TargetNotUtf8 => InvalidInput
  | PublicationTarget _ => StorageUnavailable
  | IdentityMissing => InternalError
  end.

Section Serving.
Context {World : Type} `{Hh : Host World}.
Variable os : TargetOs.
Variable parse_toml : string -> result Fields string.
(** [DocumentMut::to_string] *)
Variable render : Fields -> string.
Variable sha256_hex : bytes -> string.
Variable parses : bytes -> bool.
Variable shipped : BaseSource.

(** [finish_edit] over the rendered document, and [sources_digest] *)
Definition rendered_edit (doc : Fields) : ConfigEdit := mkEdit (bytes_of (render doc)) (sha256_hex (bytes_of (render doc))).
Definition sources_digest (user : bytes) : string := sha256_hex (bytes_of (bs_text shipped) ++ user).

(** The closure of a command, and [retained_edit] *)
Definition apply_command (c : ConfigCommand) : FileConfig -> answer Fields * FileConfig :=
  match c with ConfigSet key value => set_wire os key value | ConfigUnset key => reset os key end.
Definition retained_edit (apply : FileConfig -> answer Fields * FileConfig) (rt : Runtime) : answer ConfigEdit * Runtime :=
  let '(edit, config) := apply (retained (rt_effective rt)) in
  (let? doc := edit in Ok (rendered_edit doc), on_effective (with_parsed (Some config)) rt).

(** [serve_landed_config] *)
Definition serve_landed_config (intent : PublicationIntent) (edit : ConfigEdit) (rt : Runtime) : Runtime :=
  let rt := set_config (composed (rt_effective rt)) rt in
  if decide (intended_digest intent = ce_digest edit) then on_off refresh (on_effective (with_sources (sources_digest (ce_bytes edit))) rt)
  else rt.

(** The end of a publication: [Journal] errors are those of the receipt. *)
Definition published (before : RetainedView) (row : PublicationIntent) (edit : ConfigEdit) (answer : result PublicationIntent PublicationError)
    (rt : Runtime) : result PublicationIntent PublicationError * Runtime :=
  match answer with
  | Ok intent => (Ok intent, serve_landed_config intent edit rt)
  | Err (PublicationJournal e) => (Err (PublicationJournal e), serve_landed_config row edit rt)
  | Err e => (Err e, restore_retained_view before rt)
  end.

(** [admit_config_edit] *)
Definition admit_config_edit (w : World) (edit : ConfigEdit) (before : RetainedView) (rt : Runtime)
    : result PublicationIntent PublicationError * World * Runtime :=
  let rt := on_off advance (on_effective (refresh_mode_entries (ce_digest edit)) rt) in
  match admit_publication sha256_hex w CONFIG_CARRIER_OWNER (rt_config_path rt) edit (rt_store rt) with
  | (Ok (Staged intent), s) =>
      let '(answer, w, s) := publish_intent w intent (ce_bytes edit) s in
      let '(answer, rt) := published before intent edit (let? _ := answer in Ok intent) (with_store s rt) in
      (answer, w, rt)
  | (Ok (Pending pending), s) =>
      let '(answer, w, s) := resolve_pending_publication sha256_hex parses w CONFIG_CARRIER_OWNER pending (ce_bytes edit) s in
      let '(answer, rt) := published before pending edit answer (with_store s rt) in
      (answer, w, rt)
  | (Ok (Applied finished), s) => (Ok finished, w, serve_landed_config finished edit (with_store s rt))
  | (Err e, s) => (Err e, w, restore_retained_view before (with_store s rt))
  end.

(** [commit_config_edit] with [admit_config_command] *)
Definition commit_config_edit (w : World) (c : ConfigCommand) (rt : Runtime) : result PublicationIntent CommandError * World * Runtime :=
  let before := retained_view rt in
  match retained_edit (apply_command c) rt with
  | (Err e, rt) => (Err (EditRejected e), w, rt)
  | (Ok edit, rt) =>
      let '(answer, w, rt) := admit_config_edit w edit before rt in
      (map_err NotPublished answer, w, rt)
  end.

(** The owner at boot, and [reload_config] of the text the file holds. *)
Definition reload_config (text : option string) (rt : Runtime) : answer Runtime :=
  let? effective := resolve_effective_on os parse_toml (fun s => sha256_hex (bytes_of s)) shipped text in
  let rt := on_off refresh (on_effective (fun _ => effective) rt) in
  Ok (set_config (composed (rt_effective rt)) rt).
End Serving.

(** * What a command leaves *)

(** Every surface shows one view: the owner's snapshot and the broker's candidates are
    those of the effective configuration. *)
Definition view_ok (rt : Runtime) : Prop :=
  os_mode (rt_off rt) = owner_mode (rt_effective rt) /\ os_digest (rt_off rt) = ef_sources_digest (rt_effective rt) /\
  rt_broker rt = composed (rt_effective rt).

Lemma refresh_agrees e state : os_mode (refresh e state) = owner_mode e /\ os_digest (refresh e state) = ef_sources_digest e.
Proof. unfold refresh. case_decide as Hd; [done|]. apply Decidable.not_or in Hd as [H1 H2]. split; by apply dec_stable. Qed.

Lemma refresh_current e state : os_mode state = owner_mode e -> os_digest state = ef_sources_digest e -> refresh e state = state.
Proof. intros H1 H2. unfold refresh. by rewrite decide_False by tauto. Qed.

Lemma refresh_grows e state : (os_generation state <= u64_max)%Z -> (os_generation state <= os_generation (refresh e state) <= u64_max)%Z.
Proof. intros Hg. unfold refresh. case_decide; cbn; unfold saturating_add; lia. Qed.

(** A refused edit leaves the configuration it was given. *)
Lemma edit_document_view key c edit : fc_view (edit_document key c edit).2 = fc_view c.
Proof. unfold edit_document. destruct (fc_raw c) as [doc|]; [|done]. by destruct (edit doc). Qed.

Lemma commit_refused os key target original edited c e c' :
  commit_edit os key target original edited c = (Err e, c') -> c' = mkFileConfig (fc_view c) original.
Proof. unfold commit_edit. destruct (rbind _ _); [done|]. by intros [= _ <-]. Qed.

Lemma command_refused os c config e config' : apply_command os c config = (Err e, config') -> config' = config.
Proof.
  assert (Hset : forall key value, set os key value config = (Err e, config') -> config' = config).
  { intros key value. unfold set. destruct (rbind _ _) as [[target item]|]; [|by intros [= _ <-]]. destruct (target_path target) as [path field].
    pose proof (edit_document_view key config (fun doc => let? _ := require_declared_connection doc target key in
      ensure_in doc path key (fun table => set_field table field item))) as Hv.
    destruct (edit_document _ _ _) as [edited c1]. intros ->%commit_refused. cbn in Hv. rewrite Hv. by destruct config. }
  destruct c as [key value|key]; cbn [apply_command].
  - unfold set_wire. destruct (wire_value key value); [apply Hset|by intros [= _ <-]].
  - unfold reset. destruct (edit_target key) as [target|]; [|by intros [= _ <-]]. destruct (negb _); [by intros [= _ <-]|].
    destruct (target_path target) as [path field].
    pose proof (edit_document_view key config (fun doc => let? _ := require_declared_connection doc target key in Ok (remove_in doc path field))) as Hv.
    destruct (edit_document _ _ _) as [edited c1]. intros ->%commit_refused. cbn in Hv. rewrite Hv. by destruct config.
Qed.

Section served.
Context {World : Type} `{Hh : Host World}.
Variable os : TargetOs.
Variable parse_toml : string -> result Fields string.
Variable render : Fields -> string.
Variable sha256_hex : bytes -> string.
Variable parses : bytes -> bool.
Variable shipped : BaseSource.
Abbreviation commit := (commit_config_edit os render sha256_hex parses shipped).
Abbreviation publish_edit := (admit_config_edit sha256_hex parses shipped).

(** The answered row is one of the command's own bytes. *)
Lemma staged_digest w owner target edit s intent s1 :
  stage_publication sha256_hex w owner target edit s = (Ok intent, s1) -> intended_digest intent = ce_digest edit.
Proof.
  unfold stage_publication. destruct (negb _); [done|]. destruct (read_target_once _ _ _) as [o|[|]]; [|done..].
  destruct (append_publication _ _ _ _ _ _) as [[seq|] s']; [|done]. by intros [= <- _].
Qed.

Lemma terminal_elem w sight key l i : forall cause, terminal_answer w sight key l cause = inl i -> i ∈ l.
Proof.
  induction l as [|j l IH]; intros cause; cbn [terminal_answer]; [done|].
  destruct (same_target_file w j sight key); [|intros [= ->]; by left|]; intros Ht; right; by eapply IH.
Qed.

Lemma admitted_digest w owner target edit s a s1 :
  admit_publication sha256_hex w owner target edit s = (Ok a, s1) -> intended_digest (admitted_intent a) = ce_digest edit.
Proof.
  assert (Hst : staged_admission sha256_hex w owner target edit s = (Ok a, s1) -> intended_digest (admitted_intent a) = ce_digest edit).
  { unfold staged_admission. destruct (stage_publication _ _ _ _ _ _) as [[i|] s'] eqn:Hs; [|done]. intros [= <- _]. by eapply staged_digest. }
  unfold admit_publication. destruct (negb _); [done|]. destruct (pending_publications s) as [pending|]; [|done].
  destruct (find _ pending) as [i|] eqn:Hf.
  - intros [= <- _]. apply find_Some in Hf as [_ Hm]. unfold pending_match in Hm. apply andb_true_iff in Hm as [Hm _].
    by apply bool_decide_eq_true in Hm.
  - destruct (applied_publications s) as [applied|]; [|done]. destruct (observe_target sha256_hex w target); [done| |done].
    case_decide; [|done]. destruct (terminal_answer _ _ _ _ _) as [i|[cause|]] eqn:Ht; [|done..].
    intros [= <- _]. apply terminal_elem, list_elem_of_filter in Ht as [Hd _]. exact Hd.
Qed.

Lemma resolved_row w caller intent payload s i w' s' :
  resolve_pending_publication sha256_hex parses w caller intent payload s = (Ok i, w', s') -> i = intent.
Proof.
  unfold resolve_pending_publication. case_decide; [by intros [= <- _ _]|]. case_decide.
  - destruct (complete_publication _ _ _ s) as [[[]|] s1]; cbn; [|done]. by intros [= <- _ _].
  - destruct (publish_intent w intent payload s) as [[[[]|] w1] s1]; cbn; [|done]. by intros [= <- _ _].
Qed.

(** The effective configuration that serves an accepted edit. *)
Definition served (doc : Fields) (config : FileConfig) (e : EffectiveConfig) : EffectiveConfig :=
  let digest := sha256_hex (bytes_of (render doc)) in
  mkEffective (sources_digest sha256_hex shipped (bytes_of (render doc))) (ef_base e) (Some config)
    (workflow_entry (ef_base e) (Some config) digest) (decisions_entry (ef_base e) (Some config) digest)
    (context_entry (ef_base e) (Some config) digest).

Lemma landed_view intent edit rt :
  os_mode (rt_off rt) = owner_mode (rt_effective rt) -> intended_digest intent = ce_digest edit ->
  view_ok (serve_landed_config sha256_hex shipped intent edit rt) /\
  rt_effective (serve_landed_config sha256_hex shipped intent edit rt) =
    with_sources (sources_digest sha256_hex shipped (ce_bytes edit)) (rt_effective rt) /\
  rt_config_path (serve_landed_config sha256_hex shipped intent edit rt) = rt_config_path rt.
Proof.
  intros Hm Hd. unfold serve_landed_config. rewrite decide_True by done. split_and!; [|done..]. unfold view_ok. cbn.
  destruct (refresh_agrees (with_sources (sources_digest sha256_hex shipped (ce_bytes edit)) (rt_effective rt)) (rt_off rt)) as [-> ->].
  by split_and!.
Qed.

(** Both ends of a publication: the edit is served on the row it resolved to, or the
    view is put back. *)
Definition advanced (edit : ConfigEdit) (rt : Runtime) : Runtime := on_off advance (on_effective (refresh_mode_entries (ce_digest edit)) rt).

Lemma publish_edit_ends w edit before rt answer w' rt' :
  publish_edit w edit before rt = (answer, w', rt') ->
  exists st, (exists row, intended_digest row = ce_digest edit /\
      rt' = serve_landed_config sha256_hex shipped row edit (with_store st (advanced edit rt)) /\
      match answer with Ok intent => intent = row | Err e => exists j, e = PublicationJournal j end) \/
    (exists e, answer = Err e /\ rt' = restore_retained_view before (with_store st (advanced edit rt))).
Proof.
  unfold admit_config_edit. fold (advanced edit rt).
  assert (Hend : forall row out st, intended_digest row = ce_digest edit -> (forall i, out = Ok i -> i = row) ->
    forall out' rt2, published sha256_hex shipped before row edit out (with_store st (advanced edit rt)) = (out', rt2) ->
    (exists row, intended_digest row = ce_digest edit /\
      rt2 = serve_landed_config sha256_hex shipped row edit (with_store st (advanced edit rt)) /\
      match out' with Ok intent => intent = row | Err e => exists j, e = PublicationJournal j end) \/
    (exists e, out' = Err e /\ rt2 = restore_retained_view before (with_store st (advanced edit rt)))).
  { intros row out st Hd Hrow out' rt2. destruct out as [i|e]; cbn [published].
    - intros [= <- <-]. left. exists i. by rewrite (Hrow i eq_refl).
    - destruct e; intros [= <- <-]; first [by left; exists row; split_and!; [..|eexists]|by right; eexists]. }
  destruct (admit_publication _ _ _ _ _ _) as [[[i|i|i]|e] st] eqn:Ha.
  - apply admitted_digest in Ha. cbn in Ha. destruct (publish_intent w i (ce_bytes edit) st) as [[out w1] st1].
    destruct (published _ _ before i edit (let? _ := out in Ok i) (with_store st1 _)) as [out' rt2] eqn:Hp. intros [= <- _ <-]. exists st1.
    eapply Hend; [exact Ha| |exact Hp]. intros j. destruct out; cbn; [|done]. by intros [= <-].
  - apply admitted_digest in Ha. cbn in Ha. destruct (resolve_pending_publication _ _ w _ i (ce_bytes edit) st) as [[out w1] st1] eqn:Hr.
    destruct (published _ _ before i edit out (with_store st1 _)) as [out' rt2] eqn:Hp. intros [= <- _ <-]. exists st1.
    eapply Hend; [exact Ha| |exact Hp]. intros j ->. by eapply resolved_row.
  - apply admitted_digest in Ha. cbn in Ha. intros [= <- _ <-]. exists st. left. by exists i.
  - intros [= <- _ <-]. exists st. right. by exists e.
Qed.

(** ** What the file shows *)

(** A publication whose bytes landed: it succeeded, or its receipt was lost. *)
Definition landed {A} (answer : result A PublicationError) : bool :=
  match answer with Ok _ | Err (PublicationJournal _) => true | Err _ => false end.
Definition shows (w : World) (path digest : string) : Prop :=
  exists identity content, observe_target sha256_hex w path = SightPresent digest identity content.

Lemma publish_sight `{Hl : !HostLaws World} w i edit s answer w' s' o :
  publish_intent w i (ce_bytes edit) s = (answer, w', s') -> landed answer = true -> read_target_once sha256_hex w (target i) = Ok o ->
  shows w' (target i) (sha256_hex (ce_bytes edit)).
Proof.
  unfold publish_intent. destruct (publish_identity i) as [identity|]; [|by intros [= <- _ _]].
  destruct (write_once w _ _ identity _) as [[u|e] w1] eqn:Hw; [|by intros [= <- _ _]].
  destruct (complete_publication _ _ _ s) as [out st]. intros [= _ <- _] _ Ho. exists (Some identity), (ce_bytes edit).
  apply (write_once_outcome sha256_hex _ _ _ o) in Hw as [(_ & _ & _ & Hafter)|(e & He & _)]; [|done..]. exact (sees sha256_hex _ _ _ Hafter).
Qed.

Lemma resolve_sight `{Hl : !HostLaws World} w i edit s answer w' s' o :
  resolve_pending_publication sha256_hex parses w CONFIG_CARRIER_OWNER i (ce_bytes edit) s = (answer, w', s') -> landed answer = true ->
  owner i = CONFIG_CARRIER_OWNER -> intended_digest i = ce_digest edit -> read_target_once sha256_hex w (target i) = Ok o ->
  ce_digest edit = sha256_hex (ce_bytes edit) -> shows w' (target i) (ce_digest edit).
Proof.
  intros Hr Hl' Hown Hd Ho Hdig. unfold resolve_pending_publication in Hr. rewrite decide_False in Hr by tauto.
  destruct (decide (classify_intent sha256_hex parses w i = ExactlyNew)) as [Hnew|Hold].
  - destruct (complete_publication _ _ _ s) as [out st]. injection Hr as _ <- _. unfold classify_intent in Hnew.
    destruct (observe_target sha256_hex w (target i)) as [|d id content|] eqn:Hsee; [done| |done]. case_decide as E.
    + exists id, content. by rewrite Hsee, E, Hd.
    + case_decide; [done|]. by destruct (_ && _).
  - destruct (publish_intent w i (ce_bytes edit) s) as [[out w1] st] eqn:Hp. injection Hr as <- <- _. rewrite Hdig.
    eapply publish_sight; [exact Hp| |exact Ho]. destruct out as [u|e]; [done|exact Hl'].
Qed.

(** A row of another owner is answered without a write. *)
Lemma resolve_receipt w i payload s j w' s' :
  resolve_pending_publication sha256_hex parses w CONFIG_CARRIER_OWNER i payload s = (Err j, w', s') -> owner i = CONFIG_CARRIER_OWNER.
Proof.
  destruct (decide (owner i = CONFIG_CARRIER_OWNER)) as [|Hne]; [done|]. unfold resolve_pending_publication. by rewrite decide_True by done.
Qed.

Lemma stage_reads w owner target edit s intent s1 :
  stage_publication sha256_hex w owner target edit s = (Ok intent, s1) ->
  Publications.target intent = target /\ exists o, read_target_once sha256_hex w target = Ok o.
Proof.
  unfold stage_publication. destruct (negb _); [done|]. destruct (read_target_once _ _ _) as [o|[|]]; [|done..].
  destruct (append_publication _ _ _ _ _ _) as [[seq|] s']; [|done]. intros [= <- _]. split; [done|by exists o].
Qed.

(** A publication that answers a journal's error: the journal refused the admission
    and nothing was written, or the bytes of the admitted row are down and the edit is
    served. *)
Lemma lost_receipt `{Hl : !HostLaws World} w edit before rt j w' rt' :
  publish_edit w edit before rt = (Err (PublicationJournal j), w', rt') -> ce_digest edit = sha256_hex (ce_bytes edit) ->
  let admission := admit_publication sha256_hex w CONFIG_CARRIER_OWNER (rt_config_path rt) edit (rt_store rt) in
  (admission.1 = Err (PublicationJournal j) /\ w' = w /\
   exists st, rt' = restore_retained_view before (with_store st (advanced edit rt))) \/
  exists row st, (admission.1 = Ok (Staged row) \/ admission.1 = Ok (Pending row)) /\ intended_digest row = ce_digest edit /\
    rt' = serve_landed_config sha256_hex shipped row edit (with_store st (advanced edit rt)) /\
    (shows w' (target row) (ce_digest edit) \/
     admission.1 = Ok (Pending row) /\ forall o, read_target_once sha256_hex w (target row) <> Ok o).
Proof.
  unfold admit_config_edit. fold (advanced edit rt). cbn [advanced on_off on_effective rt_store rt_config_path].
  intros Hrun Hdig. destruct (admit_publication _ _ _ _ _ _) as [[[i|i|i]|e] st] eqn:Ha; [| |done|].
  - apply admitted_digest in Ha as Hd. apply admit_staged in Ha as (_ & _ & _ & (Ht & o & Ho)%stage_reads).
    destruct (publish_intent w i (ce_bytes edit) st) as [[out w1] st1] eqn:Hp. right. exists i, st1.
    destruct out as [[]|e]; cbn in Hrun; [done|]. destruct e; try done. injection Hrun as <- <- <-.
    split_and!; [by left|done|done|left]. rewrite Hdig. rewrite <- Ht in Ho. by eapply publish_sight.
  - apply admitted_digest in Ha as Hd. destruct (resolve_pending_publication _ _ w _ i (ce_bytes edit) st) as [[out w1] st1] eqn:Hp.
    right. exists i, st1. destruct out as [k|e]; cbn in Hrun; [done|]. destruct e; try done. injection Hrun as <- <- <-.
    split_and!; [by right|done|done|]. pose proof (resolve_receipt _ _ _ _ _ _ _ Hp) as Hown.
    destruct (read_target_once sha256_hex w (target i)) as [o|] eqn:Ho; [left; by eapply resolve_sight|right]. by split.
  - destruct e; try done. injection Hrun as <- <- <-. left. split_and!; [done..|]. by exists st.
Qed.

Lemma restored_effective before config rt st edit :
  before = retained_view rt ->
  rt_effective (restore_retained_view before (with_store st (advanced edit (on_effective (with_parsed (Some config)) rt)))) = rt_effective rt.
Proof. intros ->. cbn. by destruct (rt_effective rt). Qed.

Lemma command_outcome w c rt answer w' rt' :
  view_ok rt -> commit w c rt = (answer, w', rt') ->
  let is_served := exists doc config,
    apply_command os c (retained (rt_effective rt)) = (Ok doc, config) /\ rt_effective rt' = served doc config (rt_effective rt) in
  view_ok rt' /\
  match answer with
  | Ok _ => is_served
  | Err (EditRejected _) => w' = w /\ rt_store rt' = rt_store rt /\ rt_off rt' = rt_off rt /\
      retained (rt_effective rt') = retained (rt_effective rt) /\ rt_effective rt' = with_parsed (ef_parsed (rt_effective rt')) (rt_effective rt)
  | Err (NotPublished (PublicationJournal _)) => is_served \/ rt_effective rt' = rt_effective rt
  | Err (NotPublished _) => rt_effective rt' = rt_effective rt
  end.
Proof.
  intros (Hm & Hs & Hb) Hrun is_served. unfold commit_config_edit, retained_edit in Hrun.
  destruct (apply_command os c (retained (rt_effective rt))) as [[doc|e] config] eqn:Happ; cbn [rbind] in Hrun.
  - destruct (publish_edit w _ _ _) as [[out w1] rt2] eqn:Hp. injection Hrun as <- _ <-.
    apply publish_edit_ends in Hp as (st & [(row & Hd & -> & Hout)|(e & -> & ->)]).
    + destruct (landed_view row (rendered_edit render sha256_hex doc)
        (with_store st (advanced (rendered_edit render sha256_hex doc) (on_effective (with_parsed (Some config)) rt)))) as (Hok & He & _); [done..|].
      assert (Hserved : is_served) by (exists doc, config; split; [done|]; rewrite He; reflexivity).
      split; [done|]. destruct out as [i|e]; cbn [map_err]; [done|]. destruct Hout as [j ->]. by left.
    + pose proof (restored_effective _ config rt st (rendered_edit render sha256_hex doc) eq_refl) as He. split.
      * unfold view_ok. rewrite He. split_and!; [cbn; by destruct (rt_effective rt)..|exact Hb].
      * cbn [map_err]. destruct e; by first [exact He|right; exact He].
  - injection Hrun as <- <- <-. apply command_refused in Happ as ->. split; [|by split_and!].
    unfold view_ok. cbn. split_and!; [done..|]. rewrite Hb. done.
Qed.

(** C12.  A configuration command never leaves the surfaces apart.  Whatever it answers,
    the owner's snapshot, the broker's candidates and the effective configuration show
    one view.  A refused edit and a publication that answers any other error than the
    journal's leave the old view, to the last entry; an answer of success shows the edited
    document under the digest of its bytes.  An error of the journal is told apart: where the
    journal refused the admission, nothing was written and the old view stands; where the
    command was admitted and only its receipt was lost, the edited document is served,
    and the file of the admitted row shows its digest (or, for a row left from an
    earlier call, could not be read before the write). *)
Theorem a_configuration_command_is_served_whole `{Hl : !HostLaws World} w c rt answer w' rt' :
  view_ok rt -> commit w c rt = (answer, w', rt') ->
  view_ok rt' /\
  match answer with
  | Err (EditRejected _) => w' = w /\ rt_store rt' = rt_store rt /\ rt_off rt' = rt_off rt /\
      retained (rt_effective rt') = retained (rt_effective rt) /\ rt_effective rt' = with_parsed (ef_parsed (rt_effective rt')) (rt_effective rt)
  | _ => exists doc config, apply_command os c (retained (rt_effective rt)) = (Ok doc, config) /\
      let edit := rendered_edit render sha256_hex doc in
      let admission := admit_publication sha256_hex w CONFIG_CARRIER_OWNER (rt_config_path rt) edit (rt_store rt) in
      match answer with
      | Ok _ => rt_effective rt' = served doc config (rt_effective rt)
      | Err (NotPublished (PublicationJournal j)) =>
          (admission.1 = Err (PublicationJournal j) /\ w' = w /\ rt_effective rt' = rt_effective rt) \/
          (exists row, (admission.1 = Ok (Staged row) \/ admission.1 = Ok (Pending row)) /\
             rt_effective rt' = served doc config (rt_effective rt) /\
             (shows w' (target row) (ce_digest edit) \/
              admission.1 = Ok (Pending row) /\ forall o, read_target_once sha256_hex w (target row) <> Ok o))
      | Err _ => rt_effective rt' = rt_effective rt
      end
  end.
Proof.
  intros Hok Hrun. destruct (command_outcome _ _ _ _ _ _ Hok Hrun) as [Hok' Hout]. split; [done|].
  unfold commit_config_edit, retained_edit in Hrun.
  destruct (apply_command os c (retained (rt_effective rt))) as [[doc|e] config] eqn:Happ; cbn [rbind] in Hrun.
  2:{ injection Hrun as <- _ _. exact Hout. }
  destruct (publish_edit w _ _ _) as [[out w1] rt2] eqn:Hp. injection Hrun as <- <- <-.
  destruct out as [i|e]; cbn [map_err] in *; [destruct Hout as (doc' & config' & Ha & He); injection Ha as <- <-; by exists doc, config|].
  exists doc, config. split; [done|]. destruct e as [| | |j| |]; try exact Hout.
  apply lost_receipt in Hp as [(Hadm & -> & st & ->)|(row & st & Hadm & Hd & -> & Hshow)]; [left|right|done].
  - split_and!; [exact Hadm|done|]. by rewrite (restored_effective _ config rt st).
  - exists row. split_and!; [exact Hadm| |exact Hshow].
    destruct (landed_view row (rendered_edit render sha256_hex doc)
      (with_store st (advanced (rendered_edit render sha256_hex doc) (on_effective (with_parsed (Some config)) rt)))) as (_ & He & _); [done..|].
    rewrite He. reflexivity.
Qed.

(** ** Bound contexts *)

Definition accepted (answer : result PublicationIntent CommandError) : bool := match answer with Err (EditRejected _) => false | _ => true end.

Lemma served_generation intent edit rt :
  (os_generation (rt_off rt) <= u64_max)%Z ->
  (os_generation (rt_off rt) <= os_generation (rt_off (serve_landed_config sha256_hex shipped intent edit rt)) <= u64_max)%Z.
Proof. intros Hg. unfold serve_landed_config. case_decide; [|cbn; lia]. cbn. by apply refresh_grows. Qed.

Lemma commit_generation w c rt answer w' rt' :
  (os_generation (rt_off rt) <= u64_max)%Z -> commit w c rt = (answer, w', rt') ->
  (os_generation (rt_off rt) <= os_generation (rt_off rt') <= u64_max)%Z /\
  (accepted answer = true -> (Z.min u64_max (os_generation (rt_off rt) + 1) <= os_generation (rt_off rt'))%Z).
Proof.
  intros Hg Hrun. unfold commit_config_edit, retained_edit in Hrun.
  destruct (apply_command os c (retained (rt_effective rt))) as [[doc|e] config]; cbn [rbind] in Hrun; [|injection Hrun as <- _ <-; split; [cbn; lia|done]].
  destruct (publish_edit w _ _ _) as [[out w1] rt2] eqn:Hp. injection Hrun as <- _ <-.
  apply publish_edit_ends in Hp as (st & [(row & _ & -> & _)|(e & _ & ->)]).
  - set (rt1 := with_store st _). assert (H1 : os_generation (rt_off rt1) = Z.min u64_max (os_generation (rt_off rt) + 1)) by done.
    pose proof (served_generation row (rendered_edit render sha256_hex doc) rt1). lia.
  - cbn. unfold saturating_add, u64_max in *. lia.
Qed.

Definition commits (cs : list (World * ConfigCommand)) (rt : Runtime) : Runtime := fold_left (fun rt '(w, c) => (commit w c rt).2) cs rt.

Lemma commits_generation cs rt :
  (os_generation (rt_off rt) <= u64_max)%Z -> (os_generation (rt_off rt) <= os_generation (rt_off (commits cs rt)) <= u64_max)%Z.
Proof.
  revert rt. induction cs as [|[w c] cs IH]; intros rt Hg; [cbn; lia|].
  change (commits ((w, c) :: cs) rt) with (commits cs (commit w c rt).2). destruct (commit w c rt) as [[answer w'] rt'] eqn:Hc. cbn [snd].
  apply commit_generation in Hc as [Hc _]; [|done]. specialize (IH rt'). lia.
Qed.

(** C14.  The context a check was admitted under does not outlive an edit.  Once a
    configuration command's edit was accepted (whether it was then published, refused
    by the disk and rolled back, or left in doubt), a handoff bound before it is refused
    as moved, and stays refused whatever configuration commands follow, a return to the
    same bytes included.  The owner counts to the largest [u64]. *)
Theorem no_handoff_outlives_an_edit w c rt answer w' rt' later :
  (os_generation (rt_off rt) < u64_max)%Z -> commit w c rt = (answer, w', rt') -> accepted answer = true ->
  let bound := from_owner (rt_off rt) in
  let now := rt_off (commits later rt') in
  verify_owner_context now (ho_generation bound) (ho_digest bound) (ho_explicit_off bound) =
    Err (OwnerMoved (os_generation now) (os_generation (rt_off rt))).
Proof.
  intros Hg Hrun Hacc bound now. apply commit_generation in Hrun as [Hle Hlt]; [|lia]. specialize (Hlt Hacc).
  pose proof (commits_generation later rt') as Hl. unfold verify_owner_context. rewrite decide_True; [done|]. cbn. subst now. lia.
Qed.

(** ** The next boot *)

Lemma command_admits c config doc config' :
  coherent os config -> apply_command os c config = (Ok doc, config') -> config' = mkFileConfig (fc_view config') (Some doc) /\ coherent os config'.
Proof.
  intros Hc. assert (Hset : forall key value, set os key value config = (Ok doc, config') ->
    config' = mkFileConfig (fc_view config') (Some doc) /\ coherent os config').
  { intros key value Hs. pose proof (set_spec os config key value Hc) as Hspec. rewrite Hs in Hspec.
    destruct Hspec as (target & _ & _ & -> & Hco). by split. }
  destruct c as [key value|key]; cbn [apply_command].
  - unfold set_wire. destruct (wire_value key value); [apply Hset|done].
  - intros Hr. pose proof (reset_spec os config key Hc) as Hspec. rewrite Hr in Hspec. destruct Hspec as (target & _ & _ & -> & Hco). by split.
Qed.

Lemma coherent_parses config doc :
  coherent os config -> config = mkFileConfig (fc_view config) (Some doc) -> parse_toml (render doc) = Ok doc ->
  parse_validated os parse_toml (render doc) = Ok config.
Proof.
  intros (doc' & Hraw & _ & Hval) He Hp. rewrite He in Hraw. injection Hraw as <-. unfold parse_validated, parse. rewrite Hp.
  cbn [map_err rbind]. unfold validate. cbn [fc_raw]. rewrite Hval. cbn [rbind]. by rewrite <- He.
Qed.

Lemma cold_start doc config e :
  coherent os config -> config = mkFileConfig (fc_view config) (Some doc) -> parse_toml (render doc) = Ok doc ->
  base_layer parse_toml (fun t => sha256_hex (bytes_of t)) shipped = Ok (ef_base e) ->
  let routes := pa_routes (fc_view (composed (served doc config e))) in
  resolve_effective_on os parse_toml (fun t => sha256_hex (bytes_of t)) shipped (Some (render doc)) =
    (let? _ := check_model_references (cf_connections routes) (cf_models routes) in Ok (served doc config e)).
Proof.
  intros Hc He Hp Hbase routes. unfold resolve_effective_on. rewrite (coherent_parses config doc Hc He Hp). cbn [rbind].
  rewrite Hbase. cbn [rbind default]. unfold served, sources_digest, sources_digest_on in *. rewrite <- bytes_of_app. reflexivity.
Qed.

(** C15.  What is served after a successful command is what the next boot reads.  On an
    admitted configuration over the shipped base, with a writer of the format whose text
    reads back, a reload of the text that was published changes nothing at all: not the
    view, not an entry or a digest, not the owner's generation, not the broker; the one
    other answer is that the file and the base together do not admit their references. *)
Theorem the_served_view_is_a_cold_start w c rt intent w' rt' doc config :
  view_ok rt -> coherent os (retained (rt_effective rt)) ->
  base_layer parse_toml (fun t => sha256_hex (bytes_of t)) shipped = Ok (ef_base (rt_effective rt)) ->
  commit w c rt = (Ok intent, w', rt') -> apply_command os c (retained (rt_effective rt)) = (Ok doc, config) ->
  parse_toml (render doc) = Ok doc ->
  let routes := pa_routes (fc_view (composed (rt_effective rt'))) in
  match reload_config os parse_toml sha256_hex shipped (Some (render doc)) rt' with
  | Ok fresh => fresh = rt'
  | Err e => check_model_references (cf_connections routes) (cf_models routes) = Err e
  end.
Proof.
  intros Hok Hco Hbase Hrun Happ Hp routes. destruct (command_outcome _ _ _ _ _ _ Hok Hrun) as [Hok' (doc' & config' & Happ' & He)].
  rewrite Happ in Happ'. injection Happ' as <- <-. destruct (command_admits c _ _ _ Hco Happ) as [Hconf Hco'].
  unfold reload_config. rewrite (cold_start doc config (rt_effective rt) Hco' Hconf Hp Hbase). rewrite <- He. fold routes.
  destruct (check_model_references _ _) as [u|e]; cbn [rbind]; [|done]. destruct Hok' as (Hm & Hs & Hb).
  destruct rt' as [st eff off broker path]. cbn in *. unfold on_off, on_effective, set_config. cbn.
  rewrite (refresh_current eff off Hm Hs). by rewrite Hb.
Qed.

(** ** What the file shows *)

Lemma applied_sight w target edit s i st :
  admit_publication sha256_hex w CONFIG_CARRIER_OWNER target edit s = (Ok (Applied i), st) ->
  exists identity content, observe_target sha256_hex w target = SightPresent (ce_digest edit) identity content.
Proof.
  assert (Hno : staged_admission sha256_hex w CONFIG_CARRIER_OWNER target edit s <> (Ok (Applied i), st)).
  { unfold staged_admission. by destruct (stage_publication _ _ _ _ _ _) as [[]]. }
  unfold admit_publication. destruct (negb _); [done|]. destruct (pending_publications s) as [pending|]; [|done].
  destruct (find _ pending); [done|]. destruct (applied_publications s) as [applied|]; [|done].
  destruct (observe_target sha256_hex w target) as [|d id content|]; [done| |done]. case_decide as E; [|done]. intros _. exists id, content. by rewrite E.
Qed.

(** C13.  Success is on the disk.  When a command answers success with a row of its own
    carrier, the file the row names, or the configuration's own path, holds exactly the
    digest of the edited document's text; only a row left from an earlier call, on a
    target that cannot be read, is answered by its write alone. *)
Theorem an_answer_of_success_is_on_disk `{Hl : !HostLaws World} w c rt rows intent w' rt' doc config :
  conn_mut (rt_store rt) = Ok rows -> journal_ok rows ->
  commit w c rt = (Ok intent, w', rt') -> apply_command os c (retained (rt_effective rt)) = (Ok doc, config) ->
  owner intent = CONFIG_CARRIER_OWNER ->
  (exists path identity content, (path = rt_config_path rt \/ path = target intent) /\
     observe_target sha256_hex w' path = SightPresent (sha256_hex (bytes_of (render doc))) identity content) \/
  (forall o, read_target_once sha256_hex w (target intent) <> Ok o).
Proof.
  intros Hc Hok Hrun Happ Hown. unfold commit_config_edit, retained_edit in Hrun. rewrite Happ in Hrun. cbn [rbind] in Hrun.
  set (edit := rendered_edit render sha256_hex doc) in *. change (sha256_hex (bytes_of (render doc))) with (ce_digest edit).
  unfold admit_config_edit in Hrun. cbn [on_off on_effective rt_store rt_config_path] in Hrun.
  destruct (admit_publication sha256_hex w _ (rt_config_path rt) edit (rt_store rt)) as [[[i|i|i]|e] st] eqn:Ha; [| | |done].
  - pose proof (staged_target _ _ _ _ _ _ _ _ _ Hc Hok Ha) as Ht. apply admit_staged in Ha as (_ & _ & _ & Hst).
    apply (stage_inv _ _ _ _ _ _ rows) in Hst; [|done..]. destruct Hst as (o & Ho & _).
    destruct (publish_intent w i (ce_bytes edit) st) as [[[[]|e] w1] st1] eqn:Hp; cbn in Hrun; [|by destruct e].
    injection Hrun as <- <- _. left. exists (target i).
    rewrite <- Ht in Ho. destruct (publish_sight w i edit st (Ok tt) w1 st1 o Hp eq_refl Ho) as (identity & content & Hsee).
    exists identity, content. split; [by right|exact Hsee].
  - destruct (resolve_pending_publication _ _ w _ i (ce_bytes edit) st) as [[[j|e] w1] st1] eqn:Hr; cbn in Hrun; [|by destruct e].
    pose proof (resolved_row _ _ _ _ _ _ _ _ Hr) as ->. injection Hrun as <- <- _. apply admitted_digest in Ha. cbn in Ha.
    destruct (read_target_once sha256_hex w (target i)) as [o|e] eqn:Ho; [|by right]. left. exists (target i).
    eapply resolve_sight in Hr as (identity & content & Hsee); [|reflexivity|done|exact Ha|exact Ho|reflexivity]. exists identity, content. split; [by right|exact Hsee].
  - injection Hrun as <- <- _. apply applied_sight in Ha as (identity & content & Hsee). left. exists (rt_config_path rt), identity, content. split; [by left|exact Hsee].
Qed.
End served.

(** * A runtime to run on *)

Definition sample_base : BaseSource := mkBase 1 "base".
Definition switch_off : ConfigCommand := ConfigSet "workflow.enabled" (JBool false).
Definition edited_doc : Fields :=
  match apply_command sample_os switch_off sample_config with (Ok doc, _) => doc | (Err _, _) => [] end.
Definition edited_config : FileConfig := (apply_command sample_os switch_off sample_config).2.
Definition sample_parse (text : string) : result Fields string :=
  if decide (text = "base") then Ok [("config_version", TInteger 1)] else if decide (text = "old") then Ok sample_doc else Ok edited_doc.
Definition sample_render (doc : Fields) : string := "new!".
Definition sample_effective : EffectiveConfig :=
  match resolve_effective_on sample_os sample_parse (fun t => sample_sha (bytes_of t)) sample_base (Some "old") with
  | Ok e => e
  | Err _ => mkEffective "none" (mkLayer 0 "none" None None None no_models) None (base_flag_entry "none" true "none") (base_flag_entry "none" true "none")
               (base_flag_entry "none" true "none")
  end.
Definition sample_runtime : Runtime :=
  mkRuntime fresh_journal sample_effective (off_state_new sample_effective) (composed sample_effective) config_path.
Abbreviation run := (commit_config_edit sample_os sample_render sample_sha sample_parses sample_base).

Lemma sample_view_ok : view_ok sample_runtime.
Proof. vm_compute. by split_and!. Qed.

(** The user switches the workflow off: the bytes land, native dispatch closes, and a
    retry is answered by the row that is done. *)
Example switching_off :
  let done := run (disk_with "old" HelperDone) switch_off sample_runtime in
  let again := run done.1.2 switch_off done.2 in
  nodes done.1.2 !! bytes_of config_path = Some (mkNode 7 true 1 (bytes_of "new!")) /\
  native_dispatch_open (rt_off sample_runtime) = true /\ native_dispatch_open (rt_off done.2) = false /\
  again.1.1 = done.1.1 /\ rt_store again.2 = rt_store done.2.
Proof. vm_compute. by split_and!. Qed.

(** The disk refuses: the old view is back and the row waits. *)
Example a_refused_write_is_rolled_back :
  let refused := run (disk_with "old" (HelperRefused (Confinement "no kernel support"))) switch_off sample_runtime in
  refused.1.1 = Err (NotPublished (PublicationWrite (Confinement "no kernel support"))) /\
  rt_effective refused.2 = rt_effective sample_runtime /\ native_dispatch_open (rt_off refused.2) = true /\
  os_generation (rt_off refused.2) = (os_generation (rt_off sample_runtime) + 2)%Z.
Proof. vm_compute. by split_and!. Qed.

(** A row of another owner for the same bytes still waits for its write.  The command is
    answered with success and the new view is served, its sources digest included,
    though the file holds the old bytes. *)
Example a_foreign_row_is_served_before_its_bytes :
  let disk := disk_with "old" HelperDone in
  let foreign := (admit_publication sample_sha disk "file" config_path (rendered_edit sample_render sample_sha edited_doc) fresh_journal).2 in
  let answered := run disk switch_off (with_store foreign sample_runtime) in
  (exists row, answered.1.1 = Ok row /\ owner row = "file") /\ answered.1.2 = disk /\
  ef_sources_digest (rt_effective answered.2) = "basenew!" /\ native_dispatch_open (rt_off answered.2) = false.
Proof.
  split; [|by vm_compute; split_and!].
  exists (mkIntent "file" config_path 1 "new!" (Some "old") (Some sample_identity)). by vm_compute.
Qed.

Lemma a_configuration_command_is_served_whole_witness :
  view_ok (run (disk_with "old" HelperDone) switch_off sample_runtime).2.
Proof.
  destruct (run (disk_with "old" HelperDone) switch_off sample_runtime) as [[answer w'] rt'] eqn:Hrun.
  exact (proj1 (a_configuration_command_is_served_whole _ _ _ _ _ _ _ _ _ _ _ sample_view_ok Hrun)).
Defined.

Lemma no_handoff_outlives_an_edit_witness :
  let rt' := (run (disk_with "old" HelperDone) switch_off sample_runtime).2 in
  let later := commits sample_os sample_render sample_sha sample_parses sample_base [(disk_with "new!" HelperDone, ConfigUnset "workflow.enabled")] rt' in
  verify_owner_context (rt_off later) 1 "baseold" false = Err (OwnerMoved (os_generation (rt_off later)) 1).
Proof.
  destruct (run (disk_with "old" HelperDone) switch_off sample_runtime) as [[answer w'] rt'] eqn:Hrun. cbv zeta. cbn [snd].
  assert (Hacc : accepted answer = true).
  { replace answer with (run (disk_with "old" HelperDone) switch_off sample_runtime).1.1 by (by rewrite Hrun). vm_compute. reflexivity. }
  assert (Hg : (os_generation (rt_off sample_runtime) < u64_max)%Z) by (vm_compute; reflexivity).
  exact (no_handoff_outlives_an_edit _ _ _ _ _ _ _ _ _ _ _ [(disk_with "new!" HelperDone, ConfigUnset "workflow.enabled")] Hg Hrun Hacc).
Defined.

Lemma sample_retained : retained (rt_effective sample_runtime) = sample_config.
Proof. vm_compute. reflexivity. Qed.

Lemma sample_applies : apply_command sample_os switch_off (retained (rt_effective sample_runtime)) = (Ok edited_doc, edited_config).
Proof. rewrite sample_retained. vm_compute. reflexivity. Qed.

Lemma sample_succeeds : (run (disk_with "old" HelperDone) switch_off sample_runtime).1.1 = Ok sample_intent.
Proof. vm_compute. reflexivity. Qed.

Lemma the_served_view_is_a_cold_start_witness :
  let rt' := (run (disk_with "old" HelperDone) switch_off sample_runtime).2 in
  reload_config sample_os sample_parse sample_sha sample_base (Some "new!") rt' = Ok rt'.
Proof.
  destruct (run (disk_with "old" HelperDone) switch_off sample_runtime) as [[answer w'] rt'] eqn:Hrun. cbv zeta. cbn [snd].
  assert (Hans : answer = Ok sample_intent).
  { replace answer with (run (disk_with "old" HelperDone) switch_off sample_runtime).1.1 by (by rewrite Hrun). apply sample_succeeds. }
  subst answer.
  assert (Hfine : is_ok (reload_config sample_os sample_parse sample_sha sample_base (Some "new!") rt') = true).
  { replace rt' with (run (disk_with "old" HelperDone) switch_off sample_runtime).2 by (by rewrite Hrun). vm_compute. reflexivity. }
  assert (Hco : coherent sample_os (retained (rt_effective sample_runtime))) by (rewrite sample_retained; apply sample_coherent).
  assert (Hbase : base_layer sample_parse (fun t => sample_sha (bytes_of t)) sample_base = Ok (ef_base (rt_effective sample_runtime)))
    by (vm_compute; reflexivity).
  assert (Hp : sample_parse (sample_render edited_doc) = Ok edited_doc) by (vm_compute; reflexivity).
  pose proof (the_served_view_is_a_cold_start _ _ _ _ _ _ _ _ _ _ _ _ _ _ sample_view_ok Hco Hbase Hrun sample_applies Hp) as Hcold.
  change (sample_render edited_doc) with "new!" in Hcold.
  destruct (reload_config _ _ _ _ (Some "new!") rt') as [fresh|e]; [by rewrite Hcold|discriminate Hfine].
Defined.

Lemma an_answer_of_success_is_on_disk_witness :
  exists path identity content, (path = config_path \/ path = target sample_intent) /\
    observe_target sample_sha (run (disk_with "old" HelperDone) switch_off sample_runtime).1.2 path = SightPresent "new!" identity content.
Proof.
  destruct (run (disk_with "old" HelperDone) switch_off sample_runtime) as [[answer w'] rt'] eqn:Hrun. cbn [fst snd].
  assert (Hans : answer = Ok sample_intent).
  { replace answer with (run (disk_with "old" HelperDone) switch_off sample_runtime).1.1 by (by rewrite Hrun). apply sample_succeeds. }
  subst answer.
  assert (Hc : conn_mut (rt_store sample_runtime) = Ok []) by (vm_compute; reflexivity).
  destruct (an_answer_of_success_is_on_disk _ _ _ _ _ _ _ _ _ _ _ _ _ _ Hc fresh_journal_ok Hrun sample_applies eq_refl) as [Hsee|Hno].
  - exact Hsee.
  - destruct (Hno (mkObservation "old" sample_identity (bytes_of "old"))). vm_compute. reflexivity.
Defined.
