(* ===== verification/Instructions.v ===== *)
(** Discovery of instruction files ([src/src/instructions.rs]): four candidate
    names per scope, two slots, one load per file identity, a typed conflict where
    two files of one scope declare one slot.

    The file system is a parameter, and another process may change it between two
    calls: the state of a run is how many calls it has made, and each call is
    answered by the file system of its moment.  A path is the list of its
    components. *)

From stdpp Require Import sorting.
From S2P Require Import Prelude.
From S2P Require Import Contracts.
From S2P Require Import Utf8.
From S2P Require Import Text.
From S2P Require Import Store.

Definition INSTRUCTION_FILE_MAX_BYTES : Z := 64 * 1024.

Inductive InstructionSlot := SlotAgent | SlotClaude.

#[export] Instance InstructionSlot_eq_dec : EqDecision InstructionSlot.
Proof. solve_decision. Defined.

Definition slot_as_str (slot : InstructionSlot) : string :=
  match slot with SlotAgent => "agent" | SlotClaude => "claude" end.

Definition INSTRUCTION_FILES : list (string * InstructionSlot) :=
  [("AGENTS.md", SlotAgent); ("CLAUDE.md", SlotClaude); ("agent.md", SlotAgent); ("claude.md", SlotClaude)].

(** [fold] *)
Definition fold_name (name : string) : option InstructionSlot :=
  snd <$> find (fun row => bool_decide (row.1 = name)) INSTRUCTION_FILES.

Definition path : Type := list string.

(** [FileIdentity]: a device and an inode. *)
Record FileIdentity := mkIdentity { fi_dev : Z; fi_ino : Z }.

#[export] Instance FileIdentity_eq_dec : EqDecision FileIdentity.
Proof. solve_decision. Defined.

Record InstructionEntry := mkEntry {
  ie_slot : InstructionSlot;
  ie_name : string;
  ie_path : path;
  ie_scope : path;
  ie_text : string;
}.

Record InstructionConflict := mkConflict { ic_slot : InstructionSlot; ic_scope : path; ic_sources : list path }.

Record InstructionSet := mkSet { is_entries : list InstructionEntry; is_conflicts : list InstructionConflict }.

Inductive IoError := IoNotFound | IoOther (code : Z).

Inductive InstructionError :=
  | MetadataFailed (path : path) (source : IoError)
  | InstructionReadFailed (path : path) (source : IoError)
  | TooLarge (path : path) (limit : Z)
  | NotText (path : path)
  | OutOfScope (path scope : path)
  | NotRegular (path : path).

(** [InstructionError::code] *)
Definition instruction_error_code (e : InstructionError) : ErrorCode :=
  match e with
  | MetadataFailed _ _ | InstructionReadFailed _ _ | TooLarge _ _ => DependencyBlocked
  | OutOfScope _ _ => Denied
  | NotText _ | NotRegular _ => InvalidInput
  end.

(** * The file system *)

Record Metadata := mkMetadata { me_is_file : bool; me_identity : FileIdentity }.
(** An open descriptor: its metadata, and the bytes a read capped at so many
    bytes returns. *)
Record Opened := mkOpened { op_metadata : result Metadata IoError; op_read : Z -> result string IoError }.
Record Fs := mkFs { fs_canonicalize : path -> result path IoError; fs_open : path -> result Opened IoError }.

Abbreviation io := (tx nat InstructionError).

Record Candidate := mkCandidate {
  ca_depth : nat;
  ca_position : nat;
  ca_name : string;
  ca_slot : InstructionSlot;
  ca_path : path;
  ca_resolved : path;
  ca_identity : FileIdentity;
}.

(** The key of [sort_by_key]: depth, slot, position. *)
Definition slot_index (slot : InstructionSlot) : nat := match slot with SlotAgent => 0 | SlotClaude => 1 end.
Definition by_slot (a b : Candidate) : Prop :=
  ca_depth a < ca_depth b \/
  ca_depth a = ca_depth b /\
    (slot_index (ca_slot a) < slot_index (ca_slot b) \/
     slot_index (ca_slot a) = slot_index (ca_slot b) /\ ca_position a <= ca_position b).
#[export] Instance by_slot_dec a b : Decision (by_slot a b).
Proof. unfold by_slot. apply _. Defined.

(** [chunk_by]: runs of elements that agree with their neighbour. *)
Fixpoint chunk_by {A} (same : A -> A -> bool) (l : list A) : list (list A) :=
  match l with
  | [] => []
  | a :: l =>
      match chunk_by same l with
      | (b :: group) :: groups => if same a b then (a :: b :: group) :: groups else [a] :: (b :: group) :: groups
      | groups => [a] :: groups
      end
  end.

Definition same_slot (a b : Candidate) : bool :=
  bool_decide (ca_depth a = ca_depth b) && bool_decide (ca_slot a = ca_slot b).

(** The first candidate of each file identity. *)
Fixpoint keep_distinct (kept group : list Candidate) : list Candidate :=
  match group with
  | [] => kept
  | c :: group =>
      if existsb (fun seen => bool_decide (ca_identity seen = ca_identity c)) kept then keep_distinct kept group
      else keep_distinct (kept ++ [c]) group
  end.

(** The last order: the innermost scope first, then the table's own. *)
Definition by_precedence (a b : nat * nat * InstructionEntry) : Prop :=
  b.1.1 < a.1.1 \/ a.1.1 = b.1.1 /\ a.1.2 <= b.1.2.
#[export] Instance by_precedence_dec a b : Decision (by_precedence a b).
Proof. unfold by_precedence. apply _. Defined.

Section Discovery.
Variable fs : nat -> Fs.

(** One call of the file system, at its moment. *)
Definition sys {A} (call : Fs -> result A IoError) : io (result A IoError) :=
  fun now => Ok (call (fs now), S now).

(** [open_regular] *)
Definition open_regular (resolved path : path) : io (Opened * Metadata) :=
  let! opened := sys (fun fs => fs_open fs resolved) in
  match opened with
  | Err source => tx_err (InstructionReadFailed path source)
  | Ok file =>
      match op_metadata file with
      | Err source => tx_err (InstructionReadFailed path source)
      | Ok metadata => if me_is_file metadata then tx_ret (file, metadata) else tx_err (NotRegular path)
      end
  end.

(** [confined_candidate] *)
Definition confined_candidate (path scope : path) : io (option (Instructions.path * FileIdentity)) :=
  let! answer := sys (fun fs => fs_canonicalize fs path) in
  match answer with
  | Err IoNotFound => tx_ret None
  | Err source => tx_err (MetadataFailed path source)
  | Ok resolved =>
      if bool_decide (scope `prefix_of` resolved) then
        let! opened := open_regular resolved path in
        tx_ret (Some (resolved, me_identity opened.2))
      else tx_err (OutOfScope path scope)
  end.

(** [read_instruction] *)
Definition read_instruction (resolved path : path) : io string :=
  let! opened := open_regular resolved path in
  match op_read opened.1 (INSTRUCTION_FILE_MAX_BYTES + 1) with
  | Err source => tx_err (InstructionReadFailed path source)
  | Ok raw =>
      if (INSTRUCTION_FILE_MAX_BYTES <? slen raw)%Z then tx_err (TooLarge path INSTRUCTION_FILE_MAX_BYTES)
      else if utf8_valid (bytes_of raw) then tx_ret raw
      else tx_err (NotText path)
  end.

(** The candidates of one resolved scope, then of the chain. *)
Fixpoint scope_candidates (depth : nat) (scope resolved_scope : path) (position : nat)
    (files : list (string * InstructionSlot)) : io (list Candidate) :=
  match files with
  | [] => tx_ret []
  | (name, slot) :: files =>
      let path := scope ++ [name] in
      let! candidate := confined_candidate path resolved_scope in
      let! rest := scope_candidates depth scope resolved_scope (S position) files in
      tx_ret match candidate with
             | Some (resolved, file) => mkCandidate depth position name slot path resolved file :: rest
             | None => rest
             end
  end.

Fixpoint chain_candidates (depth : nat) (scopes : list path) : io (list Candidate) :=
  match scopes with
  | [] => tx_ret []
  | scope :: scopes =>
      let! answer := sys (fun fs => fs_canonicalize fs scope) in
      match answer with
      | Err IoNotFound => chain_candidates (S depth) scopes
      | Err source => tx_err (MetadataFailed scope source)
      | Ok resolved_scope =>
          let! here := scope_candidates depth scope resolved_scope 0 INSTRUCTION_FILES in
          let! rest := chain_candidates (S depth) scopes in
          tx_ret (here ++ rest)
      end
  end.

Definition scope_at (scopes : list path) (depth : nat) : path := default ["."] (scopes !! depth).

(** The entries of the kept candidates of one group. *)
Fixpoint load_kept (scopes : list path) (kept : list Candidate) : io (list (nat * nat * InstructionEntry)) :=
  match kept with
  | [] => tx_ret []
  | c :: kept =>
      let! text := read_instruction (ca_resolved c) (ca_path c) in
      let! rest := load_kept scopes kept in
      tx_ret ((ca_depth c, ca_position c,
               mkEntry (ca_slot c) (ca_name c) (ca_path c) (scope_at scopes (ca_depth c)) text) :: rest)
  end.

(** The conflict of one group. *)
Definition group_conflict (scopes : list path) (kept : list Candidate) : list InstructionConflict :=
  match kept with
  | c :: _ :: _ => [mkConflict (ca_slot c) (scope_at scopes (ca_depth c)) (map ca_path kept)]
  | _ => []
  end.

Fixpoint load_groups (scopes : list path) (groups : list (list Candidate))
    : io (list (nat * nat * InstructionEntry) * list InstructionConflict) :=
  match groups with
  | [] => tx_ret ([], [])
  | group :: groups =>
      let kept := keep_distinct [] group in
      let! found := load_kept scopes kept in
      let! rest := load_groups scopes groups in
      tx_ret (found ++ rest.1, group_conflict scopes kept ++ rest.2)
  end.

(** [InstructionSet::discover] *)
Definition discover (scopes : list path) : io InstructionSet :=
  let! candidates := chain_candidates 0 scopes in
  let! found := load_groups scopes (chunk_by same_slot (merge_sort by_slot candidates)) in
  tx_ret (mkSet (map snd (merge_sort by_precedence found.1)) found.2).
End Discovery.

(** [InstructionSet::effective] *)
Definition effective (slot : InstructionSlot) (set : InstructionSet) : option InstructionEntry :=
  find (fun entry => bool_decide (ie_slot entry = slot)) (is_entries set).

(** * Properties

    What a discovery of instructions finds, whatever happens to the file system
    meanwhile: every entry was read from a regular file under its scope, and a slot
    two files of one scope declare is a conflict that names them. *)

Lemma elem_of_concat {A} (x : A) (ls : list (list A)) : x ∈ concat ls <-> exists l, l ∈ ls /\ x ∈ l.
Proof.
  rewrite list_elem_of_In, in_concat. split; intros (l & H1 & H2); exists l; by rewrite ?list_elem_of_In in *.
Qed.

(** * Runs of equal elements *)

Section Chunks.
Context {A K : Type} (same : A -> A -> bool) (key : A -> K) (le : relation A).
Hypothesis same_key : forall a b, same a b = true <-> key a = key b.
Hypothesis key_between : forall a b c, le a b -> le b c -> key a = key c -> key a = key b.

Lemma chunk_by_concat l : concat (chunk_by same l) = l.
Proof using Type.
  induction l as [|a l IH]; [done|]. cbn [chunk_by].
  destruct (chunk_by same l) as [|[|b group] groups]; cbn in IH |- *; [by rewrite <- IH|by rewrite <- IH|].
  destruct (same a b); cbn; by rewrite <- IH.
Qed.

Lemma chunk_by_nonempty l group : group ∈ chunk_by same l -> group <> [].
Proof using Type.
  revert group. induction l as [|a l IH]; intros group; [by intros ?%not_elem_of_nil|]. cbn [chunk_by].
  destruct (chunk_by same l) as [|[|b g] groups].
  - by intros ->%list_elem_of_singleton.
  - intros _ ->. exfalso. by apply (IH []); [left|].
  - destruct (same a b); intros [->|Hg]%elem_of_cons; try done; apply IH; [by right|done].
Qed.

(** In a sorted list the first run holds every element of its key. *)
Lemma chunk_by_first l group groups :
  StronglySorted le l -> chunk_by same l = group :: groups ->
  (forall a b, a ∈ group -> b ∈ group -> key a = key b) /\ (forall a b, a ∈ group -> b ∈ concat groups -> key a <> key b).
Proof using same_key key_between.
  revert group groups. induction l as [|x l IH]; intros group groups Hs; [done|].
  apply StronglySorted_inv in Hs as [Hs Hx]. cbn [chunk_by].
  destruct (chunk_by same l) as [|[|b g] gs] eqn:Hc.
  - intros [= <- <-]. split; [|by intros a c _ ?%not_elem_of_nil].
    by intros a c ->%list_elem_of_singleton ->%list_elem_of_singleton.
  - exfalso. eapply (chunk_by_nonempty l []); [rewrite Hc; by left|done].
  - destruct (IH (b :: g) gs Hs eq_refl) as [Hin Hout].
    assert (Hl : l = b :: g ++ concat gs) by (pose proof (chunk_by_concat l) as E; rewrite Hc in E; by rewrite <- E).
    destruct (same x b) eqn:Hxb; intros [= <- <-].
    + apply same_key in Hxb. split.
      * intros a c [->|Ha]%elem_of_cons [->|Hc']%elem_of_cons; [done| | |by apply Hin].
        -- rewrite Hxb. apply Hin; [by left|done].
        -- rewrite Hxb. apply Hin; [done|by left].
      * intros a c [->|Ha]%elem_of_cons Hc'; [|by apply Hout]. rewrite Hxb. apply Hout; [by left|done].
    + split; [by intros a c ->%list_elem_of_singleton ->%list_elem_of_singleton|].
      intros a c ->%list_elem_of_singleton Hc' E. apply not_true_iff_false in Hxb. apply Hxb, same_key.
      rewrite Hl in Hs, Hx. apply Forall_cons in Hx as [Hxb' _]. apply StronglySorted_inv in Hs as [_ Hb].
      cbn in Hc'. apply elem_of_cons in Hc' as [->|Hc']; [done|].
      apply (key_between x b c); [done| |done]. rewrite Forall_forall in Hb. by apply Hb.
Qed.

(** Elements of one key are in one run. *)
Lemma chunk_by_together l g1 g2 a b :
  StronglySorted le l -> g1 ∈ chunk_by same l -> g2 ∈ chunk_by same l -> a ∈ g1 -> b ∈ g2 -> key a = key b -> g1 = g2.
Proof using same_key key_between.
  revert g1 g2 a b. induction l as [|x l IH]; intros g1 g2 a b Hs; [by intros ?%not_elem_of_nil|].
  destruct (chunk_by same (x :: l)) as [|group groups] eqn:Hg; [by intros ?%not_elem_of_nil|].
  destruct (chunk_by_first (x :: l) group groups Hs Hg) as [_ Hout]. apply StronglySorted_inv in Hs as [Hs _].
  assert (Hsub : forall g, g ∈ groups -> g ∈ chunk_by same l).
  { cbn [chunk_by] in Hg. destruct (chunk_by same l) as [|[|y ys] gs]; [|simplify_eq|]; simplify_eq; auto.
    destruct (same x y); simplify_eq; auto. intros g Hin. by right. }
  assert (Hlater : forall g z, g ∈ groups -> z ∈ g -> z ∈ concat groups).
  { intros g z Hgs Hz. apply elem_of_concat. by exists g. }
  intros [->|H1]%elem_of_cons [->|H2]%elem_of_cons Ha Hb E; [done| | |].
  - exfalso. by apply (Hout a b); [|eapply Hlater|].
  - exfalso. by apply (Hout b a); [|eapply Hlater|].
  - by apply (IH g1 g2 a b); [|apply Hsub|apply Hsub|..].
Qed.

(** The elements of a run share their key. *)
Lemma chunk_by_keys l g a b : StronglySorted le l -> g ∈ chunk_by same l -> a ∈ g -> b ∈ g -> key a = key b.
Proof using same_key key_between.
  revert g. induction l as [|x l IH]; intros g Hs; [by intros ?%not_elem_of_nil|].
  destruct (chunk_by same (x :: l)) as [|group groups] eqn:Hg; [by intros ?%not_elem_of_nil|].
  destruct (chunk_by_first (x :: l) group groups Hs Hg) as [Hin _]. apply StronglySorted_inv in Hs as [Hs _].
  intros [->|H1]%elem_of_cons Ha Hb; [by apply Hin|]. apply (IH g); try done. cbn [chunk_by] in Hg.
  destruct (chunk_by same l) as [|[|y ys] gs]; simplify_eq; [by apply not_elem_of_nil in H1|done|].
  destruct (same x y); simplify_eq; [by right|done].
Qed.
End Chunks.

Lemma same_slot_key a b : same_slot a b = true <-> (ca_depth a, ca_slot a) = (ca_depth b, ca_slot b).
Proof. unfold same_slot. rewrite andb_true_iff, !bool_decide_eq_true. split; [by intros [-> ->]|by intros [= -> ->]]. Qed.

#[export] Instance by_slot_trans : Transitive by_slot.
Proof. intros a b c. unfold by_slot. lia. Qed.
#[export] Instance by_slot_total : Total by_slot.
Proof. intros a b. unfold by_slot. lia. Qed.
#[export] Instance by_precedence_trans : Transitive by_precedence.
Proof. intros a b c. unfold by_precedence. lia. Qed.
#[export] Instance by_precedence_total : Total by_precedence.
Proof. intros a b. unfold by_precedence. lia. Qed.

Lemma slot_between a b c :
  by_slot a b -> by_slot b c -> (ca_depth a, ca_slot a) = (ca_depth c, ca_slot c) -> (ca_depth a, ca_slot a) = (ca_depth b, ca_slot b).
Proof.
  unfold by_slot. intros H1 H2 [= Hd Hs]. rewrite Hd in H1 |- *. rewrite Hs in H1 |- *.
  assert (ca_depth b = ca_depth c) by lia. f_equal; [done|].
  destruct (ca_slot b), (ca_slot c); cbn in *; try done; lia.
Qed.

Lemma keep_distinct_subset kept group c : c ∈ keep_distinct kept group -> c ∈ kept \/ c ∈ group.
Proof.
  revert kept. induction group as [|x group IH]; intros kept; cbn; [by left|]. destruct (existsb _ _).
  - intros [Hc|Hc]%IH; [by left|right; by right].
  - intros [Hc|Hc]%IH; [|right; by right]. apply elem_of_app in Hc as [Hc| ->%list_elem_of_singleton]; [by left|right; by left].
Qed.

(** * One run *)

Section Discovery.
Variable fs : nat -> Fs.

(** What a candidate was found by: two calls of the file system. *)
Record found_candidate (scopes : list path) (c : Candidate) : Prop := {
  fc_scope : exists scope, scopes !! ca_depth c = Some scope /\ ca_path c = scope ++ [ca_name c] /\
    exists before now resolved_scope, fs_canonicalize (fs before) scope = Ok resolved_scope /\
      fs_canonicalize (fs now) (ca_path c) = Ok (ca_resolved c) /\ resolved_scope `prefix_of` ca_resolved c;
  fc_file : INSTRUCTION_FILES !! ca_position c = Some (ca_name c, ca_slot c);
}.

Lemma confined_Ok path scope now c now' :
  confined_candidate fs path scope now = Ok (c, now') ->
  forall resolved file, c = Some (resolved, file) ->
    exists now, fs_canonicalize (fs now) path = Ok resolved /\ scope `prefix_of` resolved.
Proof.
  unfold confined_candidate, sys. intros H. apply tx_bind_Ok in H as (answer & n & [= <- <-] & H).
  destruct (fs_canonicalize (fs now) path) as [resolved|[|code]] eqn:Hc; [| |done].
  - case_bool_decide as Hp; [|done]. apply tx_bind_Ok in H as (opened & n & _ & [= <- _]). intros ? ? [= <- _]. by exists now.
  - injection H as <- _. done.
Qed.

Lemma scope_candidates_Ok depth scope resolved_scope position files now cs now' :
  scope_candidates fs depth scope resolved_scope position files now = Ok (cs, now') ->
  forall c, c ∈ cs ->
    ca_depth c = depth /\ ca_path c = scope ++ [ca_name c] /\
    (exists now, fs_canonicalize (fs now) (ca_path c) = Ok (ca_resolved c) /\ resolved_scope `prefix_of` ca_resolved c) /\
    exists i, ca_position c = position + i /\ files !! i = Some (ca_name c, ca_slot c).
Proof.
  revert position now cs now'. induction files as [|[name slot] files IH]; intros position now cs now'; cbn [scope_candidates].
  { intros [= <- _] c ?%not_elem_of_nil. done. }
  intros H. apply tx_bind_Ok in H as (candidate & n1 & Hc & H). apply tx_bind_Ok in H as (rest & n2 & Hr & H).
  pose proof (confined_Ok _ _ _ _ _ Hc) as Hconf. pose proof (IH _ _ _ _ Hr) as Hrest. injection H as <- _.
  assert (Hlater : forall c, c ∈ rest -> ca_depth c = depth /\ ca_path c = scope ++ [ca_name c] /\
    (exists now, fs_canonicalize (fs now) (ca_path c) = Ok (ca_resolved c) /\ resolved_scope `prefix_of` ca_resolved c) /\
    exists i, ca_position c = position + i /\ ((name, slot) :: files) !! i = Some (ca_name c, ca_slot c)).
  { intros c Hin. destruct (Hrest c Hin) as (? & ? & ? & i & Hi & Hf). split_and!; [done..|]. exists (S i). split; [lia|done]. }
  destruct candidate as [[resolved file]|]; [|exact Hlater].
  intros c [->|Hin]%elem_of_cons; [|by apply Hlater]. split_and!; [done|done|by eapply Hconf|]. exists 0. split; [cbn; lia|done].
Qed.

Lemma chain_candidates_Ok depth scopes now cs now' :
  chain_candidates fs depth scopes now = Ok (cs, now') ->
  forall c, c ∈ cs -> exists i, ca_depth c = depth + i /\
    (exists scope, scopes !! i = Some scope /\ ca_path c = scope ++ [ca_name c] /\
       exists before now resolved_scope, fs_canonicalize (fs before) scope = Ok resolved_scope /\
         fs_canonicalize (fs now) (ca_path c) = Ok (ca_resolved c) /\ resolved_scope `prefix_of` ca_resolved c) /\
    INSTRUCTION_FILES !! ca_position c = Some (ca_name c, ca_slot c).
Proof.
  revert depth now cs now'. induction scopes as [|scope scopes IH]; intros depth now cs now'; cbn [chain_candidates].
  { intros [= <- _] c ?%not_elem_of_nil. done. }
  intros H. apply tx_bind_Ok in H as (answer & n1 & Ha & H). injection Ha as <- <-.
  assert (Hlater : forall n cs n', chain_candidates fs (S depth) scopes n = Ok (cs, n') -> forall c, c ∈ cs ->
    exists i, ca_depth c = depth + i /\
    (exists scope', (scope :: scopes) !! i = Some scope' /\ ca_path c = scope' ++ [ca_name c] /\
       exists before now resolved_scope, fs_canonicalize (fs before) scope' = Ok resolved_scope /\
         fs_canonicalize (fs now) (ca_path c) = Ok (ca_resolved c) /\ resolved_scope `prefix_of` ca_resolved c) /\
    INSTRUCTION_FILES !! ca_position c = Some (ca_name c, ca_slot c)).
  { intros n cs0 n' Hcs c Hin. destruct (IH _ _ _ _ Hcs c Hin) as (i & Hi & Hs & Hf). exists (S i). split_and!; [lia|done..]. }
  destruct (fs_canonicalize (fs now) scope) as [resolved_scope|[|code]] eqn:Hcan; [|by eapply Hlater|done].
  apply tx_bind_Ok in H as (here & n2 & Hh & H). apply tx_bind_Ok in H as (rest & n3 & Hr & H). injection H as <- _.
  intros c [Hin|Hin]%elem_of_app; [|by eapply Hlater].
  destruct (scope_candidates_Ok _ _ _ _ _ _ _ _ Hh c Hin) as (Hd & Hp & (m & Hm & Hpre) & i & Hi & Hf).
  exists 0. split_and!; [lia| |by rewrite Hi]. exists scope. split_and!; [done|done|]. by exists now, m, resolved_scope.
Qed.

(** What an entry was loaded by: an open of a regular file, and its read. *)
Definition loaded (scopes : list path) (c : Candidate) (t : nat * nat * InstructionEntry) : Prop :=
  t.1 = (ca_depth c, ca_position c) /\ ie_slot t.2 = ca_slot c /\ ie_name t.2 = ca_name c /\ ie_path t.2 = ca_path c /\
  ie_scope t.2 = scope_at scopes (ca_depth c) /\
  exists now file metadata, fs_open (fs now) (ca_resolved c) = Ok file /\ op_metadata file = Ok metadata /\
    me_is_file metadata = true /\ op_read file (INSTRUCTION_FILE_MAX_BYTES + 1) = Ok (ie_text t.2) /\
    (slen (ie_text t.2) <= INSTRUCTION_FILE_MAX_BYTES)%Z /\ utf8_valid (bytes_of (ie_text t.2)) = true.

Lemma read_Ok resolved path now text now' :
  read_instruction fs resolved path now = Ok (text, now') ->
  exists now file metadata, fs_open (fs now) resolved = Ok file /\ op_metadata file = Ok metadata /\
    me_is_file metadata = true /\ op_read file (INSTRUCTION_FILE_MAX_BYTES + 1) = Ok text /\
    (slen text <= INSTRUCTION_FILE_MAX_BYTES)%Z /\ utf8_valid (bytes_of text) = true.
Proof.
  unfold read_instruction. intros H. apply tx_bind_Ok in H as ([file metadata] & n1 & Ho & H).
  unfold open_regular in Ho. apply tx_bind_Ok in Ho as (answer & n2 & Ha & Ho). injection Ha as <- _.
  destruct (fs_open (fs now) resolved) as [file'|] eqn:Hopen; [|done]. destruct (op_metadata file') as [m|] eqn:Hm; [|done].
  destruct (me_is_file m) eqn:Hf; [|done]. injection Ho as -> -> _. cbn [fst] in H.
  destruct (op_read file _) as [raw|] eqn:Hr; [|done]. destruct (Z.ltb_spec INSTRUCTION_FILE_MAX_BYTES (slen raw)); [done|].
  destruct (utf8_valid (bytes_of raw)) eqn:Hu; [|done]. injection H as <- _. exists now, file, metadata. by split_and!.
Qed.

Lemma load_kept_Ok scopes kept now ts now' :
  load_kept fs scopes kept now = Ok (ts, now') -> Forall2 (loaded scopes) kept ts.
Proof.
  revert now ts now'. induction kept as [|c kept IH]; intros now ts now'; cbn [load_kept]; [by intros [= <- _]; constructor|].
  intros H. apply tx_bind_Ok in H as (text & n1 & Ht & H). apply tx_bind_Ok in H as (rest & n2 & Hr & H). injection H as <- _.
  constructor; [|by eapply IH]. unfold loaded. cbn. split_and!; [done..|]. by eapply read_Ok.
Qed.

Lemma load_groups_Ok scopes groups now found now' :
  load_groups fs scopes groups now = Ok (found, now') ->
  Forall2 (loaded scopes) (concat (map (keep_distinct []) groups)) found.1 /\
  found.2 = concat (map (fun group => group_conflict scopes (keep_distinct [] group)) groups).
Proof.
  revert now found now'. induction groups as [|group groups IH]; intros now found now'; cbn [load_groups].
  { by intros [= <- _]. }
  intros H. apply tx_bind_Ok in H as (here & n1 & Hh & H). apply tx_bind_Ok in H as (rest & n2 & Hr & H). injection H as <- _.
  apply load_kept_Ok in Hh. apply IH in Hr as [Hrest Hconf]. cbn. split; [by apply Forall2_app|by rewrite Hconf].
Qed.
End Discovery.

(** * Discoveries *)

Section Guarantees.
Variable fs : nat -> Fs.

(** The parts of a discovery that answered. *)
Lemma discover_Ok scopes now set now' :
  discover fs scopes now = Ok (set, now') ->
  exists cs found, let groups := chunk_by same_slot (merge_sort by_slot cs) in
    Forall (found_candidate fs scopes) cs /\ Forall2 (loaded fs scopes) (concat (map (keep_distinct []) groups)) found /\
    is_entries set = map snd (merge_sort by_precedence found) /\
    is_conflicts set = concat (map (fun group => group_conflict scopes (keep_distinct [] group)) groups).
Proof.
  unfold discover. intros H. apply tx_bind_Ok in H as (cs & n1 & Hc & H). apply tx_bind_Ok in H as (found & n2 & Hf & H).
  injection H as <- _. apply load_groups_Ok in Hf as [Hf Hconf]. exists cs, found.1. split_and!; [|done|done|done].
  rewrite Forall_forall. intros c Hin. destruct (chain_candidates_Ok _ _ _ _ _ _ Hc c Hin) as (i & Hi & Hs & Hfile).
  cbn in Hi. subst i. by constructor.
Qed.

Lemma in_groups cs group c :
  group ∈ chunk_by same_slot (merge_sort by_slot cs) -> c ∈ keep_distinct [] group -> c ∈ group /\ c ∈ cs.
Proof.
  intros Hg [?%not_elem_of_nil|Hc]%keep_distinct_subset; [done|]. split; [done|].
  rewrite <- (merge_sort_Permutation by_slot), <- (chunk_by_concat same_slot (merge_sort by_slot cs)).
  apply elem_of_concat. by exists group.
Qed.

Lemma in_kept cs c :
  c ∈ concat (map (keep_distinct []) (chunk_by same_slot (merge_sort by_slot cs))) ->
  exists group, group ∈ chunk_by same_slot (merge_sort by_slot cs) /\ c ∈ keep_distinct [] group /\ c ∈ group /\ c ∈ cs.
Proof.
  intros (kept & Hk & Hc)%elem_of_concat. apply list_elem_of_fmap in Hk as (group & -> & Hg). exists group. destruct (in_groups cs group c Hg Hc). done.
Qed.

Lemma group_conflict_In scopes kept conflict :
  conflict ∈ group_conflict scopes kept <->
  exists k0 k1 rest, kept = k0 :: k1 :: rest /\
    conflict = mkConflict (ca_slot k0) (scope_at scopes (ca_depth k0)) (map ca_path (k0 :: k1 :: rest)).
Proof.
  destruct kept as [|k0 [|k1 rest]]; cbn [group_conflict].
  1-2: split; [by intros ?%not_elem_of_nil|by intros (? & ? & ? & ? & _)].
  rewrite list_elem_of_singleton. split; [intros ->; by exists k0, k1, rest|]. by intros (? & ? & ? & [= -> -> ->] & ->).
Qed.

(** The sources of a conflict are entries. *)
Lemma kept_entry scopes cs found g c :
  Forall2 (loaded fs scopes) (concat (map (keep_distinct []) (chunk_by same_slot (merge_sort by_slot cs)))) found ->
  g ∈ chunk_by same_slot (merge_sort by_slot cs) -> c ∈ keep_distinct [] g ->
  exists e, e ∈ map snd (merge_sort by_precedence found) /\ ie_path e = ca_path c /\ ie_slot e = ca_slot c /\
    ie_scope e = scope_at scopes (ca_depth c).
Proof.
  intros Hf Hg Hc.
  assert (Hall : c ∈ concat (map (keep_distinct []) (chunk_by same_slot (merge_sort by_slot cs)))).
  { apply elem_of_concat. exists (keep_distinct [] g). split; [|done]. by apply list_elem_of_fmap_2. }
  apply list_elem_of_lookup in Hall as [i Hi]. destruct (Forall2_lookup_l _ _ _ _ _ Hf Hi) as (t & Ht & Hl).
  exists t.2. destruct Hl as (_ & Hs & _ & Hp & Hsc & _). split_and!; try done.
  apply list_elem_of_fmap_2. rewrite (merge_sort_Permutation by_precedence). by eapply list_elem_of_lookup_2.
Qed.

Lemma listed_slot i name slot : INSTRUCTION_FILES !! i = Some (name, slot) -> fold_name name = Some slot.
Proof. destruct i as [|[|[|[|i]]]]; cbn; intros [= <- <-] || done; reflexivity. Qed.

Lemma scope_at_depth scopes c : found_candidate fs scopes c -> scopes !! ca_depth c = Some (scope_at scopes (ca_depth c)).
Proof. intros [(scope & Hs & _) _]. unfold scope_at. by rewrite Hs. Qed.

(** An entry of a discovery with the candidate it was loaded for. *)
Lemma entry_candidate scopes cs found e :
  Forall (found_candidate fs scopes) cs ->
  Forall2 (loaded fs scopes) (concat (map (keep_distinct []) (chunk_by same_slot (merge_sort by_slot cs)))) found ->
  e ∈ map snd (merge_sort by_precedence found) ->
  exists c t group, e = t.2 /\ t ∈ found /\ loaded fs scopes c t /\ found_candidate fs scopes c /\
    group ∈ chunk_by same_slot (merge_sort by_slot cs) /\ c ∈ keep_distinct [] group /\ c ∈ group.
Proof.
  intros Hcs Hf (t & -> & Ht)%list_elem_of_fmap. rewrite (merge_sort_Permutation by_precedence) in Ht.
  apply list_elem_of_lookup in Ht as [i Hi]. destruct (Forall2_lookup_r _ _ _ _ _ Hf Hi) as (c & Hc & Hl).
  apply list_elem_of_lookup_2 in Hi, Hc. apply in_kept in Hc as (group & Hg & Hk & Hin & Hin').
  exists c, t, group. split_and!; try done. rewrite Forall_forall in Hcs. by apply Hcs.
Qed.

(** Whatever happens to the file system between the calls of a discovery, each of
    its entries is a candidate file of one of the scopes, in the slot its name has,
    whose path resolved under the resolved scope, and whose text is what a regular
    file at the resolved path read as, valid text within the limit; the effective
    entry of a slot is of the innermost scope that declares it. *)
Theorem discovered_entries_are_confined scopes now set now' :
  NoDup scopes -> discover fs scopes now = Ok (set, now') ->
  (forall e, e ∈ is_entries set ->
     ie_scope e ∈ scopes /\ ie_path e = ie_scope e ++ [ie_name e] /\ fold_name (ie_name e) = Some (ie_slot e) /\
     (slen (ie_text e) <= INSTRUCTION_FILE_MAX_BYTES)%Z /\ utf8_valid (bytes_of (ie_text e)) = true /\
     exists t0 t1 t2 scope resolved file metadata,
       fs_canonicalize (fs t0) (ie_scope e) = Ok scope /\ fs_canonicalize (fs t1) (ie_path e) = Ok resolved /\
       scope `prefix_of` resolved /\ fs_open (fs t2) resolved = Ok file /\ op_metadata file = Ok metadata /\
       me_is_file metadata = true /\ op_read file (INSTRUCTION_FILE_MAX_BYTES + 1) = Ok (ie_text e)) /\
  (forall slot e e' depth depth', effective slot set = Some e -> e' ∈ is_entries set -> ie_slot e' = slot ->
     scopes !! depth = Some (ie_scope e) -> scopes !! depth' = Some (ie_scope e') -> depth' <= depth).
Proof.
  intros Hnd (cs & found & Hcs & Hf & He & _)%discover_Ok. rewrite He. split.
  - intros e (c & t & group & -> & _ & Hl & Hc & _)%(entry_candidate scopes cs found e Hcs Hf).
    destruct Hl as (_ & -> & -> & -> & -> & t2 & file & metadata & Ho & Hm & Hr & Hread & Hlen & Hutf).
    pose proof (scope_at_depth _ _ Hc) as Hs. destruct Hc as [(scope & Hsc & Hp & t0 & t1 & rs & H0 & H1 & Hpre) Hfile].
    pose proof (eq_trans (eq_sym Hs) Hsc) as E. injection E as E. rewrite E. split_and!; try done.
    + by eapply list_elem_of_lookup_2.
    + by eapply listed_slot.
    + exists t0, t1, t2, rs, (ca_resolved c), file, metadata. by split_and!.
  - intros slot e e' depth depth' Heff He' Hslot Hd Hd'. unfold effective in Heff. rewrite He in Heff.
    unfold find in Heff. apply bind_Some in Heff as (i & Hi & Hat).
    apply position_Some in Hi as (pre & y & post & Hsplit & <- & _ & Hpre).
    rewrite Hsplit, list_lookup_middle in Hat by done. injection Hat as ->.
    pose proof (StronglySorted_merge_sort by_precedence found) as Hsorted.
    apply map_eq_app in Hsplit as (l1 & l2 & Hl & Hl1 & Hl2). apply map_eq_cons in Hl2 as (t & l3 & -> & <- & _).
    assert (Hdepth : forall t d, t ∈ found -> scopes !! d = Some (ie_scope t.2) -> d = t.1.1).
    { intros x d Hx Hxd. apply list_elem_of_lookup in Hx as [i Hi].
      destruct (Forall2_lookup_r _ _ _ _ _ Hf Hi) as (c & Hc & (-> & _ & _ & _ & Hsc & _)). cbn. rewrite Hsc in Hxd.
      apply list_elem_of_lookup_2, in_kept in Hc as (group & _ & _ & _ & Hc). rewrite Forall_forall in Hcs.
      eapply NoDup_lookup; [done|exact Hxd|]. by apply scope_at_depth, Hcs. }
    assert (Hfound : forall x, x ∈ merge_sort by_precedence found -> x ∈ found).
    { intros x. by rewrite (merge_sort_Permutation by_precedence). }
    apply list_elem_of_fmap in He' as (t' & -> & Ht').
    rewrite (Hdepth t depth), (Hdepth t' depth'); [|by apply Hfound|done| |done].
    2:{ apply Hfound. rewrite Hl. apply elem_of_app. right. by left. }
    rewrite Hl in Hsorted, Ht'. apply StronglySorted_app in Hsorted as (_ & _ & [Hfirst _]%StronglySorted_cons).
    apply elem_of_app in Ht' as [Ht'|[->|Ht']%elem_of_cons]; [|done|].
    + exfalso. rewrite Forall_forall in Hpre. specialize (Hpre t'.2).
      rewrite bool_decide_eq_false in Hpre. apply Hpre; [|done]. rewrite <- Hl1. by apply list_elem_of_fmap_2.
    + rewrite Forall_forall in Hfirst. specialize (Hfirst t' Ht'). unfold by_precedence in Hfirst. lia.
Qed.

(** A slot two files of one scope declare is a conflict that names both, and a
    conflict names entries of its scope and slot alone, two at least: no declaration
    is dropped in silence. *)
Theorem slots_declared_twice_conflict scopes now set now' :
  NoDup scopes -> discover fs scopes now = Ok (set, now') ->
  (forall e1 e2, e1 ∈ is_entries set -> e2 ∈ is_entries set -> ie_path e1 <> ie_path e2 -> ie_slot e1 = ie_slot e2 -> ie_scope e1 = ie_scope e2 ->
     exists conflict, conflict ∈ is_conflicts set /\ ic_slot conflict = ie_slot e1 /\ ic_scope conflict = ie_scope e1 /\
       ie_path e1 ∈ ic_sources conflict /\ ie_path e2 ∈ ic_sources conflict) /\
  (forall conflict, conflict ∈ is_conflicts set ->
     2 <= length (ic_sources conflict) /\
     forall p, p ∈ ic_sources conflict ->
       exists e, e ∈ is_entries set /\ ie_path e = p /\ ie_slot e = ic_slot conflict /\ ie_scope e = ic_scope conflict).
Proof.
  intros Hnd (cs & found & Hcs & Hf & He & Hconf)%discover_Ok. rewrite He, Hconf. 
  pose proof (StronglySorted_merge_sort by_slot cs) as Hsorted.
  assert (Hkeys : forall g a b, g ∈ chunk_by same_slot (merge_sort by_slot cs) -> a ∈ g -> b ∈ g ->
    ca_depth a = ca_depth b /\ ca_slot a = ca_slot b).
  { intros g a b Hg Ha Hb.
    pose proof (chunk_by_keys same_slot (fun c => (ca_depth c, ca_slot c)) by_slot same_slot_key slot_between
      _ g a b Hsorted Hg Ha Hb) as [= Ed Es]. done. }
  split.
  - intros e1 e2 (c1 & t1 & g1 & -> & _ & Hl1 & Hc1 & Hg1 & Hk1 & Hin1)%(entry_candidate scopes cs found e1 Hcs Hf)
      (c2 & t2 & g2 & -> & _ & Hl2 & Hc2 & Hg2 & Hk2 & Hin2)%(entry_candidate scopes cs found e2 Hcs Hf) Hne Hslot Hscope.
    pose proof (scope_at_depth _ _ Hc1) as Hd1. pose proof (scope_at_depth _ _ Hc2) as Hd2.
    destruct Hl1 as (_ & Hs1 & _ & Hp1 & Hsc1 & _), Hl2 as (_ & Hs2 & _ & Hp2 & Hsc2 & _).
    rewrite Hs1, Hs2 in Hslot. rewrite Hsc1, Hsc2 in Hscope. rewrite Hp1, Hp2 in Hne. rewrite Hscope in Hd1.
    assert (Hdepth : ca_depth c1 = ca_depth c2) by by eapply NoDup_lookup.
    assert (Hg : g1 = g2).
    { eapply (chunk_by_together same_slot (fun c => (ca_depth c, ca_slot c)) by_slot same_slot_key slot_between); try done.
      by rewrite Hdepth, Hslot. }
    subst g2. rewrite Hs1, Hsc1, Hp1, Hp2. set (conflicts := group_conflict scopes (keep_distinct [] g1)).
    assert (Hone : exists conflict, conflict ∈ conflicts /\ ic_slot conflict = ca_slot c1 /\
      ic_scope conflict = scope_at scopes (ca_depth c1) /\ ic_sources conflict = map ca_path (keep_distinct [] g1)).
    { subst conflicts. destruct (keep_distinct [] g1) as [|k0 [|k1 rest]] eqn:Hkept; [by apply not_elem_of_nil in Hk1| |].
      - apply list_elem_of_singleton in Hk1 as ->. by apply list_elem_of_singleton in Hk2 as ->.
      - destruct (Hkeys g1 k0 c1 Hg1) as [Ed Es]; [eapply (in_groups cs); [done|]; rewrite Hkept; by left|done|].
        eexists. split; [by apply group_conflict_In; exists k0, k1, rest|]. cbn. by rewrite Ed, Es. }
    destruct Hone as (conflict & Hin & Hcs1 & Hcs2 & Hcs3). exists conflict. split_and!; [|done|done|..].
    + apply elem_of_concat. exists conflicts. split; [|done]. apply list_elem_of_fmap. by exists g1.
    + rewrite Hcs3. by apply list_elem_of_fmap_2.
    + rewrite Hcs3. by apply list_elem_of_fmap_2.
  - intros conflict (conflicts & Hc & Hin)%elem_of_concat. apply list_elem_of_fmap in Hc as (g & -> & Hg).
    apply group_conflict_In in Hin as (k0 & k1 & rest & Hkept & ->). cbn [ic_sources ic_slot ic_scope].
    split; [cbn; lia|]. intros p (c & -> & Hc)%list_elem_of_fmap. rewrite <- Hkept in Hc.
    assert (Hk0 : k0 ∈ g) by (eapply (in_groups cs); [done|]; rewrite Hkept; by left).
    destruct (in_groups cs g c Hg Hc) as [Hcg _]. destruct (Hkeys g c k0 Hg Hcg Hk0) as [Ed Es].
    destruct (kept_entry scopes cs found g c Hf Hg Hc) as (e & Hin & Hp & Hs & Hsc).
    exists e. split_and!; [done|done|by rewrite Hs, Es|by rewrite Hsc, Ed].
Qed.
End Guarantees.

(** * A concrete tree *)

Module InstructionSamples.
Definition files : list (path * (Z * string)) :=
  [(["repo"; "AGENTS.md"], (1%Z, "outer")); (["repo"; "src"; "AGENTS.md"], (2%Z, "inner"));
   (["repo"; "src"; "agent.md"], (3%Z, "other")); (["repo"; "src"; "CLAUDE.md"], (2%Z, "inner"));
   (["repo"; "src"; "claude.md"], (2%Z, "inner"))].
Definition lookup_file (p : path) : option (Z * string) := snd <$> find (fun row => bool_decide (row.1 = p)) files.
Definition tree : Fs := mkFs
  (fun p => if bool_decide (p = ["repo"]) || bool_decide (p = ["repo"; "src"]) then Ok p
            else match lookup_file p with Some _ => Ok p | None => Err IoNotFound end)
  (fun p => match lookup_file p with
            | Some (ino, text) => Ok (mkOpened (Ok (mkMetadata true (mkIdentity 1 ino))) (fun _ => Ok text))
            | None => Err IoNotFound
            end).
Definition scopes : list path := [["repo"]; ["repo"; "src"]].

(** The inner scope comes first; the two names of one file load once; the two files
    of the agent slot conflict. *)
Definition found : InstructionSet :=
  mkSet [mkEntry SlotAgent "AGENTS.md" ["repo"; "src"; "AGENTS.md"] ["repo"; "src"] "inner";
         mkEntry SlotClaude "CLAUDE.md" ["repo"; "src"; "CLAUDE.md"] ["repo"; "src"] "inner";
         mkEntry SlotAgent "agent.md" ["repo"; "src"; "agent.md"] ["repo"; "src"] "other";
         mkEntry SlotAgent "AGENTS.md" ["repo"; "AGENTS.md"] ["repo"] "outer"]
        [mkConflict SlotAgent ["repo"; "src"] [["repo"; "src"; "AGENTS.md"]; ["repo"; "src"; "agent.md"]]].
Example discovers_the_tree : discover (fun _ => tree) scopes 0 = Ok (found, 19).
Proof. vm_compute. reflexivity. Qed.
End InstructionSamples.
Import InstructionSamples.

Lemma discovered_entries_are_confined_witness :
  Forall (fun depth => [["repo"]; ["repo"; "src"]] !! depth = Some ["repo"] -> depth <= 1) [0; 1; 2].
Proof.
  apply Forall_forall. intros depth _ Hd.
  destruct (discovered_entries_are_confined (fun _ => tree) scopes 0 found 19) as [_ Hinner].
  - apply (bool_decide_unpack _). vm_compute. exact I.
  - exact discovers_the_tree.
  - eapply (Hinner SlotAgent _ (mkEntry SlotAgent "AGENTS.md" ["repo"; "AGENTS.md"] ["repo"] "outer") 1 depth);
      [vm_compute; reflexivity| |reflexivity|reflexivity|exact Hd]. vm_compute. set_solver.
Defined.

Lemma slots_declared_twice_conflict_witness :
  exists conflict, conflict ∈ is_conflicts found /\ ic_slot conflict = SlotAgent /\ ic_scope conflict = ["repo"; "src"] /\
    ["repo"; "src"; "AGENTS.md"] ∈ ic_sources conflict /\ ["repo"; "src"; "agent.md"] ∈ ic_sources conflict.
Proof.
  destruct (slots_declared_twice_conflict (fun _ => tree) scopes 0 found 19) as [Htwice _].
  - apply (bool_decide_unpack _). vm_compute. exact I.
  - exact discovers_the_tree.
  - apply (Htwice (mkEntry SlotAgent "AGENTS.md" ["repo"; "src"; "AGENTS.md"] ["repo"; "src"] "inner")
      (mkEntry SlotAgent "agent.md" ["repo"; "src"; "agent.md"] ["repo"; "src"] "other")); try reflexivity; try discriminate.
    + vm_compute. set_solver.
    + vm_compute. set_solver.
Defined.
