(* ===== verification/Ranking.v ===== *)
(** Eligibility and ranking of connections ([src/src/model.rs]): the gates a
    candidate passes before it is ranked, the facts a task records, the order of
    the recorded catalogue rows, the effort the facts choose and the basis a
    settlement records.

    The catalogue rows this build records for a connection are a table of the
    provider adapters; the ranking takes it as a function. *)

From stdpp Require Import sorting pretty.
From Stdlib Require Import SpecFloat.
From stdpp Require Import sorting.
From S2P Require Import Prelude.
From S2P Require Import Contracts.
From S2P Require Import Requests.
From S2P Require Import Actions.
From S2P Require Import Notifications.
From S2P Require Import Store.
From S2P Require Import Routes.
From S2P Require Import Providers.
From S2P Require Import Instructions.

(** * Refusals *)

Inductive RejectionCause :=
  | RejUnknownConnection
  | RejLiveGrantRequired (kind : ConnKind)
  | RejNotEntitled
  | RejNotPurposeEligible
  | RejNotOffered
  | RejDialectMismatch
  | RejDialectUnserved (dialect : Dialect)
  | RejSendFailed (source : ProviderError)
  | RejBlindRetryRefused.

Record CandidateRejection := mkRejection { rj_connection : string; rj_cause : RejectionCause }.

Inductive ModelError :=
  | ModelConfig (source : ConfigError)
  | ModelProvider (source : ProviderError)
  | ModelInstructions (source : InstructionError)
  | RequestTooLarge (limit actual : Z)
  | WorldMismatch (frozen current : string)
  | NoEligibleCandidate (purpose : string) (rejected : list CandidateRejection)
  | EligibilityStale (attempt_id connection : string) (frozen current : Z)
  | NoAdmission (attempt_id : string)
  | AdmissionMismatch (attempt_id : string)
  | AttemptAlreadyAccounted (attempt_id : string)
  | AttemptCancelled (attempt_id : string)
  | ModelBudgetExhausted (scope : string)
  | ModelLedger (source : LedgerError)
  | ManualFallbackPending (attempt_id purpose : string)
  | NoPendingChoice (attempt_id : string)
  | ManualChoiceRejected (attempt_id connection : string) (cause : RejectionCause)
  | FallbackExhausted (attempt_id purpose : string) (rejected : list CandidateRejection) (attempted : list string)
      (source : ProviderError).

(** * Entitlements *)

Record Entitlements := mkEntitlements { en_version : Z; en_rights : option (gset string) }.

Definition unrestricted : Entitlements := mkEntitlements 0 None.

(** [Entitlements::allows] *)
Definition allows (entitlements : Entitlements) (connection : string) : bool :=
  match en_rights entitlements with Some rights => bool_decide (connection ∈ rights) | None => true end.

(** [purpose_entitled] *)
Definition purpose_entitled (purpose_def : option PurposeDef) (connection : string) : bool :=
  match purpose_def ≫= pp_eligible with Some names => bool_decide (connection ∈ names) | None => true end.

(** [entitlement_rejection] *)
Definition entitlement_rejection (entitlements : Entitlements) (purpose_def : option PurposeDef) (connection : string)
    : option RejectionCause :=
  if negb (allows entitlements connection) then Some RejNotEntitled
  else if negb (purpose_entitled purpose_def connection) then Some RejNotPurposeEligible
  else None.

(** * Task facts *)

Definition RISKY_SURFACES : list Surface := [Auth; PublicApi; Migration; Permissions; Secrets; Trust].

Record RecordedFacts := mkFacts {
  rf_surfaces : option (gset Surface);
  rf_tools_required : bool;
  rf_context_tokens_estimate : Z;
  rf_obligations : Z;
  rf_criteria : Z;
  rf_remaining_units : gmap string Z;
  rf_scope_chain : list string;
}.

Inductive RankingFacts := FactsUnknown | FactsRecorded (facts : RecordedFacts).

(** [RankingFacts::recorded] *)
Definition recorded_facts (facts : RankingFacts) : option RecordedFacts :=
  match facts with FactsUnknown => None | FactsRecorded facts => Some facts end.

(** [RecordedFacts::exhausted_scope] *)
Definition exhausted_scope (facts : RecordedFacts) : option string :=
  find (fun scope => bool_decide (rf_remaining_units facts !! scope = Some 0%Z)) (rf_scope_chain facts).

(** [RecordedFacts::risky_surface]: a [BTreeSet] is walked in its order. *)
Definition risky_surface (facts : RecordedFacts) : option Surface :=
  surfaces ← rf_surfaces facts;
  find (fun surface => bool_decide (surface ∈ RISKY_SURFACES)) (surfaces_in_order surfaces).

Record RankingChoice := mkChoice {
  rc_connection : string;
  rc_model_id : option string;
  rc_effort : option EffortLevel;
  rc_basis : option string;
}.

(** * Effort *)

Definition effort_rank (level : EffortLevel) : Z :=
  match level with Minimal => 0 | Low => 1 | Medium => 2 | High => 3 | Xhigh => 4 end.

(** [effort_floor] *)
Definition effort_floor (facts : RecordedFacts) (risky : bool) : EffortLevel * string :=
  if risky then (High, "the risky surface")
  else if (2 <=? rf_obligations facts)%Z then (Medium, "two or more obligations")
  else if (3 <=? rf_criteria facts)%Z then (Medium, "three or more criteria")
  else (Low, "the default level").

(** [min_by_key] answers the first minimum, [max_by_key] the last maximum. *)
Definition min_by_key {A} (key : A -> Z) (l : list A) : option A :=
  fold_left (fun best a => match best with
                           | Some b => Some (if (key a <? key b)%Z then a else b)
                           | None => Some a
                           end) l None.
Definition max_by_key {A} (key : A -> Z) (l : list A) : option A :=
  fold_left (fun best a => match best with
                           | Some b => Some (if (key b <=? key a)%Z then a else b)
                           | None => Some a
                           end) l None.

(** [ranked_effort] *)
Definition ranked_effort (facts : RecordedFacts) (risky : bool) (row : option CatalogModel) (resolved : EffortAssign)
    : option (EffortLevel * string) :=
  match resolved, row with
  | AutoEffort, Some row =>
      let recorded := cm_efforts row in
      let (floor, reason) := effort_floor facts risky in
      let satisfying := filter (fun level => (effort_rank floor <= effort_rank level)%Z) recorded in
      chosen ← match min_by_key effort_rank satisfying with
               | Some level => Some level
               | None => max_by_key effort_rank recorded
               end;
      Some (chosen, reason)
  | _, _ => None
  end.

(** * Candidates and their order *)

Record RankedCandidate := mkRanked {
  ra_connection : string;
  ra_row : option CatalogModel;
  ra_class : Z * Z * Z;
  ra_cost : option spec_float;
  ra_declaration : nat;
}.

(** [RankedCandidate::unknown] and [RankedCandidate::recorded] *)
Definition unknown_candidate (connection : string) (declaration : nat) : RankedCandidate :=
  mkRanked connection None (1, 1, 1)%Z None declaration.

Definition recorded_candidate (connection : string) (declaration : nat) (row : CatalogModel) (facts : RecordedFacts)
    (risky : bool) : RankedCandidate :=
  let capability := if (risky && cm_reasoning row) || (rf_tools_required facts && cm_tools row) then 0%Z else 1%Z in
  let context :=
    match cm_context_window row with
    | Some window => if (rf_context_tokens_estimate facts <=? window)%Z then 0%Z else 2%Z
    | None => 1%Z
    end in
  let cost := full_cost (cm_price row) (rf_context_tokens_estimate facts) in
  mkRanked connection (Some row) (capability, context, if is_some cost then 0%Z else 1%Z) cost declaration.

Definition then_cmp (a b : comparison) : comparison := match a with Eq => b | _ => a end.

(** [RankedCandidate::order] *)
Definition class_cmp (a b : Z * Z * Z) : comparison :=
  then_cmp (Z.compare a.1.1 b.1.1) (then_cmp (Z.compare a.1.2 b.1.2) (Z.compare a.2 b.2)).
Definition cost_cmp (a b : option spec_float) : comparison :=
  match a, b with Some a, Some b => total_cmp a b | _, _ => Eq end.
Definition candidate_order (left right : RankedCandidate) : comparison :=
  then_cmp (class_cmp (ra_class left) (ra_class right))
    (then_cmp (cost_cmp (ra_cost left) (ra_cost right)) (Nat.compare (ra_declaration left) (ra_declaration right))).

(** [sort_by] keeps the order of two candidates it does not tell apart. *)
Definition not_after (left right : RankedCandidate) : Prop := candidate_order left right <> Gt.
#[export] Instance not_after_dec left right : Decision (not_after left right).
Proof. unfold not_after. destruct (candidate_order left right); [left|left|right]; congruence. Defined.

(** [RankedCandidate::label] *)
Definition label (candidate : RankedCandidate) : string :=
  match ra_row candidate with
  | Some row => ra_connection candidate +:+ "/" +:+ cm_id row
  | None => ra_connection candidate +:+ "/unrecorded"
  end.

(** * The basis *)

(** [{:.4}] of a finite double: its exact value to four decimals, a tie to the even
    digit. *)
Definition round_half_even (numerator denominator : Z) : Z :=
  let quotient := (numerator / denominator)%Z in
  let twice := (2 * (numerator mod denominator))%Z in
  if (denominator <? twice)%Z || ((denominator =? twice)%Z && Z.odd quotient) then (quotient + 1)%Z else quotient.
Definition four_digits (n : Z) : string :=
  let digits := pretty n in
  String.substring 0 (4 - String.length digits) "0000" +:+ digits.
Definition format_fixed4 (x : spec_float) : string :=
  let '(negative, ten_thousandths) :=
    match x with
    | S754_finite s m e =>
        (s, if (0 <=? e)%Z then (10000 * Z.pos m * 2 ^ e)%Z else round_half_even (10000 * Z.pos m) (2 ^ (- e)))
    | S754_zero s => (s, 0%Z)
    | S754_infinity s => (s, 0%Z)
    | S754_nan => (false, 0%Z)
    end in
  (if (negative : bool) then "-" else EmptyString) +:+
    pretty (ten_thousandths / 10000)%Z +:+ "." +:+ four_digits (ten_thousandths mod 10000)%Z.

(** [deciding_criterion]; [<] of two doubles *)
Definition cost_lt (a b : option spec_float) : bool :=
  match a, b with Some a, Some b => bool_decide (SFcompare a b = Some Lt) | _, _ => false end.

Definition deciding_criterion (winner runner_up : RankedCandidate) (facts : RecordedFacts) (risky : option Surface)
    : string :=
  let estimate := pretty (rf_context_tokens_estimate facts) in
  let '(capability, context, price) := ra_class winner in
  let '(capability', context', price') := ra_class runner_up in
  if (capability <? capability')%Z then
    match risky, ra_row winner with
    | Some surface, Some row =>
        if cm_reasoning row then "a recorded reasoning fit for risky surface " +:+ surface_as_str surface
        else "a recorded tool modality"
    | _, _ => "a recorded tool modality"
    end
  else if (context <? context')%Z then
    if (context =? 0)%Z then "a recorded context fit for " +:+ estimate +:+ " estimated characters"
    else "an unrecorded context window"
  else if (price <? price')%Z then "the cheapest known full cost, where an unknown price ranks last"
  else if cost_lt (ra_cost winner) (ra_cost runner_up) then
    "the cheaper known full cost of " +:+ from_option format_fixed4 EmptyString (ra_cost winner) +:+ " usd over " +:+
      estimate +:+ " estimated characters"
  else "the declared order".

(** [ranked_basis] *)
Definition ranked_basis (winner : RankedCandidate) (runner_up : option RankedCandidate) (facts : RecordedFacts)
    (risky : option Surface) (effort : option (EffortLevel * string)) : string :=
  "auto ranked " +:+ label winner +:+
  match runner_up with
  | Some runner_up => " over " +:+ label runner_up +:+ " by " +:+ deciding_criterion winner runner_up facts risky
  | None => " as the only eligible connection"
  end +:+
  match effort with
  | Some (level, reason) => "; effort " +:+ effort_name level +:+ " from " +:+ reason
  | None => EmptyString
  end.

(** * Ranking *)

Section Ranking.
Variable os : TargetOs.
Variable recorded_models : string -> list CatalogModel.

(** [rank_rejection] *)
Definition rank_rejection (connections : gmap string Connection) (profiles : gmap string Profile)
    (entitlements : Entitlements) (purpose_def : option PurposeDef) (connection : string) : option RejectionCause :=
  match connections !! connection with
  | None => Some RejUnknownConnection
  | Some entry =>
      if negb (offline_usable os connections profiles connection) then Some (RejLiveGrantRequired (cx_kind entry))
      else entitlement_rejection entitlements purpose_def connection
  end.

(** The candidates of the feasible connections, in declared order. *)
Fixpoint ranked_candidates (feasible : list string) (declaration : nat) (facts : RecordedFacts) (risky : bool)
    : list RankedCandidate :=
  match feasible with
  | [] => []
  | connection :: feasible =>
      match recorded_models connection with
      | [] => [unknown_candidate connection declaration]
      | rows => map (fun row => recorded_candidate connection declaration row facts risky) rows
      end ++ ranked_candidates feasible (S declaration) facts risky
  end.

(** [rank_recorded] *)
Definition rank_recorded (purpose : string) (feasible : list string) (facts : RecordedFacts)
    (rejected : list CandidateRejection) (resolved_effort : EffortAssign) : result RankingChoice ModelError :=
  let risky := risky_surface facts in
  match merge_sort not_after (ranked_candidates feasible 0 facts (is_some risky)) with
  | [] => Err (NoEligibleCandidate purpose rejected)
  | (winner :: _) as ranked =>
      let runner_up := find (fun c => negb (bool_decide (ra_connection c = ra_connection winner))) ranked in
      let effort := ranked_effort facts (is_some risky) (ra_row winner) resolved_effort in
      Ok (mkChoice (ra_connection winner) (cm_id <$> ra_row winner) (fst <$> effort)
            (Some (ranked_basis winner runner_up facts risky effort)))
  end.

(** The loop that parts the candidates: the feasible ones and the refusals. *)
Fixpoint part_candidates (reject : string -> option RejectionCause) (candidates : list string)
    : list string * list CandidateRejection :=
  match candidates with
  | [] => ([], [])
  | name :: candidates =>
      let (feasible, rejected) := part_candidates reject candidates in
      match reject name with
      | Some cause => (feasible, mkRejection name cause :: rejected)
      | None => (name :: feasible, rejected)
      end
  end.

(** [rank_connection] *)
Definition rank_connection (purpose : string) (resolved : ResolvedPurpose) (purpose_def : option PurposeDef)
    (connections : gmap string Connection) (profiles : gmap string Profile) (entitlements : Entitlements)
    (facts : RankingFacts) : result RankingChoice ModelError :=
  match rp_model resolved with
  | Fixed fixed =>
      let? _ := map_err ModelProvider (offline_eligible os (rp_model resolved) connections profiles) in
      match entitlement_rejection entitlements purpose_def (fm_connection fixed) with
      | Some cause => Err (NoEligibleCandidate purpose [mkRejection (fm_connection fixed) cause])
      | None => Ok (mkChoice (fm_connection fixed) (Some (fm_model_id fixed)) None None)
      end
  | AutoModel pool =>
      let declared := match purpose_def ≫= pp_pool with Some pool => Some pool | None => pool end in
      let candidates := match declared with Some pool => pool | None => keys_of connections end in
      match recorded_facts facts ≫= exhausted_scope with
      | Some scope => Err (ModelBudgetExhausted scope)
      | None =>
          let (feasible, rejected) :=
            part_candidates (rank_rejection connections profiles entitlements purpose_def) candidates in
          match recorded_facts facts with
          | None =>
              match feasible with
              | connection :: _ => Ok (mkChoice connection None None None)
              | [] => Err (NoEligibleCandidate purpose rejected)
              end
          | Some facts => rank_recorded purpose feasible facts rejected (rp_effort resolved)
          end
      end
  | InheritModel => Err (NoEligibleCandidate purpose [])
  end.
End Ranking.

(** * Properties

    Lemmas on the ranking of connections: who is feasible, and that the order of
    candidates is total and transitive. *)

(** * Feasible connections *)

Section Feasible.
Variable os : TargetOs.
Variable recorded_models : string -> list CatalogModel.

Lemma part_candidates_feasible reject candidates :
  (part_candidates reject candidates).1 = filter (fun name => reject name = None) candidates.
Proof.
  induction candidates as [|name candidates IH]; [done|]. cbn [part_candidates].
  destruct (part_candidates reject candidates) as [feasible rejected]. cbn in IH. rewrite filter_cons.
  destruct (reject name) eqn:Hr; cbn; [by rewrite decide_False|by rewrite decide_True, IH].
Qed.

Lemma entitlement_rejection_None entitlements purpose_def connection :
  entitlement_rejection entitlements purpose_def connection = None <->
  allows entitlements connection = true /\ purpose_entitled purpose_def connection = true.
Proof.
  unfold entitlement_rejection. destruct (allows _ _), (purpose_entitled _ _); cbn; naive_solver.
Qed.

Lemma rank_rejection_None connections profiles entitlements purpose_def connection :
  rank_rejection os connections profiles entitlements purpose_def connection = None ->
  allows entitlements connection = true /\ purpose_entitled purpose_def connection = true.
Proof.
  unfold rank_rejection. destruct (_ !! _); [|done]. destruct (negb _); [done|]. apply entitlement_rejection_None.
Qed.

Lemma ranked_candidates_feasible feasible n facts risky c :
  c ∈ ranked_candidates recorded_models feasible n facts risky -> ra_connection c ∈ feasible.
Proof.
  revert n. induction feasible as [|connection feasible IH]; intros n; [by intros ?%not_elem_of_nil|]. cbn [ranked_candidates].
  intros [Hc|Hc]%elem_of_app; [|right; by eapply IH].
  destruct (recorded_models connection) as [|row rows].
  - apply list_elem_of_singleton in Hc as ->. by left.
  - apply list_elem_of_fmap in Hc as (row' & -> & _). by left.
Qed.

Lemma rank_recorded_feasible purpose feasible facts rejected effort choice :
  rank_recorded recorded_models purpose feasible facts rejected effort = Ok choice -> rc_connection choice ∈ feasible.
Proof.
  unfold rank_recorded. destruct (merge_sort _ _) as [|winner ranked] eqn:Hs; [done|]. intros [= <-]. cbn.
  eapply ranked_candidates_feasible. rewrite <- (merge_sort_Permutation not_after), Hs. by left.
Qed.

(** A ranked connection is entitled, for its purpose too. *)
Lemma rank_connection_entitled purpose resolved purpose_def connections profiles entitlements facts choice :
  rank_connection os recorded_models purpose resolved purpose_def connections profiles entitlements facts = Ok choice ->
  allows entitlements (rc_connection choice) = true /\ purpose_entitled purpose_def (rc_connection choice) = true.
Proof.
  unfold rank_connection. destruct (rp_model resolved) as [|pool|fixed] eqn:Hm; [done| |].
  - set (candidates := match match purpose_def ≫= pp_pool with Some _ => _ | _ => _ end with Some _ => _ | None => _ end).
    destruct (recorded_facts facts ≫= exhausted_scope); [done|].
    pose proof (part_candidates_feasible (rank_rejection os connections profiles entitlements purpose_def) candidates) as Hf.
    destruct (part_candidates _ candidates) as [feasible rejected]. cbn in Hf.
    assert (Hin : forall name, name ∈ feasible ->
      allows entitlements name = true /\ purpose_entitled purpose_def name = true).
    { intros name. rewrite Hf. intros [Hr _]%list_elem_of_filter. by apply rank_rejection_None in Hr. }
    destruct (recorded_facts facts) as [recorded|].
    + intros Hr%rank_recorded_feasible. by apply Hin.
    + destruct feasible as [|connection feasible]; [done|]. intros [= <-]. apply Hin. by left.
  - intros Hr. inv_ret. destruct (entitlement_rejection _ _ _) eqn:He; [done|]. injection Hr as <-.
    by apply entitlement_rejection_None in He.
Qed.
End Feasible.

(** * The order *)

(** Lexicographic comparison of keys. *)
Fixpoint lex_cmp (k1 k2 : list Z) : comparison :=
  match k1, k2 with
  | [], [] => Eq
  | [], _ => Lt
  | _, [] => Gt
  | x :: k1, y :: k2 => then_cmp (Z.compare x y) (lex_cmp k1 k2)
  end.

Lemma lex_cmp_opp k1 k2 : lex_cmp k2 k1 = CompOpp (lex_cmp k1 k2).
Proof.
  revert k2. induction k1 as [|x k1 IH]; intros [|y k2]; try done. cbn. rewrite (Z.compare_antisym x y), IH.
  by destruct (x ?= y)%Z.
Qed.

Lemma lex_cmp_trans k1 k2 k3 : lex_cmp k1 k2 <> Gt -> lex_cmp k2 k3 <> Gt -> lex_cmp k1 k3 <> Gt.
Proof.
  revert k2 k3. induction k1 as [|x k1 IH]; intros [|y k2] [|z k3]; try done. cbn.
  destruct (Z.compare_spec x y), (Z.compare_spec y z), (Z.compare_spec x z); cbn; try done; try lia. eauto.
Qed.

Lemma lex_cmp_app k1 k2 k1' k2' :
  length k1 = length k2 -> lex_cmp (k1 ++ k1') (k2 ++ k2') = then_cmp (lex_cmp k1 k2) (lex_cmp k1' k2').
Proof.
  revert k2. induction k1 as [|x k1 IH]; intros [|y k2] Hlen; simplify_eq/=; [done|]. rewrite IH by lia.
  by destruct (x ?= y)%Z.
Qed.

(** The place of a finite double in the order of doubles. *)
Definition float_key (x : spec_float) : list Z :=
  match x with
  | S754_zero s => [0; if s then 0 else 1; 0]
  | S754_finite false m e => [1; e; Z.pos m]
  | S754_finite true m e => [-1; - e; - Z.pos m]
  | S754_infinity _ | S754_nan => [2; 0; 0]
  end%Z.

Lemma then_cmp_Eq a : then_cmp a Eq = a.
Proof. by destruct a. Qed.

Lemma float_key_length x : length (float_key x) = 3.
Proof. by destruct x as [| | |[]]. Qed.

Lemma total_cmp_opp a b : total_cmp b a = CompOpp (total_cmp a b).
Proof.
  destruct a as [[]|[]| |[] m e], b as [[]|[]| |[] m' e']; try done; cbn; rewrite (Z.compare_antisym e e').
  all: destruct (e ?= e')%Z; cbn; try done; rewrite (Pos.compare_cont_antisym m m' Eq); by destruct (Pos.compare_cont Eq m m').
Qed.

Lemma total_cmp_key a b :
  is_finite a = true -> is_finite b = true -> total_cmp a b = lex_cmp (float_key a) (float_key b).
Proof.
  destruct a as [[]| | |[] m e], b as [[]| | |[] m' e']; intros Ha Hb; try done; cbn.
  - rewrite Z.compare_opp. rewrite (Z.compare_antisym e e'). destruct (e ?= e')%Z; cbn; try done.
    by rewrite then_cmp_Eq.
  - destruct (e ?= e')%Z; cbn; try done. by rewrite then_cmp_Eq.
Qed.

(** A candidate whose price class says whether its cost is known. *)
Definition ranked_wf (c : RankedCandidate) : Prop :=
  (ra_class c).2 = (if is_some (ra_cost c) then 0 else 1)%Z /\ (forall cost, ra_cost c = Some cost -> is_finite cost = true).
Definition ranked_key (c : RankedCandidate) : list Z :=
  [(ra_class c).1.1; (ra_class c).1.2; (ra_class c).2] ++ from_option float_key [0; 0; 0]%Z (ra_cost c) ++
  [Z.of_nat (ra_declaration c)].

Lemma then_cmp_ext a b b' : (a = Eq -> b = b') -> then_cmp a b = then_cmp a b'.
Proof. intros Hb. destruct a; [by apply Hb|done|done]. Qed.

Lemma candidate_order_key c1 c2 :
  ranked_wf c1 -> ranked_wf c2 -> candidate_order c1 c2 = lex_cmp (ranked_key c1) (ranked_key c2).
Proof.
  intros [Hp1 Hf1] [Hp2 Hf2]. unfold candidate_order, ranked_key. rewrite lex_cmp_app by done.
  assert (Hclass : lex_cmp [(ra_class c1).1.1; (ra_class c1).1.2; (ra_class c1).2]
                     [(ra_class c2).1.1; (ra_class c2).1.2; (ra_class c2).2] = class_cmp (ra_class c1) (ra_class c2)).
  { unfold class_cmp. cbn. by destruct ((ra_class c1).2 ?= _)%Z. }
  rewrite Hclass. apply then_cmp_ext. intros Heq.
  assert (Hprice : (ra_class c1).2 = (ra_class c2).2).
  { unfold class_cmp in Heq. destruct ((ra_class c1).1.1 ?= _)%Z, ((ra_class c1).1.2 ?= _)%Z; try done.
    by apply Z.compare_eq in Heq. }
  rewrite Hp1, Hp2 in Hprice. rewrite lex_cmp_app; cycle 1.
  { by destruct (ra_cost c1), (ra_cost c2); cbn; rewrite ?float_key_length. }
  f_equal.
  - destruct (ra_cost c1) as [x|], (ra_cost c2) as [y|]; try done. cbn. apply total_cmp_key; [by apply Hf1|by apply Hf2].
  - cbn. rewrite Nat2Z.inj_compare. by rewrite then_cmp_Eq.
Qed.

Lemma candidate_order_trans c1 c2 c3 :
  ranked_wf c1 -> ranked_wf c2 -> ranked_wf c3 -> not_after c1 c2 -> not_after c2 c3 -> not_after c1 c3.
Proof. intros H1 H2 H3. unfold not_after. rewrite !candidate_order_key by done. apply lex_cmp_trans. Qed.

Lemma then_cmp_opp a b : then_cmp (CompOpp a) (CompOpp b) = CompOpp (then_cmp a b).
Proof. by destruct a. Qed.

Lemma candidate_order_opp c1 c2 : candidate_order c2 c1 = CompOpp (candidate_order c1 c2).
Proof.
  unfold candidate_order, class_cmp.
  rewrite (Z.compare_antisym (ra_class c1).1.1), (Z.compare_antisym (ra_class c1).1.2), (Z.compare_antisym (ra_class c1).2).
  rewrite (Nat.compare_antisym (ra_declaration c1)).
  assert (Hcost : cost_cmp (ra_cost c2) (ra_cost c1) = CompOpp (cost_cmp (ra_cost c1) (ra_cost c2))).
  { destruct (ra_cost c1), (ra_cost c2); try done. apply total_cmp_opp. }
  by rewrite Hcost, <- !then_cmp_opp.
Qed.

#[export] Instance not_after_total : Total not_after.
Proof. intros c1 c2. unfold not_after. rewrite (candidate_order_opp c1). destruct (candidate_order c1 c2); naive_solver. Qed.

(** The candidates of a ranking are well formed. *)
Lemma ranked_candidates_wf recorded_models feasible n facts risky :
  Forall ranked_wf (ranked_candidates recorded_models feasible n facts risky).
Proof.
  revert n. induction feasible as [|connection feasible IH]; intros n; [constructor|]. cbn [ranked_candidates].
  apply Forall_app. split; [|apply IH]. destruct (recorded_models connection) as [|row rows]; [by repeat constructor|].
  apply Forall_fmap, Forall_true. intros row'. split; [done|]. cbn. unfold full_cost. intros cost.
  destruct (cm_price row'); [done|]. destruct (is_finite _) eqn:Hf; [|done]. by intros [= <-].
Qed.

(** The head of a sorted list of well formed candidates comes after none of it. *)
Lemma ranked_head_first candidates winner ranked :
  Forall ranked_wf candidates -> merge_sort not_after candidates = winner :: ranked ->
  forall c, c ∈ candidates -> not_after winner c.
Proof.
  intros Hwf Hs c Hc.
  assert (Hperm : winner :: ranked ≡ₚ candidates) by (rewrite <- Hs; apply merge_sort_Permutation).
  assert (Hwf' : Forall ranked_wf (winner :: ranked)) by by rewrite Hperm.
  rewrite <- Hperm in Hc. pose proof (Sorted_merge_sort not_after candidates) as Hsorted. rewrite Hs in Hsorted.
  clear Hs Hperm Hwf. revert winner Hsorted Hwf' Hc. induction ranked as [|next ranked IH]; intros winner Hsorted Hwf Hc.
  - apply list_elem_of_singleton in Hc as ->. by destruct (total not_after winner winner).
  - apply elem_of_cons in Hc as [->|Hc]; [by destruct (total not_after winner winner)|].
    apply Sorted_inv in Hsorted as [Hsorted Hhd]. apply HdRel_inv in Hhd.
    apply Forall_cons in Hwf as [Hw Hwf]. pose proof Hwf as [Hn _]%Forall_cons.
    apply (candidate_order_trans winner next c); [done|done| |done|by apply IH].
    rewrite Forall_forall in Hwf. by apply Hwf.
Qed.

(** * The first minimum and the last maximum by a key *)

Section ByKey.
Context {A : Type} (key : A -> Z).

(** A fold that keeps the better of two. *)
Lemma fold_best (pick : A -> A -> A) (R : relation A) `{!PreOrder R} :
  (forall b x, (pick b x = b \/ pick b x = x) /\ R (pick b x) b /\ R (pick b x) x) ->
  forall l best a,
    fold_left (fun best x => match best with Some b => Some (pick b x) | None => Some x end) l best = Some a ->
    (a ∈ l \/ best = Some a) /\ (forall c, c ∈ l -> R a c) /\ (forall b, best = Some b -> R a b).
Proof.
  intros Hpick. induction l as [|x l IH]; intros best a Hf; cbn in Hf.
  - subst best. split_and!; [by right|by intros c ?%not_elem_of_nil|]. by intros b [= <-].
  - apply IH in Hf as (Hin & Hl & Hb). destruct best as [b|].
    + destruct (Hpick b x) as (Hone & Hrb & Hrx). specialize (Hb _ eq_refl). split_and!.
      * destruct Hin as [Hin|[= <-]]; [left; by right|]. destruct Hone as [->| ->]; [by right|left; by left].
      * intros c [->|Hc]%elem_of_cons; [by etrans|by apply Hl].
      * intros b' [= <-]. by etrans.
    + specialize (Hb _ eq_refl). split_and!; [|by intros c [->|Hc]%elem_of_cons; [|apply Hl]|done].
      left. destruct Hin as [Hin|[= ->]]; [by right|by left].
Qed.

Lemma fold_best_None (pick : A -> A -> A) l :
  fold_left (fun best x => match best with Some b => Some (pick b x) | None => Some x end) l None = None -> l = [].
Proof.
  destruct l as [|x l]; [done|]. cbn. intros E. exfalso. revert x E. induction l as [|y l IH]; intros x; cbn; [done|]. apply IH.
Qed.

#[local] Instance key_preorder : PreOrder (fun a b => key a <= key b)%Z.
Proof. split; [intros a; lia|intros a b c; lia]. Qed.
#[local] Instance key_preorder_flip : PreOrder (fun a b => key b <= key a)%Z.
Proof. split; [intros a; lia|intros a b c; lia]. Qed.

Lemma min_by_key_spec l a : min_by_key key l = Some a -> a ∈ l /\ forall c, c ∈ l -> (key a <= key c)%Z.
Proof.
  intros Hf. apply (fold_best (fun b x => if (key x <? key b)%Z then x else b) (fun a b => key a <= key b)%Z) in Hf.
  - destruct Hf as ([Hin|?] & Hl & _); [by split|done].
  - intros b x. destruct (Z.ltb_spec (key x) (key b)); split_and!; auto; lia.
Qed.

Lemma max_by_key_spec l a : max_by_key key l = Some a -> a ∈ l /\ forall c, c ∈ l -> (key c <= key a)%Z.
Proof.
  intros Hf. apply (fold_best (fun b x => if (key b <=? key x)%Z then x else b) (fun a b => key b <= key a)%Z) in Hf.
  - destruct Hf as ([Hin|?] & Hl & _); [by split|done].
  - intros b x. destruct (Z.leb_spec (key b) (key x)); split_and!; auto; lia.
Qed.

Lemma min_by_key_None l : min_by_key key l = None -> l = [].
Proof. apply (fold_best_None (fun b x => if (key x <? key b)%Z then x else b)). Qed.
End ByKey.
