(* ===== verification/Broker.v ===== *)
(** The broker of model requests ([src/src/model.rs]): it freezes a request and
    admits it, and dispatches exactly what it admitted, through a ledger that
    reserves before the provider sees the request and settles after it answered.
    A failed send may fall back to a substitute: along the frozen chain, or to the
    connection a human picks.

    The ledger and the provider are interfaces; every operation threads the broker
    (with its provider) and the ledger.  Digests are a parameter, generated
    identifiers are drawn from a parameter sequence, and the files instructions are
    discovered in from a parameter file system. *)

From stdpp Require Import sorting pretty.
From S2P Require Import Prelude.
From S2P Require Import Contracts.
From S2P Require Import Text.
From S2P Require Import Requests.
From S2P Require Import Notifications.
From S2P Require Import Learning.
From S2P Require Import Store.
From S2P Require Import LearningStore.
From S2P Require Import Routes.
From S2P Require Import Providers.
From S2P Require Import Instructions.
From S2P Require Import Ranking.

(** * The ledger's interface *)

(** The [Ledger] trait. *)
Class Ledger (L : Type) := {
  begin_send : SendContext -> RequestManifest -> L -> result SendTicket LedgerError * L;
  finish_send : SendTicket -> SendOutcome -> L -> result unit LedgerError * L;
}.

(** [ledger_refusal] *)
Definition ledger_refusal (error : LedgerError) : ModelError :=
  match error with
  | LedgerBudgetExhausted scope => ModelBudgetExhausted scope
  | LedgerStore (StoreConflict (CauseBudgetExhausted scope _ _ _ _)) => ModelBudgetExhausted scope
  | other => ModelLedger other
  end.

Inductive SendFailure := FailProvider (source : ProviderError) | FailLedger (source : LedgerError).

(** * Outcomes that may have applied *)

(** [provider_outcome_unknown] *)
Definition transport_unknown (cause : TransportCause) : bool :=
  match transport_class cause with
  | DeadlineExpired | Timeout | ReadFailure => true
  | HttpStatus code =>
      ((500 <=? code) || ((300 <=? code) && (code <? 400)) || (code =? 408) || (code =? 425))%Z
  | RequestFailure =>
      match cause with
      | Request source => negb (rq_builder source || rq_connect source)
      | _ => true
      end
  end.

Definition provider_outcome_unknown (error : ProviderError) : bool :=
  match error with
  | Retried _ _ => true
  | Transport _ cause => transport_unknown cause
  | ProviderFailed _ _ | UnknownTerminal _ | StreamViolation _ _ | IncompatibleOutput _ _ | ReasoningProvenance _ _ =>
      true
  | UnknownConnection _ | LiveGrantRequired _ | StoreUnavailable _ _ | StoreAmbiguous _ | CredentialUnresolved _ _ _
  | LocalProfileDeclared _ | CredentialProfileMismatch _ _ | CredentialOutsideNamespace _ _ | CredentialOccupied _
  | CredentialAbsent _ | CredentialMalformed _ | CredentialBaseMismatch _ _ | DialectMismatch _ | DialectUnserved _ _
  | UnpinnedModel _ | RegionMismatch _ _ | EndpointRequired _ | UnsupportedCredentialClass _ _
  | UnsupportedParameter _ _ _ | UnsendableRequest _ _ => false
  end.

(** * The wire request *)

Definition OUTPUT_RESERVE_BYTES : Z := 16 * 1024.
Definition MODEL_WIRE_MAX_BYTES : Z := 1048576.
Definition BUDGET_UNIT_INPUT_BYTES : Z := 4096.
Definition DECLARED_TOOLS : list string := ["read_file"].

(** [slice::join] *)
Fixpoint join (sep : string) (parts : list string) : string :=
  match parts with
  | [] => EmptyString
  | [part] => part
  | part :: parts => part +:+ sep +:+ join sep parts
  end.

(** [model_wire_id] *)
Definition model_wire_id (model : ModelAssign) : string :=
  match model with
  | InheritModel => "inherit"
  | AutoModel None => "auto"
  | AutoModel (Some names) => "auto:" +:+ join "+" names
  | Fixed fixed => "fixed:" +:+ fm_connection fixed +:+ "/" +:+ fm_model_id fixed
  end.

(** [wire_composition] and [RequestManifest::wire_bytes] *)
Definition wire_composition (instructions : string) (model : ModelAssign) (tools : list string) (output_reserve : Z)
    (inputs : string) : string :=
  instructions +:+ newline +:+ "model: " +:+ model_wire_id model +:+ newline +:+ "tools: " +:+ join ", " tools +:+
  newline +:+ "output-reserve: " +:+ pretty output_reserve +:+ newline +:+ newline +:+ inputs.
Definition wire_bytes (manifest : RequestManifest) : string :=
  wire_composition (mf_instructions manifest) (mf_model manifest) (mf_tools manifest) (mf_output_reserve manifest)
    (mf_inputs manifest).

(** [sent_cost_bound] *)
Definition sent_cost_bound (inputs : string) : Z :=
  1 + (slen inputs + BUDGET_UNIT_INPUT_BYTES - 1) / BUDGET_UNIT_INPUT_BYTES.

(** * Context epochs *)

Record EpochState := mkEpoch {
  ep_prefix : string;
  ep_model : string;
  ep_instructions : string;
  ep_tools : string;
}.

(** [changed_part] *)
Definition changed_part (previous current : EpochState) : option EpochMutationReason :=
  if negb (bool_decide (ep_instructions previous = ep_instructions current)) then Some SystemChange
  else if negb (bool_decide (ep_model previous = ep_model current)) then Some ModelSwitch
  else if negb (bool_decide (ep_tools previous = ep_tools current)) then Some ToolsChange
  else None.

(** [epoch_cost] *)
Definition epoch_cost (reason : EpochMutationReason) (instructions : string) (model : ModelAssign) (tools : list string)
    : EpochCost :=
  let instructions_line := (slen instructions + 1)%Z in
  let model_line := slen ("model: " +:+ model_wire_id model +:+ newline) in
  let tools_line := slen ("tools: " +:+ join ", " tools +:+ newline) in
  let reserve := slen ("output-reserve: " +:+ pretty OUTPUT_RESERVE_BYTES) in
  match reason with
  | SystemChange => mkEpochCost reason "instructions" (instructions_line + model_line + tools_line + reserve)
  | ModelSwitch => mkEpochCost reason "model" (model_line + tools_line + reserve)
  | ToolsChange => mkEpochCost reason "tools" (tools_line + reserve)
  end.

(** * The broker *)

Record PendingFallback := mkPending {
  pd_attempt_id : string;
  pd_purpose : string;
  pd_candidates : list string;
  pd_unknown_outcome : bool;
}.

Record ProfileBinding := mkBinding { pb_connection : string; pb_profile : option string }.

Record AdmissionRecord := mkAdmission {
  ad_purpose : string;
  ad_connection : string;
  ad_model_id : option string;
  ad_model_source : string;
  ad_ranking_basis : option string;
  ad_snapshot_version : Z;
  ad_manifest : RequestManifest;
  ad_fallback : FallbackAssign;
  ad_fallback_source : string;
}.

Record AccountingRecord := mkAccounting {
  ac_attempt_id : string;
  ac_purpose : string;
  ac_connection : string;
  ac_cost_bound : Z;
  ac_usage : UsageDelta;
}.

(** The two [bk_drawn] and [bk_moment] count the identifiers drawn and the calls of
    the file system. *)
Section State.
Context {P : Type}.

Record Broker := mkBroker {
  bk_provider : P;
  bk_epochs : gmap string EpochState;
  bk_entitlements : Entitlements;
  bk_admissions : gmap string AdmissionRecord;
  bk_accounting : gmap string AccountingRecord;
  bk_connections : gmap string Connection;
  bk_profiles : gmap string Profile;
  bk_purposes : gmap string PurposeDef;
  bk_cancelled : gset string;
  bk_pending : gmap string PendingFallback;
  bk_paused : gmap string (gset string);
  bk_bound_profile : option ProfileBinding;
  bk_learning : LearningDefinition;
  bk_root : option path;
  bk_conflicts : list InstructionConflict;
  bk_drawn : nat;
  bk_moment : nat;
}.

Definition with_provider (f : P -> P) (b : Broker) : Broker :=
  mkBroker (f (bk_provider b)) (bk_epochs b) (bk_entitlements b) (bk_admissions b) (bk_accounting b)
    (bk_connections b) (bk_profiles b) (bk_purposes b) (bk_cancelled b) (bk_pending b) (bk_paused b)
    (bk_bound_profile b) (bk_learning b) (bk_root b) (bk_conflicts b) (bk_drawn b) (bk_moment b).
Definition on_epochs (f : gmap string EpochState -> gmap string EpochState) (b : Broker) : Broker :=
  mkBroker (bk_provider b) (f (bk_epochs b)) (bk_entitlements b) (bk_admissions b) (bk_accounting b)
    (bk_connections b) (bk_profiles b) (bk_purposes b) (bk_cancelled b) (bk_pending b) (bk_paused b)
    (bk_bound_profile b) (bk_learning b) (bk_root b) (bk_conflicts b) (bk_drawn b) (bk_moment b).
Definition on_entitlements (f : Entitlements -> Entitlements) (b : Broker) : Broker :=
  mkBroker (bk_provider b) (bk_epochs b) (f (bk_entitlements b)) (bk_admissions b) (bk_accounting b)
    (bk_connections b) (bk_profiles b) (bk_purposes b) (bk_cancelled b) (bk_pending b) (bk_paused b)
    (bk_bound_profile b) (bk_learning b) (bk_root b) (bk_conflicts b) (bk_drawn b) (bk_moment b).
Definition on_admissions (f : gmap string AdmissionRecord -> gmap string AdmissionRecord) (b : Broker) : Broker :=
  mkBroker (bk_provider b) (bk_epochs b) (bk_entitlements b) (f (bk_admissions b)) (bk_accounting b)
    (bk_connections b) (bk_profiles b) (bk_purposes b) (bk_cancelled b) (bk_pending b) (bk_paused b)
    (bk_bound_profile b) (bk_learning b) (bk_root b) (bk_conflicts b) (bk_drawn b) (bk_moment b).
Definition on_accounting (f : gmap string AccountingRecord -> gmap string AccountingRecord) (b : Broker) : Broker :=
  mkBroker (bk_provider b) (bk_epochs b) (bk_entitlements b) (bk_admissions b) (f (bk_accounting b))
    (bk_connections b) (bk_profiles b) (bk_purposes b) (bk_cancelled b) (bk_pending b) (bk_paused b)
    (bk_bound_profile b) (bk_learning b) (bk_root b) (bk_conflicts b) (bk_drawn b) (bk_moment b).
Definition on_cancelled (f : gset string -> gset string) (b : Broker) : Broker :=
  mkBroker (bk_provider b) (bk_epochs b) (bk_entitlements b) (bk_admissions b) (bk_accounting b) (bk_connections b)
    (bk_profiles b) (bk_purposes b) (f (bk_cancelled b)) (bk_pending b) (bk_paused b) (bk_bound_profile b)
    (bk_learning b) (bk_root b) (bk_conflicts b) (bk_drawn b) (bk_moment b).
Definition on_pending (f : gmap string PendingFallback -> gmap string PendingFallback) (b : Broker) : Broker :=
  mkBroker (bk_provider b) (bk_epochs b) (bk_entitlements b) (bk_admissions b) (bk_accounting b) (bk_connections b)
    (bk_profiles b) (bk_purposes b) (bk_cancelled b) (f (bk_pending b)) (bk_paused b) (bk_bound_profile b)
    (bk_learning b) (bk_root b) (bk_conflicts b) (bk_drawn b) (bk_moment b).
Definition on_paused (f : gmap string (gset string) -> gmap string (gset string)) (b : Broker) : Broker :=
  mkBroker (bk_provider b) (bk_epochs b) (bk_entitlements b) (bk_admissions b) (bk_accounting b) (bk_connections b)
    (bk_profiles b) (bk_purposes b) (bk_cancelled b) (bk_pending b) (f (bk_paused b)) (bk_bound_profile b)
    (bk_learning b) (bk_root b) (bk_conflicts b) (bk_drawn b) (bk_moment b).
Definition on_bound_profile (f : option ProfileBinding -> option ProfileBinding) (b : Broker) : Broker :=
  mkBroker (bk_provider b) (bk_epochs b) (bk_entitlements b) (bk_admissions b) (bk_accounting b) (bk_connections b)
    (bk_profiles b) (bk_purposes b) (bk_cancelled b) (bk_pending b) (bk_paused b) (f (bk_bound_profile b))
    (bk_learning b) (bk_root b) (bk_conflicts b) (bk_drawn b) (bk_moment b).
Definition on_learning (f : LearningDefinition -> LearningDefinition) (b : Broker) : Broker :=
  mkBroker (bk_provider b) (bk_epochs b) (bk_entitlements b) (bk_admissions b) (bk_accounting b) (bk_connections b)
    (bk_profiles b) (bk_purposes b) (bk_cancelled b) (bk_pending b) (bk_paused b) (bk_bound_profile b)
    (f (bk_learning b)) (bk_root b) (bk_conflicts b) (bk_drawn b) (bk_moment b).
Definition on_root (f : option path -> option path) (b : Broker) : Broker :=
  mkBroker (bk_provider b) (bk_epochs b) (bk_entitlements b) (bk_admissions b) (bk_accounting b) (bk_connections b)
    (bk_profiles b) (bk_purposes b) (bk_cancelled b) (bk_pending b) (bk_paused b) (bk_bound_profile b)
    (bk_learning b) (f (bk_root b)) (bk_conflicts b) (bk_drawn b) (bk_moment b).
Definition on_conflicts (f : list InstructionConflict -> list InstructionConflict) (b : Broker) : Broker :=
  mkBroker (bk_provider b) (bk_epochs b) (bk_entitlements b) (bk_admissions b) (bk_accounting b) (bk_connections b)
    (bk_profiles b) (bk_purposes b) (bk_cancelled b) (bk_pending b) (bk_paused b) (bk_bound_profile b)
    (bk_learning b) (bk_root b) (f (bk_conflicts b)) (bk_drawn b) (bk_moment b).
Definition on_drawn (f : nat -> nat) (b : Broker) : Broker :=
  mkBroker (bk_provider b) (bk_epochs b) (bk_entitlements b) (bk_admissions b) (bk_accounting b) (bk_connections b)
    (bk_profiles b) (bk_purposes b) (bk_cancelled b) (bk_pending b) (bk_paused b) (bk_bound_profile b)
    (bk_learning b) (bk_root b) (bk_conflicts b) (f (bk_drawn b)) (bk_moment b).
Definition on_moment (f : nat -> nat) (b : Broker) : Broker :=
  mkBroker (bk_provider b) (bk_epochs b) (bk_entitlements b) (bk_admissions b) (bk_accounting b) (bk_connections b)
    (bk_profiles b) (bk_purposes b) (bk_cancelled b) (bk_pending b) (bk_paused b) (bk_bound_profile b)
    (bk_learning b) (bk_root b) (bk_conflicts b) (bk_drawn b) (f (bk_moment b)).

Definition with_view (config : Config) (b : Broker) : Broker :=
  mkBroker (bk_provider b) (bk_epochs b) (bk_entitlements b) (bk_admissions b) (bk_accounting b)
    (cf_connections config) (cf_profiles config) (md_purposes (cf_models config)) (bk_cancelled b) (bk_pending b)
    (bk_paused b) (bk_bound_profile b) (bk_learning b) (bk_root b) (bk_conflicts b) (bk_drawn b) (bk_moment b).

(** [Broker::new] *)
Definition broker_new (provider : P) : Broker :=
  mkBroker provider ∅ unrestricted ∅ ∅ ∅ ∅ ∅ ∅ ∅ ∅ None [] None [] 0 0.
End State.
Arguments Broker P : clear implicits.

(** * Operations *)

Section Operations.
Context {P L : Type} `{Provider P} `{Ledger L}.
Variable os : TargetOs.
Variable recorded_models : string -> list CatalogModel.
Variable sha256_hex : string -> string.
Variable generate : nat -> string.
Variable fs : nat -> Fs.
Local Abbreviation broker := (Broker P).
Local Abbreviation world_state := (broker * L)%type.

(** [set_learning_definition], [set_instructions_root], [set_config] and
    [set_account_rights] *)
Definition set_learning_definition (definition : LearningDefinition) : broker -> broker := on_learning (fun _ => definition).
Definition set_instructions_root (root : option path) : broker -> broker := on_root (fun _ => root).
Definition set_config (config : Config) : broker -> broker := with_view config.
Definition set_account_rights (rights : list string) (b : broker) : broker :=
  let next := list_to_set rights in
  if decide (en_rights (bk_entitlements b) = Some next) then b
  else on_entitlements (fun e => mkEntitlements (en_version e + 1) (Some next)) b.

(** [instruction_scopes]: the ancestors of a root, outermost first. *)
Definition instruction_scopes (root : path) : list path := map (fun n => take n root) (seq 0 (S (length root))).

(** [assemble_instructions] *)
Definition assemble_instructions (purpose base : string) (b : broker) : result string ModelError * broker :=
  let found :=
    match bk_root b with
    | Some root => discover fs (instruction_scopes root) (bk_moment b)
    | None => Ok (mkSet [] [], bk_moment b)
    end in
  match found with
  | Err e => (Err (ModelInstructions e), b)
  | Ok (set, moment) =>
      let assembled := fold_left (fun part entry => part +:+ newline +:+ ie_text entry) (is_entries set) base in
      let b := on_moment (fun _ => moment) (on_conflicts (fun _ => is_conflicts set) b) in
      (Ok (instruction_part (bk_learning b) purpose assembled), b)
  end.

(** [take_pending_choice] and [cancel_attempt] *)
Definition take_pending_choice (attempt_id : string) (b : broker) : option PendingFallback * broker :=
  (bk_pending b !! attempt_id, on_pending (delete attempt_id) b).

Definition cancel_attempt (attempt_id : string) (b : broker) : bool * broker :=
  if bool_decide (is_Some (bk_accounting b !! attempt_id)) then (false, b)
  else match bk_admissions b !! attempt_id with
       | None => (false, b)
       | Some _ =>
           (true, on_cancelled (union {[ attempt_id ]}) (on_paused (delete attempt_id)
                    (on_pending (delete attempt_id) (on_admissions (delete attempt_id) b))))
       end.

(** [AttemptId::generate] *)
Definition draw (b : broker) : string * broker := (generate (bk_drawn b), on_drawn S b).

(** [context_epoch] *)
Definition epoch_prefix (purpose : string) (model : ModelAssign) (instructions : string) (tools : list string) : string :=
  "purpose:" +:+ purpose +:+ newline +:+ "model:" +:+ model_wire_id model +:+ newline +:+
  "instructions:" +:+ instructions +:+ newline +:+ "tools:" +:+ join ", " tools.
Definition epoch_parts (purpose : string) (model : ModelAssign) (instructions : string) (tools : list string) : EpochState :=
  mkEpoch (sha256_hex (epoch_prefix purpose model instructions tools)) (sha256_hex (model_wire_id model))
    (sha256_hex instructions) (sha256_hex (join ", " tools)).

Definition context_epoch (purpose : string) (model : ModelAssign) (instructions : string) (tools : list string)
    (b : broker) : (string * option EpochCost) * broker :=
  let parts := epoch_parts purpose model instructions tools in
  let cost :=
    match bk_epochs b !! purpose with
    | Some previous =>
        if decide (ep_prefix previous = ep_prefix parts) then None
        else (fun reason => epoch_cost reason instructions model tools) <$> changed_part previous parts
    | None => None
    end in
  (("epoch-" +:+ String.substring 0 16 (ep_prefix parts), cost), on_epochs (<[purpose := parts]>) b).

(** [FreezeRequest] *)
Record FreezeRequest := mkFreeze {
  fq_world : string;
  fq_inputs : string;
  fq_origin : InputOrigin;
  fq_instructions : string;
  fq_tools : list string;
}.

Definition mutation_reason (cost : option EpochCost) : option string :=
  (fun cost => epoch_reason_as_str (ec_reason cost)) <$> cost.

(** [freeze_manifest] *)
Definition freeze_manifest (config : Config) (purpose : string) (request : FreezeRequest) (facts : RankingFacts)
    (b : broker) : result RequestManifest ModelError * broker :=
  match
    (let? resolved := map_err ModelConfig (resolve_purpose config purpose) in
     let? choice := rank_connection os recorded_models purpose resolved (md_purposes (cf_models config) !! purpose)
                      (cf_connections config) (cf_profiles config) (bk_entitlements b) facts in
     Ok (resolved, choice))
  with
  | Err e => (Err e, b)
  | Ok (resolved, choice) =>
      let model := match rc_model_id choice with
                   | Some model_id => Fixed (mkFixed (rc_connection choice) model_id)
                   | None => rp_model resolved
                   end in
      let effort := match rc_effort choice with Some value => FixedEffort value | None => rp_effort resolved end in
      let connection := rc_connection choice in
      let accounted :=
        (slen (wire_composition (fq_instructions request) model (fq_tools request) OUTPUT_RESERVE_BYTES (fq_inputs request))
           + OUTPUT_RESERVE_BYTES)%Z in
      if (MODEL_WIRE_MAX_BYTES <? accounted)%Z then (Err (RequestTooLarge MODEL_WIRE_MAX_BYTES accounted), b)
      else
        let '((epoch_id, cost), b) := context_epoch purpose model (fq_instructions request) (fq_tools request) b in
        let (attempt_id, b) := draw b in
        let manifest :=
          mkManifest attempt_id purpose (fq_world request) model effort (fq_instructions request) (fq_tools request)
            OUTPUT_RESERVE_BYTES (fq_inputs request) (sha256_hex (fq_inputs request)) epoch_id (mutation_reason cost) cost
            (fq_origin request) (sent_cost_bound (fq_inputs request)) in
        let b := with_view config b in
        let b := on_admissions (<[attempt_id :=
          mkAdmission purpose connection (rc_model_id choice) (rp_model_source resolved) (rc_basis choice)
            (en_version (bk_entitlements b)) manifest (rp_fallback resolved) (rp_fallback_source resolved)]>) b in
        let profile := cf_connections config !! connection ≫= cx_profile in
        (Ok manifest, on_bound_profile (fun _ => Some (mkBinding connection profile)) b)
  end.

(** [prepare_with_facts], [prepare_authored] and [prepare] *)
Definition prepare_with_facts (purpose : string) (config : Config) (world inputs : string) (origin : InputOrigin)
    (facts : RankingFacts) (b : broker) : result RequestManifest ModelError * broker :=
  match assemble_instructions purpose MANDATORY_INSTRUCTIONS b with
  | (Err e, b) => (Err e, b)
  | (Ok instructions, b) =>
      freeze_manifest config purpose (mkFreeze world inputs origin instructions DECLARED_TOOLS) facts b
  end.
Definition prepare_authored (purpose : string) (config : Config) (world inputs : string) (origin : InputOrigin)
    : broker -> result RequestManifest ModelError * broker :=
  prepare_with_facts purpose config world inputs origin FactsUnknown.
Definition prepare (purpose : string) (config : Config) (world inputs : string)
    : broker -> result RequestManifest ModelError * broker :=
  prepare_authored purpose config world inputs OriginHuman.

(** [CallContract], [prepare_call_with_facts] and [prepare_call] *)
Record CallContract := mkCallContract { cl_instructions : string; cl_tools : list string }.

Definition prepare_call_with_facts (purpose : string) (config : Config) (world inputs : string) (contract : CallContract)
    (facts : RankingFacts) (b : broker) : result RequestManifest ModelError * broker :=
  match assemble_instructions purpose (cl_instructions contract) b with
  | (Err e, b) => (Err e, b)
  | (Ok instructions, b) =>
      freeze_manifest config purpose (mkFreeze world inputs OriginTool instructions (cl_tools contract)) facts b
  end.
Definition prepare_call (purpose : string) (config : Config) (world inputs : string) (contract : CallContract)
    : broker -> result RequestManifest ModelError * broker :=
  prepare_call_with_facts purpose config world inputs contract FactsUnknown.

(** [clear_attempt], [restore_epoch] and [abandon_substitute] *)
Definition clear_attempt (attempt_id : string) (b : broker) : broker :=
  on_paused (delete attempt_id) (on_pending (delete attempt_id) (on_admissions (delete attempt_id) b)).
Definition restore_epoch (purpose : string) (displaced : option EpochState) : broker -> broker :=
  match displaced with
  | Some previous => on_epochs (<[purpose := previous]>)
  | None => on_epochs (delete purpose)
  end.
Definition abandon_substitute (attempt_id purpose : string) (displaced : option EpochState) (b : broker) : broker :=
  restore_epoch purpose displaced (on_admissions (delete attempt_id) b).

(** The send narrows an automatic assignment to the connection it goes to. *)
Definition with_model (model : ModelAssign) (m : RequestManifest) : RequestManifest :=
  mkManifest (mf_attempt_id m) (mf_purpose m) (mf_world m) model (mf_effort m) (mf_instructions m) (mf_tools m)
    (mf_output_reserve m) (mf_inputs m) (mf_inputs_digest m) (mf_epoch_id m) (mf_mutation_reason m) (mf_epoch_cost m)
    (mf_input_origin m) (mf_cost_bound m).
Definition narrow (connection : string) (m : RequestManifest) : RequestManifest :=
  match mf_model m with AutoModel _ => with_model (AutoModel (Some [connection])) m | _ => m end.

(** [complete_send] *)
Definition complete_send (manifest : RequestManifest) (connection : string) (parent_attempt_id : option string)
    (s : world_state) : result ProviderReply SendFailure * world_state :=
  let (b, l) := s in
  match bk_connections b !! connection with
  | None => (Err (FailProvider (UnknownConnection connection)), (b, l))
  | Some entry =>
      if negb (serves (bk_provider b) connection entry) then
        (Err (FailProvider match dialect_for connection with
                           | Some dialect => DialectUnserved connection dialect
                           | None => DialectMismatch connection
                           end), (b, l))
      else
        let manifest := narrow connection manifest in
        let context := mkSendContext (mf_purpose manifest) connection parent_attempt_id
                         (bk_admissions b !! mf_attempt_id manifest ≫= ad_ranking_basis) in
        match begin_send context manifest l with
        | (Err e, l) => (Err (FailLedger e), (b, l))
        | (Ok ticket, l) =>
            let (answer, provider) := send manifest (bk_provider b) in
            let b := with_provider (fun _ => provider) b in
            match answer with
            | Err source =>
                let (wire_retries, source) := settle_error source in
                match finish_send ticket (SendFailed wire_retries) l with
                | (Err e, l) => (Err (FailLedger e), (b, l))
                | (Ok _, l) =>
                    (Err (FailProvider (if (0 <? wire_retries)%Z then Retried wire_retries source else source)), (b, l))
                end
            | Ok reply =>
                match finish_send ticket (SendSettled (rp_usage reply) (rp_wire_retries reply)) l with
                | (Err e, l) => (Err (FailLedger e), (b, l))
                | (Ok _, l) =>
                    let record := mkAccounting (mf_attempt_id manifest) (mf_purpose manifest) connection
                                    (mf_cost_bound manifest) (rp_usage reply) in
                    let b := on_accounting (<[mf_attempt_id manifest := record]>) b in
                    (Ok reply, (clear_attempt (mf_attempt_id manifest) b, l))
                end
            end
        end
  end.

(** [mint_substitute] *)
Definition mint_substitute (admission : AdmissionRecord) (model : ModelAssign) (connection leg : string) (b : broker)
    : (RequestManifest * option EpochState) * broker :=
  let displaced := bk_epochs b !! ad_purpose admission in
  let m := ad_manifest admission in
  let '((epoch_id, cost), b) := context_epoch (ad_purpose admission) model (mf_instructions m) (mf_tools m) b in
  let model_id := match model with Fixed fixed => Some (fm_model_id fixed) | _ => None end in
  let (attempt_id, b) := draw b in
  let substitute :=
    mkManifest attempt_id (mf_purpose m) (mf_world m) model (mf_effort m) (mf_instructions m) (mf_tools m)
      (mf_output_reserve m) (mf_inputs m) (mf_inputs_digest m) epoch_id (mutation_reason cost) cost (mf_input_origin m)
      (mf_cost_bound m) in
  let record := mkAdmission (ad_purpose admission) connection model_id (ad_fallback_source admission +:+ "." +:+ leg) None
                  (en_version (bk_entitlements b)) substitute OffFallback (ad_fallback_source admission) in
  ((substitute, displaced), on_admissions (<[attempt_id := record]>) b).

(** [candidate_rejection] and [eligible_candidates] *)
Definition candidate_rejection (purpose connection : string) (b : broker) : option RejectionCause :=
  match bk_connections b !! connection with
  | None => Some RejUnknownConnection
  | Some entry =>
      if negb (offline_usable os (bk_connections b) (bk_profiles b) connection)
      then Some (RejLiveGrantRequired (cx_kind entry))
      else if negb (serves (bk_provider b) connection entry) then
        Some match dialect_for connection with Some dialect => RejDialectUnserved dialect | None => RejDialectMismatch end
      else entitlement_rejection (bk_entitlements b) (bk_purposes b !! purpose) connection
  end.
Definition eligible_candidates (purpose : string) (b : broker) : list string :=
  filter (fun name => candidate_rejection purpose name b = None) (keys_of (bk_connections b)).

(** The refusals of an exhausted manual fallback. *)
Definition manual_rejections (purpose primary : string) (b : broker) : list CandidateRejection :=
  omap (fun name =>
    if blind_retry_refused primary name then Some (mkRejection name RejBlindRetryRefused)
    else mkRejection name <$> candidate_rejection purpose name b)
    (filter (fun name => name <> primary) (keys_of (bk_connections b))).

(** The walk of an automatic chain: what it refused and where it sent so far. *)
Fixpoint walk_chain (admission : AdmissionRecord) (attempt_id : string) (source : ProviderError) (chain : list FixedModel)
    (rejected : list CandidateRejection) (attempted : list string) (s : world_state)
    : result ProviderReply ModelError * world_state :=
  match chain with
  | [] => (Err (FallbackExhausted attempt_id (ad_purpose admission) rejected attempted source), s)
  | entry :: chain =>
      let connection := fm_connection entry in
      if existsb (fun failed => blind_retry_refused failed connection) (ad_connection admission :: attempted) then
        walk_chain admission attempt_id source chain (rejected ++ [mkRejection connection RejBlindRetryRefused]) attempted s
      else
        match candidate_rejection (ad_purpose admission) connection s.1 with
        | Some cause =>
            walk_chain admission attempt_id source chain (rejected ++ [mkRejection connection cause]) attempted s
        | None =>
            let '((substitute, displaced), b) :=
              mint_substitute admission (Fixed (mkFixed connection (fm_model_id entry))) connection "fallback" s.1 in
            match complete_send substitute connection (Some attempt_id) (b, s.2) with
            | (Ok reply, (b, l)) => (Ok reply, (on_admissions (delete attempt_id) b, l))
            | (Err (FailLedger source), (b, l)) =>
                (Err (ledger_refusal source),
                 (abandon_substitute (mf_attempt_id substitute) (ad_purpose admission) displaced b, l))
            | (Err (FailProvider send_error), (b, l)) =>
                let b := abandon_substitute (mf_attempt_id substitute) (ad_purpose admission) displaced b in
                if provider_outcome_unknown send_error then (Err (ModelProvider (settle_error send_error).2), (b, l))
                else walk_chain admission attempt_id source chain
                       (rejected ++ [mkRejection connection (RejSendFailed send_error)]) (attempted ++ [connection]) (b, l)
            end
        end
  end.

(** [fallback_or_fail] *)
Definition fallback_or_fail (manifest : RequestManifest) (admission : AdmissionRecord) (source : ProviderError)
    (s : world_state) : result ProviderReply ModelError * world_state :=
  let attempt_id := mf_attempt_id manifest in
  let purpose := ad_purpose admission in
  match ad_fallback admission with
  | OffFallback => (Err (ModelProvider (settle_error source).2), s)
  | ManualFallback =>
      let candidates :=
        filter (fun name => name <> ad_connection admission /\ blind_retry_refused (ad_connection admission) name = false)
          (eligible_candidates purpose s.1) in
      match candidates with
      | [] =>
          (Err (FallbackExhausted attempt_id purpose (manual_rejections purpose (ad_connection admission) s.1) []
                  (settle_error source).2), s)
      | _ =>
          let pending := mkPending attempt_id purpose candidates (provider_outcome_unknown source) in
          (Err (ManualFallbackPending attempt_id purpose),
           (on_pending (<[attempt_id := pending]>) (on_paused (<[attempt_id := list_to_set candidates]>) s.1), s.2))
      end
  | AutoFallback chain =>
      if provider_outcome_unknown source then (Err (ModelProvider (settle_error source).2), s)
      else walk_chain admission attempt_id source chain [] [] s
  end.

(** [dispatch] *)
Definition dispatch (world : string) (manifest : RequestManifest) (s : world_state)
    : result ProviderReply ModelError * world_state :=
  let (b, l) := s in
  let attempt_id := mf_attempt_id manifest in
  if negb (bool_decide (mf_world manifest = world)) then (Err (WorldMismatch (mf_world manifest) world), s)
  else if bool_decide (is_Some (bk_accounting b !! attempt_id)) then (Err (AttemptAlreadyAccounted attempt_id), s)
  else if bool_decide (attempt_id ∈ bk_cancelled b) then (Err (AttemptCancelled attempt_id), s)
  else
    match bk_admissions b !! attempt_id with
    | None => (Err (NoAdmission attempt_id), s)
    | Some admission =>
        if negb (bool_decide (ad_manifest admission = manifest)) then (Err (AdmissionMismatch attempt_id), s)
        else
          let current := en_version (bk_entitlements b) in
          if negb (bool_decide (current = ad_snapshot_version admission)) ||
             negb (allows (bk_entitlements b) (ad_connection admission))
          then (Err (EligibilityStale attempt_id (ad_connection admission) (ad_snapshot_version admission) current), s)
          else
            match complete_send manifest (ad_connection admission) None s with
            | (Ok reply, s) => (Ok reply, s)
            | (Err (FailLedger source), s) => (Err (ledger_refusal source), s)
            | (Err (FailProvider source), s) => fallback_or_fail manifest admission source s
            end
    end.

(** [dispatch_fallback_choice] *)
Definition dispatch_fallback_choice (world attempt_id connection : string) (s : world_state)
    : result ProviderReply ModelError * world_state :=
  let (b, l) := s in
  match bk_admissions b !! attempt_id with
  | None =>
      (Err (if bool_decide (attempt_id ∈ bk_cancelled b) then AttemptCancelled attempt_id
            else if bool_decide (is_Some (bk_accounting b !! attempt_id)) then AttemptAlreadyAccounted attempt_id
            else NoAdmission attempt_id), s)
  | Some admission =>
      match bk_paused b !! attempt_id with
      | None => (Err (NoPendingChoice attempt_id), s)
      | Some served =>
          let m := ad_manifest admission in
          let reject cause := (Err (ManualChoiceRejected attempt_id connection cause), s) in
          if negb (bool_decide (mf_world m = world)) then (Err (WorldMismatch (mf_world m) world), s)
          else if blind_retry_refused (ad_connection admission) connection then reject RejBlindRetryRefused
          else if negb (bool_decide (connection ∈ served)) then reject RejNotOffered
          else
            match candidate_rejection (ad_purpose admission) connection b with
            | Some cause => reject cause
            | None =>
                let model := match mf_model m with
                             | Fixed fixed => Fixed (mkFixed connection (fm_model_id fixed))
                             | _ => AutoModel (Some [connection])
                             end in
                let '((substitute, displaced), b) := mint_substitute admission model connection "manual" b in
                match complete_send substitute connection (Some attempt_id) (b, l) with
                | (Ok reply, (b, l)) => (Ok reply, (clear_attempt attempt_id b, l))
                | (Err (FailLedger source), (b, l)) =>
                    (Err (ledger_refusal source),
                     (abandon_substitute (mf_attempt_id substitute) (ad_purpose admission) displaced b, l))
                | (Err (FailProvider source), (b, l)) =>
                    (Err (ModelProvider (settle_error source).2),
                     (abandon_substitute (mf_attempt_id substitute) (ad_purpose admission) displaced b, l))
                end
            end
      end
  end.

(** [sent_cost_explain] *)
Definition sent_cost_explain (manifest : RequestManifest) (b : broker) : Z * option Z :=
  (mf_cost_bound manifest, bk_accounting b !! mf_attempt_id manifest ≫= fun record => confirmed_total (ac_usage record)).
End Operations.
