(* ===== verification/BrokerCalls.v ===== *)
(** The calls of the broker as data, what a ledger promises it, and the record of
    what crosses to a provider.

    A run starts from a fresh broker; between two calls of the broker the ledger may
    be used by others, as long as no send it has opened is forgotten. *)

From S2P Require Import Prelude.
From S2P Require Import Contracts.
From S2P Require Import Requests.
From S2P Require Import Learning.
From S2P Require Import Store.
From S2P Require Import LearningStore.
From S2P Require Import Routes.
From S2P Require Import Providers.
From S2P Require Import Instructions.
From S2P Require Import Ranking.
From S2P Require Import Broker.

(** * What a ledger promises *)

(** Which attempts a ledger has opened a send for: it opens one once, and forgets
    none. *)
Class LedgerLaws (L : Type) `{Ledger L} := {
  begun : L -> string -> Prop;
  begin_opens : forall context m l ticket l',
    begin_send context m l = (Ok ticket, l') -> ~ begun l (mf_attempt_id m) /\ begun l' (mf_attempt_id m);
  begin_keeps : forall context m l a, begun l a -> begun (begin_send context m l).2 a;
  finish_keeps : forall ticket outcome l a, begun l a -> begun (finish_send ticket outcome l).2 a;
}.

(** * What crosses to a provider *)

(** A provider with the requests it was sent and what it answered. *)
Record Logged (P : Type) := mkLogged { lg_inner : P; lg_log : list (RequestManifest * result ProviderReply ProviderError) }.
Arguments mkLogged {P}.
Arguments lg_inner {P}.
Arguments lg_log {P}.

#[export] Instance logged_provider {P} `{Provider P} : Provider (Logged P) := {
  serves p := serves (lg_inner p);
  send m p := let (answer, inner) := send m (lg_inner p) in (answer, mkLogged inner (lg_log p ++ [(m, answer)]));
}.

(** * Calls *)

Inductive BrokerCall (L : Type) :=
  | Prepare (purpose : string) (config : Config) (world inputs : string) (origin : InputOrigin) (facts : RankingFacts)
  | PrepareCall (purpose : string) (config : Config) (world inputs : string) (contract : CallContract) (facts : RankingFacts)
  | Dispatch (world : string) (manifest : RequestManifest)
  | DispatchChoice (world attempt_id connection : string)
  | TakePending (attempt_id : string)
  | CancelAttempt (attempt_id : string)
  | SetRights (rights : list string)
  | SetConfig (config : Config)
  | SetLearning (definition : LearningDefinition)
  | SetRoot (root : option path)
  | Elsewhere (f : L -> L).
Arguments Prepare {L}.
Arguments PrepareCall {L}.
Arguments Dispatch {L}.
Arguments DispatchChoice {L}.
Arguments TakePending {L}.
Arguments CancelAttempt {L}.
Arguments SetRights {L}.
Arguments SetConfig {L}.
Arguments SetLearning {L}.
Arguments SetRoot {L}.
Arguments Elsewhere {L}.

Section Calls.
Context {P L : Type} `{Provider P} `{Ledger L}.
Variable os : TargetOs.
Variable recorded_models : string -> list CatalogModel.
Variable sha256_hex : string -> string.
Variable generate : nat -> string.
Variable fs : nat -> Fs.

(** The broker and the ledger after a call. *)
Definition bcall (c : BrokerCall L) (s : Broker P * L) : Broker P * L :=
  let on_broker f := (f s.1, s.2) in
  match c with
  | Prepare purpose config world inputs origin facts =>
      on_broker (fun b => (prepare_with_facts os recorded_models sha256_hex generate fs purpose config world inputs origin facts b).2)
  | PrepareCall purpose config world inputs contract facts =>
      on_broker (fun b => (prepare_call_with_facts os recorded_models sha256_hex generate fs purpose config world inputs contract facts b).2)
  | Dispatch world manifest => (dispatch os sha256_hex generate world manifest s).2
  | DispatchChoice world attempt_id connection =>
      (dispatch_fallback_choice os sha256_hex generate world attempt_id connection s).2
  | TakePending attempt_id => on_broker (fun b => (take_pending_choice attempt_id b).2)
  | CancelAttempt attempt_id => on_broker (fun b => (cancel_attempt attempt_id b).2)
  | SetRights rights => on_broker (set_account_rights rights)
  | SetConfig config => on_broker (set_config config)
  | SetLearning definition => on_broker (set_learning_definition definition)
  | SetRoot root => on_broker (set_instructions_root root)
  | Elsewhere f => (s.1, f s.2)
  end.

Definition bcalls (cs : list (BrokerCall L)) (s : Broker P * L) : Broker P * L := fold_left (fun s c => bcall c s) cs s.
End Calls.

(** The uses of the ledger between the broker's own keep what was opened. *)
Definition keeps_begun {L} `{LedgerLaws L} (c : BrokerCall L) : Prop :=
  match c with Elsewhere f => forall l a, begun l a -> begun (f l) a | _ => True end.
