(* ===== verification/BrokerThms.v ===== *)
(** Lemmas on the broker: the ways a send can go, the walk of a chain, and what the
    calls of a run keep. *)

From S2P Require Import Prelude.
From S2P Require Import Contracts.
From S2P Require Import Requests.
From S2P Require Import Learning.
From S2P Require Import Store.
From S2P Require Import LearningStore.
From S2P Require Import Routes.
From S2P Require Import Providers.
From S2P Require Import Instructions.
From S2P Require Import Ranking.
From S2P Require Import Broker.
From S2P Require Import BrokerCalls.

(** Evaluates the setters of a broker given field by field. *)
Ltac broker_cbv :=
  cbv [on_epochs on_entitlements on_admissions on_accounting on_cancelled on_pending on_paused on_bound_profile on_learning
       on_root on_conflicts on_drawn on_moment with_view with_provider bk_provider bk_epochs bk_entitlements bk_admissions
       bk_accounting bk_connections bk_profiles bk_purposes bk_cancelled bk_pending bk_paused bk_bound_profile bk_learning
       bk_root bk_conflicts bk_drawn bk_moment].

(** Narrowing keeps everything but the model. *)
Lemma narrow_attempt connection m : mf_attempt_id (narrow connection m) = mf_attempt_id m.
Proof. unfold narrow. by destruct (mf_model m). Qed.

Lemma mint_attempt {P} sha256_hex generate admission model connection leg (b : Broker P) :
  mf_attempt_id (mint_substitute sha256_hex generate admission model connection leg b).1.1 = generate (bk_drawn b).
Proof. reflexivity. Qed.

(** * The ways a send can go *)

Section Sends.
Context {P L : Type} `{Provider P} `{Ledger L}.
Implicit Types (b : Broker P) (l : L).

(** The context a send is opened in. *)
Definition send_context (m : RequestManifest) connection parent b : SendContext :=
  mkSendContext (mf_purpose m) connection parent (bk_admissions b !! mf_attempt_id m ≫= ad_ranking_basis).

Inductive sent (m : RequestManifest) (connection : string) (parent : option string) (b : Broker P) (l : L) :
    result ProviderReply SendFailure -> Broker P -> L -> Prop :=
  | NeverOpened e :
      provider_outcome_unknown e = false -> sent m connection parent b l (Err (FailProvider e)) b l
  | OpenRefused e l' :
      begin_send (send_context m connection parent b) (narrow connection m) l = (Err e, l') ->
      sent m connection parent b l (Err (FailLedger e)) b l'
  | SentDenied ticket l1 source p' outcome l' :
      begin_send (send_context m connection parent b) (narrow connection m) l = (Ok ticket, l1) ->
      send (narrow connection m) (bk_provider b) = (Err source, p') ->
      finish_send ticket outcome l1 = (Ok tt, l') ->
      sent m connection parent b l
        (Err (FailProvider (if (0 <? (settle_error source).1)%Z
                            then Retried (settle_error source).1 (settle_error source).2 else (settle_error source).2)))
        (with_provider (fun _ => p') b) l'
  | CloseRefused ticket l1 answer p' outcome e l' :
      begin_send (send_context m connection parent b) (narrow connection m) l = (Ok ticket, l1) ->
      send (narrow connection m) (bk_provider b) = (answer, p') ->
      finish_send ticket outcome l1 = (Err e, l') ->
      sent m connection parent b l (Err (FailLedger e)) (with_provider (fun _ => p') b) l'
  | SentAnswered ticket l1 reply p' outcome l' record :
      begin_send (send_context m connection parent b) (narrow connection m) l = (Ok ticket, l1) ->
      send (narrow connection m) (bk_provider b) = (Ok reply, p') ->
      finish_send ticket outcome l1 = (Ok tt, l') ->
      sent m connection parent b l (Ok reply)
        (clear_attempt (mf_attempt_id m) (on_accounting (<[mf_attempt_id m := record]>) (with_provider (fun _ => p') b))) l'.

Lemma complete_send_sent m connection parent b l :
  sent m connection parent b l (complete_send m connection parent (b, l)).1
    (complete_send m connection parent (b, l)).2.1 (complete_send m connection parent (b, l)).2.2.
Proof.
  unfold complete_send. destruct (bk_connections b !! connection) as [entry|]; [|by apply NeverOpened].
  destruct (serves (bk_provider b) connection entry); cbn [negb];
    [|apply NeverOpened; by destruct (dialect_for connection)].
  rewrite !narrow_attempt. replace (mf_purpose (narrow connection m)) with (mf_purpose m)
    by (unfold narrow; by destruct (mf_model m)).
  fold (send_context m connection parent b).
  destruct (begin_send _ _ l) as [[ticket|e] l1] eqn:Hbegin; [|by apply OpenRefused].
  destruct (send _ _) as [[reply|source] p'] eqn:Hsend.
  - destruct (finish_send _ _ l1) as [[[]|e] l'] eqn:Hfinish; cbn.
    + by eapply SentAnswered.
    + by eapply CloseRefused.
  - destruct (settle_error source) as [retries settled] eqn:Hsettle.
    destruct (finish_send _ _ l1) as [[[]|e] l'] eqn:Hfinish; cbn.
    + pose proof (SentDenied m connection parent b l ticket l1 source p' _ l' Hbegin Hsend Hfinish) as Hs.
      rewrite Hsettle in Hs. exact Hs.
    + by eapply CloseRefused.
Qed.

(** A send that is not answered touches the provider alone. *)
Lemma complete_send_failed m connection parent s e :
  (complete_send m connection parent s).1 = Err e ->
  exists p', (complete_send m connection parent s).2.1 = with_provider (fun _ => p') s.1.
Proof.
  destruct s as [b l]. pose proof (complete_send_sent m connection parent b l) as Hs.
  destruct (complete_send _ _ _ _) as [answer [b' l']]. cbn in *. intros ->.
  inversion Hs; subst; eauto; exists (bk_provider b'); by destruct b'.
Qed.

Lemma complete_send_answered m connection parent s reply :
  (complete_send m connection parent s).1 = Ok reply ->
  exists p' record, (complete_send m connection parent s).2.1 =
    clear_attempt (mf_attempt_id m) (on_accounting (<[mf_attempt_id m := record]>) (with_provider (fun _ => p') s.1)).
Proof.
  destruct s as [b l]. pose proof (complete_send_sent m connection parent b l) as Hs.
  destruct (complete_send _ _ _ _) as [answer [b' l']]. cbn in *. intros ->. inversion Hs; subst; eauto.
Qed.
End Sends.

(** * Changes that leave no trace *)

Section Quiet.
Context {P : Type}.
Implicit Types b : Broker P.

(** Only the provider moved, and identifiers were drawn. *)
Definition quiet b b' : Prop :=
  exists p n, bk_drawn b <= n /\ b' = on_drawn (fun _ => n) (with_provider (fun _ => p) b).

#[export] Instance quiet_preorder : PreOrder quiet.
Proof.
  split.
  - intros b. exists (bk_provider b), (bk_drawn b). split; [done|]. by destruct b.
  - intros b b1 b2 (p & n & Hn & ->) (p' & n' & Hn' & ->). exists p', n'. split; [|done]. cbn in *. lia.
Qed.

Lemma quiet_provider p b : quiet b (with_provider (fun _ => p) b).
Proof. exists p, (bk_drawn b). split; [done|]. by destruct b. Qed.

(** Every identifier the broker knows was drawn. *)
Definition drawn_by (generate : nat -> string) (n : nat) (id : string) : Prop := exists i, i < n /\ id = generate i.
Definition ids_drawn (generate : nat -> string) b : Prop :=
  (forall id, is_Some (bk_admissions b !! id) -> drawn_by generate (bk_drawn b) id) /\
  (forall id, is_Some (bk_accounting b !! id) -> drawn_by generate (bk_drawn b) id) /\
  (forall id, id ∈ bk_cancelled b -> drawn_by generate (bk_drawn b) id).

Lemma drawn_by_le generate n n' id : n <= n' -> drawn_by generate n id -> drawn_by generate n' id.
Proof. intros Hn (i & Hi & ->). exists i. split; [lia|done]. Qed.

Lemma drawn_by_next generate n : drawn_by generate (S n) (generate n).
Proof. exists n. split; [lia|done]. Qed.

Lemma not_drawn_yet generate `{!Inj (=) (=) generate} n i : n <= i -> ~ drawn_by generate n (generate i).
Proof. intros Hn (j & Hj & E). apply (inj generate) in E. lia. Qed.

Lemma quiet_ids_drawn generate b b' : quiet b b' -> ids_drawn generate b -> ids_drawn generate b'.
Proof.
  intros (p & n & Hn & ->) (Had & Hac & Hca). unfold ids_drawn. cbn.
  split_and!; intros id Hid; (eapply drawn_by_le; [exact Hn|]); auto.
Qed.
End Quiet.

(** A send that was not answered leaves no trace. *)
Lemma failed_quiet {P L} `{Provider P} `{Ledger L} m connection parent (s : Broker P * L) failure s1 :
  complete_send m connection parent s = (Err failure, s1) -> quiet s.1 s1.1.
Proof.
  intros Hsend. destruct (complete_send_failed m connection parent s failure) as [p Hb]; [by rewrite Hsend|].
  rewrite Hsend in Hb. cbn in Hb. rewrite Hb. apply quiet_provider.
Qed.

(** * Substitutes *)

Section Substitutes.
Context {P L : Type} `{Provider P} `{Ledger L}.
Variable sha256_hex : string -> string.
Variable generate : nat -> string.
Implicit Types (b : Broker P) (l : L).
Local Abbreviation mint := (mint_substitute sha256_hex generate).

(** A substitute is minted, sent, and abandoned when it was not answered. *)
Definition try_substitute (admission : AdmissionRecord) (model : ModelAssign) (connection leg attempt : string)
    (s : Broker P * L) : result ProviderReply SendFailure * (Broker P * L) :=
  let '((substitute, displaced), b) := mint admission model connection leg s.1 in
  let (answer, s) := complete_send substitute connection (Some attempt) (b, s.2) in
  match answer with
  | Ok reply => (Ok reply, s)
  | Err failure => (Err failure, (abandon_substitute (mf_attempt_id substitute) (ad_purpose admission) displaced s.1, s.2))
  end.

Lemma undone b f f' g g' p :
  f (f' (bk_epochs b)) = bk_epochs b -> g (g' (bk_admissions b)) = bk_admissions b ->
  on_epochs f (on_admissions g (with_provider (fun _ => p) (on_admissions g' (on_drawn S (on_epochs f' b))))) =
    on_drawn (fun _ => S (bk_drawn b)) (with_provider (fun _ => p) b).
Proof. destruct b. broker_cbv. by intros -> ->. Qed.

Lemma abandon_mint `{!Inj (=) (=) generate} admission model connection leg b p :
  ids_drawn generate b ->
  quiet b (abandon_substitute (generate (bk_drawn b)) (ad_purpose admission) (bk_epochs b !! ad_purpose admission)
             (with_provider (fun _ => p) (mint admission model connection leg b).2)).
Proof.
  intros (Had & _). exists p, (S (bk_drawn b)). split; [lia|].
  assert (Hnew : bk_admissions b !! generate (bk_drawn b) = None).
  { apply eq_None_not_Some. intros Hs. by apply Had, not_drawn_yet in Hs. }
  unfold abandon_substitute, restore_epoch. destruct (bk_epochs b !! ad_purpose admission) as [previous|] eqn:Hep.
  all: apply undone; [|by rewrite delete_insert_id].
  - by rewrite insert_insert_eq, insert_id.
  - by rewrite delete_insert_id.
Qed.

Lemma try_substitute_failed `{!Inj (=) (=) generate} admission model connection leg attempt s failure :
  ids_drawn generate s.1 ->
  (try_substitute admission model connection leg attempt s).1 = Err failure ->
  quiet s.1 (try_substitute admission model connection leg attempt s).2.1.
Proof.
  intros Hdrawn. unfold try_substitute. destruct (mint admission model connection leg s.1) as [[substitute displaced] b] eqn:Hm.
  destruct (complete_send substitute connection (Some attempt) (b, s.2)) as [[reply|e] s'] eqn:Hsend; [done|]. cbn. intros _.
  destruct (complete_send_failed substitute connection (Some attempt) (b, s.2) e) as [p' Hp']; [by rewrite Hsend|].
  rewrite Hsend in Hp'. cbn in Hp'. rewrite Hp'.
  pose proof (abandon_mint admission model connection leg s.1 p' Hdrawn) as Hq. rewrite Hm in Hq. cbn in Hq.
  unfold mint_substitute in Hm. cbn in Hm. by simplify_eq/=.
Qed.

(** What an answered substitute leaves of the broker. *)
Definition answered admission model connection leg p record b : Broker P :=
  clear_attempt (generate (bk_drawn b)) (on_accounting (<[generate (bk_drawn b) := record]>)
    (with_provider (fun _ => p) (mint admission model connection leg b).2)).

Lemma try_substitute_answered admission model connection leg attempt s reply :
  (try_substitute admission model connection leg attempt s).1 = Ok reply ->
  exists p record, (try_substitute admission model connection leg attempt s).2.1 =
    answered admission model connection leg p record s.1.
Proof.
  unfold try_substitute, answered. destruct (mint admission model connection leg s.1) as [[substitute displaced] b] eqn:Hm.
  destruct (complete_send substitute connection (Some attempt) (b, s.2)) as [[reply'|e] s'] eqn:Hsend; [|done]. cbn. intros _.
  destruct (complete_send_answered substitute connection (Some attempt) (b, s.2) reply') as (p' & record & Hb); [by rewrite Hsend|].
  rewrite Hsend in Hb. cbn in Hb. exists p', record. rewrite Hb.
  unfold mint_substitute in Hm. cbn in Hm. by simplify_eq/=.
Qed.
End Substitutes.

(** * The record of what crossed *)

Section Log.
Context {P L : Type} `{Provider P} `{Ledger L}.
Implicit Types (b : Broker (Logged P)) (l : L).

Definition log_of b := lg_log (bk_provider b).

(** An answer that proves the provider applied nothing. *)
Definition denied (answer : result ProviderReply ProviderError) : bool :=
  match answer with
  | Ok _ => false
  | Err e => ((settle_error e).1 <=? 0)%Z && negb (provider_outcome_unknown (settle_error e).2)
  end.

(** A failure of a send the walk may step past. *)
Definition definitive (failure : SendFailure) : bool :=
  match failure with FailProvider e => negb (provider_outcome_unknown e) | FailLedger _ => false end.

Lemma send_logged m (p : Logged P) answer p' : send m p = (answer, p') -> lg_log p' = lg_log p ++ [(m, answer)].
Proof. cbn. destruct (send m (lg_inner p)). by intros [= <- <-]. Qed.

Lemma settled_denied e :
  provider_outcome_unknown
    (if (0 <? (settle_error e).1)%Z then Retried (settle_error e).1 (settle_error e).2 else (settle_error e).2) = false ->
  denied (Err e) = true.
Proof.
  unfold denied. destruct (Z.ltb_spec 0 (settle_error e).1) as [Hr|Hr]; [done|]. intros ->.
  by apply Z.leb_le in Hr as ->.
Qed.

(** A send puts at most its own request in the record, and steps past a denial alone. *)
Lemma complete_send_logged m connection parent s :
  exists new, log_of (complete_send m connection parent s).2.1 = log_of s.1 ++ new /\
    (new = [] \/ exists answer, new = [(narrow connection m, answer)] /\
       (forall e, (complete_send m connection parent s).1 = Err e -> definitive e = true -> denied answer = true)).
Proof.
  destruct s as [b l]. pose proof (complete_send_sent m connection parent b l) as Hs.
  destruct (complete_send _ _ _ _) as [answer [b' l']]. cbn in *.
  inversion Hs; subst; try (exists []; rewrite app_nil_r; by eauto).
  all: match goal with Hsent : send _ _ = (_, _) |- _ => pose proof (send_logged _ _ _ _ Hsent) as Hlog; clear Hsent end.
  all: eexists; split; [exact Hlog|]; right; eexists; split; [done|]; intros e' [= <-].
  - cbn. intros ?%negb_true_iff. by apply settled_denied.
  - done.
Qed.

(** Both requests ask for the same. *)
Record same_request (m m' : RequestManifest) : Prop := {
  same_purpose : mf_purpose m' = mf_purpose m;
  same_world : mf_world m' = mf_world m;
  same_effort : mf_effort m' = mf_effort m;
  same_instructions : mf_instructions m' = mf_instructions m;
  same_tools : mf_tools m' = mf_tools m;
  same_reserve : mf_output_reserve m' = mf_output_reserve m;
  same_inputs : mf_inputs m' = mf_inputs m;
  same_digest : mf_inputs_digest m' = mf_inputs_digest m;
  same_origin : mf_input_origin m' = mf_input_origin m;
  same_bound : mf_cost_bound m' = mf_cost_bound m;
}.

Lemma same_request_trans m1 m2 m3 : same_request m1 m2 -> same_request m2 m3 -> same_request m1 m3.
Proof. intros [] []. constructor; congruence. Qed.

Lemma narrow_same connection m : same_request m (narrow connection m).
Proof. unfold narrow. destruct (mf_model m); by constructor. Qed.

Variable sha256_hex : string -> string.
Variable generate : nat -> string.

Lemma mint_same admission model connection leg b :
  same_request (ad_manifest admission) (mint_substitute sha256_hex generate admission model connection leg b).1.1.
Proof. by constructor. Qed.

(** What a substitute carries across. *)
Definition carries (admission : AdmissionRecord) (model : ModelAssign) (m : RequestManifest) : Prop :=
  same_request (ad_manifest admission) m /\ mf_model m = model.

Lemma narrow_idem connection m :
  mf_model m <> AutoModel None -> (forall names, mf_model m = AutoModel (Some names) -> names = [connection]) ->
  narrow connection m = m.
Proof.
  intros Hne Hall. unfold narrow. destruct (mf_model m) as [|[names|]|fixed] eqn:Hm; try done.
  rewrite <- (Hall names eq_refl). destruct m. cbn in Hm. by subst.
Qed.

(** The models a substitute is minted with. *)
Definition substitute_model (model : ModelAssign) (connection : string) : Prop :=
  model = AutoModel (Some [connection]) \/ exists fixed, model = Fixed fixed.

Lemma narrow_substitute admission model connection leg b :
  substitute_model model connection ->
  narrow connection (mint_substitute sha256_hex generate admission model connection leg b).1.1 =
    (mint_substitute sha256_hex generate admission model connection leg b).1.1.
Proof.
  intros [->|[fixed ->]]; apply narrow_idem; cbn; try done. intros names. by intros [= <-].
Qed.

Lemma try_substitute_logged admission model connection leg attempt s :
  substitute_model model connection ->
  exists new, log_of (try_substitute sha256_hex generate admission model connection leg attempt s).2.1 = log_of s.1 ++ new /\
    (new = [] \/ exists m answer, new = [(m, answer)] /\ carries admission model m /\
       mf_attempt_id m = generate (bk_drawn s.1) /\
       (forall e, (try_substitute sha256_hex generate admission model connection leg attempt s).1 = Err e ->
                  definitive e = true -> denied answer = true)).
Proof.
  intros Hmodel. unfold try_substitute.
  pose proof (mint_same admission model connection leg s.1) as Hsame.
  pose proof (narrow_substitute admission model connection leg s.1 Hmodel) as Hnarrow.
  destruct (mint_substitute _ _ admission model connection leg s.1) as [[m displaced] b] eqn:Hm. cbn in Hsame, Hnarrow.
  destruct (complete_send_logged m connection (Some attempt) (b, s.2)) as (new & Hlog & Hnew).
  destruct (complete_send m connection (Some attempt) (b, s.2)) as [answer s'] eqn:Hsend. cbn in Hlog, Hnew.
  unfold mint_substitute in Hm. cbn in Hm. assert (Hb : log_of b = log_of s.1) by by simplify_eq/=.
  rewrite Hb in Hlog. exists new. split.
  - by destruct answer; cbn; [|unfold restore_epoch; destruct displaced].
  - destruct Hnew as [->|(answer' & -> & Hdenied)]; [by left|]. right. rewrite Hnarrow.
    exists m, answer'. split_and!; [done| |by simplify_eq/=|].
    + split; [done|]. by simplify_eq/=.
    + intros e He. apply Hdenied. by destruct answer; simplify_eq/=.
Qed.
End Log.

(** * The walk of a chain, and the ways a dispatch can go *)

Section Dispatch.
Context {P L : Type} `{Provider P} `{Ledger L}.
Variable os : TargetOs.
Variable sha256_hex : string -> string.
Variable generate : nat -> string.
Implicit Types (b : Broker P) (l : L) (s : Broker P * L).

(** The substitute for an entry of a chain. *)
Definition try_entry (admission : AdmissionRecord) (attempt : string) (entry : FixedModel) s :=
  try_substitute sha256_hex generate admission (Fixed entry) (fm_connection entry) "fallback" attempt s.

Inductive walked (admission : AdmissionRecord) (attempt : string) :
    list FixedModel -> Broker P * L -> result ProviderReply ModelError -> Broker P * L -> Prop :=
  | WalkedOut s e : walked admission attempt [] s (Err e) s
  | Skipped entry chain s r s' :
      walked admission attempt chain s r s' -> walked admission attempt (entry :: chain) s r s'
  | SteppedPast entry chain s failure s1 r s' :
      candidate_rejection os (ad_purpose admission) (fm_connection entry) s.1 = None ->
      try_entry admission attempt entry s = (Err failure, s1) -> definitive failure = true ->
      walked admission attempt chain s1 r s' -> walked admission attempt (entry :: chain) s r s'
  | Stopped entry chain s failure s1 e :
      candidate_rejection os (ad_purpose admission) (fm_connection entry) s.1 = None ->
      try_entry admission attempt entry s = (Err failure, s1) -> definitive failure = false ->
      walked admission attempt (entry :: chain) s (Err e) s1
  | Taken entry chain s reply s1 :
      candidate_rejection os (ad_purpose admission) (fm_connection entry) s.1 = None ->
      try_entry admission attempt entry s = (Ok reply, s1) ->
      walked admission attempt (entry :: chain) s (Ok reply) (on_admissions (delete attempt) s1.1, s1.2).

Lemma walk_chain_walked admission attempt source chain rejected attempted s :
  let r := walk_chain os sha256_hex generate admission attempt source chain rejected attempted s in
  walked admission attempt chain s r.1 r.2.
Proof.
  revert rejected attempted s. induction chain as [|entry chain IH]; intros rejected attempted s; [apply WalkedOut|].
  cbn [walk_chain]. cbn zeta in IH |- *.
  destruct (existsb _ _); [apply Skipped, IH|].
  destruct (candidate_rejection _ _ _ _) eqn:Hrej; [apply Skipped, IH|].
  destruct (try_entry admission attempt entry s) as [answer s1] eqn:Htry. pose proof Htry as Htry'.
  unfold try_entry, try_substitute in Htry. destruct entry as [connection model_id]. cbn [fm_connection fm_model_id] in *.
  destruct (mint_substitute _ _ _ _ _ _ _) as [[m displaced] b].
  destruct (complete_send _ _ _ _) as [[reply|[e|e]] [b' l']]; simplify_eq/=.
  - by eapply (Taken _ _ (mkFixed connection model_id) _ _ _ _ Hrej Htry').
  - destruct (provider_outcome_unknown e) eqn:He.
    + eapply Stopped; [exact Hrej|exact Htry'|]. cbn. by rewrite He.
    + eapply SteppedPast; [exact Hrej|exact Htry'| |apply IH]. cbn. by rewrite He.
  - by eapply Stopped.
Qed.

(** How a dispatch ends after its first send. *)
Inductive settled (m : RequestManifest) (admission : AdmissionRecord) :
    result ProviderReply SendFailure -> Broker P * L -> result ProviderReply ModelError -> Broker P * L -> Prop :=
  | SettledAnswer reply s : settled m admission (Ok reply) s (Ok reply) s
  | SettledFailure failure s e : settled m admission (Err failure) s (Err e) s
  | SettledPause failure s pending served :
      ad_fallback admission = ManualFallback ->
      pd_attempt_id pending = mf_attempt_id m -> served = list_to_set (pd_candidates pending) ->
      (forall name, name ∈ pd_candidates pending -> candidate_rejection os (ad_purpose admission) name s.1 = None) ->
      settled m admission (Err failure) s (Err (ManualFallbackPending (mf_attempt_id m) (ad_purpose admission)))
        (on_pending (<[mf_attempt_id m := pending]>) (on_paused (<[mf_attempt_id m := served]>) s.1), s.2)
  | SettledWalk failure s chain r s' :
      ad_fallback admission = AutoFallback chain ->
      definitive failure = true ->
      walked admission (mf_attempt_id m) chain s r s' ->
      settled m admission (Err failure) s r s'.

Inductive dispatched (m : RequestManifest) (s : Broker P * L) : result ProviderReply ModelError -> Broker P * L -> Prop :=
  | NotDispatched e : dispatched m s (Err e) s
  | Dispatched admission answer s1 r s' :
      bk_accounting s.1 !! mf_attempt_id m = None ->
      mf_attempt_id m ∉ bk_cancelled s.1 ->
      bk_admissions s.1 !! mf_attempt_id m = Some admission ->
      ad_manifest admission = m ->
      en_version (bk_entitlements s.1) = ad_snapshot_version admission ->
      allows (bk_entitlements s.1) (ad_connection admission) = true ->
      complete_send m (ad_connection admission) None s = (answer, s1) ->
      settled m admission answer s1 r s' ->
      dispatched m s r s'.

Lemma fallback_or_fail_settled m admission e s :
  let r := fallback_or_fail os sha256_hex generate m admission e s in
  settled m admission (Err (FailProvider e)) s r.1 r.2.
Proof.
  unfold fallback_or_fail. destruct (ad_fallback admission) as [chain| |] eqn:Hf; [| |apply SettledFailure].
  - destruct (provider_outcome_unknown e) eqn:He; [apply SettledFailure|].
    eapply SettledWalk; [done| |apply walk_chain_walked]. cbn. by rewrite He.
  - destruct (filter _ _) eqn:Hc; [apply SettledFailure|]. apply SettledPause; try done.
    intros name Hname. cbn in Hname. rewrite <- Hc in Hname. apply list_elem_of_filter in Hname as [_ Hname].
    by apply list_elem_of_filter in Hname as [Hname _].
Qed.

Lemma dispatch_dispatched world m s :
  let r := dispatch os sha256_hex generate world m s in dispatched m s r.1 r.2.
Proof.
  destruct s as [b l]. unfold dispatch.
  case_bool_decide; cbn [negb]; [|apply NotDispatched].
  case_bool_decide as Hac; [apply NotDispatched|]. case_bool_decide as Hca; [apply NotDispatched|].
  destruct (bk_admissions b !! mf_attempt_id m) as [admission|] eqn:Had; [|apply NotDispatched].
  case_bool_decide as Hm; cbn [negb]; [|apply NotDispatched].
  case_bool_decide as Hv; cbn [negb orb]; [|apply NotDispatched].
  destruct (allows (bk_entitlements b) (ad_connection admission)) eqn:Hallows; cbn [negb]; [|apply NotDispatched].
  destruct (complete_send m (ad_connection admission) None (b, l)) as [answer s1] eqn:Hsend.
  apply (Dispatched m (b, l) admission answer s1); try done; [by apply eq_None_not_Some|].
  destruct answer as [reply|[e|e]]; [apply SettledAnswer|apply fallback_or_fail_settled|apply SettledFailure].
Qed.

(** A pick of a paused attempt. *)
Inductive picked (attempt connection : string) (s : Broker P * L) : result ProviderReply ModelError -> Broker P * L -> Prop :=
  | NotPicked e : picked attempt connection s (Err e) s
  | Picked admission served model answer s1 r s' :
      bk_admissions s.1 !! attempt = Some admission ->
      bk_paused s.1 !! attempt = Some served ->
      connection ∈ served ->
      candidate_rejection os (ad_purpose admission) connection s.1 = None ->
      substitute_model model connection ->
      try_substitute sha256_hex generate admission model connection "manual" attempt s = (answer, s1) ->
      match answer with
      | Ok reply => r = Ok reply /\ s' = (clear_attempt attempt s1.1, s1.2)
      | Err _ => (exists e, r = Err e) /\ s' = s1
      end ->
      picked attempt connection s r s'.

Lemma dispatch_choice_picked world attempt connection s :
  let r := dispatch_fallback_choice os sha256_hex generate world attempt connection s in
  picked attempt connection s r.1 r.2.
Proof.
  destruct s as [b l]. unfold dispatch_fallback_choice.
  destruct (bk_admissions b !! attempt) as [admission|] eqn:Had; [|apply NotPicked].
  destruct (bk_paused b !! attempt) as [served|] eqn:Hpaused; [|apply NotPicked].
  case_bool_decide; cbn [negb]; [|apply NotPicked].
  destruct (blind_retry_refused _ _); [apply NotPicked|].
  case_bool_decide as Hserved; cbn [negb]; [|apply NotPicked].
  destruct (candidate_rejection os (ad_purpose admission) connection b) eqn:Hrej; [apply NotPicked|].
  set (model := match mf_model (ad_manifest admission) with Fixed _ => _ | _ => _ end).
  assert (Hmodel : substitute_model model connection).
  { subst model. destruct (mf_model (ad_manifest admission)); [by left..|right; eauto]. }
  destruct (try_substitute sha256_hex generate admission model connection "manual" attempt (b, l)) as [answer s1] eqn:Htry.
  eapply (Picked attempt connection (b, l) admission served model answer s1); try done.
  unfold try_substitute in Htry. cbn [fst snd] in Htry.
  destruct (mint_substitute _ _ _ _ _ _ _) as [[m displaced] b1].
  destruct (complete_send _ _ _ _) as [[reply|[e|e]] [b' l']]; simplify_eq/=; eauto.
Qed.
End Dispatch.
