(* ===== verification/BrokerRuns.v ===== *)
(** The state of the attempts of a broker, and that every call keeps it: an attempt
    is admitted, accounted or cancelled, never two of them; a pause belongs to an
    admitted attempt of manual fallback; an admission of the current snapshot is to
    an entitled connection. *)

From S2P Require Import Prelude.
From S2P Require Import Contracts.
From S2P Require Import Requests.
From S2P Require Import Learning.
From S2P Require Import Store.
From S2P Require Import LearningStore.
From S2P Require Import Routes.
From S2P Require Import Providers.
From S2P Require Import Instructions.
From S2P Require Import Ranking.
From S2P Require Import Broker.
From S2P Require Import BrokerCalls.
From S2P Require Import BrokerThms.

(** * Preparations *)

Section Prepared.
Context {P : Type}.
Variable os : TargetOs.
Variable recorded_models : string -> list CatalogModel.
Variable sha256_hex : string -> string.
Variable generate : nat -> string.
Variable fs : nat -> Fs.
Implicit Types b : Broker P.

(** What a preparation does: it looks for instructions, and admits one request. *)
Inductive prepared (b : Broker P) : result RequestManifest ModelError -> Broker P -> Prop :=
  | NotPrepared e moment conflicts :
      prepared b (Err e) (on_moment (fun _ => moment) (on_conflicts (fun _ => conflicts) b))
  | Prepared admission config epochs binding moment conflicts :
      mf_attempt_id (ad_manifest admission) = generate (bk_drawn b) ->
      ad_snapshot_version admission = en_version (bk_entitlements b) ->
      allows (bk_entitlements b) (ad_connection admission) = true ->
      prepared b (Ok (ad_manifest admission))
        (on_bound_profile (fun _ => binding) (with_view config (on_epochs (fun _ => epochs)
           (on_admissions (<[generate (bk_drawn b) := admission]>) (on_drawn S
             (on_moment (fun _ => moment) (on_conflicts (fun _ => conflicts) b))))))).

Lemma freeze_prepared config purpose request facts moment conflicts b :
  let r := freeze_manifest os recorded_models sha256_hex generate config purpose request facts
             (on_moment (fun _ => moment) (on_conflicts (fun _ => conflicts) b)) in
  prepared b r.1 r.2.
Proof.
  unfold freeze_manifest. destruct (rbind _ _) as [[resolved choice]|e] eqn:Hr; [|apply NotPrepared].
  inv_ret. simplify_eq. match goal with E : rank_connection _ _ _ _ _ _ _ _ _ = Ok _ |- _ => rename E into Hrank end.
  apply rank_connection_entitled in Hrank as [Hallows _]. cbn in Hallows.
  destruct (_ <? _)%Z; [apply NotPrepared|]. unfold context_epoch, draw. cbn [fst snd].
  match goal with |- context [on_admissions (<[_ := ?admission]>)] => pose proof (Prepared b admission config) as Hp end.
  cbn in Hp. by apply (Hp _ _ moment conflicts).
Qed.

Lemma assemble_tidy purpose base b :
  exists moment conflicts, (assemble_instructions fs purpose base b).2 =
    on_moment (fun _ => moment) (on_conflicts (fun _ => conflicts) b).
Proof.
  unfold assemble_instructions. destruct (match bk_root b with Some _ => _ | None => _ end) as [[set moment]|e]; [by eauto|].
  exists (bk_moment b), (bk_conflicts b). by destruct b.
Qed.

Lemma prepare_prepared purpose config world inputs origin facts b :
  let r := prepare_with_facts os recorded_models sha256_hex generate fs purpose config world inputs origin facts b in
  prepared b r.1 r.2.
Proof.
  unfold prepare_with_facts. destruct (assemble_tidy purpose MANDATORY_INSTRUCTIONS b) as (moment & conflicts & Hb).
  destruct (assemble_instructions _ _ _ _) as [[part|e] b']; cbn in Hb; subst b'; [apply freeze_prepared|apply NotPrepared].
Qed.

Lemma prepare_call_prepared purpose config world inputs contract facts b :
  let r := prepare_call_with_facts os recorded_models sha256_hex generate fs purpose config world inputs contract facts b in
  prepared b r.1 r.2.
Proof.
  unfold prepare_call_with_facts. destruct (assemble_tidy purpose (cl_instructions contract) b) as (moment & conflicts & Hb).
  destruct (assemble_instructions _ _ _ _) as [[part|e] b']; cbn in Hb; subst b'; [apply freeze_prepared|apply NotPrepared].
Qed.
End Prepared.

(** * The state of the attempts *)

Section Attempts.
Context {P : Type}.
Variable generate : nat -> string.
Implicit Types b : Broker P.

Record attempts_ok b : Prop := {
  ok_drawn : ids_drawn generate b;
  ok_own : forall id ad, bk_admissions b !! id = Some ad -> mf_attempt_id (ad_manifest ad) = id;
  ok_accounted : forall id, is_Some (bk_accounting b !! id) -> bk_admissions b !! id = None /\ id ∉ bk_cancelled b;
  ok_cancelled : forall id, id ∈ bk_cancelled b -> bk_admissions b !! id = None;
  ok_paused : forall id served, bk_paused b !! id = Some served ->
    exists ad, bk_admissions b !! id = Some ad /\ ad_fallback ad = ManualFallback;
  ok_pending : forall id pd, bk_pending b !! id = Some pd ->
    pd_attempt_id pd = id /\ bk_paused b !! id = Some (list_to_set (pd_candidates pd));
  ok_entitled : forall id ad, bk_admissions b !! id = Some ad ->
    (ad_snapshot_version ad <= en_version (bk_entitlements b))%Z /\
    (ad_snapshot_version ad = en_version (bk_entitlements b) -> allows (bk_entitlements b) (ad_connection ad) = true);
}.

(** The parts of the broker the state of the attempts is in. *)
Definition attempts b :=
  (bk_admissions b, bk_accounting b, bk_cancelled b, bk_paused b, bk_pending b, bk_entitlements b).

Lemma attempts_ok_ext b b' :
  attempts b' = attempts b -> bk_drawn b <= bk_drawn b' -> attempts_ok b -> attempts_ok b'.
Proof.
  unfold attempts. intros E Hn [Hd Ho Ha Hc Hp Hq He]. injection E as E1 E2 E3 E4 E5 E6.
  constructor; rewrite ?E1, ?E2, ?E3, ?E4, ?E5, ?E6; try done.
  destruct Hd as (H1 & H2 & H3). unfold ids_drawn. rewrite E1, E2, E3.
  split_and!; intros id Hid; (eapply drawn_by_le; [exact Hn|]); auto.
Qed.

Lemma attempts_ok_quiet b b' : quiet b b' -> attempts_ok b -> attempts_ok b'.
Proof. intros (p & n & Hn & ->). by apply attempts_ok_ext. Qed.

Lemma attempts_ok_new (provider : P) : attempts_ok (broker_new provider).
Proof.
  constructor; cbn; try (intros ? [? ?]%lookup_empty_is_Some); try (intros ?? ?); try done.
  unfold ids_drawn. cbn. split_and!; intros id; try by intros []. set_solver.
Qed.

Context `{!Inj (=) (=) generate}.

(** An identifier not drawn yet is nowhere. *)
Lemma fresh_attempt b : attempts_ok b ->
  bk_admissions b !! generate (bk_drawn b) = None /\ bk_accounting b !! generate (bk_drawn b) = None /\
  (generate (bk_drawn b) ∉ bk_cancelled b) /\ bk_paused b !! generate (bk_drawn b) = None.
Proof.
  intros Hok. destruct (ok_drawn b Hok) as (H1 & H2 & H3).
  assert (Hn : ~ drawn_by generate (bk_drawn b) (generate (bk_drawn b))) by by apply not_drawn_yet.
  assert (Had : bk_admissions b !! generate (bk_drawn b) = None) by (apply eq_None_not_Some; auto).
  split_and!; [done|apply eq_None_not_Some; auto|auto|].
  destruct (bk_paused b !! _) as [served|] eqn:Hp; [|done]. apply (ok_paused b Hok) in Hp as (ad & Hp & _). congruence.
Qed.

Lemma ids_drawn_draw b : ids_drawn generate b -> ids_drawn generate (on_drawn S b).
Proof. apply quiet_ids_drawn. exists (bk_provider b), (S (bk_drawn b)). split; [lia|]. by destruct b. Qed.

(** A request is admitted under a fresh identifier. *)
Lemma attempts_ok_admit b ad :
  attempts_ok b -> mf_attempt_id (ad_manifest ad) = generate (bk_drawn b) ->
  ad_snapshot_version ad = en_version (bk_entitlements b) -> allows (bk_entitlements b) (ad_connection ad) = true ->
  attempts_ok (on_admissions (<[generate (bk_drawn b) := ad]>) (on_drawn S b)).
Proof.
  intros Hok Hid Hv Hallows. destruct (fresh_attempt b Hok) as (Fad & Fac & Fca & Fpa).
  destruct (ids_drawn_draw b (ok_drawn b Hok)) as (D1 & D2 & D3).
  constructor; cbn.
  - split_and!; cbn; [|done|done]. intros id [ad' Hs]. apply lookup_insert_Some in Hs as [[<- _]|[_ Hs]].
    + apply drawn_by_next.
    + by apply D1.
  - intros id ad' [[<- <-]|[_ Hs]]%lookup_insert_Some; [done|by apply (ok_own b Hok)].
  - intros id Hs. destruct (ok_accounted b Hok id Hs) as [H1 H2]. split; [|done].
    rewrite lookup_insert_ne; [done|]. intros <-. by rewrite Fac in Hs; destruct Hs.
  - intros id Hs. rewrite lookup_insert_ne; [by apply (ok_cancelled b Hok)|]. by intros <-.
  - intros id served Hs. destruct (ok_paused b Hok id served Hs) as (ad' & Had & Hm). exists ad'. split; [|done].
    rewrite lookup_insert_ne; [done|]. intros <-. congruence.
  - by apply (ok_pending b Hok).
  - intros id ad' [[<- <-]|[_ Hs]]%lookup_insert_Some; [|by eapply (ok_entitled b Hok)]. split; [lia|done].
Qed.

(** An admission ends. *)
Lemma attempts_ok_drop b id : attempts_ok b -> bk_paused b !! id = None -> attempts_ok (on_admissions (delete id) b).
Proof.
  intros Hok Hp. destruct (ok_drawn b Hok) as (D1 & D2 & D3). constructor; cbn.
  - split_and!; cbn; [|done|done]. intros i [ad [_ Hs]%lookup_delete_Some]. by apply D1.
  - intros i ad [_ Hs]%lookup_delete_Some. by apply (ok_own b Hok).
  - intros i Hs. destruct (ok_accounted b Hok i Hs) as [H1 H2]. split; [|done]. apply lookup_delete_None. by right.
  - intros i Hs. apply lookup_delete_None. right. by apply (ok_cancelled b Hok).
  - intros i served Hs. destruct (ok_paused b Hok i served Hs) as (ad' & Had & Hm). exists ad'. split; [|done].
    rewrite lookup_delete_ne; [done|]. intros <-. congruence.
  - by apply (ok_pending b Hok).
  - intros i ad [_ Hs]%lookup_delete_Some. by apply (ok_entitled b Hok i).
Qed.

Lemma attempts_ok_clear b id : attempts_ok b -> attempts_ok (clear_attempt id b).
Proof.
  intros Hok. apply (attempts_ok_ext (on_admissions (delete id) (on_paused (delete id) (on_pending (delete id) b)))); [done..|].
  apply attempts_ok_drop; [|cbn; apply lookup_delete_eq]. destruct Hok as [Hd Ho Ha Hc Hp Hq He]. constructor; cbn; try done.
  - intros i served [_ Hs]%lookup_delete_Some. by eapply Hp.
  - intros i pd [Hi Hs]%lookup_delete_Some. destruct (Hq i pd Hs) as [H1 H2]. split; [done|]. by rewrite lookup_delete_ne.
Qed.

(** A request is accounted, and its admission ends with it. *)
Lemma attempts_ok_account b id record :
  attempts_ok b -> is_Some (bk_admissions b !! id) ->
  attempts_ok (clear_attempt id (on_accounting (<[id := record]>) b)).
Proof.
  intros Hok Hs. pose proof (attempts_ok_clear b id Hok) as [Hd Ho Ha Hc Hp Hq He].
  assert (Hid : drawn_by generate (bk_drawn b) id) by by apply (proj1 (ok_drawn b Hok)).
  assert (Hca : id ∉ bk_cancelled b).
  { intros Hin%(ok_cancelled b Hok). rewrite Hin in Hs. by destruct Hs. }
  constructor; try done.
  - destruct Hd as (D1 & D2 & D3). split_and!; [done| |done]. cbn. intros i [r [[<- _]|[_ Hr]]%lookup_insert_Some]; [done|].
    apply D2. cbn. eauto.
  - cbn. intros i [r [[<- _]|[_ Hr]]%lookup_insert_Some]; [|apply Ha; cbn; eauto]. split; [apply lookup_delete_eq|done].
Qed.

(** A request is cancelled. *)
Lemma attempts_ok_cancel b id : attempts_ok b -> attempts_ok (cancel_attempt id b).2.
Proof.
  intros Hok. unfold cancel_attempt. case_bool_decide as Hac; [done|].
  destruct (bk_admissions b !! id) as [ad|] eqn:Had; [|done]. cbn [snd].
  pose proof (attempts_ok_clear b id Hok) as [Hd Ho Ha Hc Hp Hq He].
  assert (Hid : drawn_by generate (bk_drawn b) id) by (apply (proj1 (ok_drawn b Hok)); eauto).
  constructor; try done.
  - destruct Hd as (D1 & D2 & D3). split_and!; [done|done|]. cbn. intros i [->%elem_of_singleton|Hi]%elem_of_union; auto.
  - cbn. intros i Hs. destruct (Ha i Hs) as [H1 H2]. split; [done|]. cbn in H2. intros [->%elem_of_singleton|Hi]%elem_of_union; auto.
  - cbn. intros i [->%elem_of_singleton|Hi]%elem_of_union; [apply lookup_delete_eq|]. by apply Hc.
Qed.

(** An attempt pauses for a choice. *)
Lemma attempts_ok_pause b id ad pending :
  attempts_ok b -> bk_admissions b !! id = Some ad -> ad_fallback ad = ManualFallback -> pd_attempt_id pending = id ->
  attempts_ok (on_pending (<[id := pending]>) (on_paused (<[id := list_to_set (pd_candidates pending)]>) b)).
Proof.
  intros [Hd Ho Ha Hc Hp Hq He] Had Hm Hid. constructor; cbn; try done.
  - intros i served [[<- _]|[_ Hs]]%lookup_insert_Some; eauto.
  - intros i pd [[<- <-]|[Hi Hs]]%lookup_insert_Some; [split; [done|apply lookup_insert_eq]|].
    rewrite lookup_insert_ne by done. by apply Hq.
Qed.

Lemma attempts_ok_take b id : attempts_ok b -> attempts_ok (take_pending_choice id b).2.
Proof.
  intros [Hd Ho Ha Hc Hp Hq He]. constructor; try done. cbn. intros i pd [_ Hs]%lookup_delete_Some. by apply Hq.
Qed.

Lemma attempts_ok_rights b rights : attempts_ok b -> attempts_ok (set_account_rights rights b).
Proof.
  intros Hok. unfold set_account_rights. case_decide; [done|]. destruct Hok as [Hd Ho Ha Hc Hp Hq He].
  constructor; try done. cbn. intros i ad Hs. destruct (He i ad Hs). split; lia.
Qed.

Lemma attempts_ok_prepared b r b' : prepared generate b r b' -> attempts_ok b -> attempts_ok b'.
Proof.
  intros [e moment conflicts|ad config epochs binding moment conflicts Hid Hv Hallows] Hok.
  - by apply (attempts_ok_ext b).
  - apply (attempts_ok_ext (on_admissions (<[generate (bk_drawn b) := ad]>) (on_drawn S b))); [done|done|].
    by apply attempts_ok_admit.
Qed.
End Attempts.

(** * Runs *)

Section Runs.
Context {P L : Type} `{Provider P} `{Ledger L}.
Variable os : TargetOs.
Variable recorded_models : string -> list CatalogModel.
Variable sha256_hex : string -> string.
Variable generate : nat -> string.
Variable fs : nat -> Fs.
Context `{!Inj (=) (=) generate}.
Implicit Types (b : Broker P) (s : Broker P * L).
Local Abbreviation ok := (attempts_ok generate).

Lemma candidate_entitled purpose connection b :
  candidate_rejection os purpose connection b = None -> allows (bk_entitlements b) connection = true.
Proof.
  unfold candidate_rejection. destruct (_ !! connection) as [entry|]; [|done]. destruct (negb _); [done|].
  destruct (negb _); [by destruct (dialect_for connection)|]. by intros [Hr _]%entitlement_rejection_None.
Qed.

Lemma complete_send_ok m connection parent s :
  is_Some (bk_admissions s.1 !! mf_attempt_id m) -> ok s.1 -> ok (complete_send m connection parent s).2.1.
Proof.
  intros Had Hok. destruct (complete_send m connection parent s).1 as [reply|e] eqn:Hr.
  - destruct (complete_send_answered m connection parent s reply Hr) as (p & record & ->).
    apply attempts_ok_account; [|done]. by eapply attempts_ok_quiet; [apply quiet_provider|].
  - destruct (complete_send_failed m connection parent s e Hr) as [p ->].
    by eapply attempts_ok_quiet; [apply quiet_provider|].
Qed.

Lemma answered_ok admission model connection leg p record b :
  ok b -> allows (bk_entitlements b) connection = true ->
  ok (answered sha256_hex generate admission model connection leg p record b).
Proof.
  intros Hok Hallows. unfold answered. apply attempts_ok_account; [|apply lookup_insert_is_Some; by left].
  eapply attempts_ok_quiet; [apply quiet_provider|]. unfold mint_substitute, context_epoch, draw. cbn [fst snd].
  set (epochs := <[ad_purpose admission := _]>). apply (attempts_ok_admit generate (on_epochs epochs b)); try done.
  by apply (attempts_ok_ext generate b).
Qed.

(** A substitute that was not answered, and one that was. *)
Lemma tried_failed admission model connection leg attempt s failure s1 :
  try_substitute sha256_hex generate admission model connection leg attempt s = (Err failure, s1) ->
  ok s.1 -> quiet s.1 s1.1.
Proof.
  intros Htry Hok. pose proof (try_substitute_failed sha256_hex generate admission model connection leg attempt s failure) as Hq.
  rewrite Htry in Hq. apply Hq; [apply Hok|done].
Qed.

Lemma tried_answered admission model connection leg attempt s reply s1 :
  try_substitute sha256_hex generate admission model connection leg attempt s = (Ok reply, s1) ->
  exists p record, s1.1 = answered sha256_hex generate admission model connection leg p record s.1.
Proof.
  intros Htry. pose proof (try_substitute_answered sha256_hex generate admission model connection leg attempt s reply) as Hq.
  rewrite Htry in Hq. by apply Hq.
Qed.

Lemma walked_quiet admission attempt chain s e s' :
  walked os sha256_hex generate admission attempt chain s (Err e) s' -> ok s.1 -> quiet s.1 s'.1.
Proof.
  intros Hw. remember (Err e) as r eqn:Hr. induction Hw as
    [|? ? ? ? ? ? IH|? ? ? ? s1 ? ? _ Htry _ _ IH|? ? ? ? ? ? _ Htry _|]; intros Hok; try done.
  - by apply IH.
  - apply tried_failed in Htry; [|done]. transitivity s1.1; [done|]. apply IH; [done|]. by eapply attempts_ok_quiet.
  - by apply tried_failed in Htry.
Qed.

Lemma walked_ok admission attempt chain s r s' :
  walked os sha256_hex generate admission attempt chain s r s' -> ok s.1 -> bk_paused s.1 !! attempt = None -> ok s'.1.
Proof.
  induction 1 as [|? ? ? ? ? ? IH|? ? ? ? ? ? ? _ Htry _ _ IH|? ? ? ? ? ? _ Htry _|? ? ? reply ? Hrej Htry]; intros Hok Hp.
  - done.
  - by apply IH.
  - apply tried_failed in Htry; [|done]. apply IH; [by eapply attempts_ok_quiet|]. by destruct Htry as (p & n & _ & ->).
  - apply tried_failed in Htry; [|done]. by eapply attempts_ok_quiet.
  - apply candidate_entitled in Hrej. apply tried_answered in Htry as (p & record & Hb). cbn. rewrite Hb.
    apply attempts_ok_drop; [by apply answered_ok|]. cbn. apply lookup_delete_None. by right.
Qed.

(** A failed first send leaves the admission, and so pauses and walks may follow. *)
Lemma dispatched_ok m s r s' : dispatched os sha256_hex generate m s r s' -> ok s.1 -> ok s'.1.
Proof.
  intros [e|admission answer s1 r' s'' _ _ Had Hm _ _ Hsend Hsettled] Hok; [done|].
  assert (Hok1 : ok s1.1).
  { pose proof (complete_send_ok m (ad_connection admission) None s) as Hs. rewrite Hsend in Hs. apply Hs; eauto. }
  destruct Hsettled as [| |failure s1 pending served Hf Hid -> _|failure s1 chain r' s2 Hf _ Hw]; try done.
  all: apply failed_quiet in Hsend as (p & n & _ & Hb).
  - cbn. eapply (attempts_ok_pause _ _ _ admission); [done| |done|done]. by rewrite Hb.
  - eapply walked_ok; [exact Hw|done|]. rewrite Hb. cbn.
    destruct (bk_paused s.1 !! mf_attempt_id m) as [served|] eqn:Hp; [|done].
    apply (ok_paused generate s.1 Hok) in Hp as (ad & Had' & Hmanual). congruence.
Qed.

Lemma picked_ok attempt connection s r s' : picked os sha256_hex generate attempt connection s r s' -> ok s.1 -> ok s'.1.
Proof.
  intros [e|admission served model answer s1 r' s'' Had Hp Hin Hrej Hmodel Htry Hanswer] Hok; [done|].
  apply candidate_entitled in Hrej. destruct answer as [reply|failure].
  - destruct Hanswer as [-> ->]. apply tried_answered in Htry as (p & record & Hb). cbn. rewrite Hb.
    by apply attempts_ok_clear, answered_ok.
  - destruct Hanswer as [_ ->]. apply tried_failed in Htry; [|done]. by eapply attempts_ok_quiet.
Qed.

Lemma bcall_ok c s : ok s.1 -> ok (bcall os recorded_models sha256_hex generate fs c s).1.
Proof.
  intros Hok. destruct c; cbn [bcall fst snd].
  - by eapply attempts_ok_prepared; [|apply prepare_prepared|].
  - by eapply attempts_ok_prepared; [|apply prepare_call_prepared|].
  - by eapply dispatched_ok; [apply dispatch_dispatched|].
  - by eapply picked_ok; [apply dispatch_choice_picked|].
  - by apply attempts_ok_take.
  - by apply attempts_ok_cancel.
  - by apply attempts_ok_rights.
  - by eapply attempts_ok_ext; [| |exact Hok].
  - by eapply attempts_ok_ext; [| |exact Hok].
  - by eapply attempts_ok_ext; [| |exact Hok].
  - done.
Qed.

Lemma bcalls_ok cs s : ok s.1 -> ok (bcalls os recorded_models sha256_hex generate fs cs s).1.
Proof. revert s. induction cs as [|c cs IH]; intros s Hok; [done|]. apply IH. by apply bcall_ok. Qed.
End Runs.
