(* ===== verification/BrokerLog.v ===== *)
(** What the calls of the broker put in the record of its provider: a dispatch sends
    its own request, then substitutes along its chain while every answer is a denial;
    no cancelled attempt is sent; no attempt is sent twice over a ledger that opens a
    send once. *)

From S2P Require Import Prelude.
From S2P Require Import Contracts.
From S2P Require Import Requests.
From S2P Require Import Learning.
From S2P Require Import Store.
From S2P Require Import LearningStore.
From S2P Require Import Routes.
From S2P Require Import Providers.
From S2P Require Import Instructions.
From S2P Require Import Ranking.
From S2P Require Import Broker.
From S2P Require Import BrokerCalls.
From S2P Require Import BrokerThms.
From S2P Require Import BrokerRuns.

(** The attempt an entry of the record is of. *)
Definition logged_attempt (e : RequestManifest * result ProviderReply ProviderError) : string := mf_attempt_id e.1.

(** Only the last answer of a series may have been applied. *)
Definition only_last_applies (new : list (RequestManifest * result ProviderReply ProviderError)) : Prop :=
  Forall (fun e => denied e.2 = true) (removelast new).

Lemma only_last_applies_cons e new : denied e.2 = true -> only_last_applies new -> only_last_applies (e :: new).
Proof. intros He Hn. destruct new as [|e' new]; [constructor|]. by constructor. Qed.

Section Logged.
Context {P L : Type} `{Provider P} `{Ledger L}.
Variable os : TargetOs.
Variable recorded_models : string -> list CatalogModel.
Variable sha256_hex : string -> string.
Variable generate : nat -> string.
Variable fs : nat -> Fs.
Context `{!Inj (=) (=) generate}.
Implicit Types (b : Broker (Logged P)) (s : Broker (Logged P) * L).
Local Abbreviation ok := (attempts_ok generate).

(** * One dispatch *)

(** What a walk sends: substitutes for entries of the chain, in its order. *)
Record walk_log (admission : AdmissionRecord) (chain : list FixedModel) (drawn : nat)
    (new : list (RequestManifest * result ProviderReply ProviderError)) : Prop := {
  wl_denied : only_last_applies new;
  wl_fresh : Forall (fun e => exists i, drawn <= i /\ logged_attempt e = generate i) new;
  wl_chain : exists entries, sublist entries chain /\ Forall2 (fun entry e => carries admission (Fixed entry) e.1) entries new;
}.

Lemma walk_log_nil admission chain n : walk_log admission chain n [].
Proof. split; [constructor..|]. exists []. split; [apply sublist_nil_l|constructor]. Qed.

Lemma walk_log_skip admission entry chain n new : walk_log admission chain n new -> walk_log admission (entry :: chain) n new.
Proof. intros [H1 H2 (entries & Hs & Hf)]. split; [done..|]. exists entries. split; [by apply sublist_cons|done]. Qed.

Lemma walk_log_take admission entry chain n n' m answer new :
  carries admission (Fixed entry) m -> mf_attempt_id m = generate n -> n <= n' ->
  new = [] \/ denied answer = true -> walk_log admission chain n' new ->
  walk_log admission (entry :: chain) n ((m, answer) :: new).
Proof.
  intros Hc Hid Hn Hd [H1 H2 (entries & Hs & Hf)]. split.
  - destruct Hd as [->|Hd]; [constructor|]. by apply only_last_applies_cons.
  - constructor; [by exists n|]. eapply Forall_impl; [exact H2|]. intros e (i & Hi & He). exists i. split; [lia|done].
  - exists (entry :: entries). split; [by apply sublist_skip|by constructor].
Qed.

Lemma walk_log_later admission chain n n' new : n <= n' -> walk_log admission chain n' new -> walk_log admission chain n new.
Proof.
  intros Hn [H1 H2 H3]. split; [done| |done]. eapply Forall_impl; [exact H2|]. intros e (i & Hi & He). exists i. split; [lia|done].
Qed.

Lemma tried_logged admission entry attempt s answer s1 :
  try_entry sha256_hex generate admission attempt entry s = (answer, s1) ->
  exists new, log_of s1.1 = log_of s.1 ++ new /\
    (new = [] \/ exists m a, new = [(m, a)] /\ carries admission (Fixed entry) m /\ mf_attempt_id m = generate (bk_drawn s.1) /\
       (forall failure, answer = Err failure -> definitive failure = true -> denied a = true)).
Proof.
  intros Htry. destruct (try_substitute_logged sha256_hex generate admission (Fixed entry) (fm_connection entry) "fallback" attempt s)
    as (new & Hlog & Hnew); [by right; exists entry|].
  unfold try_entry in Htry. rewrite Htry in Hlog, Hnew. exists new. split; [done|].
  destruct Hnew as [->|(m & a & -> & Hc & Hid & Hd)]; [by left|right; eauto 10].
Qed.

Lemma walked_logged admission attempt chain s r s' :
  walked os sha256_hex generate admission attempt chain s r s' -> ok s.1 ->
  exists new, log_of s'.1 = log_of s.1 ++ new /\ walk_log admission chain (bk_drawn s.1) new.
Proof.
  induction 1 as [|? ? ? ? ? ? IH|? ? ? failure s1 ? ? _ Htry Hdef _ IH|? ? ? ? ? ? _ Htry _|? ? ? ? ? _ Htry]; intros Hok.
  - exists []. rewrite app_nil_r. split; [done|apply walk_log_nil].
  - destruct (IH Hok) as (new & Hlog & Hnew). exists new. split; [done|by apply walk_log_skip].
  - pose proof (tried_failed _ _ _ _ _ _ _ _ _ _ Htry Hok) as Hq.
    destruct (IH (attempts_ok_quiet _ _ _ Hq Hok)) as (rest & Hrest & Hwl). destruct Hq as (p & n & Hn & Hb).
    assert (Hdrawn : bk_drawn s.1 <= bk_drawn s1.1) by by rewrite Hb.
    apply tried_logged in Htry as (new & Hlog & Hnew). exists (new ++ rest). split; [by rewrite Hrest, Hlog, app_assoc|].
    destruct Hnew as [->|(m & a & -> & Hc & Hid & Hd)].
    + apply walk_log_skip. by eapply walk_log_later.
    + eapply walk_log_take; [done..| |exact Hwl]. right. by eapply Hd.
  - apply tried_logged in Htry as (new & Hlog & Hnew). exists new. split; [done|].
    destruct Hnew as [->|(m & a & -> & Hc & Hid & Hd)]; [apply walk_log_nil|].
    eapply walk_log_take; [done..| |apply walk_log_nil]. by left.
  - apply tried_logged in Htry as (new & Hlog & Hnew). exists new. split; [done|].
    destruct Hnew as [->|(m & a & -> & Hc & Hid & Hd)]; [apply walk_log_nil|].
    eapply walk_log_take; [done..| |apply walk_log_nil]. by left.
Qed.

(** The entries of a chain an admission may fall back to. *)
Definition chain_of (admission : AdmissionRecord) : list FixedModel :=
  match ad_fallback admission with AutoFallback chain => chain | _ => [] end.

Lemma dispatched_logged m s r s' :
  dispatched os sha256_hex generate m s r s' -> ok s.1 ->
  log_of s'.1 = log_of s.1 \/
  exists admission new, log_of s'.1 = log_of s.1 ++ new /\ bk_admissions s.1 !! mf_attempt_id m = Some admission /\
    ad_manifest admission = m /\ (mf_attempt_id m ∉ bk_cancelled s.1) /\
    (walk_log admission (chain_of admission) (bk_drawn s.1) new \/
     exists answer rest, new = (narrow (ad_connection admission) m, answer) :: rest /\
       (rest = [] \/ denied answer = true) /\ walk_log admission (chain_of admission) (bk_drawn s.1) rest).
Proof.
  intros [e|admission answer s1 r' s'' _ Hca Had Hm _ _ Hsend Hsettled] Hok; [by left|].
  destruct (complete_send_logged m (ad_connection admission) None s) as (new & Hlog & Hnew).
  rewrite Hsend in Hlog, Hnew. cbn in Hlog, Hnew. right. exists admission.
  assert (Hstop : forall s2 : Broker (Logged P) * L, log_of s2.1 = log_of s1.1 ->
    exists new, log_of s2.1 = log_of s.1 ++ new /\ bk_admissions s.1 !! mf_attempt_id m = Some admission /\
      ad_manifest admission = m /\ (mf_attempt_id m ∉ bk_cancelled s.1) /\
      (walk_log admission (chain_of admission) (bk_drawn s.1) new \/
       exists answer rest, new = (narrow (ad_connection admission) m, answer) :: rest /\
         (rest = [] \/ denied answer = true) /\ walk_log admission (chain_of admission) (bk_drawn s.1) rest)).
  { intros s2 ->. exists new. split_and!; [done..|]. destruct Hnew as [->|(a & -> & _)]; [left; apply walk_log_nil|].
    right. exists a, []. split_and!; [done|by left|apply walk_log_nil]. }
  destruct Hsettled as [| | |failure s1 chain r' s2 Hf Hdef Hw]; [by apply Hstop..|].
  pose proof (failed_quiet _ _ _ _ _ _ Hsend) as Hquiet.
  destruct (walked_logged _ _ _ _ _ _ Hw (attempts_ok_quiet _ _ _ Hquiet Hok)) as (rest & Hrest & Hwl).
  unfold chain_of. rewrite Hf.
  assert (Hn : bk_drawn s.1 <= bk_drawn s1.1) by (by destruct Hquiet as (p & n & Hn & ->)). apply (walk_log_later _ _ _ _ _ Hn) in Hwl.
  exists (new ++ rest). split_and!; [by rewrite Hrest, Hlog, app_assoc|done..|].
  destruct Hnew as [->|(a & -> & Hd)]; [by left|]. right. exists a, rest. split_and!; [done| |done].
  right. by eapply Hd.
Qed.

(** * Cancelled attempts *)

Definition spares (cancelled : gset string) (new : list (RequestManifest * result ProviderReply ProviderError)) : Prop :=
  Forall (fun e => logged_attempt e ∉ cancelled) new.

Lemma fresh_spared b new :
  ok b -> Forall (fun e => exists i, bk_drawn b <= i /\ logged_attempt e = generate i) new -> spares (bk_cancelled b) new.
Proof.
  intros Hok Hnew. eapply Forall_impl; [exact Hnew|]. intros e (i & Hi & ->) Hin.
  apply (ok_drawn generate b Hok) in Hin. by eapply not_drawn_yet.
Qed.

Lemma dispatched_spares m s r s' :
  dispatched os sha256_hex generate m s r s' -> ok s.1 ->
  exists new, log_of s'.1 = log_of s.1 ++ new /\ spares (bk_cancelled s.1) new.
Proof.
  intros Hd Hok. destruct (dispatched_logged m s r s' Hd Hok) as [->|(admission & new & Hlog & _ & _ & Hca & Hnew)].
  - exists []. rewrite app_nil_r. split; [done|constructor].
  - exists new. split; [done|]. destruct Hnew as [Hw|(answer & rest & -> & _ & Hw)].
    + by apply fresh_spared, Hw.
    + constructor; [|by apply fresh_spared, Hw]. unfold logged_attempt. cbn. by rewrite narrow_attempt.
Qed.

Lemma picked_spares attempt connection s r s' :
  picked os sha256_hex generate attempt connection s r s' -> ok s.1 ->
  exists new, log_of s'.1 = log_of s.1 ++ new /\ spares (bk_cancelled s.1) new.
Proof.
  intros [e|admission served model answer s1 r' s'' Had Hp Hin Hrej Hmodel Htry Hanswer] Hok.
  - exists []. rewrite app_nil_r. split; [done|constructor].
  - destruct (try_substitute_logged sha256_hex generate admission model connection "manual" attempt s Hmodel)
      as (new & Hlog & Hnew).
    rewrite Htry in Hlog, Hnew. exists new. split.
    + destruct answer; [by destruct Hanswer as [_ ->]|by destruct Hanswer as [_ ->]].
    + destruct Hnew as [->|(m & a & -> & _ & Hid & _)]; [constructor|]. apply fresh_spared; [done|].
      constructor; [by exists (bk_drawn s.1)|constructor].
Qed.

Lemma prepared_log b r b' : prepared generate b r b' -> log_of b' = log_of b /\ bk_cancelled b' = bk_cancelled b.
Proof using Type. by intros []. Qed.

Lemma walked_cancelled admission attempt chain s r s' :
  walked os sha256_hex generate admission attempt chain s r s' -> ok s.1 -> bk_cancelled s'.1 = bk_cancelled s.1.
Proof.
  induction 1 as [|? ? ? ? ? ? IH|? ? ? failure s1 ? ? _ Htry Hdef _ IH|? ? ? ? ? ? _ Htry _|? ? ? ? ? _ Htry]; intros Hok.
  - done.
  - by apply IH.
  - pose proof (tried_failed _ _ _ _ _ _ _ _ _ _ Htry Hok) as Hq. rewrite IH by by eapply attempts_ok_quiet.
    by destruct Hq as (p & n & _ & ->).
  - apply tried_failed in Htry as (p & n & _ & ->); done.
  - apply tried_answered in Htry as (p & record & Hb). cbn. by rewrite Hb.
Qed.

Lemma complete_send_cancelled m connection parent s answer s1 :
  complete_send m connection parent s = (answer, s1) -> bk_cancelled s1.1 = bk_cancelled s.1.
Proof using Type.
  intros Hsend. destruct answer as [reply|failure].
  - destruct (complete_send_answered m connection parent s reply) as (p & record & Hb); rewrite Hsend in *; [done|].
    cbn in Hb. by rewrite Hb.
  - by apply failed_quiet in Hsend as (p & n & _ & ->).
Qed.

Lemma dispatched_cancelled m s r s' :
  dispatched os sha256_hex generate m s r s' -> ok s.1 -> bk_cancelled s'.1 = bk_cancelled s.1.
Proof.
  intros [e|admission answer s1 r' s'' _ _ Had Hm _ _ Hsend Hsettled] Hok; [done|].
  rewrite <- (complete_send_cancelled _ _ _ _ _ _ Hsend). destruct Hsettled as [| | |failure s1 chain r' s2 Hf _ Hw]; try done.
  eapply walked_cancelled; [exact Hw|]. by eapply attempts_ok_quiet; [eapply failed_quiet|].
Qed.

Lemma picked_cancelled attempt connection s r s' :
  picked os sha256_hex generate attempt connection s r s' -> ok s.1 -> bk_cancelled s'.1 = bk_cancelled s.1.
Proof.
  intros [e|admission served model answer s1 r' s'' _ _ _ _ _ Htry Hanswer] Hok; [done|]. destruct answer as [reply|failure].
  - destruct Hanswer as [_ ->]. apply tried_answered in Htry as (p & record & Hb). cbn. by rewrite Hb.
  - destruct Hanswer as [_ ->]. apply tried_failed in Htry as (p & n & _ & ->); done.
Qed.

(** A call sends no cancelled attempt, and forgets no cancellation. *)
Lemma bcall_spares c s :
  ok s.1 ->
  exists new, log_of (bcall os recorded_models sha256_hex generate fs c s).1 = log_of s.1 ++ new /\
    spares (bk_cancelled s.1) new /\
    bk_cancelled s.1 ⊆ bk_cancelled (bcall os recorded_models sha256_hex generate fs c s).1.
Proof.
  intros Hok.
  assert (Hstill : forall b', log_of b' = log_of s.1 -> bk_cancelled s.1 ⊆ bk_cancelled b' ->
    exists new, log_of b' = log_of s.1 ++ new /\ spares (bk_cancelled s.1) new /\ bk_cancelled s.1 ⊆ bk_cancelled b').
  { intros b' -> Hc. exists []. rewrite app_nil_r. split_and!; [done|constructor|done]. }
  destruct c; cbn [bcall fst snd].
  - destruct (prepared_log _ _ _ (prepare_prepared os recorded_models sha256_hex generate fs purpose config world inputs origin facts s.1)) as [E1 E2].
    apply Hstill; [done|by rewrite E2].
  - destruct (prepared_log _ _ _ (prepare_call_prepared os recorded_models sha256_hex generate fs purpose config world inputs contract facts s.1)) as [E1 E2].
    apply Hstill; [done|by rewrite E2].
  - pose proof (dispatch_dispatched os sha256_hex generate world manifest s) as Hd. cbn zeta in Hd.
    rewrite (dispatched_cancelled _ _ _ _ Hd Hok). destruct (dispatched_spares _ _ _ _ Hd Hok) as (new & E1 & E2). by exists new.
  - pose proof (dispatch_choice_picked os sha256_hex generate world attempt_id connection s) as Hd. cbn zeta in Hd.
    rewrite (picked_cancelled _ _ _ _ _ Hd Hok). destruct (picked_spares _ _ _ _ _ Hd Hok) as (new & E1 & E2). by exists new.
  - by apply Hstill.
  - unfold cancel_attempt. case_bool_decide; [by apply Hstill|].
    destruct (bk_admissions s.1 !! attempt_id); [|by apply Hstill]. apply Hstill; [done|]. cbn. set_solver.
  - unfold set_account_rights. case_decide; by apply Hstill.
  - by apply Hstill.
  - by apply Hstill.
  - by apply Hstill.
  - by apply Hstill.
Qed.

Lemma bcalls_spares cs s :
  ok s.1 -> exists new, log_of (bcalls os recorded_models sha256_hex generate fs cs s).1 = log_of s.1 ++ new /\
                        spares (bk_cancelled s.1) new.
Proof.
  revert s. induction cs as [|c cs IH]; intros s Hok.
  - exists []. rewrite app_nil_r. split; [done|constructor].
  - cbn. destruct (bcall_spares c s Hok) as (new & Hlog & Hnew & Hsub).
    destruct (IH _ (bcall_ok os recorded_models sha256_hex generate fs c s Hok)) as (rest & Hrest & Hspared).
    exists (new ++ rest). split; [by rewrite app_assoc, <- Hlog|]. apply Forall_app. split; [done|].
    eapply Forall_impl; [exact Hspared|]. set_solver.
Qed.
End Logged.

(** * Sends over a ledger that keeps its promises *)

Section Once.
Context {P L : Type} `{Provider P} `{LedgerLaws L}.
Variable os : TargetOs.
Variable recorded_models : string -> list CatalogModel.
Variable sha256_hex : string -> string.
Variable generate : nat -> string.
Variable fs : nat -> Fs.
Implicit Types (s : Broker (Logged P) * L).

(** The record has no attempt twice, and the ledger has opened every one in it. *)
Definition sent_once (log : list (RequestManifest * result ProviderReply ProviderError)) (l : L) : Prop :=
  NoDup (map logged_attempt log) /\ Forall (fun e => begun l (logged_attempt e)) log.

Lemma sent_once_keeps log l l' : (forall a, begun l a -> begun l' a) -> sent_once log l -> sent_once log l'.
Proof. intros Hk [Hdup Hall]. split; [done|]. eapply Forall_impl; [exact Hall|]. cbn. auto. Qed.

Lemma complete_send_once m connection parent s :
  sent_once (log_of s.1) s.2 ->
  sent_once (log_of (complete_send m connection parent s).2.1) (complete_send m connection parent s).2.2.
Proof.
  destruct s as [b l]. intros Honce. pose proof (complete_send_sent m connection parent b l) as Hs.
  destruct (complete_send _ _ _ _) as [r [b' l']]. cbn in *.
  assert (Hsend : forall ticket l1 answer p' outcome,
    begin_send (send_context m connection parent b) (narrow connection m) l = (Ok ticket, l1) ->
    send (narrow connection m) (bk_provider b) = (answer, p') ->
    sent_once (lg_log p') (finish_send ticket outcome l1).2).
  { intros ticket l1 answer p' outcome Hbegin Hsend. apply (sent_once_keeps _ l1); [intros a; apply finish_keeps|].
    rewrite (send_logged _ _ _ _ Hsend). pose proof (begin_keeps (send_context m connection parent b) (narrow connection m) l) as Hkeep.
    apply begin_opens in Hbegin as Hopen. rewrite Hbegin in Hkeep. destruct Hopen as [Hnew Hold], Honce as [Hdup Hall].
    split.
    - rewrite map_app. apply NoDup_app. split_and!; [done| |apply NoDup_singleton].
      intros a (e & -> & He)%list_elem_of_fmap [=E]%list_elem_of_singleton.
      apply Hnew. unfold logged_attempt in E. cbn in E. rewrite <- E. rewrite Forall_forall in Hall. by apply Hall.
    - apply Forall_app. split; [|by constructor]. eapply Forall_impl; [exact Hall|]. cbn. auto. }
  inversion Hs as [e He|e l1 Hbegin|ticket l1 source p' outcome l1' Hb Hsd Hf|ticket l1 answer p' outcome e l1' Hb Hsd Hf
                  |ticket l1 reply p' outcome l1' record Hb Hsd Hf]; subst.
  - done.
  - apply (sent_once_keeps _ l); [|done]. intros a Ha.
    pose proof (begin_keeps (send_context m connection parent b') (narrow connection m) l a Ha) as Hk. by rewrite Hbegin in Hk.
  - pose proof (Hsend _ _ _ _ outcome Hb Hsd) as Hd. rewrite Hf in Hd. exact Hd.
  - pose proof (Hsend _ _ _ _ outcome Hb Hsd) as Hd. rewrite Hf in Hd. exact Hd.
  - pose proof (Hsend _ _ _ _ outcome Hb Hsd) as Hd. rewrite Hf in Hd. exact Hd.
Qed.

Lemma try_substitute_once admission model connection leg attempt s :
  sent_once (log_of s.1) s.2 ->
  let s' := (try_substitute sha256_hex generate admission model connection leg attempt s).2 in
  sent_once (log_of s'.1) s'.2.
Proof.
  intros Honce. unfold try_substitute.
  pose proof (complete_send_once (mint_substitute sha256_hex generate admission model connection leg s.1).1.1 connection
    (Some attempt) ((mint_substitute sha256_hex generate admission model connection leg s.1).2, s.2) Honce) as Hs.
  destruct (mint_substitute _ _ admission model connection leg s.1) as [[m displaced] b]. cbn [fst snd] in Hs.
  destruct (complete_send m connection (Some attempt) (b, s.2)) as [[reply|failure] s']; [done|].
  cbn in Hs |- *. by destruct displaced.
Qed.

Lemma walked_once admission attempt chain s r s' :
  walked os sha256_hex generate admission attempt chain s r s' -> sent_once (log_of s.1) s.2 -> sent_once (log_of s'.1) s'.2.
Proof.
  assert (Htried : forall entry s answer s1, try_entry sha256_hex generate admission attempt entry s = (answer, s1) ->
    sent_once (log_of s.1) s.2 -> sent_once (log_of s1.1) s1.2).
  { intros entry s0 answer s1 Htry Honce.
    pose proof (try_substitute_once admission (Fixed entry) (fm_connection entry) "fallback" attempt s0 Honce) as Hs.
    unfold try_entry in Htry. by rewrite Htry in Hs. }
  induction 1 as [| | | |? ? ? ? ? _ Htry]; eauto. intros Honce. exact (Htried _ _ _ _ Htry Honce).
Qed.

Lemma dispatched_once m s r s' :
  dispatched os sha256_hex generate m s r s' -> sent_once (log_of s.1) s.2 -> sent_once (log_of s'.1) s'.2.
Proof.
  intros [e|admission answer s1 r' s'' _ _ _ _ _ _ Hsend Hsettled] Honce; [done|].
  pose proof (complete_send_once m (ad_connection admission) None s Honce) as Hs. rewrite Hsend in Hs. cbn in Hs.
  destruct Hsettled; try done. by eapply walked_once.
Qed.

Lemma picked_once attempt connection s r s' :
  picked os sha256_hex generate attempt connection s r s' -> sent_once (log_of s.1) s.2 -> sent_once (log_of s'.1) s'.2.
Proof.
  intros [e|admission served model answer s1 r' s'' _ _ _ _ _ Htry Hanswer] Honce; [done|].
  pose proof (try_substitute_once admission model connection "manual" attempt s Honce) as Hs. rewrite Htry in Hs. cbn in Hs.
  destruct answer; by destruct Hanswer as [_ ->].
Qed.

Lemma bcall_once c s :
  keeps_begun c -> sent_once (log_of s.1) s.2 ->
  let s' := bcall os recorded_models sha256_hex generate fs c s in sent_once (log_of s'.1) s'.2.
Proof.
  intros Hkeeps Honce. destruct c; cbn [bcall fst snd].
  - by destruct (prepared_log _ _ _ _ (prepare_prepared os recorded_models sha256_hex generate fs purpose config world inputs origin facts s.1)) as [-> _].
  - by destruct (prepared_log _ _ _ _ (prepare_call_prepared os recorded_models sha256_hex generate fs purpose config world inputs contract facts s.1)) as [-> _].
  - by eapply dispatched_once; [apply dispatch_dispatched|].
  - by eapply picked_once; [apply dispatch_choice_picked|].
  - done.
  - unfold cancel_attempt. case_bool_decide; [done|]. by destruct (bk_admissions s.1 !! attempt_id).
  - unfold set_account_rights. by case_decide.
  - done.
  - done.
  - done.
  - eapply sent_once_keeps; [|exact Honce]. intros a. apply Hkeeps.
Qed.

Lemma bcalls_once cs s :
  Forall keeps_begun cs -> sent_once (log_of s.1) s.2 ->
  let s' := bcalls os recorded_models sha256_hex generate fs cs s in sent_once (log_of s'.1) s'.2.
Proof.
  revert s. induction cs as [|c cs IH]; intros s Hcs Honce; [done|]. apply Forall_cons in Hcs as [Hc Hcs].
  apply IH; [done|]. by apply bcall_once.
Qed.
End Once.
