(* ===== verification/StoreSends.v ===== *)
(** The durable ledger keeps the broker's promise: [StoreLedger] opens a send for an
    attempt once, over every use of the ledger, and forgets none. *)

From S2P Require Import Prelude.
From S2P Require Import Contracts.
From S2P Require Import Requests.
From S2P Require Import Notifications.
From S2P Require Import Store.
From S2P Require Import TaskDb.
From S2P Require Import PlanGate.
From S2P Require Import TaskStore.
From S2P Require Import TaskCalls.
From S2P Require Import Codecs.
From S2P Require Import Routes.
From S2P Require Import LedgerDb.
From S2P Require Import Ledger.
From S2P Require Import Sends.
From S2P Require Import LedgerCalls.
From S2P Require Import LedgerThms.
From S2P Require Import LedgerTotals.
From S2P Require Import LedgerLive.
From S2P Require Import Providers.
From S2P Require Import Broker.
From S2P Require Import BrokerCalls.

(** Every settlement stays. *)
Definition attempts_kept (db db' : LedgerDb) : Prop :=
  forall s, s ∈ settlements db -> exists s', s' ∈ settlements db' /\ se_attempt s' = se_attempt s.

#[export] Instance attempts_kept_preorder : PreOrder attempts_kept.
Proof.
  split; [intros db s Hs; by exists s|].
  intros a b c H1 H2 s (s1 & (s2 & ? & ?)%H2 & ?)%H1. exists s2. split; [done|congruence].
Qed.

Lemma links_kept db db' : same_links db db' -> attempts_kept db db'.
Proof. intros [_ Hs] s (s' & ? & ? & _)%Hs. by exists s'. Qed.

Lemma settlements_kept db db' : settlements db' = settlements db -> attempts_kept db db'.
Proof. intros E s Hs. exists s. by rewrite E. Qed.

Lemma begin_kept names context attempt bound db open db' :
  begin_send_tx names context attempt bound db = Ok (open, db') -> attempts_kept db db'.
Proof.
  intros (-> & _ & db1 & t & rowid & Hr & _ & _ & _ & ->)%begin_send_Ok s Hs. apply each_reserve_frame in Hr as (E & _).
  exists s. cbn. rewrite E. split; [|done]. apply elem_of_app. by left.
Qed.

Lemma attempts_kept_step c db db' : lstep c db db' -> attempts_kept db db'.
Proof.
  intros [|A m a db1 Htx Hm|tdb]; [done| |by apply settlements_kept].
  destruct Htx.
  - apply settlements_kept. unfold open_budget_tx in Hm. tx_got Hm. case_match; [done|].
    unfold insert_scope in Hm. case_match; [done|]. by injection Hm as <- <-.
  - unfold budget_reserve_tx in Hm. tx_got Hm. destruct (reservation_exists id db); [done|]. destruct a.
    apply settlements_kept. by apply each_reserve_frame in Hm as (? & _).
  - destruct a. by eapply links_kept, resolve_links.
  - destruct a. by eapply links_kept, resolve_links.
  - unfold open_work_budget_tx in Hm. tx_got Hm. destruct (tasks _ !! _); [|done].
    destruct (work_budgets _ !! _); [done|]. destruct (bool_decide _); [done|].
    apply tx_bind_Ok in Hm as ([] & db2 & Hs & Hm). unfold insert_scope in Hs. case_match; [done|]. injection Hs as <-.
    inv_tx. all: by apply settlements_kept.
  - apply stop_work_Ok in Hm as [_ ->]. by apply settlements_kept.
  - by eapply begin_kept.
  - destruct a. by eapply links_kept, finish_links.
  - unfold reconcile_sends_tx in Hm. tx_got Hm. eapply (reconcile_rows_keeps (attempts_kept db)); [|exact Hm|done].
    intros row db2 closed db3 _ Hr Hl. etrans; [exact Hl|]. by eapply links_kept, reconcile_one_links.
  - apply open_grant_Ok in Hm as (_ & _ & ->). by apply settlements_kept.
  - apply transition_grant_Ok in Hm as (row & _ & _ & [(_ & _ & ->)|(-> & _)]); by apply settlements_kept.
  - apply transition_grant_Ok in Hm as (row & _ & _ & [(_ & _ & ->)|(-> & _)]); by apply settlements_kept.
  - apply transition_grant_Ok in Hm as (row & _ & _ & [(_ & _ & ->)|(-> & _)]); by apply settlements_kept.
  - unfold fail_open_sharing_grants_tx in Hm. inv_tx. by apply settlements_kept.
Qed.

(** * The ledgers of the dispatch boundary *)

(** [StoreLedger] over the scopes of a send, and [NullLedger]. *)
Definition store_ledger (names : list string) : Ledger LStore :=
  {| begin_send := store_begin_send names; finish_send := store_finish_send |}.
#[export] Instance null_ledger : Ledger unit := {| begin_send := null_begin_send; finish_send := null_finish_send |}.

(** A store without its connection opens nothing more. *)
Definition store_begun (s : LStore) (attempt : string) : Prop :=
  match ts_conn s with Some db => exists row, row ∈ settlements db /\ se_attempt row = attempt | None => True end.

Lemma store_begun_kept s s' :
  (forall db', ts_conn s' = Some db' -> exists db, ts_conn s = Some db /\ attempts_kept db db') ->
  forall attempt, store_begun s attempt -> store_begun s' attempt.
Proof.
  unfold store_begun. intros Hs attempt. destruct (ts_conn s') as [db'|]; [|done].
  destruct (Hs db' eq_refl) as (db & -> & Hk). intros (row & Hrow & Ha). destruct (Hk row Hrow) as (row' & ? & ?).
  exists row'. split; [done|congruence].
Qed.

Section Calls.
Context `{JsonCodec AnswerSelection} `{JsonCodec CommandResult} `{JsonCodec AnsweredForkIdentity}.
Context `{JsonCodec (SessionId * string * string * list string * list string)}.
Variable generate : nat -> string.
Variable sha256_hex : string -> string.

(** Any call of the ledger or of the task store keeps what was opened. *)
Lemma lcall_begun c s attempt : store_begun s attempt -> store_begun (lcall generate sha256_hex c s) attempt.
Proof.
  apply store_begun_kept. intros db' Hdb'. apply lcall_step in Hdb' as (db & Hdb & Hstep). exists db. split; [done|].
  by eapply attempts_kept_step.
Qed.
End Calls.

Lemma transaction_kept {A} (m : ltx A) s :
  (forall db a db', m db = Ok (a, db') -> attempts_kept db db') ->
  forall attempt, store_begun s attempt -> store_begun (transaction m s).2 attempt.
Proof.
  intros Hm. apply store_begun_kept. intros db' [Hs|(db & a & Hs & Hr)]%transaction_db; [exists db'; split; done|].
  exists db. split; [done|by eapply Hm].
Qed.

Lemma settlement_row_Some attempt db row : settlement_row attempt db = Some row -> row ∈ settlements db /\ se_attempt row = attempt.
Proof. intros [Hin Ha]%find_Some. by apply bool_decide_eq_true in Ha. Qed.

#[export, refine] Instance store_ledger_laws names : @LedgerLaws LStore (store_ledger names) := {| begun := store_begun |}.
Proof.
  - intros context m s ticket s'. cbn. unfold store_begin_send, Sends.begin_send.
    destruct (budget_units_i64 _) as [bound|]; [|done].
    destruct (transaction _ s) as [[open|e] s1] eqn:Ht; [|done]. cbn. intros [= _ <-].
    unfold transaction, conn_mut in Ht. destruct (ts_held_claim_commit s); [done|]. destruct (negb _); [done|].
    unfold store_begun. destruct (ts_conn s) as [db|]; [|done].
    destruct (begin_send_tx _ _ _ _ db) as [[open' db']|] eqn:Hb; [|done]. injection Ht as -> <-. cbn.
    apply begin_send_Ok in Hb as (_ & Hnone & db1 & t & rowid & Hr & _ & _ & _ & ->). split.
    + intros (row & Hrow & Ha). unfold settlement_row in Hnone. rewrite find_None, Forall_forall in Hnone.
      specialize (Hnone row Hrow). by rewrite bool_decide_eq_false in Hnone.
    + cbn. eexists. split; [apply elem_of_app; right; by apply list_elem_of_singleton|done].
  - intros context m s attempt. cbn. unfold store_begin_send, Sends.begin_send.
    destruct (budget_units_i64 _) as [bound|]; [|done].
    pose proof (transaction_kept (begin_send_tx names context (mf_attempt_id m) bound) s
      (fun db a db' Hb => begin_kept _ _ _ _ _ _ _ Hb) attempt) as Hk.
    by destruct (transaction _ s) as [answer s'].
  - intros ticket outcome s attempt. cbn. unfold store_finish_send, Sends.finish_send.
    destruct (_ && _); [done|]. destruct (rbind _ _) as [[charged stored]|]; [|done].
    match goal with |- context [transaction ?tx s] =>
      pose proof (transaction_kept tx s (fun db a db' Hb => links_kept _ _ (finish_links _ _ _ _ _ _ _ _ _
        (match a return tx db = Ok (a, db') -> tx db = Ok (tt, db') with tt => id end Hb))) attempt) as Hk;
      by destruct (transaction tx s)
    end.
Defined.
