(* ===== verification/BrokerProps.v ===== *)
(** The guarantees of the broker over every run of its calls: an attempt crosses once
    and never after its cancellation, a chain is walked past denials alone, a failure
    leaves no trace, an attempt has one state, a current admission is entitled, the
    ranking's pick comes first, and an epoch's cost is the part of the request that
    is replayed. *)

From stdpp Require Import sorting pretty.
From S2P Require Import Prelude.
From S2P Require Import Contracts.
From S2P Require Import Text.
From S2P Require Import Requests.
From S2P Require Import Notifications.
From S2P Require Import Learning.
From S2P Require Import Store.
From S2P Require Import LearningStore.
From S2P Require Import Routes.
From S2P Require Import Providers.
From S2P Require Import Instructions.
From S2P Require Import Ranking.
From S2P Require Import Broker.
From S2P Require Import BrokerCalls.
From S2P Require Import BrokerThms.
From S2P Require Import BrokerRuns.
From S2P Require Import BrokerLog.
From S2P Require Import TaskDb.
From S2P Require Import PlanGate.
From S2P Require Import TaskStore.
From S2P Require Import TaskCalls.
From S2P Require Import Codecs.
From S2P Require Import LedgerDb.
From S2P Require Import Ledger.
From S2P Require Import Sends.
From S2P Require Import LedgerCalls.
From S2P Require Import StoreSends.

(** * Runs *)

Section Runs.
Context {P L : Type} `{Provider P} `{Ledger L}.
Variable os : TargetOs.
Variable recorded_models : string -> list CatalogModel.
Variable sha256_hex : string -> string.
Variable generate : nat -> string.
Variable fs : nat -> Fs.
Context `{!Inj (=) (=) generate}.

(** A fresh broker over a provider with an empty record. *)
Definition fresh_broker (provider : P) (l : L) : Broker (Logged P) * L := (broker_new (mkLogged provider []), l).
Local Abbreviation run := (bcalls os recorded_models sha256_hex generate fs).

Lemma attempts_stay_ok cs provider l : attempts_ok generate (run cs (fresh_broker provider l)).1.
Proof. apply bcalls_ok; [done|]. apply attempts_ok_new. Qed.

(** A cancelled attempt never crosses: after its cancellation no run of calls
    sends a request under its identifier. *)
Theorem cancelled_attempts_never_send cs cs' provider l attempt :
  let s := run cs (fresh_broker provider l) in
  (cancel_attempt attempt s.1).1 = true ->
  let s' := run (CancelAttempt attempt :: cs') s in
  filter (fun e => logged_attempt e = attempt) (log_of s'.1) = filter (fun e => logged_attempt e = attempt) (log_of s.1).
Proof.
  intros s Hcancel s'. pose proof (attempts_stay_ok (cs ++ [CancelAttempt attempt]) provider l) as Hok.
  unfold bcalls in Hok. rewrite fold_left_app in Hok. fold (run cs (fresh_broker provider l)) in Hok. fold s in Hok. cbn in Hok.
  destruct (bcalls_spares os recorded_models sha256_hex generate fs cs' ((cancel_attempt attempt s.1).2, s.2) Hok)
    as (new & Hlog & Hspared).
  assert (E : log_of s'.1 = log_of (cancel_attempt attempt s.1).2 ++ new) by exact Hlog. rewrite E.
  unfold cancel_attempt in *. case_bool_decide; [done|]. destruct (bk_admissions s.1 !! attempt); [|done].
  rewrite filter_app. cbn [fst snd log_of bk_provider].
  rewrite (filter_none _ new), app_nil_r; [done|]. intros e He <-. unfold spares in Hspared. rewrite Forall_forall in Hspared.
  apply (Hspared e He). cbn. set_solver.
Qed.

(** C10.  The walk of a chain steps past definitive denials alone: of the requests one
    dispatch sends, every one but the last was answered by an error that applied
    nothing. *)
Theorem only_definitive_denials_walk cs provider l world m :
  let s := run cs (fresh_broker provider l) in
  exists new, log_of (dispatch os sha256_hex generate world m s).2.1 = log_of s.1 ++ new /\ only_last_applies new.
Proof.
  intros s. pose proof (dispatch_dispatched os sha256_hex generate world m s) as Hd. cbn zeta in Hd.
  destruct (dispatched_logged os sha256_hex generate _ _ _ _ Hd (attempts_stay_ok cs provider l))
    as [E|(admission & new & E & _ & _ & _ & [Hw|(answer & rest & -> & Hr & Hw)])].
  - exists []. rewrite app_nil_r. split; [exact E|constructor].
  - exists new. split; [exact E|apply Hw].
  - exists ((narrow (ad_connection admission) m, answer) :: rest). split; [exact E|].
    destruct Hr as [->|Hr]; [constructor|]. by apply only_last_applies_cons, Hw.
Qed.

(** A dispatch sends what was admitted: its own request, narrowed to the admitted
    connection, then substitutes that ask for the same under the models of the
    admitted chain, in its order. *)
Theorem substitutes_carry_the_frozen_request cs provider l world m :
  let s := run cs (fresh_broker provider l) in
  exists new, log_of (dispatch os sha256_hex generate world m s).2.1 = log_of s.1 ++ new /\
    (new = [] \/
     exists admission own entries rest, bk_admissions s.1 !! mf_attempt_id m = Some admission /\ ad_manifest admission = m /\
       map fst new = own ++ rest /\ (own = [] \/ own = [narrow (ad_connection admission) m]) /\
       sublist entries (chain_of admission) /\
       Forall2 (fun entry sent => same_request m sent /\ mf_model sent = Fixed entry) entries rest).
Proof.
  intros s. pose proof (dispatch_dispatched os sha256_hex generate world m s) as Hd. cbn zeta in Hd.
  destruct (dispatched_logged os sha256_hex generate _ _ _ _ Hd (attempts_stay_ok cs provider l))
    as [E|(admission & new & E & Had & Hm & _ & Hnew)].
  - exists []. rewrite app_nil_r. split; [exact E|by left].
  - exists new. split; [exact E|]. right.
    assert (Hwalk : forall new, walk_log generate admission (chain_of admission) (bk_drawn s.1) new ->
      exists entries, sublist entries (chain_of admission) /\
        Forall2 (fun entry sent => same_request m sent /\ mf_model sent = Fixed entry) entries (map fst new)).
    { intros new0 [_ _ (entries & Hs & Hf)]. exists entries. split; [done|]. apply Forall2_fmap_r.
      eapply Forall2_impl; [exact Hf|]. intros entry e [Hsame Hmodel]. subst m. by split. }
    destruct Hnew as [Hw|(answer & rest & -> & _ & Hw)]; apply Hwalk in Hw as (entries & Hs & Hf).
    + exists admission, [], entries, (map fst new). split_and!; try done. by left.
    + exists admission, [narrow (ad_connection admission) m], entries, (map fst rest). split_and!; try done. by right.
Qed.

(** C11.  A dispatch that fails leaves no trace: identifiers were drawn and the provider
    moved, and nothing else of the broker changed, unless the attempt now pauses for a
    choice, which the answer says. *)
Theorem failures_leave_no_trace cs provider l world m e :
  let s := run cs (fresh_broker provider l) in
  (dispatch os sha256_hex generate world m s).1 = Err e ->
  let b := (dispatch os sha256_hex generate world m s).2.1 in
  quiet s.1 b \/
  exists purpose pending b1, e = ManualFallbackPending (mf_attempt_id m) purpose /\ quiet s.1 b1 /\
    pd_attempt_id pending = mf_attempt_id m /\
    b = on_pending (<[mf_attempt_id m := pending]>) (on_paused (<[mf_attempt_id m := list_to_set (pd_candidates pending)]>) b1).
Proof.
  intros s He b. pose proof (dispatch_dispatched os sha256_hex generate world m s) as Hd. cbn zeta in Hd.
  subst b. destruct (dispatch os sha256_hex generate world m s) as [r s']. cbn in He, Hd |- *. subst r.
  pose proof (attempts_stay_ok cs provider l : attempts_ok generate s.1) as Hok. clearbody s.
  inversion Hd as [|admission answer s1 r0 s'' _ _ Had _ _ _ Hsend Hsettled]; subst; [by left|].
  assert (Hquiet : forall failure, answer = Err failure -> quiet s.1 s1.1).
  { intros failure ->. by eapply failed_quiet. }
  inversion Hsettled as [|failure s2 e2|failure s2 pending served Hf Hid Hserved Hin|failure s2 chain r2 s3 Hf Hdef Hw]; subst.
  - left. by eapply Hquiet.
  - right. exists (ad_purpose admission), pending, s1.1. split_and!; [done|by eapply Hquiet|done|done].
  - left. transitivity s1.1; [by eapply Hquiet|]. eapply (walked_quiet os sha256_hex generate); [exact Hw|].
    by eapply attempts_ok_quiet; [eapply Hquiet|].
Qed.

(** An attempt has one state: it is admitted under its own identifier, accounted
    or cancelled, and no two of them; a pause belongs to an admitted attempt of manual
    fallback, and a pending choice to a pause that offers its candidates. *)
Theorem attempts_have_one_state cs provider l attempt :
  let b := (run cs (fresh_broker provider l)).1 in
  (forall ad, bk_admissions b !! attempt = Some ad ->
     mf_attempt_id (ad_manifest ad) = attempt /\ bk_accounting b !! attempt = None /\ attempt ∉ bk_cancelled b) /\
  (is_Some (bk_accounting b !! attempt) -> attempt ∉ bk_cancelled b) /\
  (forall served, bk_paused b !! attempt = Some served ->
     exists ad, bk_admissions b !! attempt = Some ad /\ ad_fallback ad = ManualFallback) /\
  (forall pd, bk_pending b !! attempt = Some pd ->
     pd_attempt_id pd = attempt /\ bk_paused b !! attempt = Some (list_to_set (pd_candidates pd))).
Proof.
  intros b. destruct (attempts_stay_ok cs provider l) as [_ Ho Ha Hc Hp Hq _]. fold b in Ho, Ha, Hc, Hp, Hq. split_and!.
  - intros ad Had. split_and!; [by apply Ho| |].
    + apply eq_None_not_Some. intros Hs%Ha. destruct Hs as [Hs _]. congruence.
    + intros Hs%Hc. congruence.
  - intros Hs. by apply Ha.
  - by apply Hp.
  - by apply Hq.
Qed.

(** An admission under the current snapshot of the account's rights is to an
    entitled connection; so once the rights change, a dispatch of anything admitted
    before is refused and nothing crosses. *)
Theorem current_snapshots_are_entitled cs provider l attempt ad :
  let b := (run cs (fresh_broker provider l)).1 in
  bk_admissions b !! attempt = Some ad ->
  (ad_snapshot_version ad = en_version (bk_entitlements b) -> allows (bk_entitlements b) (ad_connection ad) = true) /\
  (forall rights world, en_rights (bk_entitlements b) <> Some (list_to_set rights) ->
     let s' := (set_account_rights rights b, (run cs (fresh_broker provider l)).2) in
     exists e, dispatch os sha256_hex generate world (ad_manifest ad) s' = (Err e, s')).
Proof.
  intros b Had. destruct (attempts_stay_ok cs provider l) as [_ Ho _ _ _ _ He]. fold b in Ho, He.
  destruct (He attempt ad Had) as [Hle Hallows]. split; [done|]. intros rights world Hr s'.
  pose proof (dispatch_dispatched os sha256_hex generate world (ad_manifest ad) s') as Hd. cbn zeta in Hd.
  destruct (dispatch os sha256_hex generate world (ad_manifest ad) s') as [r s2]. cbn in Hd.
  inversion Hd as [e|admission answer s1 r0 s3 _ _ Had' _ Hv _ _ _]; subst; [by exists e|]. exfalso.
  rewrite (Ho attempt ad Had) in Had'. subst s'. cbn [fst] in Had', Hv. unfold set_account_rights in Had', Hv. rewrite decide_False in Had', Hv by done.
  cbn in Had', Hv. rewrite Had in Had'. injection Had' as <-. lia.
Qed.
End Runs.

(** C9.  An attempt crosses once: over any ledger that opens a send once and forgets
    none, whatever else uses it between the broker's calls, no run sends two requests
    under one identifier. *)
Theorem an_attempt_is_sent_once {P L} `{Provider P} `{LedgerLaws L} os recorded_models sha256_hex generate fs
    (cs : list (BrokerCall L)) (provider : P) (l : L) :
  Forall keeps_begun cs ->
  NoDup (map logged_attempt (log_of (bcalls os recorded_models sha256_hex generate fs cs (fresh_broker provider l)).1)).
Proof.
  intros Hcs. pose proof (bcalls_once os recorded_models sha256_hex generate fs cs (fresh_broker provider l) Hcs) as Honce.
  destruct Honce as [Hdup _]; [|done]. split; constructor.
Qed.

(** * Ranking *)

(** The ranking's pick comes first: it is a candidate of a feasible connection, no
    candidate orders before it, and a candidate of an unknown price never beats one of
    a known price that fits as well; the effort it chooses is one the row
    records, the least that meets the floor the facts ask for, or the greatest where
    none does. *)
Theorem ranking_picks_the_best recorded_models purpose feasible facts rejected effort choice :
  rank_recorded recorded_models purpose feasible facts rejected effort = Ok choice ->
  let risky := is_some (risky_surface facts) in
  let candidates := ranked_candidates recorded_models feasible 0 facts risky in
  exists winner, winner ∈ candidates /\ rc_connection choice = ra_connection winner /\
    rc_model_id choice = cm_id <$> ra_row winner /\
    (forall c, c ∈ candidates -> candidate_order winner c <> Gt) /\
    (forall c, c ∈ candidates -> (ra_class winner).1 = (ra_class c).1 -> is_Some (ra_cost c) -> is_Some (ra_cost winner)) /\
    (forall level row, rc_effort choice = Some level -> ra_row winner = Some row ->
       level ∈ cm_efforts row /\
       let floor := effort_rank (effort_floor facts risky).1 in
       ((floor <= effort_rank level)%Z /\
          (forall other, other ∈ cm_efforts row -> (floor <= effort_rank other)%Z -> (effort_rank level <= effort_rank other)%Z) \/
        (forall other, other ∈ cm_efforts row -> (effort_rank other < floor)%Z /\ (effort_rank other <= effort_rank level)%Z))).
Proof.
  intros Hr risky candidates. unfold rank_recorded in Hr. fold risky in Hr. fold candidates in Hr.
  destruct (merge_sort not_after candidates) as [|winner ranked] eqn:Hs; [done|]. injection Hr as <-.
  pose proof (ranked_candidates_wf recorded_models feasible 0 facts risky) as Hwf. fold candidates in Hwf.
  assert (Hin : winner ∈ candidates) by (rewrite <- (merge_sort_Permutation not_after), Hs; by left).
  pose proof (ranked_head_first _ _ _ Hwf Hs) as Hfirst. exists winner. split_and!; [done..| |].
  - intros c Hc Hclass [cost Hcost]. specialize (Hfirst c Hc). rewrite Forall_forall in Hwf.
    destruct (Hwf winner Hin) as [Hw _], (Hwf c Hc) as [Hp _]. rewrite Hcost in Hp.
    destruct (ra_cost winner) as [w|]; [done|]. exfalso. apply Hfirst. unfold candidate_order, class_cmp.
    rewrite Hclass, !Z.compare_refl, Hw, Hp. done.
  - intros level row He Hrow. cbn [rc_effort] in He. rewrite Hrow in He. unfold ranked_effort in He.
    destruct effort; try done. destruct (effort_floor facts risky) as [floor reason]. cbn [fst].
    set (satisfying := filter _ (cm_efforts row)) in He.
    destruct (min_by_key effort_rank satisfying) as [chosen|] eqn:Hmin; cbn in He.
    + injection He as ->. apply min_by_key_spec in Hmin as [Hsat Hleast]. apply list_elem_of_filter in Hsat as [Hfloor Hmem].
      split; [done|]. left. split; [done|]. intros other Ho Hf. apply Hleast. by apply list_elem_of_filter.
    + apply min_by_key_None in Hmin. destruct (max_by_key effort_rank (cm_efforts row)) as [chosen|] eqn:Hmax; [|done].
      injection He as ->. apply max_by_key_spec in Hmax as [Hmem Hmost]. split; [done|]. right. intros other Ho.
      split; [|by apply Hmost]. apply Z.nle_gt. intros Hf. eapply not_elem_of_nil. rewrite <- Hmin. by apply list_elem_of_filter.
Qed.

(** * Epochs *)

(** How the parts of a request moved since the epoch was recorded. *)
Lemma context_epoch_cost {P} sha256_hex `{!Inj (=) (=) sha256_hex} (b : Broker P) purpose model tools instructions
    model0 tools0 instructions0 :
  bk_epochs b !! purpose = Some (epoch_parts sha256_hex purpose model0 instructions0 tools0) ->
  let cost := (context_epoch sha256_hex purpose model instructions tools b).1.2 in
  let moved reason := epoch_prefix purpose model instructions tools <> epoch_prefix purpose model0 instructions0 tools0 /\
                      cost = Some (epoch_cost reason instructions model tools) in
  (epoch_prefix purpose model instructions tools = epoch_prefix purpose model0 instructions0 tools0 /\ cost = None) \/
  (instructions <> instructions0 /\ moved SystemChange) \/
  (instructions = instructions0 /\ model_wire_id model <> model_wire_id model0 /\ moved ModelSwitch) \/
  (instructions = instructions0 /\ model_wire_id model = model_wire_id model0 /\ moved ToolsChange).
Proof.
  intros Hepoch cost moved. subst cost moved. unfold context_epoch. rewrite Hepoch.
  cbn [fst snd epoch_parts ep_prefix changed_part ep_instructions ep_model ep_tools].
  case_decide as E.
  { apply (inj sha256_hex) in E. by left. }
  assert (Hne : epoch_prefix purpose model instructions tools <> epoch_prefix purpose model0 instructions0 tools0).
  { intros E'. apply E. by rewrite E'. }
  right. unfold changed_part. cbn [epoch_parts ep_instructions ep_model ep_tools].
  case_bool_decide as Hi; cbn [negb]; [|left; split; [by intros ->|done]]. apply (inj sha256_hex) in Hi. right.
  case_bool_decide as Hm; cbn [negb]; [|left; split_and!; [done|by intros E2; apply Hm; rewrite E2|done..]].
  apply (inj sha256_hex) in Hm. right.
  case_bool_decide as Ht; cbn [negb]; [|done]. apply (inj sha256_hex) in Ht. destruct Hne.
  unfold epoch_prefix. by rewrite Hi, Hm, Ht.
Qed.

(** An epoch is replaced exactly when the stable part of the request moved, the
    reason names the first part that did, and the cost is the bytes the provider reads
    anew: what precedes them on the wire is a prefix of the earlier request too. *)
Theorem epochs_replay {P} sha256_hex `{!Inj (=) (=) sha256_hex} (b : Broker P) purpose model tools instructions
    model0 tools0 instructions0 :
  bk_epochs b !! purpose = Some (epoch_parts sha256_hex purpose model0 instructions0 tools0) ->
  let cost := (context_epoch sha256_hex purpose model instructions tools b).1.2 in
  let b' := (context_epoch sha256_hex purpose model instructions tools b).2 in
  bk_epochs b' !! purpose = Some (epoch_parts sha256_hex purpose model instructions tools) /\
  (cost = None <-> epoch_prefix purpose model instructions tools = epoch_prefix purpose model0 instructions0 tools0) /\
  (forall c, cost = Some c ->
     ec_reason c = (if decide (instructions = instructions0)
                    then if decide (model_wire_id model = model_wire_id model0) then ToolsChange else ModelSwitch
                    else SystemChange) /\
     forall inputs inputs0, exists kept replayed rest,
       wire_composition instructions model tools OUTPUT_RESERVE_BYTES inputs =
         kept +:+ replayed +:+ newline +:+ newline +:+ inputs /\
       wire_composition instructions0 model0 tools0 OUTPUT_RESERVE_BYTES inputs0 = kept +:+ rest /\
       ec_expected_rewrite_bytes c = slen replayed).
Proof.
  intros Hepoch cost b'. split; [apply lookup_insert_eq|].
  pose proof (context_epoch_cost sha256_hex b purpose model tools instructions _ _ _ Hepoch) as Hcost. cbn zeta in Hcost.
  change ((context_epoch sha256_hex purpose model instructions tools b).1.2) with cost in Hcost. clearbody cost.
  destruct Hcost as [[Hp ->]|[(Hi & Hp & ->)|[(-> & Hm & Hp & ->)|(-> & Hm & Hp & ->)]]].
  - by split.
  - split; [done|]. intros c [= <-]. rewrite decide_False by done. split; [done|]. intros inputs inputs0.
    exists EmptyString, (instructions +:+ newline +:+ "model: " +:+ model_wire_id model +:+ newline +:+ "tools: " +:+
      join ", " tools +:+ newline +:+ "output-reserve: " +:+ pretty OUTPUT_RESERVE_BYTES).
    eexists. split_and!; [|reflexivity|].
    + unfold wire_composition. by rewrite <- !string_app_assoc.
    + cbn [epoch_cost ec_expected_rewrite_bytes]. rewrite !slen_app. change (slen newline) with 1%Z. lia.
  - split; [done|]. intros c [= <-]. rewrite decide_True, decide_False by done. split; [done|]. intros inputs inputs0.
    exists (instructions0 +:+ newline), ("model: " +:+ model_wire_id model +:+ newline +:+ "tools: " +:+
      join ", " tools +:+ newline +:+ "output-reserve: " +:+ pretty OUTPUT_RESERVE_BYTES).
    eexists. unfold wire_composition. split_and!; [by rewrite <- !string_app_assoc|by rewrite <- !string_app_assoc|].
    cbn [epoch_cost ec_expected_rewrite_bytes]. rewrite !slen_app. change (slen newline) with 1%Z. lia.
  - split; [done|]. intros c [= <-]. rewrite !decide_True by done. split; [done|]. intros inputs inputs0.
    exists (instructions0 +:+ newline +:+ "model: " +:+ model_wire_id model +:+ newline), ("tools: " +:+
      join ", " tools +:+ newline +:+ "output-reserve: " +:+ pretty OUTPUT_RESERVE_BYTES).
    eexists. unfold wire_composition. rewrite <- Hm.
    split_and!; [by rewrite <- !string_app_assoc|by rewrite <- !string_app_assoc|].
    cbn [epoch_cost ec_expected_rewrite_bytes]. rewrite !slen_app. change (slen newline) with 1%Z. lia.
Qed.

(** * A concrete run *)

Module BrokerSamples.
(** A provider that answers from a script, then always. *)
Record Script := mkScript { sc_answers : list (result ProviderReply ProviderError) }.
#[export] Instance script_provider : Provider Script := {
  serves _ _ _ := true;
  send _ p := match sc_answers p with
              | [] => (Ok (mkReply "done" [] (UsageExact 1 2 3) 0), p)
              | answer :: rest => (answer, mkScript rest)
              end;
}.

Definition generate (n : nat) : string := "id" +:+ pretty n.
#[export] Instance generate_inj : Inj (=) (=) generate.
Proof. intros n m E. apply (inj pretty). by apply (inj (String.append "id")) in E. Qed.
Definition sha256_hex (bytes : string) : string := bytes.
#[export] Instance sha256_hex_inj : Inj (=) (=) sha256_hex.
Proof. by intros a b. Qed.
Definition fs (_ : nat) : Fs := mkFs (fun _ => Err IoNotFound) (fun _ => Err IoNotFound).

(** A cheap and a dear row, and one of an unknown price. *)
Definition usd (price : Z) : ModelPrice := PriceUsd (f64_of price) (f64_of price).
Definition row (id : string) (price : ModelPrice) : CatalogModel :=
  mkCatalogModel id true false true [Low; High; Xhigh] None (Some 200000%Z) None price.
Definition recorded_models (connection : string) : list CatalogModel :=
  if bool_decide (connection = "near") then [row "dear" (usd 9); row "cheap" (usd 3)]
  else if bool_decide (connection = "far") then [row "free" PriceUnknown] else [].

Definition local : Connection := mkConnection KindLocal "http://127.0.0.1" None None None.
Definition config (fallback : FallbackAssign) : Config :=
  mkConfig {[ "near" := local; "far" := local; "spare" := local ]} ∅
    (mkModels (Some (mkDefaults (AutoModel (Some ["near"; "far"])) AutoEffort fallback)) ∅ ∅).
Definition chain : list FixedModel := [mkFixed "gone" "m0"; mkFixed "far" "m1"; mkFixed "spare" "m2"].

Definition prepare_work {L} (fallback : FallbackAssign) (inputs : string) : BrokerCall L :=
  Prepare "work" (config fallback) "world" inputs OriginHuman FactsUnknown.

Definition denial : result ProviderReply ProviderError := Err (Transport "near" (Status 404)).
Definition doubt : result ProviderReply ProviderError := Err (Transport "near" (Status 500)).

Abbreviation run := (bcalls (P := Logged Script) Linux recorded_models sha256_hex generate fs).
Abbreviation send_it := (dispatch (P := Logged Script) Linux sha256_hex generate "world").

(** The request admitted under an identifier. *)
Definition admitted {L} (id : string) (s : Broker (Logged Script) * L) : RequestManifest :=
  match bk_admissions s.1 !! id with
  | Some ad => ad_manifest ad
  | None => mkManifest id "?" "?" InheritModel InheritEffort "?" [] 0 "?" "?" "?" None None OriginHuman 0
  end.

(** A request with a chain is prepared; its provider denies twice, then answers. *)
Definition prepared_run : list (BrokerCall unit) := [prepare_work (AutoFallback chain) "one"].
Definition ready := run prepared_run (fresh_broker (mkScript [denial; denial]) tt).
Definition first := admitted "id0" ready.

Example walks_to_the_spare :
  map (fun e => mf_model e.1) (log_of (send_it first ready).2.1) =
    [AutoModel (Some ["near"]); Fixed (mkFixed "far" "m1"); Fixed (mkFixed "spare" "m2")] /\
  is_ok (send_it first ready).1 = true.
Proof. split; vm_compute; reflexivity. Qed.

(** An answer in doubt stops the walk. *)
Example stops_in_doubt :
  let s := run prepared_run (fresh_broker (mkScript [denial; doubt; denial]) tt) in
  map (fun e => mf_model e.1) (log_of (send_it first s).2.1) =
    [AutoModel (Some ["near"]); Fixed (mkFixed "far" "m1")] /\
  (send_it first s).1 = Err (ModelProvider (Transport "near" (Status 500))).
Proof. split; vm_compute; reflexivity. Qed.

(** A manual fallback pauses, and the pick is sent. *)
Definition manual_run : list (BrokerCall unit) := [prepare_work ManualFallback "one"].
Definition manual := run manual_run (fresh_broker (mkScript [denial; denial]) tt).
Definition paused := (send_it (admitted "id0" manual) manual).2.

Abbreviation pick := (dispatch_fallback_choice (P := Logged Script) Linux sha256_hex generate "world" "id0").
Example a_pick_is_sent :
  (send_it (admitted "id0" manual) manual).1 = Err (ManualFallbackPending "id0" "work") /\
  pd_candidates <$> (bk_pending paused.1 !! "id0") = Some ["far"; "spare"] /\
  (pick "near" paused).1 = Err (ManualChoiceRejected "id0" "near" RejNotOffered) /\
  (pick "far" paused).1 = Err (ModelProvider (Transport "near" (Status 404))) /\
  is_ok (pick "spare" (pick "far" paused).2).1 = true.
Proof. split_and!; vm_compute; reflexivity. Qed.

(** A send over the durable ledger, and the same request again: the ledger refuses. *)
#[export] Instance session_ledger : Ledger LStore := store_ledger ["session"].
#[export] Instance session_laws : LedgerLaws LStore := store_ledger_laws ["session"].
Definition durable_run : list (BrokerCall LStore) :=
  [prepare_work OffFallback "one"; Elsewhere (lcall generate sha256_hex (OpenBudget "session" 100));
   Dispatch "world" first; Dispatch "world" first].

Definition durable := run durable_run (fresh_broker (mkScript [denial]) fresh_ledger).
Example the_ledger_refuses_the_second :
  map logged_attempt (log_of durable.1) = ["id0"] /\
  (send_it first durable).1 = Err (ModelLedger (LedgerStore (StoreConflict (SettlementAlreadyRecorded "id0")))).
Proof. split; vm_compute; reflexivity. Qed.

(** The facts of a risky task. *)
Definition facts : RecordedFacts := mkFacts (Some {[ Auth ]}) true 50000 1 1 ∅ [].
End BrokerSamples.
Import BrokerSamples.

(** * Witnesses *)

Lemma cancelled_attempts_never_send_witness :
  (cancel_attempt "id0" manual.1).1 = true /\
  filter (fun e => logged_attempt e = "id0")
    (log_of (run [CancelAttempt "id0"; Dispatch "world" (admitted "id0" manual)] manual).1) = [].
Proof.
  split; [vm_compute; reflexivity|].
  rewrite (cancelled_attempts_never_send Linux recorded_models sha256_hex generate fs manual_run
    [Dispatch "world" (admitted "id0" manual)] (mkScript [denial; denial]) tt "id0"); vm_compute; reflexivity.
Defined.

Lemma only_definitive_denials_walk_witness :
  exists new, log_of (send_it first ready).2.1 = log_of ready.1 ++ new /\ only_last_applies new /\ length new = 3.
Proof.
  destruct (only_definitive_denials_walk Linux recorded_models sha256_hex generate fs prepared_run (mkScript [denial; denial]) tt
    "world" first) as (new & E & Hlast).
  exists new. split_and!; [exact E|exact Hlast|]. apply (f_equal length) in E. rewrite length_app in E.
  assert (Hs : length (log_of (send_it first ready).2.1) = 3) by (vm_compute; reflexivity).
  assert (Hr : length (log_of ready.1) = 0) by (vm_compute; reflexivity).
  change (log_of (run prepared_run (fresh_broker (mkScript [denial; denial]) ())).1) with (log_of ready.1) in E.
  rewrite Hr in E. exact (eq_trans (eq_sym E) Hs).
Defined.

Lemma substitutes_carry_the_frozen_request_witness :
  exists new, log_of (send_it first ready).2.1 = log_of ready.1 ++ new /\ new <> [].
Proof.
  destruct (substitutes_carry_the_frozen_request Linux recorded_models sha256_hex generate fs prepared_run
    (mkScript [denial; denial]) tt "world" first) as (new & E & _).
  exists new. split; [exact E|]. intros ->. apply (f_equal length) in E. vm_compute in E. discriminate.
Defined.

Lemma attempts_have_one_state_witness :
  exists ad, bk_admissions ready.1 !! "id0" = Some ad /\ mf_attempt_id (ad_manifest ad) = "id0" /\ "id0" ∉ bk_cancelled ready.1.
Proof.
  destruct (bk_admissions ready.1 !! "id0") as [ad|] eqn:Had; [|vm_compute in Had; discriminate].
  destruct (attempts_have_one_state Linux recorded_models sha256_hex generate fs prepared_run (mkScript [denial; denial]) tt
    "id0") as (Hone & _). destruct (Hone ad Had) as (Hid & _ & Hn). by exists ad.
Defined.

Lemma failures_leave_no_trace_witness :
  exists purpose pending b1, ManualFallbackPending "id0" "work" = ManualFallbackPending "id0" purpose /\ quiet manual.1 b1 /\
    pd_attempt_id pending = "id0" /\
    paused.1 = on_pending (<["id0" := pending]>) (on_paused (<["id0" := list_to_set (pd_candidates pending)]>) b1).
Proof.
  destruct (failures_leave_no_trace Linux recorded_models sha256_hex generate fs manual_run (mkScript [denial; denial]) tt "world"
    (admitted "id0" manual) (ManualFallbackPending "id0" "work")) as [Hq|Hp].
  - vm_compute. reflexivity.
  - exfalso. destruct Hq as (p & n & _ & Hb). apply (f_equal bk_pending) in Hb. vm_compute in Hb. discriminate.
  - exact Hp.
Defined.

Lemma current_snapshots_are_entitled_witness :
  exists e, dispatch Linux sha256_hex generate "world" (admitted "id0" ready)
              (set_account_rights ["far"] ready.1, ready.2) = (Err e, (set_account_rights ["far"] ready.1, ready.2)).
Proof.
  destruct (bk_admissions ready.1 !! "id0") as [ad|] eqn:Had; [|vm_compute in Had; discriminate].
  destruct (current_snapshots_are_entitled Linux recorded_models sha256_hex generate fs prepared_run (mkScript [denial; denial]) tt
    "id0" ad Had) as [_ Hstale].
  assert (Hm : admitted "id0" ready = ad_manifest ad) by (unfold admitted; by rewrite Had).
  rewrite Hm. apply (Hstale ["far"] "world"). vm_compute. discriminate.
Defined.

Lemma an_attempt_is_sent_once_witness : NoDup (map logged_attempt (log_of durable.1)).
Proof.
  unfold durable. simple apply (an_attempt_is_sent_once Linux recorded_models sha256_hex generate fs durable_run
    (mkScript [denial]) fresh_ledger).
  repeat constructor. intros l a. apply lcall_begun.
Defined.

Lemma ranking_picks_the_best_witness :
  exists choice winner, rank_recorded recorded_models "work" ["far"; "near"] facts [] AutoEffort = Ok choice /\
    rc_connection choice = ra_connection winner /\ ra_connection winner = "near" /\
    rc_model_id choice = Some "cheap" /\ rc_effort choice = Some High.
Proof.
  destruct (rank_recorded recorded_models "work" ["far"; "near"] facts [] AutoEffort) as [choice|e] eqn:Hr;
    [|vm_compute in Hr; discriminate].
  destruct (ranking_picks_the_best _ _ _ _ _ _ _ Hr) as (winner & _ & Hc & _). exists choice, winner.
  vm_compute in Hr. injection Hr as <-. split_and!; [done..|by symmetry|done|done].
Defined.

Lemma epochs_replay_witness :
  exists c, (context_epoch sha256_hex "work" (Fixed (mkFixed "near" "cheap")) "instructions" DECLARED_TOOLS
              (context_epoch sha256_hex "work" (AutoModel None) "instructions" DECLARED_TOOLS (broker_new tt)).2).1.2 = Some c /\
    ec_reason c = ModelSwitch.
Proof.
  destruct (epochs_replay sha256_hex (context_epoch sha256_hex "work" (AutoModel None) "instructions" DECLARED_TOOLS (broker_new tt)).2
    "work" (Fixed (mkFixed "near" "cheap")) DECLARED_TOOLS "instructions" (AutoModel None) DECLARED_TOOLS "instructions")
    as (_ & _ & Hcost).
  - vm_compute. reflexivity.
  - eexists. split; [vm_compute; reflexivity|]. edestruct Hcost as [Hreason _]; [vm_compute; reflexivity|].
    rewrite Hreason. vm_compute. reflexivity.
Defined.
