(* ===== verification/Tools.v ===== *)
(** The command catalogue ([src/src/tools.rs]): the kinds this build dispatches,
    the ones it knows without a handler, and the page that describes them.
    [invoke_read] drives the executor and is not modelled here. *)

From S2P Require Import Prelude.
From S2P Require Import Contracts.

Inductive LocalKind :=
  | ConfigSet | ConfigUnset | DecisionsControl | ProjectInit | SessionNew | ViewClear
  | ContextCompact | McpCall | PlannedUnimplemented | UnknownKind.

#[export] Instance LocalKind_eq_dec : EqDecision LocalKind.
Proof. solve_decision. Defined.

Definition BUSY_READ : string :=
  "READ".
Definition BUSY_WRITE : string :=
  "WRITE".
Definition BUSY_READ_CONFIG : string :=
  "READ/CONFIG".
Definition BUSY_READ_INDEX : string :=
  "READ/INDEX".
Definition BUSY_EGRESS : string :=
  "EGRESS".
Definition BUSY_UNAVAILABLE : string :=
  "UNAVAILABLE".
Definition READ_FILE_DESCRIPTION : string :=
  "One admitted file read in the current scope.".
Definition CONFIG_SET_DESCRIPTION : string :=
  "Set one config key through the shared schema and journaled publication.".
Definition CONFIG_UNSET_DESCRIPTION : string :=
  "Remove one config override through the shared schema and journaled publication.".
Definition DECISIONS_CONTROL_DESCRIPTION : string :=
  "Inspect or switch the decision mode (ask, auto, inherit); mutations ride the journaled config publication.".
Definition PROJECT_INIT_DESCRIPTION : string :=
  "Build or repair the project index generation for the pinned project root; the parse runs in the capped index worker, never in-process.".
Definition SESSION_NEW_DESCRIPTION : string :=
  "Start an independent conversation on this connection; the previous session stays resumable and nothing durable is deleted.".
Definition VIEW_CLEAR_DESCRIPTION : string :=
  "Clear the transcript and streamed output; the stored conversation is kept.".
Definition CONTEXT_COMPACT_DESCRIPTION : string :=
  "Fold one task's episodic history into its continuation checkpoint; a fold that would not shorten the context is refused typed.".
Definition MCP_CALL_DESCRIPTION : string :=
  "One admitted tools/call against a declared MCP server; the logical operation, its continuation and its honest outcome are retained.".
Definition PLANNED_COMMAND_DESCRIPTION : string :=
  "A planned command in this catalog.".
Definition UNAVAILABLE_REASON : string :=
  "known command without a handler in this build".

Definition PLANNED_LOCAL_KINDS : list string :=
  ["session.list"; "session.search"; "session.resume"; "session.fork"; "session.export";
   "session.recap"; "session.exit"; "settings.open"; "context.view"; "usage.view";
   "checkpoint.preview"; "checkpoint.apply"; "permissions.view"; "model.view"; "effort.view";
   "workflow.control"; "harness.control"; "docs.status"; "config.list"; "config.search";
   "config.get"; "config.explain"; "config.validate"; "config.export"; "doctor"; "ui.render"].

Definition planned_local_kinds : list string := PLANNED_LOCAL_KINDS.

Definition contains (l : list string) (s : string) : bool := existsb (String.eqb s) l.

Definition local_command_kind (kind : string) : LocalKind :=
  if String.eqb kind "config.set" then ConfigSet
  else if String.eqb kind "config.unset" then ConfigUnset
  else if String.eqb kind "decisions.control" || String.eqb kind "decisions" then DecisionsControl
  else if String.eqb kind "project.init" then ProjectInit
  else if String.eqb kind "session.new" then SessionNew
  else if String.eqb kind "view.clear" then ViewClear
  else if String.eqb kind "context.compact" then ContextCompact
  else if String.eqb kind "mcp.call" then McpCall
  else if contains PLANNED_LOCAL_KINDS kind then PlannedUnimplemented
  else UnknownKind.

Definition descriptor (canonical_id : string) (aliases : list string) (description : string)
    (available : bool) (busy_policy : string) : CommandDescriptor :=
  {| canonical_id := canonical_id; aliases := aliases; description := description;
     busy_policy := busy_policy; available := available;
     unavailability_reason := if available then None else Some UNAVAILABLE_REASON |}.

Definition describe : Page CommandDescriptor :=
  let items :=
    [descriptor "read_file" ["read"] READ_FILE_DESCRIPTION true BUSY_READ;
     descriptor "config.set" [] CONFIG_SET_DESCRIPTION true BUSY_WRITE;
     descriptor "config.unset" [] CONFIG_UNSET_DESCRIPTION true BUSY_WRITE;
     descriptor "decisions.control" ["decisions"] DECISIONS_CONTROL_DESCRIPTION true BUSY_READ_CONFIG;
     descriptor "project.init" [] PROJECT_INIT_DESCRIPTION true BUSY_READ_INDEX;
     descriptor "session.new" [] SESSION_NEW_DESCRIPTION true BUSY_WRITE;
     descriptor "view.clear" [] VIEW_CLEAR_DESCRIPTION true BUSY_READ;
     descriptor "context.compact" [] CONTEXT_COMPACT_DESCRIPTION true BUSY_WRITE;
     descriptor "mcp.call" [] MCP_CALL_DESCRIPTION true BUSY_EGRESS] in
  page_new
    (fold_left (fun items kind =>
       items ++ [descriptor kind [] PLANNED_COMMAND_DESCRIPTION false BUSY_UNAVAILABLE])
     PLANNED_LOCAL_KINDS items) 0.

(** The catalogue and the dispatch agree: every command but the file read, which
    goes through the executor, resolves under its id and each alias to a handler
    when it is listed as available and to [PlannedUnimplemented] when it is not;
    no id or alias is listed twice; and an unlisted kind is unknown. *)
Definition names (d : CommandDescriptor) : list string := canonical_id d :: aliases d.

Lemma catalogue_matches_dispatch :
  Forall (fun d => canonical_id d = "read_file" \/
            Forall (fun s => local_command_kind s <> UnknownKind /\
                      (local_command_kind s = PlannedUnimplemented <-> available d = false)) (names d))
         (items describe) /\
  NoDup (concat (map names (items describe))).
Proof.
  split; apply (bool_decide_unpack _); vm_compute; exact I.
Qed.

Lemma unlisted_kind_is_unknown s :
  s ∉ concat (map names (items describe)) -> local_command_kind s = UnknownKind.
Proof.
  intros Hs. unfold local_command_kind, contains.
  repeat match goal with
    | |- context [String.eqb s ?k] =>
        destruct (String.eqb_spec s k) as [->|]; [exfalso; apply Hs; apply (bool_decide_unpack _); vm_compute; exact I|]
    end.
  simpl orb. destruct (existsb (String.eqb s) PLANNED_LOCAL_KINDS) eqn:E; [|done].
  apply existsb_exists in E as (k & Hk & ->%String.eqb_eq). exfalso. apply Hs.
  apply list_elem_of_In in Hk.
  assert (Forall (fun k => k ∈ concat (map names (items describe))) PLANNED_LOCAL_KINDS) as HF
    by (apply (bool_decide_unpack _); vm_compute; exact I).
  rewrite Forall_forall in HF. by apply HF.
Qed.
