(* ===== verification/Verification.v ===== *)
(** Retained attempt evidence ([src/src/verification.rs]): the records written
    before and after an effect, the boundary ids that key them, and the
    classification of an assumption check.  SHA-256 and the UUID generator are
    parameters; [hex] is the one of [src/src/config.rs]. *)

From Stdlib Require Import Ascii.
From Stdlib.Strings Require Byte.
From S2P Require Import Prelude.

Definition newline : string := String (ascii_of_nat 10) EmptyString.

(** [crate::BUILD_ATTEMPT_ID] *)
Definition BUILD_ATTEMPT_ID : string := "slice001-20260909T180108Z-retry".

Inductive RetainedStage := PreEffect | Terminal.

Record RetainedAttempt := mkRetained {
  attempt_id : string;
  boundary_id_ : string;
  stage : RetainedStage;
  cause : string;
  digest : string;
  build_attempt : string;
  admitted_attempt_id : option string;
}.

Definition RETAINED_BOUNDARY : string := "first_task_effect".

Definition boundary_id (attempt_id : string) : string :=
  "ret:" +:+ RETAINED_BOUNDARY +:+ ":" +:+ attempt_id.

Definition terminal_boundary_id (boundary_id : string) : string := "ret:terminal:" +:+ boundary_id.

(** [HEX[i]]: a nibble of a byte is always below 16. *)
Definition HEX : list ascii :=
  ["0"; "1"; "2"; "3"; "4"; "5"; "6"; "7"; "8"; "9"; "a"; "b"; "c"; "d"; "e"; "f"]%char.
Definition hex_digit (nibble : N) : outcome ascii := index HEX (N.to_nat nibble).

(** [crate::config::hex] *)
Fixpoint hex (bs : list Byte.byte) : outcome string :=
  match bs with
  | [] => Ret EmptyString
  | b :: bs =>
      let* hi := hex_digit (N.shiftr (Byte.to_N b) 4) in
      let* lo := hex_digit (N.land (Byte.to_N b) 15) in
      let* out := hex bs in
      Ret (String hi (String lo out))
  end.

Inductive ExpectedResult := ExpectPass | ExpectFail.

Inductive SetupGapCause :=
  | MissingExecutable | MissingFixture | EnvironmentUnavailable | ImportFailure | ZeroTestsSelected.

Inductive CheckObservation := Passed | ObservedFailure | ObservedGap (cause : SetupGapCause).

Inductive AssumptionClassification :=
  | Confirmed | ProductDefect | NotReproduced | ClassifiedGap (cause : SetupGapCause).

Definition expected_as_str (e : ExpectedResult) : string :=
  match e with ExpectPass => "pass" | ExpectFail => "fail" end.

Definition gap_as_str (c : SetupGapCause) : string :=
  match c with
  | MissingExecutable => "missing_executable"
  | MissingFixture => "missing_fixture"
  | EnvironmentUnavailable => "environment_unavailable"
  | ImportFailure => "import_failure"
  | ZeroTestsSelected => "zero_tests_selected"
  end.

Record AssumptionCheckRecord := mkCheckRecord {
  session_id : string;
  task_id : string;
  check_id : string;
  expected_result : ExpectedResult;
  assertion_digest : string;
  observation : CheckObservation;
  classification : AssumptionClassification;
  record_boundary_id : option string;
}.

Definition classify_assumption (expected : ExpectedResult) (observation : CheckObservation)
    : AssumptionClassification :=
  match expected, observation with
  | _, ObservedGap cause => ClassifiedGap cause
  | ExpectPass, Passed | ExpectFail, ObservedFailure => Confirmed
  | ExpectPass, ObservedFailure => ProductDefect
  | ExpectFail, Passed => NotReproduced
  end.

Inductive AssumptionSeam :=
  | SeamGap (cause : SetupGapCause) | SeamDefect | SeamNotReproduced | PrepareEnvironment.

(** [AssumptionSeam::identity] *)
Definition identity (s : AssumptionSeam) : string :=
  match s with
  | SeamGap MissingExecutable => "setup_gap:missing_executable"
  | SeamGap MissingFixture => "setup_gap:missing_fixture"
  | SeamGap EnvironmentUnavailable => "setup_gap:environment_unavailable"
  | SeamGap ImportFailure => "setup_gap:import_failure"
  | SeamGap ZeroTestsSelected => "setup_gap:zero_tests_selected"
  | SeamDefect => "product_defect"
  | SeamNotReproduced => "not_reproduced"
  | PrepareEnvironment => "prepare_environment"
  end.

Section evidence.
(** [sha2::Sha256::digest], on the bytes of a string. *)
Variable sha256 : string -> list Byte.byte.

Definition record_digest (attempt_id cause : string) : outcome string :=
  hex (sha256 (attempt_id +:+ newline +:+ cause)).

(** The text one seam's boundary is the digest of. *)
Definition seam_identity (task_id check_id : string) (seam : AssumptionSeam) : string :=
  task_id +:+ newline +:+ check_id +:+ newline +:+ identity seam.

Definition assumption_boundary_id (task_id check_id : string) (seam : AssumptionSeam)
    : outcome string :=
  let* d := record_digest (seam_identity task_id check_id seam) "boundary" in
  Ret ("ret:assumption:" +:+ d).

Definition assumption_evidence (task_id check_id : string) (seam : AssumptionSeam) (cause : string)
    : outcome RetainedAttempt :=
  let* boundary := assumption_boundary_id task_id check_id seam in
  let* d := record_digest boundary cause in
  Ret {| attempt_id := "assumption:" +:+ check_id; digest := d; boundary_id_ := boundary;
         stage := Terminal; cause := cause; build_attempt := BUILD_ATTEMPT_ID;
         admitted_attempt_id := None |}.

Definition setup_gap_evidence (task_id check_id : string) (cause : SetupGapCause)
    : outcome RetainedAttempt :=
  assumption_evidence task_id check_id (SeamGap cause) ("setup gap: " +:+ gap_as_str cause).

(** [assumption_pre_effect], with the UUID [Uuid::new_v4] returned. *)
Definition assumption_pre_effect (uuid task_id check_id : string) : outcome RetainedAttempt :=
  let attempt := "assumption:" +:+ check_id +:+ ":" +:+ uuid in
  let identity_ := task_id +:+ newline +:+ check_id +:+ newline +:+ identity PrepareEnvironment +:+
                   newline +:+ attempt in
  let* b := record_digest identity_ "boundary" in
  let* d := record_digest attempt "pre" in
  Ret {| attempt_id := attempt; boundary_id_ := "ret:assumption:" +:+ b; stage := PreEffect;
         cause := "environment restore pending"; digest := d; build_attempt := BUILD_ATTEMPT_ID;
         admitted_attempt_id := None |}.

Definition assumption_restore_outcome (pending : RetainedAttempt) (cause : string)
    (admitted : option string) : outcome RetainedAttempt :=
  let* d := record_digest (attempt_id pending) cause in
  Ret {| attempt_id := attempt_id pending; boundary_id_ := terminal_boundary_id (boundary_id_ pending);
         stage := Terminal; cause := cause; digest := d; build_attempt := BUILD_ATTEMPT_ID;
         admitted_attempt_id := admitted |}.
End evidence.

(** * Properties

    Retained evidence is never overwritten: two failure seams share a boundary
    only through a SHA-256 collision, and a restore's terminal record has a
    boundary of its own. *)

(** * Separated strings *)

(** The character occurs nowhere in the string. *)
Fixpoint absent (c : ascii) (s : string) : bool :=
  match s with EmptyString => true | String d s => negb (Ascii.eqb c d) && absent c s end.

Lemma absent_app c a b : absent c (a +:+ b) = absent c a && absent c b.
Proof.
  induction a as [|d a IH]; [done|]. change (String d a +:+ b) with (String d (a +:+ b)). simpl.
  by rewrite IH, andb_assoc.
Qed.

Lemma absent_cons c s : absent c (String c s) = false.
Proof. simpl. by rewrite Ascii.eqb_refl. Qed.

(** Cut at the first separator, or at the last. *)
Lemma cut_first c a b r r' :
  absent c a = true -> absent c b = true ->
  a +:+ String c r = b +:+ String c r' -> a = b /\ r = r'.
Proof.
  revert b. induction a as [|x a IH]; intros [|y b] Ha Hb H.
  - change (String c r = String c r') in H. by injection H as ->.
  - change (String c r = String y (b +:+ String c r')) in H. injection H as <- _.
    by rewrite absent_cons in Hb.
  - change (String x (a +:+ String c r) = String c r') in H. injection H as -> _.
    by rewrite absent_cons in Ha.
  - change (String x (a +:+ String c r) = String y (b +:+ String c r')) in H.
    injection H as <- H. simpl in Ha, Hb. apply andb_true_iff in Ha as [_ Ha].
    apply andb_true_iff in Hb as [_ Hb]. by destruct (IH b Ha Hb H) as [-> ->].
Qed.

Lemma cut_last c a b r r' :
  absent c r = true -> absent c r' = true ->
  a +:+ String c r = b +:+ String c r' -> a = b /\ r = r'.
Proof.
  intros Hr Hr'. revert b. induction a as [|x a IH]; intros [|y b] H.
  - change (String c r = String c r') in H. by injection H as ->.
  - change (String c r = String y (b +:+ String c r')) in H. injection H as <- ->.
    rewrite absent_app, absent_cons, andb_false_r in Hr. done.
  - change (String x (a +:+ String c r) = String c r') in H. injection H as -> <-.
    rewrite absent_app, absent_cons, andb_false_r in Hr'. done.
  - change (String x (a +:+ String c r) = String y (b +:+ String c r')) in H.
    injection H as <- H. by destruct (IH b H) as [-> ->].
Qed.

(** * Hexadecimal text *)

Definition nibbles (b : Byte.byte) : outcome (ascii * ascii) :=
  let* hi := hex_digit (N.shiftr (Byte.to_N b) 4) in
  let* lo := hex_digit (N.land (Byte.to_N b) 15) in Ret (hi, lo).

(** The digits of a byte are in range, and tell which byte it was. *)
Lemma nibbles_ret b : exists hi lo, nibbles b = Ret (hi, lo) /\
  hex_digit (N.shiftr (Byte.to_N b) 4) = Ret hi /\ hex_digit (N.land (Byte.to_N b) 15) = Ret lo.
Proof. destruct b; vm_compute; eauto. Qed.

(** The byte two digits spell: a left inverse of [nibbles]. *)
Definition digit_value (c : ascii) : option nat := position (Ascii.eqb c) HEX.
Definition byte_of_digits (hi lo : ascii) : option Byte.byte :=
  h ← digit_value hi; l ← digit_value lo; Byte.of_N (N.of_nat (16 * h + l)).

Lemma nibbles_decode b hi lo : nibbles b = Ret (hi, lo) -> byte_of_digits hi lo = Some b.
Proof. destruct b; vm_compute; intros [= <- <-]; reflexivity. Qed.

Lemma hex_cons b bs hi lo out :
  nibbles b = Ret (hi, lo) -> hex bs = Ret out -> hex (b :: bs) = Ret (String hi (String lo out)).
Proof.
  intros Hn Ho. destruct (nibbles_ret b) as (h & l & Hn' & H1 & H2). rewrite Hn in Hn'.
  injection Hn' as <- <-. simpl. by rewrite H1, H2, Ho.
Qed.

Lemma hex_ret bs : exists out, hex bs = Ret out.
Proof.
  induction bs as [|b bs [out Ho]]; [by eexists|].
  destruct (nibbles_ret b) as (hi & lo & Hn & _). eexists. by apply hex_cons.
Qed.

Lemma hex_inj bs bs' : hex bs = hex bs' -> bs = bs'.
Proof.
  revert bs'. induction bs as [|b bs IH]; intros [|b' bs'] H; [done| | |].
  all: try destruct (hex_ret bs) as [o Ho]; try destruct (hex_ret bs') as [o' Ho'];
    try destruct (nibbles_ret b) as (hi & lo & Hn & _); try destruct (nibbles_ret b') as (hi' & lo' & Hn' & _).
  - by rewrite (hex_cons b' bs' _ _ _ Hn' Ho') in H.
  - by rewrite (hex_cons b bs _ _ _ Hn Ho) in H.
  - rewrite (hex_cons b bs _ _ _ Hn Ho), (hex_cons b' bs' _ _ _ Hn' Ho') in H.
    injection H as -> -> ->. apply nibbles_decode in Hn. apply nibbles_decode in Hn'.
    rewrite Hn in Hn'. injection Hn' as ->. f_equal. apply IH. by rewrite Ho, Ho'.
Qed.

(** * Boundary ids *)

Lemma record_digest_ret sha a c : exists d, record_digest sha a c = Ret d.
Proof. apply hex_ret. Qed.

Lemma identity_inj s s' : identity s = identity s' -> s = s'.
Proof. destruct s as [[]| | |], s' as [[]| | |]; simpl; intros H; try reflexivity; discriminate H. Qed.

Lemma identity_line_free s : absent (ascii_of_nat 10) (identity s) = true.
Proof. by destruct s as [[]| | |]. Qed.

(** A line break in front of a rest. *)
Lemma newline_app r : newline +:+ r = String (ascii_of_nat 10) r.
Proof. reflexivity. Qed.

Lemma seam_identity_inj t c s t' c' s' :
  absent (ascii_of_nat 10) t = true -> absent (ascii_of_nat 10) t' = true ->
  seam_identity t c s = seam_identity t' c' s' -> t = t' /\ c = c' /\ s = s'.
Proof.
  unfold seam_identity. rewrite !newline_app. intros Ht Ht' H.
  apply cut_first in H as [-> H]; [|done..].
  apply cut_last in H as [-> H]; [|apply identity_line_free..].
  by apply identity_inj in H as ->.
Qed.

(** The prefix a boundary carries. *)
Lemma append_inj_l (p a b : string) : p +:+ a = p +:+ b -> a = b.
Proof.
  induction p as [|x p IH]; [done|]. intros H.
  change (String x (p +:+ a) = String x (p +:+ b)) in H. injection H as H. by apply IH.
Qed.

Lemma boundary_ret sha t c s : exists b, assumption_boundary_id sha t c s = Ret ("ret:assumption:" +:+ b).
Proof.
  unfold assumption_boundary_id.
  destruct (record_digest_ret sha (seam_identity t c s) "boundary") as [d ->]. by exists d.
Qed.

Lemma boundary_collision sha t c s t' c' s' :
  assumption_boundary_id sha t c s = assumption_boundary_id sha t' c' s' ->
  sha (seam_identity t c s +:+ newline +:+ "boundary") =
  sha (seam_identity t' c' s' +:+ newline +:+ "boundary").
Proof.
  unfold assumption_boundary_id, record_digest. intros H.
  destruct (hex_ret (sha (seam_identity t c s +:+ newline +:+ "boundary"))) as [d Hd].
  destruct (hex_ret (sha (seam_identity t' c' s' +:+ newline +:+ "boundary"))) as [d' Hd'].
  apply hex_inj. rewrite Hd, Hd' in *. simpl in H. injection H as H. change (d = d') in H. by rewrite H.
Qed.

Lemma pre_effect_ret sha uuid t c : exists b d,
  assumption_pre_effect sha uuid t c =
  Ret (mkRetained ("assumption:" +:+ c +:+ ":" +:+ uuid) ("ret:assumption:" +:+ b) PreEffect
         "environment restore pending" d BUILD_ATTEMPT_ID None).
Proof.
  unfold assumption_pre_effect.
  destruct (record_digest_ret sha (t +:+ newline +:+ c +:+ newline +:+ identity PrepareEnvironment +:+
    newline +:+ "assumption:" +:+ c +:+ ":" +:+ uuid) "boundary") as [b Hb].
  destruct (record_digest_ret sha ("assumption:" +:+ c +:+ ":" +:+ uuid) "pre") as [d Hd].
  exists b, d. by rewrite Hb, Hd.
Qed.

Lemma restore_ret sha pending cause admitted : exists d,
  assumption_restore_outcome sha pending cause admitted =
  Ret (mkRetained (attempt_id pending) (terminal_boundary_id (boundary_id_ pending)) Terminal cause d
         BUILD_ATTEMPT_ID admitted).
Proof.
  unfold assumption_restore_outcome.
  destruct (record_digest_ret sha (attempt_id pending) cause) as [d ->]. by exists d.
Qed.

(** The evidence of one failure seam is never written over another's.
    Every boundary id is computed (no index of the hexadecimal table is out of
    range).  Two seams whose task ids hold no line break share a boundary only if
    task, check and seam are the same, or SHA-256 collides on the two texts
    digested.  And the terminal record of an environment restore keeps the
    attempt id of its pre-effect record but has a boundary of its own, which is
    the boundary of no failure seam: a cleanup never overwrites the pending
    record. *)
Theorem retained_evidence_is_never_overwritten (sha : string -> list Byte.byte) :
  (forall t c s, exists b, assumption_boundary_id sha t c s = Ret b) /\
  (forall t c s t' c' s',
     absent (ascii_of_nat 10) t = true -> absent (ascii_of_nat 10) t' = true ->
     assumption_boundary_id sha t c s = assumption_boundary_id sha t' c' s' ->
     (t = t' /\ c = c' /\ s = s') \/
     (exists x y, x <> y /\ sha x = sha y)) /\
  (forall uuid t c cause admitted, exists pending terminal,
     assumption_pre_effect sha uuid t c = Ret pending /\ stage pending = PreEffect /\
     assumption_restore_outcome sha pending cause admitted = Ret terminal /\ stage terminal = Terminal /\
     attempt_id terminal = attempt_id pending /\ boundary_id_ terminal <> boundary_id_ pending /\
     forall t' c' s', assumption_boundary_id sha t' c' s' <> Ret (boundary_id_ terminal)).
Proof.
  split_and!.
  - intros t c s. destruct (boundary_ret sha t c s) as [b ->]. eauto.
  - intros t c s t' c' s' Ht Ht' H. apply boundary_collision in H.
    destruct (decide (seam_identity t c s = seam_identity t' c' s')) as [He|Hne].
    + left. by apply seam_identity_inj.
    + right. eexists _, _. split; [|exact H]. rewrite !newline_app.
      by intros [? _]%cut_last.
  - intros uuid t c cause admitted. destruct (pre_effect_ret sha uuid t c) as (b & d & ->).
    eexists. destruct (restore_ret sha (mkRetained ("assumption:" +:+ c +:+ ":" +:+ uuid)
      ("ret:assumption:" +:+ b) PreEffect "environment restore pending" d BUILD_ATTEMPT_ID None)
      cause admitted) as (d' & Hd'). eexists. split_and!; [reflexivity|reflexivity|exact Hd'|reflexivity..| |].
    + done.
    + intros t' c' s'. destruct (boundary_ret sha t' c' s') as [b' ->]. done.
Qed.
